(* ===== verification/_CoqProject ===== *)
-Q . S2P
Prelude.v
KVarNConfig.v
FreeQueue.v
BlockHash.v
BlockPool.v
BlockPoolProps.v
KVManager.v
KVCoordinator.v
CacheHit.v
KVManagerProps.v
KVCoordinatorProps.v
CacheHitProps.v
KVSystem.v
Admission.v
SchedBlocks.v
KVarNTiles.v
KVarNTilesProps.v
KVarNPack.v
KVarNForward.v
KVarNLaunch.v
Ngram.v
Offload.v
OffloadProps.v
OffloadSystem.v
BlockTable.v
BlockTableProps.v
InputBatch.v
InputBatchProps.v
InputBatchOps.v
EncoderCache.v
EncoderProps.v
EncoderSystem.v
RequestQueue.v
Scheduler.v
SchedulerProps.v
SchedulerStep.v
StopCheck.v
SchedulerOutput.v
SchedulerSystem.v
SchedulerKV.v
InputBatchMirror.v
Reorder.v
WorkerStates.v
WorkerRows.v
WorkerProps.v
WorkerSystem.v
