(* ===== verification/Prelude.v ===== *)
(** * KVarN in vLLM: a verification development

    KVarN is a quantised KV cache for vLLM.  Keys and values of a request live in
    tiles of [group] tokens.  A tile that is still being written, or that holds the
    first tokens of a request (a sink), is kept in fp16 in a slot of a bounded tail
    pool; a finished tile is packed to 2 or 4 bits per element into the paged
    cache.  This library models the code that decides where each token lives and
    which tokens each query reads, together with the parts of vLLM's core that hand out
    the pages: block allocator and prefix cache, KV-cache managers, the scheduler with
    its request queues and stop checks, the encoder cache, the offloading of blocks to
    host memory, the n-gram drafter, and the worker's side of a step: the states of the
    model runner, its persistent batch and its block tables.

    ** How the parts interact

    The core ([vllm/v1/core]) keeps a pool of cache blocks.  Free blocks wait in an
    intrusive linked list in eviction order.  A full block is registered under a
    chained hash of its tokens, so that a later request with the same prefix reuses
    it.  One manager per attention type keeps the block tables of the requests; the
    coordinator reconciles their prefix-cache hits and allocates in all of them; the
    scheduler takes requests from a queue, asks for slots, and returns the blocks of
    finished or preempted requests, later if a running step may still write them.
    Outputs of media encoders are cached per content hash on both sides of the
    scheduler.  Every step, the scheduler sends the worker what changed.  The model runner
    ([vllm/v1/worker]) updates its cached states and the rows of its persistent batch, and
    computes the slot of every token from its block tables.  The batch (sequence lengths,
    query lengths, block tables, slot mapping) goes to the attention backend
    ([vllm/v1/attention/backends/kvarn_attn.py]).  Its metadata builder assigns tail
    pool slots to the tiles the step writes, flushes finished tiles into packed
    records and reclaims the slots of finished requests.  Then each layer stores the
    step's keys and values, and [forward] routes the batch to one of several
    attention paths, some of which first materialise the cached tokens into one
    packed buffer.

    ** Files

    - [Prelude]: Python exceptions, the result type [res], the state-and-error monad
      [M] (state survives an exception), total-correctness rules [wp], the [monad]
      rewrite database with [run_monad], binary64 division of integers, lists, and
      dicts as insertion-ordered association lists.
    - [KVarNConfig]: [KVarNConfig] of [quantization/kvarn/config.py] (record layout,
      presets, boundary layers, pool sizing), the spec hook [customize_spec] with the
      page sizes of [kv_cache_interface.py], and the concurrency cap of
      [platforms/cuda.py].
    - [FreeQueue]: [FreeKVCacheBlockQueue] of [core/kv_cache_utils.py] as a heap of
      links, refined to a list.
    - [BlockHash]: block hashes, extra keys and request hashing of
      [core/kv_cache_utils.py] and [request.py].
    - [BlockPool]: every operation of [core/block_pool.py] over the two files above,
      with the invariant [PoolInv]; [BlockPoolProps]: the pool as a state machine and
      its theorems.
    - [KVManager]: the full, reference-window, sliding-window and chunked-local managers
      of [core/single_type_kv_cache_manager.py], written against the interface [PoolOps]
      of the pool; [KVManagerProps]: the contract of each operation, proved from the laws
      [PoolLaws], which [BlockPoolProps] discharges for the real pool.
    - [KVCoordinator]: [core/kv_cache_coordinator.py] and [core/kv_cache_manager.py] with
      [allocate_slots]; [KVCoordinatorProps]: its stages over several groups, and the
      invariant [KVInv]; [KVSystem]: the guarantees of allocation and window removal.
    - [CacheHit]: the prefix-cache finders of each manager and of the coordinators;
      [CacheHitProps]: what they find, against the interface [Finder].
    - [SchedBlocks]: deferred frees, copy hand-over and step numbering of
      [core/sched/scheduler.py] on top of the managers, as a transition system.
    - [KVarNTiles]: the slot allocator of [KVarNMetadataBuilder.build], the mirrors
      of [_ensure_pool], [_batched_flush] and [do_kv_cache_update] over an explicit
      state of dictionaries, free slots, pool contents and packed records;
      [KVarNTilesProps]: its theorems.
    - [KVarNPack]: bit packing of [ops/kvarn_store.py] and [ops/kvarn_decode.py], the
      tile record and both of its writers and readers.
    - [KVarNForward]: classification of a batch, the verify plan, and
      [KVarNAttentionImpl.forward] with all its paths, as the span of key positions
      of every query row.
    - [KVarNLaunch]: the tile table, the prefix sums, the grid of
      [_kvarn_build_packed_kv_kernel] and [_gather_request_kv], as the source of every
      output row.
    - [Ngram]: the capped Knuth-Morris-Pratt search and the batch of
      [spec_decode/ngram_proposer.py].
    - [EncoderCache]: both managers of [core/encoder_cache_manager.py], the loop
      [_try_schedule_encoder_inputs] and the model runner's gathering, over the interface
      [EncoderOps]; [EncoderProps]: accounting and the loop's guarantee;
      [EncoderSystem]: scheduler and runner together, as a transition system.
    - [RequestQueue]: both queues of [core/sched/request_queue.py], with Python's [heapq]
      written out.
    - [Admission]: [get_computed_blocks] of [core/kv_cache_manager.py] in front of
      [allocate_slots]: from the lookup of a waiting request to the blocks it reads.
    - [Scheduler]: [core/sched/scheduler.py], [async_scheduler.py] and [utils.py]:
      [schedule] with both of its passes and preemption, [update_from_output], adding,
      finishing and resetting, over the queues and the interface [CacheOps] of the
      caches.  The requests are objects in one store; queues and lists hold their ids.
      [SchedulerProps]: the calculus [safe], the invariants [Inv] (requests, [running]
      and queues) and [LInv] (the local variables of a step), and the pass over the
      running requests; [SchedulerStep]: the pass over the waiting ones and the whole
      step; [StopCheck]: when a request stops; [SchedulerOutput]: the processing of a
      step's tokens; [SchedulerSystem]: the scheduler with any number of steps in flight,
      as a transition system.  [SchedulerKV]: the scheduler over the modelled KV-cache
      manager and encoder cache, which keep the contract [CacheLaws] of the interface.
    - [Offload]: [CPUOffloadingManager] of [kv_offload/cpu/manager.py] over the interface
      [PolicyOps], with the replacement policies of [policies/lru.py] and [policies/arc.py];
      [OffloadProps]: both policies keep [PolicyLaws]; [OffloadSystem]: the manager with
      transfers in flight, proved from the laws, as a transition system.
    - [BlockTable]: [worker/block_table.py], the kernel of the slot mapping included;
      [BlockTableProps]: rows as lists of blocks, and the slots.
    - [InputBatch]: [worker/gpu_input_batch.py] and the update builder of
      [sample/logits_processor/state.py]; [InputBatchProps]: what a row holds, and moving
      and swapping rows; [InputBatchOps]: the row of a request, adding and removing;
      [InputBatchMirror]: the batch as a mirror of the cached states.
    - [Reorder]: [reorder_batch_to_split_decodes_and_prefills] of
      [attention/backends/utils.py].
    - [WorkerStates]: [_update_states] of [worker/gpu_model_runner.py] and the recording of
      sampled tokens; [WorkerRows]: updates of a row; [WorkerProps]: contracts of the
      stages of a step; [WorkerSystem]: the runner as a transition system.

    Components that interact are related by type classes: [PoolOps]/[PoolLaws] (the block
    pool as the managers see it), [Finder], [EncoderOps], [CacheOps]/[CacheLaws] (the
    caches as the scheduler sees them) and [PolicyOps]/[PolicyLaws].

    ** What the theorems show

    - Tile lifecycle: a successful build loses no committed data in any layer (a tile
      keeps its slot, is packed from its final contents, or was a partial tile nobody
      references); slots are partitioned between the free list and resident tiles in
      every reachable state; a build succeeds exactly when the tiles that need a slot
      fit the pool, and raises otherwise; tokens stored by a step are read back; only
      committed tiles are flushed; a draft build never takes a live slot;
      [pool_slots] is enough when each request crosses no more tile boundaries than its
      query length forces, and a speculative batch is exhibited for which it is not.
    - Attention: whatever path [forward] takes on a sound causal batch, each query
      row attends to exactly the causal context of its own request; the materialised
      buffer holds each cached token once, at its place, from the tile the block
      table names; the slow gather reads the same sources.  The slow path applies the
      causal mask also to non-causal batches.
    - Records: what the flush packs is what the kernel decodes, element by element;
      kernel and reference reader agree on arbitrary bytes; both writers produce the
      same bytes; the fields of a record tile it without overlap.
    - Block pool: the free queue refines a list for every operation and every error;
      the queue holds exactly the unreferenced blocks and the cache agrees with the
      hashes stored in the blocks in every reachable state; contracts of allocation,
      protection of referenced blocks, freeing order, registration, lookup, moving
      and reset.
    - Hashing: hashes accumulated token by token equal those computed from scratch;
      equal hashes come from equal prefixes or from an explicit digest collision.  Two
      theorems exhibit requests with different inputs and equal hashes.
    - KV-cache managers: [allocate_slots] never raises on a sound call; it gives the
      request slots for all its tokens in every group, in blocks no other request can
      write, or refuses, exactly when the free blocks fall short of what it would take;
      removing skipped blocks leaves every block that the attention window still reads.
    - Scheduler: after any sequence of operations the reference count of a block is the
      number of tables, pending copies and deferred frees it occurs in, and the free
      blocks are those that occur nowhere; a block freed under a running step keeps a
      reference until the step was processed, and every deferred block is eventually
      returned.
    - Prefix-cache lookup: the hybrid lookup terminates and returns the longest length
      that is a hit in every group; the registration mask of sliding windows marks exactly
      the blocks some hit can use.  Three theorems exhibit lookups that leave a second
      full-attention group uncut, ignore context parallelism, or lose a hit.
    - Drafting: the n-gram search terminates and returns the tokens after the earliest
      occurrence of the longest admissible n-gram, for each request of a batch.
    - Encoder cache: what the scheduling loop plans can always be allocated; after every
      step the runner holds exactly the cached entries, so a scheduled request never
      misses an encoder output; slots of freed requests can all be reclaimed.  Two
      theorems exhibit where the code leaves this: preemption of a request already
      scheduled in the pass, and the slot counter of the encoder-decoder manager.
    - Queues: the priority heap refines a sorted list for every sequence of calls.
    - Admission: the blocks of the longest cached prefix that the lookup finds are
      accepted by [allocate_slots], and every later query reads, at each prefix position
      it attends to, a block cached under the request's own hash.
    - Scheduling: with requests arriving, being aborted, preempted and reset while several
      steps are in flight, [schedule], [update_from_output] and the other operations fail
      none of their assertions and raise nothing of their own; every step keeps to its
      budgets; the counters of tokens in flight, stale tokens and placeholders match the
      steps in flight; every request is running or in exactly one queue.  The hypotheses
      are that the runner answers each step with at most the tokens asked for, that ids
      are not reused, and that the adapters of all live requests fit their slots: without
      the last one a theorem exhibits a failing assertion.
      With the modelled caches behind the scheduler, each block is referenced exactly as
      often as it is held along every run, running requests have slots for their computed
      tokens, and nothing raises but the registration of full blocks; a theorem exhibits a
      reset of the prefix cache that fails.
    - Stop checks: repetition detection answers exactly whether the tokens end in enough
      copies of a pattern.
    - Offloading: no call of the manager raises, loads in flight read blocks that hold the
      data of their keys, and stores in flight write blocks that nothing else uses; what a
      store does under the LRU policy.  Two theorems exhibit stores that the ARC policy
      refuses although idle blocks remain, or that evict a key they are asked to keep.
    - Worker: [_update_states] returns for every scheduler output that fits the batch and
      leaves exactly the scheduled requests in it, each in a row that mirrors its cached
      state, in the order the attention backend asks for; this holds along every run.  The
      slot mapping sends each token to its own place in its request's blocks, on one rank.
      A theorem exhibits a swap of rows that loses the mask of allowed tokens.

    ** Conventions, bounds and fuel

    Python integers are [Z]; indices of Python lists and blocks are [nat] or [Z] with
    the out-of-range behaviour written out.  A raising statement is [Raise] of the
    exception, with the mutations made before it kept.  fp16 values are their 16-bit
    patterns and bytes integers below 256.  Python's [/] on integers is rounded to
    binary64.  The iteration order of a Python set is an argument ([set_order]) with
    the hypothesis that it permutes the set.  Loops that are not structural take fuel,
    and their theorems conclude that the loop returns: the hashing loop of a request
    ([hasher_loop]) with more fuel than there are blocks left to hash; the walks over the
    free queue ([walk_free], [iter_from]) with more than there are free blocks; the
    fixed-point loop of the hybrid lookup ([hit_loop]), where every iteration but the last
    shortens the hit, so that more iterations than the candidate length suffice; the
    n-gram scan ([scan_loop]), where every iteration advances or shortens the match, so
    that twice the number of tokens suffices; bisection and the sift loops of the heap,
    which the length of the list bounds; the loops of [schedule], where every iteration
    takes a request out of a list or passes over it ([schedule_running],
    [schedule_waiting], [allocate_or_preempt]); the loop of [condense], where every iteration
    fills a gap; and the cycles of the reordering ([follow_cycle]), where every swap settles
    a row.  All other loops are structural, over lists or
    ranges.

    ** What is not modelled

    Digest functions, FlashAttention, torch's SDPA and the device copy are parameters.
    Floating-point arithmetic (Sinkhorn normalisation, rounding to codes, Hadamard
    rotation, scores and softmax) is not modelled: the theorems are about which codes,
    scales and tokens reach it.  Tensor-parallel sharding, CUDA streams and graph
    capture are outside the model, as are KVarN on sliding-window layers (unquantised by
    default), the Mamba, cross-attention and sink managers, connectors to external
    caches, streaming sessions of the scheduler, routed experts and statistics.
    [SchedulerKV] composes the scheduler with the caches for decoder-only models;
    [get_num_common_prefix_blocks] and the zeroing of new blocks are not modelled.  The
    obligations of the callers of the block pool, the managers and the tile allocator
    appear as hypotheses of their theorems ([sound_cam], [step_pre], [slots_args], [turn],
    the callers' side of [pool_op]), and those of the scheduler towards the worker as
    [ScheduleOk].  An encoder input is assumed to arrive with its data, so that the runner
    encodes what the step lists.  Of the worker, the forward pass, sampling and the
    sampling metadata on the device, the thinking budget, asynchronous scheduling, drafting
    on the device and M-RoPE positions are not modelled. *)

From stdpp Require Export base numbers list gmap strings fin_maps sets.
From Stdlib Require Export ZArith Lia.

#[global] Open Scope Z_scope.

(** ** Python exceptions, fallible results and the state monad

    A Python statement that raises leaves the mutations made before it in
    place, so the state is threaded on both outcomes. *)

Inductive exn :=
  | AssertionError
  | ValueError
  | RuntimeError
  | IndexError
  | KeyError
  | OverflowError
  | ZeroDivisionError
  | StopIteration
  | Callee (e : exn).    (* left a component that the caller knows by its interface *)

#[global] Instance exn_eq_dec : EqDecision exn.
Proof. solve_decision. Defined.

Inductive res (A : Type) :=
  | Ok (a : A)
  | Raise (e : exn).
Arguments Ok {A} a.
Arguments Raise {A} e.

Definition rbind {A B : Type} (m : res A) (k : A -> res B) : res B :=
  match m with Ok a => k a | Raise e => Raise e end.

Definition M (S A : Type) : Type := S -> res A * S.

Definition ret {S A : Type} (a : A) : M S A := fun s => (Ok a, s).

Definition raise {S A : Type} (e : exn) : M S A := fun s => (Raise e, s).

Definition bind {S A B : Type} (m : M S A) (k : A -> M S B) : M S B :=
  fun s => match m s with
           | (Ok a, s') => k a s'
           | (Raise e, s') => (Raise e, s')
           end.

Definition gets {S A : Type} (f : S -> A) : M S A := fun s => (Ok (f s), s).

Definition modify {S : Type} (f : S -> S) : M S unit := fun s => (Ok tt, f s).

Definition lift {S A : Type} (r : res A) : M S A := fun s => (r, s).

Definition check {S : Type} (b : bool) (e : exn) : M S unit :=
  if b then ret tt else raise e.

Declare Scope py_scope.
Delimit Scope py_scope with py.
Notation "x <- m ;; k" := (bind m (fun x => k))
  (at level 20, m at level 99, k at level 200, only parsing) : py_scope.
Notation "' p <- m ;; k" := (bind m (fun p => k))
  (at level 20, p pattern, m at level 99, k at level 200, only parsing) : py_scope.
Notation "m ;; k" := (bind m (fun _ => k))
  (at level 100, k at level 200, right associativity) : py_scope.
Notation "'let?' x := m 'in' k" := (rbind m (fun x => k))
  (at level 10, x pattern, k at level 200, only parsing) : py_scope.
#[global] Open Scope py_scope.

(** [for x in l: f x] *)
Fixpoint for_each {S A : Type} (l : list A) (f : A -> M S unit) : M S unit :=
  match l with
  | [] => ret tt
  | x :: l' => f x ;; for_each l' f
  end.

(** [[f x for x in l]] with effects, left to right. *)
Fixpoint map_m {S A B : Type} (f : A -> M S B) (l : list A) : M S (list B) :=
  match l with
  | [] => ret []
  | x :: l' => y <- f x ;; ys <- map_m f l' ;; ret (y :: ys)
  end.

Fixpoint rmap {A B : Type} (f : A -> res B) (l : list A) : res (list B) :=
  match l with
  | [] => Ok []
  | x :: l' => let? y := f x in let? ys := rmap f l' in Ok (y :: ys)
  end.

(** Running a computation on one field of a larger state. *)
Definition zoom {S T A : Type} (view : S -> T) (put : T -> S -> S) (m : M T A) : M S A :=
  fun s => match m (view s) with (r, t) => (r, put t s) end.

(** ** Total correctness of a computation: it returns, and the result and
    final state satisfy [Q]. *)

Definition wp {S A : Type} (m : M S A) (s : S) (Q : A -> S -> Prop) : Prop :=
  match m s with
  | (Ok a, s') => Q a s'
  | (Raise _, _) => False
  end.

Section wp_rules.
Context {S : Type}.
Implicit Types s : S.

Lemma wp_ret {A} (a : A) s (Q : A -> S -> Prop) : Q a s -> wp (ret a) s Q.
Proof. done. Qed.

Lemma wp_bind {A B} (m : M S A) (k : A -> M S B) s Q :
  wp m s (fun a s' => wp (k a) s' Q) -> wp (bind m k) s Q.
Proof. unfold wp, bind. by destruct (m s) as [[a|e] s']. Qed.

Lemma wp_gets {A} (f : S -> A) s (Q : A -> S -> Prop) : Q (f s) s -> wp (gets f) s Q.
Proof. done. Qed.

Lemma wp_modify (f : S -> S) s (Q : unit -> S -> Prop) : Q tt (f s) -> wp (modify f) s Q.
Proof. done. Qed.

Lemma wp_check (b : bool) e s (Q : unit -> S -> Prop) :
  b = true -> Q tt s -> wp (check b e) s Q.
Proof. by intros ->. Qed.

Lemma wp_lift_ok {A} (r : res A) (a : A) s (Q : A -> S -> Prop) :
  r = Ok a -> Q a s -> wp (lift r) s Q.
Proof. by intros ->. Qed.

Lemma wp_mono {A} (m : M S A) s (P Q : A -> S -> Prop) :
  wp m s P -> (forall a s', P a s' -> Q a s') -> wp m s Q.
Proof. unfold wp. destruct (m s) as [[a|e] s']; naive_solver. Qed.

Lemma wp_eq {A} (m : M S A) s a s' (Q : A -> S -> Prop) :
  m s = (Ok a, s') -> Q a s' -> wp m s Q.
Proof. unfold wp. by intros ->. Qed.

Lemma wp_inv {A} (m : M S A) s (Q : A -> S -> Prop) :
  wp m s Q -> exists a s', m s = (Ok a, s') /\ Q a s'.
Proof. unfold wp. destruct (m s) as [[a|e] s']; naive_solver. Qed.

(** Loop rule: [I] relates the elements still to visit with the state. *)
Lemma wp_for_each {A} (f : A -> M S unit) (I : list A -> S -> Prop) l s Q :
  I l s ->
  (forall x l' s', I (x :: l') s' -> wp (f x) s' (fun _ s'' => I l' s'')) ->
  (forall s', I [] s' -> Q tt s') ->
  wp (for_each l f) s Q.
Proof.
  intros Hi Hstep Hq. revert s Hi.
  induction l as [|x l IH]; intros s Hi; simpl.
  - apply wp_ret. by apply Hq.
  - apply wp_bind. eapply wp_mono; [by apply Hstep|].
    intros [] s' Hi'. by apply IH.
Qed.

Lemma wp_zoom {T A} (view : S -> T) (put : T -> S -> S) (m : M T A) s Q :
  wp m (view s) (fun a t => Q a (put t s)) -> wp (zoom view put m) s Q.
Proof. unfold wp, zoom. by destruct (m (view s)) as [[a|e] t]. Qed.

Lemma bind_ok {A B} (m : M S A) (k : A -> M S B) s a s' :
  m s = (Ok a, s') -> bind m k s = k a s'.
Proof. unfold bind. by intros ->. Qed.

Lemma bind_raise {A B} (m : M S A) (k : A -> M S B) s e s' :
  m s = (Raise e, s') -> bind m k s = (Raise e, s').
Proof. unfold bind. by intros ->. Qed.

Lemma bind_gets {A B} (f : S -> A) (k : A -> M S B) s : bind (gets f) k s = k (f s) s.
Proof. done. Qed.

Lemma bind_modify {B} (f : S -> S) (k : unit -> M S B) s : bind (modify f) k s = k tt (f s).
Proof. done. Qed.

Lemma bind_ret {A B} (a : A) (k : A -> M S B) s : bind (ret a) k s = k a s.
Proof. done. Qed.

Lemma bind_lift {A B} (a : A) (k : A -> M S B) s : bind (lift (Ok a)) k s = k a s.
Proof. done. Qed.

Lemma for_each_app {A} (f : A -> M S unit) l1 l2 s :
  for_each (l1 ++ l2) f s = bind (for_each l1 f) (fun _ => for_each l2 f) s.
Proof.
  revert s. induction l1 as [|x l1 IH]; intros s; simpl; [done|].
  unfold bind in *. destruct (f x s) as [[[]|e] s']; [apply IH|done].
Qed.

Lemma for_each_ext {A} (f g : A -> M S unit) l s :
  (forall x s', x ∈ l -> f x s' = g x s') -> for_each l f s = for_each l g s.
Proof.
  intros Hfg. revert s. induction l as [|x l IH]; intros s; simpl; [done|]. unfold bind. rewrite Hfg by (by left).
  destruct (g x s) as [[[]|e] s']; [|done]. apply IH. intros y s0 Hy. apply Hfg. by right.
Qed.
End wp_rules.

(** Running a computation step by step. *)
Create HintDb monad.
#[export] Hint Rewrite @bind_gets @bind_modify @bind_ret @bind_lift : monad.

Ltac run_monad := autorewrite with monad.

Lemma rmap_fmap {A B} (f : A -> res B) (g : A -> B) l :
  (forall x, x ∈ l -> f x = Ok (g x)) -> rmap f l = Ok (g <$> l).
Proof.
  induction l as [|x l IH]; intros Hf; [done|]. cbn [rmap fmap list_fmap]. rewrite (Hf x) by (by left).
  cbn [rbind]. rewrite IH; [done|]. intros y Hy. apply Hf. by right.
Qed.

Lemma rmap_ok {A B} (f : A -> res B) l :
  (forall x, x ∈ l -> exists y, f x = Ok y) ->
  exists ys, rmap f l = Ok ys /\ Forall2 (fun x y => f x = Ok y) l ys.
Proof.
  induction l as [|x l IH]; intros Hf; simpl; [by exists []|].
  destruct (Hf x ltac:(by left)) as [y Hy]. destruct IH as (ys & Hys & Hall).
  { intros z Hz. apply Hf. by right. }
  exists (y :: ys). rewrite Hy. simpl. rewrite Hys. simpl. by repeat constructor.
Qed.

(** Steps through straight-line monadic code. *)
Ltac wp_step :=
  lazymatch goal with
  | |- wp (bind _ _) _ _ => apply wp_bind
  | |- wp (ret _) _ _ => apply wp_ret
  | |- wp (gets _) _ _ => apply wp_gets
  | |- wp (modify _) _ _ => apply wp_modify
  | |- wp (zoom _ _ _) _ _ => apply wp_zoom
  end.
Ltac wp_steps := repeat (wp_step; cbn beta).

(** ** Integers and Python's binary64 division

    [a / b] on Python ints is the binary64 number nearest to the quotient,
    ties to even.  It is represented by a mantissa and an exponent; [int] and
    [math.ceil] then act on that rounded number, not on the quotient. *)

Definition cdiv (a b : Z) : Z := - ((- a) / b).

Definition round_up (a b : Z) : Z := cdiv a b * b.

(** Nearest integer to [n / d], ties to even ([d > 0]). *)
Definition rne (n d : Z) : Z :=
  let q := n / d in
  match 2 * (n mod d) ?= d with
  | Lt => q
  | Gt => q + 1
  | Eq => if Z.even q then q else q + 1
  end.

Definition truediv (a b : Z) : Z * Z :=
  if a =? 0 then (0, 0) else
  let d := Z.log2 a - Z.log2 b in
  let ge := if 0 <=? d then b * 2 ^ d <=? a else b <=? a * 2 ^ (- d) in
  let e := if ge then d - 52 else d - 53 in
  (if 0 <=? e then rne a (b * 2 ^ e) else rne (a * 2 ^ (- e)) b, e).

Definition float_int (x : Z * Z) : Z :=
  let '(m, e) := x in if 0 <=? e then m * 2 ^ e else m / 2 ^ (- e).

Definition float_ceil (x : Z * Z) : Z :=
  let '(m, e) := x in if 0 <=? e then m * 2 ^ e else cdiv m (2 ^ (- e)).

Definition bit_length (n : Z) : Z := if n =? 0 then 0 else Z.log2 (Z.abs n) + 1.

(** A 32-bit signed integer, on overflow. *)
Definition int32 (z : Z) : Z := (z + 2 ^ 31) mod 2 ^ 32 - 2 ^ 31.

Lemma int32_small z : - 2 ^ 31 <= z < 2 ^ 31 -> int32 z = z.
Proof. intros Hz. unfold int32. rewrite Z.mod_small; lia. Qed.

Lemma rne_bound n d : 0 < d -> - d <= 2 * (rne n d * d - n) <= d.
Proof.
  intros Hd. unfold rne.
  pose proof (Z.div_mod n d ltac:(lia)). pose proof (Z.mod_pos_bound n d Hd).
  destruct (Z.compare_spec (2 * (n mod d)) d); [destruct (Z.even _)|..]; nia.
Qed.

Lemma cdiv_spec a b : 0 < b -> b * (cdiv a b - 1) < a <= b * cdiv a b.
Proof.
  intros Hb. unfold cdiv. pose proof (Z.div_mod (- a) b ltac:(lia)).
  pose proof (Z.mod_pos_bound (- a) b Hb). nia.
Qed.

Lemma cdiv_alt a b : 0 < b -> cdiv a b = (a + b - 1) / b.
Proof.
  intros Hb. pose proof (cdiv_spec a b Hb).
  apply (Z.div_unique (a + b - 1) b (cdiv a b) (a + b - 1 - b * cdiv a b)); lia.
Qed.

Lemma cdiv_unique a b q : 0 < b -> b * (q - 1) < a <= b * q -> cdiv a b = q.
Proof. intros Hb Hq. pose proof (cdiv_spec a b Hb). nia. Qed.

(** For a dividend below [2 ^ 53] the mantissa is the rounding of
    [a * 2 ^ k / b] for a [k] large enough to separate the integers. *)
Lemma truediv_small a b :
  0 < a < 2 ^ 53 -> 0 < b ->
  exists k, 0 <= k /\ b < 2 * 2 ^ k /\ truediv a b = (rne (a * 2 ^ k) b, - k).
Proof.
  intros Ha Hb. unfold truediv.
  destruct (Z.eqb_spec a 0) as [|_]; [lia|].
  pose proof (Z.log2_spec a ltac:(lia)) as [La Ua].
  pose proof (Z.log2_spec b ltac:(lia)) as [Lb Ub].
  pose proof (Z.log2_nonneg a). pose proof (Z.log2_nonneg b).
  assert (Z.log2 a < 53) by (apply Z.log2_lt_pow2; lia).
  set (la := Z.log2 a) in *. set (lb := Z.log2 b) in *.
  assert (Hk : forall k, 0 <= k -> 2 ^ 52 * b <= a * 2 ^ k -> b < 2 * 2 ^ k).
  { intros k Hk Hle. change (2 ^ 53) with (2 * 2 ^ 52) in *.
    assert (0 < 2 ^ k) by (apply Z.pow_pos_nonneg; lia).
    pose proof (Z.mul_lt_mono_pos_r (2 ^ k) a (2 * 2 ^ 52)). lia. }
  assert (Hlow : 2 ^ 52 * b <= a * 2 ^ (53 - (la - lb) - 0)).
  { replace (53 - (la - lb) - 0) with (52 - la + (lb + 1)) by lia.
    rewrite Z.pow_add_r by lia.
    replace 52 with ((52 - la) + la) at 1 by lia. rewrite Z.pow_add_r by lia.
    replace (Z.succ lb) with (lb + 1) in Ub by lia.
    assert (0 < 2 ^ (52 - la)) by (apply Z.pow_pos_nonneg; lia).
    assert (2 ^ la * b <= a * 2 ^ (lb + 1)) by nia. nia. }
  set (ge := if 0 <=? la - lb then _ else _).
  assert (Hge : forall k, k = 53 - (la - lb) - (if ge then 1 else 0) ->
            0 <= k -> 2 ^ 52 * b <= a * 2 ^ k).
  { intros k -> Hk0. subst ge.
    destruct (Z.leb_spec 0 (la - lb)) as [Hd|Hd].
    - destruct (Z.leb_spec (b * 2 ^ (la - lb)) a) as [Hc|Hc].
      + replace 52 with ((la - lb) + (53 - (la - lb) - 1)) at 1 by lia.
        rewrite Z.pow_add_r by lia. nia.
      + apply Hlow.
    - destruct (Z.leb_spec b (a * 2 ^ (- (la - lb)))) as [Hc|Hc].
      + replace (53 - (la - lb) - 1) with (52 + - (la - lb)) by lia.
        rewrite Z.pow_add_r by lia. nia.
      + apply Hlow. }
  exists (53 - (la - lb) - (if ge then 1 else 0)).
  assert (0 <= 53 - (la - lb) - (if ge then 1 else 0)) by (destruct ge; lia).
  split; [done|]. split; [apply Hk, Hge; done|].
  replace (if ge then la - lb - 52 else la - lb - 53)
    with (- (53 - (la - lb) - (if ge then 1 else 0))) by (destruct ge; lia).
  f_equal. rewrite Z.opp_involutive.
  destruct (Z.leb_spec 0 (- (53 - (la - lb) - (if ge then 1 else 0)))) as [Hz|Hz]; [|done].
  replace (53 - (la - lb) - (if ge then 1 else 0)) with 0 by lia.
  by rewrite Z.opp_0, !Z.pow_0_r, !Z.mul_1_r.
Qed.

Lemma float_int_truediv a b :
  0 <= a < 2 ^ 53 -> 0 < b -> float_int (truediv a b) = a / b.
Proof.
  intros Ha Hb. destruct (decide (a = 0)) as [->|Ha0].
  { unfold truediv, float_int. simpl. by rewrite Z.div_0_l by lia. }
  destruct (truediv_small a b ltac:(lia) Hb) as (k & Hk & Hsep & ->).
  pose proof (rne_bound (a * 2 ^ k) b Hb) as Hr. set (m := rne _ _) in *.
  pose proof (Z.div_mod a b ltac:(lia)). pose proof (Z.mod_pos_bound a b Hb).
  assert (0 < 2 ^ k) by (apply Z.pow_pos_nonneg; lia).
  set (q := a / b) in *. set (r := a mod b) in *.
  assert (q * 2 ^ k <= m) by nia. assert (m < (q + 1) * 2 ^ k) by nia.
  unfold float_int. rewrite Z.opp_involutive.
  destruct (Z.leb_spec 0 (- k)) as [Hz|Hz].
  - replace k with 0 in * by lia. simpl in *. lia.
  - symmetry. apply (Z.div_unique m (2 ^ k) q (m - 2 ^ k * q)); lia.
Qed.

Lemma float_ceil_truediv a b :
  0 <= a < 2 ^ 53 -> 0 < b -> float_ceil (truediv a b) = cdiv a b.
Proof.
  intros Ha Hb. destruct (decide (a = 0)) as [->|Ha0].
  { unfold truediv, float_ceil, cdiv. simpl. by rewrite Z.div_0_l by lia. }
  destruct (truediv_small a b ltac:(lia) Hb) as (k & Hk & Hsep & ->).
  pose proof (rne_bound (a * 2 ^ k) b Hb) as Hr. set (m := rne _ _) in *.
  pose proof (cdiv_spec a b Hb).
  assert (0 < 2 ^ k) by (apply Z.pow_pos_nonneg; lia).
  set (c := cdiv a b) in *.
  assert (m <= c * 2 ^ k) by nia. assert ((c - 1) * 2 ^ k < m) by nia.
  unfold float_ceil. rewrite Z.opp_involutive.
  destruct (Z.leb_spec 0 (- k)) as [Hz|Hz].
  - replace k with 0 in * by lia. simpl in *. lia.
  - apply cdiv_unique; lia.
Qed.

Example truediv_ex : float_int (truediv (2 ^ 53 + 1) 1) = 2 ^ 53.
Proof. vm_compute. reflexivity. Qed.

(** Case analysis on membership in a concrete list. *)
Ltac elem_cases H :=
  repeat (apply elem_of_cons in H as [H|H]); [subst .. | by apply elem_of_nil in H].

(** Membership in concrete list expressions, by case analysis. *)
Ltac elem_solve :=
  repeat (rewrite elem_of_app in * || rewrite elem_of_cons in * || rewrite elem_of_nil in * );
  naive_solver.

(** ** Lists *)

Lemma filter_id {A} (P : A -> Prop) `{forall x, Decision (P x)} (l : list A) :
  (forall x, x ∈ l -> P x) -> filter P l = l.
Proof.
  induction l as [|x l IH]; intros Hl; [done|].
  rewrite filter_cons_True, IH; [done|intros y Hy; apply Hl; by right|apply Hl; by left].
Qed.

Lemma filter_none {A} (Q : A -> Prop) `{forall x, Decision (Q x)} (l : list A) : (forall x, x ∈ l -> ~ Q x) -> filter Q l = [].
Proof. induction l as [|x l IH]; intros Hl; [done|]. rewrite filter_cons_False by (apply Hl; by left). apply IH. intros y Hy. apply Hl. by right. Qed.

Lemma pairs_ind {A} (P : list A -> Prop) :
  P [] -> (forall x, P [x]) -> (forall x y l, P l -> P (x :: y :: l)) -> forall l, P l.
Proof. intros H0 H1 H2. fix IH 1. intros [|x [|y l]]; [done|apply H1|apply H2, IH]. Qed.

Lemma concat_lookup {A} (rows : list (list A)) w r i row :
  Forall (fun row => length row = w) rows -> rows !! r = Some row -> (i < w)%nat ->
  concat rows !! (r * w + i)%nat = row !! i.
Proof.
  intros Hw. revert r. induction Hw as [|row0 rows Hl Hw IH]; intros r Hr Hi; [done|]. cbn [concat].
  destruct r as [|r]; simpl in Hr; [injection Hr as ->; by rewrite lookup_app_l by lia|].
  rewrite lookup_app_r by (simpl; lia). rewrite <- (IH r Hr Hi). f_equal. simpl. lia.
Qed.

Lemma concat_length {A} (rows : list (list A)) w :
  Forall (fun row => length row = w) rows -> length (concat rows) = (length rows * w)%nat.
Proof. induction 1 as [|row rows Hl Hw IH]; [done|]. cbn [concat length]. rewrite length_app, IH. lia. Qed.

Lemma fmap_concat {A B} (f : A -> B) (rows : list (list A)) :
  @fmap list _ A B f (concat rows) = concat (@fmap list _ (list A) (list B) (@fmap list _ A B f) rows).
Proof.
  induction rows as [|row rows IH]; [done|]. rewrite fmap_cons. cbn [concat]. by rewrite fmap_app, IH.
Qed.

Lemma NoDup_middle {A} (l1 l2 : list A) x :
  NoDup (l1 ++ x :: l2) <-> x ∉ l1 /\ x ∉ l2 /\ NoDup (l1 ++ l2).
Proof.
  rewrite <- Permutation_middle, NoDup_cons, elem_of_app. naive_solver.
Qed.

(** Sums of integers. *)
Definition zsum (l : list Z) : Z := foldr Z.add 0 l.

Lemma zsum_app l1 l2 : zsum (l1 ++ l2) = zsum l1 + zsum l2.
Proof. unfold zsum. induction l1 as [|x l1 IH]; simpl; lia. Qed.

Lemma zsum_cons x l : zsum (x :: l) = x + zsum l.
Proof. done. Qed.

Lemma zsum_nonneg {A} (f : A -> Z) l : (forall x, 0 <= f x) -> 0 <= zsum (f <$> l).
Proof. intros Hf. induction l as [|x l IH]; [done|]. rewrite fmap_cons, zsum_cons. specialize (Hf x). lia. Qed.

#[export] Instance zsum_perm : Proper (Permutation ==> eq) zsum.
Proof. intros l1 l2 Hp. induction Hp; rewrite ?zsum_cons; lia. Qed.

(** ** Python dicts as insertion-ordered association lists *)

Section py_dict.
Context {K V : Type} `{EqDecision K}.
Implicit Types (d : list (K * V)) (k : K).

Fixpoint dict_get d k : option V :=
  match d with
  | [] => None
  | (k', v) :: d' => if decide (k' = k) then Some v else dict_get d' k
  end.

(** [d[k] = v]: an existing key keeps its position. *)
Fixpoint dict_set d k (v : V) : list (K * V) :=
  match d with
  | [] => [(k, v)]
  | (k', v') :: d' => if decide (k' = k) then (k, v) :: d' else (k', v') :: dict_set d' k v
  end.

(** [d.pop(k, None)] without its result. *)
Definition dict_pop d k : list (K * V) := filter (fun x => x.1 <> k) d.

Lemma dict_get_Some d k : is_Some (dict_get d k) <-> k ∈ d.*1.
Proof.
  induction d as [|[k' v] d IH]; simpl; [rewrite elem_of_nil; split; [by intros [? ?]|done]|].
  destruct (decide (k' = k)) as [->|Hne]; rewrite elem_of_cons.
  - split; [by left|eauto].
  - rewrite IH. split; [by right|by intros [->|?]].
Qed.

Lemma dict_get_None d k : dict_get d k = None <-> k ∉ d.*1.
Proof. rewrite <- dict_get_Some, eq_None_not_Some. done. Qed.

Lemma dict_get_elem d k v : NoDup d.*1 -> dict_get d k = Some v <-> (k, v) ∈ d.
Proof.
  induction d as [|[k' v'] d IH]; simpl; [rewrite elem_of_nil; done|].
  intros [Hk Hnd]%NoDup_cons. destruct (decide (k' = k)) as [->|Hne]; rewrite elem_of_cons.
  - split; [intros [= ->]; by left|]. intros [[= ->]|Hin]; [done|].
    destruct Hk. by apply (list_elem_of_fmap_2 fst) in Hin.
  - rewrite IH by done. split; [by right|]. by intros [[= -> ->]|?].
Qed.

Lemma dict_get_pop d k k' : dict_get (dict_pop d k) k' = if decide (k' = k) then None else dict_get d k'.
Proof.
  unfold dict_pop. induction d as [|[k0 v] d IH]; simpl; [by destruct (decide _)|].
  rewrite filter_cons. simpl. destruct (decide (k0 <> k)) as [Hne|Heq].
  - simpl. rewrite IH. destruct (decide (k0 = k')), (decide (k' = k)); congruence.
  - rewrite IH. destruct (decide (k' = k)), (decide (k0 = k')); try done. destruct Heq. congruence.
Qed.

Lemma dict_pop_keys d k : (dict_pop d k).*1 = filter (fun x => x <> k) d.*1.
Proof.
  unfold dict_pop. induction d as [|[k0 v] d IH]; [done|].
  rewrite fmap_cons, !filter_cons. cbn [fst]. destruct (decide (k0 <> k)); rewrite ?fmap_cons; by rewrite IH.
Qed.

(** Popping a present key of a well-formed dict takes out exactly its value. *)
Lemma dict_pop_perm d k v :
  NoDup d.*1 -> dict_get d k = Some v -> d ≡ₚ (k, v) :: dict_pop d k.
Proof.
  unfold dict_pop. induction d as [|[k0 v0] d IH]; simpl; [done|].
  intros [Hk Hnd]%NoDup_cons. rewrite filter_cons. simpl.
  destruct (decide (k0 = k)) as [->|Hne].
  - intros [= ->]. rewrite decide_False by tauto.
    assert (filter (fun x => x.1 <> k) d = d) as ->; [|done]. clear IH Hnd.
    induction d as [|[k1 v1] d IH]; [done|]. simpl in Hk. apply not_elem_of_cons in Hk as [Hk1 Hk].
    rewrite filter_cons_True by (simpl; congruence). by rewrite IH.
  - intros Hg. rewrite decide_True by done. rewrite (IH Hnd Hg) at 1. apply Permutation_swap.
Qed.

Lemma dict_set_new d k v : k ∉ d.*1 -> dict_set d k v = d ++ [(k, v)].
Proof.
  induction d as [|[k0 v0] d IH]; simpl; [done|]. rewrite not_elem_of_cons. intros [Hne Hk].
  rewrite decide_False by congruence. by rewrite IH.
Qed.

Lemma dict_get_set d k v k' : dict_get (dict_set d k v) k' = if decide (k' = k) then Some v else dict_get d k'.
Proof.
  induction d as [|[k0 v0] d IH]; simpl.
  - destruct (decide (k = k')), (decide (k' = k)); congruence.
  - destruct (decide (k0 = k)) as [->|Hne]; simpl.
    + destruct (decide (k = k')), (decide (k' = k)); congruence.
    + rewrite IH. destruct (decide (k0 = k')), (decide (k' = k)); congruence.
Qed.

Lemma dict_get_set_eq d k v : dict_get (dict_set d k v) k = Some v.
Proof. by rewrite dict_get_set, decide_True. Qed.

Lemma dict_get_in d k v : dict_get d k = Some v -> (k, v) ∈ d.
Proof.
  induction d as [|[k' v'] d IH]; simpl; [done|]. case_decide; [intros [= ->]; subst; by left|]. intros Hg. right. by apply IH.
Qed.

Lemma dict_get_app d d' k v : dict_get d k = Some v -> dict_get (d ++ d') k = Some v.
Proof. induction d as [|[k' v'] d IH]; simpl; [done|]. by case_decide. Qed.

Lemma dict_get_snoc d k v : k ∉ d.*1 -> dict_get (d ++ [(k, v)]) k = Some v.
Proof. intros Hk. by rewrite <- dict_set_new, dict_get_set_eq. Qed.

Lemma dict_set_elem d k v i x : (i, x) ∈ dict_set d k v -> (i, x) ∈ d \/ (i = k /\ x = v).
Proof.
  induction d as [|[k' v'] d IH]; simpl; intros Hx.
  - apply list_elem_of_singleton in Hx. injection Hx as -> ->. by right.
  - destruct (decide (k' = k)) as [->|Hne].
    + apply elem_of_cons in Hx as [[= -> ->]|Hx]; [by right|left; by right].
    + apply elem_of_cons in Hx as [->|Hx]; [left; by left|]. destruct (IH Hx) as [Hd|Hd]; [left; by right|by right].
Qed.

Lemma dict_pop_sub k d x : x ∈ dict_pop d k -> x ∈ d.
Proof. unfold dict_pop. by intros [_ ?]%list_elem_of_filter. Qed.

Lemma dict_pop_ne k d x : x ∈ dict_pop d k -> x.1 <> k.
Proof. unfold dict_pop. by intros [? _]%list_elem_of_filter. Qed.
End py_dict.
