(* ===== verification/KVarNConfig.v ===== *)
(** * KVarN configuration: tile layout, pool sizing, spec plumbing

    Models [vllm/model_executor/layers/quantization/kvarn/config.py]
    ([KVarNConfig]), the spec hook [KVarNAttentionBackend.customize_spec] with
    the page-size properties of [AttentionSpec], and the concurrency cap of the
    CUDA platform's [check_and_update_config].

    Integer expressions are exact.  [math.ceil(a / b)] and [int(a / b)] go
    through the binary64 quotient of the prelude; the float products of
    [pool_budget_bytes] use the binary64 operations of [SpecFloat]. *)

From stdpp Require Import pretty sorting.
From Stdlib Require Import Floats.SpecFloat.
From S2P Require Import Prelude.

(** ** Python float helpers used by the budget computation *)

Module PyFloat.
Definition prec : Z := 53.
Definition emax : Z := 1024.
Definition of_int (z : Z) : spec_float := binary_normalize prec emax z 0 false.
Definition mul (x y : spec_float) : spec_float := SFmul prec emax x y.
Definition sub (x y : spec_float) : spec_float := SFsub prec emax x y.

(** [int(x)]: truncation toward zero. *)
Definition to_int (x : spec_float) : res Z :=
  match x with
  | S754_zero _ => Ok 0
  | S754_finite s m e =>
      let a := if 0 <=? e then Z.pos m * 2 ^ e else Z.pos m / 2 ^ (- e) in
      Ok (if s then - a else a)
  | S754_infinity _ => Raise OverflowError
  | S754_nan => Raise ValueError
  end.
End PyFloat.

(** [int(a / b)] on Python ints. *)
Definition int_truediv (a b : Z) : res Z :=
  if b =? 0 then Raise ZeroDivisionError
  else Ok (Z.sgn a * Z.sgn b * float_int (truediv (Z.abs a) (Z.abs b))).

(** ** The configuration record and its byte layout *)

Record KVarNConfig := mkKVarNConfig {
  head_dim : Z;
  key_bits : Z;
  value_bits : Z;
  group : Z;
  sinkhorn_iters : Z;
  sink_tokens : Z;
  boundary_skip_layers : Z;
}.

Section layout.
Variable c : KVarNConfig.

Definition k_packed_bytes : Z :=
  float_ceil (truediv (c.(head_dim) * c.(group) * c.(key_bits)) 8).

Definition v_packed_bytes : Z :=
  float_ceil (truediv (c.(group) * c.(head_dim) * c.(value_bits)) 8).

Definition k_scale_bytes : Z := (2 * c.(head_dim) + c.(group)) * 2.

Definition v_scale_bytes : Z := (c.(head_dim) + 2 * c.(group)) * 2.

Definition tile_bytes : Z :=
  k_packed_bytes + k_scale_bytes + v_packed_bytes + v_scale_bytes.

Definition tile_bytes_aligned : Z :=
  if 256 <=? c.(head_dim) then
    let slot := float_ceil (truediv tile_bytes c.(group)) in
    let slot_pow2 := Z.shiftl 1 (bit_length (slot - 1)) in
    slot_pow2 * c.(group)
  else ((tile_bytes + 7) / 8) * 8.

Definition k_packed_offset : Z := 0.

Definition k_s_col_offset : Z := k_packed_offset + k_packed_bytes.

Definition k_zp_offset : Z := k_s_col_offset + c.(head_dim) * 2.

Definition k_s_row_offset : Z := k_zp_offset + c.(head_dim) * 2.

Definition v_packed_offset : Z := k_s_row_offset + c.(group) * 2.

Definition v_s_col_offset : Z := v_packed_offset + v_packed_bytes.

Definition v_s_row_offset : Z := v_s_col_offset + c.(head_dim) * 2.

Definition v_zp_offset : Z := v_s_row_offset + c.(group) * 2.
End layout.

(** ** Tail-pool sizing *)

Definition POOL_MEM_FRAC_DEFAULT : spec_float := S754_finite false 5764607523034235 (-56).
Definition POOL_USABLE_SHARE_DEFAULT : spec_float := S754_finite false 4503599627370496 (-53).

Definition slot_bytes_per_layer (c : KVarNConfig) (num_kv_heads : Z) : Z :=
  c.(group) * num_kv_heads * c.(head_dim) * 4.

Definition prefill_blocks (c : KVarNConfig) (max_num_batched_tokens : Z) : Z :=
  (max_num_batched_tokens + c.(group) - 1) / c.(group).

Definition pool_slots (c : KVarNConfig) (max_num_seqs max_num_batched_tokens : Z) : Z :=
  Z.max (2 * max_num_seqs + prefill_blocks c max_num_batched_tokens + 8) 8.

(** [env] is the parsed value of KVARN_POOL_MEM_FRAC, when it is set. *)
Definition pool_budget_bytes (env : option spec_float) (total_gpu_bytes : Z)
    (gpu_memory_utilization : option spec_float) (weight_bytes : option Z) : res Z :=
  match weight_bytes, gpu_memory_utilization with
  | Some w, Some util =>
      let share := default POOL_USABLE_SHARE_DEFAULT env in
      let usable :=
        PyFloat.sub (PyFloat.mul util (PyFloat.of_int total_gpu_bytes)) (PyFloat.of_int w) in
      let? b := PyFloat.to_int (PyFloat.mul share usable) in Ok (Z.max 0 b)
  | _, _ =>
      let frac := default POOL_MEM_FRAC_DEFAULT env in
      PyFloat.to_int (PyFloat.mul (PyFloat.of_int total_gpu_bytes) frac)
  end.

(** The part of [max_supported_seqs] after the budget is known. *)
Definition seqs_of_budget (c : KVarNConfig)
    (budget num_kv_heads num_layers max_num_batched_tokens : Z) : res Z :=
  let slot_bytes := slot_bytes_per_layer c num_kv_heads * Z.max num_layers 1 in
  let? max_slots := int_truediv budget slot_bytes in
  Ok (Z.max 1 ((max_slots - prefill_blocks c max_num_batched_tokens - 8) / 2)).

Definition max_supported_seqs (c : KVarNConfig) (env : option spec_float)
    (total_gpu_bytes num_kv_heads num_layers max_num_batched_tokens : Z)
    (frac : option spec_float) (gpu_memory_utilization : option spec_float)
    (weight_bytes : option Z) : res Z :=
  let? budget :=
    match frac with
    | Some f => PyFloat.to_int (PyFloat.mul (PyFloat.of_int total_gpu_bytes) f)
    | None => pool_budget_bytes env total_gpu_bytes gpu_memory_utilization weight_bytes
    end in
  seqs_of_budget c budget num_kv_heads num_layers max_num_batched_tokens.

Definition pool_bytes (c : KVarNConfig)
    (max_num_seqs max_num_batched_tokens num_kv_heads num_layers : Z) : Z :=
  pool_slots c max_num_seqs max_num_batched_tokens
  * slot_bytes_per_layer c num_kv_heads * Z.max num_layers 1.

(** ** Presets *)

Record preset := mkPreset { p_key_bits : Z; p_value_bits : Z; p_group : Z }.

Definition KVARN_PRESETS : list (string * preset) :=
  [("kvarn_k4v2_g128"%string, mkPreset 4 2 128);
   ("kvarn_k4v4_g128"%string, mkPreset 4 4 128);
   ("kvarn_k4v2_g64"%string, mkPreset 4 2 64);
   ("kvarn_k4v4_g64"%string, mkPreset 4 4 64)].

Definition preset_of (cache_dtype : string) : option preset :=
  match list_find (fun p => p.1 = cache_dtype) KVARN_PRESETS with
  | Some (_, (_, p)) => Some p
  | None => None
  end.

(** [iters_env] and [sink_env]: the integer values of KVARN_SINKHORN_ITERS and
    KVARN_SINK_TOKENS, when they are set. *)
Definition from_cache_dtype (iters_env sink_env : option Z)
    (cache_dtype : string) (hd : Z) : res KVarNConfig :=
  match preset_of cache_dtype with
  | None => Raise ValueError
  | Some p =>
      Ok {| head_dim := hd; key_bits := p.(p_key_bits); value_bits := p.(p_value_bits);
            group := p.(p_group);
            sinkhorn_iters := default 8 iters_env;
            sink_tokens := default 128 sink_env;
            boundary_skip_layers := 0 |}
  end.

(** Python's [range(a, b)]. *)
Definition range (a b : Z) : list Z := seqZ a (b - a).

Definition boundary_layers (num_layers n : Z) : list Z :=
  if (n <=? 0) || (num_layers <=? 0) then [] else
  let n := Z.min n (num_layers / 2) in
  let first := range 0 n in
  let last := range (num_layers - n) num_layers in
  merge_sort Z.le (remove_dups (first ++ last)).

Definition get_boundary_skip_layers (num_layers n : Z) : list string :=
  (fun i => pretty i) <$> boundary_layers num_layers n.

(** ** Quantization modes and the per-layer cache spec *)

Inductive KVQuantMode :=
  | NONE | FP8_PER_TENSOR | INT8_PER_TOKEN_HEAD | FP8_PER_TOKEN_HEAD
  | INT4_PER_TOKEN_HEAD | NVFP4
  | TURBOQUANT_K8V4 | TURBOQUANT_4BIT_NC | TURBOQUANT_K3V4_NC | TURBOQUANT_3BIT_NC
  | KVARN_K4V2_G128 | KVARN_K4V4_G128 | KVARN_K4V2_G64 | KVARN_K4V4_G64
  | KVARN_MLA_K4_G128.

#[global] Instance KVQuantMode_eq_dec : EqDecision KVQuantMode.
Proof. solve_decision. Defined.

#[local] Open Scope string_scope.
#[local] Open Scope Z_scope.

Definition mode_members : list (string * KVQuantMode) :=
  [("NONE", NONE); ("FP8_PER_TENSOR", FP8_PER_TENSOR);
   ("INT8_PER_TOKEN_HEAD", INT8_PER_TOKEN_HEAD);
   ("FP8_PER_TOKEN_HEAD", FP8_PER_TOKEN_HEAD);
   ("INT4_PER_TOKEN_HEAD", INT4_PER_TOKEN_HEAD); ("NVFP4", NVFP4);
   ("TURBOQUANT_K8V4", TURBOQUANT_K8V4); ("TURBOQUANT_4BIT_NC", TURBOQUANT_4BIT_NC);
   ("TURBOQUANT_K3V4_NC", TURBOQUANT_K3V4_NC); ("TURBOQUANT_3BIT_NC", TURBOQUANT_3BIT_NC);
   ("KVARN_K4V2_G128", KVARN_K4V2_G128); ("KVARN_K4V4_G128", KVARN_K4V4_G128);
   ("KVARN_K4V2_G64", KVARN_K4V2_G64); ("KVARN_K4V4_G64", KVARN_K4V4_G64);
   ("KVARN_MLA_K4_G128", KVARN_MLA_K4_G128)].

Definition mode_name (m : KVQuantMode) : string :=
  match list_find (fun p => p.2 = m) mode_members with
  | Some (_, (n, _)) => n
  | None => ""
  end.

(** [KVQuantMode[name]] *)
Definition mode_of_name (name : string) : res KVQuantMode :=
  match list_find (fun p => p.1 = name) mode_members with
  | Some (_, (_, m)) => Ok m
  | None => Raise KeyError
  end.

Definition ascii_lower (a : Ascii.ascii) : Ascii.ascii :=
  let n := Ascii.N_of_ascii a in
  if (65 <=? n)%N && (n <=? 90)%N then Ascii.ascii_of_N (n + 32) else a.

Definition ascii_upper (a : Ascii.ascii) : Ascii.ascii :=
  let n := Ascii.N_of_ascii a in
  if (97 <=? n)%N && (n <=? 122)%N then Ascii.ascii_of_N (n - 32) else a.

Fixpoint str_map (f : Ascii.ascii -> Ascii.ascii) (s : string) : string :=
  match s with
  | EmptyString => EmptyString
  | String a s' => String (f a) (str_map f s')
  end.

Definition lower : string -> string := str_map ascii_lower.
Definition upper : string -> string := str_map ascii_upper.
Definition startswith (s p : string) : bool := String.prefix p s.

Definition get_kv_quant_mode (kv_cache_dtype : string) : res KVQuantMode :=
  if String.eqb kv_cache_dtype "int4_per_token_head" then Ok INT4_PER_TOKEN_HEAD
  else if String.eqb kv_cache_dtype "int8_per_token_head" then Ok INT8_PER_TOKEN_HEAD
  else if String.eqb kv_cache_dtype "fp8_per_token_head" then Ok FP8_PER_TOKEN_HEAD
  else if startswith kv_cache_dtype "nvfp4" then Ok NVFP4
  else if startswith kv_cache_dtype "turboquant_" then mode_of_name (upper kv_cache_dtype)
  else if startswith kv_cache_dtype "kvarn_" then mode_of_name (upper kv_cache_dtype)
  else if startswith kv_cache_dtype "fp8" then Ok FP8_PER_TENSOR
  else Ok NONE.

Record AttentionSpec := mkAttentionSpec {
  block_size : Z;
  num_kv_heads : Z;
  head_size : Z;
  head_size_v : Z;
  dtype_size : Z;                      (* get_dtype_size(dtype) *)
  kv_quant_mode : KVQuantMode;
  page_size_padded : option Z;
  num_head_slots : option Z;
  state_content_bytes : option Z;
}.

Definition num_heads (s : AttentionSpec) : Z :=
  match s.(num_head_slots) with Some n => n | None => s.(num_kv_heads) end.

Definition state_content_size_bytes (s : AttentionSpec) : Z :=
  match s.(state_content_bytes) with
  | Some n => n
  | None => (s.(head_size) + s.(head_size_v)) * s.(dtype_size)
  end.

Definition unpadded_page_size_bytes (s : AttentionSpec) : Z :=
  num_heads s * s.(block_size) * state_content_size_bytes s.

Definition page_size_bytes (s : AttentionSpec) : res Z :=
  match s.(page_size_padded) with
  | Some p =>
      if unpadded_page_size_bytes s <=? p then Ok p else Raise AssertionError
  | None => Ok (unpadded_page_size_bytes s)
  end.

Definition with_state_content_bytes (n : Z) (s : AttentionSpec) : AttentionSpec :=
  {| block_size := s.(block_size); num_kv_heads := s.(num_kv_heads);
     head_size := s.(head_size); head_size_v := s.(head_size_v);
     dtype_size := s.(dtype_size); kv_quant_mode := s.(kv_quant_mode);
     page_size_padded := s.(page_size_padded); num_head_slots := s.(num_head_slots);
     state_content_bytes := Some n |}.

Definition customize_spec (iters_env sink_env : option Z) (spec : AttentionSpec)
    : res AttentionSpec :=
  match spec.(state_content_bytes) with
  | Some _ => Ok spec
  | None =>
      let name := mode_name spec.(kv_quant_mode) in
      if negb (startswith name "KVARN_") || startswith name "KVARN_MLA" then Ok spec else
      let? cfg := from_cache_dtype iters_env sink_env (lower name) spec.(head_size) in
      Ok (with_state_content_bytes (tile_bytes_aligned cfg / cfg.(group)) spec)
  end.

(** [KVarNAttentionBackend.get_kv_cache_shape] *)
Definition get_kv_cache_shape (iters_env sink_env : option Z)
    (num_blocks block_size num_kv_heads head_size : Z) (cache_dtype_str : string)
    : res (Z * Z * Z) :=
  let? cfg := from_cache_dtype iters_env sink_env cache_dtype_str head_size in
  if block_size =? cfg.(group) then Ok (num_blocks, num_kv_heads, tile_bytes_aligned cfg)
  else Raise AssertionError.

Definition supports_head_size (head_size : Z) : bool :=
  bool_decide (head_size ∈ [128; 256; 512]).

(** The KVarN clause of the platform's [check_and_update_config]: skip-layer
    bookkeeping, the head-size check and the cap on [max_num_seqs].  Returns the
    updated skip list and [max_num_seqs]. *)
Definition cap_concurrency (env : option spec_float) (iters_env sink_env : option Z)
    (quant_sliding : bool) (cache_dtype : string) (use_mla : bool)
    (head_size total_gpu_bytes heads kvarn_layers max_num_batched_tokens : Z)
    (gpu_memory_utilization : spec_float) (weight_bytes : option Z)
    (skip_layers : list string) (max_num_seqs : Z) : res (list string * Z) :=
  if startswith cache_dtype "kvarn_" && negb (startswith cache_dtype "kvarn_mla")
     && negb use_mla
  then
    if negb (supports_head_size head_size) then Raise ValueError else
    let skip_layers :=
      if quant_sliding then filter (fun l => l ≠ "sliding_window") skip_layers
      else if bool_decide ("sliding_window" ∈ skip_layers) then skip_layers
      else (skip_layers ++ ["sliding_window"])%list in
    let? cfg := from_cache_dtype iters_env sink_env cache_dtype head_size in
    let? supported :=
      max_supported_seqs cfg env total_gpu_bytes heads kvarn_layers
        max_num_batched_tokens None (Some gpu_memory_utilization) weight_bytes in
    Ok (skip_layers, if supported <? max_num_seqs then supported else max_num_seqs)
  else Ok (skip_layers, max_num_seqs).

(** ** Basic facts *)

(** The size of an admissible configuration: positive sizes, and products that a
    binary64 number represents exactly. *)
Record config_ok (c : KVarNConfig) : Prop := {
  ok_head_dim : 0 < c.(head_dim);
  ok_group : 0 < c.(group);
  ok_key_bits : 0 <= c.(key_bits);
  ok_value_bits : 0 <= c.(value_bits);
  ok_k_exact : c.(head_dim) * c.(group) * c.(key_bits) < 2 ^ 50;
  ok_v_exact : c.(group) * c.(head_dim) * c.(value_bits) < 2 ^ 50;
  ok_scales : c.(head_dim) + c.(group) < 2 ^ 50;
}.

Lemma k_packed_bytes_eq c :
  config_ok c -> k_packed_bytes c = cdiv (c.(head_dim) * c.(group) * c.(key_bits)) 8.
Proof.
  intros []. unfold k_packed_bytes. apply float_ceil_truediv; [|lia].
  split; [|lia]. repeat apply Z.mul_nonneg_nonneg; lia.
Qed.

Lemma v_packed_bytes_eq c :
  config_ok c -> v_packed_bytes c = cdiv (c.(group) * c.(head_dim) * c.(value_bits)) 8.
Proof.
  intros []. unfold v_packed_bytes. apply float_ceil_truediv; [|lia].
  split; [|lia]. repeat apply Z.mul_nonneg_nonneg; lia.
Qed.

Lemma cdiv_range a b : 0 < b -> 0 <= a -> 0 <= cdiv a b <= a.
Proof. intros Hb Ha. pose proof (cdiv_spec a b Hb). nia. Qed.

Lemma tile_bytes_range c : config_ok c -> 0 < tile_bytes c < 2 ^ 53.
Proof.
  intros Hok. pose proof (k_packed_bytes_eq c Hok) as Ek.
  pose proof (v_packed_bytes_eq c Hok) as Ev. destruct Hok.
  unfold tile_bytes, k_scale_bytes, v_scale_bytes. rewrite Ek, Ev.
  pose proof (cdiv_range (c.(head_dim) * c.(group) * c.(key_bits)) 8).
  pose proof (cdiv_range (c.(group) * c.(head_dim) * c.(value_bits)) 8).
  assert (0 <= c.(head_dim) * c.(group) * c.(key_bits)) by nia.
  assert (0 <= c.(group) * c.(head_dim) * c.(value_bits)) by nia. lia.
Qed.

(** [1 << (n - 1).bit_length()] is the least power of two not below [n]. *)
Lemma pow2_ceiling n :
  0 < n -> exists k, 0 <= k /\ Z.shiftl 1 (bit_length (n - 1)) = 2 ^ k
                     /\ n <= 2 ^ k /\ 2 ^ k < 2 * n.
Proof.
  intros Hn. unfold bit_length. destruct (Z.eqb_spec (n - 1) 0) as [H0|H0].
  - exists 0. replace n with 1 by lia. done.
  - rewrite Z.abs_eq by lia. pose proof (Z.log2_spec (n - 1) ltac:(lia)) as [L U].
    pose proof (Z.log2_nonneg (n - 1)).
    exists (Z.log2 (n - 1) + 1). rewrite Z.shiftl_1_l.
    replace (Z.succ (Z.log2 (n - 1))) with (Z.log2 (n - 1) + 1) in U by lia.
    rewrite Z.pow_add_r in * by lia. lia.
Qed.

Lemma tile_bytes_aligned_small c :
  c.(head_dim) < 256 ->
  tile_bytes_aligned c mod 8 = 0
  /\ tile_bytes c <= tile_bytes_aligned c < tile_bytes c + 8.
Proof.
  intros Hd. unfold tile_bytes_aligned.
  destruct (Z.leb_spec 256 (head_dim c)); [lia|].
  rewrite Z.mod_mul by lia. pose proof (Z.div_mod (tile_bytes c + 7) 8 ltac:(lia)).
  pose proof (Z.mod_pos_bound (tile_bytes c + 7) 8 ltac:(lia)). lia.
Qed.

Lemma tile_bytes_aligned_large c :
  config_ok c -> 256 <= c.(head_dim) ->
  exists k, 0 <= k /\ tile_bytes_aligned c = 2 ^ k * c.(group)
            /\ tile_bytes c <= tile_bytes_aligned c < 2 * (tile_bytes c + c.(group)).
Proof.
  intros Hok Hd. pose proof (tile_bytes_range c Hok). destruct Hok.
  unfold tile_bytes_aligned. destruct (Z.leb_spec 256 (head_dim c)); [|lia].
  rewrite float_ceil_truediv by lia.
  pose proof (cdiv_spec (tile_bytes c) (group c) ltac:(lia)).
  destruct (pow2_ceiling (cdiv (tile_bytes c) (group c))) as (k & Hk & -> & Hlo & Hhi); [nia|].
  exists k. split_and!; [done|done|nia|nia].
Qed.

Lemma group_divides_aligned c :
  config_ok c -> 256 <= c.(head_dim) -> (c.(group) | tile_bytes_aligned c).
Proof. intros Hok Hd. destruct (tile_bytes_aligned_large c Hok Hd) as (k & _ & -> & _). by exists (2 ^ k). Qed.

(** the eight fields of a tile record are laid out back to back, end exactly
    at [tile_bytes], and the aligned record covers them: below head_dim 256 with
    less than 8 bytes of padding on an 8-byte boundary, from 256 on with a
    power-of-two slot per token and at most a factor two of padding. *)
Theorem tile_layout_covers (c : KVarNConfig) :
  config_ok c ->
  v_zp_offset c + 2 * c.(group) = tile_bytes c
  /\ tile_bytes c <= tile_bytes_aligned c
  /\ (c.(head_dim) < 256 ->
        tile_bytes_aligned c mod 8 = 0 /\ tile_bytes_aligned c < tile_bytes c + 8)
  /\ (256 <= c.(head_dim) ->
        exists k, 0 <= k /\ tile_bytes_aligned c = 2 ^ k * c.(group)
                  /\ tile_bytes_aligned c < 2 * (tile_bytes c + c.(group))).
Proof.
  intros Hok. split.
  { unfold v_zp_offset, v_s_row_offset, v_s_col_offset, v_packed_offset,
      k_s_row_offset, k_zp_offset, k_s_col_offset, k_packed_offset, tile_bytes,
      k_scale_bytes, v_scale_bytes. lia. }
  destruct (Z.lt_ge_cases (head_dim c) 256) as [Hd|Hd].
  - pose proof (tile_bytes_aligned_small c Hd). split_and!; [lia|lia|lia].
  - destruct (tile_bytes_aligned_large c Hok Hd) as (k & ? & ? & ?).
    split_and!; [lia|lia|]. intros _. exists k. lia.
Qed.

Definition cfg_k4v2_g128 (hd : Z) : KVarNConfig := mkKVarNConfig hd 4 2 128 8 128 0.

Lemma tile_layout_covers_witness :
  config_ok (cfg_k4v2_g128 256)
  /\ v_zp_offset (cfg_k4v2_g128 256) + 2 * 128 = tile_bytes (cfg_k4v2_g128 256).
Proof.
  assert (H : config_ok (cfg_k4v2_g128 256)) by (constructor; vm_compute; congruence).
  split; [exact H|]. exact (proj1 (tile_layout_covers _ H)).
Defined.

(** ** The packed slot published to the allocator *)

Definition dense_modes : list KVQuantMode :=
  [KVARN_K4V2_G128; KVARN_K4V4_G128; KVARN_K4V2_G64; KVARN_K4V4_G64].

(** The configuration the mode's name resolves to. *)
Definition mode_config (iters_env sink_env : option Z) (m : KVQuantMode) (hd : Z)
    : res KVarNConfig :=
  from_cache_dtype iters_env sink_env (lower (mode_name m)) hd.

Lemma mode_config_exact iters sink m hd :
  m ∈ dense_modes -> hd ∈ [128; 256; 512] ->
  exists c, mode_config iters sink m hd = Ok c /\ 0 < c.(group)
            /\ c.(group) * (tile_bytes_aligned c / c.(group)) = tile_bytes_aligned c.
Proof.
  intros Hm Hd. unfold dense_modes in Hm.
  elem_cases Hm; elem_cases Hd;
    (eexists; split; [reflexivity|]; split; vm_compute; reflexivity).
Qed.

(** for every dense KVarN mode and supported head size, the spec the backend
    publishes makes a page of [n] tiles exactly [n] packed records per head, so a
    block of the allocator holds its tiles with no byte missing or left over. *)
Theorem customize_spec_page (iters sink : option Z) (spec : AttentionSpec) (n : Z) :
  spec.(kv_quant_mode) ∈ dense_modes ->
  spec.(head_size) ∈ [128; 256; 512] ->
  spec.(state_content_bytes) = None ->
  spec.(page_size_padded) = None ->
  spec.(num_head_slots) = None ->
  exists c spec',
    mode_config iters sink spec.(kv_quant_mode) spec.(head_size) = Ok c
    /\ customize_spec iters sink spec = Ok spec'
    /\ (spec.(block_size) = n * c.(group) ->
        page_size_bytes spec' = Ok (spec.(num_kv_heads) * n * tile_bytes_aligned c)).
Proof.
  intros Hm Hd Hs Hp Hh.
  destruct (mode_config_exact iters sink _ _ Hm Hd) as (c & Hc & Hg & He).
  exists c, (with_state_content_bytes (tile_bytes_aligned c / c.(group)) spec).
  split; [done|]. split.
  - unfold customize_spec. rewrite Hs. unfold mode_config in Hc.
    assert (negb (startswith (mode_name (kv_quant_mode spec)) "KVARN_")
            || startswith (mode_name (kv_quant_mode spec)) "KVARN_MLA" = false) as ->.
    { set (m := kv_quant_mode spec) in *. clearbody m. unfold dense_modes in Hm.
      by elem_cases Hm. }
    by rewrite Hc.
  - intros Hb. unfold page_size_bytes. simpl. rewrite Hp.
    unfold unpadded_page_size_bytes, num_heads, state_content_size_bytes. simpl.
    rewrite Hh, Hb. f_equal. nia.
Qed.

Definition qwen_spec : AttentionSpec :=
  mkAttentionSpec 3200 4 256 256 2 KVARN_K4V2_G128 None None None.

Lemma customize_spec_page_witness :
  exists c spec',
    mode_config None None KVARN_K4V2_G128 256 = Ok c
    /\ customize_spec None None qwen_spec = Ok spec'
    /\ (3200 = 25 * c.(group) ->
        page_size_bytes spec' = Ok (4 * 25 * tile_bytes_aligned c)).
Proof.
  apply (customize_spec_page None None qwen_spec 25); try reflexivity;
    apply (bool_decide_unpack _); vm_compute; exact I.
Defined.

(** two layers of the same tile size whose head dimensions are 256 or more
    have slots of which one divides the other, so the allocator's page-size
    unification can scale one block size by an integer ratio. *)
Theorem slots_unify (c1 c2 : KVarNConfig) :
  config_ok c1 -> config_ok c2 -> c1.(group) = c2.(group) ->
  256 <= c1.(head_dim) -> 256 <= c2.(head_dim) ->
  let slot c := tile_bytes_aligned c / c.(group) in
  ((slot c1 | slot c2) \/ (slot c2 | slot c1))
  /\ slot c1 * c1.(group) = tile_bytes_aligned c1.
Proof.
  intros H1 H2 Hg Hd1 Hd2 slot. subst slot. cbv beta.
  destruct (tile_bytes_aligned_large c1 H1 Hd1) as (k1 & Hk1 & -> & _).
  destruct (tile_bytes_aligned_large c2 H2 Hd2) as (k2 & Hk2 & -> & _).
  destruct H1, H2. rewrite !Z.div_mul by lia. split; [|lia].
  destruct (Z.le_ge_cases k1 k2); [left; exists (2 ^ (k2 - k1))|right; exists (2 ^ (k1 - k2))];
    rewrite <- Z.pow_add_r by lia; f_equal; lia.
Qed.

Lemma slots_unify_witness :
  (tile_bytes_aligned (cfg_k4v2_g128 256) / 128
   | tile_bytes_aligned (cfg_k4v2_g128 512) / 128)
  \/ (tile_bytes_aligned (cfg_k4v2_g128 512) / 128
   | tile_bytes_aligned (cfg_k4v2_g128 256) / 128).
Proof.
  apply (slots_unify (cfg_k4v2_g128 256) (cfg_k4v2_g128 512));
    first [reflexivity | constructor; vm_compute; congruence | vm_compute; congruence].
Defined.

(** ** Pool sizing *)

Lemma int_truediv_pos a b :
  0 <= a < 2 ^ 53 -> 0 < b -> int_truediv a b = Ok (a / b).
Proof.
  intros Ha Hb. unfold int_truediv. destruct (Z.eqb_spec b 0); [lia|].
  rewrite (Z.abs_eq a), (Z.abs_eq b), float_int_truediv by lia.
  f_equal. destruct (decide (a = 0)) as [->|Ha0].
  - by rewrite Z.div_0_l by lia.
  - rewrite (Z.sgn_pos a), (Z.sgn_pos b) by lia. lia.
Qed.

(** The number of pool slots that [budget] bytes pay for, over all layers. *)
Definition budget_slots (c : KVarNConfig) (budget heads layers : Z) : Z :=
  budget / (slot_bytes_per_layer c heads * Z.max layers 1).

(** [max_supported_seqs] inverts [pool_slots].  When the budget pays for the
    fixed part of the pool plus one request, the cap is the largest number of
    sequences whose pool fits in the budget.  When it does not, the cap is
    clamped to 1 and the pool allocated for that one sequence is larger than the
    budget. *)
Theorem seqs_of_budget_maximal (c : KVarNConfig) (budget heads layers toks : Z) :
  config_ok c -> 0 < heads -> 0 <= toks -> 0 <= budget < 2 ^ 53 ->
  exists s, seqs_of_budget c budget heads layers toks = Ok s /\ 1 <= s
    /\ (prefill_blocks c toks + 10 <= budget_slots c budget heads layers ->
          pool_bytes c s toks heads layers <= budget
          /\ budget < pool_bytes c (s + 1) toks heads layers)
    /\ (budget_slots c budget heads layers < prefill_blocks c toks + 10 ->
          s = 1 /\ budget < pool_bytes c 1 toks heads layers).
Proof.
  intros [] Hh Ht Hb.
  unfold seqs_of_budget, pool_bytes, pool_slots, budget_slots.
  assert (0 < slot_bytes_per_layer c heads) by (unfold slot_bytes_per_layer; nia).
  rewrite <- !Z.mul_assoc.
  set (sb := slot_bytes_per_layer c heads * Z.max layers 1).
  assert (0 < sb) by (subst sb; nia).
  rewrite int_truediv_pos by lia. simpl.
  pose proof (Z.div_mod budget sb ltac:(lia)).
  pose proof (Z.mod_pos_bound budget sb ltac:(lia)).
  set (ms := budget / sb) in *.
  assert (0 <= prefill_blocks c toks)
    by (unfold prefill_blocks; apply Z.div_pos; lia).
  set (p := prefill_blocks c toks) in *.
  pose proof (Z.div_mod (ms - p - 8) 2 ltac:(lia)).
  pose proof (Z.mod_pos_bound (ms - p - 8) 2 ltac:(lia)).
  set (h := (ms - p - 8) / 2) in *.
  eexists. split; [reflexivity|]. split; [lia|]. split; intros Hc.
  - replace (Z.max 1 h) with h by lia. rewrite !Z.max_l by lia. nia.
  - replace (Z.max 1 h) with 1 by lia. split; [done|]. rewrite Z.max_l by lia. nia.
Qed.

Lemma seqs_of_budget_maximal_witness :
  exists s, seqs_of_budget (cfg_k4v2_g128 128) (2 ^ 31) 8 32 2048 = Ok s /\ 1 <= s
    /\ (prefill_blocks (cfg_k4v2_g128 128) 2048 + 10
          <= budget_slots (cfg_k4v2_g128 128) (2 ^ 31) 8 32 ->
        pool_bytes (cfg_k4v2_g128 128) s 2048 8 32 <= 2 ^ 31
        /\ 2 ^ 31 < pool_bytes (cfg_k4v2_g128 128) (s + 1) 2048 8 32)
    /\ (budget_slots (cfg_k4v2_g128 128) (2 ^ 31) 8 32
          < prefill_blocks (cfg_k4v2_g128 128) 2048 + 10 ->
        s = 1 /\ 2 ^ 31 < pool_bytes (cfg_k4v2_g128 128) 1 2048 8 32).
Proof.
  apply (seqs_of_budget_maximal (cfg_k4v2_g128 128) (2 ^ 31) 8 32 2048);
    [constructor; vm_compute; congruence|lia|lia|lia].
Defined.

(** Both regimes occur: 2 GiB for a 32-layer model, and an exhausted card. *)
Example seqs_of_budget_fits :
  seqs_of_budget (cfg_k4v2_g128 128) (2 ^ 31) 8 32 2048 = Ok 52
  /\ prefill_blocks (cfg_k4v2_g128 128) 2048 + 10
       <= budget_slots (cfg_k4v2_g128 128) (2 ^ 31) 8 32.
Proof. vm_compute. split; congruence. Qed.

Example seqs_of_budget_clamped :
  pool_budget_bytes None (8 * 2 ^ 30) (Some POOL_USABLE_SHARE_DEFAULT) (Some (2 ^ 33)) = Ok 0
  /\ seqs_of_budget (cfg_k4v2_g128 128) 0 8 32 2048 = Ok 1
  /\ pool_bytes (cfg_k4v2_g128 128) 1 2048 8 32 = 436207616.
Proof. vm_compute. done. Qed.

(** ** Boundary layers *)

Lemma elem_of_range i a b : i ∈ range a b <-> a <= i < b.
Proof. unfold range. rewrite elem_of_seqZ. lia. Qed.

Lemma NoDup_range a b : NoDup (range a b).
Proof. apply NoDup_seqZ. Qed.

Lemma length_range a b : a <= b -> Z.of_nat (length (range a b)) = b - a.
Proof. intros. unfold range. rewrite length_seqZ. lia. Qed.

(** the layers kept in full precision are the first and the last
    [min n (num_layers / 2)] ones: the list is strictly sorted, has no
    repetition, stays inside the model and has exactly twice that many entries. *)
Theorem boundary_layers_spec (num_layers n : Z) :
  0 < n -> 0 < num_layers ->
  let m := Z.min n (num_layers / 2) in
  let l := boundary_layers num_layers n in
  (forall i, i ∈ l <-> 0 <= i < m \/ num_layers - m <= i < num_layers)
  /\ Sorted Z.le l /\ NoDup l /\ Z.of_nat (length l) = 2 * m.
Proof.
  intros Hn HL m l.
  assert (0 <= m /\ 2 * m <= num_layers).
  { subst m. pose proof (Z.div_mod num_layers 2 ltac:(lia)).
    pose proof (Z.mod_pos_bound num_layers 2 ltac:(lia)). lia. }
  set (dups := (range 0 m ++ range (num_layers - m) num_layers)%list).
  assert (Hnd : NoDup dups).
  { apply NoDup_app. split_and!; [apply NoDup_range| |apply NoDup_range].
    intros x Hx1 Hx2. rewrite elem_of_range in Hx1, Hx2. lia. }
  assert (Hl : l ≡ₚ dups).
  { subst l. unfold boundary_layers.
    destruct (Z.leb_spec n 0); [lia|]. destruct (Z.leb_spec num_layers 0); [lia|]. simpl.
    rewrite merge_sort_Permutation.
    apply NoDup_Permutation; [apply NoDup_remove_dups|done|].
    intros x. by rewrite elem_of_remove_dups. }
  split_and!.
  - intros i. rewrite Hl. subst dups. rewrite elem_of_app, !elem_of_range. lia.
  - subst l. unfold boundary_layers.
    destruct (_ || _); [constructor|]. apply Sorted_merge_sort. apply _.
  - by rewrite Hl.
  - rewrite Hl. subst dups. rewrite length_app, Nat2Z.inj_add, !length_range by lia. lia.
Qed.

Lemma boundary_layers_spec_witness :
  Z.of_nat (length (boundary_layers 3 2)) = 2 * Z.min 2 (3 / 2).
Proof. apply (boundary_layers_spec 3 2); lia. Defined.
