(* ===== verification/FreeQueue.v ===== *)
(** * The free-block queue

    Models [FreeKVCacheBlockQueue] of [vllm/v1/core/kv_cache_utils.py]: an
    intrusive doubly linked list threaded through the [prev_free_block] and
    [next_free_block] attributes of the [KVCacheBlock] objects, with two fake
    nodes.  An object is named by a [ptr]; the two attributes of all objects are
    two finite maps from [ptr] to [ptr], absence being [None].

    The abstract specification is a duplicate-free list of block indices in
    eviction order.  [canon l] is the heap that represents [l]; every operation
    is shown to map [canon l] to the [canon] of the abstract result, so the
    pointer structure refines the list exactly (no stale link is left behind). *)

From S2P Require Import Prelude.

Inductive ptr :=
  | FakeHead
  | FakeTail
  | Blk (i : nat).

#[global] Instance ptr_eq_dec : EqDecision ptr.
Proof. solve_decision. Defined.

Definition ptr_code (p : ptr) : option (option nat) :=
  match p with FakeHead => None | FakeTail => Some None | Blk i => Some (Some i) end.

Definition ptr_decode (c : option (option nat)) : ptr :=
  match c with None => FakeHead | Some None => FakeTail | Some (Some i) => Blk i end.

#[global] Instance ptr_countable : Countable ptr.
Proof. by refine (inj_countable' ptr_code ptr_decode _); intros []. Defined.

#[global] Instance Blk_inj : Inj (=) (=) Blk.
Proof. by intros i j [= ->]. Qed.

Record FreeKVCacheBlockQueue := mkQueue {
  num_free_blocks : Z;
  prev_free_block : gmap ptr ptr;
  next_free_block : gmap ptr ptr;
}.

Notation queueM := (M FreeKVCacheBlockQueue).

(** Attribute reads and writes. *)
Definition get_prev (p : ptr) : queueM (option ptr) := gets (fun q => q.(prev_free_block) !! p).

Definition get_next (p : ptr) : queueM (option ptr) := gets (fun q => q.(next_free_block) !! p).

Definition set_attr (p : ptr) (v : option ptr) (m : gmap ptr ptr) : gmap ptr ptr :=
  match v with Some x => <[p := x]> m | None => delete p m end.

Definition set_prev (p : ptr) (v : option ptr) : queueM unit :=
  modify (fun q => mkQueue q.(num_free_blocks)
                     (set_attr p v q.(prev_free_block)) q.(next_free_block)).

Definition set_next (p : ptr) (v : option ptr) : queueM unit :=
  modify (fun q => mkQueue q.(num_free_blocks)
                     q.(prev_free_block) (set_attr p v q.(next_free_block))).

Definition add_count (n : Z) : queueM unit :=
  modify (fun q => mkQueue (q.(num_free_blocks) + n) q.(prev_free_block) q.(next_free_block)).

(** ** Operations *)

(** The constructor's two loops over [range(num_free_blocks)] and the wiring of
    the fake nodes. *)
Definition link_neighbours (blocks : list nat) (i : nat) : queueM unit :=
  match blocks !! i with
  | None => raise IndexError
  | Some b =>
      (if (0 <? i)%nat then
         match blocks !! (i - 1)%nat with
         | Some p => set_prev (Blk b) (Some (Blk p))
         | None => raise IndexError
         end
       else ret tt) ;;
      (if (i <? length blocks - 1)%nat then
         match blocks !! (i + 1)%nat with
         | Some n => set_next (Blk b) (Some (Blk n))
         | None => raise IndexError
         end
       else ret tt)
  end.

Definition queue_init (blocks : list nat) : queueM unit :=
  for_each (seq 0 (length blocks)) (link_neighbours blocks) ;;
  match head blocks, last blocks with
  | Some b0, Some bl =>
      set_next FakeHead (Some (Blk b0)) ;;
      set_prev (Blk b0) (Some FakeHead) ;;
      set_prev FakeTail (Some (Blk bl)) ;;
      set_next (Blk bl) (Some FakeTail)
  | _, _ =>
      set_next FakeHead (Some FakeTail) ;;
      set_prev FakeTail (Some FakeHead)
  end.

(** [FreeKVCacheBlockQueue(blocks)] for fresh blocks, whose links are [None]. *)
Definition new_queue (blocks : list nat) : res unit * FreeKVCacheBlockQueue :=
  queue_init blocks (mkQueue (Z.of_nat (length blocks)) ∅ ∅).

Definition popleft : queueM ptr :=
  first <- get_next FakeHead ;;
  match first with
  | None | Some FakeTail =>
      n <- gets num_free_blocks ;;
      check (n =? 0) AssertionError ;;
      raise ValueError
  | Some first_block =>
      second <- get_next first_block ;;
      match second with
      | None => raise RuntimeError
      | Some nx =>
          set_next FakeHead (Some nx) ;;
          set_prev nx (Some FakeHead) ;;
          set_prev first_block None ;;
          set_next first_block None ;;
          add_count (-1) ;;
          ret first_block
      end
  end.

Fixpoint popleft_n_loop (k : nat) (curr_block : option ptr) (acc : list ptr)
    : queueM (list ptr * option ptr) :=
  match k with
  | O => ret (acc, curr_block)
  | S k' =>
      match curr_block with
      | None => raise AssertionError
      | Some last_block =>
          nx <- get_next last_block ;;
          set_prev last_block None ;;
          set_next last_block None ;;
          popleft_n_loop k' nx (acc ++ [last_block])
      end
  end.

Definition popleft_n (n : Z) : queueM (list ptr) :=
  if n =? 0 then ret [] else
  free <- gets num_free_blocks ;;
  check (n <=? free) AssertionError ;;
  add_count (- n) ;;
  curr <- get_next FakeHead ;;
  '(acc, curr_block) <- popleft_n_loop (Z.to_nat n) curr [] ;;
  match curr_block with
  | Some c =>
      set_next FakeHead (Some c) ;;
      set_prev c (Some FakeHead) ;;
      ret acc
  | None => ret acc
  end.

Definition remove (block : ptr) : queueM unit :=
  p <- get_prev block ;;
  n <- get_next block ;;
  match p, n with
  | Some p, Some n =>
      set_next p (Some n) ;;
      set_prev n (Some p) ;;
      set_prev block None ;;
      set_next block None ;;
      add_count (-1)
  | _, _ => raise RuntimeError
  end.

Definition append (block : ptr) : queueM unit :=
  last <- get_prev FakeTail ;;
  match last with
  | None => raise RuntimeError
  | Some last_block =>
      set_next last_block (Some block) ;;
      set_prev block (Some last_block) ;;
      set_next block (Some FakeTail) ;;
      set_prev FakeTail (Some block) ;;
      add_count 1
  end.

(** The loop shared by [prepend_n] and [append_n]: chain [blocks] after [prev]
    and return the last block of the chain. *)
Fixpoint chain_after (prev : ptr) (blocks : list ptr) : queueM ptr :=
  match blocks with
  | [] => ret prev
  | b :: bs => set_prev b (Some prev) ;; set_next prev (Some b) ;; chain_after b bs
  end.

Definition prepend_n (blocks : list ptr) : queueM unit :=
  match blocks with
  | [] => ret tt
  | _ =>
      first <- get_next FakeHead ;;
      match first with
      | None => raise AssertionError
      | Some first_block =>
          prev_block <- chain_after FakeHead blocks ;;
          set_next prev_block (Some first_block) ;;
          set_prev first_block (Some prev_block) ;;
          add_count (Z.of_nat (length blocks))
      end
  end.

Definition append_n (blocks : list ptr) : queueM unit :=
  match blocks with
  | [] => ret tt
  | _ =>
      last <- get_prev FakeTail ;;
      match last with
      | None => raise AssertionError
      | Some last_block =>
          last_block <- chain_after last_block blocks ;;
          set_next last_block (Some FakeTail) ;;
          set_prev FakeTail (Some last_block) ;;
          add_count (Z.of_nat (length blocks))
      end
  end.

(** The [while] loops below follow [next] links; [fuel] bounds the walk and a
    result of [None] means that it ran out. *)
Fixpoint walk_free (fuel : nat) (q : FreeKVCacheBlockQueue) (curr_block : ptr)
    : option (list ptr) :=
  match fuel with
  | O => None
  | S f =>
      match q.(next_free_block) !! curr_block with
      | None => Some []
      | Some nx => (curr_block ::.) <$> walk_free f q nx
      end
  end.

Definition get_all_free_blocks (fuel : nat) (q : FreeKVCacheBlockQueue)
    : res (option (list ptr)) :=
  match q.(next_free_block) !! FakeHead with
  | None => Raise RuntimeError
  | Some first => Ok (walk_free fuel q first)
  end.

Fixpoint iter_from (fuel : nat) (q : FreeKVCacheBlockQueue) (curr_block : option ptr)
    : option (list ptr) :=
  match fuel with
  | O => None
  | S f =>
      match curr_block with
      | None | Some FakeTail => Some []
      | Some c => (c ::.) <$> iter_from f q (q.(next_free_block) !! c)
      end
  end.

Definition iter_blocks_after (fuel : nat) (q : FreeKVCacheBlockQueue) (cursor : option ptr)
    : option (list ptr) :=
  match cursor with
  | None => iter_from fuel q (q.(next_free_block) !! FakeHead)
  | Some c => iter_from fuel q (q.(next_free_block) !! c)
  end.

(** ** Abstract specification and representation *)

(** First element of the chain [l] followed by [z]; last element of [a]
    followed by the chain [l]. *)
Definition hdp (l : list nat) (z : ptr) : ptr :=
  match l with [] => z | x :: _ => Blk x end.

Fixpoint lastp (a : ptr) (l : list nat) : ptr :=
  match l with [] => a | x :: l' => lastp (Blk x) l' end.

(** Links of the members of [l], when [z] follows (resp. [a] precedes) it. *)
Fixpoint tails (l : list nat) (z : ptr) : gmap ptr ptr :=
  match l with [] => ∅ | x :: l' => <[Blk x := hdp l' z]> (tails l' z) end.

Fixpoint prevs (a : ptr) (l : list nat) : gmap ptr ptr :=
  match l with [] => ∅ | x :: l' => <[Blk x := a]> (prevs (Blk x) l') end.

Definition nexts (a : ptr) (l : list nat) (z : ptr) : gmap ptr ptr :=
  <[a := hdp l z]> (tails l z).

Fixpoint pmap (a : ptr) (l : list nat) (z : ptr) : gmap ptr ptr :=
  match l with [] => {[z := a]} | x :: l' => <[Blk x := a]> (pmap (Blk x) l' z) end.

Definition canon (l : list nat) : FreeKVCacheBlockQueue :=
  mkQueue (Z.of_nat (length l)) (pmap FakeHead l FakeTail) (nexts FakeHead l FakeTail).

Lemma hdp_app l1 l2 z : hdp (l1 ++ l2) z = hdp l1 (hdp l2 z).
Proof. by destruct l1. Qed.

Lemma lastp_app a l1 l2 : lastp a (l1 ++ l2) = lastp (lastp a l1) l2.
Proof. revert a. by induction l1 as [|x l1 IH]; intros a; simpl. Qed.

Lemma lastp_snoc a l x : lastp a (l ++ [x]) = Blk x.
Proof. by rewrite lastp_app. Qed.

Lemma hdp_Blk l z i : hdp l z = Blk i -> i ∈ l \/ z = Blk i.
Proof. destruct l as [|y l]; simpl; [by right|]. intros [= ->]. left. by left. Qed.

Lemma tails_None l z p : (forall i, p = Blk i -> i ∉ l) -> tails l z !! p = None.
Proof.
  induction l as [|x l IH]; intros Hp; simpl; [done|].
  rewrite lookup_insert_ne; [apply IH|].
  - intros i Hi Hin. apply (Hp i Hi). by right.
  - intros <-. apply (Hp x eq_refl). by left.
Qed.

Lemma prevs_None a l p : (forall i, p = Blk i -> i ∉ l) -> prevs a l !! p = None.
Proof.
  revert a. induction l as [|x l IH]; intros a Hp; simpl; [done|].
  rewrite lookup_insert_ne; [apply IH|].
  - intros i Hi Hin. apply (Hp i Hi). by right.
  - intros <-. apply (Hp x eq_refl). by left.
Qed.

Lemma tails_app l1 l2 z : tails (l1 ++ l2) z = tails l1 (hdp l2 z) ∪ tails l2 z.
Proof.
  induction l1 as [|x l1 IH]; simpl; [by rewrite (left_id_L ∅ (∪))|].
  by rewrite IH, hdp_app, insert_union_l.
Qed.

Lemma nexts_app a l1 l2 z : nexts a (l1 ++ l2) z = nexts a l1 (hdp l2 z) ∪ tails l2 z.
Proof. unfold nexts. by rewrite tails_app, hdp_app, insert_union_l. Qed.

Lemma pmap_app a l1 l2 z : pmap a (l1 ++ l2) z = prevs a l1 ∪ pmap (lastp a l1) l2 z.
Proof.
  revert a. induction l1 as [|x l1 IH]; intros a; simpl; [by rewrite (left_id_L ∅ (∪))|].
  by rewrite IH, insert_union_l.
Qed.

Lemma pmap_prevs a l : pmap a l FakeTail = prevs a l ∪ {[FakeTail := lastp a l]}.
Proof. rewrite <- (app_nil_r l) at 1. by rewrite pmap_app. Qed.

Lemma nexts_snoc a l x z :
  x ∉ l -> a <> Blk x -> nexts a (l ++ [x]) z = <[Blk x := z]> (nexts a l (Blk x)).
Proof.
  intros Hx Ha. rewrite nexts_app. simpl. unfold nexts.
  rewrite insert_empty, <- insert_union_singleton_r; [done|].
  rewrite lookup_insert_ne by done. apply tails_None. by intros i [= <-].
Qed.

Lemma prevs_snoc a l x :
  x ∉ l -> prevs a (l ++ [x]) = <[Blk x := lastp a l]> (prevs a l).
Proof.
  revert a. induction l as [|y l IH]; intros a Hx; simpl; [done|].
  rewrite IH by (intros ?; apply Hx; by right).
  rewrite insert_insert_ne; [done|]. intros [= ->]. apply Hx. by left.
Qed.

(** Redirecting the last link, and the back link of the first element. *)
Lemma nexts_set_last l z w :
  NoDup l -> <[lastp FakeHead l := w]> (nexts FakeHead l z) = nexts FakeHead l w.
Proof.
  intros Hnd. destruct l as [|x l _] using rev_ind; simpl.
  { unfold nexts. simpl. by rewrite insert_insert_eq. }
  apply NoDup_app in Hnd as (_ & Hx & _). rewrite lastp_snoc.
  rewrite !nexts_snoc, insert_insert_eq; try done.
  all: intros Hin; apply (Hx x Hin); by left.
Qed.

Lemma pmap_set_first a b l z : <[hdp l z := b]> (pmap a l z) = pmap b l z.
Proof.
  destruct l as [|x l]; simpl; [apply insert_singleton_eq|apply insert_insert_eq].
Qed.

Lemma nexts_None a l z x : x ∉ l -> a <> Blk x -> nexts a l z !! Blk x = None.
Proof.
  intros Hx Ha. unfold nexts. rewrite lookup_insert_ne by done.
  apply tails_None. by intros i [= <-].
Qed.

Lemma nexts_lookup l1 x l2 z :
  x ∉ l1 -> nexts FakeHead (l1 ++ x :: l2) z !! Blk x = Some (hdp l2 z).
Proof.
  intros Hx. rewrite nexts_app, lookup_union_r by by apply nexts_None.
  simpl. by rewrite lookup_insert_eq.
Qed.

Lemma pmap_lookup l1 x l2 :
  x ∉ l1 -> pmap FakeHead (l1 ++ x :: l2) FakeTail !! Blk x = Some (lastp FakeHead l1).
Proof.
  intros Hx. rewrite pmap_app, lookup_union_r; [simpl; by rewrite lookup_insert_eq|].
  apply prevs_None. by intros i [= <-].
Qed.

Lemma pmap_lookup_tail a l : pmap a l FakeTail !! FakeTail = Some (lastp a l).
Proof.
  rewrite pmap_prevs, lookup_union_r by by apply prevs_None.
  apply lookup_singleton_eq.
Qed.

Lemma pmap_None a l x : x ∉ l -> pmap a l FakeTail !! Blk x = None.
Proof.
  intros Hx. rewrite pmap_prevs. apply lookup_union_None. split.
  - apply prevs_None. by intros i [= <-].
  - by apply lookup_singleton_ne.
Qed.

(** ** Refinement of each operation *)

(** Symbolic execution of an operation, leaving the map updates alone. *)
Ltac queue_run :=
  cbv beta iota zeta delta
    [bind gets modify ret raise check get_next get_prev set_next set_prev add_count set_attr
     num_free_blocks prev_free_block next_free_block].

(** One attribute access at the front of a computation. *)
Ltac queue_step :=
  unfold get_next, get_prev, set_next, set_prev, add_count;
  first [rewrite bind_gets | rewrite bind_modify | rewrite bind_ret];
  cbn [num_free_blocks prev_free_block next_free_block set_attr canon].

Lemma popleft_canon x l :
  NoDup (x :: l) -> popleft (canon (x :: l)) = (Ok (Blk x), canon l).
Proof.
  intros [Hx Hnd]%NoDup_cons.
  assert (Hn : nexts FakeHead (x :: l) FakeTail !! FakeHead = Some (Blk x))
    by apply lookup_insert_eq.
  pose proof (nexts_lookup [] x l FakeTail (not_elem_of_nil _)) as Hn2. simpl app in Hn2.
  unfold popleft, canon. queue_run. rewrite Hn. queue_run. rewrite Hn2. queue_run.
  f_equal. f_equal.
  - rewrite length_cons. lia.
  - simpl pmap. rewrite insert_insert_ne, pmap_set_first, delete_insert_id.
    + done.
    + by apply pmap_None.
    + intros Heq%hdp_Blk. naive_solver.
  - unfold nexts. simpl. rewrite insert_insert_eq, delete_insert_ne, delete_insert_id.
    + done.
    + apply tails_None. by intros i [= <-].
    + done.
Qed.

Lemma popleft_empty : popleft (canon []) = (Raise ValueError, canon []).
Proof. reflexivity. Qed.

(** The state between two iterations of [popleft_n]'s loop: the head's link [h]
    and the back link [a] of the first remaining block are stale. *)
Definition midpop (n : Z) (a h : ptr) (l : list nat) : FreeKVCacheBlockQueue :=
  mkQueue n (pmap a l FakeTail) (<[FakeHead := h]> (tails l FakeTail)).

Lemma popleft_n_loop_spec n a h l1 l2 acc :
  NoDup (l1 ++ l2) ->
  popleft_n_loop (length l1) (Some (hdp (l1 ++ l2) FakeTail)) acc (midpop n a h (l1 ++ l2))
  = (Ok (acc ++ (Blk <$> l1), Some (hdp l2 FakeTail)), midpop n (lastp a l1) h l2).
Proof.
  revert a acc. induction l1 as [|x l1 IH]; intros a acc Hnd; simpl.
  { by rewrite app_nil_r. }
  simpl in Hnd. apply NoDup_cons in Hnd as [Hx Hnd].
  assert (Hn : next_free_block (midpop n a h (x :: l1 ++ l2)) !! Blk x
               = Some (hdp (l1 ++ l2) FakeTail)).
  { simpl. by rewrite lookup_insert_ne, lookup_insert_eq by done. }
  queue_step. change (<[FakeHead:=h]> _) with (next_free_block (midpop n a h (x :: l1 ++ l2))). rewrite Hn.
  queue_step. queue_step.
  cbn [num_free_blocks prev_free_block next_free_block set_attr midpop].
  rewrite (delete_insert_ne _ (Blk x) FakeHead) by done. simpl pmap. simpl tails.
  rewrite !delete_insert_id.
  - change (mkQueue n (pmap (Blk x) (l1 ++ l2) FakeTail) _)
      with (midpop n (Blk x) h (l1 ++ l2)).
    rewrite IH by done. by rewrite <- app_assoc.
  - apply tails_None. by intros i [= <-].
  - by apply pmap_None.
Qed.

Lemma popleft_n_canon l1 l2 :
  NoDup (l1 ++ l2) ->
  popleft_n (Z.of_nat (length l1)) (canon (l1 ++ l2)) = (Ok (Blk <$> l1), canon l2).
Proof.
  intros Hnd. unfold popleft_n. destruct (Z.eqb_spec (Z.of_nat (length l1)) 0) as [H0|H0].
  { destruct l1; [done|]. simpl in H0. lia. }
  queue_step. cbn [canon num_free_blocks].
  rewrite length_app. destruct (Z.leb_spec (Z.of_nat (length l1))
    (Z.of_nat (length l1 + length l2))) as [_|]; [|lia].
  cbn [check]. queue_step. queue_step.
  queue_step.
  cbn [num_free_blocks prev_free_block next_free_block canon].
  unfold nexts at 1. rewrite lookup_insert_eq, Nat2Z.id.
  match goal with |- bind _ _ ?s = _ =>
    change s with (midpop (num_free_blocks s) FakeHead (hdp (l1 ++ l2) FakeTail) (l1 ++ l2)) end.
  rewrite (bind_ok _ _ _ _ _ (popleft_n_loop_spec _ _ _ _ _ _ Hnd)).
  queue_step. queue_step.
  cbn [num_free_blocks prev_free_block next_free_block set_attr midpop canon ret].
  rewrite pmap_set_first, insert_insert_eq. unfold ret, canon, nexts. simpl.
  do 2 f_equal. rewrite length_app. lia.
Qed.

Lemma popleft_n_too_many n l :
  Z.of_nat (length l) < n -> popleft_n n (canon l) = (Raise AssertionError, canon l).
Proof.
  intros Hn. unfold popleft_n. destruct (Z.eqb_spec n 0); [lia|].
  unfold bind, gets, check. simpl. by destruct (Z.leb_spec n (Z.of_nat (length l))); [lia|].
Qed.

Lemma remove_canon l1 x l2 :
  NoDup (l1 ++ x :: l2) ->
  remove (Blk x) (canon (l1 ++ x :: l2)) = (Ok tt, canon (l1 ++ l2)).
Proof.
  intros Hnd. pose proof Hnd as (H1 & H2 & Hnd')%NoDup_middle.
  pose proof (nexts_lookup l1 x l2 FakeTail H1) as Hn.
  pose proof (pmap_lookup l1 x l2 H1) as Hp.
  unfold remove, canon. queue_run. rewrite Hp. queue_run. rewrite Hn. queue_run.
  f_equal. f_equal.
  - rewrite !length_app. simpl. lia.
  - rewrite !pmap_app. simpl.
    rewrite insert_union_r.
    2:{ apply prevs_None. intros i Hi%hdp_Blk Hin.
        destruct Hi as [Hi|Hi]; [|done].
        apply NoDup_app in Hnd' as (_ & Hd & _). by apply (Hd i). }
    rewrite insert_insert_ne, pmap_set_first.
    2:{ intros Hi%hdp_Blk. naive_solver. }
    rewrite delete_union, delete_insert_id by by apply pmap_None.
    rewrite (delete_id (prevs _ _)); [done|]. apply prevs_None. by intros i [= <-].
  - rewrite !nexts_app. simpl. rewrite insert_union_l, nexts_set_last by
      by apply NoDup_app in Hnd' as (? & _ & _).
    rewrite delete_union, delete_insert_id by (apply tails_None; by intros i [= <-]).
    by rewrite (delete_id (nexts _ _ _)) by by apply nexts_None.
Qed.

(** [remove] on a block that is not in the queue. *)
Lemma remove_not_free l x :
  x ∉ l -> remove (Blk x) (canon l) = (Raise RuntimeError, canon l).
Proof.
  intros Hx. unfold remove, canon. queue_run. by rewrite pmap_None.
Qed.

(** The chain built so far: the forward links are those of [l1] followed by the
    untouched part [tl], up to the link of the last element. *)
Definition chained (q : FreeKVCacheBlockQueue) (l1 : list nat) (tl pl : gmap ptr ptr) : Prop :=
  (forall w, <[lastp FakeHead l1 := w]> q.(next_free_block) = nexts FakeHead l1 w ∪ tl)
  /\ q.(prev_free_block) = prevs FakeHead l1 ∪ pl.

Lemma chain_after_spec q l1 bs tl pl :
  NoDup (l1 ++ bs) -> chained q l1 tl pl ->
  exists q', chain_after (lastp FakeHead l1) (Blk <$> bs) q
             = (Ok (lastp FakeHead (l1 ++ bs)), q')
    /\ chained q' (l1 ++ bs) tl pl /\ q'.(num_free_blocks) = q.(num_free_blocks).
Proof.
  revert q l1. induction bs as [|b bs IH]; intros q l1 Hnd [Hn Hp]; simpl.
  { rewrite app_nil_r. by exists q. }
  pose proof Hnd as (Hb & _ & _)%NoDup_middle.
  queue_step. queue_step.
  cbn [num_free_blocks prev_free_block next_free_block set_attr].
  rewrite (cons_middle b l1 bs), app_assoc in Hnd |- *.
  match goal with |- context [chain_after _ _ ?s] => destruct (IH s (l1 ++ [b])) as (q' & E & H1 & H2) end.
  - done.
  - split; cbn [prev_free_block next_free_block].
    + intros w. rewrite lastp_snoc, Hn, insert_union_l, <- nexts_snoc by done. done.
    + by rewrite Hp, insert_union_l, <- prevs_snoc by done.
  - rewrite lastp_snoc in E. by exists q'.
Qed.

Lemma append_n_canon l bs :
  NoDup (l ++ bs) -> append_n (Blk <$> bs) (canon l) = (Ok tt, canon (l ++ bs)).
Proof.
  intros Hnd. destruct bs as [|b bs]; [by rewrite app_nil_r|]. unfold append_n.
  rewrite fmap_cons. cbn match. rewrite <- (fmap_cons Blk b bs).
  set (bs' := b :: bs) in *.
  queue_step. cbn [canon prev_free_block].
  rewrite pmap_lookup_tail.
  destruct (chain_after_spec (canon l) l bs' ∅ {[FakeTail := lastp FakeHead l]})
    as (q' & E & [Hn Hp] & Hc); [done| |].
  { split; cbn [canon prev_free_block next_free_block].
    - intros w. rewrite nexts_set_last, (right_id_L ∅ (∪)); [done|].
      by apply NoDup_app in Hnd as (? & _ & _).
    - apply pmap_prevs. }
  rewrite (bind_ok _ _ _ _ _ E).
  queue_step. queue_step.
  unfold add_count, modify. cbn [num_free_blocks prev_free_block next_free_block set_attr].
  rewrite Hn, Hp, Hc, (right_id_L ∅ (∪)). unfold canon. do 2 f_equal.
  - cbn [num_free_blocks canon]. rewrite length_app, length_fmap. lia.
  - rewrite insert_union_r, insert_singleton_eq, pmap_prevs; [done|]. by apply prevs_None.
Qed.

Lemma append_canon l x :
  NoDup (l ++ [x]) -> append (Blk x) (canon l) = (Ok tt, canon (l ++ [x])).
Proof.
  intros Hnd. rewrite <- (append_n_canon l [x] Hnd). unfold append, append_n. simpl.
  queue_step. rewrite pmap_lookup_tail. unfold bind at 5. cbn [get_prev gets canon prev_free_block].
  by rewrite pmap_lookup_tail.
Qed.

Lemma prepend_n_canon l bs :
  NoDup (bs ++ l) -> prepend_n (Blk <$> bs) (canon l) = (Ok tt, canon (bs ++ l)).
Proof.
  intros Hnd. destruct bs as [|b bs]; [done|]. unfold prepend_n.
  rewrite fmap_cons. cbn match. rewrite <- (fmap_cons Blk b bs).
  set (bs' := b :: bs) in *.
  queue_step. unfold nexts at 1. rewrite lookup_insert_eq.
  destruct (chain_after_spec (canon l) [] bs' (tails l FakeTail) (pmap FakeHead l FakeTail))
    as (q' & E & [Hn Hp] & Hc).
  { by apply NoDup_app in Hnd as (? & _ & _). }
  { split; cbn [canon prev_free_block next_free_block].
    - intros w. unfold nexts. simpl. by rewrite insert_insert_eq, <- insert_union_l, (left_id_L ∅ (∪)).
    - simpl. by rewrite (left_id_L ∅ (∪)). }
  change ([] ++ bs') with bs' in *. change (lastp FakeHead []) with FakeHead in E.
  rewrite (bind_ok _ _ _ _ _ E).
  queue_step. queue_step. unfold modify.
  cbn [num_free_blocks prev_free_block next_free_block set_attr].
  rewrite Hn, Hp, Hc, <- nexts_app. unfold canon. do 2 f_equal.
  - cbn [num_free_blocks canon]. rewrite length_app, length_fmap. lia.
  - rewrite insert_union_r, pmap_set_first, pmap_app; [done|].
    apply prevs_None. intros i Hi%hdp_Blk Hin. destruct Hi as [Hi|Hi]; [|done].
    apply NoDup_app in Hnd as (_ & Hd & _). by apply (Hd i).
Qed.

(** Walking the links enumerates the abstract list. *)
Lemma canon_next l1 x l2 :
  NoDup (l1 ++ x :: l2) ->
  next_free_block (canon (l1 ++ x :: l2)) !! Blk x = Some (hdp l2 FakeTail).
Proof. intros (H1 & _ & _)%NoDup_middle. by apply nexts_lookup. Qed.

Lemma canon_next_tail l : next_free_block (canon l) !! FakeTail = None.
Proof. simpl. unfold nexts. rewrite lookup_insert_ne by done. by apply tails_None. Qed.

Lemma walk_free_canon l1 l2 fuel :
  NoDup (l1 ++ l2) -> (length l2 < fuel)%nat ->
  walk_free fuel (canon (l1 ++ l2)) (hdp l2 FakeTail) = Some (Blk <$> l2).
Proof.
  revert l1 fuel. induction l2 as [|x l2 IH]; intros l1 [|fuel] Hnd Hf; simpl in Hf; try lia.
  - cbn [walk_free hdp]. by rewrite canon_next_tail.
  - cbn [walk_free hdp]. rewrite canon_next by done.
    rewrite (cons_middle x l1 l2), app_assoc in Hnd |- *. by rewrite IH by (done || lia).
Qed.

Lemma iter_from_canon l1 l2 fuel :
  NoDup (l1 ++ l2) -> (length l2 < fuel)%nat ->
  iter_from fuel (canon (l1 ++ l2)) (Some (hdp l2 FakeTail)) = Some (Blk <$> l2).
Proof.
  revert l1 fuel. induction l2 as [|x l2 IH]; intros l1 [|fuel] Hnd Hf; simpl in Hf; try lia.
  - done.
  - cbn [iter_from hdp]. rewrite canon_next by done.
    rewrite (cons_middle x l1 l2), app_assoc in Hnd |- *. by rewrite IH by (done || lia).
Qed.

(** ** Construction *)

(** Links set by the constructor's loop once the blocks [l1] of [l1 ++ l2] have
    been visited. *)
Definition init_nexts (l1 l2 : list nat) : gmap ptr ptr :=
  match l2 with
  | y :: _ => tails l1 (Blk y)
  | [] => match last l1 with Some y => tails (removelast l1) (Blk y) | None => ∅ end
  end.

Definition init_prevs (l1 : list nat) : gmap ptr ptr :=
  match l1 with x :: l1' => prevs (Blk x) l1' | [] => ∅ end.

Lemma lastp_last x l y : last (x :: l) = Some y -> lastp (Blk x) l = Blk y.
Proof.
  revert x. induction l as [|z l IH]; intros x; [by intros [= ->]|].
  rewrite last_cons_cons. apply IH.
Qed.

Lemma init_prevs_snoc l x y :
  x ∉ l -> last l = Some y -> init_prevs (l ++ [x]) = <[Blk x := Blk y]> (init_prevs l).
Proof.
  intros Hx Hy. destruct l as [|z l]; [done|].
  simpl app. cbn [init_prevs]. rewrite prevs_snoc by (intros ?; apply Hx; by right).
  by rewrite (lastp_last _ _ _ Hy).
Qed.

Lemma tails_snoc l x z : x ∉ l -> tails (l ++ [x]) z = <[Blk x := z]> (tails l (Blk x)).
Proof.
  intros Hx. rewrite tails_app. simpl. rewrite insert_empty, <- insert_union_singleton_r; [done|].
  apply tails_None. by intros i [= <-].
Qed.

Lemma init_loop n l1 l2 :
  NoDup (l1 ++ l2) ->
  for_each (seq (length l1) (length l2)) (link_neighbours (l1 ++ l2))
    (mkQueue n (init_prevs l1) (init_nexts l1 l2))
  = (Ok tt, mkQueue n (init_prevs (l1 ++ l2)) (init_nexts (l1 ++ l2) [])).
Proof.
  revert l1. induction l2 as [|b l2 IH]; intros l1 Hnd; [by rewrite app_nil_r|].
  pose proof Hnd as (Hb & _ & _)%NoDup_middle.
  cbn [length seq for_each].
  assert (Hstep : link_neighbours (l1 ++ b :: l2) (length l1)
            (mkQueue n (init_prevs l1) (init_nexts l1 (b :: l2)))
          = (Ok tt, mkQueue n (init_prevs (l1 ++ [b])) (init_nexts (l1 ++ [b]) l2))).
  { unfold link_neighbours. rewrite list_lookup_middle by done.
    assert (Hn : (length l1 <? length (l1 ++ b :: l2) - 1)%nat
                 = match l2 with [] => false | _ => true end).
    { rewrite length_app. destruct l2; simpl; [apply Nat.ltb_ge|apply Nat.ltb_lt]; lia. }
    rewrite Hn. destruct l1 as [|y l1 _] using rev_ind.
    - simpl. destruct l2 as [|c l2]; reflexivity.
    - rewrite length_app. simpl length. destruct (Nat.ltb_spec 0 (length l1 + 1)); [|lia].
      rewrite lookup_app_l by (rewrite length_app; simpl; lia).
      replace (length l1 + 1 - 1)%nat with (length l1) by lia.
      rewrite list_lookup_middle by done.
      rewrite (init_prevs_snoc (l1 ++ [y]) b y) by (done || apply last_snoc).
      queue_step. destruct l2 as [|c l2].
      + unfold ret. cbn [init_nexts]. rewrite last_snoc, removelast_last. done.
      + replace (length l1 + 1 + 1)%nat with (S (length (l1 ++ [y]))) by (rewrite length_app; simpl; lia).
        rewrite lookup_app_r by lia.
        replace (S (length (l1 ++ [y])) - length (l1 ++ [y]))%nat with 1%nat by lia.
        unfold modify. cbn [lookup list_lookup num_free_blocks prev_free_block next_free_block set_attr].
        cbn [init_nexts]. by rewrite <- (tails_snoc (l1 ++ [y]) b (Blk c)). }
  rewrite (bind_ok _ _ _ _ _ Hstep).
  rewrite (cons_middle b l1 l2), app_assoc in Hnd |- *.
  replace (S (length l1)) with (length (l1 ++ [b])) by (rewrite length_app; simpl; lia).
  by apply IH.
Qed.

Lemma new_queue_canon l : NoDup l -> new_queue l = (Ok tt, canon l).
Proof.
  intros Hnd. unfold new_queue, queue_init.
  assert (Hloop : for_each (seq 0 (length l)) (link_neighbours l)
            (mkQueue (Z.of_nat (length l)) ∅ ∅)
          = (Ok tt, mkQueue (Z.of_nat (length l)) (init_prevs l) (init_nexts l []))).
  { pose proof (init_loop (Z.of_nat (length l)) [] l Hnd) as Hl. simpl app in Hl.
    rewrite <- Hl. by destruct l. }
  rewrite (bind_ok _ _ _ _ _ Hloop).
  destruct l as [|x l]; [reflexivity|].
  destruct (last (x :: l)) as [y|] eqn:Hy; [|by apply last_None in Hy].
  pose proof (lastp_last _ _ _ Hy) as Hlp.
  apply last_Some in Hy as [l' Hy]. rewrite Hy in Hnd.
  pose proof Hnd as (Hy' & _ & _)%NoDup_middle.
  assert (Hx : hdp l' (Blk y) = Blk x) by (destruct l'; by injection Hy as -> _).
  cbn [head]. repeat queue_step. unfold modify, canon.
  cbn [num_free_blocks prev_free_block next_free_block set_attr]. f_equal. f_equal.
  - cbn [init_prevs]. rewrite pmap_prevs. simpl lastp. rewrite Hlp.
    cbn [prevs]. rewrite <- insert_union_singleton_r; [done|].
    rewrite lookup_insert_ne by done. by apply prevs_None.
  - rewrite Hy. cbn [init_nexts]. rewrite last_snoc, removelast_last.
    rewrite nexts_snoc by done. unfold nexts. by rewrite Hx.
Qed.

(** ** Refinement of the abstract list *)

Inductive queue_op :=
  | PopLeft
  | PopLeftN (n : Z)
  | Remove (x : nat)
  | Append (x : nat)
  | PrependN (xs : list nat)
  | AppendN (xs : list nat).

(** The operations of the pointer structure, with the blocks they return. *)
Definition run_op (op : queue_op) : queueM (list ptr) :=
  match op with
  | PopLeft => b <- popleft ;; ret [b]
  | PopLeftN n => popleft_n n
  | Remove x => remove (Blk x) ;; ret []
  | Append x => append (Blk x) ;; ret []
  | PrependN xs => prepend_n (Blk <$> xs) ;; ret []
  | AppendN xs => append_n (Blk <$> xs) ;; ret []
  end.

(** What they promise on a list in eviction order. *)
Definition spec_op (op : queue_op) (l : list nat) : res (list nat) * list nat :=
  match op with
  | PopLeft => match l with [] => (Raise ValueError, []) | x :: l' => (Ok [x], l') end
  | PopLeftN n =>
      if n <=? Z.of_nat (length l) then (Ok (take (Z.to_nat n) l), drop (Z.to_nat n) l)
      else (Raise AssertionError, l)
  | Remove x =>
      if decide (x ∈ l) then (Ok [], filter (fun y => y <> x) l) else (Raise RuntimeError, l)
  | Append x => (Ok [], l ++ [x])
  | PrependN xs => (Ok [], xs ++ l)
  | AppendN xs => (Ok [], l ++ xs)
  end.

(** The callers' obligations: counts are not negative, and only blocks that are
    not queued are put back, each once. *)
Definition op_ok (op : queue_op) (l : list nat) : Prop :=
  match op with
  | PopLeft | Remove _ => True
  | PopLeftN n => 0 <= n
  | Append x => x ∉ l
  | PrependN xs | AppendN xs => NoDup (xs ++ l)
  end.

#[global] Instance op_ok_dec op l : Decision (op_ok op l).
Proof. destruct op; simpl; apply _. Defined.

(** A sequence of operations, each exception caught by the caller. *)
Fixpoint run_ops (ops : list queue_op) (q : FreeKVCacheBlockQueue)
    : list (res (list ptr)) * FreeKVCacheBlockQueue :=
  match ops with
  | [] => ([], q)
  | op :: ops' => let '(r, q') := run_op op q in
                  let '(rs, q'') := run_ops ops' q' in (r :: rs, q'')
  end.

Fixpoint spec_ops (ops : list queue_op) (l : list nat) : list (res (list nat)) * list nat :=
  match ops with
  | [] => ([], l)
  | op :: ops' => let '(r, l') := spec_op op l in
                  let '(rs, l'') := spec_ops ops' l' in (r :: rs, l'')
  end.

Fixpoint ops_ok (ops : list queue_op) (l : list nat) : Prop :=
  match ops with
  | [] => True
  | op :: ops' => op_ok op l /\ ops_ok ops' (spec_op op l).2
  end.

Definition res_blks (r : res (list nat)) : res (list ptr) :=
  match r with Ok xs => Ok (Blk <$> xs) | Raise e => Raise e end.

Lemma filter_ne_notin (l : list nat) x : x ∉ l -> filter (fun y => y <> x) l = l.
Proof. intros Hx. apply filter_id. by intros y Hy ->. Qed.

Lemma filter_ne_middle (l1 l2 : list nat) x :
  x ∉ l1 -> x ∉ l2 -> filter (fun y => y <> x) (l1 ++ x :: l2) = l1 ++ l2.
Proof.
  intros H1 H2. rewrite filter_app, filter_cons_False by tauto. by rewrite !filter_ne_notin.
Qed.

Lemma run_op_refines op l :
  NoDup l -> op_ok op l ->
  run_op op (canon l) = (res_blks (spec_op op l).1, canon (spec_op op l).2)
  /\ NoDup (spec_op op l).2.
Proof.
  intros Hnd Hok. destruct op as [|n|x|x|xs|xs]; simpl in *.
  - destruct l as [|x l]; [done|].
    rewrite (bind_ok _ _ _ _ _ (popleft_canon x l Hnd)). by apply NoDup_cons in Hnd as [_ ?].
  - destruct (Z.leb_spec n (Z.of_nat (length l))); simpl; [|by rewrite popleft_n_too_many].
    rewrite <- (take_drop (Z.to_nat n) l) in Hnd |- * at 1. apply NoDup_app in Hnd as H'.
    split; [|apply H']. rewrite <- popleft_n_canon by done.
    rewrite length_take_le by lia. by rewrite Z2Nat.id.
  - destruct (decide (x ∈ l)) as [Hx|Hx]; simpl.
    + apply list_elem_of_split in Hx as (l1 & l2 & ->).
      pose proof Hnd as (H1 & H2 & H3)%NoDup_middle.
      by rewrite (bind_ok _ _ _ _ _ (remove_canon l1 x l2 Hnd)), filter_ne_middle.
    + unfold bind. by rewrite remove_not_free.
  - assert (NoDup (l ++ [x])).
    { apply NoDup_app. split_and!; [done| |apply NoDup_singleton]. intros y Hy ->%list_elem_of_singleton. done. }
    by rewrite (bind_ok _ _ _ _ _ (append_canon l x ltac:(done))).
  - by rewrite (bind_ok _ _ _ _ _ (prepend_n_canon l xs Hok)).
  - rewrite Permutation_app_comm in Hok.
    by rewrite (bind_ok _ _ _ _ _ (append_n_canon l xs Hok)).
Qed.

Lemma run_ops_refines ops l :
  NoDup l -> ops_ok ops l ->
  run_ops ops (canon l) = (res_blks <$> (spec_ops ops l).1, canon (spec_ops ops l).2)
  /\ NoDup (spec_ops ops l).2.
Proof.
  revert l. induction ops as [|op ops IH]; intros l Hnd Hok; simpl in *; [done|].
  destruct Hok as [H1 H2]. destruct (run_op_refines op l Hnd H1) as [-> Hnd'].
  destruct (spec_op op l) as [r l']; simpl in *.
  destruct (IH l' Hnd' H2) as [-> Hnd'']. by destruct (spec_ops ops l').
Qed.

(** C20: The linked free queue refines a list.  Build the queue over distinct
    blocks and run any sequence of [popleft], [popleft_n], [remove], [append],
    [prepend_n] and [append_n] that respects the callers' obligations, errors
    included (an empty queue, too many blocks requested, a block that is not
    queued): every operation returns or raises exactly what the list
    specification says, the counter is the length of the list, and
    [get_all_free_blocks] terminates and enumerates the list in eviction order. *)
Theorem free_queue_refines_list (blocks : list nat) (ops : list queue_op) :
  NoDup blocks -> ops_ok ops blocks ->
  let '(rs, l) := spec_ops ops blocks in
  exists q0 q, new_queue blocks = (Ok tt, q0)
    /\ run_ops ops q0 = (res_blks <$> rs, q)
    /\ q.(num_free_blocks) = Z.of_nat (length l)
    /\ NoDup l
    /\ forall fuel, (length l < fuel)%nat ->
         get_all_free_blocks fuel q = Ok (Some (Blk <$> l)).
Proof.
  intros Hnd Hok. destruct (run_ops_refines ops blocks Hnd Hok) as [Hrun Hnd'].
  destruct (spec_ops ops blocks) as [rs l]; simpl in *.
  exists (canon blocks), (canon l). split_and!; [by apply new_queue_canon|done..|].
  intros fuel Hf. unfold get_all_free_blocks.
  change (next_free_block (canon l) !! FakeHead) with (nexts FakeHead l FakeTail !! FakeHead).
  unfold nexts. rewrite lookup_insert_eq. by rewrite (walk_free_canon [] l).
Qed.

(** Five blocks: take two, return one at each end, then provoke the errors. *)
Lemma free_queue_refines_list_witness :
  exists q0 q, new_queue [1; 2; 3; 4; 5]%nat = (Ok tt, q0)
    /\ run_ops [PopLeftN 2; Append 1%nat; Remove 4%nat; PrependN [4]%nat; Remove 2%nat; PopLeft;
                PopLeftN 9; AppendN [2; 4]%nat] q0
       = ([Ok [Blk 1; Blk 2]; Ok []; Ok []; Ok []; Raise RuntimeError; Ok [Blk 4];
           Raise AssertionError; Ok []], q)
    /\ q.(num_free_blocks) = 5
    /\ NoDup [3; 5; 1; 2; 4]%nat
    /\ forall fuel, (5 < fuel)%nat ->
         get_all_free_blocks fuel q = Ok (Some [Blk 3; Blk 5; Blk 1; Blk 2; Blk 4]).
Proof.
  apply (free_queue_refines_list [1; 2; 3; 4; 5]%nat
           [PopLeftN 2; Append 1%nat; Remove 4%nat; PrependN [4]%nat; Remove 2%nat; PopLeft;
            PopLeftN 9; AppendN [2; 4]%nat]).
  - apply (bool_decide_unpack _). vm_compute. exact I.
  - repeat split; apply (bool_decide_unpack _); vm_compute; exact I.
Defined.

(** Resuming an iteration.  [iter_blocks_after] started at a queued cursor
    yields exactly the blocks behind the cursor, in order, and started without
    a cursor yields the whole queue; one step of fuel per remaining block and
    one for the end suffices. *)
Theorem iter_blocks_after_suffix (l1 : list nat) (x : nat) (l2 : list nat) (fuel : nat) :
  NoDup (l1 ++ x :: l2) -> (S (length (l1 ++ l2)) < fuel)%nat ->
  iter_blocks_after fuel (canon (l1 ++ x :: l2)) (Some (Blk x)) = Some (Blk <$> l2)
  /\ iter_blocks_after fuel (canon (l1 ++ x :: l2)) None = Some (Blk <$> (l1 ++ x :: l2)).
Proof.
  intros Hnd Hf. rewrite length_app in Hf. unfold iter_blocks_after. split.
  - rewrite canon_next by done. rewrite cons_middle, app_assoc in Hnd |- *.
    apply iter_from_canon; [done|lia].
  - unfold canon, nexts. cbn [next_free_block]. rewrite lookup_insert_eq.
    apply (iter_from_canon [] (l1 ++ x :: l2)); [done|]. rewrite length_app; simpl; lia.
Qed.

Lemma iter_blocks_after_suffix_witness :
  iter_blocks_after 9 (canon [4; 2; 7; 1]%nat) (Some (Blk 2)) = Some [Blk 7; Blk 1]
  /\ iter_blocks_after 9 (canon [4; 2; 7; 1]%nat) None = Some [Blk 4; Blk 2; Blk 7; Blk 1].
Proof.
  apply (iter_blocks_after_suffix [4]%nat 2 [7; 1]%nat 9).
  - apply (bool_decide_unpack _). vm_compute. exact I.
  - simpl. lia.
Defined.
