(* ===== verification/BlockHash.v ===== *)
(** * Block hashes and their keys

    Models the hashing part of [vllm/v1/core/kv_cache_utils.py]: the packing of
    a block hash with its KV-cache group id, the extra keys that separate
    prompts with equal token ids, the chained block hashes a request accumulates
    while it grows ([vllm/v1/request.py]), the view of those hashes at a coarser
    block size, and the choice of the two block sizes.

    The digest functions ([sha256], [xxhash], CBOR serialisation) are parameters.
    Statements about collisions hold for every such function: equal block hashes
    come from equal prefixes or from an explicit collision. *)

From Stdlib Require Import Sorted.
From S2P Require Import Prelude.

Notation bytes := (list Z).

(** ** Keys: block hash and group id *)

(** [int.from_bytes(b, "big")] *)
Definition from_bytes_big (b : bytes) : Z := fold_left (fun acc x => acc * 256 + x) b 0.

(** [n.to_bytes(4, "big", signed=False)] *)
Definition to_bytes4 (n : Z) : res bytes :=
  if (0 <=? n) && (n <? 2 ^ 32) then
    Ok [n / 2 ^ 24; (n / 2 ^ 16) mod 256; (n / 2 ^ 8) mod 256; n mod 256]
  else Raise OverflowError.

Definition make_block_hash_with_group_id (block_hash : bytes) (group_id : Z) : res bytes :=
  let? g := to_bytes4 group_id in Ok (block_hash ++ g).

(** [key[:-4]] and [key[-4:]] *)
Definition get_block_hash (key : bytes) : bytes := take (length key - 4) key.

Definition get_group_id (key : bytes) : Z := from_bytes_big (drop (length key - 4) key).

(** [bytes | int]: the external form of a hash. *)
Inductive ExternalBlockHash :=
  | ExtBytes (b : bytes)
  | ExtInt (n : Z).

Definition maybe_convert_block_hash (use_int : bool) (hash_bytes : bytes) : ExternalBlockHash :=
  if negb use_int then ExtBytes hash_bytes
  else ExtInt (Z.land (from_bytes_big hash_bytes) (Z.shiftl 1 64 - 1)).

Lemma to_bytes4_ok n g : to_bytes4 n = Ok g -> length g = 4%nat /\ from_bytes_big g = n.
Proof.
  unfold to_bytes4. destruct (Z.leb_spec 0 n), (Z.ltb_spec n (2 ^ 32)); simpl; try done.
  intros [= <-]. split; [done|]. unfold from_bytes_big. cbn [fold_left].
  change (2 ^ 24) with (256 * 256 * 256). change (2 ^ 16) with (256 * 256).
  change (2 ^ 8) with 256. rewrite <- !Z.div_div by lia.
  pose proof (Z.div_mod n 256). pose proof (Z.div_mod (n / 256) 256).
  pose proof (Z.div_mod (n / 256 / 256) 256). lia.
Qed.

Lemma key_split h g :
  length g = 4%nat -> get_block_hash (h ++ g) = h /\ get_group_id (h ++ g) = from_bytes_big g.
Proof.
  intros Hg. unfold get_block_hash, get_group_id. rewrite length_app, Hg.
  replace (length h + 4 - 4)%nat with (length h) by lia. by rewrite take_app_length, drop_app_length.
Qed.

Lemma make_key_split h g key :
  make_block_hash_with_group_id h g = Ok key -> get_block_hash key = h /\ get_group_id key = g.
Proof.
  unfold make_block_hash_with_group_id. destruct (to_bytes4 g) as [b|] eqn:Hb; [|done].
  apply to_bytes4_ok in Hb as [Hl <-]. intros [= <-]. by apply key_split.
Qed.

Lemma make_key_ok h g : 0 <= g < 2 ^ 32 -> exists key, make_block_hash_with_group_id h g = Ok key.
Proof.
  intros Hg. unfold make_block_hash_with_group_id, to_bytes4.
  destruct (Z.leb_spec 0 g), (Z.ltb_spec g (2 ^ 32)); simpl; eauto; lia.
Qed.

(** Keys of the prefix cache.  For a group id that fits 32 bits, packing
    succeeds and unpacking recovers the hash and the group id, so two keys are
    equal only when both components are; any other group id raises
    [OverflowError]. *)
Theorem block_hash_key_roundtrip (h : bytes) (g : Z) :
  (0 <= g < 2 ^ 32 ->
     exists key, make_block_hash_with_group_id h g = Ok key
       /\ get_block_hash key = h /\ get_group_id key = g
       /\ forall h' g', make_block_hash_with_group_id h' g' = Ok key -> h' = h /\ g' = g)
  /\ (~ 0 <= g < 2 ^ 32 -> make_block_hash_with_group_id h g = Raise OverflowError).
Proof.
  split.
  - intros Hg. destruct (make_key_ok h g Hg) as [key Hk]. exists key.
    destruct (make_key_split _ _ _ Hk) as [H1 H2]. split_and!; try done.
    intros h' g' [<- <-]%make_key_split. done.
  - intros Hg. unfold make_block_hash_with_group_id, to_bytes4.
    destruct (Z.leb_spec 0 g), (Z.ltb_spec g (2 ^ 32)); simpl; try done; lia.
Qed.

Lemma block_hash_key_roundtrip_witness :
  (0 <= 258 < 2 ^ 32 ->
     exists key, make_block_hash_with_group_id [7; 9] 258 = Ok key
       /\ get_block_hash key = [7; 9] /\ get_group_id key = 258
       /\ forall h' g', make_block_hash_with_group_id h' g' = Ok key -> h' = [7; 9] /\ g' = 258)
  /\ (~ 0 <= 258 < 2 ^ 32 -> make_block_hash_with_group_id [7; 9] 258 = Raise OverflowError).
Proof. apply (block_hash_key_roundtrip [7; 9] 258). Defined.

(** ** Requests and extra keys *)

(** A multi-modal input: its content identifier and its placeholder range. *)
Record MultiModalFeatureSpec := mkFeature {
  identifier : option string;
  mm_offset : Z;
  mm_length : Z;
}.

Definition mm_end (f : MultiModalFeatureSpec) : Z := f.(mm_offset) + f.(mm_length).

(** The elements of the [extra_keys] tuple, by their Python type. *)
Inductive ExtraKey :=
  | MMKey (identifier : string) (relative_offset : Z)
  | StrKey (s : string)
  | BytesKey (b : bytes).

#[global] Instance ExtraKey_eq_dec : EqDecision ExtraKey.
Proof. solve_decision. Defined.

Record LoRARequest := mkLoRA {
  lora_name : string;
  lora_int_id : Z;
}.

(** The attributes of [Request] that block hashing reads and writes.  A prompt
    embedding is a list of rows, each given by its bytes. *)
Record Request := mkRequest {
  all_token_ids : list Z;
  mm_features : list MultiModalFeatureSpec;
  lora_request : option LoRARequest;
  cache_salt : option string;
  prompt_embeds : option (list bytes);
  prompt_embeds_per_block_hashes : gmap (Z * Z) bytes;
  block_hashes : list bytes;
}.

Notation requestM := (M Request).

Definition num_tokens (r : Request) : Z := Z.of_nat (length r.(all_token_ids)).

Definition set_block_hashes (hs : list bytes) (r : Request) : Request :=
  mkRequest r.(all_token_ids) r.(mm_features) r.(lora_request) r.(cache_salt) r.(prompt_embeds)
    r.(prompt_embeds_per_block_hashes) hs.

Definition set_embeds_memo (m : gmap (Z * Z) bytes) (r : Request) : Request :=
  mkRequest r.(all_token_ids) r.(mm_features) r.(lora_request) r.(cache_salt) r.(prompt_embeds)
    m r.(block_hashes).

Definition set_all_token_ids (ts : list Z) (r : Request) : Request :=
  mkRequest ts r.(mm_features) r.(lora_request) r.(cache_salt) r.(prompt_embeds)
    r.(prompt_embeds_per_block_hashes) r.(block_hashes).

(** [l[a:b]] for [0 <= a <= b]. *)
Definition slice {A : Type} (l : list A) (a b : Z) : list A :=
  take (Z.to_nat (b - a)) (drop (Z.to_nat a) l).

(** The [while] loop of [_gen_mm_extra_hash_keys]; [feats] is
    [mm_features[curr_mm_idx:]]. *)
Fixpoint mm_loop (start_token_idx end_token_idx : Z) (feats : list MultiModalFeatureSpec)
    (curr_mm_idx : Z) : res (list ExtraKey * Z) :=
  match feats with
  | [] => Ok ([], curr_mm_idx)
  | f :: feats' =>
      match f.(identifier) with
      | None => Raise AssertionError
      | Some ident =>
          if end_token_idx >? f.(mm_offset) then
            if start_token_idx >=? mm_end f then
              mm_loop start_token_idx end_token_idx feats' (curr_mm_idx + 1)
            else
              let key := MMKey ident (f.(mm_offset) - start_token_idx) in
              if end_token_idx >=? mm_end f then
                let? r := mm_loop start_token_idx end_token_idx feats' (curr_mm_idx + 1) in
                Ok (key :: r.1, r.2)
              else Ok ([key], curr_mm_idx)
          else Ok ([], curr_mm_idx)
      end
  end.

Definition gen_mm_extra_hash_keys (r : Request) (start_token_idx end_token_idx start_mm_idx : Z)
    : res (list ExtraKey * Z) :=
  match last r.(mm_features) with
  | None => Ok ([], start_mm_idx)
  | Some last_pos =>
      if mm_end last_pos <=? start_token_idx then Ok ([], start_mm_idx) else
      let n := Z.of_nat (length r.(mm_features)) in
      let? i := if start_mm_idx <? 0 then
                  if - start_mm_idx <=? n then Ok (n + start_mm_idx) else Raise AssertionError
                else Ok start_mm_idx in
      mm_loop start_token_idx end_token_idx (drop (Z.to_nat i) r.(mm_features)) i
  end.

Definition gen_lora_extra_hash_keys (r : Request) : list ExtraKey :=
  match r.(lora_request) with None => [] | Some l => [StrKey l.(lora_name)] end.

Definition cache_salt_keys (r : Request) (start_token_idx : Z) : list ExtraKey :=
  match r.(cache_salt) with
  | Some s => if (start_token_idx =? 0) && negb (bool_decide (s = EmptyString)) then [StrKey s] else []
  | None => []
  end.

Section hashing.
(** [hashlib.sha256(...).digest()], the caching hash function applied to
    [(parent_block_hash, tokens, extra_keys)], and the seed of a chain. *)
Context (sha256 : bytes -> bytes).
Context (hash_function : bytes * list Z * option (list ExtraKey) -> bytes).
Context (NONE_HASH : bytes).

Definition embeds_digest (rows : list bytes) (start_token_idx end_token_idx : Z) : bytes :=
  sha256 (concat (slice rows start_token_idx end_token_idx)).

Definition gen_prompt_embeds_extra_hash_keys (start_token_idx end_token_idx : Z)
    : requestM (list ExtraKey) :=
  embeds <- gets prompt_embeds ;;
  match embeds with
  | None => ret []
  | Some rows =>
      memo <- gets prompt_embeds_per_block_hashes ;;
      match memo !! (start_token_idx, end_token_idx) with
      | Some h => ret [BytesKey h]
      | None =>
          let h := embeds_digest rows start_token_idx end_token_idx in
          modify (set_embeds_memo (<[(start_token_idx, end_token_idx) := h]> memo)) ;;
          ret [BytesKey h]
      end
  end.

Definition generate_block_hash_extra_keys (start_token_idx end_token_idx start_mm_idx : Z)
    : requestM (option (list ExtraKey) * Z) :=
  r <- gets id ;;
  mm <- lift (gen_mm_extra_hash_keys r start_token_idx end_token_idx start_mm_idx) ;;
  embeds <- gen_prompt_embeds_extra_hash_keys start_token_idx end_token_idx ;;
  let extra_keys := gen_lora_extra_hash_keys r ++ mm.1 ++ cache_salt_keys r start_token_idx ++ embeds in
  match extra_keys with
  | [] => ret (None, mm.2)
  | _ => ret (Some extra_keys, mm.2)
  end.

Definition hash_block_tokens (parent_block_hash : option bytes) (curr_block_token_ids : list Z)
    (extra_keys : option (list ExtraKey)) : bytes :=
  let parent := match parent_block_hash with None | Some [] => NONE_HASH | Some h => h end in
  hash_function (parent, curr_block_token_ids, extra_keys).

(** The [while True] loop of [request_block_hasher]; the result is [None] when
    [fuel] runs out. *)
Fixpoint hasher_loop (fuel : nat) (hash_block_size start_token_idx curr_mm_idx : Z)
    (prev_block_hash_value : option bytes) (new_block_hashes : list bytes)
    : requestM (option (list bytes)) :=
  match fuel with
  | O => ret None
  | S f =>
      r <- gets id ;;
      let end_token_idx := start_token_idx + hash_block_size in
      if end_token_idx >? num_tokens r then ret (Some new_block_hashes) else
      '(extra_keys, mm_idx) <- generate_block_hash_extra_keys start_token_idx end_token_idx curr_mm_idx ;;
      let block_tokens := slice r.(all_token_ids) start_token_idx end_token_idx in
      let block_hash := hash_block_tokens prev_block_hash_value block_tokens extra_keys in
      hasher_loop f hash_block_size (start_token_idx + hash_block_size) mm_idx (Some block_hash)
        (new_block_hashes ++ [block_hash])
  end.

Definition request_block_hasher (fuel : nat) (hash_block_size : Z)
    : requestM (option (list bytes)) :=
  r <- gets id ;;
  let start_token_idx := Z.of_nat (length r.(block_hashes)) * hash_block_size in
  if start_token_idx + hash_block_size >? num_tokens r then ret (Some []) else
  let curr_mm_idx := if start_token_idx >? 0 then -1 else 0 in
  hasher_loop fuel hash_block_size start_token_idx curr_mm_idx (last r.(block_hashes)) [].

Definition update_block_hashes (fuel : nat) (hash_block_size : Z) : requestM (option unit) :=
  new_hashes <- request_block_hasher fuel hash_block_size ;;
  match new_hashes with
  | None => ret None
  | Some hs => modify (fun r => set_block_hashes (r.(block_hashes) ++ hs) r) ;; ret (Some tt)
  end.

Definition append_output_token_ids (fuel : nat) (hash_block_size : Z) (token_ids : list Z)
    : requestM (option unit) :=
  modify (fun r => set_all_token_ids (r.(all_token_ids) ++ token_ids) r) ;;
  update_block_hashes fuel hash_block_size.

(** The part of [Request.__init__] that matters here: a request without hashes,
    whose prompt blocks are hashed at once. *)
Definition new_request (fuel : nat) (hash_block_size : Z) (prompt : list Z)
    (feats : list MultiModalFeatureSpec) (lora : option LoRARequest) (salt : option string) (embeds : option (list bytes))
    : res (option unit) * Request :=
  update_block_hashes fuel hash_block_size (mkRequest prompt feats lora salt embeds ∅ []).

(** ** Reference definition: every block hashed from scratch *)

Definition overlaps (s e : Z) (f : MultiModalFeatureSpec) : bool :=
  (f.(mm_offset) <? e) && (s <? mm_end f).

(** The inputs whose placeholders meet the block [[s, e)]. *)
Definition mm_keys (feats : list MultiModalFeatureSpec) (s e : Z) : list ExtraKey :=
  omap (fun f => if overlaps s e f
                 then (fun ident => MMKey ident (f.(mm_offset) - s)) <$> f.(identifier)
                 else None) feats.

Definition embeds_keys (r : Request) (s e : Z) : list ExtraKey :=
  match r.(prompt_embeds) with None => [] | Some rows => [BytesKey (embeds_digest rows s e)] end.

Definition block_keys (r : Request) (s e : Z) : list ExtraKey :=
  gen_lora_extra_hash_keys r ++ mm_keys r.(mm_features) s e ++ cache_salt_keys r s ++ embeds_keys r s e.

Definition keys_tuple (l : list ExtraKey) : option (list ExtraKey) :=
  match l with [] => None | _ => Some l end.

Fixpoint ref_chain (r : Request) (hbs : Z) (n : nat) : list bytes :=
  match n with
  | O => []
  | S n' =>
      let s := Z.of_nat n' * hbs in
      ref_chain r hbs n' ++
      [hash_block_tokens (last (ref_chain r hbs n')) (slice r.(all_token_ids) s (s + hbs))
         (keys_tuple (block_keys r s (s + hbs)))]
  end.

(** Well-formed inputs: identified, in order and disjoint. *)
Definition feats_wf (feats : list MultiModalFeatureSpec) : Prop :=
  Forall (fun f => is_Some f.(identifier) /\ 0 <= f.(mm_length)) feats
  /\ StronglySorted (fun f g => mm_end f <= g.(mm_offset)) feats.

Definition ended (s : Z) (f : MultiModalFeatureSpec) : Prop := mm_end f <= s.

(** [c] is a valid resumption index for the block starting at [s]: no input
    before it reaches the block. *)
Definition idx_ok (feats : list MultiModalFeatureSpec) (c s : Z) : Prop :=
  Forall (ended s) feats
  \/ exists k : nat, (k <= length feats)%nat
       /\ (c = Z.of_nat k \/ (c < 0 /\ c = Z.of_nat k - Z.of_nat (length feats)))
       /\ Forall (ended s) (take k feats).

Definition memo_ok (r : Request) : Prop :=
  forall s e h, r.(prompt_embeds_per_block_hashes) !! (s, e) = Some h ->
    exists rows, r.(prompt_embeds) = Some rows /\ h = embeds_digest rows s e.

Lemma ended_mono s e feats : s <= e -> Forall (ended s) feats -> Forall (ended e) feats.
Proof. intros Hse H. eapply Forall_impl; [exact H|]. unfold ended. lia. Qed.

Lemma mm_keys_ended feats s e : Forall (ended s) feats -> mm_keys feats s e = [].
Proof.
  induction 1 as [|f feats Hf _ IH]; [done|]. cbn. unfold overlaps, ended in *.
  by destruct (Z.ltb_spec s (mm_end f)); [lia|]; rewrite andb_false_r.
Qed.

Lemma mm_keys_later feats s e : Forall (fun f => e <= f.(mm_offset)) feats -> mm_keys feats s e = [].
Proof.
  induction 1 as [|f feats Hf _ IH]; [done|]. cbn. unfold overlaps in *.
  by destruct (Z.ltb_spec (mm_offset f) e); [lia|].
Qed.

Lemma mm_keys_app f1 f2 s e : mm_keys (f1 ++ f2) s e = mm_keys f1 s e ++ mm_keys f2 s e.
Proof. apply omap_app. Qed.

Lemma feats_wf_cons f feats :
  feats_wf (f :: feats) ->
  (exists i, f.(identifier) = Some i) /\ 0 <= f.(mm_length)
  /\ Forall (fun g => mm_end f <= g.(mm_offset)) feats /\ feats_wf feats.
Proof.
  intros [[[[i Hi] Hl] Hf]%Forall_cons [Hs Ha]%StronglySorted_inv].
  split_and!; [by exists i|done|done|by split].
Qed.

Lemma mm_loop_spec s e feats i :
  feats_wf feats -> s <= e ->
  exists k, mm_loop s e feats i = Ok (mm_keys feats s e, i + Z.of_nat k)
    /\ (k <= length feats)%nat /\ Forall (ended e) (take k feats).
Proof.
  intros Hwf Hse. revert i. induction feats as [|f feats IH]; intros i.
  { exists 0%nat. simpl. by rewrite Z.add_0_r. }
  apply feats_wf_cons in Hwf as ((id & Hid) & Hl & Hlater & Hwf). specialize (IH Hwf).
  cbn [mm_loop]. unfold mm_keys. cbn [omap list_omap]. rewrite Hid. cbn [fmap option_fmap option_map].
  unfold overlaps. rewrite Z.gtb_ltb, !Z.geb_leb.
  destruct (Z.ltb_spec (mm_offset f) e) as [Ho|Ho]; cbn [andb].
  - destruct (Z.leb_spec (mm_end f) s) as [Hs|Hs], (Z.ltb_spec s (mm_end f)) as [Hs'|Hs']; try lia.
    + destruct (IH (i + 1)) as (k & -> & Hk & Hf). exists (S k).
      split_and!; [do 2 f_equal; lia|simpl; lia|]. constructor; [unfold ended; lia|done].
    + destruct (Z.leb_spec (mm_end f) e) as [He|He].
      * destruct (IH (i + 1)) as (k & -> & Hk & Hf). exists (S k).
        split_and!; [cbn; do 2 f_equal; lia|simpl; lia|]. by constructor.
      * exists 0%nat. rewrite Z.add_0_r. split_and!; [|lia|constructor]. do 3 f_equal.
        symmetry. apply mm_keys_later. eapply Forall_impl; [exact Hlater|]. simpl. lia.
  - exists 0%nat. rewrite Z.add_0_r. split_and!; [|lia|constructor]. do 3 f_equal.
    symmetry. apply mm_keys_later. eapply Forall_impl; [exact Hlater|]. unfold mm_end. simpl. lia.
Qed.

Lemma last_ended feats f s :
  feats_wf feats -> last feats = Some f -> ended s f -> Forall (ended s) feats.
Proof.
  intros Hwf Hl Hf. induction feats as [|g feats IH]; [constructor|].
  apply feats_wf_cons in Hwf as (_ & Hg & Hlater & Hwf).
  destruct feats as [|h feats]; [injection Hl as ->; by constructor|].
  specialize (IH Hwf Hl). constructor; [|done].
  apply Forall_cons in Hlater as [Hgh _]. apply Forall_cons in IH as [Hh _].
  apply feats_wf_cons in Hwf as (_ & Hhl & _). unfold ended, mm_end in *. lia.
Qed.

Lemma feats_wf_drop k feats : feats_wf feats -> feats_wf (drop k feats).
Proof.
  revert k. induction feats as [|f feats IH]; intros [|k] Hwf; try done.
  apply IH. by apply feats_wf_cons in Hwf as (_ & _ & _ & ?).
Qed.

Lemma gen_mm_spec r s e c :
  feats_wf r.(mm_features) -> s <= e -> idx_ok r.(mm_features) c s ->
  exists c', gen_mm_extra_hash_keys r s e c = Ok (mm_keys r.(mm_features) s e, c')
    /\ idx_ok r.(mm_features) c' e.
Proof.
  intros Hwf Hse Hidx. unfold gen_mm_extra_hash_keys.
  destruct (last (mm_features r)) as [f|] eqn:Hl.
  2:{ apply last_None in Hl. rewrite Hl. exists c. split; [done|]. left. constructor. }
  destruct (Z.leb_spec (mm_end f) s) as [Hf|Hf].
  { pose proof (last_ended _ _ _ Hwf Hl Hf) as Hall. exists c.
    rewrite mm_keys_ended by done. split; [done|]. left. by eapply ended_mono. }
  destruct Hidx as [Hall|(k & Hk & Hc & Hend)].
  { apply last_Some in Hl as [l' Hl]. rewrite Hl in Hall.
    apply Forall_app in Hall as [_ [Hall _]%Forall_cons]. unfold ended in Hall. lia. }
  assert (Hi : (if c <? 0 then
                  if - c <=? Z.of_nat (length (mm_features r))
                  then Ok (Z.of_nat (length (mm_features r)) + c) else Raise AssertionError
                else Ok c) = Ok (Z.of_nat k)).
  { destruct Hc as [->|[Hc ->]].
    - by destruct (Z.ltb_spec (Z.of_nat k) 0); [lia|].
    - destruct (Z.ltb_spec (Z.of_nat k - Z.of_nat (length (mm_features r))) 0); [|lia].
      destruct (Z.leb_spec (- (Z.of_nat k - Z.of_nat (length (mm_features r))))
                  (Z.of_nat (length (mm_features r)))); [|lia].
      f_equal. lia. }
  rewrite Hi. cbn [rbind]. rewrite Nat2Z.id.
  destruct (mm_loop_spec s e (drop k (mm_features r)) (Z.of_nat k)) as (j & -> & Hj & Hjend);
    [by apply feats_wf_drop|done|].
  rewrite length_drop in Hj. exists (Z.of_nat (k + j)). split.
  - do 2 f_equal; [|lia]. rewrite <- (take_drop k (mm_features r)) at 2.
    rewrite mm_keys_app. by rewrite (mm_keys_ended (take k (mm_features r))).
  - right. exists (k + j)%nat. split_and!; [lia|by left|].
    rewrite <- take_take_drop, Forall_app. split; [by eapply ended_mono|done].
Qed.

Lemma embeds_spec r s e :
  memo_ok r ->
  exists m, gen_prompt_embeds_extra_hash_keys s e r = (Ok (embeds_keys r s e), set_embeds_memo m r)
    /\ memo_ok (set_embeds_memo m r).
Proof.
  intros Hm. unfold gen_prompt_embeds_extra_hash_keys, embeds_keys. run_monad.
  assert (Hr : r = set_embeds_memo (prompt_embeds_per_block_hashes r) r) by (by destruct r).
  destruct (prompt_embeds r) as [rows|] eqn:He; [|eexists; split; [rewrite <- Hr|]; done || by rewrite <- Hr].
  run_monad. destruct (prompt_embeds_per_block_hashes r !! (s, e)) as [h|] eqn:Hh.
  - destruct (Hm s e h Hh) as (rows' & Hrows & ->). rewrite He in Hrows. injection Hrows as <-.
    eexists. rewrite <- Hr. done.
  - eexists. run_monad. split; [done|]. intros s' e' h'. simpl.
    destruct (decide ((s, e) = (s', e'))) as [[= <- <-]|Hne].
    + rewrite lookup_insert_eq. intros [= <-]. by exists rows.
    + rewrite lookup_insert_ne by done. apply Hm.
Qed.

Lemma extra_keys_spec r s e c :
  feats_wf r.(mm_features) -> s <= e -> idx_ok r.(mm_features) c s -> memo_ok r ->
  exists c' m, generate_block_hash_extra_keys s e c r
      = (Ok (keys_tuple (block_keys r s e), c'), set_embeds_memo m r)
    /\ idx_ok r.(mm_features) c' e /\ memo_ok (set_embeds_memo m r).
Proof.
  intros Hwf Hse Hidx Hm. destruct (gen_mm_spec r s e c Hwf Hse Hidx) as (c' & Hmm & Hidx').
  destruct (embeds_spec r s e Hm) as (m & Hemb & Hm'). exists c', m. split_and!; [|done..].
  unfold generate_block_hash_extra_keys. run_monad. unfold id. rewrite Hmm.
  rewrite bind_lift, (bind_ok _ _ _ _ _ Hemb). cbn [fst snd].
  unfold block_keys. by destruct (gen_lora_extra_hash_keys r ++ _).
Qed.

Lemma ref_chain_ext r r' hbs n :
  (forall k, (k < n)%nat ->
     slice r.(all_token_ids) (Z.of_nat k * hbs) (Z.of_nat k * hbs + hbs)
     = slice r'.(all_token_ids) (Z.of_nat k * hbs) (Z.of_nat k * hbs + hbs)
     /\ block_keys r (Z.of_nat k * hbs) (Z.of_nat k * hbs + hbs)
        = block_keys r' (Z.of_nat k * hbs) (Z.of_nat k * hbs + hbs)) ->
  ref_chain r hbs n = ref_chain r' hbs n.
Proof.
  induction n as [|n IH]; intros H; [done|]. cbn [ref_chain].
  rewrite IH by (intros k Hk; apply H; lia). by destruct (H n ltac:(lia)) as [-> ->].
Qed.

Lemma ref_chain_length r hbs n : length (ref_chain r hbs n) = n.
Proof. induction n as [|n IH]; [done|]. cbn [ref_chain]. rewrite length_app, IH. simpl. lia. Qed.

Lemma ref_chain_prefix r hbs k n : (k <= n)%nat -> take k (ref_chain r hbs n) = ref_chain r hbs k.
Proof.
  induction 1 as [|n Hk IH].
  - rewrite <- (ref_chain_length r hbs k) at 1. apply firstn_all.
  - cbn [ref_chain]. rewrite take_app_le; [done|]. by rewrite ref_chain_length.
Qed.

Lemma ref_chain_memo m r hbs n : ref_chain (set_embeds_memo m r) hbs n = ref_chain r hbs n.
Proof. by apply ref_chain_ext. Qed.

Lemma drop_ref_chain r hbs k n :
  (k < n)%nat ->
  drop k (ref_chain r hbs n)
  = hash_block_tokens (last (ref_chain r hbs k))
      (slice r.(all_token_ids) (Z.of_nat k * hbs) (Z.of_nat k * hbs + hbs))
      (keys_tuple (block_keys r (Z.of_nat k * hbs) (Z.of_nat k * hbs + hbs)))
    :: drop (S k) (ref_chain r hbs n).
Proof.
  intros Hk. apply drop_S. rewrite <- (take_drop (S k) (ref_chain r hbs n)).
  rewrite ref_chain_prefix by lia. cbn [ref_chain].
  rewrite lookup_app_l by (rewrite length_app, ref_chain_length; simpl; lia).
  apply list_lookup_middle. by rewrite ref_chain_length.
Qed.

Lemma hasher_loop_spec fuel hbs r k n c acc :
  0 < hbs -> Z.of_nat n = num_tokens r / hbs -> (k <= n)%nat -> (n - k < fuel)%nat ->
  feats_wf r.(mm_features) -> idx_ok r.(mm_features) c (Z.of_nat k * hbs) -> memo_ok r ->
  exists m, hasher_loop fuel hbs (Z.of_nat k * hbs) c (last (ref_chain r hbs k)) acc r
      = (Ok (Some (acc ++ drop k (ref_chain r hbs n))), set_embeds_memo m r)
    /\ memo_ok (set_embeds_memo m r).
Proof.
  intros Hh Hn. revert r Hn k c acc. induction fuel as [|fuel IH];
    intros r Hn k c acc Hk Hf Hwf Hidx Hm; [lia|].
  cbn [hasher_loop]. run_monad. unfold id. rewrite Z.gtb_ltb.
  pose proof (Z.div_mod (num_tokens r) hbs ltac:(lia)).
  pose proof (Z.mod_pos_bound (num_tokens r) hbs Hh).
  destruct (Z.ltb_spec (num_tokens r) (Z.of_nat k * hbs + hbs)) as [Hlt|Hge].
  - assert (k = n) as -> by nia. exists (prompt_embeds_per_block_hashes r).
    rewrite drop_ge, app_nil_r by (rewrite ref_chain_length; lia). by destruct r.
  - assert (Hkn : (k < n)%nat) by nia.
    destruct (extra_keys_spec r (Z.of_nat k * hbs) (Z.of_nat k * hbs + hbs) c Hwf ltac:(lia) Hidx Hm)
      as (c' & m & Hkeys & Hidx' & Hm').
    rewrite (bind_ok _ _ _ _ _ Hkeys).
    destruct (IH (set_embeds_memo m r) Hn (S k) c'
                (acc ++ [hash_block_tokens (last (ref_chain r hbs k))
                   (slice r.(all_token_ids) (Z.of_nat k * hbs) (Z.of_nat k * hbs + hbs))
                   (keys_tuple (block_keys r (Z.of_nat k * hbs) (Z.of_nat k * hbs + hbs)))]))
      as (m' & Hrun & Hm''); try done; try lia.
    { by replace (Z.of_nat (S k) * hbs) with (Z.of_nat k * hbs + hbs) by lia. }
    exists m'. split; [|done]. rewrite !ref_chain_memo in Hrun.
    replace (Z.of_nat (S k) * hbs) with (Z.of_nat k * hbs + hbs) in Hrun by lia.
    rewrite (drop_ref_chain r hbs k n Hkn). cbn [ref_chain] in Hrun.
    rewrite last_snoc, <- app_assoc in Hrun. exact Hrun.
Qed.

(** A request that already has hashes resumes at its last input only. *)
Definition tail_ok (feats : list MultiModalFeatureSpec) (s : Z) : Prop :=
  s = 0 \/ Forall (ended s) (removelast feats).

Lemma tail_idx_ok feats s : 0 <= s -> tail_ok feats s -> idx_ok feats (if s >? 0 then -1 else 0) s.
Proof.
  intros Hs Ht. rewrite Z.gtb_ltb. destruct (Z.ltb_spec 0 s).
  - destruct Ht as [->|Ht]; [lia|].
    destruct feats as [|f feats _] using rev_ind; [left; constructor|].
    right. exists (length feats). rewrite removelast_last in Ht. rewrite length_app. simpl.
    split_and!; [lia|right; lia|]. by rewrite take_app_length.
  - right. exists 0%nat. split_and!; [lia|by left|constructor].
Qed.

Lemma request_block_hasher_spec fuel hbs r k n :
  0 < hbs -> Z.of_nat n = num_tokens r / hbs -> (k <= n)%nat -> (n - k < fuel)%nat ->
  feats_wf r.(mm_features) -> tail_ok r.(mm_features) (Z.of_nat k * hbs) -> memo_ok r ->
  length r.(block_hashes) = k -> last r.(block_hashes) = last (ref_chain r hbs k) ->
  exists m, request_block_hasher fuel hbs r
      = (Ok (Some (drop k (ref_chain r hbs n))), set_embeds_memo m r)
    /\ memo_ok (set_embeds_memo m r).
Proof.
  intros Hh Hn Hk Hf Hwf Ht Hm Hlen Hlast. unfold request_block_hasher.
  run_monad. unfold id. rewrite Hlen, Hlast, Z.gtb_ltb.
  destruct (Z.ltb_spec (num_tokens r) (Z.of_nat k * hbs + hbs)) as [Hlt|Hge].
  - assert (n = k) as ->.
    { pose proof (Z.div_mod (num_tokens r) hbs ltac:(lia)).
      pose proof (Z.mod_pos_bound (num_tokens r) hbs Hh). nia. }
    exists (prompt_embeds_per_block_hashes r).
    rewrite drop_ge by (rewrite ref_chain_length; lia). by destruct r.
  - apply (hasher_loop_spec fuel hbs r k n _ []); try done. apply tail_idx_ok; [lia|done].
Qed.

Lemma update_block_hashes_spec fuel hbs r k n :
  0 < hbs -> Z.of_nat n = num_tokens r / hbs -> (k <= n)%nat -> (n - k < fuel)%nat ->
  feats_wf r.(mm_features) -> tail_ok r.(mm_features) (Z.of_nat k * hbs) -> memo_ok r ->
  r.(block_hashes) = ref_chain r hbs k ->
  exists m, update_block_hashes fuel hbs r
      = (Ok (Some tt), set_block_hashes (ref_chain r hbs n) (set_embeds_memo m r))
    /\ memo_ok (set_embeds_memo m r).
Proof.
  intros Hh Hn Hk Hf Hwf Ht Hm Hbh.
  destruct (request_block_hasher_spec fuel hbs r k n) as (m & Hr & Hm'); try done.
  { by rewrite Hbh, ref_chain_length. }
  { by rewrite Hbh. }
  exists m. split; [|done]. unfold update_block_hashes. rewrite (bind_ok _ _ _ _ _ Hr).
  run_monad. unfold ret. do 2 f_equal.
  cbn [set_embeds_memo block_hashes].
  rewrite Hbh, <- (ref_chain_prefix r hbs k n Hk). by rewrite take_drop.
Qed.

(** A request's life: created on its prompt, then extended by output tokens. *)
Fixpoint append_all (fuel : nat) (hbs : Z) (chunks : list (list Z)) : requestM (option unit) :=
  match chunks with
  | [] => ret (Some tt)
  | ts :: chunks' =>
      r <- append_output_token_ids fuel hbs ts ;;
      match r with None => ret None | Some _ => append_all fuel hbs chunks' end
  end.

Definition request_life (fuel : nat) (hbs : Z) (r0 : Request) (chunks : list (list Z))
    : res (option unit) * Request :=
  (u <- update_block_hashes fuel hbs ;;
   match u with None => ret None | Some _ => append_all fuel hbs chunks end) r0.

Lemma slice_app {A} (l t : list A) a b :
  0 <= a -> b <= Z.of_nat (length l) -> slice (l ++ t) a b = slice l a b.
Proof.
  intros Ha Hb. unfold slice. destruct (decide (b <= a)).
  - by replace (Z.to_nat (b - a)) with 0%nat by lia.
  - rewrite drop_app_le by lia. rewrite take_app_le; [done|]. rewrite length_drop. lia.
Qed.

Lemma ref_chain_grow r ts hbs k :
  0 < hbs -> Z.of_nat k * hbs <= num_tokens r ->
  ref_chain (set_all_token_ids (r.(all_token_ids) ++ ts) r) hbs k = ref_chain r hbs k.
Proof.
  intros Hh Hk. unfold num_tokens in Hk. apply ref_chain_ext. intros j Hj. split; [|done].
  apply slice_app; nia.
Qed.

Lemma append_all_spec fuel hbs p r chunks :
  0 < hbs -> feats_wf r.(mm_features) -> memo_ok r ->
  (forall k, p / hbs <= Z.of_nat k -> tail_ok r.(mm_features) (Z.of_nat k * hbs)) ->
  p <= num_tokens r ->
  (length (r.(all_token_ids) ++ concat chunks) < fuel)%nat ->
  r.(block_hashes) = ref_chain r hbs (Z.to_nat (num_tokens r / hbs)) ->
  exists r', append_all fuel hbs chunks r = (Ok (Some tt), r')
    /\ r'.(all_token_ids) = r.(all_token_ids) ++ concat chunks
    /\ r'.(block_hashes) = ref_chain (set_all_token_ids (r.(all_token_ids) ++ concat chunks) r)
                             hbs (Z.to_nat (num_tokens r' / hbs)).
Proof.
  intros Hh. revert r. induction chunks as [|ts chunks IH]; intros r Hwf Hm Ht Hp Hf Hbh.
  { exists r. rewrite app_nil_r. by destruct r. }
  set (r1 := set_all_token_ids (all_token_ids r ++ ts) r).
  assert (Hn1 : num_tokens r1 = num_tokens r + Z.of_nat (length ts)).
  { unfold num_tokens. simpl. rewrite length_app. lia. }
  assert (H0 : 0 <= num_tokens r) by (unfold num_tokens; lia).
  pose proof (Z.div_pos _ _ H0 Hh) as Hd0.
  pose proof (Z.div_le_mono (num_tokens r) (num_tokens r1) hbs Hh ltac:(lia)) as Hd.
  pose proof (Z.div_le_mono p (num_tokens r) hbs Hh Hp) as Hdp.
  assert (Hd1 : num_tokens r1 / hbs <= num_tokens r1) by (apply Z.div_le_upper_bound; nia).
  rewrite concat_cons, app_assoc in Hf.
  destruct (update_block_hashes_spec fuel hbs r1 (Z.to_nat (num_tokens r / hbs))
              (Z.to_nat (num_tokens r1 / hbs))) as (m & Hrun & Hm1); try done; try lia.
  { rewrite length_app in Hf. unfold num_tokens in Hd1 |- *. simpl in Hd1 |- *. lia. }
  { apply Ht. lia. }
  { unfold r1. rewrite ref_chain_grow; [exact Hbh|done|].
    pose proof (Z.mul_div_le (num_tokens r) hbs Hh). lia. }
  cbn [append_all]. unfold append_output_token_ids.
  set (r2 := set_block_hashes _ _) in Hrun.
  assert (Hb : bind (modify (fun r => set_all_token_ids (r.(all_token_ids) ++ ts) r))
                 (fun _ => update_block_hashes fuel hbs) r = (Ok (Some tt), r2)).
  { by run_monad. }
  rewrite (bind_ok _ _ _ _ _ Hb).
  destruct (IH r2) as (r' & Hr' & Htok & Hbh'); try done.
  - change (num_tokens r2) with (num_tokens r1). lia.
  - change (num_tokens r2) with (num_tokens r1). cbn [r2 block_hashes set_block_hashes].
    by apply ref_chain_ext.
  - exists r'. cbn [concat]. rewrite app_assoc. split_and!; [done..|].
    rewrite Hbh'. by apply ref_chain_ext.
Qed.

Lemma prompt_tail_ok feats p hbs :
  0 < hbs -> 0 <= p -> Forall (ended p) feats ->
  p < hbs \/ Forall (ended (p / hbs * hbs)) (removelast feats) ->
  forall k, p / hbs <= Z.of_nat k -> tail_ok feats (Z.of_nat k * hbs).
Proof.
  intros Hh Hp Hin Ht k Hk. destruct k as [|k]; [by left|]. right.
  destruct Ht as [Ht|Ht].
  - eapply ended_mono with (s := p); [nia|].
    destruct feats as [|f feats _] using rev_ind; [done|]. rewrite removelast_last.
    by apply Forall_app in Hin as [? _].
  - eapply ended_mono; [|exact Ht]. nia.
Qed.

(** C27: Block hashes are maintained correctly as a request grows.  The prompt's
    multi-modal inputs are in order and disjoint, and at most the last of them
    reaches into the prompt's unfinished tail block.  Then creating the request
    and appending its output in any chunks terminates, and afterwards
    [block_hashes] is the chain obtained by hashing every full block of the whole
    token sequence from scratch, each with the extra keys of all inputs that
    meet it; the embedding memo never changes a result. *)
Theorem incremental_hashing_is_from_scratch (fuel : nat) (hbs : Z) (prompt : list Z)
    (feats : list MultiModalFeatureSpec) (lora : option LoRARequest) (salt : option string)
    (embeds : option (list bytes)) (chunks : list (list Z)) :
  let p := Z.of_nat (length prompt) in
  let tokens := prompt ++ concat chunks in
  0 < hbs -> feats_wf feats -> Forall (ended p) feats ->
  (p < hbs \/ Forall (ended (p / hbs * hbs)) (removelast feats)) ->
  (length tokens < fuel)%nat ->
  exists r, request_life fuel hbs (mkRequest prompt feats lora salt embeds ∅ []) chunks
              = (Ok (Some tt), r)
    /\ r.(all_token_ids) = tokens
    /\ r.(block_hashes)
       = ref_chain (mkRequest tokens feats lora salt embeds ∅ []) hbs
           (Z.to_nat (Z.of_nat (length tokens) / hbs)).
Proof.
  intros p tokens Hh Hwf Hin Ht Hf. set (r0 := mkRequest _ _ _ _ _ _ _).
  assert (Hp : 0 <= p) by lia. pose proof (Z.div_pos p hbs Hp Hh).
  assert (Hpd : p / hbs <= p) by (apply Z.div_le_upper_bound; nia).
  assert (Hlen : (length prompt <= length tokens)%nat) by (unfold tokens; rewrite length_app; lia).
  destruct (update_block_hashes_spec fuel hbs r0 0 (Z.to_nat (p / hbs))) as (m & Hrun & Hm);
    [done|by rewrite Z2Nat.id|lia|lia|done|by left|done..|].
  set (r1 := set_block_hashes _ _) in Hrun.
  destruct (append_all_spec fuel hbs p r1 chunks) as (r' & Hr' & Htok & Hbh); try done.
  { by apply prompt_tail_ok. }
  { by apply ref_chain_ext. }
  exists r'. unfold request_life. rewrite (bind_ok _ _ _ _ _ Hrun). split_and!; [done..|].
  rewrite Hbh. unfold num_tokens. rewrite Htok. by apply ref_chain_ext.
Qed.

(** ** Equal hashes come from equal prefixes *)

(** A collision of the hash function, or a digest that a chain would confuse
    with its seed (an empty digest is treated as absent). *)
Definition hash_collision : Prop :=
  (exists x y, x <> y /\ hash_function x = hash_function y)
  \/ exists x, hash_function x = NONE_HASH \/ hash_function x = [].

Definition block_input (r : Request) (hbs : Z) (i : nat) : list Z * list ExtraKey :=
  let s := Z.of_nat i * hbs in (slice r.(all_token_ids) s (s + hbs), block_keys r s (s + hbs)).

Definition block_hash_at (r : Request) (hbs : Z) (i : nat) : bytes :=
  hash_block_tokens (last (ref_chain r hbs i)) (block_input r hbs i).1
    (keys_tuple (block_input r hbs i).2).

Lemma ref_chain_lookup r hbs n i : (i < n)%nat -> ref_chain r hbs n !! i = Some (block_hash_at r hbs i).
Proof.
  intros Hi. rewrite <- (take_drop i (ref_chain r hbs n)), drop_ref_chain by done.
  apply list_lookup_middle. rewrite length_take, ref_chain_length. lia.
Qed.

Lemma keys_tuple_inj l1 l2 : keys_tuple l1 = keys_tuple l2 -> l1 = l2.
Proof. destruct l1, l2; simpl; congruence. Qed.

(** The parent that block [i] hashes is the seed, or an honest digest. *)
Lemma parent_cases r hbs i :
  hash_collision
  \/ block_hash_at r hbs i
     = hash_function (match i with O => NONE_HASH | S j => block_hash_at r hbs j end,
         (block_input r hbs i).1, keys_tuple (block_input r hbs i).2).
Proof.
  destruct i as [|j]; [by right|]. unfold block_hash_at at 1. cbn [ref_chain].
  rewrite last_snoc. fold (block_hash_at r hbs j).
  change (hash_block_tokens (last (ref_chain r hbs j)) _ _) with (block_hash_at r hbs j).
  unfold hash_block_tokens at 1.
  destruct (block_hash_at r hbs j) as [|b bs] eqn:Hb; [|by right].
  left. right. unfold block_hash_at, hash_block_tokens in Hb. eauto.
Qed.

Lemma block_hash_at_inj r1 r2 hbs i j :
  block_hash_at r1 hbs i = block_hash_at r2 hbs j ->
  hash_collision
  \/ (i = j /\ forall k, (k <= i)%nat -> block_input r1 hbs k = block_input r2 hbs k).
Proof.
  revert j. induction i as [i IH] using lt_wf_ind. intros j Heq.
  destruct (parent_cases r1 hbs i) as [?|H1]; [by left|].
  destruct (parent_cases r2 hbs j) as [?|H2]; [by left|].
  rewrite H1, H2 in Heq.
  match type of Heq with hash_function ?x = hash_function ?y =>
    destruct (decide (x = y)) as [Hxy|Hne]; [|left; left; by exists x, y] end.
  injection Hxy as Hp Ht Hk%keys_tuple_inj.
  destruct i as [|i], j as [|j].
  - right. split; [done|]. intros k Hk'. replace k with 0%nat by lia.
    unfold block_input. by f_equal.
  - left. destruct (parent_cases r2 hbs j) as [?|Hb]; [done|]. rewrite Hb in Hp. right; eauto.
  - left. destruct (parent_cases r1 hbs i) as [?|Hb]; [done|]. rewrite Hb in Hp. right; eauto.
  - destruct (IH i ltac:(lia) j Hp) as [?|[-> Hall]]; [by left|]. right. split; [done|].
    intros k Hk'. destruct (decide (k = S j)) as [->|]; [|apply Hall; lia].
    unfold block_input. by f_equal.
Qed.

Lemma take_blocks {A} (l1 l2 : list A) hbs n :
  0 < hbs ->
  (forall k, (k < n)%nat -> slice l1 (Z.of_nat k * hbs) (Z.of_nat k * hbs + hbs)
                     = slice l2 (Z.of_nat k * hbs) (Z.of_nat k * hbs + hbs)) ->
  take (Z.to_nat (Z.of_nat n * hbs)) l1 = take (Z.to_nat (Z.of_nat n * hbs)) l2.
Proof.
  intros Hh. induction n as [|n IH]; intros Hs; [done|].
  replace (Z.to_nat (Z.of_nat (S n) * hbs))
    with (Z.to_nat (Z.of_nat n * hbs) + Z.to_nat hbs)%nat by nia.
  rewrite <- !take_take_drop, IH by (intros k Hk; apply Hs; lia). f_equal.
  specialize (Hs n ltac:(lia)). unfold slice in Hs.
  by replace (Z.of_nat n * hbs + hbs - Z.of_nat n * hbs) with hbs in Hs by lia.
Qed.

End hashing.

(** A hash function for concrete runs. *)
Definition demo_hash (x : bytes * list Z * option (list ExtraKey)) : bytes :=
  let '(parent, tokens, keys) := x in
  parent ++ tokens ++ match keys with None => [-1] | Some l => [Z.of_nat (length l)] end.

(** One image inside the first block, one in the tail; output in two chunks. *)
Lemma incremental_hashing_is_from_scratch_witness :
  let prompt := [1; 2; 3; 4; 5; 6] in
  let feats := [mkFeature (Some "a"%string) 1 2; mkFeature (Some "b"%string) 4 1] in
  let tokens := prompt ++ concat [[7]; [8; 9; 10; 11; 12; 13]] in
  exists r, request_life id demo_hash [0] 20 4 (mkRequest prompt feats None (Some "salt"%string) None ∅ [])
              [[7]; [8; 9; 10; 11; 12; 13]] = (Ok (Some tt), r)
    /\ r.(all_token_ids) = tokens
    /\ r.(block_hashes)
       = ref_chain id demo_hash [0]
           (mkRequest tokens feats None (Some "salt"%string) None ∅ []) 4 3.
Proof.
  intros prompt feats tokens.
  apply (incremental_hashing_is_from_scratch id demo_hash [0] 20 4 prompt feats None
           (Some "salt"%string) None [[7]; [8; 9; 10; 11; 12; 13]]); try (simpl; lia).
  - split; repeat constructor; unfold mm_end; simpl; eauto; lia.
  - repeat constructor; unfold ended, mm_end; simpl; lia.
  - right. repeat constructor. unfold ended, mm_end; simpl. vm_compute. discriminate.
Defined.


(** The limit of incremental hashing.  When two inputs reach into the tail
    block of the prompt, only the last one enters the hash of that block once
    generated tokens complete it: two requests whose first images differ end
    with identical block hashes, for every hash function, although the extra
    keys of that block, computed from scratch, differ. *)
Theorem tail_block_ignores_earlier_inputs (sha256 : bytes -> bytes)
    (hash_function : bytes * list Z * option (list ExtraKey) -> bytes) (NONE_HASH : bytes)
    (a a' b : string) :
  a <> a' ->
  let start := fun x => mkRequest [1; 2; 3; 4; 9; 9; 5]
                 [mkFeature (Some x) 4 1; mkFeature (Some b) 5 1] None None None ∅ [] in
  let run := fun x => request_life sha256 hash_function NONE_HASH 10 4 (start x) [[6]] in
  (run a).1 = Ok (Some tt) /\ (run a').1 = Ok (Some tt)
  /\ (run a).2.(block_hashes) = (run a').2.(block_hashes)
  /\ length (run a).2.(block_hashes) = 2%nat
  /\ block_keys sha256 (run a).2 4 8 <> block_keys sha256 (run a').2 4 8.
Proof. intros Hne start run. split_and!; try reflexivity. vm_compute. congruence. Qed.

Lemma tail_block_ignores_earlier_inputs_witness :
  let start := fun x => mkRequest [1; 2; 3; 4; 9; 9; 5]
                 [mkFeature (Some x) 4 1; mkFeature (Some "dog"%string) 5 1] None None None ∅ [] in
  let run := fun x => request_life id demo_hash [0] 10 4 (start x) [[6]] in
  (run "cat"%string).1 = Ok (Some tt) /\ (run "owl"%string).1 = Ok (Some tt)
  /\ (run "cat"%string).2.(block_hashes) = (run "owl"%string).2.(block_hashes)
  /\ length (run "cat"%string).2.(block_hashes) = 2%nat
  /\ block_keys id (run "cat"%string).2 4 8 <> block_keys id (run "owl"%string).2 4 8.
Proof.
  apply (tail_block_ignores_earlier_inputs id demo_hash [0] "cat"%string "owl"%string "dog"%string).
  discriminate.
Defined.

(** The extra keys do not separate an adapter from a salt.  A request for the
    LoRA adapter named [s] and a request for the base model with [cache_salt] [s]
    on the same text prompt get the same hash for their first block, for every
    hash function. *)
Theorem lora_name_collides_with_salt (sha256 : bytes -> bytes)
    (hash_function : bytes * list Z * option (list ExtraKey) -> bytes) (NONE_HASH : bytes)
    (s : string) (i : Z) (prompt : list Z) (hbs : Z) :
  s <> EmptyString -> 0 < hbs <= Z.of_nat (length prompt) ->
  exists r1 r2 h,
    new_request sha256 hash_function NONE_HASH (S (length prompt)) hbs prompt [] (Some (mkLoRA s i)) None None
      = (Ok (Some tt), r1)
    /\ new_request sha256 hash_function NONE_HASH (S (length prompt)) hbs prompt [] None (Some s) None
      = (Ok (Some tt), r2)
    /\ r1.(block_hashes) !! 0%nat = Some h /\ r2.(block_hashes) !! 0%nat = Some h.
Proof.
  intros Hs Hh. unfold new_request.
  set (q1 := mkRequest prompt [] (Some (mkLoRA s i)) None None ∅ []).
  set (q2 := mkRequest prompt [] None (Some s) None ∅ []).
  set (n := Z.to_nat (num_tokens q1 / hbs)).
  assert (Hn : 1 <= num_tokens q1 / hbs <= Z.of_nat (length prompt)).
  { unfold num_tokens; simpl. split; [apply Z.div_le_lower_bound; lia|].
    apply Z.div_le_upper_bound; nia. }
  assert (Hwf : feats_wf []) by (split; constructor).
  destruct (update_block_hashes_spec sha256 hash_function NONE_HASH (S (length prompt)) hbs q1 0 n)
    as (m1 & -> & _); [lia|lia|lia|lia|done|by left|done..|].
  destruct (update_block_hashes_spec sha256 hash_function NONE_HASH (S (length prompt)) hbs q2 0 n)
    as (m2 & -> & _); [lia|unfold n, num_tokens in *; simpl in *; lia|lia|lia|done|by left|done..|].
  exists (set_block_hashes (ref_chain sha256 hash_function NONE_HASH q1 hbs n) (set_embeds_memo m1 q1)),
    (set_block_hashes (ref_chain sha256 hash_function NONE_HASH q2 hbs n) (set_embeds_memo m2 q2)),
    (block_hash_at sha256 hash_function NONE_HASH q1 hbs 0).
  split_and!; [done..| |]; cbn [block_hashes set_block_hashes]; rewrite ref_chain_lookup by lia;
    [done|]. f_equal. unfold block_hash_at, block_input, block_keys, cache_salt_keys. simpl.
  by rewrite bool_decide_eq_false_2.
Qed.

Lemma lora_name_collides_with_salt_witness :
  exists r1 r2 h,
    new_request id demo_hash [0] 5 2 [1; 2; 3; 4] [] (Some (mkLoRA "sql"%string 3)) None None = (Ok (Some tt), r1)
    /\ new_request id demo_hash [0] 5 2 [1; 2; 3; 4] [] None (Some "sql"%string) None = (Ok (Some tt), r2)
    /\ r1.(block_hashes) !! 0%nat = Some h /\ r2.(block_hashes) !! 0%nat = Some h.
Proof.
  apply (lora_name_collides_with_salt id demo_hash [0] "sql"%string 3 [1; 2; 3; 4] 2);
    [discriminate|simpl; lia].
Defined.

(** ** Hashes at a coarser block size *)

(** [l[i]] with Python's negative indices. *)
Definition py_index {A : Type} (l : list A) (i : Z) : res A :=
  let n := Z.of_nat (length l) in
  let j := if i <? 0 then i + n else i in
  if j <? 0 then Raise IndexError else
  match l !! Z.to_nat j with Some x => Ok x | None => Raise IndexError end.

(** [list[BlockHash] | BlockHashListWithBlockSize] *)
Inductive BlockHashList :=
  | HashList (block_hashes : list bytes)
  | HashView (block_hashes : list bytes) (scale_factor : Z).

(** [a % b == 0], which raises on a zero divisor. *)
Definition py_divides (b a : Z) : res bool :=
  if b =? 0 then Raise ZeroDivisionError else Ok (a mod b =? 0).

(** [BlockHashListWithBlockSize(block_hashes, hash_block_size, target_block_size)] *)
Definition BlockHashListWithBlockSize (hs : list bytes) (hash_block_size target_block_size : Z)
    : res BlockHashList :=
  let? ok := py_divides hash_block_size target_block_size in
  if ok then Ok (HashView hs (target_block_size / hash_block_size)) else Raise AssertionError.

Definition get_value_at (hs : list bytes) (scale_factor idx : Z) : res bytes :=
  py_index hs ((idx + 1) * scale_factor - 1).

Definition hash_list_len (l : BlockHashList) : Z :=
  match l with
  | HashList hs => Z.of_nat (length hs)
  | HashView hs scale_factor => Z.of_nat (length hs) / scale_factor
  end.

Definition hash_list_getitem (l : BlockHashList) (idx : Z) : res bytes :=
  match l with
  | HashList hs => py_index hs idx
  | HashView hs scale_factor => get_value_at hs scale_factor idx
  end.

(** [l[start:]] for [0 <= start]. *)
Definition hash_list_from (l : BlockHashList) (start : Z) : res (list bytes) :=
  match l with
  | HashList hs => Ok (drop (Z.to_nat start) hs)
  | HashView hs scale_factor =>
      rmap (fun i => get_value_at hs scale_factor (Z.of_nat i))
        (seq (Z.to_nat start) (Z.to_nat (hash_list_len l) - Z.to_nat start))
  end.

Definition resolve_block_hashes (l : BlockHashList) (hash_block_size block_size : Z)
    (supports_fine_grained_hash_lookup : bool) (alignment_tokens : option Z)
    : res BlockHashList :=
  if block_size =? hash_block_size then Ok l else
  match l with
  | HashView _ scale_factor =>
      if hash_block_size =? 0 then Raise ZeroDivisionError
      else if scale_factor =? block_size / hash_block_size then Ok l else Raise AssertionError
  | HashList hs =>
      let? keep_raw :=
        match alignment_tokens with
        | Some a =>
            if supports_fine_grained_hash_lookup && (a <? block_size) then py_divides a block_size
            else Ok false
        | None => Ok false
        end in
      if keep_raw then Ok l else
      let? ok := py_divides hash_block_size block_size in
      if ok then BlockHashListWithBlockSize hs hash_block_size block_size
      else Raise AssertionError
  end.

Lemma py_index_nonneg {A} (l : list A) (i : nat) x : l !! i = Some x -> py_index l (Z.of_nat i) = Ok x.
Proof.
  intros Hx. unfold py_index. destruct (Z.ltb_spec (Z.of_nat i) 0); [lia|].
  destruct (Z.ltb_spec (Z.of_nat i) 0); [lia|]. by rewrite Nat2Z.id, Hx.
Qed.

(** The coarse view reads the right hashes.  For a group whose block size is
    [c] times the hash block size ([c >= 2]), the view of a request's hashes has
    one entry per full group block, the entry of group block [i] is the chained
    hash of the last small block inside it, whose prefix is exactly the first
    [(i + 1) * block_size] tokens, and the tail [view[k:]] lists the entries from
    [k] on. *)
Theorem coarse_view_spec (sha256 : bytes -> bytes)
    (hash_function : bytes * list Z * option (list ExtraKey) -> bytes) (NONE_HASH : bytes)
    (r : Request) (hbs c : Z) (n k : nat) :
  0 < hbs -> 2 <= c -> Z.of_nat n = num_tokens r / hbs ->
  (Z.of_nat k <= num_tokens r / (c * hbs)) ->
  let hs := ref_chain sha256 hash_function NONE_HASH r hbs n in
  exists view, resolve_block_hashes (HashList hs) hbs (c * hbs) false None = Ok view
    /\ hash_list_len view = num_tokens r / (c * hbs)
    /\ (forall i, 0 <= i < hash_list_len view ->
          exists j, Z.of_nat (S j) * hbs = (i + 1) * (c * hbs)
            /\ hash_list_getitem view i = Ok (block_hash_at sha256 hash_function NONE_HASH r hbs j))
    /\ exists tail, hash_list_from view (Z.of_nat k) = Ok tail
         /\ Z.of_nat (length tail) = hash_list_len view - Z.of_nat k
         /\ forall i h, tail !! i = Some h -> hash_list_getitem view (Z.of_nat (k + i)) = Ok h.
Proof.
  intros Hh Hc Hn Hk hs. exists (HashView hs c).
  assert (Hlen : hash_list_len (HashView hs c) = num_tokens r / (c * hbs)).
  { simpl. unfold hs. rewrite ref_chain_length, Hn, Z.div_div by lia. by rewrite Z.mul_comm. }
  assert (Hget : forall i, 0 <= i < hash_list_len (HashView hs c) ->
            exists j, Z.of_nat (S j) * hbs = (i + 1) * (c * hbs)
              /\ hash_list_getitem (HashView hs c) i
                 = Ok (block_hash_at sha256 hash_function NONE_HASH r hbs j)).
  { intros i Hi. exists (Z.to_nat ((i + 1) * c - 1)). split; [nia|].
    cbn [hash_list_getitem]. unfold get_value_at.
    assert (Hlt : (i + 1) * c <= Z.of_nat n).
    { simpl in Hi. unfold hs in Hi. rewrite ref_chain_length in Hi.
      pose proof (Z.mul_div_le (Z.of_nat n) c ltac:(lia)). nia. }
    rewrite <- (Z2Nat.id ((i + 1) * c - 1)) at 1 by nia.
    apply py_index_nonneg. unfold hs. apply ref_chain_lookup. nia. }
  split_and!; [|done|done|].
  { unfold resolve_block_hashes, BlockHashListWithBlockSize, py_divides.
    destruct (Z.eqb_spec (c * hbs) hbs); [nia|]. cbn [rbind].
    destruct (Z.eqb_spec hbs 0); [lia|]. rewrite Z.mod_mul, Z.div_mul by lia. done. }
  destruct (rmap_ok (fun i => get_value_at hs c (Z.of_nat i))
              (seq k (Z.to_nat (hash_list_len (HashView hs c)) - k))) as (tail & Htail & Hall).
  { intros i Hi%elem_of_seq. destruct (Hget (Z.of_nat i) ltac:(lia)) as (j & _ & Hj). eauto. }
  exists tail. cbn [hash_list_from]. rewrite Nat2Z.id. split_and!; [done| |].
  - apply Forall2_length in Hall. rewrite length_seq in Hall. lia.
  - intros i h Hi. destruct (Forall2_lookup_r _ _ _ _ _ Hall Hi) as (x & Hx & Hfx).
    apply lookup_seq in Hx as [-> _]. exact Hfx.
Qed.

Lemma coarse_view_spec_witness :
  let r := mkRequest [1; 2; 3; 4; 5; 6; 7; 8; 9] [] None None None ∅ [] in
  let hs := ref_chain id demo_hash [0] r 2 4 in
  exists view, resolve_block_hashes (HashList hs) 2 (2 * 2) false None = Ok view
    /\ hash_list_len view = num_tokens r / (2 * 2)
    /\ (forall i, 0 <= i < hash_list_len view ->
          exists j, Z.of_nat (S j) * 2 = (i + 1) * (2 * 2)
            /\ hash_list_getitem view i = Ok (block_hash_at id demo_hash [0] r 2 j))
    /\ exists tail, hash_list_from view (Z.of_nat 1) = Ok tail
         /\ Z.of_nat (length tail) = hash_list_len view - Z.of_nat 1
         /\ forall i h, tail !! i = Some h -> hash_list_getitem view (Z.of_nat (1 + i)) = Ok h.
Proof.
  intros r hs. apply (coarse_view_spec id demo_hash [0] r 2 2 4 1); try lia; vm_compute; congruence.
Defined.

(** ** Scheduler and hash block sizes *)

(** What [resolve_kv_cache_block_sizes] reads of a group's spec. *)
Record GroupSpec := mkGroupSpec {
  gs_block_size : Z;
  gs_is_attention : bool;
  gs_mamba_cache_mode : option string;
}.

Record BlockSizeConfig := mkBlockSizeConfig {
  bsc_block_size : Z;
  bsc_decode_context_parallel_size : Z;
  bsc_enable_prefix_caching : bool;
  bsc_kv_transfer_enabled : bool;
  bsc_prefix_match_unit : option Z;
}.

Definition group_block_sizes (dcp : Z) (groups : list GroupSpec) : list Z :=
  (fun g => if g.(gs_is_attention) then g.(gs_block_size) * dcp else g.(gs_block_size)) <$> groups.

(** [math.lcm( *l)] and [math.gcd( *l)] *)
Definition lcm_list (l : list Z) : Z := foldr Z.lcm 1 l.

Definition gcd_list (l : list Z) : Z := foldr Z.gcd 0 l.

Definition not_align_mamba (g : GroupSpec) : bool :=
  match g.(gs_mamba_cache_mode) with
  | None => false
  | Some mode => negb (bool_decide (mode = "align"%string))
  end.

(** [any(bs % unit != 0 for bs in sizes)], raising on the first division by zero. *)
Fixpoint any_not_divisible (unit : Z) (sizes : list Z) : res bool :=
  match sizes with
  | [] => Ok false
  | bs :: sizes' =>
      let? ok := py_divides unit bs in
      if ok then any_not_divisible unit sizes' else Ok true
  end.

Definition resolve_kv_cache_block_sizes (groups : list GroupSpec) (cfg : BlockSizeConfig)
    : res (Z * Z) :=
  let dcp := cfg.(bsc_decode_context_parallel_size) in
  if (length groups <=? 1)%nat then
    let bs := cfg.(bsc_block_size) * dcp in Ok (bs, bs)
  else
    let sizes := group_block_sizes dcp groups in
    let scheduler_block_size := lcm_list sizes in
    if negb (cfg.(bsc_enable_prefix_caching) || cfg.(bsc_kv_transfer_enabled)) then
      Ok (scheduler_block_size, scheduler_block_size)
    else if existsb not_align_mamba groups then Ok (scheduler_block_size, scheduler_block_size)
    else
      let hash_block_size :=
        match cfg.(bsc_prefix_match_unit) with Some u => u | None => gcd_list sizes end in
      let? bad := any_not_divisible hash_block_size sizes in
      if bad then Raise ValueError else Ok (scheduler_block_size, hash_block_size).

Lemma lcm_list_divides l x : x ∈ l -> (x | lcm_list l).
Proof.
  induction l as [|y l IH]; [by intros ?%not_elem_of_nil|].
  intros [->|Hx]%elem_of_cons; simpl; [apply Z.divide_lcm_l|].
  etransitivity; [by apply IH|apply Z.divide_lcm_r].
Qed.

Lemma gcd_list_divides l x : x ∈ l -> (gcd_list l | x).
Proof.
  induction l as [|y l IH]; [by intros ?%not_elem_of_nil|].
  intros [->|Hx]%elem_of_cons; simpl; [apply Z.gcd_divide_l|].
  etransitivity; [apply Z.gcd_divide_r|by apply IH].
Qed.

Lemma any_not_divisible_spec u l :
  u <> 0 -> exists b, any_not_divisible u l = Ok b /\ (b = false <-> forall x, x ∈ l -> (u | x)).
Proof.
  intros Hu. induction l as [|y l (b & Hb & IH)]; simpl.
  { exists false. split; [done|]. split; [|done]. by intros _ x ?%not_elem_of_nil. }
  unfold py_divides. destruct (Z.eqb_spec u 0); [done|]. cbn [rbind].
  destruct (Z.eqb_spec (y mod u) 0) as [Hy|Hy].
  - exists b. split; [done|]. rewrite IH. split.
    + intros H x [->|Hx]%elem_of_cons; [by apply Z.mod_divide|by apply H].
    + intros H x Hx. apply H. by right.
  - exists true. split; [done|]. split; [done|]. intros H.
    destruct Hy. apply Z.mod_divide; [done|]. apply H. by left.
Qed.

(** The two block sizes fit every group.  With several groups of positive block
    size, the scheduler block size is a common multiple of all of them; unless
    fine-grained hashing is switched off (no consumer of hashes, or a Mamba group
    outside mode align), the hash block size is the requested unit or their greatest
    common divisor, and it divides every group's block size; a requested unit that
    does not divide them is rejected. *)
Theorem block_sizes_fit (groups : list GroupSpec) (cfg : BlockSizeConfig) :
  (2 <= length groups)%nat ->
  (forall u, cfg.(bsc_prefix_match_unit) = Some u -> 0 < u) ->
  let sizes := group_block_sizes cfg.(bsc_decode_context_parallel_size) groups in
  Forall (fun bs => 0 < bs) sizes ->
  let off := negb (cfg.(bsc_enable_prefix_caching) || cfg.(bsc_kv_transfer_enabled))
             || existsb not_align_mamba groups in
  match resolve_kv_cache_block_sizes groups cfg with
  | Ok (sched, hash) =>
      (forall bs, bs ∈ sizes -> (bs | sched))
      /\ (if off then hash = sched
          else hash = match cfg.(bsc_prefix_match_unit) with Some u => u | None => gcd_list sizes end
               /\ forall bs, bs ∈ sizes -> (hash | bs))
  | Raise e =>
      e = ValueError /\ off = false
      /\ exists u bs, cfg.(bsc_prefix_match_unit) = Some u /\ bs ∈ sizes /\ ~ (u | bs)
  end.
Proof.
  intros Hg Hu sizes Hpos off. unfold resolve_kv_cache_block_sizes. fold sizes.
  destruct (Nat.leb_spec (length groups) 1); [lia|].
  pose proof (lcm_list_divides sizes) as Hlcm. unfold off.
  destruct (negb _); cbn [orb]; [by split|]. destruct (existsb _ _); [by split|].
  set (u := match _ with Some _ => _ | None => _ end).
  assert (Hu0 : u <> 0).
  { unfold u. destruct (bsc_prefix_match_unit cfg) as [v|] eqn:Hv; [specialize (Hu v eq_refl); lia|].
    intros Hz. destruct sizes as [|y l] eqn:Hs.
    - unfold sizes, group_block_sizes in Hs. destruct groups; simpl in *; [lia|done].
    - apply Forall_cons in Hpos as [Hy _]. pose proof (gcd_list_divides (y :: l) y ltac:(by left)) as Hd.
      rewrite Hz in Hd. apply Z.divide_0_l in Hd. lia. }
  destruct (any_not_divisible_spec u sizes Hu0) as (b & -> & Hb). cbn [rbind]. destruct b.
  - split_and!; [done..|]. destruct (bsc_prefix_match_unit cfg) as [v|] eqn:Hv.
    + exists v. assert (Hex : Exists (fun bs => ~ (u | bs)) sizes).
      { apply not_Forall_Exists; [intros x; apply Znumtheory.Zdivide_dec|].
        rewrite Forall_forall. intros Hall. apply Hb in Hall. done. }
      apply Exists_exists in Hex as (bs & ? & ?). by exists bs.
    + exfalso. assert (true = false); [|done]. apply Hb. apply gcd_list_divides.
  - split_and!; [done..|]. by apply Hb.
Qed.

(** Full attention with 16-token blocks next to a Mamba group with 48. *)
Lemma block_sizes_fit_witness :
  let groups := [mkGroupSpec 16 true None; mkGroupSpec 48 false (Some "align"%string)] in
  let cfg := mkBlockSizeConfig 16 2 true false None in
  let sizes := group_block_sizes 2 groups in
  let off := negb (true || false) || existsb not_align_mamba groups in
  match resolve_kv_cache_block_sizes groups cfg with
  | Ok (sched, hash) =>
      (forall bs, bs ∈ sizes -> (bs | sched))
      /\ (if off then hash = sched
          else hash = gcd_list sizes /\ forall bs, bs ∈ sizes -> (hash | bs))
  | Raise e =>
      e = ValueError /\ off = false
      /\ exists u bs, None = Some u /\ bs ∈ sizes /\ ~ (u | bs)
  end.
Proof.
  intros groups cfg. apply (block_sizes_fit groups cfg); [simpl; lia|done|].
  repeat constructor; simpl; lia.
Defined.
