(* ===== verification/BlockPool.v ===== *)
(** * The block pool

    Models [vllm/v1/core/block_pool.py]: the blocks with their reference counts
    and hashes, the free queue in eviction order, the prefix cache from hash keys
    to blocks, its reverse index for partial entries, and the event queue.

    A [KVCacheBlock] object is named by its index in [blocks]; its two queue links
    live in the free queue's heap ([FreeQueue]).  A request passed to an operation
    is part of the state, since computing extra keys fills its embedding memo.

    The invariant [PoolInv] says that the queue holds exactly the unreferenced
    blocks and that the prefix cache and the hashes stored in the blocks are two
    views of one relation.  Every operation preserves it. *)

From S2P Require Import Prelude FreeQueue BlockHash.

Record KVCacheBlock := mkBlock {
  ref_cnt : Z;
  blk_hash : option bytes;
  blk_hash_num_tokens : option Z;
  is_null : bool;
}.

(** [KVCacheBlock | dict[int, KVCacheBlock]]; a dict keeps insertion order. *)
Inductive CacheEntry :=
  | OneBlock (b : nat)
  | BlockDict (bs : list nat).

Inductive KVCacheEvent :=
  | BlockStored (hashes : list ExternalBlockHash) (parent : option ExternalBlockHash)
      (token_ids : list Z) (block_size : Z) (lora_id : option Z) (lora_name : option string)
      (extra_keys : option (list (option (list ExtraKey)))) (group_idx : Z)
  | BlockRemoved (hash : ExternalBlockHash) (group_idx : Z)
  | AllBlocksCleared.

Record BlockPool := mkPool {
  num_gpu_blocks : Z;
  enable_caching : bool;
  hash_block_size : Z;
  blocks : list KVCacheBlock;
  free_block_queue : FreeKVCacheBlockQueue;
  cached_block_hash_to_block : gmap bytes CacheEntry;
  cached_block_hashes_by_block : gmap nat (gset bytes);
  enable_kv_cache_events : bool;
  kv_event_queue : list KVCacheEvent;
}.

Notation poolM := (M BlockPool).

Definition set_blocks (bs : list KVCacheBlock) (p : BlockPool) : BlockPool :=
  mkPool p.(num_gpu_blocks) p.(enable_caching) p.(hash_block_size) bs p.(free_block_queue)
    p.(cached_block_hash_to_block) p.(cached_block_hashes_by_block)
    p.(enable_kv_cache_events) p.(kv_event_queue).

Definition set_queue (q : FreeKVCacheBlockQueue) (p : BlockPool) : BlockPool :=
  mkPool p.(num_gpu_blocks) p.(enable_caching) p.(hash_block_size) p.(blocks) q
    p.(cached_block_hash_to_block) p.(cached_block_hashes_by_block)
    p.(enable_kv_cache_events) p.(kv_event_queue).

Definition set_cache (c : gmap bytes CacheEntry) (p : BlockPool) : BlockPool :=
  mkPool p.(num_gpu_blocks) p.(enable_caching) p.(hash_block_size) p.(blocks) p.(free_block_queue)
    c p.(cached_block_hashes_by_block) p.(enable_kv_cache_events) p.(kv_event_queue).

Definition set_by_block (m : gmap nat (gset bytes)) (p : BlockPool) : BlockPool :=
  mkPool p.(num_gpu_blocks) p.(enable_caching) p.(hash_block_size) p.(blocks) p.(free_block_queue)
    p.(cached_block_hash_to_block) m p.(enable_kv_cache_events) p.(kv_event_queue).

Definition set_events (es : list KVCacheEvent) (p : BlockPool) : BlockPool :=
  mkPool p.(num_gpu_blocks) p.(enable_caching) p.(hash_block_size) p.(blocks) p.(free_block_queue)
    p.(cached_block_hash_to_block) p.(cached_block_hashes_by_block)
    p.(enable_kv_cache_events) es.

(** Attribute access on block objects. *)
Definition get_block (i : nat) : poolM KVCacheBlock :=
  bs <- gets blocks ;;
  match bs !! i with Some b => ret b | None => raise IndexError end.

Definition put_block (i : nat) (b : KVCacheBlock) : poolM unit :=
  modify (fun p => set_blocks (<[i := b]> p.(blocks)) p).

Definition set_ref_cnt (n : Z) (b : KVCacheBlock) : KVCacheBlock :=
  mkBlock n b.(blk_hash) b.(blk_hash_num_tokens) b.(is_null).

Definition on_queue {A : Type} (m : queueM A) : poolM A := zoom free_block_queue set_queue m.

Definition emit (e : KVCacheEvent) : poolM unit :=
  modify (fun p => set_events (p.(kv_event_queue) ++ [e]) p).

Definition set_block_hash (h : bytes) (num_tokens : option Z) (b : KVCacheBlock) : res KVCacheBlock :=
  match b.(blk_hash), b.(blk_hash_num_tokens) with
  | None, None => Ok (mkBlock b.(ref_cnt) (Some h) num_tokens b.(is_null))
  | _, _ => Raise AssertionError
  end.

Definition reset_hash (b : KVCacheBlock) : KVCacheBlock :=
  mkBlock b.(ref_cnt) None None b.(is_null).

(** ** The hash map ([BlockHashToBlockMap]) *)

Definition dict_insert (bs : list nat) (b : nat) : list nat :=
  if decide (b ∈ bs) then bs else bs ++ [b].

Definition get_one_block (c : gmap bytes CacheEntry) (key : bytes) : res (option nat) :=
  match c !! key with
  | None => Ok None
  | Some (OneBlock b) => Ok (Some b)
  | Some (BlockDict (b :: _)) => Ok (Some b)
  | Some (BlockDict []) => Raise StopIteration
  end.

Definition contain (c : gmap bytes CacheEntry) (key : bytes) (block_id : nat) : bool :=
  match c !! key with
  | None => false
  | Some (OneBlock b) => bool_decide (b = block_id)
  | Some (BlockDict bs) => bool_decide (block_id ∈ bs)
  end.

Definition cache_insert (c : gmap bytes CacheEntry) (key : bytes) (b : nat) : gmap bytes CacheEntry :=
  match c !! key with
  | None => <[key := OneBlock b]> c
  | Some (OneBlock b0) => <[key := BlockDict (dict_insert [b0] b)]> c
  | Some (BlockDict bs) => <[key := BlockDict (dict_insert bs b)]> c
  end.

(** The popped block, if any, and the remaining map. *)
Definition cache_pop (c : gmap bytes CacheEntry) (key : bytes) (block_id : nat)
    : option nat * gmap bytes CacheEntry :=
  match c !! key with
  | None => (None, c)
  | Some (OneBlock b) => if decide (b = block_id) then (Some b, delete key c) else (None, c)
  | Some (BlockDict bs) =>
      let bs' := filter (fun x => x <> block_id) bs in
      (if decide (block_id ∈ bs) then Some block_id else None,
       match bs' with [] => delete key c | _ => <[key := BlockDict bs']> c end)
  end.

(** ** Pool operations *)

Section pool.
(** The digest of prompt embeddings, the environment flag for integer hashes, and
    the iteration order of a Python [set], which is unspecified. *)
Context (sha256 : bytes -> bytes) (use_int : bool) (set_order : gset bytes -> list bytes).

(** [BlockPool(num_gpu_blocks, enable_caching, hash_block_size, events)] *)
Definition fresh_block : KVCacheBlock := mkBlock 0 None None false.

Definition mark_null (p : ptr) : poolM unit :=
  match p with
  | Blk i => b <- get_block i ;;
             put_block i (mkBlock b.(ref_cnt) b.(blk_hash) b.(blk_hash_num_tokens) true)
  | _ => ret tt
  end.

Definition new_pool (n : Z) (caching : bool) (hbs : Z) (events : bool) : res unit * BlockPool :=
  let bs := replicate (Z.to_nat n) fresh_block in
  let p0 := mkPool n caching hbs bs (mkQueue n ∅ ∅) ∅ ∅ events [] in
  (check (0 <? n) AssertionError ;;
   on_queue (queue_init (seq 0 (Z.to_nat n))) ;;
   null_block <- on_queue popleft ;;
   mark_null null_block) p0.

Fixpoint get_cached_block_loop (block_hash : bytes) (group_ids : list Z) (acc : list nat)
    : poolM (option (list nat)) :=
  match group_ids with
  | [] => ret (Some acc)
  | g :: gs =>
      key <- lift (make_block_hash_with_group_id block_hash g) ;;
      c <- gets cached_block_hash_to_block ;;
      b <- lift (get_one_block c key) ;;
      match b with
      | None => ret None
      | Some b => get_cached_block_loop block_hash gs (acc ++ [b])
      end
  end.

Definition get_cached_block (block_hash : bytes) (kv_cache_group_ids : list Z)
    : poolM (option (list nat)) :=
  get_cached_block_loop block_hash kv_cache_group_ids [].

Definition pop_hash (b : nat) (h : bytes) : poolM bool :=
  c <- gets cached_block_hash_to_block ;;
  let '(popped, c') := cache_pop c h b in
  modify (set_cache c') ;;
  ret (match popped with Some _ => true | None => false end).

Fixpoint pop_hashes (b : nat) (hs : list bytes) : poolM (list bytes) :=
  match hs with
  | [] => ret []
  | h :: hs' => ok <- pop_hash b h ;;
                removed <- pop_hashes b hs' ;;
                ret (if ok then h :: removed else removed)
  end.

Definition remove_cached_block_hashes (b : nat) : poolM (list bytes) :=
  blk <- get_block b ;;
  m <- gets cached_block_hashes_by_block ;;
  let extra := match m !! b with Some s => set_order s | None => [] end in
  modify (set_by_block (delete b m)) ;;
  let hs := match blk.(blk_hash) with Some h => h :: extra | None => extra end in
  match hs with
  | [] => ret []
  | _ =>
      removed <- pop_hashes b hs ;;
      blk <- get_block b ;;
      put_block b (reset_hash blk) ;;
      ret removed
  end.

Definition emit_block_removed_events (hs : list bytes) : poolM unit :=
  ev <- gets enable_kv_cache_events ;;
  if negb ev then ret tt else
  for_each hs (fun h => emit (BlockRemoved (maybe_convert_block_hash use_int (get_block_hash h))
                                (get_group_id h))).

Definition insert_block_hash (key : bytes) (b : nat) (num_tokens : option Z) : poolM unit :=
  blk <- get_block b ;;
  c <- gets cached_block_hash_to_block ;;
  if decide (blk.(blk_hash) = Some key) then ret tt else
  if contain c key b then ret tt else
  match blk.(blk_hash) with
  | None => blk' <- lift (set_block_hash key num_tokens blk) ;; put_block b blk'
  | Some _ =>
      modify (fun p => set_by_block
                (<[b := {[key]} ∪ default ∅ (p.(cached_block_hashes_by_block) !! b)]>
                   p.(cached_block_hashes_by_block)) p)
  end ;;
  modify (fun p => set_cache (cache_insert p.(cached_block_hash_to_block) key b) p).

Definition move_block_hashes (src_block dst_block : nat) : poolM unit :=
  src <- get_block src_block ;;
  dst <- get_block dst_block ;;
  check (bool_decide (dst.(blk_hash) = None)) AssertionError ;;
  m <- gets cached_block_hashes_by_block ;;
  check (bool_decide (m !! dst_block = None)) AssertionError ;;
  hs <- remove_cached_block_hashes src_block ;;
  for_each hs (fun h => insert_block_hash h dst_block src.(blk_hash_num_tokens)).

Definition get_num_free_blocks : poolM Z := gets (fun p => num_free_blocks p.(free_block_queue)).

Definition maybe_evict_cached_block (b : nat) : poolM bool :=
  evicted <- remove_cached_block_hashes b ;;
  match evicted with
  | [] => ret false
  | _ => emit_block_removed_events evicted ;; ret true
  end.

(** [assert block.ref_cnt == 0; block.ref_cnt += 1] *)
Definition take_ref (b : nat) : poolM unit :=
  blk <- get_block b ;;
  check (blk.(ref_cnt) =? 0) AssertionError ;;
  put_block b (set_ref_cnt (blk.(ref_cnt) + 1) blk).

(** The index of a block object; the fake nodes are no elements of [blocks]. *)
Definition block_of (p : ptr) : poolM nat :=
  match p with Blk i => ret i | _ => raise IndexError end.

Definition get_new_blocks (num_blocks : Z) : poolM (list nat) :=
  free <- get_num_free_blocks ;;
  check (num_blocks <=? free) ValueError ;;
  popped <- on_queue (popleft_n num_blocks) ;;
  bs <- map_m block_of popped ;;
  caching <- gets enable_caching ;;
  for_each bs (fun b => (if caching : bool then maybe_evict_cached_block b ;; ret tt else ret tt) ;;
                        take_ref b) ;;
  ret bs.

Definition touch_one (b : nat) : poolM unit :=
  blk <- get_block b ;;
  (if (blk.(ref_cnt) =? 0) && negb blk.(is_null) then on_queue (remove (Blk b)) else ret tt) ;;
  put_block b (set_ref_cnt (blk.(ref_cnt) + 1) blk).

Definition touch (bs : list nat) : poolM unit := for_each bs touch_one.

(** One iteration of [free_blocks]: the two lists are
    [(blocks_to_evict_first, blocks_to_evict_last)]. *)
Fixpoint free_loop (bs : list nat) (acc : list nat * list nat) : poolM (list nat * list nat) :=
  match bs with
  | [] => ret acc
  | b :: bs' =>
      blk <- get_block b ;;
      let n := blk.(ref_cnt) - 1 in
      put_block b (set_ref_cnt n blk) ;;
      caching <- gets enable_caching ;;
      free_loop bs'
        (if (n =? 0) && negb blk.(is_null) then
           if bool_decide (blk.(blk_hash) = None) || negb caching
           then (acc.1 ++ [b], acc.2) else (acc.1, acc.2 ++ [b])
         else acc)
  end.

Definition free_blocks (ordered_blocks : list nat) : poolM unit :=
  acc <- free_loop ordered_blocks ([], []) ;;
  on_queue (prepend_n (Blk <$> acc.1)) ;;
  on_queue (append_n (Blk <$> acc.2)).

(** [block_ids] is a Python set; the list is one iteration order of it. *)
Definition evict_blocks (block_ids : list nat) : poolM unit :=
  for_each block_ids (fun i =>
    bs <- gets blocks ;;
    check (i <? length bs)%nat AssertionError ;;
    maybe_evict_cached_block i ;; ret tt).

Definition reset_prefix_cache : poolM bool :=
  n <- gets num_gpu_blocks ;;
  free <- get_num_free_blocks ;;
  if negb (n - free =? 1) then ret false else
  modify (set_cache ∅) ;;
  modify (set_by_block ∅) ;;
  modify (fun p => set_blocks (reset_hash <$> p.(blocks)) p) ;;
  ev <- gets enable_kv_cache_events ;;
  (if ev : bool then emit AllBlocksCleared else ret tt) ;;
  ret true.

Definition take_events : poolM (list KVCacheEvent) :=
  ev <- gets enable_kv_cache_events ;;
  if negb ev then ret [] else
  es <- gets kv_event_queue ;;
  modify (set_events []) ;;
  ret es.

(** ** Caching the blocks of a request *)

Notation prM := (M (BlockPool * Request)).

Definition on_pool {A : Type} (m : poolM A) : prM A := zoom fst (fun p s => (p, s.2)) m.

Definition on_request {A : Type} (m : requestM A) : prM A := zoom snd (fun r s => (s.1, r)) m.

Definition lora_id (r : Request) : option Z := lora_int_id <$> r.(lora_request).

Definition lora_name_of (r : Request) : option string := lora_name <$> r.(lora_request).

Definition build_block_stored_event (r : Request) (hashes : list ExternalBlockHash)
    (parent_block_hash : option ExternalBlockHash) (start_token_idx end_token_idx block_size : Z)
    (kv_cache_group_id : Z) (extra_keys_list : list (option (list ExtraKey))) : KVCacheEvent :=
  BlockStored hashes parent_block_hash (slice r.(all_token_ids) start_token_idx end_token_idx)
    block_size (lora_id r) (lora_name_of r)
    (match extra_keys_list with [] => None | _ => Some extra_keys_list end) kv_cache_group_id.

(** [blk.is_null or (block_mask is not None and not block_mask[i])] *)
Definition skipped (blk : KVCacheBlock) (block_mask : option (list bool)) (i : nat) : res bool :=
  if blk.(is_null) then Ok true else
  match block_mask with
  | None => Ok false
  | Some mask => match mask !! i with Some b => Ok (negb b) | None => Raise IndexError end
  end.

(** The body of the first loop of [cache_full_blocks] for block [b] at position
    [i] of [new_full_blocks]; [Some] is the hash it appended to [new_hashes]. *)
Definition cache_full_block (b : nat) (i : nat) (new_block_hashes : list bytes)
    (num_cached_blocks block_size kv_cache_group_id : Z) (block_mask : option (list bool))
    : poolM (option ExternalBlockHash) :=
  blk <- get_block b ;;
  skip <- lift (skipped blk block_mask i) ;;
  if skip : bool then ret None else
  match new_block_hashes !! i with
  | None => raise IndexError
  | Some block_hash =>
      let num_hash_tokens := (num_cached_blocks + Z.of_nat i + 1) * block_size in
      key <- lift (make_block_hash_with_group_id block_hash kv_cache_group_id) ;;
      (match blk.(blk_hash) with
       | None => ret tt
       | Some _ =>
           check (match blk.(blk_hash_num_tokens) with Some n => n <? num_hash_tokens | None => false end)
             AssertionError ;;
           removed <- remove_cached_block_hashes b ;;
           emit_block_removed_events removed
       end) ;;
      insert_block_hash key b (Some num_hash_tokens) ;;
      ret (Some (maybe_convert_block_hash use_int block_hash))
  end.

Fixpoint cache_full_loop (bs : list nat) (i : nat) (new_block_hashes : list bytes)
    (num_cached_blocks block_size kv_cache_group_id : Z) (block_mask : option (list bool))
    : poolM (list ExternalBlockHash) :=
  match bs with
  | [] => ret []
  | b :: bs' =>
      h <- cache_full_block b i new_block_hashes num_cached_blocks block_size kv_cache_group_id block_mask ;;
      hs <- cache_full_loop bs' (S i) new_block_hashes num_cached_blocks block_size kv_cache_group_id block_mask ;;
      ret (match h with Some h => h :: hs | None => hs end)
  end.

(** The extra keys of the blocks that were not skipped; [bs] is
    [blocks[num_cached_blocks + i :]]. *)
Fixpoint extra_keys_loop (bs : list nat) (i : nat) (num_cached_blocks block_size curr_mm_idx : Z)
    (block_mask : option (list bool)) : prM (list (option (list ExtraKey))) :=
  match bs with
  | [] => ret []
  | b :: bs' =>
      blk <- on_pool (get_block b) ;;
      skip <- lift (skipped blk block_mask i) ;;
      if skip : bool then extra_keys_loop bs' (S i) num_cached_blocks block_size curr_mm_idx block_mask
      else
        let block_start := (num_cached_blocks + Z.of_nat i) * block_size in
        '(keys, mm_idx) <- on_request (generate_block_hash_extra_keys sha256 block_start
                                         (block_start + block_size) curr_mm_idx) ;;
        rest <- extra_keys_loop bs' (S i) num_cached_blocks block_size mm_idx block_mask ;;
        ret (keys :: rest)
  end.

Definition cache_full_blocks (bs : list nat) (num_cached_blocks num_full_blocks block_size : Z)
    (kv_cache_group_id : Z) (block_mask : option (list bool)) : prM unit :=
  if num_cached_blocks >=? num_full_blocks then ret tt else
  let new_full_blocks := slice bs num_cached_blocks num_full_blocks in
  check (match block_mask with
         | None => true
         | Some mask => bool_decide (length mask = length new_full_blocks)
         end) AssertionError ;;
  hbs <- gets (fun s => s.1.(hash_block_size)) ;;
  r <- gets snd ;;
  view <- lift (resolve_block_hashes (HashList r.(block_hashes)) hbs block_size false None) ;;
  new_block_hashes <- lift (hash_list_from view num_cached_blocks) ;;
  new_hashes <- on_pool (cache_full_loop new_full_blocks 0 new_block_hashes num_cached_blocks
                           block_size kv_cache_group_id block_mask) ;;
  ev <- gets (fun s => s.1.(enable_kv_cache_events)) ;;
  if negb ev then ret tt else
  parent <- lift (if num_cached_blocks =? 0 then Ok None else
                  let? h := hash_list_getitem view (num_cached_blocks - 1) in
                  Ok (Some (maybe_convert_block_hash use_int h))) ;;
  (* the second loop indexes [blocks[i]] up to [num_full_blocks] *)
  extra <- extra_keys_loop new_full_blocks 0 num_cached_blocks block_size 0 block_mask ;;
  check (num_full_blocks <=? Z.of_nat (length bs)) IndexError ;;
  r <- gets snd ;;
  on_pool (emit (build_block_stored_event r new_hashes parent (num_cached_blocks * block_size)
                   (num_full_blocks * block_size) block_size kv_cache_group_id extra)).

(** The loop of [emit_cached_block_events] over [range(num_cached_blocks)]. *)
Fixpoint cached_events_loop (k : nat) (i : nat) (view : BlockHashList) (block_size curr_mm_idx : Z)
    : prM (list (ExternalBlockHash * option (list ExtraKey))) :=
  match k with
  | O => ret []
  | S k' =>
      let block_start := Z.of_nat i * block_size in
      h <- lift (hash_list_getitem view (Z.of_nat i)) ;;
      '(keys, mm_idx) <- on_request (generate_block_hash_extra_keys sha256 block_start
                                       (block_start + block_size) curr_mm_idx) ;;
      rest <- cached_events_loop k' (S i) view block_size mm_idx ;;
      ret ((maybe_convert_block_hash use_int h, keys) :: rest)
  end.

Definition emit_cached_block_events (num_cached_blocks block_size kv_cache_group_id : Z) : prM unit :=
  ev <- gets (fun s => s.1.(enable_kv_cache_events)) ;;
  if negb ev || (num_cached_blocks =? 0) then ret tt else
  hbs <- gets (fun s => s.1.(hash_block_size)) ;;
  r <- gets snd ;;
  view <- lift (resolve_block_hashes (HashList r.(block_hashes)) hbs block_size false None) ;;
  l <- cached_events_loop (Z.to_nat num_cached_blocks) 0 view block_size 0 ;;
  match l with
  | [] => ret tt
  | _ =>
      r <- gets snd ;;
      on_pool (emit (build_block_stored_event r l.*1 None 0 (num_cached_blocks * block_size)
                       block_size kv_cache_group_id l.*2))
  end.

Definition get_partial_block_hash (hbs : Z) (r : Request) (num_tokens : Z) : res bytes :=
  let? ok := py_divides hbs num_tokens in
  if negb ok then Raise AssertionError else
  let num_hash_blocks := num_tokens / hbs in
  if (0 <? num_hash_blocks) && (num_hash_blocks <=? Z.of_nat (length r.(block_hashes)))
  then py_index r.(block_hashes) (num_hash_blocks - 1) else Raise AssertionError.

Definition get_partial_block_parent_hash_and_start (hbs : Z) (r : Request) (num_tokens : Z)
    : res (option bytes * Z) :=
  let num_hash_blocks := num_tokens / hbs in
  let? parent := if num_hash_blocks >? 1
                 then let? h := py_index r.(block_hashes) (num_hash_blocks - 2) in Ok (Some h)
                 else Ok None in
  Ok (parent, (num_hash_blocks - 1) * hbs).

Definition cache_partial_block (b : nat) (num_tokens kv_cache_group_id block_size : Z)
    : prM (option bytes) :=
  blk <- on_pool (get_block b) ;;
  if blk.(is_null) then ret None else
  hbs <- gets (fun s => s.1.(hash_block_size)) ;;
  r <- gets snd ;;
  check (block_size >? hbs) AssertionError ;;
  aligned <- lift (py_divides hbs block_size) ;;
  check aligned AssertionError ;;
  whole <- lift (py_divides block_size num_tokens) ;;
  check (negb whole) AssertionError ;;
  block_hash <- lift (get_partial_block_hash hbs r num_tokens) ;;
  let num_hash_blocks := num_tokens / hbs in
  key <- lift (make_block_hash_with_group_id block_hash kv_cache_group_id) ;;
  c <- gets (fun s => s.1.(cached_block_hash_to_block)) ;;
  let already_cached := bool_decide (blk.(blk_hash) = Some key) || contain c key b in
  (if negb already_cached && bool_decide (blk.(blk_hash) <> None)
      && match blk.(blk_hash_num_tokens) with Some n => n <? num_hash_blocks * hbs | None => false end
   then removed <- on_pool (remove_cached_block_hashes b) ;;
        on_pool (emit_block_removed_events removed)
   else ret tt) ;;
  on_pool (insert_block_hash key b (Some (num_hash_blocks * hbs))) ;;
  ev <- gets (fun s => s.1.(enable_kv_cache_events)) ;;
  (if ev && negb already_cached then
     '(parent_hash, block_start) <- lift (get_partial_block_parent_hash_and_start hbs r num_tokens) ;;
     '(keys, _) <- on_request (generate_block_hash_extra_keys sha256 block_start num_tokens
                                 (if block_start >? 0 then -1 else 0)) ;;
     r <- gets snd ;;
     on_pool (emit (BlockStored [maybe_convert_block_hash use_int block_hash]
                      (maybe_convert_block_hash use_int <$> parent_hash)
                      (slice r.(all_token_ids) block_start num_tokens) (num_tokens - block_start)
                      (lora_id r) (lora_name_of r) (Some [keys]) kv_cache_group_id))
   else ret tt) ;;
  ret (Some key).
End pool.

(** ** Invariants *)

Definition cache_ids (c : gmap bytes CacheEntry) (key : bytes) : list nat :=
  match c !! key with
  | None => []
  | Some (OneBlock b) => [b]
  | Some (BlockDict bs) => bs
  end.

Definition hash_of (p : BlockPool) (i : nat) : option bytes := p.(blocks) !! i ≫= blk_hash.

Definition aliases (p : BlockPool) (i : nat) : gset bytes :=
  default ∅ (p.(cached_block_hashes_by_block) !! i).

(** Block [i] is reachable from [key]: through its primary hash or an alias. *)
Definition owns (p : BlockPool) (i : nat) (key : bytes) : Prop :=
  hash_of p i = Some key \/ key ∈ aliases p i.

Definition entries_wf (c : gmap bytes CacheEntry) : Prop :=
  forall key bs, c !! key = Some (BlockDict bs) -> bs <> [] /\ NoDup bs.

(** The cache and the blocks' own records describe the same relation. *)
Record CacheInv (p : BlockPool) : Prop := {
  ci_ids : forall key i, i ∈ cache_ids p.(cached_block_hash_to_block) key <-> owns p i key;
  ci_wf : entries_wf p.(cached_block_hash_to_block);
  ci_alias : forall i s, p.(cached_block_hashes_by_block) !! i = Some s ->
    exists k, hash_of p i = Some k /\ k ∉ s;
  ci_null : forall i b, p.(blocks) !! i = Some b -> b.(is_null) = true -> b.(blk_hash) = None;
  ci_tokens : forall i b, p.(blocks) !! i = Some b ->
    (b.(blk_hash) = None <-> b.(blk_hash_num_tokens) = None);
}.

(** What the cache operations leave alone. *)
Definition refs (p : BlockPool) : list (Z * bool) :=
  (fun b => (b.(ref_cnt), b.(is_null))) <$> p.(blocks).

Record same_refs (p p' : BlockPool) : Prop := {
  sr_num : p'.(num_gpu_blocks) = p.(num_gpu_blocks);
  sr_caching : p'.(enable_caching) = p.(enable_caching);
  sr_hbs : p'.(hash_block_size) = p.(hash_block_size);
  sr_events : p'.(enable_kv_cache_events) = p.(enable_kv_cache_events);
  sr_queue : p'.(free_block_queue) = p.(free_block_queue);
  sr_refs : refs p' = refs p;
}.

#[global] Instance same_refs_preorder : PreOrder same_refs.
Proof.
  split; [by intros p; split|]. intros p1 p2 p3 [] []. split; congruence.
Qed.

(** The free queue holds exactly the unreferenced blocks, in the order [l]. *)
Definition unreferenced (rs : list (Z * bool)) (i : nat) : Prop := rs !! i = Some (0, false).

Record RefInv (p : BlockPool) (l : list nat) : Prop := {
  ri_queue : p.(free_block_queue) = canon l;
  ri_nodup : NoDup l;
  ri_free : forall i, i ∈ l <-> unreferenced (refs p) i;
  ri_pos : forall i n, refs p !! i = Some (n, false) -> 0 <= n;
  ri_null : forall i n, refs p !! i = Some (n, true) -> i = 0%nat;
  ri_zero : exists n, refs p !! 0%nat = Some (n, true);
  ri_len : Z.of_nat (length (refs p)) = p.(num_gpu_blocks);
}.

Definition PoolInv (p : BlockPool) (l : list nat) : Prop := CacheInv p /\ RefInv p l.

Lemma RefInv_same p p' l : same_refs p p' -> RefInv p l -> RefInv p' l.
Proof. intros [] []. split; by rewrite ?sr_queue0, ?sr_refs0, ?sr_num0. Qed.

(** *** The hash map *)

Lemma elem_filter_ne (l : list nat) b i : i ∈ filter (fun x => x <> b) l <-> i ∈ l /\ i <> b.
Proof. rewrite list_elem_of_filter. tauto. Qed.

Lemma cache_pop_ids c key b key' :
  entries_wf c ->
  let c' := (cache_pop c key b).2 in
  entries_wf c'
  /\ forall i, i ∈ cache_ids c' key' <-> i ∈ cache_ids c key' /\ ~ (key' = key /\ i = b).
Proof.
  intros Hwf. unfold cache_pop, cache_ids.
  destruct (c !! key) as [[b0|bs]|] eqn:Hc; cbn [snd].
  - destruct (decide (b0 = b)) as [->|Hne]; cbn [snd].
    + split; [intros k bs Hk; apply lookup_delete_Some in Hk as [_ Hk]; by eapply Hwf|].
      intros i. destruct (decide (key' = key)) as [->|Hk].
      * rewrite lookup_delete_eq, Hc. elem_solve.
      * rewrite lookup_delete_ne by done. tauto.
    + split; [done|]. intros i. destruct (decide (key' = key)) as [->|Hk]; [|tauto].
      rewrite Hc. elem_solve.
  - set (bs' := filter _ bs). pose proof (elem_filter_ne bs b) as Hin. fold bs' in Hin.
    assert (Hnd : NoDup bs') by (apply NoDup_filter; by eapply Hwf).
    split.
    + intros k l. destruct bs' as [|x bs'']; [intros [_ Hk]%lookup_delete_Some; by eapply Hwf|].
      destruct (decide (key = k)) as [<-|Hk]; [rewrite lookup_insert_eq; by intros [= <-]|].
      rewrite lookup_insert_ne by done. apply Hwf.
    + intros i. specialize (Hin i). destruct (decide (key' = key)) as [->|Hk].
      * rewrite Hc. destruct bs' as [|x bs'']; rewrite ?lookup_delete_eq, ?lookup_insert_eq; tauto.
      * destruct bs' as [|x bs'']; rewrite ?lookup_delete_ne, ?lookup_insert_ne by done; tauto.
  - split; [done|]. intros i. destruct (decide (key' = key)) as [->|]; [|tauto].
    rewrite Hc. elem_solve.
Qed.

Lemma cache_pop_found c key b :
  is_Some (cache_pop c key b).1 <-> b ∈ cache_ids c key.
Proof.
  unfold cache_pop, cache_ids. destruct (c !! key) as [[b0|bs]|]; simpl.
  - destruct (decide (b0 = b)) as [->|]; simpl; rewrite list_elem_of_singleton.
    + split; eauto.
    + split; [by intros [? ?]|congruence].
  - destruct (decide (b ∈ bs)); simpl; [by split; [|eexists]|]. by split; [intros [? ?]|].
  - rewrite elem_of_nil. split; [by intros [? ?]|done].
Qed.

Lemma contain_ids c key b : contain c key b = true <-> b ∈ cache_ids c key.
Proof.
  unfold contain, cache_ids. destruct (c !! key) as [[b0|bs]|].
  - rewrite bool_decide_eq_true, list_elem_of_singleton. done.
  - apply bool_decide_eq_true.
  - by rewrite elem_of_nil.
Qed.

Lemma cache_insert_ids c key b key' :
  entries_wf c ->
  let c' := cache_insert c key b in
  entries_wf c'
  /\ forall i, i ∈ cache_ids c' key' <-> i ∈ cache_ids c key' \/ (key' = key /\ i = b).
Proof.
  intros Hwf. unfold cache_insert, cache_ids, dict_insert.
  destruct (c !! key) as [[b0|bs]|] eqn:Hc.
  - split.
    + intros k l. destruct (decide (key = k)) as [<-|Hk];
        [rewrite lookup_insert_eq; intros [= <-]|rewrite lookup_insert_ne by done; apply Hwf].
      destruct (decide _) as [|Hb]; split; try done; [apply NoDup_singleton|].
      rewrite list_elem_of_singleton in Hb. apply NoDup_cons; split; [|apply NoDup_singleton].
      rewrite list_elem_of_singleton. congruence.
    + intros i. destruct (decide (key' = key)) as [->|Hk].
      * rewrite lookup_insert_eq, Hc. destruct (decide _); elem_solve.
      * rewrite lookup_insert_ne by done. tauto.
  - destruct (Hwf _ _ Hc) as [Hne Hnd]. split.
    + intros k l. destruct (decide (key = k)) as [<-|Hk];
        [rewrite lookup_insert_eq; intros [= <-]|rewrite lookup_insert_ne by done; apply Hwf].
      destruct (decide _) as [|Hb]; [done|]. split; [by destruct bs|].
      apply NoDup_app. split_and!; [done| |apply NoDup_singleton].
      intros x Hx ->%list_elem_of_singleton. done.
    + intros i. destruct (decide (key' = key)) as [->|Hk].
      * rewrite lookup_insert_eq, Hc. destruct (decide _); elem_solve.
      * rewrite lookup_insert_ne by done. tauto.
  - split.
    + intros k l. destruct (decide (key = k)) as [<-|Hk];
        [rewrite lookup_insert_eq; done|rewrite lookup_insert_ne by done; apply Hwf].
    + intros i. destruct (decide (key' = key)) as [->|Hk].
      * rewrite lookup_insert_eq, Hc. elem_solve.
      * rewrite lookup_insert_ne by done. tauto.
Qed.

(** *** Removing and inserting hashes *)

Lemma get_block_eq p i b : p.(blocks) !! i = Some b -> get_block i p = (Ok b, p).
Proof. intros Hb. unfold get_block. run_monad. by rewrite Hb. Qed.

Lemma hash_of_insert p p' i b j :
  (i < length p.(blocks))%nat -> p'.(blocks) = <[i := b]> p.(blocks) ->
  hash_of p' j = if decide (i = j) then b.(blk_hash) else hash_of p j.
Proof.
  intros Hi Hp. unfold hash_of. rewrite Hp. destruct (decide (i = j)) as [<-|Hij].
  - by rewrite list_lookup_insert_eq.
  - by rewrite list_lookup_insert_ne.
Qed.

Lemma refs_insert p p' i b b' :
  p.(blocks) !! i = Some b -> p'.(blocks) = <[i := b']> p.(blocks) ->
  ref_cnt b' = ref_cnt b -> is_null b' = is_null b -> refs p' = refs p.
Proof.
  intros Hb Hp H1 H2. unfold refs. rewrite Hp, list_fmap_insert, H1, H2.
  apply list_insert_id. by rewrite list_lookup_fmap, Hb.
Qed.

Lemma pop_hashes_spec b hs p :
  entries_wf p.(cached_block_hash_to_block) -> NoDup hs ->
  (forall h, h ∈ hs -> b ∈ cache_ids p.(cached_block_hash_to_block) h) ->
  exists c', pop_hashes b hs p = (Ok hs, set_cache c' p) /\ entries_wf c'
    /\ forall key i, i ∈ cache_ids c' key <->
         i ∈ cache_ids p.(cached_block_hash_to_block) key /\ ~ (key ∈ hs /\ i = b).
Proof.
  revert p. induction hs as [|h hs IH]; intros p Hwf Hnd Hin.
  { exists p.(cached_block_hash_to_block). split_and!; [by destruct p|done|].
    intros key i. rewrite elem_of_nil. tauto. }
  apply NoDup_cons in Hnd as [Hh Hnd]. cbn [pop_hashes].
  set (c := p.(cached_block_hash_to_block)) in *.
  pose proof (fun key => cache_pop_ids c h b key Hwf) as Hpop.
  destruct (proj2 (cache_pop_found c h b)) as [x Hx]; [apply Hin; by left|].
  destruct (cache_pop c h b) as [popped c1] eqn:Hc1. cbn [fst snd] in *. subst popped.
  assert (Hrun : pop_hash b h p = (Ok true, set_cache c1 p)).
  { unfold pop_hash. run_monad. fold c. by rewrite Hc1. }
  rewrite (bind_ok _ _ _ _ _ Hrun).
  destruct (IH (set_cache c1 p)) as (c' & Hrun' & Hwf' & Hids); [apply (Hpop h)|done| |].
  { intros h' Hh'. apply Hpop. split; [apply Hin; by right|]. intros [-> _]. done. }
  rewrite (bind_ok _ _ _ _ _ Hrun'). exists c'. split_and!; [done|done|].
  intros key i. rewrite Hids. cbn [set_cache cached_block_hash_to_block].
  rewrite (proj2 (Hpop key)), elem_of_cons. tauto.
Qed.

(** The state after every key of block [b] has been dropped. *)
Definition forget (b : nat) (blk : KVCacheBlock) (c' : gmap bytes CacheEntry) (p : BlockPool) : BlockPool :=
  set_blocks (<[b := reset_hash blk]> p.(blocks))
    (set_by_block (delete b p.(cached_block_hashes_by_block)) (set_cache c' p)).

Lemma forget_inv p b blk c' :
  CacheInv p -> p.(blocks) !! b = Some blk -> entries_wf c' ->
  (forall key i, i ∈ cache_ids c' key <-> owns p i key /\ i <> b) ->
  CacheInv (forget b blk c' p) /\ same_refs p (forget b blk c' p)
  /\ (forall i key, owns (forget b blk c' p) i key <-> owns p i key /\ i <> b).
Proof.
  intros Hinv Hb Hwf Hids. pose proof (lookup_lt_Some _ _ _ Hb) as Hlt.
  assert (Hh : forall i, hash_of (forget b blk c' p) i = if decide (b = i) then None else hash_of p i).
  { intros i. by rewrite (hash_of_insert p _ b (reset_hash blk)). }
  assert (Ha : forall i, aliases (forget b blk c' p) i = if decide (b = i) then ∅ else aliases p i).
  { intros i. unfold aliases. simpl. destruct (decide (b = i)) as [<-|];
      by rewrite ?lookup_delete_eq, ?lookup_delete_ne. }
  assert (Ho : forall i key, owns (forget b blk c' p) i key <-> owns p i key /\ i <> b).
  { intros i key. unfold owns. rewrite Hh, Ha. destruct (decide (b = i)) as [<-|]; set_solver. }
  split_and!; [|split; try done|done].
  - split.
    + intros key i. rewrite Ho. apply Hids.
    + exact Hwf.
    + intros i s Hs. simpl in Hs. apply lookup_delete_Some in Hs as [Hne Hs].
      rewrite Hh, decide_False by done. by apply (ci_alias p Hinv).
    + intros i x. simpl. intros Hx Hn. destruct (decide (b = i)) as [<-|Hne].
      * rewrite list_lookup_insert_eq in Hx by done. by injection Hx as <-.
      * rewrite list_lookup_insert_ne in Hx by done. by apply (ci_null p Hinv i).
    + intros i x. simpl. intros Hx. destruct (decide (b = i)) as [<-|Hne].
      * rewrite list_lookup_insert_eq in Hx by done. by injection Hx as <-.
      * rewrite list_lookup_insert_ne in Hx by done. by apply (ci_tokens p Hinv i).
  - by eapply refs_insert.
Qed.

Section pool_proofs.
Context (use_int : bool) (set_order : gset bytes -> list bytes).
Context (set_order_perm : forall s, set_order s ≡ₚ elements s).

Lemma remove_spec p b blk :
  CacheInv p -> p.(blocks) !! b = Some blk ->
  exists hs c', remove_cached_block_hashes set_order b p = (Ok hs, forget b blk c' p)
    /\ (forall k, k ∈ hs <-> owns p b k) /\ NoDup hs
    /\ (match blk.(blk_hash) with Some h => head hs = Some h | None => hs = [] end)
    /\ entries_wf c' /\ (forall key i, i ∈ cache_ids c' key <-> owns p i key /\ i <> b).
Proof.
  intros Hinv Hb. unfold remove_cached_block_hashes.
  rewrite (bind_ok _ _ _ _ _ (get_block_eq p b blk Hb)), bind_gets, bind_modify.
  assert (Hhash : hash_of p b = blk_hash blk) by (unfold hash_of; by rewrite Hb).
  destruct (blk_hash blk) as [h|] eqn:Hh.
  - set (extra := match _ with Some s => _ | None => _ end).
    assert (Hextra : forall k, k ∈ extra <-> k ∈ aliases p b).
    { intros k. unfold extra, aliases. destruct (cached_block_hashes_by_block p !! b) as [s|]; simpl.
      - by rewrite set_order_perm, elem_of_elements.
      - by rewrite elem_of_nil, elem_of_empty. }
    assert (Hnd : NoDup (h :: extra)).
    { apply NoDup_cons. split.
      - rewrite Hextra. unfold aliases. destruct (cached_block_hashes_by_block p !! b) as [s|] eqn:Hs; simpl; [|by apply not_elem_of_empty].
        destruct (ci_alias p Hinv b s Hs) as (k & Hk & Hks). congruence.
      - unfold extra. destruct (cached_block_hashes_by_block p !! b) as [s|]; [|constructor]. rewrite set_order_perm. apply NoDup_elements. }
    assert (Hown : forall k, k ∈ h :: extra <-> owns p b k).
    { intros k. rewrite elem_of_cons, Hextra. unfold owns. rewrite Hhash. naive_solver. }
    destruct (pop_hashes_spec b (h :: extra)
                (set_by_block (delete b p.(cached_block_hashes_by_block)) p)) as (c' & Hrun & Hwf & Hids).
    + apply Hinv.
    + done.
    + intros k Hk. apply Hinv. by apply Hown.
    + exists (h :: extra), c'. rewrite (bind_ok _ _ _ _ _ Hrun).
      rewrite (bind_ok _ _ _ _ _ (get_block_eq (set_cache c' (set_by_block
        (delete b p.(cached_block_hashes_by_block)) p)) b blk Hb)).
      split_and!; [done..|]. intros key i. rewrite Hids. simpl.
      rewrite (ci_ids p Hinv), Hown. split; [|intros [Ho Hne]; split; naive_solver].
      intros [Ho Hn]. split; [done|]. intros ->. by apply Hn.
  - assert (Hnone : p.(cached_block_hashes_by_block) !! b = None).
    { destruct (cached_block_hashes_by_block p !! b) as [s|] eqn:Hs; [|done].
      destruct (ci_alias p Hinv b s Hs) as (k & Hk & _). congruence. }
    rewrite Hnone. exists [], p.(cached_block_hash_to_block). unfold ret, forget.
    assert (Hid : <[b := reset_hash blk]> p.(blocks) = p.(blocks)).
    { apply list_insert_id. rewrite Hb. f_equal. destruct blk as [rc h nt nl]; simpl in *. subst h.
      pose proof (proj1 (ci_tokens p Hinv b _ Hb) eq_refl) as Ht. simpl in Ht. by subst nt. }
    assert (Hno : forall k, ~ owns p b k).
    { intros k. unfold owns, aliases. rewrite Hhash, Hnone. set_solver. }
    split_and!; [rewrite Hid; by destruct p| |constructor|done|apply Hinv|].
    + intros k. rewrite elem_of_nil. split; [done|]. intros H. by apply (Hno k).
    + intros key i. rewrite (ci_ids p Hinv). split; [|tauto]. intros H. split; [done|].
      intros ->. by apply (Hno key).
Qed.

(** An operation on the hashes of block [b] alone; [own] is the new ownership. *)
Record hash_step (b : nat) (own : nat -> bytes -> Prop) (p p' : BlockPool) : Prop := {
  hs_inv : CacheInv p';
  hs_refs : same_refs p p';
  hs_owns : forall i k, owns p' i k <-> own i k;
  hs_other : forall i, i <> b -> p'.(blocks) !! i = p.(blocks) !! i;
}.

Lemma CacheInv_events es p : CacheInv p -> CacheInv (set_events es p).
Proof. by intros []; split. Qed.

Lemma hash_step_events b own p p' es :
  hash_step b own p p' -> hash_step b own p (set_events es p').
Proof.
  intros [Hi Hr Ho Hb]. split; [by apply CacheInv_events|by destruct Hr; split|done|done].
Qed.

Lemma forget_step p b blk c' :
  CacheInv p -> p.(blocks) !! b = Some blk -> entries_wf c' ->
  (forall key i, i ∈ cache_ids c' key <-> owns p i key /\ i <> b) ->
  hash_step b (fun i k => owns p i k /\ i <> b) p (forget b blk c' p).
Proof.
  intros Hinv Hb Hwf Hids. destruct (forget_inv p b blk c' Hinv Hb Hwf Hids) as (? & ? & ?).
  split; [done..|]. intros i Hi. simpl. by rewrite list_lookup_insert_ne.
Qed.

Lemma set_hash_inv p b blk key n :
  CacheInv p -> p.(blocks) !! b = Some blk -> is_null blk = false -> blk_hash blk = None ->
  hash_step b (fun i k => owns p i k \/ (i = b /\ k = key)) p
    (set_cache (cache_insert p.(cached_block_hash_to_block) key b)
       (set_blocks (<[b := mkBlock (ref_cnt blk) (Some key) (Some n) (is_null blk)]> p.(blocks)) p)).
Proof.
  intros Hinv Hb Hn Hh. set (blk' := mkBlock _ _ _ _). set (p' := set_cache _ _).
  pose proof (lookup_lt_Some _ _ _ Hb) as Hlt.
  assert (Hhash : hash_of p b = None) by (unfold hash_of; by rewrite Hb).
  assert (Hh' : forall i, hash_of p' i = if decide (b = i) then Some key else hash_of p i).
  { intros i. by rewrite (hash_of_insert p p' b blk'). }
  assert (Ho : forall i k, owns p' i k <-> owns p i k \/ (i = b /\ k = key)).
  { intros i k. unfold owns. change (aliases p' i) with (aliases p i). rewrite Hh'.
    destruct (decide (b = i)) as [<-|]; [rewrite Hhash|]; naive_solver. }
  split; [split| |exact Ho|].
  - intros k i. rewrite Ho. cbn [p' cached_block_hash_to_block set_cache].
    rewrite (proj2 (cache_insert_ids _ key b k (ci_wf p Hinv))), (ci_ids p Hinv). naive_solver.
  - apply (cache_insert_ids _ key b key (ci_wf p Hinv)).
  - intros i s Hs. rewrite Hh'. simpl in Hs. destruct (ci_alias p Hinv i s Hs) as (k & Hk & ?).
    rewrite decide_False by congruence. eauto.
  - intros i x Hx Hnull. simpl in Hx. destruct (decide (b = i)) as [<-|Hne].
    + rewrite list_lookup_insert_eq in Hx by done. injection Hx as <-. simpl in Hnull. congruence.
    + rewrite list_lookup_insert_ne in Hx by done. by apply (ci_null p Hinv i).
  - intros i x Hx. simpl in Hx. destruct (decide (b = i)) as [<-|Hne].
    + rewrite list_lookup_insert_eq in Hx by done. by injection Hx as <-.
    + rewrite list_lookup_insert_ne in Hx by done. by apply (ci_tokens p Hinv i).
  - split; try done. by apply (refs_insert p _ b blk blk').
  - intros i Hi. simpl. by rewrite list_lookup_insert_ne.
Qed.

Lemma add_alias_inv p b h key :
  CacheInv p -> hash_of p b = Some h -> h <> key ->
  hash_step b (fun i k => owns p i k \/ (i = b /\ k = key)) p
    (set_cache (cache_insert p.(cached_block_hash_to_block) key b)
       (set_by_block (<[b := {[key]} ∪ aliases p b]> p.(cached_block_hashes_by_block)) p)).
Proof.
  intros Hinv Hh Hne. set (p' := set_cache _ _).
  assert (Ha : forall i, aliases p' i = if decide (b = i) then {[key]} ∪ aliases p b else aliases p i).
  { intros i. unfold aliases at 1. simpl.
    destruct (decide (b = i)) as [<-|]; by rewrite ?lookup_insert_eq, ?lookup_insert_ne. }
  assert (Ho : forall i k, owns p' i k <-> owns p i k \/ (i = b /\ k = key)).
  { intros i k. unfold owns. rewrite Ha. change (hash_of p' i) with (hash_of p i).
    destruct (decide (b = i)) as [<-|]; [rewrite elem_of_union, elem_of_singleton|]; naive_solver. }
  split; [split| |exact Ho|done].
  - intros k i. rewrite Ho. cbn [p' cached_block_hash_to_block set_cache].
    rewrite (proj2 (cache_insert_ids _ key b k (ci_wf p Hinv))). simpl. rewrite (ci_ids p Hinv). naive_solver.
  - apply (cache_insert_ids _ key b key (ci_wf p Hinv)).
  - intros i s Hs. change (hash_of p' i) with (hash_of p i). simpl in Hs.
    destruct (decide (b = i)) as [<-|Hi].
    + rewrite lookup_insert_eq in Hs. injection Hs as <-. exists h. split; [done|].
      rewrite not_elem_of_union, not_elem_of_singleton. split; [congruence|].
      unfold aliases. destruct (_ !! b) as [s|] eqn:Hs; simpl; [|apply not_elem_of_empty].
      destruct (ci_alias p Hinv b s Hs) as (k & Hk & ?). congruence.
    + rewrite lookup_insert_ne in Hs by done. by apply (ci_alias p Hinv).
  - apply (ci_null p Hinv).
  - apply (ci_tokens p Hinv).
  - by split.
Qed.

Lemma insert_spec p b blk key n :
  CacheInv p -> p.(blocks) !! b = Some blk -> is_null blk = false ->
  exists p', insert_block_hash key b (Some n) p = (Ok tt, p')
    /\ hash_step b (fun i k => owns p i k \/ (i = b /\ k = key)) p p'
    /\ p'.(kv_event_queue) = p.(kv_event_queue).
Proof.
  intros Hinv Hb Hn. unfold insert_block_hash.
  rewrite (bind_ok _ _ _ _ _ (get_block_eq p b blk Hb)), bind_gets.
  assert (Hhash : hash_of p b = blk_hash blk) by (unfold hash_of; by rewrite Hb).
  assert (Hsame : owns p b key -> hash_step b (fun i k => owns p i k \/ (i = b /\ k = key)) p p).
  { intros Ho. split; [done|done|naive_solver|done]. }
  destruct (decide (blk_hash blk = Some key)) as [Hk|Hk].
  { exists p. split_and!; [done| |done]. apply Hsame. left. congruence. }
  destruct (contain _ key b) eqn:Hc.
  { exists p. split_and!; [done| |done]. apply Hsame. apply Hinv. by apply contain_ids. }
  destruct (blk_hash blk) as [h|] eqn:Hh.
  - run_monad. unfold modify. eexists. split; [done|]. split; [|done].
    by apply (add_alias_inv p b h key); [|congruence|congruence].
  - pose proof (proj1 (ci_tokens p Hinv b blk Hb) Hh) as Ht.
    assert (Hset : set_block_hash key (Some n) blk
                   = Ok (mkBlock (ref_cnt blk) (Some key) (Some n) (is_null blk))).
    { unfold set_block_hash. by rewrite Hh, Ht. }
    rewrite Hset. unfold bind at 1. run_monad. unfold put_block, modify.
    eexists. split; [done|]. split; [|done]. exact (set_hash_inv p b blk key n Hinv Hb Hn Hh).
Qed.

Definition removed_events (p : BlockPool) (hs : list bytes) : list KVCacheEvent :=
  if p.(enable_kv_cache_events) then
    (fun h => BlockRemoved (maybe_convert_block_hash use_int (get_block_hash h)) (get_group_id h)) <$> hs
  else [].

Lemma emit_removed_spec hs p :
  emit_block_removed_events use_int hs p
  = (Ok tt, set_events (p.(kv_event_queue) ++ removed_events p hs) p).
Proof.
  unfold emit_block_removed_events, removed_events. run_monad.
  destruct (enable_kv_cache_events p) eqn:He; simpl.
  2:{ rewrite app_nil_r. by destruct p. }
  clear He. revert p. induction hs as [|h hs IH]; intros p; simpl.
  { rewrite app_nil_r. by destruct p. }
  unfold emit at 1. run_monad. rewrite IH. simpl. by rewrite <- app_assoc.
Qed.

(** Dropping all keys of a block, with its removal events: an eviction. *)
Lemma evict_spec p b blk :
  CacheInv p -> p.(blocks) !! b = Some blk ->
  exists hs p', maybe_evict_cached_block use_int set_order b p
      = (Ok (negb (bool_decide (blk_hash blk = None))), p')
    /\ hash_step b (fun i k => owns p i k /\ i <> b) p p'
    /\ (forall k, k ∈ hs <-> owns p b k) /\ NoDup hs
    /\ p'.(kv_event_queue) = p.(kv_event_queue) ++ removed_events p hs
    /\ p'.(blocks) = <[b := reset_hash blk]> p.(blocks).
Proof.
  intros Hinv Hb. destruct (remove_spec p b blk Hinv Hb) as (hs & c' & Hrun & Hown & Hnd & Hhd & Hwf & Hids).
  pose proof (forget_step p b blk c' Hinv Hb Hwf Hids) as Hstep.
  unfold maybe_evict_cached_block. rewrite (bind_ok _ _ _ _ _ Hrun). exists hs.
  destruct hs as [|h hs'].
  - destruct (blk_hash blk); [done|]. exists (forget b blk c' p). split_and!; try done.
    unfold removed_events. simpl. destruct (enable_kv_cache_events p); by rewrite app_nil_r.
  - destruct (blk_hash blk) as [h0|]; [|done]. eexists.
    rewrite (bind_ok _ _ _ _ _ (emit_removed_spec _ _)).
    split_and!; [done|by apply hash_step_events|done..].
Qed.

(** *** Reference counts and the free queue *)

Record same_cfg (p p' : BlockPool) : Prop := {
  sc_num : p'.(num_gpu_blocks) = p.(num_gpu_blocks);
  sc_caching : p'.(enable_caching) = p.(enable_caching);
  sc_hbs : p'.(hash_block_size) = p.(hash_block_size);
  sc_events : p'.(enable_kv_cache_events) = p.(enable_kv_cache_events);
}.

#[local] Instance same_cfg_preorder : PreOrder same_cfg.
Proof. split; [by intros p; split|]. intros p1 p2 p3 [] []. split; congruence. Qed.

Lemma same_refs_cfg p p' : same_refs p p' -> same_cfg p p'.
Proof. by intros []; split. Qed.

Lemma refs_lookup p i b :
  p.(blocks) !! i = Some b -> refs p !! i = Some (ref_cnt b, is_null b).
Proof. intros Hb. unfold refs. by rewrite list_lookup_fmap, Hb. Qed.

Lemma refs_lookup_inv p i n z :
  refs p !! i = Some (n, z) -> exists b, p.(blocks) !! i = Some b /\ ref_cnt b = n /\ is_null b = z.
Proof.
  unfold refs. rewrite list_lookup_fmap. destruct (blocks p !! i) as [b|]; [|done].
  intros [= <- <-]. by exists b.
Qed.

Lemma set_ref_inv p b blk n :
  CacheInv p -> p.(blocks) !! b = Some blk ->
  let p' := set_blocks (<[b := set_ref_cnt n blk]> p.(blocks)) p in
  CacheInv p' /\ (forall i k, owns p' i k <-> owns p i k)
  /\ refs p' = <[b := (n, is_null blk)]> (refs p) /\ same_cfg p p'
  /\ p'.(free_block_queue) = p.(free_block_queue).
Proof.
  intros Hinv Hb p'. pose proof (lookup_lt_Some _ _ _ Hb) as Hlt.
  assert (Hh : forall i, hash_of p' i = hash_of p i).
  { intros i. rewrite (hash_of_insert p p' b (set_ref_cnt n blk)) by done.
    destruct (decide (b = i)) as [<-|]; [|done]. unfold hash_of. by rewrite Hb. }
  assert (Ho : forall i k, owns p' i k <-> owns p i k).
  { intros i k. unfold owns. by rewrite Hh. }
  split_and!; [split|done| |done|done].
  - intros key i. rewrite Ho. apply Hinv.
  - apply Hinv.
  - intros i s Hs. rewrite Hh. by apply (ci_alias p Hinv).
  - intros i x Hx. simpl in Hx. destruct (decide (b = i)) as [<-|Hne].
    + rewrite list_lookup_insert_eq in Hx by done. injection Hx as <-. simpl. by apply (ci_null p Hinv b).
    + rewrite list_lookup_insert_ne in Hx by done. by apply (ci_null p Hinv i).
  - intros i x Hx. simpl in Hx. destruct (decide (b = i)) as [<-|Hne].
    + rewrite list_lookup_insert_eq in Hx by done. injection Hx as <-. simpl. by apply (ci_tokens p Hinv b).
    + rewrite list_lookup_insert_ne in Hx by done. by apply (ci_tokens p Hinv i).
  - unfold refs. simpl. by rewrite list_fmap_insert.
Qed.

Lemma set_queue_inv q p :
  CacheInv p -> CacheInv (set_queue q p) /\ (forall i k, owns (set_queue q p) i k <-> owns p i k).
Proof. intros []. split; [by split|done]. Qed.

(** The allocation loop: evict (when caching) and take the first reference. *)
Definition alloc_one (caching : bool) (b : nat) : poolM unit :=
  (if caching then maybe_evict_cached_block use_int set_order b ;; ret tt else ret tt) ;; take_ref b.

Lemma alloc_one_spec caching p b :
  CacheInv p -> unreferenced (refs p) b ->
  exists p', alloc_one caching b p = (Ok tt, p') /\ CacheInv p' /\ same_cfg p p'
    /\ p'.(free_block_queue) = p.(free_block_queue)
    /\ refs p' = <[b := (1, false)]> (refs p)
    /\ (forall i k, owns p' i k <-> owns p i k /\ (caching = true -> i <> b)).
Proof.
  intros Hinv (blk & Hb & Hr & Hn)%refs_lookup_inv.
  assert (Hpre : exists p1 blk1, (if caching then maybe_evict_cached_block use_int set_order b ;; ret tt
                             else ret tt) p = (Ok tt, p1)
            /\ CacheInv p1 /\ same_refs p p1 /\ p1.(blocks) !! b = Some blk1
            /\ (forall i k, owns p1 i k <-> owns p i k /\ (caching = true -> i <> b))).
  { destruct caching.
    - destruct (evict_spec p b blk Hinv Hb) as (hs & p1 & Hrun & [H1 H2 H3 _] & _ & _ & _ & Hb1).
      exists p1, (reset_hash blk). rewrite (bind_ok _ _ _ _ _ Hrun). split_and!; [done..| |].
      + rewrite Hb1. apply list_lookup_insert_eq. by eapply lookup_lt_Some.
      + intros i k. rewrite H3. tauto.
    - exists p, blk. split_and!; [done..|]. intuition done. }
  destruct Hpre as (p1 & blk1 & Hrun & Hinv1 & Hsame & Hb1 & Hown).
  assert (Hr1 : refs p1 !! b = Some (0, false)).
  { rewrite (sr_refs _ _ Hsame). rewrite (refs_lookup _ _ _ Hb). by rewrite Hr, Hn. }
  rewrite (refs_lookup _ _ _ Hb1) in Hr1. injection Hr1 as Hr1 Hn1.
  destruct (set_ref_inv p1 b blk1 1 Hinv1 Hb1) as (Hi2 & Ho2 & Hr2 & Hc2 & Hq2).
  eexists. unfold alloc_one. rewrite (bind_ok _ _ _ _ _ Hrun). unfold take_ref.
  rewrite (bind_ok _ _ _ _ _ (get_block_eq p1 b blk1 Hb1)), Hr1. split_and!; [reflexivity|done|..].
  - etransitivity; [by apply same_refs_cfg|done].
  - rewrite <- (sr_queue _ _ Hsame). done.
  - rewrite <- (sr_refs _ _ Hsame), <- Hn1. done.
  - intros i k. rewrite <- Hown. apply Ho2.
Qed.

Lemma alloc_loop_spec caching bs p :
  CacheInv p -> NoDup bs -> Forall (unreferenced (refs p)) bs ->
  exists p', for_each bs (alloc_one caching) p = (Ok tt, p') /\ CacheInv p' /\ same_cfg p p'
    /\ p'.(free_block_queue) = p.(free_block_queue)
    /\ (forall i, refs p' !! i = if decide (i ∈ bs) then Some (1, false) else refs p !! i)
    /\ (forall i k, owns p' i k <-> owns p i k /\ (caching = true -> i ∉ bs)).
Proof.
  revert p. induction bs as [|b bs IH]; intros p Hinv Hnd Hall.
  { exists p. split_and!; try done. intros i k. rewrite elem_of_nil. intuition. }
  apply NoDup_cons in Hnd as [Hb Hnd]. apply Forall_cons in Hall as [Hu Hall]. cbn [for_each].
  destruct (alloc_one_spec caching p b Hinv Hu) as (p1 & Hrun & Hinv1 & Hc1 & Hq1 & Hr1 & Ho1).
  assert (Hlt : (b < length (refs p))%nat) by (by eapply lookup_lt_Some).
  destruct (IH p1 Hinv1 Hnd) as (p2 & Hrun2 & Hinv2 & Hc2 & Hq2 & Hr2 & Ho2).
  { rewrite Forall_forall in Hall |- *. intros x Hx. unfold unreferenced. rewrite Hr1.
    rewrite list_lookup_insert_ne by (intros ->; done). by apply Hall. }
  exists p2. rewrite (bind_ok _ _ _ _ _ Hrun). split_and!; [done|done|by etransitivity|congruence| |].
  - intros i. rewrite Hr2, Hr1. destruct (decide (i = b)) as [->|Hne].
    + rewrite decide_False by done. rewrite decide_True by (by left). by rewrite list_lookup_insert_eq.
    + rewrite list_lookup_insert_ne by done. destruct (decide (i ∈ bs)).
      * rewrite decide_True by (by right). done.
      * rewrite decide_False; [done|]. by intros [->|?]%elem_of_cons.
  - intros i k. rewrite Ho2, Ho1, elem_of_cons. tauto.
Qed.

Lemma map_block_of l p : map_m block_of (Blk <$> l) p = (Ok l, p).
Proof.
  induction l as [|x l IH]; [done|]. cbn [fmap list_fmap map_m].
  rewrite (bind_ok (block_of (Blk x)) _ p x p eq_refl). by rewrite (bind_ok _ _ _ _ _ IH).
Qed.

Lemma on_queue_ok {A} (m : queueM A) p a q :
  m p.(free_block_queue) = (Ok a, q) -> on_queue m p = (Ok a, set_queue q p).
Proof. intros H. unfold on_queue, zoom. by rewrite H. Qed.

(** The effect of allocating the blocks [l1] from the front of the queue. *)
Record allocated (l1 : list nat) (p p' : BlockPool) : Prop := {
  al_cfg : same_cfg p p';
  al_refs : forall i, refs p' !! i = if decide (i ∈ l1) then Some (1, false) else refs p !! i;
  al_owns : forall i k, owns p' i k <-> owns p i k /\ (p.(enable_caching) = true -> i ∉ l1);
}.

Lemma refs_length_eq p p' : (forall i, is_Some (refs p' !! i) <-> is_Some (refs p !! i)) ->
  length (refs p') = length (refs p).
Proof.
  intros H. apply Nat.le_antisymm; apply Nat.le_ngt; intros Hlt.
  - destruct (lookup_lt_is_Some_2 _ _ Hlt) as [x Hx]. assert (Hs : is_Some (refs p' !! length (refs p))) by eauto.
    apply H in Hs. apply lookup_lt_is_Some_1 in Hs. lia.
  - destruct (lookup_lt_is_Some_2 _ _ Hlt) as [x Hx]. assert (Hs : is_Some (refs p !! length (refs p'))) by eauto.
    apply H in Hs. apply lookup_lt_is_Some_1 in Hs. lia.
Qed.

(** Null flags never change, so only the queue and the counts have to be tracked. *)
Lemma RefInv_update p p' l l' :
  RefInv p l -> same_cfg p p' -> p'.(free_block_queue) = canon l' -> NoDup l' ->
  (forall i, i ∈ l' <-> unreferenced (refs p') i) ->
  (forall i, snd <$> refs p' !! i = snd <$> refs p !! i) ->
  (forall i n, refs p' !! i = Some (n, false) -> 0 <= n) ->
  RefInv p' l'.
Proof.
  intros [] Hcfg Hq Hnd Hfree Hsnd Hpos. split; try done.
  - intros i n Hi. specialize (Hsnd i). rewrite Hi in Hsnd.
    destruct (refs p !! i) as [[m z]|] eqn:Hp; [|done]. injection Hsnd as <-. by eapply ri_null0.
  - destruct ri_zero0 as [n Hn]. specialize (Hsnd 0%nat). rewrite Hn in Hsnd.
    destruct (refs p' !! 0%nat) as [[m z]|]; [|done]. injection Hsnd as ->. by exists m.
  - rewrite (sc_num _ _ Hcfg), <- ri_len0. f_equal. apply refs_length_eq. intros i.
    specialize (Hsnd i). destruct (refs p' !! i), (refs p !! i); try done; split; eauto.
Qed.

Lemma get_new_blocks_ok p l1 l2 :
  PoolInv p (l1 ++ l2) ->
  exists p', get_new_blocks use_int set_order (Z.of_nat (length l1)) p = (Ok l1, p')
    /\ PoolInv p' l2 /\ allocated l1 p p'.
Proof.
  intros [Hc Hr]. pose proof Hr as [Hq Hnd Hfree Hpos Hnull Hzero Hlen].
  unfold get_new_blocks, get_num_free_blocks. rewrite bind_gets, Hq. cbn [canon num_free_blocks].
  rewrite length_app. unfold check at 1.
  destruct (Z.leb_spec (Z.of_nat (length l1)) (Z.of_nat (length l1 + length l2))); [|lia].
  run_monad.
  assert (Hpop : on_queue (popleft_n (Z.of_nat (length l1))) p = (Ok (Blk <$> l1), set_queue (canon l2) p)).
  { apply on_queue_ok. rewrite Hq. by apply popleft_n_canon. }
  rewrite (bind_ok _ _ _ _ _ Hpop), (bind_ok _ _ _ _ _ (map_block_of l1 _)), bind_gets.
  change (enable_caching (set_queue (canon l2) p)) with (enable_caching p).
  change (fun b : nat => _) with (alloc_one (enable_caching p)).
  destruct (set_queue_inv (canon l2) p Hc) as [Hc1 Ho1].
  apply NoDup_app in Hnd as (Hnd1 & Hdis & Hnd2).
  destruct (alloc_loop_spec (enable_caching p) l1 (set_queue (canon l2) p) Hc1 Hnd1)
    as (p' & Hrun & Hinv & Hcfg & Hq' & Hrefs & Hown).
  { apply Forall_forall. intros x Hx. apply Hfree. apply elem_of_app. by left. }
  change (refs (set_queue (canon l2) p)) with (refs p) in Hrefs.
  assert (Hcfg' : same_cfg p p') by (by destruct Hcfg; split).
  exists p'. rewrite (bind_ok _ _ _ _ _ Hrun). split_and!; [done| |].
  - split; [done|]. apply (RefInv_update p p' (l1 ++ l2) l2); [done..|by rewrite Hq'|done| | |].
    + intros i. unfold unreferenced. rewrite Hrefs. destruct (decide (i ∈ l1)) as [Hi|Hi].
      * split; [intros Hi2; by destruct (Hdis i)|done].
      * change (refs p !! i = Some (0, false)) with (unreferenced (refs p) i).
        rewrite <- Hfree, elem_of_app. tauto.
    + intros i. rewrite Hrefs. destruct (decide _) as [Hi|]; [|done].
      assert (Hu : unreferenced (refs p) i) by (apply Hfree, elem_of_app; by left). by rewrite Hu.
    + intros i n. rewrite Hrefs. destruct (decide _); [intros [= <-]; lia|apply Hpos].
  - split; [done..|]. intros i k. by rewrite Hown, Ho1.
Qed.

Lemma get_new_blocks_too_many p l n :
  PoolInv p l -> Z.of_nat (length l) < n ->
  get_new_blocks use_int set_order n p = (Raise ValueError, p).
Proof.
  intros [_ Hr] Hn. unfold get_new_blocks, get_num_free_blocks. rewrite bind_gets, (ri_queue _ _ Hr).
  cbn [canon num_free_blocks]. unfold check. by destruct (Z.leb_spec n (Z.of_nat (length l))); [lia|].
Qed.

(** [list.count(i)] *)
Definition occ (i : nat) (bs : list nat) : Z := Z.of_nat (length (filter (fun x => x = i) bs)).

Lemma occ_cons i b bs : occ i (b :: bs) = (if decide (b = i) then 1 else 0) + occ i bs.
Proof. unfold occ. rewrite filter_cons. destruct (decide (b = i)); cbn [length]; lia. Qed.

Lemma occ_nonneg i bs : 0 <= occ i bs.
Proof. unfold occ. lia. Qed.

Lemma occ_pos i bs : i ∈ bs -> 1 <= occ i bs.
Proof.
  induction bs as [|b bs IH]; [by intros ?%elem_of_nil|]. rewrite occ_cons. pose proof (occ_nonneg i bs).
  intros [->|Hi]%elem_of_cons; [rewrite decide_True by done; lia|]. specialize (IH Hi). case_decide; lia.
Qed.

Lemma occ_zero i bs : i ∉ bs -> occ i bs = 0.
Proof.
  induction bs as [|b bs IH]; [done|]. rewrite not_elem_of_cons, occ_cons. intros [Hb Hi].
  rewrite decide_False by congruence. by rewrite IH.
Qed.

Definition valid_id (p : BlockPool) (i : nat) : Prop := (i < length (refs p))%nat.

(** The reference counts moved by [d i], everything else of interest kept. *)
Record refs_moved (d : nat -> Z) (p p' : BlockPool) : Prop := {
  rm_inv : CacheInv p';
  rm_cfg : same_cfg p p';
  rm_refs : forall i, refs p' !! i = (fun x => (x.1 + d i, x.2)) <$> refs p !! i;
  rm_owns : forall i k, owns p' i k <-> owns p i k;
}.

Lemma refs_moved_trans d1 d2 p1 p2 p3 :
  refs_moved d1 p1 p2 -> refs_moved d2 p2 p3 -> refs_moved (fun i => d1 i + d2 i) p1 p3.
Proof.
  intros [I1 C1 R1 O1] [I2 C2 R2 O2]. split; [done|by etransitivity| |].
  - intros i. rewrite R2, R1. destruct (refs p1 !! i) as [[n z]|]; [|done]. simpl. do 2 f_equal. lia.
  - intros i k. by rewrite O2, O1.
Qed.

Lemma refs_moved_ext d d' p p' : (forall i, d i = d' i) -> refs_moved d p p' -> refs_moved d' p p'.
Proof. intros Hd [I C R O]. split; [done..| |done]. intros i. rewrite R. by rewrite Hd. Qed.

Lemma refs_moved_refl p : CacheInv p -> refs_moved (fun _ => 0) p p.
Proof.
  intros H. split; [done..| |done]. intros i. destruct (refs p !! i) as [[n z]|]; [|done]. simpl.
  by rewrite Z.add_0_r.
Qed.

Lemma refs_moved_queue d p p' q : refs_moved d p p' -> refs_moved d p (set_queue q p').
Proof.
  intros [I C R O]. destruct (set_queue_inv q p' I) as [I' O'].
  split; [done|by destruct C; split|done|]. intros i k. by rewrite O', O.
Qed.

Lemma refs_moved_valid d p p' i : refs_moved d p p' -> valid_id p i -> valid_id p' i.
Proof.
  intros [_ _ R _] [x Hx]%lookup_lt_is_Some_2. apply lookup_lt_is_Some_1. rewrite R, Hx. by eexists.
Qed.

(** Writing [n + k] to the count of one block. *)
Lemma put_ref_moved p b blk k :
  CacheInv p -> p.(blocks) !! b = Some blk ->
  refs_moved (fun i => if decide (b = i) then k else 0) p
    (set_blocks (<[b := set_ref_cnt (ref_cnt blk + k) blk]> p.(blocks)) p).
Proof.
  intros Hinv Hb. destruct (set_ref_inv p b blk (ref_cnt blk + k) Hinv Hb) as (I & O & R & C & _).
  split; [done..| |done]. intros i. rewrite R. destruct (decide (b = i)) as [<-|Hne].
  - rewrite (refs_lookup _ _ _ Hb), list_lookup_insert_eq; [done|].
    by eapply lookup_lt_Some, refs_lookup.
  - rewrite list_lookup_insert_ne by done. destruct (refs p !! i) as [[n z]|]; [|done]. simpl.
    by rewrite Z.add_0_r.
Qed.

Lemma valid_block p i : valid_id p i -> exists blk, p.(blocks) !! i = Some blk.
Proof.
  intros [[n z] Hx]%lookup_lt_is_Some_2. apply refs_lookup_inv in Hx as (b & ? & _). by exists b.
Qed.

Lemma touch_one_spec p l b :
  PoolInv p l -> valid_id p b ->
  exists p', touch_one b p = (Ok tt, p')
    /\ refs_moved (fun i => if decide (b = i) then 1 else 0) p p'
    /\ PoolInv p' (filter (fun x => x <> b) l).
Proof.
  intros [Hc Hr] [blk Hb]%valid_block. pose proof Hr as [Hq Hnd Hfree Hpos Hnull Hzero Hlen].
  assert (Hin : b ∈ l <-> (ref_cnt blk = 0 /\ is_null blk = false)).
  { rewrite Hfree. unfold unreferenced. rewrite (refs_lookup _ _ _ Hb).
    split; [by intros [= -> ->]|by intros [-> ->]]. }
  set (q' := canon (filter (fun x => x <> b) l)).
  assert (Hstep : touch_one b p
            = (Ok tt, set_queue q' (set_blocks (<[b := set_ref_cnt (ref_cnt blk + 1) blk]> p.(blocks)) p))).
  { unfold touch_one. rewrite (bind_ok _ _ _ _ _ (get_block_eq p b blk Hb)).
    destruct (Z.eqb_spec (ref_cnt blk) 0) as [H0|H0], (is_null blk) eqn:Hn; cbn [andb negb].
    2:{ assert (Hbl : b ∈ l) by (by apply Hin). apply list_elem_of_split in Hbl as (l1 & l2 & Hl).
        assert (Hrem : on_queue (remove (Blk b)) p = (Ok tt, set_queue q' p)).
        { apply on_queue_ok. rewrite Hq. unfold q'. subst l.
          pose proof Hnd as (? & ? & _)%NoDup_middle. rewrite filter_ne_middle by done. by apply remove_canon. }
        by rewrite (bind_ok _ _ _ _ _ Hrem). }
    all: run_monad; unfold put_block, modify; do 2 f_equal; unfold set_queue, set_blocks; f_equal; simpl;
      rewrite Hq; unfold q'; f_equal; symmetry; apply filter_ne_notin;
      intros [? ?]%Hin; congruence. }
  eexists. split; [exact Hstep|].
  pose proof (refs_moved_queue _ _ _ q' (put_ref_moved p b blk 1 Hc Hb)) as Hmv. split; [done|].
  split; [by apply Hmv|]. apply (RefInv_update p _ l _ Hr); [by apply Hmv|done|by apply NoDup_filter|..].
  - intros i. rewrite elem_filter_ne, Hfree. unfold unreferenced. rewrite (rm_refs _ _ _ Hmv).
    destruct (refs p !! i) as [[n z]|] eqn:Hi; simpl; [|by split; [intros [? _]|]].
    destruct (decide (b = i)) as [<-|Hne].
    + split; [by intros [_ ?]|]. intros [= Hn ->]. specialize (Hpos _ _ Hi). lia.
    + rewrite Z.add_0_r. split; [by intros [? _]|]. intros ->. by split.
  - intros i. rewrite (rm_refs _ _ _ Hmv). by destruct (refs p !! i).
  - intros i n. rewrite (rm_refs _ _ _ Hmv). destruct (refs p !! i) as [[m z]|] eqn:Hi; [|done].
    intros [= <- ->]. specialize (Hpos _ _ Hi). simpl. case_decide; lia.
Qed.

Lemma touch_spec p l bs :
  PoolInv p l -> Forall (valid_id p) bs ->
  exists p', touch bs p = (Ok tt, p') /\ refs_moved (fun i => occ i bs) p p'
    /\ PoolInv p' (filter (fun x => x ∉ bs) l).
Proof.
  revert p l. induction bs as [|b bs IH]; intros p l Hinv Hv.
  { exists p. split_and!; [done|apply refs_moved_refl; apply Hinv|].
    rewrite filter_id; [done|]. intros x _. apply not_elem_of_nil. }
  apply Forall_cons in Hv as [Hb Hv]. unfold touch. cbn [for_each].
  destruct (touch_one_spec p l b Hinv Hb) as (p1 & Hrun & Hm & Hinv1).
  destruct (IH p1 _ Hinv1) as (p2 & Hrun2 & Hm2 & Hinv2).
  { eapply Forall_impl; [exact Hv|]. intros i. by eapply refs_moved_valid. }
  exists p2. rewrite (bind_ok _ _ _ _ _ Hrun). split_and!; [done| |].
  - eapply refs_moved_ext; [|exact (refs_moved_trans _ _ _ _ _ Hm Hm2)].
    intros i. by rewrite occ_cons.
  - rewrite list_filter_filter in Hinv2. erewrite list_filter_iff; [exact Hinv2|].
    intros x. rewrite not_elem_of_cons. tauto.
Qed.

(** The blocks whose last reference is dropped by [free_blocks], in that order. *)
Fixpoint freed (rs : list (Z * bool)) (bs : list nat) : list nat :=
  match bs with
  | [] => []
  | b :: bs' =>
      match rs !! b with
      | Some (n, z) => (if (n - 1 =? 0) && negb z then [b] else []) ++ freed (<[b := (n - 1, z)]> rs) bs'
      | None => freed rs bs'
      end
  end.

(** Never matched by the prefix cache again: reused first. *)
Definition uncached (p : BlockPool) (i : nat) : Prop :=
  hash_of p i = None \/ p.(enable_caching) = false.

#[local] Instance uncached_dec p i : Decision (uncached p i).
Proof. unfold uncached. apply _. Defined.

(** Dropping one reference of [b] and sorting it into the accumulators. *)
Definition freed_now (blk : KVCacheBlock) : bool := (ref_cnt blk - 1 =? 0) && negb (is_null blk).

Lemma free_step_queue p p1 l b blk acc acc1 :
  NoDup (acc.1 ++ l ++ acc.2) ->
  (forall i, i ∈ acc.1 ++ l ++ acc.2 <-> unreferenced (refs p) i) ->
  p.(blocks) !! b = Some blk -> (is_null blk = false -> 1 <= ref_cnt blk) ->
  refs p1 = <[b := (ref_cnt blk - 1, is_null blk)]> (refs p) ->
  acc1.1 ++ l ++ acc1.2 ≡ₚ (if freed_now blk then [b] else []) ++ acc.1 ++ l ++ acc.2 ->
  NoDup (acc1.1 ++ l ++ acc1.2)
  /\ forall i, i ∈ acc1.1 ++ l ++ acc1.2 <-> unreferenced (refs p1) i.
Proof.
  intros Hnd Hfree Hb Hpos Hr1 Hperm. pose proof (refs_lookup _ _ _ Hb) as Hrb.
  pose proof (lookup_lt_Some _ _ _ Hrb) as Hlt.
  assert (Hnb : b ∉ acc.1 ++ l ++ acc.2).
  { rewrite Hfree. unfold unreferenced. rewrite Hrb. intros [= H0 Hz]. specialize (Hpos Hz). lia. }
  unfold freed_now in Hperm. split.
  - rewrite Hperm. destruct (_ && _); [|done]. by apply NoDup_cons.
  - intros i. rewrite Hperm, elem_of_app, Hfree. unfold unreferenced at 2. rewrite Hr1.
    destruct (decide (b = i)) as [<-|Hne].
    + rewrite list_lookup_insert_eq by done. rewrite <- Hfree.
      destruct (Z.eqb_spec (ref_cnt blk - 1) 0) as [->|Hn], (is_null blk); simpl;
        rewrite ?elem_of_nil, ?list_elem_of_singleton; split; intros Hx; try done;
        try (by left); try (by destruct Hx as [?|?]).
      injection Hx as ?. done.
    + rewrite list_lookup_insert_ne by done. fold (unreferenced (refs p) i).
      split; [|by right]. intros [Hi|?]; [|done].
      destruct (_ && _); [apply list_elem_of_singleton in Hi; congruence|by apply elem_of_nil in Hi].
Qed.

Definition drop_ref (b : nat) (blk : KVCacheBlock) (p : BlockPool) : BlockPool :=
  set_blocks (<[b := set_ref_cnt (ref_cnt blk - 1) blk]> p.(blocks)) p.

Definition sort_freed (p : BlockPool) (F : list nat) (acc : list nat * list nat) : list nat * list nat :=
  (acc.1 ++ filter (uncached p) F, acc.2 ++ filter (fun i => ~ uncached p i) F).

Lemma sort_freed_app p F1 F2 acc : sort_freed p F2 (sort_freed p F1 acc) = sort_freed p (F1 ++ F2) acc.
Proof. unfold sort_freed. simpl. by rewrite !filter_app, !app_assoc. Qed.

Lemma sort_freed_perm p F acc l :
  (sort_freed p F acc).1 ++ l ++ (sort_freed p F acc).2 ≡ₚ F ++ acc.1 ++ l ++ acc.2.
Proof.
  unfold sort_freed. simpl.
  assert (HF : F ≡ₚ filter (uncached p) F ++ filter (fun i => ~ uncached p i) F).
  { clear. induction F as [|x F IH]; [done|]. rewrite !filter_cons.
    destruct (decide (uncached p x)), (decide (~ uncached p x)); try tauto; [by rewrite IH at 1|].
    rewrite IH at 1. apply Permutation_middle. }
  rewrite HF at 3. solve_Permutation.
Qed.

Lemma uncached_bool p b blk :
  p.(blocks) !! b = Some blk ->
  bool_decide (blk_hash blk = None) || negb (enable_caching p) = bool_decide (uncached p b).
Proof.
  intros Hb. apply Bool.eq_iff_eq_true.
  rewrite orb_true_iff, negb_true_iff, !bool_decide_eq_true. unfold uncached, hash_of. by rewrite Hb.
Qed.

Lemma free_loop_cons p b bs blk acc :
  p.(blocks) !! b = Some blk ->
  free_loop (b :: bs) acc p
  = free_loop bs (sort_freed p (if freed_now blk then [b] else []) acc) (drop_ref b blk p).
Proof.
  intros Hb. cbn [free_loop]. rewrite (bind_ok _ _ _ _ _ (get_block_eq p b blk Hb)).
  unfold put_block. run_monad. fold (freed_now blk). f_equal.
  change (enable_caching (set_blocks _ p)) with (enable_caching p).
  rewrite (uncached_bool p b blk Hb). unfold sort_freed.
  destruct (freed_now blk); [|destruct acc; simpl; by rewrite !app_nil_r].
  rewrite !filter_cons, !filter_nil. case_bool_decide; destruct (decide (uncached p b)),
    (decide (~ uncached p b)); try tauto; by rewrite ?app_nil_r.
Qed.

Lemma drop_ref_spec p b blk :
  CacheInv p -> p.(blocks) !! b = Some blk ->
  refs_moved (fun i => if decide (b = i) then -1 else 0) p (drop_ref b blk p)
  /\ refs (drop_ref b blk p) = <[b := (ref_cnt blk - 1, is_null blk)]> (refs p)
  /\ forall F acc, sort_freed (drop_ref b blk p) F acc = sort_freed p F acc.
Proof.
  intros Hinv Hb. split_and!; [by apply put_ref_moved|by apply set_ref_inv|].
  assert (Hun : forall i, uncached (drop_ref b blk p) i <-> uncached p i).
  { intros i. unfold uncached. change (enable_caching (drop_ref b blk p)) with (enable_caching p).
    rewrite (hash_of_insert p _ b (set_ref_cnt (ref_cnt blk - 1) blk)) by (done || by eapply lookup_lt_Some).
    destruct (decide (b = i)) as [<-|]; [|done]. unfold hash_of. by rewrite Hb. }
  intros F acc. unfold sort_freed. f_equal; f_equal; apply list_filter_iff; intros i; by rewrite Hun.
Qed.

Lemma free_loop_spec p l bs acc :
  CacheInv p -> NoDup (acc.1 ++ l ++ acc.2) ->
  (forall i, i ∈ acc.1 ++ l ++ acc.2 <-> unreferenced (refs p) i) ->
  (forall i n, refs p !! i = Some (n, false) -> occ i bs <= n) -> Forall (valid_id p) bs ->
  let acc' := sort_freed p (freed (refs p) bs) acc in
  exists p', free_loop bs acc p = (Ok acc', p')
    /\ refs_moved (fun i => - occ i bs) p p'
    /\ p'.(free_block_queue) = p.(free_block_queue)
    /\ NoDup (acc'.1 ++ l ++ acc'.2)
    /\ (forall i, i ∈ acc'.1 ++ l ++ acc'.2 <-> unreferenced (refs p') i).
Proof.
  revert p acc. induction bs as [|b bs IH]; intros p acc Hinv Hnd Hfree Hocc Hv.
  { destruct acc as [a1 a2]. unfold sort_freed. simpl in *. exists p. rewrite !app_nil_r.
    split_and!; [done|by apply refs_moved_refl|done..]. }
  apply Forall_cons in Hv as [Hb Hv]. pose proof (valid_block p b Hb) as [blk Hblk].
  pose proof (refs_lookup _ _ _ Hblk) as Hrb. cbn [freed]. rewrite Hrb, (free_loop_cons p b bs blk acc Hblk).
  destruct (drop_ref_spec p b blk Hinv Hblk) as (Hm & Hr1 & Hsort). set (p1 := drop_ref b blk p) in *.
  fold (freed_now blk). set (F0 := if freed_now blk then [b] else []). set (acc1 := sort_freed p F0 acc).
  destruct (free_step_queue p p1 l b blk acc acc1 Hnd Hfree Hblk) as [Hnd1 Hfree1]; [|done|..].
  { intros Hz. rewrite Hz in Hrb. specialize (Hocc _ _ Hrb). pose proof (occ_pos b (b :: bs) ltac:(by left)). lia. }
  { apply sort_freed_perm. }
  destruct (IH p1 acc1) as (p2 & Hrun & Hm2 & Hq2 & Hnd2 & Hfree2); try done.
  { by apply Hm. }
  { intros i n. rewrite (rm_refs _ _ _ Hm). destruct (refs p !! i) as [[m z]|] eqn:Hi; [|done].
    intros [= <- ->]. specialize (Hocc _ _ Hi). rewrite occ_cons in Hocc. simpl. case_decide; lia. }
  { eapply Forall_impl; [exact Hv|]. intros i. by eapply refs_moved_valid. }
  rewrite Hsort, Hr1 in *. unfold acc1 in *. rewrite sort_freed_app in *.
  exists p2. split_and!; [done| |done..].
  eapply refs_moved_ext; [|exact (refs_moved_trans _ _ _ _ _ Hm Hm2)].
  intros i. simpl. rewrite occ_cons. case_decide; lia.
Qed.

Lemma free_blocks_spec p l bs :
  PoolInv p l -> (forall i n, refs p !! i = Some (n, false) -> occ i bs <= n) ->
  Forall (valid_id p) bs ->
  let F := freed (refs p) bs in
  exists p', free_blocks bs p = (Ok tt, p') /\ refs_moved (fun i => - occ i bs) p p'
    /\ PoolInv p' (filter (uncached p) F ++ l ++ filter (fun i => ~ uncached p i) F).
Proof.
  intros [Hc Hr] Hocc Hv F.
  destruct (free_loop_spec p l bs ([], []) Hc) as (p1 & Hrun & Hm & Hq & Hnd & Hfree); simpl; try done.
  { rewrite app_nil_r. apply Hr. }
  { intros i. rewrite app_nil_r. apply Hr. }
  simpl in Hnd, Hfree. fold F in Hnd, Hfree, Hrun.
  set (F1 := filter (uncached p) F) in *. set (F2 := filter (fun i => ~ uncached p i) F) in *.
  unfold free_blocks. rewrite (bind_ok _ _ _ _ _ Hrun). cbn [fst snd sort_freed app].
  assert (H1 : on_queue (prepend_n (Blk <$> F1)) p1 = (Ok tt, set_queue (canon (F1 ++ l)) p1)).
  { apply on_queue_ok. rewrite Hq, (ri_queue _ _ Hr). apply prepend_n_canon.
    rewrite app_assoc in Hnd. by apply NoDup_app in Hnd as [? _]. }
  rewrite (bind_ok _ _ _ _ _ H1).
  assert (H2 : on_queue (append_n (Blk <$> F2)) (set_queue (canon (F1 ++ l)) p1)
               = (Ok tt, set_queue (canon (F1 ++ l ++ F2)) p1)).
  { rewrite (on_queue_ok _ _ tt (canon ((F1 ++ l) ++ F2))); [by rewrite <- app_assoc|].
    simpl. apply append_n_canon. by rewrite <- app_assoc. }
  eexists. split; [exact H2|].
  pose proof (refs_moved_queue _ _ _ (canon (F1 ++ l ++ F2)) Hm) as Hm'. split; [done|].
  split; [by apply Hm'|]. apply (RefInv_update p _ l _ Hr); [by apply Hm'|done..| |].
  - intros i. rewrite (rm_refs _ _ _ Hm'). by destruct (refs p !! i).
  - intros i n. rewrite (rm_refs _ _ _ Hm'). destruct (refs p !! i) as [[m z]|] eqn:Hi; [|done].
    intros [= <- ->]. specialize (Hocc _ _ Hi). simpl. lia.
Qed.

(** *** Caching full blocks *)

(** What has to be done for block [b] at position [i]: nothing ([None]) when it is
    skipped, else register the key, over a shorter partial entry if there is one. *)
Definition job (new_block_hashes : list bytes) (num_cached_blocks block_size group : Z)
    (mask : option (list bool)) (p : BlockPool) (i b : nat) (o : option bytes) : Prop :=
  exists blk, p.(blocks) !! b = Some blk /\
  match o with
  | None => skipped blk mask i = Ok true
  | Some key =>
      skipped blk mask i = Ok false
      /\ (exists h, new_block_hashes !! i = Some h /\ make_block_hash_with_group_id h group = Ok key)
      /\ (blk_hash blk = None
          \/ exists n, blk_hash_num_tokens blk = Some n
                /\ n < (num_cached_blocks + Z.of_nat i + 1) * block_size)
  end.

Lemma unhashed_owns_nothing p b blk k :
  CacheInv p -> p.(blocks) !! b = Some blk -> blk_hash blk = None -> ~ owns p b k.
Proof.
  intros Hinv Hb Hh [Ho|Ho]; unfold hash_of, aliases in Ho.
  - rewrite Hb in Ho. simpl in Ho. congruence.
  - destruct (cached_block_hashes_by_block p !! b) as [s|] eqn:Hs; [|by apply not_elem_of_empty in Ho].
    destruct (ci_alias p Hinv b s Hs) as (k' & Hk' & _). unfold hash_of in Hk'. rewrite Hb in Hk'.
    simpl in Hk'. congruence.
Qed.

Lemma not_null_of_not_skipped blk mask i : skipped blk mask i = Ok false -> is_null blk = false.
Proof. unfold skipped. by destruct (is_null blk). Qed.

(** Dropping the old keys of a block that has some, with events. *)
Lemma promote_spec p b blk h :
  CacheInv p -> p.(blocks) !! b = Some blk -> blk_hash blk = Some h ->
  exists p', (removed <- remove_cached_block_hashes set_order b ;;
              emit_block_removed_events use_int removed) p = (Ok tt, p')
    /\ hash_step b (fun j k => owns p j k /\ j <> b) p p'
    /\ p'.(blocks) !! b = Some (reset_hash blk).
Proof.
  intros Hinv Hb Hh.
  destruct (remove_spec p b blk Hinv Hb) as (hs & c' & Hrun & _ & _ & _ & Hwf & Hids).
  eexists. rewrite (bind_ok _ _ _ _ _ Hrun), emit_removed_spec. split_and!; [done| |].
  - apply hash_step_events. by apply forget_step.
  - simpl. apply list_lookup_insert_eq. by eapply lookup_lt_Some.
Qed.

Lemma cache_full_block_spec nbh nc bsz g mask p b i o :
  CacheInv p -> job nbh nc bsz g mask p i b o ->
  exists r p', cache_full_block use_int set_order b i nbh nc bsz g mask p = (Ok r, p')
    /\ match o with
       | None => r = None /\ p' = p
       | Some key => hash_step b (fun j k => (owns p j k /\ j <> b) \/ (j = b /\ k = key)) p p'
                     /\ r = Some (maybe_convert_block_hash use_int (get_block_hash key))
       end.
Proof.
  intros Hinv (blk & Hb & Hjob). unfold cache_full_block.
  rewrite (bind_ok _ _ _ _ _ (get_block_eq p b blk Hb)).
  destruct o as [key|]; [|exists None, p; by rewrite Hjob].
  destruct Hjob as (Hskip & (h & Hh & Hkey) & Hold). pose proof (not_null_of_not_skipped _ _ _ Hskip) as Hnn.
  rewrite Hskip, bind_lift, Hh, Hkey, bind_lift.
  apply make_key_split in Hkey as [Hbh _].
  destruct (blk_hash blk) as [h0|] eqn:Hh0.
  - destruct Hold as [?|(n & Hn & Hlt)]; [done|]. rewrite Hn.
    destruct (promote_spec p b blk h0 Hinv Hb Hh0) as (p1 & Hrun & [Hi1 Hr1 Ho1 Hb1] & Hblk1).
    destruct (insert_spec p1 b (reset_hash blk) key ((nc + Z.of_nat i + 1) * bsz) Hi1 Hblk1 Hnn)
      as (p2 & Hrun2 & [Hi2 Hr2 Ho2 Hb2] & _).
    exists (Some (maybe_convert_block_hash use_int h)), p2. destruct (Z.ltb_spec n ((nc + Z.of_nat i + 1) * bsz)); [|lia].
    unfold bind at 1. unfold check. rewrite bind_ret, Hrun. rewrite (bind_ok _ _ _ _ _ Hrun2).
    split_and!; [done| |by rewrite Hbh]. split; [done|by etransitivity| |].
    + intros j k. by rewrite Ho2, Ho1.
    + intros j Hj. by rewrite Hb2, Hb1.
  - run_monad. destruct (insert_spec p b blk key ((nc + Z.of_nat i + 1) * bsz) Hinv Hb Hnn)
      as (p2 & Hrun2 & [Hi2 Hr2 Ho2 Hb2] & _).
    exists (Some (maybe_convert_block_hash use_int h)), p2. rewrite (bind_ok _ _ _ _ _ Hrun2).
    split_and!; [done| |by rewrite Hbh]. split; [done..| |done].
    intros j k. rewrite Ho2. split; [|tauto]. intros [Ho|?]; [|by right].
    left. split; [done|]. intros ->. by apply (unhashed_owns_nothing p b blk k).
Qed.

Fixpoint jobs (nbh : list bytes) (nc bsz g : Z) (mask : option (list bool)) (p : BlockPool)
    (i : nat) (bs : list nat) (os : list (option bytes)) : Prop :=
  match bs, os with
  | [], [] => True
  | b :: bs', o :: os' => job nbh nc bsz g mask p i b o /\ jobs nbh nc bsz g mask p (S i) bs' os'
  | _, _ => False
  end.

(** The registrations a list of jobs asks for. *)
Fixpoint targets (bs : list nat) (os : list (option bytes)) : list (nat * bytes) :=
  match bs, os with
  | b :: bs', o :: os' =>
      match o with Some key => (b, key) :: targets bs' os' | None => targets bs' os' end
  | _, _ => []
  end.

Lemma jobs_frame nbh nc bsz g mask p p' i bs os b :
  (forall j, j <> b -> p'.(blocks) !! j = p.(blocks) !! j) -> refs p' = refs p ->
  b ∉ (targets bs os).*1 ->
  jobs nbh nc bsz g mask p i bs os -> jobs nbh nc bsz g mask p' i bs os.
Proof.
  intros Hb Hr Hnot. revert i os Hnot. induction bs as [|x bs IH]; intros i [|o os] Hnot; simpl; try done.
  intros [Hj Hjs]. split.
  - destruct Hj as (blk & Hx & Hj). destruct (decide (x = b)) as [->|Hne]; [|exists blk; by rewrite Hb].
    destruct o as [key|]; [destruct Hnot; simpl; by left|].
    pose proof (refs_lookup _ _ _ Hx) as Hrx. rewrite <- Hr in Hrx.
    apply refs_lookup_inv in Hrx as (blk' & Hx' & _ & Hnull). exists blk'. split; [done|].
    unfold skipped in *. by rewrite Hnull.
  - apply IH; [|done]. destruct o; simpl in Hnot; [|done]. by apply not_elem_of_cons in Hnot as [_ ?].
Qed.

Lemma cache_full_loop_spec nbh nc bsz g mask p i bs os :
  CacheInv p -> jobs nbh nc bsz g mask p i bs os -> NoDup (targets bs os).*1 ->
  exists p', cache_full_loop use_int set_order bs i nbh nc bsz g mask p
      = (Ok ((fun t => maybe_convert_block_hash use_int (get_block_hash t.2)) <$> targets bs os), p')
    /\ CacheInv p' /\ same_refs p p'
    /\ (forall b k, owns p' b k <-> (owns p b k /\ b ∉ (targets bs os).*1) \/ (b, k) ∈ targets bs os).
Proof.
  revert p i os. induction bs as [|b bs IH]; intros p i [|o os] Hinv Hjobs Hnd; simpl in Hjobs; try done.
  { exists p. split_and!; [done..|]. intros b k. simpl. rewrite !elem_of_nil. tauto. }
  destruct Hjobs as [Hj Hjs]. cbn [cache_full_loop].
  destruct (cache_full_block_spec nbh nc bsz g mask p b i o Hinv Hj) as (r & p1 & Hrun & Hr).
  rewrite (bind_ok _ _ _ _ _ Hrun). destruct o as [key|]; cbn [targets] in *.
  - apply NoDup_cons in Hnd as [Hnot Hnd]. simpl in Hnot. destruct Hr as [[Hi1 Hr1 Ho1 Hb1] ->].
    assert (Hjs1 : jobs nbh nc bsz g mask p1 (S i) bs os).
    { eapply jobs_frame; [exact Hb1|apply Hr1|done..]. }
    destruct (IH p1 (S i) os Hi1 Hjs1 Hnd) as (p2 & Hrun2 & Hi2 & Hr2 & Ho2).
    exists p2. rewrite (bind_ok _ _ _ _ _ Hrun2). split_and!; [done|done|by etransitivity|].
    intros x k. rewrite Ho2, Ho1. simpl. rewrite not_elem_of_cons, elem_of_cons.
    split.
    + intros [[[[? ?]|[-> ->]] ?]|?]; [left; tauto|right; by left|right; by right].
    + intros [[? [? ?]]|[[= -> ->]|?]]; [left; tauto|left; tauto|by right].
  - destruct Hr as [-> ->]. destruct (IH p (S i) os Hinv Hjs Hnd) as (p2 & Hrun2 & Hi2 & Hr2 & Ho2).
    exists p2. by rewrite (bind_ok _ _ _ _ _ Hrun2).
Qed.

(** *** Operations that only touch hashes, whatever their outcome

    [keeps view J m]: run from a state whose pool satisfies the cache invariant
    and whose reference counts satisfy [J], the computation leaves the counts and
    the queue alone and ends, returning or raising, in the invariant. *)

Definition keeps {S A : Type} (view : S -> BlockPool) (J : list (Z * bool) -> Prop) (m : M S A) : Prop :=
  forall s, CacheInv (view s) -> J (refs (view s)) ->
    CacheInv (view (m s).2) /\ same_refs (view s) (view (m s).2).

Lemma keeps_bind {S A B} view J (m : M S A) (k : A -> M S B) :
  keeps view J m -> (forall a, keeps view J (k a)) -> keeps view J (bind m k).
Proof.
  intros Hm Hk s Hc Hj. destruct (Hm s Hc Hj) as [Hc1 Hs1]. unfold bind.
  destruct (m s) as [[a|e] s1]; simpl in *; [|done].
  destruct (Hk a s1 Hc1) as [Hc2 Hs2]; [by rewrite (sr_refs _ _ Hs1)|].
  split; [done|by etransitivity].
Qed.

Lemma keeps_pure {S A} view J (m : M S A) : (forall s, view (m s).2 = view s) -> keeps view J m.
Proof. intros H s Hc _. by rewrite H. Qed.

Lemma keeps_ret {S A} view J (a : A) : keeps (S := S) view J (ret a).
Proof. by apply keeps_pure. Qed.

Lemma keeps_raise {S A} view J e : keeps (S := S) (A := A) view J (raise e).
Proof. by apply keeps_pure. Qed.

Lemma keeps_gets {S A} view J (f : S -> A) : keeps view J (gets f).
Proof. by apply keeps_pure. Qed.

Lemma keeps_lift {S A} view J (r : res A) : keeps (S := S) view J (lift r).
Proof. by apply keeps_pure. Qed.

Lemma keeps_check {S} view J b e : keeps (S := S) view J (check b e).
Proof. apply keeps_pure. by destruct b. Qed.

Lemma keeps_weaken {S A} view (J J' : list (Z * bool) -> Prop) (m : M S A) :
  keeps view J m -> (forall rs, J' rs -> J rs) -> keeps view J' m.
Proof. intros Hm HJ s Hc Hj. apply Hm; [done|by apply HJ]. Qed.

Lemma keeps_for_each {S A} view J (f : A -> M S unit) l :
  (forall x, keeps view J (f x)) -> keeps view J (for_each l f).
Proof.
  intros Hf. induction l as [|x l IH]; [apply keeps_ret|]. apply keeps_bind; [apply Hf|done].
Qed.

Lemma keeps_get_block J b : keeps id J (get_block b).
Proof.
  apply keeps_pure. intros p. unfold get_block. run_monad. by destruct (blocks p !! b).
Qed.

Lemma keeps_emit J e : keeps id J (emit e).
Proof. intros p Hc _. split; [by apply CacheInv_events|by split]. Qed.

Lemma keeps_emit_removed J hs : keeps id J (emit_block_removed_events use_int hs).
Proof.
  intros p Hc _. rewrite emit_removed_spec. split; [by apply CacheInv_events|by split].
Qed.

Lemma get_block_none p b : p.(blocks) !! b = None -> get_block b p = (Raise IndexError, p).
Proof. intros Hb. unfold get_block. run_monad. by rewrite Hb. Qed.

Lemma keeps_remove J b : keeps id J (remove_cached_block_hashes set_order b).
Proof.
  intros p Hc _. unfold id. destruct (blocks p !! b) as [blk|] eqn:Hb.
  - destruct (remove_spec p b blk Hc Hb) as (hs & c' & -> & _ & _ & _ & Hwf & Hids).
    destruct (forget_inv p b blk c' Hc Hb Hwf Hids) as (? & ? & _). done.
  - unfold remove_cached_block_hashes, bind. by rewrite get_block_none.
Qed.

(** The count list of a block that is not the null block. *)
Definition not_null_at (b : nat) (rs : list (Z * bool)) : Prop := forall n, rs !! b <> Some (n, true).

Lemma keeps_insert b key n : keeps id (not_null_at b) (insert_block_hash key b (Some n)).
Proof.
  intros p Hc Hj. unfold id in *. destruct (blocks p !! b) as [blk|] eqn:Hb.
  - destruct (insert_spec p b blk key n Hc Hb) as (p' & -> & [? ? _ _] & _); [|done].
    pose proof (refs_lookup _ _ _ Hb) as Hr. destruct (is_null blk); [|done]. by destruct (Hj (ref_cnt blk)).
  - unfold insert_block_hash, bind. by rewrite get_block_none.
Qed.

Lemma keeps_on_pool {A} J (m : poolM A) : keeps id J m -> keeps fst J (on_pool m).
Proof.
  intros Hm [p r] Hc Hj. specialize (Hm p Hc Hj). unfold on_pool, zoom. simpl in *. by destruct (m p).
Qed.

Lemma keeps_on_request {A} J (m : requestM A) : keeps fst J (on_request m).
Proof. apply keeps_pure. intros [p r]. unfold on_request, zoom. simpl. by destruct (m r). Qed.

Create HintDb keeps.
#[local] Hint Resolve keeps_ret keeps_raise keeps_gets keeps_lift keeps_check keeps_get_block
  keeps_emit keeps_emit_removed keeps_remove keeps_insert keeps_on_request : keeps.
#[local] Hint Resolve keeps_on_pool : keeps.

(** Splits a computation along its binds and tests and closes the steps by hint. *)
Ltac keep :=
  repeat match goal with
  | |- keeps _ _ (bind _ _) => apply keeps_bind; [auto with keeps | intros ?]
  | |- keeps _ _ (match ?x with _ => _ end) => destruct x
  | |- keeps _ _ _ => solve [auto with keeps]
  end.

Lemma keeps_evict J b : keeps id J (maybe_evict_cached_block use_int set_order b).
Proof. unfold maybe_evict_cached_block. keep. Qed.

#[local] Hint Resolve keeps_evict : keeps.

Lemma keeps_cache_full_block b i nbh nc bsz g mask :
  keeps id (fun _ => True) (cache_full_block use_int set_order b i nbh nc bsz g mask).
Proof.
  intros p Hc _. unfold cache_full_block, id.
  destruct (blocks p !! b) as [blk|] eqn:Hb; [|unfold bind; by rewrite get_block_none].
  rewrite (bind_ok _ _ _ _ _ (get_block_eq p b blk Hb)).
  destruct (skipped blk mask i) as [[|]|e] eqn:Hs; [done| |done]. run_monad.
  apply not_null_of_not_skipped in Hs.
  match goal with |- CacheInv (?m p).2 /\ _ => assert (Hk : keeps id (not_null_at b) m) end.
  { keep. }
  apply Hk; [done|]. intros n. unfold id. rewrite (refs_lookup _ _ _ Hb). congruence.
Qed.

#[local] Hint Resolve keeps_cache_full_block : keeps.

Lemma keeps_cache_full_loop bs i nbh nc bsz g mask :
  keeps id (fun _ => True) (cache_full_loop use_int set_order bs i nbh nc bsz g mask).
Proof.
  revert i. induction bs as [|b bs IH]; intros i; cbn [cache_full_loop]; [auto with keeps|].
  apply keeps_bind; [auto with keeps|]. intros h. apply keeps_bind; [apply IH|]. intros hs. keep.
Qed.

#[local] Hint Resolve keeps_cache_full_loop : keeps.

Lemma keeps_evict_blocks ids : keeps id (fun _ => True) (evict_blocks use_int set_order ids).
Proof. apply keeps_for_each. intros i. keep. Qed.

Lemma insert_all_spec p b hs n :
  CacheInv p -> valid_id p b -> not_null_at b (refs p) ->
  exists p', for_each hs (fun h => insert_block_hash h b (Some n)) p = (Ok tt, p')
    /\ CacheInv p' /\ same_refs p p' /\ p'.(kv_event_queue) = p.(kv_event_queue)
    /\ forall i k, owns p' i k <-> owns p i k \/ (i = b /\ k ∈ hs).
Proof.
  revert p. induction hs as [|h hs IH]; intros p Hc Hv Hn.
  { exists p. split_and!; [done..|]. intros i k. rewrite elem_of_nil. tauto. }
  destruct (valid_block p b Hv) as [blk Hb].
  destruct (insert_spec p b blk h n Hc Hb) as (p1 & Hrun & [Hc1 Hs1 Ho1 _] & He1).
  { pose proof (refs_lookup _ _ _ Hb) as Hr. destruct (is_null blk); [|done]. by destruct (Hn (ref_cnt blk)). }
  destruct (IH p1 Hc1) as (p2 & Hrun2 & Hc2 & Hs2 & He2 & Ho2).
  { unfold valid_id. by rewrite (sr_refs _ _ Hs1). }
  { by rewrite (sr_refs _ _ Hs1). }
  exists p2. cbn [for_each]. rewrite (bind_ok _ _ _ _ _ Hrun). split_and!; [done|done|by etransitivity|congruence|].
  intros i k. rewrite Ho2, Ho1, elem_of_cons. tauto.
Qed.

Lemma move_block_hashes_spec p src dst bd :
  CacheInv p -> valid_id p src -> p.(blocks) !! dst = Some bd -> is_null bd = false -> blk_hash bd = None ->
  exists p', move_block_hashes set_order src dst p = (Ok tt, p')
    /\ CacheInv p' /\ same_refs p p'
    /\ p'.(kv_event_queue) = p.(kv_event_queue)
    /\ forall i k, owns p' i k <-> (owns p i k /\ i <> src) \/ (i = dst /\ owns p src k).
Proof.
  intros Hc Hv Hd Hn Hh. destruct (valid_block p src Hv) as [bs Hs].
  assert (Hnone : p.(cached_block_hashes_by_block) !! dst = None).
  { destruct (cached_block_hashes_by_block p !! dst) as [s|] eqn:Hx; [|done].
    destruct (ci_alias p Hc dst s Hx) as (k & Hk & _). unfold hash_of in Hk. rewrite Hd in Hk. simpl in Hk. congruence. }
  destruct (remove_spec p src bs Hc Hs) as (hs & c' & Hrun & Hown & _ & Hhd & Hwf & Hids).
  destruct (forget_inv p src bs c' Hc Hs Hwf Hids) as (Hc1 & Hs1 & Ho1).
  unfold move_block_hashes.
  rewrite (bind_ok _ _ _ _ _ (get_block_eq p src bs Hs)), (bind_ok _ _ _ _ _ (get_block_eq p dst bd Hd)).
  rewrite Hh, bool_decide_eq_true_2 by done. unfold check at 1. rewrite bind_ret, bind_gets, Hnone.
  rewrite bool_decide_eq_true_2 by done. unfold check at 1. rewrite bind_ret, (bind_ok _ _ _ _ _ Hrun).
  destruct (blk_hash bs) as [h|] eqn:Hbs.
  - destruct (blk_hash_num_tokens bs) as [n|] eqn:Hnt; [|apply (ci_tokens p Hc src bs Hs) in Hnt; congruence].
    destruct (insert_all_spec (forget src bs c' p) dst hs n Hc1) as (p2 & Hrun2 & Hc2 & Hs2 & He2 & Ho2).
    { unfold valid_id. rewrite (sr_refs _ _ Hs1). by eapply lookup_lt_Some, refs_lookup. }
    { rewrite (sr_refs _ _ Hs1). intros m. rewrite (refs_lookup _ _ _ Hd). congruence. }
    exists p2. split_and!; [done|done|by etransitivity|by rewrite He2|].
    intros i k. by rewrite Ho2, Ho1, Hown.
  - subst hs. eexists. split_and!; [done..|]. intros i k. rewrite Ho1. split; [tauto|].
    intros [?|[_ Ho]]; [done|]. by apply (unhashed_owns_nothing p src bs k) in Ho.
Qed.

(** *** Reset, lookup and construction *)

(** All blocks but the null block are free exactly when none is referenced. *)
Lemma RefInv_count p l :
  RefInv p l ->
  (p.(num_gpu_blocks) - Z.of_nat (length l) = 1 <->
   forall i n, refs p !! i = Some (n, false) -> n = 0).
Proof.
  intros [Hq Hnd Hfree Hpos Hnull [n0 H0] Hlen].
  pose proof (lookup_lt_Some _ _ _ H0) as Hlt.
  set (all := seq 1 (length (refs p) - 1)).
  assert (Hall : forall i, i ∈ all <-> exists n, refs p !! i = Some (n, false)).
  { intros i. unfold all. rewrite elem_of_seq. split.
    - intros Hi. destruct (lookup_lt_is_Some_2 (refs p) i ltac:(lia)) as [[n [|]] Hx]; [|by eauto].
      apply Hnull in Hx. lia.
    - intros [n Hx]. pose proof (lookup_lt_Some _ _ _ Hx). destruct i; [congruence|lia]. }
  assert (Hsub : l ⊆+ all).
  { apply NoDup_submseteq; [done|]. intros i. rewrite Hall, Hfree. unfold unreferenced. eauto. }
  assert (Hla : length all = (length (refs p) - 1)%nat) by (unfold all; by rewrite length_seq).
  split.
  - intros Hc i n Hi. assert (Hp : l ≡ₚ all) by (apply submseteq_length_Permutation; [done|lia]).
    assert (Hin : i ∈ l) by (rewrite Hp, Hall; eauto). apply Hfree in Hin. unfold unreferenced in Hin. congruence.
  - intros Hz. assert (Hp : all ⊆+ l).
    { apply NoDup_submseteq; [apply NoDup_seq|]. intros i [n Hn]%Hall. apply Hfree.
      by rewrite (Hz _ _ Hn) in Hn. }
    apply submseteq_length in Hp, Hsub. lia.
Qed.

Lemma reset_hash_refs p : refs (set_blocks (reset_hash <$> p.(blocks)) p) = refs p.
Proof. unfold refs. simpl. rewrite <- list_fmap_compose. done. Qed.

Lemma reset_prefix_cache_spec p l :
  PoolInv p l ->
  exists p', reset_prefix_cache p = (Ok (bool_decide (p.(num_gpu_blocks) - Z.of_nat (length l) = 1)), p')
    /\ PoolInv p' l
    /\ (if decide (p.(num_gpu_blocks) - Z.of_nat (length l) = 1) then forall i k, ~ owns p' i k
        else p' = p).
Proof.
  intros [Hc Hr]. unfold reset_prefix_cache, get_num_free_blocks. rewrite !bind_gets, (ri_queue _ _ Hr).
  cbn [canon num_free_blocks].
  destruct (Z.eqb_spec (num_gpu_blocks p - Z.of_nat (length l)) 1) as [He|He]; cbn [negb].
  2:{ exists p. rewrite bool_decide_eq_false_2 by done. by rewrite decide_False. }
  rewrite bool_decide_eq_true_2 by done. destruct (decide _); [|done]. run_monad.
  set (p1 := set_blocks _ _). change (enable_kv_cache_events p1) with (enable_kv_cache_events p).
  assert (Hh : forall i, hash_of p1 i = None).
  { intros i. unfold hash_of. simpl. rewrite list_lookup_fmap. by destruct (blocks p !! i). }
  assert (Ho : forall i k, ~ owns p1 i k).
  { intros i k [Hx|Hx]; [by rewrite Hh in Hx|by apply not_elem_of_empty in Hx]. }
  assert (Hc1 : CacheInv p1).
  { split.
    - intros key i. unfold cache_ids. simpl. rewrite elem_of_nil. split; [done|]. intros H. by apply (Ho i key).
    - intros key bs H. done.
    - intros i s H. done.
    - intros i b. simpl. rewrite list_lookup_fmap. destruct (blocks p !! i); [|done]. by intros [= <-].
    - intros i b. simpl. rewrite list_lookup_fmap. destruct (blocks p !! i); [|done]. by intros [= <-]. }
  assert (Hs1 : same_refs p p1) by (split; try done; exact (reset_hash_refs p)).
  pose proof (RefInv_same _ _ _ Hs1 Hr) as Hr1.
  destruct (enable_kv_cache_events p).
  - unfold emit. run_monad. eexists. split_and!; [done| |done].
    split; [by apply CacheInv_events|]. eapply RefInv_same; [|exact Hr1]. by split.
  - run_monad. by exists p1.
Qed.

(** A lookup is sound and complete: it returns an owner for every group, or misses
    because some group has none. *)
Lemma get_one_block_spec p key :
  CacheInv p ->
  exists o, get_one_block p.(cached_block_hash_to_block) key = Ok o
    /\ match o with Some b => owns p b key | None => forall b, ~ owns p b key end.
Proof.
  intros Hc. pose proof (ci_ids p Hc key) as Hids. unfold get_one_block, cache_ids in *.
  destruct (_ !! key) as [[b|bs]|] eqn:Hk.
  - exists (Some b). split; [done|]. apply Hids. by left.
  - destruct (ci_wf p Hc _ _ Hk) as [Hne _]. destruct bs as [|b bs]; [done|].
    exists (Some b). split; [done|]. apply Hids. by left.
  - exists None. split; [done|]. intros b Ho. apply Hids in Ho. by apply elem_of_nil in Ho.
Qed.

Lemma get_cached_block_loop_spec p h gs acc :
  CacheInv p -> Forall (fun g => 0 <= g < 2 ^ 32) gs ->
  exists o, get_cached_block_loop h gs acc p = (Ok o, p)
    /\ match o with
       | Some bs => exists bs', bs = acc ++ bs'
           /\ Forall2 (fun g b => exists key, make_block_hash_with_group_id h g = Ok key /\ owns p b key) gs bs'
       | None => exists g key, g ∈ gs /\ make_block_hash_with_group_id h g = Ok key
                   /\ forall b, ~ owns p b key
       end.
Proof.
  intros Hc. revert acc. induction gs as [|g gs IH]; intros acc Hg.
  { exists (Some acc). split; [done|]. exists []. by rewrite app_nil_r. }
  apply Forall_cons in Hg as [Hg Hgs]. cbn [get_cached_block_loop].
  destruct (make_key_ok h g Hg) as [key Hkey]. rewrite Hkey, bind_lift, bind_gets.
  destruct (get_one_block_spec p key Hc) as (o & -> & Ho). run_monad. destruct o as [b|].
  - destruct (IH (acc ++ [b]) Hgs) as (o & -> & Hspec). exists o. split; [done|]. destruct o as [bs|].
    + destruct Hspec as (bs' & -> & H2). exists (b :: bs'). rewrite <- app_assoc. split; [done|].
      constructor; eauto.
    + destruct Hspec as (g' & key' & ? & ? & ?). exists g', key'. split_and!; [by right|done..].
  - exists None. split; [done|]. exists g, key. split_and!; [by left|done..].
Qed.

Lemma new_pool_spec n caching hbs events :
  0 < n ->
  exists p, new_pool n caching hbs events = (Ok tt, p)
    /\ PoolInv p (seq 1 (Z.to_nat n - 1)) /\ (forall i k, ~ owns p i k)
    /\ p.(enable_caching) = caching /\ p.(num_gpu_blocks) = n.
Proof.
  intros Hn. unfold new_pool. destruct (Z.ltb_spec 0 n); [|lia]. unfold check. run_monad.
  destruct (Z.to_nat n) as [|m] eqn:Hm; [lia|]. replace (S m - 1)%nat with m by lia.
  set (p0 := mkPool _ _ _ _ _ _ _ _ _).
  assert (Hinit : on_queue (queue_init (seq 0 (S m))) p0 = (Ok tt, set_queue (canon (seq 0 (S m))) p0)).
  { apply on_queue_ok. pose proof (new_queue_canon (seq 0 (S m)) (NoDup_seq _ _)) as H0.
    unfold new_queue in H0. rewrite length_seq in H0. simpl free_block_queue.
    by replace n with (Z.of_nat (S m)) by lia. }
  rewrite (bind_ok _ _ _ _ _ Hinit).
  assert (Hpop : on_queue popleft (set_queue (canon (seq 0 (S m))) p0)
                 = (Ok (Blk 0), set_queue (canon (seq 1 m)) p0)).
  { rewrite (on_queue_ok _ _ (Blk 0) (canon (seq 1 m))); [done|]. simpl. apply popleft_canon. apply (NoDup_seq 0 (S m)). }
  rewrite (bind_ok _ _ _ _ _ Hpop). eexists. split; [reflexivity|]. set (p := set_blocks _ _).
  assert (Hblk : blocks p = mkBlock 0 None None true :: replicate m fresh_block) by done.
  assert (Hrefs : refs p = (0, true) :: replicate m (0, false)).
  { unfold refs. rewrite Hblk, fmap_cons, fmap_replicate. done. }
  assert (Hb : forall i b, blocks p !! i = Some b -> blk_hash b = None /\ blk_hash_num_tokens b = None).
  { intros [|i] b; rewrite Hblk; simpl; [by intros [= <-]|]. intros [-> _]%lookup_replicate. done. }
  assert (Hno : forall i k, ~ owns p i k).
  { intros i k [Hx|Hx]; [|by apply not_elem_of_empty in Hx]. unfold hash_of in Hx.
    destruct (blocks p !! i) as [b|] eqn:Hi; [|done]. simpl in Hx. by rewrite (proj1 (Hb _ _ Hi)) in Hx. }
  split_and!; [split; split|done..].
  - intros key i. unfold cache_ids. simpl. rewrite elem_of_nil. split; [done|]. intros H'. by apply (Hno i key).
  - intros key bs Hx. done.
  - intros i s Hx. done.
  - intros i b Hi _. by apply (Hb i).
  - intros i b Hi. destruct (Hb i b Hi) as [-> ->]. done.
  - done.
  - apply NoDup_seq.
  - intros i. unfold unreferenced. rewrite Hrefs, elem_of_seq. destruct i as [|i]; simpl; [split; [lia|done]|].
    rewrite lookup_replicate. split; [intros ?; split; [done|lia]|intros [_ ?]; lia].
  - intros i z. rewrite Hrefs. destruct i as [|i]; simpl; [done|]. intros [[= ->] _]%lookup_replicate. done.
  - intros i z. rewrite Hrefs. destruct i as [|i]; simpl; [done|]. by intros [? _]%lookup_replicate.
  - exists 0. by rewrite Hrefs.
  - rewrite Hrefs. simpl. rewrite length_replicate. lia.
Qed.
(** *** Operations on the blocks of a request *)

(** The digest function of the embedding keys. *)
Context (sha256 : bytes -> bytes).

Lemma keeps_extra_keys_loop bs i nc bsz c mask :
  keeps fst (fun _ => True) (extra_keys_loop sha256 bs i nc bsz c mask).
Proof.
  revert i c. induction bs as [|b bs IH]; intros i c; cbn [extra_keys_loop]; [auto with keeps|].
  apply keeps_bind; [auto with keeps|]. intros blk. apply keeps_bind; [auto with keeps|]. intros [|]; [apply IH|].
  apply keeps_bind; [auto with keeps|]. intros [keys mm]. apply keeps_bind; [apply IH|]. intros ?. keep.
Qed.

#[local] Hint Resolve keeps_extra_keys_loop : keeps.

Lemma keeps_cache_full_blocks bs nc nf bsz g mask :
  keeps fst (fun _ => True) (cache_full_blocks sha256 use_int set_order bs nc nf bsz g mask).
Proof. unfold cache_full_blocks. keep. Qed.

Lemma keeps_cached_events_loop k i view bsz c :
  keeps fst (fun _ => True) (cached_events_loop sha256 use_int k i view bsz c).
Proof.
  revert i c. induction k as [|k IH]; intros i c; cbn [cached_events_loop]; [auto with keeps|].
  apply keeps_bind; [auto with keeps|]. intros h. apply keeps_bind; [auto with keeps|]. intros [keys mm].
  apply keeps_bind; [apply IH|]. intros ?. keep.
Qed.

#[local] Hint Resolve keeps_cached_events_loop : keeps.

Lemma keeps_emit_cached_block_events nc bsz g :
  keeps fst (fun _ => True) (emit_cached_block_events sha256 use_int nc bsz g).
Proof. unfold emit_cached_block_events. keep. Qed.

Lemma keeps_cache_partial_block b nt g bsz :
  keeps fst (fun _ => True) (cache_partial_block sha256 use_int set_order b nt g bsz).
Proof.
  intros [p r] Hc _. simpl in Hc. unfold cache_partial_block.
  destruct (blocks p !! b) as [blk|] eqn:Hb.
  2:{ assert (Hg : on_pool (get_block b) (p, r) = (Raise IndexError, (p, r))).
      { unfold on_pool, zoom. simpl. by rewrite get_block_none. }
      by rewrite (bind_raise _ _ _ _ _ Hg). }
  assert (Hg : on_pool (get_block b) (p, r) = (Ok blk, (p, r))).
  { unfold on_pool, zoom. simpl. by rewrite (get_block_eq p b blk Hb). }
  rewrite (bind_ok _ _ _ _ _ Hg). destruct (is_null blk) eqn:Hn; [done|].
  match goal with |- CacheInv (?m (p, r)).2.1 /\ _ => assert (Hk : keeps fst (not_null_at b) m) end.
  { keep. }
  apply Hk; [done|]. intros n. simpl. rewrite (refs_lookup _ _ _ Hb). congruence.
Qed.
End pool_proofs.
