(* ===== verification/BlockPoolProps.v ===== *)
(** * What the block pool guarantees

    The pool as a state machine: its operations with the obligations of their
    callers, the states reachable from a new pool, and the theorems about them:
    the invariant, allocation, protection of referenced blocks, the order in which
    freed blocks are reused, registration and lookup of prefix-cache keys. *)

From S2P Require Import Prelude FreeQueue BlockHash BlockPool.

Inductive pool_op :=
  | GetNewBlocks (num_blocks : Z)
  | Touch (bs : list nat)
  | FreeBlocks (bs : list nat)
  | CacheFullBlocks (r : Request) (bs : list nat) (num_cached num_full block_size group : Z)
      (mask : option (list bool))
  | CachePartialBlock (r : Request) (b : nat) (num_tokens group block_size : Z)
  | EmitCachedBlockEvents (r : Request) (num_cached block_size group : Z)
  | MoveBlockHashes (src dst : nat)
  | EvictBlocks (ids : list nat)
  | ResetPrefixCache
  | TakeEvents
  | GetCachedBlock (h : bytes) (groups : list Z).

(** The obligations of the callers: counts are not negative, ids name blocks, a
    reference is dropped only by a holder, hashes are not moved to the null block. *)
Definition op_allowed (p : BlockPool) (op : pool_op) : Prop :=
  match op with
  | GetNewBlocks n => 0 <= n
  | Touch bs => Forall (valid_id p) bs
  | FreeBlocks bs => Forall (valid_id p) bs
                     /\ forall i n, refs p !! i = Some (n, false) -> occ i bs <= n
  | MoveBlockHashes src dst => valid_id p src /\ valid_id p dst /\ not_null_at dst (refs p)
  | _ => True
  end.

Section pool_machine.
Context (sha256 : bytes -> bytes) (use_int : bool) (set_order : gset bytes -> list bytes).

(** Runs an operation on the pool and drops its result. *)
Definition for_request {A : Type} (m : M (BlockPool * Request) A) (r : Request) : poolM unit :=
  fun p => let '(res, s) := m (p, r) in
           (match res with Ok _ => Ok tt | Raise e => Raise e end, s.1).

Definition run_pool_op (op : pool_op) : poolM unit :=
  match op with
  | GetNewBlocks n => get_new_blocks use_int set_order n ;; ret tt
  | Touch bs => touch bs
  | FreeBlocks bs => free_blocks bs
  | CacheFullBlocks r bs nc nf bsz g mask =>
      for_request (cache_full_blocks sha256 use_int set_order bs nc nf bsz g mask) r
  | CachePartialBlock r b nt g bsz => for_request (cache_partial_block sha256 use_int set_order b nt g bsz) r
  | EmitCachedBlockEvents r nc bsz g => for_request (emit_cached_block_events sha256 use_int nc bsz g) r
  | MoveBlockHashes src dst => move_block_hashes set_order src dst
  | EvictBlocks ids => evict_blocks use_int set_order ids
  | ResetPrefixCache => reset_prefix_cache ;; ret tt
  | TakeEvents => take_events ;; ret tt
  | GetCachedBlock h gs => get_cached_block h gs ;; ret tt
  end.

(** One step: an allowed operation, whether it returns or raises. *)
Inductive pool_step (p : BlockPool) : BlockPool -> Prop :=
  | pool_step_op op r p' : op_allowed p op -> run_pool_op op p = (r, p') -> pool_step p p'.

Context (set_order_perm : forall s, set_order s ≡ₚ elements s).

Lemma keeps_pool_inv {A} (m : poolM A) p l :
  keeps id (fun _ => True) m -> PoolInv p l -> PoolInv (m p).2 l.
Proof.
  intros Hk [Hc Hr]. destruct (Hk p Hc I) as [Hc' Hs]. split; [done|]. by eapply RefInv_same.
Qed.

Lemma keeps_for_request {A} (m : M (BlockPool * Request) A) r :
  keeps fst (fun _ => True) m -> keeps id (fun _ => True) (for_request m r).
Proof.
  intros Hk p Hc _. specialize (Hk (p, r) Hc I). unfold for_request, id.
  by destruct (m (p, r)) as [[a|e] s].
Qed.

Lemma bind_state {A B} (m : poolM A) (k : A -> poolM B) p :
  (forall a p', (k a p').2 = p') -> (bind m k p).2 = (m p).2.
Proof. intros Hk. unfold bind. destruct (m p) as [[a|e] p']; [by rewrite Hk|done]. Qed.

Lemma keeps_lookup h gs : keeps id (fun _ => True) (get_cached_block h gs).
Proof.
  apply keeps_pure. intros p. unfold get_cached_block. generalize (@nil nat) as acc.
  induction gs as [|g gs IH]; intros acc; cbn [get_cached_block_loop]; [done|].
  destruct (make_block_hash_with_group_id h g) as [key|e]; [|done]. run_monad.
  destruct (get_one_block _ key) as [[b|]|e]; [|done..]. run_monad. apply IH.
Qed.

Lemma move_keeps p src dst :
  CacheInv p -> valid_id p src -> valid_id p dst -> not_null_at dst (refs p) ->
  CacheInv (move_block_hashes set_order src dst p).2
  /\ same_refs p (move_block_hashes set_order src dst p).2.
Proof.
  intros Hc Hs Hd Hn. destruct (valid_block p dst Hd) as [bd Hbd].
  destruct (valid_block p src Hs) as [bs Hbs].
  destruct (blk_hash bd) as [h|] eqn:Hh.
  - unfold move_block_hashes.
    rewrite (bind_ok _ _ _ _ _ (get_block_eq p src bs Hbs)), (bind_ok _ _ _ _ _ (get_block_eq p dst bd Hbd)).
    rewrite Hh. by rewrite bool_decide_eq_false_2.
  - destruct (move_block_hashes_spec set_order set_order_perm p src dst bd) as (p' & -> & ? & ? & _); try done.
    pose proof (refs_lookup _ _ _ Hbd) as Hr. destruct (is_null bd); [|done]. by destruct (Hn (ref_cnt bd)).
Qed.

Lemma pool_step_inv p p' l : PoolInv p l -> pool_step p p' -> exists l', PoolInv p' l'.
Proof.
  intros Hinv [op r p1 Hok Hrun]. assert (p1 = (run_pool_op op p).2) as -> by (by rewrite Hrun). clear Hrun.
  destruct op as [n|bs|bs|rq bs nc nf bsz g mask|rq b nt g bsz|rq nc bsz g|src dst|ids| | |h gs];
    cbn [run_pool_op op_allowed] in *.
  - rewrite bind_state by done. destruct (Z.leb_spec n (Z.of_nat (length l))) as [Hle|Hgt].
    + rewrite <- (take_drop (Z.to_nat n) l) in Hinv.
      destruct (get_new_blocks_ok use_int set_order set_order_perm p _ _ Hinv) as (p1 & Hrun & Hinv' & _).
      rewrite length_take_le, Z2Nat.id in Hrun by lia. rewrite Hrun. eauto.
    + rewrite (get_new_blocks_too_many use_int set_order p l n) by done. eauto.
  - destruct (touch_spec p l bs Hinv Hok) as (p1 & -> & _ & ?). eauto.
  - destruct Hok as [Hv Hocc]. destruct (free_blocks_spec p l bs Hinv Hocc Hv) as (p1 & -> & _ & ?). eauto.
  - exists l. apply keeps_pool_inv; [|done]. by apply keeps_for_request, keeps_cache_full_blocks.
  - exists l. apply keeps_pool_inv; [|done]. by apply keeps_for_request, keeps_cache_partial_block.
  - exists l. apply keeps_pool_inv; [|done]. by apply keeps_for_request, keeps_emit_cached_block_events.
  - destruct Hok as (? & ? & ?), Hinv as [Hc Hr]. destruct (move_keeps p src dst) as [? ?]; try done.
    exists l. split; [done|]. by eapply RefInv_same.
  - exists l. apply keeps_pool_inv; [|done]. by apply keeps_evict_blocks.
  - rewrite bind_state by done. destruct (reset_prefix_cache_spec p l Hinv) as (p1 & -> & ? & _). eauto.
  - rewrite bind_state by done. exists l. unfold take_events. run_monad.
    destruct (negb _); [done|]. run_monad. destruct Hinv as [Hc Hr].
    split; [by apply CacheInv_events|]. eapply RefInv_same; [|done]. by split.
  - rewrite bind_state by done. exists l. apply keeps_pool_inv; [|done]. apply keeps_lookup.
Qed.

(** C15: The pool's invariant holds in every reachable state.  From a new pool,
    through any sequence of allowed operations, returning or raising: the linked
    free queue is intact and holds exactly the blocks without references (never
    the null block, which stays block 0), no count is negative, and the prefix
    cache maps a key to a block exactly when the block records that key, each
    entry being non-empty and duplicate-free and the null block unhashed. *)
Theorem pool_reachable_inv (n : Z) (caching : bool) (hbs : Z) (events : bool) (p0 p : BlockPool) :
  new_pool n caching hbs events = (Ok tt, p0) -> rtc pool_step p0 p ->
  exists l, PoolInv p l.
Proof.
  intros Hnew Hsteps.
  assert (Hn : 0 < n).
  { unfold new_pool, check in Hnew. by destruct (Z.ltb_spec 0 n). }
  destruct (new_pool_spec n caching hbs events Hn) as (p1 & Hp1 & Hinv & _).
  rewrite Hnew in Hp1. injection Hp1 as <-.
  assert (Hex : exists l, PoolInv p0 l) by eauto. clear Hinv Hnew.
  induction Hsteps as [|p1 p2 p3 Hstep _ IH]; [done|]. destruct Hex as [l Hl].
  apply IH. by eapply pool_step_inv.
Qed.

End pool_machine.

Section pool_contracts.
Context (use_int : bool) (set_order : gset bytes -> list bytes).
Context (set_order_perm : forall s, set_order s ≡ₚ elements s).

(** Allocation.  Asking for [n] blocks succeeds exactly when [n] are free.
    It then returns the first [n] of the eviction order; each had no reference,
    now has one, and with caching is no longer reachable from any key; every
    other block keeps its references and its keys, and the rest of the queue its
    order.  Otherwise it raises [ValueError] and changes nothing. *)
Theorem get_new_blocks_contract (p : BlockPool) (l : list nat) (n : Z) :
  PoolInv p l -> 0 <= n ->
  let got := take (Z.to_nat n) l in
  if n <=? Z.of_nat (length l) then
    exists p', get_new_blocks use_int set_order n p = (Ok got, p')
      /\ PoolInv p' (drop (Z.to_nat n) l)
      /\ (forall i, i ∈ got -> refs p !! i = Some (0, false) /\ refs p' !! i = Some (1, false)
           /\ (p.(enable_caching) = true -> forall k, i ∉ cache_ids p'.(cached_block_hash_to_block) k))
      /\ (forall i, i ∉ got -> refs p' !! i = refs p !! i /\ forall k, owns p' i k <-> owns p i k)
  else get_new_blocks use_int set_order n p = (Raise ValueError, p).
Proof.
  intros Hinv Hn got. destruct (Z.leb_spec n (Z.of_nat (length l))) as [Hle|Hgt];
    [|by apply (get_new_blocks_too_many _ _ p l)].
  pose proof Hinv as Hinv0. rewrite <- (take_drop (Z.to_nat n) l) in Hinv. fold got in Hinv.
  destruct (get_new_blocks_ok use_int set_order set_order_perm p _ _ Hinv) as (p' & Hrun & Hinv' & [_ Hr Ho]).
  unfold got in Hrun. rewrite length_take_le, Z2Nat.id in Hrun by lia. fold got in Hrun.
  exists p'. split_and!; [done|done| |].
  - intros i Hi. split_and!.
    + apply (ri_free _ _ (proj2 Hinv)), elem_of_app. by left.
    + by rewrite Hr, decide_True.
    + intros Hc k Hk. apply (ci_ids _ (proj1 Hinv')), Ho in Hk as [_ Hk]. by apply Hk.
  - intros i Hi. rewrite Hr, decide_False by done. split; [done|]. intros k. rewrite Ho. tauto.
Qed.

(** A block in use is never taken away.  After [touch], which marks the blocks
    of a prefix-cache hit as used, an allocation of any size returns none of them
    and leaves their keys and reference counts in place. *)
Theorem touched_blocks_survive (p : BlockPool) (l bs : list nat) (n : Z) :
  PoolInv p l -> Forall (valid_id p) bs -> 0 <= n ->
  exists p1, touch bs p = (Ok tt, p1)
    /\ forall r p2, get_new_blocks use_int set_order n p1 = (r, p2) ->
       (forall got, r = Ok got -> forall b, b ∈ bs -> b ∉ got)
       /\ forall b, b ∈ bs ->
            refs p2 !! b = (fun x => (x.1 + occ b bs, x.2)) <$> refs p !! b
            /\ forall k, owns p2 b k <-> owns p b k.
Proof.
  intros Hinv Hv Hn. destruct (touch_spec p l bs Hinv Hv) as (p1 & Hrun & [_ _ Hr1 Ho1] & Hinv1).
  exists p1. split; [done|]. intros r p2 Hget. set (l1 := filter _ l) in Hinv1.
  assert (Hnot : forall b, b ∈ bs -> b ∉ l1).
  { intros b Hb Hl. by apply list_elem_of_filter in Hl as [? _]. }
  destruct (Z.leb_spec n (Z.of_nat (length l1))) as [Hle|Hgt].
  - pose proof Hinv1 as Hinv2. rewrite <- (take_drop (Z.to_nat n) l1) in Hinv2.
    destruct (get_new_blocks_ok use_int set_order set_order_perm p1 _ _ Hinv2) as (p2' & Hrun2 & _ & [_ Hr2 Ho2]).
    rewrite length_take_le, Z2Nat.id in Hrun2 by lia. rewrite Hget in Hrun2. injection Hrun2 as -> ->.
    assert (Htake : forall b, b ∈ bs -> b ∉ take (Z.to_nat n) l1).
    { intros b Hb Hl. apply (Hnot b Hb). by eapply elem_of_take in Hl as (? & ? & _); eapply list_elem_of_lookup_2. }
    split; [by intros got [= <-]|]. intros b Hb. rewrite Hr2, decide_False by auto. split; [apply Hr1|].
    intros k. rewrite Ho2, Ho1. naive_solver.
  - rewrite (get_new_blocks_too_many _ _ p1 l1 n Hinv1 Hgt) in Hget. injection Hget as <- <-.
    split; [done|]. intros b Hb. split; [apply Hr1|apply Ho1].
Qed.

Lemma freed_sublist rs bs : freed rs bs `sublist_of` bs.
Proof.
  revert rs. induction bs as [|b bs IH]; intros rs; simpl; [constructor|].
  destruct (rs !! b) as [[n z]|]; [|by apply sublist_cons].
  destruct (_ && _); simpl; [by apply sublist_skip|by apply sublist_cons].
Qed.

(** Freeing.  Dropping references that are held gives a new eviction order:
    in front the blocks that lost their last reference and carry no hash (or all
    of them without caching), then the old queue, then those that can still serve
    cache hits, each part in the order of the argument.  Counts drop by the number
    of occurrences; no key is lost. *)
Theorem free_blocks_order (p : BlockPool) (l bs : list nat) :
  PoolInv p l -> Forall (valid_id p) bs ->
  (forall i n, refs p !! i = Some (n, false) -> occ i bs <= n) ->
  exists p' first last, free_blocks bs p = (Ok tt, p')
    /\ PoolInv p' (first ++ l ++ last)
    /\ first `sublist_of` bs /\ last `sublist_of` bs
    /\ (forall i, i ∈ first <-> (refs p !! i = Some (occ i bs, false) /\ i ∈ bs) /\ uncached p i)
    /\ (forall i, i ∈ last <-> (refs p !! i = Some (occ i bs, false) /\ i ∈ bs) /\ ~ uncached p i)
    /\ (forall i, refs p' !! i = (fun x => (x.1 - occ i bs, x.2)) <$> refs p !! i)
    /\ (forall i k, owns p' i k <-> owns p i k).
Proof.
  intros Hinv Hv Hocc. destruct (free_blocks_spec p l bs Hinv Hocc Hv) as (p' & Hrun & [_ _ Hr Ho] & Hinv').
  set (F := freed (refs p) bs) in *.
  assert (HF : forall i, i ∈ F <-> refs p !! i = Some (occ i bs, false) /\ i ∈ bs).
  { intros i. pose proof (ri_free _ _ (proj2 Hinv') i) as Hf'. pose proof (ri_free _ _ (proj2 Hinv) i) as Hf.
    pose proof (ri_nodup _ _ (proj2 Hinv')) as Hnd. apply NoDup_app in Hnd as (_ & Hd1 & Hnd).
    apply NoDup_app in Hnd as (_ & Hd2 & _).
    rewrite !elem_of_app, !list_elem_of_filter in Hf'. unfold unreferenced in Hf, Hf'. rewrite Hr in Hf'.
    specialize (Hd1 i). specialize (Hd2 i). rewrite !elem_of_app, !list_elem_of_filter in Hd1.
    rewrite list_elem_of_filter in Hd2. split.
    - intros Hi. assert (Hib : i ∈ bs) by (eapply elem_of_submseteq; [exact Hi|apply sublist_submseteq, freed_sublist]). split; [|done].
      destruct (refs p !! i) as [[n z]|]; simpl in Hf'; [|destruct (decide (uncached p i)); naive_solver].
      assert (Some (n + - occ i bs, z) = Some (0, false)) as [= Hn ->] by (destruct (decide (uncached p i)); tauto).
      do 2 f_equal. lia.
    - intros [Hi Hb]. rewrite Hi in Hf, Hf'. simpl in Hf'.
      destruct (proj2 Hf') as [[_ ?]|[Hl|[_ ?]]]; [do 2 f_equal; lia|done| |done].
      apply Hf in Hl. injection Hl as Hl. pose proof (occ_pos i bs Hb). lia. }
  exists p', (filter (uncached p) F), (filter (fun i => ~ uncached p i) F). split_and!; try done.
  - etransitivity; [apply sublist_filter|apply freed_sublist].
  - etransitivity; [apply sublist_filter|apply freed_sublist].
  - intros i. rewrite list_elem_of_filter, HF. tauto.
  - intros i. rewrite list_elem_of_filter, HF. tauto.
Qed.

(** Lookup.  A hit of [get_cached_block] names, for every group, a block that
    records the key of that hash and group; a miss means that in some group no
    block records it.  The lookup changes nothing. *)
Theorem get_cached_block_correct (p : BlockPool) (l : list nat) (h : bytes) (gs : list Z) :
  PoolInv p l -> Forall (fun g => 0 <= g < 2 ^ 32) gs ->
  exists o, get_cached_block h gs p = (Ok o, p)
    /\ match o with
       | Some bs => Forall2 (fun g b => exists key, make_block_hash_with_group_id h g = Ok key
                                               /\ owns p b key) gs bs
       | None => exists g key, g ∈ gs /\ make_block_hash_with_group_id h g = Ok key
                   /\ forall b, ~ owns p b key
       end.
Proof.
  intros [Hc _] Hg. destruct (get_cached_block_loop_spec p h gs [] Hc Hg) as (o & Hrun & Ho).
  exists o. split; [done|]. destruct o as [bs|]; [|done]. by destruct Ho as (bs' & -> & ?).
Qed.

(** Reset.  [reset_prefix_cache] succeeds exactly when no block is referenced;
    then no key reaches any block, and the eviction order is kept; otherwise it
    returns [False] and changes nothing. *)
Theorem reset_prefix_cache_contract (p : BlockPool) (l : list nat) :
  PoolInv p l ->
  exists ok p', reset_prefix_cache p = (Ok ok, p') /\ PoolInv p' l
    /\ (ok = true <-> forall i n, refs p !! i = Some (n, false) -> n = 0)
    /\ (if ok then forall i k, ~ owns p' i k else p' = p).
Proof.
  intros Hinv. destruct (reset_prefix_cache_spec p l Hinv) as (p' & Hrun & Hinv' & Hcase).
  eexists _, p'. split_and!; [exact Hrun|done| |].
  - rewrite bool_decide_eq_true. apply RefInv_count, Hinv.
  - case_bool_decide; by destruct (decide _).
Qed.

(** Copy on write.  [move_block_hashes] re-points every key of the source block
    to an unhashed destination: afterwards the source is reachable from no key, the
    destination from exactly the source's former keys, all other blocks as before;
    no event is emitted and no count changes. *)
Theorem move_block_hashes_contract (p : BlockPool) (l : list nat) (src dst : nat) (bd : KVCacheBlock) :
  PoolInv p l -> valid_id p src -> src <> dst ->
  p.(blocks) !! dst = Some bd -> is_null bd = false -> blk_hash bd = None ->
  exists p', move_block_hashes set_order src dst p = (Ok tt, p') /\ PoolInv p' l
    /\ refs p' = refs p /\ p'.(kv_event_queue) = p.(kv_event_queue)
    /\ forall i k, owns p' i k <->
         if decide (i = src) then False else if decide (i = dst) then owns p src k else owns p i k.
Proof.
  intros [Hc Hr] Hv Hne Hd Hn Hh.
  destruct (move_block_hashes_spec set_order set_order_perm p src dst bd Hc Hv Hd Hn Hh)
    as (p' & Hrun & Hc' & Hs & He & Ho).
  exists p'. split_and!; [done|split; [done|by eapply RefInv_same]|apply Hs|done|].
  intros i k. rewrite Ho. destruct (decide (i = src)) as [->|]; [tauto|].
  destruct (decide (i = dst)) as [->|]; [|tauto]. split; [|tauto].
  intros [[Hx _]|[_ ?]]; [|done]. by apply (unhashed_owns_nothing p dst bd k) in Hx.
Qed.
(** ** Registration of full blocks *)

Context (sha256 : bytes -> bytes).

(** The event part of [cache_full_blocks] changes nothing but the event queue. *)
Definition only_events (p p' : BlockPool) : Prop := exists es, p' = set_events es p.

Definition quiet {A : Type} (m : M (BlockPool * Request) A) : Prop :=
  forall s, only_events s.1 (m s).2.1.

Lemma quiet_bind {A B} (m : M (BlockPool * Request) A) (k : A -> M (BlockPool * Request) B) :
  quiet m -> (forall a, quiet (k a)) -> quiet (bind m k).
Proof.
  intros Hm Hk s. destruct (Hm s) as [es He]. unfold bind. destruct (m s) as [[a|e] s1]; simpl in *; [|by exists es].
  destruct (Hk a s1) as [es' He']. exists es'. rewrite He', He. done.
Qed.

Lemma quiet_pure {A} (m : M (BlockPool * Request) A) : (forall s, (m s).2.1 = s.1) -> quiet m.
Proof. intros H s. exists s.1.(kv_event_queue). rewrite H. by destruct s as [[] ?]. Qed.

Lemma quiet_emit e : quiet (on_pool (emit e)).
Proof. intros [p r]. by eexists. Qed.

Lemma quiet_request {A} (m : requestM A) : quiet (on_request m).
Proof. apply quiet_pure. intros [p r]. unfold on_request, zoom. simpl. by destruct (m r). Qed.

Lemma quiet_get_block b : quiet (on_pool (get_block b)).
Proof.
  apply quiet_pure. intros [p r]. unfold on_pool, zoom. simpl. destruct (blocks p !! b) as [blk|] eqn:Hb.
  - by rewrite (get_block_eq p b blk Hb).
  - by rewrite get_block_none.
Qed.

Lemma quiet_extra_keys_loop bs i nc bsz c mask : quiet (extra_keys_loop sha256 bs i nc bsz c mask).
Proof.
  revert i c. induction bs as [|b bs IH]; intros i c; cbn [extra_keys_loop]; [by apply quiet_pure|].
  apply quiet_bind; [apply quiet_get_block|]. intros blk. apply quiet_bind; [by apply quiet_pure|].
  intros [|]; [apply IH|]. apply quiet_bind; [apply quiet_request|]. intros [keys mm].
  apply quiet_bind; [apply IH|]. intros ?. by apply quiet_pure.
Qed.

Lemma jobs_key nbh nc bsz g mask p i bs os b key :
  jobs nbh nc bsz g mask p i bs os -> (b, key) ∈ targets bs os ->
  exists h, make_block_hash_with_group_id h g = Ok key.
Proof.
  revert i os. induction bs as [|x bs IH]; intros i [|o os] Hj Hin; simpl in *; try done;
    [by apply elem_of_nil in Hin..|].
  destruct Hj as [(blk & _ & Hjob) Hjs]. destruct o as [k|]; [|by eapply IH].
  apply elem_of_cons in Hin as [[= -> ->]|Hin]; [|by eapply IH].
  destruct Hjob as (_ & (h & _ & Hk) & _). eauto.
Qed.

Lemma lookup_after_registration p b h g key :
  CacheInv p -> make_block_hash_with_group_id h g = Ok key -> owns p b key ->
  exists b', get_cached_block (get_block_hash key) [get_group_id key] p = (Ok (Some [b']), p)
    /\ owns p b' key.
Proof.
  intros Hc Hkey Ho. destruct (make_key_split _ _ _ Hkey) as [-> ->].
  unfold get_cached_block. cbn [get_cached_block_loop]. rewrite Hkey, bind_lift, bind_gets.
  destruct (get_one_block_spec p key Hc) as ([b'|] & -> & Hb'); [|by destruct (Hb' b)].
  run_monad. by exists b'.
Qed.

Lemma on_pool_ok {A} (m : poolM A) p (r : Request) a p' :
  m p = (Ok a, p') -> on_pool m (p, r) = (Ok a, (p', r)).
Proof. intros H. unfold on_pool, zoom. simpl. by rewrite H. Qed.

(** Registration.  [cache_full_blocks] on distinct blocks that are unhashed or
    hold a shorter partial entry makes every block that is neither null nor masked
    out reachable from the key of its hash, so that a later lookup of that hash in
    the group hits; blocks that are not registered keep their keys, and reference
    counts and the free queue are untouched.  Without events it returns normally. *)
Theorem cached_blocks_are_found (p : BlockPool) (l : list nat) (r : Request) (bs : list nat)
    (nc nf bsz g : Z) (mask : option (list bool)) (view : BlockHashList) (nbh : list bytes)
    (os : list (option bytes)) :
  PoolInv p l -> nc < nf ->
  (forall m, mask = Some m -> length m = length (slice bs nc nf)) ->
  resolve_block_hashes (HashList r.(block_hashes)) p.(hash_block_size) bsz false None = Ok view ->
  hash_list_from view nc = Ok nbh ->
  jobs nbh nc bsz g mask p 0 (slice bs nc nf) os -> NoDup (targets (slice bs nc nf) os).*1 ->
  let out := cache_full_blocks sha256 use_int set_order bs nc nf bsz g mask (p, r) in
  let p' := out.2.1 in
  PoolInv p' l /\ refs p' = refs p
  /\ (p.(enable_kv_cache_events) = false -> out.1 = Ok tt)
  /\ (forall b key, (b, key) ∈ targets (slice bs nc nf) os ->
        owns p' b key
        /\ exists b', get_cached_block (get_block_hash key) [get_group_id key] p' = (Ok (Some [b']), p')
             /\ owns p' b' key)
  /\ (forall b k, b ∉ (targets (slice bs nc nf) os).*1 -> owns p' b k <-> owns p b k).
Proof.
  intros [Hc Hr] Hlt Hmask Hview Hnbh Hjobs Hnd out p'.
  destruct (cache_full_loop_spec use_int set_order set_order_perm nbh nc bsz g mask p 0 _ os Hc Hjobs Hnd)
    as (p1 & Hrun & Hc1 & Hs1 & Ho1).
  assert (Hout : exists es, p' = set_events es p1 /\ (p.(enable_kv_cache_events) = false -> out.1 = Ok tt)).
  { unfold p', out, cache_full_blocks. rewrite Z.geb_leb. destruct (Z.leb_spec nf nc); [lia|].
    assert (Hm : match mask with None => true | Some m => bool_decide (length m = length (slice bs nc nf)) end = true).
    { destruct mask as [m|]; [|done]. apply bool_decide_eq_true. by apply Hmask. }
    rewrite Hm. unfold check at 1 3. run_monad. cbn [fst snd].
    rewrite Hview, bind_lift, Hnbh, bind_lift, (bind_ok _ _ _ _ _ (on_pool_ok _ _ r _ _ Hrun)), bind_gets. cbn [fst].
    rewrite (sr_events _ _ Hs1). destruct (enable_kv_cache_events p); cbn [negb].
    2:{ exists p1.(kv_event_queue). split; [by destruct p1|done]. }
    match goal with |- exists es, (?m (p1, r)).2.1 = _ /\ _ => assert (Hq : quiet m) end.
    { apply quiet_bind; [by apply quiet_pure|]. intros ?. apply quiet_bind; [apply quiet_extra_keys_loop|]. intros ?.
      apply quiet_bind; [apply quiet_pure; intros s; by destruct (_ <=? _)|]. intros ?.
      apply quiet_bind; [by apply quiet_pure|]. intros ?. apply quiet_emit. }
    destruct (Hq (p1, r)) as [es He]. by exists es. }
  destruct Hout as (es & Hp' & Hok). rewrite Hp'. split_and!; [split|by apply Hs1|done| |].
  - by apply CacheInv_events.
  - eapply RefInv_same; [|exact Hr]. destruct Hs1; by split.
  - intros b key Hin. assert (Ho : owns (set_events es p1) b key) by (apply Ho1; by right).
    split; [done|]. destruct (jobs_key _ _ _ _ _ _ _ _ _ _ _ Hjobs Hin) as [h Hh].
    eapply lookup_after_registration; [by apply CacheInv_events|done..].
  - intros b k Hb. change (owns (set_events es p1) b k) with (owns p1 b k). rewrite Ho1.
    split; [|by left]. intros [[? _]|Hin]; [done|]. destruct Hb. by apply (list_elem_of_fmap_2 fst) in Hin.
Qed.
End pool_contracts.

(** ** A pool of five blocks *)

Definition demo_pool : BlockPool := (new_pool 5 true 2 false).2.

Lemma elements_order (s : gset bytes) : elements s ≡ₚ elements s.
Proof. done. Qed.

Lemma demo_pool_inv : PoolInv demo_pool [1; 2; 3; 4]%nat.
Proof.
  unfold demo_pool. by destruct (new_pool_spec 5 true 2 false) as (p & -> & Hinv & _); [lia|].
Qed.

(** Blocks 1, 2 and 3 in use. *)
Definition demo_used : BlockPool := (get_new_blocks false elements 3 demo_pool).2.

Lemma demo_used_inv : PoolInv demo_used [4]%nat.
Proof.
  destruct (get_new_blocks_ok false elements elements_order demo_pool [1; 2; 3]%nat [4]%nat)
    as (p & Hrun & Hinv & _); [apply demo_pool_inv|].
  unfold demo_used. change 3 with (Z.of_nat (length [1; 2; 3]%nat)). by rewrite Hrun.
Qed.

Lemma demo_used_valid i : (i < 5)%nat -> valid_id demo_used i.
Proof. unfold valid_id. by assert (length (refs demo_used) = 5%nat) as -> by (by vm_compute). Qed.

Lemma pool_reachable_inv_witness :
  exists l, PoolInv (run_pool_op id false elements (FreeBlocks [2; 1]%nat) demo_used).2 l.
Proof.
  apply (pool_reachable_inv id false elements elements_order 5 true 2 false demo_pool);
    [by vm_compute|].
  eapply rtc_l with (y := demo_used); [|eapply rtc_once].
  - apply (pool_step_op id false elements demo_pool (GetNewBlocks 3) (Ok tt)); [simpl; lia|by vm_compute].
  - eapply (pool_step_op id false elements demo_used (FreeBlocks [2; 1]%nat));
      [|apply surjective_pairing]. split.
    + repeat constructor; apply demo_used_valid; lia.
    + assert (Hr : refs demo_used = [(0, true); (1, false); (1, false); (1, false); (0, false)]) by (by vm_compute).
      intros i n. rewrite Hr. intros Hi. do 5 (destruct i as [|i]; [injection Hi as <-; vm_compute; done || discriminate|]).
      done.
Defined.

Lemma get_new_blocks_contract_witness :
  exists p', get_new_blocks false elements 2 demo_pool = (Ok [1; 2]%nat, p')
    /\ PoolInv p' [3; 4]%nat
    /\ (forall i, i ∈ [1; 2]%nat -> refs demo_pool !! i = Some (0, false) /\ refs p' !! i = Some (1, false)
         /\ (demo_pool.(enable_caching) = true -> forall k, i ∉ cache_ids p'.(cached_block_hash_to_block) k))
    /\ (forall i, i ∉ [1; 2]%nat -> refs p' !! i = refs demo_pool !! i
                              /\ forall k, owns p' i k <-> owns demo_pool i k).
Proof.
  apply (get_new_blocks_contract false elements elements_order demo_pool [1; 2; 3; 4]%nat 2);
    [apply demo_pool_inv|lia].
Defined.

Lemma touched_blocks_survive_witness :
  exists p1, touch [4; 1; 4]%nat demo_used = (Ok tt, p1)
    /\ forall r p2, get_new_blocks false elements 1 p1 = (r, p2) ->
       (forall got, r = Ok got -> forall b, b ∈ [4; 1; 4]%nat -> b ∉ got)
       /\ forall b, b ∈ [4; 1; 4]%nat ->
            refs p2 !! b = (fun x => (x.1 + occ b [4; 1; 4]%nat, x.2)) <$> refs demo_used !! b
            /\ forall k, owns p2 b k <-> owns demo_used b k.
Proof.
  apply (touched_blocks_survive false elements elements_order demo_used [4]%nat [4; 1; 4]%nat 1);
    [apply demo_used_inv|repeat constructor; apply demo_used_valid; lia|lia].
Defined.

Lemma free_blocks_order_witness :
  let bs := [3; 1]%nat in
  exists p' first last, free_blocks bs demo_used = (Ok tt, p')
    /\ PoolInv p' (first ++ [4]%nat ++ last)
    /\ first `sublist_of` bs /\ last `sublist_of` bs
    /\ (forall i, i ∈ first <-> (refs demo_used !! i = Some (occ i bs, false) /\ i ∈ bs) /\ uncached demo_used i)
    /\ (forall i, i ∈ last <-> (refs demo_used !! i = Some (occ i bs, false) /\ i ∈ bs) /\ ~ uncached demo_used i)
    /\ (forall i, refs p' !! i = (fun x => (x.1 - occ i bs, x.2)) <$> refs demo_used !! i)
    /\ (forall i k, owns p' i k <-> owns demo_used i k).
Proof.
  apply (free_blocks_order demo_used [4]%nat [3; 1]%nat);
    [apply demo_used_inv|repeat constructor; apply demo_used_valid; lia|].
  assert (Hr : refs demo_used = [(0, true); (1, false); (1, false); (1, false); (0, false)]) by (by vm_compute).
  intros i n. rewrite Hr. intros Hi. do 5 (destruct i as [|i]; [injection Hi as <-; vm_compute; done || discriminate|]).
  done.
Defined.

(** Two full blocks of two tokens, the second masked out. *)
Lemma cached_blocks_are_found_witness :
  let r := mkRequest [5; 6; 7; 8] [] None None None ∅ [[10]; [11]] in
  let os := [Some [10; 0; 0; 0; 3]; None] in
  let out := cache_full_blocks id false elements [1; 2]%nat 0 2 2 3 (Some [true; false]) (demo_used, r) in
  let p' := out.2.1 in
  PoolInv p' [4]%nat /\ refs p' = refs demo_used
  /\ (demo_used.(enable_kv_cache_events) = false -> out.1 = Ok tt)
  /\ (forall b key, (b, key) ∈ targets (slice [1; 2]%nat 0 2) os ->
        owns p' b key
        /\ exists b', get_cached_block (get_block_hash key) [get_group_id key] p' = (Ok (Some [b']), p')
             /\ owns p' b' key)
  /\ (forall b k, b ∉ (targets (slice [1; 2]%nat 0 2) os).*1 -> owns p' b k <-> owns demo_used b k).
Proof.
  intros r os.
  apply (cached_blocks_are_found false elements elements_order id demo_used [4]%nat r [1; 2]%nat 0 2 2 3
           (Some [true; false]) (HashList [[10]; [11]]) [[10]; [11]] os).
  - apply demo_used_inv.
  - lia.
  - by intros m [= <-].
  - by vm_compute.
  - reflexivity.
  - split; [|split; [|done]]; eexists; (split; [by vm_compute|]); [|done].
    split_and!; [done|by exists [10]|by left].
  - apply NoDup_singleton.
Defined.

Lemma get_cached_block_correct_witness :
  exists o, get_cached_block [10] [0; 1] demo_used = (Ok o, demo_used)
    /\ match o with
       | Some bs => Forall2 (fun g b => exists key, make_block_hash_with_group_id [10] g = Ok key
                                               /\ owns demo_used b key) [0; 1] bs
       | None => exists g key, g ∈ [0; 1] /\ make_block_hash_with_group_id [10] g = Ok key
                   /\ forall b, ~ owns demo_used b key
       end.
Proof.
  apply (get_cached_block_correct demo_used [4]%nat [10] [0; 1]); [apply demo_used_inv|].
  repeat constructor; lia.
Defined.

Lemma reset_prefix_cache_contract_witness :
  exists ok p', reset_prefix_cache demo_used = (Ok ok, p') /\ PoolInv p' [4]%nat
    /\ (ok = true <-> forall i n, refs demo_used !! i = Some (n, false) -> n = 0)
    /\ (if ok then forall i k, ~ owns p' i k else p' = demo_used).
Proof. apply (reset_prefix_cache_contract demo_used [4]%nat). apply demo_used_inv. Defined.

Lemma move_block_hashes_contract_witness :
  exists p', move_block_hashes elements 1 2 demo_used = (Ok tt, p') /\ PoolInv p' [4]%nat
    /\ refs p' = refs demo_used /\ p'.(kv_event_queue) = demo_used.(kv_event_queue)
    /\ forall i k, owns p' i k <->
         if decide (i = 1%nat) then False else if decide (i = 2%nat) then owns demo_used 1 k else owns demo_used i k.
Proof.
  apply (move_block_hashes_contract elements elements_order demo_used [4]%nat 1 2 (mkBlock 1 None None false));
    [apply demo_used_inv|apply demo_used_valid; lia|lia|by vm_compute..].
Defined.
