(* ===== verification/KVManager.v ===== *)
(** * KV-cache managers of one attention type

    Models [SingleTypeKVCacheManager] and its subclasses for full attention,
    reference sliding windows, sliding windows and chunked local attention
    ([vllm/v1/core/single_type_kv_cache_manager.py]): how the blocks of a request
    are predicted, taken from prefix-cache hits, allocated, freed once they leave
    the attention window, registered in the prefix cache and returned.

    What a manager relies on of the block pool is the interface [PoolOps] with the
    laws [PoolLaws]: reference counts, and the number of blocks without any.  The
    operations are written against the interface; [BlockPool] implements it
    ([block_pool_ops], [block_pool_laws]).  A block is named by its index; block 0 is
    the pool's null block.  [block_size] already contains the factor of decode
    context parallelism. *)

From S2P Require Import Prelude FreeQueue BlockHash BlockPool.

(** ** The pool as the managers see it *)

Class PoolOps (P : Type) := {
  pool_refs : P -> list (Z * bool);              (* [(ref_cnt, is_null)] of every block *)
  pool_num_free : P -> Z;                        (* [get_num_free_blocks] *)
  pool_get_new_blocks : Z -> M P (list nat);
  pool_touch : list nat -> M P unit;
  pool_free_blocks : list nat -> M P unit;
  pool_add_ref : nat -> M P unit;                (* [block.ref_cnt += 1] *)
  pool_hash_block_size : P -> Z;
  (* [cache_full_blocks] and [cache_partial_block]; the request's memo is state *)
  pool_cache_full : list nat -> Z -> Z -> Z -> Z -> option (list bool) -> M (P * Request) unit;
  pool_cache_partial : nat -> Z -> Z -> Z -> M (P * Request) unit;
}.

(** The counts moved by [d]; the null flags stay. *)
Definition moved (d : nat -> Z) (rs rs' : list (Z * bool)) : Prop :=
  forall i, rs' !! i = (fun x => (x.1 + d i, x.2)) <$> rs !! i.

Definition is_free (x : Z * bool) : bool := (x.1 =? 0) && negb x.2.

Definition free_count (rs : list (Z * bool)) : Z := Z.of_nat (length (filter (fun x => is_free x = true) rs)).

(** Every reference that is dropped is held. *)
Definition droppable (bs : list nat) (rs : list (Z * bool)) : Prop :=
  Forall (fun b => (b < length rs)%nat) bs
  /\ forall i n, rs !! i = Some (n, false) -> occ i bs <= n.

Class PoolLaws (P : Type) `{PoolOps P} := {
  pool_inv : P -> Prop;
  pool_num_free_count p : pool_inv p -> pool_num_free p = free_count (pool_refs p);
  pool_null p : pool_inv p -> exists n, pool_refs p !! 0%nat = Some (n, true);
  pool_only_null p i n : pool_inv p -> pool_refs p !! i = Some (n, true) -> i = 0%nat;
  pool_nonneg p i n : pool_inv p -> pool_refs p !! i = Some (n, false) -> 0 <= n;
  pool_get_new_ok p n :
    pool_inv p -> 0 <= n <= pool_num_free p ->
    exists bs p', pool_get_new_blocks n p = (Ok bs, p') /\ pool_inv p'
      /\ Z.of_nat (length bs) = n /\ NoDup bs
      /\ Forall (fun b => pool_refs p !! b = Some (0, false)) bs
      /\ moved (fun i => occ i bs) (pool_refs p) (pool_refs p');
  pool_get_new_fails p n :
    pool_inv p -> pool_num_free p < n -> pool_get_new_blocks n p = (Raise ValueError, p);
  pool_touch_ok p bs :
    pool_inv p -> Forall (fun b => (b < length (pool_refs p))%nat) bs ->
    exists p', pool_touch bs p = (Ok tt, p') /\ pool_inv p'
      /\ moved (fun i => occ i bs) (pool_refs p) (pool_refs p');
  pool_free_ok p bs :
    pool_inv p -> droppable bs (pool_refs p) ->
    exists p', pool_free_blocks bs p = (Ok tt, p') /\ pool_inv p'
      /\ moved (fun i => - occ i bs) (pool_refs p) (pool_refs p');
  pool_add_ref_ok p b n :
    pool_inv p -> pool_refs p !! b = Some (n, false) -> 0 < n ->
    exists p', pool_add_ref b p = (Ok tt, p') /\ pool_inv p'
      /\ moved (fun i => if decide (b = i) then 1 else 0) (pool_refs p) (pool_refs p');
  pool_cache_full_keeps p r bs nc nf bsz g mask :
    pool_inv p -> let s := (pool_cache_full bs nc nf bsz g mask (p, r)).2 in
    pool_inv s.1 /\ pool_refs s.1 = pool_refs p;
  pool_cache_partial_keeps p r b nt g bsz :
    pool_inv p -> let s := (pool_cache_partial b nt g bsz (p, r)).2 in
    pool_inv s.1 /\ pool_refs s.1 = pool_refs p;
}.

(** ** Managers *)

(** The attention types; the fields are those of the [KVCacheSpec] classes. *)
Inductive KVCacheSpec :=
  | FullAttentionSpec
  | RSWASpec (rswa_window : Z)
  | SlidingWindowSpec (sliding_window extra_retained_tokens : Z)
  | ChunkedLocalAttentionSpec (attention_chunk_size : Z).

#[global] Instance KVCacheSpec_eq_dec : EqDecision KVCacheSpec.
Proof. solve_decision. Defined.

Record Manager := mkManager {
  kv_cache_spec : KVCacheSpec;
  block_size : Z;
  scheduler_block_size : Z;
  mgr_caching : bool;
  kv_cache_group_id : Z;
  max_admission_blocks : option Z;
  record_new_block_ids : bool;
  use_eagle : bool;
  new_block_ids : list nat;
  req_to_blocks : gmap string (list nat);
  num_cached_block : gmap string Z;
  partial_hit_reqs : gmap string (Z * nat);
  pending_cow_copies : list (nat * nat);
}.

Definition null_block : nat := 0%nat.

Definition new_manager (spec : KVCacheSpec) (spec_block_size sched_block_size dcp_world_size : Z)
    (caching : bool) (group : Z) (zeroing : bool) (cap : option Z) : Manager :=
  mkManager spec (if 1 <? dcp_world_size then spec_block_size * dcp_world_size else spec_block_size)
    sched_block_size caching group cap zeroing false [] ∅ ∅ ∅ [].

Definition set_table (t : gmap string (list nat)) (m : Manager) : Manager :=
  mkManager m.(kv_cache_spec) m.(block_size) m.(scheduler_block_size) m.(mgr_caching)
    m.(kv_cache_group_id) m.(max_admission_blocks) m.(record_new_block_ids) m.(use_eagle)
    m.(new_block_ids) t m.(num_cached_block) m.(partial_hit_reqs) m.(pending_cow_copies).

Definition set_cached (c : gmap string Z) (m : Manager) : Manager :=
  mkManager m.(kv_cache_spec) m.(block_size) m.(scheduler_block_size) m.(mgr_caching)
    m.(kv_cache_group_id) m.(max_admission_blocks) m.(record_new_block_ids) m.(use_eagle)
    m.(new_block_ids) m.(req_to_blocks) c m.(partial_hit_reqs) m.(pending_cow_copies).

Definition set_partial (h : gmap string (Z * nat)) (m : Manager) : Manager :=
  mkManager m.(kv_cache_spec) m.(block_size) m.(scheduler_block_size) m.(mgr_caching)
    m.(kv_cache_group_id) m.(max_admission_blocks) m.(record_new_block_ids) m.(use_eagle)
    m.(new_block_ids) m.(req_to_blocks) m.(num_cached_block) h m.(pending_cow_copies).

Definition set_pending (c : list (nat * nat)) (m : Manager) : Manager :=
  mkManager m.(kv_cache_spec) m.(block_size) m.(scheduler_block_size) m.(mgr_caching)
    m.(kv_cache_group_id) m.(max_admission_blocks) m.(record_new_block_ids) m.(use_eagle)
    m.(new_block_ids) m.(req_to_blocks) m.(num_cached_block) m.(partial_hit_reqs) c.

Definition set_new_ids (l : list nat) (m : Manager) : Manager :=
  mkManager m.(kv_cache_spec) m.(block_size) m.(scheduler_block_size) m.(mgr_caching)
    m.(kv_cache_group_id) m.(max_admission_blocks) m.(record_new_block_ids) m.(use_eagle)
    l m.(req_to_blocks) m.(num_cached_block) m.(partial_hit_reqs) m.(pending_cow_copies).

Inductive RequestStatus :=
  | WAITING
  | WAITING_FOR_STRUCTURED_OUTPUT_GRAMMAR
  | WAITING_FOR_REMOTE_KVS
  | WAITING_FOR_STREAMING_REQ
  | RUNNING
  | PREEMPTED
  | FINISHED_STOPPED
  | FINISHED_LENGTH_CAPPED
  | FINISHED_ABORTED
  | FINISHED_IGNORED
  | FINISHED_ERROR
  | FINISHED_REPETITION.

#[global] Instance RequestStatus_eq_dec : EqDecision RequestStatus.
Proof. solve_decision. Defined.

(** The attributes of a request the managers read besides its tokens and hashes. *)
Record ReqInfo := mkReqInfo {
  request_id : string;
  status : RequestStatus;
  num_prompt_tokens : Z;
  num_computed_tokens : Z;
  num_in_flight_tokens : Z;
  shared_prefix_boundary : Z;
}.

(** ** Operations *)

(** [get_num_skipped_tokens], overridden by the windowed managers. *)
Definition get_num_skipped_tokens (spec : KVCacheSpec) (num_computed_tokens : Z) : Z :=
  match spec with
  | FullAttentionSpec | RSWASpec _ => 0
  | SlidingWindowSpec w extra => Z.max 0 (num_computed_tokens - w + 1 - extra)
  | ChunkedLocalAttentionSpec c => num_computed_tokens / c * c
  end.

Definition contiguous_blocks_for_hit (window_size block_size : Z) (use_eagle : bool) : Z :=
  cdiv (window_size - 1) block_size + (if use_eagle then 1 else 0).

Definition has_partial_local_hit (m : Manager) (new_computed_blocks : list nat)
    (num_local_computed_tokens : Z) : bool :=
  negb (bool_decide (new_computed_blocks = []))
  && negb (num_local_computed_tokens mod m.(block_size) =? 0).

Definition get_num_evictable_blocks (rs : list (Z * bool)) (bs : list nat) : Z :=
  Z.of_nat (length (filter (fun b => from_option is_free false (rs !! b) = true) bs)).

(** [max_admission_blocks_per_request] of the two windowed specs. *)
Definition max_admission_blocks_per_request (spec : KVCacheSpec) (block_size max_in_flight_tokens
    max_model_len : Z) : option Z :=
  match spec with
  | SlidingWindowSpec w extra =>
      Some (cdiv (Z.min (w - 1 + extra + max_in_flight_tokens) max_model_len) block_size + 1)
  | ChunkedLocalAttentionSpec c => Some (cdiv (Z.min (c + max_in_flight_tokens) max_model_len) block_size)
  | _ => None
  end.

(** Per-block mask of a sliding window: [true] for a block that can serve a hit. *)
Definition window_mask (w block_size start_block end_block alignment_tokens : Z) (use_eagle : bool)
    (retention_interval : option Z) (reachable_boundaries : list Z) : option (list bool) :=
  let need := contiguous_blocks_for_hit w block_size use_eagle in
  let shift := if use_eagle then 1 else 0 in
  let segment_tokens := match retention_interval with
                        | None => Some alignment_tokens
                        | Some r => if r =? 0 then None else Some r
                        end in
  let in_segment i := match segment_tokens with
                      | None => false
                      | Some seg =>
                          let per_segment := seg / block_size in
                          (shift <=? i) && (per_segment - need <=? (i - shift) mod per_segment)
                      end in
  let in_tail i := match retention_interval with
                   | None => false
                   | Some _ =>
                       existsb (fun boundary_tokens =>
                         let e := boundary_tokens / alignment_tokens * alignment_tokens / block_size + shift in
                         (e - need <=? i) && (i <? e)) reachable_boundaries
                   end in
  if match segment_tokens with Some seg => seg / block_size <=? need | None => false end then None
  else Some ((fun i => in_segment i || in_tail i) <$> seqZ start_block (end_block - start_block)).

(** [reachable_block_mask]; the dense managers inherit [None]. *)
Definition reachable_block_mask (m : Manager) (start_block end_block : Z)
    (retention_interval : option Z) (reachable_boundaries : list Z) : res (option (list bool)) :=
  match m.(kv_cache_spec) with
  | SlidingWindowSpec w _ =>
      if negb (m.(scheduler_block_size) mod m.(block_size) =? 0) then Raise AssertionError else
      Ok (window_mask w m.(block_size) start_block end_block m.(scheduler_block_size) m.(use_eagle)
            retention_interval reachable_boundaries)
  | _ => Ok None
  end.

Section manager.
Context {P : Type} `{!PoolOps P}.

Notation mgrM := (M (P * Manager)).

Definition on_pool_of {A : Type} (m : M P A) : mgrM A := zoom fst (fun p s => (p, s.2)) m.

Definition get_mgr {A : Type} (f : Manager -> A) : mgrM A := gets (fun s => f s.2).

Definition upd_mgr (f : Manager -> Manager) : mgrM unit := modify (fun s => (s.1, f s.2)).

(** [self.req_to_blocks[request_id]]: a [defaultdict], so a miss inserts []. *)
Definition req_blocks (rid : string) : mgrM (list nat) :=
  t <- get_mgr req_to_blocks ;;
  match t !! rid with
  | Some bs => ret bs
  | None => upd_mgr (set_table (<[rid := []]> t)) ;; ret []
  end.

Definition put_blocks (rid : string) (bs : list nat) : mgrM unit :=
  upd_mgr (fun m => set_table (<[rid := bs]> m.(req_to_blocks)) m).

Definition get_num_blocks_to_allocate (rid : string) (num_tokens : Z) (new_computed_blocks : list nat)
    (total_computed_tokens num_local_computed_tokens : Z) (apply_admission_cap : bool) : mgrM Z :=
  m <- get_mgr id ;;
  let required := cdiv num_tokens m.(block_size) in
  let num_required_blocks := match m.(max_admission_blocks) with
                             | Some c => if apply_admission_cap then Z.min required c else required
                             | None => required
                             end in
  let num_req_blocks := Z.of_nat (length (default [] (m.(req_to_blocks) !! rid))) in
  match m.(num_cached_block) !! rid with
  | Some _ =>
      check (bool_decide (new_computed_blocks = [])) AssertionError ;;
      ret (Z.max (num_required_blocks - num_req_blocks) 0)
  | None =>
      let num_skipped_blocks :=
        get_num_skipped_tokens m.(kv_cache_spec) total_computed_tokens / m.(block_size) in
      let num_local_computed_blocks := Z.of_nat (length new_computed_blocks) + num_req_blocks in
      let num_new_blocks :=
        Z.max (num_required_blocks - Z.max num_skipped_blocks num_local_computed_blocks) 0 in
      let num_skipped_new_computed_blocks := Z.max 0 (num_skipped_blocks - num_req_blocks) in
      rs <- gets (fun s => pool_refs s.1) ;;
      let num_evictable_blocks :=
        get_num_evictable_blocks rs (drop (Z.to_nat num_skipped_new_computed_blocks) new_computed_blocks) in
      ret (num_new_blocks
           + (if has_partial_local_hit m new_computed_blocks num_local_computed_tokens then 1 else 0)
           + num_evictable_blocks)
  end.

Definition add_local_computed_blocks (rid : string) (new_computed_blocks : list nat)
    (num_local_computed_tokens num_external_computed_tokens : Z) : mgrM unit :=
  blocks <- req_blocks rid ;;
  check (bool_decide (blocks = [])) AssertionError ;;
  m <- get_mgr id ;;
  let num_total_computed_tokens := num_local_computed_tokens + num_external_computed_tokens in
  let num_skipped_blocks :=
    get_num_skipped_tokens m.(kv_cache_spec) num_total_computed_tokens / m.(block_size) in
  let computed := if num_skipped_blocks >? 0 then drop (Z.to_nat num_skipped_blocks) new_computed_blocks
                  else new_computed_blocks in
  (if m.(mgr_caching) then on_pool_of (pool_touch computed)
   else check (bool_decide (computed = [])) AssertionError) ;;
  let blocks' := replicate (Z.to_nat num_skipped_blocks) null_block ++ computed in
  put_blocks rid blocks' ;;
  upd_mgr (fun m => set_cached (<[rid := Z.of_nat (length blocks')]> m.(num_cached_block)) m) ;;
  if has_partial_local_hit m computed num_local_computed_tokens then
    let block_idx := num_local_computed_tokens / m.(block_size) in
    upd_mgr (fun m => set_partial (<[rid := (block_idx, default null_block (last computed))]> m.(partial_hit_reqs)) m) ;;
    upd_mgr (fun m => set_cached (<[rid := block_idx]> m.(num_cached_block)) m)
  else ret tt.

(** [if self._record_new_block_ids: self.new_block_ids.extend(...)] *)
Definition record_ids (bs : list nat) : mgrM unit :=
  upd_mgr (fun m => if m.(record_new_block_ids) then set_new_ids (m.(new_block_ids) ++ bs) m else m).

Definition allocate_external_computed_blocks (rid : string)
    (num_local_computed_tokens num_external_computed_tokens : Z) : mgrM unit :=
  m <- get_mgr id ;;
  let num_total_computed_tokens := num_local_computed_tokens + num_external_computed_tokens in
  let num_skipped_tokens := get_num_skipped_tokens m.(kv_cache_spec) num_total_computed_tokens in
  let num_external := if num_skipped_tokens >? 0
                      then Z.min (num_total_computed_tokens - num_skipped_tokens) num_external_computed_tokens
                      else num_external_computed_tokens in
  if num_external <=? 0 then ret tt else
  blocks <- req_blocks rid ;;
  allocated <- on_pool_of (pool_get_new_blocks
                 (cdiv num_total_computed_tokens m.(block_size) - Z.of_nat (length blocks))) ;;
  put_blocks rid (blocks ++ allocated) ;;
  record_ids allocated.

Definition apply_cow (rid : string) (block_idx : Z) (source_block cow_block : nat) : mgrM unit :=
  blocks <- req_blocks rid ;;
  check (block_idx <? Z.of_nat (length blocks)) AssertionError ;;
  check (bool_decide (blocks !! Z.to_nat block_idx = Some source_block)) AssertionError ;;
  rs <- gets (fun s => pool_refs s.1) ;;
  check (match rs !! source_block with Some (n, z) => negb z && (n >? 0) | None => false end) AssertionError ;;
  put_blocks rid (<[Z.to_nat block_idx := cow_block]> blocks) ;;
  upd_mgr (fun m => set_pending (m.(pending_cow_copies) ++ [(source_block, cow_block)]) m) ;;
  on_pool_of (pool_add_ref cow_block).

(** The private copy of a partially hit tail block, if there is one. *)
Definition redirect_partial_hit (rid : string) : mgrM (list nat) :=
  h <- get_mgr partial_hit_reqs ;;
  match h !! rid with
  | None => ret []
  | Some (block_idx, source_block) =>
      upd_mgr (set_partial (delete rid h)) ;;
      got <- on_pool_of (pool_get_new_blocks 1) ;;
      match got with
      | [] => raise IndexError
      | cow_block :: _ =>
          apply_cow rid block_idx source_block cow_block ;;
          upd_mgr (fun m => set_new_ids (m.(new_block_ids) ++ [cow_block]) m) ;;
          ret [cow_block]
      end
  end.

Definition allocate_new_blocks (rid : string) (num_tokens : Z) : mgrM (list nat) :=
  cow_blocks <- redirect_partial_hit rid ;;
  blocks <- req_blocks rid ;;
  bsz <- get_mgr block_size ;;
  let num_new_blocks := cdiv num_tokens bsz - Z.of_nat (length blocks) in
  if num_new_blocks <=? 0 then ret cow_blocks else
  new_blocks <- on_pool_of (pool_get_new_blocks num_new_blocks) ;;
  put_blocks rid (blocks ++ new_blocks) ;;
  record_ids new_blocks ;;
  ret (cow_blocks ++ new_blocks).

Definition take_new_block_ids : mgrM (list nat) :=
  ids <- get_mgr new_block_ids ;;
  upd_mgr (set_new_ids []) ;;
  ret ids.

Definition take_pending_cow_copies : mgrM (list (nat * nat)) :=
  copies <- get_mgr pending_cow_copies ;;
  upd_mgr (set_pending []) ;;
  ret copies.

Definition pop_blocks_for_free (rid : string) : mgrM (list nat) :=
  t <- get_mgr req_to_blocks ;;
  upd_mgr (fun m => set_table (delete rid t) m) ;;
  upd_mgr (fun m => set_cached (delete rid m.(num_cached_block)) m) ;;
  upd_mgr (fun m => set_partial (delete rid m.(partial_hit_reqs)) m) ;;
  ret (default [] (t !! rid)).

Definition mgr_free (rid : string) : mgrM unit :=
  blocks <- pop_blocks_for_free rid ;;
  on_pool_of (pool_free_blocks (reverse blocks)).

(** The loop of [_remove_blocks_in_range] over [range(last - 1, first - 1, -1)], with
    [n = last - first] indices left: the freed blocks in order, and the new list. *)
Fixpoint null_out (blocks : list nat) (first n : nat) : list nat * list nat :=
  match n with
  | O => ([], blocks)
  | S n' =>
      match blocks !! (first + n')%nat with
      | Some b =>
          if decide (b = null_block) then ([], blocks) else
          let '(freed, blocks') := null_out (<[(first + n')%nat := null_block]> blocks) first n' in
          (b :: freed, blocks')
      | None => ([], blocks)
      end
  end.

Definition remove_blocks_in_range (rid : string) (first_block last_block : Z) : mgrM unit :=
  t <- get_mgr req_to_blocks ;;
  match t !! rid with
  | None => ret tt
  | Some blocks =>
      if first_block >=? last_block then ret tt else
      let last_block := Z.min last_block (Z.of_nat (length blocks)) in
      let '(freed, blocks') := null_out blocks (Z.to_nat first_block) (Z.to_nat (last_block - first_block)) in
      put_blocks rid blocks' ;;
      match freed with [] => ret tt | _ => on_pool_of (pool_free_blocks freed) end
  end.

(** [SingleTypeKVCacheManager.remove_skipped_blocks] *)
Definition remove_skipped_prefix (rid : string) (processed_computed_tokens : Z) : mgrM unit :=
  m <- get_mgr id ;;
  let num_skipped_tokens := get_num_skipped_tokens m.(kv_cache_spec) processed_computed_tokens in
  if num_skipped_tokens <=? 0 then ret tt else
  blocks <- req_blocks rid ;;
  remove_blocks_in_range rid 0
    (Z.min (num_skipped_tokens / m.(block_size)) (Z.of_nat (length blocks))).

Definition remove_skipped_blocks (rid : string) (processed_computed_tokens : Z)
    (num_prompt_tokens : option Z) : mgrM unit :=
  m <- get_mgr id ;;
  match m.(kv_cache_spec), num_prompt_tokens with
  | RSWASpec w, Some np =>
      let window_start := Z.max np (processed_computed_tokens - w) in
      remove_blocks_in_range rid (cdiv np m.(block_size)) (window_start / m.(block_size))
  | _, _ => remove_skipped_prefix rid processed_computed_tokens
  end.

(** Full attention: blocks referenced by every request with blocks. *)
Fixpoint common_prefix (rs : list (Z * bool)) (num_reqs : Z) (blocks : list nat) : Z :=
  match blocks with
  | [] => 0
  | b :: bs => match rs !! b with
               | Some (n, _) => if n =? num_reqs then 1 + common_prefix rs num_reqs bs else 0
               | None => 0
               end
  end.

Definition get_num_common_prefix_blocks (rid : string) : mgrM Z :=
  m <- get_mgr id ;;
  match m.(kv_cache_spec) with
  | FullAttentionSpec | RSWASpec _ =>
      blocks <- req_blocks rid ;;
      t <- get_mgr req_to_blocks ;;
      rs <- gets (fun s => pool_refs s.1) ;;
      ret (common_prefix rs (Z.of_nat (size t)) blocks)
  | _ => ret 0
  end.

(** ** Registration in the prefix cache *)

Notation cacheM := (M (P * Manager * Request)).

Definition with_request {A : Type} (m : mgrM A) : cacheM A := zoom fst (fun s x => (s, x.2)) m.

Definition on_pool_request {A : Type} (m : M (P * Request) A) : cacheM A :=
  zoom (fun x => (x.1.1, x.2)) (fun y x => (y.1, x.1.2, y.2)) m.

(** [SingleTypeKVCacheManager.cache_blocks] *)
Definition cache_full_prefix (rq : ReqInfo) (num_tokens : Z) (retention_interval : option Z) : cacheM unit :=
  m <- with_request (get_mgr id) ;;
  let rid := rq.(request_id) in
  let num_cached_blocks := default 0 (m.(num_cached_block) !! rid) in
  let num_full_blocks := num_tokens / m.(block_size) in
  if num_cached_blocks >=? num_full_blocks then ret tt else
  let reachable_boundaries := (rq.(num_prompt_tokens) - 1)
    :: (if rq.(shared_prefix_boundary) =? 0 then [] else [rq.(shared_prefix_boundary)]) in
  block_mask <- lift (reachable_block_mask m num_cached_blocks num_full_blocks retention_interval
                        reachable_boundaries) ;;
  blocks <- with_request (req_blocks rid) ;;
  on_pool_request (pool_cache_full blocks num_cached_blocks num_full_blocks m.(block_size)
                     m.(kv_cache_group_id) block_mask) ;;
  with_request (upd_mgr (fun m => set_cached (<[rid := num_full_blocks]> m.(num_cached_block)) m)).

Definition cache_partial_tail_block (rq : ReqInfo) (num_tokens : Z) : cacheM unit :=
  hbs <- gets (fun s => pool_hash_block_size s.1.1) ;;
  m <- with_request (get_mgr id) ;;
  let boundary_tokens := rq.(num_prompt_tokens) / hbs * hbs in
  if (boundary_tokens =? 0) || (boundary_tokens >? num_tokens) then ret tt else
  if boundary_tokens mod m.(block_size) =? 0 then ret tt else
  blocks <- with_request (req_blocks rq.(request_id)) ;;
  match blocks !! Z.to_nat (boundary_tokens / m.(block_size)) with
  | None => ret tt
  | Some block => on_pool_request (pool_cache_partial block boundary_tokens m.(kv_cache_group_id) m.(block_size))
  end.

(** Full attention also registers the prompt's partial tail block. *)
Definition mgr_cache_blocks (rq : ReqInfo) (num_tokens : Z) (retention_interval : option Z) : cacheM unit :=
  cache_full_prefix rq num_tokens retention_interval ;;
  m <- with_request (get_mgr id) ;;
  match m.(kv_cache_spec) with
  | FullAttentionSpec | RSWASpec _ =>
      hbs <- gets (fun s => pool_hash_block_size s.1.1) ;;
      if m.(block_size) =? hbs then ret tt else cache_partial_tail_block rq num_tokens
  | _ => ret tt
  end.
End manager.
