(* ===== verification/KVCoordinator.v ===== *)
(** * The KV-cache coordinator and manager

    Models [KVCacheCoordinator] ([vllm/v1/core/kv_cache_coordinator.py]), which runs
    the managers of all attention groups over one block pool, and [KVCacheManager]
    ([vllm/v1/core/kv_cache_manager.py]) as far as it changes blocks:
    [allocate_slots], [free], [remove_skipped_blocks], [cache_blocks], the hand-over
    of copy-on-write endpoints and of blocks to be zeroed.

    Groups with cross attention or Mamba layers are not modelled. *)

From S2P Require Import Prelude FreeQueue BlockHash BlockPool KVManager.

(** ** State and configuration *)

(** [KVCacheBlocks]; the empty object is shared and recognised by identity. *)
Inductive KVCacheBlocks :=
  | EmptyBlocks
  | SomeBlocks (blocks : list (list nat)).

Record KVConfig := mkKVConfig {
  max_model_len : Z;
  kv_enable_caching : bool;
  watermark_blocks : Z;
  num_reprefillable_tokens : Z;
  retention_interval : option Z;
  is_hybrid : bool;                  (* [HybridKVCacheCoordinator] *)
  enable_partial_hash_hits : bool;
  coord_block_size : Z;              (* [scheduler_block_size] *)
}.

Definition create_kv_cache_blocks (blocks : list (list nat)) : KVCacheBlocks :=
  if existsb (fun bs => negb (bool_decide (bs = []))) blocks then SomeBlocks blocks else EmptyBlocks.

Definition blocks_of (num_groups : nat) (b : KVCacheBlocks) : list (list nat) :=
  match b with EmptyBlocks => replicate num_groups [] | SomeBlocks bs => bs end.

Section coordinator.
Context {P : Type} `{!PoolOps P}.

(** The pool and the managers, one per group. *)
Notation coordM := (M (P * list Manager)).

(** [[f(i, manager) for i, manager in enumerate(self.single_type_managers)]] *)
Fixpoint each_mgr {A : Type} (f : nat -> M (P * Manager) A) (i : nat) (p : P) (ms : list Manager)
    : res (list A) * (P * list Manager) :=
  match ms with
  | [] => (Ok [], (p, []))
  | m :: ms' =>
      match f i (p, m) with
      | (Raise e, (p', m')) => (Raise e, (p', m' :: ms'))
      | (Ok a, (p', m')) =>
          let '(r, (p'', ms'')) := each_mgr f (S i) p' ms' in
          (match r with Ok l => Ok (a :: l) | Raise e => Raise e end, (p'', m' :: ms''))
      end
  end.

Definition for_mgrs {A : Type} (f : nat -> M (P * Manager) A) : coordM (list A) :=
  fun s => each_mgr f 0 s.1 s.2.

(** [new_computed_blocks[i]] *)
Definition group_blocks (bss : list (list nat)) (i : nat) : M (P * Manager) (list nat) :=
  match bss !! i with Some bs => ret bs | None => raise IndexError end.

Definition coord_get_num_blocks_to_allocate (rid : string) (num_tokens : Z) (bss : list (list nat))
    (total_computed_tokens num_local_computed_tokens : Z) (apply_admission_cap : bool) : coordM Z :=
  ns <- for_mgrs (fun i =>
    bs <- group_blocks bss i ;;
    get_num_blocks_to_allocate rid num_tokens bs total_computed_tokens num_local_computed_tokens
      apply_admission_cap) ;;
  ret (foldr Z.add 0 ns).

Definition allocate_new_computed_blocks (rid : string) (bss : list (list nat))
    (num_local_computed_tokens num_external_computed_tokens : Z) : coordM unit :=
  ms <- gets snd ;;
  if existsb (fun m => bool_decide (is_Some (m.(num_cached_block) !! rid))) ms
  then check (forallb (fun bs => bool_decide (bs = [])) bss) AssertionError else
  for_mgrs (fun i =>
    bs <- group_blocks bss i ;;
    add_local_computed_blocks rid bs num_local_computed_tokens num_external_computed_tokens) ;;
  if num_external_computed_tokens >? 0 then
    for_mgrs (fun _ => allocate_external_computed_blocks rid num_local_computed_tokens
                         num_external_computed_tokens) ;; ret tt
  else ret tt.

Definition coord_allocate_new_blocks (rid : string) (num_tokens : Z) : coordM (list (list nat)) :=
  for_mgrs (fun _ => allocate_new_blocks rid num_tokens).

Definition coord_free (rid : string) : coordM unit :=
  for_mgrs (fun _ => mgr_free rid) ;; ret tt.

Definition coord_pop_blocks_for_free (rid : string) : coordM (list nat) :=
  bss <- for_mgrs (fun _ => pop_blocks_for_free rid) ;;
  ret (concat bss).

Definition coord_get_num_common_prefix_blocks (rid : string) : coordM (list Z) :=
  for_mgrs (fun _ => get_num_common_prefix_blocks rid).

Definition coord_remove_skipped_blocks (rid : string) (processed_computed_tokens : Z)
    (num_prompt_tokens : option Z) : coordM unit :=
  for_mgrs (fun _ => remove_skipped_blocks rid processed_computed_tokens num_prompt_tokens) ;; ret tt.

Definition get_blocks (rid : string) : coordM (list (list nat)) :=
  gets (fun s => (fun m => default [] (m.(req_to_blocks) !! rid)) <$> s.2).

(** ** Registration in the prefix cache *)

Notation kvM := (M (P * list Manager * Request)).

Definition with_hashes {A : Type} (m : coordM A) : kvM A := zoom fst (fun s x => (s, x.2)) m.

(** [for manager in self.single_type_managers: manager.cache_blocks(...)], where the
    number of tokens may depend on the manager. *)
Fixpoint each_cache (rq : ReqInfo) (tokens : Manager -> Z) (retention : option Z)
    (p : P) (ms : list Manager) (r : Request) : res unit * (P * list Manager * Request) :=
  match ms with
  | [] => (Ok tt, (p, [], r))
  | m :: ms' =>
      match mgr_cache_blocks rq (tokens m) retention (p, m, r) with
      | (Raise e, (p', m', r')) => (Raise e, (p', m' :: ms', r'))
      | (Ok _, (p', m', r')) =>
          let '(o, (p'', ms'', r'')) := each_cache rq tokens retention p' ms' r' in
          (o, (p'', m' :: ms'', r''))
      end
  end.

Definition align_cacheable (cfg : KVConfig) (num_tokens : Z) : Z :=
  if cfg.(enable_partial_hash_hits) then num_tokens
  else num_tokens / cfg.(coord_block_size) * cfg.(coord_block_size).

(** The tokens of a group that may be cached: [KVCacheCoordinator.cache_blocks] and
    its override in [HybridKVCacheCoordinator]. *)
Definition num_tokens_to_cache (cfg : KVConfig) (num_computed_tokens : Z) (m : Manager) : Z :=
  let finalized := Z.max 0 (num_computed_tokens - cfg.(num_reprefillable_tokens)) in
  if cfg.(is_hybrid) then
    let cached := align_cacheable cfg num_computed_tokens in
    if m.(use_eagle) && (cached >? 0)
    then Z.min finalized (align_cacheable cfg finalized + m.(block_size))
    else cached
  else finalized.

Definition coord_cache_blocks (cfg : KVConfig) (rq : ReqInfo) (num_computed_tokens : Z) : kvM unit :=
  fun s => each_cache rq (num_tokens_to_cache cfg num_computed_tokens) cfg.(retention_interval)
             s.1.1 s.1.2 s.2.

(** ** [KVCacheManager] *)

Definition pool_free (s : P * list Manager) : Z := pool_num_free s.1.

(** The blocks needed so far, the watermark being kept for requests that wait. *)
Definition watermark_for (cfg : KVConfig) (rq : ReqInfo) (has_scheduled_reqs : bool) : Z :=
  if has_scheduled_reqs && (bool_decide (rq.(status) = WAITING) || bool_decide (rq.(status) = PREEMPTED))
  then cfg.(watermark_blocks) else 0.

(** The part of [allocate_slots] before caching: [None] when blocks are short. *)
Definition take_slots (cfg : KVConfig) (rq : ReqInfo) (num_tokens num_new_tokens num_new_computed_tokens : Z)
    (new_computed_blocks : KVCacheBlocks) (num_lookahead_tokens num_external_computed_tokens : Z)
    (full_sequence_must_fit : bool) (reserved_blocks : Z) (has_scheduled_reqs : bool)
    : coordM (option (list (list nat))) :=
  check (negb ((num_new_tokens =? 0) && (num_external_computed_tokens =? 0))) ValueError ;;
  num_groups <- gets (fun s => length s.2) ;;
  let rid := rq.(request_id) in
  let bss := blocks_of num_groups new_computed_blocks in
  let num_local_computed_tokens := rq.(num_computed_tokens) + num_new_computed_tokens in
  let total_computed_tokens :=
    Z.min (num_local_computed_tokens + num_external_computed_tokens) cfg.(max_model_len) in
  let watermark := watermark_for cfg rq has_scheduled_reqs in
  fits <- (if full_sequence_must_fit then
             n <- coord_get_num_blocks_to_allocate rid (Z.min num_tokens cfg.(max_model_len)) bss
                    total_computed_tokens num_local_computed_tokens true ;;
             free <- gets pool_free ;;
             ret (n + watermark <=? free)
           else ret true) ;;
  if negb fits then ret None else
  let num_tokens_need_slot :=
    Z.min (total_computed_tokens + num_new_tokens + num_lookahead_tokens) cfg.(max_model_len) in
  coord_remove_skipped_blocks rid (Z.max 0 (total_computed_tokens - rq.(num_in_flight_tokens)))
    (Some rq.(num_prompt_tokens)) ;;
  n <- coord_get_num_blocks_to_allocate rid num_tokens_need_slot bss
         (num_local_computed_tokens + num_external_computed_tokens) num_local_computed_tokens false ;;
  free <- gets pool_free ;;
  if n + watermark >? free - reserved_blocks then ret None else
  (match new_computed_blocks with
   | EmptyBlocks => if num_external_computed_tokens >? 0
                    then allocate_new_computed_blocks rid bss num_local_computed_tokens
                           num_external_computed_tokens
                    else ret tt
   | SomeBlocks _ => allocate_new_computed_blocks rid bss num_local_computed_tokens
                       num_external_computed_tokens
   end) ;;
  new_blocks <- coord_allocate_new_blocks rid num_tokens_need_slot ;;
  ret (Some new_blocks).

Definition allocate_slots (cfg : KVConfig) (rq : ReqInfo) (num_new_tokens num_new_computed_tokens : Z)
    (new_computed_blocks : KVCacheBlocks) (num_lookahead_tokens num_external_computed_tokens : Z)
    (delay_cache_blocks full_sequence_must_fit : bool) (reserved_blocks : Z) (has_scheduled_reqs : bool)
    : kvM (option KVCacheBlocks) :=
  r <- gets snd ;;
  got <- with_hashes (take_slots cfg rq (num_tokens r) num_new_tokens num_new_computed_tokens
           new_computed_blocks num_lookahead_tokens num_external_computed_tokens
           full_sequence_must_fit reserved_blocks has_scheduled_reqs) ;;
  match got with
  | None => ret None
  | Some new_blocks =>
      if negb cfg.(kv_enable_caching) || delay_cache_blocks
      then ret (Some (create_kv_cache_blocks new_blocks)) else
      let total_computed_tokens :=
        Z.min (rq.(num_computed_tokens) + num_new_computed_tokens + num_external_computed_tokens)
          cfg.(max_model_len) in
      coord_cache_blocks cfg rq (Z.min (total_computed_tokens + num_new_tokens) (num_tokens r)) ;;
      ret (Some (create_kv_cache_blocks new_blocks))
  end.

Definition kv_cache_blocks (cfg : KVConfig) (rq : ReqInfo) (num_computed_tokens : Z) : kvM unit :=
  if cfg.(kv_enable_caching) then coord_cache_blocks cfg rq num_computed_tokens else ret tt.

Definition kv_take_new_block_ids : coordM (list nat) :=
  idss <- for_mgrs (fun _ => take_new_block_ids) ;; ret (concat idss).

(** The copies as pairs, and the endpoints the caller has to release. *)
Definition take_kv_cache_block_copies : coordM (list (nat * nat) * list nat) :=
  copies <- for_mgrs (fun _ => take_pending_cow_copies) ;;
  ret (concat copies, concat ((fun c => [c.1; c.2]) <$> concat copies)).

Definition get_zeroing_block_ids_in_range (rid : string) (start_token end_token : Z) : coordM (list nat) :=
  idss <- for_mgrs (fun _ =>
    m <- get_mgr id ;;
    if m.(record_new_block_ids) then
      blocks <- req_blocks rid ;;
      ret (slice blocks (start_token / m.(block_size)) (cdiv end_token m.(block_size)))
    else ret []) ;;
  ret (concat idss).

Definition record_blocks_for_zeroing (rid : string) (start_token : Z) : coordM unit :=
  for_mgrs (fun _ =>
    m <- get_mgr id ;;
    if m.(record_new_block_ids) then
      check (start_token mod m.(block_size) =? 0) AssertionError ;;
      blocks <- req_blocks rid ;;
      upd_mgr (fun m => set_new_ids (m.(new_block_ids) ++ drop (Z.to_nat (start_token / m.(block_size))) blocks) m)
    else ret tt) ;; ret tt.

Definition truncate_computed_blocks (blocks : KVCacheBlocks) (n : Z) : coordM KVCacheBlocks :=
  ms <- gets snd ;;
  let bss := blocks_of (length ms) blocks in
  check (bool_decide (length bss = length ms)) ValueError ;;
  truncated <- lift (rmap (fun x : list nat * Manager =>
    let '(bs, m) := x in
    if negb (n mod m.(block_size) =? 0) then Raise AssertionError else
    if n / m.(block_size) <=? Z.of_nat (length bs)
    then Ok (take (Z.to_nat (n / m.(block_size))) bs) else Raise AssertionError) (zip bss ms)) ;;
  ret (create_kv_cache_blocks truncated).
End coordinator.
