(* ===== verification/CacheHit.v ===== *)
(** * Prefix-cache hits

    Models the lookup of the longest cached prefix of a request: the finders of the
    full-attention, sliding-window and chunked-local managers
    ([find_longest_cache_hit] in [vllm/v1/core/single_type_kv_cache_manager.py]), the
    grouping by spec and the fixed-point loop of [HybridKVCacheCoordinator] and the
    unitary coordinator ([vllm/v1/core/kv_cache_coordinator.py]).

    The finders only read the pool: [lookup] is [block_pool.get_cached_block] on the
    pool at hand.  The block lists of the groups that are looked up together are a
    list of lists, one per group. *)

From S2P Require Import Prelude BlockHash BlockPool KVManager.

Section finders.
Variable lookup : bytes -> list Z -> res (option (list nat)).
Variable hash_block_size : Z.

(** [for computed, cached in zip(computed_blocks, cached_block): computed.append(cached)] *)
Definition append_all (computed : list (list nat)) (cached : list nat) : list (list nat) :=
  zip_with (fun c b => c ++ [b]) computed cached.

Definition num_found (computed : list (list nat)) : nat := length (default [] (head computed)).

(** ** Full attention *)

(** The first loop: [n] more hashes, from index [i]. *)
Fixpoint scan_prefix (hs : BlockHashList) (group_ids : list Z) (n : nat) (i : Z) (computed : list (list nat))
    : res (list (list nat)) :=
  match n with
  | O => Ok computed
  | S n' =>
      if hash_list_len hs <=? i then Ok computed else
      let? h := hash_list_getitem hs i in
      let? cached := lookup h group_ids in
      match cached with
      | None => Ok computed
      | Some cached => scan_prefix hs group_ids n' (i + 1) (append_all computed cached)
      end
  end.

(** The second loop, over [range(first + n - 1, first - 1, -1)]: the blocks of the
    longest partial hit with its index. *)
Fixpoint probe_tail (hs : list bytes) (group_ids : list Z) (first : Z) (n : nat)
    : res (option (list nat * Z)) :=
  match n with
  | O => Ok None
  | S n' =>
      let fine_idx := first + Z.of_nat n' in
      let? h := py_index hs fine_idx in
      let? cached := lookup h group_ids in
      match cached with
      | None => probe_tail hs group_ids first n'
      | Some cached => Ok (Some (cached, fine_idx))
      end
  end.

(** [find_longest_cache_hit] of [FullAttentionManager]; [RSWAManager] inherits it. *)
Definition full_find (hs : BlockHashList) (max_length : Z) (group_ids : list Z) (spec_block_size : Z)
    (drop_eagle_block : bool) (alignment_tokens dcp_world_size : Z) : res (list (list nat) * Z) :=
  let block_size := if 1 <? dcp_world_size then spec_block_size * dcp_world_size else spec_block_size in
  let? hs := resolve_block_hashes hs hash_block_size block_size true (Some alignment_tokens) in
  let? fine_grained := if alignment_tokens <? block_size then py_divides alignment_tokens block_size else Ok false in
  let? full_hs := if fine_grained then
                    match hs with
                    | HashList l => BlockHashListWithBlockSize l alignment_tokens block_size
                    | HashView _ _ => Raise AssertionError
                    end
                  else Ok hs in
  if max_length / block_size <? 0 then Raise ValueError else
  let? computed := scan_prefix full_hs group_ids (Z.to_nat (max_length / block_size)) 0
                     (replicate (length group_ids) []) in
  let hit_length := Z.of_nat (num_found computed) * block_size in
  let? found :=
    match hs with
    | HashList l =>
        if fine_grained then
          let scale_factor := block_size / alignment_tokens in
          let first_partial_idx := Z.of_nat (num_found computed) * scale_factor in
          let max_partial_idx := Z.min (Z.min (first_partial_idx + scale_factor - 1) (max_length / alignment_tokens))
                                   (Z.of_nat (length l)) in
          probe_tail l group_ids first_partial_idx (Z.to_nat (max_partial_idx - first_partial_idx))
        else Ok None
    | HashView _ _ => Ok None
    end in
  let '(computed, hit_length) :=
    match found with
    | Some (cached, fine_idx) => (append_all computed cached, (fine_idx + 1) * alignment_tokens)
    | None => (computed, hit_length)
    end in
  let hit_length := if drop_eagle_block && (hit_length >? 0) then hit_length - Z.min alignment_tokens block_size
                    else hit_length in
  if alignment_tokens =? 0 then Raise ZeroDivisionError else
  let hit_length := hit_length - hit_length mod alignment_tokens in
  Ok (take (Z.to_nat (cdiv hit_length block_size)) <$> computed, hit_length).

(** ** Sliding windows *)

(** The right-to-left loop with [n] indices left, [n - 1] next: the blocks, the length
    of the run and whether it sufficed. *)
Fixpoint scan_window (hs : BlockHashList) (group_ids : list Z) (block_size alignment_tokens need : Z)
    (drop_eagle_block : bool) (n : nat) (computed : list (list nat)) (run : nat)
    : res (list (list nat) * nat * bool) :=
  match n with
  | O => Ok (computed, run, false)
  | S i =>
      let? h := hash_list_getitem hs (Z.of_nat i) in
      let? cached := lookup h group_ids in
      match cached with
      | None => scan_window hs group_ids block_size alignment_tokens need drop_eagle_block i computed 0
      | Some cached =>
          let post_pop_blocks := if drop_eagle_block then Z.of_nat i else Z.of_nat i + 1 in
          if (run =? 0)%nat && negb (block_size =? alignment_tokens)
             && negb (post_pop_blocks * block_size mod alignment_tokens =? 0)
          then scan_window hs group_ids block_size alignment_tokens need drop_eagle_block i computed run
          else
            let computed := zip_with (fun c b => <[i := b]> c) computed cached in
            if need <=? Z.of_nat (S run)
            then Ok (take (i + S run) <$> computed, S run, true)
            else scan_window hs group_ids block_size alignment_tokens need drop_eagle_block i computed (S run)
      end
  end.

(** [while block_size != alignment_tokens and len(..) * block_size % alignment_tokens != 0: pop()] *)
Fixpoint pop_to_alignment (block_size alignment_tokens : Z) (n : nat) : nat :=
  match n with
  | O => O
  | S n' => if negb (block_size =? alignment_tokens) && negb (Z.of_nat n * block_size mod alignment_tokens =? 0)
            then pop_to_alignment block_size alignment_tokens n' else n
  end.

Definition window_find (hs : BlockHashList) (max_length : Z) (group_ids : list Z) (block_size sliding_window : Z)
    (drop_eagle_block : bool) (alignment_tokens : Z) : res (list (list nat) * Z) :=
  let? ok := py_divides block_size alignment_tokens in
  if negb ok then Raise AssertionError else
  let? hs := resolve_block_hashes hs hash_block_size block_size false (Some alignment_tokens) in
  let need := contiguous_blocks_for_hit sliding_window block_size drop_eagle_block in
  let max_num_blocks := Z.to_nat (max_length / block_size) in
  let? (computed, run, match_found) :=
    scan_window hs group_ids block_size alignment_tokens need drop_eagle_block max_num_blocks
      (replicate (length group_ids) (replicate max_num_blocks null_block)) 0 in
  let computed := if match_found then computed
                  else take (pop_to_alignment block_size alignment_tokens
                               (num_found (take run <$> computed))) <$> (take run <$> computed) in
  let computed := if drop_eagle_block && negb (num_found computed =? 0)%nat
                  then take (pop_to_alignment block_size alignment_tokens (num_found computed - 1)) <$> computed
                  else computed in
  Ok (computed, Z.of_nat (num_found computed) * block_size).

(** ** Chunked local attention *)

Fixpoint scan_chunk (hs : BlockHashList) (group_ids : list Z) (n : nat) (i : Z) (computed : list (list nat))
    : res (list (list nat)) :=
  match n with
  | O => Ok computed
  | S n' =>
      let? h := hash_list_getitem hs i in
      let? cached := lookup h group_ids in
      match cached with
      | None => Ok computed
      | Some cached => scan_chunk hs group_ids n' (i + 1) (append_all computed cached)
      end
  end.

Definition chunk_find (hs : BlockHashList) (max_length : Z) (group_ids : list Z) (block_size chunk : Z)
    (drop_eagle_block : bool) (alignment_tokens : Z) : res (list (list nat) * Z) :=
  if drop_eagle_block then Raise AssertionError else
  if negb (block_size =? alignment_tokens) then Raise AssertionError else
  let? hs := resolve_block_hashes hs hash_block_size block_size false (Some alignment_tokens) in
  let max_num_blocks := max_length / block_size in
  let start_idx := if max_length >? 0 then max_length / chunk * chunk else 0 in
  let start_block := start_idx / block_size in
  let? computed := scan_chunk hs group_ids (Z.to_nat (max_num_blocks - start_block)) start_block
                     (replicate (length group_ids) (replicate (Z.to_nat start_block) null_block)) in
  Ok (computed, Z.of_nat (num_found computed) * block_size).

(** ** Coordinators *)

(** A spec with its block size; [gs_fields] stands for the other fields, which are only
    compared. *)
Record GroupSpec := mkGroupSpec {
  gs_spec : KVCacheSpec;
  gs_block_size : Z;
  gs_fields : list Z;
}.

#[global] Instance GroupSpec_eq_dec : EqDecision GroupSpec.
Proof. solve_decision. Defined.

Record SpecGroup := mkSpecGroup {
  sg_spec : GroupSpec;
  group_ids : list nat;
  sg_use_eagle : bool;
}.

#[global] Instance SpecGroup_eq_dec : EqDecision SpecGroup.
Proof. solve_decision. Defined.

Definition is_full (s : KVCacheSpec) : bool :=
  match s with FullAttentionSpec | RSWASpec _ => true | _ => false end.

(** [manager_cls.find_longest_cache_hit] *)
Definition find_hit (g : SpecGroup) (hs : BlockHashList) (max_length : Z) (drop_eagle_block : bool)
    (alignment_tokens dcp_world_size : Z) : res (list (list nat) * Z) :=
  let ids := Z.of_nat <$> g.(group_ids) in
  let bsz := g.(sg_spec).(gs_block_size) in
  match g.(sg_spec).(gs_spec) with
  | FullAttentionSpec | RSWASpec _ => full_find hs max_length ids bsz drop_eagle_block alignment_tokens dcp_world_size
  | SlidingWindowSpec w _ => window_find hs max_length ids bsz w drop_eagle_block alignment_tokens
  | ChunkedLocalAttentionSpec c => chunk_find hs max_length ids bsz c drop_eagle_block alignment_tokens
  end.

(** [UnitaryKVCacheCoordinator.find_longest_cache_hit] *)
Definition unitary_find (spec : GroupSpec) (eagle : bool) (dcp_world_size : Z) (hs : BlockHashList) (max_length : Z)
    : res (list (list nat) * Z * Z) :=
  let block_size := if 1 <? dcp_world_size then spec.(gs_block_size) * dcp_world_size else spec.(gs_block_size) in
  let? (blocks, n) := find_hit (mkSpecGroup spec [0%nat] eagle) hs max_length eagle block_size dcp_world_size in
  Ok (blocks, n, 0).

(** [verify_and_split_kv_cache_groups]: groups with equal specs together, then full
    attention first ([sort] is stable). *)
Fixpoint add_group (spec : GroupSpec) (i : nat) (eagle : bool) (groups : list SpecGroup) : list SpecGroup :=
  match groups with
  | [] => [mkSpecGroup spec [i] eagle]
  | g :: gs =>
      if decide (g.(sg_spec) = spec)
      then mkSpecGroup spec (g.(group_ids) ++ [i]) (g.(sg_use_eagle) || eagle) :: gs
      else g :: add_group spec i eagle gs
  end.

Definition split_groups (specs : list GroupSpec) (eagle_ids : list nat) : res (list SpecGroup) :=
  let groups := foldl (fun gs x => add_group x.2 x.1 (bool_decide (x.1 ∈ eagle_ids)) gs) []
                  (imap (fun i s => (i, s)) specs) in
  if (length groups <=? 1)%nat then Raise AssertionError else
  Ok (filter (fun g => is_full g.(sg_spec).(gs_spec) = true) groups
      ++ filter (fun g => is_full g.(sg_spec).(gs_spec) = false) groups).

Record HybridConfig := mkHybridConfig {
  attention_groups : list SpecGroup;
  num_groups : nat;
  hybrid_partial_hits : bool;            (* [enable_partial_hash_hits] *)
  hybrid_scheduler_block_size : Z;
  hybrid_dcp_world_size : Z;
}.

Definition cache_hit_alignment_tokens (c : HybridConfig) : Z :=
  if c.(hybrid_partial_hits) then hash_block_size else c.(hybrid_scheduler_block_size).

(** [self.single_type_managers[group_ids[0]].block_size] *)
Definition group_block_size (c : HybridConfig) (g : SpecGroup) : Z :=
  if 1 <? c.(hybrid_dcp_world_size) then g.(sg_spec).(gs_block_size) * c.(hybrid_dcp_world_size)
  else g.(sg_spec).(gs_block_size).

(** The variables of the fixed-point loop. *)
Record HitState := mkHitState {
  curr_hit_length : Z;
  longest_hit_length : Z;
  hit_blocks_by_group : list (option (list nat));
  hit_length_by_group : list Z;
  eagle_verified : list nat;
}.

(** [for group_id, blocks in zip(group_ids, hit_blocks): ...] *)
Definition store_hits (ids : list nat) (blocks : list (list nat)) (n : Z) (s : HitState) : HitState :=
  foldl (fun s x => mkHitState s.(curr_hit_length) s.(longest_hit_length)
                      (<[x.1 := Some x.2]> s.(hit_blocks_by_group)) (<[x.1 := n]> s.(hit_length_by_group))
                      s.(eagle_verified)) s (zip ids blocks).

(** [isinstance(spec, FullAttentionSpec) and cached_blocks is not None] *)
Definition looked_up (g : SpecGroup) (s : HitState) : bool :=
  is_full g.(sg_spec).(gs_spec)
  && match default None (s.(hit_blocks_by_group) !! default O (head g.(group_ids))) with Some _ => true | None => false end.

Definition eagle_margin (c : HybridConfig) (g : SpecGroup) : Z :=
  if c.(hybrid_partial_hits) && is_full g.(sg_spec).(gs_spec) && (group_block_size c g >? hash_block_size)
  then hash_block_size else group_block_size c g.

(** One group of the [for] loop. *)
Definition check_group (c : HybridConfig) (hs : BlockHashList) (max_cache_hit_length : Z) (idx : nat) (g : SpecGroup)
    (s : HitState) : res HitState :=
  if looked_up g s then
    Ok (mkHitState (Z.min s.(curr_hit_length) (default 0 (s.(hit_length_by_group) !! default O (head g.(group_ids)))))
          s.(longest_hit_length) s.(hit_blocks_by_group) s.(hit_length_by_group) s.(eagle_verified)) else
  let drop_eagle_block := g.(sg_use_eagle) && negb (bool_decide (idx ∈ s.(eagle_verified))) in
  let max_length := if drop_eagle_block then Z.min (s.(curr_hit_length) + eagle_margin c g) max_cache_hit_length
                    else s.(curr_hit_length) in
  let? (blocks, new_hit_length) :=
    find_hit g hs max_length drop_eagle_block (cache_hit_alignment_tokens c)
      (if is_full g.(sg_spec).(gs_spec) then c.(hybrid_dcp_world_size) else 1) in
  let verified := if drop_eagle_block then idx :: s.(eagle_verified)
                  else if new_hit_length <? s.(curr_hit_length) then [] else s.(eagle_verified) in
  Ok (store_hits g.(group_ids) blocks new_hit_length
        (mkHitState new_hit_length (Z.max s.(longest_hit_length) new_hit_length)
           s.(hit_blocks_by_group) s.(hit_length_by_group) verified)).

Fixpoint check_groups (c : HybridConfig) (hs : BlockHashList) (max_cache_hit_length : Z) (idx : nat) (gs : list SpecGroup)
    (s : HitState) : res HitState :=
  match gs with
  | [] => Ok s
  | g :: gs' => let? s := check_group c hs max_cache_hit_length idx g s in
                check_groups c hs max_cache_hit_length (S idx) gs' s
  end.

Definition is_simple_hybrid (c : HybridConfig) : bool :=
  (length c.(attention_groups) =? 2)%nat
  && match c.(attention_groups) with g :: _ => is_full g.(sg_spec).(gs_spec) | [] => false end.

(** [while True]; [None] when [fuel] iterations did not suffice. *)
Fixpoint hit_loop (fuel : nat) (c : HybridConfig) (hs : BlockHashList) (max_cache_hit_length hit_length : Z) (s : HitState)
    : option (res (Z * HitState)) :=
  match fuel with
  | O => None
  | S fuel' =>
      match check_groups c hs max_cache_hit_length 0 c.(attention_groups)
              (mkHitState hit_length s.(longest_hit_length) s.(hit_blocks_by_group) s.(hit_length_by_group)
                 s.(eagle_verified)) with
      | Raise e => Some (Raise e)
      | Ok s =>
          if hit_length <=? s.(curr_hit_length) then Some (Ok (hit_length, s))
          else if is_simple_hybrid c then Some (Ok (s.(curr_hit_length), s))
          else hit_loop fuel' c hs max_cache_hit_length s.(curr_hit_length) s
      end
  end.

(** Full attention blocks cut to the final length, for the first group. *)
Definition truncate_first (c : HybridConfig) (hit_length : Z) (s : HitState) : HitState :=
  match c.(attention_groups) with
  | g :: _ =>
      if is_full g.(sg_spec).(gs_spec) then
        let num_blocks := Z.to_nat (cdiv hit_length (group_block_size c g)) in
        foldl (fun s gid =>
          match default None (s.(hit_blocks_by_group) !! gid) with
          | Some blks => mkHitState s.(curr_hit_length) s.(longest_hit_length)
                           (<[gid := Some (take num_blocks blks)]> s.(hit_blocks_by_group))
                           (<[gid := hit_length]> s.(hit_length_by_group)) s.(eagle_verified)
          | None => s
          end) s g.(group_ids)
      else s
  | [] => s
  end.

Definition hybrid_find (fuel : nat) (c : HybridConfig) (hs : BlockHashList) (max_cache_hit_length : Z)
    : option (res (list (list nat) * Z * Z)) :=
  match hit_loop fuel c hs max_cache_hit_length max_cache_hit_length
          (mkHitState max_cache_hit_length 0 (replicate c.(num_groups) None) (replicate c.(num_groups) 0) []) with
  | None => None
  | Some (Raise e) => Some (Raise e)
  | Some (Ok (hit_length, s)) =>
      let s := truncate_first c hit_length s in
      Some (Ok (default [] <$> s.(hit_blocks_by_group), hit_length, s.(longest_hit_length) - hit_length))
  end.

(** [find_longest_cache_hit_per_group] *)
Fixpoint per_group_loop (c : HybridConfig) (hs : BlockHashList) (max_cache_hit_length : Z) (gs : list SpecGroup)
    (blocks : list (list nat)) (lens : list Z) : res (list (list nat) * list Z) :=
  match gs with
  | [] => Ok (blocks, lens)
  | g :: gs' =>
      let? (bs, n) := find_hit g hs max_cache_hit_length g.(sg_use_eagle) (cache_hit_alignment_tokens c) 1 in
      let '(blocks, lens) := foldl (fun y x => (<[x.1 := x.2]> y.1, <[x.1 := n]> y.2)) (blocks, lens)
                               (zip g.(group_ids) bs) in
      per_group_loop c hs max_cache_hit_length gs' blocks lens
  end.

Definition per_group_find (c : HybridConfig) (hs : BlockHashList) (max_cache_hit_length : Z)
    : res (list (list nat) * list Z) :=
  per_group_loop c hs max_cache_hit_length c.(attention_groups)
    (replicate c.(num_groups) []) (replicate c.(num_groups) 0).
End finders.
