(* ===== verification/KVManagerProps.v ===== *)
(** * What the managers of one attention type guarantee

    The block pool implements the interface of the managers.  For an arbitrary
    implementation of the interface: the effect of every manager operation on the
    reference counts and on the block table of the request, and the number of free
    blocks it consumes at most. *)

From S2P Require Import Prelude FreeQueue BlockHash BlockPool BlockPoolProps KVManager.

(** ** Counting references *)

#[global] Instance occ_perm : Proper (eq ==> (≡ₚ) ==> eq) occ.
Proof.
  intros i ? <- l l' Hl. unfold occ. f_equal. apply Permutation_length. by rewrite Hl.
Qed.

Lemma occ_app i l1 l2 : occ i (l1 ++ l2) = occ i l1 + occ i l2.
Proof. unfold occ. rewrite filter_app, length_app. lia. Qed.

Lemma occ_nil i : occ i [] = 0.
Proof. done. Qed.

Lemma occ_reverse i l : occ i (reverse l) = occ i l.
Proof. by rewrite reverse_Permutation. Qed.

Lemma occ_NoDup i l : NoDup l -> i ∈ l -> occ i l = 1.
Proof.
  induction 1 as [|x l Hx Hnd IH]; [by intros ?%elem_of_nil|]. rewrite occ_cons, elem_of_cons.
  destruct (decide (x = i)) as [->|Hne]; [by rewrite occ_zero|]. intros [->|Hi]; [done|]. by rewrite IH.
Qed.

Lemma moved_lookup d rs rs' i x : moved d rs rs' -> rs !! i = Some x -> rs' !! i = Some (x.1 + d i, x.2).
Proof. intros Hm Hi. by rewrite Hm, Hi. Qed.

Lemma moved_lookup_inv d rs rs' i n z :
  moved d rs rs' -> rs' !! i = Some (n, z) -> rs !! i = Some (n - d i, z).
Proof.
  intros Hm. rewrite Hm. destruct (rs !! i) as [[k b]|]; [|done]. simpl. intros [= <- <-]. do 2 f_equal. lia.
Qed.

Lemma moved_length d rs rs' : moved d rs rs' -> length rs' = length rs.
Proof.
  intros Hm. apply Nat.le_antisymm; apply Nat.nlt_ge; intros Hlt.
  - apply lookup_lt_is_Some_2 in Hlt as [x Hx]. rewrite Hm in Hx.
    destruct (rs !! length rs) eqn:He; [|done]. apply lookup_lt_Some in He. lia.
  - apply lookup_lt_is_Some_2 in Hlt as [x Hx]. pose proof (moved_lookup _ _ _ _ _ Hm Hx) as Hy.
    apply lookup_lt_Some in Hy. lia.
Qed.

Lemma moved_ext d d' rs rs' : (forall i, d i = d' i) -> moved d rs rs' -> moved d' rs rs'.
Proof. intros Hd Hm i. by rewrite Hm, Hd. Qed.

Lemma moved_zero rs rs' : moved (fun _ => 0) rs rs' -> rs' = rs.
Proof.
  intros Hm. apply list_eq. intros i. rewrite Hm. destruct (rs !! i) as [[n z]|]; [|done]. simpl.
  by rewrite Z.add_0_r.
Qed.

Lemma moved_trans d1 d2 rs1 rs2 rs3 :
  moved d1 rs1 rs2 -> moved d2 rs2 rs3 -> moved (fun i => d1 i + d2 i) rs1 rs3.
Proof.
  intros H1 H2 i. rewrite H2, H1. destruct (rs1 !! i) as [[n z]|]; [|done]. simpl. do 2 f_equal. lia.
Qed.

(** ** Counting free blocks *)

Lemma free_count_insert rs b x y :
  rs !! b = Some x ->
  free_count (<[b := y]> rs) = free_count rs - (if is_free x then 1 else 0) + (if is_free y then 1 else 0).
Proof.
  unfold free_count. revert b. induction rs as [|z rs IH]; intros [|b] Hb; simpl in Hb; try done.
  - injection Hb as ->. simpl. rewrite !filter_cons.
    destruct (is_free x), (is_free y); simpl; rewrite ?decide_True by done; rewrite ?decide_False by done; simpl; lia.
  - specialize (IH b Hb). simpl. rewrite !filter_cons.
    destruct (decide (is_free z = true)); simpl; lia.
Qed.

Lemma free_count_mono rs rs' :
  length rs' = length rs ->
  (forall i x y, rs !! i = Some x -> rs' !! i = Some y -> is_free x = true -> is_free y = true) ->
  free_count rs <= free_count rs'.
Proof.
  unfold free_count. revert rs'. induction rs as [|x rs IH]; intros [|y rs'] Hl Hf; try done.
  assert (IH' := IH rs' ltac:(simpl in Hl; lia) (fun i => Hf (S i))). rewrite !filter_cons.
  pose proof (Hf 0%nat x y eq_refl eq_refl) as H0.
  destruct (decide (is_free x = true)) as [Hx|]; destruct (decide (is_free y = true)); simpl; try lia.
  by destruct (H0 Hx).
Qed.

Lemma moved_one b rs rs' n z :
  moved (fun i => if decide (b = i) then 1 else 0) rs rs' -> rs !! b = Some (n, z) -> rs' = <[b := (n + 1, z)]> rs.
Proof.
  intros Hm Hb. apply list_eq. intros i. rewrite Hm. destruct (decide (b = i)) as [<-|Hne].
  - rewrite list_lookup_insert_eq by (by eapply lookup_lt_Some). by rewrite Hb.
  - rewrite list_lookup_insert_ne by done. destruct (rs !! i) as [[k w]|]; [|done]. simpl. by rewrite Z.add_0_r.
Qed.

(** Bumping the count of [b] first splits a move by [occ (b :: bs)]. *)
Lemma moved_cons b bs rs rs' n z :
  moved (fun i => occ i (b :: bs)) rs rs' -> rs !! b = Some (n, z) ->
  moved (fun i => occ i bs) (<[b := (n + 1, z)]> rs) rs'.
Proof.
  intros Hm Hb i. rewrite Hm, occ_cons. destruct (decide (b = i)) as [<-|Hne].
  - rewrite list_lookup_insert_eq by (by eapply lookup_lt_Some). rewrite Hb. simpl. do 2 f_equal. lia.
  - by rewrite list_lookup_insert_ne, Z.add_0_l by done.
Qed.

Definition counts_nonneg (rs : list (Z * bool)) : Prop := forall i n, rs !! i = Some (n, false) -> 0 <= n.

Lemma bump_nonneg b rs n z : counts_nonneg rs -> rs !! b = Some (n, z) -> counts_nonneg (<[b := (n + 1, z)]> rs).
Proof.
  intros Hr Hb i k. destruct (decide (b = i)) as [<-|Hne].
  - rewrite list_lookup_insert_eq by (by eapply lookup_lt_Some). intros [= <- ->]. specialize (Hr _ _ Hb). lia.
  - rewrite list_lookup_insert_ne by done. apply Hr.
Qed.

Lemma evictable_cons rs b bs :
  get_num_evictable_blocks rs (b :: bs)
  = (if from_option is_free false (rs !! b) then 1 else 0) + get_num_evictable_blocks rs bs.
Proof.
  unfold get_num_evictable_blocks. rewrite filter_cons.
  destruct (from_option is_free false (rs !! b)); [rewrite decide_True|rewrite decide_False]; simpl; try done; lia.
Qed.

Lemma evictable_nonneg rs bs : 0 <= get_num_evictable_blocks rs bs.
Proof. unfold get_num_evictable_blocks. lia. Qed.

(** Counts that only grow make no block evictable. *)
Lemma evictable_mono rs rs' d bs :
  counts_nonneg rs -> (forall i, 0 <= d i) -> moved d rs rs' ->
  get_num_evictable_blocks rs' bs <= get_num_evictable_blocks rs bs.
Proof.
  intros Hr Hd Hm. induction bs as [|b bs IH]; [done|]. rewrite !evictable_cons, Hm.
  destruct (rs !! b) as [[n [|]]|] eqn:Hb; simpl.
  - unfold is_free; simpl. rewrite !andb_false_r. lia.
  - specialize (Hr _ _ Hb). specialize (Hd b). unfold is_free; simpl. rewrite !andb_true_r.
    destruct (Z.eqb_spec n 0), (Z.eqb_spec (n + d b) 0); lia.
  - lia.
Qed.

Lemma free_count_touch rs rs' bs :
  counts_nonneg rs -> Forall (fun b => (b < length rs)%nat) bs -> moved (fun i => occ i bs) rs rs' ->
  free_count rs - get_num_evictable_blocks rs bs <= free_count rs'.
Proof.
  intros Hr Hv. revert rs Hr Hv. induction bs as [|b bs IH]; intros rs Hr Hv Hm.
  { apply moved_zero in Hm as ->. unfold get_num_evictable_blocks. simpl. lia. }
  apply Forall_cons in Hv as [Hb Hv]. destruct (lookup_lt_is_Some_2 _ _ Hb) as [[n z] Hx].
  pose proof (moved_cons _ _ _ _ _ _ Hm Hx) as Hm1. pose proof (bump_nonneg _ _ _ _ Hr Hx) as Hr1.
  assert (Hv1 : Forall (fun b0 => (b0 < length (<[b := ((n + 1)%Z, z)]> rs))%nat) bs) by (by rewrite length_insert).
  specialize (IH _ Hr1 Hv1 Hm1). rewrite (free_count_insert _ _ _ _ Hx) in IH.
  assert (Hone : moved (fun i => if decide (b = i) then 1 else 0) rs (<[b := (n + 1, z)]> rs)).
  { intros i. destruct (decide (b = i)) as [<-|Hne]; [by rewrite list_lookup_insert_eq, Hx|].
    rewrite list_lookup_insert_ne by done. destruct (rs !! i) as [[k w]|]; [|done]. simpl. by rewrite Z.add_0_r. }
  assert (Hd : forall i, 0 <= (if decide (b = i) then 1 else 0)) by (intros i; case_decide; lia).
  pose proof (evictable_mono _ _ _ bs Hr Hd Hone) as He.
  rewrite evictable_cons, Hx. simpl. destruct (is_free (n + 1, z)); lia.
Qed.

Lemma free_count_take rs rs' bs :
  NoDup bs -> Forall (fun b => rs !! b = Some (0, false)) bs -> moved (fun i => occ i bs) rs rs' ->
  free_count rs' = free_count rs - Z.of_nat (length bs).
Proof.
  intros Hnd. revert rs. induction Hnd as [|b bs Hb Hnd IH]; intros rs Hf Hm.
  { apply moved_zero in Hm as ->. simpl. lia. }
  apply Forall_cons in Hf as [Hx Hf]. pose proof (moved_cons _ _ _ _ _ _ Hm Hx) as Hm1.
  rewrite (IH (<[b := (0 + 1, false)]> rs)); [| |exact Hm1].
  - rewrite (free_count_insert _ _ _ _ Hx). simpl. lia.
  - apply Forall_forall. intros c Hc. rewrite list_lookup_insert_ne by (by intros ->).
    by eapply Forall_forall in Hf.
Qed.

Lemma free_count_drop rs rs' bs :
  droppable bs rs -> moved (fun i => - occ i bs) rs rs' -> free_count rs <= free_count rs'.
Proof.
  intros [_ Hd] Hm. apply free_count_mono; [by eapply moved_length|].
  intros i [n z] [n' z'] Hx Hy. unfold is_free. simpl. rewrite (moved_lookup _ _ _ _ _ Hm Hx) in Hy.
  injection Hy as <- <-. simpl. destruct z; [by rewrite !andb_false_r|]. rewrite !andb_true_r.
  intros ->%Z.eqb_eq. specialize (Hd _ _ Hx). pose proof (occ_nonneg i bs). apply Z.eqb_eq. lia.
Qed.

(** ** The block pool implements the interface *)

(** The indices of the free blocks, from [k] on. *)
Fixpoint free_ids (k : nat) (rs : list (Z * bool)) : list nat :=
  match rs with
  | [] => []
  | x :: rs' => (if is_free x then [k] else []) ++ free_ids (S k) rs'
  end.

Lemma free_ids_length k rs : Z.of_nat (length (free_ids k rs)) = free_count rs.
Proof.
  unfold free_count. revert k. induction rs as [|x rs IH]; intros k; [done|]. simpl. rewrite filter_cons, length_app.
  specialize (IH (S k)). destruct (is_free x); [rewrite decide_True|rewrite decide_False]; simpl in *; try done; lia.
Qed.

Lemma is_free_true x : is_free x = true <-> x = (0, false).
Proof.
  destruct x as [n [|]]; unfold is_free; simpl; rewrite ?andb_false_r, ?andb_true_r, ?Z.eqb_eq; split; congruence.
Qed.

Lemma free_ids_elem k rs i : i ∈ free_ids k rs <-> (k <= i)%nat /\ rs !! (i - k)%nat = Some (0, false).
Proof.
  revert k. induction rs as [|x rs IH]; intros k; simpl; [rewrite elem_of_nil; naive_solver|].
  assert (Hh : i ∈ (if is_free x then [k] else []) <-> i = k /\ x = (0, false)).
  { rewrite <- is_free_true. destruct (is_free x); [rewrite list_elem_of_singleton|rewrite elem_of_nil]; naive_solver. }
  rewrite elem_of_app, IH, Hh. destruct (decide (i = k)) as [->|Hne].
  - rewrite Nat.sub_diag. simpl. split; [intros [[_ ->]|[? _]]; [done|lia]|]. intros [_ [= ->]]. by left.
  - split.
    + intros [[? _]|[Hk Hi]]; [done|]. split; [lia|]. by replace (i - k)%nat with (S (i - S k)) by lia.
    + intros [Hk Hi]. right. split; [lia|]. by replace (i - k)%nat with (S (i - S k)) in Hi by lia.
Qed.

Lemma free_ids_NoDup k rs : NoDup (free_ids k rs).
Proof.
  revert k. induction rs as [|x rs IH]; intros k; simpl; [constructor|]. apply NoDup_app. split_and!; [|..|apply IH].
  - destruct (is_free x); [apply NoDup_singleton|constructor].
  - intros i Hi [? _]%free_ids_elem. destruct (is_free x); [apply list_elem_of_singleton in Hi; lia|by apply elem_of_nil in Hi].
Qed.

Lemma free_count_list rs l :
  NoDup l -> (forall i, i ∈ l <-> unreferenced rs i) -> free_count rs = Z.of_nat (length l).
Proof.
  intros Hnd Hl. rewrite <- (free_ids_length 0 rs). f_equal. apply Permutation_length, NoDup_Permutation; [apply free_ids_NoDup|done|].
  intros i. rewrite free_ids_elem, Hl, Nat.sub_0_r. unfold unreferenced. split; [tauto|]. split; [lia|done].
Qed.

Section block_pool.
Context (sha256 : bytes -> bytes) (use_int : bool) (set_order : gset bytes -> list bytes).

#[local] Instance block_pool_ops : PoolOps BlockPool := {|
  pool_refs := refs;
  pool_num_free p := num_free_blocks p.(free_block_queue);
  pool_get_new_blocks := get_new_blocks use_int set_order;
  pool_touch := touch;
  pool_free_blocks := free_blocks;
  pool_add_ref b := blk <- get_block b ;; put_block b (set_ref_cnt (blk.(ref_cnt) + 1) blk);
  pool_hash_block_size := hash_block_size;
  pool_cache_full := cache_full_blocks sha256 use_int set_order;
  pool_cache_partial b nt g bsz := cache_partial_block sha256 use_int set_order b nt g bsz ;; ret tt;
|}.

Context (set_order_perm : forall s, set_order s ≡ₚ elements s).

Lemma add_ref_keeps p l b n :
  PoolInv p l -> refs p !! b = Some (n, false) -> 0 < n ->
  exists p', pool_add_ref b p = (Ok tt, p') /\ PoolInv p' l /\ same_cfg p p'
    /\ moved (fun i => if decide (b = i) then 1 else 0) (refs p) (refs p').
Proof.
  intros [Hc Hr] Hb Hn. destruct (refs_lookup_inv _ _ _ _ Hb) as (blk & Hblk & Hcnt & Hz).
  pose proof (put_ref_moved p b blk 1 Hc Hblk) as Hm. cbn [pool_add_ref block_pool_ops].
  rewrite (bind_ok _ _ _ _ _ (get_block_eq p b blk Hblk)). eexists. split; [reflexivity|].
  split; [|split; [apply Hm|exact (rm_refs _ _ _ Hm)]]. split; [apply Hm|]. apply (RefInv_update p _ l l Hr); [apply Hm|apply Hr|apply Hr|..].
  - intros i. rewrite (ri_free _ _ Hr). unfold unreferenced. rewrite (rm_refs _ _ _ Hm).
    destruct (decide (b = i)) as [<-|Hne]; [rewrite Hb; simpl; split; intros [= ?]; lia|].
    destruct (refs p !! i) as [[k z]|]; [|done]. simpl. by rewrite Z.add_0_r.
  - intros i. rewrite (rm_refs _ _ _ Hm). by destruct (refs p !! i).
  - intros i k. rewrite (rm_refs _ _ _ Hm). destruct (refs p !! i) as [[m z]|] eqn:Hi; [|done].
    intros [= <- ->]. pose proof (ri_pos _ _ Hr _ _ Hi). simpl. case_decide; lia.
Qed.

Lemma keeps_request_pool {A} (m : M (BlockPool * Request) A) p r l :
  keeps fst (fun _ => True) m -> PoolInv p l ->
  PoolInv (m (p, r)).2.1 l /\ same_cfg p (m (p, r)).2.1 /\ refs (m (p, r)).2.1 = refs p.
Proof.
  intros Hk [Hc Hr]. destruct (Hk (p, r) Hc I) as [Hc' Hs]. split; [|split; [by apply same_refs_cfg|apply Hs]]. split; [done|].
  by eapply RefInv_same.
Qed.

(** What the operations do not change, such as the settings. *)
Variable J : BlockPool -> Prop.
Hypothesis J_cfg : forall p p', same_cfg p p' -> J p -> J p'.

#[local] Instance block_pool_laws : PoolLaws BlockPool.
Proof.
  refine {| pool_inv p := exists l, PoolInv p l /\ J p |}.
  - intros p (l & [_ Hr] & _). cbn. rewrite (ri_queue _ _ Hr). symmetry. apply free_count_list; apply Hr.
  - intros p (l & [_ Hr] & _). apply Hr.
  - intros p i n (l & [_ Hr] & _). apply Hr.
  - intros p i n (l & [_ Hr] & _). apply Hr.
  - intros p n (l & Hl & Hj) Hn. cbn in Hn. rewrite (ri_queue _ _ (proj2 Hl)) in Hn. cbn in Hn.
    pose proof Hl as Hl'. rewrite <- (take_drop (Z.to_nat n) l) in Hl.
    destruct (get_new_blocks_ok use_int set_order set_order_perm p _ _ Hl) as (p' & Hrun & Hinv & [Hcfg Hr _]).
    rewrite length_take_le, Z2Nat.id in Hrun by lia. set (got := take (Z.to_nat n) l) in *.
    assert (Hf : forall b, b ∈ got -> refs p !! b = Some (0, false)).
    { intros b Hb. apply (ri_free _ _ (proj2 Hl)), elem_of_app. by left. }
    assert (Hnd : NoDup got) by (pose proof (ri_nodup _ _ (proj2 Hl)) as Hx; by apply NoDup_app in Hx as [? _]).
    exists got, p'. split_and!; [done|exists (drop (Z.to_nat n) l); split; [done|by apply (J_cfg p)]| |done|by apply Forall_forall|].
    + unfold got. rewrite length_take_le by lia. lia.
    + intros i. cbn. rewrite Hr. destruct (decide (i ∈ got)) as [Hi|Hi].
      * rewrite (Hf i Hi). simpl. by rewrite (occ_NoDup i got Hnd Hi).
      * rewrite (occ_zero i got Hi). destruct (refs p !! i) as [[k z]|]; [|done]. simpl. by rewrite Z.add_0_r.
  - intros p n (l & Hl & _) Hn. cbn in Hn |- *. rewrite (ri_queue _ _ (proj2 Hl)) in Hn. cbn in Hn.
    by apply (get_new_blocks_too_many use_int set_order p l).
  - intros p bs (l & Hl & Hj) Hv. destruct (touch_spec p l bs Hl Hv) as (p' & Hrun & Hm & Hinv).
    exists p'. split_and!; [done|eexists; split; [done|by apply (J_cfg p), Hj; apply Hm]|exact (rm_refs _ _ _ Hm)].
  - intros p bs (l & Hl & Hj) [Hv Hd]. destruct (free_blocks_spec p l bs Hl Hd Hv) as (p' & Hrun & Hm & Hinv).
    exists p'. split_and!; [done|eexists; split; [done|by apply (J_cfg p), Hj; apply Hm]|exact (rm_refs _ _ _ Hm)].
  - intros p b n (l & Hl & Hj) Hb Hn. destruct (add_ref_keeps p l b n Hl Hb Hn) as (p' & ? & ? & ? & ?).
    exists p'. split_and!; [done|eexists; split; [done|by apply (J_cfg p)]|done].
  - intros p r bs nc nf bsz g mask (l & Hl & Hj). cbn.
    destruct (keeps_request_pool (cache_full_blocks sha256 use_int set_order bs nc nf bsz g mask) p r l) as (? & ? & ?); [|done|by split; [eexists; split; [|apply (J_cfg p)]|]].
    by apply keeps_cache_full_blocks.
  - intros p r b nt g bsz (l & Hl & Hj). cbn.
    destruct (keeps_request_pool (cache_partial_block sha256 use_int set_order b nt g bsz ;; ret tt) p r l) as (? & ? & ?); [|done|by split; [eexists; split; [|apply (J_cfg p)]|]].
    apply keeps_bind; [by apply keeps_cache_partial_block|]. intros. apply keeps_ret.
Defined.
End block_pool.

(** Nothing is asked of the settings. *)
Definition any_pool : BlockPool -> Prop := fun _ => True.

Lemma any_pool_cfg p p' : same_cfg p p' -> any_pool p -> any_pool p'.
Proof. done. Qed.

(** ** References held by block tables *)

Definition tbl (m : Manager) (rid : string) : list nat := default [] (m.(req_to_blocks) !! rid).

Definition held (t : gmap string (list nat)) : list nat := concat (map_to_list t).*2.

(** The copy-on-write endpoints are retained until the copy has run. *)
Definition endpoints (copies : list (nat * nat)) : list nat := concat ((fun c => [c.1; c.2]) <$> copies).

(** Every reference of a manager, and those outside the table of [rid]. *)
Definition holds (m : Manager) : list nat := held m.(req_to_blocks) ++ endpoints m.(pending_cow_copies).

Definition others (m : Manager) (rid : string) : list nat :=
  held (delete rid m.(req_to_blocks)) ++ endpoints m.(pending_cow_copies).

Lemma held_insert t rid bs : held (<[rid := bs]> t) ≡ₚ bs ++ held (delete rid t).
Proof.
  unfold held. rewrite <- insert_delete_eq, map_to_list_insert by apply lookup_delete_eq. done.
Qed.

Lemma held_split t rid : held t ≡ₚ default [] (t !! rid) ++ held (delete rid t).
Proof.
  destruct (t !! rid) as [bs|] eqn:Hb; simpl; [|by rewrite delete_id].
  rewrite <- held_insert, insert_id by done. done.
Qed.

Lemma holds_split m rid : holds m ≡ₚ tbl m rid ++ others m rid.
Proof. unfold holds, others, tbl. rewrite (held_split _ rid). by rewrite app_assoc. Qed.

Lemma endpoints_app l1 l2 : endpoints (l1 ++ l2) = endpoints l1 ++ endpoints l2.
Proof. unfold endpoints. by rewrite fmap_app, concat_app. Qed.

(** A manager changed in the entries of [rid] only. *)
Definition mgr_cfg (m : Manager) :=
  (m.(kv_cache_spec), m.(block_size), m.(scheduler_block_size), m.(mgr_caching), m.(kv_cache_group_id),
   m.(max_admission_blocks), m.(record_new_block_ids), m.(use_eagle)).

Record only_req (rid : string) (m m' : Manager) : Prop := {
  or_cfg : mgr_cfg m' = mgr_cfg m;
  or_table : delete rid m'.(req_to_blocks) = delete rid m.(req_to_blocks);
  or_cached : delete rid m'.(num_cached_block) = delete rid m.(num_cached_block);
  or_partial : delete rid m'.(partial_hit_reqs) = delete rid m.(partial_hit_reqs);
}.

#[global] Instance only_req_preorder rid : PreOrder (only_req rid).
Proof. split; [done|]. intros m1 m2 m3 [] []. split; congruence. Qed.

Lemma or_spec rid m m' : only_req rid m m' -> m'.(kv_cache_spec) = m.(kv_cache_spec).
Proof. intros [Hc _ _ _]. unfold mgr_cfg in Hc. congruence. Qed.

Lemma or_block_size rid m m' : only_req rid m m' -> m'.(block_size) = m.(block_size).
Proof. intros [Hc _ _ _]. unfold mgr_cfg in Hc. congruence. Qed.

Lemma or_caching rid m m' : only_req rid m m' -> m'.(mgr_caching) = m.(mgr_caching).
Proof. intros [Hc _ _ _]. unfold mgr_cfg in Hc. congruence. Qed.

Lemma or_other rid m m' r : only_req rid m m' -> r <> rid -> tbl m' r = tbl m r.
Proof.
  intros [_ Ht _ _] Hne. unfold tbl. rewrite <- (lookup_delete_ne (req_to_blocks m') rid r) by done.
  by rewrite Ht, lookup_delete_ne.
Qed.

Definition put (rid : string) (bs : list nat) (m : Manager) : Manager :=
  set_table (<[rid := bs]> m.(req_to_blocks)) m.

Lemma put_tbl rid bs m : tbl (put rid bs m) rid = bs.
Proof. unfold tbl, put. simpl. by rewrite lookup_insert_eq. Qed.

Lemma put_others rid bs m : others (put rid bs m) rid = others m rid.
Proof. unfold others, put. simpl. by rewrite delete_insert_eq. Qed.

Lemma put_only rid bs m : only_req rid m (put rid bs m).
Proof. unfold put. split; try done. simpl. by rewrite delete_insert_eq. Qed.

Section manager_specs.
Context {P : Type} `{!PoolOps P} `{!PoolLaws P}.
Implicit Types (p : P) (m : Manager) (rid : string).

(** The references [L] account for every count. *)
Record accounts (p : P) (L : list nat) : Prop := {
  ac_inv : pool_inv p;
  ac_count : forall i n, pool_refs p !! i = Some (n, false) -> n = occ i L;
  ac_valid : Forall (fun b => (b < length (pool_refs p))%nat) L;
}.

#[global] Instance accounts_perm p : Proper ((≡ₚ) ==> iff) (accounts p).
Proof.
  intros L L' HL. split; intros [Hi Hc Hv]; split; try done; intros; rewrite ?HL in *; auto; by rewrite <- ?HL in *; auto.
Qed.

Lemma accounts_free p L : accounts p L -> pool_num_free p = free_count (pool_refs p).
Proof. intros [Hi _ _]. by apply pool_num_free_count. Qed.

Lemma accounts_nonneg p L : accounts p L -> counts_nonneg (pool_refs p).
Proof. intros [Hi _ _] i n. by apply pool_nonneg. Qed.

Lemma accounts_null p L : accounts p L -> accounts p (null_block :: L).
Proof.
  intros [Hi Hc Hv]. destruct (pool_null p Hi) as [n0 H0]. split; [done| |].
  - intros i n Hn. rewrite occ_cons, decide_False; [by rewrite Z.add_0_l; apply Hc|].
    intros <-. unfold null_block in *. congruence.
  - constructor; [|done]. by eapply lookup_lt_Some.
Qed.

Lemma accounts_nulls p L k : accounts p L -> accounts p (replicate k null_block ++ L).
Proof. induction k as [|k IH]; [done|]. intros HL. simpl. apply accounts_null. auto. Qed.

Lemma accounts_add p p' bs L :
  pool_inv p' -> Forall (fun b => (b < length (pool_refs p))%nat) bs ->
  moved (fun i => occ i bs) (pool_refs p) (pool_refs p') -> accounts p L -> accounts p' (bs ++ L).
Proof.
  intros Hi' Hb Hm [Hi Hc Hv]. split; [done| |].
  - intros i n Hn. apply (moved_lookup_inv _ _ _ _ _ _ Hm) in Hn. apply Hc in Hn. rewrite occ_app. lia.
  - rewrite (moved_length _ _ _ Hm). by apply Forall_app.
Qed.

Lemma accounts_drop p p' bs L :
  pool_inv p' -> moved (fun i => - occ i bs) (pool_refs p) (pool_refs p') -> accounts p (bs ++ L) -> accounts p' L.
Proof.
  intros Hi' Hm [Hi Hc Hv]. split; [done| |].
  - intros i n Hn. apply (moved_lookup_inv _ _ _ _ _ _ Hm) in Hn. apply Hc in Hn. rewrite occ_app in Hn. lia.
  - rewrite (moved_length _ _ _ Hm). by apply Forall_app in Hv as [_ ?].
Qed.

Lemma accounts_droppable p bs L : accounts p (bs ++ L) -> droppable bs (pool_refs p).
Proof.
  intros [Hi Hc Hv]. split; [by apply Forall_app in Hv as [? _]|]. intros i n Hn. rewrite (Hc _ _ Hn), occ_app.
  pose proof (occ_nonneg i L). lia.
Qed.

(** *** Steps of the operations *)

Lemma on_pool_run {A} (op : M P A) p m r p' : op p = (r, p') -> on_pool_of op (p, m) = (r, (p', m)).
Proof. intros Hr. unfold on_pool_of, zoom. simpl. by rewrite Hr. Qed.

Lemma req_blocks_run rid p m : req_blocks rid (p, m) = (Ok (tbl m rid), (p, put rid (tbl m rid) m)).
Proof.
  unfold req_blocks, tbl, put, get_mgr, upd_mgr. run_monad. simpl.
  destruct (req_to_blocks m !! rid) as [bs|] eqn:Hb; [|done]. simpl. rewrite insert_id by done. by destruct m.
Qed.

Lemma put_blocks_run rid bs p m : put_blocks rid bs (p, m) = (Ok tt, (p, put rid bs m)).
Proof. done. Qed.

Lemma put_put rid bs bs' m : put rid bs (put rid bs' m) = put rid bs m.
Proof. unfold put, set_table. simpl. by rewrite insert_insert_eq. Qed.

Lemma get_new_spec p L n :
  accounts p L -> 0 <= n <= free_count (pool_refs p) ->
  exists bs p', pool_get_new_blocks n p = (Ok bs, p') /\ Z.of_nat (length bs) = n
    /\ accounts p' (bs ++ L) /\ free_count (pool_refs p') = free_count (pool_refs p) - n
    /\ NoDup bs /\ Forall (fun b => pool_refs p !! b = Some (0, false)) bs
    /\ moved (fun i => occ i bs) (pool_refs p) (pool_refs p').
Proof.
  intros Ha Hn. rewrite <- (accounts_free _ _ Ha) in Hn.
  destruct (pool_get_new_ok p n (ac_inv _ _ Ha) Hn) as (bs & p' & Hrun & Hi & Hl & Hnd & Hf & Hm).
  exists bs, p'. split_and!; try done.
  - eapply accounts_add; [done| |exact Hm|done]. eapply Forall_impl; [exact Hf|]. intros b Hb. exact (lookup_lt_Some _ _ _ Hb).
  - rewrite (free_count_take _ _ _ Hnd Hf Hm). lia.
Qed.

Lemma touch_spec' p L bs :
  accounts p L -> Forall (fun b => (b < length (pool_refs p))%nat) bs ->
  exists p', pool_touch bs p = (Ok tt, p') /\ accounts p' (bs ++ L)
    /\ free_count (pool_refs p) - get_num_evictable_blocks (pool_refs p) bs <= free_count (pool_refs p')
    /\ moved (fun i => occ i bs) (pool_refs p) (pool_refs p').
Proof.
  intros Ha Hv. destruct (pool_touch_ok p bs (ac_inv _ _ Ha) Hv) as (p' & Hrun & Hi & Hm).
  exists p'. split_and!; [done|by eapply accounts_add| |done]. apply free_count_touch; [by eapply accounts_nonneg|done..].
Qed.

Lemma free_spec' p L bs :
  accounts p (bs ++ L) ->
  exists p', pool_free_blocks bs p = (Ok tt, p') /\ accounts p' L
    /\ free_count (pool_refs p) <= free_count (pool_refs p')
    /\ moved (fun i => - occ i bs) (pool_refs p) (pool_refs p').
Proof.
  intros Ha. pose proof (accounts_droppable _ _ _ Ha) as Hd.
  destruct (pool_free_ok p bs (ac_inv _ _ Ha) Hd) as (p' & Hrun & Hi & Hm).
  exists p'. split_and!; [done|by eapply accounts_drop|by eapply free_count_drop|done].
Qed.

(** *** Freeing the blocks that left the window *)

Lemma null_out_spec blocks first n freed blocks' :
  null_out blocks first n = (freed, blocks') ->
  length blocks' = length blocks
  /\ (forall i, ~ (first <= i < first + n)%nat -> blocks' !! i = blocks !! i)
  /\ exists k, replicate k null_block ++ blocks ≡ₚ freed ++ blocks'.
Proof.
  revert blocks freed blocks'. induction n as [|n IH]; intros blocks freed blocks'; simpl.
  { intros [= <- <-]. split_and!; try done. by exists 0%nat. }
  destruct (blocks !! (first + n)%nat) as [b|] eqn:Hb.
  2:{ intros [= <- <-]. split_and!; try done. by exists 0%nat. }
  destruct (decide (b = null_block)) as [->|Hne].
  { intros [= <- <-]. split_and!; try done. by exists 0%nat. }
  destruct (null_out (<[(first + n)%nat := null_block]> blocks) first n) as [fr bl] eqn:Hrec.
  intros [= <- <-]. destruct (IH _ _ _ Hrec) as (Hl & Hout & k & Hk). split_and!.
  - by rewrite Hl, length_insert.
  - intros i Hi. rewrite Hout by lia. rewrite list_lookup_insert_ne by lia. done.
  - exists (S k). simpl. rewrite <- Hk.
    assert (Hins : null_block :: blocks ≡ₚ b :: <[(first + n)%nat := null_block]> blocks).
    { rewrite <- (take_drop_middle _ _ _ Hb) at 1. rewrite (insert_take_drop blocks) by (by eapply lookup_lt_Some).
      rewrite <- !Permutation_middle. apply Permutation_swap. }
    rewrite (Permutation_app_comm (replicate k null_block)), app_comm_cons, Hins. simpl.
    by rewrite Permutation_app_comm.
Qed.

Lemma remove_range_spec rid first last p m F :
  accounts p (holds m ++ F) ->
  exists p' m', remove_blocks_in_range rid first last (p, m) = (Ok tt, (p', m'))
    /\ accounts p' (holds m' ++ F) /\ only_req rid m m'
    /\ m'.(num_cached_block) = m.(num_cached_block) /\ m'.(partial_hit_reqs) = m.(partial_hit_reqs)
    /\ length (tbl m' rid) = length (tbl m rid)
    /\ (forall i, 0 <= first -> ~ (first <= Z.of_nat i < last) -> tbl m' rid !! i = tbl m rid !! i)
    /\ length (pool_refs p') = length (pool_refs p).
Proof.
  intros Ha. unfold remove_blocks_in_range, get_mgr. run_monad. simpl.
  destruct (req_to_blocks m !! rid) as [bs|] eqn:Hb; [|exists p, m; split_and!; (done || lia)].
  destruct (Z.geb_spec first last) as [Hge|Hlt]; [exists p, m; split_and!; (done || lia)|].
  destruct (null_out bs (Z.to_nat first) (Z.to_nat (Z.min last (Z.of_nat (length bs)) - first))) as [fr bs'] eqn:Hn.
  destruct (null_out_spec _ _ _ _ _ Hn) as (Hl & Hout & k & Hk).
  assert (Htb : tbl m rid = bs) by (unfold tbl; by rewrite Hb).
  rewrite (bind_ok _ _ _ _ _ (put_blocks_run rid bs' p m)).
  assert (Hacc : accounts p (fr ++ holds (put rid bs' m) ++ F)).
  { rewrite (holds_split (put rid bs' m) rid), put_tbl, put_others, !app_assoc, <- Hk, <- !app_assoc.
    apply accounts_nulls. rewrite app_assoc, <- Htb, <- holds_split. done. }
  assert (Htail : forall i, 0 <= first -> ~ (first <= Z.of_nat i < last) -> bs' !! i = bs !! i).
  { intros i Hf Hi. apply Hout. lia. }
  assert (Hfree : exists p', match fr with [] => ret tt | _ :: _ => on_pool_of (pool_free_blocks fr) end (p, put rid bs' m)
            = (Ok tt, (p', put rid bs' m)) /\ accounts p' (holds (put rid bs' m) ++ F)
            /\ length (pool_refs p') = length (pool_refs p)).
  { destruct fr as [|b fr]; [by exists p|]. destruct (free_spec' _ _ _ Hacc) as (p' & Hrun & Ha' & _ & Hm).
    exists p'. rewrite (on_pool_run _ _ _ _ _ Hrun), (moved_length _ _ _ Hm). done. }
  destruct Hfree as (p' & Hrun & Ha' & Hc). exists p', (put rid bs' m). rewrite Hrun, put_tbl, Htb.
  split_and!; try done. apply put_only.
Qed.

(** What a query at position [q] may read, and what freeing on [processed] tokens
    keeps for every later query. *)
Definition attends (spec : KVCacheSpec) (num_prompt q k : Z) : Prop :=
  0 <= k <= q /\
  match spec with
  | FullAttentionSpec => True
  | RSWASpec w => k < num_prompt \/ q - w <= k
  | SlidingWindowSpec w _ => q - w < k
  | ChunkedLocalAttentionSpec c => k / c = q / c
  end.

Definition spec_wf (spec : KVCacheSpec) : Prop :=
  match spec with
  | FullAttentionSpec => True
  | RSWASpec w => 0 <= w
  | SlidingWindowSpec w extra => 1 <= w /\ 0 <= extra
  | ChunkedLocalAttentionSpec c => 0 < c
  end.

Lemma skipped_nonneg spec n : spec_wf spec -> 0 <= n -> 0 <= get_num_skipped_tokens spec n <= n.
Proof.
  intros Hw Hn. destruct spec as [|w|w e|c]; simpl in *; try lia.
  pose proof (Z.div_mod n c ltac:(lia)). pose proof (Z.mod_pos_bound n c Hw). pose proof (Z.div_pos n c). nia.
Qed.

Lemma attends_not_skipped spec np processed q k :
  spec_wf spec -> (forall w, spec <> RSWASpec w) -> 0 <= processed <= q -> attends spec np q k ->
  get_num_skipped_tokens spec processed <= k.
Proof.
  intros Hw Hr Hq [Hk Ha]. destruct spec as [|w|w e|c]; simpl in *; try lia.
  pose proof (Z.div_mod k c ltac:(lia)). pose proof (Z.mod_pos_bound k c Hw).
  pose proof (Z.div_le_mono processed q c Hw ltac:(lia)). nia.
Qed.

Lemma remove_prefix_spec rid processed p m F :
  accounts p (holds m ++ F) ->
  exists p' m', remove_skipped_prefix rid processed (p, m) = (Ok tt, (p', m'))
    /\ accounts p' (holds m' ++ F) /\ only_req rid m m'
    /\ m'.(num_cached_block) = m.(num_cached_block) /\ m'.(partial_hit_reqs) = m.(partial_hit_reqs)
    /\ length (tbl m' rid) = length (tbl m rid)
    /\ (forall i, get_num_skipped_tokens m.(kv_cache_spec) processed / m.(block_size) <= Z.of_nat i ->
          tbl m' rid !! i = tbl m rid !! i)
    /\ length (pool_refs p') = length (pool_refs p).
Proof.
  intros Ha. unfold remove_skipped_prefix, get_mgr. run_monad. unfold id. simpl.
  destruct (Z.leb_spec (get_num_skipped_tokens (kv_cache_spec m) processed) 0) as [Hle|Hgt].
  { exists p, m. split_and!; (done || lia). }
  rewrite (bind_ok _ _ _ _ _ (req_blocks_run rid p m)). set (m1 := put rid (tbl m rid) m).
  assert (Ha1 : accounts p (holds m1 ++ F)).
  { rewrite (holds_split m1 rid). unfold m1. rewrite put_tbl, put_others, <- holds_split. done. }
  destruct (remove_range_spec rid 0 (Z.min (get_num_skipped_tokens (kv_cache_spec m) processed / block_size m)
              (Z.of_nat (length (tbl m rid)))) p m1 F Ha1)
    as (p' & m' & Hrun & Ha' & Ho & Hc & Hp & Hl & Ht & Hf).
  exists p', m'. unfold m1 in *. rewrite put_tbl in *. split_and!; try done.
  - etransitivity; [apply put_only|exact Ho].
  - intros i Hi. apply Ht; lia.
Qed.

Lemma remove_skipped_spec rid processed np p m F :
  spec_wf m.(kv_cache_spec) -> 0 < m.(block_size) -> 0 <= processed -> 0 <= np ->
  accounts p (holds m ++ F) ->
  exists p' m', remove_skipped_blocks rid processed (Some np) (p, m) = (Ok tt, (p', m'))
    /\ accounts p' (holds m' ++ F) /\ only_req rid m m'
    /\ m'.(num_cached_block) = m.(num_cached_block) /\ m'.(partial_hit_reqs) = m.(partial_hit_reqs)
    /\ length (tbl m' rid) = length (tbl m rid)
    /\ (forall q k, processed <= q -> attends m.(kv_cache_spec) np q k ->
          tbl m' rid !! Z.to_nat (k / m.(block_size)) = tbl m rid !! Z.to_nat (k / m.(block_size)))
    /\ length (pool_refs p') = length (pool_refs p).
Proof.
  intros Hw Hb Hpr Hnp Ha. unfold remove_skipped_blocks, get_mgr. run_monad. unfold id. simpl.
  assert (Hpre : (forall w, kv_cache_spec m <> RSWASpec w) -> forall q k, processed <= q -> attends (kv_cache_spec m) np q k ->
            get_num_skipped_tokens (kv_cache_spec m) processed / block_size m <= Z.of_nat (Z.to_nat (k / block_size m))).
  { intros Hr q k Hq Hk. pose proof (attends_not_skipped _ _ processed q k Hw Hr ltac:(lia) Hk) as Hs.
    destruct Hk as [Hk _]. rewrite Z2Nat.id by (apply Z.div_pos; lia). by apply Z.div_le_mono. }
  destruct (kv_cache_spec m) as [|w|w e|c] eqn:Hs.
  2:{ set (ws := Z.max np (processed - w)).
    destruct (remove_range_spec rid (cdiv np (block_size m)) (ws / block_size m) p m F Ha)
      as (p' & m' & Hrun & Ha' & Ho & Hc & Hp & Hl & Ht & Hf).
    exists p', m'. split_and!; try done. intros q k Hq [Hk Hat]. pose proof (cdiv_spec np _ Hb) as Hcd.
    pose proof (Z.div_mod k (block_size m) ltac:(lia)). pose proof (Z.mod_pos_bound k _ Hb).
    assert (0 <= k / block_size m) by (apply Z.div_pos; lia).
    apply Ht; [nia|]. rewrite Z2Nat.id by done. destruct (Z.lt_ge_cases k np) as [Hlt|Hge]; [nia|].
    assert (ws / block_size m <= k / block_size m); [|lia]. apply Z.div_le_mono; [done|]. simpl in Hat. unfold ws. lia. }
  all: destruct (remove_prefix_spec rid processed p m F Ha) as (p' & m' & Hrun & Ha' & Ho & Hc & Hp & Hl & Ht & Hf);
    rewrite Hs in Ht; exists p', m'; split_and!; try done; intros q k Hq Hk; apply Ht; by eapply Hpre.
Qed.

(** *** Taking prefix-cache hits *)

Definition skip_blocks (m : Manager) (total : Z) : Z :=
  get_num_skipped_tokens m.(kv_cache_spec) total / m.(block_size).

Lemma skip_blocks_bounds m total :
  spec_wf m.(kv_cache_spec) -> 0 < m.(block_size) -> 0 <= total ->
  0 <= skip_blocks m total <= total / m.(block_size).
Proof.
  intros Hw Hb Ht. pose proof (skipped_nonneg _ _ Hw Ht). unfold skip_blocks.
  split; [apply Z.div_pos; lia|apply Z.div_le_mono; lia].
Qed.

(** The table of a request after its hits were added. *)
Definition hit_table (m : Manager) (total : Z) (cb : list nat) : list nat :=
  replicate (Z.to_nat (skip_blocks m total)) null_block ++ drop (Z.to_nat (skip_blocks m total)) cb.

Lemma hit_table_length m total cb :
  0 <= skip_blocks m total ->
  Z.of_nat (length (hit_table m total cb)) = Z.max (skip_blocks m total) (Z.of_nat (length cb)).
Proof. intros Hs. unfold hit_table. rewrite length_app, length_replicate, length_drop. lia. Qed.

Lemma add_local_spec rid cb nl ne p m F :
  let comp := drop (Z.to_nat (skip_blocks m (nl + ne))) cb in
  0 <= skip_blocks m (nl + ne) -> accounts p (holds m ++ F) -> tbl m rid = [] ->
  Forall (fun b => (b < length (pool_refs p))%nat) comp -> (m.(mgr_caching) = true \/ comp = []) ->
  exists p' m', add_local_computed_blocks rid cb nl ne (p, m) = (Ok tt, (p', m'))
    /\ accounts p' (holds m' ++ F) /\ only_req rid m m' /\ tbl m' rid = hit_table m (nl + ne) cb
    /\ is_Some (m'.(num_cached_block) !! rid)
    /\ m'.(partial_hit_reqs) !! rid
       = (if has_partial_local_hit m comp nl
          then Some (nl / m.(block_size), default null_block (last comp)) else m.(partial_hit_reqs) !! rid)
    /\ free_count (pool_refs p) - get_num_evictable_blocks (pool_refs p) comp <= free_count (pool_refs p')
    /\ moved (fun i => occ i comp) (pool_refs p) (pool_refs p').
Proof.
  intros comp Hs Ha Htb Hv Hc. unfold add_local_computed_blocks.
  rewrite (bind_ok _ _ _ _ _ (req_blocks_run rid p m)), Htb.
  rewrite bool_decide_eq_true_2 by done. unfold check at 1. run_monad. unfold get_mgr. run_monad. unfold id. simpl.
  fold (skip_blocks m (nl + ne)). set (k := skip_blocks m (nl + ne)) in *.
  replace (if k >? 0 then drop (Z.to_nat k) cb else cb) with comp.
  2:{ unfold comp. rewrite Z.gtb_ltb. destruct (Z.ltb_spec 0 k); [done|]. by replace k with 0 by lia. }
  set (m1 := put rid [] m).
  assert (Hh : forall m2, holds m2 ≡ₚ tbl m2 rid ++ others m2 rid) by (intros; apply holds_split).
  assert (Htouch : exists p', (if mgr_caching m then on_pool_of (pool_touch comp)
                     else check (bool_decide (comp = [])) AssertionError) (p, m1) = (Ok tt, (p', m1))
            /\ accounts p' (comp ++ holds m ++ F)
            /\ free_count (pool_refs p) - get_num_evictable_blocks (pool_refs p) comp <= free_count (pool_refs p')
            /\ moved (fun i => occ i comp) (pool_refs p) (pool_refs p')).
  { destruct (mgr_caching m) eqn:Hmc.
    - destruct (touch_spec' _ _ _ Ha Hv) as (p' & Hrun & Hr). exists p'. by rewrite (on_pool_run _ _ _ _ _ Hrun).
    - destruct Hc as [|Hc]; [done|]. rewrite Hc in *. exists p. rewrite bool_decide_eq_true_2 by done. split_and!; try done.
      + pose proof (evictable_nonneg (pool_refs p) []). lia.
      + intros i. destruct (pool_refs p !! i) as [[n z]|]; [|done]. simpl. by rewrite Z.add_0_r. }
  destruct Htouch as (p' & Hrun & Ha' & Hf & Hm). rewrite (bind_ok _ _ _ _ _ Hrun).
  set (bs := replicate (Z.to_nat k) null_block ++ comp).
  rewrite (bind_ok _ _ _ _ _ (put_blocks_run rid bs p' m1)). unfold m1. rewrite put_put.
  assert (Hput : forall m2, others m2 rid = others m rid -> tbl m2 rid = bs -> accounts p' (holds m2 ++ F)).
  { intros m2 Ho Ht. rewrite (Hh m2), Ho, Ht. unfold bs. rewrite <- !app_assoc. apply accounts_nulls.
    rewrite (Hh m), Htb in Ha'. simpl in Ha'. exact Ha'. }
  unfold upd_mgr. run_monad. simpl. set (has := has_partial_local_hit m comp nl).
  change (has_partial_local_hit (put rid [] m) comp nl) with has.
  assert (Ho : others (put rid bs m) rid = others m rid) by apply put_others.
  assert (Htb' : tbl (put rid bs m) rid = bs) by apply put_tbl.
  destruct has eqn:Hhas.
  - eexists p', _. split_and!; [reflexivity| | |exact Htb'| | |done|done].
    + apply Hput; [exact Ho|exact Htb'].
    + destruct (put_only rid bs m) as [? ? ? ?]. split; simpl; rewrite ?delete_insert_eq; done.
    + simpl. rewrite lookup_insert_eq. eauto.
    + simpl. by rewrite lookup_insert_eq.
  - eexists p', _. split_and!; [reflexivity| | |exact Htb'| | |done|done].
    + apply Hput; [exact Ho|exact Htb'].
    + destruct (put_only rid bs m) as [? ? ? ?]. split; simpl; rewrite ?delete_insert_eq; done.
    + simpl. rewrite lookup_insert_eq. eauto.
    + done.
Qed.

Lemma record_ids_run bs p m :
  exists m', record_ids bs (p, m) = (Ok tt, (p, m')) /\ (m' = m \/ m' = set_new_ids (m.(new_block_ids) ++ bs) m).
Proof. unfold record_ids, upd_mgr, modify. simpl. destruct (record_new_block_ids m); eauto. Qed.

(** Appending freshly allocated blocks to a table. *)
Lemma extend_spec rid n p m F :
  accounts p (holds m ++ F) -> 0 <= n <= free_count (pool_refs p) ->
  exists al p' m', (allocated <- on_pool_of (pool_get_new_blocks n) ;;
                    put_blocks rid (tbl m rid ++ allocated) ;; record_ids allocated ;; ret allocated) (p, m)
                   = (Ok al, (p', m'))
    /\ Z.of_nat (length al) = n /\ accounts p' (holds m' ++ F) /\ only_req rid m m'
    /\ tbl m' rid = tbl m rid ++ al
    /\ m'.(num_cached_block) = m.(num_cached_block) /\ m'.(partial_hit_reqs) = m.(partial_hit_reqs)
    /\ free_count (pool_refs p') = free_count (pool_refs p) - n
    /\ NoDup al /\ Forall (fun b => pool_refs p !! b = Some (0, false)) al
    /\ moved (fun i => occ i al) (pool_refs p) (pool_refs p').
Proof.
  intros Ha Hn. destruct (get_new_spec _ _ _ Ha Hn) as (al & p' & Hrun & Hl & Ha' & Hf & Hnd & Hfr & Hm).
  rewrite (bind_ok _ _ _ _ _ (on_pool_run _ _ m _ _ Hrun)).
  rewrite (bind_ok _ _ _ _ _ (put_blocks_run rid (tbl m rid ++ al) p' m)).
  destruct (record_ids_run al p' (put rid (tbl m rid ++ al) m)) as (m' & Hrec & Hm').
  rewrite (bind_ok _ _ _ _ _ Hrec). exists al, p', m'.
  assert (Hsame : tbl m' rid = tbl m rid ++ al /\ others m' rid = others m rid /\ only_req rid m m'
                  /\ num_cached_block m' = num_cached_block m /\ partial_hit_reqs m' = partial_hit_reqs m).
  { pose proof (put_tbl rid (tbl m rid ++ al) m). pose proof (put_others rid (tbl m rid ++ al) m).
    pose proof (put_only rid (tbl m rid ++ al) m) as [? ? ? ?]. by destruct Hm' as [->| ->]. }
  destruct Hsame as (Ht & Ho & Hor & Hc & Hp). split_and!; try done.
  rewrite (holds_split m' rid), Ht, Ho, (Permutation_app_comm (tbl m rid) al), <- !app_assoc.
  by rewrite (app_assoc (tbl m rid) (others m rid)), <- holds_split.
Qed.

Definition external_need (rid : string) (m : Manager) (nl ne : Z) : Z :=
  let skipped := get_num_skipped_tokens m.(kv_cache_spec) (nl + ne) in
  if (if skipped >? 0 then Z.min (nl + ne - skipped) ne else ne) <=? 0 then 0
  else cdiv (nl + ne) m.(block_size) - Z.of_nat (length (tbl m rid)).

Lemma external_spec rid nl ne p m F :
  accounts p (holds m ++ F) -> 0 <= external_need rid m nl ne <= free_count (pool_refs p) ->
  exists al p' m', allocate_external_computed_blocks rid nl ne (p, m) = (Ok tt, (p', m'))
    /\ Z.of_nat (length al) = external_need rid m nl ne
    /\ accounts p' (holds m' ++ F) /\ only_req rid m m' /\ tbl m' rid = tbl m rid ++ al
    /\ m'.(num_cached_block) = m.(num_cached_block) /\ m'.(partial_hit_reqs) = m.(partial_hit_reqs)
    /\ free_count (pool_refs p') = free_count (pool_refs p) - external_need rid m nl ne
    /\ Forall (fun b => pool_refs p !! b = Some (0, false)) al
    /\ moved (fun i => occ i al) (pool_refs p) (pool_refs p').
Proof.
  intros Ha. unfold external_need, allocate_external_computed_blocks, get_mgr. run_monad. unfold id. simpl.
  destruct (_ <=? 0).
  { intros _. exists [], p, m. rewrite app_nil_r, Z.sub_0_r. split_and!; try done.
    intros i. destruct (pool_refs p !! i) as [[n z]|]; [|done]. simpl. by rewrite Z.add_0_r. }
  intros Hn. rewrite (bind_ok _ _ _ _ _ (req_blocks_run rid p m)). set (m1 := put rid (tbl m rid) m).
  assert (Ht1 : tbl m1 rid = tbl m rid) by apply put_tbl.
  assert (Ha1 : accounts p (holds m1 ++ F)) by (by rewrite (holds_split m1 rid), Ht1; unfold m1; rewrite put_others, <- holds_split).
  destruct (extend_spec rid _ p m1 F Ha1 Hn) as (al & p' & m' & Hrun & Hl & Ha' & Ho & Ht & Hc & Hp & Hf & _ & Hal & Hm).
  exists al, p', m'. rewrite Ht1 in *. split_and!; try done; [|etransitivity; [apply put_only|done]].
  unfold bind in Hrun |- *. destruct (on_pool_of _ _) as [[a|e] s]; [|done].
  destruct (put_blocks _ _ s) as [[[]|e] s1]; [|done]. destruct (record_ids a s1) as [[[]|e] s2]; [|done].
  by injection Hrun as _ ->.
Qed.

(** *** Allocation *)

Definition partial_hit (m : Manager) (rid : string) : option (Z * nat) := m.(partial_hit_reqs) !! rid.

(** A recorded partial hit names the block it will replace. *)
Definition partial_ok (m : Manager) (rid : string) : Prop :=
  forall idx src, partial_hit m rid = Some (idx, src) ->
    0 <= idx /\ tbl m rid !! Z.to_nat idx = Some src /\ src <> null_block.

Definition copies_due (m : Manager) (rid : string) : Z :=
  match partial_hit m rid with Some _ => 1 | None => 0 end.

Lemma held_count p L b :
  accounts p L -> b ∈ L -> b <> null_block -> exists n, pool_refs p !! b = Some (n, false) /\ 0 < n.
Proof.
  intros Ha Hb Hne. pose proof (ac_valid _ _ Ha) as Hv. eapply Forall_forall in Hv; [|exact Hb].
  destruct (lookup_lt_is_Some_2 _ _ Hv) as [[n [|]] Hn].
  - apply pool_only_null in Hn; [done|apply Ha].
  - exists n. split; [done|]. rewrite (ac_count _ _ Ha _ _ Hn). pose proof (occ_pos b L Hb). lia.
Qed.

Lemma list_insert_perm (l : list nat) i x y : l !! i = Some x -> x :: <[i := y]> l ≡ₚ y :: l.
Proof.
  intros Hi. rewrite (insert_take_drop l) by (by eapply lookup_lt_Some).
  rewrite <- (take_drop_middle l i x Hi) at 3. rewrite <- !Permutation_middle. apply Permutation_swap.
Qed.

Lemma apply_cow_spec rid idx src cow p m F n :
  accounts p (cow :: holds m ++ F) -> 0 <= idx -> tbl m rid !! Z.to_nat idx = Some src -> src <> null_block ->
  pool_refs p !! cow = Some (n, false) -> 0 < n ->
  exists p' m', apply_cow rid idx src cow (p, m) = (Ok tt, (p', m'))
    /\ accounts p' (holds m' ++ F) /\ only_req rid m m'
    /\ m'.(num_cached_block) = m.(num_cached_block) /\ m'.(partial_hit_reqs) = m.(partial_hit_reqs)
    /\ tbl m' rid = <[Z.to_nat idx := cow]> (tbl m rid)
    /\ moved (fun i => if decide (cow = i) then 1 else 0) (pool_refs p) (pool_refs p').
Proof.
  intros Ha Hi Hs Hne Hc Hn. unfold apply_cow. rewrite (bind_ok _ _ _ _ _ (req_blocks_run rid p m)).
  pose proof (lookup_lt_Some _ _ _ Hs) as Hlt.
  rewrite (proj2 (Z.ltb_lt _ _)), bool_decide_eq_true_2 by (done || lia). unfold check at 1 2. run_monad.
  assert (Hin : src ∈ cow :: holds m ++ F).
  { right. rewrite (holds_split m rid), !elem_of_app. left. left. by eapply list_elem_of_lookup_2. }
  destruct (held_count _ _ _ Ha Hin Hne) as (k & Hk & Hk0). simpl. rewrite Hk. simpl.
  destruct (Z.gtb_spec k 0); [|lia]. unfold check. run_monad.
  rewrite (bind_ok _ _ _ _ _ (put_blocks_run rid _ p _)), put_put. unfold upd_mgr. run_monad. simpl.
  set (bs := <[Z.to_nat idx := cow]> (tbl m rid)). set (m1 := set_pending _ _).
  destruct (pool_add_ref_ok p cow n (ac_inv _ _ Ha) Hc Hn) as (p' & Hrun & Hinv & Hm).
  exists p', m1. rewrite (on_pool_run _ _ _ _ _ Hrun).
  assert (Ht : tbl m1 rid = bs) by (apply (put_tbl rid bs m)). split_and!; try done.
  - assert (Hm' : moved (fun i => occ i [cow]) (pool_refs p) (pool_refs p')).
    { eapply moved_ext; [|exact Hm]. intros i. by rewrite occ_cons, occ_nil, Z.add_0_r. }
    assert (Hv : Forall (fun b => (b < length (pool_refs p))%nat) [cow]).
    { constructor; [by eapply lookup_lt_Some|constructor]. }
    pose proof (accounts_add p p' [cow] _ Hinv Hv Hm' Ha) as Ha'.
    eapply accounts_perm; [|exact Ha']. rewrite (holds_split m1 rid), Ht, (holds_split m rid).
    unfold others. subst m1. cbn [req_to_blocks pending_cow_copies set_pending put set_table].
    rewrite delete_insert_eq, endpoints_app. unfold endpoints at 2. simpl.
    transitivity ((src :: bs) ++ held (delete rid (req_to_blocks m)) ++ endpoints (pending_cow_copies m) ++ cow :: F).
    { simpl. rewrite <- !app_assoc. simpl. solve_Permutation. }
    unfold bs. rewrite (list_insert_perm _ _ _ cow Hs). simpl. rewrite <- !app_assoc. solve_Permutation.
  - pose proof (put_only rid bs m) as [? ? ? ?]. by split.
Qed.

(** Where the blocks [got] went: the first replaces the block of a partial hit, if
    there is one, and the others are appended. *)
Definition placed (rid : string) (m : Manager) (got t' : list nat) : Prop :=
  match partial_hit m rid with
  | None => t' = tbl m rid ++ got
  | Some (idx, _) => exists cow al, got = cow :: al /\ t' = <[Z.to_nat idx := cow]> (tbl m rid) ++ al
  end.

Lemma placed_new rid m got t' i b :
  placed rid m got t' -> t' !! i = Some b ->
  b ∈ got \/ (tbl m rid !! i = Some b /\ forall idx src, partial_hit m rid = Some (idx, src) -> Z.to_nat idx <> i).
Proof.
  unfold placed. destruct (partial_hit m rid) as [[idx src]|].
  - intros (cow & al & -> & ->) Hb. apply lookup_app_Some in Hb as [Hb|[_ Hb]].
    2:{ left. right. by eapply list_elem_of_lookup_2. }
    apply list_lookup_insert_Some in Hb as [(<- & -> & _)|[Hne Hb]]; [left; by left|]. right. split; [done|]. naive_solver.
  - intros -> Hb. apply lookup_app_Some in Hb as [Hb|[_ Hb]]; [by right|left]. by eapply list_elem_of_lookup_2.
Qed.

Lemma placed_keeps rid m got t' i b :
  placed rid m got t' -> tbl m rid !! i = Some b -> (forall idx src, partial_hit m rid = Some (idx, src) -> Z.to_nat idx <> i) ->
  t' !! i = Some b.
Proof.
  unfold placed. destruct (partial_hit m rid) as [[idx src]|].
  - intros (cow & al & -> & ->) Hb Hi. apply lookup_app_l_Some. by rewrite list_lookup_insert_ne by naive_solver.
  - intros -> Hb _. by apply lookup_app_l_Some.
Qed.

Lemma redirect_spec rid p m F :
  accounts p (holds m ++ F) -> partial_ok m rid -> copies_due m rid <= free_count (pool_refs p) ->
  exists cows p' m', redirect_partial_hit rid (p, m) = (Ok cows, (p', m'))
    /\ accounts p' (holds m' ++ F) /\ only_req rid m m'
    /\ m'.(num_cached_block) = m.(num_cached_block) /\ partial_hit m' rid = None
    /\ length (tbl m' rid) = length (tbl m rid)
    /\ free_count (pool_refs p') = free_count (pool_refs p) - copies_due m rid
    /\ Forall (fun b => pool_refs p !! b = Some (0, false)) cows
    /\ placed rid m cows (tbl m' rid)
    /\ (forall i, (1 <= i)%nat -> pool_refs p !! i <> Some (0, false) -> pool_refs p' !! i = pool_refs p !! i).
Proof.
  intros Ha Hok Hfree. unfold redirect_partial_hit, get_mgr, copies_due, partial_hit in *. run_monad. simpl.
  destruct (partial_hit_reqs m !! rid) as [[idx src]|] eqn:Hp.
  2:{ exists [], p, m. split_and!; try done; [lia|]. unfold placed, partial_hit. by rewrite Hp, app_nil_r. }
  destruct (Hok idx src Hp) as (Hi & Hs & Hne). unfold upd_mgr at 1. run_monad. simpl.
  set (m1 := set_partial (delete rid (partial_hit_reqs m)) m).
  assert (Ha1 : accounts p (holds m1 ++ F)) by done.
  destruct (get_new_spec _ _ 1 Ha1 ltac:(lia)) as (got & p1 & Hrun & Hl & Ha2 & Hf & Hnd & Hfr & Hm).
  rewrite (bind_ok _ _ _ _ _ (on_pool_run _ _ m1 _ _ Hrun)).
  destruct got as [|cow [|c got]]; try (simpl in Hl; lia).
  pose proof (Forall_inv Hfr) as Hcow. simpl in Hcow.
  pose proof (moved_lookup _ _ _ _ _ Hm Hcow) as Hcow1. cbv beta in Hcow1.
  rewrite occ_cons, decide_True, occ_nil in Hcow1 by done. simpl in Hcow1.
  destruct (apply_cow_spec rid idx src cow p1 m1 F 1 Ha2 Hi Hs Hne Hcow1 ltac:(lia))
    as (p2 & m2 & Hrun2 & Ha3 & Ho & Hc & Hp2 & Ht & Hm2).
  rewrite (bind_ok _ _ _ _ _ Hrun2). unfold upd_mgr. run_monad. simpl.
  set (m3 := set_new_ids _ m2). exists [cow], p2, m3. split_and!; try done.
  - assert (H1 : only_req rid m m1) by (split; try done; simpl; by rewrite delete_delete_eq).
    etransitivity; [exact H1|]. destruct Ho. by split.
  - simpl. rewrite Hp2. simpl. apply lookup_delete_eq.
  - change (tbl m3 rid) with (tbl m2 rid). by rewrite Ht, length_insert.
  - rewrite (moved_one _ _ _ _ _ Hm2 Hcow1), (free_count_insert _ _ _ _ Hcow1), Hf. simpl. lia.
  - unfold placed, partial_hit. rewrite Hp. exists cow, []. by rewrite app_nil_r.
  - intros i Hi1 Hnf. assert (i <> cow) by (intros ->; done). rewrite Hm2, Hm, occ_cons, !decide_False, occ_nil by done.
    destruct (pool_refs p !! i) as [[n z]|]; [|done]. simpl. by rewrite !Z.add_0_r.
Qed.

Definition owed_new (rid : string) (n : Z) (m : Manager) : Z :=
  Z.max (cdiv n m.(block_size) - Z.of_nat (length (tbl m rid))) 0 + copies_due m rid.

Lemma copies_due_nonneg m rid : 0 <= copies_due m rid.
Proof. unfold copies_due. destruct (partial_hit m rid); lia. Qed.

Lemma owed_new_nonneg rid n m : 0 <= owed_new rid n m.
Proof. unfold owed_new. pose proof (copies_due_nonneg m rid). lia. Qed.

Lemma allocate_new_spec rid n p m F :
  accounts p (holds m ++ F) -> partial_ok m rid -> owed_new rid n m <= free_count (pool_refs p) ->
  exists got p' m', allocate_new_blocks rid n (p, m) = (Ok got, (p', m'))
    /\ accounts p' (holds m' ++ F) /\ only_req rid m m'
    /\ m'.(num_cached_block) = m.(num_cached_block) /\ partial_hit m' rid = None
    /\ Z.of_nat (length (tbl m' rid)) = Z.max (cdiv n m.(block_size)) (Z.of_nat (length (tbl m rid)))
    /\ free_count (pool_refs p') = free_count (pool_refs p) - owed_new rid n m
    /\ Forall (fun b => pool_refs p !! b = Some (0, false)) got /\ placed rid m got (tbl m' rid).
Proof.
  intros Ha Hok Hfree. unfold allocate_new_blocks, owed_new in *. pose proof (copies_due_nonneg m rid).
  destruct (redirect_spec rid p m F Ha Hok ltac:(lia)) as (cows & p1 & m1 & Hrun & Ha1 & Ho1 & Hc1 & Hp1 & Hl1 & Hf1 & Hcf & Hpl & Hsame).
  rewrite (bind_ok _ _ _ _ _ Hrun), (bind_ok _ _ _ _ _ (req_blocks_run rid p1 m1)). unfold get_mgr. run_monad. simpl.
  rewrite (or_block_size _ _ _ Ho1), Hl1. set (m2 := put rid (tbl m1 rid) m1).
  assert (Ht2 : tbl m2 rid = tbl m1 rid) by apply put_tbl.
  assert (Ha2 : accounts p1 (holds m2 ++ F)) by (by rewrite (holds_split m2 rid), Ht2; unfold m2; rewrite put_others, <- holds_split).
  assert (Ho2 : only_req rid m m2) by (etransitivity; [exact Ho1|apply put_only]).
  set (k := cdiv n (block_size m) - Z.of_nat (length (tbl m rid))) in *.
  destruct (Z.leb_spec k 0) as [Hk|Hk].
  { exists cows, p1, m2. rewrite Ht2, Hl1. split_and!; try done; lia. }
  destruct (extend_spec rid k p1 m2 F Ha2 ltac:(lia)) as (al & p' & m' & Hrun2 & Hl & Ha' & Ho & Ht & Hc & Hp & Hf & Hnd & Hal & Hm).
  exists (cows ++ al), p', m'. rewrite Ht2 in Hrun2, Ht. split_and!; try done.
  - unfold bind in Hrun2 |- *. destruct (on_pool_of _ _) as [[a|e] s]; [|done].
    destruct (put_blocks _ _ s) as [[[]|e] s1]; [|done]. destruct (record_ids a s1) as [[[]|e] s2]; [|done].
    by injection Hrun2 as -> ->.
  - by etransitivity.
  - rewrite Hc. exact Hc1.
  - unfold partial_hit. rewrite Hp. exact Hp1.
  - rewrite Ht, length_app, Hl1. lia.
  - rewrite Hf, Hf1. lia.
  - apply Forall_app. split; [done|]. apply Forall_forall. intros b Hb. eapply Forall_forall in Hal; [|exact Hb]. simpl in Hal.
    destruct (decide (pool_refs p !! b = Some (0, false))) as [|Hnf]; [done|].
    destruct b as [|b]; [by destruct (pool_null p1 (ac_inv _ _ Ha1)) as [? ?]; congruence|].
    by rewrite <- (Hsame (S b)) by (done || lia).
  - rewrite Ht. unfold placed in *. destruct (partial_hit m rid) as [[idx src]|].
    + destruct Hpl as (cow & al0 & -> & ->). exists cow, (al0 ++ al). by rewrite app_assoc.
    + by rewrite Hpl, app_assoc.
Qed.

(** *** Returning the blocks of a request *)

Lemma pop_blocks_spec rid p m :
  exists m', pop_blocks_for_free rid (p, m) = (Ok (tbl m rid), (p, m'))
    /\ only_req rid m m' /\ m'.(req_to_blocks) !! rid = None /\ m'.(num_cached_block) !! rid = None
    /\ partial_hit m' rid = None /\ holds m ≡ₚ tbl m rid ++ holds m'.
Proof.
  unfold pop_blocks_for_free, get_mgr, upd_mgr. run_monad. eexists. split; [reflexivity|]. simpl. split_and!.
  - split; try done; simpl; by rewrite delete_delete_eq.
  - apply lookup_delete_eq.
  - apply lookup_delete_eq.
  - apply lookup_delete_eq.
  - apply holds_split.
Qed.

Lemma mgr_free_spec rid p m F :
  accounts p (holds m ++ F) ->
  exists p' m', mgr_free rid (p, m) = (Ok tt, (p', m'))
    /\ accounts p' (holds m' ++ F) /\ only_req rid m m' /\ m'.(req_to_blocks) !! rid = None
    /\ m'.(num_cached_block) !! rid = None /\ partial_hit m' rid = None.
Proof.
  intros Ha. unfold mgr_free. destruct (pop_blocks_spec rid p m) as (m' & Hrun & Ho & Ht & Hc & Hp & Hh).
  rewrite (bind_ok _ _ _ _ _ Hrun). assert (Ha' : accounts p (reverse (tbl m rid) ++ holds m' ++ F)).
  { by rewrite reverse_Permutation, app_assoc, <- Hh. }
  destruct (free_spec' _ _ _ Ha') as (p' & Hrun2 & Ha2 & _). exists p', m'. rewrite (on_pool_run _ _ _ _ _ Hrun2). done.
Qed.

(** *** The predictor *)

Definition owed_hit (rid : string) (n total nl : Z) (rs : list (Z * bool)) (m : Manager) (cb : list nat) : Z :=
  Z.max (cdiv n m.(block_size) - Z.max (skip_blocks m total) (Z.of_nat (length cb))) 0
  + (if has_partial_local_hit m cb nl then 1 else 0)
  + get_num_evictable_blocks rs (drop (Z.to_nat (skip_blocks m total)) cb).

Lemma predict_fresh rid n cb total nl p m :
  0 <= skip_blocks m total -> tbl m rid = [] -> m.(num_cached_block) !! rid = None ->
  get_num_blocks_to_allocate rid n cb total nl false (p, m)
  = (Ok (owed_hit rid n total nl (pool_refs p) m cb), (p, m)).
Proof.
  intros Hs Ht Hc. unfold get_num_blocks_to_allocate, get_mgr, owed_hit. run_monad. change (id (p, m).2) with m.
  fold (tbl m rid) (skip_blocks m total). rewrite Hc, Ht. run_monad. cbn [length fst snd].
  change (Z.of_nat 0) with 0. rewrite Z.sub_0_r, Z.add_0_r, (Z.max_r 0) by done.
  by destruct (max_admission_blocks m).
Qed.

Lemma predict_running rid n total nl p m :
  skip_blocks m total <= Z.of_nat (length (tbl m rid)) -> partial_hit m rid = None ->
  get_num_blocks_to_allocate rid n [] total nl false (p, m) = (Ok (owed_new rid n m), (p, m)).
Proof.
  intros Hs Hp. unfold get_num_blocks_to_allocate, get_mgr, owed_new, copies_due. run_monad. change (id (p, m).2) with m.
  rewrite Hp. fold (tbl m rid) (skip_blocks m total).
  destruct (num_cached_block m !! rid); [rewrite bool_decide_eq_true_2 by done; unfold check|]; run_monad;
    unfold ret; rewrite ?drop_nil; destruct (max_admission_blocks m); do 2 f_equal;
    unfold get_num_evictable_blocks, has_partial_local_hit; simpl; lia.
Qed.

Lemma get_num_pure rid n cb total nl cap p m :
  exists r, get_num_blocks_to_allocate rid n cb total nl cap (p, m) = (r, (p, m))
    /\ (cb = [] \/ m.(num_cached_block) !! rid = None -> exists k, r = Ok k).
Proof.
  unfold get_num_blocks_to_allocate, get_mgr. run_monad. change (id (p, m).2) with m.
  destruct (num_cached_block m !! rid); [|eexists; split; [reflexivity|eauto]].
  destruct (bool_decide_reflect (cb = [])); unfold check; eexists; (split; [reflexivity|]); [eauto|]. by intros [?|?].
Qed.
End manager_specs.
