(* ===== verification/KVCoordinatorProps.v ===== *)
(** * What the KV-cache manager guarantees

    For every implementation of the pool interface: [allocate_slots] either refuses
    or gives the request a block for every token it needs, and never runs the pool
    dry halfway; in every reachable state the reference count of a block is the
    number of block tables, pending copies and deferred frees that hold it. *)

From S2P Require Import Prelude FreeQueue BlockHash BlockPool BlockPoolProps KVManager KVCoordinator KVManagerProps.

Section coordinator_specs.
Context {P : Type} `{!PoolOps P} `{!PoolLaws P}.
Implicit Types (p : P) (m : Manager) (ms : list Manager) (rid : string).

(** ** Loops over the managers *)

Lemma each_mgr_ind {A} (f : nat -> M (P * Manager) A) (I : list Manager -> P -> list Manager -> list A -> Prop) :
  (forall done p m todo out, I done p (m :: todo) out ->
     exists a p' m', f (length done) (p, m) = (Ok a, (p', m')) /\ I (done ++ [m']) p' todo (out ++ [a])) ->
  forall p ms, I [] p ms [] ->
  exists out p' ms', for_mgrs f (p, ms) = (Ok out, (p', ms')) /\ I ms' p' [] out.
Proof.
  intros Hstep p ms H0.
  assert (Hgen : forall todo done p out, I done p todo out ->
    exists out' p' ms', each_mgr f (length done) p todo = (Ok out', (p', ms')) /\ I (done ++ ms') p' [] (out ++ out')).
  { intros todo. induction todo as [|m todo IH]; intros done p0 out Hi; simpl.
    - exists [], p0, []. by rewrite !app_nil_r.
    - destruct (Hstep _ _ _ _ _ Hi) as (a & p1 & m1 & -> & Hi1).
      destruct (IH _ _ _ Hi1) as (out' & p2 & ms2 & Hrun & Hi2). rewrite length_app, Nat.add_comm in Hrun. simpl in Hrun.
      rewrite Hrun. exists (a :: out'), p2, (m1 :: ms2). by rewrite <- !app_assoc in Hi2. }
  destruct (Hgen ms [] p [] H0) as (out & p' & ms' & Hrun & Hi). exists out, p', ms'. done.
Qed.

Lemma for_mgrs_pure {A} (f : nat -> M (P * Manager) A) (v : nat -> Manager -> A) p ms :
  (forall i m, ms !! i = Some m -> f i (p, m) = (Ok (v i m), (p, m))) ->
  for_mgrs f (p, ms) = (Ok (imap v ms), (p, ms)).
Proof.
  intros Hf. unfold for_mgrs. simpl.
  assert (Hgen : forall k, (forall i m, ms !! i = Some m -> f (k + i)%nat (p, m) = (Ok (v (k + i)%nat m), (p, m))) ->
    each_mgr f k p ms = (Ok (imap (fun i => v (k + i)%nat) ms), (p, ms))).
  { clear Hf. induction ms as [|m ms IH]; intros k Hf; [done|]. simpl.
    pose proof (Hf 0%nat m eq_refl) as H0. rewrite Nat.add_0_r in H0. rewrite H0.
    rewrite (IH (S k)). 2:{ intros i m' Hm. specialize (Hf (S i) m' Hm). by replace (S k + i)%nat with (k + S i)%nat by lia. }
    rewrite Nat.add_0_r. do 3 f_equal. apply imap_ext. intros i x _. simpl. by replace (k + S i)%nat with (S (k + i)) by lia. }
  rewrite (Hgen 0%nat); [done|]. intros i m Hm. by apply Hf.
Qed.

(** ** The invariant *)

Definition all_holds (ms : list Manager) : list nat := concat (holds <$> ms).

Lemma all_holds_app ms1 ms2 : all_holds (ms1 ++ ms2) = all_holds ms1 ++ all_holds ms2.
Proof. unfold all_holds. by rewrite fmap_app, concat_app. Qed.

(** Moving the managers already visited and those to come into the frame. *)
Lemma focus p ms1 m ms2 F :
  accounts p (all_holds (ms1 ++ m :: ms2) ++ F) <-> accounts p (holds m ++ all_holds (ms1 ++ ms2) ++ F).
Proof.
  rewrite !all_holds_app. unfold all_holds at 2. simpl. fold (all_holds ms2).
  assert (all_holds ms1 ++ holds m ++ all_holds ms2 ≡ₚ holds m ++ all_holds ms1 ++ all_holds ms2) as Hp by solve_Permutation.
  rewrite Hp, <- !app_assoc. done.
Qed.

Record mgr_wf (m : Manager) : Prop := {
  mw_block_size : 0 < m.(block_size);
  mw_spec : spec_wf m.(kv_cache_spec);
  mw_partial : m.(partial_hit_reqs) = ∅;
}.

(** [F] are the references held elsewhere: deferred frees and retained endpoints. *)
Record KVInv (s : P * list Manager) (F : list nat) : Prop := {
  kv_accounts : accounts s.1 (all_holds s.2 ++ F);
  kv_wf : Forall mgr_wf s.2;
}.

Lemma mgr_wf_only rid m m' : mgr_wf m -> only_req rid m m' -> partial_hit m' rid = None -> mgr_wf m'.
Proof.
  intros [Hb Hs Hp] Ho Hn. split; [by rewrite (or_block_size _ _ _ Ho)|by rewrite (or_spec _ _ _ Ho)|].
  pose proof (or_partial _ _ _ Ho) as Hd. rewrite Hp, delete_empty in Hd.
  rewrite delete_id in Hd by exact Hn. done.
Qed.

Lemma mgr_wf_partial m rid : mgr_wf m -> partial_hit m rid = None.
Proof. intros [_ _ Hp]. unfold partial_hit. by rewrite Hp. Qed.

(** ** The stages of an allocation *)

(** Freeing what left the window. *)
Definition window_kept (rid : string) (processed np : Z) (m m' : Manager) : Prop :=
  only_req rid m m' /\ m'.(num_cached_block) = m.(num_cached_block)
  /\ m'.(partial_hit_reqs) = m.(partial_hit_reqs) /\ length (tbl m' rid) = length (tbl m rid)
  /\ forall q k, processed <= q -> attends m.(kv_cache_spec) np q k ->
       tbl m' rid !! Z.to_nat (k / m.(block_size)) = tbl m rid !! Z.to_nat (k / m.(block_size)).

Lemma remove_stage rid processed np p ms F :
  KVInv (p, ms) F -> 0 <= processed -> 0 <= np ->
  exists p' ms', coord_remove_skipped_blocks rid processed (Some np) (p, ms) = (Ok tt, (p', ms'))
    /\ KVInv (p', ms') F /\ Forall2 (window_kept rid processed np) ms ms'
    /\ length (pool_refs p') = length (pool_refs p).
Proof.
  intros [Ha Hw] Hp Hn. unfold coord_remove_skipped_blocks.
  destruct (each_mgr_ind (fun _ => remove_skipped_blocks rid processed (Some np))
    (fun done q todo _ => accounts q (all_holds (done ++ todo) ++ F) /\ length (pool_refs q) = length (pool_refs p)
       /\ exists done0, ms = done0 ++ todo /\ Forall2 (window_kept rid processed np) done0 done)) with (p := p) (ms := ms)
    as (out & p' & ms' & Hrun & Ha' & Hl & done0 & Hms & Hk).
  - intros done q m todo out (Hq & Hlq & done0 & Hms & Hk). apply focus in Hq.
    assert (Hwm : mgr_wf m) by (rewrite Hms in Hw; apply Forall_app in Hw as [_ Hw]; by apply Forall_cons in Hw as [? _]).
    destruct (remove_skipped_spec rid processed np q m _ (mw_spec _ Hwm) (mw_block_size _ Hwm) Hp Hn Hq)
      as (q' & m' & Hrun & Ha1 & Ho & Hc & Hpr & Hl & Hwin & Hl1).
    exists tt, q', m'. split; [done|]. rewrite <- app_assoc. simpl. split_and!; [by apply focus|congruence|].
    exists (done0 ++ [m]). rewrite <- app_assoc. split; [done|]. apply Forall2_app; [done|]. apply Forall2_cons; split; [|by constructor]. by split_and!.
  - split_and!; [done|done|]. exists []. by split; [|constructor].
  - rewrite app_nil_r in Ha', Hms. subst done0. exists p', ms'. rewrite (bind_ok _ _ _ _ _ Hrun). split_and!; try done.
    split; [done|]. simpl in *. clear -Hk Hw. induction Hk as [|m m' ms ms' Hm Hk IH]; [constructor|].
    apply Forall_cons in Hw as [Hwm Hw]. constructor; [|auto]. destruct Hm as (Ho & _ & Hpr & _).
    eapply mgr_wf_only; [done|done|]. unfold partial_hit. rewrite Hpr. by apply mgr_wf_partial.
Qed.

(** A loop whose state invariant is [J] and which relates each manager to its
    successor by [R]. *)
Lemma each_mgr_rel {A} (f : nat -> M (P * Manager) A) (J : P -> list Manager -> list Manager -> Prop)
    (R : nat -> Manager -> A -> Manager -> Prop) p ms :
  (forall i done q m todo, ms !! i = Some m -> length done = i -> J q done (m :: todo) ->
     exists a q' m', f i (q, m) = (Ok a, (q', m')) /\ J q' (done ++ [m']) todo /\ R i m a m') ->
  J p [] ms ->
  exists out p' ms', for_mgrs f (p, ms) = (Ok out, (p', ms')) /\ J p' ms' []
    /\ length ms' = length ms /\ length out = length ms
    /\ forall i m m', ms !! i = Some m -> ms' !! i = Some m' -> exists a, out !! i = Some a /\ R i m a m'.
Proof.
  intros Hstep H0.
  destruct (each_mgr_ind f (fun done q todo out => J q done todo /\ length out = length done
    /\ drop (length done) ms = todo
    /\ (length done + length todo = length ms)%nat
    /\ forall i m m', ms !! i = Some m -> done !! i = Some m' -> exists a, out !! i = Some a /\ R i m a m'))
    with (p := p) (ms := ms) as (out & p' & ms' & Hrun & HJ & Hlo & _ & Hl & HR).
  - intros done q m todo out (HJ & Hlo & Hd & Hl & HR).
    assert (Hm : ms !! length done = Some m) by (rewrite <- (Nat.add_0_r (length done)), <- lookup_drop, Hd; done).
    destruct (Hstep (length done) done q m todo Hm eq_refl HJ) as (a & q' & m' & Hrun & HJ' & Hr).
    exists a, q', m'. simpl in Hl. rewrite !length_app. simpl. split_and!; try done; try lia.
    + replace (length done + 1)%nat with (1 + length done)%nat by lia. by rewrite Nat.add_comm, <- drop_drop, Hd.
    + intros i x x' Hx Hx'. apply lookup_app_Some in Hx' as [Hx'|[Hge Hx']].
      * destruct (HR i x x' Hx Hx') as (b & Hb & Hr'). exists b. by rewrite lookup_app_l by (by eapply lookup_lt_Some).
      * apply list_lookup_singleton_Some in Hx' as [Hi <-]. assert (i = length done) as -> by lia.
        assert (x = m) as -> by congruence. exists a. rewrite lookup_app_r, Hlo, Nat.sub_diag by lia. done.
  - done.
  - simpl in Hl. exists out, p', ms'. split_and!; try done; lia.
Qed.

(** ** References elsewhere *)

(** Held by the tables of other requests or outside the managers. *)
Definition elsewhere (rid : string) (ms : list Manager) (F : list nat) : list nat :=
  concat ((fun m => held (delete rid m.(req_to_blocks))) <$> ms) ++ F.

Lemma elsewhere_step rid ms1 m m' ms2 F :
  only_req rid m m' -> elsewhere rid ((ms1 ++ [m']) ++ ms2) F = elsewhere rid (ms1 ++ m :: ms2) F.
Proof. intros [_ Ht _ _]. unfold elsewhere. rewrite <- app_assoc, !fmap_app. simpl. by rewrite Ht. Qed.

Lemma elsewhere_only rid ms ms' F : Forall2 (only_req rid) ms ms' -> elsewhere rid ms' F = elsewhere rid ms F.
Proof.
  intros Hall. unfold elsewhere. do 2 f_equal. induction Hall as [|m m' ms ms' Hm _ IH]; [done|].
  simpl. f_equal; [|done]. by rewrite (or_table _ _ _ Hm).
Qed.

Lemma unreferenced_elsewhere rid p ms F b :
  accounts p (all_holds ms ++ F) -> pool_refs p !! b = Some (0, false) -> b ∉ elsewhere rid ms F.
Proof.
  intros Ha Hb Hin. pose proof (ac_count _ _ Ha _ _ Hb) as H0.
  enough (b ∈ all_holds ms ++ F) as Hin' by (apply occ_pos in Hin'; lia).
  unfold elsewhere in Hin. apply elem_of_app in Hin as [Hin|Hin]; apply elem_of_app; [left|by right].
  clear -Hin. unfold all_holds. induction ms as [|m ms IH]; [done|]. simpl in *. apply elem_of_app in Hin as [Hin|Hin];
    apply elem_of_app; [left|right; by apply IH].
  rewrite (holds_split m rid). unfold others. set_solver.
Qed.

(** ** New blocks *)

(** [m'] is [m] with blocks for [n] tokens; blocks not in its table before are
    referenced nowhere in [E]. *)
Definition grown (rid : string) (n : Z) (E : list nat) (m : Manager) (got : list nat) (m' : Manager) : Prop :=
  only_req rid m m' /\ m'.(num_cached_block) = m.(num_cached_block) /\ partial_hit m' rid = None
  /\ Z.of_nat (length (tbl m' rid)) = Z.max (cdiv n m.(block_size)) (Z.of_nat (length (tbl m rid)))
  /\ Forall (fun b => b ∉ E) got /\ placed rid m got (tbl m' rid).

Lemma allocate_stage rid n p ms F :
  accounts p (all_holds ms ++ F) -> Forall (fun m => partial_ok m rid) ms ->
  zsum (owed_new rid n <$> ms) <= free_count (pool_refs p) ->
  exists out p' ms', coord_allocate_new_blocks rid n (p, ms) = (Ok out, (p', ms'))
    /\ accounts p' (all_holds ms' ++ F) /\ length ms' = length ms /\ length out = length ms
    /\ forall i m m', ms !! i = Some m -> ms' !! i = Some m' ->
         exists got, out !! i = Some got /\ grown rid n (elsewhere rid ms F) m got m'.
Proof.
  intros Ha Hok Hfree.
  destruct (each_mgr_rel (fun _ => allocate_new_blocks rid n)
    (fun q done todo => accounts q (all_holds (done ++ todo) ++ F)
       /\ elsewhere rid (done ++ todo) F = elsewhere rid ms F
       /\ zsum (owed_new rid n <$> todo) <= free_count (pool_refs q))
    (fun _ => grown rid n (elsewhere rid ms F)) p ms) as (out & p' & ms' & Hrun & (Ha' & _) & Hl & Hlo & HR).
  - intros i done q m todo Hm _ (Hq & He & Hs). pose proof (proj1 (Forall_lookup _ _) Hok _ _ Hm) as Hpm.
    rewrite fmap_cons, zsum_cons in Hs. pose proof (zsum_nonneg (owed_new rid n) todo (owed_new_nonneg rid n)).
    pose proof Hq as Hq'. apply focus in Hq'.
    destruct (allocate_new_spec rid n q m _ Hq' Hpm ltac:(lia)) as (got & q' & m' & Hrun & Ha1 & Ho & Hc & Hp & Hl & Hf & Hfr & Hpl).
    exists got, q', m'. split_and!; try done.
    + rewrite <- app_assoc. simpl. by apply focus.
    + rewrite <- He. by apply elsewhere_step.
    + lia.
    + rewrite <- He. split_and!; try done. eapply Forall_impl; [exact Hfr|]. intros b Hb. by eapply unreferenced_elsewhere.
  - done.
  - rewrite app_nil_r in Ha'. exists out, p', ms'. split_and!; try done; exact HR.
Qed.

(** ** Prefix-cache hits *)

(** A request that comes with the hits [cb] for its first [nl] tokens. *)
Record fresh_ok (rid : string) (nl : Z) (num_blocks : nat) (m : Manager) (cb : list nat) : Prop := {
  fo_table : tbl m rid = [];
  fo_cached : m.(num_cached_block) !! rid = None;
  fo_length : Z.of_nat (length cb) = cdiv nl m.(block_size);
  fo_valid : Forall (fun b => (b < num_blocks)%nat) cb;
  fo_caching : m.(mgr_caching) = true \/ cb = [];
  fo_tail : nl mod m.(block_size) <> 0 -> exists b, last cb = Some b /\ b <> null_block;
}.

(** The table of [m'] holds the hits of [m]. *)
Definition hit (rid : string) (nl total : Z) (m : Manager) (cb : list nat) (m' : Manager) : Prop :=
  only_req rid m m' /\ tbl m' rid = hit_table m total cb /\ is_Some (m'.(num_cached_block) !! rid)
  /\ partial_hit m' rid
     = (if has_partial_local_hit m (drop (Z.to_nat (skip_blocks m total)) cb) nl
        then Some (nl / m.(block_size), default null_block (last cb)) else None).

Lemma last_drop {A} (l : list A) n : drop n l <> [] -> last (drop n l) = last l.
Proof.
  intros Hd. rewrite <- (take_drop n l) at 2. rewrite last_app. destruct (last (drop n l)) eqn:Hl; [done|].
  by apply last_None in Hl.
Qed.

Lemma cdiv_div a b : 0 < b -> a mod b <> 0 -> cdiv a b = a / b + 1.
Proof.
  intros Hb Hm. apply cdiv_unique; [done|]. pose proof (Z.div_mod a b ltac:(lia)). pose proof (Z.mod_pos_bound a b Hb). nia.
Qed.

Lemma cdiv_exact a b : 0 < b -> a mod b = 0 -> cdiv a b = a / b.
Proof. intros Hb Hm. apply cdiv_unique; [done|]. pose proof (Z.div_mod a b ltac:(lia)). nia. Qed.

Lemma cdiv_mono a a' b : 0 < b -> a <= a' -> cdiv a b <= cdiv a' b.
Proof. intros Hb Hle. pose proof (cdiv_spec a b Hb). pose proof (cdiv_spec a' b Hb). nia. Qed.

(** The block of a partial hit is the last hit, and it sits at the index where the
    copy is due. *)
Lemma hit_partial_ok rid nl total N m cb m' :
  mgr_wf m -> 0 <= nl -> 0 <= skip_blocks m total -> fresh_ok rid nl N m cb -> hit rid nl total m cb m' ->
  partial_ok m' rid.
Proof.
  intros Hw Hnl Hsk [_ _ Hlen _ _ Htail] (_ & Ht & _ & Hp) idx src Hi. rewrite Hp in Hi. clear Hp.
  pose proof (mw_block_size _ Hw) as Hb.
  destruct (has_partial_local_hit _ _ _) eqn:Hh; [|done]. simplify_eq.
  unfold has_partial_local_hit in Hh. apply andb_true_iff in Hh as [Hne Hmod].
  apply negb_true_iff, bool_decide_eq_false in Hne. apply negb_true_iff, Z.eqb_neq in Hmod.
  destruct (Htail Hmod) as (b & Hlast & Hnull). rewrite Hlast. simpl.
  assert (Hlt : (Z.to_nat (skip_blocks m total) < length cb)%nat).
  { apply Nat.nle_gt. intros Hle. by apply Hne, drop_ge. }
  rewrite (cdiv_div _ _ Hb Hmod) in Hlen. pose proof (Z.div_pos nl _ Hnl Hb).
  split_and!; [done| |done]. rewrite Ht. unfold hit_table.
  rewrite lookup_app_r, length_replicate, lookup_drop by (rewrite length_replicate; lia).
  rewrite last_lookup in Hlast. rewrite <- Hlast. f_equal. lia.
Qed.

Lemma hit_owed rid n nl total rs m cb m' :
  0 <= skip_blocks m total -> hit rid nl total m cb m' ->
  owed_new rid n m' + get_num_evictable_blocks rs (drop (Z.to_nat (skip_blocks m total)) cb)
  <= owed_hit rid n total nl rs m cb.
Proof.
  intros Hsk (Ho & Ht & _ & Hp). unfold owed_new, owed_hit, copies_due.
  rewrite Ht, hit_table_length, (or_block_size _ _ _ Ho), Hp by done.
  unfold has_partial_local_hit. destruct cb as [|b cb]; [by rewrite drop_nil|].
  rewrite (bool_decide_eq_false_2 (b :: cb = [])) by done. simpl negb at 3.
  destruct (bool_decide _), (nl mod _ =? 0); simpl; lia.
Qed.

Lemma owed_hit_mono rid n nl total rs rs' d ms bss :
  counts_nonneg rs -> (forall i, 0 <= d i) -> moved d rs rs' ->
  zsum (zip_with (owed_hit rid n total nl rs') ms bss) <= zsum (zip_with (owed_hit rid n total nl rs) ms bss).
Proof.
  intros Hr Hd Hm. revert bss. induction ms as [|m ms IH]; intros [|cb bss]; try done. cbn [zip_with].
  rewrite !zsum_cons. specialize (IH bss). unfold owed_hit at 1 3.
  pose proof (evictable_mono rs rs' d (drop (Z.to_nat (skip_blocks m total)) cb) Hr Hd Hm). lia.
Qed.

Lemma owed_hit_nonneg rid n nl total rs ms bss : 0 <= zsum (zip_with (owed_hit rid n total nl rs) ms bss).
Proof.
  revert bss. induction ms as [|m ms IH]; intros [|cb bss]; try done. cbn [zip_with]. rewrite zsum_cons.
  specialize (IH bss). unfold owed_hit at 1. pose proof (evictable_nonneg rs (drop (Z.to_nat (skip_blocks m total)) cb)).
  destruct (has_partial_local_hit _ _ _); lia.
Qed.

Definition fresh_all (rid : string) (nl : Z) (p : P) (ms : list Manager) (bss : list (list nat)) : Prop :=
  Forall2 (fresh_ok rid nl (length (pool_refs p))) ms bss.

Lemma hit_stage rid n nl ne p ms bss F :
  accounts p (all_holds ms ++ F) -> Forall mgr_wf ms -> 0 <= nl -> 0 <= ne -> fresh_all rid nl p ms bss ->
  zsum (zip_with (owed_hit rid n (nl + ne) nl (pool_refs p)) ms bss) <= free_count (pool_refs p) ->
  exists out p' ms', for_mgrs (fun i => bs <- group_blocks bss i ;; add_local_computed_blocks rid bs nl ne) (p, ms)
                     = (Ok out, (p', ms'))
    /\ accounts p' (all_holds ms' ++ F) /\ elsewhere rid ms' F = elsewhere rid ms F /\ length ms' = length ms
    /\ zsum (owed_new rid n <$> ms') <= free_count (pool_refs p')
    /\ forall i m m', ms !! i = Some m -> ms' !! i = Some m' -> exists cb, bss !! i = Some cb /\ hit rid nl (nl + ne) m cb m'.
Proof.
  intros Ha Hw Hnl Hne Hall Hfree.
  destruct (each_mgr_rel (fun i => bs <- group_blocks bss i ;; add_local_computed_blocks rid bs nl ne)
    (fun q done todo => accounts q (all_holds (done ++ todo) ++ F)
       /\ elsewhere rid (done ++ todo) F = elsewhere rid ms F
       /\ length (pool_refs q) = length (pool_refs p)
       /\ zsum (owed_new rid n <$> done)
          + zsum (zip_with (owed_hit rid n (nl + ne) nl (pool_refs q)) todo (drop (length done) bss)) <= free_count (pool_refs q))
    (fun i m _ m' => exists cb, bss !! i = Some cb /\ hit rid nl (nl + ne) m cb m') p ms)
    as (out & p' & ms' & Hrun & (Ha' & He & _ & Hs) & Hl & _ & HR).
  - intros i done q m todo Hm <- (Hq & He & Hlq & Hs).
    destruct (Forall2_lookup_l _ _ _ _ _ Hall Hm) as (cb & Hcb & Hfo).
    pose proof (proj1 (Forall_lookup _ _) Hw _ _ Hm) as Hwm. pose proof Hq as Hq'. apply focus in Hq'.
    destruct (skip_blocks_bounds m (nl + ne) (mw_spec _ Hwm) (mw_block_size _ Hwm) ltac:(lia)) as [Hsk _].
    rewrite (drop_S _ _ _ Hcb) in Hs. cbn [zip_with] in Hs. rewrite zsum_cons in Hs.
    destruct (add_local_spec rid cb nl ne q m _ Hsk Hq' (fo_table _ _ _ _ _ Hfo))
      as (q' & m' & Hrun & Ha1 & Ho & Ht & Hc & Hp & Hf & Hmv).
    { rewrite Hlq. apply Forall_drop, (fo_valid _ _ _ _ _ Hfo). }
    { destruct (fo_caching _ _ _ _ _ Hfo) as [Hca| ->]; [by left|right; apply drop_nil]. }
    assert (Hh : hit rid nl (nl + ne) m cb m').
    { split_and!; try done. unfold partial_hit. rewrite Hp, (mw_partial _ Hwm), lookup_empty.
      destruct (has_partial_local_hit _ _ _) eqn:Hhp; [|done]. do 3 f_equal. apply last_drop.
      unfold has_partial_local_hit in Hhp. apply andb_true_iff in Hhp as [Hhp _]. by apply negb_true_iff, bool_decide_eq_false in Hhp. }
    pose proof (hit_owed rid n nl (nl + ne) (pool_refs q) m cb m' Hsk Hh) as How.
    pose proof (owed_hit_mono rid n nl (nl + ne) _ _ _ todo (drop (S (length done)) bss) (accounts_nonneg _ _ Hq)
                  (fun i => occ_nonneg i _) Hmv) as Hmono.
    exists tt, q', m'. unfold group_blocks. rewrite Hcb. run_monad. split_and!; try done.
    + rewrite <- app_assoc. simpl. by apply focus.
    + rewrite <- He. by apply elsewhere_step.
    + rewrite (moved_length _ _ _ Hmv). done.
    + rewrite length_app, Nat.add_comm, fmap_app, zsum_app. cbn [length Nat.add fmap list_fmap]. rewrite zsum_cons. simpl zsum. lia.
    + by exists cb.
  - rewrite drop_0. done.
  - rewrite app_nil_r in Ha', He. exists out, p', ms'. split_and!; try done.
    + change (zsum (zip_with (owed_hit rid n (nl + ne) nl (pool_refs p')) [] (drop (length ms') bss))) with 0 in Hs. lia.
    + intros i m m' Hm Hm'. destruct (HR i m m' Hm Hm') as (_ & _ & Hr). exact Hr.
Qed.

(** ** Tokens loaded from elsewhere *)

Definition extended (rid : string) (E : list nat) (m m' : Manager) : Prop :=
  only_req rid m m' /\ m'.(num_cached_block) = m.(num_cached_block) /\ partial_hit m' rid = partial_hit m rid
  /\ exists al, tbl m' rid = tbl m rid ++ al /\ Forall (fun b => b ∉ E) al.

Lemma external_need_bounds rid n nl ne m :
  0 < m.(block_size) -> nl + ne <= n -> Z.of_nat (length (tbl m rid)) <= cdiv (nl + ne) m.(block_size) ->
  0 <= external_need rid m nl ne
  /\ external_need rid m nl ne <= Z.max (cdiv n m.(block_size) - Z.of_nat (length (tbl m rid))) 0.
Proof.
  intros Hb Hn Hl. unfold external_need. pose proof (cdiv_mono (nl + ne) n _ Hb Hn). destruct (_ <=? 0); lia.
Qed.

Lemma external_stage rid n nl ne p ms F :
  accounts p (all_holds ms ++ F) -> nl + ne <= n ->
  Forall (fun m => 0 < m.(block_size) /\ Z.of_nat (length (tbl m rid)) <= cdiv (nl + ne) m.(block_size)) ms ->
  zsum (owed_new rid n <$> ms) <= free_count (pool_refs p) ->
  exists out p' ms', for_mgrs (fun _ => allocate_external_computed_blocks rid nl ne) (p, ms) = (Ok out, (p', ms'))
    /\ accounts p' (all_holds ms' ++ F) /\ elsewhere rid ms' F = elsewhere rid ms F /\ length ms' = length ms
    /\ zsum (owed_new rid n <$> ms') <= free_count (pool_refs p')
    /\ forall i m m', ms !! i = Some m -> ms' !! i = Some m' -> extended rid (elsewhere rid ms F) m m'.
Proof.
  intros Ha Hn Hok Hfree.
  destruct (each_mgr_rel (fun _ => allocate_external_computed_blocks rid nl ne)
    (fun q done todo => accounts q (all_holds (done ++ todo) ++ F)
       /\ elsewhere rid (done ++ todo) F = elsewhere rid ms F
       /\ zsum (owed_new rid n <$> done) + zsum (owed_new rid n <$> todo) <= free_count (pool_refs q))
    (fun _ m _ m' => extended rid (elsewhere rid ms F) m m') p ms)
    as (out & p' & ms' & Hrun & (Ha' & He & Hs) & Hl & _ & HR).
  - intros i done q m todo Hm _ (Hq & He & Hs). pose proof (proj1 (Forall_lookup _ _) Hok _ _ Hm) as [Hb Hlen].
    pose proof Hq as Hq'. apply focus in Hq'. destruct (external_need_bounds rid n nl ne m Hb Hn Hlen) as [Hlo Hhi].
    rewrite fmap_cons, zsum_cons in Hs.
    pose proof (zsum_nonneg (owed_new rid n) todo (owed_new_nonneg rid n)).
    pose proof (zsum_nonneg (owed_new rid n) done (owed_new_nonneg rid n)).
    pose proof (copies_due_nonneg m rid). unfold owed_new at 2 in Hs.
    destruct (external_spec rid nl ne q m _ Hq' ltac:(lia)) as (al & q' & m' & Hrun & Hla & Ha1 & Ho & Ht & Hc & Hp & Hf & Hfr & _).
    assert (Hcd : copies_due m' rid = copies_due m rid) by (unfold copies_due, partial_hit; by rewrite Hp).
    exists tt, q', m'. split_and!; try done.
    + rewrite <- app_assoc. simpl. by apply focus.
    + rewrite <- He. by apply elsewhere_step.
    + rewrite fmap_app, zsum_app. cbn [fmap list_fmap]. rewrite zsum_cons. change (zsum []) with 0. unfold owed_new at 2.
      rewrite Ht, length_app, (or_block_size _ _ _ Ho), Hcd. lia.
    + split_and!; try done; [unfold partial_hit; by rewrite Hp|]. exists al. split; [done|]. rewrite <- He.
      eapply Forall_impl; [exact Hfr|]. intros b Hb'. by eapply unreferenced_elsewhere.
  - done.
  - rewrite app_nil_r in Ha', He. exists out, p', ms'. split_and!; try done.
    + change (zsum (owed_new rid n <$> [])) with 0 in Hs. lia.
    + intros i m m' Hm Hm'. by destruct (HR i m m' Hm Hm') as (_ & _ & Hr).
Qed.

(** ** Hits and loaded tokens together *)

Definition prepared (rid : string) (nl total : Z) (E : list nat) (m : Manager) (cb : list nat) (m' : Manager) : Prop :=
  only_req rid m m' /\ partial_ok m' rid
  /\ partial_hit m' rid
     = (if has_partial_local_hit m (drop (Z.to_nat (skip_blocks m total)) cb) nl
        then Some (nl / m.(block_size), default null_block (last cb)) else None)
  /\ exists al, tbl m' rid = hit_table m total cb ++ al /\ Forall (fun b => b ∉ E) al.

Lemma hit_prepared rid nl total N E m cb m' :
  mgr_wf m -> 0 <= nl -> 0 <= skip_blocks m total -> fresh_ok rid nl N m cb -> hit rid nl total m cb m' ->
  prepared rid nl total E m cb m'.
Proof.
  intros Hw Hnl Hsk Hf Hh. pose proof (hit_partial_ok _ _ _ _ _ _ _ Hw Hnl Hsk Hf Hh) as Hok.
  destruct Hh as (Ho & Ht & _ & Hp). split_and!; try done. exists []. by rewrite app_nil_r.
Qed.

Lemma extended_prepared rid nl total E m cb m1 m' :
  prepared rid nl total E m cb m1 -> extended rid E m1 m' -> prepared rid nl total E m cb m'.
Proof.
  intros (Ho & Hok & Hp & al & Ht & Hal) (Ho' & _ & Hp' & al' & Ht' & Hal'). split_and!.
  - by etransitivity.
  - intros idx src Hi. rewrite Hp' in Hi. destruct (Hok idx src Hi) as (? & Hl & ?). split_and!; [done| |done].
    rewrite Ht'. by apply lookup_app_l_Some.
  - by rewrite Hp'.
  - exists (al ++ al'). rewrite Ht', Ht, <- app_assoc. split; [done|]. by apply Forall_app.
Qed.

(** Two loops one after the other. *)
Lemma pointwise_trans {A B C} (R1 : nat -> A -> B -> Prop) (R2 : B -> C -> Prop) (R : nat -> A -> C -> Prop) (l : list A) (l1 : list B) (l2 : list C) :
  length l1 = length l ->
  (forall i a b, l !! i = Some a -> l1 !! i = Some b -> R1 i a b) ->
  (forall i b c, l1 !! i = Some b -> l2 !! i = Some c -> R2 b c) ->
  (forall i a b c, l !! i = Some a -> R1 i a b -> R2 b c -> R i a c) ->
  forall i a c, l !! i = Some a -> l2 !! i = Some c -> R i a c.
Proof.
  intros Hl H1 H2 HR i a c Ha Hc. pose proof (lookup_lt_Some _ _ _ Ha) as Hlt. rewrite <- Hl in Hlt.
  apply lookup_lt_is_Some_2 in Hlt as [b Hb]. eauto.
Qed.

Lemma fresh_uncached rid nl p ms bss :
  fresh_all rid nl p ms bss -> existsb (fun m => bool_decide (is_Some (m.(num_cached_block) !! rid))) ms = false.
Proof.
  intros Hf. induction Hf as [|m cb ms bss Hm _ IH]; [done|]. simpl. rewrite (fo_cached _ _ _ _ _ Hm), IH.
  by rewrite bool_decide_eq_false_2 by (intros [? ?]; done).
Qed.

Lemma computed_stage rid n nl ne p ms bss F :
  accounts p (all_holds ms ++ F) -> Forall mgr_wf ms -> 0 <= nl -> 0 <= ne -> nl + ne <= n ->
  fresh_all rid nl p ms bss ->
  zsum (zip_with (owed_hit rid n (nl + ne) nl (pool_refs p)) ms bss) <= free_count (pool_refs p) ->
  exists p' ms', allocate_new_computed_blocks rid bss nl ne (p, ms) = (Ok tt, (p', ms'))
    /\ accounts p' (all_holds ms' ++ F) /\ elsewhere rid ms' F = elsewhere rid ms F /\ length ms' = length ms
    /\ zsum (owed_new rid n <$> ms') <= free_count (pool_refs p')
    /\ forall i m m', ms !! i = Some m -> ms' !! i = Some m' ->
         exists cb, bss !! i = Some cb /\ prepared rid nl (nl + ne) (elsewhere rid ms F) m cb m'.
Proof.
  intros Ha Hw Hnl Hne Hn Hf Hfree. unfold allocate_new_computed_blocks. run_monad. simpl.
  rewrite (fresh_uncached _ _ _ _ _ Hf).
  destruct (hit_stage rid n nl ne p ms bss F Ha Hw Hnl Hne Hf Hfree) as (out & p1 & ms1 & Hrun & Ha1 & He1 & Hl1 & Hs1 & HR1).
  rewrite (bind_ok _ _ _ _ _ Hrun).
  assert (Hhit : forall i m m1, ms !! i = Some m -> ms1 !! i = Some m1 ->
    exists cb, bss !! i = Some cb /\ fresh_ok rid nl (length (pool_refs p)) m cb
      /\ prepared rid nl (nl + ne) (elsewhere rid ms F) m cb m1 /\ hit rid nl (nl + ne) m cb m1 /\ mgr_wf m).
  { intros i m m1 Hm Hm1. destruct (HR1 i m m1 Hm Hm1) as (cb & Hcb & Hh). pose proof (proj1 (Forall_lookup _ _) Hw _ _ Hm) as Hwm.
    destruct (Forall2_lookup_l _ _ _ _ _ Hf Hm) as (cb' & Hcb' & Hfo). assert (cb' = cb) as -> by congruence.
    destruct (skip_blocks_bounds m (nl + ne) (mw_spec _ Hwm) (mw_block_size _ Hwm) ltac:(lia)) as [Hsk _].
    exists cb. split_and!; try done. by eapply hit_prepared. }
  destruct (Z.gtb_spec ne 0) as [Hgt|_].
  2:{ exists p1, ms1. split_and!; try done. intros i m m1 Hm Hm1. destruct (Hhit i m m1 Hm Hm1) as (cb & ? & _ & ? & _). by exists cb. }
  destruct (external_stage rid n nl ne p1 ms1 F Ha1 Hn) as (out2 & p2 & ms2 & Hrun2 & Ha2 & He2 & Hl2 & Hs2 & HR2); [|done|].
  { apply Forall_lookup. intros i m1 Hm1. pose proof (lookup_lt_Some _ _ _ Hm1) as Hlt. rewrite Hl1 in Hlt.
    apply lookup_lt_is_Some_2 in Hlt as [m Hm]. destruct (Hhit i m m1 Hm Hm1) as (cb & _ & Hfo & _ & (Ho & Ht & _) & Hwm).
    pose proof (mw_block_size _ Hwm) as Hb.
    destruct (skip_blocks_bounds m (nl + ne) (mw_spec _ Hwm) Hb ltac:(lia)) as [Hsk Hsk'].
    rewrite (or_block_size _ _ _ Ho), Ht, hit_table_length, (fo_length _ _ _ _ _ Hfo) by done. split; [done|].
    pose proof (cdiv_mono nl (nl + ne) _ Hb ltac:(lia)). pose proof (cdiv_spec (nl + ne) _ Hb).
    pose proof (Z.mul_div_le (nl + ne) _ Hb). nia. }
  rewrite (bind_ok _ _ _ _ _ Hrun2). exists p2, ms2. split_and!; try done; [by rewrite He2|lia|].
  rewrite He1 in HR2. pose (Q := fun i m m1 => exists cb, bss !! i = Some cb /\ prepared rid nl (nl + ne) (elsewhere rid ms F) m cb m1).
  refine (pointwise_trans Q (extended rid (elsewhere rid ms F)) Q ms ms1 ms2 Hl1 _ HR2 _).
  - intros i m m1 Hm Hm1. destruct (Hhit i m m1 Hm Hm1) as (cb & ? & _ & ? & _). by exists cb.
  - intros i m m1 m2 _ (cb & Hcb & Hpr) Hx. exists cb. split; [done|]. by eapply extended_prepared.
Qed.

(** ** The predictor over all groups *)

Lemma for_mgrs_reads {A} (d : A) (f : nat -> M (P * Manager) A) p ms :
  (forall i m, ms !! i = Some m -> exists a, f i (p, m) = (Ok a, (p, m))) ->
  for_mgrs f (p, ms) = (Ok (imap (fun i m => match (f i (p, m)).1 with Ok a => a | Raise _ => d end) ms), (p, ms)).
Proof. intros Hf. apply for_mgrs_pure. intros i m Hm. by destruct (Hf i m Hm) as [a ->]. Qed.

Lemma imap_zip_with {A B C} (g : A -> B -> C) (v : nat -> A -> C) (l : list A) (l' : list B) :
  length l' = length l -> (forall i a b, l !! i = Some a -> l' !! i = Some b -> v i a = g a b) ->
  imap v l = zip_with g l l'.
Proof.
  intros Hl Hv. apply list_eq. intros i. rewrite list_lookup_imap, lookup_zip_with.
  destruct (l !! i) as [a|] eqn:Ha; [|done]. simpl. pose proof (lookup_lt_Some _ _ _ Ha) as Hlt. rewrite <- Hl in Hlt.
  apply lookup_lt_is_Some_2 in Hlt as [b Hb]. rewrite Hb. simpl. f_equal. eauto.
Qed.

(** Any prediction returns and changes nothing. *)
Lemma predict_stage rid n bss total nl cap p ms :
  Forall2 (fun m cb => cb = [] \/ m.(num_cached_block) !! rid = None) ms bss ->
  exists k, coord_get_num_blocks_to_allocate rid n bss total nl cap (p, ms) = (Ok k, (p, ms)).
Proof.
  intros Hall. unfold coord_get_num_blocks_to_allocate. erewrite bind_ok; [by eexists|].
  apply (for_mgrs_reads 0). intros i m Hm. destruct (Forall2_lookup_l _ _ _ _ _ Hall Hm) as (cb & Hcb & Hc).
  unfold group_blocks. rewrite Hcb. run_monad.
  destruct (get_num_pure rid n cb total nl cap p m) as (r & Hrun & Hok). destruct (Hok Hc) as [k ->]. by exists k.
Qed.

Lemma predict_with rid n bss total nl p ms (g : Manager -> list nat -> Z) :
  Forall2 (fun m cb => get_num_blocks_to_allocate rid n cb total nl false (p, m) = (Ok (g m cb), (p, m))) ms bss ->
  coord_get_num_blocks_to_allocate rid n bss total nl false (p, ms) = (Ok (zsum (zip_with g ms bss)), (p, ms)).
Proof.
  intros Hall. unfold coord_get_num_blocks_to_allocate.
  rewrite (bind_ok _ _ _ (zip_with g ms bss) (p, ms)); [done|].
  rewrite (for_mgrs_pure _ (fun i m => g m (default [] (bss !! i)))).
  - do 2 f_equal. apply imap_zip_with; [symmetry; by eapply Forall2_length|]. intros i a b _ Hb. by rewrite Hb.
  - intros i m Hm. destruct (Forall2_lookup_l _ _ _ _ _ Hall Hm) as (cb & Hcb & Hg).
    unfold group_blocks. rewrite Hcb. by run_monad.
Qed.

Lemma predict_fresh_all rid n nl ne p ms bss :
  Forall mgr_wf ms -> 0 <= nl -> 0 <= ne -> fresh_all rid nl p ms bss ->
  coord_get_num_blocks_to_allocate rid n bss (nl + ne) nl false (p, ms)
  = (Ok (zsum (zip_with (owed_hit rid n (nl + ne) nl (pool_refs p)) ms bss)), (p, ms)).
Proof.
  intros Hw Hnl Hne Hf. apply predict_with. apply Forall2_same_length_lookup_2; [by eapply Forall2_length|].
  intros i m cb Hm Hcb. pose proof (proj1 (Forall_lookup _ _) Hw _ _ Hm) as Hwm.
  destruct (Forall2_lookup_l _ _ _ _ _ Hf Hm) as (cb' & Hcb' & Hfo). assert (cb' = cb) as -> by congruence.
  apply predict_fresh; [|exact (fo_table _ _ _ _ _ Hfo)|exact (fo_cached _ _ _ _ _ Hfo)].
  apply skip_blocks_bounds; [exact (mw_spec _ Hwm)|exact (mw_block_size _ Hwm)|lia].
Qed.

(** A request whose table covers the tokens computed so far. *)
Definition running_ok (rid : string) (nl : Z) (m : Manager) : Prop :=
  nl <= m.(block_size) * Z.of_nat (length (tbl m rid)).

Lemma predict_running_all rid n nl p ms :
  Forall mgr_wf ms -> 0 <= nl -> Forall (running_ok rid nl) ms ->
  coord_get_num_blocks_to_allocate rid n (replicate (length ms) []) nl nl false (p, ms)
  = (Ok (zsum (owed_new rid n <$> ms)), (p, ms)).
Proof.
  intros Hw Hnl Hr. rewrite (predict_with _ _ _ _ _ _ _ (fun m _ => owed_new rid n m)).
  - do 3 f_equal. apply list_eq. intros i. rewrite lookup_zip_with, list_lookup_fmap.
    destruct (ms !! i) eqn:Hm; [|done]. simpl. by rewrite lookup_replicate_2 by (by eapply lookup_lt_Some).
  - apply Forall2_same_length_lookup_2; [by rewrite length_replicate|]. intros i m cb Hm Hcb.
    apply lookup_replicate in Hcb as [-> _]. pose proof (proj1 (Forall_lookup _ _) Hw _ _ Hm) as Hwm.
    pose proof (proj1 (Forall_lookup _ _) Hr _ _ Hm) as Hrm. unfold running_ok in Hrm. pose proof (mw_block_size _ Hwm) as Hb.
    apply predict_running; [|by apply mgr_wf_partial].
    destruct (skip_blocks_bounds m nl (mw_spec _ Hwm) Hb Hnl) as [_ Hle].
    pose proof (Z.mul_div_le nl _ Hb). nia.
Qed.

(** ** What a request is given *)

(** Blocks for [need] tokens; the entries below index [from] that a query at [q0] or
    later reads are those of [base]; the entries from there on, which the request
    writes, are referenced nowhere in [E]. *)
Record served (rid : string) (np q0 need from : Z) (base E : list nat) (m m' : Manager) : Prop := {
  sv_only : only_req rid m m';
  sv_partial : partial_hit m' rid = None;
  sv_length : cdiv need m.(block_size) <= Z.of_nat (length (tbl m' rid));
  sv_keeps : forall q k, q0 <= q -> attends m.(kv_cache_spec) np q k -> k / m.(block_size) < from ->
    tbl m' rid !! Z.to_nat (k / m.(block_size)) = base !! Z.to_nat (k / m.(block_size));
  sv_private : forall i b, from <= Z.of_nat i -> tbl m' rid !! i = Some b -> b = null_block \/ b ∉ E;
}.

Lemma grown_served rid np q0 need E m got m' :
  mgr_wf m -> grown rid need E m got m' ->
  served rid np q0 need (Z.of_nat (length (tbl m rid))) (tbl m rid) E m m'.
Proof.
  intros Hw (Ho & _ & Hp & Hl & Hgot & Hpl). split; [done|done|lia| |].
  - intros q k _ [[Hk _] _] Hlt. pose proof (Z.div_pos k _ Hk (mw_block_size _ Hw)).
    destruct (lookup_lt_is_Some_2 (tbl m rid) (Z.to_nat (k / block_size m))) as [b Hb]; [lia|]. rewrite Hb.
    eapply placed_keeps; [done|done|]. intros idx src Hi. by rewrite (mgr_wf_partial m rid Hw) in Hi.
  - intros i b Hi Hb. right. destruct (placed_new _ _ _ _ _ _ Hpl Hb) as [Hin|[Hold _]].
    + by apply (proj1 (Forall_forall _ _) Hgot).
    + apply lookup_lt_Some in Hold. lia.
Qed.

Lemma hit_table_lookup m total cb i :
  0 <= skip_blocks m total <= Z.of_nat i -> hit_table m total cb !! i = cb !! i.
Proof.
  intros Hi. unfold hit_table. rewrite lookup_app_r, length_replicate, lookup_drop by (rewrite length_replicate; lia).
  f_equal. lia.
Qed.

Lemma attended_block m np total q k :
  mgr_wf m -> 0 <= total <= q -> attends m.(kv_cache_spec) np q k -> skip_blocks m total <= k / m.(block_size).
Proof.
  intros Hw Hq Hk. pose proof (mw_block_size _ Hw) as Hb. unfold skip_blocks. apply Z.div_le_mono; [done|].
  destruct (m.(kv_cache_spec)) as [|w|w extra|c] eqn:Hs.
  2:{ simpl. by destruct Hk as [[? _] _]. }
  all: rewrite <- Hs in *; apply (attends_not_skipped _ np total q k (mw_spec _ Hw)); try done; intros; congruence.
Qed.

(** An entry of the hits at or past the local tokens is null or has its copy due. *)
Lemma hit_table_tail rid nl total N m cb i b :
  mgr_wf m -> 0 <= skip_blocks m total -> fresh_ok rid nl N m cb ->
  nl / m.(block_size) <= Z.of_nat i -> hit_table m total cb !! i = Some b ->
  b = null_block \/ (has_partial_local_hit m (drop (Z.to_nat (skip_blocks m total)) cb) nl = true
                     /\ Z.of_nat i = nl / m.(block_size)).
Proof.
  intros Hw Hsk Hf Hi Hb. pose proof (mw_block_size _ Hw) as Hbs. pose proof (fo_length _ _ _ _ _ Hf) as Hlen.
  unfold hit_table in Hb. apply lookup_app_Some in Hb as [Hb|[Hge Hb]]; [left; by apply lookup_replicate in Hb as [-> _]|right].
  rewrite length_replicate in Hge, Hb. rewrite lookup_drop in Hb. pose proof (lookup_lt_Some _ _ _ Hb) as Hlt.
  destruct (decide (nl mod m.(block_size) = 0)) as [Hm|Hm].
  { rewrite (cdiv_exact _ _ Hbs Hm) in Hlen. lia. }
  rewrite (cdiv_div _ _ Hbs Hm) in Hlen. split; [|lia]. unfold has_partial_local_hit.
  rewrite bool_decide_eq_false_2, (proj2 (Z.eqb_neq _ _) Hm); [done|].
  intros He. apply (f_equal length) in He. rewrite length_drop in He. simpl in He. lia.
Qed.

Lemma prepared_served rid np nl total need N E m cb m1 got m' :
  mgr_wf m -> 0 <= nl -> 0 <= total -> fresh_ok rid nl N m cb ->
  prepared rid nl total E m cb m1 -> grown rid need E m1 got m' ->
  served rid np total need (nl / m.(block_size)) cb E m m'.
Proof.
  intros Hw Hnl Htot Hf (Ho1 & _ & Hph & al & Ht1 & Hal) (Ho & _ & Hp & Hl & Hgot & Hpl).
  pose proof (mw_block_size _ Hw) as Hb. pose proof (fo_length _ _ _ _ _ Hf) as Hlen.
  destruct (skip_blocks_bounds m total (mw_spec _ Hw) Hb Htot) as [Hsk _].
  split; [by etransitivity|done|rewrite (or_block_size _ _ _ Ho1) in Hl; lia| |].
  - intros q k Hq Hk Hlt. pose proof (attended_block m np total q k Hw ltac:(lia) Hk) as Hsk'.
    destruct Hk as [[Hk _] _]. pose proof (Z.div_pos k _ Hk Hb). pose proof (cdiv_spec nl _ Hb). pose proof (Z.mul_div_le nl _ Hb).
    destruct (lookup_lt_is_Some_2 cb (Z.to_nat (k / block_size m))) as [b Hcb]; [nia|]. rewrite Hcb.
    eapply placed_keeps; [done| |].
    + rewrite Ht1. apply lookup_app_l_Some. rewrite hit_table_lookup by lia. done.
    + intros idx src. rewrite Hph. destruct (has_partial_local_hit _ _ _); [|done]. intros [= <- _]. lia.
  - intros i b Hi Hbk. destruct (placed_new _ _ _ _ _ _ Hpl Hbk) as [Hin|[Hold Hni]].
    { right. by apply (proj1 (Forall_forall _ _) Hgot). }
    rewrite Ht1 in Hold. apply lookup_app_Some in Hold as [Hold|[_ Hold]].
    + destruct (hit_table_tail _ _ _ _ _ _ _ _ Hw Hsk Hf Hi Hold) as [|[Hpart Hidx]]; [by left|].
      rewrite Hpart in Hph. specialize (Hni _ _ Hph). lia.
    + right. apply (proj1 (Forall_forall _ _) Hal). by eapply list_elem_of_lookup_2.
Qed.

(** ** [take_slots] *)

Record slots_args (cfg : KVConfig) (rq : ReqInfo) (new_tokens new_computed lookahead external reserved : Z) : Prop := {
  sa_computed : 0 <= rq.(num_computed_tokens) /\ 0 <= new_computed;
  sa_new : 0 <= new_tokens /\ 0 <= lookahead /\ 0 <= external;
  sa_some : 0 < new_tokens + external;
  sa_prompt : 0 <= rq.(num_prompt_tokens) /\ 0 <= rq.(num_in_flight_tokens);
  sa_model : rq.(num_computed_tokens) + new_computed + external <= cfg.(max_model_len);
  sa_reserved : 0 <= reserved /\ 0 <= cfg.(watermark_blocks);
}.

(** The caller either brings hits for a request without blocks, or asks for more
    blocks for a request whose table covers its computed tokens. *)
Definition offer_ok (fresh : bool) (rid : string) (nl ne : Z) (ncb : KVCacheBlocks) (p : P) (ms : list Manager) : Prop :=
  if fresh then fresh_all rid nl p ms (blocks_of (length ms) ncb)
  else ncb = EmptyBlocks /\ ne = 0 /\ Forall (running_ok rid nl) ms.

Definition given (fresh : bool) (rid : string) (np processed nl ne need : Z) (E : list nat) (m : Manager)
    (cb : list nat) (m' : Manager) : Prop :=
  if fresh then served rid np (nl + ne) need (nl / m.(block_size)) cb E m m'
  else served rid np processed need (Z.of_nat (length (tbl m rid))) (tbl m rid) E m m'.

Definition all_given (fresh : bool) (rid : string) (np processed nl ne need : Z) (E : list nat)
    (bss : list (list nat)) (ms ms' : list Manager) : Prop :=
  length ms' = length ms
  /\ forall i m cb m', ms !! i = Some m -> bss !! i = Some cb -> ms' !! i = Some m' ->
       given fresh rid np processed nl ne need E m cb m'.

Lemma fresh_tail rid np processed n nl ne p ms bss F :
  KVInv (p, ms) F -> 0 <= nl -> 0 <= ne -> nl + ne <= n -> fresh_all rid nl p ms bss ->
  zsum (zip_with (owed_hit rid n (nl + ne) nl (pool_refs p)) ms bss) <= free_count (pool_refs p) ->
  exists out p' ms', (allocate_new_computed_blocks rid bss nl ne ;;
                      new_blocks <- coord_allocate_new_blocks rid n ;; ret (Some new_blocks)) (p, ms)
                     = (Ok (Some out), (p', ms'))
    /\ accounts p' (all_holds ms' ++ F)
    /\ all_given true rid np processed nl ne n (elsewhere rid ms F) bss ms ms'.
Proof.
  intros [Ha Hw] Hnl Hne Hn Hf Hs. simpl in Ha, Hw.
  destruct (computed_stage rid n nl ne p ms bss F Ha Hw Hnl Hne Hn Hf Hs) as (p1 & ms1 & Hrun1 & Ha1 & He1 & Hl1 & Hs1 & HR1).
  rewrite (bind_ok _ _ _ _ _ Hrun1).
  destruct (allocate_stage rid n p1 ms1 F Ha1) as (out & p' & ms' & Hrun & Ha' & Hl & _ & HR); [|done|].
  { apply Forall_lookup. intros i m1 Hm1. pose proof (lookup_lt_Some _ _ _ Hm1) as Hlt. rewrite Hl1 in Hlt.
    apply lookup_lt_is_Some_2 in Hlt as [m Hm]. by destruct (HR1 i m m1 Hm Hm1) as (_ & _ & _ & Hok & _). }
  rewrite (bind_ok _ _ _ _ _ Hrun). exists out, p', ms'. split_and!; try done. split; [lia|].
  intros i m cb m' Hm Hcb Hm'. pose proof (lookup_lt_Some _ _ _ Hm) as Hlt. rewrite <- Hl1 in Hlt.
  apply lookup_lt_is_Some_2 in Hlt as [m1 Hm1]. destruct (HR1 i m m1 Hm Hm1) as (cb' & Hcb' & Hpr).
  assert (cb' = cb) as -> by congruence. destruct (HR i m1 m' Hm1 Hm') as (got & _ & Hg). rewrite He1 in Hg.
  destruct (Forall2_lookup_l _ _ _ _ _ Hf Hm) as (cb2 & Hcb2 & Hfo). assert (cb2 = cb) as -> by congruence.
  eapply (prepared_served rid np nl (nl + ne)); [|done|lia|done|done|done].
  exact (proj1 (Forall_lookup _ _) Hw _ _ Hm).
Qed.

Lemma running_tail rid np processed n nl ne p ms bss F :
  KVInv (p, ms) F -> zsum (owed_new rid n <$> ms) <= free_count (pool_refs p) ->
  exists out p' ms', (new_blocks <- coord_allocate_new_blocks rid n ;; ret (Some new_blocks)) (p, ms)
                     = (Ok (Some out), (p', ms'))
    /\ accounts p' (all_holds ms' ++ F)
    /\ all_given false rid np processed nl ne n (elsewhere rid ms F) bss ms ms'.
Proof.
  intros [Ha Hw] Hs. simpl in Ha, Hw.
  destruct (allocate_stage rid n p ms F Ha) as (out & p' & ms' & Hrun & Ha' & Hl & _ & HR); [|done|].
  { eapply Forall_impl; [exact Hw|]. intros m Hwm idx src Hi. by rewrite (mgr_wf_partial m rid Hwm) in Hi. }
  rewrite (bind_ok _ _ _ _ _ Hrun). exists out, p', ms'. split_and!; try done. split; [done|].
  intros i m cb m' Hm _ Hm'. destruct (HR i m m' Hm Hm') as (got & _ & Hg).
  eapply grown_served; [|done]. exact (proj1 (Forall_lookup _ _) Hw _ _ Hm).
Qed.

(** Without hits and loaded tokens a fresh request is served as a running one. *)
Lemma fresh_as_running rid nl p ms :
  Forall mgr_wf ms -> 0 <= nl -> fresh_all rid nl p ms (replicate (length ms) []) -> Forall (running_ok rid nl) ms.
Proof.
  intros Hw Hnl Hf. apply Forall_lookup. intros i m Hm. pose proof (mw_block_size _ (proj1 (Forall_lookup _ _) Hw _ _ Hm)) as Hb.
  destruct (Forall2_lookup_l _ _ _ _ _ Hf Hm) as (cb & Hcb & Hfo). apply lookup_replicate in Hcb as [-> _].
  pose proof (fo_length _ _ _ _ _ Hfo) as Hlen. simpl in Hlen. unfold running_ok. pose proof (cdiv_spec nl _ Hb). nia.
Qed.

Lemma given_as_fresh rid np processed nl n E ms ms' p :
  Forall mgr_wf ms -> 0 <= nl -> fresh_all rid nl p ms (replicate (length ms) []) ->
  all_given false rid np processed nl 0 n E (replicate (length ms) []) ms ms' ->
  all_given true rid np processed nl 0 n E (replicate (length ms) []) ms ms'.
Proof.
  intros Hw Hnl Hf [Hl HR]. split; [done|]. intros i m cb m' Hm Hcb Hm'. specialize (HR i m cb m' Hm Hcb Hm').
  pose proof (mw_block_size _ (proj1 (Forall_lookup _ _) Hw _ _ Hm)) as Hb.
  destruct (Forall2_lookup_l _ _ _ _ _ Hf Hm) as (cb' & Hcb' & Hfo). assert (cb' = cb) as -> by congruence.
  apply lookup_replicate in Hcb as [-> _]. pose proof (fo_length _ _ _ _ _ Hfo) as Hlen. simpl in Hlen.
  pose proof (cdiv_spec nl _ Hb). assert (nl = 0) as -> by nia. simpl in HR. rewrite (fo_table _ _ _ _ _ Hfo) in HR.
  simpl in *. rewrite Z.div_0_l by lia. destruct HR as [Ho Hp Hlt Hk Hpr]. split; try done.
  intros q k _ Hatt Hlt'. destruct Hatt as [[Hk0 _] _]. pose proof (Z.div_pos k _ Hk0 Hb). lia.
Qed.

(** Freeing outside the window before does not matter to what is given. *)
Lemma window_given fresh rid np processed nl ne n E bss ms ms1 ms' :
  Forall2 (window_kept rid processed np) ms ms1 ->
  all_given fresh rid np processed nl ne n E bss ms1 ms' -> all_given fresh rid np processed nl ne n E bss ms ms'.
Proof.
  intros Hk [Hl HR]. split; [by rewrite Hl, (Forall2_length _ _ _ Hk)|]. intros i m cb m' Hm Hcb Hm'.
  destruct (Forall2_lookup_l _ _ _ _ _ Hk Hm) as (m1 & Hm1 & Ho & Hc & Hp & Hlen & Hwin).
  specialize (HR i m1 cb m' Hm1 Hcb Hm'). pose proof (or_block_size _ _ _ Ho) as Hb. pose proof (or_spec _ _ _ Ho) as Hs.
  destruct fresh; simpl in *; destruct HR as [Ho' Hp' Hlt Hkeep Hpr]; rewrite ?Hb, ?Hs, ?Hlen in *; (split; try done; try by etransitivity).
  intros q k Hq Hatt Hlt'. by rewrite (Hkeep q k Hq Hatt Hlt'), (Hwin q k Hq Hatt).
Qed.

Lemma window_offer fresh rid np processed nl ne ncb p ms p1 ms1 :
  Forall2 (window_kept rid processed np) ms ms1 -> length (pool_refs p1) = length (pool_refs p) ->
  offer_ok fresh rid nl ne ncb p ms -> offer_ok fresh rid nl ne ncb p1 ms1.
Proof.
  intros Hk Hlp. unfold offer_ok. destruct fresh.
  - unfold fresh_all. rewrite Hlp, (Forall2_length _ _ _ Hk). generalize (blocks_of (length ms1) ncb).
    induction Hk as [|m m1 ms ms1 Hm Hk IH]; intros bss Hf; [done|]. apply Forall2_cons_inv_l in Hf as (cb & bss' & Hfo & Hf & ->).
    constructor; [|auto]. destruct Hm as (Ho & Hc & Hp & Hlen & _). destruct Hfo as [Ht Hca Hl Hv Hcg Htl].
    split; rewrite ?(or_block_size _ _ _ Ho), ?(or_caching _ _ _ Ho), ?Hc; try done.
    apply nil_length_inv. by rewrite Hlen, Ht.
  - intros (-> & -> & Hr). split_and!; try done. clear Hlp. induction Hk as [|m m1 ms ms1 Hm Hk IH]; [done|].
    apply Forall_cons in Hr as [Hr1 Hr]. constructor; [|auto]. destruct Hm as (Ho & _ & _ & Hlen & _).
    unfold running_ok in *. by rewrite (or_block_size _ _ _ Ho), Hlen.
Qed.

Lemma window_elsewhere rid np processed ms ms1 F :
  Forall2 (window_kept rid processed np) ms ms1 -> elsewhere rid ms1 F = elsewhere rid ms F.
Proof. intros Hk. apply elsewhere_only. eapply Forall2_impl; [exact Hk|]. by intros m m' (Ho & _). Qed.

Lemma window_refl rid np processed ms : Forall2 (window_kept rid processed np) ms ms.
Proof. induction ms; constructor; [|done]. by split_and!. Qed.

Lemma given_wf fresh rid np processed nl ne n E bss ms ms' :
  Forall mgr_wf ms -> length bss = length ms -> all_given fresh rid np processed nl ne n E bss ms ms' -> Forall mgr_wf ms'.
Proof.
  intros Hw Hlb [Hl HR]. apply Forall_lookup. intros i m' Hm'. pose proof (lookup_lt_Some _ _ _ Hm') as Hlt. rewrite Hl in Hlt.
  destruct (lookup_lt_is_Some_2 _ _ Hlt) as [m Hm]. rewrite <- Hlb in Hlt. apply lookup_lt_is_Some_2 in Hlt as [cb Hcb].
  pose proof (proj1 (Forall_lookup _ _) Hw _ _ Hm) as Hwm.
  specialize (HR i m cb m' Hm Hcb Hm'). destruct fresh; destruct HR as [Ho Hp _ _ _]; by eapply mgr_wf_only.
Qed.

Lemma offer_length fresh rid nl ne ncb p ms :
  offer_ok fresh rid nl ne ncb p ms -> length (blocks_of (length ms) ncb) = length ms.
Proof.
  destruct fresh; simpl; [intros Hf; symmetry; by eapply Forall2_length|]. intros (-> & _). apply length_replicate.
Qed.

Lemma offer_predict fresh rid nl ne ncb p ms n total cap :
  offer_ok fresh rid nl ne ncb p ms ->
  exists k, coord_get_num_blocks_to_allocate rid n (blocks_of (length ms) ncb) total nl cap (p, ms) = (Ok k, (p, ms)).
Proof.
  intros Ho. apply predict_stage. destruct fresh; simpl in Ho.
  - eapply Forall2_impl; [exact Ho|]. intros m cb Hfo. right. exact (fo_cached _ _ _ _ _ Hfo).
  - destruct Ho as (-> & _). simpl. apply Forall2_same_length_lookup_2; [by rewrite length_replicate|].
    intros i m cb _ Hcb. apply lookup_replicate in Hcb as [-> _]. by left.
Qed.

(** The blocks an allocation still has to find. *)
Definition owed (fresh : bool) (rid : string) (n nl ne : Z) (bss : list (list nat)) (s : P * list Manager) : Z :=
  if fresh then zsum (zip_with (owed_hit rid n (nl + ne) nl (pool_refs s.1)) s.2 bss)
  else zsum (owed_new rid n <$> s.2).

Lemma offer_owed fresh rid n nl ne ncb p ms :
  Forall mgr_wf ms -> 0 <= nl -> 0 <= ne -> offer_ok fresh rid nl ne ncb p ms ->
  coord_get_num_blocks_to_allocate rid n (blocks_of (length ms) ncb) (nl + ne) nl false (p, ms)
  = (Ok (owed fresh rid n nl ne (blocks_of (length ms) ncb) (p, ms)), (p, ms)).
Proof.
  intros Hw Hnl Hne Ho. destruct fresh; simpl in Ho; [by apply predict_fresh_all|]. destruct Ho as (-> & -> & Hr).
  rewrite Z.add_0_r. by apply predict_running_all.
Qed.

(** The last part of [take_slots]. *)
Lemma offer_tail fresh rid np processed n nl ne ncb p ms F :
  KVInv (p, ms) F -> 0 <= nl -> 0 <= ne -> nl + ne <= n -> offer_ok fresh rid nl ne ncb p ms ->
  owed fresh rid n nl ne (blocks_of (length ms) ncb) (p, ms) <= free_count (pool_refs p) ->
  exists out p' ms',
    ((match ncb with
      | EmptyBlocks => if ne >? 0 then allocate_new_computed_blocks rid (blocks_of (length ms) ncb) nl ne else ret tt
      | SomeBlocks _ => allocate_new_computed_blocks rid (blocks_of (length ms) ncb) nl ne
      end) ;; new_blocks <- coord_allocate_new_blocks rid n ;; ret (Some new_blocks)) (p, ms)
    = (Ok (Some out), (p', ms'))
    /\ accounts p' (all_holds ms' ++ F)
    /\ all_given fresh rid np processed nl ne n (elsewhere rid ms F) (blocks_of (length ms) ncb) ms ms'.
Proof.
  intros Hi Hnl Hne Hn Ho Hs. destruct fresh; simpl in Ho, Hs.
  - destruct ncb as [|bss]; [|by apply fresh_tail]. destruct (Z.gtb_spec ne 0) as [|Hle]; [by apply fresh_tail|].
    assert (ne = 0) as -> by lia. simpl in *. pose proof (kv_wf _ _ Hi) as Hw.
    pose proof (fresh_as_running _ _ _ _ Hw Hnl Ho) as Hr. simpl in Hw.
    pose proof (predict_fresh_all rid n nl 0 p ms _ Hw Hnl Hne Ho) as H1. rewrite Z.add_0_r in H1.
    rewrite (predict_running_all rid n nl p ms Hw Hnl Hr) in H1. injection H1 as H1. rewrite Z.add_0_r, <- H1 in Hs.
    destruct (running_tail rid np processed n nl 0 p ms (replicate (length ms) []) F Hi Hs) as (out & p' & ms' & Hrun & Ha & Hg).
    exists out, p', ms'. run_monad. split_and!; try done. by eapply given_as_fresh.
  - destruct Ho as (-> & -> & Hr). simpl. run_monad. by apply running_tail.
Qed.

(** The token counts [take_slots] works with. *)
Definition local_tokens (rq : ReqInfo) (new_computed : Z) : Z := rq.(num_computed_tokens) + new_computed.

Definition slots_needed (cfg : KVConfig) (rq : ReqInfo) (new_tokens new_computed lookahead external : Z) : Z :=
  Z.min (local_tokens rq new_computed + external + new_tokens + lookahead) cfg.(max_model_len).

Definition processed_tokens (rq : ReqInfo) (new_computed external : Z) : Z :=
  Z.max 0 (local_tokens rq new_computed + external - rq.(num_in_flight_tokens)).

(** What [take_slots] leaves behind: it refuses, having at most freed blocks outside
    the window, or it has given every group its blocks. *)
Definition slots_outcome (cfg : KVConfig) (rq : ReqInfo) (fresh : bool) (new_tokens new_computed lookahead external : Z)
    (ncb : KVCacheBlocks) (ms : list Manager) (F : list nat) (got : bool) (ms' : list Manager) : Prop :=
  let rid := rq.(request_id) in
  let processed := processed_tokens rq new_computed external in
  if got then all_given fresh rid rq.(num_prompt_tokens) processed (local_tokens rq new_computed) external
                (slots_needed cfg rq new_tokens new_computed lookahead external)
                (elsewhere rid ms F) (blocks_of (length ms) ncb) ms ms'
  else Forall2 (window_kept rid processed rq.(num_prompt_tokens)) ms ms'.

Lemma watermark_nonneg cfg rq sched : 0 <= cfg.(watermark_blocks) -> 0 <= watermark_for cfg rq sched.
Proof. intros Hw. unfold watermark_for. by destruct (_ && _). Qed.

Lemma take_slots_spec cfg rq fresh num_tokens new_tokens new_computed ncb lookahead external full reserved sched p ms F :
  KVInv (p, ms) F -> slots_args cfg rq new_tokens new_computed lookahead external reserved ->
  offer_ok fresh rq.(request_id) (local_tokens rq new_computed) external ncb p ms ->
  exists r p' ms',
    take_slots cfg rq num_tokens new_tokens new_computed ncb lookahead external full reserved sched (p, ms)
    = (Ok r, (p', ms'))
    /\ KVInv (p', ms') F
    /\ slots_outcome cfg rq fresh new_tokens new_computed lookahead external ncb ms F
         (match r with Some _ => true | None => false end) ms'
    /\ (r = None -> full = true
        \/ free_count (pool_refs p') - reserved - watermark_for cfg rq sched
           < owed fresh rq.(request_id) (slots_needed cfg rq new_tokens new_computed lookahead external)
               (local_tokens rq new_computed) external (blocks_of (length ms) ncb) (p', ms')).
Proof.
  intros Hi [[Hc1 Hc2] (Hn1 & Hn2 & Hn3) Hsome [Hnp Hfl] Hmod [Hres Hwm]] Ho.
  unfold slots_outcome, slots_needed, processed_tokens, take_slots. fold (local_tokens rq new_computed) in *.
  set (rid := rq.(request_id)) in *. set (nl := local_tokens rq new_computed) in *.
  assert (Hnl : 0 <= nl) by (unfold nl, local_tokens; lia). pose proof (watermark_nonneg cfg rq sched Hwm) as Hwm'.
  replace ((new_tokens =? 0) && (external =? 0)) with false by (destruct (Z.eqb_spec new_tokens 0), (Z.eqb_spec external 0); simpl; lia).
  unfold check. simpl negb. cbv iota. run_monad. rewrite (Z.min_l (nl + external)) by (unfold nl, local_tokens in *; lia). simpl.
  match goal with |- context [bind ?X _ (p, ms)] =>
    assert (exists fits, X (p, ms) = (Ok fits, (p, ms)) /\ (fits = false -> full = true)) as (fits & Hfits & Hfull) end.
  { destruct full; [|by exists true]. destruct (offer_predict fresh rid nl external ncb p ms (Z.min num_tokens (max_model_len cfg)) (nl + external) true Ho) as [k Hk].
    rewrite (bind_ok _ _ _ _ _ Hk). run_monad. by eexists. }
  rewrite (bind_ok _ _ _ _ _ Hfits). destruct fits; cbn [negb]; cbv iota.
  2:{ exists None, p, ms. split_and!; [done|done|apply window_refl|]. intros _. left. by apply Hfull. }
  set (processed := Z.max 0 _).
  destruct (remove_stage rid processed (num_prompt_tokens rq) p ms F Hi ltac:(unfold processed; lia) Hnp) as (p1 & ms1 & Hrun1 & Hi1 & Hk & Hlp).
  rewrite (bind_ok _ _ _ _ _ Hrun1). pose proof (window_offer _ _ _ _ _ _ _ _ _ _ _ Hk Hlp Ho) as Ho1.
  pose proof (kv_wf _ _ Hi1) as Hw1. rewrite (Forall2_length _ _ _ Hk) in *.
  set (n := Z.min (nl + external + new_tokens + lookahead) _).
  rewrite (bind_ok _ _ _ _ _ (offer_owed fresh rid n nl external ncb p1 ms1 Hw1 Hnl Hn3 Ho1)). run_monad.
  change (pool_free (p1, ms1)) with (pool_num_free p1). pose proof (accounts_free _ _ (kv_accounts _ _ Hi1)) as Hnf.
  simpl in Hnf. rewrite Hnf.
  destruct (Z.gtb_spec (owed fresh rid n nl external (blocks_of (length ms1) ncb) (p1, ms1) + watermark_for cfg rq sched) (free_count (pool_refs p1) - reserved)) as [Hgt|Hle].
  { exists None, p1, ms1. split_and!; try done. intros _. right. lia. }
  destruct (offer_tail fresh rid (num_prompt_tokens rq) processed n nl external ncb p1 ms1 F Hi1 Hnl Hn3) as (out & p' & ms' & Hrun & Ha' & Hg); [unfold n, nl, local_tokens in *; lia|done|lia|].
  exists (Some out), p', ms'. split_and!; try done.
  - split; [done|]. eapply given_wf; [exact Hw1| |exact Hg]. by eapply offer_length.
  - rewrite (window_elsewhere _ _ _ _ _ F Hk) in Hg. by eapply window_given.
Qed.
End coordinator_specs.
