(* ===== verification/CacheHitProps.v ===== *)
(** * What a prefix-cache hit guarantees

    Each finder returns an aligned length within the bound, with the cached block at
    every position a query after the hit attends to; full attention and sliding windows
    return the longest such length.  The coordinator's fixed-point loop terminates, and
    its length is a valid hit for every group. *)

From S2P Require Import Prelude BlockHash BlockPool BlockPoolProps KVManager CacheHit KVManagerProps.

(** ** Columns *)

Section columns.
Variable ids : list Z.
(** [col i] are the blocks cached for block [i] of the request, one per group. *)
Variable col : nat -> option (list nat).

Definition entry (g i : nat) : option nat := col i ≫= (fun bs => bs !! g).

(** [computed] holds the columns below [k]. *)
Record filled (k : nat) (computed : list (list nat)) : Prop := {
  fd_groups : length computed = length ids;
  fd_cached : forall i, (i < k)%nat -> is_Some (col i);
  fd_entries : forall g c, computed !! g = Some c -> length c = k /\ forall i, (i < k)%nat -> c !! i = entry g i;
}.

Lemma filled_nil : filled 0 (replicate (length ids) []).
Proof.
  split; [apply length_replicate|lia|]. intros g c Hc. apply lookup_replicate in Hc as [-> _]. split; [done|lia].
Qed.

Lemma filled_take k j computed : filled k computed -> (j <= k)%nat -> filled j (take j <$> computed).
Proof.
  intros [Hg Hc He] Hj. split; [by rewrite length_fmap|intros i Hi; apply Hc; lia|].
  intros g c Hx. rewrite list_lookup_fmap in Hx. destruct (computed !! g) as [c0|] eqn:H0; [|done]. simpl in Hx. simplify_eq.
  destruct (He _ _ H0) as [Hl0 Hi0]. split; [rewrite length_take; lia|]. intros i Hi.
  rewrite lookup_take_lt by done. apply Hi0. lia.
Qed.

Lemma filled_found k computed : ids <> [] -> filled k computed -> num_found computed = k.
Proof.
  intros Hne [Hg _ He]. unfold num_found. destruct computed as [|c computed]; simpl in *.
  - destruct ids; [done|]. simpl in Hg. lia.
  - by destruct (He 0%nat c eq_refl).
Qed.
Hypothesis col_length : forall i bs, col i = Some bs -> length bs = length ids.

Lemma filled_snoc k computed bs : filled k computed -> col k = Some bs -> filled (S k) (append_all computed bs).
Proof.
  intros [Hg Hc He] Hk. pose proof (col_length _ _ Hk) as Hl. unfold append_all. split.
  - rewrite length_zip_with. lia.
  - intros i Hi. destruct (decide (i = k)) as [->|]; [by eexists|]. apply Hc. lia.
  - intros g c Hx. rewrite lookup_zip_with in Hx. destruct (computed !! g) as [c0|] eqn:H0; [|done].
    destruct (bs !! g) as [b|] eqn:Hb; [|done]. simpl in Hx. simplify_eq. destruct (He _ _ H0) as [Hl0 Hi0].
    split; [rewrite length_app; simpl; lia|]. intros i Hi. destruct (decide (i = k)) as [->|].
    + rewrite lookup_app_r, Hl0, Nat.sub_diag by lia. unfold entry. rewrite Hk. simpl. by rewrite Hb.
    + rewrite lookup_app_l by lia. apply Hi0. lia.
Qed.
End columns.

Section finder_specs.
Variable lookup : bytes -> list Z -> res (option (list nat)).
Variable hash_block_size : Z.
Variables (ids : list Z) (view : BlockHashList) (col : nat -> option (list nat)).

(** [col] is what the pool holds for the hashes of [view]. *)
Hypothesis ids_nonempty : ids <> [].
Hypothesis col_length : forall i bs, col i = Some bs -> length bs = length ids.
Hypothesis col_lookup : forall i, Z.of_nat i < hash_list_len view ->
  exists h, hash_list_getitem view (Z.of_nat i) = Ok h /\ lookup h ids = Ok (col i).

(** ** Full attention *)

(** The longest run of cached blocks among the first [n] of them. *)
Lemma scan_prefix_spec n i computed :
  filled ids col i computed -> Z.of_nat i + Z.of_nat n <= hash_list_len view ->
  exists k, scan_prefix lookup view ids n (Z.of_nat i) computed
            = Ok k /\ exists m, (i <= m <= i + n)%nat /\ filled ids col m k /\ ((m < i + n)%nat -> col m = None).
Proof.
  revert i computed. induction n as [|n IH]; intros i computed Hf Hn; cbn [scan_prefix].
  { exists computed. split; [done|]. exists i. split_and!; try done; lia. }
  destruct (Z.leb_spec (hash_list_len view) (Z.of_nat i)); [lia|].
  destruct (col_lookup i ltac:(lia)) as (h & -> & Hl). cbn [rbind]. rewrite Hl. cbn [rbind].
  destruct (col i) as [bs|] eqn:Hc.
  - pose proof (filled_snoc ids col col_length i computed bs Hf Hc) as Hf'.
    replace (Z.of_nat i + 1) with (Z.of_nat (S i)) by lia.
    destruct (IH (S i) _ Hf' ltac:(lia)) as (k & Hrun & m & Hm & Hfm & Hmiss). exists k. split; [done|]. exists m.
    split_and!; try done; try lia. intros Hlt. apply Hmiss. lia.
  - exists computed. split; [done|]. exists i. split_and!; try done; lia.
Qed.

(** Lengths in blocks of [bsz] tokens rounded down to a multiple of [al]. *)
Lemma round_down_blocks n bsz al :
  0 < bsz -> 0 < al -> (bsz | al) -> 0 <= n ->
  let l := n * bsz - (n * bsz) mod al in
  (bsz | l) /\ (al | l) /\ 0 <= l <= n * bsz /\ n * bsz < l + al /\ cdiv l bsz = l / bsz.
Proof.
  intros Hb Ha [c Hc] Hn l. pose proof (Z.mod_pos_bound (n * bsz) al Ha). pose proof (Z.div_mod (n * bsz) al ltac:(lia)).
  assert (Hl : l = (n * bsz / al) * al) by (unfold l; lia). assert (0 <= n * bsz / al) by (apply Z.div_pos; nia).
  assert (Hd : (bsz | l)) by (exists (n * bsz / al * c); rewrite Hl, Hc; ring).
  split_and!; try done; [by exists (n * bsz / al)|unfold l; nia|unfold l; lia|unfold l; lia|].
  destruct Hd as [e He]. apply cdiv_unique; [done|]. rewrite He, Z.div_mul by lia. nia.
Qed.

Variables (hs : BlockHashList) (bsz al : Z).
Hypothesis bsz_pos : 0 < bsz.
Hypothesis al_pos : 0 < al.
Hypothesis bsz_al : (bsz | al).

Lemma bsz_le_al : bsz <= al.
Proof. by apply Z.divide_pos_le. Qed.

(** Whether a hit must leave one more cached block behind it. *)
Definition peek (drop : bool) : Z := if drop then bsz else 0.

(** What every finder promises of its length [L]. *)
Record hit_ok (drop : bool) (max_length : Z) (need : nat -> Prop) (computed : list (list nat)) (L : Z) : Prop := {
  ho_bounds : 0 <= L <= Z.max 0 max_length;
  ho_aligned : (al | L);
  ho_groups : length computed = length ids;
  ho_length : forall g c, computed !! g = Some c -> Z.of_nat (length c) = L / bsz;
  ho_entries : forall g c i, computed !! g = Some c -> Z.of_nat i < L / bsz -> need i ->
    c !! i = entry col g i /\ is_Some (col i);
  ho_peek : drop = true -> 0 < L -> is_Some (col (Z.to_nat (L / bsz)));
}.

Lemma full_find_run spec_bsz dcp drop max_length :
  bsz = (if 1 <? dcp then spec_bsz * dcp else spec_bsz) ->
  resolve_block_hashes hs hash_block_size bsz true (Some al) = Ok view ->
  0 <= max_length -> max_length / bsz <= hash_list_len view ->
  exists computed n L, full_find lookup hash_block_size hs max_length ids spec_bsz drop al dcp = Ok (computed, L)
    /\ Z.of_nat n <= max_length / bsz
    /\ (forall i, (i < n)%nat -> is_Some (col i)) /\ (Z.of_nat n < max_length / bsz -> col n = None)
    /\ filled ids col (Z.to_nat (L / bsz)) computed
    /\ L = (let m := if drop && (0 <? n)%nat then Z.of_nat n - 1 else Z.of_nat n in m * bsz - (m * bsz) mod al).
Proof.
  intros Hb Hres Hmax Hlen. unfold full_find. rewrite <- Hb, Hres. cbn [rbind]. pose proof bsz_le_al as Hle.
  destruct (Z.ltb_spec al bsz); [lia|]. cbn [rbind]. pose proof (Z.div_pos max_length bsz Hmax bsz_pos).
  destruct (Z.ltb_spec (max_length / bsz) 0); [lia|].
  destruct (scan_prefix_spec (Z.to_nat (max_length / bsz)) 0 _ (filled_nil ids col) ltac:(lia)) as (k & Hscan & n & Hn & Hf & Hmiss).
  change (Z.of_nat 0) with 0 in Hscan. rewrite Hscan. cbn [rbind]. rewrite (filled_found ids col n k ids_nonempty Hf).
  match goal with |- context [rbind ?X _] => assert (X = Ok None) as -> by (by destruct view) end.
  cbn [rbind]. destruct (Z.eqb_spec al 0); [lia|].
  set (m := if drop && (0 <? n)%nat then Z.of_nat n - 1 else Z.of_nat n).
  assert (Hm : 0 <= m <= Z.of_nat n) by (unfold m; destruct drop, (Nat.ltb_spec 0 n); simpl; lia).
  destruct (round_down_blocks m bsz al bsz_pos al_pos bsz_al ltac:(lia)) as ([e He] & Hd2 & Hl1 & Hl2 & Hcd).
  assert (Heq : (if drop && (Z.of_nat n * bsz >? 0) then Z.of_nat n * bsz - al `min` bsz else Z.of_nat n * bsz) = m * bsz).
  { unfold m. rewrite Z.min_r by lia. destruct drop; simpl; [|done].
    destruct n as [|n]; [done|]. pose proof (Z.mul_pos_pos (Z.of_nat (S n)) bsz ltac:(lia) bsz_pos) as Hnb.
    rewrite (proj2 (Z.gtb_lt _ _) Hnb). simpl. ring. }
  rewrite Heq. eexists _, n, _. split; [reflexivity|]. split_and!; [lia|apply Hf|intros; apply Hmiss; lia| |reflexivity].
  cbv zeta in *. rewrite Hcd. apply (filled_take _ _ n); [done|]. rewrite He, Z.div_mul by lia. nia.
Qed.

Lemma filled_hit_ok drop max_length need computed L :
  0 <= L <= Z.max 0 max_length -> (al | L) -> filled ids col (Z.to_nat (L / bsz)) computed ->
  (drop = true -> 0 < L -> is_Some (col (Z.to_nat (L / bsz)))) -> hit_ok drop max_length need computed L.
Proof.
  intros HL Hal [Hg Hc He] Hp. pose proof (Z.div_pos L bsz ltac:(lia) bsz_pos). split; try done.
  - intros g c Hx. destruct (He _ _ Hx) as [-> _]. lia.
  - intros g c i Hx Hi _. destruct (He _ _ Hx) as [_ Hx']. split; [apply Hx'|apply Hc]; lia.
Qed.

Lemma full_find_spec spec_bsz dcp drop max_length need :
  bsz = (if 1 <? dcp then spec_bsz * dcp else spec_bsz) ->
  resolve_block_hashes hs hash_block_size bsz true (Some al) = Ok view ->
  0 <= max_length -> max_length / bsz <= hash_list_len view ->
  exists computed L, full_find lookup hash_block_size hs max_length ids spec_bsz drop al dcp = Ok (computed, L)
    /\ hit_ok drop max_length need computed L
    /\ (forall i, Z.of_nat i < L / bsz -> is_Some (col i))
    /\ (L + al + peek drop <= max_length -> exists i, Z.of_nat i < (L + al + peek drop) / bsz /\ col i = None).
Proof.
  intros Hb Hres Hmax Hlen. destruct (full_find_run spec_bsz dcp drop max_length Hb Hres Hmax Hlen)
    as (computed & n & L & Hrun & Hn & Hhit & Hmiss & Hf & HL).
  exists computed, L. split; [done|]. cbv zeta in HL.
  set (m := if drop && (0 <? n)%nat then Z.of_nat n - 1 else Z.of_nat n) in *.
  assert (Hm : 0 <= m <= Z.of_nat n) by (unfold m; destruct drop, (Nat.ltb_spec 0 n); simpl; lia).
  destruct (round_down_blocks m bsz al bsz_pos al_pos bsz_al ltac:(lia)) as (Hdb & Hda & Hl1 & Hl2 & _).
  cbv zeta in *. rewrite <- HL in *. pose proof (Z.mul_div_le max_length bsz bsz_pos).
  destruct Hdb as [e He]. assert (HLb : L / bsz = e) by (rewrite He, Z.div_mul; lia).
  assert (Hem : e <= m) by nia. split_and!.
  - apply filled_hit_ok; [nia|done|done|]. intros -> Hpos. apply Hhit. unfold m in Hem. destruct (Nat.ltb_spec 0 n); simpl in Hem; nia.
  - intros i Hi. apply Hhit. lia.
  - intros Hle. assert (Hnm : Z.of_nat n * bsz < L + al + peek drop).
    { unfold peek, m in *. destruct drop, (Nat.ltb_spec 0 n); simpl in *; nia. }
    exists n. destruct bsz_al as [c Hc]. assert (HX : exists x, L + al + peek drop = x * bsz).
    { unfold peek. destruct drop; [exists (e + c + 1)|exists (e + c)]; nia. }
    destruct HX as [x Hx]. rewrite Hx in *. rewrite Z.div_mul by lia. split; [nia|]. apply Hmiss.
    apply Z.lt_le_trans with x; [nia|]. apply Z.div_le_lower_bound; lia.
Qed.

(** ** Sliding windows *)

Definition shift (drop : bool) : Z := if drop then 1 else 0.

(** A hit may end after block [e - 1], the peeked block included. *)
Definition edge (drop : bool) (e : nat) : Prop := (al | (Z.of_nat e - shift drop) * bsz).

(** [computed] holds the columns of [n, n + run). *)
Definition has_run (n run : nat) (computed : list (list nat)) : Prop :=
  forall i, (n <= i < n + run)%nat ->
    is_Some (col i) /\ forall g c, computed !! g = Some c -> c !! i = entry col g i.

(** No hit ends right of [e]: each such edge has a miss among the blocks it needs. *)
Definition none_beyond (drop : bool) (need : Z) (N e : nat) : Prop :=
  forall e', (e < e' <= N)%nat -> edge drop e' ->
    exists i, Z.of_nat e' - need <= Z.of_nat i < Z.of_nat e' /\ col i = None.

(** The loop before index [n - 1] is visited, with [run] cached blocks from [n] on. *)
Record scanning (drop : bool) (need : Z) (N n run : nat) (computed : list (list nat)) : Prop := {
  sc_groups : length computed = length ids;
  sc_length : forall g c, computed !! g = Some c -> length c = N;
  sc_bound : (n + run <= N)%nat;
  sc_run : has_run n run computed;
  sc_edge : (0 < run)%nat -> edge drop (n + run);
  sc_short : Z.of_nat run < need;
  sc_beyond : none_beyond drop need N (n + run);
}.

Lemma scanning_miss drop need N i run computed :
  scanning drop need N (S i) run computed -> col i = None -> scanning drop need N i 0 computed.
Proof.
  intros [Hg Hl Hb Hr He Hs Hx] Hc. split; [done|done|lia|intros j Hj; exfalso; lia|intros; exfalso; lia|lia|].
  intros e He' Hedge. destruct (decide (S i + run < e)%nat) as [Hlt|Hge]; [apply Hx; [lia|done]|]. exists i. split; [lia|done].
Qed.

Lemma scanning_skip drop need N i computed :
  scanning drop need N (S i) 0 computed -> ~ edge drop (S i) -> scanning drop need N i 0 computed.
Proof.
  intros [Hg Hl Hb Hr He Hs Hx] Hc. split; [done|done|lia|intros j Hj; exfalso; lia|intros; exfalso; lia|lia|].
  intros e He' Hedge. destruct (decide (e = S i)) as [->|]; [done|]. apply Hx; [lia|done].
Qed.

Lemma set_column_run n run i computed bs N :
  length computed = length ids -> (forall g c, computed !! g = Some c -> length c = N) -> (i < N)%nat ->
  n = S i -> has_run n run computed -> col i = Some bs ->
  let computed' := zip_with (fun c b => <[i := b]> c) computed bs in
  length computed' = length ids /\ (forall g c, computed' !! g = Some c -> length c = N) /\ has_run i (S run) computed'.
Proof.
  intros Hg Hl Hi -> Hr Hc computed'. pose proof (col_length _ _ Hc) as Hlb.
  assert (Hlook : forall g c, computed' !! g = Some c -> exists c0 b, computed !! g = Some c0 /\ bs !! g = Some b /\ c = <[i := b]> c0).
  { intros g c Hx. unfold computed' in Hx. rewrite lookup_zip_with in Hx. destruct (computed !! g) as [c0|]; [|done].
    destruct (bs !! g) as [b|]; [|done]. simpl in Hx. simplify_eq. eauto. }
  split_and!.
  - unfold computed'. rewrite length_zip_with. lia.
  - intros g c Hx. destruct (Hlook g c Hx) as (c0 & b & H0 & _ & ->). rewrite length_insert. eauto.
  - intros j Hj. destruct (decide (j = i)) as [->|Hne].
    + split; [by eexists|]. intros g c Hx. destruct (Hlook g c Hx) as (c0 & b & H0 & Hb & ->).
      rewrite list_lookup_insert_eq by (by rewrite (Hl _ _ H0)). unfold entry. rewrite Hc. simpl. by rewrite Hb.
    + destruct (Hr j ltac:(lia)) as [Hs He]. split; [done|]. intros g c Hx. destruct (Hlook g c Hx) as (c0 & b & H0 & _ & ->).
      rewrite list_lookup_insert_ne by lia. by apply He.
Qed.

Lemma edge_test (drop : bool) i :
  negb (bsz =? al) && negb ((if drop then Z.of_nat i else Z.of_nat i + 1) * bsz mod al =? 0) = false <-> edge drop (S i).
Proof.
  unfold edge, shift. replace (Z.of_nat (S i) - (if drop then 1 else 0)) with (if drop then Z.of_nat i else Z.of_nat i + 1) by (destruct drop; lia).
  generalize (if drop then Z.of_nat i else Z.of_nat i + 1). intros x. rewrite <- Z.mod_divide by lia.
  destruct (Z.eqb_spec bsz al) as [He|]; simpl.
  - split; [|done]. intros _. rewrite He. apply Z.mod_mul. lia.
  - destruct (Z.eqb_spec (x * bsz mod al) 0); simpl; split; congruence.
Qed.

Lemma scan_window_spec drop need N n run computed :
  1 <= need -> Z.of_nat N <= hash_list_len view -> scanning drop need N n run computed ->
  exists c' r found, scan_window lookup view ids bsz al need drop n computed run = Ok (c', r, found)
    /\ if found
       then exists i, (i + r <= N)%nat /\ Z.of_nat r = need /\ length c' = length ids
              /\ (forall g c, c' !! g = Some c -> length c = (i + r)%nat) /\ has_run i r c'
              /\ edge drop (i + r) /\ none_beyond drop need N (i + r)
       else scanning drop need N 0 r c'.
Proof.
  intros Hneed HN. revert run computed. induction n as [|i IH]; intros run computed Hsc; cbn [scan_window].
  { by exists computed, run, false. }
  pose proof (sc_bound _ _ _ _ _ _ Hsc) as Hb. destruct (col_lookup i ltac:(lia)) as (h & -> & Hl). cbn [rbind]. rewrite Hl. cbn [rbind].
  destruct (col i) as [bs|] eqn:Hc; [|apply IH; by eapply scanning_miss].
  rewrite <- andb_assoc. destruct (_ && (negb _ && negb _)) eqn:Ht.
  { apply andb_true_iff in Ht as [H0 Ht]. apply Nat.eqb_eq in H0 as ->. apply IH. apply scanning_skip; [done|].
    intros He. apply edge_test in He. congruence. }
  destruct Hsc as [Hg Hlen _ Hr He Hs Hx].
  assert (Hedge : edge drop (i + S run)).
  { replace (i + S run)%nat with (S i + run)%nat by lia. destruct run as [|run]; [|apply He; lia].
    rewrite Nat.add_0_r. apply edge_test. by simpl in Ht. }
  destruct (set_column_run (S i) run i computed bs N Hg Hlen ltac:(lia) eq_refl Hr Hc) as (Hg' & Hlen' & Hr').
  set (computed' := zip_with _ _ _) in *. replace (S i + run)%nat with (i + S run)%nat in Hx by lia.
  destruct (Z.leb_spec need (Z.of_nat (S run))) as [Hle|Hgt].
  - eexists _, _, true. split; [reflexivity|]. exists i. split_and!; [lia|lia|by rewrite length_fmap| | |done|done].
    + intros g c Hx'. rewrite list_lookup_fmap in Hx'. destruct (computed' !! g) as [c0|] eqn:H0; [|done]. simpl in Hx'. simplify_eq.
      rewrite length_take, (Hlen' _ _ H0). lia.
    + intros j Hj. destruct (Hr' j Hj) as [Hs' He']. split; [done|]. intros g c Hx'. rewrite list_lookup_fmap in Hx'.
      destruct (computed' !! g) as [c0|] eqn:H0; [|done]. simpl in Hx'. simplify_eq. rewrite lookup_take_lt by lia. by apply He'.
  - apply IH. split; [done|done|lia|done|done|lia|done].
Qed.

Lemma pop_to_alignment_spec n :
  let r := pop_to_alignment bsz al n in (r <= n)%nat /\ (al | Z.of_nat r * bsz) /\ ((al | Z.of_nat n * bsz) -> r = n).
Proof.
  induction n as [|n IH]; cbn [pop_to_alignment]; [split_and!; [lia|by exists 0|done]|].
  destruct (_ && _) eqn:Ht.
  - destruct IH as (Hle & Hal & _). split_and!; [lia|done|]. intros Hd. apply Z.mod_divide in Hd; [|lia].
    apply andb_true_iff in Ht as [_ Ht]. rewrite Hd in Ht. done.
  - split_and!; [lia| |done]. apply Z.mod_divide; [lia|]. apply andb_false_iff in Ht as [Ht|Ht]; apply negb_false_iff, Z.eqb_eq in Ht; [|done].
    rewrite Ht. apply Z.mod_mul. lia.
Qed.

Lemma uniform_found k computed :
  length computed = length ids -> (forall g c, computed !! g = Some c -> length c = k) -> num_found computed = k.
Proof.
  intros Hg Hl. unfold num_found. destruct computed as [|c computed]; simpl in *; [|by apply (Hl 0%nat)].
  destruct ids; [done|]. simpl in Hg. lia.
Qed.

Lemma take_uniform k j (computed : list (list nat)) :
  (j <= k)%nat -> (forall g c, computed !! g = Some c -> length c = k) ->
  forall g c, (take j <$> computed) !! g = Some c -> length c = j.
Proof.
  intros Hj Hl g c Hx. rewrite list_lookup_fmap in Hx. destruct (computed !! g) as [c0|] eqn:H0; [|done]. simpl in Hx. simplify_eq.
  rewrite length_take, (Hl _ _ H0). lia.
Qed.

Lemma take_run n run j computed : has_run n run computed -> (n + run <= j)%nat -> has_run n run (take j <$> computed).
Proof.
  intros Hr Hj i Hi. destruct (Hr i Hi) as [Hs He]. split; [done|]. intros g c Hx. rewrite list_lookup_fmap in Hx.
  destruct (computed !! g) as [c0|] eqn:H0; [|done]. simpl in Hx. simplify_eq. rewrite lookup_take_lt by lia. by apply He.
Qed.

Lemma sub_run n run j k computed : has_run n run computed -> (n <= j)%nat -> (k <= run - (j - n))%nat -> has_run j k computed.
Proof. intros Hr Hj Hk i Hi. apply Hr. lia. Qed.

(** The last steps of the finder on the outcome of the loop: [k] blocks remain, those
    from [lo] on are cached. *)
Definition trimmed (drop : bool) (lo k : nat) (computed : list (list nat)) : Prop :=
  length computed = length ids /\ (forall g c, computed !! g = Some c -> length c = k)
  /\ has_run lo (k - lo) computed /\ (al | Z.of_nat k * bsz)
  /\ (drop = true -> (0 < k)%nat -> is_Some (col k)).

Lemma trim_found drop need i r computed :
  (1 <= r)%nat -> need = Z.of_nat r -> length computed = length ids ->
  (forall g c, computed !! g = Some c -> length c = (i + r)%nat) -> has_run i r computed -> edge drop (i + r) ->
  let k := if drop then (i + r - 1)%nat else (i + r)%nat in
  exists c', (if drop && negb (num_found computed =? 0)%nat
              then take (pop_to_alignment bsz al (num_found computed - 1)) <$> computed else computed) = c'
    /\ trimmed drop i k c'.
Proof.
  intros Hr1 -> Hg Hl Hr He k. eexists. split; [reflexivity|]. rewrite (uniform_found _ _ Hg Hl). unfold edge, shift in He.
  destruct drop; simpl.
  - destruct (Nat.eqb_spec (i + r) 0); [lia|]. simpl. destruct (pop_to_alignment_spec (i + r - 1)) as (_ & _ & Heq).
    rewrite Heq by (by replace (Z.of_nat (i + r - 1)) with (Z.of_nat (i + r) - 1) by lia).
    split_and!; [by rewrite length_fmap|eapply take_uniform; [|exact Hl]; lia| | |].
    + apply take_run; [|unfold k; lia]. eapply sub_run; [exact Hr|lia|unfold k; lia].
    + unfold k. by replace (Z.of_nat (i + r - 1)) with (Z.of_nat (i + r) - 1) by lia.
    + intros _ _. apply Hr. unfold k. lia.
  - split_and!; [done|done| | |done]; unfold k.
    + eapply sub_run; [exact Hr|lia|lia].
    + by rewrite Z.sub_0_r in He.
Qed.

Lemma trim_short drop r N computed :
  length computed = length ids -> (forall g c, computed !! g = Some c -> length c = N) -> (r <= N)%nat ->
  has_run 0 r computed ->
  let c1 := take (pop_to_alignment bsz al (num_found (take r <$> computed))) <$> (take r <$> computed) in
  exists c' k, (if drop && negb (num_found c1 =? 0)%nat
              then take (pop_to_alignment bsz al (num_found c1 - 1)) <$> c1 else c1) = c'
    /\ trimmed drop 0 k c' /\ (k <= r)%nat /\ (drop = false -> (al | Z.of_nat r * bsz) -> k = r).
Proof.
  intros Hg Hl Hle Hr c1. assert (Hl1 : forall g c, (take r <$> computed) !! g = Some c -> length c = r) by (by eapply take_uniform).
  assert (Hg1 : length (take r <$> computed) = length ids) by (by rewrite length_fmap).
  unfold c1. rewrite (uniform_found _ _ Hg1 Hl1). destruct (pop_to_alignment_spec r) as (Hp1 & Hpa & Hpe).
  set (p1 := pop_to_alignment bsz al r) in *. set (c2 := take p1 <$> _).
  assert (Hl2 : forall g c, c2 !! g = Some c -> length c = p1) by (eapply take_uniform; [exact Hp1|exact Hl1]).
  assert (Hg2 : length c2 = length ids) by (unfold c2; by rewrite length_fmap).
  assert (Hr2 : has_run 0 p1 c2).
  { apply take_run; [|lia]. apply take_run; [|lia]. eapply sub_run; [exact Hr|lia|lia]. }
  rewrite (uniform_found _ _ Hg2 Hl2). destruct (drop && negb (p1 =? 0)%nat) eqn:Hd.
  - apply andb_true_iff in Hd as [Hdr Hne]. apply negb_true_iff, Nat.eqb_neq in Hne.
    destruct (pop_to_alignment_spec (p1 - 1)) as (Hp2 & Hpa2 & _). set (p2 := pop_to_alignment bsz al (p1 - 1)) in *.
    exists (take p2 <$> c2), p2. split_and!; [done| |lia|by rewrite Hdr].
    split_and!; [by rewrite length_fmap|eapply take_uniform; [|exact Hl2]; lia| |done|].
    + apply take_run; [|lia]. eapply sub_run; [exact Hr2|lia|lia].
    + intros _ _. apply Hr. lia.
  - exists c2, p1. split_and!; [done| |lia|by intros _]. split_and!; [done|done| |done|].
    + eapply sub_run; [exact Hr2|lia|lia].
    + intros -> Hk. simpl in Hd. apply negb_false_iff, Nat.eqb_eq in Hd. lia.
Qed.

Lemma scanning_init drop need N :
  1 <= need -> scanning drop need N N 0 (replicate (length ids) (replicate N null_block)).
Proof.
  intros Hn. split; [apply length_replicate| |lia|intros i Hi; lia|lia|lia|intros e He; lia].
  intros g c Hc. apply lookup_replicate in Hc as [-> _]. apply length_replicate.
Qed.

Lemma need_blocks w drop : contiguous_blocks_for_hit w bsz drop = cdiv (w - 1) bsz + shift drop.
Proof. done. Qed.

Lemma window_find_run drop max_length w :
  2 <= w -> resolve_block_hashes hs hash_block_size bsz false (Some al) = Ok view ->
  max_length / bsz <= hash_list_len view -> 0 <= hash_list_len view ->
  let N := Z.to_nat (max_length / bsz) in
  exists computed k lo, window_find lookup hash_block_size hs max_length ids bsz w drop al = Ok (computed, Z.of_nat k * bsz)
    /\ (k <= N)%nat /\ trimmed drop lo k computed /\ Z.of_nat lo <= Z.max 0 (Z.of_nat k - cdiv (w - 1) bsz)
    /\ (drop = false -> none_beyond false (cdiv (w - 1) bsz) N k).
Proof.
  intros Hw Hres Hlen Hlen0 N. unfold window_find, py_divides. destruct (Z.eqb_spec bsz 0); [lia|]. cbn [rbind].
  rewrite (proj2 (Z.mod_divide al bsz ltac:(lia)) bsz_al), Z.eqb_refl. cbn [negb]. rewrite Hres. cbn [rbind]. rewrite need_blocks.
  pose proof (cdiv_spec (w - 1) bsz bsz_pos). assert (Hc : 1 <= cdiv (w - 1) bsz) by nia.
  assert (Hneed : 1 <= cdiv (w - 1) bsz + shift drop) by (unfold shift; destruct drop; lia).
  destruct (scan_window_spec drop _ N N 0 _ Hneed ltac:(unfold N; lia) (scanning_init drop _ N Hneed)) as (c' & r & found & Hrun & Hout).
  fold N. rewrite Hrun. cbn [rbind]. destruct found.
  - destruct Hout as (i & Hi & Hr & Hg & Hl & Hrn & Hedge & Hbey).
    destruct (trim_found drop _ i r c' ltac:(lia) eq_refl Hg Hl Hrn Hedge) as (c2 & -> & Htr).
    set (k := if drop then (i + r - 1)%nat else (i + r)%nat) in *. exists c2, k, i.
    rewrite (uniform_found k c2 (proj1 Htr) (proj1 (proj2 Htr))). split_and!; [done|unfold k; destruct drop; lia|done| |].
    + unfold k, shift in *. destruct drop; lia.
    + intros ->. unfold k, shift in *. by rewrite Z.add_0_r in Hbey.
  - destruct Hout as [Hg Hl Hb Hrn Hed Hsh Hbey]. simpl in Hb, Hrn, Hbey.
    destruct (trim_short drop r N c' Hg Hl Hb Hrn) as (c2 & k & -> & Htr & Hkr & Heq). exists c2, k, 0%nat.
    rewrite (uniform_found k c2 (proj1 Htr) (proj1 (proj2 Htr))). split_and!; [done|lia|done|lia|].
    intros ->. unfold shift in Hbey. rewrite Z.add_0_r in Hbey. destruct r as [|r].
    + by replace k with 0%nat by lia.
    + rewrite Heq; [done|done|]. specialize (Hed ltac:(lia)). unfold edge, shift in Hed. by rewrite Z.sub_0_r in Hed.
Qed.

Lemma window_find_spec drop max_length w :
  2 <= w -> 0 <= max_length -> resolve_block_hashes hs hash_block_size bsz false (Some al) = Ok view ->
  max_length / bsz <= hash_list_len view ->
  exists computed L, window_find lookup hash_block_size hs max_length ids bsz w drop al = Ok (computed, L)
    /\ hit_ok drop max_length (fun i => L / bsz - cdiv (w - 1) bsz <= Z.of_nat i) computed L
    /\ (drop = false -> forall L', (al | L') -> L < L' <= max_length ->
          exists i, L' / bsz - cdiv (w - 1) bsz <= Z.of_nat i < L' / bsz /\ col i = None).
Proof.
  intros Hw Hmax Hres Hlen. pose proof (Z.div_pos max_length bsz Hmax bsz_pos).
  destruct (window_find_run drop max_length w Hw Hres Hlen ltac:(lia)) as (computed & k & lo & Hrun & Hk & (Hg & Hl & Hr & Ha & Hp) & Hlo & Hbey).
  exists computed, (Z.of_nat k * bsz). pose proof (Z.mul_div_le max_length bsz bsz_pos).
  assert (Hdiv : Z.of_nat k * bsz / bsz = Z.of_nat k) by (apply Z.div_mul; lia). split_and!; [done| |].
  - split; rewrite ?Hdiv; try done; [nia| | |].
    + intros g c Hc. by rewrite (Hl _ _ Hc).
    + intros g c i Hc Hi Hn. destruct (Hr i ltac:(lia)) as [Hs He]. split; [by apply He|done].
    + intros Hd Hpos. rewrite Nat2Z.id. apply Hp; [done|]. destruct k; [lia|lia].
  - intros Hd L' [x Hx] [Hlt Hle]. destruct bsz_al as [c Hc].
    assert (HL' : L' = x * c * bsz) by (rewrite Hx, Hc; ring). assert (Hq : L' / bsz = x * c) by (rewrite HL', Z.div_mul; lia).
    assert (Hge : x * c <= max_length / bsz) by (apply Z.div_le_lower_bound; lia).
    assert (Hgt : Z.of_nat k < x * c) by nia. rewrite Hq.
    destruct (Hbey Hd (Z.to_nat (x * c))) as (i & Hi & Hmiss); [lia| |].
    + unfold edge, shift. exists x. rewrite Z2Nat.id by lia. rewrite Hc. ring.
    + exists i. split; [lia|done].
Qed.

(** ** Chunked local attention *)

(** [computed] holds null blocks below [lo] and the columns of [lo, k). *)
Lemma scan_chunk_spec lo n i computed :
  length computed = length ids -> (forall g c, computed !! g = Some c -> length c = i) -> (lo <= i)%nat ->
  has_run lo (i - lo) computed -> Z.of_nat i + Z.of_nat n <= hash_list_len view ->
  exists c' k, scan_chunk lookup view ids n (Z.of_nat i) computed = Ok c' /\ (i <= k <= i + n)%nat
    /\ ((k < i + n)%nat -> col k = None)
    /\ length c' = length ids /\ (forall g c, c' !! g = Some c -> length c = k) /\ has_run lo (k - lo) c'.
Proof.
  revert i computed. induction n as [|n IH]; intros i computed Hg Hl Hlo Hr Hn; cbn [scan_chunk].
  { exists computed, i. split_and!; done || lia. }
  destruct (col_lookup i ltac:(lia)) as (h & -> & Hlk). cbn [rbind]. rewrite Hlk. cbn [rbind].
  destruct (col i) as [bs|] eqn:Hc; [|exists computed, i; split_and!; done || lia].
  replace (Z.of_nat i + 1) with (Z.of_nat (S i)) by lia. pose proof (col_length _ _ Hc) as Hlb.
  assert (Hlook : forall g c, append_all computed bs !! g = Some c -> exists c0 b, computed !! g = Some c0 /\ bs !! g = Some b /\ c = c0 ++ [b]).
  { intros g c Hx. unfold append_all in Hx. rewrite lookup_zip_with in Hx. destruct (computed !! g) as [c0|]; [|done].
    destruct (bs !! g) as [b|]; [|done]. simpl in Hx. simplify_eq. eauto. }
  destruct (IH (S i) (append_all computed bs)) as (c' & k & Hrun & Hk & Hmiss & Hrest); [| |lia| |lia|].
  - unfold append_all. rewrite length_zip_with. lia.
  - intros g c Hx. destruct (Hlook g c Hx) as (c0 & b & H0 & _ & ->). rewrite length_app, (Hl _ _ H0). simpl. lia.
  - intros j Hj. destruct (decide (j = i)) as [->|Hne].
    + split; [by eexists|]. intros g c Hx. destruct (Hlook g c Hx) as (c0 & b & H0 & Hb & ->).
      rewrite lookup_app_r, (Hl _ _ H0), Nat.sub_diag by (rewrite (Hl _ _ H0); lia). unfold entry. rewrite Hc. simpl. by rewrite Hb.
    + destruct (Hr j ltac:(lia)) as [Hs He]. split; [done|]. intros g c Hx. destruct (Hlook g c Hx) as (c0 & b & H0 & _ & ->).
      rewrite lookup_app_l by (rewrite (Hl _ _ H0); lia). by apply He.
  - exists c', k. split_and!; [done|lia|lia|intros; apply Hmiss; lia|apply Hrest..].
Qed.

Lemma chunk_start_bounds max_length chunk :
  0 < chunk -> (bsz | chunk) -> 0 <= max_length ->
  let start := (if max_length >? 0 then max_length / chunk * chunk else 0) in
  (bsz | start) /\ 0 <= start <= max_length /\ max_length < start + chunk /\ start / chunk = max_length / chunk.
Proof.
  intros Hc [e He] Hm start. assert (Hs : start = max_length / chunk * chunk).
  { unfold start. destruct (Z.gtb_spec max_length 0); [done|]. by replace max_length with 0 by lia. }
  pose proof (Z.mul_div_le max_length chunk Hc). pose proof (Z.mul_succ_div_gt max_length chunk Hc).
  pose proof (Z.div_pos max_length chunk Hm Hc). rewrite Hs, Z.div_mul by lia.
  split_and!; try nia. exists (max_length / chunk * e). rewrite He at 2. ring.
Qed.

Lemma chunk_find_spec max_length chunk :
  0 < chunk -> (bsz | chunk) -> bsz = al -> 0 <= max_length ->
  resolve_block_hashes hs hash_block_size bsz false (Some al) = Ok view -> max_length / bsz <= hash_list_len view ->
  exists computed L, chunk_find lookup hash_block_size hs max_length ids bsz chunk false al = Ok (computed, L)
    /\ hit_ok false max_length (fun i => L / chunk * chunk <= Z.of_nat i * bsz) computed L
    /\ max_length / chunk * chunk <= L /\ (L / bsz < max_length / bsz -> col (Z.to_nat (L / bsz)) = None).
Proof.
  intros Hc Hd Hal Hmax Hres Hlen. unfold chunk_find. rewrite (proj2 (Z.eqb_eq bsz al) Hal). cbn [negb]. rewrite Hres. cbn [rbind].
  destruct (chunk_start_bounds max_length chunk Hc Hd Hmax) as ([e He] & Hs1 & Hs2 & Hs3). cbv zeta in *.
  set (start := if max_length >? 0 then _ else 0) in *. assert (Hsb : start / bsz = e) by (rewrite He, Z.div_mul; lia).
  assert (He0 : 0 <= e <= max_length / bsz) by (split; [nia|apply Z.div_le_lower_bound; lia]).
  rewrite Hsb. set (lo := Z.to_nat e). replace e with (Z.of_nat lo) by lia.
  destruct (scan_chunk_spec lo (Z.to_nat (max_length / bsz - Z.of_nat lo)) lo (replicate (length ids) (replicate lo null_block)))
    as (c' & k & Hrun & Hk & Hmiss & Hg & Hl & Hr); [apply length_replicate| |lia|intros i Hi; lia|lia|].
  { intros g c Hx. apply lookup_replicate in Hx as [-> _]. apply length_replicate. }
  rewrite Hrun. cbn [rbind]. rewrite (uniform_found k c' Hg Hl). exists c', (Z.of_nat k * bsz). split; [done|].
  pose proof (Z.mul_div_le max_length bsz bsz_pos). assert (Hdiv : Z.of_nat k * bsz / bsz = Z.of_nat k) by (apply Z.div_mul; lia).
  assert (Hkb : start <= Z.of_nat k * bsz <= max_length) by nia.
  assert (Hch : Z.of_nat k * bsz / chunk * chunk = start).
  { rewrite <- (Z.div_mul (start / chunk) chunk) in Hs3 by lia.
    assert (Hq : Z.of_nat k * bsz / chunk = max_length / chunk).
    { apply Z.le_antisymm; [apply Z.div_le_mono; lia|]. rewrite <- Hs3, Z.div_mul by lia. apply Z.div_le_mono; lia. }
    rewrite Hq. unfold start. destruct (Z.gtb_spec max_length 0); [done|]. by replace max_length with 0 by lia. }
  split_and!; rewrite ?Hdiv.
  2:{ apply Z.le_trans with start; [|lia]. unfold start. destruct (Z.gtb_spec max_length 0); [lia|].
      replace max_length with 0 by lia. rewrite Z.div_0_l; lia. }
  2:{ intros Hlt. rewrite Nat2Z.id. apply Hmiss. lia. }
  split; rewrite ?Hdiv; try done; [lia|exists (Z.of_nat k); by rewrite <- Hal| |].
  - intros g c Hx. by rewrite (Hl _ _ Hx).
  - intros g c i Hx Hi Hn. rewrite Hch in Hn. destruct (Hr i ltac:(nia)) as [Hs He']. split; [by apply He'|done].
Qed.

Lemma hit_ok_impl drop max_length (need need' : nat -> Prop) computed L :
  (forall i, Z.of_nat i < L / bsz -> need' i -> need i) ->
  hit_ok drop max_length need computed L -> hit_ok drop max_length need' computed L.
Proof. intros Hi [H1 H2 H3 H4 H5 H6]. split; try done. intros g c i Hc Hlt Hn. apply (H5 g c i Hc Hlt). auto. Qed.

(** ** The common contract *)

(** Some query after a hit of [L] tokens reads block [i]. *)
Definition needed (spec : KVCacheSpec) (L : Z) (i : nat) : Prop :=
  exists np q k, L <= q /\ attends spec np q k /\ k < L /\ k / bsz = Z.of_nat i.

Lemma needed_window w extra L i :
  0 <= L -> (bsz | L) -> needed (SlidingWindowSpec w extra) L i -> L / bsz - cdiv (w - 1) bsz <= Z.of_nat i.
Proof.
  intros HL [m ->] (np & q & k & Hq & [_ Hk] & _ & <-). rewrite Z.div_mul by lia. simpl in Hk.
  pose proof (cdiv_spec (w - 1) bsz bsz_pos). apply Z.div_le_lower_bound; [done|]. nia.
Qed.

Lemma needed_chunk chunk L i :
  0 <= L -> 0 < chunk -> (bsz | chunk) -> needed (ChunkedLocalAttentionSpec chunk) L i -> L / chunk * chunk <= Z.of_nat i * bsz.
Proof.
  intros HL Hc [e He] (np & q & k & Hq & [_ Hk] & Hlt & Hi). simpl in Hk.
  assert (Hkl : k / chunk = L / chunk).
  { apply Z.le_antisymm; [apply Z.div_le_mono; lia|]. rewrite Hk. apply Z.div_le_mono; lia. }
  rewrite <- Hi, <- Hkl. pose proof (Z.mul_div_le k chunk Hc) as Hle.
  assert (k / chunk * e <= k / bsz) by (apply Z.div_le_lower_bound; [done|]; nia). nia.
Qed.

(** A length is a hit when everything read after it is cached. *)
Definition valid_hit (spec : KVCacheSpec) (L : Z) : Prop :=
  0 <= L /\ (al | L) /\ forall i, Z.of_nat i < L / bsz -> needed spec L i -> is_Some (col i).

Lemma divide_al_blocks L : (al | L) -> (bsz | L).
Proof. intros Ha. by etransitivity. Qed.

Lemma block_below L i : (bsz | L) -> Z.of_nat i < L / bsz -> Z.of_nat i * bsz + bsz <= L.
Proof. intros [m ->] Hi. rewrite Z.div_mul in Hi by lia. nia. Qed.

Lemma needed_full spec L i :
  is_full spec = true -> (bsz | L) -> Z.of_nat i < L / bsz -> needed spec L i.
Proof.
  intros Hf Hd Hi. pose proof (block_below L i Hd Hi). exists L, L, (Z.of_nat i * bsz). rewrite Z.div_mul by lia.
  split_and!; [lia| |nia|done]. destruct spec; try done; (split; [nia|]); simpl; nia.
Qed.

Lemma needed_window_conv w extra L i :
  (bsz | L) -> L / bsz - cdiv (w - 1) bsz <= Z.of_nat i < L / bsz -> needed (SlidingWindowSpec w extra) L i.
Proof.
  intros [m Hm] Hi. rewrite Hm, Z.div_mul in Hi by lia. pose proof (cdiv_spec (w - 1) bsz bsz_pos).
  exists 0, L, (Z.of_nat i * bsz + (bsz - 1)). rewrite Z.div_add_l, (Z.div_small (bsz - 1)) by lia.
  assert (0 <= Z.of_nat i * bsz) by nia. assert (Z.of_nat i * bsz + bsz <= m * bsz) by nia.
  assert ((m - cdiv (w - 1) bsz) * bsz <= Z.of_nat i * bsz) by nia.
  split_and!; [lia| |lia|lia]. split; [lia|]. simpl. nia.
Qed.

Lemma full_longest spec (L L' m : Z) :
  is_full spec = true -> (al | L) -> (L + al <= m -> exists i, Z.of_nat i < (L + al) / bsz /\ col i = None) ->
  valid_hit spec L' -> L' <= m -> L' <= L.
Proof.
  intros Hf [x Hx] Hmiss (H0 & [y Hy] & Hv) Hm. destruct (Z.le_gt_cases L' L) as [|Hgt]; [done|]. exfalso.
  assert (Hxy : x < y) by (apply (Z.mul_lt_mono_pos_r al); lia). assert (Hge : L + al <= L') by nia. destruct (Hmiss ltac:(lia)) as (i & Hi & Hn).
  assert (Hd : (bsz | L')) by (apply divide_al_blocks; by exists y).
  assert (Hi' : Z.of_nat i < L' / bsz) by (eapply Z.lt_le_trans; [exact Hi|apply Z.div_le_mono; lia]).
  destruct (Hv i Hi' (needed_full spec L' i Hf Hd Hi')) as [b Hb]. congruence.
Qed.

Lemma window_longest w extra (L L' m : Z) :
  (forall L1, (al | L1) -> L < L1 <= m -> exists i, L1 / bsz - cdiv (w - 1) bsz <= Z.of_nat i < L1 / bsz /\ col i = None) ->
  valid_hit (SlidingWindowSpec w extra) L' -> L' <= m -> L' <= L.
Proof.
  intros Hmiss (H0 & Ha & Hv) Hm. destruct (Z.le_gt_cases L' L) as [|Hgt]; [done|]. exfalso.
  destruct (Hmiss L' Ha ltac:(lia)) as (i & Hi & Hn).
  destruct (Hv i (proj2 Hi) (needed_window_conv w extra L' i (divide_al_blocks _ Ha) Hi)) as [b Hb]. congruence.
Qed.

Lemma chunk_longest chunk (L L' m : Z) :
  0 < chunk -> 0 <= L -> (bsz | L) -> m / chunk * chunk <= L -> (L / bsz < m / bsz -> col (Z.to_nat (L / bsz)) = None) ->
  valid_hit (ChunkedLocalAttentionSpec chunk) L' -> L' <= m -> L' <= L.
Proof.
  intros Hc HL [x Hx] Hst Hmiss (H0 & Ha & Hv) Hm. destruct (Z.le_gt_cases L' L) as [|Hgt]; [done|]. exfalso.
  destruct (divide_al_blocks _ Ha) as [y Hy]. assert (Hlx : L / bsz = x) by (rewrite Hx, Z.div_mul; lia).
  assert (Hxy : x < y) by (apply (Z.mul_lt_mono_pos_r bsz); lia). assert (Hym : y <= m / bsz) by (apply Z.div_le_lower_bound; nia).
  assert (Hx0 : 0 <= x) by nia. specialize (Hmiss ltac:(lia)). rewrite Hlx in Hmiss.
  assert (HLc : L / chunk = m / chunk).
  { apply Z.le_antisymm; [apply Z.div_le_mono; lia|]. apply Z.div_le_lower_bound; lia. }
  assert (HLc' : L' / chunk = m / chunk).
  { apply Z.le_antisymm; [apply Z.div_le_mono; lia|]. rewrite <- HLc. apply Z.div_le_mono; lia. }
  destruct (Hv (Z.to_nat x)) as [b Hb]; [rewrite Hy, Z.div_mul by lia; lia| |congruence].
  exists 0, L', L. rewrite Hlx, Z2Nat.id by lia. split_and!; [lia| |lia|done]. split; [lia|]. simpl. congruence.
Qed.
End finder_specs.

(** ** Groups *)

Section hybrid.
Variable lookup : bytes -> list Z -> res (option (list nat)).
Variable hash_block_size : Z.
Variables (c : HybridConfig) (hs : BlockHashList) (max_cache_hit_length : Z).

Notation al := (cache_hit_alignment_tokens hash_block_size c).
Notation bsz g := (group_block_size c g).
Notation ids g := (Z.of_nat <$> g.(group_ids)).

(** What the coordinator relies on of a group's finder, [col] being what the pool holds
    for the blocks of the request: from every bound it returns the longest hit. *)
Class Finder (g : SpecGroup) (col : nat -> option (list nat)) : Prop := {
  fi_block : 0 < bsz g /\ (bsz g | al);
  fi_find : forall m, 0 <= m <= max_cache_hit_length ->
    exists computed L,
      find_hit lookup hash_block_size g hs m false al (if is_full g.(sg_spec).(gs_spec) then c.(hybrid_dcp_world_size) else 1)
      = Ok (computed, L)
      /\ hit_ok (ids g) col (bsz g) al false m
           (if is_full g.(sg_spec).(gs_spec) then fun _ => True else needed (bsz g) g.(sg_spec).(gs_spec) L) computed L
      /\ forall L', valid_hit col (bsz g) al g.(sg_spec).(gs_spec) L' -> L' <= m -> L' <= L;
}.

(** When a group's specification and hashes fit the configuration, the finder of its
    attention type is one. *)
Record group_fits (g : SpecGroup) (view : BlockHashList) (col : nat -> option (list nat)) : Prop := {
  gf_ids : g.(group_ids) <> [];
  gf_block : 0 < bsz g /\ 0 < al /\ (bsz g | al);
  gf_view : resolve_block_hashes hs hash_block_size (bsz g) (is_full g.(sg_spec).(gs_spec)) (Some al) = Ok view;
  gf_enough : max_cache_hit_length / bsz g <= hash_list_len view;
  gf_col : forall i bs, col i = Some bs -> length bs = length g.(group_ids);
  gf_lookup : forall i, Z.of_nat i < hash_list_len view ->
    exists h, hash_list_getitem view (Z.of_nat i) = Ok h /\ lookup h (ids g) = Ok (col i);
  gf_spec : match g.(sg_spec).(gs_spec) with
            | FullAttentionSpec | RSWASpec _ => True
            | SlidingWindowSpec w _ => 2 <= w /\ c.(hybrid_dcp_world_size) <= 1
            | ChunkedLocalAttentionSpec chunk => 0 < chunk /\ (bsz g | chunk) /\ bsz g = al /\ c.(hybrid_dcp_world_size) <= 1
            end;
}.

Lemma group_finder g view col : 0 <= max_cache_hit_length -> group_fits g view col -> Finder g col.
Proof.
  intros Hmax [Hids (Hb & Ha & Hd) Hview Hen Hcol Hlk Hspec]. split; [done|]. intros m Hm.
  assert (Hids' : ids g <> []) by (by destruct (group_ids g)).
  assert (Hcol' : forall i bs, col i = Some bs -> length bs = length (ids g)) by (intros; rewrite length_fmap; eauto).
  assert (Hen' : m / bsz g <= hash_list_len view) by (etransitivity; [apply Z.div_le_mono; [done|apply Hm]|done]).
  unfold find_hit. destruct (gs_spec (sg_spec g)) as [|w|w extra|chunk] eqn:Hs; simpl is_full in *; cbv iota in *.
  1,2: destruct (full_find_spec lookup hash_block_size (ids g) view col Hids' Hcol' Hlk hs (bsz g) al Hb Ha Hd
      (gs_block_size (sg_spec g)) (hybrid_dcp_world_size c) false m (fun _ => True) eq_refl Hview (proj1 Hm) Hen')
      as (computed & L & Hrun & Hok & Hhit & Hmiss); exists computed, L; split_and!; [done|done|];
    intros L'; apply full_longest; try done; [apply Hok|]; intros Hle; simpl in Hmiss; rewrite Z.add_0_r in Hmiss; by apply Hmiss.
  - destruct Hspec as [Hw Hdcp]. assert (Hbe : bsz g = gs_block_size (sg_spec g)).
    { unfold group_block_size. destruct (Z.ltb_spec 1 (hybrid_dcp_world_size c)); [lia|done]. }
    rewrite <- Hbe. destruct (window_find_spec lookup hash_block_size (ids g) view col Hids' Hcol' Hlk hs (bsz g) al Hb Ha Hd false m w Hw (proj1 Hm) Hview Hen')
      as (computed & L & Hrun & Hok & Hmiss). exists computed, L. split_and!; [done| |].
    + eapply hit_ok_impl; [|exact Hok]. intros i _ Hn. apply (needed_window (bsz g) Hb w extra L i); [apply Hok| |done].
      etransitivity; [exact Hd|apply Hok].
    + intros L'. by apply window_longest; [..|apply Hmiss].
  - destruct Hspec as (Hc & Hbc & Hal & Hdcp). assert (Hbe : bsz g = gs_block_size (sg_spec g)).
    { unfold group_block_size. destruct (Z.ltb_spec 1 (hybrid_dcp_world_size c)); [lia|done]. }
    rewrite <- Hbe. destruct (chunk_find_spec lookup hash_block_size (ids g) view col Hids' Hcol' Hlk hs (bsz g) al Hb Ha m chunk Hc Hbc Hal (proj1 Hm) Hview Hen')
      as (computed & L & Hrun & Hok & Hst & Hmiss). exists computed, L. split_and!; [done| |].
    + eapply hit_ok_impl; [|exact Hok]. intros i _ Hn. apply (needed_chunk (bsz g) Hb chunk L i); [apply Hok|done|done|done].
    + intros L'. apply chunk_longest; try done; [apply Hok|]. etransitivity; [exact Hd|apply Hok].
Qed.

(** ** The fixed-point loop *)

Lemma foldl_insert_spec {A} (kvs : list (nat * A)) (l : list A) :
  NoDup kvs.*1 ->
  let l' := foldl (fun l x => <[x.1 := x.2]> l) l kvs in
  length l' = length l
  /\ (forall k, k ∉ kvs.*1 -> l' !! k = l !! k)
  /\ (forall k v, (k, v) ∈ kvs -> (k < length l)%nat -> l' !! k = Some v).
Proof.
  revert l. induction kvs as [|[k v] kvs IH]; intros l Hnd; [split_and!; try done; intros ? ? Hin; by apply elem_of_nil in Hin|].
  apply NoDup_cons in Hnd as [Hk Hnd]. destruct (IH (<[k := v]> l) Hnd) as (Hl & Hother & Hin). cbn [foldl fst snd] in *.
  rewrite length_insert in *. split_and!; [done| |].
  - intros k' Hk'. apply not_elem_of_cons in Hk' as [Hne Hk']. rewrite (Hother k' Hk'). by apply list_lookup_insert_ne.
  - intros k' v' Hx Hlt. apply elem_of_cons in Hx as [Heq|Hx]; [|by apply Hin]. simplify_eq.
    rewrite (Hother k Hk). by apply list_lookup_insert_eq.
Qed.

Lemma store_hits_parts gids blocks n s :
  let s' := store_hits gids blocks n s in
  s'.(curr_hit_length) = s.(curr_hit_length) /\ s'.(longest_hit_length) = s.(longest_hit_length)
  /\ s'.(eagle_verified) = s.(eagle_verified)
  /\ s'.(hit_blocks_by_group) = foldl (fun l x => <[x.1 := x.2]> l) s.(hit_blocks_by_group) (zip gids (Some <$> blocks))
  /\ s'.(hit_length_by_group) = foldl (fun l x => <[x.1 := x.2]> l) s.(hit_length_by_group) (zip gids ((fun _ => n) <$> blocks)).
Proof.
  unfold store_hits. revert s blocks. induction gids as [|k gids IH]; intros s [|b blocks]; try done.
  cbn [zip zip_with foldl fmap list_fmap]. destruct (IH (mkHitState (curr_hit_length s) (longest_hit_length s)
    (<[k := Some b]> (hit_blocks_by_group s)) (<[k := n]> (hit_length_by_group s)) (eagle_verified s)) blocks) as (E1 & E2 & E3 & E4 & E5).
  split_and!; assumption.
Qed.

(** The hits of [g] as [computed] with length [L]. *)
Definition recorded (s : HitState) (g : SpecGroup) (L : Z) (computed : list (list nat)) : Prop :=
  forall j gid, g.(group_ids) !! j = Some gid -> exists blks, computed !! j = Some blks
    /\ s.(hit_blocks_by_group) !! gid = Some (Some blks) /\ s.(hit_length_by_group) !! gid = Some L.

Definition unseen (s : HitState) (g : SpecGroup) : Prop :=
  forall gid, gid ∈ g.(group_ids) -> s.(hit_blocks_by_group) !! gid = Some None.

Definition sized (s : HitState) : Prop :=
  length s.(hit_blocks_by_group) = c.(num_groups) /\ length s.(hit_length_by_group) = c.(num_groups).

Lemma zip_lookup_elem {A B} (l : list A) (k : list B) j a b : l !! j = Some a -> k !! j = Some b -> (a, b) ∈ zip l k.
Proof. intros Ha Hb. apply (list_elem_of_lookup_2 _ j). apply lookup_zip_with_Some. eauto. Qed.

Lemma zip_keys {A B} (l : list A) (k : list B) : length k = length l -> (zip l k).*1 = l.
Proof. intros Hl. apply fst_zip. lia. Qed.

Lemma store_recorded g blocks n s :
  NoDup g.(group_ids) -> Forall (fun gid => (gid < c.(num_groups))%nat) g.(group_ids) -> sized s ->
  length blocks = length g.(group_ids) ->
  let s' := store_hits g.(group_ids) blocks n s in
  sized s' /\ recorded s' g n blocks
  /\ forall gid, gid ∉ g.(group_ids) -> s'.(hit_blocks_by_group) !! gid = s.(hit_blocks_by_group) !! gid
       /\ s'.(hit_length_by_group) !! gid = s.(hit_length_by_group) !! gid.
Proof.
  intros Hnd Hr [Hs1 Hs2] Hl s'. destruct (store_hits_parts (group_ids g) blocks n s) as (_ & _ & _ & Hb & Hn).
  fold s' in Hb, Hn.
  assert (K1 : (zip (group_ids g) (Some <$> blocks)).*1 = group_ids g) by (apply zip_keys; by rewrite length_fmap).
  assert (K2 : (zip (group_ids g) ((fun _ : list nat => n) <$> blocks)).*1 = group_ids g) by (apply zip_keys; by rewrite length_fmap).
  destruct (foldl_insert_spec (zip (group_ids g) (Some <$> blocks)) (hit_blocks_by_group s)) as (L1 & O1 & I1); [by rewrite K1|].
  destruct (foldl_insert_spec (zip (group_ids g) ((fun _ => n) <$> blocks)) (hit_length_by_group s)) as (L2 & O2 & I2); [by rewrite K2|].
  cbv zeta in *. rewrite <- Hb in L1, O1, I1. rewrite <- Hn in L2, O2, I2. rewrite K1 in O1. rewrite K2 in O2.
  split_and!; [split; congruence| |intros gid Hg; by split; [apply O1|apply O2]].
  intros j gid Hj. pose proof (proj1 (Forall_lookup _ _) Hr _ _ Hj) as Hlt. simpl in Hlt.
  destruct (lookup_lt_is_Some_2 blocks j) as [blks Hblk]; [rewrite Hl; by eapply lookup_lt_Some|]. exists blks. split_and!; [done| |].
  - apply I1; [|by rewrite Hs1]. eapply zip_lookup_elem; [done|]. by rewrite list_lookup_fmap, Hblk.
  - apply I2; [|by rewrite Hs2]. eapply zip_lookup_elem; [done|]. by rewrite list_lookup_fmap, Hblk.
Qed.

Lemma recorded_other s s' g L computed (gids : list nat) :
  (forall gid, gid ∉ gids -> s'.(hit_blocks_by_group) !! gid = s.(hit_blocks_by_group) !! gid
     /\ s'.(hit_length_by_group) !! gid = s.(hit_length_by_group) !! gid) ->
  (forall gid, gid ∈ g.(group_ids) -> gid ∉ gids) -> recorded s g L computed -> recorded s' g L computed.
Proof.
  intros Ho Hd Hr j gid Hj. destruct (Hr j gid Hj) as (blks & Hb & H1 & H2). exists blks.
  destruct (Ho gid (Hd gid (list_elem_of_lookup_2 _ _ _ Hj))) as [-> ->]. done.
Qed.

Lemma unseen_other s s' g (gids : list nat) :
  (forall gid, gid ∉ gids -> s'.(hit_blocks_by_group) !! gid = s.(hit_blocks_by_group) !! gid
     /\ s'.(hit_length_by_group) !! gid = s.(hit_length_by_group) !! gid) ->
  (forall gid, gid ∈ g.(group_ids) -> gid ∉ gids) -> unseen s g -> unseen s' g.
Proof. intros Ho Hd Hu gid Hg. rewrite (proj1 (Ho gid (Hd gid Hg))). by apply Hu. Qed.

Variable cols : SpecGroup -> nat -> option (list nat).

Record hybrid_ok : Prop := {
  hy_max : 0 <= max_cache_hit_length;
  hy_groups : c.(attention_groups) <> [];
  hy_finders : forall g, g ∈ c.(attention_groups) -> Finder g (cols g);
  hy_eagle : forall g, g ∈ c.(attention_groups) -> g.(sg_use_eagle) = false;
  hy_ids : forall g, g ∈ c.(attention_groups) -> g.(group_ids) <> [];
  hy_nodup : NoDup (concat (group_ids <$> c.(attention_groups)));
  hy_range : Forall (fun gid => (gid < c.(num_groups))%nat) (concat (group_ids <$> c.(attention_groups)));
}.

(** Lengths that are a hit for every group. *)
Definition common (L : Z) : Prop :=
  L <= max_cache_hit_length
  /\ forall g, g ∈ c.(attention_groups) -> valid_hit (cols g) (bsz g) al g.(sg_spec).(gs_spec) L.

Definition group_hit (g : SpecGroup) (computed : list (list nat)) (L : Z) : Prop :=
  hit_ok (ids g) (cols g) (bsz g) al false max_cache_hit_length
    (if is_full g.(sg_spec).(gs_spec) then fun _ => True else needed (bsz g) g.(sg_spec).(gs_spec) L) computed L
  /\ forall L', common L' -> L' <= L.

(** [g] was visited in this pass, which began with [H]. *)
Definition settled (H : Z) (s : HitState) (g : SpecGroup) : Prop :=
  exists L computed, recorded s g L computed /\ group_hit g computed L /\ s.(curr_hit_length) <= L
    /\ (is_full g.(sg_spec).(gs_spec) = false -> L <= H).

Definition known (s : HitState) (g : SpecGroup) : Prop :=
  unseen s g \/ exists L computed, recorded s g L computed /\ group_hit g computed L.

Record passing (H : Z) (visited todo : list SpecGroup) (s : HitState) : Prop := {
  pa_sized : sized s;
  pa_curr : 0 <= s.(curr_hit_length) <= H;
  pa_common : forall L', common L' -> L' <= s.(curr_hit_length);
  pa_visited : forall g, g ∈ visited -> settled H s g;
  pa_todo : forall g, g ∈ todo -> known s g;
  pa_aligned : (al | s.(curr_hit_length)) \/ (visited = [] /\ forall g, g ∈ todo -> unseen s g);
  pa_last : forall g, last visited = Some g -> is_full g.(sg_spec).(gs_spec) = false ->
    exists computed, recorded s g s.(curr_hit_length) computed /\ group_hit g computed s.(curr_hit_length);
}.

Lemma group_disjoint visited g todo g' :
  hybrid_ok -> c.(attention_groups) = visited ++ g :: todo -> g' ∈ visited \/ g' ∈ todo ->
  forall gid, gid ∈ g'.(group_ids) -> gid ∉ g.(group_ids).
Proof.
  intros Hy Hsplit Hin gid H1 H2. pose proof (hy_nodup Hy) as Hnd. rewrite Hsplit, fmap_app, concat_app in Hnd. simpl in Hnd.
  apply NoDup_app in Hnd as (_ & Hd1 & Hnd). apply NoDup_app in Hnd as (_ & Hd2 & _).
  assert (Hc : forall l, g' ∈ l -> gid ∈ concat (group_ids <$> l)).
  { intros l Hl. apply list_elem_of_In, in_concat. exists (group_ids g'). split; apply list_elem_of_In; [by apply list_elem_of_fmap_2|done]. }
  destruct Hin as [Hin|Hin]; [apply (Hd1 gid (Hc _ Hin)), elem_of_app; by left|by apply (Hd2 gid H2), Hc].
Qed.

Lemma group_ids_ok g : hybrid_ok -> g ∈ c.(attention_groups) ->
  NoDup g.(group_ids) /\ Forall (fun gid => (gid < c.(num_groups))%nat) g.(group_ids).
Proof.
  intros Hy Hin. apply list_elem_of_split in Hin as (l1 & l2 & Hs). pose proof (hy_nodup Hy) as Hnd. pose proof (hy_range Hy) as Hr.
  rewrite Hs, fmap_app, concat_app in Hnd, Hr. simpl in Hnd, Hr.
  apply NoDup_app in Hnd as (_ & _ & Hnd). apply NoDup_app in Hnd as (Hnd & _ & _).
  apply Forall_app in Hr as [_ Hr]. by apply Forall_app in Hr as [Hr _].
Qed.

Lemma group_hit_within g m computed L :
  m <= max_cache_hit_length ->
  hit_ok (ids g) (cols g) (bsz g) al false m
    (if is_full g.(sg_spec).(gs_spec) then fun _ => True else needed (bsz g) g.(sg_spec).(gs_spec) L) computed L ->
  (forall L', common L' -> L' <= L) -> group_hit g computed L.
Proof. intros Hm [[H1 H1'] H2 H3 H4 H5 H6] Hc. split; [|done]. split; try done. lia. Qed.

(** A full-attention group that was found before only bounds the length. *)
Lemma pass_known H visited g todo s :
  hybrid_ok -> c.(attention_groups) = visited ++ g :: todo -> passing H visited (g :: todo) s -> looked_up g s = true ->
  exists s', check_group lookup hash_block_size c hs max_cache_hit_length (length visited) g s = Ok s'
    /\ passing H (visited ++ [g]) todo s'.
Proof.
  intros Hy Hsplit [Hs Hc Hcom Hv Ht Ha Hl] Hlk. unfold check_group. rewrite Hlk. eexists. split; [reflexivity|].
  unfold looked_up in Hlk. apply andb_true_iff in Hlk as [Hfull Hlk].
  assert (Hnu : ~ unseen s g).
  { intros Hu. pose proof (hy_ids Hy g ltac:(rewrite Hsplit; set_solver)) as Hne. destruct (group_ids g) as [|gid gids] eqn:Hg; [done|].
    simpl in Hlk. rewrite (Hu gid) in Hlk; [done|]. rewrite Hg. by left. }
  destruct (Ht g ltac:(by left)) as [Hu|(L & computed & Hrec & Hok)]; [done|].
  assert (Hlen : default 0 (hit_length_by_group s !! default 0%nat (head (group_ids g))) = L).
  { pose proof (hy_ids Hy g ltac:(rewrite Hsplit; set_solver)) as Hne. destruct (group_ids g) as [|gid gids] eqn:Hg; [done|].
    simpl. destruct (Hrec 0%nat gid) as (_ & _ & _ & ->); [by rewrite Hg|done]. }
  rewrite Hlen. destruct Hok as [Hok Hbest]. pose proof (ho_bounds _ _ _ _ _ _ _ _ _ Hok) as HL.
  split; simpl; [done|lia| | | | |].
  - intros L' HL'. pose proof (Hcom L' HL'). pose proof (Hbest L' HL'). lia.
  - intros g' Hin. apply elem_of_app in Hin as [Hin|Hin].
    + destruct (Hv g' Hin) as (L1 & c1 & R1 & O1 & C1 & F1). exists L1, c1. split_and!; try done. simpl. lia.
    + apply list_elem_of_singleton in Hin as ->. exists L, computed. split_and!; try done; [simpl; lia|]. congruence.
  - intros g' Hin. apply Ht. by right.
  - left. destruct (Z.min_spec (curr_hit_length s) L) as [[Hlt ->]|[Hle ->]]; [|apply Hok].
    destruct Ha as [Ha|[_ Hun]]; [done|]. destruct Hnu. apply Hun. by left.
  - intros g' Hlast Hnf. rewrite last_snoc in Hlast. simplify_eq. congruence.
Qed.

(** Every other group is looked up below the current length. *)
Lemma pass_find H visited g todo s :
  hybrid_ok -> H <= max_cache_hit_length -> c.(attention_groups) = visited ++ g :: todo -> passing H visited (g :: todo) s ->
  looked_up g s = false ->
  exists s', check_group lookup hash_block_size c hs max_cache_hit_length (length visited) g s = Ok s'
    /\ passing H (visited ++ [g]) todo s'.
Proof.
  intros Hy HH Hsplit [Hs Hc Hcom Hv Ht Ha Hl] Hlk. assert (Hg : g ∈ attention_groups c) by (rewrite Hsplit; set_solver).
  unfold check_group. rewrite Hlk, (hy_eagle Hy g Hg). cbn [andb].
  destruct (fi_find (Finder := hy_finders Hy g Hg) (curr_hit_length s) ltac:(lia)) as (computed & L & -> & Hok & Hlong).
  cbn [rbind]. set (s0 := mkHitState _ _ _ _ _). eexists. split; [reflexivity|].
  destruct (group_ids_ok g Hy Hg) as [Hnd Hr].
  assert (Hlen : length computed = length (group_ids g)) by (by rewrite (ho_groups _ _ _ _ _ _ _ _ _ Hok), length_fmap).
  destruct (store_recorded g computed L s0 Hnd Hr Hs Hlen) as (Hs' & Hrec & Hother).
  destruct (store_hits_parts (group_ids g) computed L s0) as (Ec & _ & _ & _ & _). cbv zeta in *.
  set (s' := store_hits (group_ids g) computed L s0) in *. simpl in Ec.
  pose proof (ho_bounds _ _ _ _ _ _ _ _ _ Hok) as HL.
  assert (Hbest : forall L', common L' -> L' <= L).
  { intros L' HL'. apply Hlong; [by apply HL'|by apply Hcom]. }
  assert (Hgh : group_hit g computed L) by (eapply group_hit_within; [|exact Hok|done]; lia).
  split; rewrite ?Ec; [done|lia|done| | |left; apply Hok|].
  - intros g' Hin. apply elem_of_app in Hin as [Hin|Hin].
    + destruct (Hv g' Hin) as (L1 & c1 & R1 & O1 & C1 & F1). exists L1, c1. rewrite Ec. split_and!; try done; [|lia].
      eapply recorded_other; [exact Hother|by eapply group_disjoint; eauto|done].
    + apply list_elem_of_singleton in Hin as ->. exists L, computed. rewrite Ec. split_and!; done || lia.
  - intros g' Hin. assert (Hdis : forall gid, gid ∈ group_ids g' -> gid ∉ group_ids g) by (eapply group_disjoint; eauto).
    destruct (Ht g' ltac:(by right)) as [Hu|(L1 & c1 & R1 & O1)]; [left; by eapply unseen_other|right].
    exists L1, c1. split; [by eapply recorded_other|done].
  - intros g' Hlast _. rewrite last_snoc in Hlast. simplify_eq. by exists computed.
Qed.

Lemma pass_groups H visited todo s :
  hybrid_ok -> H <= max_cache_hit_length -> c.(attention_groups) = visited ++ todo -> passing H visited todo s ->
  exists s', check_groups lookup hash_block_size c hs max_cache_hit_length (length visited) todo s = Ok s'
    /\ passing H c.(attention_groups) [] s'.
Proof.
  intros Hy HH. revert visited s. induction todo as [|g todo IH]; intros visited s Hsplit Hp; cbn [check_groups].
  { rewrite app_nil_r in Hsplit. exists s. by rewrite Hsplit. }
  assert (exists s', check_group lookup hash_block_size c hs max_cache_hit_length (length visited) g s = Ok s'
    /\ passing H (visited ++ [g]) todo s') as (s' & Hrun & Hp').
  { destruct (looked_up g s) eqn:Hlk; [by eapply pass_known|by eapply pass_find]. }
  rewrite Hrun. cbn [rbind]. replace (S (length visited)) with (length (visited ++ [g])) by (rewrite length_app; simpl; lia).
  apply IH; [by rewrite <- app_assoc|done].
Qed.

(** What the loop ends with. *)
Definition agreed (L : Z) (s : HitState) : Prop :=
  sized s /\ 0 <= L <= max_cache_hit_length /\ (al | L) /\ (forall L', common L' -> L' <= L)
  /\ forall g, g ∈ c.(attention_groups) -> exists Lg computed, recorded s g Lg computed /\ group_hit g computed Lg /\ L <= Lg
       /\ (is_full g.(sg_spec).(gs_spec) = false -> Lg = L).

Lemma pass_agreed H s :
  hybrid_ok -> H <= max_cache_hit_length -> passing H c.(attention_groups) [] s ->
  H <= s.(curr_hit_length) \/ is_simple_hybrid c = true -> agreed s.(curr_hit_length) s.
Proof.
  intros Hy HH [Hs Hc Hcom Hv _ Ha Hl] Hend. split_and!; try done; try lia.
  - destruct Ha as [|[He _]]; [done|]. by destruct (hy_groups Hy).
  - intros g Hg. destruct (Hv g Hg) as (L & computed & R & O & Cu & F). destruct (is_full (gs_spec (sg_spec g))) eqn:Hf.
    { exists L, computed. by split_and!. }
    destruct Hend as [Hend|Hsimple].
    + exists L, computed. specialize (F eq_refl). split_and!; try done. intros _. lia.
    + unfold is_simple_hybrid in Hsimple. apply andb_true_iff in Hsimple as [Hlen Hfirst]. apply Nat.eqb_eq in Hlen.
      destruct (attention_groups c) as [|g1 [|g2 [|]]] eqn:Hgs; simpl in Hlen; try lia.
      assert (g = g2) as -> by (apply elem_of_cons in Hg as [->|Hg]; [congruence|by apply list_elem_of_singleton in Hg]).
      destruct (Hl g2 eq_refl Hf) as (c2 & R2 & O2). exists (curr_hit_length s), c2. split_and!; try done; lia.
Qed.

(** Each pass that does not end the loop shortens the length. *)
Lemma hit_loop_spec fuel H s :
  hybrid_ok -> 0 <= H <= max_cache_hit_length -> (Z.to_nat H < fuel)%nat ->
  passing H [] c.(attention_groups)
    (mkHitState H s.(longest_hit_length) s.(hit_blocks_by_group) s.(hit_length_by_group) s.(eagle_verified)) ->
  exists L s', hit_loop lookup hash_block_size fuel c hs max_cache_hit_length H s = Some (Ok (L, s')) /\ agreed L s'.
Proof.
  intros Hy. revert H s. induction fuel as [|fuel IH]; intros H s HH Hfuel Hp; [lia|]. cbn [hit_loop].
  destruct (pass_groups H [] (attention_groups c) _ Hy ltac:(lia) eq_refl Hp) as (s1 & Hrun & Hp1). simpl in Hrun. rewrite Hrun.
  pose proof (pass_agreed H s1 Hy ltac:(lia) Hp1) as Hag. pose proof (pa_curr _ _ _ _ Hp1) as Hcu.
  destruct (Z.leb_spec H (curr_hit_length s1)) as [Hle|Hlt].
  { exists H, s1. split; [done|]. replace H with (curr_hit_length s1) at 1 by lia. apply Hag. by left. }
  destruct (is_simple_hybrid c); [exists (curr_hit_length s1), s1; split; [done|apply Hag; by right]|].
  apply IH; [lia|lia|]. destruct Hp1 as [Hs1 Hc1 Hcom1 Hv1 _ Ha1 _]. split; simpl; try done; try lia.
  - intros g Hg. by apply elem_of_nil in Hg.
  - intros g Hg. right. destruct (Hv1 g Hg) as (L & computed & R & O & _). by exists L, computed.
  - left. destruct Ha1 as [|[He _]]; [done|]. by destruct (hy_groups Hy).
Qed.

(** ** The truncation *)

Lemma truncate_fold nb L gids s :
  NoDup gids ->
  let s' := foldl (fun s gid => match default None (s.(hit_blocks_by_group) !! gid) with
            | Some blks => mkHitState s.(curr_hit_length) s.(longest_hit_length)
                             (<[gid := Some (take nb blks)]> s.(hit_blocks_by_group)) (<[gid := L]> s.(hit_length_by_group)) s.(eagle_verified)
            | None => s end) s gids in
  (forall gid blks, gid ∈ gids -> s.(hit_blocks_by_group) !! gid = Some (Some blks) -> s'.(hit_blocks_by_group) !! gid = Some (Some (take nb blks)))
  /\ (forall gid, gid ∉ gids -> s'.(hit_blocks_by_group) !! gid = s.(hit_blocks_by_group) !! gid).
Proof.
  revert s. induction gids as [|k gids IH]; intros s Hnd; cbn [foldl]; [split; [intros ? ? Hin; by apply elem_of_nil in Hin|done]|].
  apply NoDup_cons in Hnd as [Hk Hnd]. destruct (default None (hit_blocks_by_group s !! k)) as [b|] eqn:Hb.
  - set (s1 := mkHitState _ _ _ _ _). destruct (IH s1 Hnd) as [Hin Hout]. split.
    + intros gid blks Hg Hblk. apply elem_of_cons in Hg as [->|Hg].
      * rewrite (Hout k Hk). simpl. rewrite Hblk in Hb. simpl in Hb. simplify_eq. apply list_lookup_insert_eq. by eapply lookup_lt_Some.
      * apply Hin; [done|]. simpl. rewrite list_lookup_insert_ne; [done|]. by intros ->.
    + intros gid Hg. apply not_elem_of_cons in Hg as [Hne Hg]. rewrite (Hout gid Hg). simpl. by apply list_lookup_insert_ne.
  - destruct (IH s Hnd) as [Hin Hout]. split.
    + intros gid blks Hg Hblk. apply elem_of_cons in Hg as [->|Hg]; [|by apply Hin]. rewrite Hblk in Hb. done.
    + intros gid Hg. apply not_elem_of_cons in Hg as [_ Hg]. by apply Hout.
Qed.

Definition is_first (g : SpecGroup) : Prop := head c.(attention_groups) = Some g.

#[local] Instance is_first_dec g : Decision (is_first g).
Proof. unfold is_first. apply _. Defined.

(** The block lists afterwards: cut for the first group if it is full attention. *)
Lemma truncate_spec L s g Lg computed j gid :
  hybrid_ok -> g ∈ c.(attention_groups) -> recorded s g Lg computed -> g.(group_ids) !! j = Some gid ->
  exists blks, computed !! j = Some blks
    /\ (truncate_first c L s).(hit_blocks_by_group) !! gid
       = Some (Some (if decide (is_first g) then if is_full g.(sg_spec).(gs_spec) then take (Z.to_nat (cdiv L (bsz g))) blks else blks else blks)).
Proof.
  intros Hy Hg Hrec Hj. destruct (Hrec j gid Hj) as (blks & Hc & Hb & _). exists blks. split; [done|].
  pose proof (list_elem_of_lookup_2 _ _ _ Hj) as Hin. unfold truncate_first. unfold is_first at 1.
  destruct (decide (head (attention_groups c) = Some g)) as [Heq|Hne];
    (destruct (attention_groups c) as [|g1 gs] eqn:Hgs; [by apply elem_of_nil in Hg|]); simpl in *.
  - injection Heq as ->. destruct (is_full _); [|done].
    destruct (group_ids_ok g Hy ltac:(rewrite Hgs; by left)) as [Hnd _].
    by destruct (truncate_fold (Z.to_nat (cdiv L (bsz g))) L (group_ids g) s Hnd) as [Hin' _]; apply Hin'.
  - destruct (is_full _); [|done]. destruct (group_ids_ok g1 Hy ltac:(rewrite Hgs; by left)) as [Hnd _].
    destruct (truncate_fold (Z.to_nat (cdiv L (bsz g1))) L (group_ids g1) s Hnd) as [_ Hout]. rewrite Hout; [done|].
    apply elem_of_cons in Hg as [->|Hg]; [done|].
    apply (group_disjoint [] g1 gs g Hy); [by rewrite Hgs|by right|done].
Qed.

(** The hit of the coordinator in terms of its groups. *)
Definition hit_blocks_ok (L : Z) (blocks : list (list nat)) (g : SpecGroup) : Prop :=
  forall j gid, g.(group_ids) !! j = Some gid -> exists blks, blocks !! gid = Some blks
    /\ L / bsz g <= Z.of_nat (length blks)
    /\ (is_first g \/ is_full g.(sg_spec).(gs_spec) = false -> Z.of_nat (length blks) = L / bsz g)
    /\ forall i, Z.of_nat i < L / bsz g -> needed (bsz g) g.(sg_spec).(gs_spec) L i -> blks !! i = entry (cols g) j i.

Lemma agreed_common L s : hybrid_ok -> agreed L s -> common L.
Proof.
  intros Hy (_ & HL & Hal & _ & Hg). split; [lia|]. intros g Hin. destruct (Hg g Hin) as (Lg & computed & Hrec & [Hok _] & Hle & Hnf).
  split_and!; [lia|done|]. intros i Hi Hn. pose proof (hy_ids Hy g Hin) as Hne.
  destruct (group_ids g) as [|gid gids] eqn:Hids; [done|]. destruct (Hrec 0%nat gid) as (blks & Hb & _); [by rewrite Hids|].
  destruct (fi_block (Finder := hy_finders Hy g Hin)) as [Hbp _].
  apply (ho_entries _ _ _ _ _ _ _ _ _ Hok 0%nat blks i Hb).
  - eapply Z.lt_le_trans; [exact Hi|]. apply Z.div_le_mono; lia.
  - destruct (is_full _) eqn:Hf; [done|]. by rewrite Hnf.
Qed.

Lemma agreed_blocks L s g :
  hybrid_ok -> agreed L s -> g ∈ c.(attention_groups) ->
  hit_blocks_ok L (default [] <$> (truncate_first c L s).(hit_blocks_by_group)) g.
Proof.
  intros Hy (_ & HL & Hal & _ & Hg) Hin j gid Hj. destruct (Hg g Hin) as (Lg & computed & Hrec & [Hok _] & Hle & Hnf).
  destruct (truncate_spec L s g Lg computed j gid Hy Hin Hrec Hj) as (blks & Hc & Ht).
  destruct (fi_block (Finder := hy_finders Hy g Hin)) as [Hbp Hbd].
  rewrite list_lookup_fmap, Ht. simpl. eexists. split; [reflexivity|].
  pose proof (ho_length _ _ _ _ _ _ _ _ _ Hok j blks Hc) as Hlen. pose proof (Z.div_le_mono L Lg _ Hbp Hle) as Hmono.
  assert (Hcd : cdiv L (bsz g) = L / bsz g).
  { destruct (Z.divide_trans _ _ _ Hbd Hal) as [x ->]. rewrite Z.div_mul by lia. apply cdiv_unique; [done|]. nia. }
  pose proof (Z.div_pos L (bsz g) ltac:(lia) Hbp) as Hpos.
  assert (He : forall i, Z.of_nat i < L / bsz g -> needed (bsz g) (gs_spec (sg_spec g)) L i -> blks !! i = entry (cols g) j i).
  { intros i Hi Hn. apply (ho_entries _ _ _ _ _ _ _ _ _ Hok j blks i Hc); [lia|]. destruct (is_full _) eqn:Hf; [done|]. by rewrite Hnf. }
  destruct (is_full (gs_spec (sg_spec g))) eqn:Hf.
  - destruct (decide (is_first g)) as [Hfi|Hfi].
    + rewrite Hcd. split_and!; [rewrite length_take; lia|intros _; rewrite length_take; lia|].
      intros i Hi Hn. rewrite lookup_take_lt by lia. by apply He.
    + split_and!; [lia|intros [?|?]; done|done].
  - rewrite Hnf in Hlen by done. destruct (decide (is_first g)); (split_and!; [lia|intros _; lia|done]).
Qed.

Lemma init_passing :
  hybrid_ok ->
  passing max_cache_hit_length [] c.(attention_groups)
    (mkHitState max_cache_hit_length 0 (replicate c.(num_groups) None) (replicate c.(num_groups) 0) []).
Proof.
  intros Hy. pose proof (hy_max Hy).
  assert (Hun : forall g, g ∈ attention_groups c -> unseen
    (mkHitState max_cache_hit_length 0 (replicate c.(num_groups) None) (replicate c.(num_groups) 0) []) g).
  { intros g Hg gid Hgid. destruct (group_ids_ok g Hy Hg) as [_ Hr]. simpl. apply lookup_replicate_2.
    by apply (proj1 (Forall_forall _ _) Hr). }
  split; simpl; [split; apply length_replicate|lia|by intros L' [? _]| | | |done].
  - intros g Hg. by apply elem_of_nil in Hg.
  - intros g Hg. left. by apply Hun.
  - right. by split.
Qed.


(** ** Termination *)

Lemma full_find_nonneg l m gids spec_bsz peeks dcp computed L :
  0 < al -> 0 < spec_bsz -> full_find lookup hash_block_size l m gids spec_bsz peeks al dcp = Ok (computed, L) -> 0 <= L.
Proof.
  intros Ha Hb Hrun. unfold full_find in Hrun. set (bs := if 1 <? dcp then spec_bsz * dcp else spec_bsz) in *.
  assert (Hbs : 0 < bs) by (unfold bs; destruct (Z.ltb_spec 1 dcp); nia).
  destruct (resolve_block_hashes _ _ _ _ _) as [v|]; [|done]. cbn [rbind] in Hrun.
  destruct (if al <? bs then _ else _) as [fg|]; [|done]. cbn [rbind] in Hrun.
  destruct (if fg then _ else _) as [fv|]; [|done]. cbn [rbind] in Hrun. destruct (m / bs <? 0); [done|].
  destruct (scan_prefix _ _ _ _ _ _) as [cc|]; [|done]. cbn [rbind] in Hrun.
  match type of Hrun with context [rbind ?X _] => destruct X as [found|] eqn:Hf; [|done] end. cbn [rbind] in Hrun.
  assert (Hfound : forall cached idx, found = Some (cached, idx) -> 0 <= idx).
  { intros cached idx ->. destruct v as [lv|]; [|done]. destruct fg; [|done]. revert Hf. generalize (Z.to_nat (Z.min (Z.min (Z.of_nat (num_found cc) * (bs / al) + bs / al - 1) (m / al)) (Z.of_nat (length lv)) - Z.of_nat (num_found cc) * (bs / al))).
    assert (0 <= Z.of_nat (num_found cc) * (bs / al)) by (pose proof (Z.div_pos bs al ltac:(lia) Ha); nia).
    induction n as [|n IH]; cbn [probe_tail]; [done|]. destruct (py_index _ _) as [h|]; [|done]. cbn [rbind].
    destruct (lookup h gids) as [[bl|]|]; cbn [rbind]; [intros [= _ <-]; lia|apply IH|done]. }
  assert (Hround : forall y, 0 <= y -> (0 < y -> Z.min al bs <= y) ->
    0 <= (let x := if peeks && (y >? 0) then y - Z.min al bs else y in x - x mod al)).
  { intros y Hy Hmin. cbv zeta. set (x := if peeks && (y >? 0) then y - Z.min al bs else y).
    assert (0 <= x) by (unfold x; destruct peeks, (Z.gtb_spec y 0); simpl; lia). pose proof (Z.mod_le x al ltac:(lia) Ha). lia. }
  destruct found as [[cached idx]|]; (destruct (Z.eqb_spec al 0); [lia|]); injection Hrun as _ <-; apply Hround.
  - specialize (Hfound _ _ eq_refl). nia.
  - specialize (Hfound _ _ eq_refl). nia.
  - nia.
  - destruct (num_found cc); [lia|]. nia.
Qed.

Lemma find_hit_nonneg g m peeks dcp computed L :
  0 < al -> 0 < g.(sg_spec).(gs_block_size) -> find_hit lookup hash_block_size g hs m peeks al dcp = Ok (computed, L) -> 0 <= L.
Proof.
  intros Ha Hb. unfold find_hit. destruct (gs_spec (sg_spec g)) as [|w|w extra|chunk].
  1,2: by apply full_find_nonneg.
  - unfold window_find. destruct (py_divides _ _) as [ok|]; [|done]. cbn [rbind]. destruct ok; [|done]. cbn [negb].
    destruct (resolve_block_hashes _ _ _ _ _) as [v|]; [|done]. cbn [rbind].
    destruct (scan_window _ _ _ _ _ _ _ _ _ _) as [[[? ?] ?]|]; [|done]. cbn [rbind]. intros [= _ <-]. nia.
  - unfold chunk_find. destruct peeks; [done|]. destruct (negb _); [done|].
    destruct (resolve_block_hashes _ _ _ _ _) as [v|]; [|done]. cbn [rbind].
    destruct (scan_chunk _ _ _ _ _ _) as [?|]; [|done]. cbn [rbind]. intros [= _ <-]. nia.
Qed.

(** All lengths in play are non-negative. *)
Definition nonneg_lengths (s : HitState) : Prop :=
  0 <= s.(curr_hit_length) /\ Forall (fun n => 0 <= n) s.(hit_length_by_group).

Lemma store_nonneg gids blocks n s : nonneg_lengths s -> 0 <= n -> nonneg_lengths (store_hits gids blocks n s).
Proof.
  intros [Hc Hl] Hn. unfold store_hits. generalize (zip gids blocks). intros kvs. revert s Hc Hl.
  induction kvs as [|x kvs IH]; intros s Hc Hl; [done|]. apply IH; simpl; [done|]. by apply Forall_insert.
Qed.

Lemma check_groups_nonneg idx gs s s' :
  0 < al -> Forall (fun g => 0 < g.(sg_spec).(gs_block_size)) gs -> nonneg_lengths s ->
  check_groups lookup hash_block_size c hs max_cache_hit_length idx gs s = Ok s' -> nonneg_lengths s'.
Proof.
  intros Ha. revert idx s. induction gs as [|g gs IH]; intros idx s Hb Hs; cbn [check_groups]; [by intros [= <-]|].
  apply Forall_cons in Hb as [Hb Hbs]. destruct (check_group _ _ _ _ _ _ _ _) as [s1|] eqn:Hg; [|done]. cbn [rbind].
  apply IH; [done|]. clear IH. unfold check_group in Hg. destruct (looked_up g s).
  - injection Hg as <-. destruct Hs as [Hc Hl]. split; [|done]. simpl.
    assert (0 <= default 0 (hit_length_by_group s !! default 0%nat (head (group_ids g)))).
    { destruct (hit_length_by_group s !! _) as [n|] eqn:Hn; [|done]. exact (proj1 (Forall_lookup _ _) Hl _ _ Hn). }
    lia.
  - destruct (find_hit _ _ _ _ _ _ _ _) as [[blocks n]|] eqn:Hf; [|done]. cbn [rbind] in Hg. injection Hg as <-.
    pose proof (find_hit_nonneg _ _ _ _ _ _ Ha Hb Hf). apply store_nonneg; [|done]. split; [done|apply Hs].
Qed.

Lemma hit_loop_terminates fuel H s :
  0 < al -> Forall (fun g => 0 < g.(sg_spec).(gs_block_size)) c.(attention_groups) ->
  Forall (fun n => 0 <= n) s.(hit_length_by_group) -> 0 <= H -> (Z.to_nat H < fuel)%nat ->
  exists r, hit_loop lookup hash_block_size fuel c hs max_cache_hit_length H s = Some r.
Proof.
  intros Ha Hb. revert H s. induction fuel as [|fuel IH]; intros H s Hl HH Hfuel; [lia|]. cbn [hit_loop].
  destruct (check_groups _ _ _ _ _ _ _ _) as [s1|] eqn:Hrun; [|by eexists].
  apply check_groups_nonneg in Hrun as [Hc1 Hl1]; [|done|done|done].
  destruct (Z.leb_spec H (curr_hit_length s1)); [by eexists|]. destruct (is_simple_hybrid c); [by eexists|].
  apply IH; [done|done|lia].
Qed.

(** C33: The hybrid coordinator's lookup always ends, draft layers included and whatever
    the cache holds: each pass that asks for another one has shortened the length, so
    the bound has at most as many passes as tokens. *)
Theorem hybrid_find_terminates (fuel : nat) :
  0 <= max_cache_hit_length -> 0 < al -> Forall (fun g => 0 < g.(sg_spec).(gs_block_size)) c.(attention_groups) ->
  (Z.to_nat max_cache_hit_length < fuel)%nat ->
  exists r, hybrid_find lookup hash_block_size fuel c hs max_cache_hit_length = Some r.
Proof.
  intros Hm Ha Hb Hfuel. unfold hybrid_find.
  destruct (hit_loop_terminates fuel max_cache_hit_length (mkHitState max_cache_hit_length 0 (replicate (num_groups c) None) (replicate (num_groups c) 0) []))
    as [r ->]; [done|done|simpl; by apply Forall_replicate|done|done|]. destruct r as [[L s]|e]; by eexists.
Qed.
End hybrid.

(** ** The lookup of the block pool *)

Definition pool_lookup (p : BlockPool) (h : bytes) (gs : list Z) : res (option (list nat)) := (get_cached_block h gs p).1.

(** What the pool holds for the blocks of [view]. *)
Definition pool_col (p : BlockPool) (view : BlockHashList) (gs : list Z) (i : nat) : option (list nat) :=
  match hash_list_getitem view (Z.of_nat i) with
  | Ok h => match pool_lookup p h gs with Ok o => o | Raise _ => None end
  | Raise _ => None
  end.

Lemma pool_col_spec p l view gs :
  PoolInv p l -> Forall (fun g => 0 <= g < 2 ^ 32) gs ->
  (forall i, Z.of_nat i < hash_list_len view -> exists h, hash_list_getitem view (Z.of_nat i) = Ok h) ->
  (forall i bs, pool_col p view gs i = Some bs -> length bs = length gs)
  /\ forall i, Z.of_nat i < hash_list_len view ->
       exists h, hash_list_getitem view (Z.of_nat i) = Ok h /\ pool_lookup p h gs = Ok (pool_col p view gs i).
Proof.
  intros [Hc _] Hg Hget.
  assert (Hlk : forall h, exists o, pool_lookup p h gs = Ok o /\ forall bs, o = Some bs -> length bs = length gs).
  { intros h. destruct (get_cached_block_loop_spec p h gs [] Hc Hg) as (o & Hrun & Ho). exists o. unfold pool_lookup, get_cached_block.
    rewrite Hrun. split; [done|]. intros bs ->. destruct Ho as (bs' & -> & Hall). simpl. symmetry. by eapply Forall2_length. }
  split.
  - intros i bs. unfold pool_col. destruct (hash_list_getitem _ _) as [h|]; [|done]. destruct (Hlk h) as (o & -> & Ho). apply Ho.
  - intros i Hi. destruct (Hget i Hi) as [h Hh]. exists h. split; [done|]. unfold pool_col. rewrite Hh.
    by destruct (Hlk h) as (o & -> & _).
Qed.

Lemma hash_list_get_ok hs i : Z.of_nat i < hash_list_len (HashList hs) -> exists h, hash_list_getitem (HashList hs) (Z.of_nat i) = Ok h.
Proof.
  simpl. intros Hi. destruct (lookup_lt_is_Some_2 hs i) as [h Hh]; [lia|]. exists h. by apply py_index_nonneg.
Qed.

(** ** A request of seven tokens: three blocks cached for full attention, two for a window *)

Definition hit_hashes : list bytes := [[10]; [11]; [12]].

Definition hit_request : Request := mkRequest [1; 2; 3; 4; 5; 6; 7] [] None None None ∅ hit_hashes.

Definition hit_pool : BlockPool :=
  let p := (get_new_blocks false elements 6 (new_pool 9 true 2 false).2).2 in
  let s := (cache_full_blocks id false elements [1; 2; 3]%nat 0 3 2 0 None (p, hit_request)).2 in
  (cache_full_blocks id false elements [4; 5; 6]%nat 0 3 2 1 (Some [false; true; false]) s).2.1.

Lemma hit_pool_inv : exists l, PoolInv hit_pool l.
Proof.
  destruct (new_pool_spec 9 true 2 false) as (p0 & Hp0 & Hinv & _); [lia|]. change (seq 1 (Z.to_nat 9 - 1)) with ([1; 2; 3; 4; 5; 6] ++ [7; 8])%nat in Hinv.
  destruct (get_new_blocks_ok false elements elements_order p0 _ _ Hinv) as (p1 & Hrun & Hinv1 & _).
  exists [7; 8]%nat. unfold hit_pool. rewrite Hp0. simpl snd. change 6 with (Z.of_nat (length [1; 2; 3; 4; 5; 6]%nat)). rewrite Hrun. simpl snd.
  set (s1 := (cache_full_blocks id false elements [1; 2; 3]%nat 0 3 2 0 None (p1, hit_request)).2).
  assert (H1 : PoolInv s1.1 [7; 8]%nat) by (by apply keeps_request_pool; [apply keeps_cache_full_blocks|]).
  rewrite (surjective_pairing s1). by apply keeps_request_pool; [apply keeps_cache_full_blocks|].
Qed.

Definition full_group : SpecGroup := mkSpecGroup (mkGroupSpec FullAttentionSpec 2 []) [0%nat] false.
Definition window_group : SpecGroup := mkSpecGroup (mkGroupSpec (SlidingWindowSpec 3 0) 2 []) [1%nat] false.

Definition hit_config : HybridConfig := mkHybridConfig [full_group; window_group] 2 false 2 1.

Definition hit_cols (g : SpecGroup) : nat -> option (list nat) :=
  pool_col hit_pool (HashList hit_hashes) (Z.of_nat <$> g.(group_ids)).

Lemma hit_group_fits g :
  g ∈ [full_group; window_group] -> group_fits (pool_lookup hit_pool) 2 hit_config (HashList hit_hashes) 6 g (HashList hit_hashes) (hit_cols g).
Proof.
  intros Hg. destruct hit_pool_inv as [l Hinv].
  assert (Hids : Forall (fun z => 0 <= z < 2 ^ 32) (Z.of_nat <$> group_ids g)).
  { apply elem_of_cons in Hg as [->|Hg]; [|apply list_elem_of_singleton in Hg as ->]; repeat constructor; simpl; lia. }
  destruct (pool_col_spec hit_pool l (HashList hit_hashes) _ Hinv Hids (hash_list_get_ok hit_hashes)) as [Hc Hl].
  apply elem_of_cons in Hg as [->|Hg]; [|apply list_elem_of_singleton in Hg as ->];
    (split; [done|split_and!; [by vm_compute|by vm_compute|by exists 1]|by vm_compute|by vm_compute|exact Hc|exact Hl|simpl; try done; lia]).
Qed.

Lemma hit_hybrid_ok : hybrid_ok (pool_lookup hit_pool) 2 hit_config (HashList hit_hashes) 6 hit_cols.
Proof.
  split; try done.
  - intros g Hg. eapply group_finder; [done|]. by apply hit_group_fits.
  - intros g Hg. apply elem_of_cons in Hg as [->|Hg]; [done|]. by apply list_elem_of_singleton in Hg as ->.
  - intros g Hg. apply elem_of_cons in Hg as [->|Hg]; [done|]. by apply list_elem_of_singleton in Hg as ->.
  - apply (bool_decide_unpack _). by vm_compute.
  - repeat constructor.
Qed.


Lemma hybrid_find_terminates_witness :
  exists r, hybrid_find (pool_lookup hit_pool) 2 7 hit_config (HashList hit_hashes) 6 = Some r.
Proof.
  apply (hybrid_find_terminates (pool_lookup hit_pool) 2 hit_config (HashList hit_hashes) 6 7);
    [lia|by vm_compute|repeat constructor; simpl; lia|simpl; lia].
Defined.

(** ** The retention mask of sliding windows *)

Lemma tail_iff ps need sh i :
  0 < ps -> 0 <= need < ps -> 0 <= i -> (sh = 0 \/ sh = 1) ->
  (sh <=? i) && (ps - need <=? (i - sh) mod ps) = true <-> exists k, 1 <= k /\ k * ps + sh - need <= i < k * ps + sh.
Proof.
  intros Hp Hn Hi Hsh. rewrite andb_true_iff, !Z.leb_le. pose proof (Z.mod_pos_bound (i - sh) ps Hp). pose proof (Z.div_mod (i - sh) ps ltac:(lia)).
  split.
  - intros [H1 H2]. exists ((i - sh) / ps + 1). pose proof (Z.div_pos (i - sh) ps ltac:(lia) Hp). split; [lia|]. nia.
  - intros (k & Hk & Hlo & Hup). assert (Hge : sh <= i) by nia. split; [done|].
    rewrite <- (Z.mod_unique_pos (i - sh) ps (k - 1) (i - sh - (k - 1) * ps)); [nia|nia|ring].
Qed.

(** The blocks a hit of [L] tokens needs, the peeked one included. *)
Definition hit_tail (w bs : Z) (eagle : bool) (L : Z) (i : nat) : Prop :=
  Z.of_nat i < L / bs /\ (forall extra, needed bs (SlidingWindowSpec w extra) L i) \/ (eagle = true /\ Z.of_nat i = L / bs).

Lemma hit_tail_range w bs eagle L i :
  0 < bs -> 1 <= w -> 0 < L -> (bs | L) ->
  hit_tail w bs eagle L i
  <-> L / bs + (if eagle then 1 else 0) - contiguous_blocks_for_hit w bs eagle <= Z.of_nat i < L / bs + (if eagle then 1 else 0).
Proof.
  intros Hb Hw HL Hd. unfold hit_tail, contiguous_blocks_for_hit. pose proof (cdiv_spec (w - 1) bs Hb) as Hcd.
  assert (Hc : 0 <= cdiv (w - 1) bs) by nia. split.
  - intros [[Hi Hn]|[-> Hi]]; [|destruct Hd; lia]. pose proof (needed_window bs Hb w 0 L i ltac:(lia) Hd (Hn 0)). destruct eagle; lia.
  - intros Hi. destruct (Z.lt_ge_cases (Z.of_nat i) (L / bs)) as [Hlt|Hge].
    + left. split; [done|]. intros extra. apply needed_window_conv; [done|done|]. destruct eagle; lia.
    + right. destruct eagle; [split; [done|lia]|lia].
Qed.

(** The retention mask of a sliding-window group keeps exactly the blocks that can
    serve a later hit.  With the default retention, a mask is returned only when some
    block is unreachable, and then a block is kept if and only if some aligned hit
    length needs it, as part of the window before that length or as the block that
    draft layers peek at. *)
Theorem window_mask_exact (w bs start_block end_block alignment : Z) (eagle : bool) (boundaries : list Z) (mask : list bool) (j : nat) :
  0 < bs -> 1 <= w -> 0 < alignment -> (bs | alignment) -> 0 <= start_block ->
  window_mask w bs start_block end_block alignment eagle None boundaries = Some mask ->
  Z.of_nat j < end_block - start_block ->
  exists kept, mask !! j = Some kept
    /\ (kept = true <-> exists L, 0 < L /\ (alignment | L) /\ hit_tail w bs eagle L (Z.to_nat (start_block + Z.of_nat j))).
Proof.
  intros Hb Hw Ha [ps Hps] Hs Hmask Hj. unfold window_mask in Hmask.
  assert (Hdiv : alignment / bs = ps) by (rewrite Hps, Z.div_mul; lia). rewrite Hdiv in Hmask.
  destruct (Z.leb_spec ps (contiguous_blocks_for_hit w bs eagle)) as [|Hlt]; [done|]. injection Hmask as <-.
  rewrite list_lookup_fmap, lookup_seqZ_lt by lia. eexists. split; [reflexivity|]. cbv beta. rewrite orb_false_r.
  assert (Hp0 : 0 < ps) by nia. pose proof (cdiv_spec (w - 1) bs Hb).
  assert (Hn : 0 <= contiguous_blocks_for_hit w bs eagle) by (unfold contiguous_blocks_for_hit; destruct eagle; nia).
  rewrite tail_iff by (destruct eagle; lia). split.
  - intros (k & Hk & Hi). exists (k * alignment). assert (HL : k * alignment / bs = k * ps) by (rewrite Hps, Z.mul_assoc, Z.div_mul; lia).
    split_and!; [nia|by exists k|]. apply hit_tail_range; [done|done|nia|exists (k * ps); rewrite Hps; ring|]. rewrite HL, Z2Nat.id by lia. lia.
  - intros (L & HL & [k Hk] & Ht). assert (HLb : L / bs = k * ps) by (rewrite Hk, Hps, Z.mul_assoc, Z.div_mul; lia).
    apply hit_tail_range in Ht; [|done|done|done|exists (k * ps); rewrite Hk, Hps; ring]. rewrite HLb, Z2Nat.id in Ht by lia.
    exists k. split; [nia|lia].
Qed.

(** A window of three tokens in blocks of two, with hits every eight tokens. *)
Lemma window_mask_exact_witness :
  exists kept, [false; false; false; true; true; false; false; true] !! 4%nat = Some kept
    /\ (kept = true <-> exists L, 0 < L /\ (8 | L) /\ hit_tail 3 2 true L (Z.to_nat (0 + Z.of_nat 4))).
Proof.
  apply (window_mask_exact 3 2 0 8 8 true [] [false; false; false; true; true; false; false; true] 4);
    [lia|lia|lia|by exists 4|lia|by vm_compute|simpl; lia].
Defined.

(** ** Where the lookups disagree *)

(** Blocks of group 2 cached as well. *)
Definition three_pool : BlockPool :=
  let p := (get_new_blocks false elements 9 (new_pool 12 true 2 false).2).2 in
  let s := (cache_full_blocks id false elements [1; 2; 3]%nat 0 3 2 0 None (p, hit_request)).2 in
  let s := (cache_full_blocks id false elements [4; 5; 6]%nat 0 3 2 1 (Some [false; true; false]) s).2 in
  (cache_full_blocks id false elements [7; 8; 9]%nat 0 3 2 2 None s).2.1.

(** Full attention with another layout: a spec of its own. *)
Definition full_group' : SpecGroup := mkSpecGroup (mkGroupSpec FullAttentionSpec 2 [1]) [2%nat] false.

(** With two full-attention specs beside a window group, only the first
    full-attention group is cut to the agreed length: here the hit is four tokens, two
    blocks, but the second full-attention group is handed three. *)
Theorem second_full_group_not_cut :
  split_groups [sg_spec full_group; sg_spec window_group; sg_spec full_group'] []
  = Ok [full_group; full_group'; window_group]
  /\ hybrid_find (pool_lookup three_pool) 2 7 (mkHybridConfig [full_group; full_group'; window_group] 3 false 2 1) (HashList hit_hashes) 6
     = Some (Ok ([[1; 2]; [0; 5]; [7; 8; 9]]%nat, 4, 2)).
Proof. split; by vm_compute. Qed.

(** Two ranks share each block: a block of two tokens covers four. *)
Definition dcp_config : HybridConfig :=
  mkHybridConfig [full_group; full_group'] 3 false 4 2.

(** The per-group lookup for KV connectors does not pass the number of ranks of
    decode context parallelism on: where the joint lookup finds the cached blocks, it
    views the hashes at the unsharded block size and raises [AssertionError]. *)
Theorem per_group_lookup_ignores_ranks :
  hybrid_find (pool_lookup three_pool) 4 13 dcp_config (HashList hit_hashes) 12 = Some (Ok ([[1; 2; 3]; []; [7; 8; 9]]%nat, 12, 0))
  /\ per_group_find (pool_lookup three_pool) 4 dcp_config (HashList hit_hashes) 12 = Raise AssertionError.
Proof. split; by vm_compute. Qed.

(** With draft layers, a window group whose whole prefix is cached but shorter than
    the window loses an aligned hit that full attention reports for the same blocks: the
    block for the peek is dropped twice, once when the run is cut to the alignment and
    once for the peek. *)
Theorem short_window_drops_peek_twice :
  full_find (pool_lookup hit_pool) 2 (HashList hit_hashes) 6 [0] 2 true 4 1 = Ok ([[1; 2]]%nat, 4)
  /\ window_find (pool_lookup hit_pool) 2 (HashList hit_hashes) 6 [0] 2 3 true 4 = Ok ([[0; 2]]%nat, 4)
  /\ window_find (pool_lookup hit_pool) 2 (HashList hit_hashes) 6 [0] 2 100 true 4 = Ok ([[]], 0).
Proof. split_and!; by vm_compute. Qed.
