(* ===== verification/KVSystem.v ===== *)
(** * The KV-cache manager as a state machine

    The operations of [KVCacheManager] as the steps of a machine, its invariant by
    induction on the steps, and the claims on [allocate_slots] and on freeing. *)

From S2P Require Import Prelude FreeQueue BlockHash BlockPool BlockPoolProps KVManager KVCoordinator KVManagerProps KVCoordinatorProps.

(** ** Computations that move the state along a relation *)

Definition moves {S A : Type} (R : relation S) (m : M S A) : Prop := forall s, R s (m s).2.

Section moves.
Context {S : Type} (R : relation S) `{!PreOrder R}.

Lemma moves_bind {A B} (m : M S A) (k : A -> M S B) : moves R m -> (forall a, moves R (k a)) -> moves R (bind m k).
Proof.
  intros Hm Hk s. unfold bind. specialize (Hm s). destruct (m s) as [[a|e] s']; simpl in *; [|done].
  etransitivity; [exact Hm|apply Hk].
Qed.

Lemma moves_ret {A} (a : A) : moves R (ret a).
Proof. by intros s. Qed.

Lemma moves_gets {A} (f : S -> A) : moves R (gets f).
Proof. by intros s. Qed.

Lemma moves_lift {A} (r : res A) : moves R (lift r).
Proof. by intros s. Qed.
End moves.

Create HintDb moves.
#[export] Hint Resolve moves_ret moves_gets moves_lift : moves.

Ltac moves_step :=
  cbv zeta;
  lazymatch goal with
  | |- moves _ (bind _ _) => apply moves_bind; [typeclasses eauto | solve [auto with moves typeclass_instances] | intros ?]
  | |- moves _ (match ?x with _ => _ end) => destruct x
  | |- moves _ _ => solve [auto with moves typeclass_instances]
  end.

Section system.
Context {P : Type} `{!PoolOps P} `{!PoolLaws P}.
Implicit Types (p : P) (m : Manager) (ms : list Manager) (rid : string) (r : Request).

(** ** Caching moves no block *)

(** The manager changed in its records of [rid] only, and in no block. *)
Record same_blocks (rid : string) (m m' : Manager) : Prop := {
  sb_only : only_req rid m m';
  sb_holds : holds m' ≡ₚ holds m;
  sb_tbl : forall other, tbl m' other = tbl m other;
  sb_partial : m'.(partial_hit_reqs) = m.(partial_hit_reqs);
}.

#[global] Instance same_blocks_preorder rid : PreOrder (same_blocks rid).
Proof.
  split; [by intros m; split|]. intros m1 m2 m3 [c1 h1 t1 p1] [c2 h2 t2 p2].
  split; [by transitivity m2|by rewrite h2|intros; by rewrite t2|congruence].
Qed.

Definition pool_kept (p p' : P) : Prop := pool_inv p -> pool_inv p' /\ pool_refs p' = pool_refs p.

#[global] Instance pool_kept_preorder : PreOrder pool_kept.
Proof. split; [by intros p|]. intros p1 p2 p3 H1 H2 Hi. destruct (H1 Hi) as [Hi2 E1]. destruct (H2 Hi2) as [Hi3 E2]. split; [done|congruence]. Qed.

Definition cache_move rid (s s' : P * Manager * Request) : Prop := pool_kept s.1.1 s'.1.1 /\ same_blocks rid s.1.2 s'.1.2.

#[global] Instance cache_move_preorder rid : PreOrder (cache_move rid).
Proof. split; [by intros s|]. intros s1 s2 s3 [? ?] [? ?]. split; by etransitivity. Qed.

Lemma put_same rid m : same_blocks rid m (put rid (tbl m rid) m).
Proof.
  split; [apply put_only| | |done].
  - by rewrite (holds_split _ rid), put_tbl, put_others, <- holds_split.
  - intros r. destruct (decide (r = rid)) as [->|Hne]; [apply put_tbl|]. apply (or_other rid); [apply put_only|done].
Qed.

Lemma moves_get_mgr {A} rid (f : Manager -> A) : moves (cache_move rid) (with_request (get_mgr f)).
Proof. intros [[p m] r]. by split. Qed.

Lemma moves_req_blocks rid : moves (cache_move rid) (with_request (req_blocks rid)).
Proof.
  intros [[p m] r]. unfold with_request, zoom. simpl. rewrite req_blocks_run. simpl. split; [done|]. apply put_same.
Qed.

Lemma moves_set_cached rid n :
  moves (cache_move rid) (with_request (upd_mgr (fun m => set_cached (<[rid := n]> m.(num_cached_block)) m))).
Proof. intros [[p m] r]. split; [done|]. split; try done. split; try done. simpl. by rewrite delete_insert_eq. Qed.

Lemma moves_cache_full rid bs nc nf bsz g mask : moves (cache_move rid) (on_pool_request (pool_cache_full bs nc nf bsz g mask)).
Proof.
  intros [[p m] r]. unfold on_pool_request, zoom. simpl.
  pose proof (pool_cache_full_keeps p r bs nc nf bsz g mask) as Hk. destruct (pool_cache_full _ _ _ _ _ _ (p, r)) as [o [p' r']].
  by split.
Qed.

Lemma moves_cache_partial rid b nt g bsz : moves (cache_move rid) (on_pool_request (pool_cache_partial b nt g bsz)).
Proof.
  intros [[p m] r]. unfold on_pool_request, zoom. simpl.
  pose proof (pool_cache_partial_keeps p r b nt g bsz) as Hk. destruct (pool_cache_partial _ _ _ _ (p, r)) as [o [p' r']].
  by split.
Qed.

#[local] Hint Resolve moves_get_mgr moves_req_blocks moves_set_cached moves_cache_full moves_cache_partial : moves.

Lemma moves_mgr_cache rq n retention : moves (cache_move rq.(request_id)) (mgr_cache_blocks rq n retention).
Proof.
  unfold mgr_cache_blocks. apply moves_bind; [typeclasses eauto|unfold cache_full_prefix; repeat moves_step|intros _].
  unfold cache_partial_tail_block. repeat moves_step.
Qed.

Lemma coord_cache_keeps cfg rq n p ms r :
  let s := (coord_cache_blocks cfg rq n (p, ms, r)).2 in
  pool_kept p s.1.1 /\ Forall2 (same_blocks rq.(request_id)) ms s.1.2.
Proof.
  unfold coord_cache_blocks. simpl. generalize (num_tokens_to_cache cfg n) (retention_interval cfg). intros f ret.
  revert p r. induction ms as [|m ms IH]; intros p r; simpl; [by split|].
  pose proof (moves_mgr_cache rq (f m) ret (p, m, r)) as [Hp Hm].
  destruct (mgr_cache_blocks rq (f m) ret (p, m, r)) as [[[]|e] [[p1 m1] r1]]; simpl in *.
  2:{ split; [done|]. constructor; [done|]. clear. by induction ms; constructor. }
  destruct (IH p1 r1) as [Hp' Hms]. destruct (each_cache rq f ret p1 ms r1) as [o [[p2 ms2] r2]]. simpl in *.
  split; [by etransitivity|by constructor].
Qed.

Lemma same_holds rid ms ms' : Forall2 (same_blocks rid) ms ms' -> all_holds ms' ≡ₚ all_holds ms.
Proof.
  intros Hall. unfold all_holds. induction Hall as [|m m' ms ms' Hm _ IH]; [done|]. simpl. by rewrite IH, (sb_holds _ _ _ Hm).
Qed.

Lemma same_wf rid m m' : mgr_wf m -> same_blocks rid m m' -> mgr_wf m'.
Proof.
  intros Hw [Ho _ _ Hp]. apply (mgr_wf_only rid m); [done|done|]. unfold partial_hit. rewrite Hp. by apply mgr_wf_partial.
Qed.

Lemma same_inv rid p p' ms ms' F : KVInv (p, ms) F -> pool_kept p p' -> Forall2 (same_blocks rid) ms ms' -> KVInv (p', ms') F.
Proof.
  intros [Ha Hw] Hp Hms. simpl in *. destruct (Hp (ac_inv _ _ Ha)) as [Hi Hr]. split; simpl.
  - rewrite (same_holds _ _ _ Hms). destruct Ha as [_ Hc Hv]. split; [done|by rewrite Hr|by rewrite Hr].
  - clear -Hw Hms. induction Hms as [|m m' ms ms' Hm _ IH]; [done|]. apply Forall_cons in Hw as [Hw1 Hw].
    constructor; [by eapply same_wf|auto].
Qed.

(** ** Returning blocks *)

Definition released (rid : string) (m m' : Manager) : Prop :=
  only_req rid m m' /\ m'.(req_to_blocks) !! rid = None /\ m'.(num_cached_block) !! rid = None /\ partial_hit m' rid = None.

Lemma released_wf rid ms ms' : Forall mgr_wf ms -> Forall2 (released rid) ms ms' -> Forall mgr_wf ms'.
Proof.
  intros Hw Hr. induction Hr as [|m m' ms ms' (Ho & _ & _ & Hp) _ IH]; [done|]. apply Forall_cons in Hw as [Hwm Hw].
  constructor; [by eapply mgr_wf_only|auto].
Qed.

(** Pointwise relations as the loops produce them. *)
Lemma pointwise_Forall2 {A B} (R : A -> B -> Prop) (l : list A) (l' : list B) :
  length l' = length l -> (forall i a b, l !! i = Some a -> l' !! i = Some b -> R a b) -> Forall2 R l l'.
Proof. intros Hl HR. by apply Forall2_same_length_lookup_2. Qed.

Lemma coord_free_spec rid p ms F :
  KVInv (p, ms) F ->
  exists p' ms', coord_free rid (p, ms) = (Ok tt, (p', ms')) /\ KVInv (p', ms') F /\ Forall2 (released rid) ms ms'.
Proof.
  intros [Ha Hw]. simpl in Ha, Hw. unfold coord_free.
  destruct (each_mgr_rel (fun _ => mgr_free rid) (fun q done todo => accounts q (all_holds (done ++ todo) ++ F))
    (fun _ m _ m' => released rid m m') p ms) as (out & p' & ms' & Hrun & Ha' & Hl & _ & HR).
  - intros i done q m todo Hm _ Hq. apply focus in Hq.
    destruct (mgr_free_spec rid q m _ Hq) as (q' & m' & Hrun & Ha1 & Ho & Ht & Hc & Hp). exists tt, q', m'.
    split_and!; try done. rewrite <- app_assoc. simpl. by apply focus.
  - done.
  - rewrite app_nil_r in Ha'. rewrite (bind_ok _ _ _ _ _ Hrun).
    assert (Hr : Forall2 (released rid) ms ms').
    { apply pointwise_Forall2; [done|]. intros i m m' Hm Hm'. by destruct (HR i m m' Hm Hm') as (_ & _ & ?). }
    exists p', ms'. split_and!; try done. split; [done|]. by eapply released_wf.
Qed.

(** All blocks of a request, group by group. *)
Definition blocks_held (rid : string) (ms : list Manager) : list nat := concat ((fun m => tbl m rid) <$> ms).

Lemma coord_pop_spec rid p ms F :
  KVInv (p, ms) F ->
  exists ms', coord_pop_blocks_for_free rid (p, ms) = (Ok (blocks_held rid ms), (p, ms'))
    /\ KVInv (p, ms') (F ++ blocks_held rid ms) /\ Forall2 (released rid) ms ms'.
Proof.
  intros [Ha Hw]. simpl in Ha, Hw. unfold coord_pop_blocks_for_free.
  destruct (each_mgr_rel (fun _ => pop_blocks_for_free rid)
    (fun q done todo => q = p /\ exists popped, accounts q (all_holds (done ++ todo) ++ F ++ popped)
       /\ popped ++ blocks_held rid todo = blocks_held rid ms)
    (fun _ m a m' => released rid m m' /\ a = tbl m rid) p ms) as (out & p' & ms' & Hrun & (-> & popped & Ha' & Hpop) & Hl & Hlo & HR).
  - intros i done q m todo Hm _ (-> & popped & Hq & Hpop). apply focus in Hq.
    destruct (pop_blocks_spec rid p m) as (m' & Hrun & Ho & Ht & Hc & Hp & Hh). exists (tbl m rid), p, m'.
    split_and!; try done. exists (popped ++ tbl m rid). split; [|by rewrite <- app_assoc].
    rewrite <- app_assoc. simpl. apply focus. rewrite Hh in Hq. revert Hq. apply accounts_perm. solve_Permutation.
  - split; [done|]. exists []. rewrite app_nil_r. split; [done|]. done.
  - rewrite app_nil_r in Ha', Hpop. subst popped. rewrite (bind_ok _ _ _ _ _ Hrun).
    assert (Hr : Forall2 (released rid) ms ms').
    { apply pointwise_Forall2; [done|]. intros i m m' Hm Hm'. by destruct (HR i m m' Hm Hm') as (_ & _ & ? & _). }
    assert (out = (fun m => tbl m rid) <$> ms) as ->.
    { apply list_eq. intros i. rewrite list_lookup_fmap. destruct (ms !! i) as [m|] eqn:Hm.
      - pose proof (lookup_lt_Some _ _ _ Hm) as Hlt. rewrite <- Hl in Hlt. apply lookup_lt_is_Some_2 in Hlt as [m' Hm'].
        destruct (HR i m m' Hm Hm') as (a & -> & _ & ->). done.
      - apply lookup_ge_None in Hm. apply lookup_ge_None. lia. }
    exists ms'. split_and!; try done. split; [done|]. by eapply released_wf.
Qed.

(** ** The other drains *)

Lemma holds_pending m : holds m ≡ₚ holds (set_pending [] m) ++ endpoints m.(pending_cow_copies).
Proof. unfold holds. simpl. by rewrite app_nil_r. Qed.

Lemma take_copies_spec p ms F :
  KVInv (p, ms) F ->
  let copies := concat (pending_cow_copies <$> ms) in
  take_kv_cache_block_copies (p, ms) = (Ok (copies, endpoints copies), (p, set_pending [] <$> ms))
  /\ KVInv (p, set_pending [] <$> ms) (F ++ endpoints copies).
Proof.
  intros [Ha Hw]. simpl in Ha, Hw. split.
  - assert (forall k, each_mgr (fun _ => take_pending_cow_copies) k p ms
                      = (Ok (pending_cow_copies <$> ms), (p, set_pending [] <$> ms))) as Hrun.
    { clear. induction ms as [|m ms IH]; intros k; [done|]. simpl. by rewrite IH. }
    unfold take_kv_cache_block_copies. by rewrite (bind_ok _ _ (p, ms) _ _ (Hrun 0%nat : for_mgrs _ (p, ms) = _)).
  - split; simpl.
    + assert (Hh : all_holds ms ≡ₚ all_holds (set_pending [] <$> ms) ++ endpoints (concat (pending_cow_copies <$> ms))).
      { clear. unfold all_holds. induction ms as [|m ms IH]; [done|]. simpl. rewrite endpoints_app, IH, (holds_pending m). solve_Permutation. }
      rewrite Hh in Ha. revert Ha. apply accounts_perm. solve_Permutation.
    + apply Forall_fmap. eapply Forall_impl; [exact Hw|]. intros m [? ? ?]. by split.
Qed.

Lemma for_mgrs_same {A} rid (f : nat -> M (P * Manager) A) p ms :
  (forall i q m, (f i (q, m)).2.1 = q /\ same_blocks rid m (f i (q, m)).2.2) ->
  (for_mgrs f (p, ms)).2.1 = p /\ Forall2 (same_blocks rid) ms (for_mgrs f (p, ms)).2.2.
Proof.
  intros Hf. unfold for_mgrs. simpl. generalize 0%nat. induction ms as [|m ms IH]; intros k; simpl; [by split|].
  destruct (Hf k p m) as [Hp Hm]. destruct (f k (p, m)) as [[a|e] [p' m']]; simpl in *; subst p'.
  - destruct (IH (S k)) as [Hp' Hms]. destruct (each_mgr f (S k) p ms) as [[l|e] [p'' ms'']]; simpl in *; (split; [done|by constructor]).
  - split; [done|]. constructor; [done|]. clear. by induction ms; constructor.
Qed.

(** ** [allocate_slots] *)

(** What a group holds for the request afterwards: nothing is changed for other requests;
    there are blocks for [need] tokens; what a query at [q0] or later reads
    below index [from] is the block of [base]; the blocks from there on, which will be
    written, are in no table of another request and not waiting to be freed ([E]). *)
Definition granted (rid : string) (np q0 need from : Z) (base E : list nat) (m m' : Manager) : Prop :=
  only_req rid m m'
  /\ cdiv need m.(block_size) <= Z.of_nat (length (tbl m' rid))
  /\ (forall q k, q0 <= q -> attends m.(kv_cache_spec) np q k -> k / m.(block_size) < from ->
        tbl m' rid !! Z.to_nat (k / m.(block_size)) = base !! Z.to_nat (k / m.(block_size)))
  /\ (forall i b, from <= Z.of_nat i -> tbl m' rid !! i = Some b -> b = null_block \/ b ∉ E).

(** For a request with hits, [cb] and the tokens they cover; for a running one, its
    table. *)
Definition group_granted (fresh : bool) (rid : string) (np processed nl ne need : Z) (E : list nat) (m : Manager)
    (cb : list nat) (m' : Manager) : Prop :=
  if fresh then granted rid np (nl + ne) need (nl / m.(block_size)) cb E m m'
  else granted rid np processed need (Z.of_nat (length (tbl m rid))) (tbl m rid) E m m'.

Lemma given_granted fresh rid np processed nl ne need E m cb m1 m' :
  given fresh rid np processed nl ne need E m cb m1 -> same_blocks rid m1 m' ->
  group_granted fresh rid np processed nl ne need E m cb m'.
Proof.
  intros Hg Hs. destruct fresh; destruct Hg as [Ho Hp Hl Hk Hpr]; unfold group_granted, granted;
    (split_and!; [transitivity m1; [done|apply Hs]|rewrite (sb_tbl _ _ _ Hs)..]; done).
Qed.

Definition all_granted (cfg : KVConfig) (rq : ReqInfo) (fresh : bool) (new_tokens new_computed lookahead external : Z)
    (ncb : KVCacheBlocks) (F : list nat) (ms ms' : list Manager) : Prop :=
  length ms' = length ms
  /\ forall i m cb m', ms !! i = Some m -> blocks_of (length ms) ncb !! i = Some cb -> ms' !! i = Some m' ->
       group_granted fresh rq.(request_id) rq.(num_prompt_tokens) (processed_tokens rq new_computed external)
         (local_tokens rq new_computed) external (slots_needed cfg rq new_tokens new_computed lookahead external)
         (elsewhere rq.(request_id) ms F) m cb m'.

Lemma outcome_granted cfg rq fresh new_tokens new_computed lookahead external ncb F ms ms1 ms' :
  slots_outcome cfg rq fresh new_tokens new_computed lookahead external ncb ms F true ms1 ->
  Forall2 (same_blocks rq.(request_id)) ms1 ms' ->
  all_granted cfg rq fresh new_tokens new_computed lookahead external ncb F ms ms'.
Proof.
  intros [Hl HR] Hs. split; [by rewrite <- (Forall2_length _ _ _ Hs)|]. intros i m cb m' Hm Hcb Hm'.
  destruct (Forall2_lookup_r _ _ _ _ _ Hs Hm') as (m1 & Hm1 & Hsm). eapply given_granted; [|exact Hsm]. by eapply HR.
Qed.

Lemma same_refl rid ms : Forall2 (same_blocks rid) ms ms.
Proof. by induction ms; constructor. Qed.

Lemma with_hashes_run {A} (op : M (P * list Manager) A) s r o s' : op s = (o, s') -> with_hashes op (s, r) = (o, (s', r)).
Proof. intros Hrun. unfold with_hashes, zoom. simpl. by rewrite Hrun. Qed.

Lemma allocate_slots_spec cfg rq fresh new_tokens new_computed ncb lookahead external delay full reserved sched p ms r F :
  KVInv (p, ms) F -> slots_args cfg rq new_tokens new_computed lookahead external reserved ->
  offer_ok fresh rq.(request_id) (local_tokens rq new_computed) external ncb p ms ->
  exists o p' ms' r',
    allocate_slots cfg rq new_tokens new_computed ncb lookahead external delay full reserved sched (p, ms, r)
    = (o, (p', ms', r'))
    /\ KVInv (p', ms') F
    /\ match o with
       | Ok None => Forall2 (window_kept rq.(request_id) (processed_tokens rq new_computed external) rq.(num_prompt_tokens)) ms ms'
       | Ok (Some _) => all_granted cfg rq fresh new_tokens new_computed lookahead external ncb F ms ms'
       | Raise e => cfg.(kv_enable_caching) = true /\ delay = false
                    /\ (exists n s, (coord_cache_blocks (P := P) cfg rq n s).1 = Raise e)
                    /\ all_granted cfg rq fresh new_tokens new_computed lookahead external ncb F ms ms'
       end
    /\ (o = Ok None -> full = true
        \/ free_count (pool_refs p') - reserved - watermark_for cfg rq sched
           < owed fresh rq.(request_id) (slots_needed cfg rq new_tokens new_computed lookahead external)
               (local_tokens rq new_computed) external (blocks_of (length ms) ncb) (p', ms')).
Proof.
  intros Hi Hargs Ho. unfold allocate_slots. run_monad.
  destruct (take_slots_spec cfg rq fresh (num_tokens r) new_tokens new_computed ncb lookahead external full reserved sched p ms F Hi Hargs Ho)
    as (got & p1 & ms1 & Hrun & Hi1 & Hout & Hshort).
  rewrite (bind_ok _ _ _ _ _ (with_hashes_run _ _ r _ _ Hrun)). destruct got as [nb|].
  2:{ exists (Ok None), p1, ms1, r. split_and!; try done. intros _. by apply Hshort. }
  destruct (kv_enable_caching cfg) eqn:Hca, delay; simpl; run_monad.
  2:{ match goal with |- context [coord_cache_blocks cfg rq ?n] =>
        pose proof (coord_cache_keeps cfg rq n p1 ms1 r) as [Hp Hs]; unfold bind; destruct (coord_cache_blocks cfg rq n (p1, ms1, r)) as [o [[p2 ms2] r2]] eqn:Hcache end.
      simpl in Hp, Hs. pose proof (same_inv _ _ _ _ _ _ Hi1 Hp Hs). pose proof (outcome_granted _ _ _ _ _ _ _ _ _ _ _ _ Hout Hs).
      destruct o as [[]|e]; (do 4 eexists; split; [reflexivity|]); split_and!; try done. eexists _, _. by rewrite Hcache. }
  all: do 4 eexists; split; [reflexivity|]; split; [done|]; split; [|done]; by apply (outcome_granted _ _ _ _ _ _ _ _ _ _ ms1), same_refl.
Qed.

(** ** The initial state *)

Definition empty_manager (m : Manager) : Prop :=
  m.(req_to_blocks) = ∅ /\ m.(pending_cow_copies) = [] /\ mgr_wf m.

Lemma empty_holds ms : Forall (fun m => m.(req_to_blocks) = ∅ /\ m.(pending_cow_copies) = []) ms -> all_holds ms = [].
Proof.
  intros Hall. induction Hall as [|m ms [Ht Hp] _ IH]; [done|]. change (holds m ++ all_holds ms = []). rewrite IH, app_nil_r.
  unfold holds, held. by rewrite Ht, Hp, map_to_list_empty.
Qed.

Lemma empty_inv p ms :
  pool_inv p -> (forall i n, pool_refs p !! i = Some (n, false) -> n = 0) -> Forall empty_manager ms -> KVInv (p, ms) [].
Proof.
  intros Hp Hz Hm. split; simpl.
  - rewrite empty_holds by (eapply Forall_impl; [exact Hm|]; intros m (? & ? & _); done). split; [done| |constructor].
    intros i n Hi. by rewrite (Hz _ _ Hi).
  - eapply Forall_impl; [exact Hm|]. by intros m (_ & _ & ?).
Qed.

(** ** Guarantees *)


(** Without the full-sequence gate, [allocate_slots] refuses a request only when the
    free blocks, less the reserve and the watermark, are fewer than the blocks it still
    needs: new ones, hits that are free themselves, and the private copy of a partially
    hit block. *)
Theorem allocate_slots_refuses_when_short cfg rq fresh new_tokens new_computed ncb lookahead external delay reserved sched
    (p p' : P) (ms ms' : list Manager) (r r' : Request) (F : list nat) :
  KVInv (p, ms) F -> slots_args cfg rq new_tokens new_computed lookahead external reserved ->
  offer_ok fresh rq.(request_id) (local_tokens rq new_computed) external ncb p ms ->
  allocate_slots cfg rq new_tokens new_computed ncb lookahead external delay false reserved sched (p, ms, r)
  = (Ok None, (p', ms', r')) ->
  pool_num_free p' - reserved - watermark_for cfg rq sched
  < owed fresh rq.(request_id) (slots_needed cfg rq new_tokens new_computed lookahead external)
      (local_tokens rq new_computed) external (blocks_of (length ms) ncb) (p', ms').
Proof.
  intros Hi Ha Ho Hrun.
  destruct (allocate_slots_spec cfg rq fresh new_tokens new_computed ncb lookahead external delay false reserved sched p ms r F Hi Ha Ho)
    as (o & p1 & ms1 & r1 & Hrun' & Hi' & _ & Hshort). rewrite Hrun in Hrun'. simplify_eq.
  pose proof (accounts_free _ _ (kv_accounts _ _ Hi')) as Hnf. simpl in Hnf. rewrite Hnf. by destruct (Hshort eq_refl).
Qed.

(** Freeing what left the attention window, on the tokens whose processing is
    complete, is safe for every group: the entries of the block table a query at or
    after that point attends to are unchanged, and so are all other requests. *)
Theorem remove_skipped_keeps_attended (rid : string) (processed np : Z) (p : P) (ms : list Manager) (F : list nat) :
  KVInv (p, ms) F -> 0 <= processed -> 0 <= np ->
  exists p' ms', coord_remove_skipped_blocks rid processed (Some np) (p, ms) = (Ok tt, (p', ms'))
    /\ KVInv (p', ms') F
    /\ forall i m m', ms !! i = Some m -> ms' !! i = Some m' ->
         (forall other, other <> rid -> tbl m' other = tbl m other)
         /\ length (tbl m' rid) = length (tbl m rid)
         /\ forall q k, processed <= q -> attends m.(kv_cache_spec) np q k ->
              tbl m' rid !! Z.to_nat (k / m.(block_size)) = tbl m rid !! Z.to_nat (k / m.(block_size)).
Proof.
  intros Hi Hp Hn. destruct (remove_stage rid processed np p ms F Hi Hp Hn) as (p' & ms' & Hrun & Hi' & Hk & _).
  exists p', ms'. split_and!; [done|done|]. intros i m m' Hm Hm'.
  destruct (Forall2_lookup_lr _ _ _ _ _ _ Hk Hm Hm') as (Ho & _ & _ & Hl & Hwin).
  split_and!; [|done|done]. intros other Hne. by apply (or_other rid).
Qed.
End system.

(** ** A system of two groups over a pool of nine blocks *)

#[local] Instance demo_ops : PoolOps BlockPool := block_pool_ops id false elements.
#[local] Instance demo_laws : PoolLaws BlockPool := block_pool_laws id false elements elements_order any_pool any_pool_cfg.

Definition kv_demo_pool : BlockPool := (new_pool 9 true 2 false).2.

Definition kv_demo_mgrs : list Manager :=
  [new_manager FullAttentionSpec 2 4 1 true 0 false None;
   new_manager (SlidingWindowSpec 3 0) 4 4 1 true 1 true (Some 3)].

Definition kv_demo_cfg : KVConfig := mkKVConfig 64 true 0 0 None true false 4.

Definition kv_demo_req (computed : Z) : ReqInfo := mkReqInfo "a" WAITING 5 computed 0 0.

Definition kv_demo_tokens : Request := mkRequest [7; 8; 9; 10; 11] [] None None None ∅ [].

Lemma kv_demo_pool_inv : pool_inv kv_demo_pool.
Proof. unfold kv_demo_pool. destruct (new_pool_spec 9 true 2 false) as (p & -> & Hinv & _); [lia|]. by exists [1; 2; 3; 4; 5; 6; 7; 8]%nat. Qed.

Lemma kv_demo_refs : pool_refs kv_demo_pool = (0, true) :: replicate 8 (0, false).
Proof. by vm_compute. Qed.

Lemma kv_demo_unused i n : pool_refs kv_demo_pool !! i = Some (n, false) -> n = 0.
Proof.
  rewrite kv_demo_refs. destruct i as [|i]; simpl; [done|]. intros Hi. change (replicate 8 (0, false) !! i = Some (n, false)) in Hi.
  by apply lookup_replicate in Hi as [[= <-] _].
Qed.

Lemma kv_demo_empty : Forall empty_manager kv_demo_mgrs.
Proof. repeat constructor; simpl; lia. Qed.

Lemma kv_demo_inv : KVInv (kv_demo_pool, kv_demo_mgrs) [].
Proof. apply empty_inv; [apply kv_demo_pool_inv|apply kv_demo_unused|apply kv_demo_empty]. Qed.

(** Three tokens hit blocks 1 and 2 of the first group and block 3 of the second. *)
Definition kv_demo_hits : KVCacheBlocks := SomeBlocks [[1; 2]; [3]]%nat.

Lemma kv_demo_args reserved : 0 <= reserved -> slots_args kv_demo_cfg (kv_demo_req 0) 2 3 0 0 reserved.
Proof. intros Hr. split; simpl; lia. Qed.

Lemma kv_demo_offer : offer_ok true "a" (local_tokens (kv_demo_req 0) 3) 0 kv_demo_hits kv_demo_pool kv_demo_mgrs.
Proof.
  simpl. unfold fresh_all. rewrite kv_demo_refs. repeat constructor; simpl; try lia; try by left.
  all: intros _; eexists; split; [reflexivity|done].
Qed.


(** With seven of the eight blocks reserved the same request is refused. *)
Lemma allocate_slots_refuses_when_short_witness :
  exists p' ms' r', pool_num_free (p' : BlockPool) - 7 - 0 < owed true "a" 5 3 0 [[1; 2]; [3]]%nat (p', ms') /\ r' = kv_demo_tokens.
Proof.
  destruct (allocate_slots kv_demo_cfg (kv_demo_req 0) 2 3 kv_demo_hits 0 0 true false 7 false
      (kv_demo_pool, kv_demo_mgrs, kv_demo_tokens)) as [o [[p' ms'] r']] eqn:Hrun.
  assert (Ho : o = Ok None /\ r' = kv_demo_tokens) by (vm_compute in Hrun; injection Hrun as <- _ _ <-; done).
  destruct Ho as [-> Hr]. exists p', ms', r'. split; [|exact Hr].
  apply (allocate_slots_refuses_when_short kv_demo_cfg (kv_demo_req 0) true 2 3 kv_demo_hits 0 0 true 7 false
           kv_demo_pool p' kv_demo_mgrs ms' kv_demo_tokens r' []).
  - apply kv_demo_inv.
  - apply kv_demo_args. lia.
  - apply kv_demo_offer.
  - exact Hrun.
Defined.

(** The state after the request was served. *)
Definition kv_demo_served : BlockPool * list Manager :=
  (allocate_slots kv_demo_cfg (kv_demo_req 0) 2 3 kv_demo_hits 0 0 true false 0 false
     (kv_demo_pool, kv_demo_mgrs, kv_demo_tokens)).2.1.

Lemma kv_demo_served_inv : KVInv kv_demo_served [].
Proof.
  destruct (allocate_slots_spec kv_demo_cfg (kv_demo_req 0) true 2 3 kv_demo_hits 0 0 true false 0 false
              kv_demo_pool kv_demo_mgrs kv_demo_tokens []) as (o & p' & ms' & r' & Hrun & Hi & _);
    [apply kv_demo_inv|apply kv_demo_args; lia|apply kv_demo_offer|].
  unfold kv_demo_served. by rewrite Hrun.
Qed.

(** The window of the second group has passed its first block. *)
Lemma remove_skipped_keeps_attended_witness :
  exists p' ms', coord_remove_skipped_blocks "a" 9 (Some 5) (kv_demo_served.1, kv_demo_served.2) = (Ok tt, (p', ms'))
    /\ KVInv (p', ms') []
    /\ forall i m m', kv_demo_served.2 !! i = Some m -> ms' !! i = Some m' ->
         (forall other, other <> "a"%string -> tbl m' other = tbl m other)
         /\ length (tbl m' "a") = length (tbl m "a")
         /\ forall q k, 9 <= q -> attends m.(kv_cache_spec) 5 q k ->
              tbl m' "a" !! Z.to_nat (k / m.(block_size)) = tbl m "a" !! Z.to_nat (k / m.(block_size)).
Proof.
  apply (remove_skipped_keeps_attended "a" 9 5 kv_demo_served.1 kv_demo_served.2 []); [|lia|lia].
  rewrite <- surjective_pairing. apply kv_demo_served_inv.
Defined.
