(* ===== verification/Admission.v ===== *)
(** * From the prefix-cache lookup to the block table

    Models [get_computed_blocks] of [KVCacheManager]
    ([vllm/v1/core/kv_cache_manager.py]) over the three coordinators
    ([vllm/v1/core/kv_cache_coordinator.py]), and composes it with [allocate_slots]: the
    blocks the lookup returns are what the allocation expects, and afterwards every
    later query finds, at each position of the cached prefix it reads, a block that the
    pool caches under the hash of that position's block. *)

From S2P Require Import Prelude FreeQueue BlockHash BlockPool BlockPoolProps KVManager KVCoordinator CacheHit KVManagerProps KVCoordinatorProps CacheHitProps KVSystem.

(** ** [get_computed_blocks] *)

(** The coordinators, with what their lookup uses. *)
Inductive Coordinator :=
  | NoPrefixCache (num_single_type_manager : nat)
  | Unitary (spec : GroupSpec) (eagle : bool) (dcp_world_size : Z)
  | Hybrid (c : HybridConfig).

(** [coordinator.find_longest_cache_hit]; [None] when [fuel] did not suffice. *)
Definition find_longest_cache_hit (lookup : bytes -> list Z -> res (option (list nat))) (hash_block_size : Z) (fuel : nat)
    (co : Coordinator) (hs : BlockHashList) (max_cache_hit_length : Z) : option (res (list (list nat) * Z * Z)) :=
  match co with
  | NoPrefixCache n => Some (Ok (replicate n [], 0, 0))
  | Unitary spec eagle dcp => Some (unitary_find lookup hash_block_size spec eagle dcp hs max_cache_hit_length)
  | Hybrid c => hybrid_find lookup hash_block_size fuel c hs max_cache_hit_length
  end.

Definition prefix_cache_lookup_enabled (cfg : KVConfig) (skip_reading_prefix_cache : bool) : bool :=
  cfg.(kv_enable_caching) && negb skip_reading_prefix_cache.

Section get_computed_blocks.
Context (sha256 : bytes -> bytes) (use_int : bool).

(** The events for the reused blocks; [block_sizes] are those of the groups' specs. *)
Fixpoint report_hits (block_sizes : list Z) (group_idx : nat) (computed_blocks : list (list nat))
    : M (BlockPool * Request) unit :=
  match computed_blocks with
  | [] => ret tt
  | group_blocks :: rest =>
      (if (length group_blocks =? 0)%nat then ret tt else
       match block_sizes !! group_idx with
       | None => raise IndexError
       | Some block_size =>
           emit_cached_block_events sha256 use_int (Z.of_nat (length group_blocks)) block_size (Z.of_nat group_idx)
       end) ;;
      report_hits block_sizes (S group_idx) rest
  end.

(** [full_report] is [request.kv_cache_report_mode == "full"]. *)
Definition get_computed_blocks (cfg : KVConfig) (fuel : nat) (co : Coordinator) (block_sizes : list Z)
    (skip_reading_prefix_cache full_report : bool) (s : BlockPool * Request)
    : option (res (KVCacheBlocks * Z * Z) * (BlockPool * Request)) :=
  if negb (prefix_cache_lookup_enabled cfg skip_reading_prefix_cache) then Some (Ok (EmptyBlocks, 0, 0), s) else
  match find_longest_cache_hit (pool_lookup s.1) s.1.(hash_block_size) fuel co (HashList s.2.(block_hashes))
          (num_tokens s.2 - 1) with
  | None => None
  | Some found =>
      Some ((x <- lift found ;;
             let '(computed_blocks, num_new_computed_tokens, num_uncached) := x in
             (if (num_new_computed_tokens >? 0) && s.1.(enable_kv_cache_events) && full_report
              then report_hits block_sizes 0 computed_blocks else ret tt) ;;
             ret (create_kv_cache_blocks computed_blocks, num_new_computed_tokens,
                  if num_uncached =? 0 then 0 else num_new_computed_tokens + num_uncached)) s)
  end.
End get_computed_blocks.

(** ** Where the blocks of a hit come from *)

Section origin.
Variable lookup : bytes -> list Z -> res (option (list nat)).
Variable hash_block_size : Z.
Variable Q : nat -> Prop.
Hypothesis Q_null : Q null_block.
Hypothesis Q_lookup : forall h gs bs, lookup h gs = Ok (Some bs) -> Forall Q bs.

Notation all_Q := (Forall (Forall Q)).

Lemma append_all_Q computed bs : all_Q computed -> Forall Q bs -> all_Q (append_all computed bs).
Proof.
  intros Hc. unfold append_all. revert bs. induction Hc as [|c computed Hc _ IH]; intros [|b bs] Hb; simpl; try done.
  apply Forall_cons in Hb as [Hb Hbs]. constructor; [|by apply IH]. apply Forall_app. split; [done|by constructor].
Qed.

Lemma insert_all_Q i computed bs : all_Q computed -> Forall Q bs -> all_Q (zip_with (fun c b => <[i := b]> c) computed bs).
Proof.
  intros Hc. revert bs. induction Hc as [|c computed Hc _ IH]; intros [|b bs] Hb; simpl; try done.
  apply Forall_cons in Hb as [Hb Hbs]. constructor; [|by apply IH]. by apply Forall_insert.
Qed.

Lemma take_all_Q n computed : all_Q computed -> all_Q (take n <$> computed).
Proof. intros Hc. apply Forall_fmap. eapply Forall_impl; [exact Hc|]. intros l Hl. by apply Forall_take. Qed.

Lemma scan_prefix_Q hs gids n i computed out :
  all_Q computed -> scan_prefix lookup hs gids n i computed = Ok out -> all_Q out.
Proof.
  revert i computed. induction n as [|n IH]; intros i computed Hc; cbn [scan_prefix]; [by intros [= <-]|].
  destruct (_ <=? i); [by intros [= <-]|]. destruct (hash_list_getitem hs i) as [h|]; [|done]. cbn [rbind].
  destruct (lookup h gids) as [[bs|]|] eqn:Hl; cbn [rbind]; [|by intros [= <-]|done].
  apply IH, append_all_Q; [done|by eapply Q_lookup].
Qed.

Lemma scan_chunk_Q hs gids n i computed out :
  all_Q computed -> scan_chunk lookup hs gids n i computed = Ok out -> all_Q out.
Proof.
  revert i computed. induction n as [|n IH]; intros i computed Hc; cbn [scan_chunk]; [by intros [= <-]|].
  destruct (hash_list_getitem hs i) as [h|]; [|done]. cbn [rbind].
  destruct (lookup h gids) as [[bs|]|] eqn:Hl; cbn [rbind]; [|by intros [= <-]|done].
  apply IH, append_all_Q; [done|by eapply Q_lookup].
Qed.

Lemma probe_tail_Q hs gids first n bs idx :
  probe_tail lookup hs gids first n = Ok (Some (bs, idx)) -> Forall Q bs.
Proof.
  induction n as [|n IH]; cbn [probe_tail]; [done|]. destruct (py_index hs _) as [h|]; [|done]. cbn [rbind].
  destruct (lookup h gids) as [[bs'|]|] eqn:Hl; cbn [rbind]; [|done|done]. intros [= <- _]. by eapply Q_lookup.
Qed.

Lemma scan_window_Q hs gids bsz al need peeks n computed run out run' found :
  all_Q computed -> scan_window lookup hs gids bsz al need peeks n computed run = Ok (out, run', found) -> all_Q out.
Proof.
  revert computed run. induction n as [|n IH]; intros computed run Hc; cbn [scan_window]; [by intros [= <- _ _]|].
  destruct (hash_list_getitem hs _) as [h|]; [|done]. cbn [rbind].
  destruct (lookup h gids) as [[bs|]|] eqn:Hl; cbn [rbind]; [|by apply IH|done].
  pose proof (insert_all_Q n computed bs Hc (Q_lookup _ _ _ Hl)) as Hi.
  destruct (_ && _ && _); [by apply IH|]. destruct (need <=? _); [intros [= <- _ _]; by apply take_all_Q|by apply IH].
Qed.

Lemma full_find_Q hs m gids spec_bsz peeks al dcp computed L :
  full_find lookup hash_block_size hs m gids spec_bsz peeks al dcp = Ok (computed, L) -> all_Q computed.
Proof.
  unfold full_find. set (bs := if 1 <? dcp then _ else _).
  destruct (resolve_block_hashes _ _ _ _ _) as [v|]; [|done]. cbn [rbind].
  destruct (if al <? bs then _ else _) as [fg|]; [|done]. cbn [rbind].
  destruct (if fg then _ else _) as [fv|]; [|done]. cbn [rbind]. destruct (m / bs <? 0); [done|].
  destruct (scan_prefix _ _ _ _ _ _) as [cc|] eqn:Hs; [|done]. cbn [rbind].
  apply scan_prefix_Q in Hs; [|by apply Forall_replicate].
  match goal with |- rbind ?X _ = _ -> _ => destruct X as [found|] eqn:Hf; [|done] end. cbn [rbind].
  destruct found as [[bl idx]|]; (destruct (al =? 0); [done|]); intros [= <- _]; apply take_all_Q; [|done].
  apply append_all_Q; [done|]. destruct v as [l|]; [|done]. destruct fg; [|done]. by eapply probe_tail_Q.
Qed.

Lemma window_find_Q hs m gids bsz w peeks al computed L :
  window_find lookup hash_block_size hs m gids bsz w peeks al = Ok (computed, L) -> all_Q computed.
Proof.
  unfold window_find. destruct (py_divides _ _) as [ok|]; [|done]. cbn [rbind]. destruct ok; [|done]. cbn [negb].
  destruct (resolve_block_hashes _ _ _ _ _) as [v|]; [|done]. cbn [rbind].
  destruct (scan_window _ _ _ _ _ _ _ _ _ _) as [[[cc run] fd]|] eqn:Hs; [|done]. cbn [rbind]. intros [= <- _].
  apply scan_window_Q in Hs; [|by apply Forall_replicate, Forall_replicate].
  destruct fd, (peeks && _); by repeat apply take_all_Q.
Qed.

Lemma chunk_find_Q hs m gids bsz chunk peeks al computed L :
  chunk_find lookup hash_block_size hs m gids bsz chunk peeks al = Ok (computed, L) -> all_Q computed.
Proof.
  unfold chunk_find. destruct peeks; [done|]. destruct (negb _); [done|].
  destruct (resolve_block_hashes _ _ _ _ _) as [v|]; [|done]. cbn [rbind].
  destruct (scan_chunk _ _ _ _ _ _) as [cc|] eqn:Hs; [|done]. cbn [rbind]. intros [= <- _].
  eapply scan_chunk_Q; [|done]. by apply Forall_replicate, Forall_replicate.
Qed.

Lemma find_hit_Q g hs m peeks al dcp computed L :
  find_hit lookup hash_block_size g hs m peeks al dcp = Ok (computed, L) -> all_Q computed.
Proof.
  unfold find_hit. destruct (gs_spec (sg_spec g)); [apply full_find_Q|apply full_find_Q|apply window_find_Q|apply chunk_find_Q].
Qed.

(** The lists the loop has collected. *)
Definition state_Q (s : HitState) : Prop := Forall (fun o => Forall Q (default [] o)) s.(hit_blocks_by_group).

Lemma store_hits_Q gids bss n s : state_Q s -> all_Q bss -> state_Q (store_hits gids bss n s).
Proof.
  unfold store_hits. revert s bss. induction gids as [|k gids IH]; intros s [|b bss] Hs Hb; try done.
  apply Forall_cons in Hb as [Hb Hbs]. simpl. apply IH; [|done]. by apply Forall_insert.
Qed.

Lemma check_groups_Q c hs mx idx gs s s' :
  state_Q s -> check_groups lookup hash_block_size c hs mx idx gs s = Ok s' -> state_Q s'.
Proof.
  revert idx s. induction gs as [|g gs IH]; intros idx s Hs; cbn [check_groups]; [by intros [= <-]|].
  destruct (check_group _ _ _ _ _ _ _ _) as [s1|] eqn:Hg; [|done]. cbn [rbind]. apply IH. clear IH.
  unfold check_group in Hg. destruct (looked_up g s); [by injection Hg as <-|].
  destruct (find_hit _ _ _ _ _ _ _ _) as [[bss n]|] eqn:Hf; [|done]. cbn [rbind] in Hg. injection Hg as <-.
  apply store_hits_Q; [done|by eapply find_hit_Q].
Qed.

Lemma hit_loop_Q fuel c hs mx H s L s' :
  state_Q s -> hit_loop lookup hash_block_size fuel c hs mx H s = Some (Ok (L, s')) -> state_Q s'.
Proof.
  revert H s. induction fuel as [|fuel IH]; intros H s Hs; cbn [hit_loop]; [done|].
  destruct (check_groups _ _ _ _ _ _ _ _) as [s1|] eqn:Hg; [|done]. apply check_groups_Q in Hg; [|done].
  destruct (H <=? _); [by intros [= _ <-]|]. destruct (is_simple_hybrid c); [by intros [= _ <-]|]. by apply IH.
Qed.

Lemma truncate_first_Q c L s : state_Q s -> state_Q (truncate_first c L s).
Proof.
  intros Hs. unfold truncate_first. destruct (attention_groups c) as [|g gs]; [done|]. destruct (is_full _); [|done].
  generalize (group_ids g). intros gids. revert s Hs. induction gids as [|k gids IH]; intros s Hs; simpl; [done|]. apply IH.
  destruct (hit_blocks_by_group s !! k) as [[b|]|] eqn:Hb; simpl; [|done|done]. apply Forall_insert; [done|].
  apply Forall_take. exact (proj1 (Forall_lookup _ _) Hs _ _ Hb).
Qed.

Lemma find_longest_Q fuel co hs mx bss L u :
  find_longest_cache_hit lookup hash_block_size fuel co hs mx = Some (Ok (bss, L, u)) -> all_Q bss.
Proof.
  destruct co as [n|spec eagle dcp|c]; simpl.
  - intros [= <- _ _]. by apply Forall_replicate.
  - unfold unitary_find. destruct (find_hit _ _ _ _ _ _ _ _) as [[bs n]|] eqn:Hf; [|done]. cbn [rbind]. intros [= <- _ _].
    by eapply find_hit_Q.
  - unfold hybrid_find. destruct (hit_loop _ _ _ _ _ _ _ _) as [[[L' s]|]|] eqn:Hl; [|done|done]. intros [= <- _ _].
    apply Forall_fmap. apply truncate_first_Q. eapply hit_loop_Q; [|exact Hl]. by apply Forall_replicate.
Qed.
End origin.

(** ** What the coordinators return *)

(** The groups a coordinator looks up, in the form of the hybrid one. *)
Definition groups_of (co : Coordinator) : HybridConfig :=
  match co with
  | NoPrefixCache n => mkHybridConfig [] n false 1 1
  | Unitary spec eagle dcp =>
      mkHybridConfig [mkSpecGroup spec [0%nat] eagle] 1 false
        (if 1 <? dcp then spec.(gs_block_size) * dcp else spec.(gs_block_size)) dcp
  | Hybrid c => c
  end.

(** At most one full-attention spec, which the grouping puts first. *)
Definition single_full (c : HybridConfig) : Prop :=
  forall g, g ∈ c.(attention_groups) -> is_full g.(sg_spec).(gs_spec) = true -> head c.(attention_groups) = Some g.

(** One list per member of [g], each of exactly [L] tokens and with the cached block
    wherever a later query reads. *)
Definition exact_hit (c : HybridConfig) (cols : SpecGroup -> nat -> option (list nat)) (L : Z) (bss : list (list nat))
    (g : SpecGroup) : Prop :=
  forall j gid, g.(group_ids) !! j = Some gid -> exists blks, bss !! gid = Some blks
    /\ Z.of_nat (length blks) = L / group_block_size c g
    /\ forall i, Z.of_nat i < L / group_block_size c g -> needed (group_block_size c g) g.(sg_spec).(gs_spec) L i ->
         blks !! i = entry (cols g) j i /\ is_Some (cols g i).

Lemma truncate_first_length c L s :
  length (truncate_first c L s).(hit_blocks_by_group) = length s.(hit_blocks_by_group).
Proof.
  unfold truncate_first. destruct (attention_groups c) as [|g gs]; [done|]. destruct (is_full _); [|done].
  generalize (group_ids g). intros gids. revert s. induction gids as [|k gids IH]; intros s; simpl; [done|]. rewrite IH.
  destruct (default None _); simpl; [apply length_insert|done].
Qed.

Section coordinators.
Variable lookup : bytes -> list Z -> res (option (list nat)).
Variable hash_block_size : Z.
Variables (hs : BlockHashList) (mx : Z) (cols : SpecGroup -> nat -> option (list nat)).

Notation ok co := (hybrid_ok lookup hash_block_size (groups_of co) hs mx cols).
Notation common co := (common hash_block_size (groups_of co) mx cols).

Lemma hybrid_found fuel c :
  ok (Hybrid c) -> single_full c -> (Z.to_nat mx < fuel)%nat ->
  exists bss L u, hybrid_find lookup hash_block_size fuel c hs mx = Some (Ok (bss, L, u))
    /\ length bss = c.(num_groups) /\ common (Hybrid c) L /\ (forall L', common (Hybrid c) L' -> L' <= L)
    /\ forall g, g ∈ c.(attention_groups) -> exact_hit c cols L bss g.
Proof.
  intros Hy Hfull Hfuel. simpl in Hy. unfold hybrid_find. pose proof (hy_max _ _ _ _ _ _ Hy).
  destruct (hit_loop_spec lookup hash_block_size c hs mx cols fuel mx
    (mkHitState mx 0 (replicate c.(num_groups) None) (replicate c.(num_groups) 0) []) Hy ltac:(lia) Hfuel (init_passing _ _ _ _ _ _ Hy))
    as (L & s & -> & Hag).
  pose proof (agreed_common _ _ _ _ _ _ _ _ Hy Hag) as Hcom. do 3 eexists. split; [reflexivity|]. split_and!; [|done|apply Hag|].
  - rewrite length_fmap, truncate_first_length. apply Hag.
  - intros g Hg j gid Hj. destruct (agreed_blocks _ _ _ _ _ _ _ _ _ Hy Hag Hg j gid Hj) as (blks & Hb & _ & Hlen & He).
    exists blks. split_and!; [done| |].
    + apply Hlen. destruct (is_full _) eqn:Hf; [left; by apply Hfull|by right].
    + intros i Hi Hn. split; [by apply He|]. by apply (proj2 Hcom g Hg).
Qed.

Lemma unitary_found spec eagle dcp :
  let co := Unitary spec eagle dcp in
  ok co ->
  exists bss L, unitary_find lookup hash_block_size spec eagle dcp hs mx = Ok (bss, L, 0)
    /\ length bss = 1%nat /\ common co L /\ (forall L', common co L' -> L' <= L)
    /\ forall g, g ∈ (groups_of co).(attention_groups) -> exact_hit (groups_of co) cols L bss g.
Proof.
  intros co Hy. set (g := mkSpecGroup spec [0%nat] eagle).
  assert (Hg : forall g', g' ∈ attention_groups (groups_of co) -> g' = g) by (intros g'; by intros ->%list_elem_of_singleton).
  assert (Hin : g ∈ attention_groups (groups_of co)) by (by left).
  pose proof (hy_max _ _ _ _ _ _ Hy) as Hm. pose proof (hy_eagle _ _ _ _ _ _ Hy g Hin) as He. simpl in He. subst eagle.
  destruct (hy_finders _ _ _ _ _ _ Hy g Hin) as [_ Hfind]. destruct (Hfind mx ltac:(lia)) as (computed & L & Hrun & Hok & Hbest).
  destruct Hok as [HL Hal Hlg Hlen Hent _]. exists computed, L.
  assert (Hneed : forall i, needed (group_block_size (groups_of co) g) (gs_spec spec) L i ->
    (if is_full (gs_spec spec) then fun _ => True else needed (group_block_size (groups_of co) g) (gs_spec spec) L) i)
    by (intros i Hi; by destruct (is_full _)).
  destruct (lookup_lt_is_Some_2 computed 0%nat) as [blks Hb]; [rewrite Hlg; simpl; lia|].
  split_and!.
  - unfold unitary_find. fold g. assert (Hr : find_hit lookup hash_block_size g hs mx false
      (if 1 <? dcp then gs_block_size spec * dcp else gs_block_size spec) dcp = Ok (computed, L)).
    { rewrite <- Hrun. unfold find_hit. simpl. by destruct (gs_spec spec). }
    by rewrite Hr.
  - by rewrite Hlg.
  - split; [lia|]. intros g' ->%Hg. split_and!; [lia|done|]. intros i Hi Hn. by apply (Hent 0%nat blks i Hb Hi), Hneed.
  - intros L' [Hle Hc]. apply Hbest; [by apply Hc|done].
  - intros g' ->%Hg j gid Hj. destruct j; [|done]. injection Hj as <-. exists blks. split_and!; [done|by apply (Hlen 0%nat)|].
    intros i Hi Hn. by apply (Hent 0%nat blks i Hb Hi), Hneed.
Qed.

Lemma find_longest_spec fuel co :
  ok co -> single_full (groups_of co) -> (Z.to_nat mx < fuel)%nat ->
  exists bss L u, find_longest_cache_hit lookup hash_block_size fuel co hs mx = Some (Ok (bss, L, u))
    /\ length bss = (groups_of co).(num_groups) /\ common co L /\ (forall L', common co L' -> L' <= L)
    /\ forall g, g ∈ (groups_of co).(attention_groups) -> exact_hit (groups_of co) cols L bss g.
Proof.
  intros Hy Hf Hfuel. destruct co as [n|spec eagle dcp|c].
  - by destruct (hy_groups _ _ _ _ _ _ Hy).
  - destruct (unitary_found spec eagle dcp Hy) as (bss & L & Hrun & H). exists bss, L, 0. cbn [find_longest_cache_hit]. by rewrite Hrun.
  - by apply hybrid_found.
Qed.
End coordinators.

(** ** The lookup in a pool *)

(** The hashes of a group's blocks. *)
Definition group_view (hbs bsz : Z) (hs : list bytes) : BlockHashList :=
  if bsz =? hbs then HashList hs else HashView hs (bsz / hbs).

Lemma group_view_resolves hbs bsz al hs full :
  0 < hbs -> (hbs | bsz) -> 0 < bsz -> (bsz | al) -> 0 < al ->
  resolve_block_hashes (HashList hs) hbs bsz full (Some al) = Ok (group_view hbs bsz hs).
Proof.
  intros Hh Hd Hb Hba Ha. unfold resolve_block_hashes, group_view. destruct (bsz =? hbs); [done|].
  pose proof (Z.divide_pos_le _ _ Ha Hba). rewrite (proj2 (Z.ltb_ge al bsz)), andb_false_r by lia. cbn [rbind].
  unfold BlockHashListWithBlockSize, py_divides. rewrite (proj2 (Z.eqb_neq hbs 0)) by lia. cbn [rbind].
  apply Z.mod_divide in Hd; [|lia]. by rewrite Hd.
Qed.

(** Block [i] has the hash of the last hash block inside it. *)
Lemma group_view_get hbs bsz hs i :
  0 < hbs -> (hbs | bsz) -> 0 < bsz -> Z.of_nat i < hash_list_len (group_view hbs bsz hs) ->
  exists h, hash_list_getitem (group_view hbs bsz hs) (Z.of_nat i) = Ok h
    /\ hs !! Z.to_nat ((Z.of_nat i + 1) * (bsz / hbs) - 1) = Some h.
Proof.
  intros Hh [c ->] Hb. rewrite Z.div_mul by lia. assert (0 < c) by nia. unfold group_view.
  destruct (Z.eqb_spec (c * hbs) hbs) as [He|He]; simpl; rewrite ?Z.div_mul by lia; intros Hi.
  - assert (c = 1) as -> by nia. destruct (lookup_lt_is_Some_2 hs i) as [h Hh']; [lia|]. exists h.
    split; [by apply py_index_nonneg|]. rewrite <- Hh'. f_equal. lia.
  - pose proof (Z.mul_div_le (Z.of_nat (length hs)) c ltac:(lia)).
    destruct (lookup_lt_is_Some_2 hs (Z.to_nat ((Z.of_nat i + 1) * c - 1))) as [h Hh']; [nia|]. exists h. split; [|done].
    unfold get_value_at. rewrite <- (Z2Nat.id ((Z.of_nat i + 1) * c - 1)) by nia. by apply py_index_nonneg.
Qed.

Lemma group_view_len hbs bsz hs n :
  0 < hbs -> (hbs | bsz) -> 0 < bsz -> Z.of_nat (length hs) = n / hbs -> hash_list_len (group_view hbs bsz hs) = n / bsz.
Proof.
  intros Hh [c ->] Hb Hl. assert (0 < c) by nia. unfold group_view. destruct (Z.eqb_spec (c * hbs) hbs) as [He|He]; simpl.
  - by rewrite He.
  - rewrite Hl, Z.div_mul, Z.div_div, (Z.mul_comm hbs c) by lia. done.
Qed.

(** Groups without draft layers that fit the coordinator, where hashes are for blocks of
    [hbs] tokens. *)
Record groups_ok (hbs : Z) (c : HybridConfig) : Prop := {
  go_groups : c.(attention_groups) <> [];
  go_cover : concat (group_ids <$> c.(attention_groups)) ≡ₚ seq 0 c.(num_groups);
  go_small : Z.of_nat c.(num_groups) <= 2 ^ 32;
  go_full : single_full c;
  go_hbs : 0 < hbs;
  go_align : 0 < cache_hit_alignment_tokens hbs c;
  go_group : forall g, g ∈ c.(attention_groups) ->
    g.(group_ids) <> [] /\ g.(sg_use_eagle) = false
    /\ 0 < group_block_size c g /\ (hbs | group_block_size c g)
    /\ (group_block_size c g | cache_hit_alignment_tokens hbs c)
    /\ match g.(sg_spec).(gs_spec) with
       | FullAttentionSpec | RSWASpec _ => True
       | SlidingWindowSpec w _ => 2 <= w /\ c.(hybrid_dcp_world_size) <= 1
       | ChunkedLocalAttentionSpec chunk => 0 < chunk /\ (group_block_size c g | chunk)
           /\ group_block_size c g = cache_hit_alignment_tokens hbs c /\ c.(hybrid_dcp_world_size) <= 1
       end;
}.

(** What the lookup of a request relies on: hashes for all its full hash blocks. *)
Record lookup_ok (p : BlockPool) (r : Request) (c : HybridConfig) : Prop := {
  lo_tokens : 0 < num_tokens r;
  lo_hashes : Z.of_nat (length r.(block_hashes)) = num_tokens r / p.(hash_block_size);
  lo_static : groups_ok p.(hash_block_size) c;
}.

(** What the pool holds for the blocks of the request in [g]. *)
Definition request_cols (p : BlockPool) (r : Request) (c : HybridConfig) (g : SpecGroup) : nat -> option (list nat) :=
  pool_col p (group_view p.(hash_block_size) (group_block_size c g) r.(block_hashes)) (Z.of_nat <$> g.(group_ids)).

Section pool_lookup.
Context (p : BlockPool) (l : list nat) (r : Request) (c : HybridConfig).
Context (p_inv : PoolInv p l) (args : lookup_ok p r c).

Notation hbs := p.(hash_block_size).
Notation bsz g := (group_block_size c g).

Lemma group_member g gid : g ∈ c.(attention_groups) -> gid ∈ g.(group_ids) -> (gid < c.(num_groups))%nat.
Proof.
  intros Hg Hgid. assert (Hin : gid ∈ concat (group_ids <$> attention_groups c)).
  { apply list_elem_of_In, in_concat. exists (group_ids g). split; apply list_elem_of_In; [by apply list_elem_of_fmap_2|done]. }
  rewrite (go_cover _ _ (lo_static _ _ _ args)) in Hin. apply elem_of_seq in Hin. lia.
Qed.

Lemma group_ids_small g : g ∈ c.(attention_groups) -> Forall (fun z => 0 <= z < 2 ^ 32) (Z.of_nat <$> g.(group_ids)).
Proof.
  intros Hg. apply Forall_fmap, Forall_forall. intros gid Hgid. pose proof (group_member g gid Hg Hgid).
  pose proof (go_small _ _ (lo_static _ _ _ args)). simpl. lia.
Qed.

Lemma request_fits g :
  g ∈ c.(attention_groups) ->
  group_fits (pool_lookup p) hbs c (HashList r.(block_hashes)) (num_tokens r - 1) g
    (group_view hbs (bsz g) r.(block_hashes)) (request_cols p r c g).
Proof.
  intros Hg. pose proof (go_hbs _ _ (lo_static _ _ _ args)) as Hh. pose proof (go_align _ _ (lo_static _ _ _ args)) as Ha.
  destruct (go_group _ _ (lo_static _ _ _ args) g Hg) as (Hids & _ & Hb & Hd & Hba & Hspec).
  destruct (pool_col_spec p l (group_view hbs (bsz g) (block_hashes r)) _ p_inv (group_ids_small g Hg)) as [Hcol Hlk].
  { intros i Hi. destruct (group_view_get _ _ _ i Hh Hd Hb Hi) as (h & Hh' & _). by exists h. }
  split; [done|done|by apply group_view_resolves| | |done|done].
  - rewrite (group_view_len _ _ _ _ Hh Hd Hb (lo_hashes _ _ _ args)). apply Z.div_le_mono; lia.
  - intros i bs Hi. rewrite (Hcol i bs Hi). apply length_fmap.
Qed.

Lemma request_hybrid_ok :
  hybrid_ok (pool_lookup p) hbs c (HashList r.(block_hashes)) (num_tokens r - 1) (request_cols p r c).
Proof.
  pose proof (lo_tokens _ _ _ args). pose proof (go_cover _ _ (lo_static _ _ _ args)) as Hcov. split.
  - lia.
  - by apply (go_groups _ _ (lo_static _ _ _ args)).
  - intros g Hg. eapply group_finder; [lia|by apply request_fits].
  - intros g Hg. by apply (go_group _ _ (lo_static _ _ _ args)).
  - intros g Hg. by apply (go_group _ _ (lo_static _ _ _ args)).
  - rewrite Hcov. apply NoDup_seq.
  - rewrite Hcov. apply Forall_seq. intros. lia.
Qed.

(** The entry of a column, in terms of the request's hashes and the pool. *)
Lemma request_cols_owned g j gid i :
  g ∈ c.(attention_groups) -> g.(group_ids) !! j = Some gid -> Z.of_nat i < num_tokens r / bsz g ->
  is_Some (request_cols p r c g i) ->
  exists h key b, r.(block_hashes) !! Z.to_nat ((Z.of_nat i + 1) * (bsz g / hbs) - 1) = Some h
    /\ make_block_hash_with_group_id h (Z.of_nat gid) = Ok key /\ owns p b key
    /\ entry (request_cols p r c g) j i = Some b.
Proof.
  intros Hg Hj Hi [bs Hbs]. pose proof (go_hbs _ _ (lo_static _ _ _ args)) as Hh. destruct (go_group _ _ (lo_static _ _ _ args) g Hg) as (_ & _ & Hb & Hd & _).
  rewrite <- (group_view_len _ _ _ _ Hh Hd Hb (lo_hashes _ _ _ args)) in Hi.
  destruct (group_view_get _ _ _ i Hh Hd Hb Hi) as (h & Hget & Hh').
  unfold entry. rewrite Hbs. simpl. unfold request_cols, pool_col in Hbs.
  rewrite Hget in Hbs.
  destruct (get_cached_block_loop_spec p h _ [] (proj1 p_inv) (group_ids_small g Hg)) as (o & Hrun & Ho).
  unfold pool_lookup, get_cached_block in Hbs. rewrite Hrun in Hbs. simpl in Hbs. subst o. destruct Ho as (bs' & -> & Hall).
  destruct (Forall2_lookup_l _ _ _ j (Z.of_nat gid) Hall) as (b & Hb' & key & Hkey & Ho); [by rewrite list_lookup_fmap, Hj|].
  by exists h, key, b.
Qed.

Lemma owned_valid b key : owns p b key -> (b < length (refs p))%nat.
Proof.
  intros Ho. assert (is_Some (hash_of p b)) as [h Hh].
  { destruct Ho as [->|Hal]; [by eexists|]. unfold aliases in Hal.
    destruct (cached_block_hashes_by_block p !! b) as [s|] eqn:Hs; [|set_solver].
    destruct (ci_alias _ (proj1 p_inv) b s Hs) as (k & -> & _). by eexists. }
  unfold hash_of in Hh. destruct (blocks p !! b) as [blk|] eqn:Hb; [|done]. by eapply lookup_lt_Some, refs_lookup.
Qed.

Lemma lookup_loop_valid h gs acc bs :
  Forall (fun b => (b < length (refs p))%nat) acc -> (get_cached_block_loop h gs acc p).1 = Ok (Some bs) ->
  Forall (fun b => (b < length (refs p))%nat) bs.
Proof.
  revert acc. induction gs as [|g gs IH]; intros acc Ha; cbn [get_cached_block_loop]; [by intros [= <-]|].
  destruct (make_block_hash_with_group_id h g) as [key|]; [|done]. run_monad.
  destruct (get_one_block_spec p key (proj1 p_inv)) as (o & -> & Ho). run_monad. destruct o as [b|]; [|done].
  apply IH, Forall_app. split; [done|]. constructor; [|done]. by eapply owned_valid.
Qed.

Lemma pool_lookup_valid h gs bs :
  pool_lookup p h gs = Ok (Some bs) -> Forall (fun b => (b < length (refs p))%nat) bs.
Proof. by apply lookup_loop_valid. Qed.
End pool_lookup.

(** The managers of the groups of [c]. *)
Definition group_managers (c : HybridConfig) (ms : list Manager) : Prop :=
  length ms = c.(num_groups)
  /\ forall g gid m, g ∈ c.(attention_groups) -> gid ∈ g.(group_ids) -> ms !! gid = Some m ->
       m.(block_size) = group_block_size c g /\ m.(kv_cache_spec) = g.(sg_spec).(gs_spec) /\ m.(mgr_caching) = true.

(** A request the manager has no record of. *)
Definition no_record (rid : string) (m : Manager) : Prop := tbl m rid = [] /\ m.(num_cached_block) !! rid = None.

Definition managers_for (c : HybridConfig) (rid : string) (ms : list Manager) : Prop :=
  group_managers c ms /\ Forall (no_record rid) ms.

Lemma blocks_of_create n bss : length bss = n -> blocks_of n (create_kv_cache_blocks bss) = bss.
Proof.
  intros <-. unfold create_kv_cache_blocks. destruct (existsb _ bss) eqn:He; [done|]. simpl.
  induction bss as [|bs bss IH]; [done|]. simpl in *. apply orb_false_iff in He as [Hb He].
  apply negb_false_iff, bool_decide_eq_true in Hb as ->. by rewrite IH.
Qed.

Section admission.
Context (sha256 : bytes -> bytes) (use_int : bool) (set_order : gset bytes -> list bytes).
Context (set_order_perm : forall s, set_order s ≡ₚ elements s).
Context (J : BlockPool -> Prop) (J_cfg : forall p p', same_cfg p p' -> J p -> J p').

#[local] Instance admission_ops : PoolOps BlockPool := block_pool_ops sha256 use_int set_order.
#[local] Instance admission_laws : PoolLaws BlockPool := block_pool_laws sha256 use_int set_order set_order_perm J J_cfg.

Lemma group_of p r c gid :
  lookup_ok p r c -> (gid < c.(num_groups))%nat ->
  exists g j, g ∈ c.(attention_groups) /\ g.(group_ids) !! j = Some gid.
Proof.
  intros Ha Hlt. assert (Hin : gid ∈ concat (group_ids <$> attention_groups c)).
  { rewrite (go_cover _ _ (lo_static _ _ _ Ha)). apply elem_of_seq. lia. }
  apply list_elem_of_In, in_concat in Hin as (ids & Hids & Hin). apply list_elem_of_In, list_elem_of_fmap in Hids as (g & -> & Hg).
  apply list_elem_of_In, list_elem_of_lookup in Hin as [j Hj]. by exists g, j.
Qed.

(** A found hit is what [allocate_slots] expects of a new request. *)
Lemma hit_offer p r c rid ms L bss :
  lookup_ok p r c -> managers_for c rid ms -> length bss = c.(num_groups) -> 0 <= L ->
  (cache_hit_alignment_tokens p.(hash_block_size) c | L) ->
  Forall (Forall (fun b => (b < length (refs p))%nat)) bss ->
  (forall g, g ∈ c.(attention_groups) -> exact_hit c (request_cols p r c) L bss g) ->
  offer_ok true rid L 0 (create_kv_cache_blocks bss) p ms.
Proof.
  intros Ha [[Hl Hm] Hnew] Hb HL Hal Hv Hx. simpl. rewrite blocks_of_create by congruence.
  apply Forall2_same_length_lookup_2; [congruence|]. intros gid m cb Hgm Hcb.
  destruct (group_of p r c gid Ha) as (g & j & Hg & Hj); [rewrite <- Hl; by eapply lookup_lt_Some|].
  destruct (Hm g gid m Hg (list_elem_of_lookup_2 _ _ _ Hj) Hgm) as (Hbs & Hsp & Hca).
  destruct (proj1 (Forall_lookup _ _) Hnew _ _ Hgm) as [Htb Hnc].
  destruct (go_group _ _ (lo_static _ _ _ Ha) g Hg) as (_ & _ & Hpos & _ & Hd & _).
  assert (Hmod : L mod group_block_size c g = 0) by (apply Z.mod_divide; [lia|by etransitivity]).
  destruct (Hx g Hg j gid Hj) as (blks & Hbk & Hlen & _). simplify_eq.
  split; [done|done| | |by left|by rewrite Hbs, Hmod].
  - by rewrite Hbs, cdiv_exact.
  - exact (proj1 (Forall_lookup _ _) Hv _ _ Hcb).
Qed.

(** The lookup of a request whose reused blocks are not reported. *)
Lemma get_computed_blocks_spec cfg fuel co block_sizes full_report p l r :
  let c := groups_of co in
  PoolInv p l -> lookup_ok p r c -> cfg.(kv_enable_caching) = true -> p.(enable_kv_cache_events) && full_report = false ->
  (Z.to_nat (num_tokens r) <= fuel)%nat ->
  exists bss L boundary,
    get_computed_blocks sha256 use_int cfg fuel co block_sizes false full_report (p, r)
    = Some (Ok (create_kv_cache_blocks bss, L, boundary), (p, r))
    /\ length bss = c.(num_groups) /\ Forall (Forall (fun b => (b < length (refs p))%nat)) bss
    /\ common p.(hash_block_size) c (num_tokens r - 1) (request_cols p r c) L
    /\ (forall L', common p.(hash_block_size) c (num_tokens r - 1) (request_cols p r c) L' -> L' <= L)
    /\ forall g, g ∈ c.(attention_groups) -> exact_hit c (request_cols p r c) L bss g.
Proof.
  intros c Hp Ha Hc He Hfuel. pose proof (lo_tokens _ _ _ Ha).
  destruct (find_longest_spec (pool_lookup p) p.(hash_block_size) (HashList r.(block_hashes)) (num_tokens r - 1) (request_cols p r c)
    fuel co (request_hybrid_ok p l r c Hp Ha) (go_full _ _ (lo_static _ _ _ Ha))) as (bss & L & u & Hrun & Hlen & Hcom & Hbest & Hx); [lia|].
  exists bss, L, (if u =? 0 then 0 else L + u). split_and!; try done.
  - unfold get_computed_blocks, prefix_cache_lookup_enabled. rewrite Hc. simpl. rewrite Hrun. f_equal. run_monad.
    by rewrite <- andb_assoc, He, andb_false_r.
  - eapply find_longest_Q; [| |exact Hrun].
    + destruct (ri_zero _ _ (proj2 Hp)) as [n Hn]. by eapply lookup_lt_Some.
    + intros h gs bs. by eapply pool_lookup_valid.
Qed.

(** The part of a granted hit that later queries read. *)
Lemma granted_prefix p l r c g j gid rid np need L E bss m cb m' q k :
  PoolInv p l -> lookup_ok p r c -> common p.(hash_block_size) c (num_tokens r - 1) (request_cols p r c) L ->
  g ∈ c.(attention_groups) -> g.(group_ids) !! j = Some gid ->
  exact_hit c (request_cols p r c) L bss g -> bss !! gid = Some cb ->
  m.(block_size) = group_block_size c g -> m.(kv_cache_spec) = g.(sg_spec).(gs_spec) ->
  granted rid np L need (L / m.(block_size)) cb E m m' ->
  L <= q -> attends g.(sg_spec).(gs_spec) np q k -> k < L ->
  exists h key b, r.(block_hashes) !! Z.to_nat ((k / group_block_size c g + 1) * (group_block_size c g / p.(hash_block_size)) - 1) = Some h
    /\ make_block_hash_with_group_id h (Z.of_nat gid) = Ok key /\ owns p b key
    /\ tbl m' rid !! Z.to_nat (k / group_block_size c g) = Some b.
Proof.
  intros Hp Ha [HLm Hcom] Hg Hj Hx Hcb Hbs Hsp (_ & _ & Hkeep & _) Hq Hk HkL. rewrite Hbs, Hsp in Hkeep.
  destruct (go_group _ _ (lo_static _ _ _ Ha) g Hg) as (_ & _ & Hpos & _ & Hd & _). destruct (Hcom g Hg) as (HL0 & HalL & _).
  set (bs := group_block_size c g) in *. pose proof (proj1 (proj1 Hk)) as Hk0.
  assert (Hkb : 0 <= k / bs) by (by apply Z.div_pos).
  assert (HLx : (bs | L)) by (by etransitivity).
  assert (Hlt : k / bs < L / bs).
  { apply Z.div_lt_upper_bound; [done|]. destruct HLx as [x ->]. rewrite Z.div_mul by lia. lia. }
  destruct (Hx j gid Hj) as (blks & Hb & Hlen & He). rewrite Hcb in Hb. injection Hb as <-.
  destruct (He (Z.to_nat (k / bs))) as [Hent Hsome]; [fold bs; lia| |].
  { exists np, q, k. split_and!; try done. fold bs. lia. }
  destruct (request_cols_owned p l r c Hp Ha g j gid (Z.to_nat (k / bs)) Hg Hj) as (h & key & b & Hh & Hkey & Ho & Hen); [|done|].
  { fold bs. pose proof (Z.div_le_mono L (num_tokens r) bs Hpos ltac:(lia)). lia. }
  exists h, key, b. split_and!; [|done|done|].
  - rewrite <- Hh. fold bs. by rewrite Z2Nat.id.
  - rewrite (Hkeep q k Hq Hk Hlt). by rewrite Hent.
Qed.

End admission.

(** ** A second request over the cached blocks of the first *)

#[local] Instance admit_ops : PoolOps BlockPool := block_pool_ops id false elements.
#[local] Instance admit_laws : PoolLaws BlockPool := block_pool_laws id false elements elements_order any_pool any_pool_cfg.

(** The blocks of the first request, which has finished. *)
Definition admit_pool : BlockPool := (free_blocks [6; 5; 4; 3; 2; 1]%nat hit_pool).2.

Definition admit_mgrs : list Manager :=
  [new_manager FullAttentionSpec 2 2 1 true 0 false None; new_manager (SlidingWindowSpec 3 0) 2 2 1 true 1 false None].

Definition admit_cfg : KVConfig := mkKVConfig 64 true 0 0 None true false 2.

Definition admit_req : ReqInfo := mkReqInfo "b" WAITING 7 0 0 0.

Lemma admit_refs : pool_refs admit_pool = (0, true) :: replicate 8 (0, false).
Proof. by vm_compute. Qed.

Lemma hit_refs : refs hit_pool = (0, true) :: replicate 6 (1, false) ++ replicate 2 (0, false).
Proof. by vm_compute. Qed.

Lemma admit_pool_inv : pool_inv admit_pool.
Proof.
  destruct hit_pool_inv as [l Hl]. unfold admit_pool. destruct (free_blocks_spec hit_pool l [6; 5; 4; 3; 2; 1]%nat Hl) as (p' & -> & _ & Hinv).
  - intros i n. rewrite hit_refs. do 9 (destruct i as [|i]; [by intros [= <-]|]). done.
  - unfold valid_id. rewrite hit_refs. repeat (apply Forall_cons; split; [simpl; lia|]). done.
  - by eexists.
Qed.

Lemma admit_inv : KVInv (admit_pool, admit_mgrs) [].
Proof.
  apply empty_inv; [apply admit_pool_inv| |repeat constructor; simpl; lia]. intros i n. rewrite admit_refs.
  destruct i as [|i]; simpl; [done|]. intros Hi. change (replicate 8 (0, false) !! i = Some (n, false)) in Hi.
  by apply lookup_replicate in Hi as [[= <-] _].
Qed.

Lemma admit_groups g : g ∈ hit_config.(attention_groups) -> g = full_group \/ g = window_group.
Proof. intros [->|Hg]%elem_of_cons; [by left|right]. by apply list_elem_of_singleton in Hg. Qed.

Lemma admit_lookup : lookup_ok admit_pool hit_request hit_config.
Proof.
  split; [by vm_compute|by vm_compute|]. change (hash_block_size admit_pool) with 2. split; try by vm_compute.
  - intros g [->| ->]%admit_groups Hf; done.
  - intros g [->| ->]%admit_groups; (split_and!; [done|done|by vm_compute|by exists 1|by exists 1|simpl; try done; lia]).
Qed.

Lemma admit_managers : managers_for hit_config "b" admit_mgrs.
Proof.
  split; [|by repeat constructor].
  split; [done|]. intros g gid m [->| ->]%admit_groups ->%list_elem_of_singleton Hm; injection Hm as <-; done.
Qed.

Lemma admit_run :
  fst <$> get_computed_blocks id false admit_cfg 7 (Hybrid hit_config) [2; 2] false false (admit_pool, hit_request)
  = Some (Ok (SomeBlocks [[1; 2]; [0; 5]]%nat, 4, 6)).
Proof. by vm_compute. Qed.

