(* ===== verification/SchedBlocks.v ===== *)
(** * The life of a block in the scheduler

    The part of [Scheduler] ([vllm/v1/core/sched/scheduler.py]) that decides when
    blocks go back to the pool: a step that is still running on the device may write
    them, so with overlapping batches they are queued behind a fence, the number of
    the last step that may touch them.  With the operations of the KV-cache manager
    ([KVCoordinator]) they are the steps of one machine, whose invariant and
    guarantees are proved here. *)

From S2P Require Import Prelude FreeQueue BlockHash BlockPool BlockPoolProps KVManager KVCoordinator KVManagerProps KVCoordinatorProps KVSystem.

Section scheduler_blocks.
Context {P : Type} `{!PoolOps P}.

(** [last_sched_seq] holds the attribute of that name of every request. *)
Record Sched := mkSched {
  kv : P * list Manager;
  deferred_frees : list (Z * list nat);
  sched_step_seq : Z;
  processed_step_seq : Z;
  last_sched_seq : gmap string Z;
}.

Definition set_kv (x : P * list Manager) (s : Sched) : Sched :=
  mkSched x s.(deferred_frees) s.(sched_step_seq) s.(processed_step_seq) s.(last_sched_seq).

Definition set_deferred (q : list (Z * list nat)) (s : Sched) : Sched :=
  mkSched s.(kv) q s.(sched_step_seq) s.(processed_step_seq) s.(last_sched_seq).

Definition set_last (l : gmap string Z) (s : Sched) : Sched :=
  mkSched s.(kv) s.(deferred_frees) s.(sched_step_seq) s.(processed_step_seq) l.

Notation schedM := (M Sched).

Definition on_kv {A : Type} (m : M (P * list Manager) A) : schedM A := zoom kv set_kv m.

(** [self.kv_cache_manager.block_pool.free_blocks] *)
Definition free_now (bs : list nat) : schedM unit := on_kv (zoom fst (fun p s => (p, s.2)) (pool_free_blocks bs)).

Variable defer_block_free : bool.

Definition free_request_blocks (rid : string) : schedM unit :=
  s <- gets id ;;
  if negb defer_block_free || (default 0 (s.(last_sched_seq) !! rid) <=? s.(processed_step_seq))
  then on_kv (coord_free rid) else
  blocks <- on_kv (coord_pop_blocks_for_free rid) ;;
  if bool_decide (blocks = []) then ret tt
  else modify (fun s => set_deferred (s.(deferred_frees) ++ [(s.(sched_step_seq), blocks)]) s).

Definition sched_free_blocks (rid : string) : schedM unit :=
  free_request_blocks rid ;;
  modify (fun s => set_last (delete rid s.(last_sched_seq)) s).

Definition free_cow_retained_blocks (blocks : list nat) (fence_seq : Z) : schedM unit :=
  s <- gets id ;;
  if negb defer_block_free || (fence_seq <=? s.(processed_step_seq)) then free_now blocks
  else modify (fun s => set_deferred (s.(deferred_frees) ++ [(fence_seq, reverse blocks)]) s).

(** The loop of [_drain_deferred_frees]; [q] is the queue. *)
Fixpoint drain (q : list (Z * list nat)) : schedM unit :=
  match q with
  | [] => ret tt
  | (fence, blocks) :: q' =>
      processed <- gets processed_step_seq ;;
      if fence >? processed then ret tt else
      modify (set_deferred q') ;;
      free_now (reverse blocks) ;;
      drain q'
  end.

Definition drain_deferred_frees : schedM unit := s <- gets id ;; drain s.(deferred_frees).

(** In [schedule]: the copies of this step are handed out, their endpoints retained
    until the step has run. *)
Definition hand_over_copies : schedM (list (nat * nat)) :=
  '(copies, retained) <- on_kv take_kv_cache_block_copies ;;
  (if bool_decide (copies = []) then ret tt
   else s <- gets id ;; free_cow_retained_blocks retained (s.(sched_step_seq) + 1)) ;;
  ret copies.

(** The end of [schedule] with [_update_after_schedule]: the step gets its number. *)
Definition advance_step (num_scheduled_tokens : list (string * Z)) : schedM unit :=
  if negb defer_block_free then ret tt else
  (if foldr Z.add 0 num_scheduled_tokens.*2 >? 0
   then modify (fun s => mkSched s.(kv) s.(deferred_frees) (s.(sched_step_seq) + 1) s.(processed_step_seq) s.(last_sched_seq))
   else ret tt) ;;
  for_each num_scheduled_tokens (fun x =>
    modify (fun s => set_last (<[x.1 := s.(sched_step_seq)]> s.(last_sched_seq)) s)).

(** The beginning of [update_from_output]. *)
Definition process_step (total_num_scheduled_tokens : Z) : schedM unit :=
  if defer_block_free && (total_num_scheduled_tokens >? 0) then
    modify (fun s => mkSched s.(kv) s.(deferred_frees) s.(sched_step_seq) (s.(processed_step_seq) + 1) s.(last_sched_seq)) ;;
    drain_deferred_frees
  else ret tt.
End scheduler_blocks.
Arguments Sched P : clear implicits.

(** ** The machine *)

Section machine.
Context {P : Type} `{!PoolOps P} `{!PoolLaws P}.
Variables (cfg : KVConfig) (defer : bool).
Implicit Types (s : Sched P) (rid : string).

(** Blocks that wait for their fence. *)
Definition waiting (s : Sched P) : list nat := concat s.(deferred_frees).*2.

Inductive sched_step (s : Sched P) : Sched P -> Prop :=
  | step_allocate rq fresh new_tokens new_computed ncb lookahead external delay full reserved has_scheduled r o x r' :
      slots_args cfg rq new_tokens new_computed lookahead external reserved ->
      offer_ok fresh rq.(request_id) (local_tokens rq new_computed) external ncb s.(kv).1 s.(kv).2 ->
      allocate_slots cfg rq new_tokens new_computed ncb lookahead external delay full reserved has_scheduled (s.(kv), r)
      = (o, (x, r')) -> sched_step s (set_kv x s)
  | step_cache rq n r o x r' :
      kv_cache_blocks cfg rq n (s.(kv), r) = (o, (x, r')) -> sched_step s (set_kv x s)
  | step_remove rid processed np o x :
      0 <= processed -> 0 <= np ->
      coord_remove_skipped_blocks rid processed (Some np) s.(kv) = (o, x) -> sched_step s (set_kv x s)
  | step_preempt rid o s' : free_request_blocks defer rid s = (o, s') -> sched_step s s'
  | step_free rid o s' : sched_free_blocks defer rid s = (o, s') -> sched_step s s'
  | step_copies o s' : hand_over_copies defer s = (o, s') -> sched_step s s'
  | step_advance num_scheduled o s' :
      Forall (fun x => 0 < x.2) num_scheduled ->
      advance_step defer num_scheduled s = (o, s') -> sched_step s s'
  | step_process total o s' :
      (* one call per scheduled step, in order *)
      (defer = true -> 0 < total -> s.(processed_step_seq) < s.(sched_step_seq)) ->
      process_step defer total s = (o, s') -> sched_step s s'.

Record SchedInv (s : Sched P) : Prop := {
  si_kv : KVInv s.(kv) (waiting s);
  si_fences : Forall (fun x => x.1 <= s.(sched_step_seq) + 1) s.(deferred_frees);
  si_last : forall rid k, s.(last_sched_seq) !! rid = Some k -> k <= s.(sched_step_seq);
  si_processed : 0 <= s.(processed_step_seq) <= s.(sched_step_seq);
}.

Lemma waiting_snoc s fence bs : waiting (set_deferred (s.(deferred_frees) ++ [(fence, bs)]) s) = waiting s ++ bs.
Proof. unfold waiting. simpl. rewrite fmap_app, concat_app. simpl. by rewrite app_nil_r. Qed.

Lemma on_kv_run {A} (op : M (P * list Manager) A) s o x : op s.(kv) = (o, x) -> on_kv op s = (o, set_kv x s).
Proof. intros Hrun. unfold on_kv, zoom. by rewrite Hrun. Qed.

Lemma kv_inv_perm (x : P * list Manager) F F' : F ≡ₚ F' -> KVInv x F -> KVInv x F'.
Proof. intros Hp [Ha Hw]. split; [|done]. by rewrite <- Hp. Qed.

(** Blocks outside the managers go back to the pool. *)
Lemma free_now_spec s bs F :
  KVInv s.(kv) (bs ++ F) ->
  exists x, free_now bs s = (Ok tt, set_kv x s) /\ KVInv x F /\ x.2 = s.(kv).2.
Proof.
  intros [Ha Hw]. destruct (s.(kv)) as [p ms] eqn:Hk. simpl in *.
  assert (Ha' : accounts p (bs ++ all_holds ms ++ F)) by (revert Ha; apply accounts_perm; solve_Permutation).
  destruct (free_spec' p _ bs Ha') as (p' & Hrun & Hacc & _). exists (p', ms). split_and!; [|done|done].
  unfold free_now. apply on_kv_run. rewrite Hk. unfold zoom. simpl. by rewrite Hrun.
Qed.

Lemma free_request_spec rid s :
  SchedInv s -> exists s', free_request_blocks defer rid s = (Ok tt, s') /\ SchedInv s'
    /\ Forall2 (released rid) s.(kv).2 s'.(kv).2
    /\ s'.(processed_step_seq) = s.(processed_step_seq) /\ s'.(sched_step_seq) = s.(sched_step_seq)
    /\ s'.(last_sched_seq) = s.(last_sched_seq)
    /\ (exists l, s'.(deferred_frees) = s.(deferred_frees) ++ l)
    /\ (defer = true -> s.(processed_step_seq) < default 0 (s.(last_sched_seq) !! rid) ->
        blocks_held rid s.(kv).2 <> [] ->
        (s.(sched_step_seq), blocks_held rid s.(kv).2) ∈ s'.(deferred_frees)).
Proof.
  intros [Hk Hf Hl Hp]. unfold free_request_blocks. run_monad. unfold id. destruct (s.(kv)) as [p ms] eqn:Hkv.
  destruct (negb defer || (_ <=? _)) eqn:Hc.
  - destruct (coord_free_spec rid p ms _ Hk) as (p' & ms' & Hrun & Hi & Hr). rewrite <- Hkv in Hrun.
    exists (set_kv (p', ms') s). rewrite (on_kv_run _ _ _ _ Hrun). split_and!; try done; [by exists []; rewrite app_nil_r|].
    intros -> Hlt _. simpl in Hc. apply Z.leb_le in Hc. lia.
  - destruct (coord_pop_spec rid p ms _ Hk) as (ms' & Hrun & Hi & Hr). rewrite <- Hkv in Hrun.
    rewrite (bind_ok _ _ _ _ _ (on_kv_run _ _ _ _ Hrun)). case_bool_decide as Hb.
    + exists (set_kv (p, ms') s). rewrite Hb, app_nil_r in Hi. split_and!; try done. by exists []; rewrite app_nil_r.
    + eexists. split; [reflexivity|]. simpl. split_and!; try done; [| |].
      * split; try done; simpl.
        { change (waiting _) with (waiting (set_deferred (s.(deferred_frees) ++ [(s.(sched_step_seq), blocks_held rid ms)]) s)). by rewrite waiting_snoc. }
        { apply Forall_app. split; [done|]. repeat constructor. simpl. lia. }
      * by eexists.
      * intros _ _ _. apply elem_of_app. right. by left.
Qed.

Lemma retained_spec s bs fence :
  KVInv s.(kv) (waiting s ++ bs) -> fence <= s.(sched_step_seq) + 1 ->
  Forall (fun x => x.1 <= s.(sched_step_seq) + 1) s.(deferred_frees) ->
  exists s', free_cow_retained_blocks defer bs fence s = (Ok tt, s')
    /\ KVInv s'.(kv) (waiting s') /\ s'.(kv).2 = s.(kv).2
    /\ Forall (fun x => x.1 <= s.(sched_step_seq) + 1) s'.(deferred_frees)
    /\ s'.(processed_step_seq) = s.(processed_step_seq) /\ s'.(sched_step_seq) = s.(sched_step_seq)
    /\ s'.(last_sched_seq) = s.(last_sched_seq) /\ exists l, s'.(deferred_frees) = s.(deferred_frees) ++ l.
Proof.
  intros Hk Hfence Hf. unfold free_cow_retained_blocks. run_monad. unfold id. destruct (_ || _).
  - destruct (free_now_spec s bs (waiting s)) as (x & Hrun & Hi & Hx).
    { eapply kv_inv_perm; [|exact Hk]. apply Permutation_app_comm. }
    exists (set_kv x s). split_and!; try done. by exists []; rewrite app_nil_r.
  - eexists. split; [reflexivity|]. split_and!; try done; [| |by eexists].
    + rewrite waiting_snoc. eapply kv_inv_perm; [|exact Hk]. by rewrite reverse_Permutation.
    + simpl. apply Forall_app. split; [done|]. by repeat constructor.
Qed.

Lemma drain_spec q s :
  s.(deferred_frees) = q -> KVInv s.(kv) (waiting s) ->
  exists s', drain q s = (Ok tt, s') /\ KVInv s'.(kv) (waiting s') /\ s'.(kv).2 = s.(kv).2
    /\ s'.(processed_step_seq) = s.(processed_step_seq) /\ s'.(sched_step_seq) = s.(sched_step_seq)
    /\ s'.(last_sched_seq) = s.(last_sched_seq)
    /\ exists l, q = l ++ s'.(deferred_frees) /\ Forall (fun x => x.1 <= s.(processed_step_seq)) l
         /\ (forall x, head s'.(deferred_frees) = Some x -> s.(processed_step_seq) < x.1).
Proof.
  revert s. induction q as [|[fence bs] q IH]; intros s Hq Hk; cbn [drain].
  { exists s. split_and!; try done. exists []. rewrite Hq. by split_and!. }
  run_monad. destruct (Z.gtb_spec fence (processed_step_seq s)) as [Hgt|Hle].
  { exists s. split_and!; try done. exists []. rewrite Hq. split_and!; try done. intros x [= <-]. done. }
  run_monad. unfold waiting in Hk. rewrite Hq in Hk. simpl in Hk.
  destruct (free_now_spec (set_deferred q s) (reverse bs) (concat q.*2)) as (x & Hrun & Hi & Hx).
  { eapply kv_inv_perm; [|exact Hk]. by rewrite reverse_Permutation. }
  rewrite (bind_ok _ _ _ _ _ Hrun).
  destruct (IH (set_kv x (set_deferred q s)) eq_refl Hi) as (s' & Hrun' & Hi' & Hx' & Hp & Hs & Hl & l & Hq' & Hle' & Hhd).
  exists s'. split_and!; try done; [by rewrite Hx'|]. exists ((fence, bs) :: l). split_and!; [by rewrite Hq'|by constructor|done].
Qed.

(** What a manager records of the requests is untouched. *)
Definition same_records (m m' : Manager) : Prop :=
  mgr_cfg m' = mgr_cfg m /\ m'.(req_to_blocks) = m.(req_to_blocks) /\ m'.(num_cached_block) = m.(num_cached_block).

Lemma copies_step s :
  SchedInv s -> exists c s', hand_over_copies defer s = (Ok c, s') /\ SchedInv s'
    /\ Forall2 same_records s.(kv).2 s'.(kv).2
    /\ s'.(processed_step_seq) = s.(processed_step_seq) /\ s'.(sched_step_seq) = s.(sched_step_seq)
    /\ exists l, s'.(deferred_frees) = s.(deferred_frees) ++ l.
Proof.
  intros [Hk Hf Hl Hp]. unfold hand_over_copies. destruct (s.(kv)) as [p ms] eqn:Hkv.
  destruct (take_copies_spec p ms _ Hk) as [Hrun Hi]. rewrite <- Hkv in Hrun. rewrite (bind_ok _ _ _ _ _ (on_kv_run _ _ _ _ Hrun)).
  set (copies := concat _) in *. cbv beta iota.
  assert (Ht : Forall2 same_records ms (set_pending [] <$> ms)) by (clear; induction ms; by constructor).

  case_bool_decide as Hc; run_monad.
  - exists copies. eexists. split; [reflexivity|]. rewrite Hc, app_nil_r in Hi. split_and!; try done. by exists []; rewrite app_nil_r.
  - destruct (retained_spec (set_kv (p, set_pending [] <$> ms) s) (endpoints copies) (s.(sched_step_seq) + 1) Hi) as (s' & Hrun' & Hi' & Hx & Hf' & Hp' & Hs' & Hl' & Hd); [simpl; lia|done|].
    simpl in Hs', Hp', Hl', Hd, Hx. erewrite bind_ok; [|run_monad; exact Hrun']. exists copies, s'. split_and!; try done; [|by rewrite Hx].
    split; try done; rewrite ?Hs', ?Hp', ?Hl'; done.
Qed.

Lemma mark_spec rs s :
  (for_each rs (fun x : string * Z => modify (fun s : Sched P => set_last (<[x.1 := s.(sched_step_seq)]> s.(last_sched_seq)) s))) s
  = (Ok tt, set_last (foldl (fun l x => <[x.1 := s.(sched_step_seq)]> l) s.(last_sched_seq) rs) s).
Proof. revert s. induction rs as [|x rs IH]; intros s; cbn [for_each]; [by destruct s|]. run_monad. by rewrite IH. Qed.

Lemma foldl_insert_bound (rs : list (string * Z)) k (l : gmap string Z) :
  (forall rid v, l !! rid = Some v -> v <= k) ->
  forall rid v, foldl (fun l x => <[x.1 := k]> l) l rs !! rid = Some v -> v <= k.
Proof.
  revert l. induction rs as [|x rs IH]; intros l Hl; simpl; [done|]. apply IH. intros rid v Hv.
  destruct (decide (x.1 = rid)) as [<-|Hne]; [rewrite lookup_insert_eq in Hv; simplify_eq; lia|].
  rewrite lookup_insert_ne in Hv by done. eauto.
Qed.

Lemma advance_spec rs s :
  SchedInv s -> exists s', advance_step defer rs s = (Ok tt, s') /\ SchedInv s' /\ s'.(kv) = s.(kv)
    /\ s'.(deferred_frees) = s.(deferred_frees) /\ s'.(processed_step_seq) = s.(processed_step_seq)
    /\ s.(sched_step_seq) <= s'.(sched_step_seq)
    /\ (defer = true -> s'.(sched_step_seq) = s.(sched_step_seq) + (if foldr Z.add 0 rs.*2 >? 0 then 1 else 0)).
Proof.
  intros [Hk Hf Hl Hp]. unfold advance_step. destruct defer; cbn [negb]; cbv iota.
  2:{ exists s. split_and!; done || lia. }
  assert (forall s1, s1.(kv) = s.(kv) -> s1.(deferred_frees) = s.(deferred_frees) -> s1.(processed_step_seq) = s.(processed_step_seq) ->
    s1.(last_sched_seq) = s.(last_sched_seq) -> s.(sched_step_seq) <= s1.(sched_step_seq) ->
    SchedInv (set_last (foldl (fun l x => <[x.1 := s1.(sched_step_seq)]> l) s1.(last_sched_seq) rs) s1)) as Hinv.
  { intros s1 E1 E2 E3 E4 Hle. split; simpl.
    - unfold waiting. simpl. rewrite E1, E2. done.
    - rewrite E2. eapply Forall_impl; [exact Hf|]. intros x Hx. simpl in Hx. lia.
    - apply foldl_insert_bound. rewrite E4. intros rid v Hv. specialize (Hl _ _ Hv). lia.
    - lia. }
  destruct (Z.gtb_spec (foldr Z.add 0 rs.*2) 0); run_monad; rewrite mark_spec; eexists; (split; [reflexivity|]);
    (split; [apply Hinv; simpl; done || lia|]); simpl; split_and!; try done; lia.
Qed.

Lemma process_spec total s :
  SchedInv s -> (defer = true -> 0 < total -> s.(processed_step_seq) < s.(sched_step_seq)) ->
  exists s', process_step defer total s = (Ok tt, s') /\ SchedInv s' /\ s'.(kv).2 = s.(kv).2
    /\ s'.(processed_step_seq) = s.(processed_step_seq) + (if defer && (total >? 0) then 1 else 0)
    /\ s'.(sched_step_seq) = s.(sched_step_seq)
    /\ exists l, s.(deferred_frees) = l ++ s'.(deferred_frees)
         /\ Forall (fun x => x.1 <= s'.(processed_step_seq)) l
         /\ (defer && (total >? 0) = true -> forall x, head s'.(deferred_frees) = Some x -> s'.(processed_step_seq) < x.1).
Proof.
  intros [Hk Hf Hl Hp] Hlt. unfold process_step. destruct (defer && (total >? 0)) eqn:Hc.
  2:{ exists s. split_and!; try done; [lia|]. exists []. by split_and!. }
  apply andb_true_iff in Hc as [Hd Ht]. apply Z.gtb_lt in Ht. specialize (Hlt Hd Ht). run_monad.
  unfold drain_deferred_frees. run_monad. unfold id. set (s1 := mkSched _ _ _ _ _).
  destruct (drain_spec (deferred_frees s1) s1 eq_refl Hk) as (s' & Hrun & Hi & Hx & Hp' & Hs' & Hl' & l & Hq & Hle & Hhd).
  exists s'. split_and!; try done; [|exists l; rewrite Hp'; by split_and!].
  split; rewrite ?Hs', ?Hp', ?Hl'; simpl; try done; [|lia].
  simpl in Hq. rewrite Hq in Hf. by apply Forall_app in Hf as [_ ?].
Qed.

(** ** Invariants of the steps *)

Lemma set_kv_inv s x : SchedInv s -> KVInv x (waiting s) -> SchedInv (set_kv x s).
Proof. intros [Hk Hf Hl Hp] Hx. by split. Qed.

Lemma sched_free_blocks_spec rid s s1 :
  free_request_blocks defer rid s = (Ok tt, s1) -> SchedInv s1 ->
  sched_free_blocks defer rid s = (Ok tt, set_last (delete rid s1.(last_sched_seq)) s1)
  /\ SchedInv (set_last (delete rid s1.(last_sched_seq)) s1).
Proof.
  intros Hrun [Hk Hf Hl Hp]. unfold sched_free_blocks. rewrite (bind_ok _ _ _ _ _ Hrun). split; [done|].
  split; try done. simpl. intros r k Hr. apply lookup_delete_Some in Hr as [_ Hr]. eauto.
Qed.

(** Queued blocks stay queued until a step at or past their fence was processed. *)
Definition queue_kept (s s' : Sched P) : Prop :=
  s.(processed_step_seq) <= s'.(processed_step_seq)
  /\ forall x, x ∈ s.(deferred_frees) -> s'.(processed_step_seq) < x.1 -> x ∈ s'.(deferred_frees).

#[global] Instance queue_kept_preorder : PreOrder queue_kept.
Proof.
  split; [by intros s; split|]. intros s1 s2 s3 [P1 Q1] [P2 Q2]. split; [lia|]. intros x Hx Hlt. apply Q2, Hlt. apply Q1; [done|lia].
Qed.

Lemma queue_appended s s' :
  s'.(processed_step_seq) = s.(processed_step_seq) -> (exists l, s'.(deferred_frees) = s.(deferred_frees) ++ l) -> queue_kept s s'.
Proof. intros Hp [l Hl]. split; [lia|]. intros x Hx _. rewrite Hl. apply elem_of_app. by left. Qed.

Lemma step_sound s s' : SchedInv s -> sched_step s s' -> SchedInv s' /\ queue_kept s s'.
Proof.
  intros Hi Hstep. pose proof (si_kv _ Hi) as Hk.
  destruct Hstep as [rq fresh nt nc ncb la ex delay full res hs r o x r' Ha Ho Hrun|rq n r o x r' Hrun|rid pr np o x Hpr Hnp Hrun
                    |rid o s' Hrun|rid o s' Hrun|o s' Hrun|rs o s' Hrs Hrun|total o s' Hlt Hrun].
  - split; [|by split]. apply set_kv_inv; [done|]. destruct (s.(kv)) as [p ms].
    destruct (allocate_slots_spec cfg rq fresh nt nc ncb la ex delay full res hs p ms r _ Hk Ha Ho) as (o' & p' & ms' & r2 & Hrun' & Hi' & _).
    rewrite Hrun in Hrun'. by simplify_eq.
  - split; [|by split]. apply set_kv_inv; [done|]. destruct (s.(kv)) as [p ms]. unfold kv_cache_blocks in Hrun.
    destruct (kv_enable_caching cfg); [|by injection Hrun as <- <- <-].
    pose proof (coord_cache_keeps cfg rq n p ms r) as [Hp Hs]. rewrite Hrun in Hp, Hs. destruct x. by eapply same_inv.
  - split; [|by split]. apply set_kv_inv; [done|]. destruct (s.(kv)) as [p ms].
    destruct (remove_stage rid pr np p ms _ Hk Hpr Hnp) as (p' & ms' & Hrun' & Hi' & _). rewrite Hrun in Hrun'. by simplify_eq.
  - destruct (free_request_spec rid s Hi) as (s1 & Hrun' & Hi1 & _ & Hp & _ & _ & Hd & _). rewrite Hrun in Hrun'. simplify_eq.
    split; [done|by apply queue_appended].
  - destruct (free_request_spec rid s Hi) as (s1 & Hrun' & Hi1 & _ & Hp & _ & _ & Hd & _).
    destruct (sched_free_blocks_spec rid s s1 Hrun' Hi1) as [Hrun2 Hi2]. rewrite Hrun in Hrun2. simplify_eq.
    split; [done|by apply queue_appended].
  - destruct (copies_step s Hi) as (c & s1 & Hrun' & Hi1 & _ & Hp & _ & Hd). rewrite Hrun in Hrun'. simplify_eq.
    split; [done|by apply queue_appended].
  - destruct (advance_spec rs s Hi) as (s1 & Hrun' & Hi1 & _ & Hd & Hp & _). rewrite Hrun in Hrun'. simplify_eq.
    split; [done|]. apply queue_appended; [done|]. exists []. by rewrite app_nil_r.
  - destruct (process_spec total s Hi Hlt) as (s1 & Hrun' & Hi1 & _ & Hp & _ & l & Hd & Hle & _). rewrite Hrun in Hrun'. simplify_eq.
    split; [done|]. split; [rewrite Hp; destruct (_ && _); lia|]. intros y Hy Hly. rewrite Hd in Hy.
    apply elem_of_app in Hy as [Hy|]; [|done]. eapply Forall_forall in Hle; [|exact Hy]. simpl in Hle. lia.
Qed.

Lemma steps_sound s s' : SchedInv s -> rtc sched_step s s' -> SchedInv s' /\ queue_kept s s'.
Proof.
  intros Hi Hsteps. induction Hsteps as [|s1 s2 s3 H1 _ IH]; [by split|]. destruct (step_sound _ _ Hi H1) as [Hi2 Hq].
  destruct (IH Hi2) as [Hi3 Hq']. split; [done|by etransitivity].
Qed.

(** ** The initial state *)

Definition init_sched (p : P) (ms : list Manager) : Sched P := mkSched (p, ms) [] 0 0 ∅.

Lemma init_inv p ms :
  pool_inv p -> (forall i n, pool_refs p !! i = Some (n, false) -> n = 0) -> Forall empty_manager ms -> SchedInv (init_sched p ms).
Proof. intros Hp Hz Hm. split; simpl; try done. by apply empty_inv. Qed.

(** The free blocks are those nobody holds. *)
Lemma free_count_unheld p L :
  accounts p L ->
  free_count (pool_refs p) = Z.of_nat (length (filter (fun b => b ∉ L) (seq 1 (length (pool_refs p) - 1)))).
Proof.
  intros Ha. apply free_count_list; [apply NoDup_filter, NoDup_seq|]. intros i. unfold unreferenced.
  rewrite list_elem_of_filter, elem_of_seq. split.
  - intros [Hin Hi]. destruct (lookup_lt_is_Some_2 (pool_refs p) i) as [[n z] Hx]; [lia|]. destruct z.
    + apply (pool_only_null p _ _ (ac_inv _ _ Ha)) in Hx. lia.
    + by rewrite Hx, (ac_count _ _ Ha _ _ Hx), occ_zero.
  - intros Hx. pose proof (lookup_lt_Some _ _ _ Hx). split.
    + intros Hin. apply occ_pos in Hin. pose proof (ac_count _ _ Ha _ _ Hx). lia.
    + destruct i as [|i]; [|lia]. destruct (pool_null p (ac_inv _ _ Ha)) as [n Hn]. congruence.
Qed.

Lemma filter_unheld (l : list nat) : filter (fun b => b ∉ ([] ++ [] : list nat)) l = l.
Proof. induction l as [|x l IH]; [done|]. rewrite filter_cons_True by apply not_elem_of_nil. by rewrite IH. Qed.

(** ** Guarantees *)

(** After any sequence of allocations, frees, preemptions, window removals,
    cache registrations, copy hand-overs and processed steps, from an empty pool, the
    reference count of every block is the number of times it occurs in block tables,
    pending copies and deferred frees, and the pool's free blocks are exactly the
    blocks that occur nowhere. *)
Theorem sched_blocks_accounted (p : P) (ms : list Manager) (s : Sched P) :
  pool_inv p -> (forall i n, pool_refs p !! i = Some (n, false) -> n = 0) -> Forall empty_manager ms ->
  rtc sched_step (init_sched p ms) s ->
  (forall b n, pool_refs s.(kv).1 !! b = Some (n, false) -> n = occ b (all_holds s.(kv).2) + occ b (waiting s))
  /\ pool_num_free s.(kv).1
     = Z.of_nat (length (filter (fun b => b ∉ all_holds s.(kv).2 ++ waiting s) (seq 1 (length (pool_refs s.(kv).1) - 1)))).
Proof.
  intros Hp Hz Hm Hsteps. destruct (steps_sound _ _ (init_inv p ms Hp Hz Hm) Hsteps) as [Hi _].
  pose proof (kv_accounts _ _ (si_kv _ Hi)) as Ha. split.
  - intros b n Hb. by rewrite <- occ_app, (ac_count _ _ Ha _ _ Hb).
  - rewrite (accounts_free _ _ Ha). by apply free_count_unheld.
Qed.

(** C23: Blocks of a request that is freed while a step that may write them is still
    running keep a reference, so they can neither be handed out nor evicted, through
    every later sequence of operations in which that step has not been processed. *)
Theorem deferred_blocks_survive (s s1 s2 : Sched P) (rid : string) (o : res unit) (b : nat) :
  SchedInv s -> defer = true -> s.(processed_step_seq) < default 0 (s.(last_sched_seq) !! rid) ->
  free_request_blocks defer rid s = (o, s1) -> rtc sched_step s1 s2 ->
  s2.(processed_step_seq) < default 0 (s.(last_sched_seq) !! rid) ->
  b ∈ blocks_held rid s.(kv).2 -> b <> null_block ->
  exists n, pool_refs s2.(kv).1 !! b = Some (n, false) /\ 0 < n.
Proof.
  intros Hi Hd Hlt Hrun Hsteps Hlt2 Hb Hne.
  destruct (free_request_spec rid s Hi) as (s1' & Hrun' & Hi1 & _ & _ & _ & _ & _ & Hq). rewrite Hrun in Hrun'. simplify_eq.
  assert (Hin : (s.(sched_step_seq), blocks_held rid s.(kv).2) ∈ deferred_frees s1').
  { apply Hq; [done|done|]. intros He. rewrite He in Hb. by apply elem_of_nil in Hb. }
  destruct (steps_sound _ _ Hi1 Hsteps) as [Hi2 [_ Hkept]]. pose proof (si_last _ Hi rid) as Hl.
  assert (Hin2 : (s.(sched_step_seq), blocks_held rid s.(kv).2) ∈ deferred_frees s2).
  { apply Hkept; [done|]. simpl. destruct (last_sched_seq s !! rid) as [k|] eqn:Hk; simpl in Hlt2; [specialize (Hl k eq_refl); lia|].
    pose proof (si_processed _ Hi2). lia. }
  apply (held_count _ _ _ (kv_accounts _ _ (si_kv _ Hi2))); [|done]. apply elem_of_app. right. unfold waiting.
  apply list_elem_of_In, in_concat. exists (blocks_held rid s.(kv).2).
  split; apply list_elem_of_In; [|done]. by apply (list_elem_of_fmap_2 snd) in Hin2.
Qed.

Lemma process_all_spec n s :
  SchedInv s -> defer = true -> Z.of_nat n <= s.(sched_step_seq) - s.(processed_step_seq) ->
  exists s', for_each (replicate n tt) (fun _ => process_step defer 1) s = (Ok tt, s') /\ SchedInv s'
    /\ s'.(kv).2 = s.(kv).2 /\ s'.(processed_step_seq) = s.(processed_step_seq) + Z.of_nat n
    /\ (exists l, s.(deferred_frees) = l ++ s'.(deferred_frees))
    /\ ((0 < n)%nat -> forall x, head s'.(deferred_frees) = Some x -> s'.(processed_step_seq) < x.1).
Proof.
  intros Hi Hd. revert s Hi. induction n as [|n IH]; intros s Hi Hn; cbn [replicate for_each].
  { exists s. split_and!; try done; [lia|by exists []|lia]. }
  destruct (process_spec 1 s Hi ltac:(lia)) as (s1 & Hrun & Hi1 & Hm & Hp & Hs & l & Hq & _ & Hhd). rewrite Hd in Hp, Hhd. simpl in Hp.
  rewrite (bind_ok _ _ _ _ _ Hrun). destruct (IH s1 Hi1 ltac:(lia)) as (s2 & Hrun2 & Hi2 & Hm2 & Hp2 & (l2 & Hq2) & Hhd2).
  exists s2. split_and!; try done; [congruence|lia|exists (l ++ l2); by rewrite Hq, Hq2, app_assoc|].
  intros _. destruct n as [|n]; [|apply Hhd2; lia]. simpl in Hrun2. injection Hrun2 as <-. by apply Hhd.
Qed.

(** C31: No block is lost: when another non-empty step is scheduled and every scheduled
    step has then been processed, every deferred block has been returned; if moreover no
    request holds blocks and no copy is pending, all blocks but the null block are free. *)
Theorem deferred_frees_complete (s : Sched P) (num_scheduled : list (string * Z)) :
  SchedInv s -> defer = true -> 0 < foldr Z.add 0 num_scheduled.*2 ->
  exists s', (advance_step defer num_scheduled ;;
              for_each (replicate (Z.to_nat (s.(sched_step_seq) + 1 - s.(processed_step_seq))) tt)
                (fun _ => process_step defer 1)) s = (Ok tt, s')
    /\ s'.(deferred_frees) = [] /\ s'.(kv).2 = s.(kv).2
    /\ (all_holds s.(kv).2 = [] -> pool_num_free s'.(kv).1 = Z.of_nat (length (pool_refs s'.(kv).1)) - 1).
Proof.
  intros Hi Hd Hpos. destruct (advance_spec num_scheduled s Hi) as (s1 & Hrun & Hi1 & Hkv & Hq & Hp & _ & Hs).
  specialize (Hs Hd). rewrite (proj2 (Z.gtb_lt _ _)) in Hs by lia. rewrite (bind_ok _ _ _ _ _ Hrun). pose proof (si_processed _ Hi).
  destruct (process_all_spec (Z.to_nat (s.(sched_step_seq) + 1 - s.(processed_step_seq))) s1 Hi1 Hd ltac:(lia))
    as (s' & Hrun' & Hi' & Hm & Hp' & (l & Hl) & Hhd). exists s'.
  assert (He : deferred_frees s' = []).
  { destruct (deferred_frees s') as [|x q] eqn:Hx; [done|]. specialize (Hhd ltac:(lia) x eq_refl).
    pose proof (si_fences _ Hi) as Hf. rewrite <- Hq, Hl in Hf. apply Forall_app in Hf as [_ Hf]. apply Forall_inv in Hf. lia. }
  split_and!; [done|done|by rewrite Hm, Hkv|]. intros Hnone. pose proof (kv_accounts _ _ (si_kv _ Hi')) as Ha.
  assert (Hw : waiting s' = []) by (unfold waiting; by rewrite He). rewrite Hw, Hm, Hkv, Hnone in Ha.
  rewrite (accounts_free _ _ Ha), (free_count_unheld _ _ Ha), filter_unheld, length_seq.
  destruct (pool_null _ (ac_inv _ _ Ha)) as [n Hn]. apply lookup_lt_Some in Hn. simpl in Hn. lia.
Qed.
End machine.

(** ** A request preempted while its step is running *)

#[local] Instance sched_demo_ops : PoolOps BlockPool := block_pool_ops id false elements.
#[local] Instance sched_demo_laws : PoolLaws BlockPool := block_pool_laws id false elements elements_order any_pool any_pool_cfg.

(** Request a holds blocks, and step 1 with two of its tokens is on the device. *)
Definition sched_demo_running : Sched BlockPool :=
  (advance_step true [("a"%string, 2)] (set_kv kv_demo_served (init_sched kv_demo_pool kv_demo_mgrs))).2.

(** It is preempted before the step was processed. *)
Definition sched_demo_preempted : Sched BlockPool := (free_request_blocks true "a" sched_demo_running).2.

Lemma sched_demo_steps : rtc (sched_step kv_demo_cfg true) (init_sched kv_demo_pool kv_demo_mgrs) sched_demo_running.
Proof.
  eapply rtc_l; [|eapply rtc_once].
  - eapply (step_allocate kv_demo_cfg true (init_sched kv_demo_pool kv_demo_mgrs) (kv_demo_req 0) true 2 3 kv_demo_hits 0 0 true false 0 false kv_demo_tokens);
      [apply kv_demo_args; lia|apply kv_demo_offer|].
    match goal with |- ?X = _ => rewrite (surjective_pairing X), (surjective_pairing X.2) end. reflexivity.
  - eapply (step_advance kv_demo_cfg true _ [("a"%string, 2)]); [repeat constructor; simpl; lia|]. apply surjective_pairing.
Qed.

Lemma sched_demo_inv : SchedInv sched_demo_running.
Proof.
  refine (proj1 (steps_sound kv_demo_cfg true _ _ _ sched_demo_steps)).
  apply init_inv; [apply kv_demo_pool_inv|apply kv_demo_unused|apply kv_demo_empty].
Qed.

Lemma sched_blocks_accounted_witness :
  (forall b n, pool_refs sched_demo_running.(kv).1 !! b = Some (n, false) ->
     n = occ b (all_holds sched_demo_running.(kv).2) + occ b (waiting sched_demo_running))
  /\ pool_num_free sched_demo_running.(kv).1
     = Z.of_nat (length (filter (fun b => b ∉ all_holds sched_demo_running.(kv).2 ++ waiting sched_demo_running)
                           (seq 1 (length (pool_refs sched_demo_running.(kv).1) - 1)))).
Proof.
  apply (sched_blocks_accounted kv_demo_cfg true kv_demo_pool kv_demo_mgrs sched_demo_running);
    [apply kv_demo_pool_inv|apply kv_demo_unused|apply kv_demo_empty|apply sched_demo_steps].
Defined.

Lemma deferred_blocks_survive_witness :
  exists n, pool_refs (hand_over_copies true sched_demo_preempted).2.(kv).1 !! 1%nat = Some (n, false) /\ 0 < n.
Proof.
  apply (deferred_blocks_survive kv_demo_cfg true sched_demo_running sched_demo_preempted
           (hand_over_copies true sched_demo_preempted).2 "a" (free_request_blocks true "a" sched_demo_running).1 1%nat).
  - apply sched_demo_inv.
  - reflexivity.
  - by vm_compute.
  - apply surjective_pairing.
  - apply rtc_once. eapply step_copies. apply surjective_pairing.
  - by vm_compute.
  - apply (bool_decide_unpack _). by vm_compute.
  - done.
Defined.

(** All its blocks and the endpoints of its pending copies wait for their fences. *)
Definition sched_demo_waiting : Sched BlockPool := (hand_over_copies true sched_demo_preempted).2.

Lemma sched_demo_waiting_inv : SchedInv sched_demo_waiting.
Proof.
  refine (proj1 (steps_sound kv_demo_cfg true sched_demo_running _ sched_demo_inv _)).
  eapply rtc_l; [|eapply rtc_once].
  - eapply (step_preempt _ _ _ "a"). apply surjective_pairing.
  - eapply step_copies. apply surjective_pairing.
Qed.

Lemma deferred_frees_complete_witness :
  (length (waiting sched_demo_waiting) = 9%nat)
  /\ exists s', (advance_step true [("b"%string, 1)] ;;
              for_each (replicate (Z.to_nat (sched_demo_waiting.(sched_step_seq) + 1 - sched_demo_waiting.(processed_step_seq))) tt)
                (fun _ => process_step true 1)) sched_demo_waiting = (Ok tt, s')
    /\ s'.(deferred_frees) = [] /\ s'.(kv).2 = sched_demo_waiting.(kv).2
    /\ (all_holds sched_demo_waiting.(kv).2 = [] ->
        pool_num_free s'.(kv).1 = Z.of_nat (length (pool_refs s'.(kv).1)) - 1).
Proof.
  split; [by vm_compute|].
  apply (deferred_frees_complete true sched_demo_waiting [("b"%string, 1)]);
    [apply sched_demo_waiting_inv|reflexivity|by vm_compute].
Defined.
