(* ===== verification/KVarNTiles.v ===== *)
(** * KVarN tile lifecycle

    Models the slot allocator of [KVarNMetadataBuilder.build] in
    [vllm/v1/attention/backends/kvarn_attn.py], the mirrors kept by
    [_ensure_pool], the flush [_batched_flush] and the store kernel behind
    [do_kv_cache_update].

    A tile row is either resident, with a slot of the fp16 tail pool, or lives as
    a packed record in the quantised cache.  A step first decides which tiles need
    slots, marks sinks, revives retired sinks, then (engine builds only) queues
    committed tiles for flushing and reclaims the tiles of finished requests, and
    finally allocates.  Each phase is one definition; [build] composes them in the
    source's order.

    The pool holds token rows of an abstract type; [pack] stands for the
    quantisation of a whole tile, so every statement holds for any codec. *)

From S2P Require Import Prelude.

(** ** State *)

Record Layer (Tok Rec : Type) := mkLayer {
  in_builder : bool;        (* the layer's name is in this builder's set *)
  tail_pool : list (list Tok);
  has_kv_cache_ref : bool;
  kv_cache : gmap Z Rec;
}.
Arguments mkLayer {Tok Rec}.
Arguments in_builder {Tok Rec}.
Arguments tail_pool {Tok Rec}.
Arguments has_kv_cache_ref {Tok Rec}.
Arguments kv_cache {Tok Rec}.

(** The allocator of one KV-cache group with its GPU mirrors and its layers. *)
Record TileState (Tok Rec : Type) := mkTiles {
  dict_map : list (Z * Z);        (* tile row -> slot *)
  free_slots : list Z;            (* a stack: popped at the end *)
  sinks : gset Z;
  retired_sinks : list Z;         (* keys of a dict, oldest first *)
  block_fill : gmap Z Z;
  b2s_t : list Z;                 (* mirror of [dict_map], -1 = no slot *)
  is_sink_t : list bool;          (* mirror of [sinks] *)
  max_known : Z;
  pool_size : Z;
  layers : list (Layer Tok Rec);
}.
Arguments mkTiles {Tok Rec}.
Arguments dict_map {Tok Rec}.
Arguments free_slots {Tok Rec}.
Arguments sinks {Tok Rec}.
Arguments retired_sinks {Tok Rec}.
Arguments block_fill {Tok Rec}.
Arguments b2s_t {Tok Rec}.
Arguments is_sink_t {Tok Rec}.
Arguments max_known {Tok Rec}.
Arguments pool_size {Tok Rec}.
Arguments layers {Tok Rec}.

(** What a step brings: lengths, block table and slot mapping of the batch. *)
Record Batch := mkBatch {
  seq_lens : list Z;
  query_lens : list Z;
  block_table : list (list Z);
  bt_cols : Z;
  slot_mapping : list Z;
  fast_build : bool;
}.

(** Rows [(seq_len, query_len, block-table row)] for [b < min(B, bt_rows)]. *)
Definition batch_rows (c : Batch) : list (Z * Z * list Z) :=
  imap (fun b x => (x.1, default 1 (c.(query_lens) !! b), x.2)) (zip c.(seq_lens) c.(block_table)).

(** Guarded element assignment [if i < t.shape[0]: t[i] = v]. *)
Definition tensor_set {A : Type} (t : list A) (i : Z) (v : A) : list A := <[Z.to_nat i := v]> t.

Set Default Proof Using "Type".

Section tiles.
Context {Tok Rec : Type}.
Notation state := (TileState Tok Rec).
Notation layer := (Layer Tok Rec).
Notation tileM := (M state).

(** The codec, the tile size, the tiles per vLLM block, and whether the allocator is
    shared with draft builders. *)
Context (pack : list Tok -> Rec) (GROUP tpr : Z) (mtp_full : bool).

Definition set_slots (d : list (Z * Z)) (f : list Z) (st : state) : state :=
  mkTiles d f st.(sinks) st.(retired_sinks) st.(block_fill) st.(b2s_t) st.(is_sink_t)
    st.(max_known) st.(pool_size) st.(layers).

Definition set_sinks (s : gset Z) (t : list bool) (st : state) : state :=
  mkTiles st.(dict_map) st.(free_slots) s st.(retired_sinks) st.(block_fill) st.(b2s_t) t
    st.(max_known) st.(pool_size) st.(layers).

Definition set_retired (r : list Z) (st : state) : state :=
  mkTiles st.(dict_map) st.(free_slots) st.(sinks) r st.(block_fill) st.(b2s_t) st.(is_sink_t)
    st.(max_known) st.(pool_size) st.(layers).

Definition set_fill (m : gmap Z Z) (st : state) : state :=
  mkTiles st.(dict_map) st.(free_slots) st.(sinks) st.(retired_sinks) m st.(b2s_t) st.(is_sink_t)
    st.(max_known) st.(pool_size) st.(layers).

Definition set_b2s (t : list Z) (st : state) : state :=
  mkTiles st.(dict_map) st.(free_slots) st.(sinks) st.(retired_sinks) st.(block_fill) t st.(is_sink_t)
    st.(max_known) st.(pool_size) st.(layers).

Definition set_max_known (n : Z) (st : state) : state :=
  mkTiles st.(dict_map) st.(free_slots) st.(sinks) st.(retired_sinks) st.(block_fill) st.(b2s_t)
    st.(is_sink_t) n st.(pool_size) st.(layers).

Definition set_layers (ls : list layer) (st : state) : state :=
  mkTiles st.(dict_map) st.(free_slots) st.(sinks) st.(retired_sinks) st.(block_fill) st.(b2s_t)
    st.(is_sink_t) st.(max_known) st.(pool_size) ls.

(** ** Which tiles need slots *)

Definition committed (sl q_len : Z) : Z := Z.max (sl - q_len) 0.

(** Tile [t] of a request lives in vLLM block [t // tpr] at offset [t % tpr];
    [None] for padding. *)
Definition tile_row (row : list Z) (t : Z) : res (option Z) :=
  match row !! Z.to_nat (t / tpr) with
  | None => Raise IndexError
  | Some vbid => Ok (if vbid <? 0 then None else Some (vbid * tpr + t mod tpr))
  end.

Definition fill_after (sl t : Z) : Z := Z.min sl ((t + 1) * GROUP) - t * GROUP.

(** Tiles [t, t + 1, ..., t + n - 1]. *)
Fixpoint mark_written (n : nat) (t sl : Z) (row : list Z) (acc : gset Z * gmap Z Z)
    : res (gset Z * gmap Z Z) :=
  match n with
  | O => Ok acc
  | S n' =>
      let? o := tile_row row t in
      mark_written n' (t + 1) sl row
        (match o with
         | None => acc
         | Some tr => ({[tr]} ∪ acc.1, <[tr := fill_after sl t]> acc.2)
         end)
  end.

Definition first_written (sl q_len : Z) : Z := committed sl q_len / GROUP.

Definition end_written (cols sl : Z) : Z := Z.min ((sl + GROUP - 1) / GROUP) (cols * tpr).

Fixpoint written_rows (cols : Z) (rows : list (Z * Z * list Z)) (acc : gset Z * gmap Z Z)
    : res (gset Z * gmap Z Z) :=
  match rows with
  | [] => Ok acc
  | (sl, q_len, row) :: rows' =>
      if (cols =? 0) || (sl <=? 0) then written_rows cols rows' acc else
      let lo := first_written sl q_len in
      let? acc' := mark_written (Z.to_nat (end_written cols sl - lo)) lo sl row acc in
      written_rows cols rows' acc'
  end.

Definition slot_tiles (sm : list Z) (needed : gset Z) : gset Z :=
  foldl (fun s x => if 0 <=? x then {[x / GROUP]} ∪ s else s) needed sm.

Definition blocks_written (c : Batch) (fill : gmap Z Z) : res (gset Z * gmap Z Z) :=
  let? r := written_rows c.(bt_cols) (batch_rows c) (∅, fill) in
  Ok (slot_tiles c.(slot_mapping) r.1, r.2).

(** ** Mirrors ([_ensure_pool]) *)

Definition ensure_mirrors (num_blocks_hint : Z) (st : state) : state :=
  let num_blocks := Z.max (Z.max num_blocks_hint (st.(max_known) + 1)) 1024 in
  if Z.of_nat (length st.(b2s_t)) <? num_blocks then
    let n := Z.to_nat num_blocks in
    let t := foldl (fun t x => tensor_set t x.1 x.2) (replicate n (-1)) st.(dict_map) in
    let z := foldl (fun t x => tensor_set t x true) (replicate n false) (elements st.(sinks)) in
    set_sinks st.(sinks) z (set_b2s t st)
  else st.

(** [max(blocks_needed, default=0) + 1] *)
Definition needed_hint (needed : gset Z) : Z := foldr Z.max 0 (elements needed) + 1.

(** ** Sinks *)

Definition sink_step (acc : state * gset Z * gset Z) (r : Z * Z * list Z) : state * gset Z * gset Z :=
  let '(st, needed, row0) := acc in
  match head r.2 with
  | None => acc
  | Some s0v =>
      if s0v <? 0 then acc else
      let s0 := s0v * tpr in
      let row0' := {[s0]} ∪ row0 in
      if decide (s0 ∈ st.(sinks)) then (st, {[s0]} ∪ needed, row0')
      else if decide (s0 ∈ needed) then
        (set_sinks ({[s0]} ∪ st.(sinks)) (tensor_set st.(is_sink_t) s0 true) st, needed, row0')
      else (st, needed, row0')
  end.

Definition mark_sinks (cols : Z) (rows : list (Z * Z * list Z)) (needed : gset Z) (st : state)
    : state * gset Z * gset Z :=
  if cols =? 0 then (st, needed, ∅) else foldl sink_step (st, needed, ∅) rows.

(** [sinks.discard(bid)] and its mirror, where [bid] is a sink. *)
Definition unsink (bid : Z) (st : state) : state :=
  if decide (bid ∈ st.(sinks)) then
    set_sinks (st.(sinks) ∖ {[bid]}) (tensor_set st.(is_sink_t) bid false) st
  else st.

Definition unretire_step (row0 : gset Z) (st : state) (bid : Z) : state :=
  let st := set_retired (filter (fun x => x <> bid) st.(retired_sinks)) st in
  if decide (bid ∉ row0) then unsink bid st else st.

Definition unretire (needed row0 : gset Z) (st : state) : state :=
  foldl (unretire_step row0) st (filter (fun b => b ∈ needed) st.(retired_sinks)).

(** ** Flush detection *)

(** The walk back from tile [t]: [(flush_block_ids, flush_seen)]. *)
Fixpoint walk_row (row : list Z) (t : nat) (st : state) (acc : list Z * gset Z)
    : res (list Z * gset Z) :=
  match t with
  | O => Ok acc
  | S t' =>
      let? o := tile_row row (Z.of_nat t) in
      match o with
      | None => Ok acc
      | Some tr =>
          if decide (tr ∈ acc.2 \/ tr ∈ st.(sinks) \/ tr ∉ st.(dict_map).*1) then Ok acc
          else walk_row row t' st (acc.1 ++ [tr], {[tr]} ∪ acc.2)
      end
  end.

Fixpoint walk_rows (rows : list (Z * Z * list Z)) (st : state) (acc : list Z * gset Z)
    : res (list Z * gset Z) :=
  match rows with
  | [] => Ok acc
  | (sl, q_len, row) :: rows' =>
      if sl <=? 0 then walk_rows rows' st acc else
      let? acc' := walk_row row (Z.to_nat (committed sl q_len / GROUP - 1)) st acc in
      walk_rows rows' st acc'
  end.

Definition walk_back (c : Batch) (st : state) : res (list Z * gset Z) :=
  if c.(bt_cols) =? 0 then Ok ([], ∅) else walk_rows (batch_rows c) st ([], ∅).

(** ** Reclaim *)

Definition is_full (st : state) (bid : Z) : bool := GROUP <=? default 0 (st.(block_fill) !! bid).

(** One tile of a finished request: retired, queued for flushing, or discarded.
    The accumulator is [(state, flush_block_ids, discard_ids)]. *)
Definition reclaim_step (acc : state * list Z * list Z) (bid : Z) : state * list Z * list Z :=
  let '(st, flush, discard) := acc in
  if is_full st bid && bool_decide (bid ∈ st.(sinks)) then
    (set_retired (if decide (bid ∈ st.(retired_sinks)) then st.(retired_sinks)
                  else st.(retired_sinks) ++ [bid]) st, flush, discard)
  else if is_full st bid then (unsink bid st, flush ++ [bid], discard)
  else (unsink bid st, flush, discard ++ [bid]).

Definition reclaim (needed : gset Z) (flush : list Z * gset Z) (st : state)
    : state * list Z * list Z :=
  foldl reclaim_step (st, flush.1, [])
    (filter (fun b => b ∉ needed /\ b ∉ flush.2) st.(dict_map).*1).

(** ** Flush and release *)

(** [range(0, len(l), k)] chunks of [l] (fuel: its length). *)
Fixpoint chunks {A : Type} (fuel k : nat) (l : list A) : list (list A) :=
  match fuel, l with
  | O, _ | _, [] => []
  | S f, _ => take k l :: chunks f k (drop k l)
  end.

Definition write_tile (ly : layer) (x : Z * Z) : layer :=
  match ly.(tail_pool) !! Z.to_nat x.2 with
  | Some tile => mkLayer ly.(in_builder) ly.(tail_pool) ly.(has_kv_cache_ref)
                   (<[x.1 := pack tile]> ly.(kv_cache))
  | None => ly
  end.

(** The vectorised flush of one layer: the tiles with a slot, chunk by chunk. *)
Definition flush_layer (chunk_blocks : nat) (d : list (Z * Z)) (ids : list Z) (ly : layer) : layer :=
  let pairs := omap (fun bid => (fun s => (bid, s)) <$> dict_get d bid) ids in
  foldl (foldl write_tile) ly (chunks (length pairs) chunk_blocks pairs).

(** All layers of the group with a shared allocator, else this builder's; only
    those whose cache is known. *)
Definition flushed_now (ly : layer) : bool := (mtp_full || ly.(in_builder)) && ly.(has_kv_cache_ref).

Definition batched_flush (chunk_blocks : nat) (ids : list Z) (st : state) : state :=
  set_layers ((fun ly => if flushed_now ly then flush_layer chunk_blocks st.(dict_map) ids ly else ly)
                <$> st.(layers)) st.

(** Give the slot of [bid] back. *)
Definition release (st : state) (bid : Z) : state :=
  match dict_get st.(dict_map) bid with
  | None => set_fill (delete bid st.(block_fill)) st
  | Some slot =>
      set_b2s (tensor_set st.(b2s_t) bid (-1))
        (set_fill (delete bid st.(block_fill))
           (set_slots (dict_pop st.(dict_map) bid) (st.(free_slots) ++ [slot]) st))
  end.

Definition flush_and_release (chunk_blocks : nat) (ids : list Z) (st : state) : state :=
  match ids with
  | [] => st
  | _ => foldl release (batched_flush chunk_blocks ids st) ids
  end.

(** ** Allocation *)

(** [next(iter(self._retired_sinks))] is flushed and gives up its slot. *)
Definition evict_oldest (chunk_blocks : nat) (st : state) : state :=
  match st.(retired_sinks) with
  | [] => st
  | old :: rest =>
      let st := batched_flush chunk_blocks [old] (set_retired rest st) in
      let st' := release st old in
      set_b2s (tensor_set st'.(b2s_t) old (-1))
        (set_sinks (st'.(sinks) ∖ {[old]}) (tensor_set st'.(is_sink_t) old false) st')
  end.

Definition allocate_one (chunk_blocks : nat) (bid : Z) : tileM unit :=
  st <- gets id ;;
  if decide (bid ∈ st.(dict_map).*1) then ret tt else
  (match st.(free_slots) with
   | [] => modify (evict_oldest chunk_blocks)
   | _ => ret tt
   end) ;;
  st <- gets id ;;
  match last st.(free_slots) with
  | None => raise RuntimeError
  | Some slot =>
      modify (fun st => set_max_known (Z.max st.(max_known) bid)
                          (set_b2s (tensor_set st.(b2s_t) bid slot)
                             (set_slots (dict_set st.(dict_map) bid slot)
                                (removelast st.(free_slots)) st)))
  end.

(** [set_order] is the iteration order of a Python set. *)
Definition allocate (set_order : gset Z -> list Z) (chunk_blocks : nat) (needed : gset Z) : tileM unit :=
  for_each (set_order needed) (allocate_one chunk_blocks).

(** ** The step *)

(** Phases (1)-(2b) and the release of slots, up to allocation. *)
Definition engine_phase (chunk_blocks : nat) (c : Batch) (needed : gset Z) (st : state) : res state :=
  if c.(fast_build) && mtp_full then Ok st else
  let? queued := walk_back c st in
  let '(st, flush, discard) := reclaim needed queued st in
  Ok (foldl release (flush_and_release chunk_blocks flush st) discard).

Definition build (set_order : gset Z -> list Z) (chunk_blocks : nat) (c : Batch) : tileM unit :=
  st <- gets id ;;
  '(needed, fill) <- lift (blocks_written c st.(block_fill)) ;;
  modify (set_fill fill) ;;
  if negb (existsb in_builder st.(layers)) then ret tt else
  modify (ensure_mirrors (needed_hint needed)) ;;
  st <- gets id ;;
  let '(st1, needed1, row0) := mark_sinks c.(bt_cols) (batch_rows c) needed st in
  let st2 := unretire needed1 row0 st1 in
  modify (fun _ => st2) ;;
  st3 <- lift (engine_phase chunk_blocks c needed1 st2) ;;
  modify (fun _ => st3) ;;
  allocate set_order chunk_blocks needed1.

(** [_ensure_pool] on first use: all slots free, no tile resident. *)
Definition new_tiles (n : Z) (ls : list layer) : state :=
  mkTiles [] (reverse (seqZ 0 n)) ∅ [] ∅ [] [] 0 n ls.

(** ** Store and read *)

(** One token of [_kvarn_scatter_store_kernel]. *)
Definition store_token (t : list Z) (pool : list (list Tok)) (x : Z * Tok) : list (list Tok) :=
  let '(sm, tok) := x in
  if sm <? 0 then pool else
  match t !! Z.to_nat (sm / GROUP) with
  | None => pool
  | Some slot =>
      if slot <? 0 then pool
      else alter (fun tile => <[Z.to_nat (sm mod GROUP) := tok]> tile) (Z.to_nat slot) pool
  end.

(** The launch over all tokens; the tokens are the rotated key and value rows. *)
Definition scatter_store (sm : list Z) (toks : list Tok) (t : list Z) (ly : layer) : layer :=
  mkLayer ly.(in_builder) (foldl (store_token t) ly.(tail_pool) (zip sm toks))
    ly.(has_kv_cache_ref) ly.(kv_cache).

(** The store of layer [i], whose cache has [num_blocks] tile rows. *)
Definition do_kv_cache_update (num_blocks : Z) (sm : list Z) (toks : list Tok) (i : nat) (st : state) : state :=
  match sm with
  | [] => st
  | _ => let st := ensure_mirrors num_blocks st in
         set_layers (alter (scatter_store sm toks st.(b2s_t)) i st.(layers)) st
  end.

(** Where a kernel finds tile row [tr]: fp16 rows in the pool, or a packed record. *)
Definition read_tile (st : state) (ly : layer) (tr : Z) : option (list Tok + Rec) :=
  match st.(b2s_t) !! Z.to_nat tr with
  | Some slot =>
      if 0 <=? slot then inl <$> ly.(tail_pool) !! Z.to_nat slot else inr <$> ly.(kv_cache) !! tr
  | None => inr <$> ly.(kv_cache) !! tr
  end.

(** ** Invariant *)

Definition mirror_ok (d : list (Z * Z)) (t : list Z) : Prop :=
  forall b, 0 <= b < Z.of_nat (length t) -> t !! Z.to_nat b = Some (default (-1) (dict_get d b)).

Definition sink_mirror_ok (s : gset Z) (t : list bool) : Prop :=
  forall b, 0 <= b < Z.of_nat (length t) -> t !! Z.to_nat b = Some (bool_decide (b ∈ s)).

(** [N] is the set of tiles that need a slot in the current step (empty between
    steps): a sink may wait for its slot, a retired sink may be about to revive. *)
Record TileInv (N : gset Z) (st : state) : Prop := {
  ti_keys : NoDup st.(dict_map).*1;
  ti_slots : st.(free_slots) ++ st.(dict_map).*2 ≡ₚ seqZ 0 st.(pool_size);
  ti_mirror : mirror_ok st.(dict_map) st.(b2s_t);
  ti_sink_mirror : sink_mirror_ok st.(sinks) st.(is_sink_t);
  ti_lens : length st.(is_sink_t) = length st.(b2s_t);
  ti_range : forall b, b ∈ st.(dict_map).*1 -> 0 <= b <= st.(max_known);
  ti_nodup : NoDup st.(retired_sinks);
  ti_retired : forall b, b ∈ st.(retired_sinks) ->
    b ∈ st.(sinks) /\ b ∈ st.(dict_map).*1 /\ (b ∈ N \/ is_full st b = true);
  ti_sinks : forall b, b ∈ st.(sinks) -> b ∈ st.(dict_map).*1 \/ b ∈ N;
}.

(** The mirrors cover every tile that has or needs a slot. *)
Definition covered (N : gset Z) (st : state) : Prop :=
  st.(max_known) < Z.of_nat (length st.(b2s_t))
  /\ forall b, b ∈ N -> 0 <= b < Z.of_nat (length st.(b2s_t)).

Lemma tensor_set_lookup {A} (t : list A) i j v :
  0 <= i < Z.of_nat (length t) -> 0 <= j ->
  tensor_set t i v !! Z.to_nat j = if decide (j = i) then Some v else t !! Z.to_nat j.
Proof.
  intros Hi Hj. unfold tensor_set. destruct (decide (j = i)) as [->|Hne].
  - apply list_lookup_insert_eq. lia.
  - apply list_lookup_insert_ne. lia.
Qed.

Lemma tensor_set_length {A} (t : list A) i v : length (tensor_set t i v) = length t.
Proof. apply length_insert. Qed.

Lemma mirror_pop d t b :
  0 <= b < Z.of_nat (length t) -> mirror_ok d t -> mirror_ok (dict_pop d b) (tensor_set t b (-1)).
Proof.
  intros Hb Hm x. rewrite tensor_set_length. intros Hx.
  rewrite tensor_set_lookup, dict_get_pop by lia. destruct (decide (x = b)); [done|by apply Hm].
Qed.

Lemma mirror_set d t b s :
  0 <= b < Z.of_nat (length t) -> mirror_ok d t -> mirror_ok (dict_set d b s) (tensor_set t b s).
Proof.
  intros Hb Hm x. rewrite tensor_set_length. intros Hx.
  rewrite tensor_set_lookup, dict_get_set by lia. destruct (decide (x = b)); [done|by apply Hm].
Qed.

Lemma sink_mirror_add s t b :
  0 <= b < Z.of_nat (length t) -> sink_mirror_ok s t -> sink_mirror_ok ({[b]} ∪ s) (tensor_set t b true).
Proof.
  intros Hb Hm x. rewrite tensor_set_length. intros Hx. rewrite tensor_set_lookup by lia.
  destruct (decide (x = b)) as [->|Hne].
  - by rewrite bool_decide_eq_true_2 by set_solver.
  - rewrite Hm by done. f_equal. apply bool_decide_ext. set_solver.
Qed.

Lemma sink_mirror_del s t b :
  0 <= b < Z.of_nat (length t) -> sink_mirror_ok s t -> sink_mirror_ok (s ∖ {[b]}) (tensor_set t b false).
Proof.
  intros Hb Hm x. rewrite tensor_set_length. intros Hx. rewrite tensor_set_lookup by lia.
  destruct (decide (x = b)) as [->|Hne].
  - by rewrite bool_decide_eq_false_2 by set_solver.
  - rewrite Hm by done. f_equal. apply bool_decide_ext. set_solver.
Qed.

(** *** Mirrors *)

Lemma mirror_rebuild d d0 t :
  mirror_ok d0 t -> NoDup (d0 ++ d).*1 -> (forall b, b ∈ d.*1 -> 0 <= b < Z.of_nat (length t)) ->
  mirror_ok (d0 ++ d) (foldl (fun t x => tensor_set t x.1 x.2) t d).
Proof.
  revert d0 t. induction d as [|[k v] d IH]; intros d0 t Hm Hnd Hr; [by rewrite app_nil_r|].
  cbn [foldl fst snd]. rewrite cons_middle, app_assoc in Hnd |- *. apply IH.
  - rewrite <- dict_set_new; [|].
    + apply mirror_set; [|done]. apply Hr. by left.
    + rewrite !fmap_app in Hnd. apply NoDup_app in Hnd as (Hnd & _ & _).
      apply NoDup_app in Hnd as (_ & Hd & _). intros Hk. apply (Hd k Hk). by left.
  - done.
  - intros b Hb. rewrite tensor_set_length. apply Hr. by right.
Qed.

Lemma sink_mirror_rebuild l s t :
  sink_mirror_ok s t -> (forall b, b ∈ l -> 0 <= b < Z.of_nat (length t)) ->
  sink_mirror_ok (list_to_set l ∪ s) (foldl (fun t x => tensor_set t x true) t l).
Proof.
  revert s t. induction l as [|x l IH]; intros s t Hm Hr; cbn [foldl].
  - intros b Hb. rewrite Hm by done. f_equal. apply bool_decide_ext. set_solver.
  - assert (Hx : sink_mirror_ok (list_to_set l ∪ ({[x]} ∪ s))
              (foldl (fun t x => tensor_set t x true) (tensor_set t x true) l)).
    { apply IH; [|intros b Hb; rewrite tensor_set_length; apply Hr; by right].
      apply sink_mirror_add; [|done]. apply Hr. by left. }
    intros b Hb. rewrite Hx by done. f_equal. apply bool_decide_ext. set_solver.
Qed.

Lemma foldl_tensor_length {A B} (f : B -> Z) (g : B -> A) (l : list B) (t : list A) :
  length (foldl (fun t x => tensor_set t (f x) (g x)) t l) = length t.
Proof. revert t. induction l as [|x l IH]; intros t; [done|]. cbn [foldl]. by rewrite IH, tensor_set_length. Qed.

(** Everything but the mirrors. *)
Definition same_tiles (st st' : state) : Prop :=
  st'.(dict_map) = st.(dict_map) /\ st'.(free_slots) = st.(free_slots) /\ st'.(sinks) = st.(sinks)
  /\ st'.(retired_sinks) = st.(retired_sinks) /\ st'.(block_fill) = st.(block_fill)
  /\ st'.(max_known) = st.(max_known) /\ st'.(pool_size) = st.(pool_size) /\ st'.(layers) = st.(layers).

Lemma ensure_mirrors_spec N hint st :
  TileInv N st -> (forall b, b ∈ N -> 0 <= b < hint) ->
  let st' := ensure_mirrors hint st in
  TileInv N st' /\ covered N st' /\ same_tiles st st'.
Proof.
  intros Hinv HN st'. unfold st', ensure_mirrors. set (nb := Z.max _ 1024).
  destruct (Z.ltb_spec (Z.of_nat (length (b2s_t st))) nb) as [Hlt|Hge].
  2:{ split_and!; try done. split; [lia|]. intros b Hb. specialize (HN b Hb). lia. }
  set (t := foldl (fun t x => tensor_set t x.1 x.2) _ _).
  set (z := foldl (fun t x => tensor_set t x true) _ _).
  assert (Ht : length t = Z.to_nat nb).
  { unfold t. rewrite (foldl_tensor_length fst snd). apply length_replicate. }
  assert (Hz : length z = Z.to_nat nb).
  { unfold z. rewrite (foldl_tensor_length id (fun _ => true)). apply length_replicate. }
  assert (Hkr : forall b, b ∈ (dict_map st).*1 -> 0 <= b < nb).
  { intros b Hb. pose proof (ti_range _ _ Hinv b Hb). lia. }
  split_and!; [|split; simpl; [lia|intros b Hb; specialize (HN b Hb); lia]|done..].
  destruct Hinv. split; simpl; try done.
  - apply (mirror_rebuild _ []); [|done|].
    + intros b Hb. rewrite length_replicate in Hb. apply lookup_replicate_2. lia.
    + intros b Hb. rewrite length_replicate. specialize (Hkr b Hb). lia.
  - assert (Hs : sink_mirror_ok (list_to_set (elements (sinks st)) ∪ ∅) z).
    { apply sink_mirror_rebuild.
      - intros b Hb. rewrite length_replicate in Hb. rewrite bool_decide_eq_false_2 by set_solver.
        apply lookup_replicate_2. lia.
      - intros b Hb%elem_of_elements. rewrite length_replicate.
        destruct (ti_sinks0 b Hb) as [Hk|Hn]; [specialize (Hkr b Hk)|specialize (HN b Hn)]; lia. }
    intros b Hb. rewrite Hs by done. f_equal. apply bool_decide_ext. set_solver.
  - lia.
Qed.

(** *** Sinks *)

Lemma unsink_inv N b st :
  TileInv N st -> covered N st -> b ∉ st.(retired_sinks) ->
  TileInv N (unsink b st) /\ covered N (unsink b st) /\ (unsink b st).(sinks) = st.(sinks) ∖ {[b]}.
Proof.
  intros Hinv [Hc1 Hc2] Hb. unfold unsink. destruct (decide (b ∈ sinks st)) as [Hs|Hs].
  2:{ split_and!; try done. set_solver. }
  split_and!; [|done..|done].
  assert (Hr : 0 <= b < Z.of_nat (length (is_sink_t st))).
  { rewrite (ti_lens _ _ Hinv). destruct (ti_sinks _ _ Hinv b Hs) as [Hk|Hn]; [|by apply Hc2].
    pose proof (ti_range _ _ Hinv b Hk). lia. }
  destruct Hinv. split; simpl; try done.
  - by apply sink_mirror_del.
  - by rewrite tensor_set_length.
  - intros x Hx. destruct (ti_retired0 x Hx) as (? & ? & ?). split_and!; [|done..].
    apply elem_of_difference. split; [done|]. rewrite elem_of_singleton. by intros ->.
  - intros x Hx. apply ti_sinks0. set_solver.
Qed.

Lemma TileInv_mono N N' st : N ⊆ N' -> TileInv N st -> TileInv N' st.
Proof.
  intros HN []. split; try done.
  - intros b Hb. destruct (ti_retired0 b Hb) as (? & ? & [?|?]); split_and!; try done; [left; set_solver|by right].
  - intros b Hb. destruct (ti_sinks0 b Hb); [by left|right; set_solver].
Qed.

(** What the sink phases leave alone. *)
Definition same_slots (st st' : state) : Prop :=
  st'.(dict_map) = st.(dict_map) /\ st'.(free_slots) = st.(free_slots)
  /\ st'.(block_fill) = st.(block_fill) /\ st'.(b2s_t) = st.(b2s_t)
  /\ st'.(max_known) = st.(max_known) /\ st'.(pool_size) = st.(pool_size) /\ st'.(layers) = st.(layers).

#[local] Instance same_slots_preorder : PreOrder same_slots.
Proof.
  split; [by intros st; split_and!|].
  intros s1 s2 s3 (A1 & A2 & A3 & A4 & A5 & A6 & A7) (B1 & B2 & B3 & B4 & B5 & B6 & B7).
  split_and!; congruence.
Qed.

Lemma sink_step_spec r st N row0 st' N' row0' :
  sink_step (st, N, row0) r = (st', N', row0') ->
  TileInv N st -> covered N st -> 0 <= tpr ->
  TileInv N' st' /\ covered N' st' /\ same_slots st st' /\ st'.(retired_sinks) = st.(retired_sinks)
  /\ N ⊆ N' /\ (forall b, b ∈ N' -> b ∈ N \/ b ∈ st.(sinks)).
Proof.
  intros Hstep Hinv [Hc1 Hc2] Htpr. unfold sink_step in Hstep.
  destruct (head r.2) as [s0v|]; [|by injection Hstep as <- <- <-; split_and!; try done; set_solver].
  destruct (Z.ltb_spec s0v 0); [by injection Hstep as <- <- <-; split_and!; try done; set_solver|].
  destruct (decide (s0v * tpr ∈ sinks st)) as [Hs|Hs].
  - injection Hstep as <- <- <-. split_and!; try done; [|split; [done|]|set_solver|set_solver].
    + eapply TileInv_mono; [|done]. set_solver.
    + intros b [->%elem_of_singleton|Hb]%elem_of_union; [|by apply Hc2].
      destruct (ti_sinks _ _ Hinv _ Hs) as [Hk|Hn]; [|by apply Hc2].
      pose proof (ti_range _ _ Hinv _ Hk). lia.
  - destruct (decide (s0v * tpr ∈ N)) as [Hn|Hn];
      injection Hstep as <- <- <-; [|by split_and!; try done; set_solver].
    split_and!; try done; [|set_solver]. destruct Hinv. split; simpl; try done.
    + apply sink_mirror_add; [|done]. rewrite ti_lens0. by apply Hc2.
    + by rewrite tensor_set_length.
    + intros b Hb. destruct (ti_retired0 b Hb) as (? & ? & ?). split_and!; [set_solver|done..].
    + intros b [->%elem_of_singleton|Hb]%elem_of_union; [by right|by apply ti_sinks0].
Qed.

Lemma mark_sinks_spec cols rows N st st1 N1 row0 :
  mark_sinks cols rows N st = (st1, N1, row0) ->
  TileInv N st -> covered N st -> 0 <= tpr ->
  TileInv N1 st1 /\ covered N1 st1 /\ same_slots st st1 /\ st1.(retired_sinks) = st.(retired_sinks)
  /\ N ⊆ N1.
Proof.
  intros Hrun Hinv Hcov Htpr. unfold mark_sinks in Hrun.
  destruct (cols =? 0); [by injection Hrun as <- <- <-; split_and!|].
  revert Hrun. generalize (∅ : gset Z) as r0. revert st N Hinv Hcov.
  induction rows as [|r rows IH]; intros st N Hinv Hcov r0 Hrun; cbn [foldl] in Hrun.
  { by injection Hrun as <- <- <-; split_and!. }
  destruct (sink_step (st, N, r0) r) as [[st' N'] r0'] eqn:Hstep.
  destruct (sink_step_spec _ _ _ _ _ _ _ Hstep Hinv Hcov Htpr) as (Hi & Hc & Hs & Hr & Hsub & _).
  destruct (IH st' N' Hi Hc r0' Hrun) as (Hi' & Hc' & Hs' & Hr' & Hsub').
  split_and!; [done..|by etransitivity|congruence|set_solver].
Qed.

Lemma unretire_step_spec N row0 st b :
  TileInv N st -> covered N st ->
  let st' := unretire_step row0 st b in
  TileInv N st' /\ covered N st' /\ same_slots st st'
  /\ st'.(retired_sinks) = filter (fun x => x <> b) st.(retired_sinks)
  /\ (forall x, x ∈ st'.(sinks) -> x ∈ st.(sinks)).
Proof.
  intros Hinv Hcov st'. set (st0 := set_retired (filter (fun x => x <> b) st.(retired_sinks)) st).
  assert (H0 : TileInv N st0).
  { destruct Hinv. split; simpl; try done; [by apply NoDup_filter|].
    intros x [_ Hx]%list_elem_of_filter. by apply ti_retired0. }
  assert (Hnb : b ∉ st0.(retired_sinks)) by (simpl; rewrite list_elem_of_filter; tauto).
  unfold st', unretire_step. fold st0. destruct (decide (b ∉ row0)); [|by split_and!].
  destruct (unsink_inv N b st0 H0 Hcov Hnb) as (Hi & Hc & Hs). split_and!; [done..| | |].
  - unfold unsink. by destruct (decide _).
  - unfold unsink. by destruct (decide _).
  - intros x. rewrite Hs. simpl. set_solver.
Qed.

Lemma unretire_loop N row0 l st :
  TileInv N st -> covered N st ->
  let st' := foldl (unretire_step row0) st l in
  TileInv N st' /\ covered N st' /\ same_slots st st'
  /\ (forall x, x ∈ st'.(retired_sinks) <-> x ∈ st.(retired_sinks) /\ x ∉ l).
Proof.
  revert st. induction l as [|b l IH]; intros st Hinv Hcov; cbn [foldl].
  { split_and!; try done. intros x. rewrite elem_of_nil. tauto. }
  destruct (unretire_step_spec N row0 st b Hinv Hcov) as (Hi & Hc & Hs & Hr & _).
  destruct (IH _ Hi Hc) as (Hi' & Hc' & Hs' & Hr').
  split_and!; [done..|by etransitivity|].
  intros x. rewrite Hr', Hr, list_elem_of_filter, not_elem_of_cons. tauto.
Qed.

Lemma unretire_spec N row0 st :
  TileInv N st -> covered N st ->
  let st' := unretire N row0 st in
  TileInv N st' /\ covered N st' /\ same_slots st st'
  /\ (forall x, x ∈ st'.(retired_sinks) <-> x ∈ st.(retired_sinks) /\ x ∉ N).
Proof.
  intros Hinv Hcov. unfold unretire.
  destruct (unretire_loop N row0 (filter (fun b => b ∈ N) st.(retired_sinks)) st Hinv Hcov) as (? & ? & ? & Hr).
  split_and!; [done..|]. intros x. rewrite Hr, list_elem_of_filter. tauto.
Qed.

(** The first tile of a request of the batch keeps its label. *)
Lemma unretire_row0 N row0 st x : x ∈ row0 -> x ∈ st.(sinks) -> x ∈ (unretire N row0 st).(sinks).
Proof.
  intros Hx. unfold unretire. generalize (filter (fun b => b ∈ N) (retired_sinks st)) as l. intros l.
  revert st. induction l as [|b l IH]; intros st Hs; cbn [foldl]; [done|]. apply IH.
  unfold unretire_step, unsink. simpl. destruct (decide (b ∉ row0)); [|done].
  destruct (decide (b ∈ sinks st)); [|done]. simpl. set_solver.
Qed.

(** *** Flush detection *)

(** A tile whose tokens are all accepted: the request has committed past its end. *)
Definition complete_for (c : Batch) (tr : Z) : Prop :=
  exists sl q_len row t, (sl, q_len, row) ∈ batch_rows c /\ 1 <= t
    /\ (t + 1) * GROUP <= sl - q_len /\ tile_row row t = Ok (Some tr).

(** What a queue of flushes may contain. *)
Definition flush_ok (c : Batch) (st : state) (acc : list Z * gset Z) : Prop :=
  NoDup acc.1 /\ (forall x, x ∈ acc.2 <-> x ∈ acc.1)
  /\ forall x, x ∈ acc.1 -> x ∈ st.(dict_map).*1 /\ x ∉ st.(sinks) /\ complete_for c x.

Lemma walk_row_spec c st sl q_len row t acc acc' :
  0 < GROUP -> (sl, q_len, row) ∈ batch_rows c -> (Z.of_nat t + 1) * GROUP <= sl - q_len \/ t = 0%nat ->
  walk_row row t st acc = Ok acc' -> flush_ok c st acc -> flush_ok c st acc'.
Proof.
  intros HG Hrow. revert acc. induction t as [|t IH]; intros acc Ht; cbn [walk_row]; [by intros [= <-]|].
  destruct (tile_row row (Z.of_nat (S t))) as [[tr|]|e] eqn:Htr; cbn [rbind]; [|by intros [= <-]|done].
  destruct (decide _) as [_|Hno]; [by intros [= <-]|]. intros Hrun (Hnd & Hseen & Hall).
  assert (tr ∉ acc.2 /\ tr ∉ sinks st /\ tr ∈ (dict_map st).*1) as (H1 & H2 & H3).
  { split_and!; [by intros ?; apply Hno; left|by intros ?; apply Hno; right; left|].
    destruct (decide (tr ∈ (dict_map st).*1)); [done|]. destruct Hno. by right; right. }
  apply (IH _ ltac:(left; nia) Hrun). split_and!; simpl.
  - apply NoDup_app. split_and!; [done| |apply NoDup_singleton].
    intros x Hx ->%list_elem_of_singleton. by apply Hseen in Hx.
  - intros x. rewrite elem_of_union, elem_of_singleton, Hseen, elem_of_app, list_elem_of_singleton. tauto.
  - intros x [Hx| ->%list_elem_of_singleton]%elem_of_app; [by apply Hall|]. split_and!; [done..|].
    exists sl, q_len, row, (Z.of_nat (S t)). split_and!; [done|lia|nia|done].
Qed.

Lemma walk_rows_spec c st rows acc acc' :
  0 < GROUP -> (forall r, r ∈ rows -> r ∈ batch_rows c) ->
  walk_rows rows st acc = Ok acc' -> flush_ok c st acc -> flush_ok c st acc'.
Proof.
  intros HG. revert acc. induction rows as [|[[sl q_len] row] rows IH]; intros acc Hin; cbn [walk_rows];
    [by intros [= <-]|].
  destruct (sl <=? 0); [apply IH; intros r Hr; apply Hin; by right|].
  destruct (walk_row row _ st acc) as [acc1|e] eqn:Hw; cbn [rbind]; [|done]. intros Hrun Hok.
  eapply IH; [intros r Hr; apply Hin; by right|done|].
  eapply walk_row_spec; [done|apply Hin; by left| |exact Hw|done].
  unfold committed. pose proof (Z.mul_div_le (Z.max (sl - q_len) 0) GROUP HG).
  destruct (decide (Z.max (sl - q_len) 0 / GROUP - 1 <= 0)); [right; lia|left; nia].
Qed.

Lemma walk_back_spec c st acc :
  0 < GROUP -> walk_back c st = Ok acc -> flush_ok c st acc.
Proof.
  intros HG. unfold walk_back. assert (H0 : flush_ok c st ([], ∅)).
  { split_and!; simpl; [constructor|set_solver|]. by intros x ?%elem_of_nil. }
  destruct (_ =? 0); [by intros [= <-]|]. intros Hw. by eapply walk_rows_spec.
Qed.

(** *** Reclaim *)

Lemma unsink_frame b st : same_slots st (unsink b st) /\ (unsink b st).(retired_sinks) = st.(retired_sinks).
Proof. unfold unsink. destruct (decide _); by split_and!. Qed.

(** The outcome of reclaiming the tiles [L]. *)
Record reclaimed (L F D : list Z) (st st' : state) : Prop := {
  rc_slots : same_slots st st';
  rc_sinks : forall b, b ∈ st'.(sinks) -> b ∈ st.(sinks);
  rc_keep : forall b, b ∈ st.(retired_sinks) -> b ∈ st'.(retired_sinks);
  rc_new : forall b, b ∈ st'.(retired_sinks) -> b ∈ st.(retired_sinks) \/ b ∈ L;
  rc_flush : forall b, b ∈ F -> b ∈ L /\ is_full st b = true /\ b ∉ st'.(sinks);
  rc_discard : forall b, b ∈ D -> b ∈ L /\ is_full st b = false /\ b ∉ st'.(sinks);
  rc_all : forall b, b ∈ L -> b ∈ F \/ b ∈ D \/ b ∈ st'.(retired_sinks);
  rc_nodup : NoDup (F ++ D);
}.

Lemma reclaim_step_spec N st flush discard b st1 flush1 discard1 :
  reclaim_step (st, flush, discard) b = (st1, flush1, discard1) ->
  TileInv N st -> covered N st -> b ∈ st.(dict_map).*1 -> b ∉ N ->
  TileInv N st1 /\ covered N st1
  /\ exists F D, flush1 = flush ++ F /\ discard1 = discard ++ D /\ reclaimed [b] F D st st1.
Proof.
  intros Hstep Hinv Hcov Hk HN. unfold reclaim_step in Hstep.
  pose proof (unsink_frame b st) as [Hfr Hret].
  assert (Hsing : forall x y : Z, x ∈ [y] <-> x = y) by (intros x y; apply list_elem_of_singleton).
  destruct (is_full st b) eqn:Hfull; cbn [andb] in Hstep; [case_bool_decide as Hs|].
  - injection Hstep as <- <- <-. set (r := if decide _ then _ else _).
    assert (Hr : forall x, x ∈ r <-> x ∈ retired_sinks st \/ x = b).
    { intros x. unfold r. destruct (decide _); [|rewrite elem_of_app, Hsing; done]. split; [by left|].
      by intros [?| ->]. }
    split_and!; [|done|].
    + destruct Hinv. split; simpl; try done.
      * unfold r. destruct (decide _); [done|]. apply NoDup_app. split_and!; [done| |apply NoDup_singleton].
        by intros x Hx ->%Hsing.
      * intros x Hx. apply Hr in Hx as [Hx| ->]; [by apply ti_retired0|]. split_and!; [done..|by right].
    + exists [], []. rewrite !app_nil_r. split_and!; [done..|].
      split; simpl; try done; [intros x Hx; apply Hr; by left|..|constructor].
      * intros x [?| ->]%Hr; [by left|right; by left].
      * by intros x ?%elem_of_nil.
      * by intros x ?%elem_of_nil.
      * intros x ->%Hsing. right; right. apply Hr. by right.
  - injection Hstep as <- <- <-.
    assert (Hnr : b ∉ retired_sinks st) by (intros Hr; by destruct (ti_retired _ _ Hinv b Hr)).
    destruct (unsink_inv N b st Hinv Hcov Hnr) as (Hi & Hc & Hsk). split_and!; [done..|].
    exists [b], []. rewrite app_nil_r. split_and!; [done..|].
    split; [done|set_solver|by rewrite Hret|rewrite Hret; by left|..|apply NoDup_singleton].
    + intros x ->%Hsing. split_and!; [by left|done|set_solver].
    + by intros x ?%elem_of_nil.
    + intros x ->%Hsing. left. by left.
  - injection Hstep as <- <- <-.
    assert (Hnr : b ∉ retired_sinks st).
    { intros Hr. destruct (ti_retired _ _ Hinv b Hr) as (_ & _ & [?|?]); congruence. }
    destruct (unsink_inv N b st Hinv Hcov Hnr) as (Hi & Hc & Hsk). split_and!; [done..|].
    exists [], [b]. rewrite app_nil_r. split_and!; [done..|].
    split; [done|set_solver|by rewrite Hret|rewrite Hret; by left|..|apply NoDup_singleton].
    + by intros x ?%elem_of_nil.
    + intros x ->%Hsing. split_and!; [by left|done|set_solver].
    + intros x ->%Hsing. right; left. by left.
Qed.

Lemma is_full_same st st' b : st'.(block_fill) = st.(block_fill) -> is_full st' b = is_full st b.
Proof. unfold is_full. by intros ->. Qed.

Lemma reclaimed_cons b L F1 D1 F2 D2 st st1 st2 :
  b ∉ L -> reclaimed [b] F1 D1 st st1 -> reclaimed L F2 D2 st1 st2 ->
  reclaimed (b :: L) (F1 ++ F2) (D1 ++ D2) st st2.
Proof.
  intros Hb [A1 A2 A3 A4 A5 A6 A7 A8] [B1 B2 B3 B4 B5 B6 B7 B8].
  assert (Hfill : forall x, is_full st1 x = is_full st x) by (intros x; apply is_full_same; apply A1).
  assert (Hsing : forall x : Z, x ∈ [b] <-> x = b) by (intros x; apply list_elem_of_singleton).
  split; [by etransitivity|by auto|by auto|..].
  - intros x [Hx|Hx]%B4; [apply A4 in Hx as [?|?%Hsing]; [by left|subst; right; by left]|right; by right].
  - intros x [Hx|Hx]%elem_of_app.
    + destruct (A5 x Hx) as (->%Hsing & ? & ?). split_and!; [by left|done|auto].
    + destruct (B5 x Hx) as (? & Hf & ?). rewrite Hfill in Hf. split_and!; [by right|done|done].
  - intros x [Hx|Hx]%elem_of_app.
    + destruct (A6 x Hx) as (->%Hsing & ? & ?). split_and!; [by left|done|auto].
    + destruct (B6 x Hx) as (? & Hf & ?). rewrite Hfill in Hf. split_and!; [by right|done|done].
  - intros x [->|Hx]%elem_of_cons.
    + destruct (A7 b) as [?|[?|?]]; [by left|left; apply elem_of_app; by left|right; left; apply elem_of_app; by left|].
      right; right. by apply B3.
    + destruct (B7 x Hx) as [?|[?|?]]; [left; apply elem_of_app; by right|right; left; apply elem_of_app; by right|].
      by right; right.
  - assert (Hp : (F1 ++ F2) ++ D1 ++ D2 ≡ₚ (F1 ++ D1) ++ (F2 ++ D2)) by solve_Permutation.
    rewrite Hp. apply NoDup_app. split_and!; [done| |done].
    intros x Hx Hx'. assert (x = b) as ->.
    { apply elem_of_app in Hx as [Hx|Hx]; [apply A5 in Hx as [?%Hsing _]|apply A6 in Hx as [?%Hsing _]]; done. }
    apply elem_of_app in Hx' as [Hx'|Hx']; [apply B5 in Hx' as [? _]|apply B6 in Hx' as [? _]]; done.
Qed.

Lemma reclaim_loop N L st flush discard st' flush' discard' :
  foldl reclaim_step (st, flush, discard) L = (st', flush', discard') ->
  TileInv N st -> covered N st -> NoDup L -> (forall b, b ∈ L -> b ∈ st.(dict_map).*1 /\ b ∉ N) ->
  TileInv N st' /\ covered N st'
  /\ exists F D, flush' = flush ++ F /\ discard' = discard ++ D /\ reclaimed L F D st st'.
Proof.
  revert st flush discard. induction L as [|b L IH]; intros st flush discard Hrun Hinv Hcov Hnd HL; cbn [foldl] in Hrun.
  - injection Hrun as <- <- <-. split_and!; [done..|]. exists [], []. rewrite !app_nil_r. split_and!; [done..|].
    split; try done; [by left|by intros ? ?%elem_of_nil..].
  - apply NoDup_cons in Hnd as [Hb Hnd].
    destruct (reclaim_step (st, flush, discard) b) as [[st1 flush1] discard1] eqn:Hstep.
    destruct (HL b) as [Hk HN]; [by left|].
    destruct (reclaim_step_spec N _ _ _ _ _ _ _ Hstep Hinv Hcov Hk HN) as (Hi & Hc & F1 & D1 & -> & -> & Hr1).
    destruct (IH _ _ _ Hrun Hi Hc Hnd) as (Hi' & Hc' & F2 & D2 & -> & -> & Hr2).
    { intros x Hx. destruct (rc_slots _ _ _ _ _ Hr1) as [-> _]. apply HL. by right. }
    split_and!; [done..|]. exists (F1 ++ F2), (D1 ++ D2). rewrite !app_assoc. split_and!; [done..|].
    by eapply reclaimed_cons.
Qed.

Lemma covered_len N st st' :
  st'.(max_known) = st.(max_known) -> length st'.(b2s_t) = length st.(b2s_t) ->
  covered N st -> covered N st'.
Proof. unfold covered. by intros -> ->. Qed.

(** *** Release *)

Lemma release_inv N st b :
  TileInv N st -> covered N st -> b ∈ st.(dict_map).*1 -> b ∉ st.(sinks) ->
  let st' := release st b in
  TileInv N st' /\ covered N st' /\ st'.(dict_map) = dict_pop st.(dict_map) b
  /\ st'.(sinks) = st.(sinks) /\ st'.(retired_sinks) = st.(retired_sinks)
  /\ st'.(block_fill) = delete b st.(block_fill) /\ st'.(pool_size) = st.(pool_size)
  /\ st'.(layers) = st.(layers).
Proof.
  intros Hinv Hcov Hk Hs st'. unfold st', release.
  destruct (proj2 (dict_get_Some _ _) Hk) as [slot Hslot]. rewrite Hslot.
  split_and!; try done; [|by apply (covered_len N st); [|apply tensor_set_length|]].
  pose proof Hcov as [Hc1 _]. pose proof (ti_range _ _ Hinv b Hk) as Hrange.
  assert (Hne : forall x, x ∈ sinks st -> x <> b) by (by intros x Hx ->).
  assert (Hkeys : forall x, x ∈ (dict_pop (dict_map st) b).*1 <-> x ∈ (dict_map st).*1 /\ x <> b).
  { intros x. rewrite dict_pop_keys, list_elem_of_filter. tauto. }
  destruct Hinv. split; simpl; try done.
  - rewrite dict_pop_keys. by apply NoDup_filter.
  - assert (Hp : (dict_map st).*2 ≡ₚ slot :: (dict_pop (dict_map st) b).*2).
    { by rewrite (dict_pop_perm _ b slot ti_keys0 Hslot) at 1. }
    rewrite <- ti_slots0, Hp, <- app_assoc. done.
  - apply mirror_pop; [lia|done].
  - by rewrite tensor_set_length.
  - intros x [Hx _]%Hkeys. by apply ti_range0.
  - intros x Hx. destruct (ti_retired0 x Hx) as (Hsx & Hkx & Hf). specialize (Hne x Hsx).
    split_and!; [done|by apply Hkeys|]. destruct Hf as [?|Hf]; [by left|right].
    unfold is_full. simpl. by rewrite lookup_delete_ne by congruence.
  - intros x Hx. destruct (ti_sinks0 x Hx) as [Hkx|?]; [left; apply Hkeys; auto|by right].
Qed.

(** The state after the slots of all [ids] are back. *)
Record released (ids : list Z) (st st' : state) : Prop := {
  rl_get : forall x, dict_get st'.(dict_map) x = if decide (x ∈ ids) then None else dict_get st.(dict_map) x;
  rl_sinks : st'.(sinks) = st.(sinks);
  rl_retired : st'.(retired_sinks) = st.(retired_sinks);
  rl_pool : st'.(pool_size) = st.(pool_size);
  rl_layers : st'.(layers) = st.(layers);
  rl_fill : forall x, x ∉ ids -> st'.(block_fill) !! x = st.(block_fill) !! x;
}.

Lemma release_all N ids st :
  TileInv N st -> covered N st -> NoDup ids ->
  (forall b, b ∈ ids -> b ∈ st.(dict_map).*1 /\ b ∉ st.(sinks)) ->
  let st' := foldl release st ids in
  TileInv N st' /\ covered N st' /\ released ids st st'.
Proof.
  revert st. induction ids as [|b ids IH]; intros st Hinv Hcov Hnd Hids; cbn [foldl].
  { by split_and!. }
  apply NoDup_cons in Hnd as [Hb Hnd]. destruct (Hids b) as [Hk Hs]; [by left|].
  destruct (release_inv N st b Hinv Hcov Hk Hs) as (Hi & Hc & Hd & Hs1 & Hr1 & Hf1 & Hp1 & Hl1).
  destruct (IH _ Hi Hc Hnd) as (Hi' & Hc' & [R1 R2 R3 R4 R5 R6]).
  { intros x Hx. destruct (Hids x) as [Hkx Hsx]; [by right|]. rewrite Hd, Hs1. split; [|done].
    rewrite dict_pop_keys, list_elem_of_filter. split; [by intros ->|done]. }
  split_and!; [done..|]. split; try congruence.
  2:{ intros x [Hne Hx]%not_elem_of_cons. by rewrite R6, Hf1, lookup_delete_ne by congruence. }
  intros x. rewrite R1, Hd, dict_get_pop. destruct (decide (x = b)) as [->|Hne].
  - rewrite (decide_True _ _ (list_elem_of_here b ids)). by destruct (decide _).
  - destruct (decide (x ∈ ids)); [by rewrite decide_True by (by right)|].
    rewrite decide_False; [done|]. by intros [?|?]%elem_of_cons.
Qed.

(** *** Flush *)

Lemma chunks_concat {A} fuel k (l : list A) : (1 <= k)%nat -> (length l <= fuel)%nat -> concat (chunks fuel k l) = l.
Proof.
  intros Hk. revert l. induction fuel as [|f IH]; intros l Hl.
  - by destruct l; simpl in *; [|lia].
  - destruct l as [|x l]; [done|]. cbn [chunks concat]. rewrite IH; [apply take_drop|].
    rewrite length_drop. simpl in *. lia.
Qed.

Lemma foldl_concat {A B} (f : A -> B -> A) (ls : list (list B)) a :
  foldl (foldl f) a ls = foldl f a (concat ls).
Proof. revert a. induction ls as [|l ls IH]; intros a; [done|]. cbn [foldl concat]. by rewrite IH, foldl_app. Qed.

(** What a flush does to one layer: the record of every listed resident tile is the
    packed content of its slot; the pool and all other records are untouched. *)
Record layer_flushed (d : list (Z * Z)) (ids : list Z) (ly ly' : layer) : Prop := {
  lf_builder : ly'.(in_builder) = ly.(in_builder);
  lf_ref : ly'.(has_kv_cache_ref) = ly.(has_kv_cache_ref);
  lf_pool : ly'.(tail_pool) = ly.(tail_pool);
  lf_cache : forall x, ly'.(kv_cache) !! x =
    match dict_get d x with
    | Some s => if decide (x ∈ ids)
                then match ly.(tail_pool) !! Z.to_nat s with Some t => Some (pack t) | None => ly.(kv_cache) !! x end
                else ly.(kv_cache) !! x
    | None => ly.(kv_cache) !! x
    end;
}.

Lemma write_tile_fields ly x :
  (write_tile ly x).(in_builder) = ly.(in_builder)
  /\ (write_tile ly x).(has_kv_cache_ref) = ly.(has_kv_cache_ref)
  /\ (write_tile ly x).(tail_pool) = ly.(tail_pool)
  /\ forall y, (write_tile ly x).(kv_cache) !! y =
       if decide (y = x.1) then match ly.(tail_pool) !! Z.to_nat x.2 with
                                | Some t => Some (pack t) | None => ly.(kv_cache) !! y end
       else ly.(kv_cache) !! y.
Proof.
  unfold write_tile. destruct (tail_pool ly !! Z.to_nat x.2) as [t|]; simpl; split_and!; try done; intros y.
  - destruct (decide (y = x.1)) as [->|]; by rewrite ?lookup_insert_eq, ?lookup_insert_ne.
  - by destruct (decide _).
Qed.

Lemma flush_layer_spec k d ids ly : (1 <= k)%nat -> layer_flushed d ids ly (flush_layer k d ids ly).
Proof.
  intros Hk. unfold flush_layer. rewrite foldl_concat, chunks_concat by done.
  revert ly. induction ids as [|b ids IH]; intros ly.
  { split; try done. intros x. destruct (dict_get d x); [|done].
    rewrite decide_False; [done|apply not_elem_of_nil]. }
  cbn [omap list_omap]. destruct (dict_get d b) as [s|] eqn:Hb; cbn [fmap option_fmap option_map foldl].
  - destruct (write_tile_fields ly (b, s)) as (W1 & W2 & W3 & W4).
    destruct (IH (write_tile ly (b, s))) as [F1 F2 F3 F4]. split; [congruence..|].
    intros x. rewrite F4, W3, W4. cbn [fst snd]. destruct (dict_get d x) as [sx|] eqn:Hx.
    + destruct (decide (x = b)) as [->|Hne].
      * rewrite Hb in Hx. injection Hx as <-. rewrite (decide_True _ _ (list_elem_of_here b ids)).
        destruct (decide (b ∈ ids)); by destruct (tail_pool ly !! Z.to_nat s).
      * destruct (decide (x ∈ ids)); [by rewrite decide_True by (by right)|].
        rewrite decide_False; [done|]. by intros [?|?]%elem_of_cons.
    + by rewrite decide_False by congruence.
  - destruct (IH ly) as [F1 F2 F3 F4]. split; [done..|]. intros x. rewrite F4.
    destruct (dict_get d x) as [sx|] eqn:Hx; [|done].
    destruct (decide (x ∈ ids)); [by rewrite decide_True by (by right)|].
    rewrite decide_False; [done|]. intros [->|?]%elem_of_cons; congruence.
Qed.

Definition layers_flushed (d : list (Z * Z)) (ids : list Z) (ls ls' : list layer) : Prop :=
  Forall2 (fun ly ly' => if flushed_now ly then layer_flushed d ids ly ly' else ly' = ly) ls ls'.

Lemma batched_flush_spec k ids st :
  (1 <= k)%nat -> layers_flushed st.(dict_map) ids st.(layers) (batched_flush k ids st).(layers).
Proof.
  intros Hk. unfold layers_flushed. simpl. induction (layers st) as [|ly ls IH]; constructor; [|done].
  destruct (flushed_now ly); [by apply flush_layer_spec|done].
Qed.

Lemma layers_flushed_nil d ls : layers_flushed d [] ls ls.
Proof.
  unfold layers_flushed. induction ls as [|ly ls IH]; constructor; [|done].
  destruct (flushed_now ly); [|done]. split; try done. intros x. by destruct (dict_get d x).
Qed.

(** Two flushes in a row, the second from a dict that still agrees on its tiles. *)
Lemma layers_flushed_app d d' ids ids' ls ls1 ls2 :
  layers_flushed d ids ls ls1 -> layers_flushed d' ids' ls1 ls2 ->
  (forall x, x ∈ ids' -> dict_get d' x = dict_get d x /\ x ∉ ids) ->
  layers_flushed d (ids ++ ids') ls ls2.
Proof.
  intros H1 H2 Hagree. unfold layers_flushed in *. revert ls2 H2.
  induction H1 as [|ly ly1 ls ls1 Hly H1 IH]; intros ls2 H2; inversion H2 as [|? ly2 ? ls2' Hly2 H2']; subst; constructor; [|by apply IH].
  destruct (flushed_now ly) eqn:Hf.
  - assert (Hf1 : flushed_now ly1 = true).
    { destruct Hly as [B R _ _]. unfold flushed_now in *. by rewrite B, R. }
    rewrite Hf1 in Hly2. destruct Hly as [B1 R1 P1 C1], Hly2 as [B2 R2 P2 C2]. split; [congruence..|].
    intros x. rewrite C2, C1, P1. destruct (decide (x ∈ ids')) as [Hx|Hx].
    + destruct (Hagree x Hx) as [-> Hn]. destruct (dict_get d x) as [s|]; [|done].
      by rewrite (decide_False _ _ Hn), decide_True by (apply elem_of_app; by right).
    + destruct (dict_get d' x), (dict_get d x) as [s|]; try done;
        destruct (decide (x ∈ ids)), (decide (x ∈ ids ++ ids')) as [Hi|Hi]; try done;
        rewrite elem_of_app in Hi; tauto.
  - subst ly1. by rewrite Hf in Hly2.
Qed.

Lemma TileInv_layers N ls st : TileInv N st -> TileInv N (set_layers ls st).
Proof. by intros []; split. Qed.

(** *** The engine's part of a step *)

(** [F] are the flushed tiles, [D] the discarded ones. *)
Record engine_post (c : Batch) (N : gset Z) (st st' : state) : Prop := {
  ep_inv : TileInv N st';
  ep_cov : covered N st';
  ep_pool : st'.(pool_size) = st.(pool_size);
  ep_retired : forall x, x ∈ st'.(retired_sinks) -> x ∉ N;
  ep_fill : forall x, x ∈ st'.(dict_map).*1 -> st'.(block_fill) !! x = st.(block_fill) !! x;
  ep_data : exists F D,
    layers_flushed st.(dict_map) F st.(layers) st'.(layers)
    /\ (forall x, dict_get st'.(dict_map) x = if decide (x ∈ F ++ D) then None else dict_get st.(dict_map) x)
    /\ (forall x, x ∈ F -> x ∈ st.(dict_map).*1 /\ x ∉ st.(retired_sinks)
                    /\ (complete_for c x /\ x ∉ st.(sinks) \/ is_full st x = true /\ x ∉ N))
    /\ (forall x, x ∈ D -> x ∈ st.(dict_map).*1 /\ is_full st x = false /\ x ∉ N);
}.

Lemma engine_post_refl c N st :
  TileInv N st -> covered N st -> (forall x, x ∈ st.(retired_sinks) -> x ∉ N) -> engine_post c N st st.
Proof.
  intros Hi Hc Hr. split; try done. exists [], []. simpl. split_and!; [apply layers_flushed_nil|done|..].
  all: by intros x ?%elem_of_nil.
Qed.

Lemma flush_and_release_eq k ids D st :
  foldl release (flush_and_release k ids st) D
  = foldl release (match ids with [] => st | _ => batched_flush k ids st end) (ids ++ D).
Proof. unfold flush_and_release. destruct ids as [|x ids]; [done|]. by rewrite foldl_app. Qed.

Lemma engine_phase_spec k c N st st' :
  (1 <= k)%nat -> 0 < GROUP -> c.(fast_build) && mtp_full = false ->
  engine_phase k c N st = Ok st' ->
  TileInv N st -> covered N st -> (forall x, x ∈ st.(retired_sinks) -> x ∉ N) ->
  engine_post c N st st' /\ forall x, x ∈ st'.(dict_map).*1 -> x ∈ N \/ x ∈ st'.(retired_sinks).
Proof.
  intros Hk HG Hfast Hrun Hinv Hcov Hret. unfold engine_phase in Hrun. rewrite Hfast in Hrun.
  destruct (walk_back c st) as [acc|e] eqn:Hw; cbn [rbind] in Hrun; [|done].
  apply walk_back_spec in Hw as (Hnd & Hseen & Hacc); [|done].
  destruct (reclaim N acc st) as [[st1 flush] discard] eqn:Hrec. injection Hrun as <-.
  unfold reclaim in Hrec. set (L := filter _ _) in Hrec.
  assert (HL : forall b, b ∈ L <-> (b ∉ N /\ b ∉ acc.2) /\ b ∈ (dict_map st).*1)
    by (intros b; unfold L; by rewrite list_elem_of_filter).
  destruct (reclaim_loop N L st acc.1 [] st1 flush discard Hrec Hinv Hcov) as (Hi1 & Hc1 & F & D & -> & -> & Hr).
  { apply NoDup_filter, Hinv. }
  { intros b [[? _] ?]%HL. done. }
  destruct Hr as [(S1 & S2 & S3 & S4 & S5 & S6 & S7) Rsinks Rkeep Rnew Rflush Rdisc Rall Rnd].
  set (ids := acc.1 ++ F) in *. simpl app. rewrite flush_and_release_eq.
  set (st2 := match ids with [] => st1 | _ => batched_flush k ids st1 end).
  assert (Hl2 : layers_flushed (dict_map st) ids (layers st) (layers st2) /\ exists ls, st2 = set_layers ls st1).
  { rewrite <- S1, <- S7. unfold st2. destruct ids as [|x l].
    - split; [apply layers_flushed_nil|]. exists (layers st1). by destruct st1.
    - split; [by apply batched_flush_spec|]. by eexists. }
  destruct Hl2 as [Hl2 [ls Hst2]]. rewrite Hst2.
  assert (Hdis : NoDup (ids ++ D)).
  { unfold ids. rewrite <- app_assoc. apply NoDup_app. split_and!; [done| |done].
    intros x Hx Hx'. apply Hseen in Hx. apply elem_of_app in Hx' as [Hx'|Hx'];
      [apply Rflush in Hx' as [Hx' _]|apply Rdisc in Hx' as [Hx' _]]; apply HL in Hx'; tauto. }
  destruct (release_all N (ids ++ D) (set_layers ls st1)) as (Hi3 & Hc3 & [G1 G2 G3 G4 G5 G6]);
    [by apply TileInv_layers|done|done| |].
  { intros b. simpl. rewrite S1. unfold ids. rewrite !elem_of_app. intros [[Hb|Hb]|Hb].
    - destruct (Hacc b Hb) as (? & ? & _). auto.
    - destruct (Rflush b Hb) as (?%HL & _ & ?). tauto.
    - destruct (Rdisc b Hb) as (?%HL & _ & ?). tauto. }
  set (st3 := foldl release _ _) in *. simpl in G1, G2, G3, G4, G5, G6.
  split; [split; [done..|by rewrite G4| | |]|].
  - intros x. rewrite G3. intros [Hx|[[? _] _]%HL]%Rnew; auto.
  - intros x Hx%dict_get_Some. rewrite G1 in Hx. destruct (decide (x ∈ ids ++ D)); [by destruct Hx|]. by rewrite G6, S3.
  - exists ids, D. rewrite G5. split_and!.
    + by rewrite Hst2 in Hl2.
    + intros x. by rewrite G1, S1.
    + intros x. unfold ids. rewrite elem_of_app. intros [Hx|Hx].
      * destruct (Hacc x Hx) as (? & Hns & ?). split_and!; [done| |by left].
        intros Hr. by apply (ti_retired _ _ Hinv) in Hr as [? _].
      * destruct (Rflush x Hx) as ([[? _] ?]%HL & Hfull & Hns). split_and!; [done| |by right].
        intros Hr. apply Rkeep in Hr. by apply (ti_retired _ _ Hi1) in Hr as [? _].
    + intros x Hx. destruct (Rdisc x Hx) as ([[? _] ?]%HL & ? & _). done.
  - intros x Hx%dict_get_Some. rewrite G1 in Hx. destruct (decide (x ∈ ids ++ D)) as [|Hn]; [by destruct Hx|].
    rewrite S1, dict_get_Some in Hx. rewrite G3. destruct (decide (x ∈ N)) as [|HN]; [by left|right].
    destruct (decide (x ∈ acc.2)) as [Ha%Hseen|Ha].
    { destruct Hn. unfold ids. rewrite !elem_of_app. by left; left. }
    destruct (Rall x) as [?|[?|?]]; [by apply HL|..|done]; destruct Hn; unfold ids; rewrite !elem_of_app; tauto.
Qed.

(** *** Allocation *)

Lemma pool_slot_range N st x s : TileInv N st -> dict_get st.(dict_map) x = Some s -> 0 <= s < st.(pool_size).
Proof.
  intros Hinv Hs. apply dict_get_elem in Hs; [|apply Hinv].
  assert (Hin : s ∈ free_slots st ++ (dict_map st).*2).
  { apply elem_of_app. right. apply list_elem_of_fmap. by exists (x, s). }
  rewrite (ti_slots _ _ Hinv), elem_of_seqZ in Hin. lia.
Qed.

(** The tiles that must keep their slot. *)
Definition live (st : state) : gset Z := list_to_set st.(dict_map).*1 ∖ list_to_set st.(retired_sinks).

Lemma slot_count N st :
  TileInv N st -> 0 <= st.(pool_size) ->
  (length st.(free_slots) + length st.(dict_map))%nat = Z.to_nat st.(pool_size).
Proof.
  intros Hinv Hp. pose proof (Permutation_length (ti_slots _ _ Hinv)) as Hl.
  by rewrite length_app, length_fmap, length_seqZ in Hl.
Qed.

Lemma live_le N st : TileInv N st -> 0 <= st.(pool_size) -> Z.of_nat (size (live st)) <= st.(pool_size).
Proof.
  intros Hinv Hp. pose proof (slot_count N st Hinv Hp).
  assert (size (live st) <= size (list_to_set (C := gset Z) st.(dict_map).*1))%nat
    by (apply subseteq_size; unfold live; set_solver).
  rewrite size_list_to_set, length_fmap in * by apply Hinv. lia.
Qed.

(** The oldest retired sink goes to the cache, and its slot to the free list. *)
Lemma evict_oldest_spec k N old rest st :
  (1 <= k)%nat -> TileInv N st -> covered N st -> st.(retired_sinks) = old :: rest -> old ∉ N ->
  let st' := evict_oldest k st in
  TileInv N st' /\ covered N st' /\ st'.(retired_sinks) = rest /\ st'.(free_slots) <> []
  /\ st'.(pool_size) = st.(pool_size) /\ live st' = live st
  /\ (forall x, dict_get st'.(dict_map) x = if decide (x = old) then None else dict_get st.(dict_map) x)
  /\ layers_flushed st.(dict_map) [old] st.(layers) st'.(layers).
Proof.
  intros Hk Hinv Hcov Hret HN. destruct (ti_retired _ _ Hinv old) as (Hs & Hkey & _); [rewrite Hret; by left|].
  pose proof (ti_nodup _ _ Hinv) as Hnd. rewrite Hret in Hnd. apply NoDup_cons in Hnd as [Hold Hnd].
  set (st0 := batched_flush k [old] (set_retired rest st)).
  assert (Hi0 : TileInv N st0).
  { destruct Hinv. split; simpl; try done. intros b Hb. apply (ti_retired0 b). rewrite Hret. by right. }
  destruct (unsink_inv N old st0 Hi0) as (Hi1 & Hc1 & Hs1); [done..|].
  pose proof (unsink_frame old st0) as [(F1 & F2 & F3 & F4 & F5 & F6 & F7) F8].
  destruct (proj2 (dict_get_Some _ _) Hkey) as [slot Hget].
  assert (Heq : evict_oldest k st = release (unsink old st0) old).
  { unfold evict_oldest. rewrite Hret. change (batched_flush k [old] (set_retired rest st)) with st0.
    unfold unsink. simpl sinks. rewrite decide_True by done.
    unfold release. simpl. rewrite Hget. unfold set_b2s, set_sinks, set_fill, set_slots, tensor_set. simpl.
    by rewrite list_insert_insert_eq. }
  destruct (release_inv N (unsink old st0) old) as (Hi & Hc & Hd & _ & Hr2 & _ & Hp2 & Hl2);
    [done|done|by rewrite F1|rewrite Hs1; set_solver|].
  cbv zeta. rewrite Heq. rewrite F1 in Hd. split_and!; [done|done|by rewrite Hr2, F8| |by rewrite Hp2, F6| | |].
  - unfold release. rewrite F1. simpl. rewrite Hget. simpl. by intros []%app_nil.
  - unfold live. rewrite Hr2, F8, Hd, Hret. simpl. rewrite dict_pop_keys. apply set_eq. intros x.
    rewrite !elem_of_difference, elem_of_union, !elem_of_list_to_set, list_elem_of_filter, elem_of_singleton. tauto.
  - intros x. rewrite Hd. apply dict_get_pop.
  - rewrite Hl2, F7. apply (batched_flush_spec k [old] (set_retired rest st) Hk).
Qed.

(** What allocation may do to tiles it was not asked for: [E] are the evicted ones. *)
Record allocated (N : gset Z) (E : list Z) (st st' : state) : Prop := {
  al_inv : TileInv N st';
  al_cov : covered N st';
  al_pool : st'.(pool_size) = st.(pool_size);
  al_retired : forall x, x ∈ st'.(retired_sinks) -> x ∈ st.(retired_sinks);
  al_evict : forall x, x ∈ E -> x ∈ st.(retired_sinks);
  al_get : forall x, x ∉ N -> dict_get st'.(dict_map) x = if decide (x ∈ E) then None else dict_get st.(dict_map) x;
  al_stay : forall x s, x ∈ N -> dict_get st.(dict_map) x = Some s -> dict_get st'.(dict_map) x = Some s;
  al_layers : layers_flushed st.(dict_map) E st.(layers) st'.(layers);
}.

Lemma allocated_refl N st : TileInv N st -> covered N st -> allocated N [] st st.
Proof. intros Hi Hc. split; try done. by intros x ?%elem_of_nil. apply layers_flushed_nil. Qed.

Lemma allocated_trans N E1 E2 st st1 st2 :
  (forall x, x ∈ st.(retired_sinks) -> x ∉ N) ->
  allocated N E1 st st1 -> allocated N E2 st1 st2 -> allocated N (E1 ++ E2) st st2.
Proof.
  intros Hret [I1 C1 P1 R1 V1 G1 S1 L1] [I2 C2 P2 R2 V2 G2 S2 L2].
  assert (Hdis : forall x, x ∈ E2 -> dict_get (dict_map st1) x = dict_get (dict_map st) x /\ x ∉ E1).
  { intros x Hx. assert (HN : x ∉ N) by auto. apply V2, (ti_retired _ _ I1) in Hx as (_ & Hk & _).
    apply dict_get_Some in Hk. rewrite (G1 x HN) in *. destruct (decide (x ∈ E1)); [by destruct Hk|done]. }
  split; [done|done|congruence|by auto| | |by auto|].
  - intros x [?|?]%elem_of_app; auto.
  - intros x HN. rewrite (G2 x HN), (G1 x HN).
    destruct (decide (x ∈ E1)), (decide (x ∈ E2)), (decide (x ∈ E1 ++ E2)) as [Ha|Ha];
      rewrite elem_of_app in Ha; tauto.
  - by eapply layers_flushed_app.
Qed.

(** A slot is popped for [b]. *)
Lemma push_spec N b slot st :
  TileInv N st -> covered N st -> b ∈ N -> b ∉ st.(dict_map).*1 -> last st.(free_slots) = Some slot ->
  let st' := set_max_known (Z.max st.(max_known) b)
               (set_b2s (tensor_set st.(b2s_t) b slot)
                  (set_slots (dict_set st.(dict_map) b slot) (removelast st.(free_slots)) st)) in
  allocated N [] st st' /\ live st' = {[b]} ∪ live st.
Proof.
  intros Hinv Hcov HN Hb Hlast st'. pose proof Hcov as [Hc1 Hc2]. destruct (Hc2 b HN) as [Hb0 Hbl].
  apply last_Some in Hlast as [f Hf].
  assert (Hd : dict_map st' = dict_map st ++ [(b, slot)]) by (by apply dict_set_new).
  assert (Hg : forall x, dict_get (dict_map st') x = if decide (x = b) then Some slot else dict_get (dict_map st) x)
    by (intros x; apply dict_get_set).
  assert (Hkeys : forall x, x ∈ (dict_map st').*1 <-> x ∈ (dict_map st).*1 \/ x = b).
  { intros x. rewrite Hd, fmap_app, elem_of_app. simpl. by rewrite list_elem_of_singleton. }
  split; [split|]; simpl; try done.
  - destruct Hinv. split; try done.
    + rewrite Hd, fmap_app. apply NoDup_app. split_and!; [done| |apply NoDup_singleton].
      intros x Hx ->%list_elem_of_singleton. done.
    + rewrite Hd. simpl. rewrite Hf, removelast_last, fmap_app. simpl. rewrite <- ti_slots0, Hf.
      rewrite <- app_assoc. apply Permutation_app_head. by rewrite Permutation_app_comm.
    + by apply mirror_set.
    + simpl. by rewrite tensor_set_length.
    + intros x [?%ti_range0| ->]%Hkeys; simpl; lia.
    + intros x Hx. simpl in Hx. destruct (ti_retired0 x Hx) as (? & ? & ?). split_and!; [done|rewrite Hkeys; by left|done].
    + intros x Hx. simpl in Hx. destruct (ti_sinks0 x Hx); [left; apply Hkeys; by left|by right].
  - split; simpl; rewrite tensor_set_length; [lia|done].
  - by intros x ?%elem_of_nil.
  - intros x Hx. rewrite Hg. rewrite decide_False; [done|]. by intros ->.
  - intros x s Hx Hs. rewrite Hg. rewrite decide_False; [done|]. intros ->.
    destruct Hb. apply dict_get_Some. eauto.
  - apply layers_flushed_nil.
  - unfold live. apply set_eq. intros x.
    rewrite elem_of_union, !elem_of_difference, !elem_of_list_to_set, Hkeys, elem_of_singleton. simpl.
    split; [tauto|]. intros [->|?]; [|tauto]. split; [by right|]. intros Hr.
    by apply (ti_retired _ _ Hinv) in Hr as (_ & ? & _).
Qed.

Lemma allocate_one_spec k N b st :
  (1 <= k)%nat -> TileInv N st -> covered N st -> b ∈ N -> (forall x, x ∈ st.(retired_sinks) -> x ∉ N) ->
  (exists st' E, allocate_one k b st = (Ok tt, st') /\ allocated N E st st' /\ live st' = {[b]} ∪ live st)
  \/ (allocate_one k b st = (Raise RuntimeError, st)
      /\ st.(free_slots) = [] /\ st.(retired_sinks) = [] /\ b ∉ st.(dict_map).*1).
Proof.
  intros Hk Hinv Hcov Hb Hret. unfold allocate_one. rewrite bind_gets. simpl.
  destruct (decide (b ∈ (dict_map st).*1)) as [Hkey|Hkey].
  { left. exists st, []. split_and!; [done|by apply allocated_refl|].
    assert (b ∈ live st) by (apply elem_of_difference; rewrite !elem_of_list_to_set; naive_solver). set_solver. }
  destruct (free_slots st) as [|s0 f] eqn:Hf.
  - rewrite bind_modify, bind_gets. simpl. destruct (retired_sinks st) as [|old rest] eqn:Hr.
    { right. unfold evict_oldest. rewrite Hr, Hf. done. }
    destruct (evict_oldest_spec k N old rest st Hk Hinv Hcov Hr) as (Hi1 & Hc1 & R1 & F1 & P1 & L1 & G1 & Y1).
    { apply Hret. by left. }
    set (st1 := evict_oldest k st) in *. destruct (last (free_slots st1)) as [slot|] eqn:Hlast.
    2:{ by apply last_None in Hlast. }
    assert (Hn1 : b ∉ (dict_map st1).*1).
    { rewrite <- dict_get_None, G1. destruct (decide _); [done|]. by apply dict_get_None. }
    destruct (push_spec N b slot st1 Hi1 Hc1 Hb Hn1 Hlast) as [Ha Hl].
    left. eexists _, ([old] ++ []). split_and!; [done| |by rewrite Hl, L1].
    eapply allocated_trans; [by rewrite Hr| |exact Ha]. split; try done.
    + intros x. rewrite R1, Hr. by right.
    + intros x ->%list_elem_of_singleton. rewrite Hr. by left.
    + intros x _. rewrite G1. destruct (decide (x = old)), (decide (x ∈ [old])) as [Hx|Hx];
        rewrite list_elem_of_singleton in Hx; congruence.
    + intros x s Hx Hs. rewrite G1, decide_False; [done|]. intros ->. apply (Hret old); [by left|done].
  - rewrite bind_ret, bind_gets. simpl. rewrite Hf. destruct (last (s0 :: f)) as [slot|] eqn:Hlast;
      [|by apply last_None in Hlast].
    rewrite <- Hf in Hlast. destruct (push_spec N b slot st Hinv Hcov Hb Hkey Hlast) as [Ha Hl].
    left. eexists _, []. split_and!; [|exact Ha|exact Hl]. done.
Qed.

(** The whole allocation: it succeeds exactly when the tiles that keep their slot
    and the tiles that need one fit the pool. *)
Lemma allocate_loop k N ns st :
  (1 <= k)%nat -> 0 <= st.(pool_size) -> TileInv N st -> covered N st ->
  (forall b, b ∈ ns -> b ∈ N) -> (forall x, x ∈ st.(retired_sinks) -> x ∉ N) ->
  let fits := Z.of_nat (size (list_to_set ns ∪ live st)) <= st.(pool_size) in
  (fits /\ exists st' E, for_each ns (allocate_one k) st = (Ok tt, st')
      /\ allocated N E st st' /\ live st' = list_to_set ns ∪ live st)
  \/ (~ fits /\ exists st', for_each ns (allocate_one k) st = (Raise RuntimeError, st')).
Proof.
  intros Hk. revert st. induction ns as [|b ns IH]; intros st Hp Hinv Hcov Hns Hret fits; unfold fits; clear fits.
  { left. assert (Heq : list_to_set (C := gset Z) [] ∪ live st = live st) by set_solver.
    split; [rewrite Heq; by eapply live_le|]. exists st, []. split_and!; [done|by apply allocated_refl|done]. }
  simpl for_each. destruct (allocate_one_spec k N b st) as [(st1 & E1 & Hrun & Ha & Hl)|(Hrun & Hf & Hr & Hb)];
    [done|done|done|by apply Hns; left|done|..].
  - rewrite (bind_ok _ _ _ _ _ Hrun). pose proof Ha as [I1 C1 P1 R1 _ _ _ _].
    destruct (IH st1) as [(Hfits & st2 & E2 & Hrun2 & Ha2 & Hl2)|(Hfits & st2 & Hrun2)];
      [by rewrite P1|done|done|intros x Hx; apply Hns; by right|auto|..].
    + left. rewrite Hl, P1 in Hfits.
      assert (Heq : list_to_set ns ∪ ({[b]} ∪ live st) = list_to_set (C := gset Z) (b :: ns) ∪ live st) by set_solver.
      rewrite Heq in Hfits. split; [done|]. exists st2, (E1 ++ E2).
      split_and!; [done|by eapply allocated_trans|by rewrite Hl2, Hl].
    + right. rewrite Hl, P1 in Hfits.
      assert (Heq : list_to_set ns ∪ ({[b]} ∪ live st) = list_to_set (C := gset Z) (b :: ns) ∪ live st) by set_solver.
      rewrite Heq in Hfits. split; [done|]. by exists st2.
  - right. rewrite (bind_raise _ _ _ _ _ Hrun). split; [|by eexists]. intros Hle.
    pose proof (slot_count N st Hinv Hp) as Hc. rewrite Hf in Hc. simpl in Hc.
    assert (Hlive : live st = list_to_set (dict_map st).*1) by (unfold live; rewrite Hr; set_solver).
    assert (Hsz : (size (list_to_set (C := gset Z) (b :: (dict_map st).*1))
                   <= size (list_to_set (b :: ns) ∪ live st))%nat)
      by (apply subseteq_size; rewrite Hlive; set_solver).
    rewrite size_list_to_set in Hsz by (apply NoDup_cons; split; [done|apply Hinv]).
    simpl length in Hsz. rewrite length_fmap in Hsz. lia.
Qed.

(** *** The tiles a step needs *)

(** Row [r] of the batch writes tile row [x]. *)
Definition row_writes (cols : Z) (r : Z * Z * list Z) (x : Z) : Prop :=
  let '(sl, q_len, row) := r in
  cols <> 0 /\ 0 < sl
  /\ exists t, first_written sl q_len <= t < end_written cols sl /\ tile_row row t = Ok (Some x).

Definition touched (c : Batch) (x : Z) : Prop :=
  (exists r, r ∈ batch_rows c /\ row_writes c.(bt_cols) r x)
  \/ exists sm, sm ∈ c.(slot_mapping) /\ 0 <= sm /\ x = sm / GROUP.

(** The block table covers the batch: [bt_cols] entries per row, enough of them for
    the sequence. *)
Definition wf_batch (c : Batch) : Prop :=
  forall sl q_len row, (sl, q_len, row) ∈ batch_rows c ->
    Z.of_nat (length row) = c.(bt_cols) /\ sl <= c.(bt_cols) * tpr * GROUP /\ 1 <= q_len.

Lemma tile_row_ok row t :
  0 < tpr -> 0 <= t < Z.of_nat (length row) * tpr -> exists o, tile_row row t = Ok o.
Proof.
  intros Htpr Ht. unfold tile_row.
  assert (Hlt : (Z.to_nat (t / tpr) < length row)%nat).
  { assert (0 <= t / tpr < Z.of_nat (length row)); [|lia].
    split; [apply Z.div_pos; lia|]. apply Z.div_lt_upper_bound; lia. }
  apply lookup_lt_is_Some in Hlt as [v ->]. eauto.
Qed.

Lemma tile_row_nonneg row t x : 0 < tpr -> tile_row row t = Ok (Some x) -> 0 <= x.
Proof.
  intros Htpr. unfold tile_row. destruct (row !! _) as [v|]; [|done].
  destruct (Z.ltb_spec v 0); [done|]. intros [= <-].
  pose proof (Z.mod_pos_bound t tpr Htpr). nia.
Qed.

Lemma mark_written_spec n t sl row acc :
  (forall t', t <= t' < t + Z.of_nat n -> exists o, tile_row row t' = Ok o) ->
  exists acc', mark_written n t sl row acc = Ok acc'
    /\ (forall x, x ∈ acc'.1 <-> x ∈ acc.1 \/ exists t', t <= t' < t + Z.of_nat n /\ tile_row row t' = Ok (Some x))
    /\ (forall x, x ∉ acc'.1 -> acc'.2 !! x = acc.2 !! x).
Proof.
  revert t acc. induction n as [|n IH]; intros t acc Hok.
  { exists acc. split_and!; [done| |done]. intros x. split; [by left|]. intros [?|(t' & ? & _)]; [done|lia]. }
  simpl. destruct (Hok t) as [o Ho]; [lia|]. rewrite Ho. cbn [rbind].
  set (acc1 := match o with Some _ => _ | None => _ end).
  destruct (IH (t + 1) acc1) as (acc' & -> & Hin & Hfill).
  { intros t' ?. apply Hok. lia. }
  assert (H1 : forall x, x ∈ acc1.1 <-> x ∈ acc.1 \/ o = Some x).
  { intros x. unfold acc1. destruct o as [tr|]; simpl; [|naive_solver].
    rewrite elem_of_union, elem_of_singleton. naive_solver. }
  exists acc'. split_and!; [done| |].
  - intros x. rewrite Hin, H1. split.
    + intros [[?| ->]|(t' & ? & ?)]; [by left|right; exists t; split; [lia|done]|].
      right. exists t'. split; [lia|done].
    + intros [?|(t' & ? & Ht')]; [by left; left|]. destruct (decide (t' = t)) as [->|].
      * left. right. congruence.
      * right. exists t'. split; [lia|done].
  - intros x Hx. rewrite (Hfill x Hx). unfold acc1. destruct o as [tr|]; [|done]. simpl.
    apply lookup_insert_ne. intros ->. apply Hx, Hin. left. apply H1. by right.
Qed.

Lemma written_rows_spec cols rows acc :
  0 < GROUP -> 0 < tpr -> 0 <= cols ->
  (forall sl q_len row, (sl, q_len, row) ∈ rows -> Z.of_nat (length row) = cols) ->
  exists acc', written_rows cols rows acc = Ok acc'
    /\ (forall x, x ∈ acc'.1 <-> x ∈ acc.1 \/ exists r, r ∈ rows /\ row_writes cols r x)
    /\ (forall x, x ∉ acc'.1 -> acc'.2 !! x = acc.2 !! x).
Proof.
  intros HG Htpr Hcols. revert acc. induction rows as [|[[sl q_len] row] rows IH]; intros acc Hlen.
  { exists acc. split_and!; [done| |done]. intros x. split; [by left|]. intros [?|(r & ?%elem_of_nil & _)]; done. }
  assert (Hlen' : forall sl q_len row, (sl, q_len, row) ∈ rows -> Z.of_nat (length row) = cols)
    by (intros; eapply Hlen; by right).
  assert (Hcons : forall (P : Z * Z * list Z -> Prop),
            (exists r, r ∈ (sl, q_len, row) :: rows /\ P r) <-> P (sl, q_len, row) \/ exists r, r ∈ rows /\ P r).
  { intros P. split.
    - intros (r & [->|Hr]%elem_of_cons & HP); [by left|right; by exists r].
    - intros [HP|(r & Hr & HP)]; eexists; (split; [|exact HP]); [by left|by right]. }
  simpl written_rows. destruct ((cols =? 0) || (sl <=? 0)) eqn:Hskip.
  - destruct (IH acc Hlen') as (acc' & -> & Hin & Hfill). exists acc'. split_and!; [done| |done].
    intros x. rewrite Hin, Hcons. assert (~ row_writes cols (sl, q_len, row) x); [|tauto].
    intros (? & ? & _). apply orb_true_iff in Hskip. lia.
  - apply orb_false_iff in Hskip as [Hc0 Hsl].
    assert (Hrow : Z.of_nat (length row) = cols) by (eapply Hlen; by left).
    set (lo := first_written sl q_len). set (n := Z.to_nat _).
    assert (Hlo : 0 <= lo) by (apply Z.div_pos; unfold committed; lia).
    destruct (mark_written_spec n lo sl row acc) as (acc1 & Hrun & Hin1 & Hfill1).
    { intros t ?. apply tile_row_ok; [done|]. rewrite Hrow. unfold n, end_written in *. lia. }
    rewrite Hrun. cbn [rbind]. destruct (IH acc1 Hlen') as (acc' & -> & Hin & Hfill).
    exists acc'. split_and!; [done| |].
    + intros x. rewrite Hin, Hin1, Hcons.
      assert (Hw : row_writes cols (sl, q_len, row) x
        <-> exists t', lo <= t' < lo + Z.of_nat n /\ tile_row row t' = Ok (Some x)).
      { unfold row_writes. fold lo. unfold n. split.
        - intros (_ & _ & t & ? & ?). exists t. split; [lia|done].
        - intros (t & ? & ?). split_and!; [lia..|]. exists t. split; [lia|done]. }
      rewrite Hw. tauto.
    + intros x Hx. rewrite (Hfill x Hx). apply Hfill1. intros Hx1. apply Hx, Hin. by left.
Qed.

Lemma slot_tiles_spec sm N x :
  x ∈ slot_tiles sm N <-> x ∈ N \/ exists s, s ∈ sm /\ 0 <= s /\ x = s / GROUP.
Proof.
  unfold slot_tiles. revert N. induction sm as [|s sm IH]; intros N; simpl.
  { split; [by left|]. intros [?|(s & ?%elem_of_nil & _)]; done. }
  rewrite IH. destruct (Z.leb_spec 0 s); rewrite ?elem_of_union, ?elem_of_singleton; split.
  - intros [[->|?]|(s' & ? & ?)]; [right; exists s|by left|right; exists s']; (split; [|done]); by constructor.
  - intros [?|(s' & [->|?]%elem_of_cons & ? & ->)]; [by left; right|by left; left|right; by exists s'].
  - intros [?|(s' & ? & ?)]; [by left|right; exists s'; split; [by right|done]].
  - intros [?|(s' & [->|?]%elem_of_cons & ? & ->)]; [by left|lia|right; by exists s'].
Qed.

Lemma blocks_written_spec c fill :
  0 < GROUP -> 0 < tpr -> 0 <= c.(bt_cols) -> wf_batch c ->
  exists N fill', blocks_written c fill = Ok (N, fill')
    /\ (forall x, x ∈ N <-> touched c x) /\ (forall x, x ∉ N -> fill' !! x = fill !! x).
Proof.
  intros HG Htpr Hcols Hwf. unfold blocks_written.
  destruct (written_rows_spec (bt_cols c) (batch_rows c) (∅, fill)) as ([N fill'] & -> & Hin & Hfill); [done..| |].
  { intros sl q_len row Hr. by destruct (Hwf sl q_len row Hr). }
  cbn [rbind fst snd] in *. eexists _, _. split_and!; [done| |].
  - intros x. rewrite slot_tiles_spec, Hin. unfold touched. split; [|tauto].
    intros [[?%elem_of_empty|?]|?]; [done|tauto..].
  - intros x Hx. apply Hfill. rewrite slot_tiles_spec in Hx. tauto.
Qed.

Lemma touched_nonneg c x : 0 < GROUP -> 0 < tpr -> touched c x -> 0 <= x.
Proof.
  intros HG Htpr [([[sl q_len] row] & _ & _ & _ & t & _ & Ht)|(sm & _ & ? & ->)].
  - by eapply tile_row_nonneg.
  - by apply Z.div_pos.
Qed.

Lemma needed_hint_spec N x : x ∈ N -> x < needed_hint N.
Proof.
  intros Hx%elem_of_elements. unfold needed_hint. induction (elements N) as [|y l IH]; [by apply elem_of_nil in Hx|].
  simpl. apply elem_of_cons in Hx as [->|Hx]; [lia|]. specialize (IH Hx). lia.
Qed.

(** The walk back never leaves the block table. *)
Lemma walk_row_ok row t st acc :
  0 < tpr -> (Z.of_nat t < Z.of_nat (length row) * tpr)%Z \/ t = 0%nat -> exists acc', walk_row row t st acc = Ok acc'.
Proof.
  intros Htpr. revert acc. induction t as [|t IH]; intros acc Ht; [by eexists|]. simpl walk_row.
  destruct (tile_row_ok row (Z.of_nat (S t))) as [o ->]; [done|lia|]. cbn [rbind].
  destruct o as [tr|]; [|by eexists]. destruct (decide _); [by eexists|]. apply IH. lia.
Qed.

Lemma walk_back_ok c st :
  0 < GROUP -> 0 < tpr -> wf_batch c -> exists acc, walk_back c st = Ok acc.
Proof.
  intros HG Htpr Hwf. unfold walk_back. destruct (_ =? 0); [by eexists|]. unfold wf_batch in Hwf.
  generalize (([], ∅) : list Z * gset Z) as acc.
  induction (batch_rows c) as [|[[sl q_len] row] rows IH]; intros acc; [by eexists|]. simpl walk_rows.
  assert (Hrows : forall sl q_len row, (sl, q_len, row) ∈ rows ->
            Z.of_nat (length row) = bt_cols c /\ sl <= bt_cols c * tpr * GROUP /\ 1 <= q_len)
    by (intros; eapply Hwf; by right).
  destruct (Z.leb_spec sl 0); [by apply IH|].
  destruct (Hwf sl q_len row) as (Hlen & Hsl & Hq); [by left|].
  destruct (walk_row_ok row (Z.to_nat (committed sl q_len / GROUP - 1)) st acc) as [acc' ->]; [done| |by apply IH].
  assert (committed sl q_len / GROUP <= bt_cols c * tpr); [|lia].
  unfold committed. apply Z.div_le_upper_bound; lia.
Qed.

(** *** Sinks of the batch *)

(** The first tiles of the batch's requests. *)
Definition first_tiles (cols : Z) (rows : list (Z * Z * list Z)) : gset Z :=
  if cols =? 0 then ∅
  else list_to_set (omap (fun r => s0v ← head r.2; if s0v <? 0 then None else Some (s0v * tpr)) rows).

Lemma mark_sinks_exact cols rows N st st1 N1 row0 :
  mark_sinks cols rows N st = (st1, N1, row0) ->
  row0 = first_tiles cols rows /\ N1 = N ∪ (first_tiles cols rows ∩ st.(sinks))
  /\ (forall x, x ∈ st1.(sinks) <-> x ∈ st.(sinks) \/ x ∈ N /\ x ∈ first_tiles cols rows).
Proof.
  unfold mark_sinks, first_tiles. destruct (cols =? 0).
  { intros [= <- <- <-]. split_and!; [done|set_solver|set_solver]. }
  cut (forall r0, foldl sink_step (st, N, r0) rows = (st1, N1, row0) ->
    let S0 := list_to_set (omap (fun r => s0v ← head r.2; if s0v <? 0 then None else Some (s0v * tpr)) rows) in
    row0 = r0 ∪ S0 /\ N1 = N ∪ (S0 ∩ st.(sinks))
    /\ (forall x, x ∈ st1.(sinks) <-> x ∈ st.(sinks) \/ x ∈ N /\ x ∈ S0)).
  { intros Hcut Hrun. destruct (Hcut _ Hrun) as (-> & ? & ?). split_and!; [set_solver|done..]. }
  revert st N. induction rows as [|r rows IH]; intros st N r0; cbn [foldl].
  { intros [= <- <- <-]. simpl. split_and!; set_solver. }
  intros Hrun. simpl omap. unfold sink_step at 2 in Hrun.
  destruct (head r.2) as [s0v|]; simpl; [|by apply IH].
  destruct (s0v <? 0); simpl; [by apply IH|].
  destruct (decide (s0v * tpr ∈ sinks st)) as [Hs|Hs]; [|destruct (decide (s0v * tpr ∈ N)) as [Hn|Hn]].
  - destruct (IH _ _ _ Hrun) as (-> & -> & Hsk). split_and!; [set_solver|set_solver|]. intros x. rewrite Hsk. set_solver.
  - destruct (IH _ _ _ Hrun) as (-> & -> & Hsk). simpl in Hsk |- *. split_and!; [set_solver|set_solver|].
    intros x. rewrite Hsk. set_solver.
  - destruct (IH _ _ _ Hrun) as (-> & -> & Hsk). split_and!; [set_solver|set_solver|]. intros x. rewrite Hsk. set_solver.
Qed.
End tiles.
