(* ===== verification/KVarNTilesProps.v ===== *)
(** * Correctness of the KVarN tile lifecycle

    Theorems about [KVarNMetadataBuilder.build] as modelled in [KVarNTiles]: the
    allocator's invariant, exactly when a step runs out of slots, what happens to
    the data of every tile, and that stored tokens are read back. *)

From S2P Require Import Prelude KVarNConfig KVarNTiles.

(** Two places of an entry that occurs once among the non-padding ones. *)
Lemma filter_pos_inj (l : list Z) i j p :
  NoDup (filter (fun s => 0 <= s) l) -> 0 <= p -> l !! i = Some p -> l !! j = Some p -> i = j.
Proof.
  intros Hnd Hp. revert i j. induction l as [|x l IH]; [done|].
  assert (Hin : forall i, l !! i = Some p -> p ∈ filter (fun s => 0 <= s) l).
  { intros i Hi. apply list_elem_of_filter. split; [done|]. by eapply list_elem_of_lookup_2. }
  rewrite filter_cons in Hnd. destruct (decide (0 <= x)) as [Hx|Hx].
  - apply NoDup_cons in Hnd as [Hnot Hnd]. intros [|i] [|j] Hi Hj; simpl in *; [done| | |f_equal; by apply IH].
    + injection Hi as ->. by destruct Hnot; eapply Hin.
    + injection Hj as ->. by destruct Hnot; eapply Hin.
  - intros [|i] [|j] Hi Hj; simpl in *; [done|by injection Hi as ->|by injection Hj as ->|f_equal; by apply IH].
Qed.

Lemma size_list_to_set_le (l : list Z) : (size (list_to_set l : gset Z) <= length l)%nat.
Proof.
  induction l as [|x l IH]; [done|]. rewrite list_to_set_cons, length_cons.
  pose proof (size_union_alt ({[x]} : gset Z) (list_to_set l)) as Hu. rewrite size_singleton in Hu.
  assert (size (list_to_set l ∖ {[x]} : gset Z) <= size (list_to_set l : gset Z))%nat
    by (apply subseteq_size; set_solver).
  rewrite Hu. lia.
Qed.

Section props.
Context {Tok Rec : Type}.
Notation state := (TileState Tok Rec).
Notation layer := (Layer Tok Rec).
Context (pack : list Tok -> Rec) (GROUP tpr : Z) (set_order : gset Z -> list Z) (mtp_full : bool).

(** The tiles that need a slot: those written, and the live sinks of the batch. *)
Definition needed_tiles (c : Batch) (st : state) : gset Z :=
  match blocks_written GROUP tpr c st.(block_fill) with
  | Ok (N, _) => N ∪ (first_tiles tpr c.(bt_cols) (batch_rows c) ∩ st.(sinks))
  | Raise _ => ∅
  end.

Definition draft_build (c : Batch) : bool := c.(fast_build) && mtp_full.

(** The tiles that must hold a slot at the end of the step. *)
Definition demand (c : Batch) (st : state) : gset Z :=
  if draft_build c then needed_tiles c st ∪ live st else needed_tiles c st.

Context (HG : 0 < GROUP) (Htpr : 0 < tpr) (Horder : forall N, set_order N ≡ₚ elements N).

(** What a step may assume: an engine state between steps and a sound batch. *)
Record step_pre (k : nat) (c : Batch) (st : state) : Prop := {
  sp_chunk : (1 <= k)%nat;
  sp_cols : 0 <= c.(bt_cols);
  sp_batch : wf_batch GROUP tpr c;
  sp_pool : 0 <= st.(pool_size);
  sp_builder : existsb in_builder st.(layers) = true;
  sp_inv : TileInv GROUP ∅ st;
}.

(** State and needed tiles when flush detection starts. *)
Record prepared (c : Batch) (st st2 : state) : Prop := {
  pr_inv : TileInv GROUP (needed_tiles c st) st2;
  pr_cov : covered (needed_tiles c st) st2;
  pr_retired : forall x, x ∈ st2.(retired_sinks) <-> x ∈ st.(retired_sinks) /\ x ∉ needed_tiles c st;
  pr_dict : st2.(dict_map) = st.(dict_map);
  pr_pool : st2.(pool_size) = st.(pool_size);
  pr_layers : st2.(layers) = st.(layers);
  pr_full : forall x, x ∉ needed_tiles c st -> is_full GROUP st2 x = is_full GROUP st x;
  pr_sinks : forall x, x ∈ needed_tiles c st -> touched GROUP tpr c x \/ x ∈ st2.(sinks);
}.

Lemma fill_inv N fill (st : state) :
  TileInv GROUP ∅ st -> (forall x, x ∉ N -> fill !! x = st.(block_fill) !! x) -> TileInv GROUP N (set_fill fill st).
Proof.
  intros [? ? ? ? ? ? ? Hret Hsk] Hfill. split; simpl; try done.
  - intros b Hb. destruct (Hret b Hb) as (? & ? & [?%elem_of_empty|Hf]); [done|]. split_and!; [done..|].
    destruct (decide (b ∈ N)) as [|Hn]; [by left|right]. unfold is_full in *. simpl. by rewrite Hfill.
  - intros b Hb. destruct (Hsk b Hb) as [?|?%elem_of_empty]; [by left|done].
Qed.

Lemma build_prepares k c st :
  step_pre k c st -> exists st2, prepared c st st2
    /\ build pack GROUP tpr mtp_full set_order k c st
       = (st3 <- lift (engine_phase pack GROUP tpr mtp_full k c (needed_tiles c st) st2) ;;
          modify (fun _ => st3) ;; allocate pack mtp_full set_order k (needed_tiles c st)) st2.
Proof.
  intros [Hk Hcols Hwf Hp Hb Hinv]. unfold build. rewrite bind_gets. simpl id.
  destruct (blocks_written_spec GROUP tpr c (block_fill st)) as (N0 & fill & Hbw & HN0 & Hfill); [done..|].
  unfold needed_tiles. rewrite Hbw, bind_lift. cbn iota beta. rewrite bind_modify, Hb. cbn [negb].
  rewrite bind_modify, bind_gets. simpl id.
  pose proof (fill_inv N0 fill st Hinv Hfill) as Hi0.
  destruct (ensure_mirrors_spec GROUP N0 (needed_hint N0) _ Hi0) as (Hi1 & Hc1 & Hsame).
  { intros b Hb'. split; [|by apply needed_hint_spec]. apply (touched_nonneg GROUP tpr c); [done..|by apply HN0]. }
  set (stm := ensure_mirrors _ _) in *. destruct Hsame as (M1 & M2 & M3 & M4 & M5 & M6 & M7 & M8). simpl in *.
  destruct (mark_sinks tpr (bt_cols c) (batch_rows c) N0 stm) as [[st1 N1] row0] eqn:Hms.
  destruct (mark_sinks_spec GROUP tpr _ _ _ _ _ _ _ Hms Hi1 Hc1) as (Hi2 & Hc2 & Hs2 & Hr2 & Hsub); [lia|].
  destruct (mark_sinks_exact tpr _ _ _ _ _ _ _ Hms) as (-> & HN1 & Hsk). rewrite M3 in HN1, Hsk. rewrite <- HN1.
  destruct (unretire_spec GROUP N1 (first_tiles tpr (bt_cols c) (batch_rows c)) st1 Hi2 Hc2) as (Hi3 & Hc3 & Hs3 & Hr3).
  set (st2 := unretire _ _ _) in *.
  destruct Hs2 as (A1 & A2 & A3 & A4 & A5 & A6 & A7), Hs3 as (B1 & B2 & B3 & B4 & B5 & B6 & B7).
  exists st2. rewrite bind_modify. split; [|done]. split; unfold needed_tiles; rewrite ?Hbw, <- ?HN1; try done.
  - intros x. by rewrite Hr3, Hr2, M4.
  - congruence.
  - congruence.
  - congruence.
  - intros x Hx. unfold is_full. rewrite B3, A3, M5, Hfill; [done|]. intros ?. apply Hx. set_solver.
  - intros x Hx. rewrite HN1 in Hx. apply elem_of_union in Hx as [?%HN0|[Hf Hs]%elem_of_intersection]; [by left|right].
    apply unretire_row0; [done|]. apply Hsk. by left.
Qed.

(** Once every needed tile has its slot, the invariant between steps holds again. *)
Lemma TileInv_settled N (st : state) :
  TileInv GROUP N st -> (forall x, x ∈ st.(retired_sinks) -> x ∉ N) ->
  (forall x, x ∈ N -> x ∈ st.(dict_map).*1) -> TileInv GROUP ∅ st.
Proof.
  intros [? ? ? ? ? ? ? Hret Hsk] HN Hk. split; try done.
  - intros b Hb. destruct (Hret b Hb) as (? & ? & [?|?]); [by destruct (HN b)|auto].
  - intros b Hb. left. destruct (Hsk b Hb); auto.
Qed.

(** What a successful step does. [F] are the tiles packed into the cache, [D] those
    given up. *)
Record stepped (c : Batch) (st st' : state) (F D : list Z) : Prop := {
  sd_inv : TileInv GROUP ∅ st';
  sd_cov : covered (needed_tiles c st) st';
  sd_pool : st'.(pool_size) = st.(pool_size);
  sd_needed : forall x, x ∈ needed_tiles c st -> x ∈ st'.(dict_map).*1;
  sd_layers : layers_flushed pack mtp_full st.(dict_map) F st.(layers) st'.(layers);
  sd_get : forall x, x ∉ needed_tiles c st ->
    dict_get st'.(dict_map) x = if decide (x ∈ F ++ D) then None else dict_get st.(dict_map) x;
  sd_stay : forall x s, x ∈ needed_tiles c st -> x ∉ F ->
    dict_get st.(dict_map) x = Some s -> dict_get st'.(dict_map) x = Some s;
  sd_flush : forall x, x ∈ F -> x ∈ st.(dict_map).*1
    /\ (complete_for GROUP tpr c x /\ (x ∈ needed_tiles c st -> touched GROUP tpr c x)
        \/ is_full GROUP st x = true /\ x ∉ needed_tiles c st);
  sd_drop : forall x, x ∈ D -> x ∈ st.(dict_map).*1 /\ is_full GROUP st x = false /\ x ∉ needed_tiles c st;
}.

(** The engine phase of a prepared step; a draft build leaves the state alone. *)
Lemma engine_phase_total k c st st2 :
  step_pre k c st -> prepared c st st2 -> exists st3,
    engine_phase pack GROUP tpr mtp_full k c (needed_tiles c st) st2 = Ok st3
    /\ engine_post pack GROUP tpr mtp_full c (needed_tiles c st) st2 st3
    /\ if draft_build c then st3 = st2
       else forall x, x ∈ st3.(dict_map).*1 -> x ∈ needed_tiles c st \/ x ∈ st3.(retired_sinks).
Proof.
  intros [Hk Hcols Hwf Hp Hb Hinv] [Hi Hc Hr Hd Hpl Hl Hf Hs]. unfold draft_build.
  assert (Hret : forall x, x ∈ st2.(retired_sinks) -> x ∉ needed_tiles c st) by (intros x Hx; by apply Hr).
  destruct (fast_build c && mtp_full) eqn:Hdraft.
  { exists st2. unfold engine_phase. rewrite Hdraft. split_and!; [done|by apply engine_post_refl|done]. }
  destruct (walk_back_ok GROUP tpr c st2) as [acc Hacc]; [done..|].
  destruct (engine_phase pack GROUP tpr mtp_full k c (needed_tiles c st) st2) as [st3|e] eqn:Hrun.
  - exists st3. split; [done|]. by eapply engine_phase_spec.
  - unfold engine_phase in Hrun. rewrite Hdraft, Hacc in Hrun. cbn [rbind] in Hrun.
    by destruct (reclaim _ _ _ _) as [[? ?] ?].
Qed.

(** Allocation after the engine phase. *)
Lemma stepped_engine c st st2 st3 st' E :
  prepared c st st2 -> engine_post pack GROUP tpr mtp_full c (needed_tiles c st) st2 st3 ->
  allocated pack GROUP mtp_full (needed_tiles c st) E st3 st' ->
  (forall x, x ∈ needed_tiles c st -> x ∈ st'.(dict_map).*1) ->
  exists F D, stepped c st st' F D.
Proof.
  set (N := needed_tiles c st). intros [Hi Hc Hr Hd Hpl Hl Hf Hs] [I3 C3 P3 R3 B3 (F & D & L3 & G3 & F3 & D3)]
    [I4 C4 P4 R4 V4 G4 S4 L4] HN. fold N in Hi, Hc, Hr, Hf, Hs.
  assert (HE : forall x, x ∈ E -> x ∉ N /\ x ∉ F ++ D /\ is_full GROUP st2 x = true
                                  /\ dict_get (dict_map st3) x = dict_get (dict_map st2) x).
  { intros x Hx%V4. pose proof (R3 x Hx) as Hn. destruct (ti_retired _ _ _ I3 x Hx) as (_ & Hk & [?|Hfull]); [done|].
    unfold is_full in *. rewrite (B3 x Hk) in Hfull.
    apply dict_get_Some in Hk. rewrite G3 in *. destruct (decide (x ∈ F ++ D)); [by destruct Hk|done]. }
  exists (F ++ E), D. rewrite Hd in *. rewrite Hl in *. split; fold N; [by apply (TileInv_settled N); auto|done|congruence|done| | | | |].
  - eapply layers_flushed_app; [done..|]. intros x Hx. destruct (HE x Hx) as (_ & Hn & _ & ?).
    split; [done|]. rewrite elem_of_app in Hn. tauto.
  - intros x Hx. rewrite (G4 x Hx), G3.
    destruct (decide (x ∈ E)), (decide (x ∈ F ++ D)), (decide (x ∈ (F ++ E) ++ D)) as [Ha|Ha];
      rewrite !elem_of_app in *; tauto.
  - intros x s Hx HF Hget. apply S4; [done|]. rewrite G3. rewrite decide_False; [done|].
    intros [?|[_ [_ ?]]%D3]%elem_of_app; [|done]. apply HF, elem_of_app. by left.
  - intros x [Hx|Hx]%elem_of_app.
    + destruct (F3 x Hx) as (Hk & _ & [[Hcf Hns]|[Hfull HnN]]).
      * split; [done|]. left. split; [done|]. intros HxN. by destruct (Hs x HxN).
      * split; [done|]. right. by rewrite <- (Hf x HnN).
    + destruct (HE x Hx) as (HnN & _ & Hfull & Hg). apply V4, (ti_retired _ _ _ I3) in Hx as (_ & Hk & _).
      rewrite <- (Hf x HnN). split; [|by right]. apply dict_get_Some. rewrite <- Hg. by apply dict_get_Some.
  - intros x Hx. destruct (D3 x Hx) as (? & Hfull & HnN). by rewrite <- (Hf x HnN).
Qed.

Lemma live_prepared c st st2 : prepared c st st2 -> needed_tiles c st ∪ live st2 = needed_tiles c st ∪ live st.
Proof.
  intros [_ _ Hr Hd _ _ _ _]. unfold live. rewrite Hd. apply set_eq. intros x.
  rewrite !elem_of_union, !elem_of_difference, !elem_of_list_to_set, Hr.
  destruct (decide (x ∈ needed_tiles c st)); tauto.
Qed.

(** A step either fits the pool and does its work, or raises. *)
Lemma build_outcome k c st :
  step_pre k c st ->
  let fits := Z.of_nat (size (demand c st)) <= st.(pool_size) in
  (fits /\ exists st' F D, build pack GROUP tpr mtp_full set_order k c st = (Ok tt, st') /\ stepped c st st' F D)
  \/ (~ fits /\ exists st', build pack GROUP tpr mtp_full set_order k c st = (Raise RuntimeError, st')).
Proof.
  intros Hpre fits. destruct (build_prepares k c st Hpre) as (st2 & Hprep & ->).
  destruct (engine_phase_total k c st st2 Hpre Hprep) as (st3 & -> & Hpost & Hdraft).
  rewrite bind_lift, bind_modify. unfold allocate. pose proof Hpost as [I3 C3 P3 R3 _ _]. pose proof Hpre as [Hk _ _ Hp _ _].
  set (N := needed_tiles c st) in *.
  assert (Hns : list_to_set (C := gset Z) (set_order N) = N) by (rewrite Horder; apply list_to_set_elements_L).
  assert (Hdem : N ∪ live st3 = demand c st).
  { unfold demand. fold N. destruct (draft_build c); [rewrite Hdraft; by apply live_prepared|].
    unfold live. apply set_eq. intros x. rewrite elem_of_union, elem_of_difference, !elem_of_list_to_set.
    specialize (Hdraft x). tauto. }
  destruct (allocate_loop pack GROUP mtp_full k N (set_order N) st3) as [(Hfit & st' & E & Hrun & Ha & Hlive)|(Hfit & st' & Hrun)];
    rewrite ?Hns, ?Hdem, ?P3, ?(pr_pool _ _ _ Hprep) in *; [done|done|done|done| |done| |].
  - intros b Hb. rewrite Horder in Hb. by apply elem_of_elements.
  - left. split; [done|].
    destruct (stepped_engine c st st2 st3 st' E Hprep Hpost Ha) as (F & D & Hst).
    { intros x Hx. assert (Hxl : x ∈ live st') by (rewrite Hlive, <- Hdem; set_solver).
      unfold live in Hxl. apply elem_of_difference in Hxl as [Hxl _]. by apply elem_of_list_to_set in Hxl. }
    by exists st', F, D.
  - right. split; [done|]. by exists st'.
Qed.

(** C26: A metadata build that starts from a sound allocator and a sound batch
    succeeds exactly when the tiles that must hold a slot fit the pool: for an engine
    build the tiles written and the live sinks, for a draft build also every other
    live tile.  Otherwise it raises the pool-exhausted error. *)
Theorem build_succeeds_iff_fits k c st :
  step_pre k c st ->
  (Z.of_nat (size (demand c st)) <= st.(pool_size) ->
     exists st', build pack GROUP tpr mtp_full set_order k c st = (Ok tt, st'))
  /\ (st.(pool_size) < Z.of_nat (size (demand c st)) ->
     exists st', build pack GROUP tpr mtp_full set_order k c st = (Raise RuntimeError, st')).
Proof using All.
  intros Hpre. destruct (build_outcome k c st Hpre) as [(Hfit & st' & F & D & Hrun & _)|(Hfit & st' & Hrun)].
  - split; [by eexists|lia].
  - split; [done|by eexists].
Qed.

(** What a build does to one tile row [x] of one layer. *)
Inductive tile_fate (c : Batch) (st st' : state) (ly ly' : layer) (x : Z) : Prop :=
| Stays s :
    dict_get st.(dict_map) x = Some s -> dict_get st'.(dict_map) x = Some s ->
    ly'.(kv_cache) !! x = ly.(kv_cache) !! x -> tile_fate c st st' ly ly' x
| Packed s tile :
    dict_get st.(dict_map) x = Some s -> dict_get st'.(dict_map) x = None ->
    ly.(tail_pool) !! Z.to_nat s = Some tile -> ly'.(kv_cache) !! x = Some (pack tile) ->
    complete_for GROUP tpr c x \/ is_full GROUP st x = true -> tile_fate c st st' ly ly' x
| Dropped s :
    dict_get st.(dict_map) x = Some s -> dict_get st'.(dict_map) x = None ->
    is_full GROUP st x = false -> ~ touched GROUP tpr c x -> tile_fate c st st' ly ly' x
| Unchanged :
    dict_get st.(dict_map) x = None -> dict_get st'.(dict_map) x = None ->
    ly'.(kv_cache) !! x = ly.(kv_cache) !! x -> tile_fate c st st' ly ly' x
| Opened s :
    dict_get st.(dict_map) x = None -> dict_get st'.(dict_map) x = Some s ->
    x ∈ needed_tiles c st -> tile_fate c st st' ly ly' x.

Lemma touched_needed k c st x : step_pre k c st -> touched GROUP tpr c x -> x ∈ needed_tiles c st.
Proof using HG Htpr.
  intros [? ? ? _ _ _] Hx. unfold needed_tiles.
  destruct (blocks_written_spec GROUP tpr c (block_fill st)) as (N0 & fill & -> & HN0 & _); [done..|].
  apply elem_of_union. left. by apply HN0.
Qed.

Lemma fate_of_step k c st st' F D ly ly' x :
  step_pre k c st -> stepped c st st' F D ->
  (forall y, complete_for GROUP tpr c y -> ~ touched GROUP tpr c y) ->
  layer_flushed pack st.(dict_map) F ly ly' ->
  Z.of_nat (length ly.(tail_pool)) = st.(pool_size) -> tile_fate c st st' ly ly' x.
Proof using HG Htpr.
  intros Hpre [I C P N L G S Fl Dr] Hdone [_ _ Hpool Hcache] Hlen.
  assert (HFN : forall y, y ∈ F -> y ∉ needed_tiles c st).
  { intros y Hy Hn. destruct (Fl y Hy) as (_ & [[Hc Ht]|[_ ?]]); [|done]. by apply (Hdone y Hc), Ht. }
  specialize (Hcache x). destruct (dict_get (dict_map st) x) as [s|] eqn:Hs.
  - destruct (decide (x ∈ F)) as [HF|HF].
    + destruct (lookup_lt_is_Some_2 (tail_pool ly) (Z.to_nat s)) as [tile Htile].
      { apply (pool_slot_range GROUP ∅ st) in Hs; [lia|apply Hpre]. }
      rewrite Htile in Hcache. eapply Packed; try done.
      * rewrite (G x) by auto. rewrite decide_True; [done|]. apply elem_of_app. by left.
      * destruct (Fl x HF) as (_ & [[? _]|[? _]]); auto.
    + destruct (decide (x ∈ needed_tiles c st)) as [Hn|Hn]; [eapply Stays; by eauto|].
      destruct (decide (x ∈ D)) as [HD|HD].
      * destruct (Dr x HD) as (_ & Hfull & _). eapply Dropped; try done.
        -- rewrite (G x Hn). rewrite decide_True; [done|]. apply elem_of_app. by right.
        -- intros Ht. by apply Hn, (touched_needed k).
      * eapply Stays; [done| |done]. rewrite (G x Hn), Hs. rewrite decide_False; [done|]. by intros [?|?]%elem_of_app.
  - destruct (dict_get (dict_map st') x) as [s|] eqn:Hs'; [|by apply Unchanged].
    eapply Opened; try done. destruct (decide (x ∈ needed_tiles c st)) as [|Hn]; [done|].
    rewrite (G x Hn), Hs in Hs'. by destruct (decide _).
Qed.

(** C1: No build loses the data of a tile.  When it succeeds, every tile row of
    every layer of the group either stays in its slot, or was resident and its packed
    record now holds exactly its pool contents (only for tiles that are committed or
    full), or was a partial tile no request of the batch writes, or was not resident
    and its record is untouched, or is newly given a slot because it is needed.  The
    hypothesis is that no request writes a tile another one has completed. *)
Theorem build_preserves_tile_data k c st st' i ly ly' x :
  step_pre k c st ->
  build pack GROUP tpr mtp_full set_order k c st = (Ok tt, st') ->
  (forall y, complete_for GROUP tpr c y -> ~ touched GROUP tpr c y) ->
  st.(layers) !! i = Some ly -> st'.(layers) !! i = Some ly' -> flushed_now mtp_full ly = true ->
  Z.of_nat (length ly.(tail_pool)) = st.(pool_size) ->
  ly'.(tail_pool) = ly.(tail_pool) /\ tile_fate c st st' ly ly' x.
Proof using All.
  intros Hpre Hrun Hdone Hly Hly' Hnow Hlen.
  destruct (build_outcome k c st Hpre) as [(_ & st1 & F & D & Hrun' & Hst)|(_ & st1 & Hrun')];
    rewrite Hrun in Hrun'; [|done]. injection Hrun' as <-.
  pose proof (sd_layers _ _ _ _ _ Hst) as HL. eapply Forall2_lookup_lr in HL; [|done..].
  rewrite Hnow in HL. split; [apply HL|]. by eapply fate_of_step.
Qed.

(** Speculative tokens are never quantised.  The flush queue a step collects
    from its live requests holds only tiles that end at or before the committed
    length [seq_len - query_len] of a request of the batch, and never a sink. *)
Theorem flush_queue_is_committed c (st : state) acc x :
  walk_back GROUP tpr c st = Ok acc -> x ∈ acc.1 ->
  x ∉ st.(sinks) /\ exists sl q_len row t,
    (sl, q_len, row) ∈ batch_rows c /\ tile_row tpr row t = Ok (Some x) /\ 1 <= t
    /\ forall p, p / GROUP = t -> p < sl - q_len.
Proof using HG.
  intros Hw Hx. apply walk_back_spec in Hw as (_ & _ & Hacc); [|done].
  destruct (Hacc x Hx) as (_ & Hs & sl & q_len & row & t & Hr & Ht & Hle & Htr). split; [done|].
  exists sl, q_len, row, t. split_and!; [done..|]. intros p <-.
  pose proof (Z.mod_pos_bound p GROUP HG). pose proof (Z.div_mod p GROUP). lia.
Qed.

(** Allocators as the engine reaches them: a fresh pool of [n] slots, builds that
    succeed, and stores into the layers' pools in between. *)
Inductive tiles_reach (n : Z) : state -> Prop :=
| reach_new ls : tiles_reach n (new_tiles n ls)
| reach_build k c st st' :
    tiles_reach n st -> (1 <= k)%nat -> 0 <= c.(bt_cols) -> wf_batch GROUP tpr c ->
    existsb in_builder st.(layers) = true ->
    build pack GROUP tpr mtp_full set_order k c st = (Ok tt, st') -> tiles_reach n st'
| reach_store num_blocks sm toks i st :
    tiles_reach n st -> tiles_reach n (do_kv_cache_update GROUP num_blocks sm toks i st).

(** A store leaves the allocator alone and covers its tiles. *)
Lemma do_kv_cache_update_inv num_blocks sm toks i (st : state) :
  TileInv GROUP ∅ st -> let st' := do_kv_cache_update GROUP num_blocks sm toks i st in
  TileInv GROUP ∅ st' /\ st'.(dict_map) = st.(dict_map) /\ st'.(pool_size) = st.(pool_size)
  /\ (sm <> [] -> st'.(max_known) < Z.of_nat (length st'.(b2s_t))
       /\ st'.(layers) = alter (scatter_store GROUP sm toks st'.(b2s_t)) i st.(layers)).
Proof.
  intros Hinv. unfold do_kv_cache_update. destruct sm as [|s sm]; [done|].
  destruct (ensure_mirrors_spec GROUP ∅ num_blocks st Hinv) as (Hi & [Hc _] & (M1 & _ & _ & _ & _ & M6 & M7 & M8));
    [by intros b ?%elem_of_empty|].
  simpl. rewrite M8. split_and!; [by apply TileInv_layers|done|done|done].
Qed.

Lemma new_tiles_inv n ls : TileInv GROUP ∅ (new_tiles n ls : state).
Proof.
  split; simpl; try done.
  - constructor.
  - rewrite app_nil_r. by rewrite reverse_Permutation.
  - intros b. simpl. lia.
  - intros b. simpl. lia.
  - by intros b ?%elem_of_nil.
  - constructor.
  - by intros b ?%elem_of_nil.
Qed.

Lemma build_inv k c st st' :
  step_pre k c st -> build pack GROUP tpr mtp_full set_order k c st = (Ok tt, st') ->
  TileInv GROUP ∅ st' /\ st'.(pool_size) = st.(pool_size).
Proof using All.
  intros Hpre Hrun. destruct (build_outcome k c st Hpre) as [(_ & st1 & F & D & Hrun' & Hst)|(_ & st1 & Hrun')];
    rewrite Hrun in Hrun'; [|done]. injection Hrun' as <-. split; apply Hst.
Qed.

(** C19: In every state the engine reaches, the slots of the pool are divided between
    the free list and the resident tiles without overlap or leak, both GPU mirrors
    agree with the CPU dictionaries, every sink is resident, and every retired sink is
    a full resident sink. *)
Theorem tiles_reachable_inv n st :
  0 <= n -> tiles_reach n st -> TileInv GROUP ∅ st /\ st.(pool_size) = n.
Proof using All.
  intros Hn. induction 1 as [ls|k c st st' _ [Hinv Hp] Hk Hcols Hwf Hb Hrun|nb sm toks i st _ [Hinv Hp]].
  - split; [apply new_tiles_inv|done].
  - assert (Hpre : step_pre k c st) by (split; [done|done|done|lia|done|done]).
    destruct (build_inv k c st st' Hpre Hrun) as [? ->]. done.
  - destruct (do_kv_cache_update_inv nb sm toks i st Hinv) as (? & _ & -> & _). done.
Qed.

(** *** Stores *)

Definition cell (pool : list (list Tok)) (s o : nat) : option Tok := tile ← pool !! s; tile !! o.

(** The pool cell a slot-mapping entry addresses. *)
Definition addresses (t : list Z) (p : Z) (s o : nat) : Prop :=
  0 <= p /\ Z.to_nat (p mod GROUP) = o
  /\ exists slot, t !! Z.to_nat (p / GROUP) = Some slot /\ 0 <= slot /\ Z.to_nat slot = s.

Definition tile_len (pool : list (list Tok)) : Prop := forall s tile, pool !! s = Some tile -> Z.of_nat (length tile) = GROUP.

Lemma store_token_other t pool p tok s o :
  ~ addresses t p s o -> cell (store_token GROUP t pool (p, tok)) s o = cell pool s o.
Proof.
  intros Ha. unfold store_token. destruct (Z.ltb_spec p 0); [done|].
  destruct (t !! Z.to_nat (p / GROUP)) as [slot|] eqn:Ht; [|done]. destruct (Z.ltb_spec slot 0); [done|].
  unfold cell. destruct (decide (Z.to_nat slot = s)) as [<-|Hne]; [|by rewrite list_lookup_alter_ne].
  rewrite list_lookup_alter_eq. destruct (pool !! Z.to_nat slot) as [tile|]; [|done]. simpl.
  apply list_lookup_insert_ne. intros <-. apply Ha. by repeat (split || eexists).
Qed.

Lemma store_token_shape t pool x :
  tile_len pool -> tile_len (store_token GROUP t pool x) /\ length (store_token GROUP t pool x) = length pool.
Proof.
  intros Hl. unfold store_token. destruct x as [p tok]. destruct (p <? 0); [done|].
  destruct (t !! _) as [slot|]; [|done]. destruct (slot <? 0); [done|]. split; [|apply length_alter].
  intros s tile. destruct (decide (Z.to_nat slot = s)) as [<-|Hne].
  - rewrite list_lookup_alter_eq. destruct (pool !! Z.to_nat slot) as [tile0|] eqn:E0; [|done]. intros [= <-].
    rewrite length_insert. by eapply Hl.
  - rewrite list_lookup_alter_ne by done. apply Hl.
Qed.

Lemma store_token_same t pool p tok s o :
  0 < GROUP -> tile_len pool -> (s < length pool)%nat -> addresses t p s o ->
  cell (store_token GROUP t pool (p, tok)) s o = Some tok.
Proof.
  intros HG0 Hl Hs (Hp & <- & slot & Ht & Hs0 & <-). unfold store_token.
  destruct (Z.ltb_spec p 0); [lia|]. rewrite Ht. destruct (Z.ltb_spec slot 0); [lia|].
  unfold cell. rewrite list_lookup_alter_eq. destruct (lookup_lt_is_Some_2 _ _ Hs) as [tile Htile]. rewrite Htile. simpl.
  apply list_lookup_insert_eq. apply Hl in Htile. pose proof (Z.mod_pos_bound p GROUP HG0). lia.
Qed.

(** A cell no entry addresses keeps its token; the last entry that does wins. *)
Lemma stores_other t xs pool s o :
  (forall p tok, (p, tok) ∈ xs -> ~ addresses t p s o) ->
  cell (foldl (store_token GROUP t) pool xs) s o = cell pool s o.
Proof.
  revert pool. induction xs as [|[p tok] xs IH]; intros pool Hxs; [done|]. cbn [foldl].
  rewrite IH by (intros; eapply Hxs; by right). eapply store_token_other, Hxs. by left.
Qed.

Lemma stores_shape t xs pool :
  tile_len pool -> tile_len (foldl (store_token GROUP t) pool xs)
  /\ length (foldl (store_token GROUP t) pool xs) = length pool.
Proof.
  revert pool. induction xs as [|x xs IH]; intros pool Hl; [done|]. cbn [foldl].
  destruct (store_token_shape t pool x Hl) as [H1 H2]. destruct (IH _ H1) as [? ?]. split; [done|congruence].
Qed.

Lemma stores_hit t xs1 xs2 pool p tok s o :
  0 < GROUP -> tile_len pool -> (s < length pool)%nat -> addresses t p s o ->
  (forall p' tok', (p', tok') ∈ xs2 -> ~ addresses t p' s o) ->
  cell (foldl (store_token GROUP t) pool (xs1 ++ (p, tok) :: xs2)) s o = Some tok.
Proof.
  intros HG0 Hl Hs Ha Hxs. rewrite foldl_app. cbn [foldl]. rewrite stores_other by done.
  destruct (stores_shape t xs1 pool Hl) as [? Hlen]. apply store_token_same; try done. by rewrite Hlen.
Qed.

(** Distinct resident tiles have distinct slots. *)
Lemma slot_inj N (st : state) x y s :
  TileInv GROUP N st -> dict_get st.(dict_map) x = Some s -> dict_get st.(dict_map) y = Some s -> x = y.
Proof.
  intros Hinv Hx Hy. assert (Hnd : NoDup (dict_map st).*2).
  { eapply NoDup_app. rewrite (ti_slots _ _ _ Hinv). apply NoDup_seqZ. }
  apply dict_get_elem, list_elem_of_lookup in Hx as [i Hi]; [|apply Hinv].
  apply dict_get_elem, list_elem_of_lookup in Hy as [j Hj]; [|apply Hinv].
  assert (i = j) as <-; [|congruence].
  eapply (NoDup_lookup _ _ _ s Hnd); by rewrite list_lookup_fmap, ?Hi, ?Hj.
Qed.

Lemma addresses_tile N (st : state) p s o :
  0 < GROUP -> TileInv GROUP N st -> addresses st.(b2s_t) p s o ->
  exists slot, dict_get st.(dict_map) (p / GROUP) = Some slot /\ 0 <= slot /\ Z.to_nat slot = s.
Proof.
  intros HG0 Hinv (Hp & _ & slot & Ht & Hs & Hn). exists slot. split; [|done].
  assert (0 <= p / GROUP) by (by apply Z.div_pos).
  pose proof (lookup_lt_Some _ _ _ Ht). rewrite (ti_mirror _ _ _ Hinv) in Ht by lia.
  injection Ht as Ht. destruct (dict_get _ _); simpl in Ht; [congruence|lia].
Qed.

Lemma addresses_inj N (st : state) p p' s o :
  0 < GROUP -> TileInv GROUP N st -> addresses st.(b2s_t) p s o -> addresses st.(b2s_t) p' s o -> p = p'.
Proof.
  intros HG0 Hinv Ha Ha'. destruct (addresses_tile N st p s o) as (a & Hg & ? & ?); [done..|].
  destruct (addresses_tile N st p' s o) as (a' & Hg' & ? & ?); [done..|].
  assert (a' = a) as -> by lia. pose proof (slot_inj N st _ _ a Hinv Hg Hg') as Hdiv.
  destruct Ha as (_ & Hm & _), Ha' as (_ & Hm' & _).
  pose proof (Z.mod_pos_bound p GROUP HG0). pose proof (Z.mod_pos_bound p' GROUP HG0).
  pose proof (Z.div_mod p GROUP). pose proof (Z.div_mod p' GROUP). nia.
Qed.

(** Distinct slot-mapping entries do not overwrite one another. *)
Lemma scatter_hit N (st : state) (ly : layer) sm toks i p tok s o :
  0 < GROUP -> TileInv GROUP N st -> tile_len ly.(tail_pool) ->
  NoDup (filter (fun s => 0 <= s) sm) -> sm !! i = Some p -> 0 <= p -> toks !! i = Some tok ->
  (s < length ly.(tail_pool))%nat -> addresses st.(b2s_t) p s o ->
  cell (scatter_store GROUP sm toks st.(b2s_t) ly).(tail_pool) s o = Some tok.
Proof.
  intros HG0 Hinv Htl Hnd Hp Hp0 Htok Hs Ha. simpl.
  assert (Hz : zip sm toks !! i = Some (p, tok)) by (apply lookup_zip_with_Some; eauto).
  rewrite <- (take_drop_middle _ _ _ Hz). apply stores_hit; [done..|].
  intros p' tok' Hin Ha'. assert (p' = p) as -> by (by eapply addresses_inj).
  apply list_elem_of_lookup in Hin as [j Hj]. rewrite lookup_drop in Hj.
  apply lookup_zip_with_Some in Hj as (? & ? & [= <- <-] & Hj & _).
  pose proof (filter_pos_inj _ _ _ _ Hnd Hp0 Hp Hj). lia.
Qed.

(** A resident tile is read from its slot. *)
Lemma read_resident N (st : state) (ly : layer) x s :
  TileInv GROUP N st -> st.(max_known) < Z.of_nat (length st.(b2s_t)) -> dict_get st.(dict_map) x = Some s ->
  read_tile st ly x = inl <$> ly.(tail_pool) !! Z.to_nat s /\ st.(b2s_t) !! Z.to_nat x = Some s /\ 0 <= s < st.(pool_size).
Proof.
  intros Hinv Hcov Hx. pose proof (pool_slot_range _ _ _ _ _ Hinv Hx) as Hr. unfold read_tile.
  assert (Hk : x ∈ (dict_map st).*1) by (apply dict_get_Some; eauto).
  apply (ti_range _ _ _ Hinv) in Hk. rewrite (ti_mirror _ _ _ Hinv) by lia. rewrite Hx. simpl.
  by destruct (Z.leb_spec 0 s); [|lia].
Qed.

(** C25: No token is dropped.  After a successful build, the store of a layer writes
    every token of the step into its pool, and a kernel that then reads the token's
    tile finds the token at its offset. *)
Theorem stored_tokens_are_read k c st st' j ly num_blocks toks i p tok :
  step_pre k c st ->
  build pack GROUP tpr mtp_full set_order k c st = (Ok tt, st') ->
  st'.(layers) !! j = Some ly ->
  Z.of_nat (length ly.(tail_pool)) = st.(pool_size) -> tile_len ly.(tail_pool) ->
  NoDup (filter (fun s => 0 <= s) c.(slot_mapping)) ->
  c.(slot_mapping) !! i = Some p -> 0 <= p -> toks !! i = Some tok ->
  let st'' := do_kv_cache_update GROUP num_blocks c.(slot_mapping) toks j st' in
  exists ly' tile,
    st''.(layers) !! j = Some ly'
    /\ read_tile st'' ly' (p / GROUP) = Some (inl tile) /\ tile !! Z.to_nat (p mod GROUP) = Some tok.
Proof using All.
  intros Hpre Hrun Hly Hlen Htl Hnd Hp Hp0 Htok st''.
  destruct (build_outcome k c st Hpre) as [(_ & st1 & F & D & Hrun' & Hst)|(_ & st1 & Hrun')];
    rewrite Hrun in Hrun'; [|done]. injection Hrun' as <-. destruct Hst as [I0 _ P N _ _ _ _ _].
  destruct (proj2 (dict_get_Some _ _) (N (p / GROUP) (touched_needed k c st _ Hpre
    (or_intror (ex_intro _ p (conj (list_elem_of_lookup_2 _ _ _ Hp) (conj Hp0 eq_refl))))))) as [s Hs].
  destruct (do_kv_cache_update_inv num_blocks c.(slot_mapping) toks j st' I0) as (I & Hd & Hps & Hc).
  destruct Hc as [C1 Hl]; [by intros Hnil; rewrite Hnil in Hp|]. fold st'' in I, Hd, Hps, C1, Hl. rewrite <- Hd in Hs.
  set (ly' := scatter_store GROUP (slot_mapping c) toks (b2s_t st'') ly).
  exists ly'. destruct (read_resident ∅ st'' ly' _ _ I C1 Hs) as (Hread & Hb & Hr).
  assert (Ha : addresses (b2s_t st'') p (Z.to_nat s) (Z.to_nat (p mod GROUP))) by (by repeat (split || eexists); try lia).
  assert (Hcell : cell (tail_pool ly') (Z.to_nat s) (Z.to_nat (p mod GROUP)) = Some tok).
  { apply (scatter_hit ∅ st'' ly _ _ i p); try done. lia. }
  unfold cell in Hcell. destruct (tail_pool ly' !! Z.to_nat s) as [tile|] eqn:Htile; [|done].
  exists tile. rewrite Hread, Hl, list_lookup_alter_eq, Hly. done.
Qed.

(** *** Sizing of the pool *)

(** The tiles row [r] can ask for: its first tile and the tiles it writes. *)
Definition row_tiles (cols : Z) (r : Z * Z * list Z) : list Z :=
  let '(sl, q_len, row) := r in
  omap (fun t => match tile_row tpr row t with Ok o => o | Raise _ => None end)
    (0 :: (if 0 <? sl then seqZ (first_written GROUP sl q_len) (end_written GROUP tpr cols sl - first_written GROUP sl q_len)
           else [])).

(** The row crosses no more tile boundaries than a query of its length that starts
    at a boundary: true when one token is written, or when the chunk starts a tile. *)
Definition row_fits (r : Z * Z * list Z) : Prop :=
  let '(sl, q_len, _) := r in
  0 < sl -> q_len <= sl /\ (sl - 1) / GROUP - (sl - q_len) / GROUP <= (q_len - 1) / GROUP.

Lemma length_omap_le {A B} (f : A -> option B) l : (length (omap f l) <= length l)%nat.
Proof.
  induction l as [|x l IH]; [done|].
  change (omap f (x :: l)) with (match f x with Some y => y :: omap f l | None => omap f l end).
  destruct (f x); cbn [length]; lia.
Qed.

Lemma row_tiles_length cols sl q_len row :
  0 < GROUP -> 1 <= q_len -> row_fits (sl, q_len, row) ->
  Z.of_nat (length (row_tiles cols (sl, q_len, row))) <= 2 + (q_len - 1) / GROUP.
Proof.
  intros HG0 Hq Hfit. unfold row_tiles. set (l := if 0 <? sl then seqZ _ _ else []).
  set (f := fun t : Z => match tile_row tpr row t with Ok o => o | Raise _ => None end).
  pose proof (length_omap_le f (0 :: l)) as Hlen.
  assert (Hl : length (0 :: l) = S (length l)) by done. rewrite Hl in Hlen. clear Hl.
  assert (0 <= (q_len - 1) / GROUP) by (apply Z.div_pos; lia).
  cut (Z.of_nat (length l) <= 1 + (q_len - 1) / GROUP); [lia|]. unfold l.
  destruct (Z.ltb_spec 0 sl) as [Hsl|]; [|simpl; lia]. destruct (Hfit Hsl) as [Hle Hc].
  rewrite length_seqZ. unfold end_written, first_written, committed. rewrite Z.max_l by lia.
  assert ((sl + GROUP - 1) / GROUP = (sl - 1) / GROUP + 1).
  { replace (sl + GROUP - 1) with (sl - 1 + 1 * GROUP) by lia. rewrite Z.div_add; lia. }
  lia.
Qed.

Lemma needed_in_rows k c st x :
  step_pre k c st ->
  (forall sm, sm ∈ c.(slot_mapping) -> 0 <= sm -> exists r, r ∈ batch_rows c /\ row_writes GROUP tpr c.(bt_cols) r (sm / GROUP)) ->
  x ∈ needed_tiles c st -> exists r, r ∈ batch_rows c /\ x ∈ row_tiles c.(bt_cols) r.
Proof using HG Htpr.
  intros [_ Hcols Hwf _ _ _] Hsm Hx. unfold needed_tiles in Hx.
  destruct (blocks_written_spec GROUP tpr c (block_fill st)) as (N0 & fill & Hbw & HN0 & _); [done..|].
  rewrite Hbw in Hx. apply elem_of_union in Hx as [Hx|[Hx _]%elem_of_intersection].
  - assert (exists r, r ∈ batch_rows c /\ row_writes GROUP tpr c.(bt_cols) r x) as ([[sl q_len] row] & Hr & _ & Hsl & t & Ht & Htr).
    { apply HN0 in Hx as [?|(sm & ? & ? & ->)]; auto. }
    exists (sl, q_len, row). split; [done|]. unfold row_tiles. apply list_elem_of_omap. exists t.
    rewrite Htr. split; [|done]. right. destruct (Z.ltb_spec 0 sl); [|lia]. apply elem_of_seqZ. lia.
  - unfold first_tiles in Hx. destruct (_ =? 0); [done|]. apply elem_of_list_to_set, list_elem_of_omap in Hx.
    destruct Hx as ([[sl q_len] row] & Hr & Hh). exists (sl, q_len, row). split; [done|].
    unfold row_tiles. apply list_elem_of_omap. exists 0. split; [by left|].
    simpl in Hh. destruct row as [|v row]; [done|]. simpl in Hh. unfold tile_row. rewrite Z.div_0_l, Z.mod_0_l by lia.
    simpl. destruct (v <? 0); [done|]. by rewrite Z.add_0_r.
Qed.

Lemma rows_tiles_length cols rows T :
  0 < GROUP -> (forall sl q_len row, (sl, q_len, row) ∈ rows -> 1 <= q_len /\ row_fits (sl, q_len, row)) ->
  foldr (fun r a => r.1.2 + a) 0 rows <= T ->
  Z.of_nat (length (concat (row_tiles cols <$> rows))) <= 2 * Z.of_nat (length rows) + T / GROUP.
Proof.
  intros HG0. revert T. induction rows as [|[[sl q_len] row] rows IH]; intros T Hrows HT.
  { simpl in *. assert (0 <= T / GROUP) by (apply Z.div_pos; lia). lia. }
  rewrite fmap_cons. cbn [concat foldr fst snd length] in *. rewrite length_app.
  destruct (Hrows sl q_len row) as [Hq Hfit]; [by left|].
  pose proof (row_tiles_length cols sl q_len row HG0 Hq Hfit).
  assert (Hrest : forall sl q_len row, (sl, q_len, row) ∈ rows -> 1 <= q_len /\ row_fits (sl, q_len, row))
    by (intros; apply Hrows; by right).
  specialize (IH (T - q_len) Hrest ltac:(lia)).
  assert ((q_len - 1) / GROUP + (T - q_len) / GROUP <= T / GROUP); [|lia].
  pose proof (Z.div_mod (q_len - 1) GROUP). pose proof (Z.div_mod (T - q_len) GROUP).
  pose proof (Z.mod_pos_bound (q_len - 1) GROUP HG0). pose proof (Z.mod_pos_bound (T - q_len) GROUP HG0).
  apply Z.div_le_lower_bound; [done|]. nia.
Qed.

(** The pool is exhaustion-safe for decode and aligned prefill.  With at most
    [max_num_seqs] requests and [max_num_batched_tokens] query tokens in the batch,
    a pool of [pool_slots] slots never runs out in an engine build, provided that each
    request crosses no more tile boundaries than its query length forces and that
    every token of the slot mapping belongs to a request of the batch. *)
Theorem pool_slots_suffice cfg k c st max_num_seqs max_num_batched_tokens :
  step_pre k c st -> draft_build c = false ->
  GROUP = cfg.(group) -> st.(pool_size) = pool_slots cfg max_num_seqs max_num_batched_tokens ->
  Z.of_nat (length (batch_rows c)) <= max_num_seqs ->
  foldr (fun r a => r.1.2 + a) 0 (batch_rows c) <= max_num_batched_tokens ->
  (forall r, r ∈ batch_rows c -> row_fits r) ->
  (forall sm, sm ∈ c.(slot_mapping) -> 0 <= sm ->
     exists r, r ∈ batch_rows c /\ row_writes GROUP tpr c.(bt_cols) r (sm / GROUP)) ->
  exists st', build pack GROUP tpr mtp_full set_order k c st = (Ok tt, st').
Proof using All.
  intros Hpre Hdraft Hg Hpool Hrows Htoks Hfits Hsm.
  destruct (build_outcome k c st Hpre) as [(_ & st' & F & D & Hrun & _)|(Hfit & _)]; [by eexists|].
  destruct Hfit. unfold demand. rewrite Hdraft, Hpool.
  assert (Hsub : needed_tiles c st ⊆ list_to_set (concat (row_tiles c.(bt_cols) <$> batch_rows c))).
  { intros x Hx. destruct (needed_in_rows k c st x Hpre Hsm Hx) as (r & Hr & Hxr).
    apply elem_of_list_to_set, list_elem_of_In, in_concat. exists (row_tiles c.(bt_cols) r).
    split; apply list_elem_of_In; [by apply list_elem_of_fmap_2|done]. }
  apply subseteq_size in Hsub. pose proof (size_list_to_set_le (concat (row_tiles c.(bt_cols) <$> batch_rows c))).
  pose proof (rows_tiles_length c.(bt_cols) (batch_rows c) max_num_batched_tokens HG) as Hlen.
  specialize (Hlen ltac:(intros sl q row Hr; split; [by apply (sp_batch _ _ _ Hpre sl q row Hr)|by apply Hfits]) Htoks).
  assert (max_num_batched_tokens / GROUP <= prefill_blocks cfg max_num_batched_tokens).
  { unfold prefill_blocks. rewrite <- Hg. apply Z.div_le_mono; lia. }
  unfold pool_slots. lia.
Qed.

(** A draft build never takes a slot away from a tile of the engine's batch:
    every resident tile that is not a retired sink keeps its slot, so the engine's
    view of the pool survives the draft model's narrower batch. *)
Theorem draft_build_keeps_slots k c st st' x s :
  step_pre k c st -> draft_build c = true ->
  build pack GROUP tpr mtp_full set_order k c st = (Ok tt, st') ->
  dict_get st.(dict_map) x = Some s -> x ∉ st.(retired_sinks) -> dict_get st'.(dict_map) x = Some s.
Proof using All.
  intros Hpre Hdraft Hrun Hx Hnr. destruct (build_prepares k c st Hpre) as (st2 & Hprep & Heq).
  destruct (engine_phase_total k c st st2 Hpre Hprep) as (st3 & Hep & Hpost & Hd). rewrite Hdraft in Hd. subst st3.
  rewrite Heq, Hep, bind_lift, bind_modify in Hrun. unfold allocate in Hrun. pose proof Hprep as [I C R Dm P _ _ _].
  destruct (allocate_loop pack GROUP mtp_full k (needed_tiles c st) (set_order (needed_tiles c st)) st2)
    as [(_ & st1 & E & Hrun' & Ha & _)|(_ & st1 & Hrun')]; [apply Hpre|rewrite P; apply Hpre|done|done|..].
  - intros b Hb. rewrite Horder in Hb. by apply elem_of_elements.
  - intros y Hy. by apply R.
  - rewrite Hrun in Hrun'. injection Hrun' as <-. destruct Ha as [_ _ _ _ V G S _]. rewrite Dm in *.
    destruct (decide (x ∈ needed_tiles c st)) as [Hn|Hn]; [by apply S|].
    rewrite (G x Hn). rewrite decide_False; [done|]. by intros [? _]%V%R.
  - by rewrite Hrun in Hrun'.
Qed.
End props.

(** ** A concrete engine

    Two requests on tiles of 128 tokens: the first step prefills 130 and 256 tokens,
    the second decodes one token each, which completes tile row 2. *)

Lemma wf_batch_Forall GROUP tpr c :
  Forall (fun r : Z * Z * list Z => Z.of_nat (length r.2) = c.(bt_cols)
            /\ r.1.1 <= c.(bt_cols) * tpr * GROUP /\ 1 <= r.1.2) (batch_rows c) -> wf_batch GROUP tpr c.
Proof. intros H sl q_len row Hr. by apply (proj1 (Forall_forall _ _) H) in Hr. Qed.

Definition ex_cfg : KVarNConfig := mkKVarNConfig 128 4 4 128 8 128 0.

Definition zero_layer (n : nat) : Layer nat (list nat) := mkLayer true (replicate n (replicate 128 0%nat)) true ∅.

Definition ex_layer : Layer nat (list nat) := zero_layer 13.

Definition ex_step1 : Batch :=
  mkBatch [130; 256] [130; 256] [[3; 5; -1]; [1; 2; -1]] 3 [] false.

Definition ex_step2 (draft : bool) : Batch :=
  mkBatch [131; 257] [1; 1] [[3; 5; -1]; [1; 2; 7]] 3 [5 * 128 + 2; 7 * 128] draft.

Definition ex_build (c : Batch) (st : TileState nat (list nat)) : TileState nat (list nat) :=
  (build id 128 1 true elements 4 c st).2.

Definition ex_new : TileState nat (list nat) := new_tiles 13 [ex_layer].

Definition ex_mid : TileState nat (list nat) := Eval vm_compute in ex_build ex_step1 ex_new.

Lemma ex_order (N : gset Z) : elements N ≡ₚ elements N.
Proof. done. Qed.

Lemma ex_pre1 : step_pre 128 1 4 ex_step1 ex_new.
Proof.
  split; try done; [lia|apply wf_batch_Forall; repeat constructor; simpl; lia|apply new_tiles_inv].
Qed.

Lemma ex_run1 : build id 128 1 true elements 4 ex_step1 ex_new = (Ok tt, ex_mid).
Proof. vm_compute. reflexivity. Qed.

Lemma ex_pre2 draft : step_pre 128 1 4 (ex_step2 draft) ex_mid.
Proof.
  split; try done; [lia|apply wf_batch_Forall; repeat constructor; simpl; lia|].
  by apply (build_inv id 128 1 elements true) with (k := 4%nat) (c := ex_step1) (st := ex_new);
    [done|done|apply ex_order|apply ex_pre1|apply ex_run1].
Qed.

Lemma ex_run2 draft : build id 128 1 true elements 4 (ex_step2 draft) ex_mid = (Ok tt, ex_build (ex_step2 draft) ex_mid).
Proof. destruct draft; vm_compute; reflexivity. Qed.

Lemma build_succeeds_iff_fits_witness :
  size (demand 128 1 true (ex_step2 false) ex_mid) = 4%nat
  /\ exists st', build id 128 1 true elements 4 (ex_step2 false) ex_mid = (Ok tt, st').
Proof.
  split; [vm_compute; reflexivity|].
  apply (build_succeeds_iff_fits id 128 1 elements true ltac:(lia) ltac:(lia) ex_order 4 _ _ (ex_pre2 false)).
  vm_compute. discriminate.
Defined.

(** In the second step tile row 2 is complete and nobody writes it. *)
Lemma ex_complete y : complete_for 128 1 (ex_step2 false) y -> ~ touched 128 1 (ex_step2 false) y.
Proof.
  intros Hc Ht. apply (touched_needed 128 1 ltac:(lia) ltac:(lia) 4 _ ex_mid y (ex_pre2 false)) in Ht.
  assert (Hn : needed_tiles 128 1 (ex_step2 false) ex_mid = {[1; 3; 5; 7]}) by (vm_compute; reflexivity).
  rewrite Hn in Ht. destruct Hc as (sl & q_len & row & t & Hr & Ht1 & Hle & Htr).
  assert (Hrows : batch_rows (ex_step2 false) = [(131, 1, [3; 5; -1]); (257, 1, [1; 2; 7])]) by reflexivity.
  rewrite Hrows in Hr. elem_cases Hr; simplify_eq.
  - lia.
  - assert (t = 1) as -> by lia. vm_compute in Htr. simplify_eq. set_solver.
Qed.

Lemma build_preserves_tile_data_witness :
  exists ly', (ex_build (ex_step2 false) ex_mid).(layers) !! 0%nat = Some ly'
  /\ tail_pool ly' = tail_pool ex_layer
  /\ tile_fate id 128 1 (ex_step2 false) ex_mid (ex_build (ex_step2 false) ex_mid) ex_layer ly' 2.
Proof.
  destruct (lookup_lt_is_Some_2 (ex_build (ex_step2 false) ex_mid).(layers) 0) as [ly' Hly']; [vm_compute; lia|].
  exists ly'. split; [done|].
  apply (build_preserves_tile_data id 128 1 elements true ltac:(lia) ltac:(lia) ex_order 4 _ _ _ 0 _ _ 2 (ex_pre2 false)
           (ex_run2 false) ex_complete); [reflexivity|exact Hly'|reflexivity|reflexivity].
Defined.

Lemma flush_queue_is_committed_witness :
  2 ∉ ex_mid.(sinks) /\ exists sl q_len row t,
    (sl, q_len, row) ∈ batch_rows (ex_step2 false) /\ tile_row 1 row t = Ok (Some 2) /\ 1 <= t
    /\ forall p, p / 128 = t -> p < sl - q_len.
Proof.
  apply (flush_queue_is_committed 128 1 ltac:(lia) (ex_step2 false) ex_mid ([2], {[2]}) 2);
    [vm_compute; reflexivity|by left].
Defined.

Lemma tiles_reachable_inv_witness :
  TileInv 128 ∅ ex_mid /\ ex_mid.(pool_size) = 13.
Proof.
  apply (tiles_reachable_inv id 128 1 elements true ltac:(lia) ltac:(lia) ex_order 13); [lia|].
  eapply reach_build with (k := 4%nat) (c := ex_step1); [apply reach_new|lia|simpl; lia|apply ex_pre1| |exact ex_run1].
  reflexivity.
Defined.

Lemma stored_tokens_are_read_witness :
  let st' := ex_build (ex_step2 false) ex_mid in
  let st'' := do_kv_cache_update 128 4096 (slot_mapping (ex_step2 false)) [41; 42]%nat 0 st' in
  exists ly' tile,
    st''.(layers) !! 0%nat = Some ly'
    /\ read_tile st'' ly' (7 * 128 / 128) = Some (inl tile) /\ tile !! Z.to_nat (7 * 128 mod 128) = Some 42%nat.
Proof.
  intros st'. destruct (lookup_lt_is_Some_2 st'.(layers) 0) as [ly Hly]; [vm_compute; lia|].
  assert (Hpool : tail_pool ly = tail_pool ex_layer) by (vm_compute in Hly; injection Hly as <-; reflexivity).
  apply (stored_tokens_are_read id 128 1 elements true ltac:(lia) ltac:(lia) ex_order 4 _ _ _ 0 ly 4096 [41; 42]%nat 1 _ 42%nat
           (ex_pre2 false) (ex_run2 false) Hly); try reflexivity; rewrite ?Hpool; try reflexivity; [| |lia].
  - intros s tile Hs. apply list_elem_of_lookup_2, elem_of_replicate in Hs as [-> _]. reflexivity.
  - apply (bool_decide_unpack _). vm_compute. exact I.
Defined.

Lemma pool_slots_suffice_witness :
  exists st', build id 128 1 true elements 4 (ex_step2 false) ex_mid = (Ok tt, st').
Proof.
  apply (pool_slots_suffice id 128 1 elements true ltac:(lia) ltac:(lia) ex_order ex_cfg 4 _ _ 2 128 (ex_pre2 false));
    try reflexivity; [vm_compute; discriminate| |].
  - intros r Hr. assert (Hrows : batch_rows (ex_step2 false) = [(131, 1, [3; 5; -1]); (257, 1, [1; 2; 7])]) by reflexivity.
    rewrite Hrows in Hr. elem_cases Hr; simplify_eq; intros _; split; vm_compute; discriminate.
  - intros sm Hsm _. assert (Hs : sm = 642 \/ sm = 896) by (simpl in Hsm; elem_cases Hsm; auto).
    destruct Hs as [-> | ->]; [exists (131, 1, [3; 5; -1])|exists (257, 1, [1; 2; 7])];
      (split; [vm_compute; set_solver|split; [done|split; [done|]]]); [exists 1|exists 2]; done.
Defined.

Lemma draft_build_keeps_slots_witness :
  exists s, dict_get ex_mid.(dict_map) 2 = Some s
  /\ dict_get (ex_build (ex_step2 true) ex_mid).(dict_map) 2 = Some s.
Proof.
  destruct (dict_get ex_mid.(dict_map) 2) as [s|] eqn:Hs; [|vm_compute in Hs; discriminate].
  exists s. split; [reflexivity|].
  apply (draft_build_keeps_slots id 128 1 elements true ltac:(lia) ltac:(lia) ex_order 4 (ex_step2 true) ex_mid _ 2 s
           (ex_pre2 true)); [reflexivity|exact (ex_run2 true)|exact Hs|vm_compute; set_solver].
Defined.

(** *** Speculative decoding and the pool size

    Ten requests decode two tokens per step within the limits the pool is sized for
    (10 sequences, 20 tokens per step).  All drafts are accepted up to 256 tokens, then
    one is rejected, and every request is at 255 committed tokens when the next step
    writes positions 255 and 256. *)

Definition spec_step (sl : Z) : Batch :=
  mkBatch (replicate 10 sl) (replicate 10 2) ((fun r => [3 * r; 3 * r + 1; 3 * r + 2]) <$> seqZ 0 10) 3 [] false.

Definition spec_run : list Batch := (spec_step <$> ((fun i => 2 * i) <$> seqZ 1 128)) ++ [spec_step 257].

