(* ===== verification/KVarNPack.v ===== *)
(** * Packed tile records

    Models the packing of quantised codes in [vllm/v1/attention/ops/kvarn_store.py]
    and [kvarn_decode.py], the tile record written by
    [KVarNAttentionImpl._write_packed] and by [_batched_flush], the reference reader
    [_read_block_dequantized], and how the materialising kernel
    [_kvarn_build_packed_kv_kernel] of [triton_kvarn_decode.py] decodes one record.

    Bytes are integers in [0, 256), fp16 values their 16-bit patterns.  Float
    arithmetic on codes and scales is a parameter: the theorems are about which
    codes, scales and tokens reach it. *)

From S2P Require Import Prelude KVarNConfig.

(** ** Codes *)

(** [x.to(torch.uint8)] *)
Definition to_uint8 (x : Z) : Z := x mod 256.

(** [q[..., 0::2]]; [q[..., 1::2]] is the same slice of the tail. *)
Fixpoint evens (q : list Z) : list Z :=
  match q with
  | [] => []
  | x :: q' => x :: match q' with [] => [] | _ :: q'' => evens q'' end
  end.

(** The packing functions work on the last dimension; a row is a list. *)
Definition pack_4bit (q : list Z) : res (list Z) :=
  if Z.of_nat (length q) mod 2 =? 0 then
    let q := (fun x => Z.land (to_uint8 x) 15) <$> q in
    Ok (zip_with (fun lo hi => Z.lor lo (to_uint8 (Z.shiftl hi 4))) (evens q) (evens (tail q)))
  else Raise AssertionError.

(** One byte from [pack] values: [out = q[0]; out = out | (q[j] << (j * bits))]. *)
Fixpoint or_shifted (bits : Z) (j : Z) (out : Z) (q : list Z) : Z :=
  match q with
  | [] => out
  | x :: q' => or_shifted bits (j + 1) (Z.lor out (to_uint8 (Z.shiftl x (j * bits)))) q'
  end.

Definition pack_byte (bits : Z) (q : list Z) : Z :=
  match q with
  | [] => 0
  | x :: q' => or_shifted bits 1 x q'
  end.

Definition pack_lowbit (bits : Z) (q : list Z) : res (list Z) :=
  let pack := 8 / bits in
  if Z.of_nat (length q) mod pack =? 0 then
    let q := (fun x => Z.land (to_uint8 x) (Z.shiftl 1 bits - 1)) <$> q in
    let n := Z.to_nat pack in
    Ok ((fun i => pack_byte bits (take n (drop (i * n) q))) <$> seq 0 (length q / n))
  else Raise AssertionError.

(** Value [c] of a packed row: byte [c // pack], shift [(c % pack) * bits]. *)
Definition code_at (bits : Z) (byte c : Z) : Z :=
  Z.land (Z.shiftr byte ((c mod (8 / bits)) * bits)) (Z.shiftl 1 bits - 1).

(** [out[..., j::pack] = (packed >> (j * bits)) & mask] for all [j < pack]: index [c]
    is written by [j = c % pack] from byte [c // pack].  The assignment needs one
    byte per slice element. *)
Definition spread (bits : Z) (packed : list Z) (original_last_dim : Z) : res (list Z) :=
  let pack := 8 / bits in
  if Z.of_nat (length packed) =? original_last_dim / pack then
    Ok ((fun c => code_at bits (default 0 (packed !! Z.to_nat (c / pack))) c) <$> seqZ 0 original_last_dim)
  else Raise RuntimeError.

Definition unpack_4bit (packed : list Z) (original_last_dim : Z) : res (list Z) :=
  if original_last_dim mod 2 =? 0 then spread 4 packed original_last_dim else Raise AssertionError.

Definition unpack_lowbit (packed : list Z) (original_last_dim bits : Z) : res (list Z) :=
  if bits =? 4 then unpack_4bit packed original_last_dim else
  if original_last_dim mod (8 / bits) =? 0 then spread bits packed original_last_dim
  else Raise AssertionError.

(** ** Facts about packed bytes *)

Lemma lor_shifted a b n : 0 <= n -> 0 <= a < 2 ^ n -> Z.lor a (Z.shiftl b n) = a + b * 2 ^ n.
Proof.
  intros Hn Ha. rewrite <- Z.shiftl_mul_pow2 by done.
  assert (Hand : Z.land a (Z.shiftl b n) = 0).
  { apply Z.bits_inj'. intros i Hi. rewrite Z.land_spec, Z.bits_0.
    destruct (Z.ltb_spec i n) as [Hlt|Hge].
    - rewrite Z.shiftl_spec_low by done. by rewrite andb_false_r.
    - destruct (decide (a = 0)) as [->|Ha0]; [by rewrite Z.bits_0|].
      rewrite Z.bits_above_log2; [done|lia|]. apply Z.log2_lt_pow2; [lia|].
      pose proof (Z.pow_le_mono_r 2 n i). lia. }
  rewrite Z.add_nocarry_lxor by done. by rewrite Z.lxor_lor.
Qed.

(** The number whose base-2^bits digits are [q]. *)
Fixpoint digits (bits : Z) (q : list Z) : Z :=
  match q with
  | [] => 0
  | x :: q' => x + 2 ^ bits * digits bits q'
  end.

Lemma digits_range bits q :
  0 <= bits -> Forall (fun x => 0 <= x < 2 ^ bits) q -> 0 <= digits bits q < 2 ^ (Z.of_nat (length q) * bits).
Proof.
  intros Hb. induction 1 as [|x q Hx Hq IH]; [done|]. cbn [digits length].
  replace (Z.of_nat (S (length q)) * bits) with (bits + Z.of_nat (length q) * bits) by lia.
  rewrite Z.pow_add_r by lia. nia.
Qed.

Lemma or_shifted_digits bits j out q :
  0 < bits -> 0 <= j -> Forall (fun x => 0 <= x < 2 ^ bits) q -> 0 <= out < 2 ^ (j * bits) ->
  (j + Z.of_nat (length q)) * bits <= 8 -> or_shifted bits j out q = out + 2 ^ (j * bits) * digits bits q.
Proof.
  intros Hb. revert j out. induction q as [|x q IH]; intros j out Hj Hq Hout Hlen; cbn [or_shifted digits]; [lia|].
  apply Forall_cons in Hq as [Hx Hq]. cbn [length] in Hlen.
  assert (Hpow : 2 ^ ((j + 1) * bits) = 2 ^ (j * bits) * 2 ^ bits)
    by (rewrite <- Z.pow_add_r by lia; f_equal; lia).
  assert (Hsh : to_uint8 (Z.shiftl x (j * bits)) = Z.shiftl x (j * bits)).
  { unfold to_uint8. rewrite Z.shiftl_mul_pow2 by lia. apply Z.mod_small.
    assert (2 ^ ((j + 1) * bits) <= 2 ^ 8) by (apply Z.pow_le_mono_r; lia). nia. }
  rewrite Hsh, lor_shifted by lia. rewrite IH; [|lia|done|nia|lia]. rewrite Hpow. nia.
Qed.

Lemma pack_byte_digits bits q :
  0 < bits -> Forall (fun x => 0 <= x < 2 ^ bits) q -> Z.of_nat (length q) * bits <= 8 ->
  pack_byte bits q = digits bits q.
Proof.
  intros Hb Hq Hlen. destruct q as [|x q]; [done|]. apply Forall_cons in Hq as [Hx Hq].
  cbn [pack_byte digits length] in *. rewrite or_shifted_digits; [|done|lia|done| |lia]; by rewrite Z.mul_1_l.
Qed.

Lemma mask_ones bits : Z.shiftl 1 bits - 1 = Z.ones bits.
Proof. rewrite Z.ones_equiv, Z.shiftl_1_l. lia. Qed.

Lemma digit_lookup bits q j x :
  0 < bits -> Forall (fun x => 0 <= x < 2 ^ bits) q -> q !! j = Some x ->
  Z.land (Z.shiftr (digits bits q) (Z.of_nat j * bits)) (Z.shiftl 1 bits - 1) = x.
Proof.
  intros Hb. rewrite mask_ones, Z.land_ones by lia. revert j.
  induction q as [|y q IH]; intros j Hq Hj; [done|]. apply Forall_cons in Hq as [Hy Hq]. cbn [digits].
  rewrite Z.shiftr_div_pow2 by lia. destruct j as [|j]; simpl in Hj.
  - injection Hj as ->. rewrite Z.mul_0_l, Z.pow_0_r, Z.div_1_r, Z.mul_comm, Z.mod_add by lia. by apply Z.mod_small.
  - rewrite <- (IH j Hq Hj), Z.shiftr_div_pow2 by lia. f_equal.
    replace (Z.of_nat (S j) * bits) with (bits + Z.of_nat j * bits) by lia. rewrite Z.pow_add_r by lia.
    rewrite <- Z.div_div by lia. f_equal. rewrite Z.mul_comm, Z.div_add by lia. rewrite Z.div_small by lia. lia.
Qed.

Definition code (bits x : Z) : Prop := 0 <= x < 2 ^ bits.

Lemma mask_code bits x : 0 <= bits <= 8 -> code bits x -> Z.land (to_uint8 x) (Z.shiftl 1 bits - 1) = x.
Proof.
  intros Hb [Hx0 Hx]. assert (2 ^ bits <= 2 ^ 8) by (apply Z.pow_le_mono_r; lia).
  unfold to_uint8. rewrite (Z.mod_small x 256) by lia. rewrite mask_ones, Z.land_ones by lia. by apply Z.mod_small.
Qed.

Lemma mask_codes bits q :
  0 <= bits <= 8 -> Forall (code bits) q -> (fun x => Z.land (to_uint8 x) (Z.shiftl 1 bits - 1)) <$> q = q.
Proof.
  intros Hb. induction 1 as [|x q Hx Hq IH]; [done|]. rewrite fmap_cons, IH. f_equal. by apply mask_code.
Qed.

Lemma pack_pos bits : 1 <= bits <= 8 -> 1 <= 8 / bits /\ 8 / bits * bits <= 8.
Proof. intros Hb. pose proof (Z.div_le_lower_bound 8 bits 1). pose proof (Z.mul_div_le 8 bits). lia. Qed.

Lemma pack_lowbit_spec bits q :
  1 <= bits <= 8 -> Forall (code bits) q -> Z.of_nat (length q) mod (8 / bits) = 0 ->
  exists p, pack_lowbit bits q = Ok p /\ Z.of_nat (length p) = Z.of_nat (length q) / (8 / bits)
    /\ Forall (fun b => 0 <= b < 256) p
    /\ forall c x, 0 <= c -> q !! Z.to_nat c = Some x ->
         exists b, p !! Z.to_nat (c / (8 / bits)) = Some b /\ code_at bits b c = x.
Proof.
  intros Hb Hq Hlen. destruct (pack_pos bits Hb) as [Hp1 Hp2]. unfold pack_lowbit. cbv zeta.
  rewrite (proj2 (Z.eqb_eq _ _) Hlen), mask_codes by (done || lia).
  set (pack := 8 / bits) in *. set (n := Z.to_nat pack).
  assert (Hchunk : forall i, pack_byte bits (take n (drop (i * n) q)) = digits bits (take n (drop (i * n) q))).
  { intros i. apply pack_byte_digits; [lia|by apply Forall_take, Forall_drop|]. rewrite length_take. nia. }
  eexists. split; [done|]. split_and!.
  - rewrite length_fmap, length_seq. rewrite Nat2Z.inj_div. unfold n. by rewrite Z2Nat.id by lia.
  - apply Forall_fmap, Forall_forall. intros i _. simpl. rewrite Hchunk.
    destruct (digits_range bits (take n (drop (i * n) q))) as [H0 H1]; [lia|by apply Forall_take, Forall_drop|].
    split; [done|]. eapply Z.lt_le_trans; [exact H1|]. change 256 with (2 ^ 8). apply Z.pow_le_mono_r; [lia|].
    rewrite length_take. nia.
  - intros c x Hc Hx. pose proof (lookup_lt_Some _ _ _ Hx) as Hlt.
    pose proof (Z.div_mod c pack ltac:(lia)) as Hdm. pose proof (Z.mod_pos_bound c pack ltac:(lia)).
    assert (Hi : (Z.to_nat (c / pack) < length q / n)%nat).
    { apply Nat2Z.inj_lt. rewrite Nat2Z.inj_div, Z2Nat.id by (apply Z.div_pos; lia). unfold n.
      rewrite Z2Nat.id by lia. pose proof (Z.div_mod (Z.of_nat (length q)) pack ltac:(lia)) as Hd. nia. }
    exists (digits bits (take n (drop (Z.to_nat (c / pack) * n) q))). split.
    + rewrite list_lookup_fmap, lookup_seq_lt by done. simpl. by rewrite Hchunk.
    + unfold code_at. fold pack. rewrite <- (Z2Nat.id (c mod pack)) by lia. apply digit_lookup; [lia|by apply Forall_take, Forall_drop|].
      rewrite lookup_take_lt by (unfold n; lia). rewrite lookup_drop.
      rewrite <- Hx. f_equal. assert (0 <= c / pack) by (apply Z.div_pos; lia).
      apply Nat2Z.inj. unfold n. rewrite Nat2Z.inj_add, Nat2Z.inj_mul, !Z2Nat.id by lia. lia.
Qed.

Lemma spread_inv bits q p :
  1 <= bits <= 8 -> Z.of_nat (length p) = Z.of_nat (length q) / (8 / bits) ->
  (forall c x, 0 <= c -> q !! Z.to_nat c = Some x -> exists b, p !! Z.to_nat (c / (8 / bits)) = Some b /\ code_at bits b c = x) ->
  spread bits p (Z.of_nat (length q)) = Ok q.
Proof.
  intros Hb Hlen Hcodes. unfold spread. cbv zeta. rewrite (proj2 (Z.eqb_eq _ _) Hlen). f_equal.
  apply list_eq. intros i. rewrite list_lookup_fmap. destruct (q !! i) as [x|] eqn:Hi.
  - pose proof (lookup_lt_Some _ _ _ Hi). rewrite lookup_seqZ_lt by lia. simpl.
    destruct (Hcodes (Z.of_nat i) x) as (b & Hb1 & Hb2); [lia|by rewrite Nat2Z.id|]. rewrite Z.add_0_l, Hb1. simpl. by rewrite Hb2.
  - apply lookup_ge_None in Hi. rewrite lookup_seqZ_ge by lia. done.
Qed.

(** Four-bit packing is the general packing at four bits. *)
Lemma pack_4bit_lowbit q : pack_4bit q = pack_lowbit 4 q.
Proof.
  unfold pack_4bit, pack_lowbit. cbv zeta. change (8 / 4) with 2. change (Z.shiftl 1 4 - 1) with 15.
  change (Z.to_nat 2) with 2%nat. destruct (Z.eqb_spec (Z.of_nat (length q) mod 2) 0) as [He|]; [|done]. f_equal.
  set (f := fun x => Z.land (to_uint8 x) 15). rewrite <- (length_fmap f q) in He.
  generalize dependent (f <$> q). clear q. intros q. induction q as [|x|x y q IH] using pairs_ind; intros He; [done..|].
  cbn [length] in *. assert (Hlen : Z.of_nat (S (S (length q))) = Z.of_nat (length q) + 1 * 2) by lia.
  rewrite Hlen, Z.mod_add in He by lia.
  replace (S (S (length q)) / 2)%nat with (S (length q / 2)).
  2:{ replace (S (S (length q))) with (length q + 1 * 2)%nat by lia. rewrite Nat.div_add by lia. lia. }
  cbn [seq]. rewrite fmap_cons, <- fmap_S_seq, <- list_fmap_compose. cbn [evens tail zip_with]. f_equal.
  specialize (IH He). destruct q as [|z q]; [done|]. exact IH.
Qed.

(** ** Tile records *)

(** The quantised sides of one (tile, head): packed code rows and fp16 patterns. *)
Record StoreK := mkStoreK {
  q_packed_K : list (list Z);
  s_col_K : list Z;
  zp_K : list Z;
  s_row_K : list Z;
}.

Record StoreV := mkStoreV {
  q_packed_V : list (list Z);
  s_col_V : list Z;
  s_row_V : list Z;
  zp_V : list Z;
}.

(** fp16 values as bytes, low byte first, and back. *)
Definition view_uint8 (l : list Z) : list Z := concat ((fun x => [x mod 256; x / 256]) <$> l).

Fixpoint view_float16 (l : list Z) : list Z :=
  match l with
  | lo :: hi :: l' => Z.lor lo (Z.shiftl hi 8) :: view_float16 l'
  | _ => []
  end.

(** [flat[a : a + n]] *)
Definition slice (flat : list Z) (a n : Z) : list Z := take (Z.to_nat n) (drop (Z.to_nat a) flat).

(** [flat[a : a + n] = v], where a length other than 1 must match the slice. *)
Definition slice_set (flat : list Z) (a n : Z) (v : list Z) : res (list Z) :=
  let m := length (slice flat a n) in
  let put w := Ok (take (Z.to_nat a) flat ++ w ++ drop (Z.to_nat a + m) flat) in
  if decide (length v = m) then put v else
  match v with
  | [x] => put (replicate m x)
  | _ => Raise RuntimeError
  end.

(** [flat[a : a + 2n].view(torch.float16)[:] = v]: the offset must be even. *)
Definition slice_set_f16 (flat : list Z) (a n : Z) (v : list Z) : res (list Z) :=
  if a mod 2 =? 0 then
    let m := (length (slice flat a (n * 2)) / 2)%nat in
    if decide (length v = m) then slice_set flat a (n * 2) (view_uint8 v) else
    match v with
    | [x] => slice_set flat a (n * 2) (view_uint8 (replicate m x))
    | _ => Raise RuntimeError
    end
  else Raise RuntimeError.

Definition write_packed (c : KVarNConfig) (flat : list Z) (K : StoreK) (V : StoreV) : res (list Z) :=
  let? flat := slice_set flat (k_packed_offset) (k_packed_bytes c) (concat K.(q_packed_K)) in
  let? flat := slice_set_f16 flat (k_s_col_offset c) c.(head_dim) K.(s_col_K) in
  let? flat := slice_set_f16 flat (k_zp_offset c) c.(head_dim) K.(zp_K) in
  let? flat := slice_set_f16 flat (k_s_row_offset c) c.(group) K.(s_row_K) in
  let? flat := slice_set flat (v_packed_offset c) (v_packed_bytes c) (concat V.(q_packed_V)) in
  let? flat := slice_set_f16 flat (v_s_col_offset c) c.(head_dim) V.(s_col_V) in
  let? flat := slice_set_f16 flat (v_s_row_offset c) c.(group) V.(s_row_V) in
  slice_set_f16 flat (v_zp_offset c) c.(group) V.(zp_V).

(** The record of [_batched_flush]: fields concatenated in offset order, then padded.
    The reshapes to [kpb] and [vpb] bytes and to [T] bytes must fit. *)
Definition batched_record (c : KVarNConfig) (K : StoreK) (V : StoreV) : res (list Z) :=
  let k := concat K.(q_packed_K) in
  let v := concat V.(q_packed_V) in
  if negb (Z.of_nat (length k) =? k_packed_bytes c) || negb (Z.of_nat (length v) =? v_packed_bytes c)
  then Raise RuntimeError else
  let rec := k ++ view_uint8 K.(s_col_K) ++ view_uint8 K.(zp_K) ++ view_uint8 K.(s_row_K)
             ++ v ++ view_uint8 V.(s_col_V) ++ view_uint8 V.(s_row_V) ++ view_uint8 V.(zp_V) in
  let T := tile_bytes_aligned c in
  let rec := if Z.of_nat (length rec) <? T
             then rec ++ replicate (Z.to_nat (T - Z.of_nat (length rec))) 0 else rec in
  if Z.of_nat (length rec) =? T then Ok rec else Raise RuntimeError.

(** The packing step that ends [kvarn_store_tile_{k,v}_batch_from_sinkhorn]: one row
    of codes per channel (keys) or token (values), with the absorbed scales. *)
Definition store_tile_k (bits : Z) (q : list (list Z)) (s_col zp s_row : list Z) : res StoreK :=
  let? p := rmap (pack_lowbit bits) q in Ok (mkStoreK p s_col zp s_row).

Definition store_tile_v (bits : Z) (q : list (list Z)) (s_col s_row zp : list Z) : res StoreV :=
  let? p := rmap (pack_lowbit bits) q in Ok (mkStoreV p s_col s_row zp).

(** ** Readers *)

Section readers.
Context {F : Type}.

(** [(q * s + zp) * r] in float32, from a code and three fp16 patterns. *)
Variable deq : Z -> Z -> Z -> Z -> F.

(** [t.view(rows, cols)] *)
Definition view_rows (t : list Z) (rows cols : Z) : res (list (list Z)) :=
  if Z.of_nat (length t) =? rows * cols
  then Ok ((fun r => slice t (r * cols) cols) <$> seqZ 0 rows)
  else Raise RuntimeError.

Definition kvarn_dequant_tile_k (q_packed : list (list Z)) (s_col zp s_row : list Z) (group bits : Z)
    : res (list (list F)) :=
  let? q := rmap (fun row => unpack_lowbit row group bits) q_packed in
  Ok (zip_with (fun qrow sz => zip_with (fun x r => deq x sz.1 sz.2 r) qrow s_row) q (zip s_col zp)).

Definition kvarn_dequant_tile_v (q_packed : list (list Z)) (s_col s_row zp : list Z) (head_dim bits : Z)
    : res (list (list F)) :=
  let? q := rmap (fun row => unpack_lowbit row head_dim bits) q_packed in
  Ok (zip_with (fun qrow sz => zip_with (fun x c => deq x sz.1 sz.2 c) qrow s_col) q (zip s_row zp)).

(** The rotated tiles [_read_block_dequantized] computes for one head. *)
Definition read_block_dequantized (c : KVarNConfig) (flat : list Z) : res (list (list F) * list (list F)) :=
  let D := c.(head_dim) in
  let G := c.(group) in
  let f16 a n := view_float16 (slice flat a (n * 2)) in
  let? k_packed := view_rows (slice flat k_packed_offset (k_packed_bytes c)) D (G / (8 / c.(key_bits))) in
  let? K := kvarn_dequant_tile_k k_packed (f16 (k_s_col_offset c) D) (f16 (k_zp_offset c) D)
              (f16 (k_s_row_offset c) G) G c.(key_bits) in
  let? v_packed := view_rows (slice flat (v_packed_offset c) (v_packed_bytes c)) G (D / (8 / c.(value_bits))) in
  let? V := kvarn_dequant_tile_v v_packed (f16 (v_s_col_offset c) D) (f16 (v_s_row_offset c) G)
              (f16 (v_zp_offset c) G) D c.(value_bits) in
  Ok (K, V).

(** The kernel's loads, relative to [tile_base]; [None] outside the record. *)
Definition load_f16 (flat : list Z) (offset i : Z) : option Z :=
  lo ← flat !! Z.to_nat (offset + i * 2);
  hi ← flat !! Z.to_nat (offset + i * 2 + 1);
  Some (Z.lor lo (Z.shiftl hi 8)).

Definition kernel_K (c : KVarNConfig) (flat : list Z) (d g : Z) : option F :=
  let PACK_K := 8 / c.(key_bits) in
  let MASK_K := Z.shiftl 1 c.(key_bits) - 1 in
  s_col_K ← load_f16 flat (k_s_col_offset c) d;
  zp_K ← load_f16 flat (k_zp_offset c) d;
  s_row_K ← load_f16 flat (k_s_row_offset c) g;
  k_byte ← flat !! Z.to_nat (k_packed_offset + d * (c.(group) / PACK_K) + g / PACK_K);
  Some (deq (Z.land (Z.shiftr k_byte ((g mod PACK_K) * c.(key_bits))) MASK_K) s_col_K zp_K s_row_K).

Definition kernel_V (c : KVarNConfig) (flat : list Z) (g d : Z) : option F :=
  let PACK_V := 8 / c.(value_bits) in
  let MASK_V := Z.shiftl 1 c.(value_bits) - 1 in
  s_col_V ← load_f16 flat (v_s_col_offset c) d;
  s_row_V ← load_f16 flat (v_s_row_offset c) g;
  zp_V ← load_f16 flat (v_zp_offset c) g;
  v_byte ← flat !! Z.to_nat (v_packed_offset c + g * (c.(head_dim) / PACK_V) + d / PACK_V);
  Some (deq (Z.land (Z.shiftr v_byte ((d mod PACK_V) * c.(value_bits))) MASK_V) s_row_V zp_V s_col_V).
End readers.

(** The stores match the configuration. *)
Record wf_store (c : KVarNConfig) (K : StoreK) (V : StoreV) : Prop := {
  ws_k : Z.of_nat (length (concat K.(q_packed_K))) = k_packed_bytes c;
  ws_s_col_K : Z.of_nat (length K.(s_col_K)) = c.(head_dim);
  ws_zp_K : Z.of_nat (length K.(zp_K)) = c.(head_dim);
  ws_s_row_K : Z.of_nat (length K.(s_row_K)) = c.(group);
  ws_v : Z.of_nat (length (concat V.(q_packed_V))) = v_packed_bytes c;
  ws_s_col_V : Z.of_nat (length V.(s_col_V)) = c.(head_dim);
  ws_s_row_V : Z.of_nat (length V.(s_row_V)) = c.(group);
  ws_zp_V : Z.of_nat (length V.(zp_V)) = c.(group);
}.

(** The first [tile_bytes] bytes of a record. *)
Definition record_bytes (K : StoreK) (V : StoreV) : list Z :=
  concat K.(q_packed_K) ++ view_uint8 K.(s_col_K) ++ view_uint8 K.(zp_K) ++ view_uint8 K.(s_row_K)
  ++ concat V.(q_packed_V) ++ view_uint8 V.(s_col_V) ++ view_uint8 V.(s_row_V) ++ view_uint8 V.(zp_V).

Lemma view_uint8_length l : length (view_uint8 l) = (2 * length l)%nat.
Proof. unfold view_uint8. induction l as [|x l IH]; [done|]. rewrite fmap_cons. cbn. lia. Qed.

(** [flat] starts with [P] and agrees with [flat0] behind it. *)
Definition filled (flat0 P flat : list Z) : Prop :=
  exists rest, flat = P ++ rest /\ rest = drop (length P) flat0 /\ length flat = length flat0.

Lemma slice_set_filled flat0 P flat a n v :
  filled flat0 P flat -> a = Z.of_nat (length P) -> Z.of_nat (length v) = n ->
  a + n <= Z.of_nat (length flat0) ->
  exists flat', slice_set flat a n v = Ok flat' /\ filled flat0 (P ++ v) flat'.
Proof.
  intros (rest & -> & Hrest & Hlen) -> <- Hle. unfold slice_set, slice. rewrite !Nat2Z.id.
  rewrite drop_app_length. rewrite length_app in Hlen.
  assert (Hm : length (take (length v) rest) = length v) by (rewrite length_take; lia).
  rewrite Hm, decide_True by done. eexists. split; [done|]. exists (drop (length v) rest).
  rewrite take_app_length, drop_app_add, <- app_assoc. split; [done|]. split.
  - by rewrite Hrest, length_app, drop_drop.
  - rewrite !length_app, length_drop. lia.
Qed.

Lemma slice_set_f16_filled flat0 P flat a n v :
  filled flat0 P flat -> a = Z.of_nat (length P) -> Z.of_nat (length v) = n -> a mod 2 = 0 ->
  a + n * 2 <= Z.of_nat (length flat0) ->
  exists flat', slice_set_f16 flat a n v = Ok flat' /\ filled flat0 (P ++ view_uint8 v) flat'.
Proof.
  intros Hf Ha Hn He Hle. unfold slice_set_f16. rewrite He. cbn [Z.eqb].
  assert (Hm : (length (slice flat a (n * 2)) / 2)%nat = length v).
  { destruct Hf as (rest & -> & Hrest & Hlen). unfold slice. rewrite Ha, Nat2Z.id, drop_app_length.
    rewrite length_app in Hlen. rewrite length_take. replace (_ `min` _)%nat with (length v * 2)%nat by lia.
    apply Nat.div_mul. lia. }
  rewrite Hm, decide_True by done. apply slice_set_filled; [done..| |lia]. rewrite view_uint8_length. lia.
Qed.

(** ** Layout of packable configurations *)

(** The bit widths the kernels support, with rows that fill their bytes. *)
Record packable (c : KVarNConfig) : Prop := {
  pk_ok : config_ok c;
  pk_key_bits : c.(key_bits) = 2 \/ c.(key_bits) = 4;
  pk_value_bits : c.(value_bits) = 2 \/ c.(value_bits) = 4;
  pk_group : c.(group) mod 4 = 0;
  pk_head_dim : c.(head_dim) mod 4 = 0;
}.

Lemma packed_bytes_eq m n b :
  b = 2 \/ b = 4 -> 0 < m -> 0 < n -> n mod 4 = 0 -> m mod 4 = 0 ->
  cdiv (m * n * b) 8 = m * (n / (8 / b)) /\ cdiv (m * n * b) 8 mod 2 = 0 /\ n / (8 / b) * (8 / b) = n.
Proof.
  intros Hb Hm Hn Hn4 Hm4. apply Z.mod_divide in Hn4 as [n' ->]; [|done]. apply Z.mod_divide in Hm4 as [m' ->]; [|done].
  assert (Hc : forall x, cdiv (x * 8) 8 = x).
  { intros x. pose proof (cdiv_spec (x * 8) 8 ltac:(lia)). lia. }
  destruct Hb as [-> | ->]; [change (8 / 2) with 4|change (8 / 4) with 2].
  - replace (m' * 4 * (n' * 4) * 2) with (m' * n' * 4 * 8) by lia. rewrite Hc, Z.div_mul by done.
    split_and!; [lia| |lia]. replace (m' * n' * 4) with (m' * n' * 2 * 2) by lia. by apply Z.mod_mul.
  - replace (m' * 4 * (n' * 4) * 4) with (m' * n' * 8 * 8) by lia. rewrite Hc.
    replace (n' * 4) with (n' * 2 * 2) by lia. rewrite Z.div_mul by done.
    split_and!; [lia| |lia]. replace (m' * n' * 8) with (m' * n' * 4 * 2) by lia. by apply Z.mod_mul.
Qed.

Lemma k_packed_layout c : packable c ->
  k_packed_bytes c = c.(head_dim) * (c.(group) / (8 / c.(key_bits))) /\ k_packed_bytes c mod 2 = 0
  /\ c.(group) / (8 / c.(key_bits)) * (8 / c.(key_bits)) = c.(group).
Proof.
  intros [Hok Hk Hv Hg Hd]. rewrite k_packed_bytes_eq by done. destruct Hok.
  by apply packed_bytes_eq.
Qed.

Lemma v_packed_layout c : packable c ->
  v_packed_bytes c = c.(group) * (c.(head_dim) / (8 / c.(value_bits))) /\ v_packed_bytes c mod 2 = 0
  /\ c.(head_dim) / (8 / c.(value_bits)) * (8 / c.(value_bits)) = c.(head_dim).
Proof.
  intros [Hok Hk Hv Hg Hd]. rewrite v_packed_bytes_eq by done. destruct Hok.
  by apply packed_bytes_eq.
Qed.

Lemma packed_bytes_nonneg c : packable c -> 0 <= k_packed_bytes c /\ 0 <= v_packed_bytes c.
Proof.
  intros [Hok Hk Hv _ _]. rewrite k_packed_bytes_eq, v_packed_bytes_eq by done. destruct Hok.
  pose proof (cdiv_range (c.(head_dim) * c.(group) * c.(key_bits)) 8).
  pose proof (cdiv_range (c.(group) * c.(head_dim) * c.(value_bits)) 8). split; nia.
Qed.

Lemma tile_bytes_fit c : config_ok c -> tile_bytes c <= tile_bytes_aligned c.
Proof.
  intros Hok. destruct (Z.lt_ge_cases c.(head_dim) 256) as [Hd|Hd].
  - by destruct (tile_bytes_aligned_small c Hd) as (_ & ? & _).
  - by destruct (tile_bytes_aligned_large c Hok Hd) as (k & _ & _ & ? & _).
Qed.

Lemma record_bytes_length c K V : wf_store c K V -> Z.of_nat (length (record_bytes K V)) = tile_bytes c.
Proof.
  intros []. unfold record_bytes, tile_bytes, k_scale_bytes, v_scale_bytes.
  rewrite !length_app, !view_uint8_length. lia.
Qed.

(** Arithmetic on the field offsets. *)
Ltac offsets :=
  unfold v_zp_offset, v_s_row_offset, v_s_col_offset, v_packed_offset, k_s_row_offset, k_zp_offset,
    k_s_col_offset, k_packed_offset;
  rewrite ?length_app, ?view_uint8_length; simpl length; (lia || (Z.to_euclidean_division_equations; lia)).

(** *** The two writers *)

Lemma write_packed_filled c flat K V :
  packable c -> wf_store c K V -> Z.of_nat (length flat) = tile_bytes_aligned c ->
  exists flat', write_packed c flat K V = Ok flat' /\ filled flat (record_bytes K V) flat'.
Proof.
  intros Hp Hw Hlen. pose proof (tile_bytes_fit c (pk_ok c Hp)) as Hfit. rewrite <- Hlen in Hfit.
  destruct (k_packed_layout c Hp) as (_ & Hke & _). destruct (v_packed_layout c Hp) as (_ & Hve & _).
  unfold tile_bytes, k_scale_bytes, v_scale_bytes in Hfit. destruct Hp as [[] _ _ _ _]. destruct Hw.
  assert (H0 : filled flat [] flat) by (exists flat; by rewrite drop_0).
  unfold write_packed.
  destruct (slice_set_filled _ _ _ k_packed_offset (k_packed_bytes c) (concat (q_packed_K K)) H0) as (f1 & -> & H1);
    [offsets..|]; cbn [rbind].
  destruct (slice_set_f16_filled _ _ _ (k_s_col_offset c) (head_dim c) (s_col_K K) H1) as (f2 & -> & H2);
    [offsets..|]; cbn [rbind].
  destruct (slice_set_f16_filled _ _ _ (k_zp_offset c) (head_dim c) (zp_K K) H2) as (f3 & -> & H3);
    [offsets..|]; cbn [rbind].
  destruct (slice_set_f16_filled _ _ _ (k_s_row_offset c) (group c) (s_row_K K) H3) as (f4 & -> & H4);
    [offsets..|]; cbn [rbind].
  destruct (slice_set_filled _ _ _ (v_packed_offset c) (v_packed_bytes c) (concat (q_packed_V V)) H4) as (f5 & -> & H5);
    [offsets..|]; cbn [rbind].
  destruct (slice_set_f16_filled _ _ _ (v_s_col_offset c) (head_dim c) (s_col_V V) H5) as (f6 & -> & H6);
    [offsets..|]; cbn [rbind].
  destruct (slice_set_f16_filled _ _ _ (v_s_row_offset c) (group c) (s_row_V V) H6) as (f7 & -> & H7);
    [offsets..|]; cbn [rbind].
  destruct (slice_set_f16_filled _ _ _ (v_zp_offset c) (group c) (zp_V V) H7) as (f8 & -> & H8); [offsets..|].
  exists f8. split; [done|]. by rewrite <- !app_assoc in H8.
Qed.

Lemma batched_record_eq c K V :
  config_ok c -> wf_store c K V ->
  batched_record c K V
  = Ok (record_bytes K V ++ replicate (Z.to_nat (tile_bytes_aligned c - tile_bytes c)) 0).
Proof.
  intros Hok Hw. pose proof (tile_bytes_fit c Hok). pose proof (record_bytes_length c K V Hw) as Hlen.
  unfold batched_record. fold (record_bytes K V). cbv zeta. rewrite Hlen.
  rewrite (proj2 (Z.eqb_eq _ _) (ws_k _ _ _ Hw)), (proj2 (Z.eqb_eq _ _) (ws_v _ _ _ Hw)). cbn [negb orb].
  destruct (Z.ltb_spec (tile_bytes c) (tile_bytes_aligned c)).
  - rewrite length_app, length_replicate, (proj2 (Z.eqb_eq _ _)); [done|]. lia.
  - rewrite Hlen, (proj2 (Z.eqb_eq _ _)) by lia. replace (Z.to_nat _) with 0%nat by lia. by rewrite app_nil_r.
Qed.

(** The vectorised flush writes the same bytes as the per-tile writer.  For
    stores of the right shape both succeed, and agree on the [tile_bytes] bytes of
    the record; behind them the flush writes zeros and the per-tile writer nothing. *)
Theorem batched_record_is_write_packed c flat K V :
  packable c -> wf_store c K V -> Z.of_nat (length flat) = tile_bytes_aligned c ->
  exists flat' rec,
    write_packed c flat K V = Ok flat' /\ batched_record c K V = Ok rec
    /\ length flat' = length flat /\ length rec = length flat
    /\ take (Z.to_nat (tile_bytes c)) flat' = take (Z.to_nat (tile_bytes c)) rec
    /\ drop (Z.to_nat (tile_bytes c)) flat' = drop (Z.to_nat (tile_bytes c)) flat
    /\ Forall (eq 0) (drop (Z.to_nat (tile_bytes c)) rec).
Proof.
  intros Hp Hw Hlen. pose proof (record_bytes_length c K V Hw) as Hr. pose proof (tile_bytes_fit c (pk_ok c Hp)).
  destruct (write_packed_filled c flat K V Hp Hw Hlen) as (flat' & Hwp & rest & -> & Hrest & Hl).
  eexists _, _. split; [exact Hwp|]. split; [by apply batched_record_eq; [apply Hp|]|].
  rewrite <- Hr, Nat2Z.id, !take_app_length, !drop_app_length. split_and!; [done| |done|done|].
  - rewrite length_app, length_replicate. lia.
  - by apply Forall_replicate.
Qed.

(** *** Reading *)

Lemma slice_lookup flat a n i : 0 <= a -> 0 <= i < n -> slice flat a n !! Z.to_nat i = flat !! Z.to_nat (a + i).
Proof.
  intros Ha Hi. unfold slice. rewrite lookup_take_lt by lia. rewrite lookup_drop. f_equal. lia.
Qed.

Lemma view_float16_lookup l i :
  view_float16 l !! i = lo ← l !! (2 * i)%nat; hi ← l !! (2 * i + 1)%nat; Some (Z.lor lo (Z.shiftl hi 8)).
Proof.
  revert i. induction l as [|x|x y l IH] using pairs_ind; intros i; [done|by destruct i as [|[|i]]|].
  cbn [view_float16]. destruct i as [|i]; [done|]. cbn [lookup list_lookup].
  replace (2 * S i)%nat with (S (S (2 * i))) by lia. rewrite IH. done.
Qed.

Lemma load_f16_view flat a n i :
  0 <= a -> 0 <= i < n -> view_float16 (slice flat a (n * 2)) !! Z.to_nat i = load_f16 flat a i.
Proof.
  intros Ha Hi. rewrite view_float16_lookup. unfold load_f16.
  replace (2 * Z.to_nat i)%nat with (Z.to_nat (i * 2)) by lia.
  replace (Z.to_nat (i * 2) + 1)%nat with (Z.to_nat (i * 2 + 1)) by lia.
  rewrite !slice_lookup by lia. by rewrite Z.add_assoc.
Qed.

Lemma slice_length flat a n :
  0 <= a -> 0 <= n -> a + n <= Z.of_nat (length flat) -> Z.of_nat (length (slice flat a n)) = n.
Proof. intros. unfold slice. rewrite length_take, length_drop. lia. Qed.

Lemma view_rows_ok t rows cols :
  Z.of_nat (length t) = rows * cols -> 0 <= cols ->
  exists v, view_rows t rows cols = Ok v /\ Z.of_nat (length v) = Z.max 0 rows
    /\ forall r, 0 <= r < rows -> v !! Z.to_nat r = Some (slice t (r * cols) cols)
         /\ Z.of_nat (length (slice t (r * cols) cols)) = cols.
Proof.
  intros Hlen Hc. unfold view_rows. rewrite (proj2 (Z.eqb_eq _ _) Hlen). eexists. split; [done|]. split.
  - rewrite length_fmap, length_seqZ. lia.
  - intros r Hr. split; [|apply slice_length; nia].
    rewrite list_lookup_fmap, lookup_seqZ_lt by lia. simpl. do 3 f_equal; lia.
Qed.

Lemma unpack_lowbit_ok row n bits :
  bits = 2 \/ bits = 4 -> 0 <= n -> n / (8 / bits) * (8 / bits) = n -> Z.of_nat (length row) = n / (8 / bits) ->
  exists q, unpack_lowbit row n bits = Ok q
    /\ forall i, 0 <= i < n -> q !! Z.to_nat i = Some (code_at bits (default 0 (row !! Z.to_nat (i / (8 / bits)))) i).
Proof.
  intros Hb Hn Hdiv Hlen.
  assert (Hmod : n mod (8 / bits) = 0) by (rewrite <- Hdiv; apply Z.mod_mul; by destruct Hb as [-> | ->]).
  assert (Hs : exists q, spread bits row n = Ok q
    /\ forall i, 0 <= i < n -> q !! Z.to_nat i = Some (code_at bits (default 0 (row !! Z.to_nat (i / (8 / bits)))) i)).
  { unfold spread. cbv zeta. rewrite (proj2 (Z.eqb_eq _ _) Hlen). eexists. split; [done|].
    intros i Hi. rewrite list_lookup_fmap, lookup_seqZ_lt by lia. simpl.
    by replace (0 + Z.of_nat (Z.to_nat i)) with i by lia. }
  destruct Hs as (q & Hq & Hl). exists q. split; [|done]. unfold unpack_lowbit, unpack_4bit.
  destruct Hb as [-> | ->]; cbn [Z.eqb Pos.eqb]; [change (8 / 2) with 4 in *|change (8 / 4) with 2 in *];
    by rewrite (proj2 (Z.eqb_eq _ _) Hmod).
Qed.

(** Unpacking the rows of a packed field. *)
Lemma unpack_rows t rows n bits :
  bits = 2 \/ bits = 4 -> 0 < n -> n / (8 / bits) * (8 / bits) = n -> Z.of_nat (length t) = rows * (n / (8 / bits)) ->
  exists v q, view_rows t rows (n / (8 / bits)) = Ok v /\ rmap (fun row => unpack_lowbit row n bits) v = Ok q
    /\ forall r i, 0 <= r < rows -> 0 <= i < n ->
         exists row, q !! Z.to_nat r = Some row
           /\ row !! Z.to_nat i
              = Some (code_at bits (default 0 (t !! Z.to_nat (r * (n / (8 / bits)) + i / (8 / bits)))) i).
Proof.
  intros Hb Hn Hdiv Hlen. assert (Hpack : 2 <= 8 / bits) by (by destruct Hb as [-> | ->]).
  assert (Hw : 0 <= n / (8 / bits)) by (apply Z.div_pos; lia).
  destruct (view_rows_ok t rows (n / (8 / bits)) Hlen Hw) as (v & Hv & Hlv & Hrows).
  destruct (rmap_ok (fun row => unpack_lowbit row n bits) v) as (q & Hq & Hall).
  { intros row Hrow. apply list_elem_of_lookup in Hrow as [r Hr]. pose proof (lookup_lt_Some _ _ _ Hr).
    destruct (Hrows (Z.of_nat r)) as [Hr' Hl]; [lia|]. rewrite Nat2Z.id, Hr in Hr'. injection Hr' as ->.
    destruct (unpack_lowbit_ok (slice t (Z.of_nat r * (n / (8 / bits))) (n / (8 / bits))) n bits) as (qr & -> & _);
      [done|lia|done|done|by eexists]. }
  exists v, q. split_and!; [done..|]. intros r i Hr Hi. destruct (Hrows r Hr) as [Hvr Hl].
  destruct (Forall2_lookup_l _ _ _ _ _ Hall Hvr) as (row & Hqr & Hun). exists row. split; [done|].
  destruct (unpack_lowbit_ok (slice t (r * (n / (8 / bits))) (n / (8 / bits))) n bits) as (qr & Hun' & Hcodes);
    [done|lia|done|done|]. rewrite Hun in Hun'. injection Hun' as <-. rewrite (Hcodes i Hi).
  rewrite slice_lookup; [done|nia|]. split; [apply Z.div_pos; lia|]. apply Z.div_lt_upper_bound; lia.
Qed.

Lemma load_f16_in flat a i :
  0 <= a -> 0 <= i -> a + i * 2 + 1 < Z.of_nat (length flat) -> is_Some (load_f16 flat a i).
Proof.
  intros Ha Hi Hl. unfold load_f16.
  destruct (lookup_lt_is_Some_2 flat (Z.to_nat (a + i * 2))) as [lo ->]; [lia|].
  destruct (lookup_lt_is_Some_2 flat (Z.to_nat (a + i * 2 + 1))) as [hi ->]; [lia|]. simpl. eauto.
Qed.

(** The element a dequantised row-major tile holds at [(r, i)]. *)
Lemma dequant_lookup {F} (deq : Z -> Z -> Z -> Z -> F) (q : list (list Z)) s z t r i row x a b e :
  q !! r = Some row -> row !! i = Some x -> s !! r = Some a -> z !! r = Some b -> t !! i = Some e ->
  zip_with (fun qrow sz => zip_with (fun x e => deq x sz.1 sz.2 e) qrow t) q (zip s z) !! r ≫= (.!! i)
  = Some (deq x a b e).
Proof.
  intros Hq Hx Hs Hz Ht. rewrite lookup_zip_with, Hq. simpl. rewrite lookup_zip_with, Hs, Hz. simpl.
  by rewrite lookup_zip_with, Hx, Ht.
Qed.

Lemma packed_index_in r rows w i pack n :
  0 <= r < rows -> 0 <= i < n -> 0 < pack -> w * pack = n -> 0 <= r * w + i / pack < rows * w.
Proof.
  intros Hr Hi Hp Hw. assert (0 <= i / pack < w); [|nia].
  split; [apply Z.div_pos; lia|]. apply Z.div_lt_upper_bound; lia.
Qed.

(** One side of a record: [rows] packed rows of [n] codes at [base], two scales per
    row at [so] and [zo], one per column at [co]. *)
Lemma dequant_side {F} (deq : Z -> Z -> Z -> Z -> F) flat base bytes rows n bits so zo co :
  bits = 2 \/ bits = 4 -> 0 < rows -> 0 < n -> n / (8 / bits) * (8 / bits) = n -> bytes = rows * (n / (8 / bits)) ->
  0 <= base -> base + bytes <= Z.of_nat (length flat) -> 0 <= so -> so + rows * 2 <= Z.of_nat (length flat) ->
  0 <= zo -> zo + rows * 2 <= Z.of_nat (length flat) -> 0 <= co -> co + n * 2 <= Z.of_nat (length flat) ->
  exists v q, view_rows (slice flat base bytes) rows (n / (8 / bits)) = Ok v
    /\ rmap (fun row => unpack_lowbit row n bits) v = Ok q
    /\ forall r i, 0 <= r < rows -> 0 <= i < n -> exists s z e b,
         load_f16 flat so r = Some s /\ load_f16 flat zo r = Some z /\ load_f16 flat co i = Some e
         /\ flat !! Z.to_nat (base + r * (n / (8 / bits)) + i / (8 / bits)) = Some b
         /\ zip_with (fun qrow sz => zip_with (fun x e => deq x sz.1 sz.2 e) qrow (view_float16 (slice flat co (n * 2)))) q
              (zip (view_float16 (slice flat so (rows * 2))) (view_float16 (slice flat zo (rows * 2))))
            !! Z.to_nat r ≫= (.!! Z.to_nat i) = Some (deq (code_at bits b i) s z e).
Proof.
  intros Hb Hrows Hn Hdiv Hbytes Hb0 Hb1 Hs0 Hs1 Hz0 Hz1 Hc0 Hc1.
  assert (Hpack : 2 <= 8 / bits) by (by destruct Hb as [-> | ->]).
  assert (0 <= n / (8 / bits)) by (apply Z.div_pos; lia).
  destruct (unpack_rows (slice flat base bytes) rows n bits) as (v & q & Hv & Hq & Hcodes);
    [done..|rewrite slice_length; nia|].
  exists v, q. split_and!; [done..|]. intros r i Hr Hi. destruct (Hcodes r i Hr Hi) as (row & Hrow & Hx).
  destruct (load_f16_in flat so r) as [s Hs]; [lia..|]. destruct (load_f16_in flat zo r) as [z Hz]; [lia..|].
  destruct (load_f16_in flat co i) as [e He]; [lia..|].
  pose proof (packed_index_in r rows (n / (8 / bits)) i (8 / bits) n Hr Hi ltac:(lia) Hdiv) as Hin.
  destruct (lookup_lt_is_Some_2 flat (Z.to_nat (base + (r * (n / (8 / bits)) + i / (8 / bits))))) as [b Hbyte]; [lia|].
  rewrite slice_lookup, Hbyte in Hx by lia. rewrite Z.add_assoc in Hbyte. exists s, z, e, b. split_and!; [done..|].
  by apply dequant_lookup with (row := row); rewrite ?load_f16_view by lia.
Qed.

(** C35: The kernel and the reference reader agree on every record.  On any bytes
    of a record, [_read_block_dequantized] succeeds, every load of the kernel is inside
    the record, and for each channel and token both hand the same code, scales and
    zero point to the dequantisation formula, for keys and for values. *)
Theorem kernel_matches_reference {F} (deq : Z -> Z -> Z -> Z -> F) c flat :
  packable c -> Z.of_nat (length flat) = tile_bytes_aligned c ->
  exists K V, read_block_dequantized deq c flat = Ok (K, V)
    /\ forall d g, 0 <= d < c.(head_dim) -> 0 <= g < c.(group) ->
       (exists x, kernel_K deq c flat d g = Some x /\ K !! Z.to_nat d ≫= (.!! Z.to_nat g) = Some x)
       /\ (exists x, kernel_V deq c flat g d = Some x /\ V !! Z.to_nat g ≫= (.!! Z.to_nat d) = Some x).
Proof.
  intros Hp Hlen. pose proof (tile_bytes_fit c (pk_ok c Hp)) as Hfit. rewrite <- Hlen in Hfit. clear Hlen.
  destruct (k_packed_layout c Hp) as (Hk & _ & Hkd). destruct (v_packed_layout c Hp) as (Hv & _ & Hvd).
  destruct (packed_bytes_nonneg c Hp) as [Hk0 Hv0].
  destruct Hp as [[] Hkb Hvb _ _]. unfold tile_bytes, k_scale_bytes, v_scale_bytes in Hfit.
  destruct (dequant_side deq flat k_packed_offset (k_packed_bytes c) c.(head_dim) c.(group) c.(key_bits)
              (k_s_col_offset c) (k_zp_offset c) (k_s_row_offset c)) as (kp & kq & Hkp & Hkq & HK); [done || offsets..|].
  destruct (dequant_side deq flat (v_packed_offset c) (v_packed_bytes c) c.(group) c.(head_dim) c.(value_bits)
              (v_s_row_offset c) (v_zp_offset c) (v_s_col_offset c)) as (vp & vq & Hvp & Hvq & HV); [done || offsets..|].
  unfold read_block_dequantized, kvarn_dequant_tile_k, kvarn_dequant_tile_v. cbv zeta.
  rewrite Hkp. cbn [rbind]. rewrite Hkq. cbn [rbind]. rewrite Hvp. cbn [rbind]. rewrite Hvq. cbn [rbind].
  eexists _, _. split; [done|]. intros d g Hd Hg. split.
  - destruct (HK d g Hd Hg) as (s & z & e & b & Hs & Hz & He & Hb & Hx). eexists. split; [|exact Hx].
    unfold kernel_K. cbv zeta. by rewrite Hs, Hz, He; simpl; rewrite Hb.
  - destruct (HV g d Hg Hd) as (s & z & e & b & Hs & Hz & He & Hb & Hx). eexists. split; [|exact Hx].
    unfold kernel_V. cbv zeta. by rewrite Hs, Hz, He; simpl; rewrite Hb.
Qed.

(** *** Round trip through the record *)

Definition f16 (x : Z) : Prop := 0 <= x < 65536.

(** [f] sits at byte [offset] of [flat]. *)
Definition field_at (flat : list Z) (offset : Z) (f : list Z) : Prop :=
  exists pre post, flat = pre ++ f ++ post /\ Z.of_nat (length pre) = offset.

Lemma field_lookup flat offset f i :
  field_at flat offset f -> 0 <= i < Z.of_nat (length f) -> flat !! Z.to_nat (offset + i) = f !! Z.to_nat i.
Proof.
  intros (pre & post & -> & <-) Hi. rewrite lookup_app_r by lia. rewrite lookup_app_l by lia. f_equal. lia.
Qed.

Lemma view_uint8_lookup l i x :
  l !! i = Some x -> view_uint8 l !! (2 * i)%nat = Some (x mod 256) /\ view_uint8 l !! (2 * i + 1)%nat = Some (x / 256).
Proof.
  revert i. induction l as [|y l IH]; intros i Hi; [done|]. unfold view_uint8. rewrite fmap_cons. cbn [concat app].
  destruct i as [|i]; [by injection Hi as ->|]. replace (2 * S i)%nat with (S (S (2 * i))) by lia. by apply IH.
Qed.

Lemma load_f16_field flat offset l i x :
  field_at flat offset (view_uint8 l) -> 0 <= i -> l !! Z.to_nat i = Some x -> f16 x -> load_f16 flat offset i = Some x.
Proof.
  intros Hf Hi Hx Hr. pose proof (lookup_lt_Some _ _ _ Hx). destruct (view_uint8_lookup l _ _ Hx) as [Hlo Hhi].
  unfold load_f16. rewrite <- Z.add_assoc, !(field_lookup _ _ _ _ Hf) by (rewrite view_uint8_length; lia).
  replace (Z.to_nat (i * 2)) with (2 * Z.to_nat i)%nat by lia. rewrite Hlo. simpl.
  replace (Z.to_nat (i * 2 + 1)) with (2 * Z.to_nat i + 1)%nat by lia. rewrite Hhi. simpl. f_equal.
  rewrite lor_shifted by (try apply Z.mod_pos_bound; lia). change (2 ^ 8) with 256.
  pose proof (Z.div_mod x 256 ltac:(lia)). lia.
Qed.

(** Where the fields of a record are. *)
Lemma record_fields c K V post : wf_store c K V ->
  let flat := record_bytes K V ++ post in
  field_at flat k_packed_offset (concat K.(q_packed_K)) /\ field_at flat (k_s_col_offset c) (view_uint8 K.(s_col_K))
  /\ field_at flat (k_zp_offset c) (view_uint8 K.(zp_K)) /\ field_at flat (k_s_row_offset c) (view_uint8 K.(s_row_K))
  /\ field_at flat (v_packed_offset c) (concat V.(q_packed_V)) /\ field_at flat (v_s_col_offset c) (view_uint8 V.(s_col_V))
  /\ field_at flat (v_s_row_offset c) (view_uint8 V.(s_row_V)) /\ field_at flat (v_zp_offset c) (view_uint8 V.(zp_V)).
Proof.
  intros [] flat. unfold flat, record_bytes.
  set (k := concat (q_packed_K K)) in *. set (v := concat (q_packed_V V)) in *.
  set (a := view_uint8 (s_col_K K)). set (b := view_uint8 (zp_K K)). set (e := view_uint8 (s_row_K K)).
  set (f := view_uint8 (s_col_V V)). set (g := view_uint8 (s_row_V V)). set (h := view_uint8 (zp_V V)).
  split_and!; [exists []|exists k|exists (k ++ a)|exists (k ++ a ++ b)|exists (k ++ a ++ b ++ e)|exists (k ++ a ++ b ++ e ++ v)
    |exists (k ++ a ++ b ++ e ++ v ++ f)|exists (k ++ a ++ b ++ e ++ v ++ f ++ g)];
    eexists; (split; [by rewrite <- !app_assoc|unfold a, b, e, f, g; offsets]).
Qed.

(** A matrix of [rows] rows of [n] codes. *)
Record code_matrix (bits rows n : Z) (q : list (list Z)) : Prop := {
  cm_rows : Z.of_nat (length q) = rows;
  cm_cols : Forall (fun row => Z.of_nat (length row) = n) q;
  cm_codes : Forall (Forall (code bits)) q;
}.

Lemma packed_side bits rows n q :
  bits = 2 \/ bits = 4 -> 0 <= n -> n / (8 / bits) * (8 / bits) = n -> code_matrix bits rows n q ->
  exists p, rmap (pack_lowbit bits) q = Ok p /\ Z.of_nat (length (concat p)) = rows * (n / (8 / bits))
    /\ forall flat base r i row x, field_at flat base (concat p) -> 0 <= r -> 0 <= i ->
         q !! Z.to_nat r = Some row -> row !! Z.to_nat i = Some x ->
         exists b, flat !! Z.to_nat (base + r * (n / (8 / bits)) + i / (8 / bits)) = Some b /\ code_at bits b i = x.
Proof.
  intros Hb Hn Hdiv [Hrows Hcols Hcodes]. rewrite Forall_forall in Hcols. rewrite Forall_forall in Hcodes.
  assert (Hb8 : 1 <= bits <= 8) by lia. assert (Hpack : 2 <= 8 / bits) by (by destruct Hb as [-> | ->]).
  set (w := n / (8 / bits)) in *. assert (Hw : 0 <= w) by (apply Z.div_pos; lia).
  assert (Hrow : forall row, row ∈ q -> exists p, pack_lowbit bits row = Ok p /\ Z.of_nat (length p) = w
    /\ forall i x, 0 <= i -> row !! Z.to_nat i = Some x -> exists b, p !! Z.to_nat (i / (8 / bits)) = Some b /\ code_at bits b i = x).
  { intros row Hr. destruct (pack_lowbit_spec bits row Hb8 (Hcodes row Hr)) as (p & Hp & Hl & _ & Hx).
    - rewrite (Hcols row Hr), <- Hdiv. apply Z.mod_mul. lia.
    - exists p. rewrite (Hcols row Hr) in Hl. done. }
  destruct (rmap_ok (pack_lowbit bits) q) as (p & Hp & Hall); [intros row Hr; destruct (Hrow row Hr) as (pr & ? & _); eauto|].
  assert (Hlen : Forall (fun pr => length pr = Z.to_nat w) p).
  { apply Forall_lookup. intros r pr Hpr. destruct (Forall2_lookup_r _ _ _ _ _ Hall Hpr) as (row & Hr & Hpk).
    destruct (Hrow row) as (pr' & Hpk' & Hl & _); [by eapply list_elem_of_lookup_2|]. rewrite Hpk in Hpk'.
    injection Hpk' as <-. lia. }
  exists p. split; [done|]. split.
  { rewrite (concat_length _ _ Hlen). rewrite (Forall2_length _ _ _ Hall) in Hrows. by rewrite Nat2Z.inj_mul, Z2Nat.id, Hrows by lia. }
  intros flat base r i row x Hf Hr0 Hi0 Hr Hx. destruct (Forall2_lookup_l _ _ _ _ _ Hall Hr) as (pr & Hpr & Hpk).
  destruct (Hrow row) as (pr' & Hpk' & Hl & Hcode); [by eapply list_elem_of_lookup_2|]. rewrite Hpk in Hpk'.
  injection Hpk' as <-. destruct (Hcode i x Hi0 Hx) as (b & Hb1 & Hb2). exists b. split; [|done].
  pose proof (lookup_lt_Some _ _ _ Hb1). pose proof (lookup_lt_Some _ _ _ Hpr).
  assert (0 <= i / (8 / bits)) by (apply Z.div_pos; lia).
  rewrite <- Z.add_assoc, (field_lookup _ _ _ _ Hf) by (rewrite (concat_length _ _ Hlen); nia).
  rewrite <- Hb1, <- (concat_lookup p (Z.to_nat w) (Z.to_nat r) (Z.to_nat (i / (8 / bits))) pr Hlen Hpr) by lia.
  f_equal. nia.
Qed.

Lemma matrix_lookup bits rows n q r i :
  code_matrix bits rows n q -> 0 <= r < rows -> 0 <= i < n ->
  exists row x, q !! Z.to_nat r = Some row /\ row !! Z.to_nat i = Some x.
Proof.
  intros [Hr Hc _] Hr0 Hi0. destruct (lookup_lt_is_Some_2 q (Z.to_nat r)) as [row Hrow]; [lia|].
  pose proof (Forall_lookup_1 _ _ _ _ Hc Hrow) as Hl. simpl in Hl.
  destruct (lookup_lt_is_Some_2 row (Z.to_nat i)) as [x Hx]; [lia|]. eauto.
Qed.

(** The fp16 vector [l] has [n] entries. *)
Definition f16_vector (n : Z) (l : list Z) : Prop := Z.of_nat (length l) = n /\ Forall f16 l.

Lemma load_vector flat offset n l i :
  field_at flat offset (view_uint8 l) -> f16_vector n l -> 0 <= i < n ->
  load_f16 flat offset i = l !! Z.to_nat i.
Proof.
  intros Hf [Hlen Hall] Hi. destruct (lookup_lt_is_Some_2 l (Z.to_nat i)) as [x Hx]; [lia|]. rewrite Hx.
  eapply load_f16_field; [done|lia|done|]. by eapply Forall_lookup_1.
Qed.

(** C18: What the flush stores, the kernel reads.  For codes within their bit width
    and fp16 scales of the right shape, packing and the batched record succeed, and
    the kernel then dequantises every key and value element from exactly its own code,
    scales and zero point. *)
Theorem kernel_reads_what_was_stored {F} (deq : Z -> Z -> Z -> Z -> F) c kq vq sck zpk srk scv srv zpv :
  packable c ->
  code_matrix c.(key_bits) c.(head_dim) c.(group) kq -> code_matrix c.(value_bits) c.(group) c.(head_dim) vq ->
  f16_vector c.(head_dim) sck -> f16_vector c.(head_dim) zpk -> f16_vector c.(group) srk ->
  f16_vector c.(head_dim) scv -> f16_vector c.(group) srv -> f16_vector c.(group) zpv ->
  exists K V rec,
    store_tile_k c.(key_bits) kq sck zpk srk = Ok K /\ store_tile_v c.(value_bits) vq scv srv zpv = Ok V
    /\ batched_record c K V = Ok rec
    /\ forall d g, 0 <= d < c.(head_dim) -> 0 <= g < c.(group) ->
       kernel_K deq c rec d g
       = (x ← kq !! Z.to_nat d ≫= (.!! Z.to_nat g); s ← sck !! Z.to_nat d; z ← zpk !! Z.to_nat d;
          r ← srk !! Z.to_nat g; Some (deq x s z r))
       /\ kernel_V deq c rec g d
       = (x ← vq !! Z.to_nat g ≫= (.!! Z.to_nat d); s ← srv !! Z.to_nat g; z ← zpv !! Z.to_nat g;
          r ← scv !! Z.to_nat d; Some (deq x s z r)).
Proof.
  intros Hp Hkq Hvq H1 H2 H3 H4 H5 H6. destruct (k_packed_layout c Hp) as (Hk & _ & Hkd).
  destruct (v_packed_layout c Hp) as (Hv & _ & Hvd). pose proof (ok_head_dim _ (pk_ok _ Hp)). pose proof (ok_group _ (pk_ok _ Hp)).
  destruct (packed_side c.(key_bits) c.(head_dim) c.(group) kq (pk_key_bits _ Hp) ltac:(lia) Hkd Hkq) as (kp & Hkp & Hkl & HK).
  destruct (packed_side c.(value_bits) c.(group) c.(head_dim) vq (pk_value_bits _ Hp) ltac:(lia) Hvd Hvq) as (vp & Hvp & Hvl & HV).
  unfold store_tile_k, store_tile_v. rewrite Hkp, Hvp. cbn [rbind].
  set (K := mkStoreK kp sck zpk srk). set (V := mkStoreV vp scv srv zpv).
  assert (Hw : wf_store c K V) by (split; simpl; [congruence|apply H1|apply H2|apply H3|congruence|apply H4|apply H5|apply H6]).
  eexists K, V, _. split_and!; [done|done|apply batched_record_eq; [apply Hp|done]|].
  destruct (record_fields c K V (replicate (Z.to_nat (tile_bytes_aligned c - tile_bytes c)) 0) Hw)
    as (F1 & F2 & F3 & F4 & F5 & F6 & F7 & F8). simpl in *. intros d g Hd Hg.
  destruct (matrix_lookup _ _ _ _ d g Hkq Hd Hg) as (krow & kx & Hkr & Hkx).
  destruct (matrix_lookup _ _ _ _ g d Hvq Hg Hd) as (vrow & vx & Hvr & Hvx).
  destruct (HK _ _ d g krow kx F1) as (kb & Hkb & <-); [lia..|done|done|].
  destruct (HV _ _ g d vrow vx F5) as (vb & Hvb & <-); [lia..|done|done|]. split.
  - unfold kernel_K. cbv zeta. rewrite (load_vector _ _ _ _ _ F2 H1 Hd), (load_vector _ _ _ _ _ F3 H2 Hd), (load_vector _ _ _ _ _ F4 H3 Hg).
    rewrite Hkr. simpl. rewrite Hkx. simpl. destruct (sck !! _); [|done]. destruct (zpk !! _); [|done].
    destruct (srk !! _); [|done]. simpl. by rewrite Hkb.
  - unfold kernel_V. cbv zeta. rewrite (load_vector _ _ _ _ _ F6 H4 Hd), (load_vector _ _ _ _ _ F7 H5 Hg), (load_vector _ _ _ _ _ F8 H6 Hg).
    rewrite Hvr. simpl. rewrite Hvx. simpl. destruct (scv !! _), (srv !! _), (zpv !! _); simpl; try done. by rewrite Hvb.
Qed.

(** Packing loses nothing.  For two- and four-bit codes in range, packing a row
    whose length fills its bytes succeeds with bytes in range, unpacking gives the row
    back, and four-bit packing agrees with the dedicated routine; a row of any other
    length is rejected. *)
Theorem pack_unpack_roundtrip bits q :
  bits = 2 \/ bits = 4 -> Forall (code bits) q ->
  (Z.of_nat (length q) mod (8 / bits) = 0 ->
     exists p, pack_lowbit bits q = Ok p /\ Forall (fun b => 0 <= b < 256) p
       /\ unpack_lowbit p (Z.of_nat (length q)) bits = Ok q /\ (bits = 4 -> pack_4bit q = Ok p))
  /\ (Z.of_nat (length q) mod (8 / bits) <> 0 -> pack_lowbit bits q = Raise AssertionError).
Proof.
  intros Hb Hq. assert (Hb8 : 1 <= bits <= 8) by lia. split.
  - intros Hlen. destruct (pack_lowbit_spec bits q Hb8 Hq Hlen) as (p & Hp & Hl & Hbytes & Hcodes).
    exists p. split_and!; [done|done| |by intros ->; rewrite pack_4bit_lowbit].
    pose proof (spread_inv bits q p Hb8 Hl Hcodes) as Hs. unfold unpack_lowbit, unpack_4bit.
    destruct Hb as [-> | ->]; cbn [Z.eqb Pos.eqb]; [change (8 / 2) with 4 in *|change (8 / 4) with 2 in *];
      by rewrite (proj2 (Z.eqb_eq _ _) Hlen).
  - intros Hlen. unfold pack_lowbit. cbv zeta. by rewrite (proj2 (Z.eqb_neq _ _) Hlen).
Qed.

(** ** A concrete tile

    The k4v2 preset at head size 128 with tiles of 128 tokens. *)

Definition ex_tile_cfg : KVarNConfig := mkKVarNConfig 128 4 2 128 8 128 0.

Lemma ex_packable : packable ex_tile_cfg.
Proof. repeat constructor; simpl; (lia || (by right) || (by left)). Qed.

Lemma pack_unpack_roundtrip_witness :
  exists p, pack_lowbit 2 [3; 0; 1; 2] = Ok p /\ Forall (fun b => 0 <= b < 256) p
    /\ unpack_lowbit p 4 2 = Ok [3; 0; 1; 2] /\ (2 = 4 -> pack_4bit [3; 0; 1; 2] = Ok p).
Proof.
  apply (pack_unpack_roundtrip 2 [3; 0; 1; 2]); [by left|repeat constructor; lia|reflexivity].
Defined.

Definition ex_flat (x : Z) : list Z := replicate (Z.to_nat (tile_bytes_aligned ex_tile_cfg)) x.

Definition ex_codes (x : Z) : list (list Z) := replicate 128 (replicate 128 x).

Definition ex_scales (x : Z) : list Z := replicate 128 x.

Lemma ex_codes_matrix bits x : code bits x -> code_matrix bits 128 128 (ex_codes x).
Proof. intros Hx. split; [done|by apply Forall_replicate|by apply Forall_replicate, Forall_replicate]. Qed.

Lemma ex_scales_vector x : f16 x -> f16_vector 128 (ex_scales x).
Proof. intros Hx. split; [done|by apply Forall_replicate]. Qed.

Lemma batched_record_is_write_packed_witness :
  let K := mkStoreK (replicate 128 (replicate 64 17)) (ex_scales 1) (ex_scales 2) (ex_scales 3) in
  let V := mkStoreV (replicate 128 (replicate 32 27)) (ex_scales 4) (ex_scales 5) (ex_scales 6) in
  exists flat' rec,
    write_packed ex_tile_cfg (ex_flat 255) K V = Ok flat' /\ batched_record ex_tile_cfg K V = Ok rec
    /\ length flat' = length (ex_flat 255) /\ length rec = length (ex_flat 255)
    /\ take (Z.to_nat (tile_bytes ex_tile_cfg)) flat' = take (Z.to_nat (tile_bytes ex_tile_cfg)) rec
    /\ drop (Z.to_nat (tile_bytes ex_tile_cfg)) flat' = drop (Z.to_nat (tile_bytes ex_tile_cfg)) (ex_flat 255)
    /\ Forall (eq 0) (drop (Z.to_nat (tile_bytes ex_tile_cfg)) rec).
Proof.
  intros K V. apply (batched_record_is_write_packed ex_tile_cfg (ex_flat 255) K V ex_packable);
    [split; vm_compute; reflexivity|vm_compute; reflexivity].
Defined.

Lemma kernel_matches_reference_witness :
  exists K V, read_block_dequantized (fun q s z r => (q, s, z, r)) ex_tile_cfg (ex_flat 7) = Ok (K, V)
    /\ forall d g, 0 <= d < 128 -> 0 <= g < 128 ->
       (exists x, kernel_K (fun q s z r => (q, s, z, r)) ex_tile_cfg (ex_flat 7) d g = Some x
          /\ K !! Z.to_nat d ≫= (.!! Z.to_nat g) = Some x)
       /\ (exists x, kernel_V (fun q s z r => (q, s, z, r)) ex_tile_cfg (ex_flat 7) g d = Some x
          /\ V !! Z.to_nat g ≫= (.!! Z.to_nat d) = Some x).
Proof.
  apply (kernel_matches_reference (fun q s z r => (q, s, z, r)) ex_tile_cfg (ex_flat 7) ex_packable).
  vm_compute. reflexivity.
Defined.

Lemma kernel_reads_what_was_stored_witness :
  exists K V rec,
    store_tile_k 4 (ex_codes 9) (ex_scales 1) (ex_scales 2) (ex_scales 3) = Ok K
    /\ store_tile_v 2 (ex_codes 3) (ex_scales 4) (ex_scales 5) (ex_scales 6) = Ok V
    /\ batched_record ex_tile_cfg K V = Ok rec
    /\ kernel_K (fun q s z r => (q, s, z, r)) ex_tile_cfg rec 5 7 = Some (9, 1, 2, 3)
    /\ kernel_V (fun q s z r => (q, s, z, r)) ex_tile_cfg rec 7 5 = Some (3, 5, 6, 4).
Proof.
  destruct (kernel_reads_what_was_stored (fun q s z r => (q, s, z, r)) ex_tile_cfg (ex_codes 9) (ex_codes 3)
              (ex_scales 1) (ex_scales 2) (ex_scales 3) (ex_scales 4) (ex_scales 5) (ex_scales 6) ex_packable)
    as (K & V & rec & HK & HV & Hrec & Hread);
    [by apply ex_codes_matrix; split|by apply ex_codes_matrix; split|apply ex_scales_vector; split; lia..|].
  exists K, V, rec. split; [exact HK|]. split; [exact HV|]. split; [exact Hrec|].
  destruct (Hread 5 7) as [H1 H2]; [simpl; lia|simpl; lia|]. split; [rewrite H1|rewrite H2]; reflexivity.
Defined.
