(* ===== verification/KVarNForward.v ===== *)
(** * Attention routing

    Models how [KVarNMetadataBuilder.build] classifies a batch and plans the verify
    rows, and how [KVarNAttentionImpl.forward] and its sub-paths then decide which
    cached keys each query token attends to
    ([vllm/v1/attention/backends/kvarn_attn.py], the drivers in
    [triton_kvarn_decode.py], and [split_decodes_and_prefills] in
    [backends/utils.py]).

    An attention path is modelled by the key span of every query token, in the order
    of the output rows: request, first key position, end position.  FlashAttention
    and torch's SDPA are parameters. *)

From S2P Require Import Prelude.

(** ** Data *)

(** The part of [CommonAttentionMetadata] the builder reads. *)
Record Cam := mkCam {
  cam_seq_lens : list Z;
  cam_query_lens : list Z;
  cam_num_actual_tokens : Z;
  cam_max_query_len : Z;
  cam_max_seq_len : Z;
  cam_causal : bool;
}.

Record KVarNMetadata := mkMeta {
  seq_lens : list Z;
  query_lens : list Z;
  num_actual_tokens : Z;
  max_query_len : Z;
  max_seq_len : Z;
  is_prefill : bool;
  num_decodes : nat;
  num_decode_tokens : Z;
  has_cached_multiquery : bool;
  vq : option (list (nat * Z));      (* rows (vq_req, vq_seqlen) *)
  vq_qlen : Z;
  causal : bool;
}.

(** Environment switches and the layer's buffers. *)
Record Env := mkEnv {
  FUSED_VERIFY : bool;
  FUSED_VERIFY_MAXQ : Z;
  FUSED_VERIFY_MIN_BLOCKS : Z;
  SHARED_VERIFY : bool;
  HAS_FLASH_ATTN : bool;
  head_size : Z;
  group : Z;
  fa_K_rows : option Z;              (* rows of the materialise scratch, if allocated *)
}.

(** Request, first key, end of keys. *)
Notation span := (nat * Z * Z)%type.

(** ** Building the metadata *)

Definition sumZ (l : list Z) : Z := foldr Z.add 0 l.

(** [(num_decodes, num_decode_tokens)]; the index of the first long query. *)
Definition split_decodes_and_prefills (c : Cam) (decode_threshold : Z) : nat * Z :=
  let lens := c.(cam_query_lens) in
  if c.(cam_max_query_len) <=? decode_threshold then (length lens, c.(cam_num_actual_tokens)) else
  if decode_threshold <? default 0 (head lens) then (0%nat, 0) else
  match list_find (fun q => decode_threshold < q) lens with
  | None => (length lens, c.(cam_num_actual_tokens))
  | Some (first_prefill, _) => (first_prefill, sumZ (take first_prefill lens))
  end.

(** The verify rows of request [b]. *)
Definition vq_request (non_causal : bool) (b : nat) (sl ql : Z) : list (nat * Z) :=
  let committed := Z.max (sl - ql) 0 in
  (fun j => (b, if non_causal then committed + ql else committed + j + 1)) <$> seqZ 0 ql.

Definition vq_rows (non_causal : bool) (rows : list (Z * Z)) : list (nat * Z) :=
  concat (imap (fun b x => vq_request non_causal b x.1 x.2) rows).

(** [uniform] after the loop over the decode requests. *)
Definition uniform_qlen (lens : list Z) : Z :=
  foldl (fun uniform ql => if ql =? uniform then uniform else 0) (default 0 (head lens)) lens.

Definition build_metadata (decode_threshold : Z) (c : Cam) : KVarNMetadata :=
  let '(nd, ndt) := split_decodes_and_prefills c decode_threshold in
  let rows := zip c.(cam_seq_lens) c.(cam_query_lens) in
  let plan := (Z.of_nat nd >? 0) && (ndt >? Z.of_nat nd) in
  let uniform := uniform_qlen (take nd c.(cam_query_lens)) in
  mkMeta c.(cam_seq_lens) c.(cam_query_lens) c.(cam_num_actual_tokens) c.(cam_max_query_len)
    c.(cam_max_seq_len) (c.(cam_max_query_len) >? 1) nd ndt
    (existsb (fun x => (x.2 >? 1) && (x.1 >? x.2)) rows)
    (if plan then Some (take (Z.to_nat ndt) (vq_rows (negb c.(cam_causal)) (take nd rows))) else None)
    (if plan && (2 <=? uniform) && c.(cam_causal) then uniform else 0)
    c.(cam_causal).

(** ** Attention paths *)

Section paths.
(** [flash_attn_varlen_func] and [scaled_dot_product_attention(is_causal)]: the keys
    query [j] of [sq] attends to among [sk], as a function of the causal flag. *)
Context (fa_span : bool -> Z -> Z -> Z -> Z * Z) (sdpa_span : bool -> Z -> Z -> Z * Z) (env : Env).

Definition per_request (f : nat -> Z -> Z -> Z -> span) (md : KVarNMetadata) : list span :=
  concat (imap (fun b x => f b x.1 x.2 <$> seqZ 0 x.2) (zip md.(seq_lens) md.(query_lens))).

(** One program per request reads its whole sequence. *)
Definition kvarn_decode_attention (md : KVarNMetadata) : list span :=
  imap (fun b sl => (b, 0, sl)) md.(seq_lens).

(** [NQ] query tokens; the shared kernel derives every limit from the request's last
    row, the per-token kernel reads each row. *)
Definition kvarn_verify_attention (NQ : Z) (vq : list (nat * Z)) (qlen : Z) : list span :=
  if (2 <=? qlen) && (NQ mod qlen =? 0) && env.(SHARED_VERIFY) then
    concat ((fun b =>
      let seq_len := default 0 (snd <$> vq !! Z.to_nat (b * qlen + (qlen - 1))) in
      (fun j => (Z.to_nat b, 0, seq_len - qlen + j + 1)) <$> seqZ 0 qlen) <$> seqZ 0 (NQ / qlen))
  else (fun r => (r.1, 0, r.2)) <$> vq.

Definition verify_decode_path (md : KVarNMetadata) (vq : list (nat * Z)) : list span :=
  kvarn_verify_attention md.(num_actual_tokens) vq md.(vq_qlen).

(** Rows computed on the device: [committed + pos_in_req + 1]. *)
Definition fused_verify_path (md : KVarNMetadata) : list span :=
  kvarn_verify_attention md.(num_actual_tokens)
    (concat (imap (fun b x => (fun j => (b, x.1 - x.2 + j + 1)) <$> seqZ 0 x.2) (zip md.(seq_lens) md.(query_lens)))) 0.

(** Gather and mask [k_pos <= q_pos]. *)
Definition decode_path_slow (md : KVarNMetadata) : list span :=
  per_request (fun b sl ql j => (b, 0, Z.min sl (sl - ql + j + 1))) md.

Definition cached_multiquery_path (md : KVarNMetadata) : list span :=
  if env.(FUSED_VERIFY) && (md.(max_query_len) <=? env.(FUSED_VERIFY_MAXQ))
     && (env.(FUSED_VERIFY_MIN_BLOCKS) <=? (md.(max_seq_len) + env.(group) - 1) / env.(group))
     && negb (bool_decide (md.(seq_lens) = []))
  then fused_verify_path md else
  match env.(fa_K_rows) with
  | None => decode_path_slow md
  | Some rows =>
      if negb env.(HAS_FLASH_ATTN) || (env.(head_size) >? 256) then decode_path_slow md else
      let total_k := sumZ md.(seq_lens) in
      if (total_k <=? 0) || (total_k >? rows) then decode_path_slow md
      else per_request (fun b sl ql j => let '(lo, hi) := fa_span md.(causal) ql sl j in (b, lo, hi)) md
  end.

(** Only the tokens of the step are keys; key [i] is position [sl - ql + i]. *)
Definition prefill_first_chunk (md : KVarNMetadata) : list span :=
  per_request (fun b sl ql j =>
    let '(lo, hi) := if env.(HAS_FLASH_ATTN) && (env.(head_size) <=? 256)
                     then fa_span md.(causal) ql ql j else sdpa_span md.(causal) ql j in
    (b, sl - ql + lo, sl - ql + hi)) md.

Definition decode_path (md : KVarNMetadata) : list span :=
  if md.(max_query_len) >? 1 then cached_multiquery_path md else kvarn_decode_attention md.

(** The decode part of a mixed batch, and the rest. *)
Definition decode_meta (md : KVarNMetadata) : KVarNMetadata :=
  mkMeta (take md.(num_decodes) md.(seq_lens)) (take md.(num_decodes) md.(query_lens)) md.(num_decode_tokens)
    1 md.(max_seq_len) false 0 0 false None 0 md.(causal).

Definition prefill_meta (md : KVarNMetadata) : KVarNMetadata :=
  mkMeta (drop md.(num_decodes) md.(seq_lens)) (drop md.(num_decodes) md.(query_lens))
    (md.(num_actual_tokens) - md.(num_decode_tokens)) md.(max_query_len) md.(max_seq_len) true 0 0 false None 0
    md.(causal).

Definition shift_request (n : nat) (s : span) : span := ((n + s.1.1)%nat, s.1.2, s.2).

Definition mixed_batch_path (md : KVarNMetadata) : list span :=
  let dm := decode_meta md in
  let decodes :=
    match md.(vq) with
    | Some vq => kvarn_verify_attention dm.(num_actual_tokens) (take (Z.to_nat md.(num_decode_tokens)) vq) md.(vq_qlen)
    | None => decode_path dm
    end in
  let prefills :=
    if md.(has_cached_multiquery) then cached_multiquery_path (prefill_meta md)
    else prefill_first_chunk (prefill_meta md) in
  decodes ++ (shift_request md.(num_decodes) <$> prefills).

Definition forward (md : KVarNMetadata) : list span :=
  if md.(num_actual_tokens) <=? 0 then [] else
  if negb md.(is_prefill) then decode_path md else
  match md.(vq) with
  | Some vq => if md.(num_decode_tokens) =? md.(num_actual_tokens) then verify_decode_path md vq else
               match md.(num_decodes) with
               | O => if md.(has_cached_multiquery) then cached_multiquery_path md else prefill_first_chunk md
               | S _ => mixed_batch_path md
               end
  | None => match md.(num_decodes) with
            | O => if md.(has_cached_multiquery) then cached_multiquery_path md else prefill_first_chunk md
            | S _ => mixed_batch_path md
            end
  end.
End paths.

(** ** Specification *)

(** Causal attention over the whole cached context: query [j] of a request with
    [sl - ql] committed tokens attends to positions [0 .. sl - ql + j]. *)
Definition causal_reference (rows : list (Z * Z)) : list span :=
  concat (imap (fun b x => (fun j => (b, 0, x.1 - x.2 + j + 1)) <$> seqZ 0 x.2) rows).

(** A batch as the scheduler hands it over: short queries first, lengths that add
    up, and every query part of its sequence. *)
Record sound_cam (decode_threshold : Z) (c : Cam) (dec pre : list Z) : Prop := {
  sc_threshold : 1 <= decode_threshold;
  sc_lens : c.(cam_query_lens) = dec ++ pre;
  sc_dec : Forall (fun q => 1 <= q <= decode_threshold) dec;
  sc_pre : Forall (fun q => decode_threshold < q) pre;
  sc_seq : Forall2 (fun sl ql => ql <= sl) c.(cam_seq_lens) c.(cam_query_lens);
  sc_tokens : c.(cam_num_actual_tokens) = sumZ c.(cam_query_lens);
  sc_max : c.(cam_max_query_len) = foldr Z.max 0 c.(cam_query_lens);
}.

(** ** Helper lemmas *)

Lemma sumZ_app l1 l2 : sumZ (l1 ++ l2) = sumZ l1 + sumZ l2.
Proof. unfold sumZ. induction l1 as [|x l1 IH]; simpl; lia. Qed.

Lemma sumZ_ge n l : Forall (fun q => n <= q) l -> n * Z.of_nat (length l) <= sumZ l.
Proof. unfold sumZ. induction 1 as [|x l Hx Hl IH]; cbn [foldr length]; lia. Qed.

Lemma max_le n l : 0 <= n -> foldr Z.max 0 l <= n <-> Forall (fun q => q <= n) l.
Proof.
  intros Hn. induction l as [|x l IH]; simpl; [by split; [constructor|]|]. rewrite Forall_cons, <- IH. lia.
Qed.

Lemma list_find_app_first {A} (P : A -> Prop) `{forall x, Decision (P x)} l1 x l2 :
  Forall (fun y => ~ P y) l1 -> P x -> list_find P (l1 ++ x :: l2) = Some (length l1, x).
Proof.
  intros Hl Hx. induction Hl as [|y l1 Hy Hl IH]; simpl; [by rewrite decide_True|].
  rewrite decide_False by done. by rewrite IH.
Qed.

Lemma split_spec thr c dec pre : sound_cam thr c dec pre -> split_decodes_and_prefills c thr = (length dec, sumZ dec).
Proof.
  intros [Ht Hl Hd Hp _ Htok Hmax]. unfold split_decodes_and_prefills. rewrite Hmax, Htok, Hl.
  destruct pre as [|p pre].
  - rewrite app_nil_r. destruct (Z.leb_spec (foldr Z.max 0 dec) thr) as [|Hgt]; [done|].
    assert (foldr Z.max 0 dec <= thr); [|lia]. apply max_le; [lia|]. eapply Forall_impl; [exact Hd|]. simpl. lia.
  - apply Forall_cons in Hp as [Hp _]. destruct (Z.leb_spec (foldr Z.max 0 (dec ++ p :: pre)) thr) as [Hle|_].
    { apply max_le in Hle; [|lia]. rewrite Forall_app, Forall_cons in Hle. lia. }
    destruct dec as [|d dec]; cbn [head app from_option id].
    + by rewrite (proj2 (Z.ltb_lt _ _) Hp).
    + pose proof (Forall_inv Hd) as Hd0. rewrite (proj2 (Z.ltb_ge thr d)) by (simpl in Hd0; lia).
      rewrite (list_find_app_first (fun q => thr < q) (d :: dec) p pre); [|eapply Forall_impl; [exact Hd|]; simpl; lia|done].
      change (d :: dec ++ p :: pre) with ((d :: dec) ++ p :: pre). by rewrite take_app_length.
Qed.

Lemma uniform_all lens u : uniform_qlen lens = u -> 2 <= u -> Forall (eq u) lens.
Proof.
  unfold uniform_qlen. generalize (default 0 (head lens)) as u0. intros u0 Hu Hge.
  revert u0 Hu. induction lens as [|x lens IH]; intros u0 Hu; [constructor|]. cbn [foldl] in Hu.
  destruct (Z.eqb_spec x u0) as [->|Hne].
  - assert (u0 = u) as ->; [|constructor; [done|by eapply IH]].
    clear IH. revert Hu. induction lens as [|y lens IH']; cbn [foldl]; [done|]. destruct (Z.eqb_spec y u0); [done|].
    intros Hu. exfalso. clear IH'. induction lens as [|z lens IH']; cbn [foldl] in Hu; [lia|].
    destruct (Z.eqb_spec z 0); auto.
  - exfalso. clear IH. induction lens as [|z lens IH']; cbn [foldl] in Hu; [lia|].
    destruct (Z.eqb_spec z 0); auto.
Qed.

Lemma vq_rows_reference rows :
  Forall (fun x : Z * Z => x.2 <= x.1) rows ->
  (fun r => (r.1, 0, r.2)) <$> vq_rows false rows = causal_reference rows.
Proof.
  intros Hrows. unfold vq_rows, causal_reference. rewrite fmap_concat. f_equal. rewrite fmap_imap.
  apply imap_ext. intros b x Hx. pose proof (Forall_lookup_1 _ _ _ _ Hrows Hx) as Hle. simpl in Hle. unfold vq_request. simpl.
  rewrite <- list_fmap_compose. apply list_fmap_ext. intros i j _. simpl. rewrite Z.max_l by lia. done.
Qed.

Lemma vq_request_length nc b sl ql : length (vq_request nc b sl ql) = Z.to_nat ql.
Proof. unfold vq_request. by rewrite length_fmap, length_seqZ. Qed.

Lemma vq_rows_length nc rows : Forall (fun x : Z * Z => 0 <= x.2) rows -> Z.of_nat (length (vq_rows nc rows)) = sumZ rows.*2.
Proof.
  unfold vq_rows. set (f := fun b (x : Z * Z) => vq_request nc b x.1 x.2).
  assert (Hf : forall b x, length (f b x) = Z.to_nat x.2) by (intros; apply vq_request_length). clearbody f.
  intros Hrows. revert f Hf. induction Hrows as [|x rows Hx Hrows IH]; intros f Hf; [done|].
  cbn [imap concat fmap list_fmap]. rewrite length_app, Nat2Z.inj_add, (IH (f ∘ S)), Hf by (intros; apply Hf).
  unfold sumZ. simpl. lia.
Qed.

(** In a uniform batch the last row of request [b] carries its whole length. *)
Lemma vq_last_row rows u b x :
  Forall (fun x : Z * Z => x.2 = u /\ x.2 <= x.1) rows -> 1 <= u -> rows !! b = Some x ->
  vq_rows false rows !! Z.to_nat (Z.of_nat b * u + (u - 1)) = Some (b, x.1).
Proof.
  intros Hrows Hu Hb. destruct (Forall_lookup_1 _ _ _ _ Hrows Hb) as [Hxu Hle].
  replace (Z.to_nat (Z.of_nat b * u + (u - 1))) with (b * Z.to_nat u + Z.to_nat (u - 1))%nat by nia.
  unfold vq_rows. rewrite (concat_lookup _ (Z.to_nat u) b _ (vq_request false b x.1 x.2)); [| | |lia].
  - unfold vq_request. rewrite list_lookup_fmap, lookup_seqZ_lt by lia. simpl. do 2 f_equal. lia.
  - apply Forall_lookup. intros i r Hr. rewrite list_lookup_imap in Hr.
    destruct (rows !! i) as [y|] eqn:Hy; [|done]. injection Hr as <-. rewrite vq_request_length.
    by destruct (Forall_lookup_1 _ _ _ _ Hrows Hy) as [-> _].
  - by rewrite list_lookup_imap, Hb.
Qed.

Lemma sumZ_const u l : Forall (eq u) l -> sumZ l = u * Z.of_nat (length l).
Proof. unfold sumZ. induction 1 as [|x l Hx Hl IH]; cbn [foldr length]; lia. Qed.

(** Both verify kernels follow the reference on the builder's rows. *)
Lemma verify_reference env rows qlen :
  Forall (fun x : Z * Z => 1 <= x.2 <= x.1) rows -> (2 <= qlen -> Forall (eq qlen) rows.*2) ->
  kvarn_verify_attention env (sumZ rows.*2) (vq_rows false rows) qlen = causal_reference rows.
Proof.
  intros Hrows Hq. unfold kvarn_verify_attention.
  destruct (Z.leb_spec 2 qlen) as [H2|]; cbn [andb];
    [|apply vq_rows_reference; eapply Forall_impl; [exact Hrows|]; simpl; lia].
  specialize (Hq H2). rewrite (sumZ_const _ _ Hq), length_fmap, Z.mul_comm, Z.mod_mul, Z.div_mul by lia.
  cbn [Z.eqb andb]. destruct (SHARED_VERIFY env);
    [|apply vq_rows_reference; eapply Forall_impl; [exact Hrows|]; simpl; lia].
  unfold causal_reference. f_equal. apply list_eq. intros b.
  rewrite list_lookup_fmap, list_lookup_imap. destruct (rows !! b) as [x|] eqn:Hb.
  - pose proof (lookup_lt_Some _ _ _ Hb). rewrite lookup_seqZ_lt by lia. simpl. f_equal.
    assert (Hu : Forall (fun x : Z * Z => x.2 = qlen /\ x.2 <= x.1) rows).
    { apply Forall_lookup. intros i y Hy. pose proof (Forall_lookup_1 _ _ _ _ Hrows Hy) as Hy1. simpl in Hy1.
      split; [|lia]. symmetry. eapply (Forall_lookup_1 _ _ i _ Hq). by rewrite list_lookup_fmap, Hy. }
    rewrite Z.add_0_l, (vq_last_row rows qlen b x Hu ltac:(lia) Hb). simpl.
    destruct (Forall_lookup_1 _ _ _ _ Hu Hb) as [-> _]. by rewrite Nat2Z.id.
  - apply lookup_ge_None in Hb. rewrite lookup_seqZ_ge by lia. done.
Qed.

Lemma causal_reference_app r1 r2 :
  causal_reference (r1 ++ r2) = causal_reference r1 ++ (shift_request (length r1) <$> causal_reference r2).
Proof.
  unfold causal_reference. rewrite imap_app, concat_app, fmap_concat, fmap_imap. f_equal. f_equal.
  apply imap_ext. intros b x _. simpl. by rewrite <- list_fmap_compose.
Qed.

Section correct.
Context (fa_span : bool -> Z -> Z -> Z -> Z * Z) (sdpa_span : bool -> Z -> Z -> Z * Z) (env : Env).

(** FlashAttention's causal mask is aligned to the bottom right, SDPA's is lower
    triangular. *)
Context (Hfa : forall sq sk j, 0 <= j < sq -> sq <= sk -> fa_span true sq sk j = (0, sk - sq + j + 1)).
Context (Hsdpa : forall sq j, 0 <= j < sq -> sdpa_span true sq j = (0, j + 1)).

(** The rows of a (sub-)batch. *)
Definition md_rows (md : KVarNMetadata) : list (Z * Z) := zip md.(seq_lens) md.(query_lens).

Lemma per_request_reference f md :
  (forall b sl ql j, (sl, ql) ∈ md_rows md -> 0 <= j < ql -> f b sl ql j = (b, 0, sl - ql + j + 1)) ->
  per_request f md = causal_reference (md_rows md).
Proof.
  intros Hf. unfold per_request, causal_reference. f_equal. apply imap_ext. intros b [sl ql] Hx.
  apply list_elem_of_lookup_2 in Hx. simpl. apply list_fmap_ext. intros i j Hj.
  apply list_elem_of_lookup_2, elem_of_seqZ in Hj. by apply Hf.
Qed.

Lemma cached_multiquery_reference md :
  md.(causal) = true -> Forall (fun x : Z * Z => 1 <= x.2 <= x.1) (md_rows md) ->
  cached_multiquery_path fa_span env md = causal_reference (md_rows md).
Proof using Hfa.
  intros Hc Hrows. rewrite Forall_forall in Hrows. unfold cached_multiquery_path.
  assert (Hslow : decode_path_slow md = causal_reference (md_rows md)).
  { apply per_request_reference. intros b sl ql j Hx Hj. f_equal. lia. }
  destruct (_ && negb _).
  { unfold fused_verify_path, kvarn_verify_attention. cbn [Z.leb Z.compare andb].
    unfold causal_reference, md_rows. rewrite fmap_concat, fmap_imap. f_equal. apply imap_ext. intros b x _. simpl.
    by rewrite <- list_fmap_compose. }
  destruct (fa_K_rows env) as [n|]; [|done]. destruct (_ || _); [done|]. cbv zeta. destruct (_ || _); [done|].
  apply per_request_reference. intros b sl ql j Hx Hj. rewrite Hc, Hfa; [done|done|]. by apply Hrows in Hx as [_ ?].
Qed.

Lemma prefill_reference md :
  md.(causal) = true -> Forall (fun x : Z * Z => x.1 = x.2) (md_rows md) ->
  prefill_first_chunk fa_span sdpa_span env md = causal_reference (md_rows md).
Proof using Hfa Hsdpa.
  intros Hc Hrows. rewrite Forall_forall in Hrows. apply per_request_reference. intros b sl ql j Hx Hj.
  apply Hrows in Hx. simpl in Hx. subst sl. rewrite Hc.
  destruct (_ && _); [rewrite Hfa by lia|rewrite Hsdpa by lia]; (f_equal; [f_equal|]; lia).
Qed.

Lemma decode_reference md :
  length md.(seq_lens) = length md.(query_lens) -> Forall (eq 1) md.(query_lens) ->
  kvarn_decode_attention md = causal_reference (md_rows md).
Proof.
  intros Hlen Hone. unfold kvarn_decode_attention, causal_reference, md_rows.
  assert (Hz : forall (f : nat -> Z -> span) sls qls, length sls = length qls -> Forall (eq 1) qls ->
    imap f sls = concat (imap (fun b (x : Z * Z) => (fun j => f b (x.1 - x.2 + j + 1)) <$> seqZ 0 x.2) (zip sls qls))).
  { clear. intros f sls qls Hlen Hone. revert f sls Hlen.
    induction Hone as [|q qls <- Hone IH]; intros f [|sl sls] Hlen; try done.
    injection Hlen as Hlen. cbn [imap zip zip_with concat]. rewrite (IH (f ∘ S) sls Hlen).
    change (seqZ 0 (sl, 1).2) with [0]. cbn [fmap list_fmap fst snd app].
    by replace (sl - 1 + 0 + 1) with sl by lia. }
  by apply (Hz (fun b sl => (b, 0, sl))).
Qed.

(** What the builder records of a sound batch. *)
Lemma build_metadata_spec thr c dec pre :
  sound_cam thr c dec pre -> c.(cam_causal) = true ->
  let md := build_metadata thr c in
  let rows := zip c.(cam_seq_lens) c.(cam_query_lens) in
  md_rows md = rows /\ md.(num_decodes) = length dec /\ md.(num_decode_tokens) = sumZ dec
  /\ md.(num_actual_tokens) = sumZ dec + sumZ pre
  /\ (md.(vq) = None /\ Forall (eq 1) dec
      \/ md.(vq) = Some (vq_rows false (take (length dec) rows)) /\ (0 < length dec)%nat
         /\ (2 <= md.(vq_qlen) -> Forall (eq md.(vq_qlen)) dec)).
Proof.
  intros Hs Hc. pose proof (split_spec _ _ _ _ Hs) as Hsplit. destruct Hs as [Ht Hl Hd Hp Hsq Htok Hmax].
  pose proof (Forall2_length _ _ _ Hsq) as Hlen.
  unfold build_metadata. rewrite Hsplit, Hc. cbv zeta. simpl. rewrite Htok, Hl, sumZ_app.
  split_and!; [by rewrite <- Hl|done..|]. rewrite take_app_length.
  assert (Hge : 1 * Z.of_nat (length dec) <= sumZ dec) by (apply sumZ_ge; eapply Forall_impl; [exact Hd|]; simpl; lia).
  rewrite !Z.gtb_ltb. destruct (Z.ltb_spec 0 (Z.of_nat (length dec))) as [H0|H0]; cbn [andb].
  2:{ left. split; [done|]. destruct dec; [constructor|simpl in H0; lia]. }
  destruct (Z.ltb_spec (Z.of_nat (length dec)) (sumZ dec)) as [H1|H1]; cbn [andb].
  - right. split_and!; [|lia|].
    + f_equal. apply take_ge. apply Nat2Z.inj_le. rewrite Z2Nat.id by lia. rewrite vq_rows_length.
      * rewrite fmap_take, snd_zip by (rewrite <- Hl, Hlen; lia). by rewrite take_app_length.
      * apply Forall_take, Forall_forall. intros [sl q] Hx%elem_of_zip_r. simpl.
        apply elem_of_app in Hx as [Hx|Hx]; [rewrite Forall_forall in Hd; apply Hd in Hx|rewrite Forall_forall in Hp; apply Hp in Hx]; lia.
    + rewrite andb_true_r. destruct (Z.leb_spec 2 (uniform_qlen dec)); [|lia]. intros. by apply uniform_all.
  - left. split; [done|]. assert (Hsum : sumZ dec = Z.of_nat (length dec)) by lia. clear - Hd Hsum.
    unfold sumZ in Hsum. induction Hd as [|x dec Hx Hd IH]; [constructor|]. cbn [foldr length] in Hsum.
    assert (1 * Z.of_nat (length dec) <= sumZ dec) by (apply sumZ_ge; eapply Forall_impl; [exact Hd|]; simpl; lia).
    unfold sumZ in *. constructor; [lia|]. apply IH. lia.
Qed.

Lemma build_metadata_fields thr c : let md := build_metadata thr c in
  md.(seq_lens) = c.(cam_seq_lens) /\ md.(query_lens) = c.(cam_query_lens) /\ md.(causal) = c.(cam_causal)
  /\ md.(max_query_len) = c.(cam_max_query_len) /\ md.(is_prefill) = (c.(cam_max_query_len) >? 1)
  /\ md.(has_cached_multiquery)
     = existsb (fun x => (x.2 >? 1) && (x.1 >? x.2)) (zip c.(cam_seq_lens) c.(cam_query_lens)).
Proof. unfold build_metadata. by destruct (split_decodes_and_prefills c thr). Qed.

Lemma sound_rows thr c dec pre :
  sound_cam thr c dec pre -> Forall (fun x : Z * Z => 1 <= x.2 <= x.1) (zip c.(cam_seq_lens) c.(cam_query_lens)).
Proof.
  intros [Ht Hl Hd Hp Hsq _ _]. assert (Hall : Forall (fun q => 1 <= q) c.(cam_query_lens)).
  { rewrite Hl. apply Forall_app. split; eapply Forall_impl; [exact Hd|simpl; lia|exact Hp|simpl; lia]. }
  clear Hl. induction Hsq as [|sl ql sls qls Hle Hsq IH]; [constructor|].
  apply Forall_cons in Hall as [Hq Hall]. cbn [zip zip_with]. constructor; [done|by apply IH].
Qed.

(** Rows the cached-context flag does not cover start a prompt. *)
Lemma fresh_rows (rows : list (Z * Z)) :
  existsb (fun x => (x.2 >? 1) && (x.1 >? x.2)) rows = false ->
  Forall (fun x : Z * Z => 1 < x.2 <= x.1) rows -> Forall (fun x : Z * Z => x.1 = x.2) rows.
Proof.
  intros He. induction 1 as [|x rows Hx Hrows IH]; [constructor|]. cbn [existsb] in He.
  apply orb_false_iff in He as [He He']. constructor; [|by apply IH].
  rewrite !Z.gtb_ltb in He. destruct (Z.ltb_spec 1 x.2), (Z.ltb_spec x.2 x.1); simpl in He; (done || lia).
Qed.

Lemma existsb_drop {A} (f : A -> bool) n l : existsb f l = false -> existsb f (drop n l) = false.
Proof.
  rewrite <- (take_drop n l) at 1. rewrite existsb_app. by intros [_ ?]%orb_false_iff.
Qed.

(** The prefill part of a batch, by whichever path. *)
Lemma prefill_part md :
  md.(causal) = true -> Forall (fun x : Z * Z => 1 < x.2 <= x.1) (md_rows md) ->
  forall flag, (flag = false -> existsb (fun x => (x.2 >? 1) && (x.1 >? x.2)) (md_rows md) = false) ->
  (if flag then cached_multiquery_path fa_span env md else prefill_first_chunk fa_span sdpa_span env md)
  = causal_reference (md_rows md).
Proof using Hfa Hsdpa.
  intros Hc Hrows [|] Hflag.
  - apply cached_multiquery_reference; [done|]. eapply Forall_impl; [exact Hrows|]. simpl. lia.
  - apply prefill_reference; [done|]. by apply fresh_rows; [apply Hflag|].
Qed.

Lemma mixed_reference thr c dec pre :
  sound_cam thr c dec pre -> c.(cam_causal) = true ->
  mixed_batch_path fa_span sdpa_span env (build_metadata thr c)
  = causal_reference (zip c.(cam_seq_lens) c.(cam_query_lens)).
Proof using Hfa Hsdpa.
  intros Hs Hc. pose proof (sound_rows _ _ _ _ Hs) as Hrows.
  destruct (build_metadata_spec _ _ _ _ Hs Hc) as (Hmr & Hnd & Hndt & _ & Hvq).
  destruct (build_metadata_fields thr c) as (F1 & F2 & F3 & _ & _ & F6).
  set (md := build_metadata thr c) in *. set (rows := zip (cam_seq_lens c) (cam_query_lens c)) in *.
  pose proof (Forall2_length _ _ _ (sc_seq _ _ _ _ Hs)) as Hlen.
  assert (Hsnd : rows.*2 = dec ++ pre) by (rewrite <- (sc_lens _ _ _ _ Hs); apply snd_zip; lia).
  assert (Hdec : (take (length dec) rows).*2 = dec) by (rewrite fmap_take, Hsnd; apply take_app_length).
  assert (Hpre : (drop (length dec) rows).*2 = pre) by (rewrite fmap_drop, Hsnd; apply drop_app_length).
  rewrite <- (take_drop (length dec) rows) at 1. rewrite causal_reference_app.
  assert (Hld : length (take (length dec) rows) = length dec) by (by rewrite <- (length_fmap snd), Hdec).
  rewrite Hld. unfold mixed_batch_path. rewrite Hnd. cbv zeta. f_equal.
  - destruct Hvq as [[-> Hone]|(-> & Hpos & Hq)].
    + unfold decode_path, decode_meta. simpl max_query_len. cbn [Z.gtb Z.compare Pos.compare Pos.compare_cont].
      rewrite Hnd, F1, F2. rewrite decode_reference; simpl.
      * unfold md_rows. simpl. by rewrite <- zip_with_take.
      * rewrite !length_take, Hlen. done.
      * by rewrite (sc_lens _ _ _ _ Hs), take_app_length.
    + simpl num_actual_tokens. rewrite Hndt. rewrite take_ge.
      * rewrite <- Hdec at 1. apply verify_reference; [by apply Forall_take|]. by rewrite Hdec.
      * apply Nat2Z.inj_le. rewrite vq_rows_length, Hdec; [lia|]. apply Forall_take. eapply Forall_impl; [exact Hrows|]. simpl. lia.
  - f_equal. assert (Hpm : md_rows (prefill_meta md) = drop (length dec) rows).
    { unfold md_rows, prefill_meta. simpl. by rewrite Hnd, F1, F2, <- zip_with_drop. }
    rewrite <- Hpm. apply prefill_part; [by simpl; rewrite F3| |].
    + rewrite Hpm. apply Forall_forall. intros x Hx. pose proof (sc_threshold _ _ _ _ Hs).
      assert (Hp : x.2 ∈ pre) by (rewrite <- Hpre; by apply list_elem_of_fmap_2).
      pose proof (proj1 (Forall_forall _ _) (sc_pre _ _ _ _ Hs) _ Hp) as Hgt. simpl in Hgt.
      pose proof (proj1 (Forall_forall _ _) (Forall_drop _ (length dec) _ Hrows) _ Hx) as Hle. simpl in Hle. lia.
    + rewrite F6, Hpm. apply existsb_drop.
Qed.

(** C2: Every query token attends to its whole causal context, and to nothing
    else.  For a sound causal batch (short queries first), whatever path [forward]
    takes - single-token decode, shared or per-token verify, fused verify,
    materialise and FlashAttention, the slow path, fresh prefill, or a mix - query
    [j] of a request with [sl - ql] committed tokens attends exactly to positions
    [0 .. sl - ql + j] of its own request, in output-row order. *)
Theorem forward_attends_causal_context thr c dec pre :
  sound_cam thr c dec pre -> c.(cam_causal) = true ->
  forward fa_span sdpa_span env (build_metadata thr c)
  = causal_reference (zip c.(cam_seq_lens) c.(cam_query_lens)).
Proof using Hfa Hsdpa.
  intros Hs Hc. pose proof (sound_rows _ _ _ _ Hs) as Hrows. pose proof (mixed_reference _ _ _ _ Hs Hc) as Hmix.
  destruct (build_metadata_spec _ _ _ _ Hs Hc) as (Hmr & Hnd & Hndt & Htok & Hvq).
  destruct (build_metadata_fields thr c) as (F1 & F2 & F3 & F4 & F5 & F6).
  set (md := build_metadata thr c) in *. set (rows := zip (cam_seq_lens c) (cam_query_lens c)) in *.
  pose proof (Forall2_length _ _ _ (sc_seq _ _ _ _ Hs)) as Hlen.
  assert (Hsnd : rows.*2 = dec ++ pre) by (rewrite <- (sc_lens _ _ _ _ Hs); apply snd_zip; lia).
  assert (Hge : 1 * Z.of_nat (length (dec ++ pre)) <= sumZ (dec ++ pre)).
  { apply sumZ_ge. rewrite <- Hsnd. apply Forall_fmap. eapply Forall_impl; [exact Hrows|]. simpl. lia. }
  unfold forward. rewrite Htok, <- sumZ_app, F5. destruct (Z.leb_spec (sumZ (dec ++ pre)) 0) as [H0|H0].
  { assert (Hnil : rows = []); [|by rewrite Hnil]. apply length_zero_iff_nil. rewrite <- (length_fmap snd), Hsnd. lia. }
  rewrite Z.gtb_ltb. destruct (Z.ltb_spec 1 (cam_max_query_len c)) as [Hmax|Hmax]; cbn [negb].
  2:{ unfold decode_path. rewrite F4, Z.gtb_ltb. destruct (Z.ltb_spec 1 (cam_max_query_len c)); [lia|].
      rewrite decode_reference, Hmr; [done|by rewrite F1, F2|]. rewrite F2, (sc_lens _ _ _ _ Hs).
      rewrite (sc_max _ _ _ _ Hs), max_le, (sc_lens _ _ _ _ Hs), <- Hsnd, Forall_fmap in Hmax by lia.
      rewrite <- Hsnd. apply Forall_fmap, Forall_forall. intros x Hx. rewrite Forall_forall in Hmax, Hrows.
      specialize (Hmax x Hx). specialize (Hrows x Hx). simpl in *. lia. }
  assert (Hrest : match num_decodes md with
    | O => if has_cached_multiquery md then cached_multiquery_path fa_span env md else prefill_first_chunk fa_span sdpa_span env md
    | S _ => mixed_batch_path fa_span sdpa_span env md end = causal_reference rows).
  { destruct (num_decodes md) as [|nd] eqn:Hn; [|exact Hmix]. rewrite <- Hmr. apply prefill_part; [by rewrite F3| |by rewrite F6, Hmr].
    rewrite Hmr. destruct dec as [|d dec]; [|done]. pose proof (sc_threshold _ _ _ _ Hs).
    apply Forall_forall. intros x Hx. rewrite Forall_forall in Hrows. specialize (Hrows x Hx). simpl in Hrows.
    assert (Hp : x.2 ∈ pre) by (change pre with ([] ++ pre); rewrite <- Hsnd; by apply list_elem_of_fmap_2).
    pose proof (proj1 (Forall_forall _ _) (sc_pre _ _ _ _ Hs) _ Hp) as Hgt. simpl in Hgt. lia. }
  destruct Hvq as [[-> _]|(-> & _ & Hq)]; [exact Hrest|]. rewrite Hndt.
  destruct (Z.eqb_spec (sumZ dec) (sumZ (dec ++ pre))) as [Heq|]; [|exact Hrest].
  rewrite sumZ_app in Heq. assert (Hpre : pre = []).
  { apply length_zero_iff_nil. pose proof (sc_threshold _ _ _ _ Hs).
    assert (1 * Z.of_nat (length pre) <= sumZ pre); [|lia]. apply sumZ_ge.
    eapply Forall_impl; [exact (sc_pre _ _ _ _ Hs)|]. simpl. lia. }
  subst pre. rewrite app_nil_r in Hsnd. unfold verify_decode_path. rewrite Htok, Z.add_0_r.
  assert (Hld : length dec = length rows) by (by rewrite <- (length_fmap snd rows), Hsnd).
  rewrite take_ge by lia. rewrite <- Hsnd. apply verify_reference; [done|]. by rewrite Hsnd.
Qed.
End correct.

(** ** Concrete batches *)

Definition fa_bottom_right (causal : bool) (sq sk j : Z) : Z * Z := (0, if causal then sk - sq + j + 1 else sk).

Definition sdpa_lower (causal : bool) (sq j : Z) : Z * Z := (0, if causal then j + 1 else sq).

Definition ex_env : Env := mkEnv true 8 64 true true 128 128 (Some 65536).

(** A decode, a verify step with two drafts, and a prefill chunk with history. *)
Definition ex_cam : Cam := mkCam [300; 260; 500] [1; 3; 200] 204 200 500 true.

Lemma forward_attends_causal_context_witness :
  forward fa_bottom_right sdpa_lower ex_env (build_metadata 4 ex_cam)
  = causal_reference [(300, 1); (260, 3); (500, 200)].
Proof.
  apply (forward_attends_causal_context fa_bottom_right sdpa_lower ex_env (fun _ _ _ _ _ => eq_refl) (fun _ _ _ => eq_refl)
           4 ex_cam [1; 3] [200]); [|reflexivity].
  split; simpl; try reflexivity; [lia|repeat constructor; lia..].
Defined.

(** The slow path ignores non-causal attention.  The metadata documents that
    with [causal=False] each query row attends to the full context; on the fallback
    for head sizes above 256 a non-causal batch (here with the fused verify switched
    off) is still attended with the causal staircase. *)
Theorem slow_path_ignores_non_causal fa_span sdpa_span :
  forward fa_span sdpa_span (mkEnv false 8 64 true true 512 128 (Some 65536))
    (build_metadata 1 (mkCam [100] [4] 4 4 100 false))
  = [(0%nat, 0, 97); (0%nat, 0, 98); (0%nat, 0, 99); (0%nat, 0, 100)].
Proof. reflexivity. Qed.
