(* ===== verification/KVarNLaunch.v ===== *)
(** * Materialising the cached keys and values

    Models the tables the metadata builder hands to the kernels
    ([KVarNMetadataBuilder._tile_row_table] and the prefix sums of [build] in
    [vllm/v1/attention/backends/kvarn_attn.py]), the launch of
    [_kvarn_build_packed_kv_kernel] ([triton_kvarn_decode.py]) that copies a batch's
    cached tokens into one packed buffer, and the slow gather [_gather_request_kv].

    The data of a token is described by where it comes from. *)

From S2P Require Import Prelude KVarNTiles KVarNTilesProps.

(** Where a token's rotated row comes from: a pool slot, a packed record, or zeros. *)
Inductive Src :=
| Pool (slot offset : Z)
| Quant (block offset : Z)
| Zeros.

Section launch.
Context (GROUP tpr : Z).

(** ** Tables *)

(** Row [b] of the tile table, from the vLLM-block row of the request. *)
Definition tile_table_row (row : list Z) (bt_cols sl max_tiles : Z) : list Z :=
  let n_tiles := Z.min ((sl + GROUP - 1) / GROUP) max_tiles in
  (fun t =>
     if (t <? n_tiles) && (t / tpr <? bt_cols) then
       match row !! Z.to_nat (t / tpr) with
       | Some vbid => if 0 <=? vbid then vbid * tpr + t mod tpr else -1
       | None => -1
       end
     else -1) <$> seqZ 0 max_tiles.

Definition tile_row_table (block_table : list (list Z)) (bt_cols : Z) (seq_lens : list Z) (max_tiles : Z)
    : res (list (list Z)) :=
  rmap (fun x : nat * Z =>
    let '(b, sl) := x in
    if ((sl + GROUP - 1) / GROUP <=? 0) || (bt_cols =? 0) then Ok (replicate (Z.to_nat max_tiles) (-1)) else
    match block_table !! b with
    | None => Raise IndexError
    | Some row => Ok (tile_table_row row bt_cols sl max_tiles)
    end) (imap pair seq_lens).

(** [cu = [0]; for sl in seq_lens: cu.append(cu[-1] + sl)], from [acc]. *)
Fixpoint cu_seqlens (acc : Z) (seq_lens : list Z) : list Z :=
  match seq_lens with
  | [] => [acc]
  | sl :: seq_lens' => acc :: cu_seqlens (acc + sl) seq_lens'
  end.

(** ** The kernel *)

(** Masked load: -1 when the block is out of range. *)
Definition pool_slot (b2s : list Z) (block_id : Z) : Z :=
  if (0 <=? block_id) && (block_id <? Z.of_nat (length b2s)) then default (-1) (b2s !! Z.to_nat block_id) else -1.

Definition source (b2s : list Z) (block_id off : Z) : Src :=
  if 0 <=? pool_slot b2s block_id then Pool (pool_slot b2s block_id) off else Quant block_id off.

(** Program [bk]: the output rows it writes and where each row comes from. *)
Definition program (table : list (list Z)) (seq_lens cu b2s : list Z) (MAX_BLOCKS_PER_REQ bk : Z) : list (Z * Src) :=
  let b := bk / MAX_BLOCKS_PER_REQ in
  let k := bk mod MAX_BLOCKS_PER_REQ in
  let seq_len := default 0 (seq_lens !! Z.to_nat b) in
  let n_tok := Z.min (Z.max (seq_len - k * GROUP) 0) GROUP in
  if n_tok <=? 0 then [] else
  let block_id := default (-1) (table !! Z.to_nat b ≫= (.!! Z.to_nat k)) in
  let dst_base := default 0 (cu !! Z.to_nat b) + k * GROUP in
  (fun g => (dst_base + g, source b2s block_id g)) <$> seqZ 0 n_tok.

(** The grid of [B * MAX_BLOCKS_PER_REQ] programs. *)
Definition build_packed_kv (table : list (list Z)) (seq_lens cu b2s : list Z) (MAX_BLOCKS_PER_REQ : Z) : list (Z * Src) :=
  concat (program table seq_lens cu b2s MAX_BLOCKS_PER_REQ
            <$> seqZ 0 (Z.of_nat (length seq_lens) * MAX_BLOCKS_PER_REQ)).

(** ** The slow gather *)

(** A full tile, then the tail; a tail without a slot reads as zeros. *)
Definition gather_request_kv (dict_map : list (Z * Z)) (row : list Z) (seq_len : Z) : res (list Src) :=
  let n_full := seq_len / GROUP in
  let tail_len := seq_len mod GROUP in
  let? parts := rmap (fun i =>
    match row !! Z.to_nat i with
    | None => Raise IndexError
    | Some block_id =>
        Ok (match dict_get dict_map block_id with
            | Some slot => Pool slot <$> seqZ 0 GROUP
            | None => Quant block_id <$> seqZ 0 GROUP
            end)
    end) (seqZ 0 n_full) in
  if tail_len >? 0 then
    match row !! Z.to_nat n_full with
    | None => Raise IndexError
    | Some block_id =>
        Ok (concat parts ++ match dict_get dict_map block_id with
                            | Some slot => Pool slot <$> seqZ 0 tail_len
                            | None => replicate (Z.to_nat tail_len) Zeros
                            end)
    end
  else Ok (concat parts).

(** ** Splitting ranges into tiles *)

Context (HG : 0 < GROUP).

Lemma seqZ_snoc n : 0 <= n -> seqZ 0 (n + 1) = seqZ 0 n ++ [n].
Proof using. intros Hn. rewrite seqZ_app by lia. by rewrite Z.add_0_l. Qed.

Lemma seqZ_shift m n : seqZ m n = Z.add m <$> seqZ 0 n.
Proof using. by rewrite fmap_add_seqZ, Z.add_0_r. Qed.

Lemma concat_singleton {A} (l : list A) : concat [l] = l.
Proof using. simpl. apply app_nil_r. Qed.

Lemma tiles_cover {A} (f : Z -> A) sl n : 0 <= n ->
  concat ((fun k => (fun g => f (k * GROUP + g)) <$> seqZ 0 (Z.min (Z.max (sl - k * GROUP) 0) GROUP)) <$> seqZ 0 n)
  = f <$> seqZ 0 (Z.min sl (n * GROUP)).
Proof using HG.
  intros Hn. pattern n. apply natlike_ind; [|clear n Hn; intros n Hn IH|done].
  { destruct (Z.min_spec sl (0 * GROUP)) as [[? ->]|[? ->]]; simpl; [|done]. by rewrite seqZ_nil by lia. }
  unfold Z.succ. rewrite seqZ_snoc, fmap_app, concat_app, IH, list_fmap_singleton, concat_singleton by done. cbv beta.
  destruct (Z.le_gt_cases sl (n * GROUP)) as [Hle|Hgt].
  - rewrite !Z.min_l by lia. rewrite Z.max_r by lia.
    change (seqZ 0 0) with (@nil Z). by rewrite fmap_nil, app_nil_r.
  - rewrite (Z.min_r sl (n * GROUP)) by lia. set (m := Z.min (Z.max (sl - n * GROUP) 0) GROUP).
    replace (Z.min sl ((n + 1) * GROUP)) with (n * GROUP + m) by lia.
    rewrite seqZ_app by nia. rewrite fmap_app. f_equal. rewrite Z.add_0_l.
    by rewrite (seqZ_shift (n * GROUP)), <- list_fmap_compose.
Qed.

(** The programs of one request come one after the other. *)
Lemma grid_rows {A} (f : Z -> list A) B MAX : 0 <= MAX -> 0 <= B ->
  concat (f <$> seqZ 0 (B * MAX)) = concat ((fun b => concat ((fun k => f (b * MAX + k)) <$> seqZ 0 MAX)) <$> seqZ 0 B).
Proof using.
  intros HM HB. pattern B. apply natlike_ind; [done|clear B HB; intros B HB IH|done].
  unfold Z.succ. rewrite seqZ_snoc, fmap_app, concat_app, list_fmap_singleton, concat_singleton, <- IH by done.
  replace ((B + 1) * MAX) with (B * MAX + MAX) by lia. rewrite seqZ_app, fmap_app, concat_app by lia. f_equal. f_equal.
  by rewrite Z.add_0_l, (seqZ_shift (B * MAX)), <- list_fmap_compose.
Qed.

Lemma seqZ_imap {A B} (f : Z -> B) (g : nat -> A -> B) l :
  (forall b x, l !! b = Some x -> f (Z.of_nat b) = g b x) -> f <$> seqZ 0 (Z.of_nat (length l)) = imap g l.
Proof using.
  intros Hf. apply list_eq. intros b. rewrite list_lookup_fmap, list_lookup_imap. destruct (l !! b) as [x|] eqn:Hb.
  - pose proof (lookup_lt_Some _ _ _ Hb). rewrite lookup_seqZ_lt by lia. simpl. by rewrite <- (Hf b x Hb).
  - apply lookup_ge_None in Hb. by rewrite lookup_seqZ_ge by lia.
Qed.

Lemma cu_lookup acc seq_lens b x :
  seq_lens !! b = Some x -> cu_seqlens acc seq_lens !! b = Some (acc + foldr Z.add 0 (take b seq_lens)).
Proof using.
  revert acc b. induction seq_lens as [|sl seq_lens IH]; intros acc [|b] Hb; try done.
  - simpl. f_equal. lia.
  - simpl in *. rewrite (IH _ _ Hb). f_equal. lia.
Qed.

(** The rows a request occupies, each with its source. *)
Definition request_rows (table : list (list Z)) (b2s : list Z) (start : Z) (b : nat) (sl : Z) : list (Z * Src) :=
  (fun i => (start + i, source b2s (default (-1) (table !! b ≫= (.!! Z.to_nat (i / GROUP)))) (i mod GROUP)))
    <$> seqZ 0 sl.

Lemma program_rows table seq_lens cu b2s MAX b sl start :
  0 < MAX -> seq_lens !! b = Some sl -> cu !! b = Some start -> 0 <= sl <= MAX * GROUP ->
  concat ((fun k => program table seq_lens cu b2s MAX (Z.of_nat b * MAX + k)) <$> seqZ 0 MAX)
  = request_rows table b2s start b sl.
Proof using HG.
  intros HM Hsl Hcu Hle. unfold request_rows. rewrite <- (Z.min_l sl (MAX * GROUP)) by lia.
  rewrite <- tiles_cover by lia. f_equal. apply list_fmap_ext. intros i k Hk.
  apply list_elem_of_lookup_2, elem_of_seqZ in Hk. unfold program.
  rewrite Z.div_add_l, (Z.div_small k MAX), Z.add_0_r, Nat2Z.id by lia.
  rewrite (Z.add_comm (Z.of_nat b * MAX)), Z.mod_add, Z.mod_small by lia. rewrite Hsl, Hcu. cbn [from_option id].
  set (n := Z.min (Z.max (sl - k * GROUP) 0) GROUP). destruct (Z.leb_spec n 0).
  { by rewrite seqZ_nil by lia. }
  apply list_fmap_ext. intros j g Hg. apply list_elem_of_lookup_2, elem_of_seqZ in Hg.
  rewrite Z.div_add_l, (Z.div_small g GROUP), Z.add_0_r by lia.
  rewrite (Z.add_comm (k * GROUP) g), Z.mod_add, Z.mod_small by lia. f_equal. lia.
Qed.

(** ** The packed buffer *)

(** The tile row of tile [t], -1 for an unallocated block. *)
Definition tile_of (row : list Z) (t : Z) : Z :=
  match tile_row tpr row t with Ok (Some x) => x | _ => -1 end.

(** Token [i] of request [b] at [cu[b] + i], from offset [i % GROUP] of its tile. *)
Definition packed_reference (b2s : list Z) (cu : list Z) (reqs : list (Z * list Z)) : list (Z * Src) :=
  concat (imap (fun b x =>
    (fun i => (default 0 (cu !! b) + i, source b2s (tile_of x.2 (i / GROUP)) (i mod GROUP))) <$> seqZ 0 x.1) reqs).

Context (Htpr : 0 < tpr).

Lemma tile_table_row_lookup row cols sl max_tiles t :
  Z.of_nat (length row) = cols -> 0 <= t < Z.min ((sl + GROUP - 1) / GROUP) max_tiles ->
  tile_table_row row cols sl max_tiles !! Z.to_nat t = Some (tile_of row t).
Proof using Htpr.
  intros Hlen Ht. unfold tile_table_row. rewrite list_lookup_fmap, lookup_seqZ_lt by lia. simpl.
  rewrite Z2Nat.id, Z.add_0_l by lia. rewrite (proj2 (Z.ltb_lt t _)) by lia. cbn [andb].
  assert (0 <= t / tpr) by (apply Z.div_pos; lia).
  unfold tile_of, tile_row. destruct (Z.ltb_spec (t / tpr) cols) as [Hlt|Hge].
  - destruct (lookup_lt_is_Some_2 row (Z.to_nat (t / tpr))) as [v ->]; [lia|].
    destruct (Z.leb_spec 0 v), (Z.ltb_spec v 0); (lia || done).
  - by rewrite lookup_ge_None_2 by lia.
Qed.

Lemma tile_row_table_ok bt cols seq_lens max_tiles :
  length bt = length seq_lens -> Forall (fun row => Z.of_nat (length row) = cols) bt ->
  exists table, tile_row_table bt cols seq_lens max_tiles = Ok table
    /\ forall b sl row t, seq_lens !! b = Some sl -> bt !! b = Some row ->
         0 <= t < Z.min ((sl + GROUP - 1) / GROUP) max_tiles ->
         table !! b ≫= (.!! Z.to_nat t) = Some (tile_of row t).
Proof using Htpr.
  intros Hlen Hrows. unfold tile_row_table. set (f := fun x : nat * Z => _).
  destruct (rmap_ok f (imap pair seq_lens)) as (table & -> & Hall).
  { intros [b sl] Hx. apply list_elem_of_lookup in Hx as [j Hj]. rewrite list_lookup_imap in Hj.
    destruct (seq_lens !! j) as [sl'|] eqn:Hs; [|done]. injection Hj as <- <-. unfold f.
    destruct (_ || _); [by eexists|]. pose proof (lookup_lt_Some _ _ _ Hs).
    destruct (lookup_lt_is_Some_2 bt j) as [row ->]; [lia|by eexists]. }
  exists table. split; [done|]. intros b sl row t Hs Hb Ht.
  destruct (Forall2_lookup_l _ _ _ b (b, sl) Hall) as (trow & Htr & Hf); [by rewrite list_lookup_imap, Hs|].
  rewrite Htr. simpl. unfold f in Hf. rewrite Hb in Hf.
  pose proof (Forall_lookup_1 _ _ _ _ Hrows Hb) as Hrow. simpl in Hrow.
  destruct (Z.leb_spec ((sl + GROUP - 1) / GROUP) 0); [lia|]. cbn [orb] in Hf.
  destruct (Z.eqb_spec cols 0) as [Hc|Hc]; injection Hf as <-; [|by apply tile_table_row_lookup].
  rewrite lookup_replicate_2 by lia. unfold tile_of, tile_row. destruct row; [done|]. simpl in Hrow. lia.
Qed.

Lemma total_nonneg l : Forall (fun sl => 0 <= sl) l -> 0 <= foldr Z.add 0 l.
Proof using. induction 1 as [|x l Hx Hl IH]; cbn [foldr]; lia. Qed.

Lemma packed_addresses b2s acc seq_lens (rows : list (list Z)) :
  length rows = length seq_lens -> Forall (fun sl => 0 <= sl) seq_lens ->
  (packed_reference b2s (cu_seqlens acc seq_lens) (zip seq_lens rows)).*1 = seqZ acc (foldr Z.add 0 seq_lens).
Proof using.
  unfold packed_reference. intros Hlen Hpos. revert acc rows Hlen.
  induction Hpos as [|sl seq_lens Hsl Hpos IH]; intros acc [|row rows] Hlen; try done.
  injection Hlen as Hlen. cbn [zip zip_with imap concat cu_seqlens]. rewrite fmap_app.
  cbn [foldr]. rewrite seqZ_app; [|done|by apply total_nonneg]. f_equal; [|by rewrite <- (IH (acc + sl) rows Hlen)].
  rewrite <- list_fmap_compose. cbn. by rewrite (seqZ_shift acc).
Qed.

(** The materialised keys and values are the requests' tokens, back to back.
    With the tables the builder makes, the launch writes token [i] of request [b] to
    row [cu_seqlens[b] + i], taken from offset [i % GROUP] of the tile its block table
    names; the rows written are exactly [0 .. total) with none written twice. *)
Theorem packed_kv_layout bt cols seq_lens max_tiles MAX b2s :
  length bt = length seq_lens -> Forall (fun row => Z.of_nat (length row) = cols) bt ->
  Forall (fun sl => 0 <= sl <= MAX * GROUP) seq_lens -> 0 < MAX <= max_tiles ->
  exists table, tile_row_table bt cols seq_lens max_tiles = Ok table
    /\ build_packed_kv table seq_lens (cu_seqlens 0 seq_lens) b2s MAX
       = packed_reference b2s (cu_seqlens 0 seq_lens) (zip seq_lens bt)
    /\ (build_packed_kv table seq_lens (cu_seqlens 0 seq_lens) b2s MAX).*1 = seqZ 0 (foldr Z.add 0 seq_lens).
Proof using HG Htpr.
  intros Hlen Hrows Hsl HM. destruct (tile_row_table_ok bt cols seq_lens max_tiles Hlen Hrows) as (table & Ht & Hlook).
  exists table. split; [done|].
  assert (Heq : build_packed_kv table seq_lens (cu_seqlens 0 seq_lens) b2s MAX
                = packed_reference b2s (cu_seqlens 0 seq_lens) (zip seq_lens bt)).
  { unfold build_packed_kv, packed_reference. rewrite grid_rows by lia. f_equal.
    replace (length seq_lens) with (length (zip seq_lens bt)) by (rewrite length_zip_with; lia).
    apply seqZ_imap. intros b [sl row] Hb. apply lookup_zip_with_Some in Hb as (? & ? & [= <- <-] & Hb & Hr).
    pose proof (Forall_lookup_1 _ _ _ _ Hsl Hb) as Hle. simpl in Hle.
    rewrite (program_rows table seq_lens _ b2s MAX b sl _ (proj1 HM) Hb (cu_lookup 0 seq_lens b sl Hb) Hle).
    rewrite (cu_lookup 0 seq_lens b sl Hb). cbn [from_option id]. apply list_fmap_ext. intros j i Hi.
    apply list_elem_of_lookup_2, elem_of_seqZ in Hi. simpl in *. rewrite (Hlook b sl row (i / GROUP) Hb Hr); [done|].
    split; [apply Z.div_pos; lia|]. apply Z.min_glb_lt; apply Z.div_lt_upper_bound; try lia.
    - pose proof (Z.mod_pos_bound (sl + GROUP - 1) GROUP HG). pose proof (Z.div_mod (sl + GROUP - 1) GROUP ltac:(lia)). lia.
    - nia. }
  split; [done|]. rewrite Heq. apply packed_addresses; [done|]. eapply Forall_impl; [exact Hsl|]. simpl. lia.
Qed.

(** ** The gather agrees with the kernel *)

(** Mirror and dictionary name the same source. *)
Lemma source_dict {Tok Rec} (st : TileState Tok Rec) x off :
  TileInv GROUP ∅ st -> st.(max_known) < Z.of_nat (length st.(b2s_t)) ->
  source st.(b2s_t) x off = match dict_get st.(dict_map) x with Some s => Pool s off | None => Quant x off end.
Proof using.
  intros Hinv Hcov. unfold source, pool_slot. destruct (dict_get (dict_map st) x) as [s|] eqn:Hs.
  - assert (Hk : x ∈ (dict_map st).*1) by (apply dict_get_Some; eauto). apply (ti_range _ _ _ Hinv) in Hk.
    pose proof (pool_slot_range _ _ _ _ _ Hinv Hs) as Hr.
    rewrite (proj2 (Z.leb_le 0 x)), (proj2 (Z.ltb_lt x _)) by lia. cbn [andb].
    assert (Hm : b2s_t st !! Z.to_nat x = Some s) by (rewrite (ti_mirror _ _ _ Hinv) by lia; by rewrite Hs).
    rewrite !Hm. simpl. destruct (Z.leb_spec 0 s); [done|lia].
  - destruct (Z.leb_spec 0 x); [|done]. destruct (Z.ltb_spec x (Z.of_nat (length (b2s_t st)))); [|done]. cbn [andb].
    assert (Hm : b2s_t st !! Z.to_nat x = Some (-1)) by (rewrite (ti_mirror _ _ _ Hinv) by lia; by rewrite Hs).
    by rewrite !Hm.
Qed.

(** The slow gather reads what the kernel reads.  In a sound allocator state, for a
    request whose tile table covers its length and whose partial last tile is in the
    pool, [_gather_request_kv] collects, token by token, exactly the sources the
    materialising kernel uses. *)
Theorem gather_matches_kernel {Tok Rec} (st : TileState Tok Rec) row sl :
  TileInv GROUP ∅ st -> st.(max_known) < Z.of_nat (length st.(b2s_t)) ->
  0 <= sl -> (sl + GROUP - 1) / GROUP <= Z.of_nat (length row) ->
  (sl mod GROUP <> 0 -> default (-1) (row !! Z.to_nat (sl / GROUP)) ∈ st.(dict_map).*1) ->
  gather_request_kv st.(dict_map) row sl
  = Ok ((fun i => source st.(b2s_t) (default (-1) (row !! Z.to_nat (i / GROUP))) (i mod GROUP)) <$> seqZ 0 sl).
Proof using HG.
  intros Hinv Hcov Hsl Hrow Htail. set (f := fun i => source _ _ _).
  pose proof (Z.div_mod sl GROUP ltac:(lia)) as Hdm. pose proof (Z.mod_pos_bound sl GROUP HG) as Hmod.
  assert (Hq : 0 <= sl / GROUP) by (by apply Z.div_pos).
  assert (Hceil : sl / GROUP + (if 0 <? sl mod GROUP then 1 else 0) <= Z.of_nat (length row)).
  { etransitivity; [|exact Hrow]. apply Z.div_le_lower_bound; [done|]. destruct (Z.ltb_spec 0 (sl mod GROUP)); nia. }
  unfold gather_request_kv. set (g := fun i : Z => _).
  assert (Hparts : rmap g (seqZ 0 (sl / GROUP)) = Ok ((fun k => (fun o => f (k * GROUP + o)) <$> seqZ 0 GROUP) <$> seqZ 0 (sl / GROUP))).
  { apply rmap_fmap. intros k Hk%elem_of_seqZ. unfold g, f.
    destruct (lookup_lt_is_Some_2 row (Z.to_nat k)) as [x Hx]; [destruct (0 <? sl mod GROUP); lia|]. rewrite Hx. f_equal.
    assert (Hext : forall h, (forall o, 0 <= o < GROUP -> h o = f (k * GROUP + o)) ->
              h <$> seqZ 0 GROUP = (fun o => f (k * GROUP + o)) <$> seqZ 0 GROUP).
    { intros h Hh. apply list_fmap_ext. intros j o Ho%list_elem_of_lookup_2%elem_of_seqZ. by apply Hh. }
    assert (Hf : forall o, 0 <= o < GROUP -> f (k * GROUP + o) = source (b2s_t st) x o).
    { intros o Ho. unfold f. rewrite Z.div_add_l, (Z.div_small o), Z.add_0_r, Hx by lia.
      by rewrite (Z.add_comm (k * GROUP)), Z.mod_add, Z.mod_small by lia. }
    destruct (dict_get (dict_map st) x) as [s|] eqn:Hs; apply Hext; intros o Ho; rewrite (Hf o Ho), source_dict, Hs by done; done. }
  rewrite Hparts. cbn [rbind].
  assert (Hfull : concat ((fun k => (fun o => f (k * GROUP + o)) <$> seqZ 0 GROUP) <$> seqZ 0 (sl / GROUP))
                  = f <$> seqZ 0 (sl / GROUP * GROUP)).
  { rewrite <- (Z.min_r sl (sl / GROUP * GROUP)) by lia. rewrite <- tiles_cover by done. f_equal.
    apply list_fmap_ext. intros j k Hk%list_elem_of_lookup_2%elem_of_seqZ. do 2 f_equal. nia. }
  rewrite Hfull, Z.gtb_ltb. destruct (Z.ltb_spec 0 (sl mod GROUP)) as [Ht|Ht].
  - destruct (lookup_lt_is_Some_2 row (Z.to_nat (sl / GROUP))) as [x Hx]; [lia|]. rewrite Hx. f_equal.
    rewrite Hx in Htail. destruct (proj2 (dict_get_Some _ _) (Htail ltac:(lia))) as [s Hs]. cbn [from_option id] in Hs. rewrite Hs.
    replace sl with (sl / GROUP * GROUP + sl mod GROUP) at 3 by lia. rewrite seqZ_app, fmap_app, Z.add_0_l by lia. f_equal.
    rewrite (seqZ_shift (sl / GROUP * GROUP)), <- list_fmap_compose. apply list_fmap_ext.
    intros j o Ho%list_elem_of_lookup_2%elem_of_seqZ. unfold f. simpl.
    rewrite Z.div_add_l, (Z.div_small o), Z.add_0_r, Hx by lia. cbn [from_option id].
    rewrite source_dict, Hs by done. by rewrite Z.add_comm, Z.mod_add, Z.mod_small by lia.
  - do 3 f_equal. lia.
Qed.
End launch.

(** ** Concrete requests *)

Lemma packed_kv_layout_witness :
  exists table, tile_row_table 4 2 [[3; 5]; [1; -1]] 2 [10; 3] 4 = Ok table
    /\ build_packed_kv 4 table [10; 3] (cu_seqlens 0 [10; 3]) [-1; -1; 0; -1; -1; -1; -1; -1; -1; -1; 1] 3
       = packed_reference 4 2 [-1; -1; 0; -1; -1; -1; -1; -1; -1; -1; 1] (cu_seqlens 0 [10; 3])
           (zip [10; 3] [[3; 5]; [1; -1]])
    /\ (build_packed_kv 4 table [10; 3] (cu_seqlens 0 [10; 3]) [-1; -1; 0; -1; -1; -1; -1; -1; -1; -1; 1] 3).*1
       = seqZ 0 13.
Proof.
  apply (packed_kv_layout 4 2 ltac:(lia) ltac:(lia) [[3; 5]; [1; -1]] 2 [10; 3] 4 3);
    [reflexivity|repeat constructor|repeat constructor; lia|lia].
Defined.

Lemma gather_matches_kernel_witness :
  gather_request_kv 128 ex_mid.(dict_map) [3; 5; -1] 130
  = Ok ((fun i => source ex_mid.(b2s_t) (default (-1) ([3; 5; -1] !! Z.to_nat (i / 128))) (i mod 128)) <$> seqZ 0 130).
Proof.
  apply (gather_matches_kernel 128 ltac:(lia) ex_mid);
    [apply (ex_pre2 false)|vm_compute; reflexivity|lia|vm_compute; discriminate|].
  intros _. apply (bool_decide_unpack _). vm_compute. exact I.
Defined.
