(* ===== verification/Ngram.v ===== *)
(** * The n-gram proposer

    Models [NgramProposer] ([vllm/v1/spec_decode/ngram_proposer.py]): draft tokens are
    those that followed an earlier occurrence of the context's last n-gram.  The search
    is a Knuth-Morris-Pratt scan of the reversed context with the n-gram length capped;
    it is shown to find the longest n-gram within the limits and its earliest
    occurrence.  The batch over requests writes preallocated buffers, which are part of
    the state.

    The scan runs on fuel; [scan_fuel] is twice the number of tokens, which suffices
    because every iteration advances the position or shortens the match. *)

From S2P Require Import Prelude.

(** The loop's variables. *)
Record Scan := mkScan {
  sc_i : nat;
  prev_lps : nat;
  longest_ngram : nat;
  position : nat;
  lps : list nat;
}.

(** One iteration of [while i < total_token]. *)
Definition scan_step (tokens : list Z) (max_ngram : nat) (s : Scan) : Scan :=
  let '(mkScan i prev longest pos lps) := s in
  if decide (tokens !! prev = tokens !! i) then
    let prev := S prev in
    let '(longest, pos) := if (longest <=? prev)%nat then (prev, i) else (longest, pos) in
    let lps := if (i <? max_ngram)%nat then <[i := prev]> lps else lps in
    let prev := if (prev =? max_ngram)%nat then default O (lps !! (max_ngram - 1)%nat) else prev in
    mkScan (S i) prev longest pos lps
  else if (prev =? 0)%nat then mkScan (S i) prev longest pos lps
  else mkScan i (default O (lps !! (prev - 1)%nat)) longest pos lps.

Fixpoint scan_loop (fuel : nat) (tokens : list Z) (max_ngram : nat) (s : Scan) : option Scan :=
  match fuel with
  | O => None
  | S fuel' => if (s.(sc_i) <? length tokens)%nat then scan_loop fuel' tokens max_ngram (scan_step tokens max_ngram s)
               else Some s
  end.

Definition scan_fuel (tokens : list Z) : nat := (2 * length tokens + 1)%nat.

(** [_find_longest_matched_ngram_and_propose_tokens]; [None] when the fuel runs out. *)
Definition find_ngram (origin_tokens : list Z) (min_ngram max_ngram : nat) (max_model_len k : Z) : option (list Z) :=
  let total_token := length origin_tokens in
  if (total_token <? min_ngram)%nat then Some [] else
  let k := Z.min k (max_model_len - Z.of_nat total_token) in
  if k <=? 0 then Some [] else
  match scan_loop (scan_fuel origin_tokens) (reverse origin_tokens) max_ngram
          (mkScan 1 0 0 0 (replicate max_ngram O)) with
  | None => None
  | Some s =>
      if (s.(longest_ngram) <? min_ngram)%nat then Some [] else
      let start_position := (total_token - 1 - s.(position) + s.(longest_ngram))%nat in
      let k := Z.min k (Z.of_nat total_token - Z.of_nat start_position) in
      Some (take (Z.to_nat k) (drop start_position origin_tokens))
  end.

(** ** Borders *)

Section kmp.
Variables (t : list Z) (max_ngram : nat).

(** The first [v] tokens end at index [i] again. *)
Definition border (v i : nat) : Prop :=
  (v <= i)%nat /\ forall j, (j < v)%nat -> t !! j = t !! (i + 1 - v + j)%nat.

(** [m] is the longest such length up to the cap. *)
Definition longest_at (i m : nat) : Prop :=
  border m i /\ (m <= max_ngram)%nat /\ forall v, border v i -> (v <= max_ngram)%nat -> (v <= m)%nat.

Lemma border_zero i : border 0 i.
Proof. split; [lia|]. intros j Hj. lia. Qed.

Lemma border_S v i : t !! v = t !! i -> border v (i - 1) -> (1 <= i)%nat -> (S v <= i)%nat -> border (S v) i.
Proof.
  intros Ht [_ Hb] Hi Hv. split; [done|]. intros j Hj. destruct (decide (j = v)) as [->|].
  - rewrite Ht. f_equal. lia.
  - rewrite (Hb j ltac:(lia)). f_equal. lia.
Qed.

Lemma border_pred v i : border (S v) i -> border v (i - 1) /\ t !! v = t !! i.
Proof.
  intros [Hv Hb]. split.
  - split; [lia|]. intros j Hj. rewrite (Hb j ltac:(lia)). f_equal. lia.
  - rewrite (Hb v ltac:(lia)). f_equal. lia.
Qed.

(** A border of a border. *)
Lemma border_inner p v i : border p i -> border v (p - 1) -> (1 <= p)%nat -> border v i.
Proof.
  intros [Hp Hbp] [Hv Hbv] H1. split; [lia|]. intros j Hj. rewrite (Hbv j Hj), (Hbp (p - 1 + 1 - v + j)%nat ltac:(lia)). f_equal. lia.
Qed.

Lemma border_outer p v i : border p i -> border v i -> (v < p)%nat -> border v (p - 1).
Proof.
  intros [Hp Hbp] [Hv Hbv] H1. split; [lia|]. intros j Hj. rewrite (Hbv j Hj), (Hbp (p - 1 + 1 - v + j)%nat ltac:(lia)). f_equal. lia.
Qed.

(** ** The invariant of the scan *)

(** The best match that ends before [i]: its length, and the last place it ends. *)
Definition best_before (i longest pos : nat) : Prop :=
  (forall i' m, (1 <= i' < i)%nat -> longest_at i' m -> (m <= longest)%nat)
  /\ ((0 < longest)%nat -> (1 <= pos < i)%nat /\ longest_at pos longest
        /\ forall i', (pos < i' < i)%nat -> ~ longest_at i' longest).

Record scanned (s : Scan) : Prop := {
  sd_i : (1 <= s.(sc_i) <= Nat.max 1 (length t))%nat;
  sd_prev : (s.(prev_lps) < max_ngram)%nat /\ border s.(prev_lps) (s.(sc_i) - 1);
  sd_max : forall v, border v s.(sc_i) -> (v <= max_ngram)%nat -> (v <= S s.(prev_lps))%nat;
  sd_lps : length s.(lps) = max_ngram
    /\ (forall j, (j < s.(sc_i))%nat -> (j < max_ngram)%nat -> exists m, s.(lps) !! j = Some m /\ longest_at j m)
    /\ (forall j, (s.(sc_i) <= j < max_ngram)%nat -> s.(lps) !! j = Some O);
  sd_best : best_before s.(sc_i) s.(longest_ngram) s.(position);
}.

Lemma longest_unique i m m' : longest_at i m -> longest_at i m' -> m = m'.
Proof. intros (Hb & Hm & Hx) (Hb' & Hm' & Hx'). pose proof (Hx m' Hb' Hm'). pose proof (Hx' m Hb Hm). lia. Qed.

Lemma best_match i longest pos m :
  (1 <= i)%nat -> best_before i longest pos -> longest_at i m -> (1 <= m)%nat ->
  let '(longest', pos') := if (longest <=? m)%nat then (m, i) else (longest, pos) in best_before (S i) longest' pos'.
Proof.
  intros Hi [Hmax Hpos] Hm H1. destruct (Nat.leb_spec longest m) as [Hle|Hgt]; split.
  - intros i' m' Hi' Hl. destruct (decide (i' = i)) as [->|]; [by rewrite (longest_unique _ _ _ Hl Hm)|].
    specialize (Hmax i' m' ltac:(lia) Hl). lia.
  - intros _. split_and!; [lia|lia|done|]. intros i' Hi'. lia.
  - intros i' m' Hi' Hl. destruct (decide (i' = i)) as [->|]; [rewrite (longest_unique _ _ _ Hl Hm); lia|].
    apply (Hmax i' m' ltac:(lia) Hl).
  - intros Hp. destruct (Hpos Hp) as (? & ? & Hlast). split_and!; [lia|lia|done|]. intros i' Hi' Hl.
    destruct (decide (i' = i)) as [->|]; [pose proof (longest_unique _ _ _ Hl Hm); lia|]. apply (Hlast i' ltac:(lia) Hl).
Qed.

Lemma best_miss i longest pos : (1 <= i)%nat -> best_before i longest pos -> longest_at i 0 -> best_before (S i) longest pos.
Proof.
  intros Hi [Hmax Hpos] H0. split.
  - intros i' m Hi' Hl. destruct (decide (i' = i)) as [->|]; [rewrite (longest_unique _ _ _ Hl H0); lia|]. apply (Hmax i' m ltac:(lia) Hl).
  - intros Hp. destruct (Hpos Hp) as (? & ? & Hlast). split_and!; [lia|lia|done|]. intros i' Hi' Hl.
    destruct (decide (i' = i)) as [->|]; [pose proof (longest_unique _ _ _ Hl H0); lia|]. apply (Hlast i' ltac:(lia) Hl).
Qed.

Lemma lps_update (l : list nat) i m :
  length l = max_ngram ->
  (forall j, (j < i)%nat -> (j < max_ngram)%nat -> exists x, l !! j = Some x /\ longest_at j x) ->
  (forall j, (i <= j < max_ngram)%nat -> l !! j = Some O) -> longest_at i m ->
  let l' := if (i <? max_ngram)%nat then <[i := m]> l else l in
  length l' = max_ngram
  /\ (forall j, (j < S i)%nat -> (j < max_ngram)%nat -> exists x, l' !! j = Some x /\ longest_at j x)
  /\ (forall j, (S i <= j < max_ngram)%nat -> l' !! j = Some O).
Proof.
  intros Hl Hlow Hhigh Hm. destruct (Nat.ltb_spec i max_ngram) as [Hlt|Hge]; simpl.
  - rewrite length_insert. split_and!; [done| |].
    + intros j Hj Hjm. destruct (decide (j = i)) as [->|Hne]; [rewrite list_lookup_insert_eq by lia; eauto|].
      rewrite list_lookup_insert_ne by lia. apply Hlow; lia.
    + intros j Hj. rewrite list_lookup_insert_ne by lia. apply Hhigh. lia.
  - split_and!; [done| |]; intros j Hj; [intros Hjm; apply Hlow|apply Hhigh]; lia.
Qed.

(** The candidate after a match of length [m] that may have reached the cap. *)
Lemma next_candidate (l : list nat) i m :
  (1 <= m <= i)%nat -> longest_at i m ->
  (forall j, (j < S i)%nat -> (j < max_ngram)%nat -> exists x, l !! j = Some x /\ longest_at j x) ->
  let p := if (m =? max_ngram)%nat then default O (l !! (max_ngram - 1)%nat) else m in
  (p < max_ngram)%nat /\ (p <= m)%nat /\ border p i /\ forall v, border v (S i) -> (v <= max_ngram)%nat -> (v <= S p)%nat.
Proof.
  intros Hmi (Hb & Hm & Hmax) Hlow. destruct (Nat.eqb_spec m max_ngram) as [->|Hne]; cbv zeta.
  - destruct (Hlow (max_ngram - 1)%nat ltac:(lia) ltac:(lia)) as (x & -> & Hbx & Hx & Hxmax). simpl.
    assert (x <= max_ngram - 1)%nat by apply Hbx. split_and!; [lia|lia|by apply (border_inner max_ngram x i); [..|lia]|].
    intros [|v] Hv Hle; [lia|]. apply border_pred in Hv as [Hv _]. replace (S i - 1)%nat with i in Hv by lia.
    pose proof (Hxmax v (border_outer _ _ _ Hb Hv ltac:(lia)) ltac:(lia)). lia.
  - split_and!; [lia|lia|done|]. intros [|v] Hv Hle; [lia|]. apply border_pred in Hv as [Hv _].
    replace (S i - 1)%nat with i in Hv by lia. specialize (Hmax v Hv ltac:(lia)). lia.
Qed.

Definition scan_measure (s : Scan) : nat := (2 * (length t - s.(sc_i)) + s.(prev_lps))%nat.

Lemma scan_step_ok s :
  scanned s -> (s.(sc_i) < length t)%nat ->
  scanned (scan_step t max_ngram s) /\ (scan_measure (scan_step t max_ngram s) < scan_measure s)%nat.
Proof.
  destruct s as [i prev longest pos l]. intros [Hi [Hp Hbp] Hmax (Hl & Hlow & Hhigh) Hbest] Hlt. unfold scan_step, scan_measure.
  simpl in *. destruct (decide (t !! prev = t !! i)) as [Heq|Hne].
  - assert (Hpi : (S prev <= i)%nat) by (destruct Hbp; lia).
    assert (Hlong : longest_at i (S prev)) by (split_and!; [by apply border_S; [..|lia|lia]|lia|done]).
    pose proof (best_match i longest pos (S prev) ltac:(lia) Hbest Hlong ltac:(lia)) as Hb'.
    destruct (lps_update l i (S prev) Hl Hlow Hhigh Hlong) as (Hl' & Hlow' & Hhigh').
    destruct (next_candidate _ i (S prev) ltac:(lia) Hlong Hlow') as (Hp' & Hle & Hbp' & Hmax').
    change (match prev with 0%nat => _ | S m' => _ end) with (longest <=? S prev)%nat.
    destruct (if (longest <=? S prev)%nat then _ else _) as [longest' pos'] eqn:Hlp. simpl in *.
    split; [|lia]. split; simpl; [lia| |done|done|done]. split; [done|]. by rewrite Nat.sub_0_r.
  - destruct (Nat.eqb_spec prev 0) as [->|Hne0]; simpl.
    + assert (H0 : longest_at i 0).
      { split_and!; [apply border_zero|lia|]. intros [|v] Hv Hle; [lia|]. specialize (Hmax _ Hv Hle).
        apply border_pred in Hv as [_ Hv]. assert (v = 0)%nat as -> by lia. congruence. }
      split; [|lia]. split; simpl; [lia|split; [done|apply border_zero]| | |by apply best_miss; [lia|..]].
      * intros [|v] Hv Hle; [lia|]. apply border_pred in Hv as [Hv _]. replace (S i - 1)%nat with i in Hv by lia.
        destruct H0 as (_ & _ & H0). specialize (H0 v Hv ltac:(lia)). lia.
      * split_and!; [done| |intros j Hj; apply Hhigh; lia]. intros j Hj Hjm. destruct (decide (j = i)) as [->|]; [|apply Hlow; lia].
        exists 0%nat. split; [apply Hhigh; lia|done].
    + destruct (Hlow (prev - 1)%nat ltac:(destruct Hbp; lia) ltac:(lia)) as (x & Hx & Hbx & Hxm & Hxmax). rewrite Hx. simpl.
      assert (Hxp : (x <= prev - 1)%nat) by apply Hbx. split; [|lia]. split; simpl; [lia| | |done|done].
      * split; [lia|]. by apply (border_inner prev x (i - 1)); [..|lia].
      * intros [|v] Hv Hle; [lia|]. specialize (Hmax _ Hv Hle). apply border_pred in Hv as [Hv Hvt].
        assert (v <> prev) by (intros ->; congruence).
        specialize (Hxmax v (border_outer _ _ _ Hbp Hv ltac:(lia)) ltac:(lia)). lia.
Qed.

Lemma scan_loop_ok fuel s :
  scanned s -> (scan_measure s < fuel)%nat ->
  exists s', scan_loop fuel t max_ngram s = Some s' /\ scanned s' /\ (length t <= s'.(sc_i))%nat.
Proof.
  revert s. induction fuel as [|fuel IH]; intros s Hs Hf; [lia|]. cbn [scan_loop].
  destruct (Nat.ltb_spec s.(sc_i) (length t)) as [Hlt|Hge]; [|by exists s].
  destruct (scan_step_ok s Hs Hlt) as [Hs' Hm]. apply IH; [done|lia].
Qed.

Lemma scan_init : (1 <= max_ngram)%nat -> scanned (mkScan 1 0 0 0 (replicate max_ngram O)).
Proof.
  intros Hm. split; simpl; [lia|split; [lia|apply border_zero]|intros v [Hv _] _; lia| |].
  - split_and!; [apply length_replicate| |intros j Hj; apply lookup_replicate_2; lia].
    intros j Hj _. exists 0%nat. split; [apply lookup_replicate_2; lia|]. replace j with 0%nat by lia.
    split_and!; [apply border_zero|lia|]. by intros v [Hv _] _.
  - split; [lia|lia].
Qed.
End kmp.

(** ** In terms of the context *)

(** The last [v] tokens of the context occur at [s] too, before the end. *)
Definition occurs (o : list Z) (v s : nat) : Prop :=
  (s + v < length o)%nat /\ forall j, (j < v)%nat -> o !! (s + j)%nat = o !! (length o - v + j)%nat.

Lemma border_occurs o v i :
  (i < length o)%nat -> border (reverse o) v i <-> occurs o v (length o - 1 - i).
Proof.
  intros Hi. unfold border, occurs. split.
  - intros [Hv Hb]. split; [lia|]. intros j Hj. specialize (Hb (v - 1 - j)%nat ltac:(lia)).
    rewrite !reverse_lookup in Hb by lia.
    replace (length o - S (v - 1 - j))%nat with (length o - v + j)%nat in Hb by lia.
    replace (length o - S (i + 1 - v + (v - 1 - j)))%nat with (length o - 1 - i + j)%nat in Hb by lia. done.
  - intros [Hv Hb]. split; [lia|]. intros j Hj. specialize (Hb (v - 1 - j)%nat ltac:(lia)).
    rewrite !reverse_lookup by lia.
    replace (length o - v + (v - 1 - j))%nat with (length o - S j)%nat in Hb by lia.
    replace (length o - 1 - i + (v - 1 - j))%nat with (length o - S (i + 1 - v + j))%nat in Hb by lia. done.
Qed.

(** The match the proposer looks for: the longest n-gram within the cap that occurs
    before, at its earliest occurrence. *)
Definition best_ngram (o : list Z) (max_ngram v s : nat) : Prop :=
  occurs o v s /\ (1 <= v <= max_ngram)%nat
  /\ (forall v' s', occurs o v' s' -> (v' <= max_ngram)%nat -> (v' <= v)%nat)
  /\ (forall s', occurs o v s' -> (s <= s')%nat).

Lemma longest_exists t max_ngram i : exists m, longest_at t max_ngram i m.
Proof.
  assert (H : forall k, (k <= max_ngram)%nat -> exists m, border t m i /\ (m <= k)%nat /\ forall v, border t v i -> (v <= k)%nat -> (v <= m)%nat).
  { induction k as [|k IH]; intros Hk; [exists 0%nat; split_and!; [apply border_zero|lia|lia]|].
    destruct (decide (S k <= i)%nat) as [Hle|Hgt].
    - destruct (decide (Forall (fun j => t !! j = t !! (i + 1 - S k + j)%nat) (seq 0 (S k)))) as [Hall|Hnot].
      + exists (S k). split_and!; [|lia|lia]. split; [done|]. intros j Hj. apply (proj1 (Forall_forall _ _) Hall). apply elem_of_seq. lia.
      + destruct (IH ltac:(lia)) as (m & Hb & Hm & Hmax). exists m. split_and!; [done|lia|]. intros v Hv Hle'.
        destruct (decide (v = S k)) as [->|]; [|apply Hmax; [done|lia]]. destruct Hnot. apply Forall_forall. intros j Hj%elem_of_seq. apply Hv. lia.
    - destruct (IH ltac:(lia)) as (m & Hb & Hm & Hmax). exists m. split_and!; [done|lia|]. intros v Hv Hle'.
      apply Hmax; [done|]. destruct Hv. lia. }
  destruct (H max_ngram ltac:(lia)) as (m & Hb & Hm & Hmax). by exists m.
Qed.

(** The result of the scan in terms of the context. *)
Lemma scan_result o max_ngram s :
  scanned (reverse o) max_ngram s -> (length o <= s.(sc_i))%nat ->
  (s.(longest_ngram) = 0%nat -> forall v p, occurs o v p -> (v <= max_ngram)%nat -> v = 0%nat)
  /\ ((0 < s.(longest_ngram))%nat -> best_ngram o max_ngram s.(longest_ngram) (length o - 1 - s.(position))
       /\ (s.(position) < length o)%nat).
Proof.
  intros Hs Hge. pose proof (sd_i _ _ _ Hs) as Hi. rewrite length_reverse in Hi. destruct (sd_best _ _ _ Hs) as [Hmax Hpos].
  assert (Hall : forall v p, occurs o v p -> (v <= max_ngram)%nat -> (1 <= v)%nat ->
    exists i m, (1 <= i < s.(sc_i))%nat /\ (i < length o)%nat /\ p = (length o - 1 - i)%nat /\ longest_at (reverse o) max_ngram i m /\ (v <= m)%nat).
  { intros v p Ho Hv H1. set (i := (length o - 1 - p)%nat). destruct (longest_exists (reverse o) max_ngram i) as [m Hm].
    assert (Hp : (p + v < length o)%nat) by apply Ho. exists i, m. unfold i. split_and!; try lia; [done|].
    apply Hm; [|done]. apply border_occurs; [lia|]. by replace (length o - 1 - i)%nat with p by (unfold i; lia). }
  split.
  - intros H0 v p Ho Hv. destruct v as [|v]; [done|]. destruct (Hall _ _ Ho Hv ltac:(lia)) as (i & m & Hr & _ & _ & Hm & Hle).
    specialize (Hmax i m Hr Hm). lia.
  - intros H0. destruct (Hpos H0) as (Hr & (Hb & Hcap & Hlm) & Hlast). assert (Hlt : (s.(position) < length o)%nat) by lia.
    split; [|done]. apply border_occurs in Hb; [|done]. split_and!; [done|lia|lia| |].
    + intros v' s' Ho' Hv'. destruct v' as [|v']; [lia|]. destruct (Hall _ _ Ho' Hv' ltac:(lia)) as (i & m & Hri & _ & _ & Hm & Hle).
      specialize (Hmax i m Hri Hm). lia.
    + intros s' Ho'. destruct (Hall _ _ Ho' Hcap ltac:(lia)) as (i & m & Hri & Hil & -> & Hm & Hle).
      destruct (Nat.le_gt_cases i s.(position)) as [|Hgt]; [lia|]. exfalso. pose proof (Hmax i m Hri Hm).
      assert (m = s.(longest_ngram)) as -> by lia. apply (Hlast i ltac:(lia)). done.
Qed.

(** C22: The proposer finds the right draft and always ends.  When there is room for
    draft tokens, the result is what follows the earliest occurrence of the longest
    n-gram, within the maximum length, that ends the context and occurs before, cut to
    the room left; it is empty exactly when no n-gram of at least the minimum length
    occurs before. *)
Theorem find_ngram_correct (o : list Z) (min_ngram max_ngram : nat) (max_model_len k : Z) :
  (1 <= min_ngram <= max_ngram)%nat ->
  exists d, find_ngram o min_ngram max_ngram max_model_len k = Some d
    /\ let room := Z.min k (max_model_len - Z.of_nat (length o)) in
       ((exists v s, best_ngram o max_ngram v s /\ (min_ngram <= v)%nat /\ 0 < room
           /\ d = take (Z.to_nat room) (drop (s + v) o) /\ d <> [])
        \/ (d = [] /\ (room <= 0 \/ forall v s, occurs o v s -> (v <= max_ngram)%nat -> (v < min_ngram)%nat))).
Proof.
  intros Hn. unfold find_ngram. destruct (Nat.ltb_spec (length o) min_ngram) as [Hlt|Hge].
  { exists []. split; [done|]. right. split; [done|]. right. intros v s [Hv _] _. lia. }
  destruct (Z.leb_spec (Z.min k (max_model_len - Z.of_nat (length o))) 0) as [Hr|Hr].
  { exists []. split; [done|]. right. split; [done|]. by left. }
  destruct (scan_loop_ok (reverse o) max_ngram (scan_fuel o) _ (scan_init (reverse o) max_ngram ltac:(lia))) as (s & -> & Hs & Hi).
  { unfold scan_measure, scan_fuel. simpl. rewrite length_reverse. lia. }
  rewrite length_reverse in Hi. destruct (scan_result o max_ngram s Hs Hi) as [Hnone Hbest].
  destruct (Nat.ltb_spec s.(longest_ngram) min_ngram) as [Hsh|Hlo].
  { exists []. split; [done|]. right. split; [done|]. right. intros v p Ho Hv. destruct (decide (s.(longest_ngram) = 0%nat)) as [H0|H0].
    - rewrite (Hnone H0 v p Ho Hv). lia.
    - destruct (Hbest ltac:(lia)) as [(_ & _ & Hm & _) _]. specialize (Hm v p Ho Hv). lia. }
  destruct (Hbest ltac:(lia)) as [Hb Hp]. assert (Hocc : (length o - 1 - s.(position) + s.(longest_ngram) < length o)%nat) by apply Hb.
  eexists. split; [reflexivity|]. left. exists s.(longest_ngram), (length o - 1 - s.(position))%nat.
  set (start := (length o - 1 - s.(position) + s.(longest_ngram))%nat) in *. split_and!; [done|done|done| |].
  - rewrite <- (take_ge (drop start o) (Z.to_nat (Z.of_nat (length o) - Z.of_nat start))) at 2 by (rewrite length_drop; lia).
    rewrite take_take. f_equal. lia.
  - intros He. apply (f_equal length) in He. rewrite length_take, length_drop in He. simpl in He. lia.
Qed.

Lemma find_ngram_correct_witness :
  exists d, find_ngram [5; 1; 2; 3; 9; 1; 2; 3; 7; 1; 2; 3] 2 3 100 4 = Some d
    /\ let room := Z.min 4 (100 - Z.of_nat 12) in
       ((exists v s, best_ngram [5; 1; 2; 3; 9; 1; 2; 3; 7; 1; 2; 3] 3 v s /\ (2 <= v)%nat /\ 0 < room
           /\ d = take (Z.to_nat room) (drop (s + v) [5; 1; 2; 3; 9; 1; 2; 3; 7; 1; 2; 3]) /\ d <> [])
        \/ (d = [] /\ (room <= 0 \/ forall v s, occurs [5; 1; 2; 3; 9; 1; 2; 3; 7; 1; 2; 3] v s -> (v <= 3)%nat -> (v < 2)%nat))).
Proof. apply (find_ngram_correct [5; 1; 2; 3; 9; 1; 2; 3; 7; 1; 2; 3] 2 3 100 4). lia. Defined.

(** ** The batch *)

(** The proposer with its preallocated buffers, one row per request. *)
Record Proposer := mkProposer {
  min_n : nat;
  max_n : nat;
  spec_k : Z;
  ng_max_model_len : Z;
  valid_ngram_draft : list (list Z);
  valid_ngram_num_drafts : list Z;
}.

Definition set_buffers (d : list (list Z)) (n : list Z) (p : Proposer) : Proposer :=
  mkProposer p.(min_n) p.(max_n) p.(spec_k) p.(ng_max_model_len) d n.

(** [token_ids_cpu[idx, :num_tokens]] *)
Definition context_of (num_tokens_no_spec : list Z) (token_ids_cpu : list (list Z)) (idx : nat) : list Z :=
  take (Z.to_nat (default 0 (num_tokens_no_spec !! idx))) (default [] (token_ids_cpu !! idx)).

(** [row[:len(output)] = output] *)
Definition write_prefix (output row : list Z) : list Z := output ++ drop (length output) row.

(** The rows are written in parallel; they are disjoint, so the order is immaterial. *)
Fixpoint batch_propose_numba (valid : list nat) (nt : list Z) (ti : list (list Z)) (k : Z) (p : Proposer) : option Proposer :=
  match valid with
  | [] => Some p
  | idx :: valid' =>
      match find_ngram (context_of nt ti idx) p.(min_n) p.(max_n) p.(ng_max_model_len) k with
      | None => None
      | Some output =>
          let drafts := match output with
                        | [] => p.(valid_ngram_draft)
                        | _ => alter (write_prefix output) idx p.(valid_ngram_draft)
                        end in
          batch_propose_numba valid' nt ti k
            (set_buffers drafts (<[idx := Z.of_nat (length output)]> p.(valid_ngram_num_drafts)) p)
      end
  end.

Definition batch_propose (num_requests : nat) (valid : list nat) (nt : list Z) (ti : list (list Z)) (k : Z) (p : Proposer)
    : option (list (list Z) * Proposer) :=
  match (match valid with [] => Some p | _ => batch_propose_numba valid nt ti k p end) with
  | None => None
  | Some p =>
      Some ((fun i => let n := default 0 (p.(valid_ngram_num_drafts) !! i) in
                      if bool_decide (i ∈ valid) && (n >? 0)
                      then take (Z.to_nat n) (default [] (p.(valid_ngram_draft) !! i)) else []) <$> seq 0 num_requests, p)
  end.

(** Requests that sampled tokens and are below the model's length. *)
Definition valid_ngram_requests (max_len : Z) (sampled : list (list Z)) (nt : list Z) : list nat :=
  filter (fun i => negb (bool_decide (default [] (sampled !! i) = [])) && (default 0 (nt !! i) <? max_len) = true)
    (seq 0 (length sampled)).

Definition propose (num_speculative_tokens : Z) (sampled : list (list Z)) (nt : list Z) (ti : list (list Z)) (p : Proposer)
    : option (res (list (list Z)) * Proposer) :=
  if p.(spec_k) <? num_speculative_tokens then Some (Raise AssertionError, p) else
  match batch_propose (length sampled) (valid_ngram_requests p.(ng_max_model_len) sampled nt) nt ti num_speculative_tokens p with
  | None => None
  | Some (drafts, p) => Some (Ok drafts, p)
  end.

Definition same_settings (p p' : Proposer) : Prop :=
  p'.(min_n) = p.(min_n) /\ p'.(max_n) = p.(max_n) /\ p'.(spec_k) = p.(spec_k) /\ p'.(ng_max_model_len) = p.(ng_max_model_len).

(** Buffers with a row of [spec_k] entries for each of [n] requests. *)
Record buffers_ok (n : nat) (p : Proposer) : Prop := {
  bo_min : (1 <= p.(min_n) <= p.(max_n))%nat;
  bo_drafts : (n <= length p.(valid_ngram_draft))%nat /\ (n <= length p.(valid_ngram_num_drafts))%nat;
  bo_rows : forall i row, p.(valid_ngram_draft) !! i = Some row -> Z.of_nat (length row) = p.(spec_k);
}.

Lemma find_ngram_total o mn mx ml k : (1 <= mn <= mx)%nat -> exists d, find_ngram o mn mx ml k = Some d /\ (Z.of_nat (length d) <= Z.max 0 k).
Proof.
  intros Hn. unfold find_ngram. destruct (_ <? _)%nat; [exists []; simpl; split; [done|lia]|].
  destruct (Z.leb_spec (Z.min k (ml - Z.of_nat (length o))) 0); [exists []; simpl; split; [done|lia]|].
  destruct (scan_loop_ok (reverse o) mx (scan_fuel o) _ (scan_init (reverse o) mx ltac:(lia))) as (s & -> & _ & _).
  { unfold scan_measure, scan_fuel. simpl. rewrite length_reverse. lia. }
  destruct (_ <? _)%nat; [exists []; simpl; split; [done|lia]|]. eexists. split; [reflexivity|]. rewrite length_take. lia.
Qed.

(** What the buffers hold for request [i] after the batch. *)
Definition row_holds (p : Proposer) (i : nat) (d : list Z) : Prop :=
  p.(valid_ngram_num_drafts) !! i = Some (Z.of_nat (length d))
  /\ (d <> [] -> exists rest, p.(valid_ngram_draft) !! i = Some (d ++ rest)).

Lemma batch_numba_spec n valid nt ti k p :
  buffers_ok n p -> k <= p.(spec_k) -> NoDup valid -> Forall (fun i => (i < n)%nat) valid ->
  exists p', batch_propose_numba valid nt ti k p = Some p' /\ same_settings p p' /\ buffers_ok n p'
    /\ (forall i, i ∉ valid -> p'.(valid_ngram_draft) !! i = p.(valid_ngram_draft) !! i
          /\ p'.(valid_ngram_num_drafts) !! i = p.(valid_ngram_num_drafts) !! i)
    /\ forall i, i ∈ valid -> exists d, find_ngram (context_of nt ti i) p.(min_n) p.(max_n) p.(ng_max_model_len) k = Some d
         /\ row_holds p' i d.
Proof.
  revert p. induction valid as [|idx valid IH]; intros p Hok Hk Hnd Hv; cbn [batch_propose_numba].
  { exists p. split_and!; try done. intros i Hi. by apply elem_of_nil in Hi. }
  apply NoDup_cons in Hnd as [Hni Hnd]. apply Forall_cons in Hv as [Hidx Hv]. destruct Hok as [Hmin [Hd1 Hd2] Hrows].
  destruct (find_ngram_total (context_of nt ti idx) _ _ p.(ng_max_model_len) k Hmin) as (d & Hf & Hlen). rewrite Hf.
  set (drafts := match d with [] => _ | _ => _ end). set (p1 := set_buffers _ _ p).
  destruct (lookup_lt_is_Some_2 p.(valid_ngram_draft) idx) as [row Hrow]; [lia|]. pose proof (Hrows _ _ Hrow) as Hrl.
  assert (Hdl : length drafts = length p.(valid_ngram_draft)) by (unfold drafts; destruct d; [done|apply length_alter]).
  assert (Hdo : forall i, i <> idx -> drafts !! i = p.(valid_ngram_draft) !! i).
  { intros i Hne. unfold drafts. destruct d; [done|]. by rewrite list_lookup_alter_ne. }
  assert (Hdi : d <> [] -> drafts !! idx = Some (write_prefix d row)).
  { intros Hne. unfold drafts. destruct d; [done|]. by rewrite list_lookup_alter_eq, Hrow. }
  assert (Hok1 : buffers_ok n p1).
  { split; simpl; [done|rewrite Hdl, length_insert; lia|]. intros i r Hr. destruct (decide (i = idx)) as [->|Hne]; [|rewrite Hdo in Hr by done; eauto].
    destruct d as [|z d']; [simpl in Hr; eauto|]. rewrite Hdi in Hr by done. simplify_eq. unfold write_prefix. rewrite length_app, length_drop. lia. }
  destruct (IH p1 Hok1 Hk Hnd Hv) as (p' & Hrun & Hset & Hok' & Hout & Hin). exists p'. split_and!; try done.
  - intros i Hi. apply not_elem_of_cons in Hi as [Hne Hi]. destruct (Hout i Hi) as [-> ->]. simpl. rewrite Hdo by done.
    by rewrite list_lookup_insert_ne by done.
  - intros i Hi. apply elem_of_cons in Hi as [->|Hi]; [|by apply Hin]. exists d. split; [done|].
    destruct (Hout idx Hni) as [Hr Hc]. split.
    + rewrite Hc. simpl. apply list_lookup_insert_eq. lia.
    + intros Hne. rewrite Hr. simpl. rewrite (Hdi Hne). by eexists.
Qed.

(** The batch gives every request its own draft: for each request that sampled a
    token and is below the model's length the result is that of the search on its own
    tokens, for every other request it is empty, and the buffers, whatever earlier
    batches left in them, stay well formed. *)
Theorem propose_correct (num_speculative_tokens : Z) (sampled : list (list Z)) (nt : list Z) (ti : list (list Z)) (p : Proposer) :
  buffers_ok (length sampled) p -> num_speculative_tokens <= p.(spec_k) ->
  exists drafts p', propose num_speculative_tokens sampled nt ti p = Some (Ok drafts, p') /\ buffers_ok (length sampled) p'
    /\ length drafts = length sampled
    /\ forall i d, drafts !! i = Some d ->
         if decide (i ∈ valid_ngram_requests p.(ng_max_model_len) sampled nt)
         then find_ngram (context_of nt ti i) p.(min_n) p.(max_n) p.(ng_max_model_len) num_speculative_tokens = Some d
         else d = [].
Proof.
  intros Hok Hk. unfold propose. destruct (Z.ltb_spec p.(spec_k) num_speculative_tokens); [lia|].
  set (valid := valid_ngram_requests p.(ng_max_model_len) sampled nt).
  assert (Hnd : NoDup valid) by (apply NoDup_filter, NoDup_seq).
  assert (Hv : Forall (fun i => (i < length sampled)%nat) valid).
  { apply Forall_forall. intros i Hi. apply list_elem_of_filter in Hi as [_ Hi]. apply elem_of_seq in Hi. lia. }
  destruct (batch_numba_spec (length sampled) valid nt ti num_speculative_tokens p Hok Hk Hnd Hv) as (p' & Hrun & _ & Hok' & _ & Hin).
  unfold batch_propose. assert (Hmatch : (match valid with [] => Some p | _ => batch_propose_numba valid nt ti num_speculative_tokens p end) = Some p').
  { destruct valid; [done|exact Hrun]. }
  rewrite Hmatch. eexists _, p'. split; [reflexivity|]. split_and!; [done|by rewrite length_fmap, length_seq|].
  intros i d Hd. rewrite list_lookup_fmap in Hd. destruct (seq 0 (length sampled) !! i) as [x|] eqn:Hx; [|done].
  apply lookup_seq in Hx as [-> _]. simpl in Hd. injection Hd as <-. destruct (decide (i ∈ valid)) as [Hi|Hi].
  2:{ by rewrite bool_decide_eq_false_2. }
  destruct (Hin i Hi) as (d & Hf & Hn & Hrow). rewrite bool_decide_eq_true_2, Hn by done. cbn [default from_option id andb]. rewrite Hf. f_equal.
  destruct d as [|z d]; [done|]. destruct (Hrow ltac:(done)) as [rest ->]. cbn [default from_option id].
  rewrite (proj2 (Z.gtb_lt _ _)) by (simpl; lia). rewrite Nat2Z.id. symmetry. apply take_app_length.
Qed.

(** Two requests, stale drafts in the buffers. *)
Definition ngram_demo : Proposer := mkProposer 2 3 3 100 [[8; 8; 8]; [9; 9; 9]] [3; 3].

Lemma propose_correct_witness :
  exists drafts p', propose 2 [[3]; []] [6; 4] [[1; 2; 3; 4; 2; 3; 0]; [1; 1; 1; 1; 0; 0; 0]] ngram_demo = Some (Ok drafts, p')
    /\ buffers_ok 2 p' /\ length drafts = 2%nat
    /\ forall i d, drafts !! i = Some d ->
         if decide (i ∈ valid_ngram_requests 100 [[3]; []] [6; 4])
         then find_ngram (context_of [6; 4] [[1; 2; 3; 4; 2; 3; 0]; [1; 1; 1; 1; 0; 0; 0]] i) 2 3 100 2 = Some d
         else d = [].
Proof.
  apply (propose_correct 2 [[3]; []] [6; 4] [[1; 2; 3; 4; 2; 3; 0]; [1; 1; 1; 1; 0; 0; 0]] ngram_demo); [|simpl; lia].
  split; simpl; [lia|lia|]. intros [|[|i]] row Hr; simpl in Hr; simplify_eq; done.
Defined.
