(* ===== verification/Offload.v ===== *)
(** * Offloaded KV blocks

    Models the cache of KV blocks in host memory: [CPUOffloadingManager]
    ([vllm/v1/kv_offload/cpu/manager.py]) and its two replacement policies
    ([vllm/v1/kv_offload/cpu/policies/lru.py] and [arc.py]).  The manager is written
    against the interface [PolicyOps] of a policy ([policies/base.py]); what it relies on
    is in the laws [PolicyLaws] of [OffloadProps].

    A [BlockStatus] object is held by the policy only, under its key, so the manager's
    writes to [block.ref_cnt] are updates of that entry ([pol_put]). *)

From Stdlib Require Import SpecFloat.
From S2P Require Import Prelude BlockHash.

Notation OffloadKey := bytes.

(** ** Keys ([kv_offload/base.py]) *)

Definition make_offload_key (block_hash : bytes) (group_idx : Z) : res OffloadKey :=
  let? g := to_bytes4 group_idx in Ok (block_hash ++ g).

Definition get_offload_block_hash (key : OffloadKey) : bytes := take (length key - 4) key.

Definition get_offload_group_idx (key : OffloadKey) : Z := from_bytes_big (drop (length key - 4) key).

(** ** Blocks and policies ([policies/base.py]) *)

(** [ref_cnt] is a [c_int32]. *)
Record BlockStatus := mkBlockStatus {
  ref_cnt : Z;
  block_id : Z;
}.

#[global] Instance BlockStatus_eq_dec : EqDecision BlockStatus.
Proof. solve_decision. Defined.

(** A new block is not ready. *)
Definition new_block (id : Z) : BlockStatus := mkBlockStatus (-1) id.

Definition is_ready (b : BlockStatus) : bool := 0 <=? b.(ref_cnt).

Definition set_ref_cnt (n : Z) (b : BlockStatus) : BlockStatus := mkBlockStatus (int32 n) b.(block_id).

Class PolicyOps (P : Type) := {
  pol_new : Z -> P;
  pol_get : P -> OffloadKey -> option BlockStatus;
  pol_put : OffloadKey -> BlockStatus -> P -> P;          (* writing to the object under the key *)
  pol_insert : OffloadKey -> BlockStatus -> M P unit;
  pol_remove : OffloadKey -> M P unit;
  pol_touch : list OffloadKey -> M P unit;
  pol_evict : Z -> list OffloadKey -> M P (option (list (OffloadKey * BlockStatus)));
  pol_clear : M P unit;
  pol_mark_evictable : OffloadKey -> M P unit;
  pol_mark_non_evictable : OffloadKey -> M P unit;
}.

(** ** [OrderedDict]s with [None] values: their keys in order *)

Definition od_add (k : OffloadKey) (d : list OffloadKey) : list OffloadKey := if decide (k ∈ d) then d else d ++ [k].

Definition od_pop (k : OffloadKey) (d : list OffloadKey) : list OffloadKey := filter (fun x => x <> k) d.

Definition od_del (k : OffloadKey) (d : list OffloadKey) : res (list OffloadKey) :=
  if decide (k ∈ d) then Ok (od_pop k d) else Raise KeyError.

Definition od_move_to_end (k : OffloadKey) (d : list OffloadKey) : res (list OffloadKey) :=
  if decide (k ∈ d) then Ok (od_pop k d ++ [k]) else Raise KeyError.

(** ** Least recently used *)

Record LRU := mkLRU {
  evictable_blocks : list OffloadKey;
  lru_blocks : gmap OffloadKey BlockStatus;
}.

Definition set_evictable (d : list OffloadKey) (p : LRU) : LRU := mkLRU d p.(lru_blocks).

Definition lru_insert (k : OffloadKey) (b : BlockStatus) : M LRU unit :=
  modify (fun p => mkLRU (if b.(ref_cnt) =? 0 then od_add k p.(evictable_blocks) else p.(evictable_blocks)) (<[k := b]> p.(lru_blocks))).

(** [del self.blocks[key]] *)
Definition lru_del_block (k : OffloadKey) : M LRU unit :=
  p <- gets id ;;
  check (bool_decide (is_Some (p.(lru_blocks) !! k))) KeyError ;;
  modify (fun p => mkLRU p.(evictable_blocks) (delete k p.(lru_blocks))).

(** [del self.evictable_blocks[key]] *)
Definition lru_del_evictable (k : OffloadKey) : M LRU unit :=
  p <- gets id ;;
  d <- lift (od_del k p.(evictable_blocks)) ;;
  modify (set_evictable d).

Definition lru_remove (k : OffloadKey) : M LRU unit :=
  lru_del_block k ;;
  modify (fun p => set_evictable (od_pop k p.(evictable_blocks)) p).

Definition lru_touch (keys : list OffloadKey) : M LRU unit :=
  for_each (reverse keys) (fun k =>
    p <- gets id ;;
    if decide (k ∈ p.(evictable_blocks)) then d <- lift (od_move_to_end k p.(evictable_blocks)) ;; modify (set_evictable d)
    else ret tt).

(** The loop of [evict] over the evictable keys. *)
Fixpoint lru_scan (blocks : gmap OffloadKey BlockStatus) (n : Z) (protected l : list OffloadKey)
    (candidates : list (OffloadKey * BlockStatus)) : res (list (OffloadKey * BlockStatus)) :=
  match l with
  | [] => Ok candidates
  | k :: l' =>
      if decide (k ∈ protected) then lru_scan blocks n protected l' candidates else
      match blocks !! k with
      | None => Raise KeyError
      | Some b =>
          if negb (b.(ref_cnt) =? 0) then Raise AssertionError else
          let candidates := candidates ++ [(k, b)] in
          if Z.of_nat (length candidates) =? n then Ok candidates else lru_scan blocks n protected l' candidates
      end
  end.

Definition lru_evict (n : Z) (protected : list OffloadKey) : M LRU (option (list (OffloadKey * BlockStatus))) :=
  if n =? 0 then ret (Some []) else
  p <- gets id ;;
  candidates <- lift (lru_scan p.(lru_blocks) n protected p.(evictable_blocks) []) ;;
  if Z.of_nat (length candidates) <? n then ret None else
  for_each candidates (fun x => lru_del_evictable x.1 ;; lru_del_block x.1) ;;
  ret (Some candidates).

#[global] Instance lru_ops : PolicyOps LRU := {|
  pol_new _ := mkLRU [] ∅;
  pol_get p k := p.(lru_blocks) !! k;
  pol_put k b p := mkLRU p.(evictable_blocks) (<[k := b]> p.(lru_blocks));
  pol_insert := lru_insert;
  pol_remove := lru_remove;
  pol_touch := lru_touch;
  pol_evict := lru_evict;
  pol_clear := modify (fun _ => mkLRU [] ∅);
  pol_mark_evictable k := modify (fun p => set_evictable (od_add k p.(evictable_blocks)) p);
  pol_mark_non_evictable := lru_del_evictable;
|}.

(** ** Adaptive replacement *)

(** Python floats.  [target_t1_size] may become the int [cache_capacity] or 0, which
    compare and convert as the float of that value. *)
Notation float64 := spec_float.

Definition float_of_Z (n : Z) : float64 := binary_normalize 53 1024 n 0 false.
Definition float_add (x y : float64) : float64 := SFadd 53 1024 x y.
Definition float_sub (x y : float64) : float64 := SFsub 53 1024 x y.
Definition float_div (x y : float64) : float64 := SFdiv 53 1024 x y.

(** [min(x, y)] and [max(x, y)] keep [x] unless [y] is strictly beyond. *)
Definition float_min (x y : float64) : float64 := if SFltb y x then y else x.
Definition float_max (x y : float64) : float64 := if SFltb x y then y else x.

(** [int(x)] of a finite float. *)
Definition float_trunc (x : float64) : Z :=
  match x with
  | S754_finite s m e => (if s then -1 else 1) * (if 0 <=? e then Z.pos m * 2 ^ e else Z.pos m / 2 ^ (- e))
  | _ => 0
  end.

Record ARC := mkARC {
  cache_capacity : Z;
  target_t1_size : float64;
  t1 : list (OffloadKey * BlockStatus);
  t2 : list (OffloadKey * BlockStatus);
  b1 : list OffloadKey;
  b2 : list OffloadKey;
}.

Definition set_lists (l1 l2 : list (OffloadKey * BlockStatus)) (p : ARC) : ARC :=
  mkARC p.(cache_capacity) p.(target_t1_size) l1 l2 p.(b1) p.(b2).

Definition set_ghosts (target : float64) (g1 g2 : list OffloadKey) (p : ARC) : ARC :=
  mkARC p.(cache_capacity) target p.(t1) p.(t2) g1 g2.

(** A [BlockStatus] is always true. *)
Definition arc_get (p : ARC) (k : OffloadKey) : option BlockStatus :=
  match dict_get p.(t1) k with Some b => Some b | None => dict_get p.(t2) k end.

Definition arc_put (k : OffloadKey) (b : BlockStatus) (p : ARC) : ARC :=
  match dict_get p.(t1) k with
  | Some _ => set_lists (dict_set p.(t1) k b) p.(t2) p
  | None => match dict_get p.(t2) k with Some _ => set_lists p.(t1) (dict_set p.(t2) k b) p | None => p end
  end.

Definition arc_insert (k : OffloadKey) (b : BlockStatus) : M ARC unit :=
  modify (fun p => mkARC p.(cache_capacity) p.(target_t1_size) (dict_set p.(t1) k b) p.(t2) (od_pop k p.(b1)) (od_pop k p.(b2))).

Definition arc_remove (k : OffloadKey) : M ARC unit :=
  modify (fun p => match dict_get p.(t1) k with
                   | Some _ => set_lists (dict_pop p.(t1) k) p.(t2) p
                   | None => set_lists p.(t1) (dict_pop p.(t2) k) p
                   end).

(** [max(1, len(x) / len(y))] for a non-empty [y] *)
Definition ghost_delta (x y : list OffloadKey) : float64 :=
  float_max (float_of_Z 1) (float_div (float_of_Z (Z.of_nat (length x))) (float_of_Z (Z.of_nat (length y)))).

Definition arc_touch_one (k : OffloadKey) (p : ARC) : ARC :=
  match dict_get p.(t1) k with
  | Some b =>
      let t1' := dict_pop p.(t1) k in
      if negb (is_ready b) then set_lists (dict_set t1' k b) p.(t2) p else set_lists t1' (dict_set p.(t2) k b) p
  | None =>
      match dict_get p.(t2) k with
      | Some b => set_lists p.(t1) (dict_pop p.(t2) k ++ [(k, b)]) p
      | None =>
          if decide (k ∈ p.(b1)) then
            set_ghosts (float_min (float_add p.(target_t1_size) (ghost_delta p.(b2) p.(b1))) (float_of_Z p.(cache_capacity)))
              (od_pop k p.(b1) ++ [k]) p.(b2) p
          else if decide (k ∈ p.(b2)) then
            set_ghosts (float_max (float_sub p.(target_t1_size) (ghost_delta p.(b1) p.(b2))) (float_of_Z 0))
              p.(b1) (od_pop k p.(b2) ++ [k]) p
          else p
      end
  end.

Definition arc_touch (keys : list OffloadKey) : M ARC unit := for_each (reverse keys) (fun k => modify (arc_touch_one k)).

(** What is left of the iterator, and the next idle entry. *)
Fixpoint next_candidate (protected : list OffloadKey) (entries : list (OffloadKey * BlockStatus))
    : option (OffloadKey * BlockStatus) * list (OffloadKey * BlockStatus) :=
  match entries with
  | [] => (None, [])
  | (k, b) :: rest =>
      if (b.(ref_cnt) =? 0) && bool_decide (k ∉ protected) then (Some (k, b), rest) else next_candidate protected rest
  end.

(** The selection loop: [n] rounds, the third component says whether the entry is from
    T1. *)
Fixpoint arc_select (n : nat) (target : Z) (protected : list OffloadKey) (virtual_t1_size : Z)
    (i1 i2 : list (OffloadKey * BlockStatus)) : option (list (OffloadKey * BlockStatus * bool)) :=
  match n with
  | O => Some []
  | S n' =>
      let from_t2 i1 :=
        match next_candidate protected i2 with
        | (None, _) => None
        | (Some x, i2) => l ← arc_select n' target protected virtual_t1_size i1 i2; Some ((x, false) :: l)
        end in
      if target <=? virtual_t1_size then
        match next_candidate protected i1 with
        | (Some x, i1) => l ← arc_select n' target protected (virtual_t1_size - 1) i1 i2; Some ((x, true) :: l)
        | (None, i1) => from_t2 i1
        end
      else from_t2 i1
  end.

(** [del self.t1[key]; self.b1[key] = None] or the same for T2 *)
Definition arc_drop (x : OffloadKey * BlockStatus * bool) : M ARC unit :=
  let k := x.1.1 in
  if x.2 then
    p <- gets id ;;
    check (bool_decide (is_Some (dict_get p.(t1) k))) KeyError ;;
    modify (fun p => mkARC p.(cache_capacity) p.(target_t1_size) (dict_pop p.(t1) k) p.(t2) (od_add k p.(b1)) p.(b2))
  else
    p <- gets id ;;
    check (bool_decide (is_Some (dict_get p.(t2) k))) KeyError ;;
    modify (fun p => mkARC p.(cache_capacity) p.(target_t1_size) p.(t1) (dict_pop p.(t2) k) p.(b1) (od_add k p.(b2))).

(** [popitem(last=False)] until the ghost list fits *)
Definition trim (capacity : Z) (ghost : list OffloadKey) : list OffloadKey :=
  drop (Z.to_nat (Z.of_nat (length ghost) - capacity)) ghost.

Definition arc_evict (n : Z) (protected : list OffloadKey) : M ARC (option (list (OffloadKey * BlockStatus))) :=
  if n =? 0 then ret (Some []) else
  p <- gets id ;;
  match arc_select (Z.to_nat n) (float_trunc p.(target_t1_size)) protected (Z.of_nat (length p.(t1))) p.(t1) p.(t2) with
  | None => ret None
  | Some candidates =>
      for_each candidates arc_drop ;;
      modify (fun p => set_ghosts p.(target_t1_size) (trim p.(cache_capacity) p.(b1)) (trim p.(cache_capacity) p.(b2)) p) ;;
      ret (Some candidates.*1)
  end.

#[global] Instance arc_ops : PolicyOps ARC := {|
  pol_new capacity := mkARC capacity (float_of_Z 0) [] [] [] [];
  pol_get := arc_get;
  pol_put := arc_put;
  pol_insert := arc_insert;
  pol_remove := arc_remove;
  pol_touch := arc_touch;
  pol_evict := arc_evict;
  pol_clear := modify (fun p => mkARC p.(cache_capacity) (float_of_Z 0) [] [] [] []);
  pol_mark_evictable _ := ret tt;
  pol_mark_non_evictable _ := ret tt;
|}.

(** ** The manager *)

(** The medium of its events is always the CPU. *)
Record OffloadingEvent := mkEvent {
  ev_keys : list OffloadKey;
  ev_removed : bool;
}.

Inductive LookupResult := MISS | HIT | HIT_PENDING | RETRY.

Record PrepareStoreOutput := mkPrepareStoreOutput {
  keys_to_store : list OffloadKey;
  store_spec : list Z;                     (* block ids *)
  evicted_keys : list OffloadKey;
}.

Record OffloadStats := mkOffloadStats {
  st_num_used : Z;
  st_num_write_pending : Z;
  st_allocation_sizes : list Z;
  st_stores_skipped : option Z;
}.

Section manager.
Context {P : Type} `{!PolicyOps P}.

(** [counts] is an [OrderedDict]. *)
Record Offloader := mkOffloader {
  num_blocks : Z;
  num_allocated_blocks : Z;
  free_list : list Z;
  events : option (list OffloadingEvent);
  policy : P;
  num_evictable_cache_blocks : Z;
  num_write_pending_blocks : Z;
  store_threshold : Z;
  max_tracker_size : Z;
  stores_skipped : Z;
  allocation_sizes : list Z;
  counts : option (list (OffloadKey * Z));
}.

Notation offM := (M Offloader).

Definition new_offloader (num_blocks : Z) (enable_events : bool) (store_threshold max_tracker_size : Z) : Offloader :=
  mkOffloader num_blocks 0 [] (if enable_events then Some [] else None) (pol_new num_blocks) 0 0 store_threshold max_tracker_size
    0 [] (if 2 <=? store_threshold then Some [] else None).

Definition set_pool (allocated : Z) (free : list Z) (m : Offloader) : Offloader :=
  mkOffloader m.(num_blocks) allocated free m.(events) m.(policy) m.(num_evictable_cache_blocks) m.(num_write_pending_blocks)
    m.(store_threshold) m.(max_tracker_size) m.(stores_skipped) m.(allocation_sizes) m.(counts).

Definition set_policy (p : P) (m : Offloader) : Offloader :=
  mkOffloader m.(num_blocks) m.(num_allocated_blocks) m.(free_list) m.(events) p m.(num_evictable_cache_blocks)
    m.(num_write_pending_blocks) m.(store_threshold) m.(max_tracker_size) m.(stores_skipped) m.(allocation_sizes) m.(counts).

(** [self._num_evictable_cache_blocks += evictable], and of the pending ones [+= pending] *)
Definition add_counters (evictable pending : Z) (m : Offloader) : Offloader :=
  mkOffloader m.(num_blocks) m.(num_allocated_blocks) m.(free_list) m.(events) m.(policy)
    (m.(num_evictable_cache_blocks) + evictable) (m.(num_write_pending_blocks) + pending)
    m.(store_threshold) m.(max_tracker_size) m.(stores_skipped) m.(allocation_sizes) m.(counts).

Definition set_stats (skipped : Z) (sizes : list Z) (c : option (list (OffloadKey * Z))) (m : Offloader) : Offloader :=
  mkOffloader m.(num_blocks) m.(num_allocated_blocks) m.(free_list) m.(events) m.(policy) m.(num_evictable_cache_blocks)
    m.(num_write_pending_blocks) m.(store_threshold) m.(max_tracker_size) skipped sizes c.

Definition set_events (es : option (list OffloadingEvent)) (m : Offloader) : Offloader :=
  mkOffloader m.(num_blocks) m.(num_allocated_blocks) m.(free_list) es m.(policy) m.(num_evictable_cache_blocks)
    m.(num_write_pending_blocks) m.(store_threshold) m.(max_tracker_size) m.(stores_skipped) m.(allocation_sizes) m.(counts).

(** Nothing is emitted for no keys. *)
Definition emit_event (keys : list OffloadKey) (removed : bool) : offM unit :=
  modify (fun m => if bool_decide (keys = []) then m
                   else set_events (option_map (fun es => es ++ [mkEvent keys removed]) m.(events)) m).

Definition on_policy {A : Type} (op : M P A) : offM A := zoom policy set_policy op.

Definition get_num_free_blocks (m : Offloader) : Z :=
  Z.of_nat (length m.(free_list)) + m.(num_blocks) - m.(num_allocated_blocks).

(** [self._free_list.pop()], [n] times *)
Fixpoint pop_free (n : nat) : offM (list BlockStatus) :=
  match n with
  | O => ret []
  | S n' =>
      m <- gets id ;;
      match last m.(free_list) with
      | None => raise IndexError
      | Some i =>
          modify (set_pool m.(num_allocated_blocks) (removelast m.(free_list))) ;;
          bs <- pop_free n' ;;
          ret (new_block i :: bs)
      end
  end.

Definition allocate_blocks (keys : list OffloadKey) : offM (list BlockStatus) :=
  m <- gets id ;;
  let num_fresh := Z.min (Z.of_nat (length keys)) (m.(num_blocks) - m.(num_allocated_blocks)) in
  let num_reused := Z.of_nat (length keys) - num_fresh in
  check (num_reused <=? Z.of_nat (length m.(free_list))) AssertionError ;;
  let fresh := (fun i => new_block (m.(num_allocated_blocks) + i)) <$> seqZ 0 num_fresh in
  modify (set_pool (m.(num_allocated_blocks) + Z.max 0 num_fresh) m.(free_list)) ;;
  reused <- pop_free (Z.to_nat num_reused) ;;
  ret (fresh ++ reused).

Definition free_block (b : BlockStatus) : offM unit :=
  modify (fun m => set_pool m.(num_allocated_blocks) (m.(free_list) ++ [b.(block_id)]) m).

(** The reference tracker of [lookup]. *)
Definition track (max_size : Z) (k : OffloadKey) (c : list (OffloadKey * Z)) : list (OffloadKey * Z) :=
  match dict_get c k with
  | Some n => dict_pop c k ++ [(k, n + 1)]
  | None => (if max_size <=? Z.of_nat (length c) then tail c else c) ++ [(k, 1)]
  end.

(** [popitem] of an empty dict raises. *)
Definition lookup_tracker (k : OffloadKey) : offM unit :=
  m <- gets id ;;
  match m.(counts) with
  | None => ret tt
  | Some c =>
      check (bool_decide (is_Some (dict_get c k)) || negb (m.(max_tracker_size) <=? Z.of_nat (length c)) || negb (bool_decide (c = []))) KeyError ;;
      modify (set_stats m.(stores_skipped) m.(allocation_sizes) (Some (track m.(max_tracker_size) k c)))
  end.

Definition lookup (k : OffloadKey) : offM LookupResult :=
  lookup_tracker k ;;
  m <- gets id ;;
  ret (match pol_get m.(policy) k with
       | None => MISS
       | Some b => if negb (is_ready b) then HIT_PENDING else HIT
       end).

(** [block.ref_cnt = n] of the block under [k] *)
Definition write_ref (k : OffloadKey) (n : Z) (b : BlockStatus) : offM unit :=
  modify (fun m => set_policy (pol_put k (set_ref_cnt n b) m.(policy)) m).

Definition load_one (k : OffloadKey) : offM Z :=
  m <- gets id ;;
  match pol_get m.(policy) k with
  | None => raise AssertionError
  | Some b =>
      check (is_ready b) AssertionError ;;
      (if b.(ref_cnt) =? 0 then
         on_policy (pol_mark_non_evictable k) ;;
         modify (add_counters (-1) 0) ;;
         m <- gets id ;;
         check (0 <=? m.(num_evictable_cache_blocks)) AssertionError
       else ret tt) ;;
      write_ref k (b.(ref_cnt) + 1) b ;;
      ret b.(block_id)
  end.

Definition prepare_load (keys : list OffloadKey) : offM (list Z) := map_m load_one keys.

Definition touch (keys : list OffloadKey) : offM unit := on_policy (pol_touch keys).

Definition unload_one (k : OffloadKey) : offM unit :=
  m <- gets id ;;
  match pol_get m.(policy) k with
  | None => raise AssertionError
  | Some b =>
      check (0 <? b.(ref_cnt)) AssertionError ;;
      write_ref k (b.(ref_cnt) - 1) b ;;
      if int32 (b.(ref_cnt) - 1) =? 0 then modify (add_counters 1 0) ;; on_policy (pol_mark_evictable k) else ret tt
  end.

Definition complete_load (keys : list OffloadKey) : offM unit := for_each keys unload_one.

(** The keys that were looked up often enough. *)
Definition filter_counted (keys : list OffloadKey) : offM (list OffloadKey) :=
  m <- gets id ;;
  match m.(counts) with
  | None => ret keys
  | Some c =>
      let kept := filter (fun k => m.(store_threshold) <= default 0 (dict_get c k)) keys in
      modify (set_stats (m.(stores_skipped) + (Z.of_nat (length keys) - Z.of_nat (length kept))) m.(allocation_sizes) m.(counts)) ;;
      ret kept
  end.

(** The evictions that make room for [n] blocks; [None] when there are not enough. *)
Definition make_room (n : Z) (keys : list OffloadKey) : offM (option (list OffloadKey)) :=
  m <- gets id ;;
  let num_blocks_to_evict := n - get_num_free_blocks m in
  if negb (num_blocks_to_evict >? 0) then ret (Some []) else
  if num_blocks_to_evict >? m.(num_evictable_cache_blocks) then ret None else
  o <- on_policy (pol_evict num_blocks_to_evict keys) ;;
  match o with
  | None => ret None
  | Some evicted =>
      modify (add_counters (- Z.of_nat (length evicted)) 0) ;;
      m <- gets id ;;
      check (0 <=? m.(num_evictable_cache_blocks)) AssertionError ;;
      for_each evicted (fun x => free_block x.2) ;;
      ret (Some evicted.*1)
  end.

Definition prepare_store (keys : list OffloadKey) : offM (option PrepareStoreOutput) :=
  keys <- filter_counted keys ;;
  m <- gets id ;;
  let to_store := filter (fun k => pol_get m.(policy) k = None) keys in
  if bool_decide (to_store = []) then ret (Some (mkPrepareStoreOutput [] [] [])) else
  modify (fun m => set_stats m.(stores_skipped) (m.(allocation_sizes) ++ [Z.of_nat (length to_store)]) m.(counts) m) ;;
  o <- make_room (Z.of_nat (length to_store)) keys ;;
  match o with
  | None => ret None
  | Some to_evict =>
      emit_event to_evict true ;;
      blocks <- allocate_blocks to_store ;;
      check (bool_decide (length blocks = length to_store)) AssertionError ;;
      for_each (zip to_store blocks) (fun x => on_policy (pol_insert x.1 x.2)) ;;
      modify (add_counters 0 (Z.of_nat (length to_store))) ;;
      ret (Some (mkPrepareStoreOutput to_store (block_id <$> blocks) to_evict))
  end.

(** One key of a successful store: whether it was pending. *)
Definition stored_one (k : OffloadKey) : offM bool :=
  m <- gets id ;;
  match pol_get m.(policy) k with
  | Some b =>
      if negb (is_ready b) then
        write_ref k 0 b ;;
        modify (add_counters 1 (-1)) ;;
        on_policy (pol_mark_evictable k) ;;
        ret true
      else ret false
  | None => ret false
  end.

(** One key of a failed store. *)
Definition failed_one (k : OffloadKey) : offM unit :=
  m <- gets id ;;
  match pol_get m.(policy) k with
  | Some b =>
      if negb (is_ready b) then
        modify (add_counters 0 (-1)) ;;
        on_policy (pol_remove k) ;;
        free_block b
      else ret tt
  | None => ret tt
  end.

Definition complete_store (keys : list OffloadKey) (success : bool) : offM unit :=
  if success then
    marks <- map_m stored_one keys ;;
    emit_event (fst <$> filter (fun x => x.2 = true) (zip keys marks)) false
  else for_each keys failed_one.

Definition reset_cache : offM unit :=
  on_policy pol_clear ;;
  modify (fun m => mkOffloader m.(num_blocks) 0 [] m.(events) m.(policy) 0 0 m.(store_threshold) m.(max_tracker_size)
                     m.(stores_skipped) m.(allocation_sizes) m.(counts)).

Definition take_events : offM (list OffloadingEvent) :=
  m <- gets id ;;
  modify (set_events (option_map (fun _ => []) m.(events))) ;;
  ret (default [] m.(events)).

(** The figures behind the gauges (which are fractions of [num_blocks]) and counters. *)
Definition get_stats : offM OffloadStats :=
  m <- gets id ;;
  modify (set_stats (if 2 <=? m.(store_threshold) then 0 else m.(stores_skipped)) [] m.(counts)) ;;
  ret (mkOffloadStats (m.(num_allocated_blocks) - Z.of_nat (length m.(free_list)) - m.(num_evictable_cache_blocks))
         m.(num_write_pending_blocks) m.(allocation_sizes)
         (if 2 <=? m.(store_threshold) then Some m.(stores_skipped) else None)).
End manager.
Arguments Offloader P : clear implicits.
