(* ===== verification/OffloadProps.v ===== *)
(** * Offloaded KV blocks: policies, transfers and replacement

    The contract of a replacement policy ([PolicyLaws]), which both policies keep; the
    manager with its transfers in flight as a machine over any such policy; and what the
    least-recently-used policy evicts. *)

From Stdlib Require Import SpecFloat.
From S2P Require Import Prelude BlockHash Offload.

Implicit Types (k : OffloadKey) (b : BlockStatus).

(** ** The contract of a policy *)

(** A block may be evicted while its count is 0.  The manager tells the policy when the
    count leaves and reaches 0; the laws are about these pairs of calls. *)
Class PolicyLaws (P : Type) `{!PolicyOps P} := {
  pol_inv : P -> Prop;
  pol_entries : P -> gmap OffloadKey BlockStatus;
  pl_new c : 0 <= c -> pol_inv (pol_new c) /\ pol_entries (pol_new c) = ∅;
  pl_get p k : pol_inv p -> pol_get p k = pol_entries p !! k;
  pl_put p k b b' :
    pol_inv p -> pol_entries p !! k = Some b -> b.(ref_cnt) <> 0 -> b'.(ref_cnt) <> 0 ->
    pol_inv (pol_put k b' p) /\ pol_entries (pol_put k b' p) = <[k := b']> (pol_entries p);
  pl_insert p k b :
    pol_inv p -> pol_entries p !! k = None -> b.(ref_cnt) <> 0 ->
    wp (pol_insert k b) p (fun _ p' => pol_inv p' /\ pol_entries p' = <[k := b]> (pol_entries p));
  pl_remove p k b :
    pol_inv p -> pol_entries p !! k = Some b -> b.(ref_cnt) <> 0 ->
    wp (pol_remove k) p (fun _ p' => pol_inv p' /\ pol_entries p' = delete k (pol_entries p));
  pl_touch p keys :
    pol_inv p -> wp (pol_touch keys) p (fun _ p' => pol_inv p' /\ pol_entries p' = pol_entries p);
  pl_evict p n protected :
    pol_inv p -> 0 < n ->
    wp (pol_evict n protected) p (fun o p' => pol_inv p' /\
      match o with
      | None => p' = p
      | Some l => Z.of_nat (length l) = n /\ NoDup l.*1 /\ pol_entries p' = foldr delete (pol_entries p) l.*1
          /\ forall k b, (k, b) ∈ l -> pol_entries p !! k = Some b /\ b.(ref_cnt) = 0 /\ k ∉ protected
      end);
  pl_clear p : pol_inv p -> wp pol_clear p (fun _ p' => pol_inv p' /\ pol_entries p' = ∅);
  pl_acquire p k b b' :
    pol_inv p -> pol_entries p !! k = Some b -> b.(ref_cnt) = 0 -> b'.(ref_cnt) <> 0 ->
    wp (pol_mark_non_evictable k) p (fun _ p' =>
      pol_inv (pol_put k b' p') /\ pol_entries (pol_put k b' p') = <[k := b']> (pol_entries p));
  pl_release p k b b' :
    pol_inv p -> pol_entries p !! k = Some b -> b.(ref_cnt) <> 0 -> b'.(ref_cnt) = 0 ->
    wp (pol_mark_evictable k) (pol_put k b' p) (fun _ p' =>
      pol_inv p' /\ pol_entries p' = <[k := b']> (pol_entries p));
}.

(** ** Ordered dicts *)

Lemma od_add_elem k d x : x ∈ od_add k d <-> x ∈ d \/ x = k.
Proof. unfold od_add. case_decide; [naive_solver|]. rewrite elem_of_app, list_elem_of_singleton. done. Qed.

Lemma od_add_nodup k d : NoDup d -> NoDup (od_add k d).
Proof.
  intros Hd. unfold od_add. case_decide as Hk; [done|]. apply NoDup_app. split_and!; [done| |apply NoDup_singleton].
  intros x Hx ->%list_elem_of_singleton. done.
Qed.

Lemma od_pop_elem k d x : x ∈ od_pop k d <-> x ∈ d /\ x <> k.
Proof. unfold od_pop. rewrite list_elem_of_filter. tauto. Qed.

Lemma od_pop_nodup k d : NoDup d -> NoDup (od_pop k d).
Proof. apply NoDup_filter. Qed.

Lemma od_to_end_nodup k d : NoDup d -> NoDup (od_pop k d ++ [k]).
Proof.
  intros Hd. apply NoDup_app. split_and!; [by apply od_pop_nodup| |apply NoDup_singleton].
  intros x Hx%od_pop_elem ->%list_elem_of_singleton. naive_solver.
Qed.

Lemma take_nodup {A} n (l : list A) : NoDup l -> NoDup (take n l).
Proof. rewrite <- (take_drop n l) at 1. by intros [? _]%NoDup_app. Qed.

Lemma foldr_delete_lookup `{Countable K} {V} (m : gmap K V) (l : list K) (k : K) :
  foldr delete m l !! k = if decide (k ∈ l) then None else m !! k.
Proof.
  induction l as [|x l IH]; cbn [foldr]; [by rewrite decide_False by apply not_elem_of_nil|].
  destruct (decide (x = k)) as [->|Hne].
  - rewrite lookup_delete_eq, decide_True; [done|by left].
  - rewrite lookup_delete_ne, IH by done. apply decide_ext. rewrite elem_of_cons. split; [by right|]. by intros [->|?].
Qed.

(** ** Least recently used *)

Record LRUInv (p : LRU) : Prop := {
  lru_nodup : NoDup p.(evictable_blocks);
  lru_idle : forall k, k ∈ p.(evictable_blocks) <-> exists b, p.(lru_blocks) !! k = Some b /\ b.(ref_cnt) = 0;
}.

Lemma lru_empty_inv : LRUInv (mkLRU [] ∅).
Proof.
  split; simpl; [apply NoDup_nil_2|]. intros k. rewrite elem_of_nil. split; [done|]. intros (b & Hb & _). by rewrite lookup_empty in Hb.
Qed.

(** The scan stops at [n] candidates; they are the first evictable keys outside
    [protected]. *)
Lemma lru_scan_spec p n protected l acc :
  LRUInv p -> (forall k, k ∈ l -> k ∈ p.(evictable_blocks)) -> Z.of_nat (length acc) < n ->
  exists found, lru_scan p.(lru_blocks) n protected l acc = Ok (acc ++ found)
    /\ found.*1 = take (Z.to_nat n - length acc) (filter (fun k => k ∉ protected) l)
    /\ forall k b, (k, b) ∈ found -> p.(lru_blocks) !! k = Some b /\ b.(ref_cnt) = 0.
Proof.
  intros Hp. revert acc. induction l as [|k l IH]; intros acc Hl Hn; cbn [lru_scan].
  { exists []. rewrite app_nil_r, filter_nil, take_nil. split_and!; [done|done|]. by intros k b ?%elem_of_nil. }
  assert (Hl' : forall x, x ∈ l -> x ∈ p.(evictable_blocks)) by (intros x Hx; apply Hl; by right).
  destruct (decide (k ∈ protected)) as [Hk|Hk].
  { destruct (IH acc Hl' Hn) as (found & Hrun & Hf & Hb). exists found. rewrite filter_cons_False by naive_solver. done. }
  destruct (proj1 (lru_idle _ Hp k) (Hl k ltac:(by left))) as (b & Hb & Hr). rewrite Hb, Hr. simpl negb. cbv iota. rewrite filter_cons_True by done.
  rewrite length_app. simpl length. destruct (Z.eqb_spec (Z.of_nat (length acc + 1)) n) as [He|He].
  - exists [(k, b)]. split_and!; [done| |intros k' b' Hx%list_elem_of_singleton; by simplify_eq].
    replace (Z.to_nat n - length acc)%nat with 1%nat by lia. by destruct (filter _ l).
  - destruct (IH (acc ++ [(k, b)]) Hl') as (found & Hrun & Hf & Hb'); [rewrite length_app; simpl; lia|].
    exists ((k, b) :: found). rewrite Hrun, <- app_assoc. split_and!; [done| |].
    + rewrite fmap_cons, Hf, length_app. simpl. replace (Z.to_nat n - length acc)%nat with (S (Z.to_nat n - (length acc + 1))) by lia. done.
    + intros k' b' [[= -> ->]|Hin]%elem_of_cons; [done|by apply Hb'].
Qed.

Lemma foldr_delete_comm (m : gmap OffloadKey BlockStatus) k l : foldr delete (delete k m) l = delete k (foldr delete m l).
Proof.
  apply map_eq. intros x. rewrite foldr_delete_lookup. destruct (decide (k = x)) as [->|Hne].
  - rewrite !lookup_delete_eq. by case_decide.
  - by rewrite !lookup_delete_ne, foldr_delete_lookup by done.
Qed.

Lemma lru_drop_inv p k b :
  LRUInv p -> p.(lru_blocks) !! k = Some b -> LRUInv (mkLRU (od_pop k p.(evictable_blocks)) (delete k p.(lru_blocks))).
Proof.
  intros [Hnd Hid] Hb. split; simpl; [by apply od_pop_nodup|]. intros x. rewrite od_pop_elem, Hid. split.
  - intros [(b' & Hb' & Hr) Hne]. exists b'. by rewrite lookup_delete_ne by done.
  - intros (b' & [Hne Hb']%lookup_delete_Some & Hr). split; [by exists b'|done].
Qed.

Lemma lru_drop_all l p :
  LRUInv p -> NoDup l.*1 -> (forall k b, (k, b) ∈ l -> p.(lru_blocks) !! k = Some b /\ b.(ref_cnt) = 0) ->
  wp (for_each l (fun x => lru_del_evictable x.1 ;; lru_del_block x.1)) p (fun _ p' =>
    LRUInv p' /\ p'.(lru_blocks) = foldr delete p.(lru_blocks) l.*1
    /\ p'.(evictable_blocks) = filter (fun k => k ∉ l.*1) p.(evictable_blocks)).
Proof.
  revert p. induction l as [|[k b] l IH]; intros p Hp Hnd Hl; cbn [for_each].
  { apply wp_ret. split_and!; [done|done|]. symmetry. apply filter_id. intros x _. apply not_elem_of_nil. }
  cbn [fmap list_fmap fst] in *. apply NoDup_cons in Hnd as [Hni Hnd]. destruct (Hl k b ltac:(by left)) as [Hb Hr].
  assert (Hk : k ∈ p.(evictable_blocks)) by (apply (lru_idle _ Hp); eauto).
  unfold lru_del_evictable, lru_del_block, od_del. wp_steps. unfold id. rewrite decide_True by done.
  eapply wp_lift_ok; [done|]. wp_steps. simpl. apply wp_check; [rewrite Hb; by apply bool_decide_true|]. wp_steps. simpl.
  eapply wp_mono; [apply IH; [by eapply lru_drop_inv|done|]|].
  - intros k' b' Hin. simpl. destruct (Hl k' b') as [Hb' Hr']; [by right|]. rewrite lookup_delete_ne; [done|].
    intros ->. apply Hni. by apply (list_elem_of_fmap_2' fst _ (k', b')).
  - intros _ p' (Hp' & Hbl & Hev). simpl in *. split_and!; [done|by rewrite Hbl, foldr_delete_comm|].
    rewrite Hev. unfold od_pop. rewrite list_filter_filter. apply list_filter_iff. intros x. rewrite not_elem_of_cons. naive_solver.
Qed.

Lemma lru_evict_spec p n protected :
  LRUInv p -> 0 < n ->
  let idle := filter (fun k => k ∉ protected) p.(evictable_blocks) in
  wp (lru_evict n protected) p (fun o p' => LRUInv p' /\
    match o with
    | None => p' = p /\ Z.of_nat (length idle) < n
    | Some l => l.*1 = take (Z.to_nat n) idle /\ Z.of_nat (length l) = n
        /\ (forall k b, (k, b) ∈ l -> p.(lru_blocks) !! k = Some b /\ b.(ref_cnt) = 0)
        /\ p'.(lru_blocks) = foldr delete p.(lru_blocks) l.*1
        /\ p'.(evictable_blocks) = filter (fun k => k ∉ l.*1) p.(evictable_blocks)
    end).
Proof.
  intros Hp Hn idle. unfold lru_evict. rewrite (proj2 (Z.eqb_neq n 0)) by lia. wp_steps. unfold id.
  destruct (lru_scan_spec p n protected p.(evictable_blocks) [] Hp) as (l & Hrun & Hl & Hb); [done|simpl; lia|].
  cbn [app length] in Hrun, Hl. rewrite Nat.sub_0_r in Hl. fold idle in Hl.
  eapply wp_lift_ok; [exact Hrun|]. assert (Hlen : length l = Nat.min (Z.to_nat n) (length idle)) by (by rewrite <- (length_fmap fst l), Hl, length_take).
  destruct (Z.ltb_spec (Z.of_nat (length l)) n) as [Hlt|Hge]; wp_steps; [split; [done|split; [done|lia]]|].
  eapply wp_mono; [apply (lru_drop_all l p Hp); [|done]|].
  - rewrite Hl. apply take_nodup, NoDup_filter, Hp.
  - intros _ p' (Hp' & Hbl & Hev). wp_steps. split; [done|]. split_and!; [done|lia|done|done|done].
Qed.

Lemma lru_touch_spec p keys :
  LRUInv p -> wp (lru_touch keys) p (fun _ p' => LRUInv p' /\ p'.(lru_blocks) = p.(lru_blocks)).
Proof.
  intros Hp. unfold lru_touch. apply (wp_for_each _ (fun _ p' => LRUInv p' /\ p'.(lru_blocks) = p.(lru_blocks))); [done| |done].
  intros k rest p' [[Hnd Hid] Hb]. wp_steps. unfold id. case_decide as Hk; [|by apply wp_ret].
  unfold od_move_to_end. rewrite decide_True by done. wp_step. eapply wp_lift_ok; [done|]. wp_steps. split; [|done].
  split; simpl; [by apply od_to_end_nodup|]. intros x. rewrite elem_of_app, od_pop_elem, list_elem_of_singleton, <- Hid.
  destruct (decide (x = k)) as [->|]; naive_solver.
Qed.

#[global] Instance lru_laws : PolicyLaws LRU.
Proof.
  refine {| pol_inv := LRUInv; pol_entries := lru_blocks |}.
  - intros c _. split; [apply lru_empty_inv|done].
  - done.
  - intros p k b b' [Hnd Hid] Hb Hr Hr'. split; [|done]. split; [done|]. intros x. simpl. rewrite Hid.
    destruct (decide (k = x)) as [->|Hne]; [rewrite lookup_insert_eq|by rewrite lookup_insert_ne]. naive_solver.
  - intros p k b [Hnd Hid] Hb Hr. simpl. unfold lru_insert. wp_steps. rewrite (proj2 (Z.eqb_neq _ _) Hr). split; [|done]. split; [done|].
    intros x. simpl. rewrite Hid. destruct (decide (k = x)) as [->|Hne]; [rewrite lookup_insert_eq|by rewrite lookup_insert_ne]. naive_solver.
  - intros p k b Hp Hb Hr. simpl. unfold lru_remove, lru_del_block. wp_steps. unfold id. apply wp_check; [rewrite Hb; by apply bool_decide_true|]. wp_steps.
    split; [exact (lru_drop_inv p k b Hp Hb)|done].
  - intros p keys. apply lru_touch_spec.
  - intros p n protected Hp Hn. eapply wp_mono; [by apply lru_evict_spec|]. intros [l|] p' [Hp' Ho]; [|by destruct Ho as [-> _]].
    destruct Ho as (Hl & Hlen & Hb & Hbl & _). split; [done|]. split_and!; [done| |done|].
    + rewrite Hl. apply take_nodup, NoDup_filter, Hp.
    + intros k b Hin. destruct (Hb k b Hin). split_and!; [done|done|]. apply (list_elem_of_fmap_2' fst _ (k, b) k) in Hin; [|done].
      rewrite Hl in Hin. apply elem_of_take in Hin as (i & Hi & _). apply list_elem_of_lookup_2, list_elem_of_filter in Hi. naive_solver.
  - intros p _. simpl. wp_steps. split; [apply lru_empty_inv|done].
  - intros p k b b' [Hnd Hid] Hb Hr Hr'. simpl. unfold lru_del_evictable, od_del. wp_steps. unfold id.
    rewrite decide_True by (apply Hid; eauto). eapply wp_lift_ok; [done|]. wp_steps. split; [|done]. split; simpl; [by apply od_pop_nodup|].
    intros x. rewrite od_pop_elem, Hid. destruct (decide (k = x)) as [->|Hne]; [rewrite lookup_insert_eq|rewrite lookup_insert_ne by done]; naive_solver.
  - intros p k b b' [Hnd Hid] Hb Hr Hr'. simpl. wp_steps. split; [|done]. split; simpl; [by apply od_add_nodup|].
    intros x. rewrite od_add_elem, Hid. destruct (decide (k = x)) as [->|Hne]; [rewrite lookup_insert_eq|rewrite lookup_insert_ne by done]; naive_solver.
Defined.

(** ** Adaptive replacement *)

Definition live (p : ARC) : list (OffloadKey * BlockStatus) := p.(t1) ++ p.(t2).

(** The four lists have no key in common. *)
Record ArcCore (p : ARC) : Prop := {
  arc_live : NoDup (live p).*1;
  arc_ghosts : NoDup (p.(b1) ++ p.(b2));
  arc_apart : forall k, k ∈ (live p).*1 -> k ∉ p.(b1) ++ p.(b2);
}.

Record ArcInv (p : ARC) : Prop := {
  arc_core : ArcCore p;
  arc_capacity : 0 <= p.(cache_capacity);
  arc_b1 : Z.of_nat (length p.(b1)) <= p.(cache_capacity);
  arc_b2 : Z.of_nat (length p.(b2)) <= p.(cache_capacity);
}.

Definition arc_entries (p : ARC) : gmap OffloadKey BlockStatus := list_to_map (live p).

Lemma dict_get_append {V} (d1 d2 : list (OffloadKey * V)) k :
  dict_get (d1 ++ d2) k = match dict_get d1 k with Some v => Some v | None => dict_get d2 k end.
Proof. induction d1 as [|[k' v] d1 IH]; simpl; [done|]. by case_decide. Qed.

Lemma dict_set_keys {V} (d : list (OffloadKey * V)) k v : is_Some (dict_get d k) -> (dict_set d k v).*1 = d.*1.
Proof. induction d as [|[k' v'] d IH]; simpl; [by intros [? ?]|]. case_decide as Hk; [by subst|]. intros Hd. exact (f_equal (cons k') (IH Hd)). Qed.

Lemma arc_entries_get p k : arc_entries p !! k = arc_get p k.
Proof.
  unfold arc_entries, arc_get. rewrite <- dict_get_append. fold (live p). induction (live p) as [|[k' b] l IH]; [done|].
  simpl. case_decide as Hk; [subst; by rewrite lookup_insert_eq|by rewrite lookup_insert_ne].
Qed.

Lemma arc_entries_dict p k : arc_entries p !! k = dict_get (live p) k.
Proof. rewrite arc_entries_get. unfold live. by rewrite dict_get_append. Qed.

Lemma arc_put_live p k b :
  is_Some (arc_get p k) ->
  (live (arc_put k b p)).*1 = (live p).*1 /\ arc_entries (arc_put k b p) = <[k := b]> (arc_entries p).
Proof.
  intros Hk. unfold arc_put, arc_get in *. destruct (dict_get (t1 p) k) eqn:H1; [|destruct (dict_get (t2 p) k) eqn:H2; [|by destruct Hk]];
    (split; [unfold live; simpl; rewrite !fmap_app, dict_set_keys by (rewrite ?H1, ?H2; eauto); done|]);
    apply map_eq; intros x; rewrite lookup_insert; rewrite !arc_entries_get; unfold arc_get; simpl; rewrite dict_get_set;
    destruct (decide (x = k)) as [->|Hne]; rewrite ?(decide_True _ _ (eq_refl k)), ?decide_False by done; rewrite ?H1; done.
Qed.

Lemma core_same_keys p p' : (live p').*1 = (live p).*1 -> p'.(b1) = p.(b1) -> p'.(b2) = p.(b2) -> ArcCore p -> ArcCore p'.
Proof. intros E1 E2 E3 [H1 H2 H3]. split; by rewrite ?E1, ?E2, ?E3. Qed.

Lemma arc_put_inv p k b :
  ArcInv p -> is_Some (arc_get p k) ->
  ArcInv (arc_put k b p) /\ arc_entries (arc_put k b p) = <[k := b]> (arc_entries p).
Proof.
  intros [Hc H1 H2 H3] Hk. destruct (arc_put_live p k b Hk) as [El Ee]. split; [|done].
  assert (Eg : (arc_put k b p).(b1) = p.(b1) /\ (arc_put k b p).(b2) = p.(b2) /\ (arc_put k b p).(cache_capacity) = p.(cache_capacity)).
  { unfold arc_put. destruct (dict_get (t1 p) k); [done|]. by destruct (dict_get (t2 p) k). }
  destruct Eg as (E1 & E2 & E3). split; rewrite ?E1, ?E2, ?E3; try done. by apply (core_same_keys p).
Qed.

Lemma od_pop_sub k d1 d2 : NoDup (d1 ++ d2) -> NoDup (od_pop k d1 ++ od_pop k d2).
Proof. unfold od_pop. rewrite <- filter_app. apply NoDup_filter. Qed.

Lemma arc_insert_inv p k b :
  ArcInv p -> arc_get p k = None ->
  wp (arc_insert k b) p (fun _ p' => ArcInv p' /\ arc_entries p' = <[k := b]> (arc_entries p)).
Proof.
  intros [[H1 H2 H3] H4 H5 H6] Hk. unfold arc_insert. wp_steps.
  assert (Hn : dict_get (t1 p) k = None /\ dict_get (t2 p) k = None) by (unfold arc_get in Hk; by destruct (dict_get (t1 p) k)).
  destruct Hn as [Hn1 Hn2]. pose proof (proj1 (dict_get_None _ _) Hn1) as Hk1. pose proof (proj1 (dict_get_None _ _) Hn2) as Hk2.
  rewrite dict_set_new by done. split.
  - split; [split|..]; unfold live in *; cbn [t1 t2 b1 b2 cache_capacity]; try done.
    + rewrite !fmap_app. simpl. rewrite <- app_assoc. simpl. rewrite fmap_app in H1. by apply NoDup_middle.
    + by apply od_pop_sub.
    + intros x. rewrite !fmap_app. simpl. rewrite !elem_of_app, list_elem_of_singleton, !od_pop_elem. intros Hx.
      destruct (decide (x = k)) as [->|Hne]; [naive_solver|]. specialize (H3 x). rewrite fmap_app, !elem_of_app in H3. naive_solver.
    + pose proof (length_filter (fun x => x <> k) (b1 p)). unfold od_pop. lia.
    + pose proof (length_filter (fun x => x <> k) (b2 p)). unfold od_pop. lia.
  - apply map_eq. intros x. rewrite lookup_insert, !arc_entries_get. unfold arc_get. simpl. rewrite dict_get_append.
    destruct (decide (k = x)) as [<-|Hne]; [rewrite Hn1; simpl; by rewrite decide_True|].
    destruct (dict_get (t1 p) x); [done|]. simpl. by rewrite decide_False.
Qed.

Lemma dict_pop_get_app (d1 d2 : list (OffloadKey * BlockStatus)) k x :
  dict_get (dict_pop d1 k ++ dict_pop d2 k) x = if decide (x = k) then None else dict_get (d1 ++ d2) x.
Proof. rewrite !dict_get_append, !dict_get_pop. by case_decide. Qed.

Lemma dict_pop_absent (d : list (OffloadKey * BlockStatus)) k : dict_get d k = None -> dict_pop d k = d.
Proof.
  intros Hk%dict_get_None. apply filter_id. intros [x b] Hx. simpl. intros ->. apply Hk. by apply (list_elem_of_fmap_2' fst _ (k, b)).
Qed.

(** Where a live key is, and that it is in one place only. *)
Lemma live_t1 p k b : ArcCore p -> dict_get p.(t1) k = Some b -> dict_get p.(t2) k = None.
Proof.
  intros [H1 _ _] Hk. unfold live in H1. rewrite fmap_app in H1. apply NoDup_app in H1 as (_ & H1 & _). apply dict_get_None, H1.
  apply dict_get_Some. eauto.
Qed.

(** Dropping a key from the live lists. *)
Lemma core_pop p p' k g1 g2 :
  ArcCore p -> live p' = dict_pop p.(t1) k ++ dict_pop p.(t2) k -> p'.(b1) = g1 -> p'.(b2) = g2 ->
  NoDup (g1 ++ g2) -> (forall x, x ∈ g1 ++ g2 -> x ∈ p.(b1) ++ p.(b2) \/ x = k) -> ArcCore p'.
Proof.
  intros [H1 H2 H3] El <- <- Hg Hsub. assert (Hk : (live p').*1 = filter (fun x => x <> k) (live p).*1).
  { rewrite El. unfold live. rewrite !fmap_app, !dict_pop_keys. by rewrite filter_app. }
  split; [rewrite Hk; by apply NoDup_filter|done|]. intros x. rewrite Hk, list_elem_of_filter. intros [Hne Hx] Hin.
  destruct (Hsub x Hin); [by apply (H3 x)|done].
Qed.

Lemma entries_pop p p' k :
  live p' = dict_pop p.(t1) k ++ dict_pop p.(t2) k -> arc_entries p' = delete k (arc_entries p).
Proof.
  intros El. apply map_eq. intros x. rewrite arc_entries_dict, El, dict_pop_get_app. fold (live p).
  destruct (decide (x = k)) as [->|Hne]; [by rewrite lookup_delete_eq|by rewrite lookup_delete_ne, arc_entries_dict].
Qed.

Lemma arc_remove_live p k : ArcCore p -> wp (arc_remove k) p (fun _ p' =>
  live p' = dict_pop p.(t1) k ++ dict_pop p.(t2) k /\ p'.(b1) = p.(b1) /\ p'.(b2) = p.(b2) /\ p'.(cache_capacity) = p.(cache_capacity)).
Proof.
  intros Hc. unfold arc_remove. wp_steps. destruct (dict_get (t1 p) k) as [b|] eqn:Hk; split_and!; try done; unfold live; simpl.
  - by rewrite (dict_pop_absent (t2 p)) by (by eapply live_t1).
  - by rewrite (dict_pop_absent (t1 p)).
Qed.

Lemma arc_remove_inv p k :
  ArcInv p -> wp (arc_remove k) p (fun _ p' => ArcInv p' /\ arc_entries p' = delete k (arc_entries p)).
Proof.
  intros [Hc H4 H5 H6]. eapply wp_mono; [by apply arc_remove_live|]. intros _ p' (El & E1 & E2 & E3). split; [|by apply entries_pop].
  split; rewrite ?E1, ?E2, ?E3; try done. apply (core_pop p p' k p.(b1) p.(b2)); try done; [apply Hc|]. by left.
Qed.

(** A permutation of the live entries. *)
Lemma core_perm p p' : live p' ≡ₚ live p -> p'.(b1) ++ p'.(b2) ≡ₚ p.(b1) ++ p.(b2) -> ArcCore p -> ArcCore p'.
Proof. intros E1 E2 [H1 H2 H3]. split; [by rewrite E1|by rewrite E2|]. intros k. rewrite E1, E2. apply H3. Qed.

Lemma entries_perm p p' : live p' ≡ₚ live p -> ArcCore p -> arc_entries p' = arc_entries p.
Proof. intros E [H1 _ _]. apply list_to_map_proper; [by rewrite E|done]. Qed.

Lemma od_to_end_perm k d : NoDup d -> k ∈ d -> od_pop k d ++ [k] ≡ₚ d.
Proof.
  intros Hd Hk. apply NoDup_Permutation; [by apply od_to_end_nodup|done|]. intros x. rewrite elem_of_app, od_pop_elem, list_elem_of_singleton.
  destruct (decide (x = k)) as [->|]; naive_solver.
Qed.

Lemma dict_to_end_perm (d : list (OffloadKey * BlockStatus)) k b : NoDup d.*1 -> dict_get d k = Some b -> dict_pop d k ++ [(k, b)] ≡ₚ d.
Proof. intros Hd Hk. rewrite <- Permutation_cons_append. symmetry. by apply dict_pop_perm. Qed.

Lemma arc_touch_one_inv k p : ArcInv p -> ArcInv (arc_touch_one k p) /\ arc_entries (arc_touch_one k p) = arc_entries p.
Proof.
  intros [Hc H4 H5 H6]. pose proof Hc as [H1 H2 H3]. unfold live in H1. rewrite fmap_app in H1. pose proof H1 as (Hn1 & Hd & Hn2)%NoDup_app.
  apply NoDup_app in H2 as (Hg1 & Hg & Hg2).
  assert (Hdone : forall p', live p' ≡ₚ live p -> p'.(b1) ≡ₚ p.(b1) -> p'.(b2) ≡ₚ p.(b2) -> p'.(cache_capacity) = p.(cache_capacity) ->
    ArcInv p' /\ arc_entries p' = arc_entries p).
  { intros p' E1 E2 E3 E4. split; [|by apply entries_perm]. split; rewrite ?E4, ?E2, ?E3; try done. apply (core_perm p); [done| |done]. by rewrite E2, E3. }
  unfold arc_touch_one. destruct (dict_get (t1 p) k) as [b|] eqn:Hk1.
  { destruct (negb _); apply Hdone; try done; unfold live; simpl.
    - rewrite dict_set_new by (rewrite dict_pop_keys, list_elem_of_filter; naive_solver). by rewrite dict_to_end_perm.
    - rewrite dict_set_new by (apply dict_get_None; by eapply live_t1). rewrite <- (dict_to_end_perm (t1 p) k b) at 2 by done. solve_Permutation. }
  destruct (dict_get (t2 p) k) as [b|] eqn:Hk2.
  { apply Hdone; try done. unfold live. simpl. by rewrite dict_to_end_perm. }
  case_decide as Hb1; [apply Hdone; try done; by apply od_to_end_perm|].
  case_decide as Hb2; [apply Hdone; try done; by apply od_to_end_perm|]. by apply Hdone.
Qed.

Lemma arc_touch_spec p keys : ArcInv p -> wp (arc_touch keys) p (fun _ p' => ArcInv p' /\ arc_entries p' = arc_entries p).
Proof.
  intros Hp. unfold arc_touch. apply (wp_for_each _ (fun _ p' => ArcInv p' /\ arc_entries p' = arc_entries p)); [done| |done].
  intros k rest p' [Hp' <-]. wp_steps. by apply arc_touch_one_inv.
Qed.

(** *** Eviction *)

Definition may_evict (protected : list OffloadKey) (x : OffloadKey * BlockStatus) : Prop := x.2.(ref_cnt) = 0 /\ x.1 ∉ protected.

Lemma next_candidate_spec protected l :
  match next_candidate protected l with
  | (None, rest) => rest = []
  | (Some x, rest) => may_evict protected x /\ x :: rest `sublist_of` l
  end.
Proof.
  induction l as [|[k b] l IH]; cbn [next_candidate]; [done|]. destruct (_ && _) eqn:Hc.
  - apply andb_true_iff in Hc as [Hr%Z.eqb_eq Hk%bool_decide_eq_true]. done.
  - destruct (next_candidate protected l) as [[x|] rest]; [|done]. destruct IH as [Hx Hs]. split; [done|by apply sublist_cons].
Qed.

(** The entries selected are some of both lists, each once. *)
Lemma arc_select_spec n target protected v i1 i2 l :
  arc_select n target protected v i1 i2 = Some l ->
  length l = n /\ l.*1 ⊆+ i1 ++ i2 /\ forall x from_t1, (x, from_t1) ∈ l -> may_evict protected x /\ x ∈ if from_t1 : bool then i1 else i2.
Proof.
  revert v i1 i2 l. induction n as [|n IH]; intros v i1 i2 l; cbn [arc_select].
  { intros [= <-]. split_and!; [done|apply submseteq_nil_l|]. by intros x f ?%elem_of_nil. }
  pose proof (next_candidate_spec protected i1) as N1. pose proof (next_candidate_spec protected i2) as N2.
  assert (Ht2 : forall j1, j1 `sublist_of` i1 ->
    match next_candidate protected i2 with
    | (None, _) => None
    | (Some x, i2) => l ← arc_select n target protected v j1 i2; Some ((x, false) :: l)
    end = Some l ->
    length l = S n /\ l.*1 ⊆+ i1 ++ i2 /\ forall x from_t1, (x, from_t1) ∈ l -> may_evict protected x /\ x ∈ if from_t1 : bool then i1 else i2).
  { intros j1 Hj. destruct (next_candidate protected i2) as [[x|] j2]; [|done]. destruct N2 as [Hx Hs].
    intros (l' & (Hlen & Hsub & Hin)%IH & [= <-])%bind_Some. split_and!; [simpl; lia| |].
    - cbn [fmap list_fmap fst]. transitivity (j1 ++ x :: j2); [|by apply sublist_submseteq, sublist_app].
      rewrite <- Permutation_middle. by apply submseteq_skip.
    - intros y f [[= -> ->]|Hy]%elem_of_cons; [split; [done|]; eapply elem_of_sublist, Hs; by left|].
      destruct (Hin y f Hy) as [Hm Hy']. split; [done|]. destruct f; [by eapply elem_of_sublist, Hj|]. eapply elem_of_sublist, Hs. by right. }
  destruct (target <=? v); [|by apply Ht2]. destruct (next_candidate protected i1) as [[x|] j1]; [|apply Ht2; subst; apply sublist_nil_l].
  destruct N1 as [Hx Hs]. intros (l' & (Hlen & Hsub & Hin)%IH & [= <-])%bind_Some. split_and!; [simpl; lia| |].
  - cbn [fmap list_fmap fst]. transitivity ((x :: j1) ++ i2); [by apply submseteq_skip|by apply sublist_submseteq, sublist_app].
  - intros y f [[= -> ->]|Hy]%elem_of_cons; [split; [done|]; eapply elem_of_sublist, Hs; by left|].
    destruct (Hin y f Hy) as [Hm Hy']. split; [done|]. destruct f; [|done]. eapply elem_of_sublist, Hs. by right.
Qed.

Lemma arc_drop_spec p x b :
  ArcCore p -> dict_get (if x.2 : bool then p.(t1) else p.(t2)) x.1.1 = Some b ->
  wp (arc_drop x) p (fun _ p' => ArcCore p' /\ live p' = dict_pop p.(t1) x.1.1 ++ dict_pop p.(t2) x.1.1
    /\ p'.(t1) = dict_pop p.(t1) x.1.1 /\ p'.(t2) = dict_pop p.(t2) x.1.1 /\ p'.(cache_capacity) = p.(cache_capacity)).
Proof.
  intros Hc Hk. destruct x as [[k b'] f]. simpl in *. pose proof Hc as [_ H2 H3].
  assert (Hlive : k ∈ (live p).*1). { unfold live. rewrite fmap_app, elem_of_app. destruct f; [left|right]; apply dict_get_Some; eauto. }
  pose proof (H3 k Hlive) as Hg. assert (Hg' := Hg). rewrite not_elem_of_app in Hg'. destruct Hg' as [Hg1 Hg2].
  assert (Hnew : forall g1 g2, g1 ++ g2 ≡ₚ k :: (p.(b1) ++ p.(b2)) -> NoDup (g1 ++ g2) /\ forall x, x ∈ g1 ++ g2 -> x ∈ p.(b1) ++ p.(b2) \/ x = k).
  { intros g1 g2 E. rewrite E. split; [by apply NoDup_cons|]. intros x. rewrite E, elem_of_cons. tauto. }
  unfold arc_drop. cbn [fst snd]. destruct f; wp_steps; unfold id; (apply wp_check; [by rewrite Hk|]); wp_steps; unfold od_add; rewrite decide_False by done.
  - rewrite (dict_pop_absent (t2 p)) by (by eapply live_t1). destruct (Hnew (p.(b1) ++ [k]) p.(b2)) as [Hn Hs]; [solve_Permutation|].
    split; [|done]. eapply (core_pop p _ k); try done. unfold live. simpl. by rewrite (dict_pop_absent (t2 p)) by (by eapply live_t1).
  - assert (Hn1 : dict_get (t1 p) k = None). { destruct (dict_get (t1 p) k) eqn:E; [|done]. apply live_t1 in E; [congruence|done]. }
    rewrite (dict_pop_absent (t1 p)) by done. destruct (Hnew p.(b1) (p.(b2) ++ [k])) as [Hn Hs]; [solve_Permutation|].
    split; [|done]. eapply (core_pop p _ k); try done. unfold live. simpl. by rewrite (dict_pop_absent (t1 p)).
Qed.

Lemma arc_drop_all l p :
  ArcCore p -> NoDup l.*1.*1 -> (forall x f, (x, f) ∈ l -> dict_get (if f : bool then p.(t1) else p.(t2)) x.1 = Some x.2) ->
  wp (for_each l arc_drop) p (fun _ p' => ArcCore p' /\ arc_entries p' = foldr delete (arc_entries p) l.*1.*1 /\ p'.(cache_capacity) = p.(cache_capacity)).
Proof.
  revert p. induction l as [|x l IH]; intros p Hc Hnd Hl; cbn [for_each]; [by apply wp_ret|]. wp_step.
  cbn [fmap list_fmap] in Hnd. apply NoDup_cons in Hnd as [Hni Hnd]. destruct x as [x f].
  eapply wp_mono; [apply (arc_drop_spec p (x, f) x.2 Hc); apply (Hl x f); by left|].
  intros _ p1 (Hc1 & El & E1 & E2 & Ec). eapply wp_mono; [apply (IH p1 Hc1 Hnd)|].
  - intros y g Hy. assert (Hne : y.1 <> x.1). { intros E. apply Hni. simpl. rewrite <- E. apply list_elem_of_fmap_2. by apply (list_elem_of_fmap_2' fst _ (y, g)). }
    rewrite <- (Hl y g) by (by right). by destruct g; rewrite ?E1, ?E2, dict_get_pop, decide_False.
  - intros _ p' (Hc' & Ee & Ec'). split_and!; [done| |congruence]. rewrite Ee, (entries_pop p p1 x.1 El). cbn [fmap list_fmap fst foldr]. apply foldr_delete_comm.
Qed.

Lemma trim_spec c g : 0 <= c -> Z.of_nat (length (trim c g)) <= c /\ trim c g `sublist_of` g.
Proof. intros Hc. unfold trim. rewrite length_drop. split; [lia|apply sublist_drop]. Qed.

Lemma arc_evict_spec p n protected :
  ArcInv p -> 0 < n ->
  wp (arc_evict n protected) p (fun o p' => ArcInv p' /\
    match o with
    | None => p' = p
    | Some l => Z.of_nat (length l) = n /\ NoDup l.*1 /\ arc_entries p' = foldr delete (arc_entries p) l.*1
        /\ forall k b, (k, b) ∈ l -> arc_entries p !! k = Some b /\ b.(ref_cnt) = 0 /\ k ∉ protected
    end).
Proof.
  intros Hp Hn. pose proof Hp as [Hc Hcap _ _]. unfold arc_evict. rewrite (proj2 (Z.eqb_neq n 0)) by lia. wp_steps. unfold id.
  destruct (arc_select _ _ _ _ _ _) as [l|] eqn:Hsel; [|by wp_steps].
  apply arc_select_spec in Hsel as (Hlen & Hsub & Hin). change (p.(t1) ++ p.(t2)) with (live p) in Hsub.
  pose proof Hc as [Hnd _ _]. assert (Hndl : NoDup l.*1.*1).
  { apply (fmap_submseteq fst), submseteq_Permutation in Hsub as [r Hr]. rewrite Hr in Hnd. by apply NoDup_app in Hnd as [? _]. }
  assert (Hget : forall x f, (x, f) ∈ l -> dict_get (if f : bool then p.(t1) else p.(t2)) x.1 = Some x.2).
  { intros [k b] f Hx. destruct (Hin _ _ Hx) as [_ Hx']. unfold live in Hnd. rewrite fmap_app in Hnd. apply NoDup_app in Hnd as (Hn1 & _ & Hn2).
    destruct f; by apply dict_get_elem. }
  wp_step. eapply wp_mono; [by apply arc_drop_all|]. intros _ p1 (Hc1 & Ee & Ec). wp_steps. split.
  - destruct (trim_spec p1.(cache_capacity) p1.(b1)) as [Hl1 Hs1]; [lia|]. destruct (trim_spec p1.(cache_capacity) p1.(b2)) as [Hl2 Hs2]; [lia|].
    destruct Hc1 as [H1 H2 H3]. split; simpl; [|lia|done|done]. split; simpl; [done| |].
    + eapply sublist_NoDup; [exact H2|by apply sublist_app].
    + intros k Hk Hk'. apply (H3 k Hk). eapply elem_of_sublist; [done|by apply sublist_app].
  - split_and!; [rewrite length_fmap; lia|done|done|]. intros k b Hx. apply list_elem_of_fmap in Hx as ([x f] & E & Hx). simpl in E. subst x.
    destruct (Hin _ _ Hx) as [[Hr Hpr] _]. split_and!; [|done|done]. rewrite arc_entries_dict. unfold live. rewrite dict_get_append.
    pose proof (Hget _ _ Hx) as Hg. simpl in Hg. destruct f; [by rewrite Hg|]. destruct (dict_get p.(t1) k) eqn:E; [|done]. eapply live_t1 in E; [congruence|done].
Qed.

#[global] Instance arc_laws : PolicyLaws ARC.
Proof.
  refine {| pol_inv := ArcInv; pol_entries := arc_entries |}.
  - intros c Hc. split; [|done]. split; simpl; [|done..]. split; [apply NoDup_nil_2..|]. by intros k ?%elem_of_nil.
  - intros p k _. symmetry. apply arc_entries_get.
  - intros p k b b' Hp Hb _ _. apply arc_put_inv; [done|]. rewrite <- arc_entries_get. eauto.
  - intros p k b Hp Hk _. apply arc_insert_inv; [done|by rewrite <- arc_entries_get].
  - intros p k b Hp _ _. by apply arc_remove_inv.
  - intros p keys. apply arc_touch_spec.
  - intros p n protected. apply arc_evict_spec.
  - intros p [_ Hc _ _]. simpl. wp_steps. split; [|done]. split; simpl; [|done..]. split; [apply NoDup_nil_2..|]. by intros k ?%elem_of_nil.
  - intros p k b b' Hp Hb _ _. apply wp_ret. apply arc_put_inv; [done|]. rewrite <- arc_entries_get. eauto.
  - intros p k b b' Hp Hb _ _. apply wp_ret. apply arc_put_inv; [done|]. rewrite <- arc_entries_get. eauto.
Defined.
