(* ===== verification/OffloadSystem.v ===== *)
(** * Offloaded KV blocks: transfers in flight

    The offloading manager over any replacement policy that keeps [PolicyLaws], with the
    loads and stores in flight as a machine: no call of it raises, a load in flight reads
    a block that holds the data of its own key, and a store in flight writes a block that
    nothing else uses.  The last part is about what the two policies evict. *)

From S2P Require Import Prelude BlockHash Offload OffloadProps.

Implicit Types (k : OffloadKey) (b : BlockStatus) (E : gmap OffloadKey BlockStatus).

(** ** Blocks of the cache *)

Definition values E : list BlockStatus := (map_to_list E).*2.

Definition idle E : Z := Z.of_nat (length (filter (fun b => b.(ref_cnt) = 0) (values E))).
Definition pending E : Z := Z.of_nat (length (filter (fun b => b.(ref_cnt) = -1) (values E))).

Lemma values_insert E k b : E !! k = None -> values (<[k := b]> E) ≡ₚ b :: values E.
Proof. intros Hk. unfold values. by rewrite map_to_list_insert. Qed.

Lemma values_delete E k b : E !! k = Some b -> values E ≡ₚ b :: values (delete k E).
Proof. intros Hk. unfold values. by rewrite <- (map_to_list_delete E k b). Qed.

Lemma values_update E k b : values (<[k := b]> E) ≡ₚ b :: values (delete k E).
Proof. rewrite <- insert_delete_eq. apply values_insert, lookup_delete_eq. Qed.

Lemma values_elem E k b : E !! k = Some b -> b ∈ values E.
Proof. intros Hk. unfold values. apply list_elem_of_fmap. exists (k, b). split; [done|by apply elem_of_map_to_list]. Qed.

Lemma idle_perm E E' l : values E' ≡ₚ l ++ values E -> idle E' = Z.of_nat (length (filter (fun b => b.(ref_cnt) = 0) l)) + idle E.
Proof. intros Hp. unfold idle. rewrite Hp, filter_app, length_app. lia. Qed.

Lemma pending_perm E E' l : values E' ≡ₚ l ++ values E -> pending E' = Z.of_nat (length (filter (fun b => b.(ref_cnt) = -1) l)) + pending E.
Proof. intros Hp. unfold pending. rewrite Hp, filter_app, length_app. lia. Qed.

(** Many blocks at once. *)
Lemma values_drop E l :
  NoDup l.*1 -> (forall k b, (k, b) ∈ l -> E !! k = Some b) -> values E ≡ₚ l.*2 ++ values (foldr delete E l.*1).
Proof.
  induction l as [|[k b] l IH]; intros Hnd Hl; [done|]. cbn [fmap list_fmap fst snd foldr app] in *. apply NoDup_cons in Hnd as [Hni Hnd].
  rewrite IH by (try done; intros; apply Hl; by right). rewrite (values_delete (foldr delete E l.*1) k b); [by rewrite Permutation_middle|].
  rewrite foldr_delete_lookup, decide_False by done. apply Hl. by left.
Qed.

Lemma values_add E l :
  NoDup l.*1 -> (forall k, k ∈ l.*1 -> E !! k = None) -> values (list_to_map l ∪ E) ≡ₚ l.*2 ++ values E.
Proof.
  induction l as [|[k b] l IH]; intros Hnd Hl; [by rewrite list_to_map_nil, (left_id_L ∅ (∪))|]. cbn [fmap list_fmap fst snd app] in *. apply NoDup_cons in Hnd as [Hni Hnd].
  rewrite list_to_map_cons, <- insert_union_l, values_insert, IH; [done|done| |].
  - intros x Hx. apply Hl. by right.
  - apply lookup_union_None. split; [by apply not_elem_of_list_to_map|]. apply Hl. by left.
Qed.

Section system.
Context {P : Type} `{!PolicyOps P} `{!PolicyLaws P} {N : Z}.
Implicit Types (m : Offloader P).

(** The manager holds the blocks [E]: every buffer slot that was handed out is of one
    block or free, and the two counters count. *)
Record Rep E m : Prop := {
  rep_policy : pol_inv m.(policy);
  rep_entries : pol_entries m.(policy) = E;
  rep_allocated : 0 <= m.(num_allocated_blocks) <= m.(num_blocks);
  rep_pool : (block_id <$> values E) ++ m.(free_list) ≡ₚ seqZ 0 m.(num_allocated_blocks);
  rep_idle : m.(num_evictable_cache_blocks) = idle E;
  rep_pending : m.(num_write_pending_blocks) = pending E;
  rep_tracker : 0 < m.(max_tracker_size);
  rep_size : m.(num_blocks) = N;
}.

Lemma rep_get E m k : Rep E m -> pol_get m.(policy) k = E !! k.
Proof. intros [Hp <- _ _ _ _ _ _]. by apply pl_get. Qed.

(** A block whose state changes in place. *)
Lemma rep_update E m p' k b b' di dp :
  Rep E m -> E !! k = Some b -> b'.(block_id) = b.(block_id) ->
  pol_inv p' -> pol_entries p' = <[k := b']> E ->
  di = (if decide (b'.(ref_cnt) = 0) then 1 else 0) - (if decide (b.(ref_cnt) = 0) then 1 else 0) ->
  dp = (if decide (b'.(ref_cnt) = -1) then 1 else 0) - (if decide (b.(ref_cnt) = -1) then 1 else 0) ->
  Rep (<[k := b']> E) (add_counters di dp (set_policy p' m)).
Proof.
  intros [_ _ Ha Hpool Hi Hp Ht HN] Hk Hid Hp' He' -> ->. pose proof (values_update E k b') as Hu. pose proof (values_delete E k b Hk) as Hd.
  split; simpl; try done.
  - rewrite <- Hpool, Hu, Hd. simpl. by rewrite Hid.
  - rewrite (idle_perm (delete k E) _ [b'] Hu), Hi, (idle_perm (delete k E) E [b] Hd). rewrite !filter_cons, filter_nil. do 2 case_decide; simpl; lia.
  - rewrite (pending_perm (delete k E) _ [b'] Hu), Hp, (pending_perm (delete k E) E [b] Hd). rewrite !filter_cons, filter_nil. do 2 case_decide; simpl; lia.
Qed.

Lemma counters_0 m : add_counters 0 0 m = m.
Proof. destruct m. unfold add_counters. simpl. by rewrite !Z.add_0_r. Qed.

Lemma idle_pos E k b : E !! k = Some b -> b.(ref_cnt) = 0 -> 1 <= idle E.
Proof.
  intros Hk Hr. rewrite (idle_perm (delete k E) E [b] (values_delete E k b Hk)), filter_cons_True by done. unfold idle. simpl. lia.
Qed.

(** ** One block *)

Definition with_refs (n : Z) b : BlockStatus := mkBlockStatus n b.(block_id).

Lemma load_one_ok E m k b :
  Rep E m -> E !! k = Some b -> 0 <= b.(ref_cnt) < 2 ^ 31 - 1 ->
  wp (load_one k) m (fun i m' => i = b.(block_id) /\ Rep (<[k := with_refs (b.(ref_cnt) + 1) b]> E) m').
Proof.
  intros HR Hk Hr. unfold load_one. wp_step. wp_step. unfold id. rewrite (rep_get _ _ _ HR), Hk.
  wp_step. apply wp_check; [unfold is_ready; apply Z.leb_le; lia|]. wp_step. unfold write_ref, set_ref_cnt. rewrite int32_small by lia.
  destruct (Z.eqb_spec b.(ref_cnt) 0) as [H0|H0].
  - wp_step. unfold on_policy. apply wp_zoom. pose proof (rep_idle _ _ HR). pose proof (idle_pos _ _ _ Hk H0).
    eapply wp_mono; [apply (pl_acquire _ k b (with_refs (b.(ref_cnt) + 1) b)); [apply HR|by rewrite (rep_entries _ _ HR)|done|simpl; lia]|].
    intros _ p' [Hp' He']. wp_steps. simpl. unfold id. apply wp_check; [apply Z.leb_le; lia|]. wp_steps. split; [done|].
    rewrite (rep_entries _ _ HR) in He'.
    eapply (rep_update E m _ k b (with_refs (b.(ref_cnt) + 1) b) (-1) 0); try done; simpl; repeat case_decide; lia.
  - wp_steps. split; [done|]. destruct (pl_put m.(policy) k b (with_refs (b.(ref_cnt) + 1) b)) as [Hp' He'];
      [apply HR|by rewrite (rep_entries _ _ HR)|done|simpl; lia|]. rewrite (rep_entries _ _ HR) in He'.
    rewrite <- (counters_0 (set_policy _ _)). eapply (rep_update E m _ k b); try done; simpl; repeat case_decide; lia.
Qed.

Lemma unload_one_ok E m k b :
  Rep E m -> E !! k = Some b -> 0 < b.(ref_cnt) < 2 ^ 31 ->
  wp (unload_one k) m (fun _ m' => Rep (<[k := with_refs (b.(ref_cnt) - 1) b]> E) m').
Proof.
  intros HR Hk Hr. unfold unload_one. wp_step. wp_step. unfold id. rewrite (rep_get _ _ _ HR), Hk.
  wp_step. apply wp_check; [apply Z.ltb_lt; lia|]. unfold write_ref, set_ref_cnt. rewrite int32_small by lia. wp_step. wp_step.
  pose proof (rep_entries _ _ HR) as He. destruct (Z.eqb_spec (b.(ref_cnt) - 1) 0) as [H0|H0].
  - wp_step. wp_step. unfold on_policy. apply wp_zoom. simpl.
    eapply wp_mono; [apply (pl_release m.(policy) k b (with_refs (b.(ref_cnt) - 1) b)); [apply HR|by rewrite He|lia|done]|].
    intros _ p' [Hp' He']. rewrite He in He'. eapply (rep_update E m p' k b _ 1 0); try done; simpl; repeat case_decide; lia.
  - wp_steps. destruct (pl_put m.(policy) k b (with_refs (b.(ref_cnt) - 1) b)) as [Hp' He']; [apply HR|by rewrite He|lia|simpl; lia|].
    rewrite He in He'. rewrite <- (counters_0 (set_policy _ _)). eapply (rep_update E m _ k b); try done; simpl; repeat case_decide; lia.
Qed.

Lemma stored_one_ok E m k b :
  Rep E m -> E !! k = Some b -> b.(ref_cnt) = -1 ->
  wp (stored_one k) m (fun mark m' => mark = true /\ Rep (<[k := with_refs 0 b]> E) m').
Proof.
  intros HR Hk Hr. unfold stored_one. wp_step. wp_step. unfold id. rewrite (rep_get _ _ _ HR), Hk. unfold is_ready. rewrite Hr. simpl negb. cbv iota.
  unfold write_ref, set_ref_cnt. change (int32 0) with 0. wp_step. wp_step. wp_step. wp_step. wp_step. unfold on_policy. apply wp_zoom. simpl.
  pose proof (rep_entries _ _ HR) as He.
  eapply wp_mono; [apply (pl_release m.(policy) k b (with_refs 0 b)); [apply HR|by rewrite He|lia|done]|].
  intros _ p' [Hp' He']. rewrite He in He'. wp_steps. split; [done|]. eapply (rep_update E m p' k b _ 1 (-1)); try done; simpl; repeat case_decide; lia.
Qed.

Lemma failed_one_ok E m k b :
  Rep E m -> E !! k = Some b -> b.(ref_cnt) = -1 -> wp (failed_one k) m (fun _ m' => Rep (delete k E) m').
Proof.
  intros HR Hk Hr. unfold failed_one. wp_step. wp_step. unfold id. rewrite (rep_get _ _ _ HR), Hk. unfold is_ready. rewrite Hr. simpl negb. cbv iota.
  wp_step. wp_step. wp_step. unfold on_policy. apply wp_zoom. simpl. pose proof (rep_entries _ _ HR) as He.
  eapply wp_mono; [apply (pl_remove m.(policy) k b); [apply HR|by rewrite He|lia]|].
  intros _ p' [Hp' He']. rewrite He in He'. destruct HR as [_ _ Ha Hpool Hi Hp Ht HN]. pose proof (values_delete E k b Hk) as Hd.
  unfold free_block. wp_steps. split; simpl; try done.
  - rewrite <- Hpool, Hd. simpl. solve_Permutation.
  - rewrite Hi, (idle_perm (delete k E) E [b] Hd), filter_cons_False by lia. simpl. lia.
  - rewrite Hp, (pending_perm (delete k E) E [b] Hd), filter_cons_True by done. simpl. lia.
Qed.

(** ** Storing *)

Lemma rep_stats E m n l c : Rep E m -> Rep E (set_stats n l c m).
Proof. by intros []. Qed.

Lemma rep_events E m es : Rep E m -> Rep E (set_events es m).
Proof. by intros []. Qed.

(** The keys that were looked up often enough. *)
Definition counted m (keys : list OffloadKey) : list OffloadKey :=
  match m.(counts) with None => keys | Some c => filter (fun k => m.(store_threshold) <= default 0 (dict_get c k)) keys end.

Lemma filter_counted_ok m keys :
  wp (filter_counted keys) m (fun kept m' => kept = counted m keys /\ exists n, m' = set_stats n m.(allocation_sizes) m.(counts) m).
Proof.
  unfold filter_counted, counted. wp_steps. unfold id. destruct m.(counts) eqn:Hc; wp_steps; split; try done.
  - by eexists.
  - exists m.(stores_skipped). rewrite <- Hc. by destruct m.
Qed.

Lemma rep_drop E m p' l :
  Rep E m -> NoDup l.*1 -> (forall k b, (k, b) ∈ l -> E !! k = Some b /\ b.(ref_cnt) = 0) ->
  pol_inv p' -> pol_entries p' = foldr delete E l.*1 ->
  Rep (foldr delete E l.*1) (set_pool m.(num_allocated_blocks) (m.(free_list) ++ (block_id <$> l.*2)) (add_counters (- Z.of_nat (length l)) 0 (set_policy p' m))).
Proof.
  intros [_ _ Ha Hpool Hi Hp Ht HN] Hnd Hl Hp' He'. pose proof (values_drop E l Hnd ltac:(intros; by apply Hl)) as Hd.
  assert (Hr : forall b, b ∈ l.*2 -> b.(ref_cnt) = 0). { intros b ([k b'] & -> & Hx)%list_elem_of_fmap. by apply (Hl k b'). }
  split; simpl; try done.
  - rewrite <- Hpool, Hd, fmap_app. solve_Permutation.
  - rewrite Hi, (idle_perm _ _ _ Hd), filter_id, length_fmap by done. lia.
  - rewrite Hp, (pending_perm _ _ _ Hd). rewrite filter_none; [simpl; lia|]. intros b Hb. rewrite (Hr b Hb). lia.
Qed.

Lemma free_all_ok m (l : list (OffloadKey * BlockStatus)) :
  wp (for_each l (fun x => free_block x.2)) m (fun _ m' => m' = set_pool m.(num_allocated_blocks) (m.(free_list) ++ (block_id <$> l.*2)) m).
Proof.
  revert m. induction l as [|x l IH]; intros m; cbn [for_each]; [wp_steps; rewrite app_nil_r; by destruct m|].
  unfold free_block at 1. wp_steps. eapply wp_mono; [apply IH|]. intros _ m' ->. simpl. by rewrite <- app_assoc.
Qed.

(** What a policy would evict. *)
Definition victims (p : P) (n : Z) (protected : list OffloadKey) : option (list OffloadKey) :=
  match pol_evict n protected p with (Ok (Some l), _) => Some l.*1 | _ => None end.

(** No room for [short] more blocks. *)
Definition no_room E m (short : Z) (protected : list OffloadKey) : Prop :=
  0 < short /\ (idle E < short \/ victims m.(policy) short protected = None).

Lemma make_room_ok E m n keys :
  Rep E m ->
  let short := n - get_num_free_blocks m in
  wp (make_room n keys) m (fun o m' =>
    match o with
    | None => m' = m /\ no_room E m short keys
    | Some ev => Rep (foldr delete E ev) m' /\ n <= get_num_free_blocks m'
        /\ (if 0 <? short then short <= idle E /\ victims m.(policy) short keys = Some ev else ev = [])
        /\ forall k, k ∈ ev -> k ∉ keys /\ exists b, E !! k = Some b /\ b.(ref_cnt) = 0
    end).
Proof.
  intros HR short. unfold make_room. wp_steps. unfold id. fold short. destruct (Z.gtb_spec short 0) as [Hn|Hn]; simpl negb; cbv iota.
  2: { wp_steps. rewrite (proj2 (Z.ltb_ge _ _)) by lia. split_and!; [done|unfold short in Hn; lia|done|by intros k ?%elem_of_nil]. }
  pose proof (rep_idle _ _ HR) as Hidle. destruct (Z.gtb_spec short m.(num_evictable_cache_blocks)) as [Hs|Hs].
  { wp_steps. split; [done|]. split; [done|left; lia]. }
  wp_step. unfold on_policy. apply wp_zoom. destruct (wp_inv _ _ _ (pl_evict m.(policy) short keys (rep_policy _ _ HR) Hn)) as (o & p' & Hrun & Hp' & Ho).
  eapply wp_eq; [exact Hrun|]. destruct o as [l|]; [|subst; wp_steps; split; [by destruct m|]; split; [done|right; unfold victims; by rewrite Hrun]].
  destruct Ho as (Hlen & Hnd & He' & Hl). rewrite (rep_entries _ _ HR) in He', Hl. wp_steps. simpl. unfold id.
  apply wp_check; [apply Z.leb_le; lia|]. wp_step. eapply wp_mono; [apply free_all_ok|]. intros _ m' ->. wp_steps. split_and!.
  - apply (rep_drop E m p' l HR Hnd); [|done..]. intros k b Hx. destruct (Hl k b Hx) as (? & ? & _). done.
  - unfold short, get_num_free_blocks in *. simpl. rewrite length_app, !length_fmap. lia.
  - rewrite (proj2 (Z.ltb_lt _ _)) by done. split; [lia|]. unfold victims. by rewrite Hrun.
  - intros k ([k' b] & -> & Hx)%list_elem_of_fmap. destruct (Hl _ _ Hx) as (? & ? & ?). eauto.
Qed.

Lemma pop_free_ok n m :
  (n <= length m.(free_list))%nat ->
  wp (pop_free n) m (fun bs m' => length bs = n /\ Forall (fun b => b.(ref_cnt) = -1) bs
    /\ exists rest, m.(free_list) ≡ₚ (block_id <$> bs) ++ rest /\ m' = set_pool m.(num_allocated_blocks) rest m).
Proof.
  revert m. induction n as [|n IH]; intros m Hn; cbn [pop_free].
  { wp_steps. split_and!; [done|constructor|]. exists m.(free_list). split; [done|by destruct m]. }
  wp_steps. unfold id. destruct (last m.(free_list)) as [i|] eqn:Hi; [|apply last_None in Hi; rewrite Hi in Hn; simpl in Hn; lia].
  apply last_Some in Hi as [l Hl]. rewrite Hl, removelast_last in *. rewrite length_app in Hn. simpl in Hn. wp_steps.
  eapply wp_mono; [apply IH; simpl; lia|]. intros bs m' (Hlen & Hr & rest & Hp & ->). wp_steps. simpl in *. split_and!; [lia|by constructor|].
  exists rest. split; [|done]. rewrite Hp. simpl. solve_Permutation.
Qed.

Lemma seqZ_block_ids a n : block_id <$> ((fun i => new_block (a + i)) <$> seqZ 0 n) = seqZ a n.
Proof. rewrite <- list_fmap_compose. change (block_id ∘ _) with (fun i => a + i). by rewrite fmap_add_seqZ, Z.add_0_r. Qed.

Lemma allocate_blocks_ok m (keys : list OffloadKey) :
  0 <= m.(num_allocated_blocks) <= m.(num_blocks) -> Z.of_nat (length keys) <= get_num_free_blocks m ->
  wp (allocate_blocks keys) m (fun bs m' => length bs = length keys /\ Forall (fun b => b.(ref_cnt) = -1) bs
    /\ exists allocated rest, m' = set_pool allocated rest m /\ 0 <= allocated <= m.(num_blocks)
      /\ m.(free_list) ++ seqZ 0 allocated ≡ₚ (block_id <$> bs) ++ rest ++ seqZ 0 m.(num_allocated_blocks)).
Proof.
  intros Ha Hn. unfold get_num_free_blocks in Hn. unfold allocate_blocks. wp_steps. unfold id. set (fresh := Z.min _ _).
  assert (Hf : 0 <= fresh) by (unfold fresh; lia). apply wp_check; [apply Z.leb_le; unfold fresh; lia|]. wp_steps.
  eapply wp_mono; [apply pop_free_ok; simpl; unfold fresh; lia|]. intros bs m' (Hlen & Hr & rest & Hp & ->). wp_steps. simpl in *. split_and!.
  - rewrite length_app, length_fmap, length_seqZ, Hlen. unfold fresh. lia.
  - apply Forall_app. split; [|done]. by apply Forall_fmap, Forall_true.
  - exists (m.(num_allocated_blocks) + Z.max 0 fresh), rest. split_and!; [done|unfold fresh; lia|unfold fresh; lia|].
    rewrite fmap_app, seqZ_block_ids, Z.max_r by lia. rewrite Hp, seqZ_app by lia. rewrite Z.add_0_l. solve_Permutation.
Qed.

Lemma insert_all_ok m (l : list (OffloadKey * BlockStatus)) :
  pol_inv m.(policy) -> NoDup l.*1 -> (forall k, k ∈ l.*1 -> pol_entries m.(policy) !! k = None) -> Forall (fun b => b.(ref_cnt) = -1) l.*2 ->
  wp (for_each l (fun x => on_policy (pol_insert x.1 x.2))) m (fun _ m' => exists p', m' = set_policy p' m /\ pol_inv p'
    /\ pol_entries p' = list_to_map l ∪ pol_entries m.(policy)).
Proof.
  revert m. induction l as [|[k b] l IH]; intros m Hp Hnd Hl Hr; cbn [for_each].
  { wp_steps. exists m.(policy). rewrite list_to_map_nil, (left_id_L ∅ (∪)). by destruct m. }
  cbn [fmap list_fmap fst snd] in *. apply NoDup_cons in Hnd as [Hni Hnd]. apply Forall_cons in Hr as [Hb Hr].
  wp_step. unfold on_policy at 1. apply wp_zoom. eapply wp_mono; [apply pl_insert; [done|apply Hl; by left|simpl; lia]|].
  intros _ p1 [Hp1 He1]. eapply wp_mono; [apply IH; simpl; try done|].
  - intros x Hx. rewrite He1, lookup_insert_ne by (intros <-; done). apply Hl. by right.
  - intros _ m' (p' & -> & Hp' & He'). exists p'. split_and!; [done|done|]. rewrite He'. simpl. rewrite He1.
    rewrite <- insert_union_r by (by apply not_elem_of_list_to_map). by rewrite insert_union_l.
Qed.

Lemma rep_add E m p' l allocated rest :
  Rep E m -> NoDup l.*1 -> (forall k, k ∈ l.*1 -> E !! k = None) -> Forall (fun b => b.(ref_cnt) = -1) l.*2 ->
  pol_inv p' -> pol_entries p' = list_to_map l ∪ E -> 0 <= allocated <= m.(num_blocks) ->
  m.(free_list) ++ seqZ 0 allocated ≡ₚ (block_id <$> l.*2) ++ rest ++ seqZ 0 m.(num_allocated_blocks) ->
  Rep (list_to_map l ∪ E) (add_counters 0 (Z.of_nat (length l)) (set_policy p' (set_pool allocated rest m))).
Proof.
  intros [_ _ Ha Hpool Hi Hp Ht HN] Hnd Hl Hr Hp' He' Hal Hperm. pose proof (values_add E l Hnd Hl) as Hv. rewrite Forall_forall in Hr.
  split; simpl; try done.
  - rewrite Hv, fmap_app. rewrite <- Hpool in Hperm. apply (Permutation_app_inv_l m.(free_list)). rewrite Hperm. solve_Permutation.
  - rewrite Hi, (idle_perm _ _ _ Hv). rewrite filter_none; [simpl; lia|]. intros b Hb. rewrite (Hr b Hb). lia.
  - rewrite Hp, (pending_perm _ _ _ Hv), filter_id, length_fmap by done. lia.
Qed.

Lemma prepare_store_ok E m keys :
  Rep E m -> NoDup keys ->
  wp (prepare_store keys) m (fun o m' =>
    let kept := counted m keys in
    let new := filter (fun k => E !! k = None) kept in
    let short := Z.of_nat (length new) - get_num_free_blocks m in
    match o with
    | None => Rep E m' /\ new <> [] /\ no_room E m short kept
    | Some out => (if bool_decide (new <> []) && (0 <? short) then short <= idle E /\ victims m.(policy) short kept = Some out.(evicted_keys)
                   else out.(evicted_keys) = []) /\ exists l, out.(keys_to_store) = l.*1 /\ out.(store_spec) = block_id <$> l.*2
        /\ l.*1 = new /\ Forall (fun b => b.(ref_cnt) = -1) l.*2
        /\ NoDup l.*1 /\ (forall k, k ∈ out.(evicted_keys) -> k ∉ kept /\ exists b, E !! k = Some b /\ b.(ref_cnt) = 0)
        /\ Rep (list_to_map l ∪ foldr delete E out.(evicted_keys)) m'
    end).
Proof.
  intros HR Hnd. unfold prepare_store. wp_step. eapply wp_mono; [apply filter_counted_ok|]. intros kept m1 [-> [n ->]].
  set (m1 := set_stats _ _ _ _). assert (HR1 : Rep E m1) by (by apply rep_stats). wp_step. wp_step. unfold id.
  assert (Hf : filter (fun k => pol_get m1.(policy) k = None) (counted m keys) = filter (fun k => E !! k = None) (counted m keys)).
  { apply list_filter_iff. intros k. by rewrite (rep_get _ _ _ HR1). }
  rewrite Hf. set (new := filter _ (counted m keys)).
  assert (Hnew : NoDup new). { apply NoDup_filter. unfold counted. destruct m.(counts); [by apply NoDup_filter|done]. }
  case_bool_decide as Hnil.
  { wp_steps. rewrite (bool_decide_false (new <> [])) by naive_solver. split; [done|]. exists []. split_and!; [done|done|done|by apply Forall_nil|by apply NoDup_nil|by intros k ?%elem_of_nil|].
    by rewrite list_to_map_nil, (left_id_L ∅ (∪)). }
  wp_step. wp_step. set (m2 := set_stats _ _ _ _). assert (HR2 : Rep E m2) by (by apply rep_stats).
  wp_step. eapply wp_mono; [by apply make_room_ok|]. intros [ev|] m3 Ho; [|by destruct Ho as [-> Ho]; wp_steps].
  destruct Ho as (HR3 & Hroom & Hvict & Hev). wp_step. unfold emit_event. wp_step. set (m4 := if bool_decide _ then _ else _).
  assert (HR4 : Rep (foldr delete E ev) m4 /\ get_num_free_blocks m4 = get_num_free_blocks m3).
  { unfold m4. case_bool_decide; [done|]. split; [by apply rep_events|done]. }
  clearbody m4. destruct HR4 as (HR4 & Hfree4). wp_step. eapply wp_mono; [apply allocate_blocks_ok; [apply HR4|lia]|].
  intros bs m5 (Hlen & Hr & allocated & rest & -> & Hal & Hperm). wp_step. apply wp_check; [by apply bool_decide_true|].
  assert (E1 : (zip new bs).*1 = new) by (apply fst_zip; lia). assert (E2 : (zip new bs).*2 = bs) by (apply snd_zip; lia).
  assert (Habs : forall k, k ∈ new -> foldr delete E ev !! k = None).
  { intros k Hk. rewrite foldr_delete_lookup. case_decide; [done|]. by apply list_elem_of_filter in Hk as [? _]. }
  pose proof (rep_entries _ _ HR4) as He4. wp_step. eapply wp_mono; [apply insert_all_ok; rewrite ?E1, ?E2; simpl; try done; [apply HR4|by rewrite He4]|].
  intros _ m6 (p' & -> & Hp' & He'). simpl in He'. rewrite He4 in He'. wp_steps. rewrite (bool_decide_true (new <> [])) by done. split; [exact Hvict|]. exists (zip new bs). rewrite E1, E2. split_and!; try done.
  replace (length new) with (length (zip new bs)) by (rewrite length_zip; lia). apply (rep_add (foldr delete E ev)); rewrite ?E1, ?E2; done.
Qed.

(** ** Transfers *)

Definition readers (L : list (OffloadKey * Z)) k : Z := Z.of_nat (length (filter (fun x => x.1 = k) L)).

(** The blocks [E] with the loads [L] and the stores [W] in flight (of a key from or to a
    buffer slot), where [mem] is the key whose data a slot holds. *)
Record Inv E (mem : gmap Z OffloadKey) (L W : list (OffloadKey * Z)) m : Prop := {
  inv_rep : Rep E m;
  inv_status : forall k b, E !! k = Some b ->
    b.(ref_cnt) = -1 /\ (k, b.(block_id)) ∈ W \/ b.(ref_cnt) = readers L k /\ mem !! b.(block_id) = Some k;
  inv_stores : forall k i, (k, i) ∈ W -> E !! k = Some (mkBlockStatus (-1) i);
  inv_once : NoDup W.*1;
  inv_loads : forall k i, (k, i) ∈ L -> exists b, E !! k = Some b /\ b.(block_id) = i /\ 0 <= b.(ref_cnt);
  inv_few : Z.of_nat (length L) < 2 ^ 31;
}.

Lemma inv_perm E mem L L' W W' m : L' ≡ₚ L -> W' ≡ₚ W -> Inv E mem L W m -> Inv E mem L' W' m.
Proof.
  intros EL EW [H1 H2 H3 H4 H5 H6]. split; [done|..].
  - intros k b Hk. unfold readers. rewrite EL, EW. by apply H2.
  - intros k i. rewrite EW. apply H3.
  - by rewrite EW.
  - intros k i. rewrite EL. apply H5.
  - by rewrite EL.
Qed.

Lemma readers_cons x L k : readers (x :: L) k = (if decide (x.1 = k) then 1 else 0) + readers L k.
Proof. unfold readers. rewrite filter_cons. case_decide; simpl; lia. Qed.

Lemma readers_le L k : 0 <= readers L k <= Z.of_nat (length L).
Proof. unfold readers. pose proof (length_filter (fun x => x.1 = k) L). lia. Qed.

(** Two blocks have two slots. *)
Lemma slots_differ E m k k' b b' : Rep E m -> E !! k = Some b -> E !! k' = Some b' -> k <> k' -> b.(block_id) <> b'.(block_id).
Proof.
  intros HR Hk Hk' Hne He. pose proof (NoDup_seqZ 0 m.(num_allocated_blocks)) as Hnd. rewrite <- (rep_pool _ _ HR) in Hnd.
  rewrite (values_delete E k b Hk), (values_delete (delete k E) k' b') in Hnd by (by rewrite lookup_delete_ne).
  simpl in Hnd. apply NoDup_cons in Hnd as [Hni _]. apply Hni. rewrite He. by left.
Qed.

Lemma slot_range E m k b : Rep E m -> E !! k = Some b -> 0 <= b.(block_id) < N.
Proof.
  intros HR Hk. pose proof (rep_allocated _ _ HR). pose proof (rep_size _ _ HR). assert (Hin : b.(block_id) ∈ seqZ 0 m.(num_allocated_blocks)).
  { rewrite <- (rep_pool _ _ HR), elem_of_app. left. by apply list_elem_of_fmap_2, (values_elem E k). }
  apply elem_of_seqZ in Hin. lia.
Qed.

(** A ready block with another number of readers. *)
Lemma inv_readers E mem L L' W m m' k b n :
  Inv E mem L W m -> E !! k = Some b -> 0 <= b.(ref_cnt) -> Rep (<[k := with_refs n b]> E) m' ->
  n = readers L' k -> (forall k', k' <> k -> readers L' k' = readers L k') ->
  (forall k' i, (k', i) ∈ L' -> (k', i) ∈ L \/ (k', i) = (k, b.(block_id))) -> Z.of_nat (length L') < 2 ^ 31 ->
  Inv (<[k := with_refs n b]> E) mem L' W m'.
Proof.
  intros [HR Hs HW Ho HL Hf] Hk Hr HR' Hn Hother Hsub Hlen. pose proof (readers_le L' k). split; [done|..]; [| |done| |done].
  - intros k' b' [[<- <-]|[Hne Hk']]%lookup_insert_Some.
    + right. split; [done|]. destruct (Hs k b Hk) as [[? _]|[_ Hm]]; [lia|done].
    + rewrite Hother by done. by apply Hs.
  - intros k' i Hi. destruct (decide (k' = k)) as [->|Hne]; [apply HW in Hi; rewrite Hk in Hi; simplify_eq; simpl in *; lia|].
    rewrite lookup_insert_ne by done. by apply HW.
  - intros k' i Hi. destruct (decide (k' = k)) as [->|Hne].
    + rewrite lookup_insert_eq. eexists. split; [done|]. simpl. split; [|lia].
      destruct (Hsub k i Hi) as [Hi'|[= ->]]; [|done]. destruct (HL k i Hi') as (b' & Hb' & <- & _). congruence.
    + rewrite lookup_insert_ne by done. destruct (Hsub k' i Hi) as [Hi'|[= ? ?]]; [by apply HL|done].
Qed.

Definition ready E k : Prop := exists b, E !! k = Some b /\ 0 <= b.(ref_cnt).

Lemma inv_load E mem L W m k :
  Inv E mem L W m -> ready E k -> Z.of_nat (length L) + 1 < 2 ^ 31 ->
  wp (load_one k) m (fun i m' => exists E', Inv E' mem ((k, i) :: L) W m' /\ forall k', ready E k' -> ready E' k').
Proof.
  intros HI (b & Hk & Hr) Hlen. destruct (inv_status _ _ _ _ _ HI k b Hk) as [[? _]|[Hb Hm]]; [lia|]. pose proof (readers_le L k).
  eapply wp_mono; [apply (load_one_ok E m k b); [apply HI|done|lia]|]. intros i m' [-> HR']. eexists. split.
  - eapply (inv_readers E mem L); try done.
    + rewrite readers_cons, decide_True by done. lia.
    + intros k' Hne. by rewrite readers_cons, decide_False by (simpl; congruence).
    + intros k' i [->|?]%elem_of_cons; [by right|by left].
    + simpl. lia.
  - intros k' (b' & Hb' & Hr'). unfold ready. destruct (decide (k' = k)) as [->|Hne]; [rewrite lookup_insert_eq|rewrite lookup_insert_ne by done]; eexists;
      (split; [done|simpl; lia]).
Qed.

Lemma inv_load_all E mem L W m keys :
  Inv E mem L W m -> Forall (ready E) keys -> Z.of_nat (length L) + Z.of_nat (length keys) < 2 ^ 31 ->
  wp (prepare_load keys) m (fun ids m' => length ids = length keys /\ exists E', Inv E' mem (zip keys ids ++ L) W m').
Proof.
  unfold prepare_load. revert E L m. induction keys as [|k keys IH]; intros E L m HI Hall Hlen; cbn [map_m].
  { wp_steps. split; [done|by exists E]. }
  apply Forall_cons in Hall as [Hk Hall]. simpl length in Hlen. wp_step. eapply wp_mono; [apply (inv_load E mem L W m k HI Hk); lia|].
  intros i m1 (E1 & HI1 & Hmono). wp_step. eapply wp_mono; [apply (IH E1 ((k, i) :: L) m1 HI1)|].
  - eapply Forall_impl; [done|]. intros x. apply Hmono.
  - simpl. lia.
  - intros ids m' (Hids & E' & HI'). wp_steps. simpl. split; [lia|]. exists E'. eapply inv_perm; [|done|exact HI']. simpl. solve_Permutation.
Qed.

Lemma inv_unload E mem L W m k i :
  Inv E mem ((k, i) :: L) W m -> wp (unload_one k) m (fun _ m' => exists E', Inv E' mem L W m').
Proof.
  intros HI. destruct (inv_loads _ _ _ _ _ HI k i ltac:(by left)) as (b & Hk & Hi & Hr). pose proof (inv_few _ _ _ _ _ HI) as Hf. simpl in Hf.
  destruct (inv_status _ _ _ _ _ HI k b Hk) as [[? _]|[Hb Hm]]; [lia|]. rewrite readers_cons, decide_True in Hb by done. pose proof (readers_le L k).
  eapply wp_mono; [apply (unload_one_ok E m k b); [apply HI|done|lia]|]. intros ? m' HR'. eexists.
  eapply (inv_readers E mem ((k, i) :: L) L W m m' k b (b.(ref_cnt) - 1) HI Hk Hr HR').
  - lia.
  - intros k' Hne. by rewrite readers_cons, decide_False by (simpl; congruence).
  - intros k' j Hj. left. by right.
  - lia.
Qed.

Lemma inv_unload_all E mem (job L W : list (OffloadKey * Z)) m :
  Inv E mem (job ++ L) W m -> wp (complete_load job.*1) m (fun _ m' => exists E', Inv E' mem L W m').
Proof.
  unfold complete_load. revert E m. induction job as [|[k i] job IH]; intros E m HI; cbn [fmap list_fmap for_each fst]; [wp_steps; by exists E|].
  wp_step. eapply wp_mono; [by eapply inv_unload|]. intros _ m1 (E1 & HI1). by apply (IH E1).
Qed.

Lemma inv_stored E mem L W m k i :
  Inv E mem L ((k, i) :: W) m -> wp (stored_one k) m (fun mark m' => mark = true /\ exists E', Inv E' (<[i := k]> mem) L W m').
Proof.
  intros [HR Hs HW Ho HL Hf]. pose proof (HW k i ltac:(by left)) as Hk. simpl in Ho. apply NoDup_cons in Ho as [Hni Ho].
  assert (Hread : readers L k = 0).
  { unfold readers. rewrite filter_none; [done|]. intros [k' j] Hj. simpl. intros ->. destruct (HL k j Hj) as (b & Hb & _ & Hr).
    rewrite Hk in Hb. simplify_eq. simpl in Hr. lia. }
  eapply wp_mono; [by apply (stored_one_ok E m k (mkBlockStatus (-1) i))|]. intros mark m' [-> HR']. split; [done|]. eexists. split; [exact HR'|..]; [| |done| |done].
  - intros k' b' [[<- <-]|[Hne Hk']]%lookup_insert_Some; simpl.
    + right. by rewrite Hread, lookup_insert_eq.
    + destruct (Hs k' b' Hk') as [[Hr' Hin]|[Hr' Hm']].
      * left. split; [done|]. apply elem_of_cons in Hin as [[= ? ?]|?]; [congruence|done].
      * right. split; [done|]. rewrite lookup_insert_ne; [done|]. exact (slots_differ E m k k' _ _ HR Hk Hk' Hne).
  - intros k' j Hj. rewrite lookup_insert_ne; [apply HW; by right|]. intros <-. apply Hni. by apply (list_elem_of_fmap_2' fst _ (k, j)).
  - intros k' j Hj. destruct (HL k' j Hj) as (b & Hb & Hid & Hr). rewrite lookup_insert_ne; [eauto|]. intros <-. rewrite Hk in Hb. simplify_eq. simpl in Hr. lia.
Qed.

Lemma inv_failed E mem L W m k i :
  Inv E mem L ((k, i) :: W) m -> wp (failed_one k) m (fun _ m' => exists E', Inv E' mem L W m').
Proof.
  intros [HR Hs HW Ho HL Hf]. pose proof (HW k i ltac:(by left)) as Hk. simpl in Ho. apply NoDup_cons in Ho as [Hni Ho].
  eapply wp_mono; [by apply (failed_one_ok E m k (mkBlockStatus (-1) i))|]. intros ? m' HR'. eexists. split; [exact HR'|..]; [| |done| |done].
  - intros k' b' [Hne Hk']%lookup_delete_Some. destruct (Hs k' b' Hk') as [[Hr' Hin]|?]; [|by right].
    left. split; [done|]. apply elem_of_cons in Hin as [[= ? ?]|?]; [congruence|done].
  - intros k' j Hj. rewrite lookup_delete_ne; [apply HW; by right|]. intros <-. apply Hni. by apply (list_elem_of_fmap_2' fst _ (k, j)).
  - intros k' j Hj. destruct (HL k' j Hj) as (b & Hb & Hid & Hr). rewrite lookup_delete_ne; [eauto|]. intros <-. rewrite Hk in Hb. simplify_eq. simpl in Hr. lia.
Qed.

(** The slots of a finished store hold the data of its keys. *)
Definition written (job : list (OffloadKey * Z)) (mem : gmap Z OffloadKey) : gmap Z OffloadKey :=
  foldl (fun mem x => <[x.2 := x.1]> mem) mem job.

Lemma inv_stored_all E mem L (job W : list (OffloadKey * Z)) m :
  Inv E mem L (job ++ W) m ->
  wp (map_m stored_one job.*1) m (fun marks m' => length marks = length job /\ Forall (eq true) marks /\ exists E', Inv E' (written job mem) L W m').
Proof.
  revert E mem m. induction job as [|[k i] job IH]; intros E mem m HI; cbn [fmap list_fmap map_m fst].
  { wp_steps. split_and!; [done|constructor|by exists E]. }
  wp_step. eapply wp_mono; [by eapply inv_stored|]. intros mark m1 [-> (E1 & HI1)]. wp_step.
  eapply wp_mono; [by apply (IH E1)|]. intros marks m' (Hlen & Hm & HI'). wp_steps. simpl. split_and!; [lia|by constructor|done].
Qed.

Lemma inv_failed_all E mem L (job W : list (OffloadKey * Z)) m :
  Inv E mem L (job ++ W) m -> wp (for_each job.*1 failed_one) m (fun _ m' => exists E', Inv E' mem L W m').
Proof.
  revert E m. induction job as [|[k i] job IH]; intros E m HI; cbn [fmap list_fmap for_each fst]; [wp_steps; by exists E|].
  wp_step. eapply wp_mono; [by eapply inv_failed|]. intros _ m1 (E1 & HI1). by apply (IH E1).
Qed.

Lemma readers_pos L k i : (k, i) ∈ L -> 1 <= readers L k.
Proof.
  intros Hi. unfold readers. assert (Hin : (k, i) ∈ filter (fun x => x.1 = k) L) by (by apply list_elem_of_filter).
  destruct (filter _ L); [by apply elem_of_nil in Hin|simpl; lia].
Qed.

Lemma zip_slots (l : list (OffloadKey * BlockStatus)) : zip l.*1 (block_id <$> l.*2) = (fun x => (x.1, x.2.(block_id))) <$> l.
Proof. induction l as [|[k b] l IH]; [done|]. exact (f_equal (cons _) IH). Qed.

Lemma inv_store E E' mem L W m m' l ev :
  Inv E mem L W m -> E' = list_to_map l ∪ foldr delete E ev -> Rep E' m' -> NoDup l.*1 ->
  (forall k b, (k, b) ∈ l -> E !! k = None /\ b.(ref_cnt) = -1) ->
  (forall k, k ∈ ev -> exists b, E !! k = Some b /\ b.(ref_cnt) = 0) ->
  Inv E' (foldr delete mem (block_id <$> l.*2)) L (zip l.*1 (block_id <$> l.*2) ++ W) m'.
Proof.
  intros [HR Hs HW Ho HL Hf] -> HR' Hnd Hl Hev. rewrite zip_slots.
  assert (Hnew : forall k b, (k, b) ∈ l -> (list_to_map l ∪ foldr delete E ev) !! k = Some b).
  { intros k b Hx. apply lookup_union_Some_l. by apply elem_of_list_to_map. }
  assert (Hold : forall k b, E !! k = Some b -> b.(ref_cnt) <> 0 -> (list_to_map l ∪ foldr delete E ev) !! k = Some b).
  { intros k b Hk Hr. rewrite lookup_union_r, foldr_delete_lookup, decide_False; [done|..].
    - intros (b' & Hb' & Hr')%Hev. congruence.
    - apply not_elem_of_list_to_map. intros ([k' b'] & -> & Hx)%list_elem_of_fmap. destruct (Hl _ _ Hx). simpl in *. congruence. }
  split; [done|..]; [| | | |done].
  - intros k b [Hb|[Hnone Hb]]%lookup_union_Some_raw.
    + apply elem_of_list_to_map_2 in Hb. left. split; [by apply (Hl k b)|]. apply elem_of_app. left. by apply (list_elem_of_fmap_2' _ _ (k, b)).
    + assert (Hk := Hb). rewrite foldr_delete_lookup in Hk. case_decide as Hne; [done|]. destruct (Hs k b Hk) as [[Hr Hin]|[Hr Hm]].
      * left. split; [done|]. apply elem_of_app. by right.
      * right. split; [done|]. rewrite foldr_delete_lookup, decide_False; [done|].
        intros (b' & Hid & ([k' b''] & -> & Hx)%list_elem_of_fmap)%list_elem_of_fmap. simpl in Hid.
        apply (slots_differ _ m' k k' b b'' HR'); [by apply lookup_union_Some_raw; right|by apply Hnew| |done].
        intros <-. by destruct (Hl _ _ Hx); congruence.
  - intros k i [([k' b] & [= -> ->] & Hx)%list_elem_of_fmap|Hi]%elem_of_app.
    + rewrite (Hnew _ _ Hx). destruct (Hl _ _ Hx) as [_ <-]. by destruct b.
    + by apply Hold; [apply HW|].
  - rewrite fmap_app, <- list_fmap_compose. apply NoDup_app. split_and!; [done| |done].
    intros k ([k' b] & -> & Hx)%list_elem_of_fmap ([k'' i] & E1 & Hi)%list_elem_of_fmap. simpl in E1. subst k''. apply HW in Hi. destruct (Hl _ _ Hx). congruence.
  - intros k i Hi. destruct (HL k i Hi) as (b & Hb & Hid & Hr). exists b. split_and!; [|done|done]. apply Hold; [done|].
    destruct (Hs k b Hb) as [[? _]|[Hr' _]]; [lia|]. pose proof (readers_pos L k i Hi). lia.
Qed.

(** ** The machine *)

(** [mem] is the data that the buffer slots hold; a slot that is being written, or was
    written by a failed store, holds none. *)
Record OffSys := mkOffSys {
  mgr : Offloader P;
  loads : list (list (OffloadKey * Z));
  stores : list (list (OffloadKey * Z));
  mem : gmap Z OffloadKey;
}.

Inductive OffOp :=
  | OLookup (k : OffloadKey)
  | OTouch (keys : list OffloadKey)
  | OLoad (keys : list OffloadKey)
  | OLoaded (j : nat)
  | OStore (keys : list OffloadKey)
  | OStored (j : nat) (success : bool)
  | OReset
  | OEvents
  | OStats.

Definition set_mgr m (s : OffSys) : OffSys := mkOffSys m s.(loads) s.(stores) s.(mem).
Definition on_mgr {A : Type} (op : M (Offloader P) A) : M OffSys A := zoom mgr set_mgr op.

(** A reset abandons the transfers in flight: they are flushed before the next store and
    never completed. *)
Definition off_op (op : OffOp) : M OffSys unit :=
  match op with
  | OLookup k => on_mgr (Offload.lookup k) ;; ret tt
  | OTouch keys => on_mgr (touch keys)
  | OLoad keys =>
      ids <- on_mgr (prepare_load keys) ;;
      modify (fun s => mkOffSys s.(mgr) (s.(loads) ++ [zip keys ids]) s.(stores) s.(mem))
  | OLoaded j =>
      s <- gets id ;;
      match s.(loads) !! j with
      | None => ret tt
      | Some job =>
          on_mgr (complete_load job.*1) ;;
          modify (fun s => mkOffSys s.(mgr) (delete j s.(loads)) s.(stores) s.(mem))
      end
  | OStore keys =>
      o <- on_mgr (prepare_store keys) ;;
      match o with
      | None => ret tt
      | Some out =>
          modify (fun s => mkOffSys s.(mgr) s.(loads) (s.(stores) ++ [zip out.(keys_to_store) out.(store_spec)])
                             (foldr delete s.(mem) out.(store_spec)))
      end
  | OStored j success =>
      s <- gets id ;;
      match s.(stores) !! j with
      | None => ret tt
      | Some job =>
          on_mgr (complete_store job.*1 success) ;;
          modify (fun s => mkOffSys s.(mgr) s.(loads) (delete j s.(stores)) (if success then written job s.(mem) else s.(mem)))
      end
  | OReset => on_mgr reset_cache ;; modify (fun s => mkOffSys s.(mgr) [] [] s.(mem))
  | OEvents => on_mgr take_events ;; ret tt
  | OStats => on_mgr get_stats ;; ret tt
  end.

(** Only keys that are a hit are loaded, the keys of a store are distinct, and a count of
    loads in flight fits into 32 bits. *)
Definition op_enabled (s : OffSys) (op : OffOp) : Prop :=
  match op with
  | OLoad keys => Forall (fun k => (Offload.lookup k s.(mgr)).1 = Ok HIT) keys
      /\ Z.of_nat (length (mjoin s.(loads))) + Z.of_nat (length keys) < 2 ^ 31
  | OStore keys => NoDup keys
  | _ => True
  end.

Definition new_system (events : bool) (threshold tracker : Z) : OffSys := mkOffSys (new_offloader N events threshold tracker) [] [] ∅.

Inductive off_reachable (events : bool) (threshold tracker : Z) : OffSys -> Prop :=
  | off_start : off_reachable events threshold tracker (new_system events threshold tracker)
  | off_next s s' op r :
      off_reachable events threshold tracker s -> op_enabled s op -> off_op op s = (r, s') -> off_reachable events threshold tracker s'.

Definition SysInv (s : OffSys) : Prop := exists E, Inv E s.(mem) (mjoin s.(loads)) (mjoin s.(stores)) s.(mgr).

Lemma inv_mgr E mem L W m m' : Inv E mem L W m -> Rep E m' -> Inv E mem L W m'.
Proof. by intros []. Qed.

Lemma lookup_ok E m k :
  Rep E m -> wp (Offload.lookup k) m (fun r m' => Rep E m' /\ (r = HIT -> ready E k)).
Proof.
  intros HR. unfold Offload.lookup, lookup_tracker. wp_step. wp_step. wp_step. unfold id.
  assert (Htail : forall m1, Rep E m1 -> wp (m <- gets id ;; ret (match pol_get m.(policy) k with
       | None => MISS | Some b => if negb (is_ready b) then HIT_PENDING else HIT end)) m1 (fun r m' => Rep E m' /\ (r = HIT -> ready E k))).
  { intros m1 HR1. wp_steps. unfold id. split; [done|]. rewrite (rep_get _ _ _ HR1). destruct (E !! k) as [b|] eqn:Hk; [|done].
    unfold is_ready. destruct (Z.leb_spec 0 b.(ref_cnt)); [|done]. intros _. by exists b. }
  destruct m.(counts) as [c|]; [|wp_step; by apply Htail]. wp_step. apply wp_check; [|wp_step; by apply Htail, rep_stats].
  destruct c as [|x c]; [|by rewrite orb_true_r]. pose proof (rep_tracker _ _ HR). rewrite (proj2 (Z.leb_gt _ _)) by (simpl; lia). by rewrite orb_true_r.
Qed.

Lemma touch_ok E m keys : Rep E m -> wp (touch keys) m (fun _ m' => Rep E m').
Proof.
  intros HR. unfold touch, on_policy. apply wp_zoom. eapply wp_mono; [apply pl_touch, HR|]. intros _ p' [Hp' He']. rewrite (rep_entries _ _ HR) in He'.
  by destruct HR.
Qed.

Lemma reset_ok E m : Rep E m -> wp reset_cache m (fun _ m' => Rep ∅ m').
Proof.
  intros HR. unfold reset_cache, on_policy. wp_step. apply wp_zoom. eapply wp_mono; [apply pl_clear, HR|]. intros _ p' [Hp' He']. wp_steps.
  destruct HR. split; simpl; try done. lia.
Qed.

Lemma off_empty_inv mem m : Rep ∅ m -> Inv ∅ mem [] [] m.
Proof.
  intros HR. split; [done|..]; try done.
  - by intros k i ?%elem_of_nil.
  - apply NoDup_nil_2.
  - by intros k i ?%elem_of_nil.
Qed.

Lemma job_perm (jobs : list (list (OffloadKey * Z))) j job : jobs !! j = Some job -> mjoin jobs ≡ₚ job ++ mjoin (delete j jobs).
Proof. intros Hj. by rewrite (delete_Permutation jobs j job Hj) at 1. Qed.

Lemma job_snoc (jobs : list (list (OffloadKey * Z))) job : mjoin (jobs ++ [job]) ≡ₚ job ++ mjoin jobs.
Proof. rewrite join_app. simpl. rewrite app_nil_r. apply Permutation_app_comm. Qed.

Lemma complete_store_ok E mem L (job W : list (OffloadKey * Z)) m success :
  Inv E mem L (job ++ W) m ->
  wp (complete_store job.*1 success) m (fun _ m' => exists E', Inv E' (if success then written job mem else mem) L W m').
Proof.
  intros HI. unfold complete_store. destruct success; [|by eapply inv_failed_all]. wp_step. eapply wp_mono; [by eapply inv_stored_all|].
  intros marks m1 (_ & _ & E' & HI'). unfold emit_event. wp_steps. exists E'. case_bool_decide; [done|]. eapply inv_mgr; [done|]. apply rep_events, HI'.
Qed.

Lemma prepare_store_inv E mem L W m keys :
  Inv E mem L W m -> NoDup keys ->
  wp (prepare_store keys) m (fun o m' => exists E',
    match o with
    | None => Inv E' mem L W m'
    | Some out => Inv E' (foldr delete mem out.(store_spec)) L (zip out.(keys_to_store) out.(store_spec) ++ W) m'
    end).
Proof.
  intros HI Hnd. eapply wp_mono; [apply prepare_store_ok; [apply HI|done]|]. intros [out|] m' Ho; [|exists E; destruct Ho as [HR' _]; by eapply inv_mgr].
  destruct Ho as (_ & l & -> & -> & Hl & Hr & Hndl & Hev & HR'). eexists. eapply inv_store; try done.
  - intros k b Hx. rewrite Forall_forall in Hr. split; [|apply Hr; by apply (list_elem_of_fmap_2' snd _ (k, b))].
    apply (list_elem_of_fmap_2' fst _ (k, b) k) in Hx; [|done]. rewrite Hl in Hx. by apply list_elem_of_filter in Hx as [? _].
  - intros k Hk. by destruct (Hev k Hk).
Qed.

Lemma off_op_ok s op : SysInv s -> op_enabled s op -> wp (off_op op) s (fun _ s' => SysInv s').
Proof.
  intros [E HI] Hen. pose proof (inv_rep _ _ _ _ _ HI) as HR. destruct op as [k|keys|keys|j|keys|j success| | |]; cbn [off_op op_enabled] in *; unfold on_mgr.
  - wp_step. apply wp_zoom. eapply wp_mono; [by apply lookup_ok|]. intros r m' [HR' _]. wp_steps. exists E. by eapply inv_mgr.
  - apply wp_zoom. eapply wp_mono; [by apply touch_ok|]. intros ? m' HR'. exists E. by eapply inv_mgr.
  - destruct Hen as [Hhit Hlen]. wp_step. apply wp_zoom. eapply wp_mono; [eapply (inv_load_all E); [exact HI| |done]|].
    + eapply Forall_impl; [exact Hhit|]. intros k Hk. simpl in Hk. pose proof (lookup_ok E s.(mgr) k HR) as Hw. unfold wp in Hw.
      destruct (Offload.lookup k s.(mgr)) as [r m']. simpl in Hk. subst r. by apply Hw.
    + intros ids m' (_ & E' & HI'). wp_steps. exists E'. eapply inv_perm; [|done|exact HI']. simpl. apply job_snoc.
  - wp_steps. unfold id. destruct (s.(loads) !! j) as [job|] eqn:Hj; [|wp_steps; by exists E]. wp_step. apply wp_zoom.
    eapply wp_mono; [eapply (inv_unload_all E s.(mem) job (mjoin (delete j s.(loads)))); eapply inv_perm; [|done|exact HI]; symmetry; by apply job_perm|].
    intros _ m' (E' & HI'). wp_steps. by exists E'.
  - wp_step. apply wp_zoom. eapply wp_mono; [by eapply prepare_store_inv|]. intros [out|] m' (E' & HI'); wp_steps; exists E'; [|done].
    eapply inv_perm; [done| |exact HI']. simpl. apply job_snoc.
  - wp_steps. unfold id. destruct (s.(stores) !! j) as [job|] eqn:Hj; [|wp_steps; by exists E]. wp_step. apply wp_zoom.
    eapply wp_mono; [eapply (complete_store_ok E s.(mem) _ job (mjoin (delete j s.(stores)))); eapply inv_perm; [done| |exact HI]; symmetry; by apply job_perm|].
    intros _ m' (E' & HI'). wp_steps. by exists E'.
  - wp_step. apply wp_zoom. eapply wp_mono; [by eapply reset_ok|]. intros ? m' HR'. wp_steps. exists ∅. by apply off_empty_inv.
  - wp_step. apply wp_zoom. unfold take_events. wp_steps. exists E. eapply inv_mgr; [exact HI|]. by apply rep_events.
  - wp_step. apply wp_zoom. unfold get_stats. wp_steps. exists E. eapply inv_mgr; [exact HI|]. by apply rep_stats.
Qed.

Lemma off_reachable_inv events threshold tracker s :
  0 <= N -> 0 < tracker -> off_reachable events threshold tracker s -> SysInv s.
Proof.
  intros HN Ht Hs. induction Hs as [|s s' op r _ IH Hen Hrun].
  - exists ∅. apply off_empty_inv. destruct (pl_new N HN). split; simpl; try done.
  - pose proof (off_op_ok s op IH Hen) as Hw. unfold wp in Hw. rewrite Hrun in Hw. by destruct r.
Qed.

(** The slots of the stores in flight are distinct and in range, and no load reads them;
    the slot of a load in flight holds the data of its key; the gauges count. *)
Record transfers_ok (s : OffSys) : Prop := {
  tr_load : forall k i, (k, i) ∈ mjoin s.(loads) -> s.(mem) !! i = Some k;
  tr_store : NoDup (mjoin s.(stores)).*2;
  tr_range : forall k i, (k, i) ∈ mjoin s.(loads) ++ mjoin s.(stores) -> 0 <= i < N;
  tr_apart : forall k i, (k, i) ∈ mjoin s.(loads) -> i ∉ (mjoin s.(stores)).*2;
  tr_pending : s.(mgr).(num_write_pending_blocks) = Z.of_nat (length (mjoin s.(stores)));
  tr_room : get_num_free_blocks s.(mgr) + Z.of_nat (size (pol_entries s.(mgr).(policy))) = N;
}.

Lemma filter_values (Q : BlockStatus -> Prop) `{forall b, Decision (Q b)} (l : list (OffloadKey * BlockStatus)) :
  filter Q l.*2 = (filter (fun x => Q x.2) l).*2.
Proof. induction l as [|[k b] l IH]; [done|]. cbn [fmap list_fmap snd]. rewrite !filter_cons. simpl. case_decide; [exact (f_equal (cons _) IH)|done]. Qed.

Lemma inv_pending E mem L W m : Inv E mem L W m -> pending E = Z.of_nat (length W).
Proof.
  intros [HR Hs HW Ho HL _]. unfold pending, values. rewrite filter_values, length_fmap. rewrite <- (length_fmap fst W).
  rewrite <- (length_fmap fst (filter _ _)). f_equal. apply Permutation_length, NoDup_Permutation; [|done|].
  - eapply sublist_NoDup; [exact (NoDup_fst_map_to_list E)|]. apply fmap_sublist, sublist_filter.
  - intros k. rewrite !list_elem_of_fmap. split.
    + intros ([k' b] & -> & [Hr Hx]%list_elem_of_filter). apply elem_of_map_to_list in Hx. simpl in *. exists (k', b.(block_id)). split; [done|].
      destruct (Hs _ _ Hx) as [[_ ?]|[Hr' _]]; [done|]. pose proof (readers_le L k'). lia.
    + intros ([k' i] & -> & Hx%HW). exists (k', mkBlockStatus (-1) i). split; [done|]. apply list_elem_of_filter. split; [done|]. by apply elem_of_map_to_list.
Qed.

Lemma inv_slots E mem L W m : Inv E mem L W m -> NoDup W.*2.
Proof.
  intros [HR Hs HW Ho HL _]. apply NoDup_fmap_2_strong; [|by eapply NoDup_fmap_1]. intros [k i] [k' i'] Hx Hy. simpl. intros <-.
  destruct (decide (k = k')) as [->|Hne]; [done|]. destruct (slots_differ _ _ _ _ _ _ HR (HW _ _ Hx) (HW _ _ Hy) Hne). done.
Qed.

Lemma rep_room E m : Rep E m -> get_num_free_blocks m + Z.of_nat (size (pol_entries m.(policy))) = N.
Proof.
  intros HR. pose proof (rep_size _ _ HR). pose proof (rep_allocated _ _ HR). pose proof (Permutation_length (rep_pool _ _ HR)) as Hl.
  rewrite length_app, length_seqZ, length_fmap in Hl. unfold values in Hl. rewrite length_fmap, length_map_to_list in Hl.
  rewrite (rep_entries _ _ HR). unfold get_num_free_blocks. lia.
Qed.

Lemma inv_transfers s : SysInv s -> transfers_ok s.
Proof.
  intros [E HI]. pose proof HI as [HR Hs HW Ho HL _].
  split; [| | | |by rewrite (rep_pending _ _ HR), (inv_pending _ _ _ _ _ HI)|by eapply rep_room].
  - intros k i Hi. destruct (HL k i Hi) as (b & Hb & <- & Hr). destruct (Hs k b Hb) as [[? _]|[_ ?]]; [lia|done].
  - by eapply inv_slots.
  - intros k i [Hi|Hi]%elem_of_app; [destruct (HL k i Hi) as (b & Hb & <- & _)|apply HW in Hi as Hb]; exact (slot_range _ _ _ _ HR Hb).
  - intros k i Hi ([k' i'] & -> & Hi')%list_elem_of_fmap. simpl in *. destruct (HL k i' Hi) as (b & Hb & Hid & Hr). apply HW in Hi'.
    destruct (decide (k = k')) as [<-|Hne]; [rewrite Hb in Hi'; injection Hi' as ->; simpl in Hr; lia|].
    by destruct (slots_differ _ _ _ _ _ _ HR Hb Hi' Hne).
Qed.
End system.
Arguments OffSys P : clear implicits.

(** ** The theorems *)

(** C13: The host cache never raises and keeps its transfers apart.  Whatever the
    replacement policy (one that keeps the laws of [PolicyLaws], as the built-in ones do)
    and whatever lookups, touches, loads, stores, completions (successful or not, in any
    order) and resets came before, an operation on the cache returns, and then: the slot
    of every load in flight still holds the data of the key that is loaded; the slots of
    the stores in flight are distinct, in range and read by no load; as many blocks as
    are being stored are counted as pending; and the free slots and the blocks held make
    up the whole cache.  Operations that come with a condition: only keys that are a hit
    are loaded, and the keys of one store are distinct. *)
Theorem transfers_safe {P} `{!PolicyOps P} `{!PolicyLaws P} N events threshold tracker (s : OffSys P) op :
  0 <= N -> 0 < tracker -> off_reachable (N := N) events threshold tracker s -> op_enabled s op ->
  exists s', off_op op s = (Ok tt, s') /\ transfers_ok (N := N) s'.
Proof.
  intros HN Ht Hs Hen. apply off_reachable_inv in Hs; [|done..]. destruct (wp_inv _ _ _ (off_op_ok s op Hs Hen)) as ([] & s' & Hrun & Hs').
  exists s'. split; [done|by apply inv_transfers].
Qed.

Lemma lru_idle_count (p : LRU) : LRUInv p -> idle p.(lru_blocks) = Z.of_nat (length p.(evictable_blocks)).
Proof.
  intros [Hnd Hid]. unfold idle, values. rewrite filter_values, length_fmap, <- (length_fmap fst). f_equal. apply Permutation_length, NoDup_Permutation; [|done|].
  - eapply sublist_NoDup; [exact (NoDup_fst_map_to_list p.(lru_blocks))|]. apply fmap_sublist, sublist_filter.
  - intros k. rewrite Hid, list_elem_of_fmap. split.
    + intros ([k' b] & -> & [Hr Hx%elem_of_map_to_list]%list_elem_of_filter). eauto.
    + intros (b & Hb & Hr). exists (k, b). split; [done|]. apply list_elem_of_filter. split; [done|]. by apply elem_of_map_to_list.
Qed.

Lemma lru_victims (p : LRU) n protected :
  LRUInv p -> 0 < n ->
  let candidates := filter (fun k => k ∉ protected) p.(evictable_blocks) in
  victims p n protected = if Z.of_nat (length candidates) <? n then None else Some (take (Z.to_nat n) candidates).
Proof.
  intros Hp Hn candidates. destruct (wp_inv _ _ _ (lru_evict_spec p n protected Hp Hn)) as (o & p' & Hrun & _ & Ho). fold candidates in Ho.
  unfold victims. simpl. rewrite Hrun. destruct o as [l|].
  - destruct Ho as (Hl & Hlen & _). rewrite (proj2 (Z.ltb_ge _ _)); [by rewrite Hl|]. pose proof (f_equal length Hl) as Hlen'. rewrite length_fmap, length_take in Hlen'. lia.
  - destruct Ho as [_ Hlt]. by rewrite (proj2 (Z.ltb_lt _ _)).
Qed.


(** ** Runs *)

#[global] Instance LookupResult_eq_dec : EqDecision LookupResult.
Proof. solve_decision. Defined.

#[global] Instance op_enabled_dec {P} `{!PolicyOps P} (s : OffSys P) op : Decision (op_enabled s op).
Proof.
  destruct op as [k|keys|keys|j|keys|j success| | |]; simpl; try apply _. apply and_dec; [|apply _]. apply Forall_dec. intros k.
  destruct (Offload.lookup k s.(mgr)).1 as [r|e]; [|by right]. destruct (decide (r = HIT)) as [->|Hr]; [by left|right; congruence].
Defined.

(** The state after [ops], when each is enabled and returns. *)
Fixpoint off_run {P} `{!PolicyOps P} (ops : list OffOp) (s : OffSys P) : option (OffSys P) :=
  match ops with
  | [] => Some s
  | op :: ops =>
      if decide (op_enabled s op) then match off_op op s with (Ok _, s') => off_run ops s' | (Raise _, _) => None end else None
  end.

Lemma off_run_reachable {P} `{!PolicyOps P} N events threshold tracker ops (s s' : OffSys P) :
  off_reachable (N := N) events threshold tracker s -> off_run ops s = Some s' -> off_reachable (N := N) events threshold tracker s'.
Proof.
  revert s. induction ops as [|op ops IH]; intros s Hs; cbn [off_run]; [by intros [= <-]|]. case_decide as Hen; [|done].
  destruct (off_op op s) as [[[]|e] s1] eqn:Hrun; [|done]. apply IH. by eapply off_next.
Qed.

Definition key_a : OffloadKey := [1].
Definition key_b : OffloadKey := [2].
Definition key_c : OffloadKey := [3].
Definition key_d : OffloadKey := [4].
Definition key_e : OffloadKey := [5].

(** Two blocks are held; a third one was evicted by the store of [key_c] and has been
    looked for again, twice. *)
Definition off_demo : list OffOp :=
  [OStore [key_a]; OStored 0 true; OStore [key_b]; OStored 0 true; OStore [key_c]; OStored 0 true; OTouch [key_a]; OTouch [key_a]].

Definition off_state {P} `{!PolicyOps P} (N threshold tracker : Z) (ops : list OffOp) : OffSys P :=
  default (new_system (N := N) true threshold tracker) (off_run ops (new_system (N := N) true threshold tracker)).

Lemma off_state_reachable {P} `{!PolicyOps P} N threshold tracker ops :
  off_reachable (N := N) true threshold tracker (off_state (P := P) N threshold tracker ops).
Proof.
  unfold off_state. destruct (off_run ops _) as [s|] eqn:Hs; simpl; [|constructor]. eapply off_run_reachable; [|exact Hs]. constructor.
Qed.

Definition arc_now : OffSys ARC := off_state 2 1 10 off_demo.
Definition lru_now : OffSys LRU := off_state 2 1 10 off_demo.

(** A load and a store in flight. *)
Definition busy_now : OffSys ARC := off_state 3 1 10 (off_demo ++ [OLoad [key_b; key_c]; OStore [key_d]]).

Lemma transfers_safe_witness :
  length busy_now.(loads) = 1%nat /\ length busy_now.(stores) = 1%nat
  /\ exists s', off_op (OLoaded 0) busy_now = (Ok tt, s') /\ transfers_ok (N := 3) s'.
Proof.
  split; [vm_compute; reflexivity|]. split; [vm_compute; reflexivity|].
  apply (transfers_safe 3 true 1 10); [lia|lia|apply off_state_reachable|exact I].
Defined.



(** [key_a] is held, and its count has left the tracker. *)
Definition tracked_now : OffSys LRU :=
  off_state 1 2 1 [OLookup key_a; OLookup key_a; OStore [key_a]; OStored 0 true; OLookup key_b; OLookup key_b].

