(* ===== verification/BlockTable.v ===== *)
(** * Block tables of the worker

    Models [BlockTable] and [MultiGroupBlockTable] ([vllm/v1/worker/block_table.py]): the
    rows of block ids the worker keeps per request of its batch, in units of the blocks
    of the attention kernel, and the kernel [_compute_slot_mapping_kernel] that gives
    every scheduled token its slot in the KV cache.

    Arrays are lists; a row index is an index of the batch, so it is not negative.  A
    buffer of numpy is written through a slice ([np_assign]): the slice is clipped to the
    row, a single value is broadcast, and any other length must match. *)

From S2P Require Import Prelude.

(** ** Numpy *)

(** [row[start:stop] = vals] for [0 <= start] *)
Definition np_assign {A : Type} (row : list A) (start stop : Z) (vals : list A) : res (list A) :=
  let w := Z.of_nat (length row) in
  let a := Z.min start w in
  let b := Z.max a (Z.min stop w) in
  let n := Z.to_nat (b - a) in
  let put vals := Ok (take (Z.to_nat a) row ++ vals ++ drop (Z.to_nat b) row) in
  if decide (length vals = n) then put vals
  else match vals with [v] => put (replicate n v) | _ => Raise ValueError end.

(** [row[:stop] = v] for [0 <= stop] *)
Definition np_fill {A : Type} (row : list A) (stop : Z) (v : A) : list A :=
  replicate (Nat.min (Z.to_nat stop) (length row)) v ++ drop (Z.to_nat stop) row.

(** [row[i]] *)
Definition np_get {A : Type} (row : list A) (i : nat) : res A :=
  match row !! i with Some v => Ok v | None => Raise IndexError end.

(** Python ints that do not fit an int32 array raise; an int64 array is cast. *)
Definition int32_of_ints (l : list Z) : res (list Z) :=
  if forallb (fun z => (- 2 ^ 31 <=? z) && (z <? 2 ^ 31)) l then Ok l else Raise OverflowError.

(** [range(start, stop, step)] for a positive step *)
Definition py_range (start stop step : Z) : list Z := (fun i => start + i * step) <$> seqZ 0 (cdiv (stop - start) step).

(** ** Width *)

Definition get_block_table_width (max_num_blocks block_size : Z) (kernel_block_size token_alignment : option Z) : res Z :=
  let kernel_block_size := default block_size kernel_block_size in
  if kernel_block_size =? 0 then Raise ZeroDivisionError else
  if negb (block_size mod kernel_block_size =? 0) then Raise ValueError else
  match token_alignment with
  | None => Ok (max_num_blocks * block_size / kernel_block_size)
  | Some a =>
      if a <=? 0 then Raise ValueError else
      let block_alignment := a / Z.gcd a block_size in
      Ok (cdiv max_num_blocks block_alignment * block_alignment * block_size / kernel_block_size)
  end.

(** ** The table of one group *)

Inductive SlotMappingMode := TOKEN_TO_KV_SLOT | NO_SLOT_MAPPING.

#[global] Instance SlotMappingMode_eq_dec : EqDecision SlotMappingMode.
Proof. solve_decision. Defined.

Record BlockTable := mkBlockTable {
  bt_max_num_reqs : nat;
  max_num_batched_tokens : nat;
  kv_cache_block_size : Z;
  bt_block_size : Z;
  blocks_per_kv_block : Z;
  use_hybrid_blocks : bool;
  max_num_blocks_per_req : Z;
  bt_np : list (list Z);
  bt_gpu : list (list Z);
  num_blocks_per_row : list Z;
  slot_mapping : list Z;                  (* on the device *)
  dcp_world_size : Z;
  dcp_rank : Z;
  cp_interleave : Z;
  bt_mode : SlotMappingMode;
}.

Definition set_rows (np : list (list Z)) (counts : list Z) (t : BlockTable) : BlockTable :=
  mkBlockTable t.(bt_max_num_reqs) t.(max_num_batched_tokens) t.(kv_cache_block_size) t.(bt_block_size) t.(blocks_per_kv_block)
    t.(use_hybrid_blocks) t.(max_num_blocks_per_req) np t.(bt_gpu) counts t.(slot_mapping) t.(dcp_world_size) t.(dcp_rank)
    t.(cp_interleave) t.(bt_mode).

Definition set_device (gpu : list (list Z)) (slots : list Z) (t : BlockTable) : BlockTable :=
  mkBlockTable t.(bt_max_num_reqs) t.(max_num_batched_tokens) t.(kv_cache_block_size) t.(bt_block_size) t.(blocks_per_kv_block)
    t.(use_hybrid_blocks) t.(max_num_blocks_per_req) t.(bt_np) gpu t.(num_blocks_per_row) slots t.(dcp_world_size) t.(dcp_rank)
    t.(cp_interleave) t.(bt_mode).

(** The groups of the process, where there are none, have one rank. *)
Definition new_block_table (block_size : Z) (max_num_reqs : nat) (max_blocks : Z) (max_tokens : nat) (kernel_block_size interleave : Z)
    (dcp : option (Z * Z)) (mode : SlotMappingMode) : res BlockTable :=
  let make bs per_kv hybrid :=
    let width := max_blocks * per_kv in
    let rows := replicate max_num_reqs (replicate (Z.to_nat width) 0) in
    mkBlockTable max_num_reqs max_tokens block_size bs per_kv hybrid width rows rows (replicate max_num_reqs 0) (replicate max_tokens 0)
      (default (1, 0) dcp).1 (default (1, 0) dcp).2 interleave mode in
  if kernel_block_size =? block_size then Ok (make block_size 1 false) else
  if kernel_block_size =? 0 then Raise ZeroDivisionError else
  if negb (block_size mod kernel_block_size =? 0) then Raise ValueError else
  Ok (make kernel_block_size (block_size / kernel_block_size) true).

Definition map_to_kernel_blocks (ids : list Z) (per_kv : Z) : list Z :=
  if per_kv =? 1 then ids else concat ((fun id => (fun j => id * per_kv + j) <$> seqZ 0 per_kv) <$> ids).

Notation tableM := (M BlockTable).

Definition set_count (row : nat) (n : Z) : tableM unit :=
  modify (fun t => set_rows t.(bt_np) (<[row := n]> t.(num_blocks_per_row)) t).

Definition set_row (row : nat) (r : list Z) : tableM unit :=
  modify (fun t => set_rows (<[row := r]> t.(bt_np)) t.(num_blocks_per_row) t).

Definition append_row (block_ids : list Z) (row : nat) : tableM unit :=
  if bool_decide (block_ids = []) then ret tt else
  t <- gets id ;;
  let ids := if t.(use_hybrid_blocks) then map_to_kernel_blocks block_ids t.(blocks_per_kv_block) else block_ids in
  let num_blocks := Z.of_nat (length ids) in
  start <- lift (np_get t.(num_blocks_per_row) row) ;;
  set_count row (start + num_blocks) ;;
  old <- lift (np_get t.(bt_np) row) ;;
  vals <- lift (if t.(use_hybrid_blocks) then Ok (int32 <$> ids) else int32_of_ints ids) ;;
  new <- lift (np_assign old start (start + num_blocks) vals) ;;
  set_row row new.

Definition add_row (block_ids : list Z) (row : nat) : tableM unit :=
  t <- gets id ;;
  lift (np_get t.(num_blocks_per_row) row) ;;
  set_count row 0 ;;
  append_row block_ids row.

Definition clear_row (row : nat) : tableM unit :=
  t <- gets id ;;
  num_blocks <- lift (np_get t.(num_blocks_per_row) row) ;;
  (if 0 <? num_blocks then old <- lift (np_get t.(bt_np) row) ;; set_row row (np_fill old num_blocks 0) else ret tt) ;;
  set_count row 0.

Definition move_row (src tgt : nat) : tableM unit :=
  t <- gets id ;;
  num_blocks <- lift (np_get t.(num_blocks_per_row) src) ;;
  from <- lift (np_get t.(bt_np) src) ;;
  to <- lift (np_get t.(bt_np) tgt) ;;
  new <- lift (np_assign to 0 num_blocks (take (Z.to_nat num_blocks) from)) ;;
  set_row tgt new ;;
  set_count tgt num_blocks ;;
  t <- gets id ;;
  from <- lift (np_get t.(bt_np) src) ;;
  set_row src (np_fill from num_blocks 0) ;;
  set_count src 0.

(** The right-hand sides are copies; the second of two equal indices is written last. *)
Definition swap_row (src tgt : nat) : tableM unit :=
  t <- gets id ;;
  ns <- lift (np_get t.(num_blocks_per_row) src) ;;
  nt <- lift (np_get t.(num_blocks_per_row) tgt) ;;
  set_count src nt ;; set_count tgt ns ;;
  rs <- lift (np_get t.(bt_np) src) ;;
  rt <- lift (np_get t.(bt_np) tgt) ;;
  set_row src rt ;; set_row tgt rs.

Definition commit_block_table (num_reqs : nat) : tableM unit :=
  modify (fun t => set_device (take num_reqs t.(bt_np) ++ drop num_reqs t.(bt_gpu)) t.(slot_mapping) t).

(** The counts stay. *)
Definition clear : tableM unit :=
  modify (fun t => set_device ((fun r => replicate (length r) 0) <$> t.(bt_gpu)) t.(slot_mapping)
                     (set_rows ((fun r => replicate (length r) 0) <$> t.(bt_np)) t.(num_blocks_per_row) t)).

(** ** The slot-mapping kernel *)

Definition PAD_SLOT_ID : Z := -1.

(** A load or store outside its buffer is an error. *)
Definition gpu_load (buf : list Z) (i : Z) : res Z := if i <? 0 then Raise IndexError else np_get buf (Z.to_nat i).

(** The masked lanes of a loop over [start .. stop) in chunks of [BLOCK_SIZE]. *)
Definition lanes (BLOCK_SIZE start stop : Z) : list Z :=
  concat ((fun i => filter (fun o => o < stop) ((fun j => i + j) <$> seqZ 0 BLOCK_SIZE)) <$> py_range start stop BLOCK_SIZE).

(** One lane: the slot of the token at [pos]. *)
Definition slot_id (t : BlockTable) (row_offset pos : Z) : res Z :=
  let virtual_block_size := t.(kv_cache_block_size) * t.(dcp_world_size) in
  let virtual_block_indices := pos / virtual_block_size in
  let virtual_block_offsets := pos - virtual_block_indices * virtual_block_size in
  let is_local := (virtual_block_offsets / t.(cp_interleave)) mod t.(dcp_world_size) =? t.(dcp_rank) in
  let local_block_offsets :=
    virtual_block_offsets / (t.(dcp_world_size) * t.(cp_interleave)) * t.(cp_interleave) + virtual_block_offsets mod t.(cp_interleave) in
  let block_indices := virtual_block_indices * t.(blocks_per_kv_block) + local_block_offsets / t.(bt_block_size) in
  if negb is_local then Ok PAD_SLOT_ID else
  let? block_number := gpu_load (concat t.(bt_gpu)) (row_offset + block_indices) in
  Ok (block_number * t.(bt_block_size) + local_block_offsets mod t.(bt_block_size)).

(** What program [req_idx] of [num_reqs + 1] stores. *)
Definition slot_program (BLOCK_SIZE : Z) (t : BlockTable) (num_reqs : Z) (query_start_loc positions : list Z) (req_idx : Z) : res (list (Z * Z)) :=
  let num_tokens := Z.of_nat (length positions) in
  if req_idx =? num_reqs then Ok ((fun o => (o, PAD_SLOT_ID)) <$> lanes BLOCK_SIZE num_tokens (Z.of_nat t.(max_num_batched_tokens))) else
  let? start_idx := gpu_load query_start_loc req_idx in
  let? end_idx := gpu_load query_start_loc (req_idx + 1) in
  rmap (fun o =>
    let? pos := gpu_load positions o in
    let? slot := slot_id t (req_idx * t.(max_num_blocks_per_req)) pos in
    Ok (o, slot)) (lanes BLOCK_SIZE start_idx end_idx).

Fixpoint gpu_store (stores : list (Z * Z)) (buf : list Z) : res (list Z) :=
  match stores with
  | [] => Ok buf
  | (o, v) :: stores =>
      let? _ := gpu_load buf o in
      gpu_store stores (<[Z.to_nat o := v]> buf)
  end.

(** The programs of the grid run in an order that the device chooses. *)
Definition compute_slot_mapping (order : list Z) (num_reqs : Z) (query_start_loc positions : list Z) : tableM unit :=
  t <- gets id ;;
  match t.(bt_mode) with
  | NO_SLOT_MAPPING => ret tt
  | TOKEN_TO_KV_SLOT =>
      stores <- lift (rmap (slot_program 1024 t num_reqs query_start_loc positions) order) ;;
      slots <- lift (gpu_store (concat stores) t.(slot_mapping)) ;;
      modify (set_device t.(bt_gpu) slots)
  end.

(** ** All groups *)

Fixpoint on_tables (op : nat -> tableM unit) (i : nat) : M (list BlockTable) unit := fun ts =>
  match ts with
  | [] => (Ok tt, [])
  | t :: ts =>
      match op i t with
      | (Raise e, t') => (Raise e, t' :: ts)
      | (Ok _, t') => let '(r, ts') := on_tables op (S i) ts in (r, t' :: ts')
      end
  end.

Definition multi_append_row (block_ids : list (list Z)) (row : nat) : M (list BlockTable) unit :=
  on_tables (fun i => ids <- lift (np_get block_ids i) ;; append_row ids row) 0.

Definition multi_add_row (block_ids : list (list Z)) (row : nat) : M (list BlockTable) unit :=
  on_tables (fun i => ids <- lift (np_get block_ids i) ;; add_row ids row) 0.

Definition multi_clear_row (row : nat) : M (list BlockTable) unit := on_tables (fun _ => clear_row row) 0.
Definition multi_move_row (src tgt : nat) : M (list BlockTable) unit := on_tables (fun _ => move_row src tgt) 0.
Definition multi_swap_row (src tgt : nat) : M (list BlockTable) unit := on_tables (fun _ => swap_row src tgt) 0.
Definition multi_commit (num_reqs : nat) : M (list BlockTable) unit := on_tables (fun _ => commit_block_table num_reqs) 0.
Definition multi_clear : M (list BlockTable) unit := on_tables (fun _ => clear) 0.

Definition multi_slot_mapping (order : list Z) (num_reqs : Z) (query_start_loc positions : list Z) : M (list BlockTable) unit :=
  on_tables (fun _ => compute_slot_mapping order num_reqs query_start_loc positions) 0.

(** The width of a table is aligned unless it has no slot mapping. *)
Definition group_width (x : Z * Z * SlotMappingMode) : res Z :=
  let '(n, block_size, mode) := x in
  get_block_table_width n block_size None (match mode with NO_SLOT_MAPPING => None | TOKEN_TO_KV_SLOT => Some 128 end).

Definition new_multi_group (max_num_reqs max_tokens : nat) (block_sizes kernel_block_sizes max_num_blocks : list Z) (interleave : Z)
    (slot_mapping_modes : option (list SlotMappingMode)) (dcp : option (Z * Z)) : res (list BlockTable) :=
  if negb (bool_decide (length kernel_block_sizes = length block_sizes)) then Raise ValueError else
  let modes := default (replicate (length block_sizes) TOKEN_TO_KV_SLOT) slot_mapping_modes in
  if negb (bool_decide (length modes = length block_sizes)) then Raise ValueError else
  if negb (bool_decide (length max_num_blocks = length block_sizes)) then Raise ValueError else
  let? widths := rmap group_width (zip (zip max_num_blocks block_sizes) modes) in
  rmap (fun g : Z * Z * Z * SlotMappingMode =>
    let '(block_size, kernel_block_size, width, mode) := g in
    new_block_table block_size max_num_reqs width max_tokens kernel_block_size interleave dcp mode)
    (zip (zip (zip block_sizes kernel_block_sizes) widths) modes).
