(* ===== verification/BlockTableProps.v ===== *)
(** * Block tables: rows and slots

    The rows of a block table refine one list of block ids per request, and the slot
    mapping computed from them is exact: a token goes to its offset in its own block, on
    exactly one rank, and no two tokens share a slot. *)

From S2P Require Import Prelude BlockTable.

(** ** Slices *)

Lemma np_assign_exact {A} (row vals : list A) start :
  (start + length vals <= length row)%nat ->
  np_assign row (Z.of_nat start) (Z.of_nat start + Z.of_nat (length vals)) vals
    = Ok (take start row ++ vals ++ drop (start + length vals) row).
Proof.
  intros Hl. unfold np_assign. rewrite decide_True by lia. repeat f_equal; lia.
Qed.

Lemma np_fill_length {A} (row : list A) n v : length (np_fill row n v) = length row.
Proof. unfold np_fill. rewrite length_app, length_replicate, length_drop. lia. Qed.

Lemma np_get_ok {A} (l : list A) i v : l !! i = Some v -> np_get l i = Ok v.
Proof. unfold np_get. by intros ->. Qed.

(** ** Kernel blocks *)

Lemma kernel_blocks_1 ids : map_to_kernel_blocks ids 1 = ids.
Proof. done. Qed.

Lemma kernel_blocks_app ids ids' n : map_to_kernel_blocks (ids ++ ids') n = map_to_kernel_blocks ids n ++ map_to_kernel_blocks ids' n.
Proof. unfold map_to_kernel_blocks. case_match; [done|]. by rewrite fmap_app, concat_app. Qed.

Lemma kernel_rows ids n :
  Forall (fun row : list Z => length row = Z.to_nat n) ((fun id => (fun j => id * n + j) <$> seqZ 0 n) <$> ids).
Proof. apply Forall_fmap, Forall_true. intros id. simpl. by rewrite length_fmap, length_seqZ. Qed.

Lemma kernel_blocks_length ids n : 1 <= n -> Z.of_nat (length (map_to_kernel_blocks ids n)) = Z.of_nat (length ids) * n.
Proof.
  intros Hn. unfold map_to_kernel_blocks. destruct (Z.eqb_spec n 1) as [->|H1]; [lia|].
  rewrite (concat_length _ (Z.to_nat n)) by apply kernel_rows. rewrite length_fmap. lia.
Qed.

(** Kernel block [j] of the [i]-th block. *)
Lemma kernel_blocks_lookup ids n i j id :
  1 <= n -> ids !! i = Some id -> 0 <= j < n -> map_to_kernel_blocks ids n !! Z.to_nat (Z.of_nat i * n + j) = Some (id * n + j).
Proof.
  intros Hn Hi Hj. unfold map_to_kernel_blocks. destruct (Z.eqb_spec n 1) as [->|H1].
  - replace (Z.to_nat _) with i by lia. rewrite Hi. f_equal. lia.
  - replace (Z.to_nat _) with (i * Z.to_nat n + Z.to_nat j)%nat by nia.
    rewrite (concat_lookup _ (Z.to_nat n) i _ ((fun j => id * n + j) <$> seqZ 0 n)); [|apply kernel_rows|by rewrite list_lookup_fmap, Hi|lia].
    rewrite list_lookup_fmap, lookup_seqZ_lt by lia. simpl. f_equal. lia.
Qed.

(** ** Rows *)

(** A block id whose kernel blocks are 32-bit. *)
Definition id_ok (t : BlockTable) (i : Z) : Prop := 0 <= i /\ (i + 1) * t.(blocks_per_kv_block) <= 2 ^ 31.

Definition kids (t : BlockTable) (ids : list Z) : list Z := map_to_kernel_blocks ids t.(blocks_per_kv_block).

Lemma kids_app t ids ids' : kids t (ids ++ ids') = kids t ids ++ kids t ids'.
Proof. apply kernel_blocks_app. Qed.

(** The sizes fit together. *)
Record Shape (t : BlockTable) : Prop := {
  sh_block : 0 < t.(bt_block_size);
  sh_split : 1 <= t.(blocks_per_kv_block);
  sh_kv : t.(kv_cache_block_size) = t.(blocks_per_kv_block) * t.(bt_block_size);
  sh_plain : t.(use_hybrid_blocks) = false -> t.(blocks_per_kv_block) = 1;
  sh_width : 0 <= t.(max_num_blocks_per_req);
  sh_np : length t.(bt_np) = t.(bt_max_num_reqs);
  sh_gpu : length t.(bt_gpu) = t.(bt_max_num_reqs);
  sh_counts : length t.(num_blocks_per_row) = t.(bt_max_num_reqs);
  sh_np_rows : Forall (fun r : list Z => length r = Z.to_nat t.(max_num_blocks_per_req)) t.(bt_np);
  sh_gpu_rows : Forall (fun r : list Z => length r = Z.to_nat t.(max_num_blocks_per_req)) t.(bt_gpu);
  sh_slots : length t.(slot_mapping) = t.(max_num_batched_tokens);
}.

(** Row [r] holds the blocks [ids]. *)
Definition holds (t : BlockTable) (r : nat) (ids : list Z) : Prop :=
  Forall (id_ok t) ids /\ t.(num_blocks_per_row) !! r = Some (Z.of_nat (length (kids t ids)))
  /\ exists tail, t.(bt_np) !! r = Some (kids t ids ++ tail).

Record Rows (rows : list (list Z)) (t : BlockTable) : Prop := {
  rows_shape : Shape t;
  rows_length : length rows = t.(bt_max_num_reqs);
  rows_hold : forall r ids, rows !! r = Some ids -> holds t r ids;
}.

(** The sizes of a table. *)
Definition same_config (t t' : BlockTable) : Prop :=
  t'.(bt_max_num_reqs) = t.(bt_max_num_reqs) /\ t'.(max_num_batched_tokens) = t.(max_num_batched_tokens)
  /\ t'.(kv_cache_block_size) = t.(kv_cache_block_size) /\ t'.(bt_block_size) = t.(bt_block_size)
  /\ t'.(blocks_per_kv_block) = t.(blocks_per_kv_block) /\ t'.(use_hybrid_blocks) = t.(use_hybrid_blocks)
  /\ t'.(max_num_blocks_per_req) = t.(max_num_blocks_per_req) /\ t'.(dcp_world_size) = t.(dcp_world_size)
  /\ t'.(dcp_rank) = t.(dcp_rank) /\ t'.(cp_interleave) = t.(cp_interleave) /\ t'.(bt_mode) = t.(bt_mode).

Lemma id_ok_int32 t ids : 1 <= t.(blocks_per_kv_block) -> Forall (id_ok t) ids -> Forall (fun z => 0 <= z < 2 ^ 31) (kids t ids).
Proof.
  intros Hn Hids. unfold kids, map_to_kernel_blocks. case_match eqn:E.
  - apply Z.eqb_eq in E. eapply Forall_impl; [exact Hids|]. intros i [H1 H2]. rewrite E in H2. lia.
  - apply Forall_concat, Forall_fmap. eapply Forall_impl; [exact Hids|]. intros i [H1 H2]. simpl. apply Forall_fmap, Forall_forall.
    intros j Hj%elem_of_seqZ. simpl. nia.
Qed.

Lemma int32_ids t ids : Shape t -> Forall (id_ok t) ids ->
  (if t.(use_hybrid_blocks) then Ok (int32 <$> kids t ids) else int32_of_ints (kids t ids)) = Ok (kids t ids).
Proof.
  intros Hs Hids. pose proof (id_ok_int32 t ids (sh_split _ Hs) Hids) as Hr. destruct t.(use_hybrid_blocks).
  - f_equal. rewrite <- (list_fmap_id (kids t ids)) at 2. apply list_fmap_ext. intros i x Hx. simpl. apply int32_small.
    rewrite Forall_lookup in Hr. specialize (Hr _ _ Hx). simpl in Hr. lia.
  - unfold int32_of_ints. rewrite (proj2 (forallb_forall _ _)); [done|]. intros z Hz%list_elem_of_In. rewrite Forall_forall in Hr. specialize (Hr z Hz). simpl in Hr.
    apply andb_true_iff. split; [apply Z.leb_le|apply Z.ltb_lt]; lia.
Qed.

(** A row that is written, its width kept, and its new count. *)
Lemma shape_set t np counts :
  Shape t -> length np = length t.(bt_np) -> Forall (fun r : list Z => length r = Z.to_nat t.(max_num_blocks_per_req)) np ->
  length counts = length t.(num_blocks_per_row) -> Shape (set_rows np counts t).
Proof. intros [] H1 H2 H3. split; simpl; try done; congruence. Qed.

Lemma forall_insert {A} (Q : A -> Prop) (l : list A) i x : Forall Q l -> Q x -> Forall Q (<[i := x]> l).
Proof. intros Hl Hx. by apply Forall_insert. Qed.

(** Writing the rows [ws] (index, row, count, blocks held), one after the other. *)
Lemma rows_write rows t r ids row :
  Rows rows t -> (r < length rows)%nat -> Forall (id_ok t) ids -> length row = Z.to_nat t.(max_num_blocks_per_req) ->
  (exists tail, row = kids t ids ++ tail) ->
  Rows (<[r := ids]> rows) (set_rows (<[r := row]> t.(bt_np)) (<[r := Z.of_nat (length (kids t ids))]> t.(num_blocks_per_row)) t).
Proof.
  intros [Hs Hl Hh] Hr Hids Hrow [tail Ht]. split.
  - apply shape_set; [done|by rewrite length_insert| |by rewrite length_insert]. apply forall_insert; [apply Hs|done].
  - by rewrite length_insert.
  - intros r' ids' Hr'. unfold holds. simpl. destruct (decide (r' = r)) as [->|Hne].
    + rewrite list_lookup_insert_eq in Hr' by done. injection Hr' as <-. split_and!; [done| |].
      * apply list_lookup_insert_eq. rewrite (sh_counts _ Hs). lia.
      * exists tail. rewrite list_lookup_insert_eq by (rewrite (sh_np _ Hs); lia). by rewrite Ht.
    + rewrite list_lookup_insert_ne in Hr' by done. destruct (Hh r' ids' Hr') as (H1 & H2 & H3). by rewrite !list_lookup_insert_ne.
Qed.

Lemma rows_row rows t r ids :
  Rows rows t -> rows !! r = Some ids ->
  exists tail, t.(bt_np) !! r = Some (kids t ids ++ tail) /\ t.(num_blocks_per_row) !! r = Some (Z.of_nat (length (kids t ids)))
    /\ Z.of_nat (length (kids t ids ++ tail)) = t.(max_num_blocks_per_req) /\ Forall (id_ok t) ids.
Proof.
  intros [Hs _ Hh] Hr. destruct (Hh r ids Hr) as (Hi & Hc & tail & Hn). exists tail. split_and!; try done.
  pose proof (sh_np_rows _ Hs) as Hw. rewrite Forall_lookup in Hw. rewrite (Hw _ _ Hn). pose proof (sh_width _ Hs). lia.
Qed.

(** Writing twice to the same row and the same count. *)
Lemma set_rows_twice np counts np' counts' t : set_rows np counts (set_rows np' counts' t) = set_rows np counts t.
Proof. done. Qed.

(** The blocks fit into a row. *)
Definition fits (t : BlockTable) (ids : list Z) : Prop := Z.of_nat (length ids) * t.(blocks_per_kv_block) <= t.(max_num_blocks_per_req).

Lemma append_row_ok rows t r old ids :
  Rows rows t -> rows !! r = Some old -> Forall (id_ok t) ids -> fits t (old ++ ids) ->
  wp (append_row ids r) t (fun _ t' => Rows (<[r := old ++ ids]> rows) t' /\ same_config t t').
Proof.
  intros HR Hr Hids Hfit. unfold append_row. case_bool_decide as Hnil.
  { subst. rewrite app_nil_r, list_insert_id by done. by wp_steps. }
  wp_steps. unfold id. destruct (rows_row _ _ _ _ HR Hr) as (tail & Hnp & Hc & Hw & Hold). pose proof (rows_shape _ _ HR) as Hs.
  assert (Ek : (if t.(use_hybrid_blocks) then map_to_kernel_blocks ids t.(blocks_per_kv_block) else ids) = kids t ids).
  { destruct t.(use_hybrid_blocks) eqn:Eh; [done|]. unfold kids. by rewrite (sh_plain _ Hs Eh). }
  rewrite Ek. eapply wp_lift_ok; [by apply np_get_ok|]. unfold set_count, set_row. wp_step. wp_step. wp_step. eapply wp_lift_ok; [by apply np_get_ok|].
  wp_step. eapply wp_lift_ok; [by apply int32_ids|]. pose proof (sh_split _ Hs) as Hsp.
  unfold fits in Hfit. rewrite length_app in Hfit. unfold kids in Hw. rewrite length_app in Hw.
  pose proof (kernel_blocks_length ids _ Hsp) as Hl1. pose proof (kernel_blocks_length old _ Hsp) as Hl2.
  wp_step. eapply wp_lift_ok; [apply np_assign_exact; unfold kids; rewrite length_app; lia|]. wp_steps. split; [|done].
  simpl. rewrite set_rows_twice. replace (_ + _)%Z with (Z.of_nat (length (kids t (old ++ ids)))) by (rewrite kids_app, length_app; lia).
  rewrite take_app_length. eapply rows_write; [done|by eapply lookup_lt_Some|by apply Forall_app| |].
  - unfold kids. rewrite length_app, length_app, length_drop, length_app. lia.
  - eexists. by rewrite kids_app, <- app_assoc.
Qed.

Lemma rows_empty rows t r ids row :
  Rows rows t -> rows !! r = Some ids -> length row = Z.to_nat t.(max_num_blocks_per_req) ->
  Rows (<[r := []]> rows) (set_rows (<[r := row]> t.(bt_np)) (<[r := 0]> t.(num_blocks_per_row)) t).
Proof.
  intros HR Hr Hrow. assert (E : kids t [] = []) by (unfold kids, map_to_kernel_blocks; by case_match).
  pose proof (rows_write rows t r [] row HR ltac:(by eapply lookup_lt_Some) ltac:(by apply Forall_nil) Hrow) as Hw. rewrite E in Hw.
  apply Hw. by exists row.
Qed.

Lemma add_row_ok rows t r old ids :
  Rows rows t -> rows !! r = Some old -> Forall (id_ok t) ids -> fits t ids ->
  wp (add_row ids r) t (fun _ t' => Rows (<[r := ids]> rows) t' /\ same_config t t').
Proof.
  intros HR Hr Hids Hfit. unfold add_row. wp_steps. unfold id. destruct (rows_row _ _ _ _ HR Hr) as (tail & Hnp & Hc & Hw & _).
  eapply wp_lift_ok; [by apply np_get_ok|]. unfold set_count. wp_steps. rewrite <- (list_insert_id t.(bt_np) r _ Hnp) at 1.
  eapply wp_mono; [eapply (append_row_ok (<[r := []]> rows) _ r []); [eapply rows_empty; [done|done|lia]| |done|done]|].
  - apply list_lookup_insert_eq. by eapply lookup_lt_Some.
  - intros ? t' [HR' Hc']. simpl app in HR'. by rewrite list_insert_insert_eq in HR'.
Qed.

Lemma clear_row_ok rows t r old :
  Rows rows t -> rows !! r = Some old -> wp (clear_row r) t (fun _ t' => Rows (<[r := []]> rows) t' /\ same_config t t').
Proof.
  intros HR Hr. unfold clear_row. wp_steps. unfold id. destruct (rows_row _ _ _ _ HR Hr) as (tail & Hnp & Hc & Hw & _).
  eapply wp_lift_ok; [by apply np_get_ok|]. unfold set_count, set_row. wp_step. destruct (Z.ltb_spec 0 (Z.of_nat (length (kids t old)))).
  - wp_steps. eapply wp_lift_ok; [by apply np_get_ok|]. wp_steps. simpl. split; [|done]. rewrite set_rows_twice.
    eapply rows_empty; [done|done|]. rewrite np_fill_length. lia.
  - wp_steps. split; [|done]. rewrite <- (list_insert_id t.(bt_np) r _ Hnp) at 1. eapply rows_empty; [done|done|lia].
Qed.

Lemma move_row_ok rows t src tgt ids old :
  Rows rows t -> rows !! src = Some ids -> rows !! tgt = Some old ->
  wp (move_row src tgt) t (fun _ t' => Rows (<[src := []]> (<[tgt := ids]> rows)) t' /\ same_config t t').
Proof.
  intros HR Hs Ht. unfold move_row. wp_steps. unfold id. destruct (rows_row _ _ _ _ HR Hs) as (tail & Hnp & Hc & Hw & Hids).
  destruct (rows_row _ _ _ _ HR Ht) as (tail' & Hnp' & Hc' & Hw' & _). eapply wp_lift_ok; [by apply np_get_ok|]. wp_steps.
  eapply wp_lift_ok; [by apply np_get_ok|]. wp_steps. eapply wp_lift_ok; [by apply np_get_ok|]. wp_steps.
  rewrite Nat2Z.id, take_app_length. rewrite length_app in Hw, Hw'.
  eapply wp_lift_ok; [rewrite <- (Z.add_0_l (Z.of_nat (length (kids t ids)))); apply (np_assign_exact _ _ 0); rewrite length_app; lia|].
  rewrite take_0, Nat.add_0_l, app_nil_l. unfold set_row, set_count. wp_step. wp_step. wp_step. wp_step. wp_step. wp_step. simpl. unfold id.
  rewrite set_rows_twice. assert (HR1 := rows_write rows t tgt ids (kids t ids ++ drop (length (kids t ids)) (kids t old ++ tail')) HR
    ltac:(by eapply lookup_lt_Some) Hids ltac:(rewrite length_app, length_drop, length_app; lia) ltac:(by eexists)).
  set (t1 := set_rows _ _ t) in *. assert (Hs1 : exists ids1, <[tgt := ids]> rows !! src = Some ids1).
  { destruct (decide (src = tgt)) as [->|]; [rewrite list_lookup_insert_eq by (by eapply lookup_lt_Some); eauto|rewrite list_lookup_insert_ne; eauto]. }
  destruct Hs1 as [ids1 Hs1]. destruct (rows_row _ _ _ _ HR1 Hs1) as (tail1 & Hnp1 & _ & Hw1 & _). wp_step.
  eapply wp_lift_ok; [by apply np_get_ok|]. wp_steps. split; [|done]. simpl. rewrite set_rows_twice.
  apply (rows_empty _ t1 src ids1); [done|done|]. rewrite np_fill_length. lia.
Qed.

Lemma swap_row_ok rows t src tgt ids ids' :
  Rows rows t -> rows !! src = Some ids -> rows !! tgt = Some ids' ->
  wp (swap_row src tgt) t (fun _ t' => Rows (<[tgt := ids]> (<[src := ids']> rows)) t' /\ same_config t t').
Proof.
  intros HR Hs Ht. unfold swap_row. wp_steps. unfold id. destruct (rows_row _ _ _ _ HR Hs) as (tail & Hnp & Hc & Hw & Hids).
  destruct (rows_row _ _ _ _ HR Ht) as (tail' & Hnp' & Hc' & Hw' & Hids'). eapply wp_lift_ok; [by apply np_get_ok|]. wp_steps.
  eapply wp_lift_ok; [by apply np_get_ok|]. unfold set_row, set_count. wp_step. wp_step. wp_step. wp_step. wp_step.
  eapply wp_lift_ok; [by apply np_get_ok|]. wp_step. eapply wp_lift_ok; [by apply np_get_ok|]. wp_steps. simpl. rewrite !set_rows_twice. split; [|done].
  assert (HR1 := rows_write rows t src ids' (kids t ids' ++ tail') HR ltac:(by eapply lookup_lt_Some) Hids' ltac:(lia) ltac:(by eexists)).
  apply (rows_write _ _ tgt ids (kids t ids ++ tail)) in HR1; [done|rewrite length_insert; by eapply lookup_lt_Some|done|simpl; lia|by eexists].
Qed.

Lemma commit_ok rows t n :
  Rows rows t -> wp (commit_block_table n) t (fun _ t' => Rows rows t' /\ same_config t t'
    /\ t' = set_device t'.(bt_gpu) t.(slot_mapping) t /\ forall r, (r < n)%nat -> t'.(bt_gpu) !! r = t.(bt_np) !! r).
Proof.
  intros [Hs Hl Hh]. unfold commit_block_table. wp_steps. split_and!; [|done|done|].
  - split; [|done|done]. destruct Hs. split; simpl; try done.
    + rewrite length_app, length_take, length_drop. lia.
    + apply Forall_app. split; [by apply Forall_take|by apply Forall_drop].
  - intros r Hr. simpl. pose proof (sh_np _ Hs). pose proof (sh_gpu _ Hs). destruct (decide (r < length t.(bt_np))%nat) as [Hlt|Hge].
    + rewrite lookup_app_l by (rewrite length_take; lia). by apply lookup_take_lt.
    + rewrite lookup_app_r by (rewrite length_take; lia). rewrite (lookup_ge_None_2 t.(bt_np)) by lia.
      apply lookup_ge_None_2. rewrite length_take, length_drop. lia.
Qed.

(** ** Lanes *)

Lemma filter_seqZ_lt a len stop : filter (fun o => o < stop) (seqZ a len) = seqZ a (Z.min len (stop - a)).
Proof.
  destruct (Z.le_gt_cases len (stop - a)) as [Hle|Hlt].
  - rewrite Z.min_l by done. apply filter_id. intros x Hx%elem_of_seqZ. lia.
  - rewrite Z.min_r by lia. destruct (Z.le_gt_cases (stop - a) 0) as [Hs|Hs].
    + rewrite (seqZ_nil _ (stop - a)) by lia. apply filter_none. intros x Hx%elem_of_seqZ. lia.
    + replace len with ((stop - a) + (len - (stop - a))) by lia. rewrite seqZ_app, filter_app by lia.
      rewrite filter_id by (intros x Hx%elem_of_seqZ; lia). rewrite filter_none by (intros x Hx%elem_of_seqZ; lia). apply app_nil_r.
Qed.

Lemma lanes_range B start stop : 0 < B -> lanes B start stop = seqZ start (stop - start).
Proof.
  intros HB. unfold lanes, py_range. rewrite <- list_fmap_compose. set (f := _ ∘ _).
  assert (Hf : forall i, f i = seqZ (start + i * B) (Z.min B (stop - (start + i * B)))).
  { intros i. unfold f. simpl. rewrite fmap_add_seqZ, Z.add_0_r. apply filter_seqZ_lt. }
  destruct (Z.le_gt_cases (stop - start) 0) as [Hn|Hn].
  { rewrite !seqZ_nil; [done|lia|]. pose proof (cdiv_spec (stop - start) B HB). nia. }
  assert (Hc : forall c : nat, concat (f <$> seqZ 0 (Z.of_nat c)) = seqZ start (Z.min (Z.of_nat c * B) (stop - start))).
  { induction c as [|c IH]; [rewrite !seqZ_nil by lia; done|].
    rewrite Nat2Z.inj_succ, <- Z.add_1_r, seqZ_app, fmap_app, concat_app, IH by lia.
    change (seqZ (0 + Z.of_nat c) 1) with [0 + Z.of_nat c]. rewrite Z.add_0_l. simpl. rewrite app_nil_r, Hf.
    destruct (Z.le_gt_cases (Z.of_nat c * B) (stop - start)) as [Hle|Hgt].
    - rewrite (Z.min_l (Z.of_nat c * B)) by lia. replace (Z.min ((Z.of_nat c + 1) * B) (stop - start)) with (Z.of_nat c * B + Z.min B (stop - (start + Z.of_nat c * B))) by lia.
      by rewrite seqZ_app by lia.
    - rewrite (seqZ_nil (start + _)) by lia. rewrite app_nil_r. f_equal. lia. }
  pose proof (cdiv_spec (stop - start) B HB). assert (0 <= cdiv (stop - start) B) by nia.
  rewrite <- (Z2Nat.id (cdiv (stop - start) B)) by done. rewrite Hc, Z2Nat.id by done. f_equal. nia.
Qed.

(** ** Slots *)

(** The ranks of a context-parallel group share the tokens of a virtual block in turns of
    [cp_interleave]. *)
Record Ranks (t : BlockTable) : Prop := {
  rk_world : 0 < t.(dcp_world_size);
  rk_turn : 0 < t.(cp_interleave);
  rk_divides : (t.(cp_interleave) | t.(kv_cache_block_size));
}.

Definition virtual_size (t : BlockTable) : Z := t.(kv_cache_block_size) * t.(dcp_world_size).

(** The rank that stores offset [v] of a virtual block, and where in its block. *)
Definition owner (t : BlockTable) (v : Z) : Z := (v / t.(cp_interleave)) mod t.(dcp_world_size).

Definition local_offset (t : BlockTable) (v : Z) : Z :=
  v / (t.(dcp_world_size) * t.(cp_interleave)) * t.(cp_interleave) + v mod t.(cp_interleave).

(** The slot of position [pos] of a request with the blocks [ids]. *)
Definition slot_spec (t : BlockTable) (ids : list Z) (pos : Z) : Z :=
  if owner t (pos mod virtual_size t) =? t.(dcp_rank) then
    default 0 (ids !! Z.to_nat (pos / virtual_size t)) * t.(kv_cache_block_size) + local_offset t (pos mod virtual_size t)
  else PAD_SLOT_ID.

Lemma local_offset_range t v :
  Ranks t -> 0 <= v < virtual_size t -> 0 <= local_offset t v < t.(kv_cache_block_size).
Proof.
  intros [Hw Ht [q Hq]] Hv. unfold virtual_size in Hv. unfold local_offset. rewrite Hq in *. set (w := t.(dcp_world_size)) in *. set (c := t.(cp_interleave)) in *.
  pose proof (Z.mod_pos_bound v c Ht). assert (0 <= v / (w * c)) by (apply Z.div_pos; nia).
  assert (v / (w * c) < q) by (apply Z.div_lt_upper_bound; nia). nia.
Qed.

(** Two offsets of the same rank are at different places. *)
Lemma local_offset_inj t v v' :
  Ranks t -> owner t v = owner t v' -> local_offset t v = local_offset t v' -> v = v'.
Proof.
  intros [Hw Ht _]. unfold owner, local_offset. set (w := t.(dcp_world_size)) in *. set (c := t.(cp_interleave)) in *. intros Ho Hl.
  rewrite !(Z.mul_comm w c), <- !Z.div_div in Hl by lia.
  assert (Hd : v / c / w = v' / c / w /\ v mod c = v' mod c).
  { apply (Z.div_mod_unique c); [left; by apply Z.mod_pos_bound|left; by apply Z.mod_pos_bound|lia]. }
  destruct Hd as [Hd Hm]. rewrite (Z.div_mod v c), (Z.div_mod v' c) by lia. rewrite Hm.
  rewrite (Z.div_mod (v / c) w), (Z.div_mod (v' / c) w) by lia. by rewrite Hd, Ho.
Qed.

(** A device row that starts with the kernel blocks of [ids]. *)
Lemma slot_id_ok t r ids tail pos :
  Shape t -> Ranks t -> t.(bt_gpu) !! r = Some (kids t ids ++ tail) -> 0 <= pos < Z.of_nat (length ids) * virtual_size t ->
  slot_id t (Z.of_nat r * t.(max_num_blocks_per_req)) pos = Ok (slot_spec t ids pos).
Proof.
  intros Hs Hk Hr Hpos. pose proof Hk as [Hw Ht _]. pose proof (sh_split _ Hs) as Hsp. pose proof (sh_block _ Hs) as Hb. pose proof (sh_kv _ Hs) as Hkv.
  assert (HV : 0 < virtual_size t) by (unfold virtual_size; nia). unfold slot_id, slot_spec. fold (virtual_size t).
  replace (pos - pos / virtual_size t * virtual_size t) with (pos mod virtual_size t) by (rewrite Z.mod_eq by lia; lia).
  set (v := pos mod virtual_size t). assert (Hv : 0 <= v < virtual_size t) by (by apply Z.mod_pos_bound).
  fold (owner t v) (local_offset t v). destruct (owner t v =? t.(dcp_rank)); simpl negb; cbv iota; [|done].
  pose proof (local_offset_range t v Hk Hv) as Hlo. set (lo := local_offset t v) in *. set (i := pos / virtual_size t).
  assert (Hi : 0 <= i < Z.of_nat (length ids)) by (split; [apply Z.div_pos; lia|apply Z.div_lt_upper_bound; lia]).
  destruct (lookup_lt_is_Some_2 ids (Z.to_nat i)) as [id Hid]; [lia|]. rewrite Hid. simpl default.
  set (j := lo / t.(bt_block_size)). assert (Hj : 0 <= j < t.(blocks_per_kv_block)) by (split; [apply Z.div_pos; lia|apply Z.div_lt_upper_bound; lia]).
  assert (Hload : gpu_load (concat t.(bt_gpu)) (Z.of_nat r * t.(max_num_blocks_per_req) + (i * t.(blocks_per_kv_block) + j)) = Ok (id * t.(blocks_per_kv_block) + j)).
  { pose proof (sh_width _ Hs) as Hwd. pose proof (kernel_blocks_lookup ids _ (Z.to_nat i) j id Hsp Hid Hj) as Hx. rewrite Z2Nat.id in Hx by lia.
    pose proof (sh_gpu_rows _ Hs) as Hg. assert (Hlen := Hg). rewrite Forall_lookup in Hlen. specialize (Hlen _ _ Hr). rewrite length_app in Hlen.
    pose proof (lookup_lt_Some _ _ _ Hx) as Hlt. fold (kids t ids) in Hlt, Hx. unfold gpu_load. rewrite (proj2 (Z.ltb_ge _ _)) by nia. apply np_get_ok.
    replace (Z.to_nat _) with (r * Z.to_nat t.(max_num_blocks_per_req) + Z.to_nat (i * t.(blocks_per_kv_block) + j))%nat by nia.
    rewrite (concat_lookup _ _ r _ _ Hg Hr) by lia. by rewrite lookup_app_l by lia. }
  rewrite Hload. simpl. f_equal. rewrite Hkv. unfold j. pose proof (Z.div_mod lo t.(bt_block_size)). lia.
Qed.

(** ** The launch *)

(** Stores that agree with one another. *)
Lemma gpu_store_ok stores buf :
  (forall o v, (o, v) ∈ stores -> 0 <= o < Z.of_nat (length buf)) ->
  (forall o v v', (o, v) ∈ stores -> (o, v') ∈ stores -> v = v') ->
  exists buf', gpu_store stores buf = Ok buf' /\ length buf' = length buf
    /\ (forall o v, (o, v) ∈ stores -> buf' !! Z.to_nat o = Some v)
    /\ forall i, (forall v, (Z.of_nat i, v) ∉ stores) -> buf' !! i = buf !! i.
Proof.
  revert buf. induction stores as [|[o v] stores IH]; intros buf Hr Hc; cbn [gpu_store].
  { exists buf. split_and!; [done|done|by intros o v ?%elem_of_nil|done]. }
  assert (Ho : 0 <= o < Z.of_nat (length buf)) by (apply (Hr o v); by left). destruct (lookup_lt_is_Some_2 buf (Z.to_nat o)) as [x Hx]; [lia|].
  unfold gpu_load. rewrite (proj2 (Z.ltb_ge _ _)) by lia. rewrite (np_get_ok _ _ _ Hx). cbn [rbind].
  destruct (IH (<[Z.to_nat o := v]> buf)) as (buf' & Hrun & Hlen & Hin & Hout).
  - intros o' v' Ho'. rewrite length_insert. apply (Hr o' v'). by right.
  - intros o' v1 v2 H1 H2. apply (Hc o'); by right.
  - exists buf'. rewrite length_insert in Hlen. split_and!; [done|done| |].
    + intros o' v' [[= -> ->]|Ho']%elem_of_cons; [|by apply Hin].
      destruct (decide (o ∈ stores.*1)) as [([? v'] & -> & Hv')%list_elem_of_fmap|Hno].
      * simpl in *. rewrite (Hin _ _ Hv'). f_equal. eapply Hc; [by right|by left].
      * rewrite Hout; [apply list_lookup_insert_eq; lia|]. intros v' Hv'. rewrite Z2Nat.id in Hv' by lia.
        apply Hno. by apply (list_elem_of_fmap_2' fst _ (o, v')).
    + intros i Hi. rewrite Hout; [|intros v' Hv'; apply (Hi v'); by right].
      apply list_lookup_insert_ne. intros <-. apply (Hi v). rewrite Z2Nat.id by lia. by left.
Qed.

(** A batch of [n] requests: the tokens of request [r] are those from [query_start_loc[r]]
    on, and their positions are within its blocks. *)
Record Batch (t : BlockTable) (rows : list (list Z)) (n : nat) (query_start_loc positions : list Z) : Prop := {
  ba_reqs : (n <= t.(bt_max_num_reqs))%nat;
  ba_tokens : (length positions <= t.(max_num_batched_tokens))%nat;
  ba_length : length query_start_loc = S n;
  ba_sorted : forall i j a b, (i <= j)%nat -> query_start_loc !! i = Some a -> query_start_loc !! j = Some b -> a <= b;
  ba_range : forall i a, query_start_loc !! i = Some a -> 0 <= a <= Z.of_nat (length positions);
  ba_positions : forall r a b o ids pos, query_start_loc !! r = Some a -> query_start_loc !! S r = Some b ->
    a <= o < b -> rows !! r = Some ids -> positions !! Z.to_nat o = Some pos -> 0 <= pos < Z.of_nat (length ids) * virtual_size t;
}.

Section launch.
Context (t : BlockTable) (rows : list (list Z)) (n : nat) (query_start_loc positions : list Z).

(** What program [x] stores: the padding, or the slots of a request. *)
Definition stored (x o v : Z) : Prop :=
  (x = Z.of_nat n /\ Z.of_nat (length positions) <= o < Z.of_nat t.(max_num_batched_tokens) /\ v = PAD_SLOT_ID)
  \/ exists r a b ids pos, x = Z.of_nat r /\ (r < n)%nat /\ query_start_loc !! r = Some a /\ query_start_loc !! S r = Some b /\ a <= o < b
       /\ rows !! r = Some ids /\ positions !! Z.to_nat o = Some pos /\ v = slot_spec t ids pos.

Hypothesis Hshape : Shape t.
Hypothesis Hranks : Ranks t.
Hypothesis Hbatch : Batch t rows n query_start_loc positions.
Hypothesis Hrows : length rows = t.(bt_max_num_reqs).
Hypothesis Hgpu : forall r ids, (r < n)%nat -> rows !! r = Some ids -> exists tail, t.(bt_gpu) !! r = Some (kids t ids ++ tail).

Lemma slot_program_ok x :
  0 <= x <= Z.of_nat n ->
  exists stores, slot_program 1024 t (Z.of_nat n) query_start_loc positions x = Ok stores /\ forall o v, (o, v) ∈ stores <-> stored x o v.
Proof.
  intros Hx. pose proof Hbatch as [Hn Hlen Hq Hsort Hrange Hpos]. unfold slot_program. destruct (Z.eqb_spec x (Z.of_nat n)) as [->|Hne].
  { eexists. split; [done|]. intros o v. rewrite lanes_range by lia. rewrite list_elem_of_fmap. split.
    - intros (o' & [= -> ->] & Ho%elem_of_seqZ). left. split_and!; [done|lia|lia|done].
    - intros [(_ & Ho & ->)|(r & a & b & ids & pos & E & Hr & _)]; [|lia]. exists o. split; [done|]. apply elem_of_seqZ. lia. }
  destruct (lookup_lt_is_Some_2 query_start_loc (Z.to_nat x)) as [a Ha]; [lia|].
  destruct (lookup_lt_is_Some_2 query_start_loc (S (Z.to_nat x))) as [b Hb]; [lia|].
  destruct (lookup_lt_is_Some_2 rows (Z.to_nat x)) as [ids Hids]; [lia|]. destruct (Hgpu (Z.to_nat x) ids) as [tail Htail]; [lia|done|].
  assert (Hla : gpu_load query_start_loc x = Ok a) by (unfold gpu_load; rewrite (proj2 (Z.ltb_ge _ _)) by lia; by apply np_get_ok).
  assert (Hlb : gpu_load query_start_loc (x + 1) = Ok b).
  { unfold gpu_load. rewrite (proj2 (Z.ltb_ge _ _)) by lia. apply np_get_ok. by replace (Z.to_nat (x + 1)) with (S (Z.to_nat x)) by lia. }
  rewrite Hla, Hlb. cbn [rbind]. rewrite lanes_range by lia. pose proof (Hrange _ _ Ha). pose proof (Hrange _ _ Hb).
  rewrite (rmap_fmap _ (fun o => (o, slot_spec t ids (default 0 (positions !! Z.to_nat o))))).
  - eexists. split; [done|]. intros o v. rewrite list_elem_of_fmap. split.
    + intros (o' & [= -> ->] & Ho%elem_of_seqZ). right. destruct (lookup_lt_is_Some_2 positions (Z.to_nat o')) as [pos Hp]; [lia|].
      rewrite Hp. exists (Z.to_nat x), a, b, ids, pos. split_and!; try done; lia.
    + intros [(E & _)|(r & a' & b' & ids' & pos & E & Hr & Ha' & Hb' & Ho & Hids' & Hp & ->)]; [lia|].
      assert (r = Z.to_nat x) as -> by lia. simplify_eq. exists o. rewrite Hp. split; [done|]. apply elem_of_seqZ. lia.
  - intros o Ho%elem_of_seqZ. destruct (lookup_lt_is_Some_2 positions (Z.to_nat o)) as [pos Hp]; [lia|].
    unfold gpu_load. rewrite (proj2 (Z.ltb_ge _ _)) by lia. rewrite (np_get_ok _ _ _ Hp). cbn [rbind]. rewrite Hp. simpl default.
    rewrite <- (Z2Nat.id x) at 1 by lia. rewrite (slot_id_ok t (Z.to_nat x) ids tail pos); try done.
    apply (Hpos (Z.to_nat x) a b o ids pos); try done. lia.
Qed.

Lemma stored_fun x x' o v v' : stored x o v -> stored x' o v' -> v = v'.
Proof.
  pose proof Hbatch as [_ _ _ Hsort Hrange _].
  intros [(_ & H1 & ->)|(r & a & b & ids & pos & -> & Hr & Ha & Hb & Ho & Hids & Hp & ->)]
    [(_ & H2 & ->)|(r' & a' & b' & ids' & pos' & -> & Hr' & Ha' & Hb' & Ho' & Hids' & Hp' & ->)]; [done| | |].
  - pose proof (Hrange _ _ Hb'). lia.
  - pose proof (Hrange _ _ Hb). lia.
  - destruct (Nat.lt_total r r') as [Hlt|[->|Hlt]]; [|by simplify_eq|].
    + pose proof (Hsort (S r) r' b a' Hlt Hb Ha'). lia.
    + pose proof (Hsort (S r') r b' a Hlt Hb' Ha). lia.
Qed.

Lemma stored_range x o v : stored x o v -> 0 <= o < Z.of_nat (length t.(slot_mapping)).
Proof.
  pose proof Hbatch as [_ Hlen _ _ Hrange _]. rewrite (sh_slots _ Hshape).
  intros [(_ & H1 & _)|(r & a & b & ids & pos & _ & _ & Ha & Hb & Ho & _)]; [lia|]. pose proof (Hrange _ _ Ha). pose proof (Hrange _ _ Hb). lia.
Qed.

Lemma launch_ok order :
  t.(bt_mode) = TOKEN_TO_KV_SLOT -> order ≡ₚ seqZ 0 (Z.of_nat n + 1) ->
  wp (compute_slot_mapping order (Z.of_nat n) query_start_loc positions) t (fun _ t' => exists slots,
    t' = set_device t.(bt_gpu) slots t /\ length slots = t.(max_num_batched_tokens) /\ forall x o v, stored x o v -> slots !! Z.to_nat o = Some v).
Proof.
  intros Hmode Horder. unfold compute_slot_mapping. wp_steps. unfold id. rewrite Hmode.
  assert (Hx : forall x, x ∈ order <-> 0 <= x <= Z.of_nat n) by (intros x; rewrite Horder, elem_of_seqZ; lia).
  destruct (rmap_ok (slot_program 1024 t (Z.of_nat n) query_start_loc positions) order) as (ys & Hys & Hall).
  { intros x Hin. destruct (slot_program_ok x) as (st & Hst & _); [by apply Hx|]. eauto. }
  wp_step. eapply wp_lift_ok; [exact Hys|].
  assert (Hin : forall o v, (o, v) ∈ concat ys <-> exists x, x ∈ order /\ stored x o v).
  { intros o v. rewrite list_elem_of_In, in_concat. split.
    - intros (st & Hst%list_elem_of_In & Hov%list_elem_of_In). apply list_elem_of_lookup in Hst as [i Hi].
      destruct (Forall2_lookup_r _ _ _ _ _ Hall Hi) as (x & Hxi & Hrun). apply list_elem_of_lookup_2 in Hxi. exists x. split; [done|].
      destruct (slot_program_ok x) as (st' & Hst' & Hiff); [by apply Hx|]. assert (st' = st) as -> by congruence. by apply Hiff.
    - intros (x & Hxo & Hs). destruct (slot_program_ok x) as (st & Hst & Hiff); [by apply Hx|]. apply list_elem_of_lookup in Hxo as [i Hi].
      destruct (Forall2_lookup_l _ _ _ _ _ Hall Hi) as (st' & Hst' & Hrun). assert (st' = st) as -> by congruence.
      exists st. split; apply list_elem_of_In; [by eapply list_elem_of_lookup_2|by apply Hiff]. }
  destruct (gpu_store_ok (concat ys) t.(slot_mapping)) as (slots & Hrun & Hl & Hput & _).
  - intros o v (x & _ & Hs)%Hin. by eapply stored_range.
  - intros o v v' (x & _ & Hs)%Hin (x' & _ & Hs')%Hin. by eapply stored_fun.
  - wp_step. eapply wp_lift_ok; [exact Hrun|]. wp_steps. exists slots. split_and!; [done|by rewrite Hl, (sh_slots _ Hshape)|].
    intros x o v Hs. apply Hput, Hin. exists x. split; [|done]. apply Hx.
    destruct Hs as [(-> & _)|(r & a & b & ids & pos & -> & Hr & _)]; lia.
Qed.
End launch.

(** ** The theorems *)

(** Committing the rows and running the kernel stores what the programs store. *)
Lemma slots_stored t rows n query_start_loc positions order :
  Rows rows t -> Ranks t -> t.(bt_mode) = TOKEN_TO_KV_SLOT -> Batch t rows n query_start_loc positions ->
  order ≡ₚ seqZ 0 (Z.of_nat n + 1) ->
  exists t', (commit_block_table n ;; compute_slot_mapping order (Z.of_nat n) query_start_loc positions) t = (Ok tt, t') /\ Rows rows t'
    /\ forall x o v, stored t rows n query_start_loc positions x o v -> t'.(slot_mapping) !! Z.to_nat o = Some v.
Proof.
  intros HR Hk Hmode Hb Horder.
  assert (Hw : wp (commit_block_table n ;; compute_slot_mapping order (Z.of_nat n) query_start_loc positions) t (fun _ t' => Rows rows t'
    /\ forall x o v, stored t rows n query_start_loc positions x o v -> t'.(slot_mapping) !! Z.to_nat o = Some v)).
  { wp_step. eapply wp_mono; [by apply commit_ok|]. intros _ t1 (HR1 & _ & E1 & Hgpu). set (gpu := t1.(bt_gpu)) in *. clearbody gpu. subst t1.
    eapply wp_mono; [eapply (launch_ok _ rows n query_start_loc positions); try done;
      [apply HR1|by destruct Hk|by destruct Hb|apply HR1|]|].
    - intros r ids Hr Hids. simpl in *. rewrite Hgpu by done. destruct (rows_row _ _ _ _ HR Hids) as (tail & Hnp & _). by exists tail.
    - intros ? t' (slots & -> & Hl & Hst). split; [|exact Hst]. destruct HR1 as [Hs1 Hl1 Hh1]. split; [|done|done]. destruct Hs1. by split. }
  destruct (wp_inv _ _ _ Hw) as ([] & t' & Hrun & HR' & Hst). by exists t'.
Qed.

(** C17: The slot mapping is exact.  Let every row of a block table hold the blocks of its
    request (in units of the cache or split for the kernel), and commit the rows of a
    batch and compute its slots.  Whatever order the device runs the programs in, this
    does not fail and touches no memory outside the buffers; the token at position [pos]
    of a request gets the slot of offset [local_offset] in block [pos / virtual_size] of
    that request when this rank owns the position, and the padding id when another rank
    does; and every slot behind the batch gets the padding id. *)
Theorem slot_mapping_exact t rows n query_start_loc positions order :
  Rows rows t -> Ranks t -> t.(bt_mode) = TOKEN_TO_KV_SLOT -> Batch t rows n query_start_loc positions ->
  order ≡ₚ seqZ 0 (Z.of_nat n + 1) ->
  exists t', (commit_block_table n ;; compute_slot_mapping order (Z.of_nat n) query_start_loc positions) t = (Ok tt, t') /\ Rows rows t'
    /\ (forall r a b o ids pos, (r < n)%nat -> query_start_loc !! r = Some a -> query_start_loc !! S r = Some b -> a <= o < b ->
          rows !! r = Some ids -> positions !! Z.to_nat o = Some pos -> t'.(slot_mapping) !! Z.to_nat o = Some (slot_spec t ids pos))
    /\ (forall o, (length positions <= o < t.(max_num_batched_tokens))%nat -> t'.(slot_mapping) !! o = Some PAD_SLOT_ID).
Proof.
  intros HR Hk Hmode Hb Horder. destruct (slots_stored t rows n query_start_loc positions order) as (t' & Hrun & HR' & Hst); [done..|].
  exists t'. split_and!; [done|done| |].
  - intros r a b o ids pos Hr Ha Hb' Ho Hids Hp. apply (Hst (Z.of_nat r)). right. exists r, a, b, ids, pos. done.
  - intros o Ho. rewrite <- (Nat2Z.id o). apply (Hst (Z.of_nat n)). left. split_and!; [done|lia|lia|done].
Qed.

(** Equal slots on one rank are the same offset of the same block. *)
Lemma slot_spec_inj t ids ids' pos pos' :
  Shape t -> Ranks t -> 0 <= pos < Z.of_nat (length ids) * virtual_size t -> 0 <= pos' < Z.of_nat (length ids') * virtual_size t ->
  0 <= owner t (pos mod virtual_size t) < t.(dcp_world_size)
  /\ (owner t (pos mod virtual_size t) = t.(dcp_rank) -> ids !! Z.to_nat (pos / virtual_size t) = Some (slot_spec t ids pos / t.(kv_cache_block_size)))
  /\ (owner t (pos mod virtual_size t) = t.(dcp_rank) -> owner t (pos' mod virtual_size t) = t.(dcp_rank) -> slot_spec t ids pos = slot_spec t ids' pos' ->
      ids !! Z.to_nat (pos / virtual_size t) = ids' !! Z.to_nat (pos' / virtual_size t) /\ pos mod virtual_size t = pos' mod virtual_size t).
Proof.
  intros Hs Hk Hp Hp'. pose proof Hk as [Hw _ _]. assert (Hkv : 0 < t.(kv_cache_block_size)).
  { rewrite (sh_kv _ Hs). pose proof (sh_split _ Hs). pose proof (sh_block _ Hs). nia. }
  assert (HV : 0 < virtual_size t) by (unfold virtual_size; nia).
  assert (Hget : forall (l : list Z) p, 0 <= p < Z.of_nat (length l) * virtual_size t -> exists i, l !! Z.to_nat (p / virtual_size t) = Some i).
  { intros l p Hlp. apply lookup_lt_is_Some_2. assert (0 <= p / virtual_size t < Z.of_nat (length l)); [|lia].
    split; [apply Z.div_pos; lia|apply Z.div_lt_upper_bound; lia]. }
  destruct (Hget _ _ Hp) as [i Hi]. destruct (Hget _ _ Hp') as [i' Hi'].
  assert (Hlo := local_offset_range t (pos mod virtual_size t) Hk (Z.mod_pos_bound _ _ HV)).
  assert (Hlo' := local_offset_range t (pos' mod virtual_size t) Hk (Z.mod_pos_bound _ _ HV)).
  split; [by apply Z.mod_pos_bound|]. unfold slot_spec. rewrite Hi, Hi'. simpl default. split.
  - intros Ho. rewrite (proj2 (Z.eqb_eq _ _) Ho). f_equal. rewrite Z.div_add_l by lia. rewrite Z.div_small by done. lia.
  - intros Ho Ho'. rewrite (proj2 (Z.eqb_eq _ _) Ho), (proj2 (Z.eqb_eq _ _) Ho'). intros He.
    destruct (Z.div_mod_unique t.(kv_cache_block_size) i i' (local_offset t (pos mod virtual_size t)) (local_offset t (pos' mod virtual_size t)))
      as [-> Hl]; [lia|lia|lia|]. split; [done|]. apply (local_offset_inj t); [done|congruence|done].
Qed.

(** Token [o] of the batch is at position [pos] of a request with the blocks [ids]. *)
Definition token_at (rows : list (list Z)) (n : nat) (query_start_loc positions : list Z) (o : Z) (ids : list Z) (pos : Z) : Prop :=
  exists r a b, (r < n)%nat /\ query_start_loc !! r = Some a /\ query_start_loc !! S r = Some b /\ a <= o < b
    /\ rows !! r = Some ids /\ positions !! Z.to_nat o = Some pos.

Lemma slot_owned t ids pos : slot_spec t ids pos <> PAD_SLOT_ID -> owner t (pos mod virtual_size t) = t.(dcp_rank).
Proof. unfold slot_spec. destruct (Z.eqb_spec (owner t (pos mod virtual_size t)) t.(dcp_rank)); done. Qed.

(** C29: Slots are private.  When the slots of a batch have been computed, a slot that is
    not padding lies in the block of its token, and two tokens of the batch have the same
    slot only if they are at the same offset of one block that both their requests hold:
    requests that share no block never write to the same place. *)
Theorem slots_are_private t rows n query_start_loc positions order :
  Rows rows t -> Ranks t -> t.(bt_mode) = TOKEN_TO_KV_SLOT -> Batch t rows n query_start_loc positions ->
  order ≡ₚ seqZ 0 (Z.of_nat n + 1) ->
  exists t', (commit_block_table n ;; compute_slot_mapping order (Z.of_nat n) query_start_loc positions) t = (Ok tt, t')
    /\ forall o ids pos o' ids' pos' s,
      token_at rows n query_start_loc positions o ids pos -> token_at rows n query_start_loc positions o' ids' pos' ->
      t'.(slot_mapping) !! Z.to_nat o = Some s -> t'.(slot_mapping) !! Z.to_nat o' = Some s -> s <> PAD_SLOT_ID ->
      ids !! Z.to_nat (pos / virtual_size t) = Some (s / t.(kv_cache_block_size))
      /\ ids' !! Z.to_nat (pos' / virtual_size t) = Some (s / t.(kv_cache_block_size))
      /\ pos mod virtual_size t = pos' mod virtual_size t.
Proof.
  intros HR Hk Hmode Hb Horder. destruct (slots_stored t rows n query_start_loc positions order) as (t' & Hrun & _ & Hst); [done..|].
  exists t'. split; [done|]. intros o ids pos o' ids' pos' s (r & a & b & Hr & Ha & Hb1 & Ho & Hids & Hp) (r' & a' & b' & Hr' & Ha' & Hb1' & Ho' & Hids' & Hp') Hs Hs' Hpad.
  rewrite (Hst (Z.of_nat r) o (slot_spec t ids pos)) in Hs by (right; exists r, a, b, ids, pos; done).
  rewrite (Hst (Z.of_nat r') o' (slot_spec t ids' pos')) in Hs' by (right; exists r', a', b', ids', pos'; done).
  injection Hs as <-. injection Hs' as Es. pose proof (slot_owned _ _ _ Hpad) as Hown. rewrite <- Es in Hpad. pose proof (slot_owned _ _ _ Hpad) as Hown'.
  pose proof (ba_positions _ _ _ _ _ Hb) as Hin. assert (Hsh : Shape t) by apply HR.
  destruct (slot_spec_inj t ids ids' pos pos' Hsh Hk) as (_ & Hblk & Heq); [exact (Hin r a b o ids pos Ha Hb1 Ho Hids Hp)|exact (Hin r' a' b' o' ids' pos' Ha' Hb1' Ho' Hids' Hp')|].
  destruct (Heq Hown Hown' (eq_sym Es)) as [E ?]. split_and!; [by apply Hblk|rewrite <- E; by apply Hblk|done].
Qed.

Lemma empty_table_rows t row :
  Shape t -> t.(bt_np) = replicate t.(bt_max_num_reqs) row -> t.(num_blocks_per_row) = replicate t.(bt_max_num_reqs) 0 ->
  Rows (replicate t.(bt_max_num_reqs) []) t.
Proof.
  intros Hs Hn Hc. split; [done|by rewrite length_replicate|]. intros r ids [-> Hr]%lookup_replicate.
  assert (E : kids t [] = []) by (unfold kids, map_to_kernel_blocks; by case_match).
  unfold holds. rewrite E, Hn, Hc. split_and!; [by apply Forall_nil|by apply lookup_replicate|]. exists row. by apply lookup_replicate.
Qed.

Lemma new_table_rows block_size max_num_reqs width max_tokens kernel_block_size interleave dcp mode t :
  0 < kernel_block_size -> 0 < block_size -> 0 <= width ->
  new_block_table block_size max_num_reqs width max_tokens kernel_block_size interleave dcp mode = Ok t ->
  Rows (replicate max_num_reqs []) t.
Proof.
  intros Hk Hb Hw. unfold new_block_table. destruct (Z.eqb_spec kernel_block_size block_size) as [->|Hne].
  - intros [= <-]. eapply (empty_table_rows (mkBlockTable _ _ _ _ _ _ _ _ _ _ _ _ _ _ _)); [|done|done].
    split; simpl; rewrite ?length_replicate; try done; try lia; apply Forall_replicate, length_replicate.
  - rewrite (proj2 (Z.eqb_neq _ _)) by lia. destruct (Z.eqb_spec (block_size mod kernel_block_size) 0) as [Hm|]; [|done]. simpl negb. cbv iota.
    intros [= <-]. assert (Hd : block_size = kernel_block_size * (block_size / kernel_block_size)) by (apply Z.div_exact; lia).
    eapply (empty_table_rows (mkBlockTable _ _ _ _ _ _ _ _ _ _ _ _ _ _ _)); [|done|done].
    split; simpl; rewrite ?length_replicate; try done; try lia; try (apply Forall_replicate, length_replicate); nia.
Qed.

(** ** An example: 32-token blocks split for a 16-token kernel, rank 1 of 2 *)

Definition demo_rows : list (list Z) := [[3; 5]; [7]].

Definition demo_table : BlockTable :=
  match new_block_table 32 2 4 8 16 2 (Some (2, 1)) TOKEN_TO_KV_SLOT with
  | Ok t => ((add_row [3; 5] 0 ;; add_row [7] 1) t).2
  | Raise _ => mkBlockTable 0 0 0 0 0 false 0 [] [] [] [] 0 0 0 NO_SLOT_MAPPING
  end.

Lemma demo_holds : Rows demo_rows demo_table.
Proof.
  split; [split; vm_compute; try done|done|]; try (repeat constructor; done).
  intros [|[|r]] ids Hr; simplify_eq/=; (split_and!; [repeat constructor; vm_compute; done|done|]).
  - exists [0; 0; 0; 0]. done.
  - exists [0; 0; 0; 0; 0; 0]. done.
Qed.

Lemma demo_ranks : Ranks demo_table.
Proof. split; [vm_compute; done|vm_compute; done|]. exists 16. done. Qed.

Lemma demo_batch : Batch demo_table demo_rows 2 [0; 3; 5] [0; 2; 66; 1; 3].
Proof.
  split; try (vm_compute; lia); try done.
  - intros [|[|[|i]]] [|[|[|j]]] a b Hij Ha Hb; simplify_eq/=; lia.
  - intros [|[|[|i]]] a Ha; simplify_eq/=; lia.
  - intros [|[|r]] a b o ids pos Ha Hb Ho Hids Hp; simplify_eq/=; change (virtual_size demo_table) with 64;
      [assert (o = 0 \/ o = 1 \/ o = 2) as [->|[->| ->]] by lia|assert (o = 3 \/ o = 4) as [->| ->] by lia]; simplify_eq/=; lia.
Qed.

Lemma slot_mapping_exact_witness :
  exists t', (commit_block_table 2 ;; compute_slot_mapping [2; 0; 1] 2 [0; 3; 5] [0; 2; 66; 1; 3]) demo_table = (Ok tt, t')
    /\ t'.(slot_mapping) !! 2%nat = Some (5 * 32) /\ t'.(slot_mapping) !! 3%nat = Some PAD_SLOT_ID /\ t'.(slot_mapping) !! 7%nat = Some PAD_SLOT_ID.
Proof.
  destruct (slot_mapping_exact demo_table demo_rows 2 [0; 3; 5] [0; 2; 66; 1; 3] [2; 0; 1]) as (t' & Hrun & _ & Hslot & Hpad).
  - exact demo_holds.
  - exact demo_ranks.
  - reflexivity.
  - exact demo_batch.
  - vm_compute. apply perm_trans with [0; 2; 1]; [apply perm_swap|apply perm_skip, perm_swap].
  - exists t'. split; [exact Hrun|]. split; [exact (Hslot 0%nat 0 3 2 [3; 5] 66 ltac:(lia) eq_refl eq_refl ltac:(lia) eq_refl eq_refl)|].
    split; [exact (Hslot 1%nat 3 5 3 [7] 1 ltac:(lia) eq_refl eq_refl ltac:(lia) eq_refl eq_refl)|].
    apply Hpad. vm_compute. lia.
Defined.

Lemma slots_are_private_witness :
  exists t', (commit_block_table 2 ;; compute_slot_mapping [2; 0; 1] 2 [0; 3; 5] [0; 2; 66; 1; 3]) demo_table = (Ok tt, t')
    /\ t'.(slot_mapping) !! 2%nat = Some 160 /\ [3; 5] !! 1%nat = Some (160 / 32).
Proof.
  destruct (slots_are_private demo_table demo_rows 2 [0; 3; 5] [0; 2; 66; 1; 3] [2; 0; 1]) as (t' & Hrun & Hpriv).
  - exact demo_holds.
  - exact demo_ranks.
  - reflexivity.
  - exact demo_batch.
  - vm_compute. apply perm_trans with [0; 2; 1]; [apply perm_swap|apply perm_skip, perm_swap].
  - assert (Hs : t'.(slot_mapping) !! 2%nat = Some 160) by (rewrite <- (f_equal snd Hrun : _ = t'); vm_compute; reflexivity).
    exists t'. split; [exact Hrun|]. split; [exact Hs|].
    assert (Ht : token_at demo_rows 2 [0; 3; 5] [0; 2; 66; 1; 3] 2 [3; 5] 66) by (exists 0%nat, 0, 3; split_and!; try reflexivity; lia).
    exact (proj1 (Hpriv 2 [3; 5] 66 2 [3; 5] 66 160 Ht Ht Hs Hs ltac:(discriminate))).
Defined.
