(* ===== verification/InputBatch.v ===== *)
(** * The persistent batch of the worker

    Models the bookkeeping of [InputBatch] ([vllm/v1/worker/gpu_input_batch.py]) and of its
    [BatchUpdateBuilder] ([vllm/v1/sample/logits_processor/state.py]): requests are added
    to and removed from the rows of many arrays, moved down to fill gaps ([condense]) and
    swapped ([swap_states]).

    The arrays have [max_num_reqs] rows.  A row index is an index of [req_ids], which is
    never longer, so only accesses to lists can fail; an access to an array is total here.
    Objects the batch only stores (random generators, embeddings, pooling states, LoRA
    requests) are numbers, and [req_output_token_ids] holds, for the list object it shares
    with a request, the name of that request.  A pooling state is an object that lives as
    long as its parameters and is not kept apart from them.  Token ids and counters are
    integers without the bound of the 32-bit arrays.  The tensors on the device, the
    sampling metadata built from the arrays, the thinking budget and
    [request.prev_num_draft_len], which only asynchronous scheduling reads, are not
    modelled. *)

From Stdlib Require Import SpecFloat.
From stdpp Require Import sorting.
From S2P Require Import Prelude BlockTable.

Notation ReqId := string.
Notation object := Z (only parsing).

(** ** Requests *)

Record SamplingParams := mkSamplingParams {
  greedy : bool;                                  (* sampling_type == GREEDY *)
  temperature : spec_float;
  top_p : spec_float;
  top_k : Z;
  frequency_penalty : spec_float;
  presence_penalty : spec_float;
  repetition_penalty : spec_float;
  logprobs : option Z;
  logprob_token_ids_of : option (list Z);
  allowed_token_ids : list Z;                     (* [None] counts as empty *)
  bad_words_of : list (list Z);
  random_seed : option Z;                         (* the seed, when sampling_type == RANDOM_SEED *)
  prompt_logprobs : option Z;
}.

Record Embeds := mkEmbeds {
  embeds_obj : object;
  embeds_len : Z;
}.

Record Pooling := mkPooling {
  pooling_obj : object;
  requires_token_ids : bool;
}.

Record CachedRequestState := mkCached {
  req_id : ReqId;
  prompt_token_ids : option (list Z);
  prompt_is_token_ids : option (list bool);
  prompt_embeds : option Embeds;
  output_token_ids : list Z;
  cr_num_computed_tokens : Z;
  block_ids : list (list Z);
  sampling_params : option SamplingParams;
  pooling_params_of : option Pooling;
  generator : option object;
  lora_request : option (Z * object);
}.

Definition length_from_prompt_token_ids_or_embeds (ids : option (list Z)) (embeds : option Embeds) : res Z :=
  match ids, embeds with
  | None, None => Raise ValueError
  | None, Some e => Ok e.(embeds_len)
  | Some l, None => Ok (Z.of_nat (length l))
  | Some l, Some e => if negb (e.(embeds_len) =? Z.of_nat (length l)) then Raise ValueError else Ok (Z.of_nat (length l))
  end.

(** ** Batch updates *)

Record Builder := mkBuilder {
  removed : list nat;
  is_removed_sorted : bool;
  added : list (nat * SamplingParams * option (list Z) * ReqId);
  moved : list (nat * nat * bool);                (* whether the move is a swap *)
  batch_changed : bool;
}.

Definition descending (i j : nat) : Prop := (j <= i)%nat.

#[global] Instance descending_dec i j : Decision (descending i j).
Proof. unfold descending. apply _. Defined.

Definition ensure_removed_sorted (u : Builder) : Builder :=
  if u.(is_removed_sorted) then u
  else mkBuilder (merge_sort descending u.(removed)) true u.(added) u.(moved) u.(batch_changed).

Definition removed_append (i : nat) : M Builder unit :=
  u <- gets id ;;
  check (negb u.(is_removed_sorted)) RuntimeError ;;
  modify (fun u => mkBuilder (u.(removed) ++ [i]) u.(is_removed_sorted) u.(added) u.(moved) true).

Definition peek_removed : M Builder (option nat) :=
  u <- gets id ;;
  if bool_decide (u.(removed) = []) then ret None else
  modify ensure_removed_sorted ;;
  u <- gets id ;;
  ret (last u.(removed)).

Definition pop_removed : M Builder (option nat) :=
  u <- gets id ;;
  if bool_decide (u.(removed) = []) then ret None else
  modify ensure_removed_sorted ;;
  u <- gets id ;;
  modify (fun u => mkBuilder (removelast u.(removed)) u.(is_removed_sorted) u.(added) u.(moved) u.(batch_changed)) ;;
  ret (last u.(removed)).

Definition builder_reset : M Builder bool :=
  u <- gets id ;;
  modify (fun _ => mkBuilder [] false [] [] false) ;;
  ret u.(batch_changed).

(** Whether there is an update for the logits processors. *)
Definition get_and_reset : M Builder bool :=
  u <- gets id ;;
  modify (fun _ => mkBuilder [] false [] [] false) ;;
  ret (negb (bool_decide (u.(removed) = [] /\ u.(moved) = [] /\ u.(added) = []))).

(** ** The arrays *)

Record Tokens := mkTokens {
  token_ids_cpu : list (list Z);
  is_token_ids : list (list bool);
  req_prompt_embeds : gmap nat Embeds;
  num_tokens_no_spec : list Z;
  num_prompt_tokens : list Z;
  num_computed_tokens_cpu : list Z;
  replayssm_decode_base : list Z;
}.

Record Params := mkParams {
  temperature_cpu : list spec_float;
  top_p_cpu : list spec_float;
  top_k_cpu : list Z;
  frequency_penalties_cpu : list spec_float;
  presence_penalties_cpu : list spec_float;
  repetition_penalties_cpu : list spec_float;
  num_accepted_tokens_cpu : list Z;
  generators : gmap nat object;
  bad_words_token_ids : gmap nat (list (list Z));
  allowed_mask : option (list (list bool));
}.

Record Names := mkNames {
  greedy_reqs : gset ReqId;
  random_reqs : gset ReqId;
  top_p_reqs : gset ReqId;
  top_k_reqs : gset ReqId;
  frequency_reqs : gset ReqId;
  presence_reqs : gset ReqId;
  repetition_reqs : gset ReqId;
  has_allowed_token_ids : gset ReqId;
  num_logprobs : gmap ReqId Z;
  logprob_token_ids : gmap ReqId (list Z);
  prev_req_id_to_index : option (gmap ReqId nat);
}.

Record Loras := mkLoras {
  request_lora_mapping : list Z;
  lora_id_to_request_ids : gmap Z (gset ReqId);
  lora_id_to_lora_request : gmap Z object;
}.

Record Pools := mkPools {
  pooling_params : gmap ReqId Pooling;
  needs_token_ids : list bool;                    (* logits_processing_needs_token_ids *)
}.

Record InputBatch := mkInputBatch {
  ib_max_num_reqs : nat;
  vocab_size : Z;
  is_pooling_model : bool;
  use_replayssm : bool;
  req_ids : list (option ReqId);
  req_id_to_index : gmap ReqId nat;
  req_output_token_ids : list (option ReqId);
  spec_token_ids : list (list Z);
  toks : Tokens;
  params : Params;
  names : Names;
  loras : Loras;
  pools : Pools;
  tables : list BlockTable;
  upd : Builder;
}.

Notation ibM := (M InputBatch).

(** The arguments [temperature] to [top_k] are the arrays that are allocated uninitialised.
    The list of drafts starts with [max_num_reqs] empty lists. *)
Definition new_input_batch (max_num_reqs max_model_len max_num_batched_tokens : nat) (vocab : Z) (block_sizes kernel_block_sizes max_num_blocks_per_req : list Z)
    (is_pooling : bool) (interleave : Z) (replayssm : bool) (slot_mapping_modes : option (list SlotMappingMode)) (dcp : option (Z * Z))
    (temperature top_p frequency presence repetition : list spec_float) (top_k : list Z) : res InputBatch :=
  let zeros := replicate max_num_reqs 0 in
  let? tables := new_multi_group max_num_reqs max_num_batched_tokens block_sizes kernel_block_sizes max_num_blocks_per_req interleave slot_mapping_modes dcp in
  Ok (mkInputBatch max_num_reqs vocab is_pooling replayssm [] ∅ [] (replicate max_num_reqs [])
    (mkTokens (replicate max_num_reqs (replicate max_model_len 0)) (replicate max_num_reqs (replicate max_model_len false)) ∅ zeros zeros zeros zeros)
    (mkParams temperature top_p top_k frequency presence repetition (replicate max_num_reqs 1) ∅ ∅ None)
    (mkNames ∅ ∅ ∅ ∅ ∅ ∅ ∅ ∅ ∅ ∅ None) (mkLoras zeros ∅ ∅) (mkPools ∅ (replicate max_num_reqs false)) tables (mkBuilder [] false [] [] false)).

Definition set_lists (ids : list (option ReqId)) (index : gmap ReqId nat) (outs : list (option ReqId)) (spec : list (list Z)) (s : InputBatch) : InputBatch :=
  mkInputBatch s.(ib_max_num_reqs) s.(vocab_size) s.(is_pooling_model) s.(use_replayssm) ids index outs spec s.(toks) s.(params) s.(names)
    s.(loras) s.(pools) s.(tables) s.(upd).

Definition set_toks (x : Tokens) (s : InputBatch) : InputBatch :=
  mkInputBatch s.(ib_max_num_reqs) s.(vocab_size) s.(is_pooling_model) s.(use_replayssm) s.(req_ids) s.(req_id_to_index) s.(req_output_token_ids)
    s.(spec_token_ids) x s.(params) s.(names) s.(loras) s.(pools) s.(tables) s.(upd).

Definition set_params (x : Params) (s : InputBatch) : InputBatch :=
  mkInputBatch s.(ib_max_num_reqs) s.(vocab_size) s.(is_pooling_model) s.(use_replayssm) s.(req_ids) s.(req_id_to_index) s.(req_output_token_ids)
    s.(spec_token_ids) s.(toks) x s.(names) s.(loras) s.(pools) s.(tables) s.(upd).

Definition set_names (x : Names) (s : InputBatch) : InputBatch :=
  mkInputBatch s.(ib_max_num_reqs) s.(vocab_size) s.(is_pooling_model) s.(use_replayssm) s.(req_ids) s.(req_id_to_index) s.(req_output_token_ids)
    s.(spec_token_ids) s.(toks) s.(params) x s.(loras) s.(pools) s.(tables) s.(upd).

Definition set_loras (x : Loras) (s : InputBatch) : InputBatch :=
  mkInputBatch s.(ib_max_num_reqs) s.(vocab_size) s.(is_pooling_model) s.(use_replayssm) s.(req_ids) s.(req_id_to_index) s.(req_output_token_ids)
    s.(spec_token_ids) s.(toks) s.(params) s.(names) x s.(pools) s.(tables) s.(upd).

Definition set_pools (x : Pools) (s : InputBatch) : InputBatch :=
  mkInputBatch s.(ib_max_num_reqs) s.(vocab_size) s.(is_pooling_model) s.(use_replayssm) s.(req_ids) s.(req_id_to_index) s.(req_output_token_ids)
    s.(spec_token_ids) s.(toks) s.(params) s.(names) s.(loras) x s.(tables) s.(upd).

Definition set_tables (x : list BlockTable) (s : InputBatch) : InputBatch :=
  mkInputBatch s.(ib_max_num_reqs) s.(vocab_size) s.(is_pooling_model) s.(use_replayssm) s.(req_ids) s.(req_id_to_index) s.(req_output_token_ids)
    s.(spec_token_ids) s.(toks) s.(params) s.(names) s.(loras) s.(pools) x s.(upd).

Definition set_upd (x : Builder) (s : InputBatch) : InputBatch :=
  mkInputBatch s.(ib_max_num_reqs) s.(vocab_size) s.(is_pooling_model) s.(use_replayssm) s.(req_ids) s.(req_id_to_index) s.(req_output_token_ids)
    s.(spec_token_ids) s.(toks) s.(params) s.(names) s.(loras) s.(pools) s.(tables) x.

Definition on_tables_of (op : M (list BlockTable) unit) : ibM unit := zoom tables set_tables op.
Definition on_upd {A : Type} (op : M Builder A) : ibM A := zoom upd set_upd op.

Definition num_reqs (s : InputBatch) : nat := size s.(req_id_to_index).

(** [l[i] = v] of a list *)
Definition list_set {A : Type} (l : list A) (i : nat) (v : A) : res (list A) :=
  if decide (i < length l)%nat then Ok (<[i := v]> l) else Raise IndexError.

(** [l[i][start:stop] = vals] *)
Definition row_assign {A : Type} (l : list (list A)) (i : nat) (start stop : Z) (vals : list A) : res (list (list A)) :=
  let? row := np_assign (default [] (l !! i)) start stop vals in Ok (<[i := row]> l).

(** ** Adding *)

Definition register_add_request (r : CachedRequestState) : ibM nat :=
  o <- on_upd pop_removed ;;
  s <- gets id ;;
  let new_req_index := match o with Some i => i | None => num_reqs s end in
  check (bool_decide (new_req_index < s.(ib_max_num_reqs))%nat) AssertionError ;;
  modify (fun s => set_upd (mkBuilder s.(upd).(removed) s.(upd).(is_removed_sorted)
    (match r.(sampling_params) with
     | Some p => s.(upd).(added) ++ [(new_req_index, p, r.(prompt_token_ids), r.(req_id))]
     | None => s.(upd).(added)
     end) s.(upd).(moved) true) s) ;;
  ret new_req_index.

Definition place_request (r : CachedRequestState) (i : nat) : ibM unit :=
  s <- gets id ;;
  (if decide (i = length s.(req_ids)) then
     modify (fun s => set_lists (s.(req_ids) ++ [Some r.(req_id)]) s.(req_id_to_index) (s.(req_output_token_ids) ++ [Some r.(req_id)]) (s.(spec_token_ids) ++ [[]]) s)
   else
     ids <- lift (list_set s.(req_ids) i (Some r.(req_id))) ;;
     modify (set_lists ids s.(req_id_to_index) s.(req_output_token_ids) s.(spec_token_ids)) ;;
     outs <- lift (list_set s.(req_output_token_ids) i (Some r.(req_id))) ;;
     modify (set_lists ids s.(req_id_to_index) outs s.(spec_token_ids)) ;;
     spec <- lift (list_set s.(spec_token_ids) i []) ;;
     modify (set_lists ids s.(req_id_to_index) outs spec)) ;;
  modify (fun s => set_lists s.(req_ids) (<[r.(req_id) := i]> s.(req_id_to_index)) s.(req_output_token_ids) s.(spec_token_ids) s).

Definition upd_toks (f : Tokens -> Tokens) : ibM unit := modify (fun s => set_toks (f s.(toks)) s).

Definition set_token_rows (rows : list (list Z)) (x : Tokens) : Tokens :=
  mkTokens rows x.(is_token_ids) x.(req_prompt_embeds) x.(num_tokens_no_spec) x.(num_prompt_tokens) x.(num_computed_tokens_cpu) x.(replayssm_decode_base).

Definition set_flag_rows (rows : list (list bool)) (x : Tokens) : Tokens :=
  mkTokens x.(token_ids_cpu) rows x.(req_prompt_embeds) x.(num_tokens_no_spec) x.(num_prompt_tokens) x.(num_computed_tokens_cpu) x.(replayssm_decode_base).

Definition set_embeds (m : gmap nat Embeds) (x : Tokens) : Tokens :=
  mkTokens x.(token_ids_cpu) x.(is_token_ids) m x.(num_tokens_no_spec) x.(num_prompt_tokens) x.(num_computed_tokens_cpu) x.(replayssm_decode_base).

Definition set_numbers (no_spec prompt computed base : list Z) (x : Tokens) : Tokens :=
  mkTokens x.(token_ids_cpu) x.(is_token_ids) x.(req_prompt_embeds) no_spec prompt computed base.

(** [self.token_ids_cpu[i, start:stop] = vals] *)
Definition assign_tokens (i : nat) (start stop : Z) (vals : list Z) : ibM unit :=
  s <- gets id ;;
  rows <- lift (row_assign s.(toks).(token_ids_cpu) i start stop vals) ;;
  upd_toks (set_token_rows rows).

Definition assign_flags (i : nat) (start stop : Z) (vals : list bool) : ibM unit :=
  s <- gets id ;;
  rows <- lift (row_assign s.(toks).(is_token_ids) i start stop vals) ;;
  upd_toks (set_flag_rows rows).

Definition cr_num_tokens (r : CachedRequestState) (num_prompt : Z) : Z := num_prompt + Z.of_nat (length r.(output_token_ids)).

Definition write_tokens (r : CachedRequestState) (i : nat) : ibM unit :=
  n <- lift (length_from_prompt_token_ids_or_embeds r.(prompt_token_ids) r.(prompt_embeds)) ;;
  upd_toks (fun x => set_numbers x.(num_tokens_no_spec) (<[i := n]> x.(num_prompt_tokens)) x.(num_computed_tokens_cpu) x.(replayssm_decode_base) x) ;;
  let end_idx := n + Z.of_nat (length r.(output_token_ids)) in
  (match r.(prompt_token_ids) with
   | Some ids =>
       assign_tokens i 0 n ids ;;
       assign_flags i 0 n (match r.(prompt_is_token_ids) with Some flags => flags | None => [true] end)
   | None => assign_flags i 0 n [false]
   end) ;;
  (match r.(prompt_embeds) with Some e => upd_toks (fun x => set_embeds (<[i := e]> x.(req_prompt_embeds)) x) | None => ret tt end) ;;
  assign_tokens i n end_idx r.(output_token_ids) ;;
  assign_flags i n end_idx [true] ;;
  s <- gets id ;;
  upd_toks (fun x => set_numbers (<[i := cr_num_tokens r n]> x.(num_tokens_no_spec)) x.(num_prompt_tokens) (<[i := r.(cr_num_computed_tokens)]> x.(num_computed_tokens_cpu))
    (if s.(use_replayssm) then <[i := cr_num_tokens r n]> x.(replayssm_decode_base) else x.(replayssm_decode_base)) x).

(** Rounding to float32. *)
Definition float32 (x : spec_float) : spec_float :=
  match x with S754_finite s m e => binary_normalize 24 128 (if s then Z.neg m else Z.pos m) e s | _ => x end.

Definition float_zero : spec_float := S754_zero false.
Definition float_one : spec_float := binary_normalize 53 1024 1 0 false.

(** Python's list indexing of a row of [n]. *)
Definition py_index (n i : Z) : res nat :=
  if (0 <=? i) && (i <? n) then Ok (Z.to_nat i) else if (- n <=? i) && (i <? 0) then Ok (Z.to_nat (i + n)) else Raise IndexError.

Definition set_mask (m : option (list (list bool))) (x : Params) : Params :=
  mkParams x.(temperature_cpu) x.(top_p_cpu) x.(top_k_cpu) x.(frequency_penalties_cpu) x.(presence_penalties_cpu) x.(repetition_penalties_cpu)
    x.(num_accepted_tokens_cpu) x.(generators) x.(bad_words_token_ids) m.

(** The row becomes all true, then false where a token is allowed. *)
Definition write_mask (i : nat) (allowed : list Z) : ibM unit :=
  s <- gets id ;;
  let mask := default (replicate s.(ib_max_num_reqs) (replicate (Z.to_nat s.(vocab_size)) false)) s.(params).(allowed_mask) in
  let row := replicate (Z.to_nat s.(vocab_size)) true in
  modify (fun s => set_params (set_mask (Some (<[i := row]> mask)) s.(params)) s) ;;
  js <- lift (rmap (py_index s.(vocab_size)) allowed) ;;
  modify (fun s => set_params (set_mask (Some (<[i := foldr (fun j row => <[j := false]> row) row js]> mask)) s.(params)) s).

Definition add_if (b : bool) (id : ReqId) (X : gset ReqId) : gset ReqId := if b then {[id]} ∪ X else X.

Definition name_params (vocab : Z) (id : ReqId) (p : SamplingParams) (x : Names) : Names :=
  mkNames (add_if p.(greedy) id x.(greedy_reqs)) (add_if (negb p.(greedy)) id x.(random_reqs))
    (add_if (SFltb p.(top_p) float_one) id x.(top_p_reqs)) (add_if ((0 <? p.(top_k)) && (p.(top_k) <? vocab)) id x.(top_k_reqs))
    (add_if (negb (SFeqb p.(frequency_penalty) float_zero)) id x.(frequency_reqs))
    (add_if (negb (SFeqb p.(presence_penalty) float_zero)) id x.(presence_reqs))
    (add_if (negb (SFeqb p.(repetition_penalty) float_one)) id x.(repetition_reqs))
    (add_if (negb (bool_decide (p.(allowed_token_ids) = []))) id x.(has_allowed_token_ids))
    (match p.(logprobs) with Some n => <[id := if n =? -1 then vocab else n]> x.(num_logprobs) | None => x.(num_logprobs) end)
    (match p.(logprob_token_ids_of) with Some l => <[id := l]> x.(logprob_token_ids) | None => x.(logprob_token_ids) end)
    x.(prev_req_id_to_index).

Definition row_params (vocab : Z) (i : nat) (r : CachedRequestState) (p : SamplingParams) (x : Params) : Params :=
  mkParams (<[i := if p.(greedy) then float_zero else float32 p.(temperature)]> x.(temperature_cpu))
    (<[i := float32 p.(top_p)]> x.(top_p_cpu)) (<[i := if (0 <? p.(top_k)) && (p.(top_k) <? vocab) then p.(top_k) else vocab]> x.(top_k_cpu))
    (<[i := float32 p.(frequency_penalty)]> x.(frequency_penalties_cpu)) (<[i := float32 p.(presence_penalty)]> x.(presence_penalties_cpu))
    (<[i := float32 p.(repetition_penalty)]> x.(repetition_penalties_cpu)) x.(num_accepted_tokens_cpu)
    (match r.(generator) with Some g => <[i := g]> x.(generators) | None => x.(generators) end) x.(bad_words_token_ids) x.(allowed_mask).

Definition set_bad_words (m : gmap nat (list (list Z))) (x : Params) : Params :=
  mkParams x.(temperature_cpu) x.(top_p_cpu) x.(top_k_cpu) x.(frequency_penalties_cpu) x.(presence_penalties_cpu) x.(repetition_penalties_cpu)
    x.(num_accepted_tokens_cpu) x.(generators) m x.(allowed_mask).

Definition set_accepted (l : list Z) (x : Params) : Params :=
  mkParams x.(temperature_cpu) x.(top_p_cpu) x.(top_k_cpu) x.(frequency_penalties_cpu) x.(presence_penalties_cpu) x.(repetition_penalties_cpu)
    l x.(generators) x.(bad_words_token_ids) x.(allowed_mask).

Definition write_params (r : CachedRequestState) (i : nat) : ibM unit :=
  match r.(sampling_params), r.(pooling_params_of) with
  | Some p, _ =>
      modify (fun s => set_params (row_params s.(vocab_size) i r p s.(params)) (set_names (name_params s.(vocab_size) r.(req_id) p s.(names)) s)) ;;
      (if bool_decide (p.(allowed_token_ids) = []) then ret tt else write_mask i p.(allowed_token_ids)) ;;
      (if bool_decide (p.(bad_words_of) = []) then ret tt
       else modify (fun s => set_params (set_bad_words (<[i := p.(bad_words_of)]> s.(params).(bad_words_token_ids)) s.(params)) s))
  | None, Some q =>
      modify (fun s => set_pools (mkPools (<[r.(req_id) := q]> s.(pools).(pooling_params)) (<[i := q.(requires_token_ids)]> s.(pools).(needs_token_ids))) s)
  | None, None => raise RuntimeError             (* NotImplementedError *)
  end.

Definition write_lora (r : CachedRequestState) (i : nat) (x : Loras) : Loras :=
  match r.(lora_request) with
  | Some (lora_id, lora) =>
      mkLoras (<[i := lora_id]> x.(request_lora_mapping))
        (<[lora_id := {[r.(req_id)]} ∪ default ∅ (x.(lora_id_to_request_ids) !! lora_id)]> x.(lora_id_to_request_ids))
        (<[lora_id := lora]> x.(lora_id_to_lora_request))
  | None => mkLoras (<[i := 0]> x.(request_lora_mapping)) x.(lora_id_to_request_ids) x.(lora_id_to_lora_request)
  end.

Definition add_request (r : CachedRequestState) : ibM nat :=
  i <- register_add_request r ;;
  place_request r i ;;
  write_tokens r i ;;
  on_tables_of (multi_add_row r.(block_ids) i) ;;
  write_params r i ;;
  modify (fun s => set_params (set_accepted (<[i := 1]> s.(params).(num_accepted_tokens_cpu)) s.(params)) s) ;;
  modify (fun s => set_loras (write_lora r i s.(loras)) s) ;;
  ret i.

(** ** Draft tokens *)

Definition update_req_spec_token_ids (name : ReqId) (scheduled : list Z) : ibM unit :=
  s <- gets id ;;
  i <- lift (match s.(req_id_to_index) !! name with Some i => Ok i | None => Raise KeyError end) ;;
  spec <- lift (list_set s.(spec_token_ids) i []) ;;
  modify (set_lists s.(req_ids) s.(req_id_to_index) s.(req_output_token_ids) spec) ;;
  if bool_decide (scheduled = []) then ret tt else
  let start_index := default 0 (s.(toks).(num_tokens_no_spec) !! i) in
  let end_index := start_index + Z.of_nat (length scheduled) in
  assign_tokens i start_index end_index scheduled ;;
  assign_flags i start_index end_index [true] ;;
  modify (fun s => set_lists s.(req_ids) s.(req_id_to_index) s.(req_output_token_ids) (<[i := scheduled]> s.(spec_token_ids)) s).

(** ** Removing *)

Definition discard_names (name : ReqId) (x : Names) : Names :=
  mkNames (x.(greedy_reqs) ∖ {[name]}) (x.(random_reqs) ∖ {[name]}) (x.(top_p_reqs) ∖ {[name]}) (x.(top_k_reqs) ∖ {[name]}) (x.(frequency_reqs) ∖ {[name]})
    (x.(presence_reqs) ∖ {[name]}) (x.(repetition_reqs) ∖ {[name]}) (x.(has_allowed_token_ids) ∖ {[name]}) (delete name x.(num_logprobs))
    (delete name x.(logprob_token_ids)) (delete name <$> x.(prev_req_id_to_index)).

Definition remove_lora (name : ReqId) (i : nat) : ibM unit :=
  s <- gets id ;;
  let lora_id := default 0 (s.(loras).(request_lora_mapping) !! i) in
  if lora_id =? 0 then ret tt else
  ids <- lift (match s.(loras).(lora_id_to_request_ids) !! lora_id with Some ids => Ok ids | None => Raise KeyError end) ;;
  let ids := ids ∖ {[name]} in
  (if decide (ids = ∅) then
     modify (fun s => set_loras (mkLoras s.(loras).(request_lora_mapping) (delete lora_id s.(loras).(lora_id_to_request_ids)) s.(loras).(lora_id_to_lora_request)) s) ;;
     check (bool_decide (is_Some (s.(loras).(lora_id_to_lora_request) !! lora_id))) KeyError ;;
     modify (fun s => set_loras (mkLoras s.(loras).(request_lora_mapping) s.(loras).(lora_id_to_request_ids) (delete lora_id s.(loras).(lora_id_to_lora_request))) s)
   else
     modify (fun s => set_loras (mkLoras s.(loras).(request_lora_mapping) (<[lora_id := ids]> s.(loras).(lora_id_to_request_ids)) s.(loras).(lora_id_to_lora_request)) s)) ;;
  modify (fun s => set_loras (mkLoras (<[i := 0]> s.(loras).(request_lora_mapping)) s.(loras).(lora_id_to_request_ids) s.(loras).(lora_id_to_lora_request)) s).

(** The row of the mask is filled with false. *)
Definition remove_params (i : nat) (x : Params) : Params :=
  mkParams x.(temperature_cpu) x.(top_p_cpu) x.(top_k_cpu) x.(frequency_penalties_cpu) x.(presence_penalties_cpu) x.(repetition_penalties_cpu)
    x.(num_accepted_tokens_cpu) (delete i x.(generators)) (delete i x.(bad_words_token_ids))
    ((fun mask => <[i := (fun _ => false) <$> default [] (mask !! i)]> mask) <$> x.(allowed_mask)).

Definition remove_request (name : ReqId) : ibM (option nat) :=
  s <- gets id ;;
  match s.(req_id_to_index) !! name with
  | None => ret None
  | Some i =>
      modify (fun s => set_lists s.(req_ids) (delete name s.(req_id_to_index)) s.(req_output_token_ids) s.(spec_token_ids) s) ;;
      on_upd (removed_append i) ;;
      ids <- lift (list_set s.(req_ids) i None) ;;
      modify (fun s => set_lists ids s.(req_id_to_index) s.(req_output_token_ids) s.(spec_token_ids) s) ;;
      outs <- lift (list_set s.(req_output_token_ids) i None) ;;
      modify (fun s => set_lists s.(req_ids) s.(req_id_to_index) outs s.(spec_token_ids) s) ;;
      spec <- lift (list_set s.(spec_token_ids) i []) ;;
      modify (fun s => set_lists s.(req_ids) s.(req_id_to_index) s.(req_output_token_ids) spec s) ;;
      on_tables_of (multi_clear_row i) ;;
      remove_lora name i ;;
      (if s.(is_pooling_model) then
         modify (fun s => set_pools (mkPools (delete name s.(pools).(pooling_params)) s.(pools).(needs_token_ids)) s)
       else modify (fun s => set_params (remove_params i s.(params)) (set_names (discard_names name s.(names)) s))) ;;
      ret (Some i)
  end.

(** ** Moving rows *)

(** [l[i], l[j] = l[j], l[i]] *)
Definition swap_at {A : Type} (i j : nat) (l : list A) : list A :=
  match l !! i, l !! j with Some x, Some y => <[j := x]> (<[i := y]> l) | _, _ => l end.

(** The same of the rows of a tensor: the right-hand sides are views, so the second row
    is read after the first one has been written. *)
Definition swap_views {A : Type} (i j : nat) (l : list (list A)) : list (list A) :=
  let l := <[i := default [] (l !! j)]> l in <[j := default [] (l !! i)]> l.

(** The first [n] entries of two rows. *)
Definition swap_prefix {A : Type} (n : nat) (i j : nat) (l : list (list A)) : list (list A) :=
  let x := default [] (l !! i) in
  let y := default [] (l !! j) in
  let l := <[i := take n y ++ drop n x]> l in
  <[j := take n x ++ drop n (default [] (l !! j))]> l.

(** [l[j] = l[i]] *)
Definition copy_at {A : Type} (i j : nat) (l : list A) : list A :=
  match l !! i with Some x => <[j := x]> l | None => l end.

(** [l[j, :n] = l[i, :n]] *)
Definition copy_prefix {A : Type} (n : nat) (i j : nat) (l : list (list A)) : list (list A) :=
  <[j := take n (default [] (l !! i)) ++ drop n (default [] (l !! j))]> l.

Definition put_or_pop {A : Type} (k : nat) (v : option A) (m : gmap nat A) : gmap nat A :=
  match v with Some x => <[k := x]> m | None => delete k m end.

Definition swap_dict_values {A : Type} (i j : nat) (m : gmap nat A) : gmap nat A :=
  put_or_pop i (m !! j) (put_or_pop j (m !! i) m).

(** [v = d.pop(i, None); if v is not None: d[j] = v] *)
Definition move_dict_value {A : Type} (i j : nat) (m : gmap nat A) : gmap nat A :=
  match m !! i with Some x => <[j := x]> (delete i m) | None => m end.

Definition get_active_token_count (s : InputBatch) (i : nat) : nat :=
  Z.to_nat (default 0 (s.(toks).(num_tokens_no_spec) !! i) + Z.of_nat (length (default [] (s.(spec_token_ids) !! i)))).

Definition swap_toks (replay : bool) (n : nat) (i j : nat) (x : Tokens) : Tokens :=
  mkTokens (swap_prefix n i j x.(token_ids_cpu)) (swap_prefix n i j x.(is_token_ids)) (swap_dict_values i j x.(req_prompt_embeds))
    (swap_at i j x.(num_tokens_no_spec)) (swap_at i j x.(num_prompt_tokens)) (swap_at i j x.(num_computed_tokens_cpu))
    (if replay then swap_at i j x.(replayssm_decode_base) else x.(replayssm_decode_base)).

Definition swap_params (i j : nat) (x : Params) : Params :=
  mkParams (swap_at i j x.(temperature_cpu)) (swap_at i j x.(top_p_cpu)) (swap_at i j x.(top_k_cpu)) (swap_at i j x.(frequency_penalties_cpu))
    (swap_at i j x.(presence_penalties_cpu)) (swap_at i j x.(repetition_penalties_cpu)) (swap_at i j x.(num_accepted_tokens_cpu))
    (swap_dict_values i j x.(generators)) (swap_dict_values i j x.(bad_words_token_ids)) (swap_views i j <$> x.(allowed_mask)).

Definition swap_states (i1 i2 : nat) : ibM unit :=
  s <- gets id ;;
  o1 <- lift (np_get s.(req_ids) i1) ;;
  o2 <- lift (np_get s.(req_ids) i2) ;;
  lift (np_get s.(spec_token_ids) i1) ;; lift (np_get s.(spec_token_ids) i2) ;;
  let n := Nat.max (get_active_token_count s i1) (get_active_token_count s i2) in
  modify (fun s => set_lists (swap_at i1 i2 s.(req_ids)) s.(req_id_to_index) s.(req_output_token_ids) s.(spec_token_ids) s) ;;
  lift (np_get s.(req_output_token_ids) i1) ;; lift (np_get s.(req_output_token_ids) i2) ;;
  modify (fun s => set_lists s.(req_ids) s.(req_id_to_index) (swap_at i1 i2 s.(req_output_token_ids)) (swap_at i1 i2 s.(spec_token_ids)) s) ;;
  match o1, o2 with
  | Some id1, Some id2 =>
      j2 <- lift (match s.(req_id_to_index) !! id2 with Some j => Ok j | None => Raise KeyError end) ;;
      j1 <- lift (match s.(req_id_to_index) !! id1 with Some j => Ok j | None => Raise KeyError end) ;;
      modify (fun s => set_lists s.(req_ids) (<[id2 := j1]> (<[id1 := j2]> s.(req_id_to_index))) s.(req_output_token_ids) s.(spec_token_ids) s) ;;
      modify (fun s => set_toks (swap_toks s.(use_replayssm) n i1 i2 s.(toks)) s) ;;
      on_tables_of (multi_swap_row i1 i2) ;;
      modify (fun s => set_loras (mkLoras (swap_at i1 i2 s.(loras).(request_lora_mapping)) s.(loras).(lora_id_to_request_ids) s.(loras).(lora_id_to_lora_request)) s) ;;
      if s.(is_pooling_model) then ret tt else
      modify (fun s => set_params (swap_params i1 i2 s.(params))
        (set_upd (mkBuilder s.(upd).(removed) s.(upd).(is_removed_sorted) s.(upd).(added) (s.(upd).(moved) ++ [(i1, i2, true)]) s.(upd).(batch_changed)) s))
  | _, _ => raise AssertionError
  end.

(** ** Condensing *)

Definition move_toks (replay : bool) (n : nat) (i j : nat) (x : Tokens) : Tokens :=
  mkTokens (copy_prefix n i j x.(token_ids_cpu)) (copy_prefix n i j x.(is_token_ids)) (move_dict_value i j x.(req_prompt_embeds))
    (copy_at i j x.(num_tokens_no_spec)) (copy_at i j x.(num_prompt_tokens)) (copy_at i j x.(num_computed_tokens_cpu))
    (if replay then copy_at i j x.(replayssm_decode_base) else x.(replayssm_decode_base)).

Definition move_params (i j : nat) (x : Params) : Params :=
  mkParams (copy_at i j x.(temperature_cpu)) (copy_at i j x.(top_p_cpu)) (copy_at i j x.(top_k_cpu)) (copy_at i j x.(frequency_penalties_cpu))
    (copy_at i j x.(presence_penalties_cpu)) (copy_at i j x.(repetition_penalties_cpu)) (copy_at i j x.(num_accepted_tokens_cpu))
    (move_dict_value i j x.(generators)) (move_dict_value i j x.(bad_words_token_ids)) (copy_at i j <$> x.(allowed_mask)).

(** One request moves from row [last] down to row [empty]. *)
Definition move_down (last empty : nat) : ibM unit :=
  s <- gets id ;;
  o <- lift (np_get s.(req_ids) last) ;;
  out <- lift (np_get s.(req_output_token_ids) last) ;;
  match o with
  | None => raise AssertionError
  | Some name =>
      ids <- lift (list_set s.(req_ids) empty (Some name)) ;;
      outs <- lift (list_set s.(req_output_token_ids) empty out) ;;
      modify (set_lists (<[last := None]> ids) (<[name := empty]> s.(req_id_to_index)) (<[last := None]> outs) s.(spec_token_ids)) ;;
      lift (np_get s.(spec_token_ids) last) ;; lift (np_get s.(spec_token_ids) empty) ;;
      let n := get_active_token_count s last in
      modify (fun s => set_lists s.(req_ids) s.(req_id_to_index) s.(req_output_token_ids) (<[last := []]> (swap_at last empty s.(spec_token_ids))) s) ;;
      modify (fun s => set_toks (move_toks s.(use_replayssm) n last empty s.(toks)) s) ;;
      on_tables_of (multi_move_row last empty) ;;
      modify (fun s => set_loras (mkLoras (copy_at last empty s.(loras).(request_lora_mapping)) s.(loras).(lora_id_to_request_ids) s.(loras).(lora_id_to_lora_request)) s) ;;
      if s.(is_pooling_model) then ret tt else
      modify (fun s => set_params (move_params last empty s.(params))
        (set_upd (mkBuilder s.(upd).(removed) s.(upd).(is_removed_sorted) s.(upd).(added) (s.(upd).(moved) ++ [(last, empty, false)]) s.(upd).(batch_changed)) s))
  end.

(** [while last_req_index in empty_req_indices: last_req_index -= 1] *)
Fixpoint largest_used (empties : list nat) (last : nat) : Z :=
  if decide (last ∈ empties) then match last with O => -1 | S n => largest_used empties n end else Z.of_nat last.

Definition skip_empty (empties : list nat) (last : Z) : Z := if last <? 0 then last else largest_used empties (Z.to_nat last).

(** Every round fills one of the empty rows, so [fuel] is their number. *)
Fixpoint condense_loop (fuel : nat) (last_req_index : Z) : ibM unit :=
  s <- gets id ;;
  if bool_decide (s.(upd).(removed) = []) then ret tt else
  match fuel with
  | O => raise RuntimeError
  | S fuel =>
      let last_req_index := skip_empty s.(upd).(removed) last_req_index in
      o <- on_upd peek_removed ;;
      match o with
      | None => raise AssertionError
      | Some empty_index =>
          if last_req_index <=? Z.of_nat empty_index then ret tt else
          on_upd pop_removed ;;
          move_down (Z.to_nat last_req_index) empty_index ;;
          condense_loop fuel (last_req_index - 1)
      end
  end.

Definition condense : ibM unit :=
  s <- gets id ;;
  let num := num_reqs s in
  modify (fun s => set_upd (ensure_removed_sorted s.(upd)) s) ;;
  s <- gets id ;;
  let empties := s.(upd).(removed) in
  if bool_decide (empties = []) then ret tt else
  if decide (num = 0%nat) then modify (set_lists [] s.(req_id_to_index) [] []) else
  condense_loop (length empties) (Z.of_nat num + Z.of_nat (length empties) - 1) ;;
  modify (fun s => set_lists (take num s.(req_ids)) s.(req_id_to_index) (take num s.(req_output_token_ids)) (take num s.(spec_token_ids)) s).

(** Whether the sampling metadata are built again. *)
Definition refresh_metadata : ibM bool :=
  s <- gets id ;;
  if s.(is_pooling_model) then on_upd builder_reset else on_upd get_and_reset.

(** The prompt tokens are handed to the sampler or pooler. *)
Definition needs_prompt_token_ids (s : InputBatch) : bool :=
  negb (bool_decide (s.(names).(frequency_reqs) = ∅ /\ s.(names).(presence_reqs) = ∅ /\ s.(names).(repetition_reqs) = ∅))
  || existsb id (take (num_reqs s) s.(pools).(needs_token_ids)).
