(* ===== verification/InputBatchProps.v ===== *)
(** * The persistent batch: rows

    What a row of the batch holds ([Row]), and that moving and swapping rows carries all of
    it along. *)

From Stdlib Require Import SpecFloat.
From stdpp Require Import sorting.
From S2P Require Import Prelude BlockTable BlockTableProps InputBatch.

(** ** Lists and dicts *)

Definition swapped (i j k : nat) : nat := if decide (k = j) then i else if decide (k = i) then j else k.
Definition pulled (i j k : nat) : nat := if decide (k = j) then i else k.

Lemma lookup_swap_at {A} (l : list A) i j k :
  (i < length l)%nat -> (j < length l)%nat -> swap_at i j l !! k = l !! swapped i j k.
Proof.
  intros Hi Hj. destruct (lookup_lt_is_Some_2 l i Hi) as [x Hx]. destruct (lookup_lt_is_Some_2 l j Hj) as [y Hy].
  unfold swap_at, swapped. rewrite Hx, Hy. destruct (decide (k = j)) as [->|Hkj].
  - rewrite list_lookup_insert_eq by (by rewrite length_insert). done.
  - rewrite list_lookup_insert_ne by done. destruct (decide (k = i)) as [->|Hki]; [by rewrite list_lookup_insert_eq|by rewrite list_lookup_insert_ne].
Qed.

Lemma length_swap_at {A} (l : list A) i j : length (swap_at i j l) = length l.
Proof. unfold swap_at. do 2 (case_match; [|done]). by rewrite !length_insert. Qed.

Lemma lookup_copy_at {A} (l : list A) i j k :
  (i < length l)%nat -> (j < length l)%nat -> copy_at i j l !! k = l !! pulled i j k.
Proof.
  intros Hi Hj. destruct (lookup_lt_is_Some_2 l i Hi) as [x Hx]. unfold copy_at, pulled. rewrite Hx.
  destruct (decide (k = j)) as [->|Hne]; [by rewrite list_lookup_insert_eq|by rewrite list_lookup_insert_ne].
Qed.

Lemma length_copy_at {A} (l : list A) i j : length (copy_at i j l) = length l.
Proof. unfold copy_at. case_match; [by rewrite length_insert|done]. Qed.

Lemma lookup_put_or_pop {A} (m : gmap nat A) k v k' : put_or_pop k v m !! k' = if decide (k' = k) then v else m !! k'.
Proof.
  unfold put_or_pop. destruct v as [x|]; destruct (decide (k' = k)) as [->|Hne];
    [by rewrite lookup_insert_eq|by rewrite lookup_insert_ne|by rewrite lookup_delete_eq|by rewrite lookup_delete_ne].
Qed.

Lemma lookup_swap_dict {A} (m : gmap nat A) i j k : swap_dict_values i j m !! k = m !! swapped i j k.
Proof. unfold swap_dict_values, swapped. rewrite !lookup_put_or_pop. repeat case_decide; subst; done. Qed.

(** The target has no value of its own. *)
Lemma lookup_move_dict {A} (m : gmap nat A) i j k :
  m !! j = None -> k <> i -> move_dict_value i j m !! k = m !! pulled i j k.
Proof.
  intros Hj Hk. unfold move_dict_value, pulled. destruct (m !! i) as [x|] eqn:Hi; destruct (decide (k = j)) as [->|Hne].
  - by rewrite lookup_insert_eq, Hi.
  - by rewrite lookup_insert_ne, lookup_delete_ne.
  - by rewrite Hi.
  - done.
Qed.

Lemma move_dict_source {A} (m : gmap nat A) i j : i <> j -> move_dict_value i j m !! i = None.
Proof. intros Hne. unfold move_dict_value. destruct (m !! i) eqn:Hi; [by rewrite lookup_insert_ne, lookup_delete_eq|done]. Qed.

(** Prefixes of rows. *)
Lemma take_prefix {A} (n m : nat) (x z : list A) : length z = length x -> (m <= n)%nat -> take m (take n x ++ drop n z) = take m x.
Proof.
  intros Hz Hm. destruct (decide (n <= length x)%nat) as [Hn|Hn].
  - rewrite take_app_le by (rewrite length_take; lia). by rewrite take_take, Nat.min_l.
  - by rewrite (take_ge x n), (drop_ge z n), app_nil_r by lia.
Qed.

Lemma lookup_swap_prefix {A} (l : list (list A)) n i j k w m :
  Forall (fun r => length r = w) l -> (i < length l)%nat -> (j < length l)%nat -> (m <= n \/ k <> i /\ k <> j)%nat ->
  take m <$> (swap_prefix n i j l !! k) = take m <$> (l !! swapped i j k).
Proof.
  intros Hw Hi Hj Hm. destruct (lookup_lt_is_Some_2 l i Hi) as [x Hx]. destruct (lookup_lt_is_Some_2 l j Hj) as [y Hy].
  rewrite Forall_lookup in Hw. pose proof (Hw _ _ Hx). pose proof (Hw _ _ Hy).
  unfold swap_prefix, swapped. rewrite Hx, Hy. simpl default. destruct (decide (k = j)) as [->|Hkj].
  - rewrite list_lookup_insert_eq by (by rewrite length_insert). rewrite Hx. simpl. f_equal. apply take_prefix; [|lia].
    destruct (decide (i = j)) as [->|Hij]; [rewrite list_lookup_insert_eq by done; simpl; rewrite length_app, length_take, length_drop; lia|].
    rewrite list_lookup_insert_ne, Hy by done. simpl. lia.
  - rewrite list_lookup_insert_ne by done. destruct (decide (k = i)) as [->|Hki]; [|by rewrite list_lookup_insert_ne].
    rewrite list_lookup_insert_eq by done. rewrite Hy. simpl. f_equal. apply take_prefix; lia.
Qed.

Lemma swap_prefix_shape {A} (l : list (list A)) n i j w :
  Forall (fun r => length r = w) l -> (i < length l)%nat -> (j < length l)%nat ->
  length (swap_prefix n i j l) = length l /\ Forall (fun r => length r = w) (swap_prefix n i j l).
Proof.
  intros Hw Hi Hj. unfold swap_prefix. split; [by rewrite !length_insert|].
  destruct (lookup_lt_is_Some_2 l i Hi) as [x Hx]. destruct (lookup_lt_is_Some_2 l j Hj) as [y Hy]. rewrite Hx, Hy. simpl default.
  assert (Hlx : length x = w) by (rewrite Forall_lookup in Hw; by eapply Hw). assert (Hly : length y = w) by (rewrite Forall_lookup in Hw; by eapply Hw).
  assert (H1 : Forall (fun r => length r = w) (<[i := take n y ++ drop n x]> l)).
  { apply Forall_insert; [done|]. rewrite length_app, length_take, length_drop. lia. }
  apply Forall_insert; [done|]. rewrite length_app, length_take, length_drop.
  destruct (lookup_lt_is_Some_2 (<[i := take n y ++ drop n x]> l) j) as [z Hz]; [by rewrite length_insert|]. rewrite Hz. simpl.
  rewrite Forall_lookup in H1. rewrite (H1 _ _ Hz). lia.
Qed.

Lemma lookup_copy_prefix {A} (l : list (list A)) n i j k w m :
  Forall (fun r => length r = w) l -> (i < length l)%nat -> (j < length l)%nat -> (m <= n \/ k <> j)%nat ->
  take m <$> (copy_prefix n i j l !! k) = take m <$> (l !! pulled i j k).
Proof.
  intros Hw Hi Hj Hm. destruct (lookup_lt_is_Some_2 l i Hi) as [x Hx]. destruct (lookup_lt_is_Some_2 l j Hj) as [y Hy].
  rewrite Forall_lookup in Hw. pose proof (Hw _ _ Hx). unfold copy_prefix, pulled. rewrite Hx, Hy. simpl default.
  destruct (decide (k = j)) as [->|Hkj]; [|by rewrite list_lookup_insert_ne]. rewrite list_lookup_insert_eq by done. rewrite Hx. simpl. f_equal.
  pose proof (Hw _ _ Hy). apply take_prefix; lia.
Qed.

Lemma copy_prefix_shape {A} (l : list (list A)) n i j w :
  Forall (fun r => length r = w) l -> (i < length l)%nat -> (j < length l)%nat ->
  length (copy_prefix n i j l) = length l /\ Forall (fun r => length r = w) (copy_prefix n i j l).
Proof.
  intros Hw Hi Hj. unfold copy_prefix. split; [by rewrite length_insert|]. apply Forall_insert; [done|].
  destruct (lookup_lt_is_Some_2 l i Hi) as [x Hx]. destruct (lookup_lt_is_Some_2 l j Hj) as [y Hy]. rewrite Hx, Hy. simpl default.
  rewrite Forall_lookup in Hw. pose proof (Hw _ _ Hx). pose proof (Hw _ _ Hy). rewrite length_app, length_take, length_drop. lia.
Qed.

(** ** All tables *)

#[global] Instance same_config_refl : Reflexive same_config.
Proof. intros t. by unfold same_config. Qed.

#[global] Instance same_config_trans : Transitive same_config.
Proof. intros t1 t2 t3. unfold same_config. intros H1 H2. destruct_and! H1. destruct_and! H2. split_and!; congruence. Qed.

#[global] Instance same_config_sym : Symmetric same_config.
Proof. intros t1 t2. unfold same_config. intros H1. destruct_and! H1. split_and!; congruence. Qed.

Lemma on_tables_ok {X : Type} (Phi : X -> BlockTable -> Prop) (f : nat -> X -> X) (op : nat -> M BlockTable unit) xs ts i :
  Forall2 Phi xs ts ->
  (forall j x t, xs !! j = Some x -> ts !! j = Some t -> Phi x t -> wp (op (i + j)%nat) t (fun _ t' => Phi (f (i + j)%nat x) t' /\ same_config t t')) ->
  wp (on_tables op i) ts (fun _ ts' => Forall2 Phi (imap (fun j => f (i + j)%nat) xs) ts' /\ Forall2 same_config ts ts').
Proof.
  intros Hall. revert i. induction Hall as [|x t xs ts Hx Hall IH]; intros i Hop; [by repeat constructor|].
  pose proof (Hop 0%nat x t eq_refl eq_refl Hx) as Hw. rewrite Nat.add_0_r in Hw. unfold wp in *. cbn [on_tables].
  destruct (op i t) as [[[]|e] t']; [|done]. destruct Hw as [Hw1 Hw2]. specialize (IH (S i)). destruct (on_tables op (S i) ts) as [r ts'].
  cut (match r with Ok _ => Forall2 Phi (imap (fun j => f (S i + j)%nat) xs) ts' /\ Forall2 same_config ts ts' | Raise _ => False end).
  { destruct r; [|done]. intros [Hr Hc]. cbn [imap]. rewrite Nat.add_0_r. split; constructor; [done| |done|done].
    erewrite imap_ext; [exact Hr|]. intros j y _. simpl. f_equal. lia. }
  apply IH. intros j y t'' Hj Ht Hy. replace (S i + j)%nat with (i + S j)%nat by lia. by apply Hop.
Qed.

Lemma imap_const {A B} (f : A -> B) (l : list A) : imap (fun _ => f) l = f <$> l.
Proof. induction l as [|x l IH]; [done|]. exact (f_equal (cons _) IH). Qed.

(** ** Rows of the batch *)

Record ParRow := mkParRow {
  pr_temperature : option spec_float;
  pr_top_p : option spec_float;
  pr_top_k : option Z;
  pr_frequency : option spec_float;
  pr_presence : option spec_float;
  pr_repetition : option spec_float;
  pr_accepted : option Z;
  pr_generator : option object;
  pr_bad_words : option (list (list Z));
}.

Definition par_row (x : Params) (i : nat) : ParRow :=
  mkParRow (x.(temperature_cpu) !! i) (x.(top_p_cpu) !! i) (x.(top_k_cpu) !! i) (x.(frequency_penalties_cpu) !! i) (x.(presence_penalties_cpu) !! i)
    (x.(repetition_penalties_cpu) !! i) (x.(num_accepted_tokens_cpu) !! i) (x.(generators) !! i) (x.(bad_words_token_ids) !! i).

(** Everything that belongs to row [i], apart from the mask of allowed tokens, the prompt
    embeddings and the flag [needs_token_ids]; [mrows] are the block lists of the tables. *)
Record Row := mkRow {
  w_name : option (option ReqId);
  w_output : option (option ReqId);
  w_tokens : option (list Z);
  w_flags : option (list bool);
  w_no_spec : option Z;
  w_prompt : option Z;
  w_computed : option Z;
  w_base : option Z;
  w_spec : option (list Z);
  w_blocks : list (option (list Z));
  w_lora : option Z;
  w_params : option ParRow;
}.

Definition row (s : InputBatch) (mrows : list (list (list Z))) (i : nat) : Row :=
  let n := get_active_token_count s i in
  mkRow (s.(req_ids) !! i) (s.(req_output_token_ids) !! i) (take n <$> (s.(toks).(token_ids_cpu) !! i)) (take n <$> (s.(toks).(is_token_ids) !! i))
    (s.(toks).(num_tokens_no_spec) !! i) (s.(toks).(num_prompt_tokens) !! i) (s.(toks).(num_computed_tokens_cpu) !! i)
    (if s.(use_replayssm) then s.(toks).(replayssm_decode_base) !! i else None) (s.(spec_token_ids) !! i)
    ((fun rows : list (list Z) => rows !! i) <$> mrows) (s.(loras).(request_lora_mapping) !! i)
    (if s.(is_pooling_model) then None else Some (par_row s.(params) i)).

Definition TableOk (n : nat) (rows : list (list Z)) (t : BlockTable) : Prop := Rows rows t /\ t.(bt_max_num_reqs) = n.

(** The sizes of the arrays. *)
Record Sizes (s : InputBatch) (mrows : list (list (list Z))) (w : nat) : Prop := {
  sz_tokens : length s.(toks).(token_ids_cpu) = s.(ib_max_num_reqs);
  sz_width : Forall (fun r : list Z => length r = w) s.(toks).(token_ids_cpu);
  sz_flags : length s.(toks).(is_token_ids) = s.(ib_max_num_reqs);
  sz_flag_width : Forall (fun r : list bool => length r = w) s.(toks).(is_token_ids);
  sz_numbers : Forall (fun l : list Z => length l = s.(ib_max_num_reqs))
    [s.(toks).(num_tokens_no_spec); s.(toks).(num_prompt_tokens); s.(toks).(num_computed_tokens_cpu); s.(toks).(replayssm_decode_base);
     s.(loras).(request_lora_mapping); s.(params).(top_k_cpu); s.(params).(num_accepted_tokens_cpu)];
  sz_floats : Forall (fun l : list spec_float => length l = s.(ib_max_num_reqs))
    [s.(params).(temperature_cpu); s.(params).(top_p_cpu); s.(params).(frequency_penalties_cpu); s.(params).(presence_penalties_cpu);
     s.(params).(repetition_penalties_cpu)];
  sz_tables : Forall2 (TableOk s.(ib_max_num_reqs)) mrows s.(tables);
  sz_ids : (length s.(req_ids) <= s.(ib_max_num_reqs))%nat;
  sz_outputs : length s.(req_output_token_ids) = length s.(req_ids);
  sz_spec : (length s.(req_ids) <= length s.(spec_token_ids))%nat;
  sz_tail : forall k l, (length s.(req_ids) <= k)%nat -> s.(spec_token_ids) !! k = Some l -> l = [];
}.

(** Every row of [s'] is the row [rho k] of [s]. *)
Definition rows_from (rho : nat -> nat) (s s' : InputBatch) (mrows mrows' : list (list (list Z))) : Prop :=
  forall k, row s' mrows' k = row s mrows (rho k).

Definition same_setup (s s' : InputBatch) : Prop :=
  s'.(ib_max_num_reqs) = s.(ib_max_num_reqs) /\ s'.(vocab_size) = s.(vocab_size) /\ s'.(is_pooling_model) = s.(is_pooling_model)
  /\ s'.(use_replayssm) = s.(use_replayssm) /\ Forall2 same_config s.(tables) s'.(tables).

#[global] Instance same_setup_trans : Transitive same_setup.
Proof. intros s1 s2 s3 (? & ? & ? & ? & ?) (? & ? & ? & ? & ?). split_and!; try congruence. by etrans. Qed.

#[global] Instance same_setup_sym : Symmetric same_setup.
Proof. intros s1 s2 (? & ? & ? & ? & ?). split_and!; by symmetry. Qed.

(** What does not depend on rows. *)
Definition same_dicts (s s' : InputBatch) : Prop :=
  s'.(names) = s.(names) /\ s'.(loras).(lora_id_to_request_ids) = s.(loras).(lora_id_to_request_ids)
  /\ s'.(loras).(lora_id_to_lora_request) = s.(loras).(lora_id_to_lora_request).

Lemma swap_tables_ok n mrows ts i j :
  Forall2 (TableOk n) mrows ts -> (i < n)%nat -> (j < n)%nat ->
  wp (multi_swap_row i j) ts (fun _ ts' => Forall2 (TableOk n) (swap_at i j <$> mrows) ts' /\ Forall2 same_config ts ts').
Proof.
  intros Hall Hi Hj. unfold multi_swap_row. eapply wp_mono; [apply (on_tables_ok (TableOk n) (fun _ => swap_at i j) _ _ _ 0 Hall)|].
  - intros _ rows t _ _ [HR Hn]. rewrite <- Hn, <- (rows_length _ _ HR) in Hi, Hj. destruct (lookup_lt_is_Some_2 rows i Hi) as [x Hx].
    destruct (lookup_lt_is_Some_2 rows j Hj) as [y Hy]. eapply wp_mono; [by apply (swap_row_ok rows t i j x y)|].
    intros ? t' [HR' Hc]. unfold swap_at. rewrite Hx, Hy. split; [|done]. split; [done|]. destruct Hc as [-> _]. done.
  - intros ? ts' [Hts Hcfg]. by rewrite imap_const in Hts.
Qed.

Lemma move_tables_ok n mrows ts i j :
  Forall2 (TableOk n) mrows ts -> (i < n)%nat -> (j < n)%nat ->
  wp (multi_move_row i j) ts (fun _ ts' => Forall2 (TableOk n) ((fun rows => <[i := []]> (copy_at i j rows)) <$> mrows) ts' /\ Forall2 same_config ts ts').
Proof.
  intros Hall Hi Hj. unfold multi_move_row. eapply wp_mono; [apply (on_tables_ok (TableOk n) (fun _ rows => <[i := []]> (copy_at i j rows)) _ _ _ 0 Hall)|].
  - intros _ rows t _ _ [HR Hn]. rewrite <- Hn, <- (rows_length _ _ HR) in Hi, Hj. destruct (lookup_lt_is_Some_2 rows i Hi) as [x Hx].
    destruct (lookup_lt_is_Some_2 rows j Hj) as [y Hy]. eapply wp_mono; [by apply (move_row_ok rows t i j x y)|].
    intros ? t' [HR' Hc]. unfold copy_at. rewrite Hx. split; [|done]. split; [done|]. destruct Hc as [-> _]. done.
  - intros ? ts' [Hts Hcfg]. by rewrite imap_const in Hts.
Qed.

(** The blocks of row [k], after a change of every table. *)
Lemma blocks_from n (f : list (list Z) -> list (list Z)) mrows ts k k' :
  Forall2 (TableOk n) mrows ts -> (forall rows, length rows = n -> f rows !! k = rows !! k') ->
  (fun rows : list (list Z) => rows !! k) <$> (f <$> mrows) = (fun rows : list (list Z) => rows !! k') <$> mrows.
Proof.
  intros Hall Hf. induction Hall as [|rows t mrows ts [HR Hn] Hall IH]; [done|]. cbn [fmap list_fmap]. f_equal; [|exact IH].
  apply Hf. by rewrite (rows_length _ _ HR).
Qed.

Lemma numbers_swap (n i j : nat) (ls : list (list Z)) : Forall (fun l : list Z => length l = n) ls -> Forall (fun l : list Z => length l = n) (swap_at i j <$> ls).
Proof. intros Hl. apply Forall_fmap. eapply Forall_impl; [exact Hl|]. intros l Hl'. simpl. by rewrite length_swap_at. Qed.

Ltac sizes H :=
  let Hn := fresh "Hn" in let Hf := fresh "Hf" in
  pose proof (sz_numbers _ _ _ H) as Hn; pose proof (sz_floats _ _ _ H) as Hf; rewrite !Forall_cons in Hn; rewrite !Forall_cons in Hf; destruct_and! Hn; destruct_and! Hf.

(** The fields after a swap. *)
Record Swapped (i j : nat) (s s' : InputBatch) : Prop := {
  sw_setup : same_setup s s';
  sw_ids : s'.(req_ids) = swap_at i j s.(req_ids);
  sw_outputs : s'.(req_output_token_ids) = swap_at i j s.(req_output_token_ids);
  sw_spec : s'.(spec_token_ids) = swap_at i j s.(spec_token_ids);
  sw_toks : s'.(toks) = swap_toks s.(use_replayssm) (Nat.max (get_active_token_count s i) (get_active_token_count s j)) i j s.(toks);
  sw_lora : s'.(loras).(request_lora_mapping) = swap_at i j s.(loras).(request_lora_mapping);
  sw_params : s'.(params) = if s.(is_pooling_model) then s.(params) else swap_params i j s.(params);
}.

Lemma swapped_sizes i j s s' mrows w :
  Sizes s mrows w -> Swapped i j s s' -> (i < length s.(req_ids))%nat -> (j < length s.(req_ids))%nat ->
  Forall2 (TableOk s.(ib_max_num_reqs)) (swap_at i j <$> mrows) s'.(tables) -> Sizes s' (swap_at i j <$> mrows) w.
Proof.
  intros HS [(Em & Ev & Ep & Er & Ec) Ei Eo Es Et El Epa] Hi Hj Hts. pose proof (sz_ids _ _ _ HS). pose proof (sz_outputs _ _ _ HS). pose proof (sz_spec _ _ _ HS).
  pose proof (sz_tokens _ _ _ HS). pose proof (sz_flags _ _ _ HS). sizes HS.
  destruct (swap_prefix_shape s.(toks).(token_ids_cpu) (Nat.max (get_active_token_count s i) (get_active_token_count s j)) i j w) as [Hl1 Hw1];
    [apply HS|lia|lia|].
  destruct (swap_prefix_shape s.(toks).(is_token_ids) (Nat.max (get_active_token_count s i) (get_active_token_count s j)) i j w) as [Hl2 Hw2];
    [apply HS|lia|lia|].
  split; rewrite ?Em, ?Ei, ?Eo, ?Es, ?Et, ?El, ?Epa; simpl; rewrite ?length_swap_at; try done; [lia|lia| | |].
  - repeat (apply Forall_cons; split); [..|by apply Forall_nil]; destruct s.(use_replayssm), s.(is_pooling_model); simpl; rewrite ?length_swap_at; done.
  - repeat (apply Forall_cons; split); [..|by apply Forall_nil]; destruct s.(is_pooling_model); simpl; rewrite ?length_swap_at; done.
  - intros k l Hk. rewrite lookup_swap_at by lia. unfold swapped. rewrite !decide_False by lia. by apply HS.
Qed.

Lemma swapped_active i j s s' mrows w k :
  Sizes s mrows w -> Swapped i j s s' -> (i < length s.(req_ids))%nat -> (j < length s.(req_ids))%nat ->
  get_active_token_count s' k = get_active_token_count s (swapped i j k).
Proof.
  intros HS [_ _ _ Es Et _ _] Hi Hj. pose proof (sz_ids _ _ _ HS). pose proof (sz_spec _ _ _ HS). sizes HS. unfold get_active_token_count.
  rewrite Es, Et. simpl. by rewrite !lookup_swap_at by lia.
Qed.

Lemma swapped_rows i j s s' mrows w :
  Sizes s mrows w -> Swapped i j s s' -> (i < length s.(req_ids))%nat -> (j < length s.(req_ids))%nat ->
  rows_from (swapped i j) s s' mrows (swap_at i j <$> mrows).
Proof.
  intros HS HW Hi Hj k. pose proof (swapped_active i j s s' mrows w k HS HW Hi Hj) as Ha. destruct HW as [(Em & Ev & Ep & Er & Ec) Ei Eo Es Et El Epa].
  pose proof (sz_ids _ _ _ HS). pose proof (sz_outputs _ _ _ HS). pose proof (sz_spec _ _ _ HS). pose proof (sz_tokens _ _ _ HS). pose proof (sz_flags _ _ _ HS). sizes HS.
  assert (Hn : (get_active_token_count s (swapped i j k) <= Nat.max (get_active_token_count s i) (get_active_token_count s j) \/ k <> i /\ k <> j)%nat).
  { unfold swapped. repeat case_decide; lia. }
  unfold row. rewrite Ha, Ei, Eo, Es, Et, El, Epa, Ep, Er. simpl. rewrite !lookup_swap_at by lia.
  rewrite !(lookup_swap_prefix _ _ i j k w) by (try done; try apply HS; lia).
  rewrite (blocks_from s.(ib_max_num_reqs) (swap_at i j) mrows s.(tables) k (swapped i j k)); [|apply HS|intros rows Hl; apply lookup_swap_at; lia].
  f_equal.
  - destruct s.(use_replayssm); [|done]. by rewrite lookup_swap_at by lia.
  - destruct s.(is_pooling_model); [done|]. unfold par_row. simpl. by rewrite !lookup_swap_at, !lookup_swap_dict by lia.
Qed.

Lemma swap_states_ok s mrows w i1 i2 id1 id2 :
  Sizes s mrows w -> s.(req_ids) !! i1 = Some (Some id1) -> s.(req_ids) !! i2 = Some (Some id2) ->
  s.(req_id_to_index) !! id1 = Some i1 -> s.(req_id_to_index) !! id2 = Some i2 ->
  wp (swap_states i1 i2) s (fun _ s' => exists mrows', Sizes s' mrows' w /\ rows_from (swapped i1 i2) s s' mrows mrows' /\ same_setup s s' /\ same_dicts s s'
    /\ s'.(req_id_to_index) = <[id2 := i1]> (<[id1 := i2]> s.(req_id_to_index)) /\ length s'.(req_ids) = length s.(req_ids)
    /\ s'.(upd).(removed) = s.(upd).(removed) /\ s'.(upd).(is_removed_sorted) = s.(upd).(is_removed_sorted)).
Proof.
  intros HS Hr1 Hr2 Hi1 Hi2. pose proof (lookup_lt_Some _ _ _ Hr1) as Hl1. pose proof (lookup_lt_Some _ _ _ Hr2) as Hl2.
  pose proof (sz_ids _ _ _ HS). pose proof (sz_outputs _ _ _ HS). pose proof (sz_spec _ _ _ HS).
  assert (Hget : forall {A} (l : list A) i, (i < length l)%nat -> exists x, np_get l i = Ok x).
  { intros A l i Hi. destruct (lookup_lt_is_Some_2 l i Hi) as [x Hx]. exists x. by apply np_get_ok. }
  destruct (Hget _ s.(spec_token_ids) i1) as [x1 Hx1]; [lia|]. destruct (Hget _ s.(spec_token_ids) i2) as [x2 Hx2]; [lia|].
  destruct (Hget _ s.(req_output_token_ids) i1) as [y1 Hy1]; [lia|]. destruct (Hget _ s.(req_output_token_ids) i2) as [y2 Hy2]; [lia|].
  unfold swap_states. wp_steps. unfold id. eapply wp_lift_ok; [by apply np_get_ok|]. wp_steps. eapply wp_lift_ok; [by apply np_get_ok|]. wp_steps.
  eapply wp_lift_ok; [exact Hx1|]. wp_steps. eapply wp_lift_ok; [exact Hx2|]. wp_steps. eapply wp_lift_ok; [exact Hy1|]. wp_steps.
  eapply wp_lift_ok; [exact Hy2|]. wp_steps. rewrite Hi1, Hi2. eapply wp_lift_ok; [done|]. wp_steps. eapply wp_lift_ok; [done|]. wp_steps.
  unfold on_tables_of. apply wp_zoom. simpl. eapply wp_mono; [apply (swap_tables_ok s.(ib_max_num_reqs) mrows); [apply HS|lia|lia]|].
  intros ? ts' [Hts Hcfg]. wp_steps. simpl. destruct s.(is_pooling_model) eqn:Hp; wp_steps; exists (swap_at i1 i2 <$> mrows);
    match goal with |- Sizes ?s1 _ _ /\ _ => assert (HW : Swapped i1 i2 s s1) by (split; rewrite ?Hp; done) end;
    (split; [by eapply swapped_sizes|]); (split; [by eapply swapped_rows|]); simpl; rewrite ?length_swap_at; done.
Qed.

(** ** Moving a row down *)

(** The dicts keyed by row have no entry for row [i]. *)
Definition vacant (s : InputBatch) (i : nat) : Prop :=
  s.(is_pooling_model) = false -> s.(params).(generators) !! i = None /\ s.(params).(bad_words_token_ids) !! i = None.

(** The fields after a move from [i] to [j]. *)
Record Moved (i j : nat) (s s' : InputBatch) : Prop := {
  mv_setup : same_setup s s';
  mv_ids : s'.(req_ids) = <[i := None]> (copy_at i j s.(req_ids));
  mv_outputs : s'.(req_output_token_ids) = <[i := None]> (copy_at i j s.(req_output_token_ids));
  mv_spec : s'.(spec_token_ids) = <[i := []]> (swap_at i j s.(spec_token_ids));
  mv_toks : s'.(toks) = move_toks s.(use_replayssm) (get_active_token_count s i) i j s.(toks);
  mv_lora : s'.(loras).(request_lora_mapping) = copy_at i j s.(loras).(request_lora_mapping);
  mv_params : s'.(params) = if s.(is_pooling_model) then s.(params) else move_params i j s.(params);
}.

Definition moved_tables (i j : nat) (mrows : list (list (list Z))) : list (list (list Z)) := (fun rows => <[i := []]> (copy_at i j rows)) <$> mrows.

Lemma moved_sizes i j s s' mrows w :
  Sizes s mrows w -> Moved i j s s' -> (i < length s.(req_ids))%nat -> (j < length s.(req_ids))%nat ->
  Forall2 (TableOk s.(ib_max_num_reqs)) (moved_tables i j mrows) s'.(tables) -> Sizes s' (moved_tables i j mrows) w.
Proof.
  intros HS [(Em & Ev & Ep & Er & Ec) Ei Eo Es Et El Epa] Hi Hj Hts. pose proof (sz_ids _ _ _ HS). pose proof (sz_outputs _ _ _ HS). pose proof (sz_spec _ _ _ HS).
  pose proof (sz_tokens _ _ _ HS). pose proof (sz_flags _ _ _ HS). sizes HS.
  destruct (copy_prefix_shape s.(toks).(token_ids_cpu) (get_active_token_count s i) i j w) as [Hl1 Hw1]; [apply HS|lia|lia|].
  destruct (copy_prefix_shape s.(toks).(is_token_ids) (get_active_token_count s i) i j w) as [Hl2 Hw2]; [apply HS|lia|lia|].
  split; rewrite ?Em, ?Ei, ?Eo, ?Es, ?Et, ?El, ?Epa; simpl; rewrite ?length_insert, ?length_swap_at, ?length_copy_at; try done; [lia|lia| | |].
  - repeat (apply Forall_cons; split); [..|by apply Forall_nil]; destruct s.(use_replayssm), s.(is_pooling_model); simpl; rewrite ?length_copy_at; done.
  - repeat (apply Forall_cons; split); [..|by apply Forall_nil]; destruct s.(is_pooling_model); simpl; rewrite ?length_copy_at; done.
  - intros k l Hk. rewrite list_lookup_insert_ne, lookup_swap_at by lia. unfold swapped. rewrite !decide_False by lia. by apply HS.
Qed.

Lemma pulled_swapped i j k : k <> i -> swapped i j k = pulled i j k.
Proof. intros Hk. unfold swapped, pulled. repeat case_decide; done. Qed.

Lemma moved_active i j s s' mrows w k :
  Sizes s mrows w -> Moved i j s s' -> (i < length s.(req_ids))%nat -> (j < length s.(req_ids))%nat -> k <> i ->
  get_active_token_count s' k = get_active_token_count s (pulled i j k).
Proof.
  intros HS [_ _ _ Es Et _ _] Hi Hj Hk. pose proof (sz_ids _ _ _ HS). pose proof (sz_spec _ _ _ HS). sizes HS. unfold get_active_token_count.
  rewrite Es, Et. simpl. rewrite list_lookup_insert_ne by done. rewrite lookup_swap_at, lookup_copy_at by lia. by rewrite pulled_swapped.
Qed.

Lemma moved_rows i j s s' mrows w k :
  Sizes s mrows w -> Moved i j s s' -> (i < length s.(req_ids))%nat -> (j < length s.(req_ids))%nat -> vacant s j -> k <> i ->
  row s' (moved_tables i j mrows) k = row s mrows (pulled i j k).
Proof.
  intros HS HW Hi Hj Hvac Hk. pose proof (moved_active i j s s' mrows w k HS HW Hi Hj Hk) as Ha. destruct HW as [(Em & Ev & Ep & Er & Ec) Ei Eo Es Et El Epa].
  pose proof (sz_ids _ _ _ HS). pose proof (sz_outputs _ _ _ HS). pose proof (sz_spec _ _ _ HS). pose proof (sz_tokens _ _ _ HS). pose proof (sz_flags _ _ _ HS). sizes HS.
  assert (Hn : (get_active_token_count s (pulled i j k) <= get_active_token_count s i \/ k <> j)%nat) by (unfold pulled; case_decide; lia).
  unfold row, moved_tables. rewrite Ha, Ei, Eo, Es, Et, El, Epa, Ep, Er. simpl. rewrite !list_lookup_insert_ne by done. rewrite !lookup_copy_at, lookup_swap_at by lia.
  rewrite pulled_swapped by done. rewrite !(lookup_copy_prefix _ _ i j k w) by (try done; try apply HS; lia).
  rewrite (blocks_from s.(ib_max_num_reqs) (fun rows => <[i := []]> (copy_at i j rows)) mrows s.(tables) k (pulled i j k));
    [|apply HS|intros rows Hl; rewrite list_lookup_insert_ne by done; apply lookup_copy_at; lia].
  f_equal.
  - destruct s.(use_replayssm); [|done]. by rewrite lookup_copy_at by lia.
  - destruct s.(is_pooling_model) eqn:Hp; [done|]. destruct (Hvac Hp) as [Hg Hb]. unfold par_row. simpl.
    by rewrite !lookup_copy_at, !lookup_move_dict by (done || lia).
Qed.

Lemma move_down_ok s mrows w i j name :
  Sizes s mrows w -> s.(req_ids) !! i = Some (Some name) -> (j < length s.(req_ids))%nat -> i <> j -> vacant s j ->
  wp (move_down i j) s (fun _ s' => exists mrows', Sizes s' mrows' w /\ (forall k, k <> i -> row s' mrows' k = row s mrows (pulled i j k))
    /\ same_setup s s' /\ same_dicts s s' /\ vacant s' i /\ s'.(req_ids) = <[i := None]> (copy_at i j s.(req_ids)) /\ s'.(req_id_to_index) = <[name := j]> s.(req_id_to_index)
    /\ s'.(upd).(removed) = s.(upd).(removed) /\ s'.(upd).(is_removed_sorted) = s.(upd).(is_removed_sorted)).
Proof.
  intros HS Hr Hj Hij Hvac. pose proof (lookup_lt_Some _ _ _ Hr) as Hi.
  pose proof (sz_ids _ _ _ HS). pose proof (sz_outputs _ _ _ HS) as Hlo. pose proof (sz_spec _ _ _ HS).
  destruct (lookup_lt_is_Some_2 s.(req_output_token_ids) i) as [out Hout]; [lia|]. destruct (lookup_lt_is_Some_2 s.(spec_token_ids) i) as [x Hx]; [lia|].
  destruct (lookup_lt_is_Some_2 s.(spec_token_ids) j) as [y Hy]; [lia|].
  assert (E1 : list_set s.(req_ids) j (Some name) = Ok (copy_at i j s.(req_ids))) by (unfold list_set, copy_at; rewrite Hr; by rewrite decide_True by lia).
  assert (E2 : list_set s.(req_output_token_ids) j out = Ok (copy_at i j s.(req_output_token_ids))) by (unfold list_set, copy_at; rewrite Hout; by rewrite decide_True by lia).
  unfold move_down. wp_steps. unfold id. eapply wp_lift_ok; [by apply np_get_ok|]. wp_steps. eapply wp_lift_ok; [by apply np_get_ok|]. wp_steps.
  eapply wp_lift_ok; [exact E1|]. wp_steps. eapply wp_lift_ok; [exact E2|]. wp_steps. eapply wp_lift_ok; [by apply np_get_ok|]. wp_steps.
  eapply wp_lift_ok; [by apply np_get_ok|]. wp_steps. unfold on_tables_of. apply wp_zoom. simpl.
  eapply wp_mono; [apply (move_tables_ok s.(ib_max_num_reqs) mrows); [apply HS|lia|lia]|]. intros ? ts' [Hts Hcfg]. wp_steps. simpl.
  destruct s.(is_pooling_model) eqn:Hp; wp_steps; exists (moved_tables i j mrows);
    match goal with |- Sizes ?s1 _ _ /\ _ => assert (HW : Moved i j s s1) by (split; rewrite ?Hp; done) end;
    (split; [by eapply moved_sizes|]); (split; [intros k Hk; by eapply moved_rows|]); (split_and!; try done).
  - unfold vacant. simpl. by rewrite Hp.
  - intros _. simpl. by rewrite !move_dict_source.
Qed.

(** ** Holes *)

#[local] Instance descending_total : Total descending.
Proof. intros i j. unfold descending. lia. Qed.

#[local] Instance descending_trans : Transitive descending.
Proof. intros i j k. unfold descending. lia. Qed.

Lemma last_smallest (l : list nat) x : StronglySorted descending l -> last l = Some x -> forall y, y ∈ l -> (x <= y)%nat.
Proof.
  induction 1 as [|a l Hs IH Ha]; [done|]. destruct l as [|b l]; [simpl; intros [= ->] y ->%list_elem_of_singleton; lia|].
  rewrite last_cons_cons. intros Hl y [->|Hy]%elem_of_cons; [|by apply IH]. rewrite Forall_forall in Ha. apply (Ha x). by apply last_Some_elem_of.
Qed.

Lemma removelast_sorted (l : list nat) x : last l = Some x -> StronglySorted descending l -> StronglySorted descending (removelast l).
Proof.
  intros [l' ->]%last_Some Hs. rewrite removelast_last. clear -Hs. induction l' as [|a l IH]; [constructor|]. simpl in Hs. apply StronglySorted_inv in Hs as [Hs Ha].
  constructor; [by apply IH|]. by apply Forall_app in Ha as [? _].
Qed.

Lemma ensure_sorted_spec u :
  (u.(is_removed_sorted) = true -> StronglySorted descending u.(removed)) ->
  let u' := ensure_removed_sorted u in
  StronglySorted descending u'.(removed) /\ u'.(removed) ≡ₚ u.(removed) /\ u'.(is_removed_sorted) = true.
Proof.
  intros Hs. unfold ensure_removed_sorted. destruct u.(is_removed_sorted) eqn:E; simpl; [split_and!; [by apply Hs|done|done]|].
  split_and!; [by apply StronglySorted_merge_sort; apply _|apply merge_sort_Permutation|done].
Qed.

Lemma largest_used_spec empties last :
  let r := largest_used empties last in
  -1 <= r <= Z.of_nat last /\ (forall i, r < Z.of_nat i <= Z.of_nat last -> i ∈ empties) /\ (0 <= r -> Z.to_nat r ∉ empties).
Proof.
  induction last as [|n IH]; cbn [largest_used]; case_decide as Hd.
  - split_and!; [lia|lia| |lia]. intros i Hi. by replace i with 0%nat by lia.
  - split_and!; [lia|lia| |intros _; by rewrite Nat2Z.id]. intros i Hi. lia.
  - destruct IH as (H1 & H2 & H3). split_and!; [lia|lia| |done]. intros i Hi. destruct (decide (i = S n)) as [->|]; [done|]. apply H2. lia.
  - split_and!; [lia|lia| |intros _; by rewrite Nat2Z.id]. intros i Hi. lia.
Qed.

Lemma skip_empty_spec empties last :
  -1 <= last ->
  let r := skip_empty empties last in
  -1 <= r <= last /\ (forall i, r < Z.of_nat i <= last -> i ∈ empties) /\ (0 <= r -> Z.to_nat r ∉ empties).
Proof.
  intros Hl. unfold skip_empty. destruct (Z.ltb_spec last 0); [split_and!; lia|].
  pose proof (largest_used_spec empties (Z.to_nat last)) as Hs. rewrite Z2Nat.id in Hs by lia. exact Hs.
Qed.

(** ** Who is where *)

(** The dict of indices is the inverse of the list of ids. *)
Definition indexed (s : InputBatch) : Prop := forall name i, s.(req_id_to_index) !! name = Some i <-> s.(req_ids) !! i = Some (Some name).

(** The holes of the list: indices, and rows without entries in the dicts. *)
Definition holes_vacant (s : InputBatch) : Prop := forall i, (forall name, s.(req_ids) !! i <> Some (Some name)) -> vacant s i.

(** The used indices and the holes make up the list. *)
Lemma index_count s holes :
  indexed s -> NoDup holes -> (forall i, i ∈ holes <-> s.(req_ids) !! i = Some None) -> (num_reqs s + length holes = length s.(req_ids))%nat.
Proof.
  intros Hi Hnd Hh. set (used := (map_to_list s.(req_id_to_index)).*2).
  assert (Hused : forall i, i ∈ used <-> exists name, s.(req_ids) !! i = Some (Some name)).
  { intros i. unfold used. rewrite list_elem_of_fmap. split.
    - intros ([name i'] & -> & Hx%elem_of_map_to_list). exists name. by apply Hi.
    - intros [name Hn%Hi]. exists (name, i). split; [done|by apply elem_of_map_to_list]. }
  assert (Hp : used ++ holes ≡ₚ seq 0 (length s.(req_ids))).
  { apply NoDup_Permutation; [|apply NoDup_seq|].
    - apply NoDup_app. split_and!; [|intros i [name Hn]%Hused ?%Hh; congruence|done]. apply NoDup_fmap_2_strong; [|apply NoDup_map_to_list].
      intros [n i] [n' i'] Hx%elem_of_map_to_list%Hi Hy%elem_of_map_to_list%Hi. simpl. intros <-. congruence.
    - intros i. rewrite elem_of_app, Hused, Hh, elem_of_seq. split.
      + intros [[name Hn]|Hn]; apply lookup_lt_Some in Hn; lia.
      + intros [_ Hlt]. destruct (lookup_lt_is_Some_2 s.(req_ids) i) as [[name|] Hx]; [lia|left; eauto|by right]. }
  apply Permutation_length in Hp. rewrite length_app, length_seq in Hp. unfold used in Hp. rewrite length_fmap, length_map_to_list in Hp. done.
Qed.

(** ** Condensing *)

(** Every request of [s] is in [s'], in a row with the same contents. *)
Record Carried (s s' : InputBatch) (mrows mrows' : list (list (list Z))) : Prop := {
  ca_setup : same_setup s s';
  ca_dicts : same_dicts s s';
  ca_dom : forall name, is_Some (s'.(req_id_to_index) !! name) <-> is_Some (s.(req_id_to_index) !! name);
  ca_row : forall name i, s.(req_id_to_index) !! name = Some i ->
    exists i', s'.(req_id_to_index) !! name = Some i' /\ row s' mrows' i' = row s mrows i;
}.

Lemma carried_refl s mrows : Carried s s mrows mrows.
Proof. split; [done|done|done|]. intros name i Hi. by exists i. Qed.

Lemma carried_trans s1 s2 s3 m1 m2 m3 : Carried s1 s2 m1 m2 -> Carried s2 s3 m2 m3 -> Carried s1 s3 m1 m3.
Proof.
  intros [E1 F1 D1 R1] [E2 F2 D2 R2]. split.
  - by etrans.
  - destruct F1 as (? & ? & ?), F2 as (? & ? & ?). split_and!; congruence.
  - intros name. by rewrite D2, D1.
  - intros name i Hi. destruct (R1 name i Hi) as (i2 & H2 & E). destruct (R2 name i2 H2) as (i3 & H3 & E'). exists i3. split; [done|congruence].
Qed.

(** In the loop: the holes up to [last] are those still listed; behind it there are only
    holes. *)
Record Looping (s : InputBatch) (mrows : list (list (list Z))) (w : nat) (last : Z) : Prop := {
  lp_sizes : Sizes s mrows w;
  lp_indexed : indexed s;
  lp_vacant : holes_vacant s;
  lp_sorted : StronglySorted descending s.(upd).(removed);
  lp_flag : s.(upd).(is_removed_sorted) = true;
  lp_nodup : NoDup s.(upd).(removed);
  lp_last : -1 <= last < Z.of_nat (length s.(req_ids));
  lp_holes : forall i, (i < length s.(req_ids))%nat -> Z.of_nat i <= last -> s.(req_ids) !! i = Some None <-> i ∈ s.(upd).(removed);
  lp_behind : forall i, (i < length s.(req_ids))%nat -> last < Z.of_nat i -> s.(req_ids) !! i = Some None;
  lp_range : forall i, i ∈ s.(upd).(removed) -> (i < length s.(req_ids))%nat;
}.

(** All requests are in front. *)
Record Packed (s : InputBatch) (mrows : list (list (list Z))) (w : nat) (len : nat) : Prop := {
  pk_sizes : Sizes s mrows w;
  pk_indexed : indexed s;
  pk_vacant : holes_vacant s;
  pk_flag : s.(upd).(is_removed_sorted) = true;
  pk_length : length s.(req_ids) = len;
  pk_front : exists c : nat, (c <= len)%nat /\ (forall i, (i < c)%nat -> exists name, s.(req_ids) !! i = Some (Some name))
    /\ forall i, (c <= i < len)%nat -> s.(req_ids) !! i = Some None;
}.

(** No listed hole below [r], which is used or -1: the used rows are those up to [r]. *)
Lemma looping_packed s mrows w last r :
  Looping s mrows w last -> -1 <= r <= last -> (forall i, r < Z.of_nat i <= last -> i ∈ s.(upd).(removed)) ->
  (forall i, i ∈ s.(upd).(removed) -> r < Z.of_nat i) -> Packed s mrows w (length s.(req_ids)).
Proof.
  intros [HS Hx Hv Hso Hfl Hnd Hla Hho Hbe Hra] Hr Hup Hlow. split; try done. exists (Z.to_nat (r + 1)). split_and!; [lia| |].
  - intros i Hi. destruct (lookup_lt_is_Some_2 s.(req_ids) i) as [[name|] Hn]; [lia|by exists name|].
    apply Hho in Hn; [|lia|lia]. apply Hlow in Hn. lia.
  - intros i Hi. destruct (Z.le_gt_cases (Z.of_nat i) last) as [Hle|Hgt]; [|apply Hbe; lia]. apply Hho; [lia|done|]. apply Hup. lia.
Qed.

Lemma copy_at_spec {A} (l : list A) i j x : l !! i = Some x -> copy_at i j l = <[j := x]> l.
Proof. unfold copy_at. by intros ->. Qed.

(** One round: the request in row [i] moves into the hole [j]. *)
Lemma looping_move s s' mrows mrows' w last i j name rest :
  Looping s mrows w last -> s.(upd).(removed) = rest ++ [j] -> s.(req_ids) !! i = Some (Some name) -> (j < i)%nat -> Z.of_nat i <= last ->
  (forall k, Z.of_nat i < Z.of_nat k <= last -> k ∈ s.(upd).(removed)) ->
  Sizes s' mrows' w -> (forall k, k <> i -> row s' mrows' k = row s mrows (pulled i j k)) -> same_setup s s' -> same_dicts s s' -> vacant s' i ->
  s'.(req_ids) = <[i := None]> (copy_at i j s.(req_ids)) -> s'.(req_id_to_index) = <[name := j]> s.(req_id_to_index) ->
  s'.(upd).(removed) = rest -> s'.(upd).(is_removed_sorted) = true ->
  Looping s' mrows' w (Z.of_nat i - 1) /\ Carried s s' mrows mrows' /\ length s'.(req_ids) = length s.(req_ids).
Proof.
  intros [HS Hx Hv Hso Hfl Hnd Hla Hho Hbe Hra] Hrem Hi Hji Hil Hup HS' Hrow Hset Hdict Hvi Hids Hidx Hrm Hsf.
  rewrite (copy_at_spec _ i j _ Hi) in Hids. pose proof (lookup_lt_Some _ _ _ Hi) as Hilt.
  assert (Hlen : length s'.(req_ids) = length s.(req_ids)) by (by rewrite Hids, !length_insert).
  assert (Hnr : NoDup rest /\ j ∉ rest). { rewrite Hrem in Hnd. apply NoDup_app in Hnd as (? & Hd & _). split; [done|]. intros Hj. apply (Hd j Hj). by left. }
  assert (Hget : forall k, (k < length s.(req_ids))%nat -> s'.(req_ids) !! k = if decide (k = i) then Some None else if decide (k = j) then Some (Some name) else s.(req_ids) !! k).
  { intros k Hk. rewrite Hids. destruct (decide (k = i)) as [->|Hki]; [apply list_lookup_insert_eq; by rewrite length_insert|].
    rewrite list_lookup_insert_ne by done. destruct (decide (k = j)) as [->|Hkj]; [apply list_lookup_insert_eq; lia|by rewrite list_lookup_insert_ne]. }
  assert (Hj : s.(req_ids) !! j = Some None). { apply Hho; [lia|lia|]. rewrite Hrem. apply elem_of_app. right. by left. }
  assert (Hindexed : indexed s').
  { intros nm k. rewrite Hidx, lookup_insert_Some. destruct (decide (k < length s.(req_ids))%nat) as [Hk|Hk].
    - rewrite (Hget k Hk). split.
      + intros [[<- <-]|[Hne Hn]]; [rewrite decide_False, decide_True by lia; done|]. apply Hx in Hn.
        rewrite decide_False, decide_False by congruence. done.
      + repeat case_decide; [done| |].
        * intros [= <-]. by left.
        * intros Hn. right. split; [|by apply Hx]. intros ->. apply Hx in Hn. apply Hx in Hi. congruence.
    - rewrite (lookup_ge_None_2 s'.(req_ids) k) by lia. split; [|done]. intros [[_ <-]|[_ Hn%Hx%lookup_lt_Some]]; lia. }
  split; [split; try done; try lia|split; [split; [done|done| |]|done]].
  - intros k Hk. destruct (decide (k = i)) as [->|Hki]; [done|]. unfold vacant. destruct Hset as (_ & _ & Ep & _). rewrite Ep. intros Hpool.
    assert (Hpar : par_row s'.(params) k = par_row s.(params) (pulled i j k)).
    { pose proof (f_equal w_params (Hrow k Hki)) as E. unfold row in E. simpl in E. rewrite Ep, Hpool in E. by apply (inj Some) in E. }
    assert (Hkj : k <> j). { intros ->. apply (Hk name). rewrite (Hget j) by lia. by rewrite decide_False, decide_True by lia. }
    unfold pulled in Hpar. rewrite decide_False in Hpar by done.
    pose proof (f_equal pr_generator Hpar) as Eg. pose proof (f_equal pr_bad_words Hpar) as Eb. simpl in Eg, Eb. rewrite Eg, Eb. apply Hv; [|done]. intros nm Hn.
    apply (Hk nm). pose proof (lookup_lt_Some _ _ _ Hn). rewrite (Hget k) by done. by rewrite !decide_False.
  - rewrite Hrm. rewrite Hrem in Hso. by eapply StronglySorted_app_1_l.
  - rewrite Hrm. apply Hnr.
  - intros k Hk Hki. rewrite Hlen in Hk. rewrite Hget, Hrm, decide_False by lia. case_decide as Hkj; [subst; naive_solver|].
    rewrite Hho by lia. rewrite Hrem, elem_of_app, list_elem_of_singleton. naive_solver.
  - intros k Hk Hki. rewrite Hlen in Hk. rewrite Hget by done. case_decide as He; [done|]. rewrite decide_False by lia.
    destruct (Z.le_gt_cases (Z.of_nat k) last); [|by apply Hbe; lia]. apply Hho; [done|done|]. apply Hup. lia.
  - intros k Hk. rewrite Hlen. apply Hra. rewrite Hrem. apply elem_of_app. left. by rewrite <- Hrm.
  - intros nm. rewrite Hidx, lookup_insert_is_Some'. split; [|by right]. intros [<-|?]; [|done]. apply Hx in Hi. eauto.
  - intros nm k Hk. destruct (decide (nm = name)) as [->|Hne].
    + exists j. rewrite Hidx, lookup_insert_eq. split; [done|]. rewrite Hrow by lia. apply Hx in Hk. apply Hx in Hk. apply Hx in Hi. assert (k = i) as -> by congruence.
      unfold pulled. by rewrite decide_True.
    + exists k. rewrite Hidx, lookup_insert_ne by done. split; [done|]. apply Hx in Hk. rewrite Hrow by congruence. unfold pulled. rewrite decide_False by congruence. done.
Qed.

Lemma set_upd_id s : set_upd s.(upd) s = s.
Proof. by destruct s. Qed.

Lemma peek_ok s rest j :
  s.(upd).(is_removed_sorted) = true -> s.(upd).(removed) = rest ++ [j] -> wp (on_upd peek_removed) s (fun o s' => o = Some j /\ s' = s).
Proof.
  intros Hf Hr. unfold on_upd. apply wp_zoom. unfold peek_removed. wp_steps. unfold id. rewrite bool_decide_false by (rewrite Hr; by destruct rest).
  wp_steps. unfold ensure_removed_sorted. rewrite Hf, Hr, last_snoc. split; [done|apply set_upd_id].
Qed.

Lemma pop_ok s rest j :
  s.(upd).(is_removed_sorted) = true -> s.(upd).(removed) = rest ++ [j] ->
  wp (on_upd pop_removed) s (fun o s' => o = Some j /\ s' = set_upd (mkBuilder rest true s.(upd).(added) s.(upd).(moved) s.(upd).(batch_changed)) s).
Proof.
  intros Hf Hr. unfold on_upd. apply wp_zoom. unfold pop_removed. wp_steps. unfold id. rewrite bool_decide_false by (rewrite Hr; by destruct rest).
  wp_steps. unfold ensure_removed_sorted. rewrite Hf. unfold id. by rewrite Hr, last_snoc, removelast_last, Hf.
Qed.

Lemma condense_loop_ok fuel s mrows w last :
  Looping s mrows w last -> (length s.(upd).(removed) <= fuel)%nat ->
  wp (condense_loop fuel last) s (fun _ s' => exists mrows', Packed s' mrows' w (length s.(req_ids)) /\ Carried s s' mrows mrows').
Proof.
  revert s mrows last. induction fuel as [|fuel IH]; intros s mrows last HL Hfuel; cbn [condense_loop]; wp_steps; unfold id.
  all: case_bool_decide as Hnil; [wp_steps; exists mrows; split; [|apply carried_refl]; apply (looping_packed s mrows w last last HL); [destruct HL; lia|lia|rewrite Hnil; by intros i ?%elem_of_nil]|].
  { destruct s.(upd).(removed); [done|simpl in Hfuel; lia]. }
  destruct (skip_empty_spec s.(upd).(removed) last) as (Hr & Hup & Hused); [destruct HL; lia|]. set (r := skip_empty s.(upd).(removed) last) in *.
  destruct (exists_last Hnil) as (rest & j & Hrem). wp_step. eapply wp_mono; [by apply (peek_ok s rest j); [apply HL|]|]. intros o s0 [-> ->].
  assert (Hlow : forall i, i ∈ s.(upd).(removed) -> (j <= i)%nat).
  { intros i Hi. eapply last_smallest; [apply HL| |exact Hi]. by rewrite Hrem, last_snoc. }
  destruct (Z.leb_spec r (Z.of_nat j)) as [Hle|Hgt].
  { wp_steps. exists mrows. split; [|apply carried_refl]. apply (looping_packed s mrows w last r HL); [lia|done|]. intros i Hi. pose proof (Hlow i Hi).
    destruct (decide (Z.of_nat i = r)) as [He|]; [|lia]. destruct Hused; [lia|]. by replace (Z.to_nat r) with i by lia. }
  assert (Hrl : (Z.to_nat r < length s.(req_ids))%nat) by (destruct HL; lia).
  destruct (lookup_lt_is_Some_2 s.(req_ids) (Z.to_nat r) Hrl) as [[name|] Hn].
  2: { exfalso. apply (lp_holes _ _ _ _ HL) in Hn; [|lia|lia]. by apply Hused; [lia|]. }
  wp_step. eapply wp_mono; [by apply (pop_ok s rest j); [apply HL|]|]. intros _ s1 [_ ->]. set (s1 := set_upd _ s).
  assert (HS1 : Sizes s1 mrows w) by (destruct (lp_sizes _ _ _ _ HL); by split).
  assert (Hj : s.(req_ids) !! j = Some None). { apply (lp_holes _ _ _ _ HL); [lia|lia|]. rewrite Hrem. apply elem_of_app. right. by left. }
  wp_step. eapply wp_mono; [apply (move_down_ok s1 mrows w (Z.to_nat r) j name HS1 Hn); simpl; [lia|lia|]|].
  { apply (lp_vacant _ _ _ _ HL). intros nm. rewrite Hj. done. }
  intros _ s' (mrows' & HS' & Hrow & Hset & Hdict & Hvac & Hids & Hidx & Hrm & Hsf).
  destruct (looping_move s s' mrows mrows' w last (Z.to_nat r) j name rest) as (HL' & HC & Hlen); try done; try lia.
  { intros k Hk. apply Hup. lia. }
  rewrite Z2Nat.id in HL' by lia. eapply wp_mono; [apply (IH s' mrows' (r - 1) HL')|].
  - rewrite Hrm. simpl. rewrite Hrem, length_app in Hfuel. simpl in Hfuel. lia.
  - intros _ s'' (mrows'' & HP & HC'). exists mrows''. rewrite <- Hlen. split; [done|by eapply carried_trans].
Qed.

(** ** Between and within steps *)

(** While requests are removed and added: the holes are the removed indices. *)
Record Open (s : InputBatch) (mrows : list (list (list Z))) (w : nat) : Prop := {
  op_sizes : Sizes s mrows w;
  op_indexed : indexed s;
  op_vacant : holes_vacant s;
  op_nodup : NoDup s.(upd).(removed);
  op_holes : forall i, i ∈ s.(upd).(removed) <-> s.(req_ids) !! i = Some None;
  op_sorted : s.(upd).(is_removed_sorted) = true -> StronglySorted descending s.(upd).(removed);
}.

(** After [condense]: there are no holes. *)
Record Dense (s : InputBatch) (mrows : list (list (list Z))) (w : nat) : Prop := {
  de_sizes : Sizes s mrows w;
  de_indexed : indexed s;
  de_vacant : holes_vacant s;
  de_full : forall i, s.(req_ids) !! i <> Some None;
}.

Lemma packed_count s mrows w len :
  Packed s mrows w len -> (num_reqs s <= len)%nat /\ (forall i, (i < num_reqs s)%nat <-> exists name, s.(req_ids) !! i = Some (Some name)).
Proof.
  intros [HS Hx _ _ Hlen (c & Hc & Hf & Hb)]. pose proof (index_count s (seq c (len - c)) Hx (NoDup_seq _ _)) as Hn.
  rewrite length_seq, Hlen in Hn. assert (num_reqs s = c) as ->.
  - cut (num_reqs s + (len - c) = len)%nat; [lia|]. apply Hn. intros i. rewrite elem_of_seq. split; [intros; apply Hb; lia|]. intros Hi.
    pose proof (lookup_lt_Some _ _ _ Hi). destruct (decide (i < c)%nat) as [Hlt|]; [|lia]. destruct (Hf i Hlt). congruence.
  - split; [done|]. intros i. split; [apply Hf|]. intros [name Hi]. destruct (decide (i < c)%nat); [done|].
    pose proof (lookup_lt_Some _ _ _ Hi). rewrite Hb in Hi by lia. done.
Qed.

Lemma carried_num s s' m m' : Carried s s' m m' -> num_reqs s' = num_reqs s.
Proof.
  intros [_ _ Hd _]. unfold num_reqs. rewrite <- !size_dom. f_equal. apply set_eq. intros name. by rewrite !elem_of_dom, Hd.
Qed.

(** Trimming the lists to the used rows. *)
Lemma trim_dense s mrows w len :
  Packed s mrows w len ->
  let n := num_reqs s in
  let s' := set_lists (take n s.(req_ids)) s.(req_id_to_index) (take n s.(req_output_token_ids)) (take n s.(spec_token_ids)) s in
  Dense s' mrows w /\ Carried s s' mrows mrows.
Proof.
  intros HP n s'. destruct (packed_count _ _ _ _ HP) as [Hle Hfront]. fold n in Hle, Hfront. destruct HP as [HS Hx Hv _ Hlen _].
  pose proof (sz_ids _ _ _ HS). pose proof (sz_outputs _ _ _ HS). pose proof (sz_spec _ _ _ HS).
  assert (Hids : forall i o, s'.(req_ids) !! i = Some o <-> s.(req_ids) !! i = Some o /\ (i < n)%nat) by (intros i o; apply lookup_take_Some).
  assert (Hname : forall i name, s'.(req_ids) !! i = Some (Some name) <-> s.(req_ids) !! i = Some (Some name)).
  { intros i name. rewrite Hids. split; [tauto|]. intros Hi. split; [done|]. apply Hfront. eauto. }
  split; [split|split].
  - destruct HS. split; simpl; try done; rewrite ?length_take; [lia|lia|lia|]. intros k l Hk. rewrite lookup_ge_None_2; [done|]. rewrite length_take. lia.
  - intros name i. rewrite Hname. apply Hx.
  - intros i Hi. apply Hv. intros name. rewrite <- Hname. apply Hi.
  - intros i [Hi Hlt]%Hids. apply Hfront in Hlt as [name Hn]. congruence.
  - done.
  - done.
  - done.
  - intros name i Hi. exists i. split; [done|]. apply Hx in Hi. assert (Hlt : (i < n)%nat) by (apply Hfront; eauto).
    unfold row, get_active_token_count. simpl. by rewrite !lookup_take_lt by done.
Qed.

Lemma open_looping s mrows w : Open s mrows w -> s.(upd).(is_removed_sorted) = true ->
  Looping s mrows w (Z.of_nat (num_reqs s) + Z.of_nat (length s.(upd).(removed)) - 1).
Proof.
  intros [HS Hx Hv Hnd Hh Hso] Hf. pose proof (index_count s _ Hx Hnd Hh) as Hn. split; [done|done|done|by apply Hso|done|done|lia| | |].
  - intros i Hi _. symmetry. apply Hh.
  - intros i Hi Hlt. lia.
  - intros i Hi%Hh. by eapply lookup_lt_Some.
Qed.

(** Other batch updates do not matter. *)
Lemma open_upd s mrows w u :
  Open s mrows w -> u.(removed) ≡ₚ s.(upd).(removed) -> (u.(is_removed_sorted) = true -> StronglySorted descending u.(removed)) -> Open (set_upd u s) mrows w.
Proof.
  intros [HS Hx Hv Hnd Hh Hso] Hp Hs. split; simpl; try done; [destruct HS; by split|by rewrite Hp|]. intros i. rewrite Hp. apply Hh.
Qed.

Lemma dense_upd s mrows w u : Dense s mrows w -> Dense (set_upd u s) mrows w.
Proof. intros [HS Hx Hv Hfull]. split; try done. destruct HS. by split. Qed.

Lemma carried_upd s mrows u : Carried s (set_upd u s) mrows mrows.
Proof. split; [done|done|done|]. intros name i Hi. by exists i. Qed.

Lemma condense_ok s mrows w :
  Open s mrows w -> wp condense s (fun _ s' => exists mrows', Dense s' mrows' w /\ Carried s s' mrows mrows').
Proof.
  intros HO. unfold condense. wp_step. wp_step. wp_step. wp_step. wp_step. wp_step. simpl. unfold id.
  destruct (ensure_sorted_spec s.(upd) (op_sorted _ _ _ HO)) as (Hso & Hperm & Hf). set (u := ensure_removed_sorted s.(upd)) in *.
  set (s1 := set_upd u s). assert (HO1 : Open s1 mrows w) by (by apply open_upd). assert (HC1 : Carried s s1 mrows mrows) by apply carried_upd. change (upd s1) with u.
  case_bool_decide as Hnil.
  { wp_steps. exists mrows. split; [|done]. destruct HO1 as [HS Hx Hv Hnd Hh _]. split; try done. intros i Hi%Hh. simpl in Hi. rewrite Hnil in Hi. by apply elem_of_nil in Hi. }
  case_decide as Hnum.
  { wp_steps. exists mrows. unfold num_reqs in Hnum. apply map_size_empty_iff in Hnum. destruct HO1 as [HS Hx Hv Hnd Hh _].
    assert (Hall : forall i, vacant s i) by (intros i; apply Hv; intros name Hn%Hx; simpl in Hn; by rewrite Hnum in Hn).
    split.
    - split; [destruct HS; split; simpl; try done; lia| |intros i _; apply Hall|intros i; simpl; by rewrite lookup_nil].
      intros name i. simpl. by rewrite Hnum, lookup_empty, lookup_nil.
    - split; [done|done|done|]. intros name i. by rewrite Hnum, lookup_empty. }
  wp_step. eapply wp_mono; [apply (condense_loop_ok _ s1 mrows w); [apply (open_looping s1 mrows w HO1 Hf)|done]|].
  intros _ s2 (mrows' & HP & HC2). wp_steps. exists mrows'. pose proof (carried_num _ _ _ _ HC2) as Hn. change (num_reqs s1) with (num_reqs s) in Hn. rewrite <- Hn.
  destruct (trim_dense _ _ _ _ HP) as [HD HC3]. split; [done|]. eapply carried_trans; [exact HC1|]. eapply carried_trans; [exact HC2|exact HC3].
Qed.
