(* ===== verification/InputBatchOps.v ===== *)
(** * The persistent batch: requests

    The row of a request mirrors its cached state ([mirror]); what adding, removing and
    updating a request do to its row, and that they leave the other rows alone. *)

From Stdlib Require Import SpecFloat.
From stdpp Require Import sorting.
From S2P Require Import Prelude BlockTable BlockTableProps InputBatch InputBatchProps.

(** ** Swapping *)

Lemma indexed_inj s name name' i : indexed s -> s.(req_id_to_index) !! name = Some i -> s.(req_id_to_index) !! name' = Some i -> name = name'.
Proof. intros Hx H1%Hx H2%Hx. congruence. Qed.

Lemma row_vacant s s' mrows mrows' k k' :
  same_setup s s' -> row s' mrows' k = row s mrows k' -> vacant s k' -> vacant s' k.
Proof.
  intros (_ & _ & Ep & _) Hrow Hv Hpool. rewrite Ep in Hpool. pose proof (f_equal w_params Hrow) as E. unfold row in E. simpl in E. rewrite Ep, Hpool in E.
  apply (inj Some) in E. pose proof (f_equal pr_generator E) as Eg. pose proof (f_equal pr_bad_words E) as Eb. simpl in Eg, Eb. rewrite Eg, Eb. by apply Hv.
Qed.

Lemma swapped_invol i j k : swapped i j (swapped i j k) = k.
Proof. unfold swapped. repeat case_decide; congruence. Qed.

Lemma dense_swap s mrows w i1 i2 :
  Dense s mrows w -> (i1 < length s.(req_ids))%nat -> (i2 < length s.(req_ids))%nat ->
  wp (swap_states i1 i2) s (fun _ s' => exists mrows', Dense s' mrows' w /\ Carried s s' mrows mrows' /\ length s'.(req_ids) = length s.(req_ids)
    /\ rows_from (swapped i1 i2) s s' mrows mrows').
Proof.
  intros [HS Hx Hv Hfull] H1 H2. destruct (lookup_lt_is_Some_2 _ _ H1) as [[id1|] Hn1]; [|by apply Hfull in Hn1].
  destruct (lookup_lt_is_Some_2 _ _ H2) as [[id2|] Hn2]; [|by apply Hfull in Hn2]. pose proof (sz_ids _ _ _ HS) as Hmax.
  eapply wp_mono; [apply (swap_states_ok s mrows w i1 i2 id1 id2 HS Hn1 Hn2); by apply Hx|].
  intros _ s' (mrows' & HS' & Hrow & Hset & Hdict & Hidx & Hlen & _ & _). exists mrows'.
  assert (Hname : forall k, s'.(req_ids) !! k = s.(req_ids) !! swapped i1 i2 k).
  { intros k. exact (f_equal w_name (Hrow k)). }
  assert (Hx' : forall name i, s'.(req_id_to_index) !! name = Some i <-> s.(req_id_to_index) !! name = Some (swapped i1 i2 i)).
  { intros name i. rewrite Hidx. destruct (decide (name = id2)) as [->|Hne2].
    - rewrite lookup_insert_eq. apply Hx in Hn2. rewrite Hn2. unfold swapped. split; [intros [= <-]; repeat case_decide; congruence|].
      intros [= E]. repeat case_decide; congruence.
    - rewrite lookup_insert_ne by done. destruct (decide (name = id1)) as [->|Hne1].
      + rewrite lookup_insert_eq. apply Hx in Hn1. rewrite Hn1. unfold swapped. split; [intros [= <-]; by rewrite decide_True|].
        intros [= E]. repeat case_decide; congruence.
      + rewrite lookup_insert_ne by done. assert (Hsw : forall k, s.(req_id_to_index) !! name = Some k -> swapped i1 i2 k = k).
        { intros k Hk%Hx. unfold swapped. repeat case_decide; congruence. }
        split; intros Hk; [by rewrite (Hsw _ Hk)|]. pose proof (Hsw _ Hk) as E. rewrite swapped_invol in E. by rewrite E. }
  split_and!; [split| |done|done].
  - done.
  - intros name i. rewrite Hx', Hname. apply Hx.
  - intros i Hi. apply (row_vacant s s' mrows mrows' i (swapped i1 i2 i) Hset (Hrow i)). apply Hv. intros name. rewrite <- Hname. apply Hi.
  - intros i. rewrite Hname. apply Hfull.
  - split; [done|done| |].
    + intros name. split; intros [i Hi]; [apply Hx' in Hi; eauto|]. exists (swapped i1 i2 i). apply Hx'. by rewrite swapped_invol.
    + intros name i Hi. exists (swapped i1 i2 i). split; [apply Hx'; by rewrite swapped_invol|]. by rewrite Hrow, swapped_invol.
Qed.

(** ** Mirrors *)

Definition prompt_len (r : CachedRequestState) : Z :=
  match length_from_prompt_token_ids_or_embeds r.(prompt_token_ids) r.(prompt_embeds) with Ok n => n | Raise _ => 0 end.

Definition total_len (r : CachedRequestState) : nat := Z.to_nat (cr_num_tokens r (prompt_len r)).

(** The flags of the prompt. *)
Definition prompt_flags (r : CachedRequestState) : list bool :=
  match r.(prompt_token_ids), r.(prompt_is_token_ids) with
  | Some _, Some flags => flags
  | Some _, None => replicate (Z.to_nat (prompt_len r)) true
  | None, _ => replicate (Z.to_nat (prompt_len r)) false
  end.

(** The tokens known of a request; those of an embedded prompt are not. *)
Definition knows (r : CachedRequestState) (l : list Z) : Prop :=
  match r.(prompt_token_ids) with
  | Some p => l = p ++ r.(output_token_ids)
  | None => drop (Z.to_nat (prompt_len r)) l = r.(output_token_ids)
  end.

Definition par_of (vocab : Z) (r : CachedRequestState) (p : SamplingParams) (accepted : option Z) : ParRow :=
  mkParRow (Some (if p.(greedy) then float_zero else float32 p.(temperature))) (Some (float32 p.(top_p)))
    (Some (if (0 <? p.(top_k)) && (p.(top_k) <? vocab) then p.(top_k) else vocab)) (Some (float32 p.(frequency_penalty)))
    (Some (float32 p.(presence_penalty))) (Some (float32 p.(repetition_penalty))) accepted r.(generator)
    (if bool_decide (p.(bad_words_of) = []) then None else Some p.(bad_words_of)).

Definition lora_of (r : CachedRequestState) : Z := match r.(lora_request) with Some (l, _) => l | None => 0 end.

(** The row [x] holds the state of [r]. *)
Record mirror (vocab : Z) (x : Row) (r : CachedRequestState) : Prop := {
  mi_name : x.(w_name) = Some (Some r.(req_id));
  mi_output : x.(w_output) = Some (Some r.(req_id));
  mi_prompt : x.(w_prompt) = Some (prompt_len r);
  mi_no_spec : x.(w_no_spec) = Some (cr_num_tokens r (prompt_len r));
  mi_tokens : exists l, x.(w_tokens) = Some l /\ (total_len r <= length l)%nat /\ knows r (take (total_len r) l);
  mi_flags : exists f, x.(w_flags) = Some f /\ take (total_len r) f = prompt_flags r ++ replicate (length r.(output_token_ids)) true;
  mi_computed : x.(w_computed) = Some r.(cr_num_computed_tokens);
  mi_blocks : x.(w_blocks) = Some <$> r.(block_ids);
  mi_lora : x.(w_lora) = Some (lora_of r);
  mi_params : forall y, x.(w_params) = Some y -> exists p acc, r.(sampling_params) = Some p /\ y = par_of vocab r p acc;
}.

(** Requests the batch can hold: [w] is the longest sequence, and the blocks fit. *)
Record can_hold (s : InputBatch) (w : nat) (r : CachedRequestState) : Prop := {
  ch_prompt : exists n, length_from_prompt_token_ids_or_embeds r.(prompt_token_ids) r.(prompt_embeds) = Ok n /\ 0 <= n;
  ch_flags : length (prompt_flags r) = Z.to_nat (prompt_len r);
  ch_length : (total_len r <= w)%nat;
  ch_blocks : Forall2 (fun t ids => Forall (id_ok t) ids /\ fits t ids) s.(tables) r.(block_ids);
  ch_kind : if s.(is_pooling_model) then r.(sampling_params) = None /\ is_Some r.(pooling_params_of) else is_Some r.(sampling_params);
  ch_lora : forall l o, r.(lora_request) = Some (l, o) -> l <> 0;
  ch_allowed : forall p, r.(sampling_params) = Some p -> Forall (fun i => - s.(vocab_size) <= i < s.(vocab_size)) p.(allowed_token_ids);
}.

(** ** Writing into a row *)

Lemma np_assign_scalar {A} (row : list A) a b (v : A) :
  (a <= b <= length row)%nat -> np_assign row (Z.of_nat a) (Z.of_nat b) [v] = Ok (take a row ++ replicate (b - a) v ++ drop b row).
Proof.
  intros Hab. unfold np_assign. assert (E : Z.to_nat (Z.max (Z.min (Z.of_nat a) (Z.of_nat (length row))) (Z.min (Z.of_nat b) (Z.of_nat (length row))) - Z.min (Z.of_nat a) (Z.of_nat (length row))) = (b - a)%nat) by lia.
  rewrite E. assert (E1 : Z.to_nat (Z.min (Z.of_nat a) (Z.of_nat (length row))) = a) by lia.
  assert (E2 : Z.to_nat (Z.max (Z.min (Z.of_nat a) (Z.of_nat (length row))) (Z.min (Z.of_nat b) (Z.of_nat (length row)))) = b) by lia.
  rewrite E1, E2. case_decide as Hd; [|done]. simpl in Hd. by rewrite <- Hd.
Qed.

(** [row] with [vals] from [a] on. *)
Definition overwrite {A} (row : list A) (a : nat) (vals : list A) : list A := take a row ++ vals ++ drop (a + length vals) row.

Lemma overwrite_length {A} (row : list A) a vals : (a + length vals <= length row)%nat -> length (overwrite row a vals) = length row.
Proof. intros Hl. unfold overwrite. rewrite !length_app, length_take, length_drop. lia. Qed.

Lemma take_overwrite {A} (row : list A) a vals : (a <= length row)%nat -> take (a + length vals) (overwrite row a vals) = take a row ++ vals.
Proof.
  intros Hl. unfold overwrite. rewrite app_assoc. rewrite take_app_length' by (rewrite length_app, length_take; lia). done.
Qed.

Lemma take_overwrite_le {A} (row : list A) a n vals : (n <= a <= length row)%nat -> take n (overwrite row a vals) = take n row.
Proof. intros Hl. unfold overwrite. rewrite take_app_le by (rewrite length_take; lia). by rewrite take_take, Nat.min_l by lia. Qed.

Lemma assign_tokens_ok s i row a (vals : list Z) :
  s.(toks).(token_ids_cpu) !! i = Some row -> (a + length vals <= length row)%nat ->
  wp (assign_tokens i (Z.of_nat a) (Z.of_nat a + Z.of_nat (length vals)) vals) s (fun _ s' =>
    s' = set_toks (set_token_rows (<[i := overwrite row a vals]> s.(toks).(token_ids_cpu)) s.(toks)) s).
Proof.
  intros Hr Hl. unfold assign_tokens, upd_toks. wp_steps. unfold id, row_assign. rewrite Hr. simpl default.
  rewrite np_assign_exact by done. eapply wp_lift_ok; [done|]. by wp_steps.
Qed.

Lemma assign_flags_ok s i row a (vals : list bool) :
  s.(toks).(is_token_ids) !! i = Some row -> (a + length vals <= length row)%nat ->
  wp (assign_flags i (Z.of_nat a) (Z.of_nat a + Z.of_nat (length vals)) vals) s (fun _ s' =>
    s' = set_toks (set_flag_rows (<[i := overwrite row a vals]> s.(toks).(is_token_ids)) s.(toks)) s).
Proof.
  intros Hr Hl. unfold assign_flags, upd_toks. wp_steps. unfold id, row_assign. rewrite Hr. simpl default.
  rewrite np_assign_exact by done. eapply wp_lift_ok; [done|]. by wp_steps.
Qed.

Lemma fill_flags_ok s i row a n (v : bool) :
  s.(toks).(is_token_ids) !! i = Some row -> (a + n <= length row)%nat ->
  wp (assign_flags i (Z.of_nat a) (Z.of_nat a + Z.of_nat n) [v]) s (fun _ s' =>
    s' = set_toks (set_flag_rows (<[i := overwrite row a (replicate n v)]> s.(toks).(is_token_ids)) s.(toks)) s).
Proof.
  intros Hr Hl. unfold assign_flags, upd_toks. wp_steps. unfold id, row_assign. rewrite Hr. simpl default.
  rewrite <- Nat2Z.inj_add, np_assign_scalar by lia. eapply wp_lift_ok; [done|]. wp_steps. unfold overwrite. rewrite length_replicate.
  by replace (a + n - a)%nat with n by lia.
Qed.

(** ** LoRA adapters *)

(** The dicts list exactly the requests that use an adapter, and the adapters in use. *)
Record LoraOk (idx : gmap ReqId nat) (x : Loras) : Prop := {
  lo_members : forall l name, (exists ids, x.(lora_id_to_request_ids) !! l = Some ids /\ name ∈ ids)
    <-> l <> 0 /\ exists i, idx !! name = Some i /\ x.(request_lora_mapping) !! i = Some l;
  lo_dom : forall l, is_Some (x.(lora_id_to_request_ids) !! l) <-> is_Some (x.(lora_id_to_lora_request) !! l);
  lo_used : forall l ids, x.(lora_id_to_request_ids) !! l = Some ids -> ids <> ∅;
}.

Definition one_to_one (idx : gmap ReqId nat) : Prop := forall name name' i, idx !! name = Some i -> idx !! name' = Some i -> name = name'.

Lemma set_loras_id s : set_loras s.(loras) s = s.
Proof. by destruct s. Qed.

(** Who still uses an adapter when the request [name] of row [i] leaves. *)
Lemma lora_users_leave idx (m : list Z) name i name' l :
  one_to_one idx -> idx !! name = Some i ->
  (exists k, delete name idx !! name' = Some k /\ <[i := 0]> m !! k = Some l) <-> name' <> name /\ exists k, idx !! name' = Some k /\ m !! k = Some l.
Proof.
  intros Hinj Hi. destruct (decide (name' = name)) as [->|Hne].
  { rewrite lookup_delete_eq. naive_solver. }
  rewrite lookup_delete_ne by done. split.
  - intros (k & Hk & Hm). assert (k <> i) by (intros ->; naive_solver). rewrite list_lookup_insert_ne in Hm by done. eauto.
  - intros (_ & k & Hk & Hm). assert (k <> i) by (intros ->; naive_solver). exists k. by rewrite list_lookup_insert_ne.
Qed.

Lemma remove_lora_ok s idx name i :
  LoraOk idx s.(loras) -> one_to_one idx -> idx !! name = Some i -> (i < length s.(loras).(request_lora_mapping))%nat ->
  wp (remove_lora name i) s (fun _ s' => exists x, s' = set_loras x s /\ LoraOk (delete name idx) x
    /\ x.(request_lora_mapping) = <[i := 0]> s.(loras).(request_lora_mapping)).
Proof.
  intros [Hm Hd Hu] Hinj Hi Hlt. destruct (lookup_lt_is_Some_2 _ _ Hlt) as [l Hl]. pose proof (fun l' name' => lora_users_leave idx s.(loras).(request_lora_mapping) name i name' l' Hinj Hi) as Hleave.
  assert (Hother : forall l' name', l' <> l ->
    (exists ids, s.(loras).(lora_id_to_request_ids) !! l' = Some ids /\ name' ∈ ids)
    <-> l' <> 0 /\ exists k, delete name idx !! name' = Some k /\ <[i := 0]> s.(loras).(request_lora_mapping) !! k = Some l').
  { intros l' name' Hne. rewrite Hm, Hleave. split; [|intros (? & _ & ?); done]. intros [H0 (k & Hk & Hx)]. split_and!; [done| |by exists k].
    intros ->. congruence. }
  unfold remove_lora. wp_steps. unfold id. rewrite Hl. simpl default. destruct (Z.eqb_spec l 0) as [->|Hl0].
  { wp_steps. exists s.(loras). rewrite set_loras_id. split_and!; [done| |by rewrite list_insert_id]. split; [|done|done].
    intros l' name'. rewrite (list_insert_id _ _ _ Hl) in Hother. destruct (decide (l' = 0)) as [->|H0]; [|by apply Hother].
    rewrite Hm. split; intros []; done. }
  destruct (proj2 (Hm l name)) as (ids & Hids & Hin); [split; [done|by exists i]|]. wp_step. eapply wp_lift_ok; [by rewrite Hids|].
  assert (Hstay : forall name', name' ∈ ids ∖ {[name]} <-> l <> 0 /\ exists k, delete name idx !! name' = Some k /\ <[i := 0]> s.(loras).(request_lora_mapping) !! k = Some l).
  { intros name'. rewrite Hleave, elem_of_difference, elem_of_singleton. specialize (Hm l name'). rewrite Hids in Hm. split.
    - intros [Hin' Hne]. destruct (proj1 Hm) as [_ ?]; [by exists ids|done].
    - intros (_ & Hne & Hx). destruct (proj2 Hm) as (? & [= <-] & ?); done. }
  destruct (proj1 (Hd l) ltac:(eauto)) as [q Hq]. case_decide as Hemp; wp_steps.
  - apply wp_check; [apply bool_decide_true; eauto|]. wp_steps. simpl. eexists. split; [done|]. split; [|done]. split; simpl.
    + intros l' name'. destruct (decide (l' = l)) as [->|Hne]; [|rewrite lookup_delete_ne by done; by apply Hother].
      rewrite <- Hstay, Hemp, lookup_delete_eq. split; [by intros (? & ? & _)|]. by intros ?%elem_of_empty.
    + intros l'. destruct (decide (l' = l)) as [->|Hne]; [by rewrite !lookup_delete_eq|]. by rewrite !lookup_delete_ne.
    + intros l' ids'. rewrite lookup_delete_Some. intros [_ ?]. by eapply Hu.
  - simpl. eexists. split; [done|]. split; [|done]. split; simpl.
    + intros l' name'. destruct (decide (l' = l)) as [->|Hne]; [|rewrite lookup_insert_ne by done; by apply Hother].
      rewrite <- Hstay, lookup_insert_eq. split; [by intros (? & [= <-] & ?)|]. intros ?. by eexists.
    + intros l'. destruct (decide (l' = l)) as [->|Hne]; [rewrite lookup_insert_eq, Hq; done|]. by rewrite !lookup_insert_ne.
    + intros l' ids'. destruct (decide (l' = l)) as [->|Hne]; [rewrite lookup_insert_eq; by intros [= <-]|]. rewrite lookup_insert_ne by done. apply Hu.
Qed.

(** ** Removing a request *)

Lemma clear_tables_ok n mrows ts i :
  Forall2 (TableOk n) mrows ts -> (i < n)%nat ->
  wp (multi_clear_row i) ts (fun _ ts' => Forall2 (TableOk n) ((fun rows : list (list Z) => <[i := []]> rows) <$> mrows) ts' /\ Forall2 same_config ts ts').
Proof.
  intros Hall Hi. unfold multi_clear_row. eapply wp_mono; [apply (on_tables_ok (TableOk n) (fun _ rows => <[i := []]> rows) _ _ _ 0 Hall)|].
  - intros _ rows t _ _ [HR Hn]. rewrite <- Hn, <- (rows_length _ _ HR) in Hi. destruct (lookup_lt_is_Some_2 rows i Hi) as [x Hx].
    eapply wp_mono; [by apply (clear_row_ok rows t i x)|]. intros ? t' [HR' Hc]. split; [|done]. split; [done|]. destruct Hc as [-> _]. done.
  - intros ? ts' [Hts Hcfg]. by rewrite imap_const in Hts.
Qed.

Lemma list_set_ok {A} (l : list A) i v : (i < length l)%nat -> list_set l i v = Ok (<[i := v]> l).
Proof. intros Hi. unfold list_set. by rewrite decide_True. Qed.

Lemma indexed_one_to_one s : indexed s -> one_to_one s.(req_id_to_index).
Proof. intros Hx name name' i. by apply indexed_inj. Qed.

(** The fields after the request [name] of row [i] has been removed. *)
Record Removed (name : ReqId) (i : nat) (s s' : InputBatch) : Prop := {
  rm_setup : same_setup s s';
  rm_ids : s'.(req_ids) = <[i := None]> s.(req_ids);
  rm_index : s'.(req_id_to_index) = delete name s.(req_id_to_index);
  rm_outputs : s'.(req_output_token_ids) = <[i := None]> s.(req_output_token_ids);
  rm_spec : s'.(spec_token_ids) = <[i := []]> s.(spec_token_ids);
  rm_toks : s'.(toks) = s.(toks);
  rm_lora : s'.(loras).(request_lora_mapping) = <[i := 0]> s.(loras).(request_lora_mapping);
  rm_params : s'.(params) = if s.(is_pooling_model) then s.(params) else remove_params i s.(params);
  rm_names : s'.(names) = if s.(is_pooling_model) then s.(names) else discard_names name s.(names);
  rm_upd : s'.(upd).(removed) = s.(upd).(removed) ++ [i] /\ s'.(upd).(is_removed_sorted) = false;
}.

Definition cleared_tables (i : nat) (mrows : list (list (list Z))) : list (list (list Z)) := (fun rows : list (list Z) => <[i := []]> rows) <$> mrows.

Lemma removed_rows name i s s' mrows w k :
  Sizes s mrows w -> Removed name i s s' -> k <> i -> row s' (cleared_tables i mrows) k = row s mrows k.
Proof.
  intros HS [(Em & Ev & Ep & Er & Ec) Ei _ Eo Es Et El Epa _ _] Hk. unfold row, get_active_token_count. rewrite Ei, Eo, Es, Et, El, Epa, Ep, Er.
  rewrite !list_lookup_insert_ne by done. unfold cleared_tables.
  rewrite (blocks_from s.(ib_max_num_reqs) (fun rows => <[i := []]> rows) mrows s.(tables) k k); [|apply HS|intros rows Hl; by apply list_lookup_insert_ne].
  f_equal. destruct s.(is_pooling_model); [done|]. unfold par_row. simpl. by rewrite !lookup_delete_ne.
Qed.

Lemma removed_open name i s s' mrows w :
  Open s mrows w -> s.(req_id_to_index) !! name = Some i -> Removed name i s s' ->
  Forall2 (TableOk s.(ib_max_num_reqs)) (cleared_tables i mrows) s'.(tables) -> Open s' (cleared_tables i mrows) w.
Proof.
  intros [HS Hx Hv Hnd Hh Hso] Hi [(Em & Ev & Ep & Er & Ec) Ei Ex Eo Es Et El Epa _ [Eu Ef]] Hts. pose proof (proj1 (Hx _ _) Hi) as Hn. pose proof (lookup_lt_Some _ _ _ Hn) as Hlt.
  assert (Hname : forall k name', s'.(req_ids) !! k = Some (Some name') <-> k <> i /\ s.(req_ids) !! k = Some (Some name')).
  { intros k name'. rewrite Ei. destruct (decide (k = i)) as [->|Hne]; [rewrite list_lookup_insert_eq by done|rewrite list_lookup_insert_ne by done]; naive_solver. }
  split.
  - pose proof (sz_ids _ _ _ HS). pose proof (sz_outputs _ _ _ HS). pose proof (sz_spec _ _ _ HS). sizes HS.
    split; rewrite ?Em, ?Ei, ?Eo, ?Es, ?Et, ?El, ?Epa; rewrite ?length_insert; try done; try apply HS.
    + repeat (apply Forall_cons; split); [..|by apply Forall_nil]; destruct s.(is_pooling_model); simpl; rewrite ?length_insert; done.
    + repeat (apply Forall_cons; split); [..|by apply Forall_nil]; destruct s.(is_pooling_model); done.
    + intros k l Hk. rewrite list_lookup_insert_ne by lia. by apply HS.
  - intros name' k. rewrite Hname, Ex. rewrite lookup_delete_Some, (Hx name' k). split; intros [H1 H2]; split; try done; [intros ->; congruence|]. intros <-. apply Hx in H2. congruence.
  - intros k Hk Hp. rewrite Ep in Hp. rewrite Epa, Hp. simpl. destruct (decide (k = i)) as [->|Hne]; [by rewrite !lookup_delete_eq|].
    rewrite !lookup_delete_ne by done. apply (Hv k); [|done]. intros name' Hn'. by apply (Hk name'), Hname.
  - rewrite Eu. apply NoDup_app. split_and!; [done| |apply NoDup_singleton]. intros k Hk%Hh ->%list_elem_of_singleton. congruence.
  - intros k. rewrite Eu, Ei, elem_of_app, list_elem_of_singleton, Hh. destruct (decide (k = i)) as [->|Hne]; [rewrite list_lookup_insert_eq by done|rewrite list_lookup_insert_ne by done]; naive_solver.
  - by rewrite Ef.
Qed.

(** The row of a removed request is a hole; every other request keeps its row. *)
Lemma remove_ok s mrows w name i :
  Open s mrows w -> s.(upd).(is_removed_sorted) = false -> LoraOk s.(req_id_to_index) s.(loras) -> s.(req_id_to_index) !! name = Some i ->
  wp (remove_request name) s (fun o s' => o = Some i /\ Removed name i s s' /\ Open s' (cleared_tables i mrows) w /\ LoraOk s'.(req_id_to_index) s'.(loras)).
Proof.
  intros HO Hf HL Hi. destruct HO as [HS Hx Hv Hnd Hh Hso] eqn:EO. clear EO. pose proof (proj1 (Hx _ _) Hi) as Hn. pose proof (lookup_lt_Some _ _ _ Hn) as Hlt.
  pose proof (sz_ids _ _ _ HS). pose proof (sz_outputs _ _ _ HS). pose proof (sz_spec _ _ _ HS). sizes HS.
  unfold remove_request. wp_step. wp_step. unfold id. rewrite Hi. wp_steps. unfold on_upd. apply wp_zoom. unfold removed_append. wp_steps.
  unfold id. simpl. apply wp_check; [by rewrite Hf|]. wp_steps. simpl. eapply wp_lift_ok; [by apply list_set_ok|]. wp_steps.
  eapply wp_lift_ok; [apply list_set_ok; lia|]. wp_steps. eapply wp_lift_ok; [apply list_set_ok; lia|]. wp_steps. simpl.
  unfold on_tables_of. apply wp_zoom. simpl. eapply wp_mono; [apply (clear_tables_ok s.(ib_max_num_reqs) mrows); [apply HS|lia]|].
  intros ? ts' [Hts Hcfg]. wp_step. eapply wp_mono; [apply (remove_lora_ok _ s.(req_id_to_index) name i); [done|by apply indexed_one_to_one|done|simpl; lia]|].
  intros ? s1 (x & -> & HL' & El). simpl in *. destruct s.(is_pooling_model) eqn:Hp; wp_steps; (split; [done|]);
    match goal with |- Removed _ _ _ ?s1 /\ _ => assert (HR : Removed name i s s1) by (split; rewrite ?Hp; done) end;
    (split_and!; [done|by eapply removed_open|done]).
Qed.

(** ** Adding a request *)

(** The row is the smallest hole, or the next one. *)
Lemma register_ok s mrows w r :
  Open s mrows w -> (num_reqs s < s.(ib_max_num_reqs))%nat ->
  wp (register_add_request r) s (fun i s' => exists u, s' = set_upd u s /\ (i < s.(ib_max_num_reqs))%nat
    /\ (i = length s.(req_ids) /\ s.(upd).(removed) = [] \/ s.(req_ids) !! i = Some None)
    /\ NoDup u.(removed) /\ (forall k, k ∈ u.(removed) <-> k <> i /\ k ∈ s.(upd).(removed)) /\ (u.(is_removed_sorted) = true -> StronglySorted descending u.(removed))).
Proof.
  intros [HS Hx Hv Hnd Hh Hso] Hroom. unfold register_add_request. wp_step. pose proof (index_count s _ Hx Hnd Hh) as Hcount. pose proof (sz_ids _ _ _ HS).
  destruct (decide (s.(upd).(removed) = [])) as [Hnil|Hne].
  - rewrite Hnil, Nat.add_0_r in Hcount. unfold on_upd. apply wp_zoom. unfold pop_removed. wp_steps. unfold id. rewrite bool_decide_true by done. wp_steps.
    rewrite set_upd_id. apply wp_check; [by apply bool_decide_true|]. wp_steps. eexists. split; [done|]. simpl. rewrite Hnil.
    split_and!; [done|by left|constructor| |by constructor]. intros k. by rewrite elem_of_nil; split; [|intros []].
  - destruct (ensure_sorted_spec s.(upd) Hso) as (Hso' & Hp & Hf). destruct (exists_last (l := (ensure_removed_sorted s.(upd)).(removed))) as (rest & i & Hr).
    { intros E. rewrite E in Hp. by apply Permutation_nil_l in Hp. }
    assert (Hnd' : NoDup (rest ++ [i])) by (rewrite <- Hr; by rewrite Hp). apply NoDup_app in Hnd' as (Hnd' & Hni & _).
    assert (Hmem : forall k, k ∈ s.(upd).(removed) <-> k ∈ rest \/ k = i) by (intros k; by rewrite <- Hp, Hr, elem_of_app, list_elem_of_singleton).
    assert (Hi : s.(req_ids) !! i = Some None) by (apply Hh, Hmem; by right). pose proof (lookup_lt_Some _ _ _ Hi).
    unfold on_upd. apply wp_zoom. unfold pop_removed. wp_steps. unfold id. rewrite bool_decide_false by done. wp_steps. rewrite Hr, last_snoc. unfold id.
    apply wp_check; [apply bool_decide_true; simpl; lia|]. wp_steps. eexists. split; [done|]. simpl. rewrite removelast_last.
    split_and!; [lia|by right|done| |].
    + intros k. rewrite Hmem. split; [intros Hk; split; [|by left]; intros ->; by apply (Hni i Hk), list_elem_of_singleton|]. intros [Hk [?|?]]; done.
    + intros _. rewrite Hr in Hso'. pose proof (removelast_sorted _ i (last_snoc _ _) Hso') as Hrs. by rewrite removelast_last in Hrs.
Qed.

(** [l[i] = v], or appended. *)
Definition put {A} (i : nat) (v : A) (l : list A) : list A := if decide (i = length l) then l ++ [v] else <[i := v]> l.

Lemma lookup_put {A} (l : list A) i v k : (i <= length l)%nat -> put i v l !! k = if decide (k = i) then Some v else l !! k.
Proof.
  intros Hi. unfold put. destruct (decide (i = length l)) as [->|Hne].
  - case_decide as Hk; [subst; by rewrite lookup_app_r, Nat.sub_diag by lia|]. destruct (decide (k < length l)%nat); [by rewrite lookup_app_l|].
    rewrite !lookup_ge_None_2; [done|lia|rewrite length_app; simpl; lia].
  - case_decide as Hk; [subst; apply list_lookup_insert_eq; lia|by apply list_lookup_insert_ne].
Qed.

Lemma length_put {A B} (l : list A) (l' : list B) i v v' : length l = length l' -> length (put i v l) = length (put i v' l').
Proof. intros E. unfold put. rewrite E. case_decide; rewrite ?length_app, ?length_insert; simpl; lia. Qed.

(** The drafts of a new row: the list may be longer than that of the [n] ids, with empty drafts. *)
Definition put_spec (i n : nat) (l : list (list Z)) : list (list Z) := if decide (i = n) then l ++ [[]] else <[i := []]> l.

Lemma put_spec_ok {A} i (ids : list A) v (l : list (list Z)) :
  (i <= length ids)%nat -> (length ids <= length l)%nat -> (forall k x, (length ids <= k)%nat -> l !! k = Some x -> x = []) ->
  let l' := put_spec i (length ids) l in
  l' !! i = Some [] /\ (forall k, (k < length ids)%nat -> k <> i -> l' !! k = l !! k) /\ (length (put i v ids) <= length l')%nat
  /\ (forall k x, (length (put i v ids) <= k)%nat -> l' !! k = Some x -> x = []).
Proof.
  intros Hi Hl Ht. unfold put_spec, put. case_decide as Hd.
  - assert (Hat : forall k x, (length ids <= k)%nat -> (l ++ [[]]) !! k = Some x -> x = []).
    { intros k x Hk [Hx|[_ Hx]]%lookup_app_Some; [by eapply Ht|]. by apply list_lookup_singleton_Some in Hx as [_ <-]. }
    split_and!; rewrite ?length_app; simpl; [|intros k Hk _; apply lookup_app_l; lia|lia|intros k x Hk; apply Hat; lia].
    destruct (lookup_lt_is_Some_2 (l ++ [[]]) i) as [x Hx]; [rewrite length_app; simpl; lia|]. by rewrite Hx, (Hat i x ltac:(lia) Hx).
  - rewrite !length_insert. split_and!; [apply list_lookup_insert_eq; lia|intros k _ Hk; by apply list_lookup_insert_ne|done|].
    intros k x Hk. rewrite list_lookup_insert_ne by lia. by apply Ht.
Qed.

Lemma place_ok s mrows w r i :
  Sizes s mrows w -> (i <= length s.(req_ids))%nat ->
  wp (place_request r i) s (fun _ s' => s' = set_lists (put i (Some r.(req_id)) s.(req_ids)) (<[r.(req_id) := i]> s.(req_id_to_index))
    (put i (Some r.(req_id)) s.(req_output_token_ids)) (put_spec i (length s.(req_ids)) s.(spec_token_ids)) s).
Proof.
  intros HS Hi. pose proof (sz_outputs _ _ _ HS) as Ho. pose proof (sz_spec _ _ _ HS) as Hsp. unfold place_request, put, put_spec. rewrite Ho. wp_steps. unfold id.
  case_decide as Hd; [by wp_steps|]. wp_step. eapply wp_lift_ok; [apply list_set_ok; lia|]. wp_steps. eapply wp_lift_ok; [apply list_set_ok; lia|]. wp_steps.
  eapply wp_lift_ok; [apply list_set_ok; lia|]. by wp_steps.
Qed.

Lemma add_tables_ok n mrows ts i bids :
  Forall2 (TableOk n) mrows ts -> (i < n)%nat -> Forall2 (fun t ids => Forall (id_ok t) ids /\ fits t ids) ts bids ->
  wp (multi_add_row bids i) ts (fun _ ts' => Forall2 (TableOk n) (imap (fun j (rows : list (list Z)) => <[i := default [] (bids !! j)]> rows) mrows) ts'
    /\ Forall2 same_config ts ts').
Proof.
  intros Hall Hi Hb. unfold multi_add_row. apply (on_tables_ok (TableOk n) (fun j (rows : list (list Z)) => <[i := default [] (bids !! j)]> rows) _ _ _ 0 Hall).
  intros j rows t _ Ht [HR Hn]. destruct (Forall2_lookup_l _ _ _ _ _ Hb Ht) as (ids & Hids & Hok & Hfit). simpl. rewrite Hids. wp_step.
  eapply wp_lift_ok; [by apply np_get_ok|]. rewrite <- Hn, <- (rows_length _ _ HR) in Hi. destruct (lookup_lt_is_Some_2 rows i Hi) as [x Hx].
  eapply wp_mono; [by apply (add_row_ok rows t i x)|]. intros ? t' [HR' Hc]. split; [|done]. split; [done|]. destruct Hc as [-> _]. done.
Qed.

(** The blocks of a row after the tables have been written at row [i]. *)
Lemma blocks_at n mrows ts i k (f : nat -> list (list Z) -> list Z) :
  Forall2 (TableOk n) mrows ts -> (i < n)%nat ->
  (fun rows : list (list Z) => rows !! k) <$> imap (fun j rows => <[i := f j rows]> rows) mrows
    = if decide (k = i) then Some <$> imap f mrows else (fun rows : list (list Z) => rows !! k) <$> mrows.
Proof.
  intros Hall Hi. apply list_eq. intros j. rewrite list_lookup_fmap, list_lookup_imap. destruct (mrows !! j) as [rows|] eqn:Hj; simpl.
  - destruct (Forall2_lookup_l _ _ _ _ _ Hall Hj) as (t & _ & HR & Hn). rewrite <- Hn, <- (rows_length _ _ HR) in Hi.
    case_decide as Hk; rewrite list_lookup_fmap, ?list_lookup_imap, Hj; simpl; [subst; by rewrite list_lookup_insert_eq|by rewrite list_lookup_insert_ne].
  - by case_decide; rewrite list_lookup_fmap, ?list_lookup_imap, Hj.
Qed.

(** Writing a prompt, then the outputs behind it. *)
Lemma overwrite_twice {A} (row : list A) (p outs : list A) :
  (length p + length outs <= length row)%nat -> take (length p + length outs) (overwrite (overwrite row 0 p) (length p) outs) = p ++ outs.
Proof.
  intros Hl. rewrite take_overwrite by (rewrite overwrite_length; lia). f_equal. rewrite <- (Nat.add_0_l (length p)) at 1. by rewrite take_overwrite by lia.
Qed.

(** A row with the prompt written. *)
Definition prompt_row (r : CachedRequestState) (row : list Z) : list Z :=
  match r.(prompt_token_ids) with Some p => overwrite row 0 p | None => row end.

Lemma prompt_ids_length p embeds n : length_from_prompt_token_ids_or_embeds (Some p) embeds = Ok n -> n = Z.of_nat (length p).
Proof. unfold length_from_prompt_token_ids_or_embeds. destruct embeds; [destruct (negb _)|]; congruence. Qed.

Lemma write_prompt_ok s i r n row frow :
  length_from_prompt_token_ids_or_embeds r.(prompt_token_ids) r.(prompt_embeds) = Ok n -> 0 <= n -> length (prompt_flags r) = Z.to_nat n ->
  s.(toks).(token_ids_cpu) !! i = Some row -> s.(toks).(is_token_ids) !! i = Some frow -> (Z.to_nat n <= length row)%nat -> (Z.to_nat n <= length frow)%nat ->
  wp (match r.(prompt_token_ids) with
      | Some ids =>
          assign_tokens i 0 n ids ;;
          assign_flags i 0 n (match r.(prompt_is_token_ids) with Some flags => flags | None => [true] end)
      | None => assign_flags i 0 n [false]
      end) s (fun _ s' => s' = set_toks (set_flag_rows (<[i := overwrite frow 0 (prompt_flags r)]> s.(toks).(is_token_ids))
        (set_token_rows (<[i := prompt_row r row]> s.(toks).(token_ids_cpu)) s.(toks))) s).
Proof.
  intros Hn H0 Hf Hrow Hfrow Hl Hfl. assert (E : n = Z.of_nat 0 + Z.of_nat (Z.to_nat n)) by lia. assert (En : prompt_len r = n) by (unfold prompt_len; by rewrite Hn).
  unfold prompt_row, prompt_flags in *. rewrite En in *. clear En. destruct r.(prompt_token_ids) as [p|] eqn:Ep.
  - clear E. pose proof (prompt_ids_length _ _ _ Hn) as Hp. subst n. change 0 with (Z.of_nat 0). wp_step.
    eapply wp_mono; [apply (assign_tokens_ok s i row 0 p Hrow); lia|]. intros ? s1 ->.
    destruct r.(prompt_is_token_ids) as [flags|].
    + rewrite Nat2Z.id in Hf. rewrite <- Hf. eapply wp_mono; [by apply (assign_flags_ok _ i frow 0 flags); [|lia]|]. by intros ? s2 ->.
    + eapply wp_mono; [by apply (fill_flags_ok _ i frow 0 (length p) true); [|lia]|]. intros ? s2 ->. by rewrite Nat2Z.id.
  - rewrite E at 1. change 0 with (Z.of_nat 0) at 1. eapply wp_mono; [by apply (fill_flags_ok _ i frow 0 (Z.to_nat n) false)|].
    intros ? s2 ->. by rewrite (list_insert_id _ _ _ Hrow).
Qed.

Definition wrote_tokens (r : CachedRequestState) (i : nat) (replay : bool) (row : list Z) (frow : list bool) (emb : gmap nat Embeds) (x : Tokens) : Tokens :=
  let n := cr_num_tokens r (prompt_len r) in
  mkTokens (<[i := row]> x.(token_ids_cpu)) (<[i := frow]> x.(is_token_ids)) emb (<[i := n]> x.(num_tokens_no_spec))
    (<[i := prompt_len r]> x.(num_prompt_tokens)) (<[i := r.(cr_num_computed_tokens)]> x.(num_computed_tokens_cpu))
    (if replay then <[i := n]> x.(replayssm_decode_base) else x.(replayssm_decode_base)).

(** The written rows know the tokens. *)
Lemma wrote_knows r n row frow :
  length_from_prompt_token_ids_or_embeds r.(prompt_token_ids) r.(prompt_embeds) = Ok n -> 0 <= n -> length (prompt_flags r) = Z.to_nat n ->
  (Z.to_nat n + length r.(output_token_ids) <= length row)%nat -> length frow = length row ->
  let outs := r.(output_token_ids) in
  let row' := overwrite (prompt_row r row) (Z.to_nat n) outs in
  let frow' := overwrite (overwrite frow 0 (prompt_flags r)) (Z.to_nat n) (replicate (length outs) true) in
  length (prompt_row r row) = length row /\ length (overwrite frow 0 (prompt_flags r)) = length row
  /\ length row' = length row /\ length frow' = length row /\ knows r (take (Z.to_nat n + length outs) row') /\ take (Z.to_nat n + length outs) frow' = prompt_flags r ++ replicate (length outs) true.
Proof.
  intros Hn H0 Hf Hl Hfl outs row' frow'. assert (Hpl : length (prompt_row r row) = length row).
  { unfold prompt_row. destruct r.(prompt_token_ids) as [p|] eqn:Ep; [|done]. pose proof (prompt_ids_length _ _ _ Hn). rewrite overwrite_length; lia. }
  assert (Hol : length (overwrite frow 0 (prompt_flags r)) = length row) by (rewrite overwrite_length; lia).
  split_and!; [done|done|..].
  - unfold row'. rewrite overwrite_length; [done|]. rewrite Hpl. exact Hl.
  - unfold frow'. rewrite overwrite_length, Hol; [done|]. rewrite Hol, length_replicate. exact Hl.
  - unfold knows, row', prompt_row in *. assert (En : prompt_len r = n) by (unfold prompt_len; by rewrite Hn). destruct r.(prompt_token_ids) as [p|] eqn:Ep.
    + pose proof (prompt_ids_length _ _ _ Hn) as ->. rewrite Nat2Z.id. apply overwrite_twice. rewrite Nat2Z.id in Hl. exact Hl.
    + rewrite En. rewrite take_overwrite by lia. by rewrite drop_app_length' by (rewrite length_take; lia).
  - unfold frow'. rewrite <- Hf. rewrite <- (length_replicate (length outs) true) at 1. apply overwrite_twice. rewrite length_replicate, Hf, Hfl. exact Hl.
Qed.

Lemma toks_set x s : (set_toks x s).(toks) = x.
Proof. done. Qed.

Lemma set_toks_twice x y s : set_toks x (set_toks y s) = set_toks x s.
Proof. done. Qed.

Lemma write_tokens_ok s i r w row frow :
  s.(toks).(token_ids_cpu) !! i = Some row -> s.(toks).(is_token_ids) !! i = Some frow -> length row = w -> length frow = w -> can_hold s w r ->
  wp (write_tokens r i) s (fun _ s' => exists row' frow' emb, s' = set_toks (wrote_tokens r i s.(use_replayssm) row' frow' emb s.(toks)) s
    /\ length row' = w /\ length frow' = w /\ knows r (take (total_len r) row') /\ take (total_len r) frow' = prompt_flags r ++ replicate (length r.(output_token_ids)) true).
Proof.
  intros Hrow Hfrow <- Hfw [(n & Hn & H0) Hfl Hlen _ _ _ _]. assert (En : prompt_len r = n) by (unfold prompt_len; by rewrite Hn).
  unfold total_len, wrote_tokens, cr_num_tokens in *. rewrite En in *. rewrite Z2Nat.inj_add, Nat2Z.id in * by lia.
  pose proof (wrote_knows r n row frow Hn H0 Hfl Hlen Hfw) as (Hp1 & Hp2 & Hl1 & Hl2 & Hk & Hkf).
  pose proof (lookup_lt_Some _ _ _ Hrow) as Hi. pose proof (lookup_lt_Some _ _ _ Hfrow) as Hi'.
  unfold write_tokens. wp_step. eapply wp_lift_ok; [exact Hn|]. wp_step. unfold upd_toks at 1. wp_step.
  remember (set_numbers _ _ _ _ _) as x1 eqn:E1. wp_step.
  eapply wp_mono; [apply (write_prompt_ok _ i r n row frow Hn H0 Hfl); [rewrite toks_set, E1; exact Hrow|rewrite toks_set, E1; exact Hfrow|lia|lia]|].
  intros ? s1 ->. rewrite set_toks_twice, !toks_set. remember (set_flag_rows _ _) as x2 eqn:E2. wp_step.
  apply (wp_mono _ _ (fun _ s' => exists emb, s' = set_toks (set_embeds emb x2) s)).
  { destruct r.(prompt_embeds) as [e|]; unfold upd_toks; wp_steps; [rewrite set_toks_twice, toks_set; by eexists|]. exists x2.(req_prompt_embeds). f_equal. by destruct x2. }
  intros ? s3 [emb ->]. remember (set_embeds emb x2) as x3 eqn:E3. wp_step. assert (E : n = Z.of_nat (Z.to_nat n)) by lia. rewrite E at 1 2.
  eapply wp_mono; [apply (assign_tokens_ok _ i (prompt_row r row) (Z.to_nat n)); [rewrite toks_set, E3, E2, E1; by apply list_lookup_insert_eq|by rewrite Hp1]|].
  intros ? s4 ->. rewrite set_toks_twice, !toks_set. remember (set_token_rows _ x3) as x4 eqn:E4. wp_step. rewrite E at 1 2.
  eapply wp_mono; [apply (fill_flags_ok _ i (overwrite frow 0 (prompt_flags r)) (Z.to_nat n)); [rewrite toks_set, E4, E3, E2, E1; by apply list_lookup_insert_eq|by rewrite Hp2]|].
  intros ? s5 ->. rewrite set_toks_twice, !toks_set. unfold upd_toks. wp_steps. rewrite set_toks_twice, !toks_set.
  eexists _, _, emb. split; [|split; [exact Hl1|split; [exact Hl2|split; [exact Hk|exact Hkf]]]].
  f_equal. rewrite E4, E3, E2, E1. unfold set_numbers, set_flag_rows, set_token_rows, set_embeds. simpl. by rewrite !list_insert_insert_eq.
Qed.

(** *** Names *)

(** What the batch records of a request by its name. *)
Record NameBits := mkNameBits {
  nb_greedy : bool;
  nb_random : bool;
  nb_top_p : bool;
  nb_top_k : bool;
  nb_frequency : bool;
  nb_presence : bool;
  nb_repetition : bool;
  nb_allowed : bool;
  nb_logprobs : option Z;
  nb_token_ids : option (list Z);
}.

Definition name_bits (x : Names) (name : ReqId) : NameBits :=
  mkNameBits (bool_decide (name ∈ x.(greedy_reqs))) (bool_decide (name ∈ x.(random_reqs))) (bool_decide (name ∈ x.(top_p_reqs)))
    (bool_decide (name ∈ x.(top_k_reqs))) (bool_decide (name ∈ x.(frequency_reqs))) (bool_decide (name ∈ x.(presence_reqs)))
    (bool_decide (name ∈ x.(repetition_reqs))) (bool_decide (name ∈ x.(has_allowed_token_ids))) (x.(num_logprobs) !! name) (x.(logprob_token_ids) !! name).

Definition no_bits : NameBits := mkNameBits false false false false false false false false None None.

Definition bits_of (vocab : Z) (p : SamplingParams) : NameBits :=
  mkNameBits p.(greedy) (negb p.(greedy)) (SFltb p.(top_p) float_one) ((0 <? p.(top_k)) && (p.(top_k) <? vocab))
    (negb (SFeqb p.(frequency_penalty) float_zero)) (negb (SFeqb p.(presence_penalty) float_zero)) (negb (SFeqb p.(repetition_penalty) float_one))
    (negb (bool_decide (p.(allowed_token_ids) = []))) ((fun n => if n =? -1 then vocab else n) <$> p.(logprobs)) p.(logprob_token_ids_of).

Lemma add_if_self b id X : bool_decide (id ∈ X) = false -> bool_decide (id ∈ add_if b id X) = b.
Proof. intros HX%bool_decide_eq_false. destruct b; [apply bool_decide_true|apply bool_decide_false]; set_solver. Qed.

Lemma add_if_other b id X name : name <> id -> bool_decide (name ∈ add_if b id X) = bool_decide (name ∈ X).
Proof. intros Hne. apply bool_decide_ext. destruct b; set_solver. Qed.

Lemma discard_self (id : ReqId) (X : gset ReqId) : bool_decide (id ∈ X ∖ {[id]}) = false.
Proof. apply bool_decide_false. set_solver. Qed.

Lemma discard_other (id name : ReqId) (X : gset ReqId) : name <> id -> bool_decide (name ∈ X ∖ {[id]}) = bool_decide (name ∈ X).
Proof. intros Hne. apply bool_decide_ext. set_solver. Qed.

Lemma name_params_self vocab id p x : name_bits x id = no_bits -> name_bits (name_params vocab id p x) id = bits_of vocab p.
Proof.
  unfold name_bits, no_bits. intros E. injection E as H1 H2 H3 H4 H5 H6 H7 H8 H9 H10. unfold bits_of, name_params. simpl.
  rewrite !add_if_self by done. f_equal; [destruct p.(logprobs)|destruct p.(logprob_token_ids_of)]; simpl; by rewrite ?lookup_insert_eq.
Qed.

Lemma name_params_other vocab id p x name : name <> id -> name_bits (name_params vocab id p x) name = name_bits x name.
Proof.
  intros Hne. unfold name_bits, name_params. simpl. rewrite !add_if_other by done.
  f_equal; [destruct p.(logprobs)|destruct p.(logprob_token_ids_of)]; by rewrite ?lookup_insert_ne.
Qed.

Lemma discard_names_self id x : name_bits (discard_names id x) id = no_bits.
Proof. unfold name_bits, discard_names. simpl. by rewrite !discard_self, !lookup_delete_eq. Qed.

Lemma discard_names_other id x name : name <> id -> name_bits (discard_names id x) name = name_bits x name.
Proof. intros Hne. unfold name_bits, discard_names. simpl. by rewrite !discard_other, !lookup_delete_ne by done. Qed.

(** *** Parameters *)

(** The parameters after row [i] has been written. *)
Record ParWritten (i : nat) (x x' : Params) : Prop := {
  pw_ints : length x'.(top_k_cpu) = length x.(top_k_cpu) /\ length x'.(num_accepted_tokens_cpu) = length x.(num_accepted_tokens_cpu);
  pw_floats : Forall2 (fun l l' : list spec_float => length l' = length l)
    [x.(temperature_cpu); x.(top_p_cpu); x.(frequency_penalties_cpu); x.(presence_penalties_cpu); x.(repetition_penalties_cpu)]
    [x'.(temperature_cpu); x'.(top_p_cpu); x'.(frequency_penalties_cpu); x'.(presence_penalties_cpu); x'.(repetition_penalties_cpu)];
  pw_other : forall k, k <> i -> par_row x' k = par_row x k;
}.

Lemma par_written_refl i x : ParWritten i x x.
Proof. by repeat constructor. Qed.

Lemma write_mask_ok s i allowed :
  Forall (fun j => - s.(vocab_size) <= j < s.(vocab_size)) allowed -> wp (write_mask i allowed) s (fun _ s' => exists m, s' = set_params (set_mask m s.(params)) s).
Proof.
  intros Ha. unfold write_mask. wp_steps. unfold id. destruct (rmap_ok (py_index s.(vocab_size)) allowed) as (js & Hjs & _).
  { intros j Hj. rewrite Forall_forall in Ha. specialize (Ha j Hj). simpl in Ha. unfold py_index. destruct (_ && _) eqn:E1; [by eexists|].
    destruct ((- _ <=? _) && _) eqn:E2; [by eexists|]. exfalso. lia. }
  eapply wp_lift_ok; [exact Hjs|]. wp_steps. by eexists.
Qed.

Definition par_sizes (n : nat) (x : Params) : Prop :=
  Forall (fun l : list Z => length l = n) [x.(top_k_cpu); x.(num_accepted_tokens_cpu)]
  /\ Forall (fun l : list spec_float => length l = n)
    [x.(temperature_cpu); x.(top_p_cpu); x.(frequency_penalties_cpu); x.(presence_penalties_cpu); x.(repetition_penalties_cpu)].

Lemma sizes_par s mrows w : Sizes s mrows w -> par_sizes s.(ib_max_num_reqs) s.(params).
Proof. intros HS. split; [|apply HS]. sizes HS. by repeat constructor. Qed.

Lemma write_params_ok s i r w :
  par_sizes s.(ib_max_num_reqs) s.(params) -> (i < s.(ib_max_num_reqs))%nat -> can_hold s w r -> vacant s i ->
  wp (write_params r i) s (fun _ s' => exists x n q, s' = set_pools q (set_params x (set_names n s)) /\ ParWritten i s.(params) x
    /\ (s.(is_pooling_model) = false -> exists p, r.(sampling_params) = Some p /\ n = name_params s.(vocab_size) r.(req_id) p s.(names)
       /\ par_row x i = par_of s.(vocab_size) r p (s.(params).(num_accepted_tokens_cpu) !! i))
    /\ (s.(is_pooling_model) = true -> n = s.(names) /\ x = s.(params))).
Proof.
  intros HS Hi [_ _ _ _ Hkind _ Hall] Hv. unfold write_params. destruct s.(is_pooling_model) eqn:Hp.
  { destruct Hkind as [-> [q ->]]. wp_steps. eexists s.(params), s.(names), _. split; [by destruct s|]. split; [apply par_written_refl|done]. }
  destruct Hkind as [p Hsp]. rewrite Hsp. specialize (Hall p Hsp). destruct (Hv Hp) as [Hg Hb]. destruct HS as [Hn Hf]. rewrite !Forall_cons in Hn. rewrite !Forall_cons in Hf. destruct_and! Hn. destruct_and! Hf. wp_step. wp_step. wp_step.
  set (x0 := row_params s.(vocab_size) i r p s.(params)). set (n0 := name_params _ _ _ _). set (s0 := set_params x0 _).
  apply (wp_mono _ _ (fun _ s' => exists m, s' = set_params (set_mask m x0) s0)).
  { case_bool_decide; [wp_steps; exists x0.(allowed_mask); by destruct s|]. by apply write_mask_ok. }
  intros ? s1 [m ->]. set (x1 := if bool_decide (p.(bad_words_of) = []) then set_mask m x0 else set_bad_words (<[i := p.(bad_words_of)]> x0.(bad_words_token_ids)) (set_mask m x0)).
  apply (wp_mono _ _ (fun _ s' => s' = set_params x1 s0)); [subst x1; case_bool_decide; by wp_steps|]. intros ? s2 ->.
  exists x1, n0, s.(pools). assert (Eb : forall k, x1.(bad_words_token_ids) !! k = if decide (k = i) then (if bool_decide (p.(bad_words_of) = []) then None else Some p.(bad_words_of)) else s.(params).(bad_words_token_ids) !! k).
  { intros k. subst x1. case_bool_decide; simpl; case_decide; subst; rewrite ?lookup_insert_eq, ?lookup_insert_ne by done; done. }
  assert (Eg : forall k, match r.(generator) with Some g => <[i := g]> s.(params).(generators) | None => s.(params).(generators) end !! k = if decide (k = i) then r.(generator) else s.(params).(generators) !! k).
  { intros k. destruct r.(generator); case_decide; subst; rewrite ?lookup_insert_eq, ?lookup_insert_ne by done; done. }
  assert (E1 : x1 = mkParams x0.(temperature_cpu) x0.(top_p_cpu) x0.(top_k_cpu) x0.(frequency_penalties_cpu) x0.(presence_penalties_cpu) x0.(repetition_penalties_cpu)
    x0.(num_accepted_tokens_cpu) x0.(generators) x1.(bad_words_token_ids) m) by (subst x1; by case_bool_decide).
  split; [by destruct s|]. rewrite E1. split_and!; [|intros _; exists p; split_and!; [done|done|]|done].
  - split; simpl; [by rewrite length_insert|by repeat (constructor; [by rewrite length_insert|])|]. intros k Hk. unfold par_row. simpl.
    rewrite Eb, (Eg k). rewrite !decide_False by done. by rewrite !list_lookup_insert_ne.
  - unfold par_row, par_of. simpl. rewrite Eb, (Eg i), !decide_True by done. rewrite !list_lookup_insert_eq by lia. done.
Qed.
