(* ===== verification/EncoderCache.v ===== *)
(** * The encoder cache

    Outputs of multi-modal encoders are kept per content hash.  The scheduler side
    ([vllm/v1/core/encoder_cache_manager.py]) counts embeddings, references entries by
    request and evicts unreferenced ones, oldest first; [_try_schedule_encoder_inputs]
    ([vllm/v1/core/sched/scheduler.py]) decides which inputs of a request are encoded in
    a step and shortens the step when one does not fit; the model runner
    ([vllm/v1/worker/gpu_model_runner.py]) keeps the tensors, drops those it is told to
    and gathers embeddings from them.

    Both managers are instances of [EncoderOps], against which the scheduling loop is
    written.  [sz] is the number of embeddings of a content hash: the hash identifies the
    media item, hence its size.  The order in which Python iterates over a set of input
    ids is the parameter [set_order]; whether a connector offers an item is
    [has_cache_item]. *)

From S2P Require Import Prelude.

(** ** Placeholder ranges *)

Record PlaceholderRange := mkRange {
  offset : Z;
  length_ : Z;
  is_embed : option (list bool);
}.

Fixpoint cumsum (acc : Z) (l : list bool) : list Z :=
  match l with
  | [] => []
  | b :: l' => let acc := acc + Z.b2z b in acc :: cumsum acc l'
  end.

Definition embeds_cumsum (p : PlaceholderRange) : option (list Z) := cumsum 0 <$> p.(is_embed).

Definition get_num_embeds (p : PlaceholderRange) : Z :=
  match embeds_cumsum p with
  | None => p.(length_)
  | Some cs => default 0 (last cs)
  end.

(** [cs[i - 1] if i > 0 else 0] *)
Definition embeds_before (cs : list Z) (i : Z) : res Z :=
  if 0 <? i then
    match cs !! Z.to_nat (i - 1) with Some v => Ok v | None => Raise IndexError end
  else Ok 0.

Definition get_embeds_indices_in_range (p : PlaceholderRange) (start_idx end_idx : Z) : res (Z * Z) :=
  match embeds_cumsum p with
  | None => Ok (start_idx, end_idx)
  | Some cs =>
      let? a := embeds_before cs start_idx in
      let? b := embeds_before cs end_idx in Ok (a, b)
  end.

Record Feature := mkFeature {
  identifier : string;
  mm_position : PlaceholderRange;
}.

Record EncRequest := mkEncRequest {
  request_id : string;
  mm_features : list Feature;
}.

#[export] Instance range_eq_dec : EqDecision PlaceholderRange.
Proof. solve_decision. Defined.
#[export] Instance feature_eq_dec : EqDecision Feature.
Proof. solve_decision. Defined.
#[export] Instance enc_request_eq_dec : EqDecision EncRequest.
Proof. solve_decision. Defined.

(** [request.mm_features[input_id]] *)
Definition feature_at (r : EncRequest) (i : nat) : res Feature :=
  match r.(mm_features) !! i with Some f => Ok f | None => Raise IndexError end.

(** [Request.get_num_encoder_embeds] *)
Definition get_num_encoder_embeds (r : EncRequest) (i : nat) : res Z :=
  match r.(mm_features) !! i with
  | Some f => Ok (get_num_embeds f.(mm_position))
  | None => Raise AssertionError
  end.

(** [bisect.bisect_left(a, x, lo, hi, key=key)] *)
Fixpoint bisect_left {A : Type} (fuel : nat) (a : list A) (key : A -> Z) (x : Z) (lo hi : nat) : nat :=
  match fuel with
  | O => lo
  | S fuel' =>
      if (lo <? hi)%nat then
        let mid := Nat.div2 (lo + hi) in
        match a !! mid with
        | Some y => if key y <? x then bisect_left fuel' a key x (S mid) hi
                    else bisect_left fuel' a key x lo mid
        | None => lo
        end
      else lo
  end.

Definition get_mm_features_in_window (fs : list Feature) (start end_ : Z) : nat * nat :=
  (bisect_left (S (length fs)) fs (fun f => f.(mm_position).(offset) + f.(mm_position).(length_)) (start + 1) 0 (length fs),
   bisect_left (S (length fs)) fs (fun f => f.(mm_position).(offset)) end_ 0 (length fs)).

(** ** The manager for multi-modal decoders *)

Record EncoderCache := mkEncoderCache {
  cache_size : Z;
  num_free_slots : Z;
  num_freeable_slots : Z;
  cached : gmap string (gset string);
  request_cached_ids : gmap string (gset nat);
  freeable : list (string * Z);
  freed : list string;
}.

Definition new_encoder_cache (size : Z) : EncoderCache := mkEncoderCache size size size ∅ ∅ [] [].

Definition enc_reset : M EncoderCache unit := modify (fun s => new_encoder_cache s.(cache_size)).

(** [cached[mm_hash].add(request_id)] and
    [request_cached_ids.setdefault(request_id, set()).add(input_id)] *)
Definition add_reference (h rid : string) (i : nat) (s : EncoderCache) : EncoderCache :=
  mkEncoderCache s.(cache_size) s.(num_free_slots) s.(num_freeable_slots)
    (<[h := default ∅ (s.(cached) !! h) ∪ {[rid]}]> s.(cached))
    (<[rid := default ∅ (s.(request_cached_ids) !! rid) ∪ {[i]}]> s.(request_cached_ids))
    s.(freeable) s.(freed).

Definition set_slots (free freeable_ : Z) (s : EncoderCache) : EncoderCache :=
  mkEncoderCache s.(cache_size) free freeable_ s.(cached) s.(request_cached_ids) s.(freeable) s.(freed).

Definition set_cached (c : gmap string (gset string)) (s : EncoderCache) : EncoderCache :=
  mkEncoderCache s.(cache_size) s.(num_free_slots) s.(num_freeable_slots) c s.(request_cached_ids) s.(freeable) s.(freed).

Definition set_freeable (l : list (string * Z)) (s : EncoderCache) : EncoderCache :=
  mkEncoderCache s.(cache_size) s.(num_free_slots) s.(num_freeable_slots) s.(cached) s.(request_cached_ids) l s.(freed).

Definition set_freed (l : list string) (s : EncoderCache) : EncoderCache :=
  mkEncoderCache s.(cache_size) s.(num_free_slots) s.(num_freeable_slots) s.(cached) s.(request_cached_ids) s.(freeable) l.

Definition set_ids (m : gmap string (gset nat)) (s : EncoderCache) : EncoderCache :=
  mkEncoderCache s.(cache_size) s.(num_free_slots) s.(num_freeable_slots) s.(cached) m s.(freeable) s.(freed).

Definition check_and_update_cache (r : EncRequest) (i : nat) : M EncoderCache bool :=
  f <- lift (feature_at r i) ;;
  s <- gets id ;;
  match s.(cached) !! f.(identifier) with
  | None => ret false
  | Some refs =>
      (if decide (refs = ∅) then
         match dict_get s.(freeable) f.(identifier) with
         | None => raise KeyError
         | Some n =>
             modify (set_freeable (dict_pop s.(freeable) f.(identifier))) ;;
             modify (set_slots s.(num_free_slots) (s.(num_freeable_slots) - n))
         end
       else ret tt) ;;
      modify (add_reference f.(identifier) r.(request_id) i) ;;
      ret true
  end.

(** The eviction loop of [can_allocate]; [l] is [freeable], popped from the front. *)
Fixpoint evict (num_embeds : Z) (l : list (string * Z)) : M EncoderCache unit :=
  s <- gets id ;;
  if num_embeds <=? s.(num_free_slots) then ret tt else
  match l with
  | [] => raise KeyError
  | (h, n) :: l' =>
      modify (set_freeable l') ;;
      check (bool_decide (is_Some (s.(cached) !! h))) KeyError ;;
      modify (set_cached (delete h s.(cached))) ;;
      modify (set_freed (s.(freed) ++ [h])) ;;
      modify (set_slots (s.(num_free_slots) + n) s.(num_freeable_slots)) ;;
      evict num_embeds l'
  end.

Definition can_allocate (r : EncRequest) (i : nat) (encoder_compute_budget num_embeds_to_schedule : Z)
  : M EncoderCache bool :=
  n <- lift (get_num_encoder_embeds r i) ;;
  if encoder_compute_budget <? n then ret false else
  let num_embeds := n + num_embeds_to_schedule in
  s <- gets id ;;
  if num_embeds <=? s.(num_free_slots) then ret true else
  if s.(num_freeable_slots) <? num_embeds then ret false else
  evict num_embeds s.(freeable) ;;
  ret true.

Definition allocate (r : EncRequest) (i : nat) : M EncoderCache unit :=
  f <- lift (feature_at r i) ;;
  modify (fun s => if decide (s.(cached) !! f.(identifier) = None)
                   then set_cached (<[f.(identifier) := ∅]> s.(cached)) s else s) ;;
  n <- lift (get_num_encoder_embeds r i) ;;
  s <- gets id ;;
  check (n <=? s.(num_free_slots)) AssertionError ;;
  check (n <=? s.(num_freeable_slots)) AssertionError ;;
  modify (add_reference f.(identifier) r.(request_id) i) ;;
  modify (set_slots (s.(num_free_slots) - n) (s.(num_freeable_slots) - n)).

Definition get_cached_input_ids (r : EncRequest) (s : EncoderCache) : gset nat :=
  default ∅ (s.(request_cached_ids) !! r.(request_id)).

(** [request_cached_ids[req_id].discard(input_id)], and the key goes with its last id. *)
Definition drop_input_id (rid : string) (i : nat) (m : gmap string (gset nat)) : gmap string (gset nat) :=
  match m !! rid with
  | None => m
  | Some ids => if decide (ids ∖ {[i]} = ∅) then delete rid m else <[rid := ids ∖ {[i]}]> m
  end.

Definition free_encoder_input (r : EncRequest) (i : nat) : M EncoderCache unit :=
  f <- lift (feature_at r i) ;;
  modify (fun s => set_ids (drop_input_id r.(request_id) i s.(request_cached_ids)) s) ;;
  s <- gets id ;;
  let refs := default ∅ (s.(cached) !! f.(identifier)) in
  if decide (refs = ∅) then ret tt else
  let refs := refs ∖ {[r.(request_id)]} in
  modify (set_cached (<[f.(identifier) := refs]> s.(cached))) ;;
  if decide (refs = ∅) then
    n <- lift (get_num_encoder_embeds r i) ;;
    modify (set_freeable (dict_set s.(freeable) f.(identifier) n)) ;;
    modify (set_slots s.(num_free_slots) (s.(num_freeable_slots) + n))
  else ret tt.

Definition get_freed_mm_hashes : M EncoderCache (list string) :=
  s <- gets id ;;
  modify (set_freed []) ;;
  ret (filter (fun h => s.(cached) !! h = None) s.(freed)).

(** ** The manager for encoder-decoder models *)

Record EncDecCache := mkEncDecCache {
  ed_cache_size : Z;
  ed_num_free_slots : Z;
  ed_allocated : list string;
  ed_to_free : list string;
}.

Definition new_encdec_cache (size : Z) : EncDecCache := mkEncDecCache size size [] [].

Definition ed_reset : M EncDecCache unit :=
  modify (fun s => mkEncDecCache s.(ed_cache_size) s.(ed_cache_size) [] []).

Definition ed_can_allocate (r : EncRequest) (i : nat) (encoder_compute_budget num_embeds_to_schedule : Z)
  : M EncDecCache bool :=
  n <- lift (get_num_encoder_embeds r i) ;;
  if encoder_compute_budget <? n then ret false else
  gets (fun s => n + num_embeds_to_schedule <=? s.(ed_num_free_slots)).

Definition ed_allocate (r : EncRequest) (i : nat) : M EncDecCache unit :=
  n <- lift (get_num_encoder_embeds r i) ;;
  modify (fun s => mkEncDecCache s.(ed_cache_size) (s.(ed_num_free_slots) - n) s.(ed_allocated) s.(ed_to_free)) ;;
  f <- lift (feature_at r i) ;;
  modify (fun s => mkEncDecCache s.(ed_cache_size) s.(ed_num_free_slots) (s.(ed_allocated) ++ [f.(identifier)]) s.(ed_to_free)).

Definition ed_free_encoder_input (r : EncRequest) (i : nat) : M EncDecCache unit :=
  n <- lift (get_num_encoder_embeds r i) ;;
  modify (fun s => mkEncDecCache s.(ed_cache_size) (s.(ed_num_free_slots) + n) s.(ed_allocated) s.(ed_to_free)).

Definition ed_free (r : EncRequest) : M EncDecCache unit :=
  for_each (seq 0 (length r.(mm_features))) (ed_free_encoder_input r).

Definition ed_get_freed_mm_hashes : M EncDecCache (list string) :=
  s <- gets id ;;
  modify (fun s => mkEncDecCache s.(ed_cache_size) s.(ed_num_free_slots) [] s.(ed_allocated)) ;;
  ret s.(ed_to_free).

(** [compute_mm_encoder_budget], on the values of [mm_max_toks_per_item]. *)
Definition compute_mm_encoder_budget (disable_chunked_mm_input : bool)
    (max_num_batched_tokens max_num_encoder_input_tokens encoder_cache_size : Z) (max_toks : list Z) : res (Z * Z) :=
  match max_toks with
  | [] => Ok (0, 0)
  | x :: l =>
      let max_tokens_per_mm_item := foldr Z.max x l in
      if disable_chunked_mm_input && (max_num_batched_tokens <? max_tokens_per_mm_item) then Raise ValueError
      else Ok (Z.max max_num_encoder_input_tokens max_tokens_per_mm_item,
               Z.max encoder_cache_size max_tokens_per_mm_item)
  end.

(** ** What the scheduler calls *)

Class EncoderOps (E : Type) := {
  op_check : EncRequest -> nat -> M E bool;
  op_can_allocate : EncRequest -> nat -> Z -> Z -> M E bool;
  op_allocate : EncRequest -> nat -> M E unit;
  op_cached_input_ids : EncRequest -> E -> gset nat;
  op_free_input : EncRequest -> nat -> M E unit;
}.

#[export] Instance encoder_cache_ops : EncoderOps EncoderCache := {
  op_check := check_and_update_cache;
  op_can_allocate := can_allocate;
  op_allocate := allocate;
  op_cached_input_ids := get_cached_input_ids;
  op_free_input := free_encoder_input;
}.

#[export] Instance encdec_cache_ops : EncoderOps EncDecCache := {
  op_check := fun _ _ => ret false;
  op_can_allocate := ed_can_allocate;
  op_allocate := ed_allocate;
  op_cached_input_ids := fun r _ => list_to_set (seq 0 (length r.(mm_features)));
  op_free_input := ed_free_encoder_input;
}.

Section scheduling.
Context {E : Type} `{EncoderOps E}.
Variables (is_encoder_decoder disable_chunked_mm_input : bool) (has_cache_item : string -> bool).

(** The variables of the loop in [_try_schedule_encoder_inputs]. *)
Record Plan := mkPlan {
  encoder_inputs_to_schedule : list nat;
  num_new_tokens : Z;
  encoder_compute_budget : Z;
  external_load_encoder_input : list nat;
  mm_hashes_to_schedule : gset string;
  num_embeds_to_schedule : Z;
}.

Definition set_new_tokens (n : Z) (pl : Plan) : Plan :=
  mkPlan pl.(encoder_inputs_to_schedule) n pl.(encoder_compute_budget) pl.(external_load_encoder_input)
    pl.(mm_hashes_to_schedule) pl.(num_embeds_to_schedule).

Definition schedule_input (i : nat) (h : string) (n : Z) (pl : Plan) : Plan :=
  if has_cache_item h then
    mkPlan pl.(encoder_inputs_to_schedule) pl.(num_new_tokens) pl.(encoder_compute_budget)
      (pl.(external_load_encoder_input) ++ [i]) (pl.(mm_hashes_to_schedule) ∪ {[h]}) (pl.(num_embeds_to_schedule) + n)
  else
    mkPlan (pl.(encoder_inputs_to_schedule) ++ [i]) pl.(num_new_tokens) (pl.(encoder_compute_budget) - n)
      pl.(external_load_encoder_input) (pl.(mm_hashes_to_schedule) ∪ {[h]}) (pl.(num_embeds_to_schedule) + n).

Section loop.
Variables (r : EncRequest) (nc shift window_end : Z).

(** Whether the input is already taken care of: its content is scheduled in this step,
    or cached. *)
Definition already_there (i : nat) (f : Feature) (pl : Plan) : M E bool :=
  if is_encoder_decoder then ret false
  else if decide (f.(identifier) ∈ pl.(mm_hashes_to_schedule)) then ret true
  else op_check r i.

Fixpoint plan_loop (ids : list nat) (pl : Plan) : M E Plan :=
  match ids with
  | [] => ret pl
  | i :: ids' =>
      f <- lift (feature_at r i) ;;
      let start_pos := f.(mm_position).(offset) in
      let num_encoder_tokens := f.(mm_position).(length_) in
      let n := get_num_embeds f.(mm_position) in
      if is_encoder_decoder && (0 <? nc) then
        check (start_pos =? 0) AssertionError ;; plan_loop ids' pl
      else
      there <- already_there i f pl ;;
      if (there : bool) then plan_loop ids' pl
      else if disable_chunked_mm_input && (nc <? start_pos)
              && (nc + pl.(num_new_tokens) <? start_pos + num_encoder_tokens) then
        ret (set_new_tokens (Z.max 0 (start_pos - (nc + shift))) pl)
      else
      ok <- op_can_allocate r i pl.(encoder_compute_budget) pl.(num_embeds_to_schedule) ;;
      if negb ok then
        ret (set_new_tokens (if nc + shift <? start_pos then start_pos - (nc + shift) else 0) pl)
      else
      ab <- lift (get_embeds_indices_in_range f.(mm_position)
                    (Z.max 0 (nc - start_pos)) (Z.min num_encoder_tokens (window_end - start_pos))) ;;
      if snd ab - fst ab =? 0 then plan_loop ids' pl
      else plan_loop ids' (schedule_input i f.(identifier) n pl)
  end.
End loop.

(** [_try_schedule_encoder_inputs] *)
Definition try_schedule_encoder_inputs (r : EncRequest) (nc new budget shift : Z) : M E Plan :=
  let pl := mkPlan [] new budget [] ∅ 0 in
  if (new =? 0) || (length r.(mm_features) =? 0)%nat then ret pl else
  let window_end := nc + new + shift in
  let '(lo, hi) := get_mm_features_in_window r.(mm_features) nc window_end in
  let lo := if is_encoder_decoder then O else lo in
  plan_loop r nc shift window_end (seq lo (hi - lo)) pl.

(** The allocations that follow when the request is scheduled. *)
Definition allocate_plan (r : EncRequest) (pl : Plan) : M E unit :=
  for_each pl.(encoder_inputs_to_schedule) (op_allocate r) ;;
  for_each pl.(external_load_encoder_input) (op_allocate r).
End scheduling.

Section freeing.
Context {E : Type} `{EncoderOps E}.
Variables (set_order : gset nat -> list nat) (is_encoder_decoder : bool).

(** [EncoderCacheManager.free] *)
Definition enc_free (r : EncRequest) : M E unit :=
  ids <- gets (op_cached_input_ids r) ;;
  for_each (set_order ids) (op_free_input r).

(** [_free_encoder_inputs]; [num_computed] and [num_placeholders] are the request's
    counters, [lookahead] the drafter's. *)
Definition free_encoder_inputs (r : EncRequest) (num_computed num_placeholders lookahead : Z) : M E unit :=
  ids <- gets (op_cached_input_ids r) ;;
  for_each (set_order ids) (fun i =>
    f <- lift (feature_at r i) ;;
    if is_encoder_decoder && (0 <? num_computed) then op_free_input r i
    else if f.(mm_position).(offset) + f.(mm_position).(length_) + lookahead <=? num_computed - num_placeholders
    then op_free_input r i else ret tt).
End freeing.

(** ** The model runner's side *)

(** The tensors kept by the runner after a step: evicted ones go, encoded ones come. *)
Definition apply_step (free_hashes encoded : list string) (worker : gset string) : gset string :=
  worker ∖ list_to_set free_hashes ∪ list_to_set encoded.

(** One feature in [_gather_mm_embeddings]: the slice of its encoder output to use. *)
Definition gather_one (worker : gset string) (computed shift num_scheduled : Z) (f : Feature)
  : res (list (string * Z * Z)) :=
  let nc := computed + shift in
  let start_pos := f.(mm_position).(offset) in
  let start_idx := Z.max (nc - start_pos) 0 in
  let end_idx := Z.min (nc - start_pos + num_scheduled) f.(mm_position).(length_) in
  if negb (start_idx <? end_idx) then Raise AssertionError else
  let? (a, b) := get_embeds_indices_in_range f.(mm_position) start_idx end_idx in
  if a =? b then Ok [] else
  if decide (f.(identifier) ∈ worker) then Ok [(f.(identifier), a, b)]
  else if computed + num_scheduled <=? start_pos then Ok []
  else Raise RuntimeError.

(** The loop over one request's features. *)
Definition gather_mm_embeddings (worker : gset string) (r : EncRequest) (computed shift num_scheduled : Z)
  : res (list (string * Z * Z)) :=
  let '(lo, hi) := get_mm_features_in_window r.(mm_features) (computed + shift) (computed + shift + num_scheduled) in
  let? fs := rmap (feature_at r) (seq lo (hi - lo)) in
  let? slices := rmap (gather_one worker computed shift num_scheduled) fs in
  Ok (concat slices).
