(* ===== verification/EncoderProps.v ===== *)
(** * Correctness of the encoder cache

    Slot accounting and reference invariants of the encoder cache manager, the
    scheduling loop's guarantee that what it schedules fits, and agreement between the
    scheduler's bookkeeping and the tensors the model runner holds. *)

From S2P Require Import Prelude EncoderCache.

(** ** Cumulative counts and windows *)

Lemma cumsum_lookup acc l i b :
  l !! i = Some b -> exists v, cumsum acc l !! i = Some v /\ acc <= v.
Proof.
  revert acc i. induction l as [|x l IH]; intros acc [|i] Hi; try done; simpl in *.
  - eexists. split; [done|]. destruct x; simpl; lia.
  - destruct (IH (acc + Z.b2z x) i Hi) as (v & Hv & Hle). exists v. split; [done|]. destruct x; simpl in *; lia.
Qed.

Lemma cumsum_mono acc l i j v w :
  cumsum acc l !! i = Some v -> cumsum acc l !! j = Some w -> (i <= j)%nat -> v <= w.
Proof.
  revert acc i j. induction l as [|x l IH]; intros acc i j Hv Hw Hij; [done|]. simpl in *.
  destruct i as [|i], j as [|j]; simpl in *; simplify_eq; try lia.
  - assert (exists b, l !! j = Some b) as [b Hb].
    { clear -Hw. revert j Hw. generalize (acc + Z.b2z x). induction l as [|y l IH]; intros a [|j] Hw; simpl in *; try done; eauto. }
    destruct (cumsum_lookup (acc + Z.b2z x) l j b Hb) as (v & Hv & Hle). congruence.
  - apply (IH _ i j Hv Hw). lia.
Qed.

Lemma length_cumsum acc l : length (cumsum acc l) = length l.
Proof. revert acc. induction l as [|x l IH]; intros acc; simpl; [done|]. by rewrite IH. Qed.

(** A non-empty placeholder whose mask, if any, covers it. *)
Definition range_ok (p : PlaceholderRange) : Prop :=
  0 < p.(length_) /\ forall m, p.(is_embed) = Some m -> Z.of_nat (length m) = p.(length_).

Lemma embeds_before_ok l i :
  i <= Z.of_nat (length l) -> exists v, embeds_before (cumsum 0 l) i = Ok v /\ 0 <= v.
Proof.
  intros Hi. unfold embeds_before. destruct (Z.ltb_spec 0 i); [|by exists 0].
  destruct (lookup_lt_is_Some_2 l (Z.to_nat (i - 1))) as [b Hb]; [lia|].
  destruct (cumsum_lookup 0 l _ _ Hb) as (v & -> & Hv). by exists v.
Qed.

Lemma embeds_before_mono l i j v w :
  embeds_before (cumsum 0 l) i = Ok v -> embeds_before (cumsum 0 l) j = Ok w -> i <= j -> v <= w.
Proof.
  unfold embeds_before. intros Hv Hw Hij.
  destruct (Z.ltb_spec 0 i), (Z.ltb_spec 0 j); simplify_eq; try lia.
  - destruct (cumsum 0 l !! Z.to_nat (i - 1)) eqn:Hi; [|done]. destruct (cumsum 0 l !! Z.to_nat (j - 1)) eqn:Hj; [|done].
    simplify_eq. apply (cumsum_mono 0 l _ _ _ _ Hi Hj). lia.
  - destruct (cumsum 0 l !! Z.to_nat (j - 1)) eqn:Hj; [|done]. simplify_eq.
    assert (exists b, l !! Z.to_nat (j - 1) = Some b) as [b Hb].
    { apply lookup_lt_is_Some_2. apply lookup_lt_Some in Hj. by rewrite length_cumsum in Hj. }
    destruct (cumsum_lookup 0 l _ _ Hb) as (v & Hv & Hle). rewrite Hj in Hv. by simplify_eq.
Qed.

(** Index pairs exist inside the placeholder, and a subrange has no more embeddings. *)
Lemma indices_ok p a b :
  range_ok p -> a <= p.(length_) -> b <= p.(length_) -> exists x y, get_embeds_indices_in_range p a b = Ok (x, y).
Proof.
  intros [Hl Hm] Ha Hb. unfold get_embeds_indices_in_range, embeds_cumsum.
  destruct (is_embed p) as [m|] eqn:He; simpl; [|by eexists _, _]. specialize (Hm m eq_refl).
  destruct (embeds_before_ok m a ltac:(lia)) as (x & -> & _). destruct (embeds_before_ok m b ltac:(lia)) as (y & -> & _).
  by exists x, y.
Qed.

Lemma indices_sub p a b a' b' x y x' y' :
  get_embeds_indices_in_range p a b = Ok (x, y) -> get_embeds_indices_in_range p a' b' = Ok (x', y') ->
  a <= a' -> b' <= b -> a' <= b' -> x = y -> x' = y'.
Proof.
  unfold get_embeds_indices_in_range, embeds_cumsum. intros H1 H2 Ha Hb Hab ->.
  destruct (is_embed p) as [m|]; simpl in *; [|simplify_eq; lia].
  destruct (embeds_before (cumsum 0 m) a) as [va|] eqn:E1; simpl in H1; [|done].
  destruct (embeds_before (cumsum 0 m) b) as [vb|] eqn:E2; simpl in H1; [|done].
  destruct (embeds_before (cumsum 0 m) a') as [va'|] eqn:E3; simpl in H2; [|done].
  destruct (embeds_before (cumsum 0 m) b') as [vb'|] eqn:E4; simpl in H2; [|done]. simplify_eq.
  pose proof (embeds_before_mono m _ _ _ _ E1 E3 Ha). pose proof (embeds_before_mono m _ _ _ _ E4 E2 Hb).
  pose proof (embeds_before_mono m _ _ _ _ E3 E4 Hab). lia.
Qed.

(** Bisection on a list sorted by the key splits it at the bound. *)
Lemma bisect_left_spec {A} (a : list A) (key : A -> Z) x fuel lo hi :
  (forall i j y z, (i <= j)%nat -> a !! i = Some y -> a !! j = Some z -> key y <= key z) ->
  (lo <= hi)%nat -> (hi <= length a)%nat -> (hi - lo < fuel)%nat ->
  (forall i y, (i < lo)%nat -> a !! i = Some y -> key y < x) ->
  (forall i y, (hi <= i)%nat -> a !! i = Some y -> x <= key y) ->
  let k := bisect_left fuel a key x lo hi in
  (k <= length a)%nat /\ (forall i y, a !! i = Some y -> (i < k)%nat <-> key y < x).
Proof.
  intros Hs. revert lo hi. induction fuel as [|fuel IH]; intros lo hi Hlh Hhi Hf Hlo Hge; [lia|]. cbn [bisect_left].
  destruct (Nat.ltb_spec lo hi) as [Hlt|].
  2:{ simpl. split; [lia|]. intros i y Hi. split; [by intros; eapply Hlo|]. intros Hk.
      destruct (decide (i < lo)%nat); [done|]. pose proof (Hge i y ltac:(lia) Hi). lia. }
  assert (Hmid : (lo <= Nat.div2 (lo + hi) < hi)%nat).
  { pose proof (Nat.div2_odd (lo + hi)). destruct (Nat.odd (lo + hi)); simpl in *; lia. }
  destruct (lookup_lt_is_Some_2 a (Nat.div2 (lo + hi))) as [y Hy]; [lia|]. rewrite Hy.
  destruct (Z.ltb_spec (key y) x).
  - apply IH; [lia..| |done]. intros i z Hi Hz. pose proof (Hs i (Nat.div2 (lo + hi)) z y ltac:(lia) Hz Hy). lia.
  - apply IH; [lia..|done|]. intros i z Hi Hz. pose proof (Hs (Nat.div2 (lo + hi)) i y z ltac:(lia) Hy Hz). lia.
Qed.

(** Features in prompt order, without overlap. *)
Definition in_order (fs : list Feature) : Prop :=
  (forall f, f ∈ fs -> range_ok f.(mm_position))
  /\ forall i j f g, (i < j)%nat -> fs !! i = Some f -> fs !! j = Some g ->
       f.(mm_position).(offset) + f.(mm_position).(length_) <= g.(mm_position).(offset).

Lemma window_spec fs start end_ lo hi :
  in_order fs -> get_mm_features_in_window fs start end_ = (lo, hi) ->
  (lo <= length fs)%nat /\ (hi <= length fs)%nat
  /\ forall i f, fs !! i = Some f ->
       (lo <= i < hi)%nat <-> start < f.(mm_position).(offset) + f.(mm_position).(length_) /\ f.(mm_position).(offset) < end_.
Proof.
  intros [Hr Ho] Hw. unfold get_mm_features_in_window in Hw.
  assert (Hlen : forall i f, fs !! i = Some f -> 0 <= length_ (mm_position f)).
  { intros i f Hf. destruct (Hr f) as [? _]; [by eapply list_elem_of_lookup_2|lia]. }
  destruct (bisect_left_spec fs (fun f => offset (mm_position f) + length_ (mm_position f)) (start + 1) (S (length fs)) 0 (length fs)) as [H1 H2];
    [|lia|lia|lia|lia|intros i y Hi Hy; apply lookup_lt_Some in Hy; lia|].
  { intros i j y z Hij Hy Hz. destruct (decide (i = j)) as [->|]; [by simplify_eq|].
    pose proof (Ho i j y z ltac:(lia) Hy Hz). pose proof (Hlen j z Hz). lia. }
  destruct (bisect_left_spec fs (fun f => offset (mm_position f)) end_ (S (length fs)) 0 (length fs)) as [H3 H4];
    [|lia|lia|lia|lia|intros i y Hi Hy; apply lookup_lt_Some in Hy; lia|].
  { intros i j y z Hij Hy Hz. destruct (decide (i = j)) as [->|]; [by simplify_eq|].
    pose proof (Ho i j y z ltac:(lia) Hy Hz). pose proof (Hlen i y Hy). lia. }
  injection Hw as <- <-. split_and!; [done|done|]. intros i f Hf. specialize (H2 i f Hf). specialize (H4 i f Hf). simpl in *. lia.
Qed.

(** ** Slot accounting *)

(** The requests that reference an entry. *)
Definition refs_of (s : EncoderCache) (h : string) : gset string := default ∅ (s.(cached) !! h).

Section effects.
Implicit Types (s : EncoderCache) (h rid : string).

(** References of other requests stay; entries that are referenced stay. *)
Definition keeps_refs (gone : string -> Prop) s s' : Prop :=
  forall h rid, ~ gone rid -> rid ∈ refs_of s h -> rid ∈ refs_of s' h.

Lemma keeps_refs_trans g s1 s2 s3 : keeps_refs g s1 s2 -> keeps_refs g s2 s3 -> keeps_refs g s1 s3.
Proof. unfold keeps_refs. naive_solver. Qed.

Lemma keeps_refs_mono (g g' : string -> Prop) s s' :
  (forall x, g x -> g' x) -> keeps_refs g s s' -> keeps_refs g' s s'.
Proof. unfold keeps_refs. naive_solver. Qed.

Definition nobody : string -> Prop := fun _ => False.

Lemma refs_cached s h rid : rid ∈ refs_of s h -> exists v, s.(cached) !! h = Some v /\ rid ∈ v.
Proof. unfold refs_of. destruct (cached s !! h) as [v|]; simpl; [eauto|set_solver]. Qed.

(** What an operation does to the entries: sizes stay, requests that are not [gone] keep
    their references, entries leave only into [freed] and come only from [added]. *)
Record effect (gone : string -> Prop) (added : list string) s s' : Prop := {
  ef_size : s'.(cache_size) = s.(cache_size);
  ef_refs : keeps_refs gone s s';
  ef_out : forall h, is_Some (s.(cached) !! h) -> is_Some (s'.(cached) !! h) \/ h ∈ s'.(freed);
  ef_freed : forall h, h ∈ s.(freed) -> h ∈ s'.(freed);
  ef_in : forall h, is_Some (s'.(cached) !! h) -> is_Some (s.(cached) !! h) \/ h ∈ added;
}.

Lemma effect_refl g s : effect g [] s s.
Proof. split; [done|by intros h rid _|by left|done|by left]. Qed.

Lemma effect_trans g a b s1 s2 s3 : effect g a s1 s2 -> effect g b s2 s3 -> effect g (a ++ b) s1 s3.
Proof.
  intros [H1 H2 H3 H4 H5] [G1 G2 G3 G4 G5]. split; [congruence|by eapply keeps_refs_trans| |naive_solver|].
  - intros h Hh. destruct (H3 h Hh) as [Hc|Hf]; [by apply G3|right; by apply G4].
  - intros h Hh. rewrite elem_of_app. destruct (G5 h Hh) as [Hc|]; [|naive_solver]. destruct (H5 h Hc); naive_solver.
Qed.

Lemma effect_mono (g g' : string -> Prop) a s s' : (forall x, g x -> g' x) -> effect g a s s' -> effect g' a s s'.
Proof. intros Hg [H1 H2 H3 H4 H5]. split; try done. by eapply keeps_refs_mono. Qed.
End effects.

Section invariant.
Variables (sz : string -> Z) (hashes : string -> list string).
Implicit Types (s : EncoderCache) (r : EncRequest) (h rid : string) (i : nat).

(** The embeddings held by the entries of [cached]. *)
Definition usage (m : gmap string (gset string)) : Z := map_fold (fun h _ a => sz h + a) 0 m.

Lemma usage_new m h v : m !! h = None -> usage (<[h := v]> m) = sz h + usage m.
Proof. intros Hh. unfold usage. rewrite map_fold_insert_L; [done| |done]. intros. lia. Qed.

Lemma usage_delete m h v : m !! h = Some v -> usage m = sz h + usage (delete h m).
Proof. intros Hh. unfold usage. rewrite (map_fold_delete_L _ _ h v m); [done| |done]. intros. lia. Qed.

Lemma usage_update m h v w : m !! h = Some v -> usage (<[h := w]> m) = usage m.
Proof.
  intros Hh. rewrite (usage_delete (<[h := w]> m) h w) by apply lookup_insert_eq.
  rewrite delete_insert_eq, (usage_delete m h v Hh). done.
Qed.

(** When nothing is referenced, the freeable entries are all of them. *)
Lemma usage_list m l :
  NoDup l.*1 -> (forall h n, (h, n) ∈ l <-> is_Some (m !! h) /\ n = sz h) -> usage m = zsum l.*2.
Proof.
  revert m. induction l as [|[h n] l IH]; intros m Hnd Hl.
  - assert (m = ∅) as ->; [|done]. apply map_empty. intros h. destruct (m !! h) eqn:Hh; [|done].
    assert (Hin : (h, sz h) ∈ ([] : list (string * Z))) by (apply Hl; eauto). by apply elem_of_nil in Hin.
  - cbn [fmap list_fmap fst snd] in *. apply NoDup_cons in Hnd as [Hnin Hnd]. rewrite zsum_cons.
    destruct (Hl h n) as [Hh _]. destruct Hh as [[v Hv] ->]; [by left|]. rewrite (usage_delete m h v Hv).
    f_equal. apply IH; [done|]. intros h' n'. destruct (decide (h' = h)) as [->|Hne].
    + rewrite lookup_delete_eq. split; [|by intros [[? ?] _]]. intros Hin. destruct Hnin.
      by apply (list_elem_of_fmap_2 fst) in Hin.
    + rewrite lookup_delete_ne by done. rewrite <- Hl, elem_of_cons. split; [by right|]. by intros [[= -> ->]|].
Qed.

(** A request whose inputs are those its id stands for, each as large as its hash says. *)
Definition req_ok r : Prop :=
  (identifier <$> r.(mm_features)) = hashes r.(request_id)
  /\ forall f, f ∈ r.(mm_features) -> get_num_embeds f.(mm_position) = sz f.(identifier).

Record EncInv s : Prop := {
  ei_nodup : NoDup s.(freeable).*1;
  ei_freeable : forall h n, (h, n) ∈ s.(freeable) <-> s.(cached) !! h = Some ∅ /\ n = sz h;
  ei_reclaimable : s.(num_freeable_slots) = s.(num_free_slots) + zsum s.(freeable).*2;
  ei_usage : s.(cache_size) = s.(num_free_slots) + usage s.(cached);
  ei_pos : 0 <= s.(num_free_slots);
  ei_ids : forall rid ids i, s.(request_cached_ids) !! rid = Some ids -> i ∈ ids -> (i < length (hashes rid))%nat;
  ei_refs : forall h rid, rid ∈ refs_of s h ->
    exists ids i, s.(request_cached_ids) !! rid = Some ids /\ i ∈ ids /\ hashes rid !! i = Some h;
}.

Lemma new_encoder_cache_inv size : 0 <= size -> EncInv (new_encoder_cache size).
Proof.
  intros Hs. split; simpl; try done; [apply NoDup_nil_2|..].
  - intros h n. rewrite lookup_empty. split; [|naive_solver]. by intros ?%elem_of_nil.
  - unfold zsum. simpl. lia.
  - unfold usage. rewrite map_fold_empty. lia.
Qed.

Lemma req_feature r i f :
  req_ok r -> r.(mm_features) !! i = Some f ->
  hashes r.(request_id) !! i = Some f.(identifier) /\ get_num_encoder_embeds r i = Ok (sz f.(identifier)).
Proof.
  intros [Hh Hs] Hf. split; [rewrite <- Hh, list_lookup_fmap, Hf; done|].
  unfold get_num_encoder_embeds. rewrite Hf. by rewrite Hs by (by eapply list_elem_of_lookup_2).
Qed.

Lemma feature_ok r i f : r.(mm_features) !! i = Some f -> feature_at r i = Ok f.
Proof. unfold feature_at. by intros ->. Qed.

Lemma in_freeable s h : EncInv s -> s.(cached) !! h = Some ∅ -> dict_get s.(freeable) h = Some (sz h).
Proof. intros Hi Hh. apply dict_get_elem; [apply (ei_nodup _ Hi)|]. by apply (ei_freeable _ Hi). Qed.

Lemma cached_insert (c : gmap string (gset string)) h v h' :
  default ∅ (<[h := v]> c !! h') = if decide (h' = h) then v else default ∅ (c !! h').
Proof. destruct (decide (h' = h)) as [->|]; [by rewrite lookup_insert_eq|by rewrite lookup_insert_ne]. Qed.

(** Adding a reference keeps every request's ids and references in step. *)
Lemma reference_ids s h rid i :
  EncInv s -> hashes rid !! i = Some h ->
  let s' := add_reference h rid i s in
  (forall rid' ids j, s'.(request_cached_ids) !! rid' = Some ids -> j ∈ ids -> (j < length (hashes rid'))%nat)
  /\ (forall h' rid', rid' ∈ refs_of s' h' ->
      exists ids j, s'.(request_cached_ids) !! rid' = Some ids /\ j ∈ ids /\ hashes rid' !! j = Some h').
Proof.
  intros Hi Hh. simpl. split.
  - intros rid' ids j. destruct (decide (rid' = rid)) as [->|Hne].
    + rewrite lookup_insert_eq. intros [= <-]. rewrite elem_of_union, elem_of_singleton. intros [Hj| ->].
      * destruct (request_cached_ids s !! rid) as [ids|] eqn:Hids; [|set_solver]. by eapply (ei_ids _ Hi).
      * by eapply lookup_lt_Some.
    + rewrite lookup_insert_ne by done. apply (ei_ids _ Hi).
  - intros h' rid'. unfold refs_of. simpl. rewrite cached_insert. intros Hin.
    assert (Hold : rid' ∈ refs_of s h' \/ (rid' = rid /\ h' = h)).
    { destruct (decide (h' = h)) as [->|]; [|by left]. apply elem_of_union in Hin as [?|?%elem_of_singleton]; [by left|by right]. }
    destruct Hold as [Hold|[-> ->]].
    + destruct (ei_refs _ Hi _ _ Hold) as (ids & j & Hids & Hj & Hhj). destruct (decide (rid' = rid)) as [->|Hne].
      * rewrite lookup_insert_eq, Hids. eexists _, j. split_and!; [done|simpl; set_solver|done].
      * rewrite lookup_insert_ne by done. by exists ids, j.
    + rewrite lookup_insert_eq. eexists _, i. split_and!; [done|set_solver|done].
Qed.

Lemma add_reference_effect h rid i s g a :
  (is_Some (s.(cached) !! h) \/ h ∈ a) -> effect g a s (add_reference h rid i s).
Proof.
  intros Hh. split; simpl; try done.
  - intros h' rid' _. unfold refs_of. simpl. rewrite cached_insert. destruct (decide _) as [->|]; set_solver.
  - intros h' Hs. left. destruct (decide (h' = h)) as [->|]; [rewrite lookup_insert_eq; eauto|by rewrite lookup_insert_ne].
  - intros h'. destruct (decide (h' = h)) as [->|]; [by intros _; destruct Hh; [left|right]|]. rewrite lookup_insert_ne by done. by left.
Qed.

Lemma add_reference_refs h rid i s : rid ∈ refs_of (add_reference h rid i s) h.
Proof. unfold refs_of. simpl. rewrite cached_insert, decide_True by done. set_solver. Qed.

(** ** Looking up *)

Lemma check_spec r i f s :
  EncInv s -> req_ok r -> r.(mm_features) !! i = Some f ->
  exists b s', check_and_update_cache r i s = (Ok b, s') /\ EncInv s' /\ effect nobody [] s s'
    /\ s'.(num_free_slots) = s.(num_free_slots)
    /\ (if b : bool then r.(request_id) ∈ refs_of s' f.(identifier) else s' = s /\ s.(cached) !! f.(identifier) = None).
Proof.
  intros Hi Hr Hf. destruct (req_feature r i f Hr Hf) as [Hh _]. unfold check_and_update_cache.
  rewrite (feature_ok r i f Hf). run_monad. unfold id. set (h := identifier f) in *. set (rid := request_id r) in *.
  destruct (cached s !! h) as [refs|] eqn:Hc.
  2:{ exists false, s. split_and!; [done|done|apply effect_refl|done|done|done]. }
  destruct (reference_ids s h rid i Hi Hh) as [Hids Hrefs]. exists true.
  destruct (decide (refs = ∅)) as [->|Hne].
  - rewrite (in_freeable s h Hi Hc). pose proof (in_freeable s h Hi Hc) as Hg. eexists. split; [reflexivity|].
    pose proof (dict_pop_perm _ _ _ (ei_nodup _ Hi) Hg) as Hperm.
    split_and!; [|split; simpl; try done|done|apply add_reference_refs].
    + split; simpl; [rewrite dict_pop_keys; apply NoDup_filter, (ei_nodup _ Hi)| | | |apply (ei_pos _ Hi)|exact Hids|exact Hrefs].
      * intros h' n. unfold dict_pop. rewrite list_elem_of_filter. simpl. rewrite (ei_freeable _ Hi).
        destruct (decide (h' = h)) as [->|Hne']; [rewrite lookup_insert_eq|rewrite lookup_insert_ne by done]; [|naive_solver].
        split; [naive_solver|]. intros [[= He] _]. set_solver.
      * rewrite (ei_reclaimable _ Hi), Hperm at 1. rewrite fmap_cons, zsum_cons. simpl. lia.
      * rewrite (usage_update _ h ∅) by done. apply (ei_usage _ Hi).
    + apply (add_reference_effect h rid i s nobody []). eauto.
    + apply (add_reference_effect h rid i s nobody []). eauto.
    + intros h' Hh'. apply (add_reference_effect h rid i s nobody []); eauto.
  - run_monad. eexists. split; [reflexivity|].
    split_and!; [|apply add_reference_effect; eauto|done|apply add_reference_refs].
    split; simpl; [apply (ei_nodup _ Hi)| |apply (ei_reclaimable _ Hi)| |apply (ei_pos _ Hi)|exact Hids|exact Hrefs].
    + intros h' n. rewrite (ei_freeable _ Hi). destruct (decide (h' = h)) as [->|Hne']; [|by rewrite lookup_insert_ne].
      rewrite lookup_insert_eq, Hc. simpl. split; [naive_solver|]. intros [[= He] _]. set_solver.
    + rewrite (usage_update _ h refs) by done. apply (ei_usage _ Hi).
Qed.

(** ** Making room *)

(** The state with its oldest freeable entry evicted. *)
Definition evicted (h : string) (n : Z) (l : list (string * Z)) s : EncoderCache :=
  set_slots (s.(num_free_slots) + n) s.(num_freeable_slots)
    (set_freed (s.(freed) ++ [h]) (set_cached (delete h s.(cached)) (set_freeable l s))).

Lemma evicted_inv h n l s :
  EncInv s -> 0 <= sz h -> s.(freeable) = (h, n) :: l ->
  EncInv (evicted h n l s) /\ effect nobody [] s (evicted h n l s) /\ s.(cached) !! h = Some ∅ /\ n = sz h.
Proof.
  intros Hi Hz Hl. destruct (proj1 (ei_freeable _ Hi h n)) as [Hc ->]; [rewrite Hl; by left|].
  pose proof (ei_nodup _ Hi) as Hnd. rewrite Hl in Hnd. simpl in Hnd. apply NoDup_cons in Hnd as [Hnin Hnd].
  assert (Hrefs : forall h' rid, rid ∈ refs_of s h' -> rid ∈ refs_of (evicted h (sz h) l s) h').
  { intros h' rid. unfold refs_of. simpl. destruct (decide (h' = h)) as [->|]; [rewrite Hc; simpl; set_solver|by rewrite lookup_delete_ne]. }
  split_and!; [split; simpl|split; simpl|done|done]; try done.
  - intros h' n'. destruct (decide (h' = h)) as [->|Hne].
    + rewrite lookup_delete_eq. split; [|naive_solver]. intros Hin. destruct Hnin. by apply (list_elem_of_fmap_2 fst) in Hin.
    + rewrite lookup_delete_ne by done. rewrite <- (ei_freeable _ Hi), Hl, elem_of_cons. naive_solver.
  - rewrite (ei_reclaimable _ Hi), Hl, fmap_cons, zsum_cons. simpl. lia.
  - rewrite (ei_usage _ Hi), (usage_delete _ h ∅ Hc). lia.
  - pose proof (ei_pos _ Hi). lia.
  - apply (ei_ids _ Hi).
  - intros h' rid Hin. apply (ei_refs _ Hi). unfold refs_of in *. simpl in Hin.
    destruct (decide (h' = h)) as [->|]; [by rewrite lookup_delete_eq in Hin|by rewrite lookup_delete_ne in Hin].
  - intros h' rid _. apply Hrefs.
  - intros h' Hh'. destruct (decide (h' = h)) as [->|]; [right; set_solver|left; by rewrite lookup_delete_ne].
  - intros h' Hh'. set_solver.
  - intros h'. destruct (decide (h' = h)) as [->|]; [rewrite lookup_delete_eq; by intros [? ?]|]. rewrite lookup_delete_ne by done. by left.
Qed.

Hypothesis sz_nonneg : forall h, 0 <= sz h.

Lemma usage_nonneg m : 0 <= usage m.
Proof.
  induction m as [|h v m Hh IH] using map_ind; [done|]. rewrite usage_new by done. pose proof (sz_nonneg h). lia.
Qed.

(** Without references every slot can be reclaimed. *)
Lemma all_reclaimable s :
  EncInv s -> (forall rid, default ∅ (s.(request_cached_ids) !! rid) = ∅) -> s.(num_freeable_slots) = s.(cache_size).
Proof.
  intros Hi Hno. rewrite (ei_reclaimable _ Hi), (ei_usage _ Hi). f_equal. symmetry. apply usage_list; [apply (ei_nodup _ Hi)|].
  intros h n. rewrite (ei_freeable _ Hi). split; [intros [-> ->]; eauto|]. intros [[v Hv] ->]. split; [|done]. rewrite Hv. f_equal.
  apply set_eq. intros rid. split; [|set_solver]. intros Hin.
  destruct (ei_refs _ Hi h rid) as (ids & i & Hids & Hin' & _); [unfold refs_of; by rewrite Hv|].
  specialize (Hno rid). rewrite Hids in Hno. simpl in Hno. set_solver.
Qed.

(** The loop returns with room for [n], having evicted the shortest sufficient prefix of
    the unreferenced entries. *)
Lemma enc_evict_spec n s :
  EncInv s -> n <= s.(num_freeable_slots) ->
  exists k s', evict n s.(freeable) s = (Ok tt, s') /\ EncInv s' /\ effect nobody [] s s'
    /\ n <= s'.(num_free_slots) /\ s'.(freeable) = drop k s.(freeable)
    /\ s'.(freed) = s.(freed) ++ (take k s.(freeable)).*1
    /\ s'.(num_freeable_slots) = s.(num_freeable_slots)
    /\ (forall j, (j < k)%nat -> s.(num_free_slots) + zsum (take j s.(freeable)).*2 < n).
Proof.
  remember (freeable s) as l eqn:Hl. symmetry in Hl. revert s Hl. induction l as [|[h m] l IH]; intros s Hl Hi Hn; cbn [evict]; run_monad; unfold id.
  - rewrite (ei_reclaimable _ Hi), Hl in Hn. change (zsum ([] : list (string * Z)).*2) with 0 in Hn.
    destruct (Z.leb_spec n (num_free_slots s)); [|lia]. exists O, s.
    split_and!; [done|done|apply effect_refl|done|done|by rewrite app_nil_r|done|lia].
  - destruct (Z.leb_spec n (num_free_slots s)) as [Hle|Hgt].
    { exists O, s. split_and!; [done|done|apply effect_refl|done|done|by rewrite app_nil_r|done|lia]. }
    destruct (evicted_inv h m l s Hi (sz_nonneg h) Hl) as (Hi' & He & Hc & Hm).
    rewrite bool_decide_true by (rewrite Hc; eauto). unfold check. run_monad.
    destruct (IH (evicted h m l s) eq_refl Hi' Hn) as (k & s' & Hrun & Hi2 & He2 & Hn2 & Hf2 & Hd2 & Hs2 & Hj2).
    exists (S k), s'. split_and!; [exact Hrun|done|exact (effect_trans _ [] [] _ _ _ He He2)|done|done| |done|].
    + rewrite Hd2. simpl. by rewrite <- app_assoc.
    + intros [|j] Hj; [change (zsum (take 0 ((h, m) :: l)).*2) with 0; lia|]. cbn [take]. rewrite fmap_cons, zsum_cons. simpl.
      specialize (Hj2 j ltac:(lia)). simpl in Hj2. lia.
Qed.

Lemma freeable_sum_nonneg s : EncInv s -> 0 <= zsum s.(freeable).*2.
Proof.
  intros Hi. assert (Hall : Forall (fun x => 0 <= x) (freeable s).*2).
  { apply Forall_forall. intros x Hx. apply list_elem_of_fmap in Hx as ([h n] & -> & Hx).
    apply (ei_freeable _ Hi) in Hx as [_ ->]. apply sz_nonneg. }
  induction Hall as [|x l Hx _ IH]; [done|]. rewrite zsum_cons. lia.
Qed.

Lemma can_allocate_spec r i f budget pending s :
  EncInv s -> req_ok r -> r.(mm_features) !! i = Some f ->
  let n := sz f.(identifier) in
  exists s', can_allocate r i budget pending s
             = (Ok (bool_decide (n <= budget /\ n + pending <= s.(num_freeable_slots))), s')
    /\ EncInv s' /\ effect nobody [] s s' /\ s'.(num_freeable_slots) = s.(num_freeable_slots)
    /\ s.(num_free_slots) <= s'.(num_free_slots)
    /\ (n <= budget -> n + pending <= s.(num_freeable_slots) -> n + pending <= s'.(num_free_slots)).
Proof.
  intros Hi Hr Hf n. destruct (req_feature r i f Hr Hf) as [_ Hn]. unfold can_allocate. rewrite Hn. run_monad. unfold id. fold n.
  pose proof (freeable_sum_nonneg s Hi) as Hnn. pose proof (ei_reclaimable _ Hi) as Hrec.
  destruct (Z.ltb_spec budget n).
  { exists s. rewrite bool_decide_false by lia. split_and!; [done|done|apply effect_refl|done|lia|lia]. }
  run_monad. destruct (Z.leb_spec (n + pending) (num_free_slots s)).
  { exists s. rewrite bool_decide_true by lia. split_and!; [done|done|apply effect_refl|done|lia|lia]. }
  destruct (Z.ltb_spec (num_freeable_slots s) (n + pending)).
  { exists s. rewrite bool_decide_false by lia. split_and!; [done|done|apply effect_refl|done|lia|lia]. }
  destruct (enc_evict_spec (n + pending) s Hi ltac:(lia)) as (k & s' & Hrun & Hi' & He & Hle & _ & _ & Hs & _).
  exists s'. rewrite bool_decide_true by lia. rewrite (bind_ok _ _ _ _ _ Hrun). split_and!; [done|done|done|done|lia|done].
Qed.

(** ** Allocating *)

Lemma allocate_spec r i f s :
  EncInv s -> req_ok r -> r.(mm_features) !! i = Some f ->
  s.(cached) !! f.(identifier) = None -> sz f.(identifier) <= s.(num_free_slots) ->
  exists s', allocate r i s = (Ok tt, s') /\ EncInv s' /\ effect nobody [f.(identifier)] s s'
    /\ s'.(num_free_slots) = s.(num_free_slots) - sz f.(identifier)
    /\ s'.(cached) = <[f.(identifier) := {[r.(request_id)]}]> s.(cached) /\ s'.(freed) = s.(freed).
Proof.
  intros Hi Hr Hf Hc Hle. destruct (req_feature r i f Hr Hf) as [Hh Hn]. unfold allocate.
  rewrite (feature_ok r i f Hf). run_monad. unfold id. rewrite Hn. run_monad. set (h := identifier f) in *. set (rid := request_id r) in *.
  rewrite decide_True by done. simpl. pose proof (freeable_sum_nonneg s Hi). pose proof (ei_reclaimable _ Hi) as Hrec.
  rewrite (proj2 (Z.leb_le _ _) Hle), (proj2 (Z.leb_le (sz h) (num_freeable_slots s)) ltac:(lia)). unfold check. run_monad.
  destruct (reference_ids s h rid i Hi Hh) as [Hids Hrefs]. eexists. split; [reflexivity|].
  unfold add_reference, set_slots, set_cached. simpl. rewrite lookup_insert_eq, insert_insert_eq. simpl.
  rewrite (left_id_L ∅ (∪) {[rid]}). split_and!; [split|split|..]; simpl; try done.
  - apply (ei_nodup _ Hi).
  - intros h' n. rewrite (ei_freeable _ Hi). destruct (decide (h' = h)) as [->|]; [|by rewrite lookup_insert_ne].
    rewrite lookup_insert_eq, Hc. split; [naive_solver|]. intros [[= He] _].
  - lia.
  - rewrite (ei_usage _ Hi), usage_new by done. lia.
  - lia.
  - intros h' rid' Hin. apply Hrefs. unfold refs_of in *. simpl in *. rewrite Hc. simpl. by rewrite (left_id_L ∅ (∪) {[rid]}).
  - intros h' rid' _. unfold refs_of. simpl. rewrite cached_insert. destruct (decide _) as [->|]; [|done]. rewrite Hc. simpl. set_solver.
  - intros h' Hs. left. destruct (decide (h' = h)) as [->|]; [rewrite lookup_insert_eq; eauto|by rewrite lookup_insert_ne].
  - intros h'. destruct (decide (h' = h)) as [->|]; [intros _; right; by left|]. rewrite lookup_insert_ne by done. by left.
Qed.

(** ** Freeing *)

Lemma drop_input_other rid rid' i m : rid' <> rid -> drop_input_id rid i m !! rid' = m !! rid'.
Proof.
  intros Hne. unfold drop_input_id. destruct (m !! rid); [|done].
  destruct (decide _); [by rewrite lookup_delete_ne|by rewrite lookup_insert_ne].
Qed.

Lemma drop_input_ids rid i m : default ∅ (drop_input_id rid i m !! rid) = default ∅ (m !! rid) ∖ {[i]}.
Proof.
  unfold drop_input_id. destruct (m !! rid) as [ids|] eqn:Hm; [|rewrite Hm; simpl; set_solver].
  simpl. destruct (decide _) as [He|]; [rewrite lookup_delete_eq; simpl; set_solver|by rewrite lookup_insert_eq].
Qed.

Lemma some_default (m : gmap string (gset nat)) rid j :
  j ∈ default ∅ (m !! rid) <-> exists ids, m !! rid = Some ids /\ j ∈ ids.
Proof. destruct (m !! rid); simpl; [naive_solver|set_solver]. Qed.

(** The bookkeeping of ids after one input was freed, whatever the entries became, as
    long as the request lost its reference to that input's entry. *)
Lemma dropped_ids rid i h s s' :
  EncInv s -> hashes rid !! i = Some h ->
  s'.(request_cached_ids) = drop_input_id rid i s.(request_cached_ids) ->
  rid ∉ refs_of s' h -> (forall h', refs_of s' h' ⊆ refs_of s h') ->
  (forall rid' ids j, s'.(request_cached_ids) !! rid' = Some ids -> j ∈ ids -> (j < length (hashes rid'))%nat)
  /\ (forall h' rid', rid' ∈ refs_of s' h' ->
      exists ids j, s'.(request_cached_ids) !! rid' = Some ids /\ j ∈ ids /\ hashes rid' !! j = Some h').
Proof.
  intros Hi Hh -> Hnin Hsub. split.
  - intros rid' ids j Hids Hj. assert (Hin : j ∈ default ∅ (request_cached_ids s !! rid')).
    { destruct (decide (rid' = rid)) as [->|Hne]; [|rewrite drop_input_other in Hids by done; by rewrite Hids].
      pose proof (drop_input_ids rid i (request_cached_ids s)) as Hd. rewrite Hids in Hd. simpl in Hd. set_solver. }
    apply some_default in Hin as (ids' & Hids' & Hj'). by eapply (ei_ids _ Hi).
  - intros h' rid' Hin. destruct (ei_refs _ Hi h' rid' (Hsub h' _ Hin)) as (ids & j & Hids & Hj & Hhj).
    destruct (decide (rid' = rid)) as [->|Hne]; [|rewrite drop_input_other by done; by exists ids, j].
    assert (j <> i) by (intros ->; assert (h' = h) as -> by congruence; done).
    assert (Hk : j ∈ default ∅ (drop_input_id rid i (request_cached_ids s) !! rid)) by (rewrite drop_input_ids, Hids; simpl; set_solver).
    apply some_default in Hk as (ids' & ? & ?). by exists ids', j.
Qed.

Lemma free_input_spec r i f s :
  EncInv s -> req_ok r -> r.(mm_features) !! i = Some f ->
  exists s', free_encoder_input r i s = (Ok tt, s') /\ EncInv s' /\ effect (eq r.(request_id)) [] s s'
    /\ s'.(num_free_slots) = s.(num_free_slots) /\ s'.(freed) = s.(freed)
    /\ (forall h, is_Some (s'.(cached) !! h) <-> is_Some (s.(cached) !! h))
    /\ s'.(request_cached_ids) = drop_input_id r.(request_id) i s.(request_cached_ids).
Proof.
  intros Hi Hr Hf. destruct (req_feature r i f Hr Hf) as [Hh Hn]. unfold free_encoder_input.
  rewrite (feature_ok r i f Hf). run_monad. cbn [id set_ids cached freeable num_free_slots num_freeable_slots].
  set (h := identifier f) in *. set (rid := request_id r) in *. change (default ∅ (cached s !! h)) with (refs_of s h).
  destruct (decide (refs_of s h = ∅)) as [He|He].
  - eexists. split; [reflexivity|]. destruct (dropped_ids rid i h s (set_ids (drop_input_id rid i s.(request_cached_ids)) s) Hi Hh) as [H1 H2];
      [done|unfold refs_of in *; simpl; rewrite He; set_solver|done|].
    destruct Hi. split_and!; [by split|split; simpl; [done|by intros h' rid' _|by left|done|by left]|done..].
  - assert (exists v, cached s !! h = Some v) as [v Hc] by (unfold refs_of in He; destruct (cached s !! h); [eauto|done]).
    assert (Hrefs : refs_of s h = v) by (unfold refs_of; by rewrite Hc). rewrite Hrefs in He |- *.
    set (s1 := set_cached (<[h := v ∖ {[rid]}]> (cached s)) (set_ids (drop_input_id rid i (request_cached_ids s)) s)).
    destruct (dropped_ids rid i h s s1 Hi Hh) as [H1 H2]; [done|..].
    { unfold refs_of. simpl. rewrite cached_insert, decide_True by done. set_solver. }
    { intros h'. unfold refs_of. simpl. rewrite cached_insert. destruct (decide _) as [->|]; [rewrite Hc; simpl; set_solver|done]. }
    assert (Hdom : forall h', is_Some (<[h := v ∖ {[rid]}]> (cached s) !! h') <-> is_Some (cached s !! h')).
    { intros h'. destruct (decide (h' = h)) as [->|]; [rewrite lookup_insert_eq; naive_solver|by rewrite lookup_insert_ne]. }
    assert (Heff : keeps_refs (eq rid) s s1).
    { intros h' rid' Hne Hin. unfold refs_of in *. simpl. rewrite cached_insert. destruct (decide _) as [->|]; [rewrite Hc in Hin; simpl in Hin; set_solver|done]. }
    pose proof (usage_update (cached s) h v (v ∖ {[rid]}) Hc) as Hus.
    assert (Hnf : h ∉ (freeable s).*1).
    { intros Hin. apply list_elem_of_fmap in Hin as ([h' n'] & -> & Hx). apply (ei_freeable _ Hi) in Hx as [Hx _]. simpl in *. congruence. }
    run_monad. destruct (decide (v ∖ {[rid]} = ∅)) as [Hlast|Hmore].
    + rewrite Hn. run_monad. eexists. split; [reflexivity|]. rewrite (dict_set_new _ _ _ Hnf).
      split_and!; [split; simpl; [..|exact H1|exact H2]|split; simpl; try done|done..|done]; try (intros h' Hx; apply Hdom in Hx; by left);
        try (intros h' Hx; left; by apply Hdom).
      * rewrite fmap_app. apply NoDup_app. split_and!; [apply (ei_nodup _ Hi)|set_solver|apply NoDup_singleton].
      * intros h' n. rewrite elem_of_app, list_elem_of_singleton, (ei_freeable _ Hi).
        destruct (decide (h' = h)) as [->|]; [rewrite lookup_insert_eq|rewrite lookup_insert_ne by done]; [rewrite Hc, Hlast; naive_solver|naive_solver].
      * rewrite fmap_app, zsum_app, (ei_reclaimable _ Hi). simpl. change (zsum [sz h]) with (sz h + 0). lia.
      * rewrite Hus. apply (ei_usage _ Hi).
      * apply (ei_pos _ Hi).
    + eexists. split; [reflexivity|].
      split_and!; [split; simpl; [..|exact H1|exact H2]|split; simpl; try done|done..|done]; try (intros h' Hx; apply Hdom in Hx; by left);
        try (intros h' Hx; left; by apply Hdom).
      * apply (ei_nodup _ Hi).
      * intros h' n. rewrite (ei_freeable _ Hi). destruct (decide (h' = h)) as [->|]; [rewrite lookup_insert_eq|by rewrite lookup_insert_ne].
        rewrite Hc. naive_solver.
      * apply (ei_reclaimable _ Hi).
      * rewrite Hus. apply (ei_usage _ Hi).
      * apply (ei_pos _ Hi).
Qed.

Section releasing.
Variable set_order : gset nat -> list nat.
Hypothesis set_order_elements : forall X, set_order X ≡ₚ elements X.

(** What freeing some inputs of [rid] leaves alone. *)
Definition released rid s s' : Prop :=
  effect (eq rid) [] s s' /\ s'.(num_free_slots) = s.(num_free_slots) /\ s'.(freed) = s.(freed)
  /\ (forall h, is_Some (s'.(cached) !! h) <-> is_Some (s.(cached) !! h))
  /\ (forall rid', rid' <> rid -> s'.(request_cached_ids) !! rid' = s.(request_cached_ids) !! rid')
  /\ default ∅ (s'.(request_cached_ids) !! rid) ⊆ default ∅ (s.(request_cached_ids) !! rid).

Lemma released_refl rid s : released rid s s.
Proof. split_and!; try done. apply effect_refl. Qed.

Lemma released_trans rid s1 s2 s3 : released rid s1 s2 -> released rid s2 s3 -> released rid s1 s3.
Proof.
  intros (A1 & A2 & A3 & A4 & A5 & A6) (B1 & B2 & B3 & B4 & B5 & B6).
  split_and!; [exact (effect_trans _ [] [] _ _ _ A1 B1)|congruence|congruence|naive_solver| |set_solver].
  intros rid' Hne. by rewrite B5, A5.
Qed.

Lemma release_loop r (todo : nat -> bool) (act : nat -> M EncoderCache unit) l s :
  EncInv s -> req_ok r -> Forall (fun i => (i < length r.(mm_features))%nat) l ->
  (forall i s0, i ∈ l -> act i s0 = if todo i then free_encoder_input r i s0 else (Ok tt, s0)) ->
  exists s', for_each l act s = (Ok tt, s') /\ EncInv s' /\ released r.(request_id) s s'
    /\ forall i, i ∈ l -> todo i = true -> i ∉ default ∅ (s'.(request_cached_ids) !! r.(request_id)).
Proof.
  intros Hi Hr Hl Hact. revert s Hi. induction l as [|i l IH]; intros s Hi; cbn [for_each].
  { exists s. split_and!; [done|done|apply released_refl|]. by intros i Hin%elem_of_nil. }
  apply Forall_cons in Hl as [Hlt Hl]. destruct (lookup_lt_is_Some_2 _ _ Hlt) as [f Hf].
  assert (exists s1, act i s = (Ok tt, s1) /\ EncInv s1 /\ released r.(request_id) s s1
            /\ (todo i = true -> i ∉ default ∅ (s1.(request_cached_ids) !! r.(request_id)))) as (s1 & Hrun & Hi1 & Hrel & Hgone).
  { rewrite Hact by (by left). destruct (todo i); [|exists s; split_and!; [done|done|apply released_refl|done]].
    destruct (free_input_spec r i f s Hi Hr Hf) as (s1 & Hrun & Hi1 & He & Hn & Hfr & Hdom & Hids). exists s1.
    split_and!; [done|done| |intros _; rewrite Hids, drop_input_ids; set_solver].
    split_and!; [done..| |rewrite Hids, drop_input_ids; set_solver]. intros rid' Hne. by rewrite Hids, drop_input_other. }
  rewrite (bind_ok _ _ _ _ _ Hrun). destruct (IH Hl) with (s := s1) as (s2 & Hrun2 & Hi2 & Hrel2 & Hg2); [|done|].
  { intros j s0 Hj. apply Hact. by right. }
  exists s2. split_and!; [done|done|by eapply released_trans|].
  intros j Hj Ht. apply elem_of_cons in Hj as [->|Hj]; [|by apply Hg2]. destruct Hrel2 as (_ & _ & _ & _ & _ & Hsub). set_solver.
Qed.

Lemma ids_valid r s : EncInv s -> req_ok r -> Forall (fun i => (i < length r.(mm_features))%nat) (set_order (get_cached_input_ids r s)).
Proof.
  intros Hi [Hh _]. apply Forall_forall. intros i Hin. rewrite set_order_elements in Hin. apply elem_of_elements in Hin.
  apply some_default in Hin as (ids & Hids & Hin). pose proof (ei_ids _ Hi _ _ _ Hids Hin) as Hlt. by rewrite <- Hh, length_fmap in Hlt.
Qed.

(** Freeing a request drops all its references. *)
Lemma enc_free_spec r s :
  EncInv s -> req_ok r ->
  exists s', enc_free set_order r s = (Ok tt, s') /\ EncInv s' /\ released r.(request_id) s s'
    /\ default ∅ (s'.(request_cached_ids) !! r.(request_id)) = ∅ /\ forall h, r.(request_id) ∉ refs_of s' h.
Proof.
  intros Hi Hr. unfold enc_free. run_monad. cbn [op_cached_input_ids op_free_input encoder_cache_ops].
  destruct (release_loop r (fun _ => true) (free_encoder_input r) _ s Hi Hr (ids_valid r s Hi Hr)) as (s' & Hrun & Hi' & Hrel & Hgone); [done|].
  assert (He : default ∅ (request_cached_ids s' !! request_id r) = ∅).
  { apply set_eq. intros i. split; [|set_solver]. intros Hin. destruct (Hgone i); [|done|done].
    rewrite set_order_elements. apply elem_of_elements. destruct Hrel as (_ & _ & _ & _ & _ & Hsub). by apply Hsub. }
  exists s'. split_and!; [done|done|done|done|]. intros h Hin. destruct (ei_refs _ Hi' _ _ Hin) as (ids & i & Hids & Hin' & _).
  rewrite Hids in He. simpl in He. set_solver.
Qed.

(** The frees after a step's output never raise. *)
Lemma free_inputs_spec r nc np la s :
  EncInv s -> req_ok r ->
  exists s', free_encoder_inputs set_order false r nc np la s = (Ok tt, s') /\ EncInv s' /\ released r.(request_id) s s'.
Proof.
  intros Hi Hr. unfold free_encoder_inputs. run_monad. cbn [op_cached_input_ids op_free_input encoder_cache_ops].
  pose proof (ids_valid r s Hi Hr) as Hv.
  destruct (release_loop r (fun i => match r.(mm_features) !! i with
              | Some f => f.(mm_position).(offset) + f.(mm_position).(length_) + la <=? nc - np | None => false end)
              (fun i => f <- lift (feature_at r i) ;;
                 if false && (0 <? nc) then free_encoder_input r i
                 else if f.(mm_position).(offset) + f.(mm_position).(length_) + la <=? nc - np then free_encoder_input r i else ret tt)
              _ s Hi Hr Hv) as (s' & Hrun & Hi' & Hrel & _); [|by exists s'].
  intros i s0 Hin. eapply Forall_forall in Hv; [|exact Hin]. destruct (lookup_lt_is_Some_2 _ _ Hv) as [f Hf].
  rewrite (feature_ok r i f Hf), Hf. run_monad. by destruct (_ <=? _).
Qed.

End releasing.

(** ** Scheduling the inputs of a request *)

Section planning.
Variables (disable_chunked_mm_input : bool) (has_cache_item : string -> bool) (r : EncRequest).
Hypothesis Hr : req_ok r.
Hypothesis Ho : in_order r.(mm_features).

(** The contents to be allocated, in the order of their allocation. *)
Definition ident (i : nat) : string := from_option identifier EmptyString (r.(mm_features) !! i).

Definition plan_ids (pl : Plan) : list nat := pl.(encoder_inputs_to_schedule) ++ pl.(external_load_encoder_input).

Definition plan_hashes (pl : Plan) : list string := ident <$> plan_ids pl.

(** The window has no embedding of the feature. *)
Definition no_embeds (nc window_end : Z) (f : Feature) : Prop :=
  exists x, get_embeds_indices_in_range f.(mm_position) (Z.max 0 (nc - f.(mm_position).(offset)))
              (Z.min f.(mm_position).(length_) (window_end - f.(mm_position).(offset))) = Ok (x, x).

Definition covered (nc window_end : Z) (pl : Plan) s (f : Feature) : Prop :=
  f.(identifier) ∈ plan_hashes pl \/ r.(request_id) ∈ refs_of s f.(identifier) \/ no_embeds nc window_end f.

(** The plan can be allocated in [s]. *)
Record fits (pl : Plan) s : Prop := {
  fi_valid : Forall (fun i => is_Some (r.(mm_features) !! i)) (plan_ids pl);
  fi_new : Forall (fun h => s.(cached) !! h = None) (plan_hashes pl);
  fi_nodup : NoDup (plan_hashes pl);
  fi_room : zsum (sz <$> plan_hashes pl) <= s.(num_free_slots);
}.

Lemma ident_at i f : r.(mm_features) !! i = Some f -> ident i = f.(identifier).
Proof. unfold ident. by intros ->. Qed.

(** The plan with one more input. *)
Lemma schedule_input_ids i h n pl : plan_ids (schedule_input has_cache_item i h n pl) ≡ₚ i :: plan_ids pl.
Proof.
  unfold schedule_input, plan_ids. destruct (has_cache_item h); simpl.
  - rewrite app_assoc. symmetry. apply Permutation_cons_append.
  - rewrite <- app_assoc. symmetry. apply Permutation_middle.
Qed.

Lemma fits_effect pl s s' :
  fits pl s -> (forall h, is_Some (s'.(cached) !! h) -> is_Some (s.(cached) !! h)) ->
  s.(num_free_slots) <= s'.(num_free_slots) -> fits pl s'.
Proof.
  intros [H1 H2 H3 H4] Hc Hn. split; try done; [|lia]. eapply Forall_impl; [exact H2|]. intros h Hh.
  destruct (s'.(cached) !! h) eqn:E; [|done]. destruct (Hc h) as [? ?]; [by rewrite E|]. congruence.
Qed.

Lemma fits_schedule i f n pl s :
  r.(mm_features) !! i = Some f -> fits pl s -> s.(cached) !! f.(identifier) = None -> f.(identifier) ∉ plan_hashes pl ->
  sz f.(identifier) + zsum (sz <$> plan_hashes pl) <= s.(num_free_slots) ->
  fits (schedule_input has_cache_item i f.(identifier) n pl) s.
Proof.
  intros Hf [H1 H2 H3 H4] Hc Hnin Hroom. pose proof (schedule_input_ids i (identifier f) n pl) as Hp.
  pose proof (fmap_Permutation ident _ _ Hp) as Hq. rewrite fmap_cons, (ident_at i f Hf) in Hq. fold (plan_hashes pl) in Hq.
  split; unfold plan_hashes.
  - rewrite Hp. constructor; [by rewrite Hf|done].
  - rewrite Hq. by constructor.
  - rewrite Hq. by constructor.
  - rewrite Hq. rewrite fmap_cons, zsum_cons. lia.
Qed.

Section one_step.
Variables (nc new shift : Z).
Hypothesis Hshift : 0 <= shift.

(** The plan accounts for itself. *)
Definition plan_wf (pl : Plan) : Prop :=
  (forall h, h ∈ pl.(mm_hashes_to_schedule) <-> h ∈ plan_hashes pl)
  /\ pl.(num_embeds_to_schedule) = zsum (sz <$> plan_hashes pl) /\ pl.(num_new_tokens) = new.

(** Without a connector nothing is loaded from outside. *)
Definition same_external (pl pl' : Plan) : Prop :=
  (forall h, has_cache_item h = false) -> pl'.(external_load_encoder_input) = pl.(external_load_encoder_input).

(** The tokens left to the step; the budget may be overdrawn before. *)
Definition fewer (n : Z) : Prop := Z.min 0 new <= n <= Z.max 0 new.

(** What the loop over features [k, k + m) guarantees. *)
Definition planned (k m : nat) (pl : Plan) s (pl' : Plan) s' : Prop :=
  EncInv s' /\ effect nobody [] s s' /\ fits pl' s' /\ fewer pl'.(num_new_tokens)
  /\ plan_hashes pl ⊆ plan_hashes pl' /\ same_external pl pl'
  /\ forall j f, (k <= j < k + m)%nat -> r.(mm_features) !! j = Some f -> 0 < pl'.(num_new_tokens) ->
       f.(mm_position).(offset) < nc + pl'.(num_new_tokens) + shift -> covered nc (nc + new + shift) pl' s' f.

Lemma covered_mono pl s pl' s' f :
  plan_hashes pl ⊆ plan_hashes pl' -> effect nobody [] s s' ->
  covered nc (nc + new + shift) pl s f -> covered nc (nc + new + shift) pl' s' f.
Proof.
  intros Hsub He [Hc|[Hc|Hc]]; [left; by apply Hsub| |by right; right]. right; left.
  apply (ef_refs _ _ _ _ He); [by intros []|done].
Qed.

(** Continuing after feature [k] was dealt with. *)
Lemma planned_step k m pl s pl1 s1 pl' s' f :
  r.(mm_features) !! k = Some f -> effect nobody [] s s1 -> plan_hashes pl ⊆ plan_hashes pl1 -> same_external pl pl1 ->
  covered nc (nc + new + shift) pl1 s1 f -> planned (S k) m pl1 s1 pl' s' -> planned k (S m) pl s pl' s'.
Proof.
  intros Hf He Hsub Hext Hc (H1 & H2 & H3 & H4 & H5 & Hext2 & H6).
  split_and!; [done|exact (effect_trans _ [] [] _ _ _ He H2)|done|done|set_solver|intros Hno; by rewrite Hext2, Hext|].
  intros j g Hj Hg Hpos Hoff. destruct (decide (j = k)) as [->|]; [|apply (H6 j g); [lia|done|done|done]].
  simplify_eq. by eapply covered_mono.
Qed.

(** Stopping at feature [k]: the step ends before it. *)
Lemma planned_stop k m pl s s1 f n :
  r.(mm_features) !! k = Some f -> EncInv s1 -> effect nobody [] s s1 -> fits pl s1 -> fewer n ->
  (0 < n -> nc + n + shift = f.(mm_position).(offset)) -> planned k m pl s (set_new_tokens n pl) s1.
Proof.
  intros Hf Hi He [F1 F2 F3 F4] Hn Hstop. split_and!; [done|done|by split|done|set_solver|done|]. simpl.
  intros j g Hj Hg Hpos Hoff. specialize (Hstop Hpos). destruct (decide (j = k)) as [->|]; [simplify_eq; lia|].
  destruct Ho as [Hok Hord]. pose proof (Hord k j f g ltac:(lia) Hf Hg).
  destruct (Hok f) as [? _]; [by eapply list_elem_of_lookup_2|]. lia.
Qed.

Lemma schedule_wf i f pl :
  r.(mm_features) !! i = Some f -> plan_wf pl ->
  plan_wf (schedule_input has_cache_item i f.(identifier) (sz f.(identifier)) pl)
  /\ (forall h, h ∈ plan_hashes (schedule_input has_cache_item i f.(identifier) (sz f.(identifier)) pl) <-> h = f.(identifier) \/ h ∈ plan_hashes pl).
Proof.
  intros Hf (H1 & H2 & H3). pose proof (schedule_input_ids i (identifier f) (sz (identifier f)) pl) as Hp.
  pose proof (fmap_Permutation ident _ _ Hp) as Hq. rewrite fmap_cons, (ident_at i f Hf) in Hq.
  fold (plan_hashes pl) in Hq. fold (plan_hashes (schedule_input has_cache_item i (identifier f) (sz (identifier f)) pl)) in Hq.
  assert (Hel : forall h, h ∈ plan_hashes (schedule_input has_cache_item i f.(identifier) (sz f.(identifier)) pl) <-> h = f.(identifier) \/ h ∈ plan_hashes pl).
  { intros h. by rewrite Hq, elem_of_cons. }
  split; [|done]. split_and!.
  - intros h. rewrite Hel. unfold schedule_input. destruct (has_cache_item _); simpl; rewrite elem_of_union, elem_of_singleton, H1; tauto.
  - rewrite Hq, fmap_cons, zsum_cons, <- H2. unfold schedule_input. destruct (has_cache_item _); simpl; lia.
  - rewrite <- H3. unfold schedule_input. by destruct (has_cache_item _).
Qed.

Lemma fits_later pl s s' : fits pl s -> effect nobody [] s s' -> s.(num_free_slots) <= s'.(num_free_slots) -> fits pl s'.
Proof.
  intros Hfit He Hn. apply (fits_effect pl s); [done| |done]. intros h Hh.
  destruct (ef_in _ _ _ _ He h Hh) as [|Hx%elem_of_nil]; done.
Qed.

Lemma already_there_spec k f pl s :
  r.(mm_features) !! k = Some f -> EncInv s -> plan_wf pl ->
  exists b s1, already_there (E := EncoderCache) false r k f pl s = (Ok b, s1) /\ EncInv s1 /\ effect nobody [] s s1
    /\ s1.(num_free_slots) = s.(num_free_slots)
    /\ (if b : bool then covered nc (nc + new + shift) pl s1 f
        else s1 = s /\ s.(cached) !! f.(identifier) = None /\ f.(identifier) ∉ plan_hashes pl).
Proof.
  intros Hf Hi (Hw & _). unfold already_there. destruct (decide _) as [Hin|Hnin].
  - exists true, s. split_and!; [done|done|apply effect_refl|done|]. left. by apply Hw.
  - destruct (check_spec r k f s Hi Hr Hf) as (b & s1 & Hrun & Hi1 & He & Hn & Hb). exists b, s1.
    split_and!; [done|done|done|done|]. destruct b; [by right; left|]. rewrite <- Hw. naive_solver.
Qed.

Lemma plan_loop_spec m k pl s :
  (k + m <= length r.(mm_features))%nat -> EncInv s -> fits pl s -> plan_wf pl ->
  (forall j f, (k <= j < k + m)%nat -> r.(mm_features) !! j = Some f ->
     nc < f.(mm_position).(offset) + f.(mm_position).(length_) /\ f.(mm_position).(offset) < nc + new + shift) ->
  exists pl' s', plan_loop false disable_chunked_mm_input has_cache_item r nc shift (nc + new + shift) (seq k m) pl s = (Ok pl', s')
    /\ planned k m pl s pl' s'.
Proof.
  revert k pl s. induction m as [|m IH]; intros k pl s Hk Hi Hfit Hwf Hwin; cbn [seq plan_loop].
  { exists pl, s. split; [done|]. destruct Hwf as (_ & _ & <-). split_and!; [done|apply effect_refl|done|unfold fewer; lia|set_solver|done|lia]. }
  destruct (lookup_lt_is_Some_2 (mm_features r) k) as [f Hf]; [lia|]. rewrite (feature_ok r k f Hf). run_monad. cbn [andb].
  destruct (Hwin k f ltac:(lia) Hf) as [Hw1 Hw2]. pose proof Hwf as (Hw & Hsum & Hn).
  assert (Hrec : forall pl1 s1, EncInv s1 -> effect nobody [] s s1 -> fits pl1 s1 -> plan_wf pl1 -> plan_hashes pl ⊆ plan_hashes pl1 ->
    same_external pl pl1 -> covered nc (nc + new + shift) pl1 s1 f ->
    exists pl' s', plan_loop false disable_chunked_mm_input has_cache_item r nc shift (nc + new + shift) (seq (S k) m) pl1 s1 = (Ok pl', s')
      /\ planned k (S m) pl s pl' s').
  { intros pl1 s1 Hi1 He1 Hf1 Hwf1 Hsub Hext Hcov. destruct (IH (S k) pl1 s1 ltac:(lia) Hi1 Hf1 Hwf1) as (pl' & s' & Hrun & Hp).
    { intros j g Hj Hg. apply (Hwin j g); [lia|done]. }
    exists pl', s'. split; [done|]. by eapply planned_step. }
  destruct (already_there_spec k f pl s Hf Hi Hwf) as (b & s1 & Hthere & Hi1 & He1 & Hn1 & Hb).
  rewrite (bind_ok _ _ _ _ _ Hthere). destruct b.
  { apply Hrec; [done|done|eapply fits_later; [done|done|lia]|done|set_solver|done|done]. }
  destruct Hb as (-> & Hc & Hnin). destruct (_ && _) eqn:Hchunk.
  { eexists _, s. split; [reflexivity|]. apply andb_prop in Hchunk as [[_ Hlt%Z.ltb_lt]%andb_prop _].
    eapply planned_stop; [done|done|done|done|unfold fewer; lia|lia]. }
  destruct (can_allocate_spec r k f (encoder_compute_budget pl) (num_embeds_to_schedule pl) s Hi Hr Hf) as (s2 & Hcan & Hi2 & He2 & _ & Hle2 & Hroom).
  cbn [op_can_allocate encoder_cache_ops]. rewrite (bind_ok _ _ _ _ _ Hcan). pose proof (fits_later _ _ _ Hfit He2 Hle2) as Hfit2.
  destruct (bool_decide _) eqn:Hok; cbn [negb].
  2:{ eexists _, s2. split; [reflexivity|]. destruct (Z.ltb_spec (nc + shift) (offset (mm_position f)));
        eapply planned_stop; try done; unfold fewer; lia. }
  apply bool_decide_eq_true in Hok as [Hok1 Hok2]. specialize (Hroom Hok1 Hok2).
  destruct (indices_ok (mm_position f) (Z.max 0 (nc - offset (mm_position f)))
              (Z.min (length_ (mm_position f)) (nc + new + shift - offset (mm_position f)))) as (x & y & Hxy);
    [apply Ho; by eapply list_elem_of_lookup_2| |lia|].
  { destruct (proj1 Ho f) as [? _]; [by eapply list_elem_of_lookup_2|]. lia. }
  rewrite Hxy. run_monad. cbn [fst snd]. destruct (Z.eqb_spec (y - x) 0) as [Hz|_].
  { apply Hrec; [done|done|done|done|set_solver|done|]. right; right. exists x. rewrite Hxy. do 2 f_equal. lia. }
  destruct (req_feature r k f Hr Hf) as [_ Hnum]. unfold get_num_encoder_embeds in Hnum. rewrite Hf in Hnum. injection Hnum as ->.
  destruct (schedule_wf k f pl Hf Hwf) as [Hwf2 Hel]. apply Hrec; [done|done| |done| | |].
  - apply (fits_schedule k f); [done|done| |done|rewrite <- Hsum; lia].
    destruct (cached s2 !! identifier f) eqn:E; [|done]. destruct (ef_in _ _ _ _ He2 (identifier f)) as [[? ?]|?%elem_of_nil]; [by rewrite E|congruence|done].
  - intros h Hh. apply Hel. by right.
  - intros Hno. unfold schedule_input. by rewrite Hno.
  - left. apply Hel. by left.
Qed.

(** The step keeps its length or ends in front of a feature. *)
Definition stops (pl pl' : Plan) : Prop :=
  pl'.(num_new_tokens) = pl.(num_new_tokens)
  \/ exists f, f ∈ r.(mm_features) /\ pl'.(num_new_tokens) <= Z.max 0 (f.(mm_position).(offset) - (nc + shift)).

Lemma plan_loop_stops ids pl (s : EncoderCache) pl' s' :
  plan_loop false disable_chunked_mm_input has_cache_item r nc shift (nc + new + shift) ids pl s = (Ok pl', s') -> stops pl pl'.
Proof.
  revert pl s. induction ids as [|i ids IH]; intros pl s; cbn [plan_loop]; [intros [= -> ->]; by left|].
  unfold feature_at. destruct (mm_features r !! i) as [f|] eqn:Hf; [|done]. run_monad. cbn [andb].
  assert (Hin : f ∈ mm_features r) by (by eapply list_elem_of_lookup_2).
  unfold bind at 1. destruct (already_there _ _ _ _ _ _) as [[[]|] s1]; [by apply IH| |done].
  destruct (_ && _); [intros [= <- <-]; right; exists f; by split|].
  unfold bind at 1. destruct (op_can_allocate _ _ _ _ s1) as [[[]|] s2]; cbn [negb]; [| |done].
  - destruct (get_embeds_indices_in_range _ _ _) as [ab|]; [|done]. run_monad. destruct (_ =? 0); [by apply IH|].
    intros Hrun. apply IH in Hrun. unfold stops, schedule_input in *. by destruct (has_cache_item _).
  - intros [= <- <-]. right. exists f. split; [done|]. simpl. destruct (_ <? _); lia.
Qed.

Lemma try_schedule_stops budget (s : EncoderCache) pl s' :
  try_schedule_encoder_inputs false disable_chunked_mm_input has_cache_item r nc new budget shift s = (Ok pl, s') ->
  pl.(num_new_tokens) = new \/ exists f, f ∈ r.(mm_features) /\ pl.(num_new_tokens) <= Z.max 0 (f.(mm_position).(offset) - (nc + shift)).
Proof.
  unfold try_schedule_encoder_inputs. destruct (_ || _); [intros [= <- <-]; by left|].
  destruct (get_mm_features_in_window _ _ _) as [lo hi]. apply plan_loop_stops.
Qed.

(** Features of the tokens that remain in the step after planning are covered. *)
Definition plan_covers (pl : Plan) s : Prop :=
  forall j f, r.(mm_features) !! j = Some f -> 0 < pl.(num_new_tokens) ->
    nc < f.(mm_position).(offset) + f.(mm_position).(length_) ->
    f.(mm_position).(offset) < nc + pl.(num_new_tokens) + shift -> covered nc (nc + new + shift) pl s f.

Lemma empty_plan budget s : EncInv s -> fits (mkPlan [] new budget [] ∅ 0) s /\ plan_wf (mkPlan [] new budget [] ∅ 0).
Proof.
  intros Hi. split; [split; try constructor; simpl; change (zsum (sz <$> plan_hashes _)) with 0; apply (ei_pos _ Hi)|].
  split_and!; [|done|done]. intros h. simpl. set_solver.
Qed.

Lemma try_schedule_spec budget s :
  EncInv s ->
  exists pl s', try_schedule_encoder_inputs false disable_chunked_mm_input has_cache_item r nc new budget shift s = (Ok pl, s')
    /\ EncInv s' /\ effect nobody [] s s' /\ fits pl s' /\ fewer pl.(num_new_tokens) /\ plan_covers pl s'
    /\ ((forall h, has_cache_item h = false) -> pl.(external_load_encoder_input) = []).
Proof.
  intros Hi. destruct (empty_plan budget s Hi) as [Hfit Hwf]. unfold try_schedule_encoder_inputs.
  destruct (_ || _) eqn:Hskip.
  { eexists _, s. split; [reflexivity|]. split_and!; [done|apply effect_refl|done|unfold fewer; simpl; lia| |done].
    intros j f Hf Hpos _ _. simpl in Hpos. apply orb_prop in Hskip as [Hz%Z.eqb_eq|Hz%Nat.eqb_eq]; [lia|]. apply lookup_lt_Some in Hf. lia. }
  destruct (get_mm_features_in_window (mm_features r) nc (nc + new + shift)) as [lo hi] eqn:Hwin.
  destruct (window_spec _ _ _ _ _ Ho Hwin) as (Hlo & Hhi & Hin).
  destruct (plan_loop_spec (hi - lo) lo (mkPlan [] new budget [] ∅ 0) s) as (pl & s' & Hrun & H1 & H2 & H3 & H4 & _ & H5 & H6); try done.
  - lia.
  - intros j f Hj Hf. apply (Hin j f Hf). lia.
  - exists pl, s'. split_and!; [done|done|done|done|done| |exact H5]. intros j f Hf Hpos Hb1 Hb2.
    apply (H6 j f); [|done|done|done]. assert (lo <= j < hi)%nat; [|lia]. apply (Hin j f Hf). unfold fewer in H4. lia.
Qed.
End one_step.

(** ** Allocating a plan *)

Lemma allocate_list l s :
  EncInv s -> Forall (fun i => is_Some (r.(mm_features) !! i)) l ->
  Forall (fun h => s.(cached) !! h = None) (ident <$> l) -> NoDup (ident <$> l) -> zsum (sz <$> (ident <$> l)) <= s.(num_free_slots) ->
  exists s', for_each l (allocate r) s = (Ok tt, s') /\ EncInv s' /\ effect nobody (ident <$> l) s s'
    /\ s'.(num_free_slots) = s.(num_free_slots) - zsum (sz <$> (ident <$> l))
    /\ (forall h, h ∉ ident <$> l -> s'.(cached) !! h = s.(cached) !! h)
    /\ (forall h, h ∈ ident <$> l -> r.(request_id) ∈ refs_of s' h).
Proof.
  revert s. induction l as [|i l IH]; intros s Hi Hv Hnone Hnd Hroom; cbn [for_each].
  { exists s. change (zsum (sz <$> (ident <$> []))) with 0. split_and!; [done|done|apply effect_refl|lia|done|]. by intros h Hx%elem_of_nil. }
  rewrite !fmap_cons in *. rewrite zsum_cons in *. apply Forall_cons in Hv as [[f Hf] Hv]. apply Forall_cons in Hnone as [Hn Hnone].
  apply NoDup_cons in Hnd as [Hnin Hnd]. rewrite (ident_at i f Hf) in *.
  assert (Hpos : 0 <= zsum (sz <$> (ident <$> l))) by (apply zsum_nonneg, sz_nonneg).
  destruct (allocate_spec r i f s Hi Hr Hf Hn ltac:(lia)) as (s1 & Hrun & Hi1 & He1 & Hfree & Hc & _).
  rewrite (bind_ok _ _ _ _ _ Hrun). destruct (IH s1) as (s2 & Hrun2 & Hi2 & He2 & Hf2 & Hsame & Href); [done|done| |done|lia|].
  { apply Forall_forall. intros h Hh. rewrite Hc, lookup_insert_ne by (by intros <-). by eapply Forall_forall in Hnone. }
  exists s2. split_and!; [done|done|exact (effect_trans _ [_] _ _ _ _ He1 He2)|lia| |].
  - intros h [Hne Hh]%not_elem_of_cons. rewrite (Hsame h Hh), Hc, lookup_insert_ne; [done|congruence].
  - intros h [->|Hh]%elem_of_cons; [|by apply Href]. apply (ef_refs _ _ _ _ He2); [by intros []|].
    unfold refs_of. rewrite Hc, lookup_insert_eq. set_solver.
Qed.

(** A plan that fits is allocated without an assertion failing. *)
Lemma allocate_plan_spec pl s :
  EncInv s -> fits pl s ->
  exists s', allocate_plan r pl s = (Ok tt, s') /\ EncInv s' /\ effect nobody (plan_hashes pl) s s'
    /\ (forall h, h ∈ plan_hashes pl -> r.(request_id) ∈ refs_of s' h).
Proof.
  intros Hi [H1 H2 H3 H4]. unfold allocate_plan. cbn [op_allocate encoder_cache_ops].
  destruct (allocate_list (plan_ids pl) s Hi H1 H2 H3 H4) as (s' & Hrun & Hi' & He & _ & _ & Href).
  exists s'. unfold plan_ids in Hrun. rewrite for_each_app in Hrun. done.
Qed.

(** ** A request in a scheduling pass: plan, preempt others, allocate *)

(** Every embedding that the tokens of the step need is referenced by the request. *)
Definition needed_cached (nc new shift : Z) s : Prop :=
  forall j f, r.(mm_features) !! j = Some f ->
    nc < f.(mm_position).(offset) + f.(mm_position).(length_) -> f.(mm_position).(offset) < nc + new + shift ->
    no_embeds nc (nc + new + shift) f \/ r.(request_id) ∈ refs_of s f.(identifier).

Lemma no_embeds_shrink nc w w' f :
  range_ok f.(mm_position) -> nc < f.(mm_position).(offset) + f.(mm_position).(length_) -> f.(mm_position).(offset) < w' -> w' <= w -> nc < w' ->
  no_embeds nc w f -> no_embeds nc w' f.
Proof.
  intros Hok H1 H2 H3 H4 [x Hx]. destruct (indices_ok (mm_position f) (Z.max 0 (nc - offset (mm_position f)))
    (Z.min (length_ (mm_position f)) (w' - offset (mm_position f))) Hok) as (a & b & Hab); [destruct Hok; lia|lia|].
  exists a. rewrite Hab. do 2 f_equal. symmetry. eapply (indices_sub _ _ _ _ _ _ _ _ _ Hx Hab); [lia|lia| |done].
  destruct Hok. lia.
Qed.

Lemma covers_needed nc new shift pl s s' :
  0 <= shift -> 0 <= pl.(num_new_tokens) <= new -> plan_covers nc new shift pl s -> effect nobody (plan_hashes pl) s s' ->
  (forall h, h ∈ plan_hashes pl -> r.(request_id) ∈ refs_of s' h) ->
  0 < pl.(num_new_tokens) -> needed_cached nc pl.(num_new_tokens) shift s'.
Proof.
  intros Hsh Hn Hcov He Href Hpos j f Hf Hb1 Hb2. destruct (Hcov j f Hf Hpos Hb1 Hb2) as [Hc|[Hc|Hc]].
  - right. by apply Href.
  - right. apply (ef_refs _ _ _ _ He); [by intros []|done].
  - left. eapply no_embeds_shrink; [|done|done| | |exact Hc]; [|lia|lia].
    apply Ho. by eapply list_elem_of_lookup_2.
Qed.
End planning.
End invariant.
