(* ===== verification/EncoderSystem.v ===== *)
(** * The encoder cache across scheduler and model runner

    A scheduling pass plans encoder inputs request by request, preempts requests to make
    room for key/value blocks, allocates and records what is to be encoded
    ([vllm/v1/core/sched/scheduler.py]); the step handed over at its end tells the model
    runner which outputs to drop and which to compute
    ([vllm/v1/worker/gpu_model_runner.py]).  Shown here: what is scheduled can always be
    allocated, after every step the runner holds exactly the entries the scheduler calls
    cached, a scheduled request never misses an encoder output, and the slots of finished
    requests can all be reclaimed.  The last part shows two ways in which the code leaves
    these guarantees: preempting a request already scheduled in the same pass, and the
    slot counter of the encoder-decoder manager.

    Connectors to external encoder caches are left out of the composed system
    ([has_cache_item] is constantly false). *)

From S2P Require Import Prelude EncoderCache EncoderProps.

(** ** The composed operations *)

Record EncSched := mkEncSched {
  enc : EncoderCache;
  scheduled : list (EncRequest * list nat);
  worker : gset string;
}.

Definition set_enc (e : EncoderCache) (s : EncSched) : EncSched := mkEncSched e s.(scheduled) s.(worker).

Definition on_enc {A : Type} (m : M EncoderCache A) : M EncSched A := zoom enc set_enc m.

Section operations.
Variables (set_order : gset nat -> list nat) (disable_chunked_mm_input : bool).

Definition plan_inputs (r : EncRequest) (nc new budget shift : Z) : M EncSched Plan :=
  on_enc (try_schedule_encoder_inputs false disable_chunked_mm_input (fun _ => false) r nc new budget shift).

(** The encoder part of scheduling a request. *)
Definition commit_plan (r : EncRequest) (pl : Plan) : M EncSched unit :=
  (match pl.(encoder_inputs_to_schedule) with
   | [] => ret tt
   | ids => modify (fun s => mkEncSched s.(enc) (s.(scheduled) ++ [(r, ids)]) s.(worker))
   end) ;;
  on_enc (allocate_plan r pl).

(** A running request: plan, preempt until the blocks fit, then allocate, unless nothing
    is scheduled. *)
Definition schedule_running (r : EncRequest) (nc new budget shift : Z) (victims : list EncRequest) (placed : bool)
  : M EncSched Plan :=
  pl <- plan_inputs r nc new budget shift ;;
  for_each victims (fun v => on_enc (enc_free set_order v)) ;;
  (if placed then commit_plan r pl else ret tt) ;;
  ret pl.

(** A waiting request: its references are dropped again when no blocks are free. *)
Definition schedule_waiting (r : EncRequest) (nc new budget shift : Z) (placed : bool) : M EncSched Plan :=
  pl <- plan_inputs r nc new budget shift ;;
  (if placed then commit_plan r pl else on_enc (enc_free set_order r)) ;;
  ret pl.

(** [_batch_mm_inputs_from_scheduler]: the hashes of the inputs to encode. *)
Definition hashes_of (x : EncRequest * list nat) : list string :=
  omap (fun i : nat => option_map identifier (x.1.(mm_features) !! i)) x.2.

Definition encoded (l : list (EncRequest * list nat)) : list string := concat (map hashes_of l).

(** The end of the pass and the runner's updates. *)
Definition hand_over : M EncSched unit :=
  free_hashes <- on_enc get_freed_mm_hashes ;;
  modify (fun s => mkEncSched s.(enc) [] (apply_step free_hashes (encoded s.(scheduled)) s.(worker))).

(** [reset_encoder_cache] on both sides. *)
Definition reset_encoder_cache : M EncSched unit :=
  on_enc enc_reset ;; modify (fun s => mkEncSched s.(enc) s.(scheduled) ∅).

(** Preemption by priority of a request already scheduled in this pass: its encoder
    inputs are taken out of the step and its references dropped. *)
Definition preempt_scheduled (r : EncRequest) : M EncSched unit :=
  modify (fun s => mkEncSched s.(enc) (filter (fun x => x.1.(request_id) <> r.(request_id)) s.(scheduled)) s.(worker)) ;;
  on_enc (enc_free set_order r).
End operations.

Definition init_enc_sched (size : Z) : EncSched := mkEncSched (new_encoder_cache size) [] ∅.

(** ** The system as a transition system *)

Section system.
Variables (sz : string -> Z) (hashes : string -> list string).
Variables (set_order : gset nat -> list nat) (disable : bool).
Hypothesis sz_nonneg : forall h, 0 <= sz h.
Hypothesis set_order_elements : forall X, set_order X ≡ₚ elements X.
Notation req_ok := (req_ok sz hashes).
Notation EncInv := (EncInv sz hashes).

Definition not_scheduled (r : EncRequest) (s : EncSched) : Prop :=
  r.(request_id) ∉ (fun x => x.1.(request_id)) <$> s.(scheduled).

(** What a pass asks of the request it turns to. *)
Definition turn (r : EncRequest) (new shift : Z) (s : EncSched) : Prop :=
  req_ok r /\ in_order r.(mm_features) /\ 0 <= new /\ 0 <= shift /\ not_scheduled r s.

Definition victims_ok (r : EncRequest) (victims : list EncRequest) (placed : bool) (s : EncSched) : Prop :=
  Forall (fun v => req_ok v /\ not_scheduled v s) victims
  /\ (placed = true -> r.(request_id) ∉ request_id <$> victims).

(** A step labelled with the requests that may lose references in it. *)
Inductive enc_step : (string -> Prop) -> EncSched -> EncSched -> Prop :=
  | enc_running r nc new budget shift victims placed pl s s' :
      turn r new shift s -> victims_ok r victims placed s ->
      schedule_running set_order disable r nc new budget shift victims placed s = (Ok pl, s') ->
      enc_step (fun rid => rid ∈ request_id <$> victims) s s'
  | enc_waiting r nc new budget shift placed pl s s' :
      turn r new shift s -> schedule_waiting set_order disable r nc new budget shift placed s = (Ok pl, s') ->
      enc_step (fun rid => placed = false /\ rid = r.(request_id)) s s'
  | enc_output r nc np la s s' :
      req_ok r -> not_scheduled r s -> on_enc (free_encoder_inputs set_order false r nc np la) s = (Ok tt, s') ->
      enc_step (eq r.(request_id)) s s'
  | enc_finish r s s' :
      req_ok r -> not_scheduled r s -> on_enc (enc_free set_order r) s = (Ok tt, s') ->
      enc_step (eq r.(request_id)) s s'
  | enc_hand_over s s' : hand_over s = (Ok tt, s') -> enc_step nobody s s'
  | enc_reset_both s s' :
      s.(scheduled) = [] -> reset_encoder_cache s = (Ok tt, s') -> enc_step (fun _ => True) s s'.

(** Any step, and any step in which [rid] loses nothing. *)
Definition any_step (s s' : EncSched) : Prop := exists g, enc_step g s s'.

Definition step_keeping (rid : string) (s s' : EncSched) : Prop := exists g, enc_step g s s' /\ ~ g rid.

(** ** The invariant *)

Record SysInv (s : EncSched) : Prop := {
  sy_inv : EncInv s.(enc);
  sy_present : forall h, is_Some (s.(enc).(cached) !! h) -> h ∈ s.(worker) \/ h ∈ encoded s.(scheduled);
  sy_dropped : forall h, h ∈ s.(worker) -> is_Some (s.(enc).(cached) !! h) \/ h ∈ s.(enc).(freed);
  sy_pending : forall r ids i, (r, ids) ∈ s.(scheduled) -> i ∈ ids ->
    exists f, r.(mm_features) !! i = Some f /\ r.(request_id) ∈ refs_of s.(enc) f.(identifier);
}.

Lemma elem_encoded h l :
  h ∈ encoded l <-> exists r ids i f, (r, ids) ∈ l /\ i ∈ ids /\ r.(mm_features) !! i = Some f /\ f.(identifier) = h.
Proof.
  unfold encoded. rewrite list_elem_of_In, in_concat. split.
  - intros (x & Hx & Hin). apply in_map_iff in Hx as ([r ids] & <- & Hx). apply list_elem_of_In in Hx, Hin.
    apply list_elem_of_omap in Hin as (i & Hi & Hf). simpl in *. destruct (mm_features r !! i) as [f|] eqn:E; [|done].
    simplify_eq/=. by exists r, ids, i, f.
  - intros (r & ids & i & f & Hx & Hi & Hf & <-). exists (hashes_of (r, ids)).
    split; [apply in_map, list_elem_of_In, Hx|]. apply list_elem_of_In, list_elem_of_omap. exists i. split; [done|]. simpl. by rewrite Hf.
Qed.

Lemma init_sys_inv size : 0 <= size -> SysInv (init_enc_sched size).
Proof.
  intros Hs. split; simpl; [by apply new_encoder_cache_inv| | |].
  - intros h. rewrite lookup_empty. by intros [? ?].
  - set_solver.
  - by intros r ids i ?%elem_of_nil.
Qed.

(** Cache operations that only lose references of requests without pending inputs, and
    whose new entries are pending, keep the invariant. *)
Lemma sys_effect (gone : string -> Prop) added s e sch :
  SysInv s -> EncInv e -> effect gone added s.(enc) e ->
  (forall r ids i, (r, ids) ∈ s.(scheduled) -> i ∈ ids -> ~ gone r.(request_id)) ->
  (forall x, x ∈ s.(scheduled) -> x ∈ sch) -> (forall h, h ∈ added -> h ∈ encoded sch) ->
  (forall r ids i, (r, ids) ∈ sch -> (r, ids) ∉ s.(scheduled) -> i ∈ ids ->
     exists f, r.(mm_features) !! i = Some f /\ r.(request_id) ∈ refs_of e f.(identifier)) ->
  SysInv (mkEncSched e sch s.(worker)).
Proof.
  intros [H1 H2 H3 H4] He Hef Hgone Hsub Hadd Hnew. split; simpl; [done| | |].
  - intros h Hh. destruct (ef_in _ _ _ _ Hef h Hh) as [Ho|Ha]; [|right; by apply Hadd].
    destruct (H2 h Ho) as [|Hin]; [by left|]. right. apply elem_encoded in Hin as (r & ids & i & f & Hx & ?). apply elem_encoded.
    exists r, ids, i, f. split; [by apply Hsub|done].
  - intros h Hh. destruct (H3 h Hh) as [Ho|Hf]; [by apply (ef_out _ _ _ _ Hef)|right; by apply (ef_freed _ _ _ _ Hef)].
  - intros r ids i Hx Hi. destruct (decide ((r, ids) ∈ s.(scheduled))) as [Hin|Hnin]; [|by eapply Hnew].
    destruct (H4 r ids i Hin Hi) as (f & Hf & Href). exists f. split; [done|]. apply (ef_refs _ _ _ _ Hef); [by eapply Hgone|done].
Qed.

Lemma sys_quiet (gone : string -> Prop) s e :
  SysInv s -> EncInv e -> effect gone [] s.(enc) e ->
  (forall r ids i, (r, ids) ∈ s.(scheduled) -> i ∈ ids -> ~ gone r.(request_id)) -> SysInv (set_enc e s).
Proof.
  intros Hs He Hef Hgone. apply (sys_effect gone [] s e); try done. by intros h ?%elem_of_nil.
Qed.

Lemma unscheduled r s r' ids : not_scheduled r s -> (r', ids) ∈ s.(scheduled) -> r.(request_id) <> r'.(request_id).
Proof.
  intros Hn Hin He. apply Hn. rewrite He. apply list_elem_of_fmap. by exists (r', ids).
Qed.

Lemma on_enc_ok {A} (m : M EncoderCache A) s a e : m s.(enc) = (Ok a, e) -> on_enc m s = (Ok a, set_enc e s).
Proof. intros Hm. unfold on_enc, zoom. by rewrite Hm. Qed.

(** ** Stages of a scheduling pass *)

Lemma plan_stage r nc new budget shift s :
  SysInv s -> turn r new shift s ->
  exists pl e, plan_inputs disable r nc new budget shift s = (Ok pl, set_enc e s) /\ SysInv (set_enc e s)
    /\ effect nobody [] s.(enc) e /\ fits sz r pl e /\ 0 <= pl.(num_new_tokens) <= new
    /\ plan_covers r nc new shift pl e /\ pl.(external_load_encoder_input) = [].
Proof.
  intros Hs (Hr & Ho & Hn & Hsh & _).
  destruct (try_schedule_spec sz hashes sz_nonneg disable (fun _ => false) r Hr Ho nc new shift Hsh budget _ (sy_inv _ Hs))
    as (pl & e & Hrun & Hi & He & Hfit & Hb & Hcov & Hext). unfold fewer in Hb.
  exists pl, e. split_and!; [by apply on_enc_ok| |done|done|lia|lia|done|by apply Hext].
  apply (sys_quiet nobody); try done. by intros r' ids i _ _ [].
Qed.

Lemma free_stage v s :
  SysInv s -> req_ok v -> not_scheduled v s ->
  exists e, on_enc (enc_free set_order v) s = (Ok tt, set_enc e s) /\ SysInv (set_enc e s) /\ released v.(request_id) s.(enc) e
    /\ default ∅ (e.(request_cached_ids) !! v.(request_id)) = ∅.
Proof.
  intros Hs Hv Hn. destruct (enc_free_spec sz hashes sz_nonneg set_order set_order_elements v _ (sy_inv _ Hs) Hv) as (e & Hrun & Hi & Hrel & Hids & _).
  exists e. split_and!; [by apply on_enc_ok| |done|done]. apply (sys_quiet (eq v.(request_id))); [done|done|apply Hrel|].
  intros r ids i Hin _. by apply (unscheduled v s r ids).
Qed.

Lemma victims_stage r pl victims s :
  SysInv s -> Forall (fun v => req_ok v /\ not_scheduled v s) victims -> fits sz r pl s.(enc) ->
  exists e, for_each victims (fun v => on_enc (enc_free set_order v)) s = (Ok tt, set_enc e s) /\ SysInv (set_enc e s)
    /\ effect (fun rid => rid ∈ request_id <$> victims) [] s.(enc) e /\ fits sz r pl e.
Proof.
  intros Hs Hv Hfit. revert s Hs Hv Hfit. induction victims as [|v victims IH]; intros s Hs Hv Hfit; cbn [for_each].
  { exists s.(enc). destruct s. split_and!; [done|done|apply effect_refl|done]. }
  apply Forall_cons in Hv as [[Hrv Hnv] Hv]. destruct (free_stage v s Hs Hrv Hnv) as (e1 & Hrun & Hs1 & (He1 & Hn1 & _ & Hd1 & _) & _).
  rewrite (bind_ok _ _ _ _ _ Hrun). destruct (IH (set_enc e1 s) Hs1) as (e2 & Hrun2 & Hs2 & He2 & Hfit2).
  { done. } { simpl. apply (fits_effect sz r pl s.(enc)); [done|naive_solver|lia]. }
  exists e2. split_and!; [done|done| |done]. rewrite fmap_cons.
  refine (effect_trans _ [] [] _ e1 _ _ _); [eapply effect_mono; [|exact He1]|eapply effect_mono; [|exact He2]]; set_solver.
Qed.

(** The scheduled inputs after committing. *)
Definition with_committed (r : EncRequest) (pl : Plan) (l : list (EncRequest * list nat)) : list (EncRequest * list nat) :=
  match pl.(encoder_inputs_to_schedule) with [] => l | ids => l ++ [(r, ids)] end.

Lemma elem_committed r pl l x : x ∈ with_committed r pl l -> x ∈ l \/ x = (r, pl.(encoder_inputs_to_schedule)).
Proof. unfold with_committed. destruct (encoder_inputs_to_schedule pl); [by left|]. rewrite elem_of_app, list_elem_of_singleton. tauto. Qed.

Lemma committed_keeps r pl l x : x ∈ l -> x ∈ with_committed r pl l.
Proof. unfold with_committed. destruct (encoder_inputs_to_schedule pl); [done|]. rewrite elem_of_app. tauto. Qed.

Lemma committed_hashes r pl l h :
  pl.(external_load_encoder_input) = [] -> Forall (fun i => is_Some (r.(mm_features) !! i)) (plan_ids pl) ->
  h ∈ plan_hashes r pl -> h ∈ encoded (with_committed r pl l).
Proof.
  unfold plan_hashes, plan_ids. intros -> Hv Hin. rewrite app_nil_r in *. apply list_elem_of_fmap in Hin as (i & -> & Hi).
  eapply Forall_forall in Hv as [f Hf]; [|exact Hi]. apply elem_encoded. exists r, pl.(encoder_inputs_to_schedule), i, f.
  split_and!; [|done|done|by rewrite (ident_at r i f Hf)]. unfold with_committed. destruct (encoder_inputs_to_schedule pl); [by apply elem_of_nil in Hi|].
  apply elem_of_app. right. by left.
Qed.

Lemma commit_stage r pl s :
  SysInv s -> req_ok r -> in_order r.(mm_features) -> fits sz r pl s.(enc) -> pl.(external_load_encoder_input) = [] ->
  exists e, commit_plan r pl s = (Ok tt, mkEncSched e (with_committed r pl s.(scheduled)) s.(worker))
    /\ SysInv (mkEncSched e (with_committed r pl s.(scheduled)) s.(worker)) /\ effect nobody (plan_hashes r pl) s.(enc) e
    /\ (forall h, h ∈ plan_hashes r pl -> r.(request_id) ∈ refs_of e h).
Proof.
  intros Hs Hr Ho Hfit Hext. destruct (allocate_plan_spec sz hashes sz_nonneg r Hr Ho pl _ (sy_inv _ Hs) Hfit) as (e & Hrun & Hi & He & Href).
  exists e. split_and!; [| |done|done].
  - unfold commit_plan, with_committed. destruct (encoder_inputs_to_schedule pl); run_monad;
      unfold on_enc, zoom; cbn [enc]; by rewrite Hrun.
  - apply (sys_effect nobody (plan_hashes r pl)); try done.
    + by intros r' ids i _ _ [].
    + apply committed_keeps.
    + intros h. apply committed_hashes; [done|apply (fi_valid _ _ _ _ Hfit)].
    + intros r' ids i [Hin|[= -> ->]]%elem_committed Hnin Hi'; [done|].
      destruct (proj1 (Forall_forall _ _) (fi_valid _ _ _ _ Hfit) i) as [f Hf]; [apply elem_of_app; by left|]. exists f. split; [done|].
      apply Href. unfold plan_hashes. rewrite <- (ident_at r i f Hf). apply list_elem_of_fmap_2. apply elem_of_app. by left.
Qed.

Lemma running_stage r nc new budget shift victims placed s :
  SysInv s -> turn r new shift s -> victims_ok r victims placed s ->
  exists pl s', schedule_running set_order disable r nc new budget shift victims placed s = (Ok pl, s') /\ SysInv s'
    /\ keeps_refs (fun rid => rid ∈ request_id <$> victims) s.(enc) s'.(enc) /\ s'.(enc).(cache_size) = s.(enc).(cache_size)
    /\ 0 <= pl.(num_new_tokens) <= new
    /\ (placed = true -> 0 < pl.(num_new_tokens) -> needed_cached r nc pl.(num_new_tokens) shift s'.(enc)).
Proof.
  intros Hs Ht (Hv & Hnv). pose proof Ht as (Hr & Ho & _ & Hsh & _). unfold schedule_running.
  destruct (plan_stage r nc new budget shift s Hs Ht) as (pl & e1 & Hrun1 & Hs1 & He1 & Hfit1 & Hb & Hcov & Hext).
  rewrite (bind_ok _ _ _ _ _ Hrun1). destruct (victims_stage r pl victims (set_enc e1 s) Hs1 Hv Hfit1) as (e2 & Hrun2 & Hs2 & He2 & Hfit2).
  rewrite (bind_ok _ _ _ _ _ Hrun2). simpl in He2.
  assert (Hk : keeps_refs (fun rid => rid ∈ request_id <$> victims) s.(enc) e2).
  { eapply keeps_refs_trans; [|apply He2]. eapply keeps_refs_mono; [|apply He1]. done. }
  assert (Hsz2 : cache_size e2 = cache_size (enc s)) by (rewrite (ef_size _ _ _ _ He2); apply He1).
  destruct placed; [|exists pl; eexists; split; [reflexivity|]; split_and!; [done|done|apply Hsz2|lia|lia|done]].
  destruct (commit_stage r pl _ Hs2 Hr Ho Hfit2 Hext) as (e3 & Hrun3 & Hs3 & He3 & Href3).
  rewrite (bind_ok _ _ _ _ _ Hrun3). exists pl. eexists. split; [reflexivity|].
  split_and!; [done| |simpl; rewrite (ef_size _ _ _ _ He3); apply Hsz2|lia|lia|].
  - eapply keeps_refs_trans; [exact Hk|]. eapply keeps_refs_mono; [|apply He3]. done.
  - intros _ Hpos. eapply (covers_needed r Ho nc new shift pl e2); [done|lia| |done|done|done].
    intros j f Hf H1 H2 H3. destruct (Hcov j f Hf H1 H2 H3) as [Hc|[Hc|Hc]]; [by left| |by right; right].
    right; left. apply (ef_refs _ _ _ _ He2); [by apply Hnv|done].
Qed.

Lemma waiting_stage r nc new budget shift placed s :
  SysInv s -> turn r new shift s ->
  exists pl s', schedule_waiting set_order disable r nc new budget shift placed s = (Ok pl, s') /\ SysInv s'
    /\ keeps_refs (fun rid => placed = false /\ rid = r.(request_id)) s.(enc) s'.(enc) /\ s'.(enc).(cache_size) = s.(enc).(cache_size)
    /\ 0 <= pl.(num_new_tokens) <= new
    /\ (placed = true -> 0 < pl.(num_new_tokens) -> needed_cached r nc pl.(num_new_tokens) shift s'.(enc)).
Proof.
  intros Hs Ht. pose proof Ht as (Hr & Ho & _ & Hsh & Hn). unfold schedule_waiting.
  destruct (plan_stage r nc new budget shift s Hs Ht) as (pl & e1 & Hrun1 & Hs1 & He1 & Hfit1 & Hb & Hcov & Hext).
  rewrite (bind_ok _ _ _ _ _ Hrun1). exists pl. destruct placed.
  - destruct (commit_stage r pl _ Hs1 Hr Ho Hfit1 Hext) as (e3 & Hrun3 & Hs3 & He3 & Href3).
    rewrite (bind_ok _ _ _ _ _ Hrun3). eexists. split; [reflexivity|].
    split_and!; [done| |simpl; rewrite (ef_size _ _ _ _ He3); apply He1|lia|lia|].
    + eapply keeps_refs_trans; [eapply keeps_refs_mono; [|apply He1]|eapply keeps_refs_mono; [|apply He3]]; done.
    + intros _ Hpos. eapply (covers_needed r Ho nc new shift pl e1); [done|lia|done|done|done|done].
  - destruct (free_stage r (set_enc e1 s) Hs1 Hr Hn) as (e2 & Hrun2 & Hs2 & (He2 & _) & _).
    rewrite (bind_ok _ _ _ _ _ Hrun2). eexists. split; [reflexivity|].
    split_and!; [done| |simpl; rewrite (ef_size _ _ _ _ He2); apply He1|lia|lia|done].
    eapply keeps_refs_trans; [eapply keeps_refs_mono; [|apply He1]; done|]. eapply keeps_refs_mono; [|apply He2]. naive_solver.
Qed.

(** After a step is handed over, the runner holds the cached entries and no others. *)
Lemma hand_over_stage s :
  SysInv s ->
  exists s', hand_over s = (Ok tt, s') /\ SysInv s' /\ s'.(enc).(cache_size) = s.(enc).(cache_size) /\ s'.(enc).(cached) = s.(enc).(cached)
    /\ s'.(worker) = dom s'.(enc).(cached).
Proof.
  intros [H1 H2 H3 H4]. eexists. split; [reflexivity|].
  match goal with |- SysInv ?s' /\ _ => assert (Hw : s'.(worker) = dom s'.(enc).(cached)) end.
  { simpl. unfold apply_step. apply set_eq. intros h. rewrite elem_of_union, elem_of_difference, !elem_of_list_to_set, elem_of_dom, list_elem_of_filter. split.
    - intros [[Hw Hn]|Hin].
      + destruct (H3 h Hw) as [|Hf]; [done|]. destruct (cached (enc s) !! h) eqn:E; [eauto|]. naive_solver.
      + apply elem_encoded in Hin as (r & ids & i & f & Hx & Hi & Hf & <-). destruct (H4 r ids i Hx Hi) as (f' & Hf' & Href).
        simplify_eq. apply refs_cached in Href as (v & -> & _). eauto.
    - intros Hc. destruct (H2 h Hc) as [Hw|]; [|by right]. left. split; [done|]. intros [Hn _]. rewrite Hn in Hc. by destruct Hc. }
  split_and!; [|done|done|done]. split.
  - destruct H1. by split.
  - intros h Hc. left. rewrite Hw. by apply elem_of_dom.
  - intros h Hin. left. rewrite Hw in Hin. by apply elem_of_dom in Hin.
  - by intros r ids i ?%elem_of_nil.
Qed.

Lemma enc_step_sound g s s' :
  SysInv s -> enc_step g s s' ->
  SysInv s' /\ keeps_refs g s.(enc) s'.(enc) /\ s'.(enc).(cache_size) = s.(enc).(cache_size).
Proof.
  intros Hs Hstep. destruct Hstep as [r nc new budget shift victims placed pl s s' Ht Hv Hrun|r nc new budget shift placed pl s s' Ht Hrun
    |r nc np la s s' Hr Hn Hrun|r s s' Hr Hn Hrun|s s' Hrun|s s' He Hrun].
  - destruct (running_stage r nc new budget shift victims placed s Hs Ht Hv) as (pl' & s1 & Hrun' & Hs1 & Hk & Hz & _). rewrite Hrun in Hrun'. by simplify_eq.
  - destruct (waiting_stage r nc new budget shift placed s Hs Ht) as (pl' & s1 & Hrun' & Hs1 & Hk & Hz & _). rewrite Hrun in Hrun'. by simplify_eq.
  - destruct (free_inputs_spec sz hashes sz_nonneg set_order set_order_elements r nc np la _ (sy_inv _ Hs) Hr) as (e & Hrun' & Hi & (Hef & _)).
    rewrite (on_enc_ok _ _ _ _ Hrun') in Hrun. injection Hrun as <-. split; [|split; apply Hef].
    apply (sys_quiet (eq r.(request_id))); try done. intros r' ids i Hin _. by apply (unscheduled r s r' ids).
  - destruct (free_stage r s Hs Hr Hn) as (e & Hrun' & Hs' & (Hef & _) & _). rewrite Hrun in Hrun'. simplify_eq. split; [done|split; apply Hef].
  - destruct (hand_over_stage s Hs) as (s1 & Hrun' & Hs1 & Hz & Hc & _). rewrite Hrun in Hrun'. simplify_eq. split_and!; [done| |done].
    intros h rid _. unfold refs_of. by rewrite Hc.
  - injection Hrun as <-. split_and!; [|by intros h rid []|done]. pose proof (sy_inv _ Hs) as Hi.
    split; simpl; [apply new_encoder_cache_inv|intros h; rewrite lookup_empty; by intros [? ?]|set_solver|].
    + rewrite (ei_usage _ _ _ Hi). pose proof (usage_nonneg sz sz_nonneg (cached (enc s))). pose proof (ei_pos _ _ _ Hi). lia.
    + intros r ids i Hin. rewrite He in Hin. by apply elem_of_nil in Hin.
Qed.

Lemma reachable_sound size s : 0 <= size -> rtc any_step (init_enc_sched size) s -> SysInv s /\ s.(enc).(cache_size) = size.
Proof.
  intros Hsz Hsteps. pose proof (init_sys_inv size Hsz) as Hi. assert (Hs : (init_enc_sched size).(enc).(cache_size) = size) by done.
  induction Hsteps as [|s1 s2 s3 [g Hstep] _ IH]; [done|]. destruct (enc_step_sound g s1 s2 Hi Hstep) as (Hi2 & _ & Hz). apply IH; [done|congruence].
Qed.

Lemma keeping_sound rid s s' :
  SysInv s -> rtc (step_keeping rid) s s' ->
  SysInv s' /\ forall h, rid ∈ refs_of s.(enc) h -> rid ∈ refs_of s'.(enc) h.
Proof.
  intros Hs Hsteps. induction Hsteps as [|s1 s2 s3 (g & Hstep & Hg) _ IH]; [by split|].
  destruct (enc_step_sound g s1 s2 Hs Hstep) as (Hs2 & Hk & _). destruct (IH Hs2) as [Hs3 Hk3]. split; [done|]. intros h Hin. by apply Hk3, Hk.
Qed.

(** ** Guarantees *)

(** C24: In every reachable state, planning the encoder inputs of a request, running or
    waiting, preempting others and allocating the plan raises no exception: the eviction
    loop never runs out of entries and neither assertion of [allocate] fails.  The step is
    not lengthened, and if the request is scheduled with some tokens, every encoder output
    those tokens and the drafter's look-ahead need is in the cache and referenced by the
    request. *)
Theorem scheduled_inputs_fit (size nc new budget shift : Z) (r : EncRequest) (victims : list EncRequest) (placed : bool) (s : EncSched) :
  0 <= size -> rtc any_step (init_enc_sched size) s -> turn r new shift s -> victims_ok r victims placed s ->
  let fits_in (run : M EncSched Plan) := exists pl s', run s = (Ok pl, s') /\ 0 <= pl.(num_new_tokens) <= new
    /\ (placed = true -> 0 < pl.(num_new_tokens) -> needed_cached r nc pl.(num_new_tokens) shift s'.(enc)) in
  fits_in (schedule_running set_order disable r nc new budget shift victims placed)
  /\ fits_in (schedule_waiting set_order disable r nc new budget shift placed).
Proof.
  intros Hsz Hsteps Ht Hv. destruct (reachable_sound size s Hsz Hsteps) as [Hs _]. split.
  - destruct (running_stage r nc new budget shift victims placed s Hs Ht Hv) as (pl & s' & Hrun & _ & _ & _ & Hb & Hneed). by exists pl, s'.
  - destruct (waiting_stage r nc new budget shift placed s Hs Ht) as (pl & s' & Hrun & _ & _ & _ & Hb & Hneed). by exists pl, s'.
Qed.

(** The request got its blocks, as a running or as a waiting request. *)
Definition admitted (r : EncRequest) (nc new budget shift : Z) (s : EncSched) (pl : Plan) (s1 : EncSched) : Prop :=
  (exists victims, victims_ok r victims true s
     /\ schedule_running set_order disable r nc new budget shift victims true s = (Ok pl, s1))
  \/ schedule_waiting set_order disable r nc new budget shift true s = (Ok pl, s1).

Lemma admitted_spec r nc new budget shift s pl s1 :
  SysInv s -> turn r new shift s -> admitted r nc new budget shift s pl s1 ->
  SysInv s1 /\ (0 < pl.(num_new_tokens) -> needed_cached r nc pl.(num_new_tokens) shift s1.(enc)).
Proof.
  intros Hs Ht [(victims & Hv & Hrun)|Hrun].
  - destruct (running_stage r nc new budget shift victims true s Hs Ht Hv) as (pl' & s1' & Hrun' & ? & _ & _ & _ & ?). rewrite Hrun in Hrun'. simplify_eq. auto.
  - destruct (waiting_stage r nc new budget shift true s Hs Ht) as (pl' & s1' & Hrun' & ? & _ & _ & _ & ?). rewrite Hrun in Hrun'. simplify_eq. auto.
Qed.

(** What the runner gathers from is there. *)
Lemma gather_ok nc n shift sh r e w :
  in_order r.(mm_features) -> 0 < n -> 0 <= sh <= shift -> needed_cached r nc n shift e ->
  (forall h, r.(request_id) ∈ refs_of e h -> h ∈ w) -> exists out, gather_mm_embeddings w r nc sh n = Ok out.
Proof.
  intros Ho Hn Hsh Hneed Hw. unfold gather_mm_embeddings.
  destruct (get_mm_features_in_window (mm_features r) (nc + sh) (nc + sh + n)) as [lo hi] eqn:Hwin.
  destruct (window_spec _ _ _ _ _ Ho Hwin) as (Hlo & Hhi & Hin).
  destruct (rmap_ok (feature_at r) (seq lo (hi - lo))) as (fs & -> & Hfs).
  { intros i Hi. apply elem_of_seq in Hi. destruct (lookup_lt_is_Some_2 (mm_features r) i) as [f Hf]; [lia|]. exists f. by apply feature_ok. }
  cbn [rbind]. destruct (rmap_ok (gather_one w nc sh n) fs) as (out & -> & _); [|by eexists].
  intros f Hf. apply list_elem_of_lookup in Hf as [k Hk]. destruct (Forall2_lookup_r _ _ _ _ _ Hfs Hk) as (i & Hi & Hfi).
  apply lookup_seq in Hi as [-> Hi]. unfold feature_at in Hfi. destruct (mm_features r !! (lo + k)%nat) as [g|] eqn:Hg; [|done]. simplify_eq.
  destruct (proj1 (Hin (lo + k)%nat f Hg)) as [Hb1 Hb2]; [lia|]. destruct (proj1 Ho f) as [Hlen Hmask]; [by eapply list_elem_of_lookup_2|].
  unfold gather_one. rewrite (proj2 (Z.ltb_lt _ _)) by lia. cbn [negb].
  destruct (indices_ok (mm_position f) (Z.max (nc + sh - offset (mm_position f)) 0)
              (Z.min (nc + sh - offset (mm_position f) + n) (length_ (mm_position f)))) as (a & b & Hab); [done|lia|lia|].
  rewrite Hab. cbn [rbind]. destruct (Z.eqb_spec a b) as [|Hne]; [by eexists|].
  destruct (Hneed (lo + k)%nat f Hg ltac:(lia) ltac:(lia)) as [[x Hx]|Href].
  - destruct Hne. eapply (indices_sub _ _ _ _ _ _ _ _ _ Hx Hab); [lia|lia|lia|done].
  - rewrite decide_True by (by apply Hw). by eexists.
Qed.


(** Freeing the given requests empties the references of each of them. *)
Lemma free_all_stage rs s :
  SysInv s -> Forall (fun v => req_ok v /\ not_scheduled v s) rs ->
  exists e, for_each rs (fun v => on_enc (enc_free set_order v)) s = (Ok tt, set_enc e s) /\ SysInv (set_enc e s)
    /\ e.(cache_size) = s.(enc).(cache_size)
    /\ forall rid, (rid ∈ request_id <$> rs \/ default ∅ (s.(enc).(request_cached_ids) !! rid) = ∅) ->
         default ∅ (e.(request_cached_ids) !! rid) = ∅.
Proof.
  revert s. induction rs as [|v rs IH]; intros s Hs Hv; cbn [for_each].
  { exists s.(enc). destruct s. split_and!; [done|done|done|]. intros rid [Hin|]; [by apply elem_of_nil in Hin|done]. }
  apply Forall_cons in Hv as [[Hrv Hnv] Hv]. destruct (free_stage v s Hs Hrv Hnv) as (e1 & Hrun & Hs1 & (He1 & _ & _ & _ & Hoth & _) & Hids).
  rewrite (bind_ok _ _ _ _ _ Hrun). destruct (IH (set_enc e1 s) Hs1 Hv) as (e2 & Hrun2 & Hs2 & Hsz2 & Hids2).
  exists e2. split_and!; [done|done|rewrite Hsz2; apply He1|]. intros rid Hrid. apply Hids2. simpl.
  destruct (decide (rid = v.(request_id))) as [->|Hne]; [by right|]. rewrite fmap_cons, elem_of_cons in Hrid.
  rewrite Hoth by done. naive_solver.
Qed.

(** C32: No encoder slot is lost: once the live requests are freed, any single input no
    larger than the largest declared item can be allocated in the cache that
    [compute_mm_encoder_budget] sized, with the compute budget of a fresh step. *)
Theorem encoder_slots_reclaimed (dis : bool) (max_batched max_encoder configured budget size : Z) (max_toks : list Z)
    (s : EncSched) (live : list EncRequest) (r : EncRequest) (i : nat) (f : Feature) (t : Z) :
  compute_mm_encoder_budget dis max_batched max_encoder configured max_toks = Ok (budget, size) ->
  0 <= size -> rtc any_step (init_enc_sched size) s ->
  Forall (fun v => req_ok v /\ not_scheduled v s) live ->
  (forall rid, rid ∉ request_id <$> live -> default ∅ (s.(enc).(request_cached_ids) !! rid) = ∅) ->
  req_ok r -> r.(mm_features) !! i = Some f -> t ∈ max_toks -> sz f.(identifier) <= t ->
  exists s1 e, for_each live (fun v => on_enc (enc_free set_order v)) s = (Ok tt, s1)
    /\ can_allocate r i budget 0 s1.(enc) = (Ok true, e) /\ sz f.(identifier) <= e.(num_free_slots).
Proof.
  intros Hbudget Hsz Hsteps Hlive Hothers Hr Hf Ht Hle.
  destruct (reachable_sound size s Hsz Hsteps) as [Hs Hsize]. destruct (free_all_stage live s Hs Hlive) as (e1 & Hrun & Hs1 & Hcs & Hnone).
  assert (Hall : num_freeable_slots e1 = size).
  { rewrite <- Hsize, <- Hcs. apply (all_reclaimable sz hashes sz_nonneg e1 (sy_inv _ Hs1)). intros rid. apply Hnone.
    destruct (decide (rid ∈ request_id <$> live)); [by left|right; by apply Hothers]. }
  assert (Hbig : t <= budget /\ t <= size).
  { unfold compute_mm_encoder_budget in Hbudget. destruct max_toks as [|x l]; [by apply elem_of_nil in Ht|].
    destruct (_ && _); [done|]. injection Hbudget as <- <-.
    assert (t <= foldr Z.max x l); [|lia]. clear -Ht. revert Ht. induction l as [|y l IH]; simpl; rewrite ?elem_of_cons in *.
    - intros [->|Hx%elem_of_nil]; [lia|done].
    - intros [->|[->|Ht]]; [specialize (IH ltac:(by left)); lia|lia|specialize (IH ltac:(by right)); lia]. }
  destruct (can_allocate_spec sz hashes sz_nonneg r i f budget 0 e1 (sy_inv _ Hs1) Hr Hf) as (e & Hcan & _ & _ & _ & _ & Hroom).
  exists (set_enc e1 s), e. split; [done|]. simpl. rewrite Hcan, bool_decide_true by lia. split; [done|]. specialize (Hroom ltac:(lia) ltac:(lia)). lia.
Qed.
End system.

(** ** Two requests sharing an image *)

Definition enc_demo_sz (h : string) : Z := if decide (h = "img"%string) then 4 else if decide (h = "cat"%string) then 3 else 0.

Definition enc_demo_hashes (rid : string) : list string :=
  if decide (rid = "a"%string) then ["img"%string; "cat"%string] else if decide (rid = "b"%string) then ["img"%string] else [].

Definition enc_demo_a : EncRequest :=
  mkEncRequest "a" [mkFeature "img" (mkRange 1 4 None); mkFeature "cat" (mkRange 8 5 (Some [true; false; true; false; true]))].

Definition enc_demo_b : EncRequest := mkEncRequest "b" [mkFeature "img" (mkRange 0 4 None)].

Lemma enc_demo_nonneg h : 0 <= enc_demo_sz h.
Proof. unfold enc_demo_sz. repeat destruct (decide _); lia. Qed.

Lemma enc_demo_a_ok : req_ok enc_demo_sz enc_demo_hashes enc_demo_a.
Proof. split; [by vm_compute|]. intros f Hf. elem_cases Hf; by vm_compute. Qed.

Lemma enc_demo_b_ok : req_ok enc_demo_sz enc_demo_hashes enc_demo_b.
Proof. split; [by vm_compute|]. intros f Hf. elem_cases Hf; by vm_compute. Qed.

Lemma enc_demo_a_order : in_order enc_demo_a.(mm_features).
Proof.
  split.
  - intros f Hf. elem_cases Hf; (split; [by vm_compute|]); intros m Hm; by simplify_eq/=.
  - intros i j f g Hij Hf Hg. destruct i as [|[|i]], j as [|[|j]]; simpl in *; simplify_eq; simpl; try lia; done.
Qed.

Lemma enc_demo_b_order : in_order enc_demo_b.(mm_features).
Proof.
  split.
  - intros f Hf. elem_cases Hf. split; [by vm_compute|]. intros m Hm. by simplify_eq/=.
  - intros i j f g Hij Hf Hg. destruct i as [|i], j as [|j]; simpl in *; simplify_eq; simpl; try lia; done.
Qed.

(** Request a is scheduled with all its inputs in an empty cache of eight slots; then the
    waiting request b joins the pass and finds the image. *)
Definition enc_demo_run1 := schedule_running elements false enc_demo_a 0 16 8 1 [] true (init_enc_sched 8).
Definition enc_demo_run2 := schedule_waiting elements false enc_demo_b 0 6 1 1 true enc_demo_run1.2.

Lemma enc_demo_turn_a : turn enc_demo_sz enc_demo_hashes enc_demo_a 16 1 (init_enc_sched 8).
Proof. split_and!; [apply enc_demo_a_ok|apply enc_demo_a_order|lia|lia|]. apply not_elem_of_nil. Qed.

Lemma enc_demo_turn_b : turn enc_demo_sz enc_demo_hashes enc_demo_b 6 1 enc_demo_run1.2.
Proof. split_and!; [apply enc_demo_b_ok|apply enc_demo_b_order|lia|lia|]. apply (bool_decide_unpack _). by vm_compute. Qed.

Lemma enc_demo_victims : victims_ok enc_demo_sz enc_demo_hashes enc_demo_a [] true (init_enc_sched 8).
Proof. split; [constructor|]. intros _. apply not_elem_of_nil. Qed.

Definition enc_demo_plan : Plan := default (mkPlan [] 0 0 [] ∅ 0) (match enc_demo_run1.1 with Ok pl => Some pl | Raise _ => None end).

Lemma enc_demo_run1_eq :
  schedule_running elements false enc_demo_a 0 16 8 1 [] true (init_enc_sched 8) = (Ok enc_demo_plan, enc_demo_run1.2).
Proof. by vm_compute. Qed.

Lemma enc_demo_step1 : any_step enc_demo_sz enc_demo_hashes elements false (init_enc_sched 8) enc_demo_run1.2.
Proof. eexists. eapply enc_running; [apply enc_demo_turn_a|apply enc_demo_victims|apply enc_demo_run1_eq]. Qed.

Lemma scheduled_inputs_fit_witness :
  exists pl s', schedule_running elements false enc_demo_a 0 16 8 1 [] true (init_enc_sched 8) = (Ok pl, s')
    /\ 0 <= pl.(num_new_tokens) <= 16
    /\ (true = true -> 0 < pl.(num_new_tokens) -> needed_cached enc_demo_a 0 pl.(num_new_tokens) 1 s'.(enc)).
Proof.
  apply (scheduled_inputs_fit enc_demo_sz enc_demo_hashes elements false enc_demo_nonneg (fun _ => Permutation_refl _)
           8 0 16 8 1 enc_demo_a [] true (init_enc_sched 8)); [lia|apply rtc_refl|apply enc_demo_turn_a|apply enc_demo_victims].
Defined.


Lemma encoder_slots_reclaimed_witness :
  exists s1 e, for_each [enc_demo_a] (fun v => on_enc (enc_free elements v)) (hand_over enc_demo_run1.2).2 = (Ok tt, s1)
    /\ can_allocate enc_demo_b 0 4 0 s1.(enc) = (Ok true, e) /\ enc_demo_sz "img" <= e.(num_free_slots).
Proof.
  apply (encoder_slots_reclaimed enc_demo_sz enc_demo_hashes elements false enc_demo_nonneg (fun _ => Permutation_refl _)
           false 100 2 8 4 8 [3; 4] (hand_over enc_demo_run1.2).2 [enc_demo_a] enc_demo_b 0%nat (mkFeature "img" (mkRange 0 4 None)) 4).
  - reflexivity.
  - lia.
  - eapply rtc_l; [apply enc_demo_step1|]. apply rtc_once. eexists. apply enc_hand_over. by vm_compute.
  - constructor; [|constructor]. split; [apply enc_demo_a_ok|]. apply (bool_decide_unpack _). by vm_compute.
  - intros rid Hrid. assert (Hne : rid <> "a"%string) by (intros ->; apply Hrid; by left).
    assert (Hids : (hand_over enc_demo_run1.2).2.(enc).(request_cached_ids) = {["a"%string := {[0%nat; 1%nat]}]}) by (by vm_compute).
    rewrite Hids, lookup_singleton_ne; [done|congruence].
  - apply enc_demo_b_ok.
  - reflexivity.
  - apply (bool_decide_unpack _). by vm_compute.
  - by vm_compute.
Defined.

(** ** Where the code leaves these guarantees *)

(** Preemption by priority can hit a request that was scheduled earlier in the same pass. *)
Definition preempted_pass : M EncSched Plan :=
  schedule_running elements false enc_demo_a 0 16 8 1 [] true ;;
  preempt_scheduled elements enc_demo_a ;;
  hand_over ;;
  pl <- schedule_waiting elements false enc_demo_b 0 6 8 1 true ;;
  hand_over ;;
  ret pl.

(** When a request is preempted in the pass that scheduled its encoder input, the
    input is taken out of the step but stays in the cache as if computed.  A later
    request with the same image is then scheduled with all its tokens and nothing to
    encode, and the model runner raises for the missing encoder output. *)
Theorem preempted_input_stays_cached :
  exists pl s, preempted_pass (init_enc_sched 8) = (Ok pl, s)
    /\ pl.(encoder_inputs_to_schedule) = [] /\ pl.(num_new_tokens) = 6
    /\ is_Some (s.(enc).(cached) !! "img"%string) /\ s.(worker) = ∅
    /\ gather_mm_embeddings s.(worker) enc_demo_b 0 0 6 = Raise RuntimeError.
Proof.
  eexists _, _. split; [vm_compute; reflexivity|]. split_and!; try by vm_compute. eexists. by vm_compute.
Qed.

Section encoder_decoder.
Variable set_order : gset nat -> list nat.
Hypothesis set_order_elements : forall X, set_order X ≡ₚ elements X.

Definition embeds_of (r : EncRequest) (i : nat) : Z := from_option (fun f => get_num_embeds f.(mm_position)) 0 (r.(mm_features) !! i).

Lemma ed_free_list r l s :
  Forall (fun i => (i < length r.(mm_features))%nat) l ->
  exists s', for_each l (ed_free_encoder_input r) s = (Ok tt, s')
    /\ s'.(ed_num_free_slots) = s.(ed_num_free_slots) + zsum (embeds_of r <$> l) /\ s'.(ed_cache_size) = s.(ed_cache_size).
Proof.
  intros Hl. revert s. induction Hl as [|i l Hi _ IH]; intros s; cbn [for_each].
  { exists s. change (zsum (embeds_of r <$> [])) with 0. split_and!; [done|lia|done]. }
  destruct (lookup_lt_is_Some_2 _ _ Hi) as [f Hf]. unfold ed_free_encoder_input at 1, get_num_encoder_embeds. rewrite Hf.
  erewrite bind_ok; [|run_monad; reflexivity]. destruct (IH (mkEncDecCache (ed_cache_size s) (ed_num_free_slots s + get_num_embeds (mm_position f)) (ed_allocated s) (ed_to_free s)))
    as (s' & Hrun & Hn & Hc). exists s'. split_and!; [exact Hrun| |done].
  rewrite Hn, fmap_cons, zsum_cons. unfold embeds_of at 2. rewrite Hf. simpl. lia.
Qed.

Lemma ed_output_step r nc np la s :
  0 < nc ->
  exists s', free_encoder_inputs set_order true r nc np la s = (Ok tt, s') /\ s'.(ed_cache_size) = s.(ed_cache_size)
    /\ s'.(ed_num_free_slots) = s.(ed_num_free_slots) + zsum (embeds_of r <$> seq 0 (length r.(mm_features))).
Proof.
  intros Hnc. unfold free_encoder_inputs. run_monad. cbn [op_cached_input_ids op_free_input encdec_cache_ops].
  set (l := set_order (list_to_set (seq 0 (length r.(mm_features))))).
  assert (Hp : l ≡ₚ seq 0 (length r.(mm_features))) by (unfold l; rewrite set_order_elements; apply elements_list_to_set, NoDup_seq).
  assert (Hl : Forall (fun i => (i < length r.(mm_features))%nat) l).
  { rewrite Hp. apply Forall_forall. intros i Hi. apply elem_of_seq in Hi. lia. }
  destruct (ed_free_list r l s Hl) as (s1 & Hrun & Hn & Hc). rewrite Hp in Hn. exists s1. split_and!; [|done|done].
  rewrite <- Hrun, (proj2 (Z.ltb_lt 0 nc) Hnc). apply for_each_ext. intros i s' Hi. eapply Forall_forall in Hl; [|exact Hi].
  destruct (lookup_lt_is_Some_2 _ _ Hl) as [f Hf]. by rewrite (feature_ok r i f Hf).
Qed.

(** With the encoder-decoder manager every output of a request that has computed
    tokens returns the slots of all its inputs again: after [k] outputs the counter has
    grown [k] times by the request's embeddings, whatever was allocated. *)
Theorem encdec_slots_grow (r : EncRequest) (nc np la : Z) (k : nat) (s : EncDecCache) :
  0 < nc ->
  exists s', for_each (replicate k tt) (fun _ => free_encoder_inputs set_order true r nc np la) s = (Ok tt, s')
    /\ s'.(ed_cache_size) = s.(ed_cache_size)
    /\ s'.(ed_num_free_slots) = s.(ed_num_free_slots) + Z.of_nat k * zsum (embeds_of r <$> seq 0 (length r.(mm_features))).
Proof.
  intros Hnc. revert s. induction k as [|k IH]; intros s; cbn [replicate for_each]; [exists s; split_and!; [done|done|lia]|].
  destruct (ed_output_step r nc np la s Hnc) as (s1 & Hrun & Hc & Hn). rewrite (bind_ok _ _ _ _ _ Hrun).
  destruct (IH s1) as (s2 & Hrun2 & Hc2 & Hn2). exists s2. split_and!; [done|congruence|lia].
Qed.
End encoder_decoder.

(** One input of four embeddings in a cache of four slots; after three outputs the
    manager counts twelve free slots. *)
Lemma encdec_slots_grow_witness :
  exists s', for_each (replicate 3 tt) (fun _ => free_encoder_inputs elements true enc_demo_b 5 0 0)
      (ed_allocate enc_demo_b 0 (new_encdec_cache 4)).2 = (Ok tt, s')
    /\ s'.(ed_cache_size) = 4 /\ s'.(ed_num_free_slots) = 12.
Proof. apply (encdec_slots_grow elements (fun _ => Permutation_refl _) enc_demo_b 5 0 0 3 (ed_allocate enc_demo_b 0 (new_encdec_cache 4)).2). lia. Defined.
