(* ===== verification/RequestQueue.v ===== *)
(** * Request queues

    Models [vllm/v1/core/sched/request_queue.py]: the first-come-first-served queue, a
    deque, and the priority queue, a binary heap of Python's [heapq] ordered by
    [Request.__lt__] ([vllm/v1/request.py]).  Both implement the interface [QueueOps].
    The heap is shown to refine a sorted list: whatever the sequence of operations, it
    pops and iterates in order of priority, arrival time and request id.

    The sift loops of [heapq] run on fuel; the length of the list suffices, since the
    position moves along one path of the tree. *)

From Stdlib Require Import OrdersEx Sorting.Sorted.
From stdpp Require Import sorting.
From S2P Require Import Prelude.

(** ** The order on requests *)

(** The fields that order requests; [obj_id] is Python's [id], so that equal records are
    the same object.  Arrival times are only compared. *)
Record QRequest := mkQRequest {
  priority : Z;
  arrival_time : Z;
  qrequest_id : string;
  obj_id : Z;
}.

#[export] Instance qrequest_eq_dec : EqDecision QRequest.
Proof. solve_decision. Defined.

(** Python's [<] on strings, by code points. *)
Definition str_lt (a b : string) : bool := match String_as_OT.compare a b with Lt => true | _ => false end.

(** [Request.__lt__] *)
Definition request_lt (a b : QRequest) : bool :=
  if negb (a.(priority) =? b.(priority)) then a.(priority) <? b.(priority)
  else if negb (a.(arrival_time) =? b.(arrival_time)) then a.(arrival_time) <? b.(arrival_time)
  else if negb (bool_decide (a.(qrequest_id) = b.(qrequest_id))) then str_lt a.(qrequest_id) b.(qrequest_id)
  else a.(obj_id) <? b.(obj_id).

(** ** Python's heapq *)

Definition parent (i : nat) : nat := Nat.div2 (i - 1).

(** [_siftdown(heap, startpos, pos)] with [newitem = heap[pos]] in hand. *)
Fixpoint siftdown_loop (fuel : nat) (startpos pos : nat) (newitem : QRequest) (heap : list QRequest) : list QRequest :=
  match fuel with
  | O => <[pos := newitem]> heap
  | S fuel' =>
      if (startpos <? pos)%nat then
        match heap !! parent pos with
        | Some p => if request_lt newitem p then siftdown_loop fuel' startpos (parent pos) newitem (<[pos := p]> heap)
                    else <[pos := newitem]> heap
        | None => <[pos := newitem]> heap
        end
      else <[pos := newitem]> heap
  end.

Definition siftdown (startpos pos : nat) (heap : list QRequest) : list QRequest :=
  match heap !! pos with
  | Some newitem => siftdown_loop (length heap) startpos pos newitem heap
  | None => heap
  end.

(** The smaller child of [pos]: the right one unless the left one is smaller. *)
Definition smaller_child (heap : list QRequest) (pos : nat) : option nat :=
  let childpos := (2 * pos + 1)%nat in
  match heap !! childpos with
  | None => None
  | Some l => match heap !! S childpos with
              | Some r => if negb (request_lt l r) then Some (S childpos) else Some childpos
              | None => Some childpos
              end
  end.

(** The first loop of [_siftup]: smaller children move up until the hole is at a leaf. *)
Fixpoint hole_down (fuel : nat) (pos : nat) (heap : list QRequest) : nat * list QRequest :=
  match fuel with
  | O => (pos, heap)
  | S fuel' =>
      match smaller_child heap pos with
      | None => (pos, heap)
      | Some c => match heap !! c with
                  | Some y => hole_down fuel' c (<[pos := y]> heap)
                  | None => (pos, heap)
                  end
      end
  end.

(** [_siftup(heap, pos)] *)
Definition siftup (pos : nat) (heap : list QRequest) : list QRequest :=
  match heap !! pos with
  | None => heap
  | Some newitem =>
      let '(leaf, heap') := hole_down (length heap) pos heap in
      siftdown pos leaf (<[leaf := newitem]> heap')
  end.

Definition heappush (heap : list QRequest) (item : QRequest) : list QRequest :=
  siftdown 0 (length heap) (heap ++ [item]).

(** [heappop]; the callers have checked that the heap is not empty. *)
Definition heappop (heap : list QRequest) : res (QRequest * list QRequest) :=
  match last heap with
  | None => Raise IndexError
  | Some lastelt =>
      match removelast heap with
      | [] => Ok (lastelt, [])
      | returnitem :: rest => Ok (returnitem, siftup 0 (lastelt :: rest))
      end
  end.

(** [heapify]: [for i in reversed(range(n // 2))] *)
Fixpoint heapify_loop (i : nat) (heap : list QRequest) : list QRequest :=
  match i with
  | O => heap
  | S i' => heapify_loop i' (siftup i' heap)
  end.

Definition heapify (heap : list QRequest) : list QRequest := heapify_loop (Nat.div2 (length heap)) heap.

(** ** The interface *)

Class QueueOps (Q : Type) := {
  create_request_queue : Q;
  add_request : QRequest -> M Q unit;
  pop_request : M Q QRequest;
  peek_request : M Q QRequest;
  prepend_request : QRequest -> M Q unit;
  prepend_requests : list QRequest -> M Q unit;
  remove_request : QRequest -> M Q unit;
  remove_requests : list QRequest -> M Q unit;
  queue_iter : Q -> list QRequest;
  queue_len : Q -> nat;
}.

(** [list.remove], the first occurrence. *)
Fixpoint remove_first (x : QRequest) (l : list QRequest) : res (list QRequest) :=
  match l with
  | [] => Raise ValueError
  | y :: l' => if decide (y = x) then Ok l' else let? l'' := remove_first x l' in Ok (y :: l'')
  end.

Definition without (rs l : list QRequest) : list QRequest := filter (fun r => r ∉ rs) l.

(** *** First come, first served *)

Record FCFSRequestQueue := mkFCFS { deque : list QRequest }.

Definition set_deque (l : list QRequest) (q : FCFSRequestQueue) : FCFSRequestQueue := mkFCFS l.

Definition fcfs_add (r : QRequest) : M FCFSRequestQueue unit := modify (fun q => set_deque (q.(deque) ++ [r]) q).

Definition fcfs_prepend (r : QRequest) : M FCFSRequestQueue unit := modify (fun q => set_deque (r :: q.(deque)) q).

(** [extendleft] puts each request before the previous one. *)
Definition fcfs_prepend_all (rs : list QRequest) : M FCFSRequestQueue unit :=
  modify (fun q => set_deque (reverse rs ++ q.(deque)) q).

Definition fcfs_remove_all (rs : list QRequest) : M FCFSRequestQueue unit :=
  modify (fun q => set_deque (without rs q.(deque)) q).

Definition fcfs_pop : M FCFSRequestQueue QRequest :=
  q <- gets deque ;;
  match q with
  | [] => raise IndexError
  | x :: q' => modify (set_deque q') ;; ret x
  end.

Definition fcfs_peek : M FCFSRequestQueue QRequest :=
  q <- gets deque ;;
  match q with [] => raise IndexError | x :: _ => ret x end.

Definition fcfs_remove (r : QRequest) : M FCFSRequestQueue unit :=
  q <- gets deque ;; q' <- lift (remove_first r q) ;; modify (set_deque q').

#[export] Instance fcfs_ops : QueueOps FCFSRequestQueue := {
  create_request_queue := mkFCFS [];
  add_request := fcfs_add;
  pop_request := fcfs_pop;
  peek_request := fcfs_peek;
  prepend_request := fcfs_prepend;
  prepend_requests := fcfs_prepend_all;
  remove_request := fcfs_remove;
  remove_requests := fcfs_remove_all;
  queue_iter := deque;
  queue_len := fun q => length q.(deque);
}.

(** *** Priority *)

Record PriorityRequestQueue := mkPriority { heap : list QRequest }.

Definition set_heap (l : list QRequest) (q : PriorityRequestQueue) : PriorityRequestQueue := mkPriority l.

Definition priority_add (r : QRequest) : M PriorityRequestQueue unit :=
  modify (fun q => set_heap (heappush q.(heap) r) q).

Definition priority_pop : M PriorityRequestQueue QRequest :=
  h <- gets heap ;;
  match h with
  | [] => raise IndexError
  | _ => x <- lift (heappop h) ;; modify (set_heap (snd x)) ;; ret (fst x)
  end.

Definition priority_peek : M PriorityRequestQueue QRequest :=
  h <- gets heap ;;
  match h with [] => raise IndexError | x :: _ => ret x end.

Definition priority_remove (r : QRequest) : M PriorityRequestQueue unit :=
  h <- gets heap ;; h' <- lift (remove_first r h) ;; modify (set_heap h') ;; modify (fun q => set_heap (heapify q.(heap)) q).

Definition priority_prepend_all (rs : list QRequest) : M PriorityRequestQueue unit := for_each rs priority_add.

Definition priority_remove_all (rs : list QRequest) : M PriorityRequestQueue unit :=
  modify (fun q => set_heap (without rs q.(heap)) q) ;; modify (fun q => set_heap (heapify q.(heap)) q).

(** [__iter__]: pops from a copy until it is empty. *)
Fixpoint drain_heap (fuel : nat) (h : list QRequest) : list QRequest :=
  match fuel with
  | O => []
  | S fuel' => match heappop h with
               | Ok (x, h') => x :: drain_heap fuel' h'
               | Raise _ => []
               end
  end.

Definition priority_iter (q : PriorityRequestQueue) : list QRequest := drain_heap (length q.(heap)) q.(heap).

#[export] Instance priority_ops : QueueOps PriorityRequestQueue := {
  create_request_queue := mkPriority [];
  add_request := priority_add;
  pop_request := priority_pop;
  peek_request := priority_peek;
  prepend_request := priority_add;
  prepend_requests := priority_prepend_all;
  remove_request := priority_remove;
  remove_requests := priority_remove_all;
  queue_iter := priority_iter;
  queue_len := fun q => length q.(heap);
}.

(** ** A strict total order *)

Lemma str_lt_spec a b : str_lt a b = true <-> String_as_OT.lt a b.
Proof. unfold str_lt, String_as_OT.lt. by destruct (String_as_OT.compare a b). Qed.

Lemma str_lt_trichotomy a b : str_lt a b = true \/ a = b \/ str_lt b a = true.
Proof. rewrite !str_lt_spec. destruct (String_as_OT.compare_spec a b); auto. Qed.

Lemma str_lt_irrefl a : str_lt a a = false.
Proof. apply not_true_iff_false. rewrite str_lt_spec. apply (StrictOrder_Irreflexive (R := String_as_OT.lt)). Qed.

Lemma str_lt_trans a b c : str_lt a b = true -> str_lt b c = true -> str_lt a c = true.
Proof. rewrite !str_lt_spec. apply (StrictOrder_Transitive (R := String_as_OT.lt)). Qed.

(** The order written out. *)
Lemma request_lt_spec a b :
  request_lt a b = true <->
  a.(priority) < b.(priority)
  \/ (a.(priority) = b.(priority) /\ (a.(arrival_time) < b.(arrival_time)
  \/ (a.(arrival_time) = b.(arrival_time) /\ (str_lt a.(qrequest_id) b.(qrequest_id) = true
  \/ (a.(qrequest_id) = b.(qrequest_id) /\ a.(obj_id) < b.(obj_id)))))).
Proof.
  unfold request_lt. destruct (Z.eqb_spec (priority a) (priority b)); cbn [negb]; [|rewrite Z.ltb_lt; lia].
  destruct (Z.eqb_spec (arrival_time a) (arrival_time b)); cbn [negb]; [|rewrite Z.ltb_lt; lia].
  case_bool_decide as Hid; cbn [negb]; [rewrite Z.ltb_lt, Hid, str_lt_irrefl|]; intuition (lia || congruence).
Qed.

Lemma request_lt_irrefl a : request_lt a a = false.
Proof. apply not_true_iff_false. rewrite request_lt_spec, str_lt_irrefl. intuition (lia || congruence). Qed.

Lemma request_lt_trans a b c : request_lt a b = true -> request_lt b c = true -> request_lt a c = true.
Proof.
  rewrite !request_lt_spec. intros [|[? [|[? [Ha|[Ha ?]]]]]] [|[? [|[? [Hb|[Hb ?]]]]]];
    first [left; lia|right; split; [lia|]; first [left; lia|right; split; [lia|]]].
  - left. by eapply str_lt_trans.
  - left. congruence.
  - left. congruence.
  - right. split; [congruence|lia].
Qed.

Lemma request_lt_total a b : request_lt a b = true \/ a = b \/ request_lt b a = true.
Proof.
  rewrite !request_lt_spec. destruct (Z.lt_trichotomy (priority a) (priority b)) as [|[Hp|]]; [tauto| |tauto].
  destruct (Z.lt_trichotomy (arrival_time a) (arrival_time b)) as [|[Ht|]]; [tauto| |do 3 right; split; [lia|by left]].
  destruct (str_lt_trichotomy (qrequest_id a) (qrequest_id b)) as [|[Hs|]]; [tauto| |do 3 right; split; [lia|right; split; [lia|by left]]].
  destruct (Z.lt_trichotomy (obj_id a) (obj_id b)) as [|[Ho|]]; [tauto| |do 3 right; split; [lia|right; split; [lia|by right]]].
  right; left. destruct a, b; simpl in *; congruence.
Qed.

(** [a] is served no later than [b]. *)
Definition before (a b : QRequest) : Prop := request_lt b a = false.

#[export] Instance before_preorder : PreOrder before.
Proof.
  split; [intros a; apply request_lt_irrefl|]. intros a b c Hab Hbc. unfold before in *.
  destruct (request_lt c a) eqn:Hca; [|done]. destruct (request_lt_total a b) as [H|[->|H]]; [|congruence|congruence].
  by rewrite (request_lt_trans c a b Hca H) in Hbc.
Qed.

#[export] Instance before_antisym : AntiSymm eq before.
Proof. intros a b Hab Hba. unfold before in *. destruct (request_lt_total a b) as [H|[->|H]]; congruence. Qed.

Lemma before_lt a b : request_lt a b = true -> before a b.
Proof.
  intros H. unfold before. destruct (request_lt b a) eqn:E; [|done].
  pose proof (request_lt_trans a b a H E) as Hx. by rewrite request_lt_irrefl in Hx.
Qed.

Lemma before_total a b : before a b \/ before b a.
Proof. unfold before at 1. destruct (request_lt b a) eqn:E; [right; by apply before_lt|by left]. Qed.

(** ** Positions in the tree *)

Lemma parent_lt i : (0 < i)%nat -> (parent i < i)%nat.
Proof. intros Hi. unfold parent. pose proof (Nat.div2_odd (i - 1)). destruct (Nat.odd (i - 1)); simpl in *; lia. Qed.

Lemma parent_iff i p : (0 < i)%nat -> parent i = p <-> (i = 2 * p + 1 \/ i = 2 * p + 2)%nat.
Proof. intros Hi. unfold parent. pose proof (Nat.div2_odd (i - 1)). destruct (Nat.odd (i - 1)); simpl in *; lia. Qed.

(** [pos] lies in the subtree of [s]. *)
Inductive below (s : nat) : nat -> Prop :=
  | below_refl : below s s
  | below_step pos : (0 < pos)%nat -> below s (parent pos) -> below s pos.

Lemma below_le s pos : below s pos -> (s <= pos)%nat.
Proof. induction 1 as [|pos Hpos _ IH]; [done|]. pose proof (parent_lt pos Hpos). lia. Qed.

Lemma below_parent s pos : below s pos -> (s < pos)%nat -> below s (parent pos) /\ (s <= parent pos)%nat.
Proof. intros Hb Hlt. inversion Hb; subst; [lia|]. split; [done|by apply below_le]. Qed.

(** ** The heap property *)

Definition edge (h : list QRequest) (i : nat) : Prop :=
  forall p x, h !! parent i = Some p -> h !! i = Some x -> before p x.

(** Every edge whose upper end is at [k] or after is in order. *)
Definition heap_from (k : nat) (h : list QRequest) : Prop := forall i, (0 < i)%nat -> (k <= parent i)%nat -> edge h i.

Lemma insert_perm (l : list QRequest) i x y : l !! i = Some y -> y :: <[i := x]> l ≡ₚ x :: l.
Proof.
  revert i. induction l as [|z l IH]; intros [|i] Hi; simplify_eq/=; [apply Permutation_swap|].
  rewrite Permutation_swap, (IH i Hi). apply Permutation_swap.
Qed.

Lemma hole_perm (h : list QRequest) pos q x p :
  h !! q = Some p -> q <> pos -> (pos < length h)%nat -> <[q := x]> (<[pos := p]> h) ≡ₚ <[pos := x]> h.
Proof.
  intros Hq Hne Hlt. destruct (lookup_lt_is_Some_2 h pos Hlt) as [y Hy].
  assert (Hq1 : <[pos := p]> h !! q = Some p) by (by rewrite list_lookup_insert_ne).
  apply (Permutation_cons_inv (a := p)), (Permutation_cons_inv (a := y)). rewrite (insert_perm _ _ x _ Hq1).
  transitivity (x :: y :: <[pos := p]> h); [apply Permutation_swap|]. rewrite (insert_perm h pos p y Hy).
  transitivity (p :: x :: h); [apply Permutation_swap|]. rewrite <- (insert_perm h pos x y Hy). apply Permutation_swap.
Qed.

(** Reading a list with one entry replaced. *)
Lemma insert_cases (h : list QRequest) pos x i v :
  (pos < length h)%nat -> <[pos := x]> h !! i = Some v -> (i = pos /\ v = x) \/ (i <> pos /\ h !! i = Some v).
Proof.
  intros Hlt Hi. destruct (decide (i = pos)) as [->|Hne].
  - rewrite list_lookup_insert_eq in Hi by done. left. by simplify_eq.
  - rewrite list_lookup_insert_ne in Hi by done. by right.
Qed.

Lemma insert_get (h : list QRequest) pos x i : i <> pos -> <[pos := x]> h !! i = h !! i.
Proof. intros Hne. by rewrite list_lookup_insert_ne. Qed.

(** With [x] at [pos], only the edge above [pos] may be out of order, and the entry above
    [pos] is in order with the children of [pos]. *)
Definition rising (s pos : nat) (g : list QRequest) : Prop :=
  (forall i, (0 < i)%nat -> (s <= parent i)%nat -> i <> pos -> edge g i)
  /\ (pos <> s -> forall c v p, (0 < c)%nat -> parent c = pos -> g !! c = Some v -> g !! parent pos = Some p -> before p v).

Lemma rising_step s pos x p h :
  below s pos -> (s < pos)%nat -> (pos < length h)%nat -> h !! parent pos = Some p -> request_lt x p = true ->
  rising s pos (<[pos := x]> h) -> rising s (parent pos) (<[parent pos := x]> (<[pos := p]> h)).
Proof.
  intros Hb Hlt Hlen Hp Hx [HA HB]. destruct (below_parent s pos Hb Hlt) as [Hb' Hle]. pose proof (parent_lt pos ltac:(lia)) as Hpl.
  set (q := parent pos) in *. assert (Hgq : <[pos := x]> h !! q = Some p) by (rewrite insert_get; [done|lia]).
  apply before_lt in Hx.
  assert (Hget : forall i, i <> q -> i <> pos -> <[q := x]> (<[pos := p]> h) !! i = <[pos := x]> h !! i).
  { intros i H1 H2. by rewrite !insert_get. }
  assert (Hgp : <[q := x]> (<[pos := p]> h) !! pos = Some p) by (rewrite insert_get by lia; by rewrite list_lookup_insert_eq).
  assert (Hgx : <[q := x]> (<[pos := p]> h) !! q = Some x) by (rewrite list_lookup_insert_eq; [done|rewrite length_insert; lia]).
  split.
  - intros i Hi Hs Hne a b Ha Hbv. pose proof (parent_lt i Hi). destruct (decide (i = pos)) as [->|Hip].
    { fold q in Ha. rewrite Hgx in Ha. rewrite Hgp in Hbv. by simplify_eq. }
    rewrite Hget in Hbv by done. destruct (decide (parent i = pos)) as [Hpi|Hpi].
    { rewrite Hpi, Hgp in Ha. injection Ha as <-. by apply (HB ltac:(lia) i b p Hi Hpi). }
    destruct (decide (parent i = q)) as [Hqi|Hqi].
    { rewrite Hqi, Hgx in Ha. injection Ha as <-. transitivity p; [done|]. apply (HA i Hi Hs Hip); [by rewrite Hqi|done]. }
    rewrite Hget in Ha by done. by apply (HA i Hi Hs Hip).
  - intros Hqs c v a Hc Hcq Hv Ha. pose proof (parent_lt q ltac:(lia)). rewrite Hget in Ha by lia.
    assert (Hap : before a p).
    { apply (HA q); [lia| |lia|done|done]. destruct (below_parent s q Hb' ltac:(lia)). done. }
    destruct (decide (c = pos)) as [->|Hne]; [rewrite Hgp in Hv; by simplify_eq|].
    pose proof (parent_lt c Hc). rewrite Hget in Hv by lia. transitivity p; [done|].
    apply (HA c Hc ltac:(lia) Hne); [by rewrite Hcq|done].
Qed.

Lemma siftdown_loop_spec fuel s pos x h :
  (pos < fuel)%nat -> below s pos -> (pos < length h)%nat -> rising s pos (<[pos := x]> h) ->
  heap_from s (siftdown_loop fuel s pos x h) /\ siftdown_loop fuel s pos x h ≡ₚ <[pos := x]> h.
Proof.
  revert pos h. induction fuel as [|fuel IH]; intros pos h Hf Hb Hlen Hr; [lia|]. cbn [siftdown_loop].
  destruct (Nat.ltb_spec s pos) as [Hlt|Hge].
  - pose proof (parent_lt pos ltac:(lia)) as Hpl. destruct (lookup_lt_is_Some_2 h (parent pos)) as [p Hp]; [lia|]. rewrite Hp.
    destruct (request_lt x p) eqn:Hx.
    + destruct (IH (parent pos) (<[pos := p]> h)) as [H1 H2]; [lia|by apply below_parent|rewrite length_insert; lia|by apply rising_step|].
      split; [done|]. rewrite H2. apply hole_perm; [done|lia|done].
    + split; [|done]. intros i Hi Hs. destruct (decide (i = pos)) as [->|Hne]; [|by apply Hr].
      intros a b Ha Hbv. rewrite list_lookup_insert_eq in Hbv by done. rewrite insert_get, Hp in Ha by lia. by simplify_eq.
  - split; [|done]. pose proof (below_le s pos Hb). assert (pos = s) as -> by lia. intros i Hi Hs.
    apply Hr; [done|done|]. intros ->. pose proof (parent_lt s Hi). lia.
Qed.

Lemma siftdown_spec s pos g :
  below s pos -> (pos < length g)%nat -> rising s pos g ->
  heap_from s (siftdown s pos g) /\ siftdown s pos g ≡ₚ g.
Proof.
  intros Hb Hlen Hr. unfold siftdown. destruct (lookup_lt_is_Some_2 g pos Hlen) as [x Hx]. rewrite Hx.
  pose proof (list_insert_id g pos x Hx) as Hid.
  destruct (siftdown_loop_spec (length g) s pos x g Hlen Hb Hlen) as [H1 H2]; [by rewrite Hid|]. rewrite Hid in H2. done.
Qed.

(** The entry at [pos] is being replaced: edges that do not touch it are in order, and the
    entry above is in order with the children of [pos]. *)
Definition sinking (s pos : nat) (h : list QRequest) : Prop :=
  (forall i, (0 < i)%nat -> (s <= parent i)%nat -> i <> pos -> parent i <> pos -> edge h i)
  /\ (pos <> s -> forall c v p, (0 < c)%nat -> parent c = pos -> h !! c = Some v -> h !! parent pos = Some p -> before p v).

Lemma smaller_child_spec h pos :
  match smaller_child h pos with
  | None => forall c, (0 < c)%nat -> parent c = pos -> h !! c = None
  | Some c => (0 < c)%nat /\ parent c = pos /\ exists y, h !! c = Some y
              /\ forall d v, (0 < d)%nat -> parent d = pos -> h !! d = Some v -> before y v
  end.
Proof.
  unfold smaller_child. destruct (h !! (2 * pos + 1)%nat) as [l|] eqn:Hl.
  2:{ intros c Hc Hp. apply lookup_ge_None in Hl. apply lookup_ge_None. apply parent_iff in Hp; lia. }
  assert (Hkids : forall d v, (0 < d)%nat -> parent d = pos -> h !! d = Some v ->
            (d = 2 * pos + 1 /\ v = l)%nat \/ h !! S (2 * pos + 1) = Some v).
  { intros d v Hd Hp Hv. apply parent_iff in Hp as [->| ->]; [left; split; [done|congruence]|right|done].
    by replace (S (2 * pos + 1)) with (2 * pos + 2)%nat by lia. }
  destruct (h !! S (2 * pos + 1)) as [r|] eqn:Hr.
  - destruct (request_lt l r) eqn:Hlr; cbn [negb].
    + split_and!; [lia|apply parent_iff; lia|]. exists l. split; [done|]. intros d v Hd Hp Hv.
      destruct (Hkids d v Hd Hp Hv) as [[_ ->]|[= ->]]; [done|by apply before_lt].
    + split_and!; [lia|apply parent_iff; lia|]. exists r. split; [done|]. intros d v Hd Hp Hv.
      destruct (Hkids d v Hd Hp Hv) as [[_ ->]|[= ->]]; done.
  - split_and!; [lia|apply parent_iff; lia|]. exists l. split; [done|]. intros d v Hd Hp Hv.
    by destruct (Hkids d v Hd Hp Hv) as [[_ ->]|].
Qed.

Lemma sinking_step s pos c y h :
  below s pos -> (pos < length h)%nat -> (0 < c)%nat -> parent c = pos -> h !! c = Some y ->
  (forall d v, (0 < d)%nat -> parent d = pos -> h !! d = Some v -> before y v) ->
  sinking s pos h -> sinking s c (<[pos := y]> h).
Proof.
  intros Hb Hlen Hc Hpc Hy Hmin [HA HB]. pose proof (parent_lt c Hc) as Hlt. pose proof (below_le s pos Hb) as Hs. split.
  - intros i Hi Hsi Hic Hpi a b Ha Hv. pose proof (parent_lt i Hi).
    apply insert_cases in Ha as [[Ea ->]|[Ea Ha]]; [| |done].
    + rewrite insert_get in Hv by lia. by apply (Hmin i b).
    + apply insert_cases in Hv as [[-> ->]|[Ev Hv]]; [| |done].
      * apply (HB ltac:(lia) c y a Hc Hpc Hy Ha).
      * apply (HA i Hi Hsi Ev Ea _ _ Ha Hv).
  - intros _ d v p Hd Hpd Hv Hp. rewrite Hpc, list_lookup_insert_eq in Hp by done. injection Hp as <-.
    pose proof (parent_lt d Hd). rewrite insert_get in Hv by lia.
    apply (HA d Hd ltac:(lia) ltac:(lia) ltac:(lia)); [by rewrite Hpd|done].
Qed.

Lemma hole_down_spec fuel s pos x h :
  (length h - pos <= fuel)%nat -> below s pos -> (pos < length h)%nat -> sinking s pos h ->
  let '(leaf, h') := hole_down fuel pos h in
  below s leaf /\ (leaf < length h')%nat /\ sinking s leaf h' /\ (forall c, (0 < c)%nat -> parent c = leaf -> h' !! c = None)
  /\ <[leaf := x]> h' ≡ₚ <[pos := x]> h.
Proof.
  revert pos h. induction fuel as [|fuel IH]; intros pos h Hf Hb Hlen Hs; [lia|]. cbn [hole_down].
  pose proof (smaller_child_spec h pos) as Hk. destruct (smaller_child h pos) as [c|]; [|done].
  destruct Hk as (Hc & Hpc & y & Hy & Hmin). rewrite Hy. pose proof (parent_lt c Hc) as Hlt. pose proof (lookup_lt_Some _ _ _ Hy) as Hcl.
  specialize (IH c (<[pos := y]> h)). rewrite length_insert in IH.
  destruct (hole_down fuel c (<[pos := y]> h)) as [leaf h']. destruct IH as (H1 & H2 & H3 & H4 & H5); [lia| |done|by eapply sinking_step|].
  { apply below_step; [done|]. by rewrite Hpc. }
  split_and!; [done|done|done|done|]. rewrite H5. apply hole_perm; [done|lia|done].
Qed.

(** [_siftup] extends the ordered part by one position. *)
Lemma siftup_spec s h : (s < length h)%nat -> heap_from (S s) h -> heap_from s (siftup s h) /\ siftup s h ≡ₚ h.
Proof.
  intros Hlen Hh. unfold siftup. destruct (lookup_lt_is_Some_2 h s Hlen) as [x Hx]. rewrite Hx.
  pose proof (hole_down_spec (length h) s s x h ltac:(lia) (below_refl s) Hlen) as Hd.
  destruct (hole_down (length h) s h) as [leaf h']. destruct Hd as (H1 & H2 & [HA _] & H4 & H5).
  { split; [|done]. intros i Hi Hs _ Hne. apply Hh; [done|lia]. }
  rewrite (list_insert_id h s x Hx) in H5. destruct (siftdown_spec s leaf (<[leaf := x]> h') H1) as [G1 G2].
  - by rewrite length_insert.
  - assert (Hno : forall c v, (0 < c)%nat -> parent c = leaf -> <[leaf := x]> h' !! c = Some v -> False).
    { intros c v Hc Hp Hv. pose proof (parent_lt c Hc). rewrite insert_get, (H4 c Hc Hp) in Hv by lia. done. }
    split; [|intros _ c v p Hc Hp Hv; by destruct (Hno c v)].
    intros i Hi Hs Hne a b Ha Hv. destruct (decide (parent i = leaf)) as [Hp|Hp]; [by destruct (Hno i b)|].
    rewrite insert_get in Ha, Hv by done. by apply (HA i).
  - split; [done|]. by rewrite G2.
Qed.

Lemma heapify_loop_spec i h : (i <= length h)%nat -> heap_from i h -> heap_from 0 (heapify_loop i h) /\ heapify_loop i h ≡ₚ h.
Proof.
  revert h. induction i as [|i IH]; intros h Hi Hh; [done|]. cbn [heapify_loop].
  destruct (siftup_spec i h ltac:(lia) Hh) as [H1 H2]. destruct (IH (siftup i h)) as [H3 H4]; [rewrite H2; lia|done|].
  split; [done|]. by rewrite H4.
Qed.

Lemma heapify_spec h : heap_from 0 (heapify h) /\ heapify h ≡ₚ h.
Proof.
  unfold heapify. pose proof (Nat.div2_odd (length h)) as Hd. apply heapify_loop_spec; [destruct (Nat.odd _); simpl in *; lia|].
  intros i Hi Hs p x _ Hx. apply lookup_lt_Some in Hx. pose proof (proj1 (parent_iff i (parent i) Hi) eq_refl).
  destruct (Nat.odd _); simpl in *; lia.
Qed.

Lemma heappush_spec h x : heap_from 0 h -> heap_from 0 (heappush h x) /\ heappush h x ≡ₚ x :: h.
Proof.
  intros Hh. unfold heappush. destruct (siftdown_spec 0 (length h) (h ++ [x])) as [H1 H2].
  - clear. induction (length h) as [n IH] using (well_founded_induction lt_wf). destruct n as [|n]; [constructor|].
    apply below_step; [lia|]. apply IH, parent_lt. lia.
  - rewrite length_app. simpl. lia.
  - split.
    + intros i Hi _ Hne p v Hp Hv. pose proof (parent_lt i Hi). pose proof (lookup_lt_Some _ _ _ Hv) as Hl. rewrite length_app in Hl. simpl in Hl.
      rewrite lookup_app_l in Hp, Hv by lia. by apply (Hh i Hi ltac:(lia)).
    + intros _ c v p Hc Hpc Hv _. pose proof (parent_lt c Hc). apply lookup_lt_Some in Hv. rewrite length_app in Hv. simpl in Hv. lia.
  - split; [done|]. rewrite H2. symmetry. apply Permutation_cons_append.
Qed.

(** The root comes before everything. *)
Lemma root_first h r : heap_from 0 h -> h !! 0%nat = Some r -> forall i v, h !! i = Some v -> before r v.
Proof.
  intros Hh Hr i. induction i as [i IH] using (well_founded_induction lt_wf). intros v Hv.
  destruct (decide (i = 0%nat)) as [->|Hi]; [by simplify_eq|]. pose proof (parent_lt i ltac:(lia)) as Hp.
  destruct (lookup_lt_is_Some_2 h (parent i)) as [p Hpv]; [apply lookup_lt_Some in Hv; lia|].
  transitivity p; [by apply (IH (parent i))|]. by apply (Hh i ltac:(lia) ltac:(lia)).
Qed.

Lemma heappop_spec h :
  heap_from 0 h -> h <> [] ->
  exists x h', heappop h = Ok (x, h') /\ h !! 0%nat = Some x /\ heap_from 0 h' /\ h ≡ₚ x :: h' /\ Forall (before x) h.
Proof.
  intros Hh Hne. destruct (exists_last Hne) as (h0 & l & ->). unfold heappop. rewrite last_snoc, removelast_last.
  assert (Hall : forall x, (h0 ++ [l]) !! 0%nat = Some x -> Forall (before x) (h0 ++ [l])).
  { intros x Hx. apply Forall_lookup. intros i v. by apply root_first. }
  destruct h0 as [|r rest].
  { exists l, []. split_and!; [done|done| |done|by apply Hall]. intros i Hi _ p x _ Hx. by rewrite lookup_nil in Hx. }
  destruct (siftup_spec 0 (l :: rest)) as [H1 H2]; [simpl; lia| |].
  { intros i Hi Hs p x Hp Hx. pose proof (parent_lt i Hi). apply (Hh i Hi ltac:(lia)).
    - destruct (parent i) as [|k]; [lia|]. simpl in *. apply lookup_app_l_Some, Hp.
    - destruct i as [|k]; [lia|]. simpl in *. apply lookup_app_l_Some, Hx. }
  exists r, (siftup 0 (l :: rest)). split_and!; [done|done|done| |by apply Hall].
  rewrite H2. simpl. constructor. symmetry. apply Permutation_cons_append.
Qed.

Lemma drain_heap_spec n h :
  length h = n -> heap_from 0 h -> StronglySorted before (drain_heap n h) /\ drain_heap n h ≡ₚ h.
Proof.
  revert h. induction n as [|n IH]; intros h Hn Hh; cbn [drain_heap].
  { apply nil_length_inv in Hn as ->. split; [constructor|done]. }
  destruct (heappop_spec h Hh) as (x & h' & -> & _ & Hh' & Hp & Hall); [by intros ->|].
  destruct (IH h') as [H1 H2]; [|done|].
  { pose proof (Permutation_length Hp) as Hl. simpl in Hl. lia. }
  split; [|by rewrite H2]. constructor; [done|]. rewrite H2. rewrite Hp in Hall. by apply Forall_cons in Hall as [_ ?].
Qed.

(** ** The specification: a list kept in order *)

Record SortedQueue := mkSorted { order : list QRequest }.

Fixpoint insert_sorted (r : QRequest) (l : list QRequest) : list QRequest :=
  match l with
  | [] => [r]
  | y :: l' => if request_lt r y then r :: y :: l' else y :: insert_sorted r l'
  end.

Definition sorted_add (r : QRequest) : M SortedQueue unit := modify (fun q => mkSorted (insert_sorted r q.(order))).

Definition sorted_head (pop : bool) : M SortedQueue QRequest :=
  l <- gets order ;;
  match l with
  | [] => raise IndexError
  | x :: l' => (if pop then modify (fun _ => mkSorted l') else ret tt) ;; ret x
  end.

Definition sorted_remove (r : QRequest) : M SortedQueue unit :=
  l <- gets order ;; l' <- lift (remove_first r l) ;; modify (fun _ => mkSorted l').

#[export] Instance sorted_ops : QueueOps SortedQueue := {
  create_request_queue := mkSorted [];
  add_request := sorted_add;
  pop_request := sorted_head true;
  peek_request := sorted_head false;
  prepend_request := sorted_add;
  prepend_requests := fun rs => for_each rs sorted_add;
  remove_request := sorted_remove;
  remove_requests := fun rs => modify (fun q => mkSorted (without rs q.(order)));
  queue_iter := order;
  queue_len := fun q => length q.(order);
}.

(** Calls of the interface, and what a sequence of them returns or raises. *)
Inductive call :=
  | Add (r : QRequest)
  | Pop
  | Peek
  | Prepend (r : QRequest)
  | PrependAll (rs : list QRequest)
  | Remove (r : QRequest)
  | RemoveAll (rs : list QRequest).

Definition no_value {Q : Type} (m : M Q unit) : M Q (option QRequest) := m ;; ret None.

Definition run_call {Q : Type} `{QueueOps Q} (c : call) : M Q (option QRequest) :=
  match c with
  | Add r => no_value (add_request r)
  | Pop => x <- pop_request ;; ret (Some x)
  | Peek => x <- peek_request ;; ret (Some x)
  | Prepend r => no_value (prepend_request r)
  | PrependAll rs => no_value (prepend_requests rs)
  | Remove r => no_value (remove_request r)
  | RemoveAll rs => no_value (remove_requests rs)
  end.

Fixpoint run_calls {Q : Type} `{QueueOps Q} (cs : list call) (q : Q) : list (res (option QRequest)) * Q :=
  match cs with
  | [] => ([], q)
  | c :: cs' => let '(o, q') := run_call c q in let '(os, q'') := run_calls cs' q' in (o :: os, q'')
  end.

(** ** The heap refines it *)

Definition represents (q : PriorityRequestQueue) (l : SortedQueue) : Prop :=
  heap_from 0 q.(heap) /\ StronglySorted before l.(order) /\ q.(heap) ≡ₚ l.(order).

Lemma insert_sorted_spec r l : StronglySorted before l -> StronglySorted before (insert_sorted r l) /\ insert_sorted r l ≡ₚ r :: l.
Proof.
  induction 1 as [|y l Hl IH Hy]; simpl; [by repeat constructor|]. destruct (request_lt r y) eqn:E.
  - split; [|done]. apply before_lt in E. constructor; [by constructor|]. constructor; [done|].
    eapply Forall_impl; [exact Hy|]. intros z Hz. by transitivity y.
  - destruct IH as [H1 H2]. split; [|rewrite H2; apply Permutation_swap]. constructor; [done|]. rewrite H2. by constructor.
Qed.

Lemma remove_first_spec r l :
  match remove_first r l with
  | Ok l' => l ≡ₚ r :: l' /\ forall R, StronglySorted R l -> StronglySorted R l'
  | Raise e => e = ValueError /\ r ∉ l
  end.
Proof.
  induction l as [|y l IH]; simpl; [split; [done|apply not_elem_of_nil]|].
  destruct (decide (y = r)) as [->|Hne]; [split; [done|]; by intros R [? _]%StronglySorted_inv|].
  destruct (remove_first r l) as [l'|e]; simpl.
  - destruct IH as [Hp Hs]. split; [rewrite Hp; apply Permutation_swap|]. intros R [Hl Hy]%StronglySorted_inv.
    constructor; [by apply Hs|]. rewrite Hp in Hy. by apply Forall_cons in Hy as [_ ?].
  - destruct IH as [-> Hn]. split; [done|]. by apply not_elem_of_cons.
Qed.

Lemma remove_first_perm r l1 l2 :
  l1 ≡ₚ l2 ->
  match remove_first r l1, remove_first r l2 with
  | Ok l1', Ok l2' => l1' ≡ₚ l2'
  | Raise e1, Raise e2 => e1 = e2
  | _, _ => False
  end.
Proof.
  intros Hp. pose proof (remove_first_spec r l1) as H1. pose proof (remove_first_spec r l2) as H2.
  destruct (remove_first r l1) as [l1'|e1], (remove_first r l2) as [l2'|e2].
  - destruct H1 as [H1 _], H2 as [H2 _]. apply (Permutation_cons_inv (a := r)). by rewrite <- H1, <- H2.
  - destruct H2 as [_ H2], H1 as [H1 _]. apply H2. rewrite <- Hp, H1. by left.
  - destruct H1 as [_ H1], H2 as [H2 _]. apply H1. rewrite Hp, H2. by left.
  - destruct H1 as [-> _], H2 as [-> _]. done.
Qed.

Lemma sorted_filter (P : QRequest -> Prop) `{!forall x, Decision (P x)} l :
  StronglySorted before l -> StronglySorted before (filter P l).
Proof.
  induction 1 as [|y l Hl IH Hy]; [constructor|]. rewrite filter_cons. destruct (decide (P y)); [|done]. constructor; [done|].
  apply Forall_forall. intros z Hz. apply list_elem_of_filter in Hz as [_ Hz]. by eapply Forall_forall in Hy.
Qed.

Lemma represents_add r q l : represents q l -> represents (mkPriority (heappush q.(heap) r)) (mkSorted (insert_sorted r l.(order))).
Proof.
  intros (H1 & H2 & H3). destruct (heappush_spec q.(heap) r H1) as [G1 G2]. destruct (insert_sorted_spec r l.(order) H2) as [I1 I2].
  split_and!; [done|done|]. simpl. by rewrite G2, I2, H3.
Qed.

Lemma represents_add_all rs q l :
  represents q l ->
  exists q' l', for_each rs priority_add q = (Ok tt, q') /\ for_each rs sorted_add l = (Ok tt, l') /\ represents q' l'.
Proof.
  revert q l. induction rs as [|r rs IH]; intros q l HR; cbn [for_each]; [by exists q, l|].
  unfold priority_add at 1, sorted_add at 1. run_monad. apply IH. by apply represents_add.
Qed.

(** The front of the list is what the heap pops. *)
Lemma represents_pop q l x l' :
  represents q l -> l.(order) = x :: l' ->
  exists h', heappop q.(heap) = Ok (x, h') /\ head q.(heap) = Some x /\ represents (mkPriority h') (mkSorted l').
Proof.
  intros (H1 & H2 & H3) Hl. rewrite Hl in *. apply StronglySorted_inv in H2 as [H2 Hx].
  destruct (heappop_spec q.(heap) H1) as (y & h' & Hpop & Hy & Hh' & Hp & Hall).
  { intros He. rewrite He in H3. by apply Permutation_nil_l in H3. }
  assert (y = x) as ->.
  { apply (anti_symm before).
    - rewrite H3 in Hall. by apply Forall_cons in Hall as [? _].
    - assert (Hin : y ∈ x :: l') by (rewrite <- H3, Hp; by left). apply elem_of_cons in Hin as [->|Hin]; [done|].
      by eapply Forall_forall in Hx. }
  exists h'. split_and!; [done|destruct q.(heap); naive_solver|]. split_and!; [done|done|]. simpl.
  apply (Permutation_cons_inv (a := x)). by rewrite <- Hp.
Qed.

Lemma represents_nil q l : represents q l -> l.(order) = [] <-> q.(heap) = [].
Proof.
  intros (_ & _ & Hp). split; intros He; rewrite He in Hp; [by apply Permutation_nil_r in Hp|by apply Permutation_nil_l in Hp].
Qed.

Lemma call_refines c q l :
  represents q l ->
  (run_call c q).1 = (run_call c l).1 /\ represents (run_call c q).2 (run_call c l).2.
Proof.
  intros HR. pose proof (represents_nil q l HR) as Hnil. destruct c as [r| | |r|rs|r|rs]; cbn [run_call].
  - split; [done|by apply represents_add].
  - simpl. unfold priority_pop, sorted_head, bind, gets. destruct (order l) as [|x l'] eqn:Hl.
    + rewrite (proj1 Hnil eq_refl). done.
    + destruct (represents_pop q l x l' HR Hl) as (h' & Hpop & _ & HR'). destruct (heap q) as [|y h] eqn:Hq; [by pose proof (proj2 Hnil eq_refl)|].
      unfold lift. rewrite Hpop. done.
  - simpl. unfold priority_peek, sorted_head, bind, gets. destruct (order l) as [|x l'] eqn:Hl.
    + rewrite (proj1 Hnil eq_refl). done.
    + destruct (represents_pop q l x l' HR Hl) as (h' & _ & Hhd & _). destruct (heap q) as [|y h] eqn:Hq; [done|]. simpl in Hhd. by simplify_eq.
  - split; [done|by apply represents_add].
  - destruct (represents_add_all rs q l HR) as (q' & l' & H1 & H2 & HR'). unfold no_value. simpl.
    by rewrite (bind_ok _ _ _ _ _ H1), (bind_ok _ _ _ _ _ H2).
  - destruct HR as (H1 & H2 & H3). pose proof (remove_first_perm r _ _ H3) as Hrm. pose proof (remove_first_spec r (order l)) as Hs.
    unfold no_value. simpl. unfold priority_remove, sorted_remove. unfold bind. simpl. unfold lift.
    destruct (remove_first r (heap q)) as [h'|e1], (remove_first r (order l)) as [l'|e2]; try done.
    + split; [done|]. destruct (heapify_spec h') as [G1 G2]. simpl. split_and!; [done|by apply Hs|]. simpl. by rewrite G2.
    + by subst.
  - split; [done|]. destruct HR as (H1 & H2 & H3). simpl. destruct (heapify_spec (without rs (heap q))) as [G1 G2].
    split_and!; [done|by apply sorted_filter|]. simpl. rewrite G2. unfold without. by rewrite H3.
Qed.

(** C21: Every sequence of queue operations on the binary heap, from the empty queue,
    returns and raises exactly what it does on a list kept sorted by priority, arrival
    time and request id, and iterating over the heap then yields that list. *)
Theorem priority_queue_refines_sorted (cs : list call) :
  let '(outs, q) := run_calls cs (mkPriority []) in
  let '(outs', l) := run_calls cs (mkSorted []) in
  outs = outs' /\ queue_iter q = queue_iter l /\ queue_len q = queue_len l.
Proof.
  assert (Hgen : forall q l, represents q l ->
    (run_calls cs q).1 = (run_calls cs l).1 /\ represents (run_calls cs q).2 (run_calls cs l).2).
  { induction cs as [|c cs IH]; intros q l HR; [done|]. cbn [run_calls]. destruct (call_refines c q l HR) as [H1 H2].
    destruct (run_call c q) as [o q'], (run_call c l) as [o' l']. simpl in H1, H2. subst. specialize (IH q' l' H2).
    destruct (run_calls cs q') as [os q''], (run_calls cs l') as [os' l'']. simpl in *. destruct IH as [-> ?]. done. }
  destruct (Hgen (mkPriority []) (mkSorted [])) as [H1 (H2 & H3 & H4)].
  { split_and!; [|constructor|done]. intros i Hi _ p x _ Hx. simpl in Hx. by rewrite lookup_nil in Hx. }
  destruct (run_calls cs (mkPriority [])) as [os q], (run_calls cs (mkSorted [])) as [os' l]. simpl in *.
  split_and!; [done| |by apply Permutation_length]. unfold priority_iter. destruct (drain_heap_spec _ _ eq_refl H2) as [G1 G2].
  apply (StronglySorted_unique before); [done|done|]. by rewrite G2.
Qed.

(** ** What users of a queue rely on *)

(** The requests of a queue up to order. *)
Class QueueLaws (Q : Type) `{QueueOps Q} := {
  queue_inv : Q -> Prop;
  queue_elems : Q -> list QRequest;
  ql_create : queue_inv create_request_queue /\ queue_elems create_request_queue = [];
  ql_len q : queue_inv q -> queue_len q = length (queue_elems q);
  ql_iter q : queue_inv q -> queue_iter q ≡ₚ queue_elems q;
  ql_add r q : queue_inv q ->
    exists q', add_request r q = (Ok tt, q') /\ queue_inv q' /\ queue_elems q' ≡ₚ r :: queue_elems q;
  ql_prepend r q : queue_inv q ->
    exists q', prepend_request r q = (Ok tt, q') /\ queue_inv q' /\ queue_elems q' ≡ₚ r :: queue_elems q;
  ql_prepend_all rs q : queue_inv q ->
    exists q', prepend_requests rs q = (Ok tt, q') /\ queue_inv q' /\ queue_elems q' ≡ₚ rs ++ queue_elems q;
  ql_front q : queue_inv q -> queue_elems q <> [] ->
    exists r q', peek_request q = (Ok r, q) /\ pop_request q = (Ok r, q') /\ queue_inv q'
      /\ queue_elems q ≡ₚ r :: queue_elems q';
  ql_remove_all rs q : queue_inv q ->
    exists q', remove_requests rs q = (Ok tt, q') /\ queue_inv q' /\ queue_elems q' ≡ₚ without rs (queue_elems q);
}.

#[export] Instance fcfs_laws : QueueLaws FCFSRequestQueue.
Proof.
  refine {| queue_inv := fun _ => True; queue_elems := deque |}; try done.
  - intros r q _. eexists. split_and!; [done|done|]. simpl. symmetry. apply Permutation_cons_append.
  - intros r q _. by eexists.
  - intros rs q _. eexists. split_and!; [done|done|]. simpl. by rewrite reverse_Permutation.
  - intros [[|x l]] _ Hne; [done|]. exists x, (mkFCFS l). by split_and!.
  - intros rs q _. by eexists.
Defined.

Lemma heappush_all_spec rs q :
  heap_from 0 q.(heap) ->
  exists q', for_each rs priority_add q = (Ok tt, q') /\ heap_from 0 q'.(heap) /\ q'.(heap) ≡ₚ rs ++ q.(heap).
Proof.
  revert q. induction rs as [|r rs IH]; intros q Hq; [by exists q|]. cbn [for_each].
  destruct (heappush_spec (heap q) r Hq) as [H1 H2]. destruct (IH (mkPriority (heappush (heap q) r)) H1) as (q' & Hrun & H3 & H4).
  exists q'. split_and!; [exact Hrun|done|]. rewrite H4. simpl. rewrite H2. solve_Permutation.
Qed.

#[export] Instance priority_laws : QueueLaws PriorityRequestQueue.
Proof.
  refine {| queue_inv := fun q => heap_from 0 q.(heap); queue_elems := heap |}; try done.
  - intros q Hq. by apply drain_heap_spec.
  - intros r q Hq. destruct (heappush_spec (heap q) r Hq). by eexists.
  - intros r q Hq. destruct (heappush_spec (heap q) r Hq). by eexists.
  - intros rs q Hq. by apply heappush_all_spec.
  - intros q Hq Hne. destruct (heappop_spec (heap q) Hq Hne) as (x & h' & Hpop & Hx & Hh' & Hp & _).
    exists x, (mkPriority h'). simpl. unfold priority_peek, priority_pop. unfold bind, gets. destruct (heap q) as [|y h]; [done|].
    injection Hx as ->. unfold lift. rewrite Hpop. by split_and!.
  - intros rs q Hq. destruct (heapify_spec (without rs (heap q))) as [H1 H2]. by eexists.
Defined.
