(* ===== verification/Scheduler.v ===== *)
(** * The scheduler

    Models [Scheduler] and [AsyncScheduler] ([vllm/v1/core/sched/scheduler.py] and
    [async_scheduler.py]) with the stop checks of [vllm/v1/core/sched/utils.py]: the
    choice of requests and tokens of a step ([schedule]), the bookkeeping after it, the
    processing of the sampled tokens ([update_from_output]), and adding and finishing
    requests.

    The KV-cache manager and the encoder cache are known by the interface [CacheOps];
    an exception that leaves them is [Callee].  The queues are those of [RequestQueue].
    A request is one object that the queues and dicts refer to: [requests] is the store
    of the objects, keyed by request id, and everything else holds ids.

    Not modelled: connectors to external caches, streaming sessions (no request is
    resumable), routed experts, the reported stop reason, statistics and events, and the
    token payloads that a step repeats for the runner. *)

From S2P Require Import Prelude KVManager RequestQueue.

(** ** Requests *)

(** The grammar of a request with structured output, compiled by another thread. *)
Inductive Grammar :=
  | GrammarCompiling
  | GrammarReady
  | GrammarError.

(** What does not change in the life of a request. *)
Record ReqParams := mkReqParams {
  max_tokens : Z;
  min_tokens : Z;
  eos_token_id : option Z;
  stop_token_ids : list Z;
  repetition_detection : option (Z * Z * Z);     (* max and min pattern size, min count *)
  pooling : bool;
  lora_int_id : option Z;
  encoder_embeds : list Z;                       (* embeddings of each encoder input *)
}.

(** [info] are the attributes the KV-cache manager reads, [key] those that order the
    queues. *)
Record Req := mkReq {
  info : ReqInfo;
  key : QRequest;
  params : ReqParams;
  all_token_ids : list Z;
  output_token_ids : list Z;
  spec_token_ids : list Z;
  num_output_placeholders : Z;
  num_stale_output_tokens : Z;
  drop_stale_output : bool;
  next_decode_eligible_step : Z;
  is_prefill_chunk : bool;
  num_preemptions : Z;
  structured_output : option Grammar;
  prefill_stats : bool;                          (* not yet taken *)
}.

Definition rid (r : Req) : string := r.(info).(request_id).
Definition num_tokens (r : Req) : Z := Z.of_nat (length r.(all_token_ids)).
Definition num_tokens_with_spec (r : Req) : Z := num_tokens r + Z.of_nat (length r.(spec_token_ids)).
Definition num_output_tokens (r : Req) : Z := Z.of_nat (length r.(output_token_ids)).
Definition has_encoder_inputs (r : Req) : bool := negb (length r.(params).(encoder_embeds) =? 0)%nat.

Definition is_finished (st : RequestStatus) : bool :=
  match st with
  | WAITING | WAITING_FOR_STRUCTURED_OUTPUT_GRAMMAR | WAITING_FOR_REMOTE_KVS | WAITING_FOR_STREAMING_REQ
  | RUNNING | PREEMPTED => false
  | _ => true
  end.

(** Attribute assignments. *)
Definition set_info (f : ReqInfo -> ReqInfo) (r : Req) : Req :=
  mkReq (f r.(info)) r.(key) r.(params) r.(all_token_ids) r.(output_token_ids) r.(spec_token_ids)
    r.(num_output_placeholders) r.(num_stale_output_tokens) r.(drop_stale_output) r.(next_decode_eligible_step)
    r.(is_prefill_chunk) r.(num_preemptions) r.(structured_output) r.(prefill_stats).

Definition set_status (st : RequestStatus) : Req -> Req :=
  set_info (fun i => mkReqInfo i.(request_id) st i.(num_prompt_tokens) i.(num_computed_tokens) i.(num_in_flight_tokens)
                       i.(shared_prefix_boundary)).

Definition set_computed (n : Z) : Req -> Req :=
  set_info (fun i => mkReqInfo i.(request_id) i.(status) i.(num_prompt_tokens) n i.(num_in_flight_tokens)
                       i.(shared_prefix_boundary)).

Definition set_in_flight (n : Z) : Req -> Req :=
  set_info (fun i => mkReqInfo i.(request_id) i.(status) i.(num_prompt_tokens) i.(num_computed_tokens) n
                       i.(shared_prefix_boundary)).

Definition set_boundary (n : Z) : Req -> Req :=
  set_info (fun i => mkReqInfo i.(request_id) i.(status) i.(num_prompt_tokens) i.(num_computed_tokens)
                       i.(num_in_flight_tokens) n).

Definition set_spec (l : list Z) (r : Req) : Req :=
  mkReq r.(info) r.(key) r.(params) r.(all_token_ids) r.(output_token_ids) l
    r.(num_output_placeholders) r.(num_stale_output_tokens) r.(drop_stale_output) r.(next_decode_eligible_step)
    r.(is_prefill_chunk) r.(num_preemptions) r.(structured_output) r.(prefill_stats).

Definition set_placeholders (n : Z) (r : Req) : Req :=
  mkReq r.(info) r.(key) r.(params) r.(all_token_ids) r.(output_token_ids) r.(spec_token_ids)
    n r.(num_stale_output_tokens) r.(drop_stale_output) r.(next_decode_eligible_step)
    r.(is_prefill_chunk) r.(num_preemptions) r.(structured_output) r.(prefill_stats).

Definition set_stale (n : Z) (d : bool) (r : Req) : Req :=
  mkReq r.(info) r.(key) r.(params) r.(all_token_ids) r.(output_token_ids) r.(spec_token_ids)
    r.(num_output_placeholders) n d r.(next_decode_eligible_step)
    r.(is_prefill_chunk) r.(num_preemptions) r.(structured_output) r.(prefill_stats).

Definition set_next_step (n : Z) (r : Req) : Req :=
  mkReq r.(info) r.(key) r.(params) r.(all_token_ids) r.(output_token_ids) r.(spec_token_ids)
    r.(num_output_placeholders) r.(num_stale_output_tokens) r.(drop_stale_output) n
    r.(is_prefill_chunk) r.(num_preemptions) r.(structured_output) r.(prefill_stats).

Definition set_prefill_chunk (b : bool) (r : Req) : Req :=
  mkReq r.(info) r.(key) r.(params) r.(all_token_ids) r.(output_token_ids) r.(spec_token_ids)
    r.(num_output_placeholders) r.(num_stale_output_tokens) r.(drop_stale_output) r.(next_decode_eligible_step)
    b r.(num_preemptions) r.(structured_output) r.(prefill_stats).

Definition set_preemptions (n : Z) (r : Req) : Req :=
  mkReq r.(info) r.(key) r.(params) r.(all_token_ids) r.(output_token_ids) r.(spec_token_ids)
    r.(num_output_placeholders) r.(num_stale_output_tokens) r.(drop_stale_output) r.(next_decode_eligible_step)
    r.(is_prefill_chunk) n r.(structured_output) r.(prefill_stats).

Definition take_prefill_stats (r : Req) : Req :=
  mkReq r.(info) r.(key) r.(params) r.(all_token_ids) r.(output_token_ids) r.(spec_token_ids)
    r.(num_output_placeholders) r.(num_stale_output_tokens) r.(drop_stale_output) r.(next_decode_eligible_step)
    r.(is_prefill_chunk) r.(num_preemptions) r.(structured_output) false.

(** [append_output_token_ids]; the hashes of the new blocks are with the KV cache. *)
Definition append_output_token (t : Z) (r : Req) : Req :=
  mkReq r.(info) r.(key) r.(params) (r.(all_token_ids) ++ [t]) (r.(output_token_ids) ++ [t]) r.(spec_token_ids)
    r.(num_output_placeholders) r.(num_stale_output_tokens) r.(drop_stale_output) r.(next_decode_eligible_step)
    r.(is_prefill_chunk) r.(num_preemptions) r.(structured_output) r.(prefill_stats).

(** ** Stop checks *)

(** [token_ids[-i]] for [1 <= i] *)
Definition from_end (l : list Z) (i : Z) : res Z :=
  if Z.of_nat (length l) <? i then Raise IndexError else
  match l !! Z.to_nat (Z.of_nat (length l) - i) with Some x => Ok x | None => Raise IndexError end.

(** The inner loop: [m] of [range(1, count)], from [1 + (count - 1 - k)]. *)
Fixpoint repeats_at (l : list Z) (pattern_len n target : Z) (m : Z) (k : nat) : res bool :=
  match k with
  | O => Ok true
  | S k' =>
      let? x := from_end l (pattern_len * m + n) in
      if negb (x =? target) then Ok false else repeats_at l pattern_len n target (m + 1) k'
  end.

Fixpoint repeats_from (l : list Z) (pattern_len count n : Z) (k : nat) : res bool :=
  match k with
  | O => Ok true
  | S k' =>
      let? target := from_end l n in
      let? ok := repeats_at l pattern_len n target 1 (Z.to_nat (count - 1)) in
      if ok then repeats_from l pattern_len count (n + 1) k' else Ok false
  end.

Definition has_repeating_pattern (l : list Z) (pattern_len count : Z) : res bool :=
  repeats_from l pattern_len count 1 (Z.to_nat pattern_len).

Fixpoint repetition_loop (l : list Z) (count pattern_len : Z) (k : nat) : res bool :=
  match k with
  | O => Ok false
  | S k' =>
      if pattern_len * count >? Z.of_nat (length l) then Ok false else
      let? found := has_repeating_pattern l pattern_len count in
      if found then Ok true else repetition_loop l count (pattern_len + 1) k'
  end.

Definition check_sequence_repetition (l : list Z) (max_size min_size count : Z) : res bool :=
  let min_size := if min_size <=? 0 then 1 else min_size in
  if (max_size <=? 0) || (count <? 2) || (max_size <? min_size) then Ok false else
  repetition_loop l count min_size (Z.to_nat (max_size + 1 - min_size)).

(** [check_stop]: the request with its status, and whether it stopped. *)
Definition check_stop (r : Req) (max_model_len : Z) : res (Req * bool) :=
  let p := r.(params) in
  if p.(pooling) then Raise AssertionError else
  if num_output_tokens r <? p.(min_tokens) then Ok (r, false) else
  match last r.(output_token_ids) with
  | None => Raise IndexError
  | Some last_token_id =>
      if bool_decide (p.(eos_token_id) = Some last_token_id) || bool_decide (last_token_id ∈ p.(stop_token_ids))
      then Ok (set_status FINISHED_STOPPED r, true) else
      if (max_model_len <=? num_tokens r) || (p.(max_tokens) <=? num_output_tokens r)
      then Ok (set_status FINISHED_LENGTH_CAPPED r, true) else
      match p.(repetition_detection) with
      | Some (max_size, min_size, count) =>
          let? found := check_sequence_repetition r.(output_token_ids) max_size min_size count in
          if found then Ok (set_status FINISHED_REPETITION r, true) else Ok (r, false)
      | None => Ok (r, false)
      end
  end.

(** ** Configuration, interface and state *)

Record SchedConfig := mkSchedConfig {
  policy_priority : bool;
  async_scheduling : bool;                       (* [AsyncScheduler] *)
  max_num_running_reqs : Z;
  max_num_scheduled_tokens : Z;
  max_num_batched_tokens : Z;
  max_model_len : Z;
  num_sampled_tokens_per_step : Z;
  long_prefill_token_threshold : Z;
  enable_chunked_prefill : bool;
  scheduler_reserve_full_isl : bool;
  draft_slots : Z;
  num_spec_tokens : Z;
  num_lookahead_tokens : Z;
  num_prefill_lookahead : Z;
  dynamic_sd_lookup : option (list Z);
  max_loras : option Z;                          (* [lora_config] *)
  max_num_encoder_input_tokens : Z;
  is_encoder_decoder : bool;
  is_encoder_only : bool;
  need_mamba_block_aligned_split : bool;
  mamba_block_size : Z;
  mamba_hash_block_size : Z;
  mamba_partial_cache_hit : bool;
  sched_use_eagle : bool;
  use_v2_model_runner : bool;
  pp_size : Z;
}.

(** What the scheduler calls of the KV-cache manager and the encoder cache manager:
    [B] are the blocks handed out, [X] what a step takes along (copies, blocks to be
    zeroed, encoder outputs to be dropped). *)
Class CacheOps (K B X : Type) := {
  op_new_step : M K unit;
  op_empty_blocks : B;
  op_lookup : Req -> M K (B * Z * Z);            (* [get_computed_blocks] *)
  (* [allocate_slots]: new tokens, new computed tokens and their blocks, lookahead,
     encoder tokens, whether the whole sequence must fit, whether requests run *)
  op_allocate : Req -> Z -> Z -> option B -> Z -> Z -> bool -> bool -> M K (option B);
  op_get_blocks : string -> K -> B;
  op_free_blocks : Req -> M K unit;              (* [_free_request_blocks] *)
  op_cache_blocks : Req -> Z -> M K unit;
  op_try_encoder : Req -> Z -> Z -> Z -> M K (list nat * Z * Z * list nat);
  op_allocate_encoder : Req -> nat -> M K unit;
  op_free_encoder : Req -> M K unit;
  op_free_encoder_inputs : Req -> M K unit;      (* [_free_encoder_inputs] *)
  op_collect : list (string * Z) -> M K X;
  op_process : Z -> M K unit;                    (* the start of [update_from_output] *)
  op_reset_prefix_cache : M K bool;
}.

Inductive PauseState :=
  | UNPAUSED
  | PAUSED_NEW
  | PAUSED_ALL.

#[global] Instance PauseState_eq_dec : EqDecision PauseState.
Proof. solve_decision. Defined.

Record State (K Q : Type) := mkState {
  requests : gmap string Req;
  running : list string;
  waiting : Q;
  skipped_waiting : Q;
  caches : K;
  current_step : Z;
  num_waiting_for_streaming_input : Z;
  prefill_capacity_bound : bool;
  pause_state : PauseState;
  inflight_prefills : gset string;
  grammar_compile_error_reqs : gset string;
  finished_req_ids : gset string;
  reset_preempted_req_ids : gset string;
  spec_token_placeholders : list Z;
}.
Arguments mkState {K Q}.
Arguments requests {K Q}.
Arguments running {K Q}.
Arguments waiting {K Q}.
Arguments skipped_waiting {K Q}.
Arguments caches {K Q}.
Arguments current_step {K Q}.
Arguments num_waiting_for_streaming_input {K Q}.
Arguments prefill_capacity_bound {K Q}.
Arguments pause_state {K Q}.
Arguments inflight_prefills {K Q}.
Arguments grammar_compile_error_reqs {K Q}.
Arguments finished_req_ids {K Q}.
Arguments reset_preempted_req_ids {K Q}.
Arguments spec_token_placeholders {K Q}.

(** The local variables of [schedule]; dicts in insertion order. *)
Record Locals (B : Type) := mkLocals {
  scheduled_new_reqs : list string;
  scheduled_resumed_reqs : list string;
  scheduled_running_reqs : list string;
  preempted_reqs : list string;
  req_to_new_blocks : list (string * B);
  num_scheduled_tokens : list (string * Z);
  token_budget : Z;
  input_budget : Z;
  encoder_budget : Z;
  scheduled_encoder_inputs : list (string * list nat);
  scheduled_spec_decode_tokens : list (string * list Z);
  prefill_scheduled : bool;
  req_index : nat;
  scheduled_loras : gset Z;
}.
Arguments mkLocals {B}.
Arguments scheduled_new_reqs {B}.
Arguments scheduled_resumed_reqs {B}.
Arguments scheduled_running_reqs {B}.
Arguments preempted_reqs {B}.
Arguments req_to_new_blocks {B}.
Arguments num_scheduled_tokens {B}.
Arguments token_budget {B}.
Arguments input_budget {B}.
Arguments encoder_budget {B}.
Arguments scheduled_encoder_inputs {B}.
Arguments scheduled_spec_decode_tokens {B}.
Arguments prefill_scheduled {B}.
Arguments req_index {B}.
Arguments scheduled_loras {B}.

(** ** Pure parts of [schedule] *)

(** [_reserve_prefill_lookahead] *)
Definition reserve_prefill_lookahead (cfg : SchedConfig) (r : Req) (num_computed num_new_tokens : Z) : Z :=
  let remaining := num_tokens r - num_computed - num_new_tokens in
  Z.max (if (0 <? remaining) && (remaining <? cfg.(num_prefill_lookahead))
         then num_new_tokens - (cfg.(num_prefill_lookahead) - remaining) else num_new_tokens) 0.

(** [_mamba_block_aligned_split] *)
Definition mamba_block_aligned_split (cfg : SchedConfig) (r : Req) (num_new_tokens num_local num_external : Z) : Z :=
  let start := r.(info).(num_computed_tokens) + num_local + num_external in
  let num_prompt := r.(info).(num_prompt_tokens) in
  let prefill_end := Z.max num_prompt (num_tokens r - 1) in
  if prefill_end <=? start then num_new_tokens else
  let bs := cfg.(mamba_block_size) in
  let last_cache_position := num_tokens r - num_tokens r mod bs in
  let last_cache_position := if cfg.(sched_use_eagle) then Z.max (last_cache_position - bs) 0 else last_cache_position in
  let end_ := start + num_new_tokens in
  let threshold := cfg.(long_prefill_token_threshold) in
  let max_prefill_tokens := if threshold >? 0 then Z.min cfg.(max_num_scheduled_tokens) threshold
                            else cfg.(max_num_scheduled_tokens) in
  let aligned_end := end_ / bs * bs in
  let end_ := if (end_ <? prefill_end) && ((start <? aligned_end) || (bs <=? max_prefill_tokens)) then aligned_end else end_ in
  let tail_boundary := if cfg.(mamba_partial_cache_hit)
                       then num_prompt / cfg.(mamba_hash_block_size) * cfg.(mamba_hash_block_size) else 0 in
  let boundary := r.(info).(shared_prefix_boundary) in
  let stops :=
    [ if start mod bs =? 0 then 0 else (start / bs + 1) * bs;
      last_cache_position;
      if (last_cache_position <? tail_boundary) && (tail_boundary <? num_prompt) then tail_boundary else 0;
      if (start <? boundary) && (boundary <? end_) then start + (boundary - start) / bs * bs else 0 ] in
  let inside := filter (fun s => start < s < end_) stops in
  Z.max (match inside with [] => end_ | s :: ss => foldl Z.min s ss end - start) 0.

(** [max(self.running, key=lambda r: (r.priority, r.arrival_time))]: the first of the
    largest. *)
Definition key_lt (a b : Req) : bool :=
  (a.(key).(priority) <? b.(key).(priority))
  || ((a.(key).(priority) =? b.(key).(priority)) && (a.(key).(arrival_time) <? b.(key).(arrival_time))).

Definition lowest_priority (rs : list Req) : option Req :=
  match rs with
  | [] => None
  | r :: rs' => Some (foldl (fun best x => if key_lt best x then x else best) r rs')
  end.

Definition is_blocked_waiting_status (st : RequestStatus) : bool :=
  match st with
  | WAITING_FOR_STRUCTURED_OUTPUT_GRAMMAR | WAITING_FOR_REMOTE_KVS | WAITING_FOR_STREAMING_REQ => true
  | _ => false
  end.

Section scheduler.
Context {K B X Q : Type} `{!CacheOps K B X} `{!QueueOps Q}.
Variable cfg : SchedConfig.

Notation St := (State K Q).
Notation Lo := (Locals B).
Notation stM := (M St).
Notation M2 := (M (St * Lo)).

(** ** Access to the state *)

Definition set_requests (f : gmap string Req -> gmap string Req) (s : St) : St :=
  mkState (f s.(requests)) s.(running) s.(waiting) s.(skipped_waiting) s.(caches) s.(current_step)
    s.(num_waiting_for_streaming_input) s.(prefill_capacity_bound) s.(pause_state) s.(inflight_prefills)
    s.(grammar_compile_error_reqs) s.(finished_req_ids) s.(reset_preempted_req_ids) s.(spec_token_placeholders).

Definition set_running (l : list string) (s : St) : St :=
  mkState s.(requests) l s.(waiting) s.(skipped_waiting) s.(caches) s.(current_step)
    s.(num_waiting_for_streaming_input) s.(prefill_capacity_bound) s.(pause_state) s.(inflight_prefills)
    s.(grammar_compile_error_reqs) s.(finished_req_ids) s.(reset_preempted_req_ids) s.(spec_token_placeholders).

Definition set_queues (w sk : Q) (s : St) : St :=
  mkState s.(requests) s.(running) w sk s.(caches) s.(current_step)
    s.(num_waiting_for_streaming_input) s.(prefill_capacity_bound) s.(pause_state) s.(inflight_prefills)
    s.(grammar_compile_error_reqs) s.(finished_req_ids) s.(reset_preempted_req_ids) s.(spec_token_placeholders).

Definition set_caches (k : K) (s : St) : St :=
  mkState s.(requests) s.(running) s.(waiting) s.(skipped_waiting) k s.(current_step)
    s.(num_waiting_for_streaming_input) s.(prefill_capacity_bound) s.(pause_state) s.(inflight_prefills)
    s.(grammar_compile_error_reqs) s.(finished_req_ids) s.(reset_preempted_req_ids) s.(spec_token_placeholders).

Definition set_current_step (n : Z) (s : St) : St :=
  mkState s.(requests) s.(running) s.(waiting) s.(skipped_waiting) s.(caches) n
    s.(num_waiting_for_streaming_input) s.(prefill_capacity_bound) s.(pause_state) s.(inflight_prefills)
    s.(grammar_compile_error_reqs) s.(finished_req_ids) s.(reset_preempted_req_ids) s.(spec_token_placeholders).

Definition set_capacity_bound (b : bool) (s : St) : St :=
  mkState s.(requests) s.(running) s.(waiting) s.(skipped_waiting) s.(caches) s.(current_step)
    s.(num_waiting_for_streaming_input) b s.(pause_state) s.(inflight_prefills)
    s.(grammar_compile_error_reqs) s.(finished_req_ids) s.(reset_preempted_req_ids) s.(spec_token_placeholders).

Definition set_inflight (f : gset string -> gset string) (s : St) : St :=
  mkState s.(requests) s.(running) s.(waiting) s.(skipped_waiting) s.(caches) s.(current_step)
    s.(num_waiting_for_streaming_input) s.(prefill_capacity_bound) s.(pause_state) (f s.(inflight_prefills))
    s.(grammar_compile_error_reqs) s.(finished_req_ids) s.(reset_preempted_req_ids) s.(spec_token_placeholders).

(** The id sets: grammar errors, finished and preempted requests. *)
Definition set_ids (ge fin pre : gset string) (s : St) : St :=
  mkState s.(requests) s.(running) s.(waiting) s.(skipped_waiting) s.(caches) s.(current_step)
    s.(num_waiting_for_streaming_input) s.(prefill_capacity_bound) s.(pause_state) s.(inflight_prefills)
    ge fin pre s.(spec_token_placeholders).

Definition set_spec_placeholders (l : list Z) (s : St) : St :=
  mkState s.(requests) s.(running) s.(waiting) s.(skipped_waiting) s.(caches) s.(current_step)
    s.(num_waiting_for_streaming_input) s.(prefill_capacity_bound) s.(pause_state) s.(inflight_prefills)
    s.(grammar_compile_error_reqs) s.(finished_req_ids) s.(reset_preempted_req_ids) l.

Definition get_req (i : string) : stM Req :=
  rs <- gets requests ;; match rs !! i with Some r => ret r | None => raise KeyError end.

(** An assignment to attributes of the request object. *)
Definition upd_req (i : string) (f : Req -> Req) : stM unit := modify (set_requests (alter f i)).

(** A call of the caches. *)
Definition call {A : Type} (op : M K A) : stM A :=
  fun s => match op s.(caches) with
           | (Ok a, k) => (Ok a, set_caches k s)
           | (Raise e, k) => (Raise (Callee e), set_caches k s)
           end.

Definition on_waiting {A : Type} (op : M Q A) : stM A := zoom waiting (fun q s => set_queues q s.(skipped_waiting) s) op.
Definition on_skipped {A : Type} (op : M Q A) : stM A := zoom skipped_waiting (fun q s => set_queues s.(waiting) q s) op.

Definition on_st {A : Type} (m : stM A) : M2 A := zoom fst (fun s x => (s, x.2)) m.
Definition loc {A : Type} (f : Lo -> A) : M2 A := gets (fun x => f x.2).
Definition upd_loc (f : Lo -> Lo) : M2 unit := modify (fun x => (x.1, f x.2)).

(** ** Preemption *)

(** [_preempt_request] *)
Definition preempt_request (i : string) (drop : bool) : stM unit :=
  r <- get_req i ;;
  check (bool_decide (r.(info).(status) = RUNNING)) AssertionError ;;
  call (op_free_blocks r) ;;
  call (op_free_encoder r) ;;
  modify (set_inflight (fun x => x ∖ {[i]})) ;;
  upd_req i (fun r =>
    set_preemptions (r.(num_preemptions) + 1)
      (set_placeholders 0
        (set_stale r.(info).(num_in_flight_tokens) (drop || (r.(drop_stale_output) && (r.(num_stale_output_tokens) >? 0)))
          (set_spec [] (set_computed 0 (set_status PREEMPTED r)))))) ;;
  r <- get_req i ;;
  on_waiting (prepend_request r.(key)) ;;
  modify (fun s => set_ids s.(grammar_compile_error_reqs) s.(finished_req_ids) ({[i]} ∪ s.(reset_preempted_req_ids)) s).

(** ** Running requests *)

(** [list.remove] *)
Fixpoint remove_id (i : string) (l : list string) : list string :=
  match l with
  | [] => []
  | x :: l' => if decide (x = i) then l' else x :: remove_id i l'
  end.

(** The victim leaves [running]; its tokens of this step are given back. *)
Definition unschedule (i : string) (restored embeds : Z) (l : Lo) : Lo :=
  mkLocals l.(scheduled_new_reqs) l.(scheduled_resumed_reqs) (remove_id i l.(scheduled_running_reqs))
    l.(preempted_reqs) (dict_pop l.(req_to_new_blocks) i) (dict_pop l.(num_scheduled_tokens) i)
    (l.(token_budget) + restored) (l.(input_budget) + (restored + cfg.(draft_slots))) (l.(encoder_budget) + embeds)
    (dict_pop l.(scheduled_encoder_inputs) i) (dict_pop l.(scheduled_spec_decode_tokens) i)
    l.(prefill_scheduled) l.(req_index) l.(scheduled_loras).

Definition set_index (n : nat) (l : Lo) : Lo :=
  mkLocals l.(scheduled_new_reqs) l.(scheduled_resumed_reqs) l.(scheduled_running_reqs) l.(preempted_reqs)
    l.(req_to_new_blocks) l.(num_scheduled_tokens) l.(token_budget) l.(input_budget) l.(encoder_budget)
    l.(scheduled_encoder_inputs) l.(scheduled_spec_decode_tokens) l.(prefill_scheduled) n l.(scheduled_loras).

Definition add_preempted (i : string) (l : Lo) : Lo :=
  mkLocals l.(scheduled_new_reqs) l.(scheduled_resumed_reqs) l.(scheduled_running_reqs) (l.(preempted_reqs) ++ [i])
    l.(req_to_new_blocks) l.(num_scheduled_tokens) l.(token_budget) l.(input_budget) l.(encoder_budget)
    l.(scheduled_encoder_inputs) l.(scheduled_spec_decode_tokens) l.(prefill_scheduled) l.(req_index) l.(scheduled_loras).

(** [sum(preempted_req.get_num_encoder_embeds(i) for i in ...)] *)
Definition sum_embeds (r : Req) (inputs : list nat) : res Z :=
  let? ns := rmap (fun i => match r.(params).(encoder_embeds) !! i with Some n => Ok n | None => Raise AssertionError end)
               inputs in
  Ok (foldr Z.add 0 ns).

(** The position of [i], which is in the list. *)
Fixpoint index_of (i : string) (l : list string) : nat :=
  match l with
  | [] => O
  | x :: l' => if decide (x = i) then O else S (index_of i l')
  end.

(** The request to preempt, removed from [running]. *)
Definition take_victim : M2 string :=
  run <- gets (fun x => x.1.(running)) ;;
  if cfg.(policy_priority) then
    rs <- on_st (map_m get_req run) ;;
    match lowest_priority rs with
    | None => raise ValueError
    | Some v =>
        let i := rid v in
        let victim_index := index_of i run in
        on_st (modify (set_running (delete victim_index run))) ;;
        idx <- loc req_index ;;
        (if (victim_index <? idx)%nat then upd_loc (set_index (idx - 1)) else ret tt) ;;
        l <- loc id ;;
        (if bool_decide (i ∈ l.(scheduled_running_reqs)) then
           match dict_get l.(num_scheduled_tokens) i, dict_get l.(req_to_new_blocks) i with
           | Some restored, Some _ =>
               embeds <- lift (sum_embeds v (default [] (dict_get l.(scheduled_encoder_inputs) i))) ;;
               upd_loc (unschedule i restored embeds)
           | _, _ => raise KeyError
           end
         else ret tt) ;;
        ret i
    end
  else
    match last run with
    | None => raise IndexError
    | Some i => on_st (modify (set_running (removelast run))) ;; ret i
    end.

(** [while True]: [None] inside when the request itself was preempted; [fuel] bounds the
    preemptions. *)
Fixpoint allocate_or_preempt (fuel : nat) (i : string) (num_new_tokens : Z) : M2 (option B) :=
  match fuel with
  | O => raise StopIteration
  | S fuel' =>
      r <- on_st (get_req i) ;;
      new_blocks <- on_st (call (op_allocate r num_new_tokens 0 None cfg.(num_lookahead_tokens) 0 false true)) ;;
      match new_blocks with
      | Some b => ret (Some b)
      | None =>
          v <- take_victim ;;
          on_st (preempt_request v false) ;;
          upd_loc (add_preempted v) ;;
          if bool_decide (v = i) then ret None else allocate_or_preempt fuel' i num_new_tokens
      end
  end.

(** The number of tokens a running request gets, before the encoder has its say. *)
Definition running_new_tokens (r : Req) (l : Lo) : Z :=
  let n := num_tokens_with_spec r + r.(num_output_placeholders) - r.(info).(num_computed_tokens) in
  let t := cfg.(long_prefill_token_threshold) in
  let n := if (0 <? t) && (t <? n) then t else n in
  let n := Z.min n (Z.min l.(token_budget) (l.(input_budget) - cfg.(draft_slots))) in
  let n := Z.min n (cfg.(max_model_len) - r.(info).(num_computed_tokens) - cfg.(num_sampled_tokens_per_step)) in
  if cfg.(need_mamba_block_aligned_split) then mamba_block_aligned_split cfg r n 0 0 else n.

(** The skips at the head of the loop. *)
Definition skip_running (step : Z) (defer_prefills : bool) (r : Req) : bool :=
  ((r.(num_output_placeholders) >? 0)
   && (r.(info).(num_prompt_tokens) + r.(params).(max_tokens)
       <=? r.(info).(num_computed_tokens) + 2 - r.(num_output_placeholders)))
  || (step <? r.(next_decode_eligible_step))
  || (defer_prefills && r.(is_prefill_chunk)).

(** [_try_schedule_encoder_inputs] when the request has encoder inputs. *)
Definition plan_encoder (r : Req) (num_computed n : Z) : M2 (list nat * Z * Z * list nat) :=
  budget <- loc encoder_budget ;;
  if has_encoder_inputs r then on_st (call (op_try_encoder r num_computed n budget)) else ret ([], n, budget, []).

(** The dicts of a scheduled request. *)
Definition schedule_running_req (r : Req) (b : B) (n : Z) (l : Lo) : Lo :=
  mkLocals l.(scheduled_new_reqs) l.(scheduled_resumed_reqs) (l.(scheduled_running_reqs) ++ [rid r]) l.(preempted_reqs)
    (dict_set l.(req_to_new_blocks) (rid r) b) (dict_set l.(num_scheduled_tokens) (rid r) n)
    (l.(token_budget) - n) (l.(input_budget) - (n + cfg.(draft_slots))) l.(encoder_budget)
    l.(scheduled_encoder_inputs) l.(scheduled_spec_decode_tokens) (l.(prefill_scheduled) || r.(is_prefill_chunk))
    (S l.(req_index)) l.(scheduled_loras).

Definition set_spec_decode (i : string) (toks : list Z) (l : Lo) : Lo :=
  mkLocals l.(scheduled_new_reqs) l.(scheduled_resumed_reqs) l.(scheduled_running_reqs) l.(preempted_reqs)
    l.(req_to_new_blocks) l.(num_scheduled_tokens) l.(token_budget) l.(input_budget) l.(encoder_budget)
    l.(scheduled_encoder_inputs) (dict_set l.(scheduled_spec_decode_tokens) i toks) l.(prefill_scheduled) l.(req_index)
    l.(scheduled_loras).

Definition set_encoder (i : string) (inputs : list nat) (budget : Z) (l : Lo) : Lo :=
  mkLocals l.(scheduled_new_reqs) l.(scheduled_resumed_reqs) l.(scheduled_running_reqs) l.(preempted_reqs)
    l.(req_to_new_blocks) l.(num_scheduled_tokens) l.(token_budget) l.(input_budget) budget
    (dict_set l.(scheduled_encoder_inputs) i inputs) l.(scheduled_spec_decode_tokens) l.(prefill_scheduled) l.(req_index)
    l.(scheduled_loras).

(** The encoder inputs of a scheduled request are allocated. *)
Definition commit_encoder (r : Req) (inputs : list nat) (budget : Z) (external : list nat) : M2 unit :=
  (if bool_decide (inputs = []) then ret tt else
   upd_loc (set_encoder (rid r) inputs budget) ;;
   on_st (for_each inputs (fun j => call (op_allocate_encoder r j)))) ;;
  on_st (for_each external (fun j => call (op_allocate_encoder r j))).

(** The draft tokens that fit the scheduled ones; the request gives its drafts up. *)
Definition commit_spec (r : Req) (n : Z) : M2 unit :=
  if bool_decide (r.(spec_token_ids) = []) then ret tt else
  let k := n + r.(info).(num_computed_tokens) - num_tokens r - r.(num_output_placeholders) in
  (if k >? 0 then upd_loc (set_spec_decode (rid r) (take (Z.to_nat k) r.(spec_token_ids))) else ret tt) ;;
  on_st (upd_req (rid r) (set_spec [])).

(** [while req_index < len(self.running) and token_budget > 0]; an iteration moves the
    index on or takes requests out of [running]. *)
Fixpoint schedule_running (fuel : nat) (defer_prefills : bool) : M2 unit :=
  match fuel with
  | O => raise StopIteration
  | S fuel' =>
      x <- gets id ;;
      let '(s, l) := x in
      match s.(running) !! l.(req_index) with
      | None => ret tt
      | Some i =>
          if negb (l.(token_budget) >? 0) then ret tt else
          r <- on_st (get_req i) ;;
          if l.(input_budget) <=? cfg.(draft_slots) then ret tt else
          if skip_running s.(current_step) defer_prefills r
          then upd_loc (set_index (S l.(req_index))) ;; schedule_running fuel' defer_prefills else
          plan <- plan_encoder r r.(info).(num_computed_tokens) (running_new_tokens r l) ;;
          let '(inputs, n, budget, external) := plan in
          let n := reserve_prefill_lookahead cfg r r.(info).(num_computed_tokens) n in
          if n =? 0 then upd_loc (set_index (S l.(req_index))) ;; schedule_running fuel' defer_prefills else
          new_blocks <- allocate_or_preempt (S (length s.(running))) i n ;;
          match new_blocks with
          | None => ret tt
          | Some b =>
              upd_loc (schedule_running_req r b n) ;;
              commit_spec r n ;;
              commit_encoder r inputs budget external ;;
              schedule_running fuel' defer_prefills
          end
      end
  end.

(** ** Waiting requests *)

(** [_select_waiting_queue_for_scheduling]: whether the skipped queue is next; one of
    them is not empty. *)
Definition select_skipped : M2 bool :=
  s <- gets fst ;;
  if negb cfg.(policy_priority) then ret (negb (queue_len s.(skipped_waiting) =? 0)%nat) else
  if negb (queue_len s.(waiting) =? 0)%nat && negb (queue_len s.(skipped_waiting) =? 0)%nat then
    w <- on_st (on_waiting peek_request) ;;
    sk <- on_st (on_skipped peek_request) ;;
    ret (negb (request_lt w sk))
  else ret (queue_len s.(waiting) =? 0)%nat.

Definition on_queue {A : Type} (skipped : bool) (op : M Q A) : M2 A :=
  on_st (if skipped then on_skipped op else on_waiting op).

(** [_try_promote_blocked_waiting_request]; without connector no request waits for
    remote KV, and a paused session has no queued input. *)
Definition try_promote (i : string) : stM bool :=
  r <- get_req i ;;
  match r.(info).(status) with
  | WAITING_FOR_STRUCTURED_OUTPUT_GRAMMAR =>
      match r.(structured_output) with
      | None | Some GrammarCompiling => ret false
      | Some GrammarError =>
          modify (fun s => set_ids ({[i]} ∪ s.(grammar_compile_error_reqs)) s.(finished_req_ids)
                             s.(reset_preempted_req_ids) s) ;;
          ret false
      | Some GrammarReady => upd_req i (set_status WAITING) ;; ret true
      end
  | WAITING_FOR_REMOTE_KVS | WAITING_FOR_STREAMING_REQ => ret false
  | _ => raise AssertionError
  end.

(** Whether a waiting request has to wait for a later step. *)
Definition must_skip (i : string) : M2 bool :=
  r <- on_st (get_req i) ;;
  promoted <- (if is_blocked_waiting_status r.(info).(status) then on_st (try_promote i) else ret true) ;;
  if negb promoted then ret true else
  if (r.(num_stale_output_tokens) >? 0) && negb r.(drop_stale_output) then ret true else
  loras <- loc scheduled_loras ;;
  ret (match cfg.(max_loras), r.(params).(lora_int_id) with
       | Some m, Some lora => (Z.of_nat (size loras) =? m) && negb (bool_decide (lora ∈ loras))
       | _, _ => false
       end).

(** How a waiting request is to be scheduled: [None] ends the loop. *)
Record Admit := mkAdmit {
  adm_blocks : B;
  adm_local : Z;
  adm_computed : Z;
  adm_new : Z;
  adm_pad : bool;
  adm_inputs : list nat;
  adm_encoder_budget : Z;
  adm_external : list nat;
}.

(** The cached tokens of a waiting request, with their blocks. *)
Definition lookup_cached (i : string) : M2 (B * Z * Z) :=
  r <- on_st (get_req i) ;;
  if r.(info).(num_computed_tokens) =? 0 then
    x <- on_st (call (op_lookup r)) ;;
    let '(blocks, num_local, boundary) := x in
    on_st (upd_req i (set_boundary boundary)) ;;
    check (num_local <=? num_tokens r) AssertionError ;;
    (if r.(prefill_stats) && (r.(num_preemptions) <=? 0)
     then check (num_local <=? r.(info).(num_prompt_tokens)) AssertionError else ret tt) ;;
    ret (blocks, num_local, num_local)
  else ret (op_empty_blocks, 0, r.(info).(num_computed_tokens)).

(** The number of tokens of a waiting request before Mamba and the encoder, and whether
    it is padded; [None] ends the loop. *)
Definition waiting_new_tokens (r : Req) (num_computed : Z) (l : Lo) : option (Z * bool) :=
  let budget := Z.min l.(token_budget) (l.(input_budget) - cfg.(draft_slots)) in
  let n := num_tokens r - num_computed in
  let pad := (cfg.(num_spec_tokens) >? 0) && bool_decide (cfg.(dynamic_sd_lookup) = None)
             && (cfg.(num_sampled_tokens_per_step) >? 0) && (n =? 1)
             && (negb (bool_decide (l.(scheduled_running_reqs) = [])) && negb l.(prefill_scheduled)) in
  let n := if pad then 1 + cfg.(num_spec_tokens) else n in
  if pad && ((budget <? n) || (cfg.(max_model_len) <? num_computed + n)) then None else
  let t := cfg.(long_prefill_token_threshold) in
  let n := if (0 <? t) && (t <? n) then t else n in
  if negb cfg.(enable_chunked_prefill) && (budget <? n) then None else Some (Z.min n budget, pad).

(** The plan for the request at the head of the queue. *)
Definition plan_waiting (i : string) (defer_prefills : bool) : M2 (option Admit) :=
  x <- lookup_cached i ;;
  let '(blocks, num_local, num_computed) := x in
  r <- on_st (get_req i) ;;
  l <- loc id ;;
  if defer_prefills && (num_computed <? num_tokens r - 1) then ret None else
  match waiting_new_tokens r num_computed l with
  | None => ret None
  | Some (n, pad) =>
      check (0 <? n) AssertionError ;;
      let n := if cfg.(need_mamba_block_aligned_split) then mamba_block_aligned_split cfg r n num_local 0 else n in
      if cfg.(need_mamba_block_aligned_split) && (n =? 0) then ret None else
      plan <- plan_encoder r num_computed n ;;
      let '(inputs, n, budget, external) := plan in
      let n := reserve_prefill_lookahead cfg r num_computed n in
      if n =? 0 then ret None
      else ret (Some (mkAdmit blocks num_local num_computed n pad inputs budget external))
  end.

Definition schedule_waiting_req (r : Req) (b : B) (n : Z) (l : Lo) : Lo :=
  mkLocals
    (if bool_decide (r.(info).(status) = WAITING) then l.(scheduled_new_reqs) ++ [rid r] else l.(scheduled_new_reqs))
    (if bool_decide (r.(info).(status) = WAITING) then l.(scheduled_resumed_reqs) else l.(scheduled_resumed_reqs) ++ [rid r])
    l.(scheduled_running_reqs) l.(preempted_reqs)
    (dict_set l.(req_to_new_blocks) (rid r) b) (dict_set l.(num_scheduled_tokens) (rid r) n)
    (l.(token_budget) - n) (l.(input_budget) - (n + cfg.(draft_slots))) l.(encoder_budget)
    l.(scheduled_encoder_inputs) l.(scheduled_spec_decode_tokens) l.(prefill_scheduled) l.(req_index)
    (match cfg.(max_loras), r.(params).(lora_int_id) with
     | Some _, Some lora => {[lora]} ∪ l.(scheduled_loras)
     | _, _ => l.(scheduled_loras)
     end).

(** From the pop of the admitted request to the end of its iteration. *)
Definition admit_request (skipped : bool) (a : Admit) : M2 unit :=
  q <- on_queue skipped pop_request ;;
  let i := q.(qrequest_id) in
  r <- on_st (get_req i) ;;
  on_st (modify (fun s => set_running (s.(running) ++ [i]) s)) ;;
  check (bool_decide (r.(info).(status) = WAITING) || bool_decide (r.(info).(status) = PREEMPTED)) RuntimeError ;;
  b <- gets (fun x => op_get_blocks i x.1.(caches)) ;;
  upd_loc (schedule_waiting_req r b a.(adm_new)) ;;
  on_st (upd_req i (fun r => set_computed a.(adm_computed) (set_status RUNNING r))) ;;
  (if a.(adm_pad) then upd_loc (set_spec_decode i (replicate (Z.to_nat cfg.(num_spec_tokens)) (-1))) else ret tt) ;;
  (if a.(adm_computed) + a.(adm_new) <? num_tokens r then on_st (modify (set_inflight (fun x => {[i]} ∪ x))) else ret tt) ;;
  commit_encoder r a.(adm_inputs) a.(adm_encoder_budget) a.(adm_external).

(** [while (self.waiting or self.skipped_waiting) and token_budget > 0]; [step_skipped]
    is the queue of the requests passed over, and each iteration takes a request out of
    a queue or ends the loop. *)
Fixpoint schedule_waiting (fuel : nat) (defer_prefills : bool) (step_skipped : Q) : M2 Q :=
  match fuel with
  | O => raise StopIteration
  | S fuel' =>
      x <- gets id ;;
      let '(s, l) := x in
      if (queue_len s.(waiting) =? 0)%nat && (queue_len s.(skipped_waiting) =? 0)%nat then ret step_skipped else
      if negb (l.(token_budget) >? 0) || (l.(input_budget) <=? cfg.(draft_slots)) then ret step_skipped else
      if cfg.(max_num_running_reqs) <=? Z.of_nat (length s.(running)) + s.(num_waiting_for_streaming_input)
      then ret step_skipped else
      skipped <- select_skipped ;;
      q <- on_queue skipped peek_request ;;
      let i := q.(qrequest_id) in
      skip <- must_skip i ;;
      if (skip : bool) then
        q <- on_queue skipped pop_request ;;
        match prepend_request q step_skipped with
        | (Ok _, ss) => schedule_waiting fuel' defer_prefills ss
        | (Raise e, _) => raise e
        end
      else
        plan <- plan_waiting i defer_prefills ;;
        match plan with
        | None => ret step_skipped
        | Some a =>
            r <- on_st (get_req i) ;;
            enc_tokens <- (if cfg.(is_encoder_decoder) && has_encoder_inputs r
                           then lift (sum_embeds r a.(adm_inputs)) else ret 0) ;;
            new_blocks <- on_st (call (op_allocate r a.(adm_new) a.(adm_local) (Some a.(adm_blocks)) cfg.(num_lookahead_tokens)
                                    enc_tokens cfg.(scheduler_reserve_full_isl) (negb (bool_decide (s.(running) = []))))) ;;
            match new_blocks with
            | None => (if has_encoder_inputs r then on_st (call (op_free_encoder r)) else ret tt) ;; ret step_skipped
            | Some _ => admit_request skipped a ;; schedule_waiting fuel' defer_prefills step_skipped
            end
        end
  end.

(** ** [schedule] *)

(** [SchedulerOutput], as far as the scheduler and the runner use it. *)
Record Output := mkOutput {
  out_new_reqs : list (string * B);
  out_cached_reqs : list (string * B * Z * Z);   (* id, blocks, computed and output tokens *)
  out_resumed_ids : list string;
  out_num_scheduled_tokens : list (string * Z);
  out_total : Z;
  out_spec_decode_tokens : list (string * list Z);
  out_encoder_inputs : list (string * list nat);
  out_preempted : gset string;
  out_finished : gset string;
  out_extra : X;
  out_num_spec_tokens : Z;
}.

Definition new_blocks_of (l : Lo) (i : string) : res B :=
  match dict_get l.(req_to_new_blocks) i with Some b => Ok b | None => Raise KeyError end.

(** [_make_cached_request_data] *)
Definition make_cached_request_data (l : Lo) (reqs : list string) : stM (list (string * B * Z * Z)) :=
  map_m (fun i =>
    r <- get_req i ;;
    b <- lift (new_blocks_of l i) ;;
    ret (i, b, r.(info).(num_computed_tokens), num_output_tokens r + r.(num_output_placeholders))) reqs.

(** [_update_after_schedule] of the base class. *)
Definition update_after_schedule (scheduled : list (string * Z)) : stM unit :=
  for_each scheduled (fun '(i, n) =>
    r <- get_req i ;;
    let computed := r.(info).(num_computed_tokens) + n in
    let chunk := computed <? num_tokens r + r.(num_output_placeholders) in
    upd_req i (fun r => set_prefill_chunk chunk
      (set_in_flight (r.(info).(num_in_flight_tokens) + n) (set_computed computed r))) ;;
    if chunk then ret tt else modify (set_inflight (fun x => x ∖ {[i]}))) ;;
  modify (fun s => set_ids s.(grammar_compile_error_reqs) ∅ ∅ s).

(** What [AsyncScheduler] adds. *)
Definition async_update_after_schedule (out : Output) : stM unit :=
  modify (set_spec_placeholders (replicate (Z.to_nat out.(out_num_spec_tokens)) (-1))) ;;
  for_each out.(out_num_scheduled_tokens) (fun '(i, _) =>
    r <- get_req i ;;
    if r.(is_prefill_chunk) then ret tt else
    s <- gets id ;;
    let cur_num_spec_tokens := Z.of_nat (length (default [] (dict_get out.(out_spec_decode_tokens) i))) in
    upd_req i (fun r =>
      set_spec s.(spec_token_placeholders)
        (set_placeholders (r.(num_output_placeholders) + (cfg.(num_sampled_tokens_per_step) + cur_num_spec_tokens)) r)) ;;
    if cfg.(use_v2_model_runner) then upd_req i (set_next_step (s.(current_step) + cfg.(pp_size))) else ret tt).

Definition lora_set (rs : list Req) : gset Z :=
  list_to_set (filter (fun n => 0 < n) (omap (fun r => r.(params).(lora_int_id)) rs)).

(** The locals at the start. *)
Definition init_locals (paused : bool) : Lo :=
  mkLocals [] [] [] [] [] [] (if paused then 0 else cfg.(max_num_scheduled_tokens)) cfg.(max_num_batched_tokens)
    cfg.(max_num_encoder_input_tokens) [] [] false O ∅.

Definition set_loras (x : gset Z) (l : Lo) : Lo :=
  mkLocals l.(scheduled_new_reqs) l.(scheduled_resumed_reqs) l.(scheduled_running_reqs) l.(preempted_reqs)
    l.(req_to_new_blocks) l.(num_scheduled_tokens) l.(token_budget) l.(input_budget) l.(encoder_budget)
    l.(scheduled_encoder_inputs) l.(scheduled_spec_decode_tokens) l.(prefill_scheduled) l.(req_index) x.

(** The adapters of the scheduled running requests. *)
Definition record_loras : M2 unit :=
  match cfg.(max_loras) with
  | None => ret tt
  | Some m =>
      ids <- loc scheduled_running_reqs ;;
      rs <- on_st (map_m get_req ids) ;;
      check (Z.of_nat (size (lora_set rs)) <=? m) AssertionError ;;
      upd_loc (set_loras (lora_set rs))
  end.

(** The pass over the waiting requests. *)
Definition waiting_phase (defer_prefills : bool) : M2 unit :=
  x <- gets id ;;
  let '(s, l) := x in
  if bool_decide (l.(preempted_reqs) = []) && bool_decide (s.(pause_state) = UNPAUSED) then
    step_skipped <- schedule_waiting (S (queue_len s.(waiting) + queue_len s.(skipped_waiting))) defer_prefills
                      create_request_queue ;;
    (if (queue_len step_skipped =? 0)%nat then ret tt
     else on_st (on_skipped (prepend_requests (queue_iter step_skipped)))) ;;
    if defer_prefills then ret tt
    else on_st (modify (fun s => set_capacity_bound (negb (queue_len s.(waiting) =? 0)%nat) s))
  else ret tt.

(** The assertions after the two passes. *)
Definition check_constraints : M2 unit :=
  x <- gets id ;;
  let '(s, l) := x in
  check (foldr Z.add 0 l.(num_scheduled_tokens).*2 <=? cfg.(max_num_scheduled_tokens)) AssertionError ;;
  check (0 <=? l.(token_budget)) AssertionError ;;
  check (0 <=? l.(input_budget)) AssertionError ;;
  check (Z.of_nat (length s.(running)) <=? cfg.(max_num_running_reqs)) AssertionError ;;
  check ((length l.(scheduled_new_reqs) + length l.(scheduled_resumed_reqs) + length l.(scheduled_running_reqs)
          <=? length s.(running))%nat) AssertionError.

(** The choice of requests and tokens. *)
Definition choose (throttle_prefills : bool) : M2 unit :=
  s <- gets fst ;;
  rs <- on_st (map_m get_req s.(running)) ;;
  let defer_prefills := (throttle_prefills && negb s.(prefill_capacity_bound)) && existsb (fun r => negb r.(is_prefill_chunk)) rs in
  schedule_running (S (length s.(running))) defer_prefills ;;
  record_loras ;;
  waiting_phase defer_prefills ;;
  check_constraints.

(** The output is built and the counters advance. *)
Definition finish_step (l : Lo) : stM Output :=
  let new_ids := if cfg.(use_v2_model_runner) then l.(scheduled_new_reqs) ++ l.(scheduled_resumed_reqs)
                 else l.(scheduled_new_reqs) in
  let resumed_ids := if cfg.(use_v2_model_runner) then [] else l.(scheduled_resumed_reqs) in
  new_data <- map_m (fun i => b <- lift (new_blocks_of l i) ;; ret (i, b)) new_ids ;;
  cached_data <- make_cached_request_data l (l.(scheduled_running_reqs) ++ resumed_ids) ;;
  x <- call (op_collect l.(num_scheduled_tokens)) ;;
  num_spec <- lift (match cfg.(dynamic_sd_lookup) with
                    | Some table => if (length l.(num_scheduled_tokens) =? 0)%nat then Ok cfg.(num_spec_tokens) else
                                    match table !! length l.(num_scheduled_tokens) with
                                    | Some k => Ok k
                                    | None => Raise IndexError
                                    end
                    | None => Ok cfg.(num_spec_tokens)
                    end) ;;
  s <- gets id ;;
  let out := mkOutput new_data cached_data resumed_ids l.(num_scheduled_tokens)
               (foldr Z.add 0 l.(num_scheduled_tokens).*2) l.(scheduled_spec_decode_tokens) l.(scheduled_encoder_inputs)
               s.(reset_preempted_req_ids) s.(finished_req_ids) x num_spec in
  update_after_schedule out.(out_num_scheduled_tokens) ;;
  (if cfg.(async_scheduling) then async_update_after_schedule out else ret tt) ;;
  ret out.

Definition schedule (throttle_prefills : bool) : stM Output :=
  modify (fun s => set_current_step (s.(current_step) + 1) s) ;;
  call op_new_step ;;
  s <- gets id ;;
  match choose throttle_prefills (s, init_locals (bool_decide (s.(pause_state) = PAUSED_ALL))) with
  | (Raise e, (s', _)) => fun _ => (Raise e, s')
  | (Ok _, (s', l)) => fun _ => finish_step l s'
  end.

(** ** Adding and finishing requests *)

(** [add_request] of a request that is not resumable. *)
Definition add_new_request (r : Req) : stM unit :=
  rs <- gets requests ;;
  match rs !! rid r with
  | Some _ => raise AssertionError
  | None =>
      (if is_blocked_waiting_status r.(info).(status) then on_skipped (add_request r.(key)) else on_waiting (add_request r.(key))) ;;
      modify (set_requests (fun rs => <[rid r := r]> rs))
  end.

(** [_free_request] with [_free_blocks]. *)
Definition free_request (i : string) : stM unit :=
  r <- get_req i ;;
  check (is_finished r.(info).(status)) AssertionError ;;
  modify (set_inflight (fun x => x ∖ {[i]})) ;;
  call (op_free_encoder r) ;;
  modify (fun s => set_ids s.(grammar_compile_error_reqs) ({[i]} ∪ s.(finished_req_ids)) s.(reset_preempted_req_ids) s) ;;
  call (op_free_blocks r) ;;
  modify (set_requests (fun rs => base.delete i rs)).

(** [remove_all] *)
Definition remove_all (ids : list string) (l : list string) : list string :=
  match ids with
  | [] => l
  | [i] => remove_id i l
  | _ => filter (fun x => x ∉ ids) l
  end.

Definition remove_waiting (ks : list QRequest) : stM unit :=
  if bool_decide (ks = []) then ret tt else
  on_waiting (remove_requests ks) ;; on_skipped (remove_requests ks).

(** [finish_requests] for distinct ids. *)
Definition finish_requests (ids : list string) (st : RequestStatus) : stM (list string) :=
  check (is_finished st) AssertionError ;;
  rs <- gets requests ;;
  let valid := filter (fun r => is_finished r.(info).(status) = false) (omap (fun i => rs !! i) ids) in
  let running_ := filter (fun r => r.(info).(status) = RUNNING) valid in
  let waiting_ := filter (fun r => r.(info).(status) <> RUNNING) valid in
  modify (fun s => set_running (remove_all (rid <$> running_) s.(running)) s) ;;
  remove_waiting (key <$> waiting_) ;;
  for_each valid (fun r => upd_req (rid r) (set_status st) ;; free_request (rid r)) ;;
  ret (rid <$> valid).

(** ** [update_from_output] *)

(** What the runner returns for a scheduled request: the sampled tokens, whether there
    is a pooled output, and whether the grammar rejects the tokens. *)
Record RunnerResult := mkRunnerResult {
  sampled : list Z;
  pooled : bool;
  grammar_rejects : bool;
}.

(** The loop of [_update_request_with_output]: the tokens kept, and whether the request
    stopped. *)
Fixpoint append_and_check (r : Req) (toks : list Z) : res (Req * list Z * bool) :=
  match toks with
  | [] => Ok (r, [], false)
  | t :: toks' =>
      let? (r, stopped) := check_stop (append_output_token t r) cfg.(max_model_len) in
      if stopped then Ok (r, [t], true) else
      let? (r, kept, stopped) := append_and_check r toks' in Ok (r, t :: kept, stopped)
  end.

(** [_update_request_with_output] of both classes. *)
Definition update_request_with_output (i : string) (toks : list Z) (is_stale : bool) : stM (list Z * bool) :=
  r <- get_req i ;;
  x <- lift (append_and_check r toks) ;;
  let '(r', kept, stopped) := x in
  upd_req i (fun _ => r') ;;
  if negb cfg.(async_scheduling) then ret (kept, stopped) else
  (if is_stale then ret tt else
   let n := r'.(num_output_placeholders) - Z.of_nat (length kept) in
   upd_req i (set_placeholders n) ;;
   check (0 <=? n) AssertionError) ;;
  (if bool_decide (r.(info).(status) = RUNNING) then
     r' <- get_req i ;;
     call (op_cache_blocks r' (r'.(info).(num_computed_tokens) - r'.(num_output_placeholders)))
   else ret tt) ;;
  ret (kept, stopped).

(** Rejected draft tokens are taken back from the counters. *)
Definition roll_back (num_draft num_generated : Z) (r : Req) : Req :=
  let num_accepted := Z.max (num_generated - cfg.(num_sampled_tokens_per_step)) 0 in
  let num_rejected := num_draft - num_accepted in
  let r := if r.(info).(num_computed_tokens) >? 0 then set_computed (r.(info).(num_computed_tokens) - num_rejected) r else r in
  if r.(num_output_placeholders) >? 0 then set_placeholders (r.(num_output_placeholders) - num_rejected) r else r.

(** The tokens of a request that is still there: what is emitted, whether it stopped
    and whether it was running. *)
Definition deliver (i : string) (spec : list Z) (ro : RunnerResult) (is_stale : bool) : stM (list Z * bool * bool) :=
  let toks := ro.(sampled) in
  (if negb (bool_decide (spec = [])) && (negb (bool_decide (toks = [])) || (cfg.(num_sampled_tokens_per_step) =? 0))
      && negb is_stale
   then upd_req i (roll_back (Z.of_nat (length spec)) (Z.of_nat (length toks))) else ret tt) ;;
  r <- get_req i ;;
  (if has_encoder_inputs r then call (op_free_encoder_inputs r) else ret tt) ;;
  x <- (if negb (bool_decide (toks = [])) then update_request_with_output i toks is_stale
        else if (r.(params).(pooling) && ro.(pooled))
                || (cfg.(is_encoder_only) && (r.(info).(num_prompt_tokens) <=? r.(info).(num_computed_tokens)))
        then upd_req i (set_status FINISHED_STOPPED) ;; ret ([], true)
        else ret ([], false)) ;;
  let '(kept, stopped) := x in
  stopped <- (if negb (bool_decide (kept = [])) && ro.(grammar_rejects)
              then upd_req i (set_status FINISHED_ERROR) ;; ret true else ret stopped) ;;
  (if negb (bool_decide (kept = [])) || ro.(pooled) || stopped then upd_req i take_prefill_stats else ret tt) ;;
  (if (stopped : bool) then free_request i else ret tt) ;;
  ret (kept, stopped, bool_decide (r.(info).(status) = RUNNING)).

(** One iteration; [None] when there is nothing to deliver. *)
Definition update_one (out : Output) (results : list (string * RunnerResult)) (i : string) (n : Z)
    : stM (option (Req * list Z * bool * bool)) :=
  check (0 <? n) AssertionError ;;
  rs <- gets requests ;;
  match rs !! i with
  | None => ret None
  | Some r =>
      let is_stale := r.(num_stale_output_tokens) >? 0 in
      upd_req i (fun r => set_in_flight (r.(info).(num_in_flight_tokens) - n) r) ;;
      (if is_stale then
         upd_req i (fun r => set_stale (r.(num_stale_output_tokens) - n) r.(drop_stale_output) r) ;;
         check (0 <=? r.(num_stale_output_tokens) - n) AssertionError
       else ret tt) ;;
      if is_finished r.(info).(status) || (is_stale && r.(drop_stale_output)) then ret None else
      match dict_get results i with
      | None => raise KeyError
      | Some ro =>
          x <- deliver i (default [] (dict_get out.(out_spec_decode_tokens) i)) ro is_stale ;;
          let '(kept, stopped, was_running) := x in
          ret (Some (r, kept, stopped, was_running))
      end
  end.

(** [update_from_output]: the tokens delivered per request. *)
Definition update_from_output (out : Output) (results : list (string * RunnerResult))
    : stM (list (string * list Z * bool)) :=
  call (op_process out.(out_total)) ;;
  xs <- map_m (fun '(i, n) => update_one out results i n) out.(out_num_scheduled_tokens) ;;
  let delivered := omap id xs in
  let stopped_running := filter (fun x => x.1.2 = true /\ x.2 = true) delivered in
  let stopped_preempted := filter (fun x => x.1.2 = true /\ x.2 = false) delivered in
  modify (fun s => set_running (remove_all ((fun x => rid x.1.1.1) <$> stopped_running) s.(running)) s) ;;
  remove_waiting ((fun x => x.1.1.1.(key)) <$> stopped_preempted) ;;
  s <- gets id ;;
  let errors := elements s.(grammar_compile_error_reqs) in
  modify (fun s => set_ids ∅ s.(finished_req_ids) s.(reset_preempted_req_ids) s) ;;
  (if bool_decide (errors = []) then ret tt else finish_requests errors FINISHED_ERROR ;; ret tt) ;;
  ret ((fun x => (rid x.1.1.1, x.1.1.2, x.1.2)) <$> delivered).

(** ** Drafts and the reset of the cache *)

(** [update_draft_token_ids]; with structured output, [drafts] are those the grammar
    lets pass. *)
Definition update_draft_token_ids (drafts : list (string * list Z)) : stM unit :=
  for_each drafts (fun '(i, toks) =>
    rs <- gets requests ;;
    match rs !! i with
    | None => ret tt
    | Some r =>
        if is_finished r.(info).(status) then ret tt
        else upd_req i (set_spec (if r.(is_prefill_chunk) then [] else toks))
    end).

(** [update_draft_token_ids_in_output]: the drafts replace the placeholders of the
    step, cut and padded to their number. *)
Definition fit_drafts (placeholders toks : list Z) : list Z :=
  let toks := take (length placeholders) toks in
  toks ++ replicate (length placeholders - length toks) (-1).

Fixpoint update_drafts_in_output (rs : gmap string Req) (drafts : list (string * list Z)) (sched : list (string * list Z))
    : list (string * list Z) :=
  match drafts with
  | [] => sched
  | (i, toks) :: drafts' =>
      update_drafts_in_output rs drafts'
        (match rs !! i, dict_get sched i with
         | Some r, Some (x :: xs) => if is_finished r.(info).(status) then sched else dict_set sched i (fit_drafts (x :: xs) toks)
         | _, _ => sched
         end)
  end.

(** [while self.running: ...] of [reset_prefix_cache]; the list is taken from its end. *)
Definition preempt_running : stM unit :=
  run <- gets running ;;
  for_each (reverse run) (fun i =>
    modify (fun s => set_running (removelast s.(running)) s) ;; preempt_request i true).

Definition reset_prefix_cache (reset_running_requests : bool) : stM bool :=
  (if reset_running_requests then preempt_running else ret tt) ;;
  ok <- call op_reset_prefix_cache ;;
  check (negb reset_running_requests || ok) RuntimeError ;;
  ret ok.
End scheduler.
Arguments Output B X : clear implicits.
