(* ===== verification/SchedulerProps.v ===== *)
(** * What a scheduling step guarantees

    For every implementation of the caches and of the queues: [schedule] keeps the
    bookkeeping of requests consistent, respects its budgets, and fails none of its own
    assertions; it can only raise what a cache operation raised. *)

From S2P Require Import Prelude KVManager RequestQueue Scheduler.

(** ** Computations that raise nothing of their own *)

(** The exceptions that the caches may raise when they are called as they expect. *)
Class Raises := may_raise : exn -> Prop.

Definition safe `{!Raises} {S A : Type} (m : M S A) (s : S) (P : A -> S -> Prop) : Prop :=
  match m s with
  | (Ok a, s') => P a s'
  | (Raise e, _) => exists e', e = Callee e' /\ may_raise e'
  end.

Section safe.
Context `{!Raises} {S : Type}.
Implicit Types s : S.

Lemma safe_bind {A B} (m : M S A) (k : A -> M S B) s P : safe m s (fun a s' => safe (k a) s' P) -> safe (bind m k) s P.
Proof. unfold safe, bind. by destruct (m s) as [[a|e] s']. Qed.

Lemma safe_ret {A} (a : A) s (P : A -> S -> Prop) : P a s -> safe (ret a) s P.
Proof. done. Qed.

Lemma safe_gets {A} (f : S -> A) s (P : A -> S -> Prop) : P (f s) s -> safe (gets f) s P.
Proof. done. Qed.

Lemma safe_modify (f : S -> S) s (P : unit -> S -> Prop) : P tt (f s) -> safe (modify f) s P.
Proof. done. Qed.

Lemma safe_check (b : bool) e s (P : unit -> S -> Prop) : b = true -> P tt s -> safe (check b e) s P.
Proof. by intros ->. Qed.

Lemma safe_lift {A} (x : res A) (a : A) s (P : A -> S -> Prop) : x = Ok a -> P a s -> safe (lift x) s P.
Proof. by intros ->. Qed.

Lemma safe_mono {A} (m : M S A) s (P P' : A -> S -> Prop) :
  safe m s P -> (forall a s', P a s' -> P' a s') -> safe m s P'.
Proof. unfold safe. destruct (m s) as [[a|e] s']; naive_solver. Qed.

Lemma safe_eq {A} (m : M S A) s a s' (P : A -> S -> Prop) : m s = (Ok a, s') -> P a s' -> safe m s P.
Proof. unfold safe. by intros ->. Qed.

Lemma safe_zoom {T A} (view : S -> T) (put : T -> S -> S) (m : M T A) s P :
  safe m (view s) (fun a t => P a (put t s)) -> safe (zoom view put m) s P.
Proof. unfold safe, zoom. by destruct (m (view s)) as [[a|e] t]. Qed.

Lemma safe_for_each {A} (f : A -> M S unit) (I : list A -> S -> Prop) l s P :
  I l s -> (forall x l' s', I (x :: l') s' -> safe (f x) s' (fun _ s'' => I l' s'')) ->
  (forall s', I [] s' -> P tt s') -> safe (for_each l f) s P.
Proof.
  intros Hi Hstep HP. revert s Hi. induction l as [|x l IH]; intros s Hi; simpl; [by apply HP|].
  apply safe_bind. eapply safe_mono; [by apply Hstep|]. intros [] s' Hi'. by apply IH.
Qed.

Lemma safe_inv {A} (m : M S A) s (P : A -> S -> Prop) a s' : safe m s P -> m s = (Ok a, s') -> P a s'.
Proof. unfold safe. intros Hs Hm. by rewrite Hm in Hs. Qed.
End safe.

Ltac safe_step :=
  cbv zeta;
  lazymatch goal with
  | |- safe (bind _ _) _ _ => apply safe_bind
  | |- safe (ret _) _ _ => apply safe_ret
  | |- safe (gets _) _ _ => apply safe_gets
  | |- safe (modify _) _ _ => apply safe_modify
  | |- safe (zoom _ _ _) _ _ => apply safe_zoom
  | |- safe (on_waiting _) _ _ => unfold on_waiting
  | |- safe (on_skipped _) _ _ => unfold on_skipped
  | |- safe (on_st _) _ _ => unfold on_st
  | |- safe (upd_req _ _) _ _ => unfold upd_req
  | |- safe (loc _) _ _ => unfold loc
  | |- safe (upd_loc _) _ _ => unfold upd_loc
  end.
Ltac safe_steps := repeat safe_step.

(** ** Dicts and lists *)

Lemma filter_all {A} (P : A -> Prop) `{!forall x, Decision (P x)} (l : list A) : Forall P l -> filter P l = l.
Proof. induction 1 as [|x l Hx _ IH]; [done|]. rewrite filter_cons, decide_True by done. by rewrite IH. Qed.

Lemma remove_id_filter i l : NoDup l -> remove_id i l = filter (fun x => x <> i) l.
Proof.
  induction 1 as [|x l Hx Hnd IH]; [done|]. cbn [remove_id]. rewrite filter_cons. destruct (decide (x = i)) as [->|Hne].
  - rewrite decide_False by (intros Hn; by apply Hn). symmetry. apply filter_all. apply Forall_forall. intros y Hy ->. done.
  - rewrite decide_True by done. by rewrite IH.
Qed.

Lemma filter_delete i (l : list string) :
  NoDup l -> i ∈ l -> delete (index_of i l) l = filter (fun x => x <> i) l /\ l !! index_of i l = Some i.
Proof.
  induction 1 as [|x l Hx Hnd IH]; [by intros ?%elem_of_nil|]. cbn [index_of]. rewrite elem_of_cons, filter_cons.
  destruct (decide (x = i)) as [->|Hne].
  - intros _. rewrite decide_False by (intros Hn; by apply Hn). split; [|done]. simpl. symmetry. apply filter_all.
    apply Forall_forall. intros y Hy ->. done.
  - intros [->|Hi]; [done|]. rewrite decide_True by done. destruct (IH Hi) as [IH1 IH2]. split; [|done]. simpl. by rewrite IH1.
Qed.

(** [running] without [v], and the index of the same request. *)
Definition drop_req (v : string) (l : list string) : list string := filter (fun x => x <> v) l.

Lemma drop_req_perm v l : NoDup l -> v ∈ l -> l ≡ₚ v :: drop_req v l.
Proof.
  induction 1 as [|x l Hx Hnd IH]; [by intros ?%elem_of_nil|]. unfold drop_req. rewrite filter_cons, elem_of_cons.
  destruct (decide (x = v)) as [->|Hne].
  - intros _. rewrite decide_False by (intros Hn; by apply Hn). rewrite filter_all; [done|]. apply Forall_forall. by intros y Hy ->.
  - intros [->|Hv]; [done|]. rewrite decide_True by done. rewrite Permutation_swap. by rewrite <- IH.
Qed.

Lemma drop_req_notin v l : v ∉ l -> drop_req v l = l.
Proof. intros Hv. apply filter_all. apply Forall_forall. by intros y Hy ->. Qed.

Lemma drop_req_last v l : NoDup (l ++ [v]) -> drop_req v (l ++ [v]) = l.
Proof.
  intros Hnd. apply NoDup_app in Hnd as (_ & Hd & _). unfold drop_req. rewrite filter_app, filter_cons, decide_False by (intros Hn; by apply Hn).
  rewrite app_nil_r. apply drop_req_notin. intros Hv. apply (Hd v Hv). by left.
Qed.

Lemma drop_req_index v idx l :
  NoDup l -> v ∈ l -> (idx <= length l)%nat ->
  (if (index_of v l <? idx)%nat then (idx - 1)%nat else idx) = length (drop_req v (take idx l)).
Proof.
  intros Hnd Hv Hidx. destruct (filter_delete v l Hnd Hv) as [_ Hat].
  assert (Hndt : NoDup (take idx l)) by (rewrite <- (take_drop idx l) in Hnd; by apply NoDup_app in Hnd as [? _]).
  assert (Hlen : length (take idx l) = idx) by (rewrite length_take; lia).
  destruct (Nat.ltb_spec (index_of v l) idx) as [Hlt|Hge].
  - assert (Hin : v ∈ take idx l) by (apply (list_elem_of_lookup_2 _ (index_of v l)); by rewrite lookup_take_lt).
    pose proof (Permutation_length (drop_req_perm v _ Hndt Hin)) as Hp. simpl in Hp. lia.
  - rewrite drop_req_notin; [done|]. intros Hin. apply list_elem_of_lookup in Hin as [j Hj].
    apply lookup_take_Some in Hj as [Hj Hjlt]. pose proof (NoDup_lookup _ _ _ _ Hnd Hj Hat). lia.
Qed.
Lemma drop_req_split v n l : drop_req v l = drop_req v (take n l) ++ drop_req v (drop n l).
Proof. unfold drop_req. by rewrite <- filter_app, take_drop. Qed.

Lemma drop_req_cons v i l : v <> i -> drop_req v (i :: l) = i :: drop_req v l.
Proof. intros Hne. unfold drop_req. by rewrite filter_cons, decide_True. Qed.

(** The tokens of a dict. *)
Definition total (d : list (string * Z)) : Z := foldr Z.add 0 d.*2.

Lemma total_app d d' : total (d ++ d') = total d + total d'.
Proof. unfold total. rewrite fmap_app. induction d.*2; simpl; lia. Qed.

Lemma total_remove d k v :
  NoDup d.*1 -> dict_get d k = Some v ->
  total d = v + total (dict_pop d k) /\ length d = S (length (dict_pop d k)).
Proof.
  intros Hnd Hg. pose proof (dict_pop_perm d k v Hnd Hg) as Hp. split; [|by rewrite Hp at 1].
  unfold total. by rewrite Hp at 1.
Qed.

Lemma lowest_priority_elem rs v : lowest_priority rs = Some v -> v ∈ rs.
Proof.
  destruct rs as [|r rs]; [done|]. simpl. intros [= <-]. revert r. induction rs as [|x rs IH]; intros r; simpl; [by left|].
  specialize (IH (if key_lt r x then x else r)). apply elem_of_cons in IH as [->|IH]; [|by do 2 right].
  destruct (key_lt r x); [right; by left|by left].
Qed.

(** ** The bookkeeping of requests *)

(** A request in a queue: not running, nothing computed; all its tokens are prompt
    unless it was preempted. *)
Definition waiting_ok (r : Req) : Prop :=
  r.(info).(status) <> RUNNING /\ is_finished r.(info).(status) = false /\ r.(info).(num_computed_tokens) = 0
  /\ r.(num_output_placeholders) = 0 /\ r.(num_stale_output_tokens) = r.(info).(num_in_flight_tokens)
  /\ (r.(num_preemptions) <= 0 -> num_tokens r = r.(info).(num_prompt_tokens)).

(** The objects [m], the running list and the queued requests fit together: every
    object is in exactly one place. *)
Record Book (m : gmap string Req) (run : list string) (qs : list QRequest) : Prop := {
  bk_nodup : NoDup (run ++ (qrequest_id <$> qs));
  bk_store : forall i r, m !! i = Some r -> rid r = i /\ r.(key).(qrequest_id) = i /\ 0 < num_tokens r /\ 0 <= r.(num_preemptions);
  bk_running : forall i, i ∈ run -> exists r, m !! i = Some r /\ r.(info).(status) = RUNNING;
  bk_waiting : forall q, q ∈ qs -> exists r, m !! q.(qrequest_id) = Some r /\ r.(key) = q /\ waiting_ok r;
  bk_complete : forall i r, m !! i = Some r -> i ∈ run ++ (qrequest_id <$> qs);
}.

#[global] Instance Book_perm m : Proper ((≡ₚ) ==> (≡ₚ) ==> iff) (Book m).
Proof.
  intros run run' Hr qs qs' Hq. split; intros [H1 H2 H3 H4 H5]; split; intros; rewrite ?Hr, ?Hq in *; eauto.
  - rewrite <- Hr in *; eauto.
  - rewrite <- Hq in *; eauto.
  - rewrite <- Hr, <- Hq; eauto.
Qed.

(** The parts of a request that scheduling does not touch, and the count that grows. *)
Definition same_core (r r' : Req) : Prop :=
  r'.(key) = r.(key) /\ r'.(params) = r.(params) /\ r'.(all_token_ids) = r.(all_token_ids)
  /\ r'.(output_token_ids) = r.(output_token_ids) /\ rid r' = rid r
  /\ r'.(info).(num_prompt_tokens) = r.(info).(num_prompt_tokens) /\ r.(num_preemptions) <= r'.(num_preemptions).

#[global] Instance same_core_preorder : PreOrder same_core.
Proof.
  split; [by intros r|]. intros r1 r2 r3 (A1 & A2 & A3 & A4 & A5 & A6 & A7) (B1 & B2 & B3 & B4 & B5 & B6 & B7).
  unfold same_core. rewrite B1, B2, B3, B4, B5, B6. split_and!; done || lia.
Qed.

(** The objects of two stores, id by id. *)
Definition tracks (R : string -> Req -> Req -> Prop) (m m' : gmap string Req) : Prop :=
  forall i, option_Forall2 (R i) (m !! i) (m' !! i).

Lemma tracks_refl R m : (forall i r, R i r r) -> tracks R m m.
Proof. intros HR i. destruct (m !! i); by constructor. Qed.

Lemma tracks_trans (R1 R2 R3 : string -> Req -> Req -> Prop) m1 m2 m3 :
  (forall i r1 r2 r3, R1 i r1 r2 -> R2 i r2 r3 -> R3 i r1 r3) -> tracks R1 m1 m2 -> tracks R2 m2 m3 -> tracks R3 m1 m3.
Proof.
  intros HR H12 H23 i. specialize (H12 i). specialize (H23 i). destruct H12 as [r1 r2 H12|]; inversion H23; subst; constructor. eauto.
Qed.

Lemma tracks_and (R1 R2 : string -> Req -> Req -> Prop) m m' :
  tracks R1 m m' -> tracks R2 m m' -> tracks (fun i r r' => R1 i r r' /\ R2 i r r') m m'.
Proof. intros H1 H2 i. specialize (H2 i). destruct (H1 i) as [r r' Hr|]; [|constructor]. inversion H2; subst. by constructor. Qed.

Lemma tracks_both R m m' : tracks R m m' -> tracks (fun i r r' => R i r r' /\ m !! i = Some r /\ m' !! i = Some r') m m'.
Proof. intros Ht i. destruct (m !! i) as [r|] eqn:E1, (m' !! i) as [r'|] eqn:E2; specialize (Ht i); rewrite E1, E2 in Ht; inversion Ht; by constructor. Qed.

Lemma tracks_alter (R : string -> Req -> Req -> Prop) f i m :
  (forall j r, R j r r) -> (forall r, m !! i = Some r -> R i r (f r)) -> tracks R m (alter f i m).
Proof.
  intros Hrefl Hf j. destruct (decide (i = j)) as [<-|Hne].
  - rewrite lookup_alter_eq. destruct (m !! i) eqn:E; constructor. eauto.
  - rewrite lookup_alter_ne by done. destruct (m !! j); by constructor.
Qed.

Lemma tracks_alter_exact f i m :
  tracks (fun j r r' => m !! j = Some r /\ r' = if decide (i = j) then f r else r) m (alter f i m).
Proof.
  intros j. destruct (decide (i = j)) as [<-|Hne].
  - rewrite lookup_alter_eq. destruct (m !! i) eqn:E; by constructor.
  - rewrite lookup_alter_ne by done. destruct (m !! j); by constructor.
Qed.

Lemma tracks_lookup R m m' i r : tracks R m m' -> m !! i = Some r -> exists r', m' !! i = Some r' /\ R i r r'.
Proof. intros He Hi. specialize (He i). rewrite Hi in He. inversion He; subst. eauto. Qed.

Definition evolves : gmap string Req -> gmap string Req -> Prop := tracks (fun _ => same_core).

#[global] Instance evolves_preorder : PreOrder evolves.
Proof.
  split; [intros m; by apply tracks_refl|]. intros m1 m2 m3. apply tracks_trans. intros i r1 r2 r3 H1 H2. by transitivity r2.
Qed.

Lemma evolves_alter f i m : (forall r, m !! i = Some r -> same_core r (f r)) -> evolves m (alter f i m).
Proof. intros Hf. by apply (tracks_alter (fun _ => same_core)). Qed.

(** The choice of requests touches the counters of the output in flight only by
    preemption: all of it becomes stale.  It changes the computed tokens of a running
    request only when it is admitted, with all its output in flight stale. *)
Definition acct (r r' : Req) : Prop :=
  r'.(info).(num_in_flight_tokens) = r.(info).(num_in_flight_tokens) /\ r.(num_preemptions) <= r'.(num_preemptions)
  /\ ((r'.(num_stale_output_tokens) = r.(num_stale_output_tokens) /\ r'.(num_output_placeholders) = r.(num_output_placeholders)
       /\ (r'.(info).(status) <> RUNNING -> r.(info).(status) <> RUNNING))
      \/ (r'.(num_stale_output_tokens) = r.(info).(num_in_flight_tokens) /\ r'.(num_output_placeholders) = 0 /\ 0 < r'.(num_preemptions)))
  /\ (r'.(info).(status) = RUNNING -> r'.(num_stale_output_tokens) = r'.(info).(num_in_flight_tokens)
      \/ (r.(info).(status) = RUNNING /\ r'.(info).(num_computed_tokens) = r.(info).(num_computed_tokens))).

#[global] Instance acct_preorder : PreOrder acct.
Proof.
  split; [by intros r; split_and!; [|lia|left|right]|]. unfold acct. intros r1 r2 r3 (A1 & A2 & A3 & A4) (B1 & B2 & B3 & B4).
  split_and!; [congruence|lia| |].
  - destruct A3 as [(E1 & E2 & E3)|(E1 & E2 & E3)], B3 as [(F1 & F2 & F3)|(F1 & F2 & F3)]; [|right; split_and!; congruence || lia..].
    left. split_and!; [congruence|congruence|auto].
  - intros Hs. destruct (B4 Hs) as [?|[Hs2 E]]; [by left|]. destruct (A4 Hs2) as [E2|[Hs1 E2]]; [left|right; split; [done|congruence]].
    destruct B3 as [(F1 & _)|(F1 & _)]; congruence.
Qed.

Lemma acct_same r r' :
  r'.(info).(num_in_flight_tokens) = r.(info).(num_in_flight_tokens) -> r'.(num_stale_output_tokens) = r.(num_stale_output_tokens) ->
  r'.(num_output_placeholders) = r.(num_output_placeholders) -> r'.(num_preemptions) = r.(num_preemptions) ->
  r'.(info).(num_computed_tokens) = r.(info).(num_computed_tokens) ->
  (r'.(info).(status) = RUNNING <-> r.(info).(status) = RUNNING) -> acct r r'.
Proof. intros H1 H2 H3 H4 H5 H6. split_and!; [done|lia|left; split_and!; try done; tauto|]. intros Hs. right. split; [by apply H6|done]. Qed.

Definition accts : gmap string Req -> gmap string Req -> Prop := tracks (fun _ => acct).

#[global] Instance accts_preorder : PreOrder accts.
Proof.
  split; [intros m; by apply tracks_refl|]. intros m1 m2 m3. apply tracks_trans. intros i r1 r2 r3 H1 H2. by transitivity r2.
Qed.

Lemma evolves_lookup m m' i r : evolves m m' -> m !! i = Some r -> exists r', m' !! i = Some r' /\ same_core r r'.
Proof. apply (tracks_lookup (fun _ => same_core)). Qed.

Lemma core_tokens r r' : same_core r r' -> num_tokens r' = num_tokens r.
Proof. intros (_ & _ & Ht & _). unfold num_tokens. by rewrite Ht. Qed.

(** An assignment that leaves every request where it is. *)
Lemma book_update f i m run qs :
  Book m run qs ->
  (forall r, m !! i = Some r -> same_core r (f r) /\ (r.(info).(status) = RUNNING -> (f r).(info).(status) = RUNNING)
     /\ (waiting_ok r -> waiting_ok (f r))) ->
  Book (alter f i m) run qs.
Proof.
  intros [H1 H2 H3 H4 H5] Hf. split; [done| | | |].
  - intros j r Hj. destruct (decide (i = j)) as [<-|Hne]; [|rewrite lookup_alter_ne in Hj by done; eauto].
    rewrite lookup_alter_eq in Hj. destruct (m !! i) as [r0|] eqn:E; [|done]. injection Hj as <-.
    destruct (Hf r0 eq_refl) as (Hc & _). destruct (H2 _ _ E) as (A & B & C & D).
    rewrite (core_tokens _ _ Hc). destruct Hc as (-> & _ & _ & _ & -> & _ & Hp). split_and!; done || lia.
  - intros j Hj. destruct (H3 j Hj) as (r & Hr & Hs). destruct (decide (i = j)) as [<-|Hne].
    + exists (f r). rewrite lookup_alter_eq, Hr. split; [done|]. by apply (Hf r Hr).
    + exists r. by rewrite lookup_alter_ne.
  - intros q Hq. destruct (H4 q Hq) as (r & Hr & Hk & Hw). destruct (decide (i = q.(qrequest_id))) as [->|Hne].
    + exists (f r). rewrite lookup_alter_eq, Hr. destruct (Hf r Hr) as (Hc & _ & Hw'). split_and!; [done| |by apply Hw'].
      destruct Hc as (-> & _). done.
    + exists r. by rewrite lookup_alter_ne.
  - intros j r Hj. destruct (decide (i = j)) as [<-|Hne]; [|rewrite lookup_alter_ne in Hj by done; eauto].
    rewrite lookup_alter_eq in Hj. destruct (m !! i) as [r0|] eqn:E; [|done]. eauto.
Qed.

(** A running request goes to a queue. *)
Lemma book_preempt f i r m run qs :
  Book m (i :: run) qs -> m !! i = Some r -> same_core r (f r) -> waiting_ok (f r) -> Book (alter f i m) run (r.(key) :: qs).
Proof.
  intros [H1 H2 H3 H4 H5] Hi Hc Hw. destruct (H2 _ _ Hi) as (Hrid & Hkey & Htok & Hpre).
  assert (Hk : qrequest_id (key r) = i) by done. simpl in H1. apply NoDup_cons in H1 as [Hn H1].
  assert (Hperm : run ++ (qrequest_id <$> key r :: qs) ≡ₚ i :: run ++ (qrequest_id <$> qs)).
  { rewrite fmap_cons, Hk. symmetry. apply Permutation_middle. }
  assert (Hother : forall j, j ∈ run ++ (qrequest_id <$> qs) -> i <> j) by (intros j Hj ->; done).
  split.
  - rewrite Hperm. by constructor.
  - intros j r' Hj. destruct (decide (i = j)) as [<-|Hne]; [|rewrite lookup_alter_ne in Hj by done; eauto].
    rewrite lookup_alter_eq, Hi in Hj. injection Hj as <-. rewrite (core_tokens _ _ Hc). destruct Hc as (-> & _ & _ & _ & -> & _ & Hp). split_and!; done || lia.
  - intros j Hj. rewrite lookup_alter_ne by (apply Hother, elem_of_app; by left). apply H3. by right.
  - intros q Hq. apply elem_of_cons in Hq as [->|Hq].
    + exists (f r). rewrite Hk, lookup_alter_eq, Hi. by destruct Hc as (-> & _).
    + rewrite lookup_alter_ne; [by apply H4|]. apply Hother, elem_of_app. right. by apply list_elem_of_fmap_2.
  - intros j r' Hj. rewrite Hperm. destruct (decide (i = j)) as [<-|Hne]; [by left|].
    rewrite lookup_alter_ne in Hj by done. by apply (H5 j r').
Qed.

(** A queued request starts to run. *)
Lemma book_admit f q r m run qs :
  Book m run (q :: qs) -> m !! q.(qrequest_id) = Some r -> same_core r (f r) -> (f r).(info).(status) = RUNNING ->
  Book (alter f q.(qrequest_id) m) (run ++ [q.(qrequest_id)]) qs.
Proof.
  intros [H1 H2 H3 H4 H5] Hi Hc Hs. set (i := q.(qrequest_id)) in *.
  assert (Hperm : (run ++ [i]) ++ (qrequest_id <$> qs) ≡ₚ run ++ (qrequest_id <$> q :: qs)) by (by rewrite <- app_assoc).
  assert (Hother : forall j, j ∈ run ++ (qrequest_id <$> qs) -> i <> j).
  { intros j Hj <-. rewrite fmap_cons in H1. fold i in H1. rewrite <- Permutation_middle in H1. by apply NoDup_cons in H1 as [? _]. }
  split.
  - by rewrite Hperm.
  - intros j r' Hj. destruct (decide (i = j)) as [<-|Hne]; [|rewrite lookup_alter_ne in Hj by done; eauto].
    rewrite lookup_alter_eq, Hi in Hj. injection Hj as <-. destruct (H2 _ _ Hi) as (A & B & C & D).
    rewrite (core_tokens _ _ Hc). destruct Hc as (-> & _ & _ & _ & -> & _ & Hp). split_and!; done || lia.
  - intros j Hj. apply elem_of_app in Hj as [Hj|Hj].
    + rewrite lookup_alter_ne by (apply Hother, elem_of_app; by left). by apply H3.
    + apply list_elem_of_singleton in Hj as ->. exists (f r). by rewrite lookup_alter_eq, Hi.
  - intros q' Hq. rewrite lookup_alter_ne; [apply H4; by right|]. apply Hother, elem_of_app. right. by apply list_elem_of_fmap_2.
  - intros j r' Hj. rewrite Hperm. destruct (decide (i = j)) as [<-|Hne].
    + apply elem_of_app. right. by left.
    + rewrite lookup_alter_ne in Hj by done. by apply (H5 j r').
Qed.

(** ** What the scheduler relies on of the caches *)

(** How the scheduler sees the caches: a request holds nothing, or has slots for its
    first tokens; a lookup offers blocks for the first tokens of a request; encoder inputs
    of a request are planned, so that there is room for them; and steps that have tokens
    are open until their output is processed.  Of a request, its id, parameters and the
    length of its prompt are [known] to the caches. *)
Class CacheModel (K B : Type) := {
  cache_inv : K -> Prop;
  unused : K -> string -> Prop;
  covers : K -> string -> Z -> Prop;
  offers : K -> string -> B -> Z -> Prop;
  plans : K -> string -> list nat -> Prop;
  steps_open : K -> Z -> Prop;
  known : string -> ReqParams -> Z -> Prop;
}.

Section cache_calls.
Context `{!Raises} {K B : Type} `{!CacheModel K B}.
Implicit Types (k : K) (i : string).

(** A call that concerns no request but [i]. *)
Record touches i k k' : Prop := {
  tc_inv : cache_inv k';
  tc_unused : forall j, j <> i -> unused k j -> unused k' j;
  tc_covers : forall j n, j <> i -> covers k j n -> covers k' j n;
  tc_plans : forall j ids, plans k j ids -> plans k' j ids;
  tc_steps : forall n, steps_open k n -> steps_open k' n;
}.

(** A call that takes nothing away. *)
Record steady k k' : Prop := {
  st_inv : cache_inv k';
  st_unused : forall i, unused k i -> unused k' i;
  st_covers : forall i n, covers k i n -> covers k' i n;
  st_steps : forall n, steps_open k n -> steps_open k' n;
}.

Definition keeps_plans k k' : Prop := forall i ids, plans k i ids -> plans k' i ids.

Lemma steady_touches i k k' : steady k k' -> keeps_plans k k' -> touches i k k'.
Proof. intros [] ?. split; eauto. Qed.

Lemma steady_refl k : cache_inv k -> steady k k.
Proof. by split. Qed.

Lemma steady_trans k1 k2 k3 : steady k1 k2 -> steady k2 k3 -> steady k1 k3.
Proof. intros [] []. split; eauto. Qed.

Lemma touches_trans i k1 k2 k3 : touches i k1 k2 -> touches i k2 k3 -> touches i k1 k3.
Proof. intros [] []. split; eauto. Qed.

Definition calls {A : Type} (op : M K A) k (P : A -> K -> Prop) : Prop :=
  match op k with
  | (Ok a, k') => P a k'
  | (Raise e, _) => may_raise e
  end.

(** What a request holds: running, slots for its computed tokens; otherwise nothing. *)
Definition held k i (o : option Req) : Prop :=
  match o with
  | Some r => if bool_decide (r.(info).(status) = RUNNING)
              then 0 <= r.(info).(num_computed_tokens) /\ covers k i r.(info).(num_computed_tokens) else unused k i
  | None => unused k i
  end.

Lemma held_touches i j k k' o : touches i k k' -> j <> i -> held k j o -> held k' j o.
Proof. intros [_ Hu Hc _] Hne. destruct o as [r|]; simpl; [case_bool_decide; [intros []; auto|]|]; auto. Qed.

Lemma held_steady i k k' o : steady k k' -> held k i o -> held k' i o.
Proof. intros [_ Hu Hc _]. destruct o as [r|]; simpl; [case_bool_decide; [intros []; auto|]|]; auto. Qed.
End cache_calls.

(** What every request satisfies that is handed to the caches. *)
Definition req_fine `{!CacheModel K B} (cfg : SchedConfig) (r : Req) : Prop :=
  0 < num_tokens r <= cfg.(max_model_len) /\ 0 <= r.(info).(num_prompt_tokens) <= num_tokens r
  /\ 0 <= r.(info).(num_in_flight_tokens) /\ known (rid r) r.(params) r.(info).(num_prompt_tokens).

(** The contract of the caches, where [cfg] are the settings of the scheduler.  A cached
    prefix leaves the last token to compute; allocation gives slots to the request or
    leaves it as it was; the encoder never asks for more tokens than offered, cuts them
    only in front of an input of the prompt, and for inputs of the request only. *)
Class CacheLaws (cfg : SchedConfig) (K B X : Type) `{!Raises} `{!CacheOps K B X} `{!CacheModel K B} : Prop := {
  cl_covers k i n n' : covers k i n -> n' <= n -> covers k i n';
  cl_new_step k : cache_inv k -> calls op_new_step k (fun _ k' => steady k k');
  cl_lookup r k : cache_inv k -> unused k (rid r) -> req_fine cfg r -> r.(info).(num_computed_tokens) = 0 ->
    calls (op_lookup r) k (fun x k' => steady k k' /\ 0 <= x.1.2 <= num_tokens r - 1 /\ offers k' (rid r) x.1.1 x.1.2);
  cl_admit r k b n new enc full has_running :
    cache_inv k -> unused k (rid r) -> offers k (rid r) b n -> req_fine cfg r -> r.(info).(num_computed_tokens) = 0 ->
    0 <= n -> 0 < new -> n + new <= cfg.(max_model_len) ->
    calls (op_allocate r new n (Some b) cfg.(num_lookahead_tokens) enc full has_running) k (fun o k' =>
      touches (rid r) k k' /\ match o with Some _ => covers k' (rid r) (n + new) | None => unused k' (rid r) end);
  cl_grow r k new :
    cache_inv k -> covers k (rid r) r.(info).(num_computed_tokens) -> req_fine cfg r -> 0 <= r.(info).(num_computed_tokens) ->
    0 < new -> r.(info).(num_computed_tokens) + new <= cfg.(max_model_len) ->
    calls (op_allocate r new 0 None cfg.(num_lookahead_tokens) 0 false true) k (fun o k' =>
      touches (rid r) k k'
      /\ covers k' (rid r) (r.(info).(num_computed_tokens) + match o with Some _ => new | None => 0 end));
  cl_free r k : cache_inv k -> calls (op_free_blocks r) k (fun _ k' => touches (rid r) k k' /\ unused k' (rid r));
  cl_cache r n k : cache_inv k ->
    calls (op_cache_blocks r n) k (fun _ k' => touches (rid r) k k' /\ forall m, covers k (rid r) m -> covers k' (rid r) m);
  cl_encoder r nc n budget k : cache_inv k -> req_fine cfg r ->
    calls (op_try_encoder r nc n budget) k (fun x k' =>
      steady k k' /\ (forall i b m, offers k i b m -> offers k' i b m) /\ plans k' (rid r) (x.1.1.1 ++ x.2)
      /\ x.1.1.2 <= Z.max 0 n /\ (x.1.1.2 = n \/ x.1.1.2 <= Z.max 0 (num_tokens r - 1 - nc))
      /\ Forall (fun i => (i < length r.(params).(encoder_embeds))%nat) x.1.1.1);
  cl_allocate_encoder r j js k : cache_inv k -> plans k (rid r) (j :: js) ->
    calls (op_allocate_encoder r j) k (fun _ k' => steady k k' /\ plans k' (rid r) js);
  cl_no_plan k i : cache_inv k -> plans k i [];
  cl_free_encoder r k : cache_inv k -> calls (op_free_encoder r) k (fun _ k' => steady k k' /\ keeps_plans k k');
  cl_free_inputs r k : cache_inv k -> calls (op_free_encoder_inputs r) k (fun _ k' => steady k k' /\ keeps_plans k k');
  cl_collect sched k : cache_inv k -> Forall (fun x => 0 < x.2) sched ->
    calls (op_collect sched) k (fun _ k' => cache_inv k' /\ (forall i, unused k i -> unused k' i)
      /\ (forall i n, covers k i n -> covers k' i n)
      /\ forall n, steps_open k n -> steps_open k' (if total sched >? 0 then n + 1 else n));
  cl_process all n k : cache_inv k -> steps_open k n -> (0 < all -> 0 < n) ->
    calls (op_process all) k (fun _ k' => cache_inv k' /\ (forall i, unused k i -> unused k' i)
      /\ (forall i m, covers k i m -> covers k' i m) /\ steps_open k' (if all >? 0 then n - 1 else n));
  cl_reset k : cache_inv k -> calls op_reset_prefix_cache k (fun _ k' => steady k k');
}.

(** What the settings have to satisfy. *)
Record cfg_ok (cfg : SchedConfig) : Prop := {
  co_tokens : 0 <= cfg.(max_num_scheduled_tokens) /\ 0 <= cfg.(max_num_batched_tokens);
  co_running : 0 <= cfg.(max_num_running_reqs);
  co_loras : forall slots, cfg.(max_loras) = Some slots -> 0 <= slots;
  co_draft : 0 <= cfg.(draft_slots);
  co_spec : 0 <= cfg.(num_spec_tokens) /\ 0 <= cfg.(num_sampled_tokens_per_step);
  (* a request padded with drafts is not cut *)
  co_pad : 0 < cfg.(num_spec_tokens) -> cfg.(need_mamba_block_aligned_split) = false
    /\ (cfg.(long_prefill_token_threshold) <= 0 \/ cfg.(num_spec_tokens) < cfg.(long_prefill_token_threshold));
  co_mamba : cfg.(need_mamba_block_aligned_split) = true -> 0 < cfg.(mamba_block_size);
  co_table : forall table, cfg.(dynamic_sd_lookup) = Some table ->
    forall n, Z.of_nat n <= cfg.(max_num_running_reqs) -> is_Some (table !! n);
}.

Section schedule.
Context {K B X Q : Type} `{!Raises} `{!CacheOps K B X} `{!CacheModel K B} `{!QueueOps Q} `{!QueueLaws Q}.
Context (cfg : SchedConfig) (cfg_good : cfg_ok cfg) `{!CacheLaws cfg K B X}.
Implicit Types (s : State K Q) (l : Locals B) (i : string).

Notation St := (State K Q).
Notation Lo := (Locals B).

(** The queued requests. *)
Definition queued s : list QRequest := queue_elems s.(waiting) ++ queue_elems s.(skipped_waiting).

(** The tokens of a request are its prompt and its output, and fit the model; so does
    the shortest output it may have. *)
Definition len_ok (r : Req) : Prop :=
  num_tokens r <= cfg.(max_model_len) /\ num_tokens r = r.(info).(num_prompt_tokens) + num_output_tokens r
  /\ 0 <= r.(info).(num_prompt_tokens) /\ r.(info).(num_prompt_tokens) + r.(params).(min_tokens) <= cfg.(max_model_len)
  /\ known (rid r) r.(params) r.(info).(num_prompt_tokens).

Lemma core_len_ok r r' : same_core r r' -> len_ok r -> len_ok r'.
Proof. intros (_ & Hp & Ht & Ho & Hid & Hn & _). unfold len_ok, num_tokens, num_output_tokens. by rewrite Hp, Ht, Ho, Hid, Hn. Qed.

(** The tokens in flight are counted; without asynchronous scheduling, there are no
    placeholders, and drafts wait only with a running request none of whose steps is in
    flight. *)
Definition flight_fine (r : Req) : Prop :=
  0 <= r.(info).(num_in_flight_tokens)
  /\ (cfg.(async_scheduling) = false -> r.(num_output_placeholders) = 0)
  /\ (cfg.(async_scheduling) = false -> r.(spec_token_ids) <> [] ->
      r.(info).(status) = RUNNING /\ r.(info).(num_in_flight_tokens) <= r.(num_stale_output_tokens)).

(** [ex] are requests passed over in this step. *)
Record Inv s (ex : list QRequest) : Prop := {
  iv_queues : queue_inv s.(waiting) /\ queue_inv s.(skipped_waiting);
  iv_book : Book s.(requests) s.(running) (queued s ++ ex);
  iv_max : Z.of_nat (length s.(running)) <= cfg.(max_num_running_reqs);
  iv_streaming : 0 <= s.(num_waiting_for_streaming_input);
  iv_len : forall i r, s.(requests) !! i = Some r -> len_ok r;
  iv_flight : forall i r, s.(requests) !! i = Some r -> flight_fine r;
}.

(** Every request holds what its status and its count say. *)
Record Held s : Prop := {
  hd_inv : cache_inv s.(caches);
  hd_each : forall i, held s.(caches) i (s.(requests) !! i);
}.

(** What a scheduling step leaves alone. *)
Record frame s s' : Prop := {
  fr_evolves : evolves s.(requests) s'.(requests);
  fr_acct : accts s.(requests) s'.(requests);
  fr_streaming : s'.(num_waiting_for_streaming_input) = s.(num_waiting_for_streaming_input);
  fr_pause : s'.(pause_state) = s.(pause_state);
  fr_step : s'.(current_step) = s.(current_step);
  fr_finished : s'.(finished_req_ids) = s.(finished_req_ids);
  fr_steps : forall n, steps_open s.(caches) n -> steps_open s'.(caches) n;
}.

#[global] Instance frame_preorder : PreOrder frame.
Proof.
  split; [by intros s; split|]. intros s1 s2 s3 [A1 A2 A3 A4 A5 A6 A7] [B1 B2 B3 B4 B5 B6 B7]. split; [by etransitivity|by etransitivity|congruence..|auto].
Qed.

Lemma safe_call {A} (op : M K A) s (R : A -> K -> Prop) P :
  calls op s.(caches) R -> (forall a k, op s.(caches) = (Ok a, k) -> R a k -> P a (set_caches k s)) -> safe (call op) s P.
Proof. unfold safe, call, calls. intros HR HP. destruct (op (caches s)) as [[a|e] k]; [by apply HP|by eexists]. Qed.

Lemma safe_get i r s P : s.(requests) !! i = Some r -> P r s -> safe (get_req i) s P.
Proof. intros Hi HP. unfold get_req. safe_steps. by rewrite Hi. Qed.

Lemma safe_get_all ids s P :
  Forall (fun i => is_Some (s.(requests) !! i)) ids ->
  (forall rs, Forall2 (fun i r => s.(requests) !! i = Some r) ids rs -> P rs s) -> safe (map_m get_req ids) s P.
Proof.
  intros Hids. revert P. induction Hids as [|i ids [r Hi] _ IH]; intros P HP; cbn [map_m]; [by apply HP|].
  apply safe_bind, (safe_get i r); [done|]. apply safe_bind, IH. intros rs Hrs. apply HP. by constructor.
Qed.

Lemma inv_set_caches k s ex : Inv s ex -> Inv (set_caches k s) ex.
Proof. by intros []. Qed.

Lemma held_set_caches k s : Held s -> steady s.(caches) k -> Held (set_caches k s).
Proof. intros [H1 H2] Hs. split; [apply Hs|]. intros i. by apply (held_steady i s.(caches)). Qed.

Lemma frame_set_caches k s : steady s.(caches) k -> frame s (set_caches k s).
Proof. intros []. by split. Qed.

(** Assignments that change neither the counts nor who runs. *)
Lemma held_alter i f s :
  Held s -> (forall r, s.(requests) !! i = Some r -> (r.(info).(status) = RUNNING <-> (f r).(info).(status) = RUNNING)
     /\ (f r).(info).(num_computed_tokens) = r.(info).(num_computed_tokens)) ->
  Held (set_requests (alter f i) s).
Proof.
  intros [H1 H2] Hf. split; [done|]. intros j. simpl. destruct (decide (i = j)) as [<-|Hne]; [|by rewrite lookup_alter_ne].
  rewrite lookup_alter_eq. specialize (H2 i). destruct (s.(requests) !! i) as [r|] eqn:Hr; [|done]. simpl in *.
  destruct (Hf r eq_refl) as [Hs ->]. by rewrite <- (bool_decide_ext _ _ Hs).
Qed.

Lemma inv_fine s ex i r : Inv s ex -> s.(requests) !! i = Some r -> req_fine cfg r.
Proof.
  intros Hi Hr. destruct (bk_store _ _ _ (iv_book _ _ Hi) i r Hr) as (_ & _ & Ht & _). destruct (iv_len _ _ Hi i r Hr) as (H1 & H4 & H2 & _ & H5).
  destruct (iv_flight _ _ Hi i r Hr) as [H3 _]. unfold num_output_tokens in H4. split_and!; done || lia.
Qed.

Lemma evolves_len m m' :
  evolves m m' -> (forall i r, m !! i = Some r -> len_ok r) -> forall i r, m' !! i = Some r -> len_ok r.
Proof.
  intros He Hl i r Hr. specialize (He i). rewrite Hr in He. inversion He as [r0 r' Hc E1 E2|]; subst.
  apply (core_len_ok r0); [done|by apply (Hl i)].
Qed.

(** Assignments to attributes that keep the request in its place. *)
Definition keeps (f : Req -> Req) (r : Req) : Prop :=
  same_core r (f r) /\ (r.(info).(status) = RUNNING -> (f r).(info).(status) = RUNNING)
  /\ (waiting_ok r -> waiting_ok (f r)) /\ (flight_fine r -> flight_fine (f r)).

Lemma inv_assign i f s ex :
  Inv s ex -> (forall r, s.(requests) !! i = Some r -> keeps f r) ->
  Inv (set_requests (alter f i) s) ex /\ evolves s.(requests) (alter f i s.(requests)).
Proof.
  intros [H1 H2 H3 H4 H5 H6] Hf.
  assert (He : evolves s.(requests) (alter f i s.(requests))) by (apply evolves_alter; intros r Hr; by apply Hf).
  split; [|done]. split; try done; [|by apply (evolves_len _ _ He)|].
  - apply book_update; [done|]. intros r Hr. by destruct (Hf r Hr) as (A1 & A2 & A3 & _).
  - intros j r Hr. simpl in Hr. destruct (decide (i = j)) as [<-|Hne]; [|rewrite lookup_alter_ne in Hr by done; eauto].
    rewrite lookup_alter_eq in Hr. destruct (s.(requests) !! i) as [r0|] eqn:E; [|done]. injection Hr as <-. by apply (Hf r0 eq_refl), (H6 i).
Qed.

Lemma inv_upd i f s ex :
  Inv s ex -> (forall r, s.(requests) !! i = Some r -> keeps f r /\ acct r (f r)) ->
  Inv (set_requests (alter f i) s) ex /\ frame s (set_requests (alter f i) s).
Proof.
  intros Hi Hf. destruct (inv_assign i f s ex Hi) as [Hi' He]; [intros r Hr; by apply Hf|].
  split; [done|]. split; try done. apply (tracks_alter (fun _ => acct)); [done|]. intros r Hr. by apply Hf.
Qed.

Lemma inv_running_perm run run' s ex : run ≡ₚ run' -> Inv (set_running run s) ex -> Inv (set_running run' s) ex.
Proof.
  intros Hp [H1 H2 H3 H4 H5 H6]. unfold queued in *. split; unfold queued; simpl in *; [done|by rewrite <- Hp|by rewrite <- Hp|done..].
Qed.

(** A request gives back what it holds. *)
Lemma free_call_spec i r s P :
  rid r = i -> cache_inv s.(caches) ->
  (forall k, touches i s.(caches) k -> unused k i -> P tt (set_caches k s)) -> safe (call (op_free_blocks r)) s P.
Proof. intros <- Hk HP. apply (safe_call _ _ _ _ (cl_free r _ Hk)). intros [] k _ [H1 H2]. by apply HP. Qed.

(** A call of the encoder cache, which takes nothing away. *)
Lemma steady_call_spec {A} (op : M K A) s P :
  calls op s.(caches) (fun _ k' => steady s.(caches) k') -> (forall a k, steady s.(caches) k -> P a (set_caches k s)) -> safe (call op) s P.
Proof. intros Hop HP. apply (safe_call _ _ _ _ Hop). intros a k _ Hk. by apply HP. Qed.

(** [_preempt_request] of a request that has just left [running]. *)
Lemma preempt_spec i drop s ex P :
  Inv (set_running (i :: s.(running)) s) ex -> Held s ->
  (forall s', Inv s' ex -> Held s' -> frame s s' -> touches i s.(caches) s'.(caches) -> s'.(running) = s.(running) ->
     (forall j, j <> i -> s'.(requests) !! j = s.(requests) !! j) -> P tt s') ->
  safe (preempt_request i drop) s P.
Proof.
  intros [[Hq1 Hq2] Hb Hm Hst Hlen Hfl] [Hk Hheld] HP. simpl in *. destruct (bk_running _ _ _ Hb i) as (r & Hr & Hs); [by left|].
  pose proof (bk_store _ _ _ Hb i r Hr) as (Hid & _ & _ & Hpre).
  unfold preempt_request. safe_step. apply (safe_get i r); [done|]. safe_step. apply safe_check; [by apply bool_decide_eq_true|].
  safe_step. apply (free_call_spec i); [done|done|]. intros k1 Ht1 Hu1. safe_step.
  eapply safe_call; [simpl; apply cl_free_encoder, Ht1|]. intros [] k2 _ [Ht2 Hpl2]. simpl in Ht2, Hpl2. safe_steps.
  assert (Ht : touches i s.(caches) k2) by (apply (touches_trans _ _ k1); [done|by apply steady_touches]).
  set (f := fun r => set_preemptions _ _). set (s1 := set_inflight _ _).
  apply safe_bind, (safe_get i (f r)); [simpl; by rewrite lookup_alter_eq, Hr|].
  safe_steps. destruct (ql_prepend (key (f r)) s.(waiting) Hq1) as (w' & Hrun & Hi & Hp).
  eapply safe_eq; [exact Hrun|]. safe_steps.
  assert (Hc : same_core r (f r)) by (unfold same_core; simpl; split_and!; done || lia).
  assert (Hw : waiting_ok (f r)) by (split_and!; try done; simpl; lia).
  assert (He : evolves s.(requests) (alter f i s.(requests))).
  { apply evolves_alter. intros r' Hr'. by assert (r' = r) as -> by congruence. }
  assert (Ha : accts s.(requests) (alter f i s.(requests))).
  { apply (tracks_alter (fun _ => acct)); [done|]. intros r' Hr'. assert (r' = r) as -> by congruence.
    split_and!; simpl; [done|lia|right; split_and!; done || lia|done]. }
  apply HP; [| |split; try done; apply Ht|done|done|].
  - split; [done| |simpl; lia|done|by apply (evolves_len _ _ He)|]; simpl.
    + unfold queued in *. simpl. rewrite Hp. simpl.
      by apply (book_preempt f i r s.(requests) s.(running) ((queue_elems s.(waiting) ++ queue_elems s.(skipped_waiting)) ++ ex)).
    + intros j x. destruct (decide (i = j)) as [<-|Hne]; [|rewrite lookup_alter_ne by done; apply Hfl].
      rewrite lookup_alter_eq, Hr. intros [= <-]. split_and!; [by apply (Hfl i r)|done..].
  - split; [apply Ht|]. intros j. simpl. destruct (decide (i = j)) as [<-|Hne].
    + rewrite lookup_alter_eq, Hr. simpl. apply (st_unused _ _ Ht2), Hu1.
    + rewrite lookup_alter_ne by done. by apply (held_touches i _ s.(caches)).
  - intros j Hj. simpl. by rewrite lookup_alter_ne.
Qed.

(** ** The victim of a preemption *)

Lemma inv_nodup s ex : Inv s ex -> NoDup s.(running).
Proof. intros [_ [Hn _ _ _ _] _ _ _ _]. by apply NoDup_app in Hn as [? _]. Qed.

Lemma inv_running_lookup s ex i : Inv s ex -> i ∈ s.(running) -> exists r, s.(requests) !! i = Some r /\ rid r = i /\ r.(info).(status) = RUNNING.
Proof. intros [_ Hb _ _ _ _] Hi. destruct (bk_running _ _ _ Hb i Hi) as (r & Hr & Hs). exists r. split_and!; try done. by apply (bk_store _ _ _ Hb). Qed.


(** ** The locals *)

Definition sched_ids l : list string := l.(scheduled_running_reqs) ++ l.(scheduled_new_reqs) ++ l.(scheduled_resumed_reqs).

(** [T0] is the budget at the start. *)
Record LInv (T0 : Z) s l : Prop := {
  li_nodup : NoDup (sched_ids l);
  li_keys : l.(num_scheduled_tokens).*1 ≡ₚ sched_ids l;
  li_blocks : l.(req_to_new_blocks).*1 ≡ₚ sched_ids l;
  li_member : forall i, i ∈ sched_ids l -> i ∈ s.(running);
  li_pos : Forall (fun x => 0 < x.2) l.(num_scheduled_tokens);
  li_tokens : l.(token_budget) + total l.(num_scheduled_tokens) = T0 /\ 0 <= l.(token_budget);
  li_input : l.(input_budget) + total l.(num_scheduled_tokens) + cfg.(draft_slots) * Z.of_nat (length l.(num_scheduled_tokens))
             = cfg.(max_num_batched_tokens) /\ 0 <= l.(input_budget);
  li_encoder : forall i inputs r, (i, inputs) ∈ l.(scheduled_encoder_inputs) -> s.(requests) !! i = Some r ->
    Forall (fun j => (j < length r.(params).(encoder_embeds))%nat) inputs;
  li_len : Forall (fun x => exists r, s.(requests) !! x.1 = Some r
                     /\ r.(info).(num_computed_tokens) + x.2 <= cfg.(max_model_len)
                     /\ covers s.(caches) x.1 (r.(info).(num_computed_tokens) + x.2)) l.(num_scheduled_tokens);
  li_spec : forall i toks, (i, toks) ∈ l.(scheduled_spec_decode_tokens) -> exists n r,
    dict_get l.(num_scheduled_tokens) i = Some n /\ s.(requests) !! i = Some r
    /\ Z.of_nat (length toks) + num_tokens r + r.(num_output_placeholders) <= r.(info).(num_computed_tokens) + n
    /\ (cfg.(async_scheduling) = false -> r.(info).(num_in_flight_tokens) <= r.(num_stale_output_tokens));
  li_clean : cfg.(async_scheduling) = false -> forall i r, i ∈ sched_ids l -> s.(requests) !! i = Some r -> r.(spec_token_ids) = [];
}.

(** While the running requests are scheduled: those before the index. *)
Record RInv (T0 : Z) s l : Prop := {
  rn_locals : LInv T0 s l;
  rn_new : l.(scheduled_new_reqs) = [] /\ l.(scheduled_resumed_reqs) = [];
  rn_prefix : forall i, i ∈ l.(scheduled_running_reqs) -> i ∈ take l.(req_index) s.(running);
  rn_index : (l.(req_index) <= length s.(running))%nat;
}.

Lemma sum_embeds_ok r inputs :
  Forall (fun j => (j < length r.(params).(encoder_embeds))%nat) inputs -> exists n, sum_embeds r inputs = Ok n.
Proof.
  intros Hin. unfold sum_embeds.
  assert (exists ns, rmap (fun j => match r.(params).(encoder_embeds) !! j with Some n => Ok n | None => Raise AssertionError end) inputs = Ok ns)
    as [ns ->]; [|by eexists].
  induction Hin as [|j js Hj _ [ns IH]]; [by exists []|]. cbn [rmap]. apply lookup_lt_is_Some_2 in Hj as [n ->]. cbn [rbind]. rewrite IH. by eexists.
Qed.

(** The locals after the victim's tokens were given back. *)
Lemma unschedule_inv T0 s l v restored embeds :
  Inv s [] -> RInv T0 s l -> v ∈ s.(running) ->
  dict_get l.(num_scheduled_tokens) v = Some restored -> v ∈ take l.(req_index) s.(running) ->
  RInv T0 (set_running (drop_req v s.(running)) s)
    (unschedule cfg v restored embeds (set_index (length (drop_req v (take l.(req_index) s.(running)))) l))
  /\ 0 < restored.
Proof.
  intros Hi [[Hn Hk Hb Hmem Hp Ht Hin He Hl Hsp Hcl] [Hn1 Hn2] Hpre Hidx] Hv Hg Hvt. unfold sched_ids in *. rewrite Hn1, Hn2, app_nil_r in *.
  pose proof (inv_nodup _ _ Hi) as Hrun. destruct (total_remove _ _ _ ltac:(by rewrite Hk) Hg) as [Htot Hlen].
  assert (Hr : 0 < restored) by (apply dict_get_in in Hg; exact (proj1 (Forall_forall _ _) Hp _ Hg)).
  assert (Hrem : remove_id v l.(scheduled_running_reqs) = drop_req v l.(scheduled_running_reqs)) by (by apply remove_id_filter).
  assert (Htake : take (length (drop_req v (take l.(req_index) s.(running)))) (drop_req v s.(running)) = drop_req v (take l.(req_index) s.(running))).
  { rewrite (drop_req_split v l.(req_index) s.(running)). by rewrite take_app_length. }
  assert (Hsub : forall i, i ∈ drop_req v l.(scheduled_running_reqs) <-> i <> v /\ i ∈ l.(scheduled_running_reqs)) by (intros i; unfold drop_req; by rewrite list_elem_of_filter).
  split; [|done]. split; [split|done| |]; unfold sched_ids; simpl; rewrite ?Hn1, ?Hn2, ?Hrem, ?app_nil_r; try done.
  - by apply NoDup_filter.
  - rewrite dict_pop_keys. unfold drop_req. by rewrite Hk.
  - rewrite dict_pop_keys. unfold drop_req. by rewrite Hb.
  - intros i [Hne Hi']%Hsub. apply list_elem_of_filter. split; [done|by apply Hmem].
  - apply Forall_forall. intros x Hx%dict_pop_sub. exact (proj1 (Forall_forall _ _) Hp _ Hx).
  - lia.
  - rewrite Hlen in Hin. pose proof (co_draft _ cfg_good). lia.
  - intros i inputs r Hx%dict_pop_sub. by apply He.
  - apply Forall_forall. intros x Hx%dict_pop_sub. exact (proj1 (Forall_forall _ _) Hl _ Hx).
  - intros i toks Hx. pose proof (dict_pop_ne _ _ _ Hx) as Hne. simpl in Hne. rewrite dict_get_pop, decide_False by done. by apply (Hsp i toks), (dict_pop_sub v).
  - intros Has i r [_ Hi']%Hsub. by apply Hcl.
  - intros i [Hne Hi']%Hsub. rewrite Htake. apply list_elem_of_filter. split; [done|by apply Hpre].
  - rewrite (drop_req_split v l.(req_index) s.(running)), length_app. lia.
Qed.

Lemma unscheduled_inv T0 s l v :
  RInv T0 s l -> v ∉ l.(scheduled_running_reqs) ->
  RInv T0 (set_running (drop_req v s.(running)) s) (set_index (length (drop_req v (take l.(req_index) s.(running)))) l).
Proof.
  intros [[Hn Hk Hb Hmem Hp Ht Hin He Hl Hsp Hcl] [Hn1 Hn2] Hpre Hidx] Hv. unfold sched_ids in *. rewrite Hn1, Hn2, app_nil_r in *.
  assert (Hkeep : forall i, i ∈ l.(scheduled_running_reqs) -> i <> v) by (by intros i Hi ->).
  split; [split|done| |]; unfold sched_ids; simpl; rewrite ?Hn1, ?Hn2, ?app_nil_r; try done.
  - intros i Hi. apply list_elem_of_filter. split; [by apply Hkeep|by apply Hmem].
  - intros i Hi. rewrite (drop_req_split v l.(req_index) s.(running)), take_app_length. apply list_elem_of_filter. split; [by apply Hkeep|by apply Hpre].
  - rewrite (drop_req_split v l.(req_index) s.(running)), length_app. lia.
Qed.

Lemma set_index_same l : set_index l.(req_index) l = l.
Proof. by destruct l. Qed.

(** A victim is a running request; its tokens of this step, if any, are given back. *)
Lemma take_victim_spec T0 s l P :
  Inv s [] -> RInv T0 s l -> (l.(req_index) < length s.(running))%nat ->
  (forall v l', v ∈ s.(running) -> RInv T0 (set_running (drop_req v s.(running)) s) l' ->
     l'.(req_index) = length (drop_req v (take l.(req_index) s.(running))) ->
     l.(token_budget) <= l'.(token_budget) -> l.(input_budget) <= l'.(input_budget) ->
     P v (set_running (drop_req v s.(running)) s, l')) ->
  safe (take_victim cfg) (s, l) P.
Proof.
  intros Hi Hr Hidx HP. pose proof (inv_nodup _ _ Hi) as Hnd. unfold take_victim. safe_steps. simpl. destruct (policy_priority cfg).
  - safe_steps. apply safe_get_all.
    { apply Forall_forall. intros i Hin. destruct (inv_running_lookup _ _ i Hi Hin) as (r & Hr0 & _). by exists r. }
    intros rs Hrs. simpl in Hrs. destruct (lowest_priority rs) as [r|] eqn:Hlow.
    2:{ destruct rs as [|r rs]; [|done]. apply Forall2_nil_inv_r in Hrs. rewrite Hrs in Hidx. simpl in Hidx. lia. }
    apply lowest_priority_elem in Hlow. apply list_elem_of_lookup in Hlow as [j Hj].
    destruct (Forall2_lookup_r _ _ _ _ _ Hrs Hj) as (v & Hv & Hrv). simpl in Hrv. pose proof (list_elem_of_lookup_2 _ _ _ Hv) as Hin.
    destruct (inv_running_lookup _ _ v Hi Hin) as (r' & Hr' & Hid & _). assert (r' = r) as -> by congruence. clear Hr'.
    rewrite Hid. destruct (filter_delete v s.(running) Hnd Hin) as [Hdel _]. fold (drop_req v s.(running)) in Hdel. safe_steps. simpl. rewrite Hdel.
    pose proof (drop_req_index v l.(req_index) s.(running) Hnd Hin ltac:(lia)) as Hix.
    assert (Hstep : forall P', P' tt (set_running (drop_req v s.(running)) s, set_index (length (drop_req v (take l.(req_index) s.(running)))) l) ->
      safe (if (index_of v s.(running) <? l.(req_index))%nat then upd_loc (set_index (l.(req_index) - 1)) else ret tt)
        (set_running (drop_req v s.(running)) s, l) P').
    { intros P' HP'. rewrite <- Hix in HP'. destruct (index_of v (running s) <? req_index l)%nat; safe_steps; [exact HP'|].
      by rewrite set_index_same in HP'. }
    apply Hstep. safe_steps. simpl. case_bool_decide as Hs.
    + pose proof Hr as [[_ Hk Hb _ _ _ _ He _ _ _] [Hn1 Hn2] Hpre _]. unfold sched_ids in Hk, Hb. rewrite Hn1, Hn2, app_nil_r in Hk, Hb.
      destruct (proj2 (dict_get_Some l.(num_scheduled_tokens) v)) as [restored Hg]; [by rewrite Hk|].
      destruct (proj2 (dict_get_Some l.(req_to_new_blocks) v)) as [b Hgb]; [by rewrite Hb|]. rewrite Hg, Hgb.
      destruct (sum_embeds_ok r (default [] (dict_get l.(scheduled_encoder_inputs) v))) as [embeds Hem].
      { destruct (dict_get l.(scheduled_encoder_inputs) v) as [inputs|] eqn:Hd; [|constructor]. apply dict_get_in in Hd. by apply (He v). }
      destruct (unschedule_inv T0 s l v restored embeds Hi Hr Hin Hg (Hpre v Hs)) as [Hri Hpos].
      pose proof (co_draft _ cfg_good). safe_steps. eapply safe_lift; [exact Hem|]. safe_steps. apply HP; try done; simpl; lia.
    + safe_steps. apply HP; try done. by apply unscheduled_inv.
  - destruct (s.(running)) as [|i0 run0] eqn:Hrun; [simpl in Hidx; lia|]. rewrite <- Hrun in *.
    destruct (exists_last (l := s.(running)) ltac:(by rewrite Hrun)) as (run & v & Hrv). rewrite Hrv, last_snoc, removelast_last.
    rewrite Hrv in Hnd, Hidx. rewrite length_app in Hidx. simpl in Hidx. safe_steps.
    assert (Hdr : drop_req v s.(running) = run) by (rewrite Hrv; by apply drop_req_last).
    assert (Hvt : v ∉ take l.(req_index) s.(running)).
    { rewrite Hrv, take_app_le by lia. intros Hin. apply NoDup_app in Hnd as (_ & Hd & _). apply (Hd v); [|by left].
      rewrite <- (take_drop l.(req_index) run). apply elem_of_app. by left. }
    assert (Hlen : length (drop_req v (take l.(req_index) s.(running))) = l.(req_index)).
    { rewrite drop_req_notin by done. rewrite length_take, Hrv, length_app. simpl. lia. }
    rewrite <- Hdr. apply (HP v l); [rewrite Hrv; apply elem_of_app; right; by left| |done|lia|lia].
    rewrite <- (set_index_same l), <- Hlen. apply unscheduled_inv; [done|]. intros Hs. by apply Hvt, (rn_prefix _ _ _ Hr).
Qed.

(** The attributes of a request that the locals refer to. *)
Definition counts (r : Req) : Z * Z * Z * Z * list Z :=
  (r.(info).(num_computed_tokens), r.(num_output_placeholders), r.(info).(num_in_flight_tokens), r.(num_stale_output_tokens), r.(spec_token_ids)).

Lemma counts_eq r r' : counts r' = counts r ->
  r'.(info).(num_computed_tokens) = r.(info).(num_computed_tokens) /\ r'.(num_output_placeholders) = r.(num_output_placeholders)
  /\ r'.(info).(num_in_flight_tokens) = r.(info).(num_in_flight_tokens) /\ r'.(num_stale_output_tokens) = r.(num_stale_output_tokens)
  /\ r'.(spec_token_ids) = r.(spec_token_ids).
Proof. unfold counts. intros E. by simplify_eq. Qed.

Definition counts_of s i : option (Z * Z * Z * Z * list Z) := counts <$> s.(requests) !! i.

Lemma linv_transfer T0 s s' l :
  LInv T0 s l -> (forall i, i ∈ s.(running) -> i ∈ s'.(running)) -> evolves s.(requests) s'.(requests) ->
  (forall i, i ∈ sched_ids l -> counts_of s' i = counts_of s i /\ forall n, covers s.(caches) i n -> covers s'.(caches) i n) -> LInv T0 s' l.
Proof.
  intros [Hn Hk Hb Hmem Hp Ht Hin He Hl Hsp Hcl] Hrun Hev Hsame.
  assert (Hkeep : forall i r, i ∈ sched_ids l -> s.(requests) !! i = Some r ->
    exists r', s'.(requests) !! i = Some r' /\ same_core r r' /\ counts r' = counts r).
  { intros i r Hin' Hr. destruct (evolves_lookup _ _ _ _ Hev Hr) as (r' & Hr' & Hc). exists r'. destruct (Hsame i Hin') as [E _].
    unfold counts_of in E. rewrite Hr, Hr' in E. cbn in E. split_and!; [done|done|congruence]. }
  split; try done.
  - intros i Hi. by apply Hrun, Hmem.
  - intros i inputs r' Hx Hr'. specialize (Hev i). rewrite Hr' in Hev. inversion Hev as [r r'' (_ & Hpar & _) E1 E2|]; subst.
    rewrite Hpar. by apply (He i).
  - apply Forall_forall. intros x Hx. destruct (proj1 (Forall_forall _ _) Hl x Hx) as (r & Hr & Hle & Hcov).
    assert (Hid : x.1 ∈ sched_ids l) by (rewrite <- Hk; by apply list_elem_of_fmap_2).
    destruct (Hkeep x.1 r) as (r' & Hr' & _ & (E & _)%counts_eq); [done|done|]. exists r'. rewrite E. split_and!; [done|done|]. by apply Hsame.
  - intros i toks Hx. destruct (Hsp i toks Hx) as (n & r & Hn' & Hr & Hle).
    destruct (Hkeep i r) as (r' & Hr' & Hc & (E1 & E2 & E3 & E4 & E5)%counts_eq); [|done|].
    + rewrite <- Hk. apply dict_get_in in Hn'. by apply (list_elem_of_fmap_2' fst _ _ _ Hn').
    + exists n, r'. rewrite (core_tokens _ _ Hc), E1, E2, E3, E4. done.
  - intros Has i r' Hi Hr'. specialize (Hev i). rewrite Hr' in Hev. inversion Hev as [r r'' _ E1 E2|]; subst.
    destruct (Hkeep i r Hi ltac:(done)) as (x & Hx & _ & (_ & _ & _ & _ & E)%counts_eq). assert (x = r') as -> by congruence. rewrite E. by apply (Hcl Has i).
Qed.

Lemma rinv_transfer T0 s s' l :
  RInv T0 s l -> s'.(running) = s.(running) -> evolves s.(requests) s'.(requests) ->
  (forall i, i ∈ sched_ids l -> counts_of s' i = counts_of s i /\ forall n, covers s.(caches) i n -> covers s'.(caches) i n) -> RInv T0 s' l.
Proof.
  intros [HL Hn Hpre Hidx] Hrun Hev Hsame. split; [|done|by rewrite Hrun|by rewrite Hrun].
  apply (linv_transfer T0 s); [done|by rewrite Hrun|done|done].
Qed.

Lemma rinv_steady T0 s k l : RInv T0 s l -> steady s.(caches) k -> RInv T0 (set_caches k s) l.
Proof. intros Hr Hk. apply (rinv_transfer T0 s); try done. intros i _. split; [done|]. apply (st_covers _ _ Hk). Qed.

(** The request at the index is not scheduled yet. *)
Lemma index_fresh T0 s l i : NoDup s.(running) -> RInv T0 s l -> s.(running) !! l.(req_index) = Some i -> i ∉ sched_ids l.
Proof.
  intros Hnd [_ [Hn1 Hn2] Hpre _] Hat. unfold sched_ids. rewrite Hn1, Hn2, app_nil_r. intros Hs. apply Hpre in Hs.
  apply list_elem_of_lookup in Hs as [j Hj]. apply lookup_take_Some in Hj as [Hj Hjlt]. pose proof (NoDup_lookup _ _ _ _ Hnd Hj Hat). lia.
Qed.

(** The cache did something for [i] only. *)
Lemma rinv_touches T0 s k l i : RInv T0 s l -> touches i s.(caches) k -> i ∉ sched_ids l -> RInv T0 (set_caches k s) l.
Proof.
  intros Hr Hk Hi. apply (rinv_transfer T0 s); try done. intros j Hj. split; [done|]. intros n. apply (tc_covers _ _ _ Hk). by intros ->.
Qed.

Lemma held_running s i r k m :
  Held s -> s.(requests) !! i = Some r -> r.(info).(status) = RUNNING -> touches i s.(caches) k ->
  covers k i m -> r.(info).(num_computed_tokens) <= m -> Held (set_caches k s).
Proof.
  intros [_ H2] Hr Hs Hk Hc Hm. split; [apply Hk|]. intros j. destruct (decide (j = i)) as [->|Hne]; [|by apply (held_touches i _ s.(caches))].
  specialize (H2 i). simpl. rewrite Hr in *. simpl in *. rewrite bool_decide_true in * by done. split; [apply H2|]. by apply (cl_covers _ _ m).
Qed.

Lemma held_of_running s i r : Held s -> s.(requests) !! i = Some r -> r.(info).(status) = RUNNING ->
  0 <= r.(info).(num_computed_tokens) /\ covers s.(caches) i r.(info).(num_computed_tokens).
Proof. intros [_ H2] Hr Hs. specialize (H2 i). rewrite Hr in H2. simpl in H2. by rewrite bool_decide_true in H2. Qed.

Lemma rinv_add_preempted T0 s l v : RInv T0 s l -> RInv T0 s (add_preempted v l).
Proof. intros [[] ? ? ?]. by split; [split|..]. Qed.

(** After a victim was preempted, the request at the index is still there, unless it was
    the victim. *)
Lemma drop_req_keeps v i idx (run : list string) :
  run !! idx = Some i -> v <> i ->
  drop_req v run !! length (drop_req v (take idx run)) = Some i
  /\ (length (drop_req v run) - length (drop_req v (take idx run)) <= length run - idx)%nat.
Proof.
  intros Hi Hne. rewrite (drop_req_split v idx run), (drop_S _ _ _ Hi), drop_req_cons by done.
  split; [by rewrite lookup_app_r, Nat.sub_diag by lia|]. rewrite length_app. simpl.
  pose proof (length_filter (fun x => x <> v) (drop (S idx) run)) as Hf. fold (drop_req v (drop (S idx) run)) in Hf.
  rewrite length_drop in Hf. apply lookup_lt_Some in Hi. lia.
Qed.

Lemma allocate_or_preempt_spec T0 fuel i r n s l P :
  Inv s [] -> Held s -> RInv T0 s l -> s.(running) !! l.(req_index) = Some i -> s.(requests) !! i = Some r -> (length s.(running) < fuel)%nat ->
  0 < n -> r.(info).(num_computed_tokens) + n <= cfg.(max_model_len) ->
  (forall o s' l', Inv s' [] -> Held s' -> RInv T0 s' l' -> frame s s' -> keeps_plans s.(caches) s'.(caches) ->
     l.(token_budget) <= l'.(token_budget) -> l.(input_budget) <= l'.(input_budget) ->
     (is_Some o -> s'.(running) !! l'.(req_index) = Some i /\ s'.(requests) !! i = Some r
        /\ covers s'.(caches) i (r.(info).(num_computed_tokens) + n)
        /\ (length s'.(running) - l'.(req_index) <= length s.(running) - l.(req_index))%nat) -> P o (s', l')) ->
  safe (allocate_or_preempt cfg fuel i n) (s, l) P.
Proof.
  revert s l P. induction fuel as [|fuel IH]; intros s l P Hi Hh Hr Hat Hri Hfuel Hn Hml HP; [lia|]. cbn [allocate_or_preempt].
  pose proof (list_elem_of_lookup_2 _ _ _ Hat) as Hin. destruct (inv_running_lookup _ _ i Hi Hin) as (r' & Hri' & Hid & Hst).
  assert (r' = r) as -> by congruence. clear Hri'. destruct (held_of_running _ _ _ Hh Hri Hst) as [Hpos Hcov]. pose proof (inv_nodup _ _ Hi) as Hnd.
  pose proof (index_fresh _ _ _ _ Hnd Hr Hat) as Hfresh.
  safe_steps. apply (safe_get i r); [done|]. safe_steps.
  eapply safe_call; [apply cl_grow; rewrite ?Hid; try done; [apply Hh|by apply (inv_fine s [] i)]|]. rewrite Hid. intros o k _ [Ht Hc]. simpl.
  assert (Hh1 : Held (set_caches k s)) by (eapply (held_running s i r); try done; destruct o; lia).
  assert (Hr1 : RInv T0 (set_caches k s) l) by (by apply (rinv_touches T0 s k l i)).
  assert (Hi1 : Inv (set_caches k s) []) by (by apply inv_set_caches).
  assert (Hf1 : frame s (set_caches k s)) by (destruct Ht; by split).
  destruct o as [b|].
  { safe_steps. apply HP; try done. exact (tc_plans _ _ _ Ht). }
  safe_step. apply (take_victim_spec T0); [done|done|simpl; by eapply lookup_lt_Some|].
  intros v l' Hv Hr' Hix Htb Hip. simpl in Hv, Hix, Htb, Hip. safe_steps. simpl. pose proof (drop_req_perm v _ Hnd Hv) as Hperm.
  apply (preempt_spec v false _ []); [|by destruct Hh1|].
  { simpl. destruct Hi as [H1 H2 H3 H4 H5 H6]. split; simpl; try done.
    - unfold queued in *. simpl in *. by rewrite <- Hperm.
    - pose proof (Permutation_length Hperm) as Hl. simpl in Hl. lia. }
  intros s' Hi' Hh' Hf' Ht' Hrun' Hoth. simpl in Hrun', Hoth, Ht'. safe_steps. simpl.
  assert (Hnv : v ∉ drop_req v s.(running)) by (intros [? _]%list_elem_of_filter; done).
  assert (Hr2 : RInv T0 s' (add_preempted v l')).
  { apply rinv_add_preempted. apply (rinv_transfer T0 _ s' l' Hr'); [done|apply Hf'|]. intros j Hj. apply (li_member _ _ _ (rn_locals _ _ _ Hr')) in Hj.
    simpl in Hj. assert (j <> v) by (by intros ->). unfold counts_of. simpl. rewrite Hoth by done. split; [done|]. intros m. by apply (tc_covers _ _ _ Ht'). }
  assert (Hf : frame s s') by (transitivity (set_caches k s); [done|destruct Hf'; by split]). 
  assert (Hpl : keeps_plans s.(caches) s'.(caches)) by (intros j ids Hj; by apply (tc_plans _ _ _ Ht'), (tc_plans _ _ _ Ht)).
  case_bool_decide as Hvi.
  { safe_steps. by apply HP. }
  destruct (drop_req_keeps v i _ _ Hat Hvi) as [Hat' Hlen']. rewrite <- Hrun', <- Hix in Hat'. rewrite <- Hrun', <- Hix in Hlen'.
  apply (IH s' (add_preempted v l')); try done.
  { rewrite Hoth; [done|]. by intros ->. }
  { rewrite Hrun'. pose proof (Permutation_length Hperm) as Hl. simpl in Hl. lia. }
  intros o s2 l2 Hi2 Hh2 Hr3 Hf2 Hpl2 Ht2 Hip2 Ho. simpl in Ht2, Hip2. apply HP; try done; [by transitivity s'|intros j ids Hj; by apply Hpl2, Hpl|lia|lia|].
  intros Hs. destruct (Ho Hs) as (H1 & H2 & H3 & H4). split_and!; [done..|simpl in H4; lia].
Qed.

(** ** Token counts *)

Lemma reserve_bounds r nc n : 0 <= reserve_prefill_lookahead cfg r nc n <= Z.max 0 n.
Proof. unfold reserve_prefill_lookahead. destruct ((0 <? _) && (_ <? _)) eqn:Hc; [|lia]. apply andb_true_iff in Hc as [H1 H2]. lia. Qed.

Lemma foldl_min_le z zs : foldl Z.min z zs <= z.
Proof. revert z. induction zs as [|y zs IH]; intros z; simpl; [lia|]. specialize (IH (Z.min z y)). lia. Qed.

(** The Mamba split only shortens the chunk. *)
Lemma mamba_bounds r n loc_ ext : 0 < cfg.(mamba_block_size) -> mamba_block_aligned_split cfg r n loc_ ext <= Z.max 0 n.
Proof.
  intros Hb. unfold mamba_block_aligned_split. set (start := _ + loc_ + ext). destruct (_ <=? start); [lia|].
  set (bs := mamba_block_size cfg) in *. set (cond := _ && (_ || _)).
  assert (He : (if cond then (start + n) / bs * bs else start + n) <= start + n).
  { destruct cond; [|lia]. pose proof (Z.mul_div_le (start + n) bs Hb). lia. }
  set (end_ := if cond then _ else _) in *. set (stops := [_; _; _; _]).
  destruct (filter _ stops) as [|z zs] eqn:Hf; [lia|]. pose proof (foldl_min_le z zs).
  assert (Hz : z ∈ filter (fun x => start < x < end_) stops) by (rewrite Hf; by left). apply list_elem_of_filter in Hz as [Hz _]. lia.
Qed.

Lemma running_new_tokens_bounds r l :
  let n := running_new_tokens cfg r l in
  0 < n -> n <= l.(token_budget) /\ n <= l.(input_budget) - cfg.(draft_slots)
           /\ r.(info).(num_computed_tokens) + n <= cfg.(max_model_len).
Proof.
  unfold running_new_tokens. pose proof (co_spec _ cfg_good).
  match goal with |- context [if need_mamba_block_aligned_split cfg then mamba_block_aligned_split cfg r ?m 0 0 else _] => set (n := m) end.
  assert (n <= l.(token_budget) /\ n <= l.(input_budget) - cfg.(draft_slots) /\ n <= cfg.(max_model_len) - r.(info).(num_computed_tokens)) by lia.
  destruct (need_mamba_block_aligned_split cfg) eqn:Hm; [|lia].
  pose proof (mamba_bounds r n 0 0 (co_mamba _ cfg_good Hm)). lia.
Qed.

Lemma plan_encoder_spec r nc n s l P :
  cache_inv s.(caches) -> req_fine cfg r ->
  (forall inputs n' budget ext k, steady s.(caches) k -> (forall i b m, offers s.(caches) i b m -> offers k i b m) ->
     plans k (rid r) (inputs ++ ext) ->
     n' <= Z.max 0 n -> (n' = n \/ n' <= Z.max 0 (num_tokens r - 1 - nc)) ->
     Forall (fun j => (j < length r.(params).(encoder_embeds))%nat) inputs ->
     P (inputs, n', budget, ext) (set_caches k s, l)) ->
  safe (plan_encoder r nc n) (s, l) P.
Proof.
  intros Hk Hfine HP. unfold plan_encoder. safe_steps. simpl. destruct (has_encoder_inputs r); safe_steps.
  - eapply safe_call; [by apply cl_encoder|]. intros [[[inputs n'] budget] ext] k _ (H1 & H2 & H3 & H4 & H5 & H6). by apply HP.
  - replace s with (set_caches s.(caches) s) by (by destruct s).
    apply HP; [by apply steady_refl|done|by apply (cl_no_plan (cfg := cfg))|lia|by left|constructor].
Qed.

(** Planned inputs are allocated one after the other. *)
Lemma allocate_inputs_spec r js rest s P :
  cache_inv s.(caches) -> plans s.(caches) (rid r) (js ++ rest) ->
  (forall k, steady s.(caches) k -> plans k (rid r) rest -> P tt (set_caches k s)) ->
  safe (for_each js (fun j => call (op_allocate_encoder r j))) s P.
Proof.
  intros Hk Hpl HP. apply (safe_for_each _ (fun js s' => exists k, s' = set_caches k s /\ steady s.(caches) k /\ plans k (rid r) (js ++ rest))).
  - exists s.(caches). split_and!; [by destruct s|by apply steady_refl|done].
  - intros j js' s' (k & -> & Hs & Hp). eapply safe_call; [apply (cl_allocate_encoder r j (js' ++ rest)); [apply Hs|done]|].
    intros [] k' _ [Hk' Hp']. exists k'. split_and!; [done| |done]. by apply (steady_trans _ k).
  - intros s' (k & -> & Hs & Hp). by apply HP.
Qed.

(** ** The pass over the running requests *)

Lemma schedule_running_req_inv T0 s l r i b n :
  Inv s [] -> RInv T0 s l -> s.(running) !! l.(req_index) = Some i -> rid r = i ->
  0 < n -> n <= l.(token_budget) -> n <= l.(input_budget) - cfg.(draft_slots) ->
  (exists r', s.(requests) !! i = Some r' /\ r'.(info).(num_computed_tokens) + n <= cfg.(max_model_len)
     /\ covers s.(caches) i (r'.(info).(num_computed_tokens) + n) /\ r'.(spec_token_ids) = []) ->
  RInv T0 s (schedule_running_req cfg r b n l).
Proof.
  intros Hi Hr Hat Hid Hpos Hnt Hni (r' & Hr' & Hml & Hcov & Hspec). pose proof (inv_nodup _ _ Hi) as Hnd.
  pose proof (index_fresh _ _ _ _ Hnd Hr Hat) as Hnew. destruct Hr as [[Hn Hk Hb Hmem Hp Ht Hin He Hl Hsp Hcl] [Hn1 Hn2] Hpre Hidx].
  unfold sched_ids in *. rewrite Hn1, Hn2, app_nil_r in *.
  pose proof (take_S_r _ _ _ Hat) as Htake. pose proof (list_elem_of_lookup_2 _ _ _ Hat) as Hrun.
  split; [split|done| |]; unfold sched_ids; simpl; rewrite ?Hn1, ?Hn2, ?app_nil_r, ?Hid; try done.
  - apply NoDup_app. split_and!; [done| |by apply NoDup_singleton]. intros x Hx ->%list_elem_of_singleton. done.
  - rewrite dict_set_new by (by rewrite Hk). rewrite fmap_app. simpl. by rewrite Hk.
  - rewrite dict_set_new by (by rewrite Hb). rewrite fmap_app. simpl. by rewrite Hb.
  - intros x [Hx| ->%list_elem_of_singleton]%elem_of_app; [by apply Hmem|done].
  - rewrite dict_set_new by (by rewrite Hk). apply Forall_app. split; [done|by repeat constructor].
  - rewrite dict_set_new by (by rewrite Hk). rewrite total_app. unfold total at 2. simpl. lia.
  - rewrite dict_set_new by (by rewrite Hk). rewrite total_app, length_app. unfold total at 2. simpl. lia.
  - rewrite dict_set_new by (by rewrite Hk). apply Forall_app. split; [done|]. repeat constructor. by exists r'.
  - intros j toks Hx. destruct (Hsp j toks Hx) as (m & x & Hm & Hx'). exists m, x. rewrite dict_set_new by (by rewrite Hk). by split; [apply dict_get_app|].
  - intros Has j x [Hj| ->%list_elem_of_singleton]%elem_of_app Hx; [by apply (Hcl Has j)|]. by assert (x = r') as -> by congruence.
  - rewrite Htake. intros x [Hx| ->%list_elem_of_singleton]%elem_of_app; apply elem_of_app; [left; by apply Hpre|right; by left].
  - apply lookup_lt_Some in Hat. lia.
Qed.

(** Locals that differ in drafts and encoder inputs only. *)
Record same_sched l l' : Prop := {
  ss_running : l'.(scheduled_running_reqs) = l.(scheduled_running_reqs);
  ss_new : l'.(scheduled_new_reqs) = l.(scheduled_new_reqs);
  ss_resumed : l'.(scheduled_resumed_reqs) = l.(scheduled_resumed_reqs);
  ss_index : l'.(req_index) = l.(req_index);
  ss_preempted : l'.(preempted_reqs) = l.(preempted_reqs);
  ss_loras : l'.(scheduled_loras) = l.(scheduled_loras);
}.

#[local] Instance same_sched_preorder : PreOrder same_sched.
Proof. split; [by intros l; split|]. intros l1 l2 l3 [] []. split; congruence. Qed.

Lemma rinv_same_sched T0 s s' l l' : RInv T0 s l -> s'.(running) = s.(running) -> same_sched l l' -> LInv T0 s' l' -> RInv T0 s' l'.
Proof.
  intros [_ [Hn1 Hn2] Hpre Hidx] Hrun [E1 E2 E3 E4 E5 E6] HL. split; [done|split; congruence| |]; by rewrite ?E1, ?E4, ?Hrun.
Qed.

(** A request gives its drafts up. *)
Definition undrafted i s : State K Q := set_requests (alter (set_spec []) i) s.

Lemma undrafted_spec i s ex : Inv s ex -> Held s -> Inv (undrafted i s) ex /\ Held (undrafted i s) /\ frame s (undrafted i s).
Proof.
  intros Hi Hh. destruct (inv_upd i (set_spec []) s ex Hi) as [Hi' Hf'].
  { intros r' _. split; [|by apply acct_same]. split_and!; try done. intros (H1 & H2 & _). by split_and!. }
  split_and!; [done| |done]. by apply held_alter.
Qed.

Lemma undrafted_same i r s : s.(requests) !! i = Some r -> r.(spec_token_ids) = [] -> undrafted i s = s.
Proof.
  intros Hr Hs. unfold undrafted, set_requests. destruct s. simpl in *. f_equal. apply map_eq. intros j.
  destruct (decide (i = j)) as [<-|Hne]; [|by rewrite lookup_alter_ne]. rewrite lookup_alter_eq, Hr. simpl. f_equal. destruct r. simpl in *. by subst.
Qed.

Lemma commit_spec_spec T0 r n s l P :
  LInv T0 (undrafted (rid r) s) l -> s.(requests) !! rid r = Some r -> flight_fine r -> dict_get l.(num_scheduled_tokens) (rid r) = Some n ->
  (forall l', LInv T0 (undrafted (rid r) s) l' -> same_sched l l' -> P tt (undrafted (rid r) s, l')) -> safe (commit_spec r n) (s, l) P.
Proof.
  intros HL Hr (_ & _ & Hfine) Hn HP. unfold commit_spec. case_bool_decide as Hsp; safe_steps.
  { rewrite <- (undrafted_same (rid r) r s) by done. by apply HP. }
  destruct (_ >? 0) eqn:Hk; safe_steps; simpl; [|by apply HP]. apply HP; [|done].
  pose proof HL as [A1 A2 A3 A4 A5 A6 A7 A8 A9 A10 A11]. split; try done. simpl. intros i toks Hx.
  destruct (dict_set_elem _ _ _ _ _ Hx) as [Hx'|[-> ->]]; [by apply (A10 i toks)|]. exists n, (set_spec [] r).
  rewrite lookup_alter_eq, Hr. split_and!; [done|done| |intros Has; by apply Hfine].
  rewrite length_take. unfold num_tokens. simpl. unfold num_tokens in *. lia.
Qed.

Lemma linv_steady T0 s k l : LInv T0 s l -> steady s.(caches) k -> LInv T0 (set_caches k s) l.
Proof. intros HL Hk. apply (linv_transfer T0 s); try done. intros i _. split; [done|]. apply (st_covers _ _ Hk). Qed.

Lemma commit_encoder_spec T0 r inputs budget ext s l P :
  LInv T0 s l -> Forall (fun j => (j < length r.(params).(encoder_embeds))%nat) inputs ->
  (forall r', s.(requests) !! rid r = Some r' -> r'.(params) = r.(params)) -> cache_inv s.(caches) ->
  plans s.(caches) (rid r) (inputs ++ ext) ->
  (forall k l', steady s.(caches) k -> LInv T0 (set_caches k s) l' -> same_sched l l' -> P tt (set_caches k s, l')) ->
  safe (commit_encoder r inputs budget ext) (s, l) P.
Proof.
  intros HL Hin Hpar Hci Hpl HP. unfold commit_encoder.
  assert (Hend : forall k l', steady s.(caches) k -> plans k (rid r) ext -> LInv T0 s l' -> same_sched l l' ->
    safe (for_each ext (fun j => call (op_allocate_encoder r j))) (set_caches k s) (fun a s' => P a (s', l'))).
  { intros k l' Hk Hpk HL' Hs. apply (allocate_inputs_spec r ext []); [apply Hk|by rewrite app_nil_r|]. intros k' Hk' _. simpl in Hk'.
    assert (steady s.(caches) k') by (by apply (steady_trans _ k)). apply HP; [done|by apply linv_steady|done]. }
  case_bool_decide as He; safe_steps.
  - subst inputs. replace s with (set_caches s.(caches) s) by (by destruct s). apply Hend; [by apply steady_refl|done..].
  - apply (allocate_inputs_spec r inputs ext); [done|done|]. intros k Hk Hpk. safe_steps. simpl. apply Hend; [done|done| |by split].
    destruct HL as [A1 A2 A3 A4 A5 A6 A7 A8 A9 A10 A11]. split; try done. simpl. intros i js r' Hx Hr'.
    destruct (dict_set_elem _ _ _ _ _ Hx) as [Hd|[-> ->]]; [by apply (A8 i)|]. by rewrite (Hpar r' Hr').
Qed.

(** The request at the index is scheduled and gives its drafts up. *)
Lemma schedule_one_spec T0 r i b n s l P :
  Inv s [] -> Held s -> RInv T0 s l -> s.(running) !! l.(req_index) = Some i -> s.(requests) !! i = Some r -> rid r = i ->
  0 < n -> n <= l.(token_budget) -> n <= l.(input_budget) - cfg.(draft_slots) -> r.(info).(num_computed_tokens) + n <= cfg.(max_model_len) ->
  covers s.(caches) i (r.(info).(num_computed_tokens) + n) ->
  (forall l', RInv T0 (undrafted i s) l' -> l'.(req_index) = S l.(req_index) -> P tt (undrafted i s, l')) ->
  safe (commit_spec r n) (s, schedule_running_req cfg r b n l) P.
Proof.
  intros Hi Hh Hr Hat Hri Hid Hn Hnt Hni Hml Hcov HP. destruct (undrafted_spec i s [] Hi Hh) as (Hi1 & _ & Hf1).
  assert (Hr1 : RInv T0 (undrafted i s) l).
  { apply (rinv_transfer T0 s); [done|done|apply Hf1|]. intros j Hj. split; [|done]. unfold counts_of. simpl. rewrite lookup_alter_ne; [done|].
    intros <-. by apply (index_fresh _ _ _ _ (inv_nodup _ _ Hi) Hr Hat). }
  assert (Hr2 : RInv T0 (undrafted i s) (schedule_running_req cfg r b n l)).
  { apply (schedule_running_req_inv T0 _ l r i b n); try done. exists (set_spec [] r). simpl. by rewrite lookup_alter_eq, Hri. }
  apply (commit_spec_spec T0); rewrite ?Hid; [apply Hr2|done|by apply (iv_flight _ _ Hi i)|simpl; rewrite Hid; by apply dict_get_set_eq|].
  intros l' HL' Hs'. apply HP; [by apply (rinv_same_sched T0 _ _ _ l' Hr2)|]. by rewrite (ss_index _ _ Hs').
Qed.

Lemma schedule_running_spec T0 fuel defer s l P :
  Inv s [] -> Held s -> RInv T0 s l -> (length s.(running) - l.(req_index) < fuel)%nat ->
  (forall s' l', Inv s' [] -> Held s' -> RInv T0 s' l' -> frame s s' -> P tt (s', l')) ->
  safe (schedule_running cfg fuel defer) (s, l) P.
Proof.
  revert s l P. induction fuel as [|fuel IH]; intros s l P Hi Hh Hr Hfuel HP; [lia|]. cbn [schedule_running]. safe_steps. unfold id. cbv beta iota.
  destruct (s.(running) !! l.(req_index)) as [i|] eqn:Hat; [|by apply HP]. destruct (negb _); [by apply HP|].
  pose proof (list_elem_of_lookup_2 _ _ _ Hat) as Hin. destruct (inv_running_lookup _ _ i Hi Hin) as (r & Hri & Hid & _).
  pose proof (lookup_lt_Some _ _ _ Hat) as Hlt.
  assert (Hskip : forall k, steady s.(caches) k ->
    safe (upd_loc (set_index (S l.(req_index))) ;; schedule_running cfg fuel defer) (set_caches k s, l) P).
  { intros k Hk. safe_steps. simpl. apply (IH (set_caches k s)); [by apply inv_set_caches|by apply held_set_caches| |simpl; lia|].
    - destruct (rinv_steady T0 s k l Hr Hk) as [[] ? Hpre ?].
      split; [by split|done| |simpl; lia]. simpl. intros j Hj. rewrite (take_S_r _ _ _ Hat). apply elem_of_app. left. by apply Hpre.
    - intros s' l' H1 H2 H3 H4. apply HP; try done. transitivity (set_caches k s); [by apply frame_set_caches|done]. }
  safe_steps. apply (safe_get i r); [done|]. destruct (_ <=? draft_slots cfg); [by apply HP|]. destruct (skip_running _ _ _).
  { replace s with (set_caches s.(caches) s) by (by destruct s). apply Hskip, steady_refl, Hh. }
  safe_step. apply plan_encoder_spec; [apply Hh|by apply (inv_fine s [] i)|]. intros inputs n budget ext k Hk _ Hpl Hn _ Hinp. cbv beta iota.
  pose proof (reserve_bounds r r.(info).(num_computed_tokens) n) as Hrb. set (n' := reserve_prefill_lookahead _ _ _ _) in *.
  destruct (Z.eqb_spec n' 0) as [|Hnz]; [by apply Hskip|].
  pose proof (running_new_tokens_bounds r l) as Hb. cbv zeta in Hb. specialize (Hb ltac:(lia)). destruct Hb as (Hb1 & Hb2 & Hb3).
  safe_step. apply (allocate_or_preempt_spec T0 _ i r); [by apply inv_set_caches|by apply held_set_caches|by apply rinv_steady|done|done|simpl; lia|lia|lia|].
  intros o s1 l1 Hi1 Hh1 Hr1 Hf1 Hpl1 Ht1 Hip1 Ho. assert (Hfs : frame s s1) by (transitivity (set_caches k s); [by apply frame_set_caches|done]).
  destruct o as [b|]; [|by apply HP]. destruct (Ho ltac:(by eexists)) as (Hat1 & Hr1i & Hcov1 & Hlen1). simpl in Hlen1.
  safe_steps. simpl. apply (schedule_one_spec T0 r i b n'); try done; try (simpl in *; lia).
  intros l2 Hr2 Hidx2. destruct (undrafted_spec i s1 [] Hi1 Hh1) as (Hi2 & Hh2 & Hf2).
  safe_step. apply (commit_encoder_spec T0 r inputs budget ext _ l2); [apply Hr2|done| |apply Hh2|by apply Hpl1|].
  { intros r' Hr'. rewrite Hid in Hr'. destruct (evolves_lookup _ _ _ _ (fr_evolves _ _ Hf2) Hr1i) as (r2 & E & (_ & Hp & _)). congruence. }
  intros k3 l3 Hk3 HL3 Hs3. apply (IH (set_caches k3 (undrafted i s1)) l3); [by apply inv_set_caches|by apply held_set_caches| | |].
  - by apply (rinv_same_sched T0 (undrafted i s1) _ l2).
  - simpl. rewrite (ss_index _ _ Hs3), Hidx2. lia.
  - intros s' l' H1 H2 H3 H4. apply HP; try done. transitivity (set_caches k3 (undrafted i s1)); [|done].
    transitivity (undrafted i s1); [by transitivity s1|by apply frame_set_caches].
Qed.
End schedule.
