(* ===== verification/SchedulerStep.v ===== *)
(** * A scheduling step, from the waiting queue to the output

    The pass over the waiting requests, the building of the output and [schedule] as a
    whole, on top of the invariants and the running pass of [SchedulerProps]. *)

From S2P Require Import Prelude KVManager RequestQueue Scheduler SchedulerProps.

Lemma fmap_of_Forall2 {A C : Type} (f : C -> A) xs cs : Forall2 (fun x c => f c = x) xs cs -> f <$> cs = xs.
Proof. induction 1 as [|x c xs cs <- _ IH]; [done|]. by rewrite fmap_cons, IH. Qed.

Section schedule.
Context {K B X Q : Type} `{!Raises} `{!CacheOps K B X} `{!CacheModel K B} `{!QueueOps Q} `{!QueueLaws Q}.
Context (cfg : SchedConfig) (cfg_good : cfg_ok cfg) `{!CacheLaws cfg K B X}.
Implicit Types (s : State K Q) (l : Locals B) (i : string).

(** ** Queues *)

(** Steps that move no request, compute nothing and take nothing from a request. *)
Record quiet s s' : Prop := {
  qt_frame : frame s s';
  qt_running : s'.(running) = s.(running);
  qt_queues : s'.(waiting) = s.(waiting) /\ s'.(skipped_waiting) = s.(skipped_waiting);
  qt_counts : forall i, counts_of s' i = counts_of s i;
  qt_covers : forall i n, covers s.(caches) i n -> covers s'.(caches) i n;
}.

#[local] Instance quiet_preorder : PreOrder quiet.
Proof.
  split; [by intros s; split|]. intros s1 s2 s3 [A1 A2 [A3 A4] A5 A6] [B1 B2 [B3 B4] B5 B6].
  split; [by transitivity s2|congruence|split; congruence| |auto]. intros i. by rewrite B5.
Qed.

Lemma quiet_linv T0 s s' l : quiet s s' -> LInv cfg T0 s l -> LInv cfg T0 s' l.
Proof.
  intros [Hf Hrun _ Hc Hcov] HL. apply (linv_transfer cfg T0 s); [done|by rewrite Hrun|apply Hf|]. intros i _. split; [apply Hc|apply Hcov].
Qed.

Lemma quiet_caches k s : steady s.(caches) k -> quiet s (set_caches k s).
Proof. intros Hk. split; try done; [by apply frame_set_caches|apply Hk]. Qed.

Definition status_of s i : option RequestStatus := (fun r => r.(info).(status)) <$> s.(requests) !! i.

(** An assignment that leaves the request in its place and its counts alone. *)
Lemma quiet_upd i f s ex :
  Inv cfg s ex -> Held s ->
  (forall r, s.(requests) !! i = Some r -> keeps cfg f r /\ acct r (f r) /\ counts (f r) = counts r
     /\ (r.(info).(status) = RUNNING <-> (f r).(info).(status) = RUNNING)) ->
  let s' := set_requests (alter f i) s in Inv cfg s' ex /\ Held s' /\ quiet s s'.
Proof.
  intros Hi Hh Hf s'. destruct (inv_upd cfg i f s ex Hi) as [Hi' Hfr].
  { intros r Hr. by destruct (Hf r Hr) as (H1 & H2 & _). }
  split_and!; [done| |].
  - apply held_alter; [done|]. intros r Hr. destruct (Hf r Hr) as (_ & _ & (E & _)%counts_eq & Hs). done.
  - split; try done. intros j. unfold counts_of. simpl.
    destruct (decide (i = j)) as [<-|Hne]; [|by rewrite lookup_alter_ne]. rewrite lookup_alter_eq.
    destruct (s.(requests) !! i) as [r|] eqn:Hr; [|done]. simpl. by destruct (Hf r eq_refl) as (_ & _ & -> & _).
Qed.

(** A request that waits holds nothing. *)
Lemma held_of_waiting s i r : Held s -> s.(requests) !! i = Some r -> waiting_ok r -> unused s.(caches) i.
Proof. intros [_ H2] Hr [Hs _]. specialize (H2 i). rewrite Hr in H2. simpl in H2. by rewrite bool_decide_false in H2. Qed.

Definition chosen (skipped : bool) s : Q := if skipped then s.(skipped_waiting) else s.(waiting).

Definition set_chosen (skipped : bool) (q : Q) s : State K Q :=
  if skipped then set_queues s.(waiting) q s else set_queues q s.(skipped_waiting) s.

Lemma safe_on_queue {A} skipped (op : M Q A) a q s l P :
  op (chosen skipped s) = (Ok a, q) -> P a (set_chosen skipped q s, l) -> safe (on_queue skipped op) (s, l) P.
Proof. intros Hop HP. unfold on_queue. safe_steps. destruct skipped; safe_steps; by eapply safe_eq. Qed.

Lemma set_chosen_same skipped s : set_chosen skipped (chosen skipped s) s = s.
Proof. by destruct s, skipped. Qed.

Lemma inv_ex_perm s ex ex' : ex ≡ₚ ex' -> Inv cfg s ex -> Inv cfg s ex'.
Proof. intros Hp [H1 H2 H3 H4 H5 H6]. split; try done. by rewrite <- Hp. Qed.

(** The head of the chosen queue, and the state without it. *)
Lemma front_spec skipped s ex :
  Inv cfg s ex -> queue_elems (chosen skipped s) <> [] ->
  exists q qs', peek_request (chosen skipped s) = (Ok q, chosen skipped s) /\ pop_request (chosen skipped s) = (Ok q, qs')
    /\ Inv cfg (set_chosen skipped qs' s) (q :: ex)
    /\ length (queued s) = S (length (queued (set_chosen skipped qs' s))).
Proof.
  intros [[Hq1 Hq2] Hb Hm Hst Hlen Hfl] Hne.
  assert (Hqi : queue_inv (chosen skipped s)) by (by destruct skipped).
  destruct (ql_front _ Hqi Hne) as (q & qs' & Hpeek & Hpop & Hqi' & Hp). exists q, qs'. split_and!; [done..| |].
  - split; [by destruct skipped| |by destruct skipped..].
    assert (Hperm : queued (set_chosen skipped qs' s) ++ q :: ex ≡ₚ queued s ++ ex).
    { unfold queued, chosen, set_chosen in *. destruct skipped; simpl; rewrite Hp; solve_Permutation. }
    destruct skipped; simpl in *; by rewrite Hperm.
  - unfold queued, chosen, set_chosen in *. destruct skipped; simpl; rewrite !length_app; apply Permutation_length in Hp; simpl in Hp; lia.
Qed.

Lemma select_spec s l ex P :
  Inv cfg s ex -> queued s <> [] -> (forall skipped, queue_elems (chosen skipped s) <> [] -> P skipped (s, l)) ->
  safe (select_skipped cfg) (s, l) P.
Proof.
  intros Hi Hne HP. pose proof Hi as [[Hq1 Hq2] _ _ _ _ _]. unfold select_skipped. safe_steps. simpl.
  rewrite (ql_len _ Hq1), (ql_len _ Hq2).
  assert (Hw : queue_elems s.(waiting) <> [] \/ queue_elems s.(skipped_waiting) <> []).
  { unfold queued in Hne. destruct (queue_elems s.(waiting)); [right|by left]. done. }
  destruct (policy_priority cfg); simpl.
  - destruct (queue_elems s.(waiting)) as [|w ws] eqn:Ew; simpl.
    { safe_steps. apply HP. simpl. by destruct Hw. }
    destruct (queue_elems s.(skipped_waiting)) as [|k ks] eqn:Ek; simpl.
    { safe_steps. apply HP. simpl. by rewrite Ew. }
    destruct (ql_front _ Hq1 ltac:(by rewrite Ew)) as (q1 & q1' & Hp1 & _). destruct (ql_front _ Hq2 ltac:(by rewrite Ek)) as (q2 & q2' & Hp2 & _).
    safe_steps. simpl. eapply safe_eq; [exact Hp1|]. safe_steps. simpl. eapply safe_eq; [exact Hp2|]. safe_steps. simpl.
    replace (set_queues _ _ _) with s by (by destruct s). apply HP. destruct (negb _); simpl; by rewrite ?Ew, ?Ek.
  - safe_steps. apply HP. destruct (queue_elems s.(skipped_waiting)) eqn:Ek; simpl; [|by rewrite Ek]. by destruct Hw.
Qed.

(** ** The plan for a waiting request *)

Lemma must_skip_spec i r s l ex P :
  Inv cfg s ex -> Held s -> s.(requests) !! i = Some r -> waiting_ok r ->
  (forall b s', Inv cfg s' ex -> Held s' -> quiet s s' ->
     (b = false -> status_of s' i = Some WAITING \/ status_of s' i = Some PREEMPTED) -> P b (s', l)) ->
  safe (must_skip cfg i) (s, l) P.
Proof.
  intros Hi Hh Hr (Hs & Hfin & _) HP. unfold must_skip. safe_steps. apply (safe_get i r); [done|].
  assert (Hrest : forall s', Inv cfg s' ex -> Held s' -> quiet s s' -> (status_of s' i = Some WAITING \/ status_of s' i = Some PREEMPTED) ->
    safe (if negb true then ret true else
      if (r.(num_stale_output_tokens) >? 0) && negb r.(drop_stale_output) then ret true else
      loras <- loc scheduled_loras ;;
      ret (match cfg.(max_loras), r.(params).(lora_int_id) with
           | Some m, Some lora => (Z.of_nat (size loras) =? m) && negb (bool_decide (lora ∈ loras))
           | _, _ => false
           end)) (s', l) P).
  { intros s' Hi' Hh' Hq Hst. simpl. destruct ((_ >? 0) && _); safe_steps; by apply HP. }
  destruct (is_blocked_waiting_status (status (info r))) eqn:Hb.
  - unfold try_promote. safe_steps. apply (safe_get i r); [done|]. destruct (status (info r)) eqn:Est; try done; safe_steps; simpl; [|by apply HP..].
    destruct (structured_output r) as [[]|]; safe_steps; try (by apply HP).
    + destruct (quiet_upd i (set_status WAITING) s ex Hi Hh) as (Hi' & Hh' & Hq).
      { intros r' Hr'. assert (r' = r) as -> by congruence. unfold keeps. rewrite Est.
        split_and!; try done; [by intros (_ & _ & H3)| |by apply acct_same; try done; rewrite Est].
        intros (H1 & H3 & H2). split_and!; [done|done|]. intros Has Hsp. by destruct (H2 Has Hsp) as [? _]; rewrite Est in *. }
      simpl. apply Hrest; [done..|]. left. unfold status_of. simpl. by rewrite lookup_alter_eq, Hr.
    + simpl. apply HP; [by destruct Hi|by destruct Hh|done|done].
  - safe_steps. apply Hrest; [done..|]. unfold status_of. simpl. rewrite Hr. simpl. destruct (status (info r)); try done; auto.
Qed.

Lemma lookup_cached_spec i r s l ex P :
  Inv cfg s ex -> Held s -> s.(requests) !! i = Some r -> waiting_ok r ->
  (forall b n s', Inv cfg s' ex -> Held s' -> quiet s s' -> status_of s' i = status_of s i -> 0 <= n <= num_tokens r - 1 ->
     offers s'.(caches) i b n -> P (b, n, n) (s', l)) ->
  safe (lookup_cached i) (s, l) P.
Proof.
  intros Hi Hh Hr Hw HP. pose proof Hw as (_ & _ & Hc & _ & _ & Hprompt). unfold lookup_cached. safe_steps. apply (safe_get i r); [done|]. rewrite Hc. simpl.
  destruct (bk_store _ _ _ (iv_book _ _ _ Hi) i r Hr) as (Hid & _ & Htok & _). safe_steps.
  eapply safe_call; [apply cl_lookup; [apply Hh|rewrite Hid; by apply (held_of_waiting s i r)|by apply (inv_fine cfg s ex i)|done]|].
  intros [[b n] boundary] k _ (Hk & Hn & Hoff). simpl in *. rewrite Hid in Hoff. safe_steps. simpl.
  destruct (quiet_upd i (set_boundary boundary) (set_caches k s) ex) as (Hi' & Hh' & Hq); [by apply inv_set_caches|by apply held_set_caches| |].
  { intros r' _. split_and!; try done. by apply acct_same. }
  apply safe_check; [lia|].
  assert (Hfin : P (b, n, n) (set_requests (alter (set_boundary boundary) i) (set_caches k s), l)).
  { apply HP; [done|done|transitivity (set_caches k s); [by apply quiet_caches|done]| |done|done]. unfold status_of. simpl. by rewrite lookup_alter_eq, Hr. }
  destruct (prefill_stats r && _) eqn:Hp; safe_steps; [|done]. apply andb_true_iff in Hp as [_ Hp].
  apply safe_check; [|by safe_steps]. rewrite <- Hprompt by lia. lia.
Qed.

Lemma waiting_new_tokens_bounds r nc l n pad :
  num_tokens r <= cfg.(max_model_len) -> nc <= num_tokens r - 1 ->
  0 < l.(token_budget) -> cfg.(draft_slots) < l.(input_budget) -> waiting_new_tokens cfg r nc l = Some (n, pad) ->
  0 < n <= l.(token_budget) /\ n <= l.(input_budget) - cfg.(draft_slots) /\ nc + n <= cfg.(max_model_len)
  /\ (pad = true -> num_tokens r - nc = 1 /\ n = 1 + cfg.(num_spec_tokens) /\ 0 < cfg.(num_spec_tokens)).
Proof.
  intros Hlen Hnc Ht Hi. unfold waiting_new_tokens. cbv zeta.
  match goal with |- context [if ?c then 1 + num_spec_tokens cfg else _] => set (p := c) end.
  assert (Hpad : p = true -> num_tokens r - nc = 1 /\ 0 < cfg.(num_spec_tokens)).
  { subst p. intros [[[[Hp _]%andb_true_iff _]%andb_true_iff Hn]%andb_true_iff _]%andb_true_iff. lia. }
  clearbody p.
  set (n0 := if p then 1 + _ else _). destruct (p && _) eqn:Hp; [done|]. set (n1 := if (_ && _) then long_prefill_token_threshold cfg else n0).
  destruct (negb _ && _) eqn:Hc; [done|].
  intros [= <- <-]. pose proof (co_spec _ cfg_good) as [Hs _].
  assert (H0 : 0 < n0 /\ nc + n0 <= cfg.(max_model_len)).
  { subst n0. destruct p; [|lia]. simpl in Hp. apply orb_false_iff in Hp as [_ Hp]. lia. }
  assert (H1 : 0 < n1 <= n0).
  { subst n1. clearbody n0. destruct (_ && _) eqn:Hth in |- *; [apply andb_true_iff in Hth as [Ha Hb]|]; lia. }
  split_and!; [lia..|]. intros ->. destruct (Hpad eq_refl) as [E Hpos]. destruct (co_pad _ cfg_good Hpos) as [_ Hth]. split_and!; [done| |done].
  simpl in Hp. apply orb_false_iff in Hp as [Hp _]. subst n1 n0. destruct (_ && _) eqn:Hcut in |- *; [|lia].
  apply andb_true_iff in Hcut as [Ha Hb]. lia.
Qed.

(** What is known of an admitted request. *)
Record admit_ok r l (a : Admit (B := B)) : Prop := {
  ao_pos : 0 < a.(adm_new);
  ao_tokens : a.(adm_new) <= l.(token_budget);
  ao_input : a.(adm_new) <= l.(input_budget) - cfg.(draft_slots);
  ao_len : a.(adm_computed) + a.(adm_new) <= cfg.(max_model_len);
  ao_local : a.(adm_local) = a.(adm_computed) /\ 0 <= a.(adm_computed);
  ao_inputs : Forall (fun j => (j < length r.(params).(encoder_embeds))%nat) a.(adm_inputs);
  ao_pad : a.(adm_pad) = true -> cfg.(num_spec_tokens) + num_tokens r <= a.(adm_computed) + a.(adm_new);
}.

Lemma plan_waiting_spec i r defer s l ex P :
  Inv cfg s ex -> Held s -> s.(requests) !! i = Some r -> waiting_ok r -> 0 < l.(token_budget) -> cfg.(draft_slots) < l.(input_budget) ->
  (forall o s', Inv cfg s' ex -> Held s' -> quiet s s' -> status_of s' i = status_of s i ->
     (forall a, o = Some a -> admit_ok r l a /\ offers s'.(caches) i a.(adm_blocks) a.(adm_local)
        /\ plans s'.(caches) i (a.(adm_inputs) ++ a.(adm_external))) -> P o (s', l)) ->
  safe (plan_waiting cfg i defer) (s, l) P.
Proof.
  intros Hi Hh Hr Hw Ht Hip HP. unfold plan_waiting. safe_step. apply (lookup_cached_spec i r s l ex); [done..|].
  intros b nc s1 Hi1 Hh1 Hq1 Hst1 Hnc Hoff. cbv beta iota.
  destruct (evolves_lookup _ _ _ _ (fr_evolves _ _ (qt_frame _ _ Hq1)) Hr) as (r1 & Hr1 & Hc1).
  safe_steps. apply (safe_get i r1); [done|]. safe_steps. simpl. unfold id. destruct (defer && _); [by apply HP|].
  destruct (waiting_new_tokens cfg r1 nc l) as [[n pad]|] eqn:Hn; [|by apply HP]. pose proof (core_tokens _ _ Hc1) as Htok.
  apply waiting_new_tokens_bounds in Hn as (Hn1 & Hn2 & Hn3 & Hpad); [|by apply (iv_len _ _ _ Hi1 i r1)|lia|done|done].
  safe_step. apply safe_check; [lia|]. set (n1 := if need_mamba_block_aligned_split cfg then _ else n).
  assert (Hn1' : n1 <= Z.max 0 n /\ (pad = true -> n1 = n)).
  { subst n1. destruct (need_mamba_block_aligned_split cfg) eqn:Hm; [|split; [lia|done]]. split; [apply mamba_bounds, (co_mamba _ cfg_good Hm)|].
    intros Hp. destruct (co_pad _ cfg_good) as [Hm' _]; [by apply Hpad|]. congruence. }
  destruct (_ && (n1 =? 0)); [by apply HP|]. safe_step. apply (plan_encoder_spec cfg); [apply Hh1|by apply (inv_fine cfg s1 ex i)|].
  intros inputs n2 budget ext k Hk Hoffk Hplk Hn4 Hn5 Hinp. cbv beta iota.
  destruct (bk_store _ _ _ (iv_book _ _ _ Hi1) i r1 Hr1) as (Hid1 & _). rewrite Hid1 in Hplk.
  pose proof (reserve_bounds cfg r1 nc n2) as Hrb. set (n' := reserve_prefill_lookahead _ _ _ _) in *.
  assert (Hq2 : quiet s (set_caches k s1)) by (transitivity s1; [done|by apply quiet_caches]).
  assert (Hi2 : Inv cfg (set_caches k s1) ex) by (by apply inv_set_caches). assert (Hh2 : Held (set_caches k s1)) by (by apply held_set_caches).
  destruct (Z.eqb_spec n' 0) as [|Hnz]; safe_steps; apply HP; try done.
  intros a [= <-]. split_and!; [|by apply Hoffk|done]. split; simpl; [lia..|split; [done|lia]| |].
  - destruct Hc1 as (_ & <- & _). done.
  - intros Hp. destruct (Hpad Hp) as (E1 & E2 & E3). destruct Hn1' as [_ E4]. specialize (E4 Hp). subst n'. unfold reserve_prefill_lookahead in *. cbv zeta in *.
    destruct ((0 <? _) && _) eqn:Hcut; [apply andb_true_iff in Hcut as [Hcut _]|]; lia.
Qed.

(** ** Admission *)

Lemma schedule_waiting_req_inv T0 s l r b n :
  LInv cfg T0 s l -> rid r ∉ sched_ids l -> rid r ∈ s.(running) ->
  (exists r', s.(requests) !! rid r = Some r' /\ r'.(info).(num_computed_tokens) + n <= cfg.(max_model_len)
     /\ covers s.(caches) (rid r) (r'.(info).(num_computed_tokens) + n) /\ (cfg.(async_scheduling) = false -> r'.(spec_token_ids) = [])) ->
  0 < n -> n <= l.(token_budget) -> n <= l.(input_budget) - cfg.(draft_slots) -> LInv cfg T0 s (schedule_waiting_req cfg r b n l).
Proof.
  intros [Hn Hk Hb Hmem Hp Ht Hin He Hl Hsp Hcl] Hnew Hrun (r1 & Hr1 & Hml & Hcov & Hspec) Hpos Hnt Hni. set (i := rid r) in *.
  assert (Hids : sched_ids (schedule_waiting_req cfg r b n l) ≡ₚ i :: sched_ids l).
  { unfold sched_ids. simpl. fold i. case_bool_decide; solve_Permutation. }
  assert (Hkn : i ∉ l.(num_scheduled_tokens).*1) by (by rewrite Hk). assert (Hbn : i ∉ l.(req_to_new_blocks).*1) by (by rewrite Hb).
  split; rewrite ?Hids; simpl; fold i; rewrite ?(dict_set_new _ i n Hkn), ?(dict_set_new _ i b Hbn); try done.
  - by constructor.
  - rewrite fmap_app, Hk. simpl. solve_Permutation.
  - rewrite fmap_app, Hb. simpl. solve_Permutation.
  - intros j Hj. rewrite Hids in Hj. apply elem_of_cons in Hj as [->|Hj]; [done|by apply Hmem].
  - apply Forall_app. split; [done|by repeat constructor].
  - rewrite total_app. unfold total at 2. simpl. lia.
  - rewrite total_app, length_app. unfold total at 2. simpl. lia.
  - apply Forall_app. split; [done|]. repeat constructor. by exists r1.
  - intros j toks Hx. destruct (Hsp j toks Hx) as (m & r' & Hm & Hr'). exists m, r'. by split; [apply dict_get_app|].
  - intros Has j x Hj Hx. rewrite Hids in Hj. apply elem_of_cons in Hj as [->|Hj]; [|by apply (Hcl Has j)].
    assert (x = r1) as -> by congruence. by apply Hspec.
Qed.

(** The state after the request of [q] was taken from its queue and admitted. *)
Definition admitted i (computed : Z) s : State K Q :=
  set_requests (alter (fun r => set_computed computed (set_status RUNNING r)) i) (set_running (s.(running) ++ [i]) s).

Lemma admission_spec s ex q r computed :
  Inv cfg s (q :: ex) -> s.(requests) !! q.(qrequest_id) = Some r -> waiting_ok r ->
  Z.of_nat (length s.(running)) < cfg.(max_num_running_reqs) -> cache_inv s.(caches) -> 0 <= computed ->
  (forall j, j <> q.(qrequest_id) -> held s.(caches) j (s.(requests) !! j)) -> covers s.(caches) q.(qrequest_id) computed ->
  let s' := admitted q.(qrequest_id) computed s in Inv cfg s' ex /\ Held s' /\ frame s s'.
Proof.
  intros [Hiq Hb Him His Hil Hfl] Hr Hw Hmax Hci Hpos Hheld Hcov s'. set (i := q.(qrequest_id)) in *. pose proof Hw as (Hns & _ & _ & Hph & Hstale & _).
  set (f := fun r => set_computed computed (set_status RUNNING r)).
  assert (Hev : evolves s.(requests) s'.(requests)) by (by apply evolves_alter). split_and!.
  - split; [done| |simpl; rewrite length_app; simpl; lia|done|by apply (evolves_len cfg _ _ Hev)|].
    + simpl. apply (book_admit f q r); [by rewrite Permutation_middle|done..].
    + intros j x. simpl. destruct (decide (i = j)) as [<-|Hne]; [|rewrite lookup_alter_ne by done; apply Hfl].
      rewrite lookup_alter_eq, Hr. intros [= <-]. destruct (Hfl i r Hr) as (F1 & F3 & F2). split_and!; [done|done|]. intros Has Hsp. by destruct (F2 Has Hsp) as [? _].
  - split; [done|]. intros j. simpl. destruct (decide (i = j)) as [<-|Hne]; [|rewrite lookup_alter_ne by done; by apply Hheld].
    by rewrite lookup_alter_eq, Hr.
  - split; try done. apply (tracks_alter (fun _ => acct)); [done|]. intros x Hx. simpl in Hx. assert (x = r) as -> by congruence.
    split_and!; [done|simpl; lia|by left|by left].
Qed.

Lemma admit_spec T0 skipped s l ex q qs' r a P :
  Inv cfg (set_chosen skipped qs' s) (q :: ex) -> pop_request (chosen skipped s) = (Ok q, qs') -> LInv cfg T0 s l ->
  s.(requests) !! q.(qrequest_id) = Some r -> waiting_ok r -> (r.(info).(status) = WAITING \/ r.(info).(status) = PREEMPTED) ->
  Z.of_nat (length s.(running)) < cfg.(max_num_running_reqs) -> admit_ok r l a -> cache_inv s.(caches) ->
  (forall j, j <> q.(qrequest_id) -> held s.(caches) j (s.(requests) !! j)) ->
  covers s.(caches) q.(qrequest_id) (a.(adm_computed) + a.(adm_new)) ->
  plans s.(caches) q.(qrequest_id) (a.(adm_inputs) ++ a.(adm_external)) ->
  (forall s' l', Inv cfg s' ex -> Held s' -> LInv cfg T0 s' l' -> frame s s' -> queued s' = queued (set_chosen skipped qs' s) -> P tt (s', l')) ->
  safe (admit_request cfg skipped a) (s, l) P.
Proof.
  intros Hi Hpop HL Hr Hw Hst Hmax Ha Hci Hheld Hcov Hpl HP. pose proof Ha as [Ha1 Ha2 Ha3 Ha4 [_ Ha5] Ha6 Ha7]. set (i := q.(qrequest_id)) in *.
  set (s1 := set_chosen skipped qs' s) in *.
  assert (E1 : s1.(requests) = s.(requests)) by (by destruct skipped). assert (E2 : s1.(running) = s.(running)) by (by destruct skipped).
  assert (E3 : s1.(caches) = s.(caches)) by (by destruct skipped). assert (Hf1 : frame s s1) by (destruct skipped; by split).
  destruct (bk_store _ _ _ (iv_book _ _ _ Hi) i r) as (Hrid & _); [by rewrite E1|]. pose proof (bk_nodup _ _ _ (iv_book _ _ _ Hi)) as Hnd.
  assert (Hfresh : i ∉ s.(running)).
  { rewrite <- E2. intros Hin. apply NoDup_app in Hnd as (_ & Hd & _). apply (Hd i Hin). apply list_elem_of_fmap_2.
    apply elem_of_app. right. by left. }
  unfold admit_request. safe_step. eapply safe_on_queue; [exact Hpop|]. fold s1. fold i. safe_steps. apply (safe_get i r); [simpl; by rewrite E1|].
  safe_steps. apply safe_check; [by destruct Hst as [-> | ->]|]. safe_steps. simpl.
  set (b := op_get_blocks _ _). set (s2 := set_requests _ _).
  destruct (admission_spec s1 ex q r a.(adm_computed)) as (Hi2 & Hh2 & Hf2); rewrite ?E1, ?E2, ?E3; try done; [by apply (cl_covers _ _ _ _ Hcov); lia|].
  change (admitted _ _ s1) with s2 in Hi2, Hh2, Hf2. set (f := fun r0 => set_computed _ _) in s2.
  assert (Hr2 : s2.(requests) !! i = Some (f r)) by (simpl; by rewrite E1, lookup_alter_eq, Hr).
  assert (Hsp : cfg.(async_scheduling) = false -> r.(spec_token_ids) = []).
  { intros Has. destruct (iv_flight _ _ _ Hi i r ltac:(by rewrite E1)) as (_ & _ & Hfl). destruct (spec_token_ids r) eqn:Es; [done|].
    destruct (Hfl Has) as [? _]; [done|]. by destruct Hw. }
  assert (HL2 : LInv cfg T0 s2 (schedule_waiting_req cfg r b a.(adm_new) l)).
  { apply schedule_waiting_req_inv; try done; rewrite ?Hrid.
    - apply (linv_transfer cfg T0 s); [done| |transitivity s1.(requests); [apply Hf1|apply Hf2]|].
      + intros j Hj. simpl. rewrite E2. apply elem_of_app. by left.
      + intros j Hj. split; [|simpl; by rewrite E3]. unfold counts_of. simpl. rewrite E1, lookup_alter_ne; [done|]. intros <-. by apply Hfresh, (li_member _ _ _ _ HL).
    - intros Hin. by apply Hfresh, (li_member _ _ _ _ HL).
    - simpl. apply elem_of_app. right. by left.
    - exists (f r). split_and!; [done|done|simpl; by rewrite E3|done]. }
  assert (Hend : forall s3 l3, Inv cfg s3 ex -> Held s3 -> LInv cfg T0 s3 l3 -> frame s s3 -> queued s3 = queued s1 -> s3.(requests) = s2.(requests) ->
    s3.(caches) = s.(caches) ->
    safe (commit_encoder r a.(adm_inputs) a.(adm_encoder_budget) a.(adm_external)) (s3, l3) P).
  { intros s3 l3 Hi3 Hh3 HL3 Hf3 Hq3 Hr3 Hc3. apply (commit_encoder_spec cfg T0 r _ _ _ s3 l3); [done|done| |apply Hh3|by rewrite Hc3, Hrid|].
    - intros r' Hr'. rewrite Hr3, Hrid, Hr2 in Hr'. by injection Hr' as <-.
    - intros k l4 Hk HL4 _. apply HP; [by apply inv_set_caches|by apply held_set_caches|done| |done]. transitivity s3; [done|by apply frame_set_caches]. }
  assert (Hf3 : frame s s2) by (by transitivity s1).
  assert (HL3 : adm_pad a = true -> LInv cfg T0 s2
    (set_spec_decode i (replicate (Z.to_nat cfg.(num_spec_tokens)) (-1)) (schedule_waiting_req cfg r b a.(adm_new) l))).
  { intros Hpad. pose proof HL2 as [A1 A2 A3 A4 A5 A6 A7 A8 A9 A10 A11]. split; try done. intros j toks Hx.
    destruct (dict_set_elem _ _ _ _ _ Hx) as [Hx'|[-> ->]]; [by apply (A10 j toks)|]. exists a.(adm_new), (f r). rewrite Hr2. simpl. rewrite Hrid.
    pose proof Hw as (_ & _ & _ & Hph & Hstale & _). pose proof (co_spec _ cfg_good).
    split_and!; [apply dict_get_set_eq|done| |lia]. specialize (Ha7 Hpad). rewrite length_replicate. unfold num_tokens in *. simpl. lia. }
  destruct (adm_pad a); [specialize (HL3 eq_refl); clear HL2; rename HL3 into HL2|clear HL3];
    destruct (_ <? num_tokens r); safe_steps; simpl; apply Hend; solve [done | by destruct HL2 | by destruct Hi2 | by destruct Hh2 | by destruct Hf3].
Qed.

(** ** The pass over the waiting requests *)

Lemma quiet_chosen skipped s s' : quiet s s' -> chosen skipped s' = chosen skipped s /\ queued s' = queued s.
Proof. intros [_ _ [E1 E2] _ _]. unfold chosen, queued. rewrite E1, E2. by destruct skipped. Qed.

(** The request seen at the head of a queue is still there after quiet steps. *)
Lemma front_quiet skipped s s' ex q :
  Inv cfg s' ex -> quiet s s' -> queue_elems (chosen skipped s) <> [] -> peek_request (chosen skipped s) = (Ok q, chosen skipped s) ->
  exists qs' r, pop_request (chosen skipped s') = (Ok q, qs') /\ Inv cfg (set_chosen skipped qs' s') (q :: ex)
    /\ length (queued s) = S (length (queued (set_chosen skipped qs' s')))
    /\ s'.(requests) !! q.(qrequest_id) = Some r /\ waiting_ok r.
Proof.
  intros Hi Hq Hne Hpeek. destruct (quiet_chosen skipped s s' Hq) as [E1 E2].
  destruct (front_spec skipped s' ex Hi ltac:(by rewrite E1)) as (q' & qs' & Hpeek' & Hpop & Hi' & Hlen).
  rewrite E1, Hpeek in Hpeek'. injection Hpeek' as <-.
  destruct (bk_waiting _ _ _ (iv_book _ _ _ Hi') q) as (r & Hr & _ & Hw); [apply elem_of_app; right; by left|].
  exists qs', r. rewrite <- E2. split_and!; try done. by destruct skipped.
Qed.

(** A call that concerns a waiting request leaves the others what they hold. *)
Lemma held_others s i k : Held s -> touches i s.(caches) k -> forall j, j <> i -> held k j (s.(requests) !! j).
Proof. intros [_ H2] Hk j Hj. by apply (held_touches i _ s.(caches)). Qed.

Lemma held_refused s i r k :
  Held s -> s.(requests) !! i = Some r -> waiting_ok r -> touches i s.(caches) k -> unused k i -> Held (set_caches k s).
Proof.
  intros Hh Hr [Hs _] Hk Hu. split; [apply Hk|]. intros j. destruct (decide (j = i)) as [->|Hne]; [|by apply (held_others s i)].
  simpl. rewrite Hr. simpl. by rewrite bool_decide_false.
Qed.

Lemma linv_touches T0 s k l i : LInv cfg T0 s l -> touches i s.(caches) k -> i ∉ s.(running) -> LInv cfg T0 (set_caches k s) l.
Proof.
  intros HL Hk Hi. apply (linv_transfer cfg T0 s); try done. intros j Hj. split; [done|]. intros n. apply (tc_covers _ _ _ Hk).
  intros ->. by apply Hi, (li_member _ _ _ _ HL).
Qed.

Lemma waiting_not_running s ex i r : Inv cfg s ex -> s.(requests) !! i = Some r -> waiting_ok r -> i ∉ s.(running).
Proof. intros Hi Hr [Hs _] Hin. destruct (inv_running_lookup cfg s ex i Hi Hin) as (x & Hx & _ & Hst). congruence. Qed.

(** Slots for the planned request: it is admitted and the loop goes on, or the loop ends. *)
Lemma place_waiting_spec T0 skipped s l ex q a has_running ss (k : M (State K Q * Locals B) Q) P :
  Inv cfg s ex -> Held s -> LInv cfg T0 s l -> queue_elems (chosen skipped s) <> [] ->
  peek_request (chosen skipped s) = (Ok q, chosen skipped s) ->
  (status_of s q.(qrequest_id) = Some WAITING \/ status_of s q.(qrequest_id) = Some PREEMPTED) ->
  Z.of_nat (length s.(running)) < cfg.(max_num_running_reqs) ->
  (forall r, s.(requests) !! q.(qrequest_id) = Some r -> admit_ok r l a) -> offers s.(caches) q.(qrequest_id) a.(adm_blocks) a.(adm_local) ->
  plans s.(caches) q.(qrequest_id) (a.(adm_inputs) ++ a.(adm_external)) ->
  (forall s', Inv cfg s' ex -> Held s' -> LInv cfg T0 s' l -> frame s s' -> P ss (s', l)) ->
  (forall s' l', Inv cfg s' ex -> Held s' -> LInv cfg T0 s' l' -> frame s s' -> length (queued s) = S (length (queued s')) -> safe k (s', l') P) ->
  safe (r <- on_st (get_req q.(qrequest_id)) ;;
        enc_tokens <- (if cfg.(is_encoder_decoder) && has_encoder_inputs r then lift (sum_embeds r a.(adm_inputs)) else ret 0) ;;
        new_blocks <- on_st (call (op_allocate r a.(adm_new) a.(adm_local) (Some a.(adm_blocks)) cfg.(num_lookahead_tokens)
                                enc_tokens cfg.(scheduler_reserve_full_isl) has_running)) ;;
        match new_blocks with
        | None => (if has_encoder_inputs r then on_st (call (op_free_encoder r)) else ret tt) ;; ret ss
        | Some _ => admit_request cfg skipped a ;; k
        end) (s, l) P.
Proof.
  intros Hi Hh HL Hch Hpeek Hst Hmax Hadm Hoff Hpl Hend Hk.
  destruct (front_quiet skipped s s _ q Hi ltac:(done) Hch Hpeek) as (_ & r & _ & _ & _ & Hr & Hw). specialize (Hadm r Hr).
  set (i := q.(qrequest_id)) in *. destruct (bk_store _ _ _ (iv_book _ _ _ Hi) i r Hr) as (Hid & _).
  pose proof (waiting_not_running s ex i r Hi Hr Hw) as Hnr. pose proof Hw as (_ & _ & Hc0 & _).
  safe_steps. apply (safe_get _ r); [done|]. simpl. safe_step.
  assert (Henc : forall P', (forall n, P' n (s, l)) ->
    safe (if cfg.(is_encoder_decoder) && has_encoder_inputs r then lift (sum_embeds r a.(adm_inputs)) else ret 0) (s, l) P').
  { intros P' HP'. destruct (sum_embeds_ok r _ (ao_inputs _ _ _ Hadm)) as [n Hn]. destruct (_ && _); [by eapply safe_lift|by apply safe_ret]. }
  apply Henc. intros enc. safe_steps. destruct (ao_local _ _ _ Hadm) as [El Hpos].
  eapply safe_call; [apply cl_admit; rewrite ?Hid; [apply Hh|by apply (held_of_waiting s i r)|done|by apply (inv_fine cfg s ex i)|done|lia|apply Hadm|]|].
  { rewrite El. apply Hadm. }
  rewrite Hid, El. intros nb c _ [Ht Hnb]. simpl. assert (Hfc : frame s (set_caches c s)) by (destruct Ht; by split).
  destruct nb as [nb|].
  2:{ pose proof (held_refused s i r c Hh Hr Hw Ht Hnb) as Hh1. pose proof (linv_touches T0 s c l i HL Ht Hnr) as HL1.
      destruct (has_encoder_inputs r); safe_steps; [|by apply Hend; [apply inv_set_caches|..]].
      eapply safe_call; [apply (cl_free_encoder (cfg := cfg)), Ht|]. intros [] c' _ [Hc' _]. simpl in Hc'. safe_steps. simpl.
      apply Hend; [exact (inv_set_caches cfg c' (set_caches c s) ex (inv_set_caches cfg c s ex Hi))|by apply (held_set_caches c' (set_caches c s))|by apply (linv_steady cfg T0 (set_caches c s))|].
      transitivity (set_caches c s); [done|by apply (frame_set_caches c' (set_caches c s))]. }
  assert (Hqc : chosen skipped (set_caches c s) = chosen skipped s /\ queued (set_caches c s) = queued s) by (by destruct skipped).
  destruct Hqc as [Ec Eq]. destruct (front_spec skipped (set_caches c s) ex) as (q' & qs' & Hpeek' & Hpop & Hi' & Hlen); [by apply inv_set_caches|by rewrite Ec|].
  rewrite Ec, Hpeek in Hpeek'. injection Hpeek' as <-.
  safe_step. apply (admit_spec T0 skipped _ l ex q qs' r); try done.
  - by apply (linv_touches T0 s c l i).
  - unfold status_of in Hst. rewrite Hr in Hst. simpl in Hst. destruct Hst as [[= ->]|[= ->]]; auto.
  - apply Ht.
  - by apply (held_others s i).
  - by apply (tc_plans _ _ _ Ht).
  - intros s' l' Hi2 Hh2 HL2 Hf2 Hq2. apply Hk; [done|done|done|by transitivity (set_caches c s)|]. by rewrite Hq2, <- Hlen, Eq.
Qed.

Lemma schedule_waiting_spec T0 fuel defer step_skipped s l P :
  Inv cfg s (queue_elems step_skipped) -> Held s -> queue_inv step_skipped -> LInv cfg T0 s l -> (length (queued s) < fuel)%nat ->
  (forall ss s' l', Inv cfg s' (queue_elems ss) -> Held s' -> queue_inv ss -> LInv cfg T0 s' l' -> frame s s' -> P ss (s', l')) ->
  safe (schedule_waiting cfg fuel defer step_skipped) (s, l) P.
Proof.
  revert step_skipped s l P. induction fuel as [|fuel IH]; intros ss s l P Hi Hh Hss HL Hfuel HP; [lia|]. cbn [schedule_waiting].
  safe_steps. unfold id. cbv beta iota. pose proof Hi as [[Hq1 Hq2] _ _ Hstr _ _]. rewrite (ql_len _ Hq1), (ql_len _ Hq2).
  destruct (_ && _) eqn:Hem; [by apply HP|].
  assert (Hne : queued s <> []).
  { intros He. unfold queued in He. apply app_nil in He as [E1 E2]. by rewrite E1, E2 in Hem. }
  destruct (negb _ || _) eqn:Hbud; [by apply HP|]. destruct (max_num_running_reqs cfg <=? _) eqn:Hmax; [by apply HP|].
  apply orb_false_iff in Hbud as [Hb1 Hb2]. safe_step. apply (select_spec s l (queue_elems ss)); [done|done|]. intros skipped Hch.
  destruct (front_spec skipped s _ Hi Hch) as (q & _ & Hpeek & _ & _ & _).
  safe_step. eapply safe_on_queue; [exact Hpeek|]. rewrite set_chosen_same.
  destruct (front_quiet skipped s s _ q Hi ltac:(done) Hch Hpeek) as (_ & r & _ & _ & _ & Hr & Hw).
  safe_step. apply (must_skip_spec _ r s l (queue_elems ss)); [done..|]. intros b s1 Hi1 Hh1 Hqt1 Hst1.
  destruct (front_quiet skipped s s1 _ q Hi1 Hqt1 Hch Hpeek) as (qs1 & r1 & Hpop1 & Hi1' & Hlen1 & Hr1 & Hw1).
  destruct b.
  { safe_step. eapply safe_on_queue; [exact Hpop1|]. destruct (ql_prepend q ss Hss) as (ss' & -> & Hss' & Hp).
    apply (IH ss'); [| |done| |lia|].
    - apply (inv_ex_perm _ (q :: queue_elems ss)); [by rewrite Hp|done].
    - destruct Hh1, skipped; by split.
    - pose proof (quiet_linv T0 s s1 l Hqt1 HL) as HL1. destruct HL1, skipped; by split.
    - intros ss2 s2 l2 H1 H2 H3 H4 H5. apply HP; try done. transitivity s1; [apply Hqt1|]. destruct H5, skipped; by split. }
  safe_step. apply (plan_waiting_spec _ r1 defer s1 l (queue_elems ss)); [done|done|done|done|lia|lia|].
  intros o s2 Hi2 Hh2 Hqt2 Hst2 Hadm. assert (Hqt : quiet s s2) by (by transitivity s1).
  destruct o as [a|]; [|safe_steps; apply HP; [done|done|done|by apply (quiet_linv T0 s)|apply Hqt]]. destruct (Hadm a eq_refl) as (Ha & Hoff & Hpl).
  destruct (quiet_chosen skipped s s2 Hqt) as [Ec Eq]. rewrite <- Ec in Hch, Hpeek.
  apply (place_waiting_spec T0 skipped s2 l (queue_elems ss) q a); [done|done|by apply (quiet_linv T0 s)|done|done| | | |done|done| |].
  - rewrite Hst2. by apply Hst1.
  - rewrite (qt_running _ _ Hqt). lia.
  - intros r2 Hr2. destruct (evolves_lookup _ _ _ _ (fr_evolves _ _ (qt_frame _ _ Hqt2)) Hr1) as (r' & E & Hcore). pose proof Hcore as (_ & Hpar & _).
    assert (r' = r2) as -> by congruence. destruct Ha. split; try done; [by rewrite Hpar|]. by rewrite (core_tokens _ _ Hcore).
  - intros s3 Hi3 Hh3 HL3 Hf3. apply HP; [done|done|done|done|]. transitivity s2; [apply Hqt|done].
  - intros s3 l3 Hi3 Hh3 HL3 Hf3 Hlen. apply (IH ss); [done|done|done|done|rewrite Eq in Hlen; lia|].
    intros ss5 s5 l5 H1 H2 H3 H4 H5. apply HP; try done. transitivity s3; [|done]. transitivity s2; [apply Hqt|done].
Qed.

(** ** The two passes *)

(** The adapters of all requests together fit the slots. *)
Definition loras_fit (m : gmap string Req) : Prop :=
  forall slots, cfg.(max_loras) = Some slots ->
  exists L : gset Z, Z.of_nat (size L) <= slots /\ forall i r lora, m !! i = Some r -> r.(params).(lora_int_id) = Some lora -> lora ∈ L.

Lemma loras_fit_evolves m m' : evolves m m' -> loras_fit m -> loras_fit m'.
Proof.
  intros He Hl slots Hs. destruct (Hl slots Hs) as (L & Hsz & Hin). exists L. split; [done|]. intros i r lora Hr Hp.
  specialize (He i). rewrite Hr in He. inversion He as [r0 r' (_ & Hpar & _) E1 E2|]; subst. eapply (Hin i r0); [done|by rewrite <- Hpar].
Qed.

Lemma record_loras_spec T0 s l P :
  Inv cfg s [] -> RInv cfg T0 s l -> loras_fit s.(requests) ->
  (forall l', LInv cfg T0 s l' -> P tt (s, l')) -> safe (record_loras cfg) (s, l) P.
Proof.
  intros Hi [HL [Hn1 Hn2] _ _] Hfit HP. unfold record_loras. destruct (max_loras cfg) as [m|] eqn:Hm; [|safe_steps; by apply HP].
  safe_steps. apply safe_get_all.
  { apply Forall_forall. intros i Hin. simpl. destruct (inv_running_lookup cfg s [] i Hi) as (r & Hr & _); [|by exists r].
    apply (li_member _ _ _ _ HL). unfold sched_ids. apply elem_of_app. by left. }
  intros rs Hrs. simpl in *. destruct (Hfit m Hm) as (L & Hsz & HinL).
  assert (Hsub : lora_set rs ⊆ L).
  { intros x. unfold lora_set. rewrite elem_of_list_to_set, list_elem_of_filter, list_elem_of_omap. intros (_ & r & Hr & Hx).
    apply list_elem_of_lookup in Hr as [j Hj]. destruct (Forall2_lookup_r _ _ _ _ _ Hrs Hj) as (i & _ & Hri). by apply (HinL i r). }
  safe_steps. apply safe_check; [apply subseteq_size in Hsub; lia|]. safe_steps. apply HP. by destruct HL.
Qed.

Lemma waiting_phase_spec T0 defer s l P :
  Inv cfg s [] -> Held s -> LInv cfg T0 s l ->
  (forall s' l', Inv cfg s' [] -> Held s' -> LInv cfg T0 s' l' -> frame s s' -> P tt (s', l')) -> safe (waiting_phase cfg defer) (s, l) P.
Proof.
  intros Hi Hh HL HP. pose proof Hi as [[Hq1 Hq2] _ _ _ _ _]. unfold waiting_phase. safe_steps. unfold id. cbv beta iota.
  destruct (_ && _); [|by apply HP]. destruct ql_create as [Hc1 Hc2].
  safe_step. apply (schedule_waiting_spec T0); [by rewrite Hc2|done|done|done| |].
  { unfold queued. rewrite (ql_len _ Hq1), (ql_len _ Hq2), length_app. lia. }
  intros ss s1 l1 Hi1 Hh1 Hss HL1 Hf1.
  assert (Hend : forall s2, Inv cfg s2 [] -> Held s2 -> LInv cfg T0 s2 l1 -> frame s s2 ->
    safe (if defer then ret tt else on_st (modify (fun s0 => set_capacity_bound (negb (queue_len s0.(waiting) =? 0)%nat) s0))) (s2, l1) P).
  { intros s2 [] Hh2 HL2 Hf2. destruct defer; safe_steps; [by apply HP|]. simpl. apply HP; [by split|by destruct Hh2|by destruct HL2|by destruct Hf2]. }
  rewrite (ql_len _ Hss). destruct (queue_elems ss) as [|q0 qs0] eqn:Hel; cbn [length Nat.eqb]; safe_steps.
  { by apply Hend. }
  pose proof Hi1 as [[Hw1 Hw2] Hb1 Hm1 Hs1 Hl1 Hfl1]. simpl. destruct (ql_prepend_all (queue_iter ss) _ Hw2) as (sk & Hrun & Hski & Hskp).
  eapply safe_eq; [exact Hrun|]. cbv beta. apply Hend; [|by destruct Hh1|by destruct HL1|by destruct Hf1]. split; try done. simpl. unfold queued in *. simpl.
  rewrite Hskp, (ql_iter _ Hss), Hel, app_nil_r. replace (queue_elems (waiting s1) ++ (q0 :: qs0) ++ queue_elems (skipped_waiting s1))
    with (queue_elems (waiting s1) ++ ((q0 :: qs0) ++ queue_elems (skipped_waiting s1))) by done.
  rewrite <- (Permutation_app_comm (queue_elems (skipped_waiting s1)) (q0 :: qs0)), app_assoc. done.
Qed.

Lemma sched_length T0 s l : LInv cfg T0 s l ->
  (length (sched_ids l) <= length s.(running))%nat /\ (length l.(num_scheduled_tokens) <= length s.(running))%nat.
Proof.
  intros HL. assert (Hlen : (length (sched_ids l) <= length s.(running))%nat) by (apply submseteq_length, NoDup_submseteq; apply HL).
  split; [done|]. rewrite <- (li_keys _ _ _ _ HL), length_fmap in Hlen. done.
Qed.

Lemma check_constraints_spec T0 s l P :
  Inv cfg s [] -> LInv cfg T0 s l -> T0 <= cfg.(max_num_scheduled_tokens) -> P tt (s, l) -> safe (check_constraints cfg) (s, l) P.
Proof.
  intros Hi HL HT HP. pose proof (sched_length T0 s l HL) as [Hlen _]. destruct HL as [Hn Hk Hb Hmem Hp Ht Hin He Hl _ _]. unfold check_constraints. safe_steps. unfold id. cbv beta iota. fold (total l.(num_scheduled_tokens)).
  pose proof (iv_max _ _ _ Hi). safe_step. apply safe_check; [lia|]. safe_step. apply safe_check; [lia|]. safe_step. apply safe_check; [lia|].
  safe_step. apply safe_check; [lia|]. apply safe_check; [|done].
  unfold sched_ids in Hlen. rewrite !length_app in Hlen. apply Nat.leb_le. lia.
Qed.

Lemma init_locals_inv s (paused : bool) :
  RInv cfg (if paused then 0 else cfg.(max_num_scheduled_tokens)) s (init_locals (B := B) cfg paused).
Proof.
  pose proof (co_tokens _ cfg_good).
  split; [split|..]; unfold sched_ids, total; simpl;
    solve [done | constructor | destruct paused; lia | by intros i ?%elem_of_nil | by intros i inputs r ?%elem_of_nil | by intros i toks ?%elem_of_nil | by intros _ i r ?%elem_of_nil].
Qed.

Lemma choose_spec throttle (paused : bool) s P :
  Inv cfg s [] -> Held s -> loras_fit s.(requests) ->
  (forall s' l', Inv cfg s' [] -> Held s' -> LInv cfg (if paused then 0 else cfg.(max_num_scheduled_tokens)) s' l' -> frame s s' -> P tt (s', l')) ->
  safe (choose cfg throttle) (s, init_locals cfg paused) P.
Proof.
  intros Hi Hh Hfit HP. set (T0 := if paused then 0 else _) in *. unfold choose. safe_steps. apply safe_get_all.
  { apply Forall_forall. intros i Hin. destruct (inv_running_lookup cfg s [] i Hi Hin) as (r & Hr & _). by exists r. }
  intros rs _. cbv zeta. cbn [fst snd]. safe_step. apply (schedule_running_spec cfg cfg_good T0); [done|done|apply init_locals_inv|simpl; lia|].
  intros s1 l1 Hi1 Hh1 Hr1 Hf1. safe_step. apply (record_loras_spec T0); [done|done|by apply (loras_fit_evolves _ _ (fr_evolves _ _ Hf1))|].
  intros l2 HL2. safe_step. apply (waiting_phase_spec T0); [done|done|done|]. intros s3 l3 Hi3 Hh3 HL3 Hf3.
  apply (check_constraints_spec T0); [done|done| |apply HP; [done|done|done|by transitivity s1]].
  subst T0. pose proof (co_tokens _ cfg_good). destruct paused; lia.
Qed.

(** ** The output *)

Lemma safe_map_m {S A C} (f : A -> M S C) (R : A -> C -> Prop) xs (s : S) P :
  (forall x, x ∈ xs -> exists c, f x s = (Ok c, s) /\ R x c) -> (forall cs, Forall2 R xs cs -> P cs s) -> safe (map_m f xs) s P.
Proof.
  revert P. induction xs as [|x xs IH]; intros P Hf HP; cbn [map_m]; [apply HP; constructor|].
  destruct (Hf x ltac:(by left)) as (c & Hc & HR). apply safe_bind. eapply safe_eq; [exact Hc|].
  apply safe_bind, IH; [intros y Hy; apply Hf; by right|]. intros cs Hcs. apply HP. by constructor.
Qed.

Lemma new_blocks_of_ok T0 s l i : LInv cfg T0 s l -> i ∈ sched_ids l -> exists b, new_blocks_of l i = Ok b.
Proof.
  intros HL Hi. unfold new_blocks_of. destruct (proj2 (dict_get_Some l.(req_to_new_blocks) i)) as [b ->]; [by rewrite (li_blocks _ _ _ _ HL)|by eexists].
Qed.

(** The tokens of a request in a step, and the output placeholders it gets then. *)
Definition amount (d : list (string * Z)) i : Z := default 0 (dict_get d i).

Lemma amount_snoc d i n j : i ∉ d.*1 -> amount (d ++ [(i, n)]) j = amount d j + (if decide (i = j) then n else 0).
Proof.
  unfold amount. induction d as [|[k v] d IH]; simpl.
  - intros _. by case_decide.
  - rewrite not_elem_of_cons. intros [Hne Hni]. destruct (decide (k = j)) as [->|]; [|by apply IH]. rewrite decide_False by done. simpl. lia.
Qed.

Lemma amount_elem d i n : NoDup d.*1 -> (i, n) ∈ d -> amount d i = n.
Proof.
  unfold amount. induction d as [|[k v] d IH]; [by intros _ ?%elem_of_nil|]. rewrite fmap_cons. intros [Hk Hnd]%NoDup_cons Hx. simpl in Hk |- *.
  apply elem_of_cons in Hx as [[= -> ->]|Hx]; [by rewrite decide_True|]. rewrite decide_False; [by apply IH|].
  intros ->. apply Hk. by apply (list_elem_of_fmap_2' fst _ _ _ Hx).
Qed.

Lemma amount_notin d i : i ∉ d.*1 -> amount d i = 0.
Proof. unfold amount. induction d as [|[k v] d IH]; simpl; [done|]. rewrite not_elem_of_cons. intros [Hne Hd]. rewrite decide_False by done. by apply IH. Qed.

(** A request after its counters advanced. *)
Definition advanced (d : list (string * Z)) i (r r' : Req) : Prop :=
  same_core r r' /\ r'.(info).(num_in_flight_tokens) = r.(info).(num_in_flight_tokens) + amount d i
  /\ r'.(info).(num_computed_tokens) = r.(info).(num_computed_tokens) + amount d i
  /\ r'.(num_stale_output_tokens) = r.(num_stale_output_tokens) /\ r'.(num_output_placeholders) = r.(num_output_placeholders)
  /\ r'.(info).(status) = r.(info).(status) /\ r'.(spec_token_ids) = r.(spec_token_ids)
  /\ (i ∈ d.*1 -> r'.(is_prefill_chunk) = (r'.(info).(num_computed_tokens) <? num_tokens r' + r'.(num_output_placeholders))).

Lemma tracks_core (R : string -> Req -> Req -> Prop) m m' : (forall i r r', R i r r' -> same_core r r') -> tracks R m m' -> evolves m m'.
Proof. intros HR Ht i. destruct (Ht i) as [r r' Hrr|]; constructor. eauto. Qed.

(** Requests that stay where they are and whose computed tokens have slots. *)
Lemma held_tracks (R : string -> Req -> Req -> Prop) s s' :
  Held s -> s'.(caches) = s.(caches) -> tracks R s.(requests) s'.(requests) ->
  (forall i r r', s.(requests) !! i = Some r -> R i r r' -> r'.(info).(status) = r.(info).(status)
     /\ (0 <= r.(info).(num_computed_tokens) -> covers s.(caches) i r.(info).(num_computed_tokens) ->
         0 <= r'.(info).(num_computed_tokens) /\ covers s.(caches) i r'.(info).(num_computed_tokens))) -> Held s'.
Proof.
  intros [H1 H2] Hc Htr HR. split; [by rewrite Hc|]. intros i. rewrite Hc. specialize (H2 i). specialize (Htr i).
  destruct (s.(requests) !! i) as [r|] eqn:Hr; inversion Htr as [? r' Hrr|]; subst; [|done]. destruct (HR i r r' Hr Hrr) as [Es Hcov]. simpl in *.
  revert H2. rewrite Es. case_bool_decide; [|done]. intros []. by apply Hcov.
Qed.

(** Every scheduled request has slots for its tokens of the step, and has given its
    drafts up. *)
Definition slots_ready (sched : list (string * Z)) s : Prop := forall i n r, (i, n) ∈ sched -> s.(requests) !! i = Some r ->
  0 < n /\ covers s.(caches) i (r.(info).(num_computed_tokens) + n) /\ (cfg.(async_scheduling) = false -> r.(spec_token_ids) = []).

Lemma held_advanced sched s s' :
  Held s -> NoDup sched.*1 -> slots_ready sched s -> s'.(caches) = s.(caches) -> tracks (advanced sched) s.(requests) s'.(requests) -> Held s'.
Proof.
  intros Hh Hnd Hready Hc Htr. apply (held_tracks (advanced sched) s s'); try done.
  intros i r r' Hr (_ & _ & E & _ & _ & Es & _). split; [done|]. intros Hpos Hcov. rewrite E. destruct (decide (i ∈ sched.*1)) as [Hin|Hin].
  - apply list_elem_of_fmap in Hin as ([j n] & -> & Hin). simpl in *. rewrite (amount_elem _ _ _ Hnd Hin). destruct (Hready j n r Hin Hr) as (H1 & H2 & _).
    split; [lia|done].
  - rewrite (amount_notin _ _ Hin), Z.add_0_r. done.
Qed.

Lemma update_after_schedule_spec sched s P :
  Inv cfg s [] -> Held s -> NoDup sched.*1 -> (forall i, i ∈ sched.*1 -> i ∈ s.(running)) -> slots_ready sched s ->
  (forall s', Inv cfg s' [] -> Held s' -> tracks (advanced sched) s.(requests) s'.(requests) -> s'.(running) = s.(running) ->
     s'.(caches) = s.(caches) -> s'.(current_step) = s.(current_step) -> s'.(finished_req_ids) = ∅ -> s'.(reset_preempted_req_ids) = ∅ -> P tt s') ->
  safe (update_after_schedule sched) s P.
Proof.
  intros Hi Hh Hnd Hrun Hready HP. unfold update_after_schedule. safe_step.
  apply (safe_for_each _ (fun rest s' => exists pre, sched = pre ++ rest /\ Inv cfg s' [] /\ s'.(running) = s.(running) /\ s'.(caches) = s.(caches)
    /\ s'.(current_step) = s.(current_step) /\ tracks (advanced pre) s.(requests) s'.(requests))).
  - exists []. split_and!; try done. apply tracks_refl. intros i r. unfold advanced, amount. simpl. split_and!; try done; try lia. by intros ?%elem_of_nil.
  - intros [i n] rest s' (pre & Hsched & Hi' & Hrun' & Hc' & Hstep' & Htr).
    assert (Hin : (i, n) ∈ sched) by (rewrite Hsched; apply elem_of_app; right; by left). rewrite Hsched in Hnd, Hrun.
    rewrite fmap_app in Hnd. apply NoDup_app in Hnd as (_ & Hd & _).
    assert (Hni : i ∉ pre.*1) by (intros Hin'; apply (Hd i Hin'); by left).
    assert (Hri : i ∈ s'.(running)) by (rewrite Hrun'; apply Hrun; rewrite fmap_app; apply elem_of_app; right; by left).
    destruct (inv_running_lookup cfg s' [] i Hi' Hri) as (r & Hr & _ & Hst).
    safe_step. apply (safe_get i r); [done|]. set (chunk := _ <? _). safe_steps. set (f := fun r0 => set_prefill_chunk _ _).
    assert (Hclean : 0 < n /\ (cfg.(async_scheduling) = false -> r.(spec_token_ids) = [])).
    { pose proof (Htr i) as Hx. rewrite Hr in Hx. inversion Hx as [r0 ? (_ & _ & _ & _ & _ & _ & Es & _) E|]; subst.
      destruct (Hready i n r0 Hin ltac:(done)) as (H1 & _ & H2). rewrite Es. done. }
    destruct Hclean as [Hn Hclean]. destruct (inv_assign cfg i f s' [] Hi') as [Hi2 Hev2].
    { intros r2 Hr2. assert (r2 = r) as -> by congruence. split_and!; [done|done|by intros [Hw _]|].
      intros (F1 & F3 & F2). split_and!; [simpl; lia|done|]. intros Has Hsp. by destruct Hsp; apply Hclean. }
    assert (Htr2 : tracks (advanced (pre ++ [(i, n)])) s.(requests) (alter f i s'.(requests))).
    { eapply tracks_trans; [|exact Htr|apply tracks_alter_exact].
      intros j r1 r2 r3 (A1 & A2 & A3 & A4 & A5 & A6 & A7 & A8) [Hj ->]. unfold advanced. rewrite amount_snoc by done.
      destruct (decide (i = j)) as [<-|Hne]; [assert (r2 = r) as -> by congruence|].
      - split_and!; try done; simpl; lia.
      - split_and!; try done; try lia. intros Hin'. apply A8. rewrite fmap_app in Hin'. apply elem_of_app in Hin' as [?|Hin'%list_elem_of_singleton]; [done|]. by subst. }
    destruct chunk; safe_steps; exists (pre ++ [(i, n)]); split_and!; try done; [by rewrite <- app_assoc..|by destruct Hi2].
  - intros s' (pre & Hsched & Hi' & Hrun' & Hc' & Hstep' & Htr). rewrite app_nil_r in Hsched. subst pre. safe_steps. apply HP; try done; [by destruct Hi'|].
    by apply (held_advanced sched s).
Qed.

(** The placeholders of a scheduled request: none while its prompt is being computed. *)
Definition credit (out : Output B X) i (r : Req) : Z :=
  if cfg.(async_scheduling) && bool_decide (i ∈ out.(out_num_scheduled_tokens).*1) && negb r.(is_prefill_chunk)
  then cfg.(num_sampled_tokens_per_step) + Z.of_nat (length (default [] (dict_get out.(out_spec_decode_tokens) i))) else 0.

(** The same request but for its placeholders and drafts. *)
Definition same_counts (r r' : Req) : Prop :=
  same_core r r' /\ r'.(info) = r.(info) /\ r'.(num_stale_output_tokens) = r.(num_stale_output_tokens)
  /\ r'.(is_prefill_chunk) = r.(is_prefill_chunk).

Lemma same_counts_trans r1 r2 r3 : same_counts r1 r2 -> same_counts r2 r3 -> same_counts r1 r3.
Proof. intros (A1 & A2 & A3 & A4) (B1 & B2 & B3 & B4). split_and!; [by transitivity r2|congruence..]. Qed.

(** Requests after the first entries of the step were given their placeholders. *)
Definition credited (out : Output B X) (ids : list string) i (r r' : Req) : Prop :=
  same_counts r r'
  /\ r'.(num_output_placeholders) = r.(num_output_placeholders) + if bool_decide (i ∈ ids) then credit out i r else 0.

Lemma credited_step out (ids : list string) i f r m m' :
  i ∉ ids -> m' !! i = Some r -> tracks (credited out ids) m m' -> same_counts r (f r) ->
  (f r).(num_output_placeholders) = r.(num_output_placeholders) + credit out i r -> tracks (credited out (ids ++ [i])) m (alter f i m').
Proof.
  intros Hni Hr Htr Hf Hph. eapply tracks_trans; [|exact Htr|apply tracks_alter_exact].
  intros j r1 r2 r3 [A1 A2] [Hj ->]. unfold credited. destruct (decide (i = j)) as [<-|Hne].
  - assert (r2 = r) as -> by congruence. split; [by apply (same_counts_trans _ r)|]. rewrite Hph, A2.
    rewrite bool_decide_false by done. rewrite bool_decide_true by (apply elem_of_app; right; by left).
    unfold credit. destruct A1 as (_ & _ & _ & ->). lia.
  - split; [done|]. rewrite A2. rewrite (bool_decide_ext (j ∈ ids ++ [i]) (j ∈ ids)); [done|].
    rewrite elem_of_app, list_elem_of_singleton. naive_solver.
Qed.

Lemma async_update_spec (out : Output B X) s P :
  Inv cfg s [] -> cfg.(async_scheduling) = true -> NoDup out.(out_num_scheduled_tokens).*1 ->
  (forall i, i ∈ out.(out_num_scheduled_tokens).*1 -> i ∈ s.(running)) ->
  (forall s', Inv cfg s' [] -> s'.(running) = s.(running) -> s'.(caches) = s.(caches) -> s'.(current_step) = s.(current_step) ->
     s'.(finished_req_ids) = s.(finished_req_ids) -> s'.(reset_preempted_req_ids) = s.(reset_preempted_req_ids) ->
     tracks (credited out out.(out_num_scheduled_tokens).*1) s.(requests) s'.(requests) -> P tt s') ->
  safe (async_update_after_schedule cfg out) s P.
Proof.
  intros Hi Hasync Hnd Hrun HP. unfold async_update_after_schedule. safe_steps.
  apply (safe_for_each _ (fun rest s' => exists pre, out.(out_num_scheduled_tokens) = pre ++ rest /\ Inv cfg s' [] /\ s'.(running) = s.(running)
    /\ s'.(caches) = s.(caches) /\ s'.(current_step) = s.(current_step)
    /\ s'.(finished_req_ids) = s.(finished_req_ids) /\ s'.(reset_preempted_req_ids) = s.(reset_preempted_req_ids)
    /\ tracks (credited out pre.*1) s.(requests) s'.(requests))).
  - exists []. split_and!; try done; [by destruct Hi|]. apply tracks_refl. intros i r. split; [by split_and!|]. rewrite bool_decide_false by apply not_elem_of_nil. lia.
  - intros [i n] rest s' (pre & Hsched & Hi' & Hrun' & Hc' & Hst' & Hfin' & Hpre' & Htr).
    assert (Hin : i ∈ out.(out_num_scheduled_tokens).*1) by (rewrite Hsched, fmap_app; apply elem_of_app; right; by left).
    rewrite Hsched, fmap_app in Hnd. apply NoDup_app in Hnd as (_ & Hd & _).
    assert (Hni : i ∉ pre.*1) by (intros Hin'; apply (Hd i Hin'); by left).
    destruct (inv_running_lookup cfg s' [] i Hi') as (r & Hr & _ & Hst); [rewrite Hrun'; by apply Hrun|].
    assert (Hgoal : forall f, same_counts r (f r) -> (f r).(num_output_placeholders) = r.(num_output_placeholders) + credit out i r ->
      exists pre', out.(out_num_scheduled_tokens) = pre' ++ rest /\ Inv cfg (set_requests (alter f i) s') []
        /\ tracks (credited out pre'.*1) s.(requests) (alter f i s'.(requests))).
    { intros f Hf Hph. exists (pre ++ [(i, n)]). split_and!; [by rewrite <- app_assoc| |rewrite fmap_app; by apply (credited_step _ _ _ _ r)].
      apply inv_assign; [done|]. intros r' Hr'. assert (r' = r) as -> by congruence. destruct Hf as (Hc & Hinfo & _).
      unfold keeps, flight_fine. rewrite Hinfo. split_and!; [done|done|by intros [Hw _]|]. intros (F1 & _). split_and!; [done|congruence..]. }
    assert (Hcr : credit out i r = if is_prefill_chunk r then 0 else
      cfg.(num_sampled_tokens_per_step) + Z.of_nat (length (default [] (dict_get out.(out_spec_decode_tokens) i)))).
    { unfold credit. rewrite Hasync, bool_decide_true by done. by destruct (is_prefill_chunk r). }
    safe_step. apply (safe_get i r); [done|]. destruct (is_prefill_chunk r) eqn:Hchunk; safe_steps.
    + destruct (Hgoal id) as (pre' & E1 & E2 & E3); [by split_and!|unfold id; lia|]. exists pre'. rewrite alter_id in E3 by done.
      split_and!; try done.
    + set (f := fun r0 => set_spec _ _). destruct (use_v2_model_runner cfg); safe_steps.
      * destruct (Hgoal (set_next_step (current_step (id s') + pp_size cfg) ∘ f)) as (pre' & E1 & E2 & E3); [by split_and!|simpl; lia|].
        exists pre'. rewrite <- alter_alter_eq in E3. split_and!; try done. unfold set_requests in E2 |- *. simpl. by rewrite <- alter_alter_eq in E2.
      * destruct (Hgoal f) as (pre' & E1 & E2 & E3); [by split_and!|simpl; lia|]. exists pre'. by split_and!.
  - intros s' (pre & Hsched & Hi' & Hrun' & Hc' & Hst' & Hfin' & Hpre' & Htr). rewrite app_nil_r in Hsched. subst pre. by apply HP.
Qed.

Lemma cached_data_spec T0 s l ids P :
  Inv cfg s [] -> LInv cfg T0 s l -> (forall i, i ∈ ids -> i ∈ sched_ids l) ->
  (forall cached, (fst ∘ fst ∘ fst <$> cached) = ids -> P cached s) -> safe (make_cached_request_data l ids) s P.
Proof.
  intros Hi HL Hids HP. unfold make_cached_request_data. apply (safe_map_m _ (fun i x => (fst ∘ fst ∘ fst) x = i)).
  - intros i Hin. destruct (new_blocks_of_ok T0 s l i HL (Hids i Hin)) as [b Hb].
    destruct (inv_running_lookup cfg s [] i Hi (li_member _ _ _ _ HL i (Hids i Hin))) as (r & Hr & _).
    eexists. split; [unfold get_req, bind, gets, lift; rewrite Hr, Hb; done|done].
  - intros cs Hcs. by apply HP, fmap_of_Forall2.
Qed.

(** A request before and after the output was built. *)
Definition booked (out : Output B X) i (r r' : Req) : Prop :=
  same_core r r' /\ r'.(info).(num_in_flight_tokens) = r.(info).(num_in_flight_tokens) + amount out.(out_num_scheduled_tokens) i
  /\ r'.(info).(num_computed_tokens) = r.(info).(num_computed_tokens) + amount out.(out_num_scheduled_tokens) i
  /\ r'.(num_stale_output_tokens) = r.(num_stale_output_tokens)
  /\ r'.(num_output_placeholders) = r.(num_output_placeholders) + credit out i r'
  /\ r'.(info).(status) = r.(info).(status)
  /\ (i ∈ out.(out_num_scheduled_tokens).*1 ->
      r'.(is_prefill_chunk) = (r'.(info).(num_computed_tokens) <? num_tokens r' + r.(num_output_placeholders))).

(** How many draft tokens the next step may have. *)
Lemma num_spec_ok T0 s l (s1 : State K Q) P :
  Inv cfg s [] -> LInv cfg T0 s l -> (forall n, P n s1) ->
  safe (lift (match cfg.(dynamic_sd_lookup) with
              | Some table => if (length l.(num_scheduled_tokens) =? 0)%nat then Ok cfg.(num_spec_tokens) else
                              match table !! length l.(num_scheduled_tokens) with Some k => Ok k | None => Raise IndexError end
              | None => Ok cfg.(num_spec_tokens)
              end)) s1 P.
Proof.
  intros Hi HL HP. destruct (dynamic_sd_lookup cfg) as [table|] eqn:Htab; [|by eapply safe_lift].
  destruct (_ =? 0)%nat; [by eapply safe_lift|].
  destruct (co_table _ cfg_good table Htab (length l.(num_scheduled_tokens))) as [n ->]; [|by eapply safe_lift].
  pose proof (sched_length T0 s l HL). pose proof (iv_max _ _ _ Hi). lia.
Qed.

Lemma finish_step_spec T0 s l P :
  Inv cfg s [] -> Held s -> LInv cfg T0 s l ->
  (forall out s', Inv cfg s' [] -> Held s' -> tracks (booked out) s.(requests) s'.(requests) ->
     out.(out_num_scheduled_tokens) = l.(num_scheduled_tokens) -> out.(out_total) = total l.(num_scheduled_tokens) ->
     out.(out_new_reqs).*1 ++ (fst ∘ fst ∘ fst <$> out.(out_cached_reqs)) ≡ₚ sched_ids l ->
     out.(out_spec_decode_tokens) = l.(scheduled_spec_decode_tokens) ->
     out.(out_finished) = s.(finished_req_ids) -> s'.(running) = s.(running) -> s'.(current_step) = s.(current_step) ->
     s'.(finished_req_ids) = ∅ -> s'.(reset_preempted_req_ids) = ∅ ->
     (forall n, steps_open s.(caches) n -> steps_open s'.(caches) (if out.(out_total) >? 0 then n + 1 else n)) -> P out s') ->
  safe (finish_step cfg l) s P.
Proof.
  intros Hi Hh HL HP. unfold finish_step. set (new_ids := if use_v2_model_runner cfg then _ else _).
  set (resumed_ids := if use_v2_model_runner cfg then _ else _).
  assert (Hids : new_ids ++ l.(scheduled_running_reqs) ++ resumed_ids ≡ₚ sched_ids l).
  { unfold new_ids, resumed_ids, sched_ids. destruct (use_v2_model_runner cfg); solve_Permutation. }
  cbv zeta. safe_step. apply (safe_map_m _ (fun i x => x.1 = i)).
  { intros i Hin. destruct (new_blocks_of_ok T0 s l i HL) as [b Hb]; [rewrite <- Hids; apply elem_of_app; by left|].
    eexists. split; [unfold bind, lift; rewrite Hb; done|done]. }
  intros new_data Hnew%fmap_of_Forall2. safe_step. apply (cached_data_spec T0); [done|done| |].
  { intros i Hin. rewrite <- Hids. apply elem_of_app. by right. }
  intros cached Hcached. safe_step. eapply safe_call; [apply (cl_collect (cfg := cfg)); [apply Hh|apply HL]|].
  intros x k _ (Hk1 & Hk2 & Hk3 & Hk4). set (s1 := set_caches k s). safe_step.
  apply (num_spec_ok T0 s); [done|done|]. intros num_spec. safe_steps. cbv zeta.
  set (out := mkOutput _ _ _ _ _ _ _ _ _ _ _). change (out_num_scheduled_tokens out) with l.(num_scheduled_tokens).
  assert (Hmem : forall i, i ∈ l.(num_scheduled_tokens).*1 -> i ∈ s1.(running)) by (intros i Hin; apply (li_member _ _ _ _ HL); by rewrite <- (li_keys _ _ _ _ HL)).
  assert (Hnd : NoDup l.(num_scheduled_tokens).*1) by (rewrite (li_keys _ _ _ _ HL); apply HL).
  assert (Hready : slots_ready l.(num_scheduled_tokens) s1).
  { intros i n r Hx Hr. destruct (proj1 (Forall_forall _ _) (li_len _ _ _ _ HL) _ Hx) as (r0 & Hr0 & _ & Hcov). simpl in *.
    assert (r0 = r) as -> by congruence. split_and!; [exact (proj1 (Forall_forall _ _) (li_pos _ _ _ _ HL) _ Hx)|by apply Hk3|].
    intros Has. apply (li_clean _ _ _ _ HL Has i); [|done]. rewrite <- (li_keys _ _ _ _ HL). by apply (list_elem_of_fmap_2' fst _ _ _ Hx). }
  assert (Hh1 : Held s1).
  { destruct Hh as [_ H2]. split; [done|]. intros i. specialize (H2 i). simpl. destruct (s.(requests) !! i) as [r|]; simpl in *; [case_bool_decide|]; [|by apply Hk2..].
    split; [apply H2|apply Hk3, H2]. }
  apply update_after_schedule_spec; [by apply inv_set_caches|done|done|done|done|].
  intros s2 Hi2 Hh2 Htr2 Hr2 Hk5 Hc2 Hf2 Hp2. destruct (async_scheduling cfg) eqn:Has; safe_steps.
  - apply async_update_spec; [done|done|done|rewrite Hr2; apply Hmem|]. intros s3 Hi3 Hr3 Hk6 Hc3 Hf3 Hp3 Htr3. safe_steps.
    apply HP; try done; simpl in *; try congruence;
      [by apply (held_tracks _ s2 s3 Hh2 Hk6 Htr3); intros i r r' _ ((_ & -> & _) & _)| |by rewrite Hk6, Hk5; apply Hk4].
    eapply tracks_trans; [|exact Htr2|exact Htr3]. intros i r1 r2 r3 (A1 & A2 & A3 & A4 & A5 & A6 & _ & A7) ((B1 & B2 & B3 & B4) & B5).
    split_and!; [by transitivity r2|by rewrite B2|by rewrite B2|congruence| |by rewrite B2|].
    + rewrite B5, A5. f_equal. unfold credit. rewrite B4, Has. simpl. by destruct (bool_decide (i ∈ l.(num_scheduled_tokens).*1)).
    + intros Hin. rewrite B4, (A7 Hin), B2, (core_tokens _ _ B1), A5. done.
  - apply HP; try done; simpl in *; [|by rewrite Hnew, Hcached|by rewrite Hk5; apply Hk4]. eapply tracks_trans; [|exact Htr2|by apply (tracks_refl (fun _ => eq))].
    intros i r1 r2 r3 (A1 & A2 & A3 & A4 & A5 & A6 & _ & A7) <-. split_and!; try done; [unfold credit; rewrite Has; simpl; lia|].
    intros Hin. by rewrite (A7 Hin), A5.
Qed.

(** ** A step *)

(** A request before and after a step: it may have been preempted, and it has the tokens
    and placeholders of the step. *)
Definition stepped (out : Output B X) i (r r' : Req) : Prop :=
  exists r1, same_core r r1 /\ acct r r1 /\ booked out i r1 r'
    /\ forall toks, (i, toks) ∈ out.(out_spec_decode_tokens) ->
         Z.of_nat (length toks) + num_tokens r' + r1.(num_output_placeholders) <= r'.(info).(num_computed_tokens)
         /\ (cfg.(async_scheduling) = false -> r1.(info).(num_in_flight_tokens) <= r1.(num_stale_output_tokens)).

(** What holds of the state and the output after a step. *)
Record step_ok s s' (out : Output B X) : Prop := {
  so_inv : Inv cfg s' [];
  so_held : Held s';
  so_requests : tracks (stepped out) s.(requests) s'.(requests);
  so_nodup : NoDup out.(out_num_scheduled_tokens).*1;
  so_described : out.(out_new_reqs).*1 ++ (fst ∘ fst ∘ fst <$> out.(out_cached_reqs)) ≡ₚ out.(out_num_scheduled_tokens).*1;
  so_scheduled : forall i n, (i, n) ∈ out.(out_num_scheduled_tokens) ->
    0 < n /\ i ∈ s'.(running) /\ exists r, s'.(requests) !! i = Some r /\ r.(info).(num_computed_tokens) <= cfg.(max_model_len);
  so_spec : forall i toks, (i, toks) ∈ out.(out_spec_decode_tokens) ->
    i ∈ out.(out_num_scheduled_tokens).*1 /\ exists r, s'.(requests) !! i = Some r /\ r.(is_prefill_chunk) = false;
  so_total : out.(out_total) = total out.(out_num_scheduled_tokens)
    /\ out.(out_total) <= cfg.(max_num_scheduled_tokens)
    /\ out.(out_total) + cfg.(draft_slots) * Z.of_nat (length out.(out_num_scheduled_tokens)) <= cfg.(max_num_batched_tokens);
  so_paused : s.(pause_state) = PAUSED_ALL -> out.(out_num_scheduled_tokens) = [];
  so_step : s'.(current_step) = s.(current_step) + 1;
  so_finished : out.(out_finished) = s.(finished_req_ids) /\ s'.(finished_req_ids) = ∅ /\ s'.(reset_preempted_req_ids) = ∅;
  so_open : forall n, steps_open s.(caches) n -> steps_open s'.(caches) (if out.(out_total) >? 0 then n + 1 else n);
}.

Lemma total_cons i n d : total ((i, n) :: d) = n + total d.
Proof. done. Qed.

Lemma dict_total_nonneg d : Forall (fun x => 0 < x.2) d -> 0 <= total d.
Proof. induction 1 as [|[i n] d Hn _ IH]; [done|]. simpl in Hn. rewrite total_cons. lia. Qed.

Lemma no_budget d : Forall (fun x => 0 < x.2) d -> total d <= 0 -> d = [].
Proof.
  intros Hp Ht. destruct Hp as [|[i n] d Hn Hp]; [done|]. simpl in Hn. rewrite total_cons in Ht. pose proof (dict_total_nonneg d Hp). lia.
Qed.

Lemma schedule_spec throttle s :
  Inv cfg s [] -> Held s -> loras_fit s.(requests) -> safe (schedule cfg throttle) s (fun out s' => step_ok s s' out).
Proof.
  intros Hi Hh Hfit. unfold schedule. safe_steps. apply steady_call_spec; [apply (cl_new_step (cfg := cfg)), Hh|]. intros [] k Hk. safe_steps. unfold id.
  set (s0 := set_caches k _). set (paused := bool_decide _). set (T0 := if paused then 0 else cfg.(max_num_scheduled_tokens)).
  assert (Hi0 : Inv cfg s0 []) by (by destruct Hi). assert (Hh0 : Held s0) by (apply (held_set_caches k s) in Hh; [by destruct Hh|done]).
  pose proof (choose_spec throttle paused s0
    (fun _ x => Inv cfg x.1 [] /\ Held x.1 /\ LInv cfg T0 x.1 x.2 /\ frame s0 x.1) Hi0 Hh0 Hfit ltac:(done)) as Hch.
  unfold safe in Hch |- *. destruct (choose cfg throttle _) as [[[]|e] [s1 l]]; [|done]. destruct Hch as (Hi1 & Hh1 & HL & [F1 F2 F3 F4 F5 F6 F7]). simpl in Hi1, Hh1, HL.
  apply (finish_step_spec T0 s1 l); [done|done|done|]. intros out s' Hi' Hh' Htr Hsch Htot Hdesc Hspec Hfin Hrun Hstep Hf1 Hf2 Hopen.
  pose proof HL as [Hnd Hk' Hb Hmem Hp Ht Hin _ Hlen Hsp _].
  assert (Hdraft : forall i toks, (i, toks) ∈ l.(scheduled_spec_decode_tokens) -> exists n r r', (i, n) ∈ l.(num_scheduled_tokens)
    /\ s1.(requests) !! i = Some r /\ s'.(requests) !! i = Some r' /\ booked out i r r'
    /\ Z.of_nat (length toks) + num_tokens r' + r.(num_output_placeholders) <= r'.(info).(num_computed_tokens)
    /\ (cfg.(async_scheduling) = false -> r.(info).(num_in_flight_tokens) <= r.(num_stale_output_tokens))).
  { intros i toks Hx. destruct (Hsp i toks Hx) as (n & r & Hn & Hr & Hle & Hsync). destruct (tracks_lookup _ _ _ _ _ Htr Hr) as (r' & Hr' & Hbk).
    exists n, r, r'. pose proof Hbk as (Hc & _ & Hcomp & _). unfold amount in Hcomp. rewrite Hsch, Hn in Hcomp. simpl in Hcomp.
    split_and!; try done; [by apply dict_get_in|]. rewrite (core_tokens _ _ Hc). lia. }
  split; rewrite ?Hsch, ?Htot, ?Hspec; try done.
  - eapply tracks_trans; [|exact (tracks_and _ _ _ _ F1 F2)|exact (tracks_both _ _ _ Htr)]. intros i r r1 r' [Hc Ha] (Hbk & H1 & H2).
    exists r1. split_and!; [done..|]. rewrite Hspec. intros toks Hx. destruct (Hdraft i toks Hx) as (n & x & x' & _ & Hx1 & Hx2 & _ & Hle & Hsync).
    simpl in H1. by simplify_eq.
  - by rewrite Hk'.
  - by rewrite Hk', Hdesc.
  - intros i n Hx. pose proof (proj1 (Forall_forall _ _) Hp _ Hx) as Hn. destruct (proj1 (Forall_forall _ _) Hlen _ Hx) as (r1 & Hr1 & Hle & _).
    simpl in Hn, Hr1, Hle. destruct (tracks_lookup _ _ _ _ _ Htr Hr1) as (r' & Hr' & (_ & _ & Hc & _)).
    assert (Ham : amount out.(out_num_scheduled_tokens) i = n) by (rewrite Hsch; apply amount_elem; [by rewrite Hk'|done]).
    split_and!; [done| |exists r'; split; [done|lia]]. rewrite Hrun. apply Hmem. rewrite <- Hk'. by apply (list_elem_of_fmap_2' fst _ _ _ Hx).
  - intros i toks Hx. destruct (Hdraft i toks Hx) as (n & r & r' & Hn & Hr & Hr' & Hbk & Hle & _). pose proof (list_elem_of_fmap_2' fst _ _ _ Hn eq_refl) as Hin'.
    split; [done|]. exists r'. split; [done|]. destruct Hbk as (_ & _ & _ & _ & _ & _ & ->); [lia|by rewrite Hsch].
  - subst T0. pose proof (co_tokens _ cfg_good). destruct paused; lia.
  - intros Hpause. apply no_budget; [done|]. assert (paused = true) as Hpa by (apply bool_decide_eq_true; exact Hpause).
    subst T0. rewrite Hpa in Ht. lia.
  - rewrite Hstep. simpl in F5. by rewrite F5.
  - split_and!; [|done|done]. simpl in F6. congruence.
  - intros n Hn. rewrite <- Htot. by apply Hopen, F7, (st_steps _ _ Hk).
Qed.

(** C9: For every implementation of the caches and the queues, [schedule] fails none of
    its assertions and lookups: an exception that leaves it came from a cache
    operation.  Otherwise every request is still in exactly one place with its tokens,
    the scheduled requests are distinct running requests with at least one token each
    that fit the model, the token budget and the input budget hold, every scheduled
    request is described once to the worker, drafts are scheduled only for requests
    whose prompt is done, nothing is scheduled while everything is paused, and the ids
    of the finished requests are handed over once. *)
Theorem schedule_meets_contract (throttle : bool) s :
  Inv cfg s [] -> Held s -> loras_fit s.(requests) ->
  match schedule cfg throttle s with
  | (Ok out, s') => step_ok s s' out
  | (Raise e, _) => exists e', e = Callee e' /\ may_raise e'
  end.
Proof. apply schedule_spec. Qed.
End schedule.
