(* ===== verification/StopCheck.v ===== *)
(** * When a request stops

    The stop checks of [vllm/v1/core/sched/utils.py] ([Scheduler]): the search for a
    repeated pattern at the end of the output finds exactly the outputs that end in the
    required number of copies of one pattern, and [check_stop] raises nothing on a
    request that generates tokens. *)

From S2P Require Import Prelude KVManager RequestQueue Scheduler.

(** ** Repeated patterns *)

(** [l] ends in [count] copies of a pattern of [p] tokens. *)
Definition ends_in_copies (l : list Z) (p count : nat) : Prop :=
  exists pre pat, length pat = p /\ l = pre ++ mjoin (replicate count pat).

(** [token_ids[-i]] is the [i]-th token from the end. *)
Lemma from_end_spec l i : 1 <= i <= Z.of_nat (length l) -> exists x, from_end l i = Ok x /\ reverse l !! Z.to_nat (i - 1) = Some x.
Proof.
  intros Hi. unfold from_end. destruct (Z.ltb_spec (Z.of_nat (length l)) i); [lia|].
  destruct (lookup_lt_is_Some_2 l (Z.to_nat (Z.of_nat (length l) - i))) as [x Hx]; [lia|]. rewrite Hx. exists x. split; [done|].
  rewrite reverse_lookup by lia. rewrite <- Hx. f_equal. lia.
Qed.

(** Position [n] from the end agrees with the [k] positions whole patterns before it. *)
Definition agrees (l : list Z) (p n : nat) (m k : nat) : Prop :=
  forall j, (j < k)%nat -> reverse l !! (p * (m + j) + n)%nat = reverse l !! n.

Lemma repeats_at_spec l p n target m k :
  (1 <= p)%nat -> (p * (m + k) <= length l)%nat -> (n < p)%nat -> reverse l !! n = Some target ->
  exists b, repeats_at l (Z.of_nat p) (Z.of_nat n + 1) target (Z.of_nat m) k = Ok b /\ (b = true <-> agrees l p n m k).
Proof.
  intros Hp. revert m. induction k as [|k IH]; intros m Hlen Hn Ht; cbn [repeats_at].
  { exists true. split; [done|]. split; [|done]. intros _ j Hj. lia. }
  destruct (from_end_spec l (Z.of_nat p * Z.of_nat m + (Z.of_nat n + 1))) as (x & -> & Hx); [nia|]. cbn [rbind].
  replace (Z.to_nat (Z.of_nat p * Z.of_nat m + (Z.of_nat n + 1) - 1)) with (p * m + n)%nat in Hx by lia.
  destruct (Z.eqb_spec x target) as [->|Hne]; cbn [negb].
  - destruct (IH (S m) ltac:(lia) Hn Ht) as (b & Hb & Hiff). replace (Z.of_nat m + 1) with (Z.of_nat (S m)) by lia. exists b. split; [done|].
    rewrite Hiff. split; intros Ha j Hj.
    + destruct j as [|j]; [by rewrite Nat.add_0_r, Hx|]. rewrite <- (Ha j ltac:(lia)). f_equal. lia.
    + rewrite <- (Ha (S j) ltac:(lia)). f_equal. lia.
  - exists false. split; [done|]. split; [done|]. intros Ha. specialize (Ha O ltac:(lia)). rewrite Nat.add_0_r, Hx, Ht in Ha. by injection Ha.
Qed.

Lemma repeats_from_spec l p count n k :
  (1 <= p)%nat -> (1 <= count)%nat -> (p * count <= length l)%nat -> (n + k = p)%nat ->
  exists b, repeats_from l (Z.of_nat p) (Z.of_nat count) (Z.of_nat n + 1) k = Ok b
    /\ (b = true <-> forall i, (n <= i < p)%nat -> agrees l p i 1 (count - 1)).
Proof.
  intros Hp Hc Hlen. revert n. induction k as [|k IH]; intros n Hn; cbn [repeats_from].
  { exists true. split; [done|]. split; [|done]. intros _ i Hi. lia. }
  destruct (from_end_spec l (Z.of_nat n + 1)) as (t & -> & Ht); [nia|]. cbn [rbind].
  replace (Z.to_nat (Z.of_nat n + 1 - 1)) with n in Ht by lia. replace (Z.to_nat (Z.of_nat count - 1)) with (count - 1)%nat by lia.
  destruct (repeats_at_spec l p n t 1 (count - 1)) as (b & Hb & Hiff); [lia|nia|lia|done|]. change (Z.of_nat 1) with 1 in Hb. rewrite Hb. cbn [rbind].
  destruct b.
  - destruct (IH (S n) ltac:(lia)) as (b & Hb' & Hiff'). replace (Z.of_nat n + 1 + 1) with (Z.of_nat (S n) + 1) by lia. exists b. split; [done|].
    rewrite Hiff'. split; intros Ha i Hi; [|apply Ha; lia]. destruct (decide (i = n)) as [->|]; [by apply Hiff|apply Ha; lia].
  - exists false. split; [done|]. split; [done|]. intros Ha. destruct Hiff as [_ Hiff]. discriminate Hiff. apply Ha. lia.
Qed.

Lemma mjoin_replicate_length (pat : list Z) k : length (mjoin (replicate k pat)) = (k * length pat)%nat.
Proof. induction k as [|k IH]; [done|]. change (mjoin (replicate (S k) pat)) with (pat ++ mjoin (replicate k pat)). rewrite length_app, IH. lia. Qed.

Lemma mjoin_replicate_lookup (pat : list Z) k j n :
  (j < k)%nat -> (n < length pat)%nat -> mjoin (replicate k pat) !! (length pat * j + n)%nat = pat !! n.
Proof.
  revert j. induction k as [|k IH]; intros j Hj Hn; [lia|]. change (mjoin (replicate (S k) pat)) with (pat ++ mjoin (replicate k pat)).
  destruct j as [|j]; [rewrite Nat.mul_0_r; by rewrite lookup_app_l|]. rewrite lookup_app_r by lia. rewrite <- (IH j) by lia. f_equal. lia.
Qed.

Lemma mjoin_replicate_snoc (pat : list Z) k : mjoin (replicate (S k) pat) = mjoin (replicate k pat) ++ pat.
Proof.
  induction k as [|k IH]; [cbn; by rewrite app_nil_r|]. change (pat ++ mjoin (replicate (S k) pat) = (pat ++ mjoin (replicate k pat)) ++ pat).
  rewrite IH. by rewrite app_assoc.
Qed.

Lemma reverse_mjoin_replicate (pat : list Z) k : reverse (mjoin (replicate k pat)) = mjoin (replicate k (reverse pat)).
Proof.
  induction k as [|k IH]; [done|]. rewrite mjoin_replicate_snoc, reverse_app, IH. done.
Qed.

Lemma ends_in_copies_rev l p count :
  ends_in_copies l p count <-> exists pat rest, length pat = p /\ reverse l = mjoin (replicate count pat) ++ rest.
Proof.
  split.
  - intros (pre & pat & Hp & ->). exists (reverse pat), (reverse pre). rewrite reverse_app, reverse_mjoin_replicate, length_reverse. done.
  - intros (pat & rest & Hp & Hl). exists (reverse rest), (reverse pat). rewrite length_reverse. split; [done|].
    rewrite <- reverse_mjoin_replicate, <- reverse_app, <- Hl. by rewrite reverse_involutive.
Qed.

Lemma agrees_iff l p count :
  (1 <= p)%nat -> (1 <= count)%nat -> (p * count <= length l)%nat ->
  (forall i, (i < p)%nat -> agrees l p i 1 (count - 1)) <-> ends_in_copies l p count.
Proof.
  intros Hp Hc Hlen. rewrite ends_in_copies_rev. set (x := reverse l). assert (Hx : length x = length l) by apply length_reverse.
  assert (Hle : (p <= length x)%nat) by nia. split.
  - intros Ha. exists (take p x), (drop (p * count) x). split; [rewrite length_take; lia|].
    assert (Hl : length (take p x) = p) by (rewrite length_take; lia).
    rewrite <- (take_drop (p * count) x) at 1. f_equal. apply list_eq_same_length with (p * count)%nat; [rewrite mjoin_replicate_length, Hl; apply Nat.mul_comm|rewrite length_take; lia|].
    intros i y z Hi Hy Hz. assert (Hdiv : i = (p * (i / p) + i mod p)%nat) by (apply Nat.div_mod; lia).
    assert (Hmod : (i mod p < p)%nat) by (apply Nat.mod_upper_bound; lia).
    assert (Hq : (i / p < count)%nat) by (apply Nat.Div0.div_lt_upper_bound; lia).
    rewrite Hdiv in Hz. rewrite <- Hl in Hz at 1. rewrite mjoin_replicate_lookup in Hz by (rewrite ?Hl; lia). rewrite lookup_take_lt in Hz by lia.
    rewrite lookup_take_lt in Hy by lia. rewrite Hdiv in Hy. destruct (i / p)%nat as [|q] eqn:Eq; [rewrite Nat.mul_0_r, Nat.add_0_l in Hy; congruence|].
    pose proof (Ha (i mod p)%nat Hmod q ltac:(lia)) as Hag. fold x in Hag. replace (1 + q)%nat with (S q) in Hag by lia. congruence.
  - intros (pat & rest & Hpat & Hrev). intros i Hi j Hj. fold x. rewrite Hrev.
    assert (Hm : forall k, (k < count)%nat -> (mjoin (replicate count pat) ++ rest) !! (p * k + i)%nat = pat !! i).
    { intros k Hk. rewrite lookup_app_l by (rewrite mjoin_replicate_length; nia). rewrite <- Hpat. apply mjoin_replicate_lookup; lia. }
    rewrite Hm by lia. specialize (Hm O ltac:(lia)). rewrite Nat.mul_0_r, Nat.add_0_l in Hm. by rewrite Hm.
Qed.

Lemma has_repeating_pattern_spec l p count :
  (1 <= p)%nat -> (1 <= count)%nat -> (p * count <= length l)%nat ->
  exists b, has_repeating_pattern l (Z.of_nat p) (Z.of_nat count) = Ok b /\ (b = true <-> ends_in_copies l p count).
Proof.
  intros Hp Hc Hlen. unfold has_repeating_pattern. rewrite Nat2Z.id.
  destruct (repeats_from_spec l p count 0 p Hp Hc Hlen ltac:(lia)) as (b & Hb & Hiff). exists b. split; [done|].
  rewrite Hiff, <- agrees_iff by lia. split; intros Ha i Hi; apply Ha; lia.
Qed.

Lemma ends_in_copies_length l p count : ends_in_copies l p count -> (p * count <= length l)%nat.
Proof. intros (pre & pat & <- & ->). rewrite length_app, mjoin_replicate_length. lia. Qed.

(** The loop over the pattern lengths stops at the first that does not fit. *)
Lemma repetition_loop_spec l count p k :
  (1 <= p)%nat -> (1 <= count)%nat ->
  exists b, repetition_loop l (Z.of_nat count) (Z.of_nat p) k = Ok b
    /\ (b = true <-> exists p', (p <= p' < p + k)%nat /\ ends_in_copies l p' count).
Proof.
  intros Hp Hc. revert p Hp. induction k as [|k IH]; intros p Hp; cbn [repetition_loop].
  { exists false. split; [done|]. split; [done|]. intros (p' & Hp' & _). lia. }
  destruct (Z.of_nat p * Z.of_nat count >? Z.of_nat (length l)) eqn:Hfit.
  { exists false. split; [done|]. split; [done|]. intros (p' & Hp' & He%ends_in_copies_length). nia. }
  destruct (has_repeating_pattern_spec l p count Hp Hc ltac:(lia)) as (b & -> & Hb). cbn [rbind]. destruct b.
  { exists true. split; [done|]. split; [|done]. intros _. exists p. split; [lia|by apply Hb]. }
  destruct (IH (S p) ltac:(lia)) as (b & Hrun & Hiff). replace (Z.of_nat p + 1) with (Z.of_nat (S p)) by lia. exists b. split; [done|].
  rewrite Hiff. split; intros (p' & Hp' & He); exists p'; (split; [|done]); [lia|].
  destruct (decide (p' = p)) as [->|]; [|lia]. destruct Hb as [_ Hb]. discriminate Hb. done.
Qed.

Lemma check_sequence_repetition_spec l max_size min_size count :
  exists b, check_sequence_repetition l max_size min_size count = Ok b
    /\ (b = true <-> 2 <= count /\ exists p, Z.max 1 min_size <= Z.of_nat p <= max_size /\ ends_in_copies l p (Z.to_nat count)).
Proof.
  unfold check_sequence_repetition. cbv zeta. set (lo := if min_size <=? 0 then 1 else min_size).
  assert (Hlo : lo = Z.max 1 min_size) by (subst lo; destruct (Z.leb_spec min_size 0); lia). rewrite Hlo. clear lo Hlo.
  destruct (_ || _ || _) eqn:Hg.
  { exists false. split; [done|]. split; [done|]. intros (Hc & p & Hp & _). lia. }
  destruct (repetition_loop_spec l (Z.to_nat count) (Z.to_nat (Z.max 1 min_size)) (Z.to_nat (max_size + 1 - Z.max 1 min_size))) as (b & Hrun & Hiff); [lia..|].
  rewrite !Z2Nat.id in Hrun by lia. exists b. split; [done|]. rewrite Hiff.
  split; [intros (p & Hp & He)|intros (_ & p & Hp & He)]; [split; [lia|]|]; exists p; (split; [lia|done]).
Qed.

(** ** [check_stop] *)

(** The request but for its status and its tokens. *)
Record same_but_tokens (r r' : Req) : Prop := {
  sb_info : r'.(info) = (set_status r'.(info).(status) r).(info);
  sb_key : r'.(key) = r.(key);
  sb_params : r'.(params) = r.(params);
  sb_spec : r'.(spec_token_ids) = r.(spec_token_ids);
  sb_placeholders : r'.(num_output_placeholders) = r.(num_output_placeholders);
  sb_stale : r'.(num_stale_output_tokens) = r.(num_stale_output_tokens);
  sb_drop : r'.(drop_stale_output) = r.(drop_stale_output);
  sb_chunk : r'.(is_prefill_chunk) = r.(is_prefill_chunk);
  sb_preemptions : r'.(num_preemptions) = r.(num_preemptions);
}.

Lemma same_but_tokens_refl r : same_but_tokens r r.
Proof. split; try done. by destruct r as [[] ? ? ? ? ? ? ? ? ? ? ? ? ?]. Qed.

Lemma same_but_tokens_trans r1 r2 r3 : same_but_tokens r1 r2 -> same_but_tokens r2 r3 -> same_but_tokens r1 r3.
Proof.
  intros [A1 A2 A3 A4 A5 A6 A7 A8 A9] [B1 B2 B3 B4 B5 B6 B7 B8 B9]. split; try congruence. rewrite B1. simpl. rewrite A1. done.
Qed.

(** A generating request with output: the check answers; a request that goes on has room
    for a token or owes tokens, and one that stops is finished. *)
Lemma check_stop_spec r max_len :
  r.(params).(pooling) = false -> r.(output_token_ids) <> [] ->
  exists r' b, check_stop r max_len = Ok (r', b) /\ same_but_tokens r r'
    /\ r'.(all_token_ids) = r.(all_token_ids) /\ r'.(output_token_ids) = r.(output_token_ids)
    /\ (if b then is_finished r'.(info).(status) = true
        else r' = r /\ (num_output_tokens r < r.(params).(min_tokens)
                       \/ (num_tokens r < max_len /\ num_output_tokens r < r.(params).(max_tokens)))).
Proof.
  intros Hpool Hout. unfold check_stop. rewrite Hpool. destruct (Z.ltb_spec (num_output_tokens r) (min_tokens (params r))) as [Hmin|Hmin].
  { exists r, false. split_and!; try done; [apply same_but_tokens_refl|by left]. }
  destruct (last (output_token_ids r)) as [t|] eqn:Hlast; [|by apply last_None in Hlast].
  assert (Hset : forall st, same_but_tokens r (set_status st r)) by (intros st; by split).
  destruct (_ || _); [by eexists _, true; split_and!|].
  destruct ((_ <=? _) || _) eqn:Hcap; [by eexists _, true; split_and!|].
  assert (Hgo : num_tokens r < max_len /\ num_output_tokens r < max_tokens (params r)) by (apply orb_false_iff in Hcap as [? ?]; lia).
  assert (Hno : exists r' b, Ok (r, false) = Ok (r', b) /\ same_but_tokens r r' /\ r'.(all_token_ids) = r.(all_token_ids)
    /\ r'.(output_token_ids) = r.(output_token_ids) /\ (if b then is_finished r'.(info).(status) = true
        else r' = r /\ (num_output_tokens r < r.(params).(min_tokens)
                       \/ (num_tokens r < max_len /\ num_output_tokens r < r.(params).(max_tokens))))).
  { exists r, false. split_and!; try done; [apply same_but_tokens_refl|by right]. }
  destruct (repetition_detection (params r)) as [[[mx mn] count]|]; [|done].
  destruct (check_sequence_repetition_spec (output_token_ids r) mx mn count) as (b & -> & _). cbn [rbind].
  destruct b; [by eexists _, true; split_and!|done].
Qed.

(** ** Appending sampled tokens *)

Lemma append_same_but_tokens t r : same_but_tokens r (append_output_token t r).
Proof. split; try done. by destruct r as [[] ? ? ? ? ? ? ? ? ? ? ? ? ?]. Qed.

Lemma append_and_check_spec cfg r toks :
  r.(params).(pooling) = false ->
  exists r' kept b, append_and_check cfg r toks = Ok (r', kept, b) /\ same_but_tokens r r' /\ kept `prefix_of` toks
    /\ r'.(all_token_ids) = r.(all_token_ids) ++ kept /\ r'.(output_token_ids) = r.(output_token_ids) ++ kept
    /\ (if b then is_finished r'.(info).(status) = true
        else kept = toks /\ r'.(info).(status) = r.(info).(status)
          /\ (toks <> [] -> num_output_tokens r' < r.(params).(min_tokens) \/ num_tokens r' < cfg.(max_model_len))).
Proof.
  revert r. induction toks as [|t toks IH]; intros r Hpool; cbn [append_and_check].
  { exists r, [], false. rewrite !app_nil_r. split_and!; try done. apply same_but_tokens_refl. }
  destruct (check_stop_spec (append_output_token t r) cfg.(max_model_len)) as (r1 & b & -> & Hs1 & Ha1 & Ho1 & Hb1); [done|simpl; by intros [_ ?]%app_nil|].
  cbn [rbind]. pose proof (same_but_tokens_trans _ _ _ (append_same_but_tokens t r) Hs1) as Hs. simpl in Ha1, Ho1. destruct b.
  { exists r1, [t], true. split_and!; try done. by apply prefix_cons, prefix_nil. }
  destruct Hb1 as [-> Hgo]. destruct (IH (append_output_token t r) Hpool) as (r2 & kept & b & -> & Hs2 & Hpre & Ha2 & Ho2 & Hb2).
  cbn [rbind]. exists r2, (t :: kept), b. split_and!; [done|by apply (same_but_tokens_trans _ (append_output_token t r))|by apply prefix_cons| | |].
  - rewrite Ha2. simpl. by rewrite <- app_assoc.
  - rewrite Ho2. simpl. by rewrite <- app_assoc.
  - destruct b; [done|]. destruct Hb2 as (-> & Hst & Hlen). split_and!; [done|by rewrite Hst|]. intros _. destruct toks as [|t' toks].
    + simpl in Ha2, Ho2. rewrite app_nil_r in Ha2, Ho2. unfold num_output_tokens, num_tokens in *. rewrite Ha2, Ho2. simpl in Hgo. tauto.
    + by apply Hlen.
Qed.

(** C34: [check_sequence_repetition] never fails, and says yes exactly when the output
    ends in [count] copies of one pattern whose length is within the two bounds. *)
Theorem repetition_detection_is_exact l max_size min_size count :
  exists b, check_sequence_repetition l max_size min_size count = Ok b
    /\ (b = true <-> 2 <= count /\ exists p, Z.max 1 min_size <= Z.of_nat p <= max_size /\ ends_in_copies l p (Z.to_nat count)).
Proof. apply check_sequence_repetition_spec. Qed.
