(* ===== verification/SchedulerOutput.v ===== *)
(** * Processing the output of a step

    [update_from_output], [finish_requests] and the other operations that change the
    requests between two scheduling steps: they keep the bookkeeping consistent and fail
    none of their assertions, given output that fits the step. *)

From S2P Require Import Prelude KVManager RequestQueue Scheduler SchedulerProps SchedulerStep StopCheck.

(** ** Stores *)

Lemma alter_at f i (m : gmap string Req) r : m !! i = Some r -> alter f i m = <[i := f r]> m.
Proof.
  intros Hi. apply map_eq. intros j. destruct (decide (i = j)) as [<-|Hne].
  - by rewrite lookup_alter_eq, lookup_insert_eq, Hi.
  - by rewrite lookup_alter_ne, lookup_insert_ne.
Qed.

(** A request object is replaced and stays where it is. *)
Lemma book_put i r r' m run qs :
  Book m run qs -> m !! i = Some r -> rid r' = rid r -> r'.(key) = r.(key) -> 0 < num_tokens r' -> 0 <= r'.(num_preemptions) ->
  (r.(info).(status) = RUNNING -> r'.(info).(status) = RUNNING) -> (waiting_ok r -> waiting_ok r') -> Book (<[i := r']> m) run qs.
Proof.
  intros [H1 H2 H3 H4 H5] Hi Hid Hk Ht Hp Hrun Hw. destruct (H2 i r Hi) as (A & B & _). split; [done| | | |].
  - intros j x Hj. destruct (decide (i = j)) as [<-|Hne]; [|rewrite lookup_insert_ne in Hj by done; eauto].
    rewrite lookup_insert_eq in Hj. injection Hj as <-. by rewrite Hid, Hk.
  - intros j Hj. destruct (H3 j Hj) as (x & Hx & Hs). destruct (decide (i = j)) as [<-|Hne]; [|exists x; by rewrite lookup_insert_ne].
    exists r'. rewrite lookup_insert_eq. assert (x = r) as -> by congruence. auto.
  - intros q Hq. destruct (H4 q Hq) as (x & Hx & Hkx & Hwx). destruct (decide (i = q.(qrequest_id))) as [->|Hne]; [|exists x; by rewrite lookup_insert_ne].
    exists r'. rewrite lookup_insert_eq. assert (x = r) as -> by congruence. split_and!; [done|congruence|auto].
  - intros j x Hj. destruct (decide (i = j)) as [<-|Hne]; [by apply (H5 i r)|]. rewrite lookup_insert_ne in Hj by done. eauto.
Qed.

(** The requests of [gone] leave the running list and the queues. *)
Lemma book_remove (m gone : gmap string Req) run qs :
  Book (m ∪ gone) run qs -> m ##ₘ gone ->
  Book m (filter (fun i => gone !! i = None) run) (filter (fun q => gone !! q.(qrequest_id) = None) qs).
Proof.
  intros [H1 H2 H3 H4 H5] Hd.
  assert (Hin : forall i r, (m ∪ gone) !! i = Some r -> gone !! i = None -> m !! i = Some r).
  { intros i r Hr Hg. rewrite lookup_union_l in Hr by done. done. }
  assert (Hids : qrequest_id <$> filter (fun q => gone !! q.(qrequest_id) = None) qs = filter (fun i => gone !! i = None) (qrequest_id <$> qs)).
  { clear. induction qs as [|q qs IH]; [done|]. rewrite fmap_cons, !filter_cons. case_decide; [by rewrite fmap_cons, IH|done]. }
  split.
  - rewrite Hids, <- filter_app. by apply NoDup_filter.
  - intros i r Hi. apply (H2 i r). by apply lookup_union_Some_l.
  - intros i [Hg Hi]%list_elem_of_filter. destruct (H3 i Hi) as (r & Hr & Hs). exists r. eauto.
  - intros q [Hg Hq]%list_elem_of_filter. destruct (H4 q Hq) as (r & Hr & Hs). exists r. eauto.
  - intros i r Hi. rewrite Hids, <- filter_app. apply list_elem_of_filter. split; [by apply (map_disjoint_Some_l m gone i r)|].
    apply (H5 i r). by apply lookup_union_Some_l.
Qed.

Lemma filter_iff_in {A} (P1 P2 : A -> Prop) `{!forall x, Decision (P1 x), !forall x, Decision (P2 x)} (l : list A) :
  (forall x, x ∈ l -> P1 x <-> P2 x) -> filter P1 l = filter P2 l.
Proof.
  induction l as [|x l IH]; intros Hl; [done|]. rewrite !filter_cons, IH by (intros y Hy; apply Hl; by right).
  destruct (decide (P1 x)) as [H1|H1], (decide (P2 x)) as [H2|H2]; try done; exfalso; destruct (Hl x ltac:(by left)); auto.
Qed.

Lemma remove_all_filter ids l : NoDup l -> remove_all ids l = filter (fun i => i ∉ ids) l.
Proof.
  intros Hnd. destruct ids as [|i [|j ids]]; cbn [remove_all]; [|rewrite remove_id_filter by done|done].
  - symmetry. apply filter_all. apply Forall_forall. intros x _. apply not_elem_of_nil.
  - apply filter_iff_in. intros x _. by rewrite list_elem_of_singleton.
Qed.

(** ** Loops that collect results *)

Lemma safe_map_m_inv `{!Raises} {S A C} (f : A -> M S C) (I : list A -> list C -> S -> Prop) xs (s : S) P :
  I [] [] s -> (forall pre x rest cs s', xs = pre ++ x :: rest -> I pre cs s' -> safe (f x) s' (fun c s'' => I (pre ++ [x]) (cs ++ [c]) s'')) ->
  (forall cs s', I xs cs s' -> P cs s') -> safe (map_m f xs) s P.
Proof.
  intros H0 Hstep HP.
  assert (Hgen : forall rest pre cs s P', xs = pre ++ rest -> I pre cs s -> (forall cs' s', I xs (cs ++ cs') s' -> P' cs' s') -> safe (map_m f rest) s P').
  { induction rest as [|x rest IH]; intros pre cs s0 P' Hxs Hi HP'; cbn [map_m].
    - apply safe_ret, HP'. rewrite app_nil_r in Hxs |- *. by subst.
    - safe_step. eapply safe_mono; [by eapply Hstep|]. intros c s1 Hi1. safe_step. cbv beta in Hi1.
      apply (IH (pre ++ [x]) (cs ++ [c])); [by rewrite <- app_assoc|done|]. intros cs' s' Hi'. safe_steps. apply HP'. by rewrite <- app_assoc in Hi'. }
  by apply (Hgen xs [] []).
Qed.

Section output.
Context {K B X Q : Type} `{!Raises} `{!CacheOps K B X} `{!CacheModel K B} `{!QueueOps Q} `{!QueueLaws Q}.
Context (cfg : SchedConfig) `{!CacheLaws cfg K B X}.
Implicit Types (s : State K Q) (i : string).

(** ** One request object *)

(** The running list and the queues are untouched. *)
Record same_places s s' : Prop := {
  sp_running : s'.(running) = s.(running);
  sp_waiting : s'.(waiting) = s.(waiting);
  sp_skipped : s'.(skipped_waiting) = s.(skipped_waiting);
  sp_streaming : s'.(num_waiting_for_streaming_input) = s.(num_waiting_for_streaming_input);
}.

#[local] Instance same_places_preorder : PreOrder same_places.
Proof. split; [by intros s|]. intros s1 s2 s3 [] []. split; congruence. Qed.

(** The caches have changed for [i] only, which still holds what it held. *)
Record holds_on i s0 s : Prop := {
  kp_touches : touches i s0.(caches) s.(caches);
  kp_covers : status_of s0 i = Some RUNNING -> forall n, covers s0.(caches) i n -> covers s.(caches) i n;
  kp_unused : status_of s0 i <> Some RUNNING -> unused s0.(caches) i -> unused s.(caches) i;
}.

Lemma holds_on_refl i s : cache_inv s.(caches) -> holds_on i s s.
Proof. intros Hc. by split; [apply steady_touches; [by apply steady_refl|by intros j ids]|..]. Qed.

Lemma holds_on_steady i s0 s s' : holds_on i s0 s -> steady s.(caches) s'.(caches) -> keeps_plans s.(caches) s'.(caches) ->
  holds_on i s0 s'.
Proof.
  intros [H1 H2 H3] Hs Hpl. split.
  - apply (touches_trans _ _ s.(caches)); [done|by apply steady_touches].
  - intros Hr n Hn. by apply (st_covers _ _ Hs), H2.
  - intros Hr Hn. by apply (st_unused _ _ Hs), H3.
Qed.

(** [s] is [s0] but for the object of [i], which is [r]. *)
Definition at_req s0 i r s : Prop := s.(requests) = <[i := r]> s0.(requests) /\ same_places s0 s /\ holds_on i s0 s.

Lemma at_refl i r s : cache_inv s.(caches) -> s.(requests) !! i = Some r -> at_req s i r s.
Proof. intros Hc Hi. split_and!; [by rewrite insert_id|done|by apply holds_on_refl]. Qed.

Lemma at_same s0 i r s s' : at_req s0 i r s -> s'.(requests) = s.(requests) -> s'.(caches) = s.(caches) -> same_places s s' -> at_req s0 i r s'.
Proof. intros (H1 & H2 & [K1 K2 K3]) E1 E2 Hp. split_and!; [by rewrite E1|by transitivity s|]. split; by rewrite E2. Qed.

Lemma at_upd s0 i r f s P : at_req s0 i r s -> (forall s', at_req s0 i (f r) s' -> P tt s') -> safe (upd_req i f) s P.
Proof.
  intros (Hm & Hp & Hk) HP. safe_steps. apply HP. split_and!; [|by destruct Hp|by destruct Hk]. simpl. rewrite Hm.
  rewrite (alter_at f i _ r) by apply lookup_insert_eq. by rewrite insert_insert_eq.
Qed.

Lemma at_get s0 i r s P : at_req s0 i r s -> P r s -> safe (get_req i) s P.
Proof. intros (Hm & _) HP. apply (safe_get i r); [rewrite Hm; apply lookup_insert_eq|done]. Qed.

Lemma at_inv s0 i r s : at_req s0 i r s -> cache_inv s.(caches).
Proof. intros (_ & _ & Hk). apply Hk. Qed.

Lemma at_steady {A} (op : M K A) s0 i r s P :
  at_req s0 i r s -> (cache_inv s.(caches) -> calls op s.(caches) (fun _ k => steady s.(caches) k /\ keeps_plans s.(caches) k)) ->
  (forall a s', at_req s0 i r s' -> P a s') -> safe (call op) s P.
Proof.
  intros Hat Hop HP. pose proof (at_inv _ _ _ _ Hat) as Hc. destruct Hat as (Hm & Hp & Hk). eapply safe_call; [by apply Hop|].
  intros a k _ [Hs Hpl]. apply HP. split_and!; [done|by destruct Hp|]. by apply (holds_on_steady _ _ s).
Qed.

Lemma at_cache s0 i r s n P :
  at_req s0 i r s -> rid r = i -> status_of s0 i = Some RUNNING ->
  (forall s', at_req s0 i r s' -> P tt s') -> safe (call (op_cache_blocks r n)) s P.
Proof.
  intros Hat Hid Hst HP. pose proof (at_inv _ _ _ _ Hat) as Hc. destruct Hat as (Hm & Hp & [K1 K2 K3]).
  eapply safe_call; [by apply (cl_cache (cfg := cfg))|]. rewrite Hid. intros [] k _ [Hs Hcov]. apply HP. split_and!; [done|by destruct Hp|].
  split; [by apply (touches_trans _ _ s.(caches))|intros _ m Hm'; by apply Hcov, K2|done].
Qed.

(** ** Appended tokens *)

(** A request before and after [_update_request_with_output]. *)
Record appended (r : Req) (toks : list Z) (is_stale : bool) (r' : Req) (kept : list Z) (stopped : bool) : Prop := {
  ap_info : r'.(info) = (set_status r'.(info).(status) r).(info);
  ap_key : r'.(key) = r.(key);
  ap_params : r'.(params) = r.(params);
  ap_spec : r'.(spec_token_ids) = r.(spec_token_ids);
  ap_stale : r'.(num_stale_output_tokens) = r.(num_stale_output_tokens);
  ap_preemptions : r'.(num_preemptions) = r.(num_preemptions);
  ap_placeholders : r'.(num_output_placeholders) = r.(num_output_placeholders)
    - if cfg.(async_scheduling) && negb is_stale then Z.of_nat (length kept) else 0;
  ap_kept : (length kept <= length toks)%nat;
  ap_all : r'.(all_token_ids) = r.(all_token_ids) ++ kept;
  ap_output : r'.(output_token_ids) = r.(output_token_ids) ++ kept;
  ap_end : if stopped then is_finished r'.(info).(status) = true
           else r'.(info).(status) = r.(info).(status)
             /\ (toks <> [] -> num_output_tokens r' < r.(params).(min_tokens) \/ num_tokens r' < cfg.(max_model_len));
}.

Lemma update_request_spec s0 i r toks is_stale s P :
  at_req s0 i r s -> r.(params).(pooling) = false -> rid r = i -> (r.(info).(status) = RUNNING -> status_of s0 i = Some RUNNING) ->
  (cfg.(async_scheduling) = true -> is_stale = false -> Z.of_nat (length toks) <= r.(num_output_placeholders)) ->
  (forall r' kept stopped s', at_req s0 i r' s' -> appended r toks is_stale r' kept stopped -> P (kept, stopped) s') ->
  safe (update_request_with_output cfg i toks is_stale) s P.
Proof.
  intros Hat Hpool Hid Hrun0 Hph HP. unfold update_request_with_output. safe_step. apply (at_get s0 i r); [done|]. safe_step.
  destruct (append_and_check_spec cfg r toks Hpool) as (r1 & kept & stopped & Hrun & [S1 S2 S3 S4 S5 S6 S7 S8 S9] & Hpre%prefix_length & Ha & Ho & Hend).
  eapply safe_lift; [exact Hrun|]. cbv beta iota. safe_step. apply (at_upd s0 i r); [done|]. intros s1 Hat1.
  assert (Hend' : if stopped then is_finished r1.(info).(status) = true else r1.(info).(status) = r.(info).(status)
             /\ (toks <> [] -> num_output_tokens r1 < r.(params).(min_tokens) \/ num_tokens r1 < cfg.(max_model_len))).
  { destruct stopped; [done|]. destruct Hend as (_ & H1 & H2). done. }
  destruct (async_scheduling cfg) eqn:Has; cbn [negb].
  2:{ safe_steps. apply (HP r1 kept stopped s1 Hat1). split; try done. rewrite Has. simpl. lia. }
  set (r2 := if is_stale then r1 else set_placeholders (num_output_placeholders r1 - Z.of_nat (length kept)) r1).
  assert (Hap : appended r toks is_stale r2 kept stopped) by (subst r2; destruct is_stale; split; try done; rewrite Has; simpl; lia).
  assert (Hrest : forall s2, at_req s0 i r2 s2 ->
    safe ((if bool_decide (r.(info).(status) = RUNNING)
           then r' <- get_req i ;; call (op_cache_blocks r' (r'.(info).(num_computed_tokens) - r'.(num_output_placeholders))) else ret tt) ;;
          ret (kept, stopped)) s2 P).
  { intros s2 Hat2. safe_step. case_bool_decide as Hrun2; [|by apply safe_ret, safe_ret, (HP r2)]. safe_step. apply (at_get s0 i r2); [done|].
    apply (at_cache s0 i r2); [done| |by apply Hrun0|intros s3 Hat3; safe_steps; by apply (HP r2)].
    destruct Hap as [Hinfo _ _ _ _ _ _ _ _ _ _]. unfold rid in *. by rewrite Hinfo. }
  safe_step. destruct is_stale; [by apply safe_ret, Hrest|]. safe_step. apply (at_upd s0 i r1); [done|]. intros s2 Hat2.
  apply safe_check; [|by apply Hrest]. specialize (Hph eq_refl eq_refl). lia.
Qed.

(** ** A delivered request *)

(** A request before and after its share of the output was delivered, when it goes on;
    [c] are the placeholders of the step and [d] its drafts. *)
Record delivered (c d : Z) (is_stale : bool) (r r' : Req) : Prop := {
  dl_rid : rid r' = rid r;
  dl_key : r'.(key) = r.(key);
  dl_params : r'.(params) = r.(params);
  dl_prompt : r'.(info).(num_prompt_tokens) = r.(info).(num_prompt_tokens);
  dl_preemptions : r'.(num_preemptions) = r.(num_preemptions);
  dl_status : r'.(info).(status) = r.(info).(status);
  dl_flight : r'.(info).(num_in_flight_tokens) = r.(info).(num_in_flight_tokens)
    /\ r'.(num_stale_output_tokens) = r.(num_stale_output_tokens);
  dl_tokens : num_tokens r <= num_tokens r';
  dl_len : len_ok cfg r -> len_ok cfg r';
  dl_stale : is_stale = true -> r'.(info).(num_computed_tokens) = r.(info).(num_computed_tokens)
    /\ r'.(num_output_placeholders) = r.(num_output_placeholders);
  dl_placeholders : cfg.(async_scheduling) = true -> is_stale = false -> r.(num_output_placeholders) - c <= r'.(num_output_placeholders);
  dl_computed : r.(info).(num_computed_tokens) - d <= r'.(info).(num_computed_tokens) <= r.(info).(num_computed_tokens);
  dl_spec : r'.(spec_token_ids) = r.(spec_token_ids);
  dl_sync : cfg.(async_scheduling) = false -> r.(num_output_placeholders) = 0 -> r'.(num_output_placeholders) = 0;
}.

(** The tokens of a request that goes on fit the model. *)
Lemma appended_len r toks is_stale r' kept : appended r toks is_stale r' kept false -> len_ok cfg r -> len_ok cfg r'.
Proof.
  intros [Hi _ Hp _ _ _ _ Hk Ha Ho [_ Hend]] (H1 & H2 & H3).
  assert (Hn : num_tokens r' = num_tokens r + Z.of_nat (length kept)) by (unfold num_tokens; rewrite Ha, length_app; lia).
  assert (Hno : num_output_tokens r' = num_output_tokens r + Z.of_nat (length kept)) by (unfold num_output_tokens; rewrite Ho, length_app; lia).
  assert (Hpr : r'.(info).(num_prompt_tokens) = r.(info).(num_prompt_tokens)) by (by rewrite Hi).
  assert (Hid : rid r' = rid r) by (unfold rid; by rewrite Hi).
  unfold len_ok. rewrite Hid, Hpr, Hp, Hno, Hn. split_and!; [|lia|apply H3..].
  destruct toks as [|t toks]; [simpl in *; lia|]. specialize (Hend ltac:(done)). rewrite Hno, Hn in Hend. lia.
Qed.

Lemma roll_back_spec d g r :
  let r' := roll_back cfg d g r in
  r'.(key) = r.(key) /\ r'.(params) = r.(params) /\ r'.(num_stale_output_tokens) = r.(num_stale_output_tokens)
  /\ r'.(num_preemptions) = r.(num_preemptions) /\ r'.(all_token_ids) = r.(all_token_ids) /\ r'.(output_token_ids) = r.(output_token_ids)
  /\ r'.(info) = (set_computed r'.(info).(num_computed_tokens) r).(info)
  /\ r'.(num_output_placeholders) = r.(num_output_placeholders)
       - (if r.(num_output_placeholders) >? 0 then d - Z.max (g - cfg.(num_sampled_tokens_per_step)) 0 else 0)
  /\ r'.(info).(num_computed_tokens) = r.(info).(num_computed_tokens)
       - (if r.(info).(num_computed_tokens) >? 0 then d - Z.max (g - cfg.(num_sampled_tokens_per_step)) 0 else 0)
  /\ r'.(spec_token_ids) = r.(spec_token_ids).
Proof.
  unfold roll_back. cbv zeta. destruct r as [[? ? ? nc ? ?] ? ? ? ? ? ph ? ? ? ? ? ? ?]. simpl.
  destruct (nc >? 0); simpl; destruct (ph >? 0); simpl; split_and!; try done; lia.
Qed.

(** [i] is gone and holds nothing. *)
Definition left_behind i s0 s : Prop := s.(requests) = base.delete i s0.(requests) /\ same_places s0 s
  /\ touches i s0.(caches) s.(caches) /\ unused s.(caches) i.

(** The state of a request object after [_free_request]. *)
Lemma free_stopped_spec s0 i r s P :
  at_req s0 i r s -> rid r = i -> is_finished r.(info).(status) = true -> (forall s', left_behind i s0 s' -> P tt s') -> safe (free_request i) s P.
Proof.
  intros Hat Hid Hfin HP. unfold free_request. safe_step. apply (at_get s0 i r); [done|]. safe_step. apply safe_check; [done|]. safe_steps.
  apply (at_steady _ s0 i r); [by apply (at_same _ _ _ s)|by apply (cl_free_encoder (cfg := cfg))|]. intros [] s1 Hat1. safe_steps.
  set (s2 := set_ids _ _ _ s1). assert (Hat2 : at_req s0 i r s2) by (by apply (at_same _ _ _ s1)). pose proof (at_inv _ _ _ _ Hat2) as Hc.
  destruct Hat2 as (Hm & Hp & [K1 _ _]). apply (free_call_spec cfg i); [done|done|]. intros k Hk Hu. safe_steps. apply HP.
  split_and!; [simpl; simpl in Hm; rewrite Hm; apply delete_insert_eq|by destruct Hp|by apply (touches_trans _ _ s2.(caches))|done].
Qed.

(** What the runner's output for a request must look like: [c] tokens at most, none while
    the prompt is being computed. *)
Definition fits (c : Z) (spec toks : list Z) : Prop :=
  (c = cfg.(num_sampled_tokens_per_step) + Z.of_nat (length spec) /\ Z.of_nat (length toks) <= c) \/ (c = 0 /\ spec = [] /\ toks = []).

(** The request after rejected drafts were taken back. *)
Definition roll_back_if (spec toks : list Z) (is_stale : bool) (r : Req) : Req :=
  if negb (bool_decide (spec = [])) && (negb (bool_decide (toks = [])) || (cfg.(num_sampled_tokens_per_step) =? 0)) && negb is_stale
  then roll_back cfg (Z.of_nat (length spec)) (Z.of_nat (length toks)) r else r.

Lemma roll_back_if_spec c spec toks is_stale r :
  0 <= cfg.(num_sampled_tokens_per_step) -> fits c spec toks ->
  let r' := roll_back_if spec toks is_stale r in
  r'.(key) = r.(key) /\ r'.(params) = r.(params) /\ r'.(num_stale_output_tokens) = r.(num_stale_output_tokens)
  /\ r'.(num_preemptions) = r.(num_preemptions) /\ r'.(all_token_ids) = r.(all_token_ids) /\ r'.(output_token_ids) = r.(output_token_ids)
  /\ r'.(info) = (set_computed r'.(info).(num_computed_tokens) r).(info) /\ (is_stale = true -> r' = r)
  /\ (c <= r.(num_output_placeholders) -> Z.of_nat (length toks) <= r'.(num_output_placeholders)
       /\ r.(num_output_placeholders) - c + Z.of_nat (length toks) <= r'.(num_output_placeholders))
  /\ r.(info).(num_computed_tokens) - Z.of_nat (length spec) <= r'.(info).(num_computed_tokens) <= r.(info).(num_computed_tokens)
  /\ r'.(spec_token_ids) = r.(spec_token_ids) /\ (r.(num_output_placeholders) = 0 -> r'.(num_output_placeholders) = 0).
Proof.
  intros Hns Hfit. unfold roll_back_if. cbv zeta. destruct (_ && _ && _) eqn:Hc.
  - apply andb_true_iff in Hc as [[Hc1 Hc2]%andb_true_iff Hc3]. apply negb_true_iff, bool_decide_eq_false in Hc1.
    destruct (roll_back_spec (Z.of_nat (length spec)) (Z.of_nat (length toks)) r) as (H1 & H2 & H3 & H4 & H5 & H6 & H7 & H8 & H9 & H10).
    destruct Hfit as [[-> Hg]|(_ & -> & _)]; [|done].
    assert (0 < length spec)%nat by (destruct spec; [done|simpl; lia]). split_and!; try done; [by destruct is_stale| |rewrite H9; destruct (num_computed_tokens (info r) >? 0); lia..|intros E; rewrite H8, E; done].
    intros Hph. rewrite H8. destruct (Z.gtb_spec (num_output_placeholders r) 0); lia.
  - split_and!; try done; [by destruct r as [[] ? ? ? ? ? ? ? ? ? ? ? ? ?]| |lia..]. intros Hph.
    destruct Hfit as [[-> Hg]|(-> & _ & ->)]; [|simpl; lia]. simpl. lia.
Qed.

Lemma deliver_body_spec s0 i r toks is_stale (pooled_ : bool) s P :
  at_req s0 i r s -> rid r = i -> (r.(info).(status) = RUNNING -> status_of s0 i = Some RUNNING) ->
  (toks <> [] -> r.(params).(pooling) = false) ->
  (cfg.(async_scheduling) = true -> is_stale = false -> Z.of_nat (length toks) <= r.(num_output_placeholders)) ->
  (forall r' kept stopped s', at_req s0 i r' s' -> appended r toks is_stale r' kept stopped -> P (kept, stopped) s') ->
  safe (if negb (bool_decide (toks = [])) then update_request_with_output cfg i toks is_stale
        else if (r.(params).(pooling) && pooled_)
                || (cfg.(is_encoder_only) && (r.(info).(num_prompt_tokens) <=? r.(info).(num_computed_tokens)))
        then upd_req i (set_status FINISHED_STOPPED) ;; ret ([], true)
        else ret ([], false)) s P.
Proof.
  intros Hat Hid Hrun Hpool Hph HP. case_bool_decide as Ht; cbn [negb].
  - subst toks. destruct (_ || _).
    + safe_step. apply (at_upd s0 i r); [done|]. intros s' Hat'. safe_steps. apply (HP _ _ _ _ Hat').
      split; try done; simpl; rewrite ?app_nil_r; try done. destruct (_ && _); lia.
    + safe_steps. apply (HP _ _ _ _ Hat). split; try done; simpl; rewrite ?app_nil_r; try done; [by destruct r as [[] ? ? ? ? ? ? ? ? ? ? ? ? ?]|].
      destruct (_ && _); lia.
  - apply (update_request_spec s0 i r); auto.
Qed.

Lemma deliver_tail_spec s0 i r (toks : list Z) (stopped rejects pooled_ was_running : bool) s P :
  at_req s0 i r s -> rid r = i -> (stopped = true -> is_finished r.(info).(status) = true) ->
  (forall s' b, at_req s0 i (if (b : bool) then take_prefill_stats r else r) s' -> stopped = false -> P (toks, false, was_running) s') ->
  (forall s', left_behind i s0 s' -> P (toks, true, was_running) s') ->
  safe (stopped <- (if negb (bool_decide (toks = [])) && rejects then upd_req i (set_status FINISHED_ERROR) ;; ret true else ret stopped) ;;
        (if negb (bool_decide (toks = [])) || pooled_ || stopped then upd_req i take_prefill_stats else ret tt) ;;
        (if (stopped : bool) then free_request i else ret tt) ;;
        ret (toks, stopped, was_running)) s P.
Proof.
  intros Hat Hid Hfin Hlive Hstop. safe_step.
  assert (Hfree : forall r2 s2 (b : bool), at_req s0 i r2 s2 -> rid r2 = i -> is_finished r2.(info).(status) = true ->
    safe ((if b then upd_req i take_prefill_stats else ret tt) ;; free_request i ;; ret (toks, true, was_running)) s2 P).
  { intros r2 s2 b Hat2 Hid2 Hf2. safe_step. destruct b.
    - apply (at_upd s0 i r2); [done|]. intros s3 Hat3. safe_step. apply (free_stopped_spec s0 i (take_prefill_stats r2)); [done|done|done|].
      intros s4 H1. safe_steps. by apply Hstop.
    - safe_steps. apply (free_stopped_spec s0 i r2); [done|done|done|]. intros s4 H1. safe_steps. by apply Hstop. }
  destruct (_ && rejects).
  { safe_step. apply (at_upd s0 i r); [done|]. intros s1 Hat1. safe_step. by apply (Hfree (set_status FINISHED_ERROR r)). }
  safe_step. destruct stopped; [apply (Hfree r); auto|]. rewrite orb_false_r. safe_step. destruct (_ || pooled_).
  - apply (at_upd s0 i r); [done|]. intros s1 Hat1. safe_steps. by apply (Hlive s1 true).
  - safe_steps. by apply (Hlive s false).
Qed.

Lemma deliver_spec s0 i r c spec ro is_stale s P :
  0 <= cfg.(num_sampled_tokens_per_step) -> at_req s0 i r s -> rid r = i -> (r.(info).(status) = RUNNING -> status_of s0 i = Some RUNNING) ->
  fits c spec ro.(sampled) -> (ro.(sampled) <> [] -> r.(params).(pooling) = false) ->
  (cfg.(async_scheduling) = true -> is_stale = false -> c <= r.(num_output_placeholders)) ->
  (forall r' kept s', at_req s0 i r' s' -> delivered c (Z.of_nat (length spec)) is_stale r r' ->
     P (kept, false, bool_decide (r.(info).(status) = RUNNING)) s') ->
  (forall kept s', left_behind i s0 s' -> P (kept, true, bool_decide (r.(info).(status) = RUNNING)) s') ->
  safe (deliver cfg i spec ro is_stale) s P.
Proof.
  intros Hns Hat Hid Hrun Hfits Hpool Hph Hlive Hstop. unfold deliver. cbv zeta. set (toks := sampled ro) in *.
  set (r1 := roll_back_if spec toks is_stale r).
  destruct (roll_back_if_spec c spec toks is_stale r Hns Hfits) as (A1 & A2 & A3 & A4 & A5 & A6 & A7 & A8 & A9 & A10 & A11 & A12).
  fold r1 in A1, A2, A3, A4, A5, A6, A7, A8, A9, A10, A11, A12.
  assert (Hst : r1.(info).(status) = r.(info).(status)) by (by rewrite A7). assert (Hid1 : rid r1 = i) by (unfold rid in *; by rewrite A7).
  assert (Hr1 : forall P', (forall s', at_req s0 i r1 s' -> P' tt s') ->
    safe (if negb (bool_decide (spec = [])) && (negb (bool_decide (toks = [])) || (cfg.(num_sampled_tokens_per_step) =? 0)) && negb is_stale
          then upd_req i (roll_back cfg (Z.of_nat (length spec)) (Z.of_nat (length toks))) else ret tt) s P').
  { intros P' HP'. subst r1. unfold roll_back_if in HP'. destruct (_ && _ && _); [|by apply safe_ret, HP']. by apply (at_upd s0 i r). }
  safe_step. apply Hr1. intros s1 Hat1. safe_step. apply (at_get s0 i r1); [done|]. safe_step.
  assert (Henc : forall P', (forall s', at_req s0 i r1 s' -> P' tt s') ->
    safe (if has_encoder_inputs r1 then call (op_free_encoder_inputs r1) else ret tt) s1 P').
  { intros P' HP'. destruct (has_encoder_inputs r1); [|by apply safe_ret, HP'].
    apply (at_steady _ s0 i r1); [done|by apply (cl_free_inputs (cfg := cfg))|]. intros []. apply HP'. }
  apply Henc. intros s2 Hat2. safe_step. apply (deliver_body_spec s0 i r1 toks is_stale ro.(pooled)); [done|done|by rewrite Hst|by rewrite A2| |].
  { intros Has Hstale. by apply A9, Hph. }
  intros r2 kept stopped s3 Hat3 Hap. cbv beta iota. rewrite Hst. apply (deliver_tail_spec s0 i r2); [done| | | |by apply Hstop].
  { destruct Hap as [Hinfo _ _ _ _ _ _ _ _ _ _]. unfold rid in *. by rewrite Hinfo. }
  { intros ->. apply Hap. }
  intros s4 b Hat4 ->. pose proof (appended_len _ _ _ _ _ Hap) as Hlen. destruct Hap as [B1 B2 B3 Bs B4 B5 B6 B7 B8 B9 [B10 B11]].
  apply (Hlive _ _ _ Hat4).
  assert (Hd : delivered c (Z.of_nat (length spec)) is_stale r r2); [|by destruct b; [destruct Hd; split|]].
  assert (Hinfo : r2.(info) = (set_computed r1.(info).(num_computed_tokens) r).(info)) by (rewrite B1, B10, Hst; simpl; by rewrite A7).
  split; unfold rid; rewrite ?Hinfo; simpl; try congruence; try done.
  - split; congruence.
  - unfold num_tokens. rewrite B8, A5, length_app. lia.
  - intros Hl. apply Hlen. unfold len_ok, num_tokens, num_output_tokens in *. rewrite Hid1, <- Hid, A2, A5, A6, A7. done.
  - intros Hs. rewrite (A8 Hs) in *. split; [done|]. rewrite B6, Hs, andb_false_r. lia.
  - intros Has Hs. destruct (A9 (Hph Has Hs)) as [_ Hroom]. rewrite B6, Has, Hs. simpl. lia.
  - intros Has Hz. rewrite B6, Has, (A12 Hz). simpl. lia.
Qed.

(** ** One entry of the output *)

(** The request after its share of the tokens in flight was counted off. *)
Definition drained (n : Z) (r : Req) : Req :=
  let r' := set_in_flight (r.(info).(num_in_flight_tokens) - n) r in
  if r.(num_stale_output_tokens) >? 0 then set_stale (r.(num_stale_output_tokens) - n) r.(drop_stale_output) r' else r'.

Definition settled (c d n : Z) (r r' : Req) : Prop := delivered c d (r.(num_stale_output_tokens) >? 0) (drained n r) r'.

Lemma drained_fields n r :
  rid (drained n r) = rid r /\ (drained n r).(key) = r.(key) /\ (drained n r).(params) = r.(params)
  /\ (drained n r).(info).(status) = r.(info).(status) /\ (drained n r).(num_output_placeholders) = r.(num_output_placeholders)
  /\ (drained n r).(info).(num_computed_tokens) = r.(info).(num_computed_tokens)
  /\ (drained n r).(info).(num_in_flight_tokens) = r.(info).(num_in_flight_tokens) - n
  /\ (drained n r).(num_preemptions) = r.(num_preemptions) /\ num_tokens (drained n r) = num_tokens r
  /\ (drained n r).(info).(num_prompt_tokens) = r.(info).(num_prompt_tokens)
  /\ (drained n r).(num_stale_output_tokens) = (if r.(num_stale_output_tokens) >? 0 then r.(num_stale_output_tokens) - n else r.(num_stale_output_tokens))
  /\ (len_ok cfg r -> len_ok cfg (drained n r)) /\ (drained n r).(spec_token_ids) = r.(spec_token_ids).
Proof. unfold drained. cbv zeta. by destruct (_ >? 0). Qed.

Lemma update_one_spec (out : Output B X) results i n c r s P :
  let spec := default [] (dict_get out.(out_spec_decode_tokens) i) in
  0 <= cfg.(num_sampled_tokens_per_step) -> 0 < n -> cache_inv s.(caches) -> s.(requests) !! i = Some r -> rid r = i ->
  is_finished r.(info).(status) = false ->
  (0 < r.(num_stale_output_tokens) -> n <= r.(num_stale_output_tokens)) ->
  (exists ro, dict_get results i = Some ro /\ fits c spec ro.(sampled) /\ (ro.(sampled) <> [] -> r.(params).(pooling) = false)) ->
  (cfg.(async_scheduling) = true -> r.(num_stale_output_tokens) <= 0 -> c <= r.(num_output_placeholders)) ->
  (forall x r' s', at_req s i r' s' -> settled c (Z.of_nat (length spec)) n r r' ->
     (x = None \/ exists kept, x = Some (r, kept, false, bool_decide (r.(info).(status) = RUNNING))) -> P x s') ->
  (forall kept s', left_behind i s s' -> P (Some (r, kept, true, bool_decide (r.(info).(status) = RUNNING))) s') ->
  safe (update_one cfg out results i n) s P.
Proof.
  intros spec Hns Hn Hci Hr Hid Hfin Hstale (ro & Hro & Hfit & Hpool) Hph Hlive Hstop. unfold update_one. safe_step. apply safe_check; [lia|]. safe_steps. rewrite Hr.
  cbv zeta. destruct (drained_fields n r) as (D1 & D2 & D3 & D4 & D5 & _). safe_step. apply (at_upd s i r); [by apply at_refl|]. intros s1 Hat1.
  set (stale := num_stale_output_tokens r >? 0). safe_step.
  assert (Hdr : forall P', (forall s', at_req s i (drained n r) s' -> P' tt s') ->
    safe (if stale then upd_req i (fun r => set_stale (r.(num_stale_output_tokens) - n) r.(drop_stale_output) r) ;;
                        check (0 <=? r.(num_stale_output_tokens) - n) AssertionError else ret tt) s1 P').
  { intros P' HP'. unfold drained in HP'. fold stale in HP'. destruct stale eqn:Es; [|by apply safe_ret, HP'].
    safe_step. eapply at_upd; [exact Hat1|]. intros s2 Hat2. apply safe_check; [subst stale; apply Z.gtb_lt in Es; specialize (Hstale Es); lia|]. by apply HP'. }
  apply Hdr. intros s2 Hat2. rewrite Hfin. cbn [orb].
  destruct (stale && drop_stale_output r) eqn:Hdrop.
  { safe_steps. apply (Hlive None (drained n r)); [done| |by left]. apply andb_true_iff in Hdrop as [Hs _]. unfold settled. fold stale. rewrite Hs.
    split; try done. lia. }
  rewrite Hro. safe_step. apply (deliver_spec s i (drained n r) c); [done|done|by rewrite D1| |done|by rewrite D3| | |].
  { rewrite D4. intros Hs. unfold status_of. rewrite Hr. simpl. by rewrite Hs. }
  { intros Has Hs. rewrite D5. apply Hph; [done|]. subst stale. lia. }
  - intros r' kept s' Hat' Hd. safe_steps. rewrite D4. apply (Hlive _ r'); [done|done|right; by eexists].
  - intros kept s' H1. safe_steps. rewrite D4. by apply Hstop.
Qed.

(** ** The loop over the output *)

(** A step in flight: its output, and the requests whose prompt it did not finish. *)
Record Flight := mkFlight {
  fl_out : Output B X;
  fl_chunks : gset string;
}.

Definition fl_sched (f : Flight) : list (string * Z) := f.(fl_out).(out_num_scheduled_tokens).

(** The number of tokens a request may get from the step. *)
Definition cap (f : Flight) i : Z :=
  if bool_decide (i ∈ f.(fl_chunks)) then 0
  else cfg.(num_sampled_tokens_per_step) + Z.of_nat (length (default [] (dict_get f.(fl_out).(out_spec_decode_tokens) i))).

(** The number of drafts of a request in the step. *)
Definition drafts (f : Flight) i : Z := Z.of_nat (length (default [] (dict_get f.(fl_out).(out_spec_decode_tokens) i))).

(** [s] with the finished requests put back. *)
Definition revived (gone : gmap string Req) s : State K Q := set_requests (fun m => m ∪ gone) s.

(** The loop after the entries [pre], with results [xs]; [gone] are the requests that
    stopped, as they were. *)
Record Loop (f : Flight) s0 (pre : list (string * Z)) (xs : list (option (Req * list Z * bool * bool))) (gone : gmap string Req) s : Prop := {
  lp_inv : Inv cfg (revived gone s) [];
  lp_held : Held s;
  lp_open : forall n, steps_open s0.(caches) n -> steps_open s.(caches) n;
  lp_disjoint : s.(requests) ##ₘ gone;
  lp_places : same_places s0 s;
  lp_rest : forall i, i ∉ pre.*1 -> s.(requests) !! i = s0.(requests) !! i /\ gone !! i = None;
  lp_done : forall i n r, (i, n) ∈ pre -> s0.(requests) !! i = Some r ->
    (exists r', s.(requests) !! i = Some r' /\ settled (cap f i) (drafts f i) n r r') \/ s.(requests) !! i = None;
  lp_none : forall i, s0.(requests) !! i = None -> s.(requests) !! i = None;
  lp_gone : forall i g, gone !! i = Some g -> exists r kept, Some (r, kept, true, bool_decide (g.(info).(status) = RUNNING)) ∈ xs
    /\ rid r = i /\ r.(key) = g.(key);
  lp_stopped : forall r kept wr, Some (r, kept, true, wr) ∈ xs -> is_Some (gone !! rid r) /\ r.(key).(qrequest_id) = rid r;
}.

Lemma inv_put i r r' s s' ex :
  Inv cfg s ex -> s.(requests) !! i = Some r -> s'.(requests) = <[i := r']> s.(requests) -> same_places s s' ->
  rid r' = rid r -> r'.(key) = r.(key) -> num_tokens r <= num_tokens r' -> r.(num_preemptions) <= r'.(num_preemptions) ->
  (r.(info).(status) = RUNNING -> r'.(info).(status) = RUNNING) -> (waiting_ok r -> waiting_ok r') -> (len_ok cfg r -> len_ok cfg r') ->
  (flight_fine cfg r -> flight_fine cfg r') -> Inv cfg s' ex.
Proof.
  intros [H1 H2 H3 H4 H5 H6] Hr Hm [P1 P2 P3 P4] Hid Hk Ht Hp Hrun Hw Hl Hf. destruct (bk_store _ _ _ H2 i r Hr) as (_ & _ & B1 & B2).
  assert (Hput : forall Q : Req -> Prop, (Q r -> Q r') -> (forall j x, s.(requests) !! j = Some x -> Q x) -> forall j x, s'.(requests) !! j = Some x -> Q x).
  { intros Q0 HQ Hall j x. rewrite Hm. destruct (decide (i = j)) as [<-|Hne]; [|rewrite lookup_insert_ne by done; apply Hall].
    rewrite lookup_insert_eq. intros [= <-]. by apply HQ, (Hall i). }
  split; unfold queued in *; rewrite ?P1, ?P2, ?P3, ?P4; try done; [|by apply Hput..].
  rewrite Hm. apply (book_put i r); try done; lia.
Qed.

(** What must hold of a request with output in the step. *)
Definition head_ok (c d n : Z) (r : Req) : Prop :=
  (0 < r.(num_stale_output_tokens) -> n <= r.(num_stale_output_tokens))
  /\ (cfg.(async_scheduling) = true -> r.(num_stale_output_tokens) <= 0 -> c <= r.(num_output_placeholders))
  /\ (r.(info).(status) <> RUNNING -> 0 < r.(num_stale_output_tokens) /\ 0 < r.(num_preemptions))
  /\ 0 < n <= r.(info).(num_in_flight_tokens)
  /\ (r.(info).(status) = RUNNING -> r.(num_stale_output_tokens) <= 0 -> d <= Z.max 0 r.(info).(num_computed_tokens)).

Lemma settled_waiting c d n r r' : head_ok c d n r -> settled c d n r r' -> waiting_ok r -> waiting_ok r'.
Proof.
  intros (_ & _ & Hw & _) Hs (W1 & W2 & W3 & W4 & W5 & W6). destruct (Hw W1) as [Hst Hp]. unfold settled in Hs. rewrite (proj2 (Z.gtb_lt _ _) Hst) in Hs.
  destruct Hs as [D1 D2 D3 D4 D5 D6 [D7 D7'] D8 D9 D10 D11 D12 D13 D14].
  destruct (drained_fields n r) as (_ & _ & _ & F4 & F5 & F6 & F7 & F8 & F9 & F10 & F11 & _). rewrite (proj2 (Z.gtb_lt _ _) Hst) in F11.
  destruct (D10 eq_refl) as [E1 E2]. unfold waiting_ok. rewrite D6, E1, E2, D5, D7, D7', F4, F5, F6, F7, F8, F11. split_and!; try done; lia.
Qed.

Lemma settled_fine c d n r r' : head_ok c d n r -> settled c d n r r' -> flight_fine cfg r -> flight_fine cfg r'.
Proof.
  intros (_ & _ & _ & Hn & _) [D1 D2 D3 D4 D5 D6 [D7 D7'] D8 D9 D10 D11 D12 D13 D14] (H1 & H3 & H2).
  destruct (drained_fields n r) as (_ & _ & _ & F4 & F5 & F6 & F7 & F8 & F9 & F10 & F11 & _ & F13).
  unfold flight_fine. rewrite D6, D7, D7', D13, F4, F7, F11, F13. split_and!; [lia|intros Has; apply D14; [done|]; rewrite F5; by apply H3|]. intros Has Hsp. destruct (H2 Has Hsp) as [Hs Hle]. split; [done|].
  destruct (Z.gtb_spec (num_stale_output_tokens r) 0); lia.
Qed.

Lemma inv_settled i c d n r r' s s' ex :
  Inv cfg s ex -> s.(requests) !! i = Some r -> s'.(requests) = <[i := r']> s.(requests) -> same_places s s' ->
  head_ok c d n r -> settled c d n r r' -> Inv cfg s' ex.
Proof.
  intros Hi Hr Hm Hp Hh Hs. pose proof (settled_waiting _ _ _ _ _ Hh Hs) as Hw. pose proof (settled_fine _ _ _ _ _ Hh Hs) as Hf.
  destruct Hs as [D1 D2 D3 D4 D5 D6 D7 D8 D9 D10 D11 D12 D13 D14].
  destruct (drained_fields n r) as (F1 & F2 & F3 & F4 & F5 & F6 & F7 & F8 & F9 & F10 & F11 & F12 & _).
  apply (inv_put i r r' s); try done; [congruence|congruence|lia|lia|congruence|]. auto.
Qed.

(** What the request holds covers what it has after the delivery. *)
Lemma held_settled i c d n r r' s s' :
  Held s -> s.(requests) !! i = Some r -> at_req s i r' s' -> head_ok c d n r -> settled c d n r r' -> Held s'.
Proof.
  intros [H1 H2] Hr (Hm & _ & [K1 K2 K3]) (_ & _ & _ & _ & Hd) [D1 D2 D3 D4 D5 D6 D7 D8 D9 D10 D11 D12 D13 D14].
  destruct (drained_fields n r) as (_ & _ & _ & F4 & _ & F6 & _). split; [apply K1|]. intros j. rewrite Hm. destruct (decide (i = j)) as [<-|Hne].
  2:{ rewrite lookup_insert_ne by done. by apply (held_touches i _ s.(caches)). }
  rewrite lookup_insert_eq. specialize (H2 i). rewrite Hr in H2. unfold status_of in K2, K3. rewrite Hr in K2, K3. simpl in *. rewrite D6, F4.
  case_bool_decide as Hs; [|by apply K3; [congruence|]]. destruct H2 as [Hpos Hcov]. rewrite F6 in D10, D12.
  assert (Hb : 0 <= r'.(info).(num_computed_tokens) <= r.(info).(num_computed_tokens)).
  { destruct (Z.gtb_spec (num_stale_output_tokens r) 0) as [Hst|Hst]; [destruct (D10 eq_refl) as [-> _]; lia|]. specialize (Hd Hs Hst). lia. }
  split; [lia|]. apply (cl_covers _ _ r.(info).(num_computed_tokens)); [|lia]. apply K2; [congruence|done].
Qed.

Lemma held_left i s s' : Held s -> left_behind i s s' -> Held s'.
Proof.
  intros [_ H2] (Hm & _ & Ht & Hu). split; [apply Ht|]. intros j. rewrite Hm. destruct (decide (i = j)) as [<-|Hne]; [by rewrite lookup_delete_eq|].
  rewrite lookup_delete_ne by done. by apply (held_touches i _ s.(caches)).
Qed.

(** What the runner returns for a step. *)
Definition runner_ok (f : Flight) (results : list (string * RunnerResult)) (m : gmap string Req) : Prop :=
  forall i n r, (i, n) ∈ fl_sched f -> m !! i = Some r -> exists ro, dict_get results i = Some ro
    /\ fits (cap f i) (default [] (dict_get f.(fl_out).(out_spec_decode_tokens) i)) ro.(sampled)
    /\ (ro.(sampled) <> [] -> r.(params).(pooling) = false).

Lemma inv_alive s ex i r : Inv cfg s ex -> s.(requests) !! i = Some r -> is_finished r.(info).(status) = false /\ rid r = i /\ r.(key).(qrequest_id) = i.
Proof.
  intros [_ [H1 H2 H3 H4 H5] _ _ _ _] Hr. destruct (H2 i r Hr) as (A1 & A2 & _). split_and!; try done.
  apply H5 in Hr as Hin. apply elem_of_app in Hin as [Hin|Hin].
  - destruct (H3 i Hin) as (x & Hx & Hs). assert (x = r) as -> by congruence. by rewrite Hs.
  - apply list_elem_of_fmap in Hin as (q & -> & Hq). destruct (H4 q Hq) as (x & Hx & _ & (_ & Hf & _)). by assert (x = r) as -> by congruence.
Qed.

Section loop.
Context (f : Flight) (results : list (string * RunnerResult)) (s0 : State K Q).
Hypothesis sampled_ok : 0 <= cfg.(num_sampled_tokens_per_step).
Hypothesis nodup : NoDup (fl_sched f).*1.
Hypothesis positive : Forall (fun x => 0 < x.2) (fl_sched f).
Hypothesis start : Inv cfg s0 [].
Hypothesis heads : forall i n r, (i, n) ∈ fl_sched f -> s0.(requests) !! i = Some r -> head_ok (cap f i) (drafts f i) n r.
Hypothesis runner : runner_ok f results s0.(requests).

Lemma loop_alive pre xs gone s i n r r' x s' :
  i ∉ pre.*1 -> (i, n) ∈ fl_sched f -> s0.(requests) !! i = Some r ->
  Loop f s0 pre xs gone s -> at_req s i r' s' -> settled (cap f i) (drafts f i) n r r' -> (x = None \/ exists kept wr, x = Some (r, kept, false, wr)) ->
  Loop f s0 (pre ++ [(i, n)]) (xs ++ [x]) gone s'.
Proof.
  intros Hni Hin Hr0 [L1 Lh Lo L2 L3 L4 L5 L6 L7 L8] Hat Hs Hx. pose proof Hat as (Hm & Hp & Hkp). destruct (L4 i Hni) as [Hsi Hg]. assert (Hr : s.(requests) !! i = Some r) by congruence.
  assert (Hx' : forall a b c, Some (a, b, true, c) ∈ xs ++ [x] -> Some (a, b, true, c) ∈ xs).
  { intros a b c [?|Hx'%list_elem_of_singleton]%elem_of_app; [done|]. destruct Hx as [->|(? & ? & ->)]; done. }
  split.
  - apply (inv_settled i (cap f i) (drafts f i) n r r' (revived gone s)); [done|by apply lookup_union_Some_l| |by destruct Hp|by apply heads|done].
    simpl. rewrite Hm. symmetry. apply insert_union_l.
  - apply (held_settled i (cap f i) (drafts f i) n r r' s); try done. by apply heads.
  - intros m Hm'. by apply (tc_steps _ _ _ (kp_touches _ _ _ Hkp)), Lo.
  - rewrite Hm. apply map_disjoint_insert_l. by split.
  - by transitivity s.
  - intros j Hj. rewrite fmap_app in Hj. apply not_elem_of_app in Hj as [Hj1 Hj2]. rewrite Hm, lookup_insert_ne; [by apply L4|].
    intros ->. apply Hj2. by left.
  - intros j m y Hj Hy. apply elem_of_app in Hj as [Hj|Hj%list_elem_of_singleton].
    + assert (i <> j) by (intros ->; apply Hni; by apply (list_elem_of_fmap_2' fst _ _ _ Hj)). rewrite Hm, lookup_insert_ne by done. by apply L5.
    + injection Hj as -> ->. left. exists r'. rewrite Hm, lookup_insert_eq. by assert (y = r) as -> by congruence.
  - intros j Hj. rewrite Hm. destruct (decide (i = j)) as [->|]; [congruence|]. rewrite lookup_insert_ne by done. by apply L6.
  - intros j g Hj. destruct (L7 j g Hj) as (y & kept & Hy & Hid). exists y, kept. split; [apply elem_of_app; by left|done].
  - intros y kept wr Hy. by apply (L8 y kept wr), Hx'.
Qed.

Lemma loop_stopped pre xs gone s i n r kept s' :
  i ∉ pre.*1 -> s0.(requests) !! i = Some r -> Loop f s0 pre xs gone s -> left_behind i s s' ->
  Loop f s0 (pre ++ [(i, n)]) (xs ++ [Some (r, kept, true, bool_decide (r.(info).(status) = RUNNING))]) (<[i := r]> gone) s'.
Proof.
  intros Hni Hr0 [L1 Lh Lo L2 L3 L4 L5 L6 L7 L8] Hlb. pose proof Hlb as (Hm & Hp & Ht & _). destruct (L4 i Hni) as [Hsi Hg]. assert (Hr : s.(requests) !! i = Some r) by congruence.
  destruct (inv_alive _ _ _ _ start Hr0) as (_ & Hid & Hkey). split.
  - assert (Hu : requests s' ∪ <[i := r]> gone = requests s ∪ gone).
    { rewrite Hm, <- insert_union_r by apply lookup_delete_eq. rewrite insert_union_l. by rewrite insert_delete_id. }
    destruct Hp as [P1 P2 P3 P4], L1 as [H1 H2 H3 H4 H5 H6]. unfold revived, queued in *. simpl in *.
    split; simpl; unfold queued; simpl; rewrite ?P1, ?P2, ?P3, ?P4, ?Hu; done.
  - by apply (held_left i s).
  - intros m Hm'. by apply (tc_steps _ _ _ Ht), Lo.
  - rewrite Hm. apply map_disjoint_insert_r. split; [apply lookup_delete_eq|]. by apply map_disjoint_delete_l.
  - by transitivity s.
  - intros j Hj. rewrite fmap_app in Hj. apply not_elem_of_app in Hj as [Hj1 Hj2].
    assert (i <> j) by (intros ->; apply Hj2; by left). rewrite Hm, lookup_delete_ne, lookup_insert_ne by done. by apply L4.
  - intros j m y Hj Hy. apply elem_of_app in Hj as [Hj|Hj%list_elem_of_singleton].
    + assert (i <> j) by (intros ->; apply Hni; by apply (list_elem_of_fmap_2' fst _ _ _ Hj)). rewrite Hm, lookup_delete_ne by done. by apply (L5 j m).
    + injection Hj as -> ->. right. rewrite Hm. apply lookup_delete_eq.
  - intros j Hj. rewrite Hm. destruct (decide (i = j)) as [->|]; [congruence|]. rewrite lookup_delete_ne by done. by apply L6.
  - intros j g Hj. destruct (decide (i = j)) as [<-|Hne].
    + rewrite lookup_insert_eq in Hj. injection Hj as <-. exists r, kept. split_and!; [apply elem_of_app; right; by left|done|done].
    + rewrite lookup_insert_ne in Hj by done. destruct (L7 j g Hj) as (y & kept' & Hy & Hid'). exists y, kept'. split; [apply elem_of_app; by left|done].
  - intros y kept' wr [Hy|Hy%list_elem_of_singleton]%elem_of_app.
    + destruct (L8 y kept' wr Hy) as [[g Hy'] Hk]. split; [|done]. destruct (decide (i = rid y)) as [<-|]; [by rewrite lookup_insert_eq|].
      rewrite lookup_insert_ne by done. by eexists.
    + injection Hy as -> -> ->. rewrite Hid, lookup_insert_eq. done.
Qed.

Lemma loop_step pre i n rest xs s :
  fl_sched f = pre ++ (i, n) :: rest -> (exists gone, Loop f s0 pre xs gone s) ->
  safe (update_one cfg f.(fl_out) results i n) s (fun x s' => exists gone, Loop f s0 (pre ++ [(i, n)]) (xs ++ [x]) gone s').
Proof.
  intros Hsched [gone HL]. pose proof HL as [L1 Lh Lo L2 L3 L4 L5 L6 L7 L8].
  assert (Hin : (i, n) ∈ fl_sched f) by (rewrite Hsched; apply elem_of_app; right; by left).
  assert (Hni : i ∉ pre.*1).
  { intros Hpre. pose proof nodup as Hnd. rewrite Hsched, fmap_app in Hnd. apply NoDup_app in Hnd as (_ & Hd & _). apply (Hd i Hpre). by left. }
  pose proof (proj1 (Forall_forall _ _) positive _ Hin) as Hn. simpl in Hn. destruct (L4 i Hni) as [Hsi Hgi].
  destruct (s0.(requests) !! i) as [r|] eqn:Hr0.
  - destruct (inv_alive _ _ _ _ start Hr0) as (Hfin & Hid & _). destruct (heads _ _ _ Hin Hr0) as (H1 & H2 & _).
    apply (update_one_spec _ _ _ _ (cap f i) r); try done; [apply Lh|by apply (runner i n r)| |].
    + intros x r' s' Hat Hs Hx. exists gone. apply (loop_alive pre xs gone s i n r r'); try done. destruct Hx as [->|[kept ->]]; [by left|right; by eexists _, _].
    + intros kept s' Hlb. exists (<[i := r]> gone). by apply (loop_stopped pre xs gone s).
  - unfold update_one. safe_step. apply safe_check; [lia|]. safe_steps. rewrite Hsi. safe_steps. exists gone. split; try done.
    + intros j Hj. rewrite fmap_app in Hj. apply not_elem_of_app in Hj as [Hj _]. by apply L4.
    + intros j m y Hj Hy. apply elem_of_app in Hj as [Hj|Hj%list_elem_of_singleton]; [by apply L5|]. injection Hj as -> ->. congruence.
    + intros j g Hj. destruct (L7 j g Hj) as (y & kept & Hy & Hid). exists y, kept. split; [apply elem_of_app; by left|done].
    + intros y kept wr [Hy|Hy%list_elem_of_singleton]%elem_of_app; [by apply (L8 y kept wr)|done].
Qed.
End loop.

(** ** Requests leave *)

Lemma inv_leave gone s s' :
  Inv cfg (revived gone s) [] -> s.(requests) ##ₘ gone -> s'.(requests) = s.(requests) ->
  s'.(running) = filter (fun i => gone !! i = None) s.(running) ->
  queue_inv s'.(waiting) -> queue_inv s'.(skipped_waiting) ->
  queued s' ≡ₚ filter (fun q => gone !! q.(qrequest_id) = None) (queued s) ->
  s'.(num_waiting_for_streaming_input) = s.(num_waiting_for_streaming_input) -> Inv cfg s' [].
Proof.
  intros [H1 H2 H3 H4 H5 H6] Hd Hm Hrun Hq1 Hq2 Hqs Hst. rewrite app_nil_r in H2. simpl in H2, H3, H4. unfold queued in H2. simpl in H2. fold (queued s) in H2.
  split; rewrite ?app_nil_r; [done| | |by rewrite Hst| |].
  - rewrite Hm, Hrun, Hqs. by apply book_remove.
  - rewrite Hrun. pose proof (length_filter (fun i => gone !! i = None) s.(running)). lia.
  - intros i r Hr. apply (H5 i). simpl. rewrite Hm in Hr. by apply lookup_union_Some_l.
  - intros i r Hr. apply (H6 i). simpl. rewrite Hm in Hr. by apply lookup_union_Some_l.
Qed.

Lemma remove_waiting_spec ks s P :
  queue_inv s.(waiting) -> queue_inv s.(skipped_waiting) ->
  (forall s', queue_inv s'.(waiting) -> queue_inv s'.(skipped_waiting) -> queued s' ≡ₚ filter (fun q => q ∉ ks) (queued s) ->
     s'.(requests) = s.(requests) -> s'.(running) = s.(running) -> s'.(num_waiting_for_streaming_input) = s.(num_waiting_for_streaming_input) ->
     s'.(caches) = s.(caches) -> P tt s') ->
  safe (remove_waiting ks) s P.
Proof.
  intros Hq1 Hq2 HP. unfold remove_waiting. case_bool_decide as Hk.
  - safe_steps. apply HP; try done. subst ks. rewrite filter_all; [done|]. apply Forall_forall. intros x _. apply not_elem_of_nil.
  - safe_steps. destruct (ql_remove_all ks _ Hq1) as (w & Hw & Hw1 & Hw2). eapply safe_eq; [exact Hw|]. safe_steps. simpl.
    destruct (ql_remove_all ks _ Hq2) as (k & Hk' & Hk1 & Hk2). eapply safe_eq; [exact Hk'|]. apply HP; try done.
    unfold queued. simpl. by rewrite Hw2, Hk2, filter_app.
Qed.

(** ** [finish_requests] *)

Lemma lookup_requests ids (m : gmap string Req) :
  (forall i r, m !! i = Some r -> rid r = i) -> NoDup ids ->
  NoDup (rid <$> omap (fun i => m !! i) ids) /\ forall r, r ∈ omap (fun i => m !! i) ids <-> rid r ∈ ids /\ m !! rid r = Some r.
Proof.
  intros Hid Hnd. split.
  - induction Hnd as [|i ids Hi _ IH]; cbn; [constructor|]. destruct (m !! i) as [r|] eqn:Hr; [|done]. rewrite fmap_cons. apply NoDup_cons. split; [|done].
    rewrite (Hid i r Hr). intros Hin. apply Hi. apply list_elem_of_fmap in Hin as (x & -> & Hx). apply list_elem_of_omap in Hx as (j & Hj & Hx).
    by rewrite (Hid j x Hx).
  - intros r. rewrite list_elem_of_omap. split.
    + intros (i & Hi & Hr). by rewrite (Hid i r Hr).
    + intros [H1 H2]. by exists (rid r).
Qed.

(** The requests of [ids] have left the running list and the queues. *)
Lemma finish_leave ids s s1 :
  let valid := omap (fun i => s.(requests) !! i) ids in
  Inv cfg s [] -> NoDup ids ->
  s1.(running) = remove_all (rid <$> filter (fun r => r.(info).(status) = RUNNING) valid) s.(running) ->
  queued s1 ≡ₚ filter (fun q => q ∉ key <$> filter (fun r => r.(info).(status) <> RUNNING) valid) (queued s) ->
  queue_inv s1.(waiting) -> queue_inv s1.(skipped_waiting) ->
  s1.(num_waiting_for_streaming_input) = s.(num_waiting_for_streaming_input) ->
  Inv cfg (set_requests (fun _ => filter (fun x => x.1 ∉ ids) s.(requests)) s1) [].
Proof.
  intros valid Hi Hnd Hrun1 Hqs Hw1 Hw2 Hst1. set (m0 := requests s) in *.
  assert (Hid : forall i r, m0 !! i = Some r -> rid r = i) by (intros i r Hr; by apply (inv_alive s [] i r Hi Hr)).
  destruct (lookup_requests ids m0 Hid Hnd) as [_ Hv]. fold valid in Hv.
  set (keep := filter (fun x => x.1 ∉ ids) m0). set (gone := filter (fun x => ¬ (x.1 ∉ ids)) m0).
  assert (Hgone : forall i r, m0 !! i = Some r -> gone !! i = None <-> i ∉ ids).
  { intros i r Hr. subst gone. rewrite map_lookup_filter_None. split; [intros [Hn|Hn]; [congruence|]|].
    - specialize (Hn r Hr). simpl in Hn. destruct (decide (i ∈ ids)) as [Hin|]; [|done]. exfalso. apply Hn. by intros Hnot.
    - intros Hn. right. intros x _ Hnn. by apply Hnn. }
  pose proof (iv_book _ _ _ Hi) as Hb. rewrite app_nil_r in Hb.
  apply (inv_leave gone (set_requests (fun _ => keep) s)); try done.
  - unfold revived. destruct Hi as [A1 A2 A3 A4 A5 A6].
    assert (Hun : keep ∪ gone = m0) by (subst keep gone; apply map_filter_union_complement).
    split; try done; unfold queued in *; simpl; rewrite Hun; done.
  - apply map_disjoint_filter_complement.
  - simpl. rewrite Hrun1. rewrite remove_all_filter by (apply (inv_nodup _ _ _ Hi)). apply filter_iff_in. intros i Hin.
    destruct (bk_running _ _ _ Hb i Hin) as (r & Hr & Hrs). rewrite (Hgone i r Hr). apply not_iff_compat. rewrite list_elem_of_fmap. split.
    + intros (x & -> & [_ Hx]%list_elem_of_filter). by apply Hv in Hx as [? _].
    + intros Hids. exists r. rewrite (Hid i r Hr). split; [done|]. apply list_elem_of_filter. split; [done|]. apply Hv. by rewrite (Hid i r Hr).
  - change (queued (set_requests _ s1)) with (queued s1). change (queued (set_requests _ s)) with (queued s). rewrite Hqs.
    apply Permutation_refl', filter_iff_in. intros q Hin.
    destruct (bk_waiting _ _ _ Hb q Hin) as (r & Hr & Hk & (Hns & _)). rewrite (Hgone _ r Hr). apply not_iff_compat. rewrite list_elem_of_fmap. split.
    + intros (x & -> & [_ Hx]%list_elem_of_filter). apply Hv in Hx as [Hx Hm]. destruct (inv_alive s [] _ x Hi Hm) as (_ & _ & ->). done.
    + intros Hids. exists r. split; [done|]. apply list_elem_of_filter. split; [done|]. apply Hv. by rewrite (Hid _ r Hr).
Qed.

(** The objects of the finished requests are deleted. *)
Lemma finish_loop (ids : list string) st valid (keep : gmap string Req) s1 P :
  is_finished st = true -> NoDup (rid <$> valid) -> Held s1 ->
  (forall r, r ∈ valid -> s1.(requests) !! rid r = Some r /\ rid r ∈ ids) ->
  keep = filter (fun x => x.1 ∉ ids) s1.(requests) ->
  (forall i, i ∈ ids -> is_Some (s1.(requests) !! i) -> i ∈ rid <$> valid) ->
  (forall s', same_places s1 s' -> s'.(requests) = keep -> Held s' -> (forall n, steps_open s1.(caches) n -> steps_open s'.(caches) n) -> P tt s') ->
  safe (for_each valid (fun r => upd_req (rid r) (set_status st) ;; free_request (rid r))) s1 P.
Proof.
  intros Hst Hnd Hh Hvalid Hkeep Hids HP.
  apply (safe_for_each _ (fun rest s' => same_places s1 s' /\ NoDup (rid <$> rest) /\ Held s' /\ (forall n, steps_open s1.(caches) n -> steps_open s'.(caches) n)
    /\ (forall r, r ∈ rest -> s'.(requests) !! rid r = Some r /\ rid r ∈ ids) /\ forall i, i ∉ rid <$> rest -> s'.(requests) !! i = keep !! i)).
  - split_and!; [done..|]. intros i Hn. subst keep. destruct (s1.(requests) !! i) as [r|] eqn:Hr; symmetry.
    + apply map_lookup_filter_Some. split; [done|]. simpl. intros Hin. apply Hn. by apply Hids.
    + apply map_lookup_filter_None. by left.
  - intros r rest s' (Hp & Hndr & Hh' & Ho & Hrest & Hother). rewrite fmap_cons in Hndr. apply NoDup_cons in Hndr as [Hnr Hndr].
    destruct (Hrest r ltac:(by left)) as [Hr Hrid].
    safe_step. apply (at_upd s' (rid r) r); [apply at_refl; [apply Hh'|done]|]. intros s2 Hat2.
    apply (free_stopped_spec s' (rid r) (set_status st r)); [done|done|done|]. intros s3 Hlb. pose proof Hlb as (Hm3 & Hp3 & Ht3 & _).
    split_and!; [by transitivity s'|done|by apply (held_left (rid r) s')|intros n Hn; by apply (tc_steps _ _ _ Ht3), Ho| |].
    + intros x Hx. rewrite Hm3, lookup_delete_ne; [apply Hrest; by right|]. intros E. apply Hnr. rewrite E. by apply list_elem_of_fmap_2.
    + intros i Hn. rewrite Hm3. destruct (decide (rid r = i)) as [<-|Hne].
      * rewrite lookup_delete_eq. symmetry. subst keep. apply map_lookup_filter_None. right. intros x Hx. simpl. by intros Hnot.
      * rewrite lookup_delete_ne by done. apply Hother. rewrite fmap_cons. by apply not_elem_of_cons.
  - intros s' (Hp & _ & Hh' & Ho & _ & Hother). apply HP; [done| |done|done]. apply map_eq. intros i. apply Hother, not_elem_of_nil.
Qed.

Lemma finish_requests_spec ids st s P :
  Inv cfg s [] -> Held s -> is_finished st = true -> NoDup ids ->
  (forall s' done_, Inv cfg s' [] -> Held s' -> (forall n, steps_open s.(caches) n -> steps_open s'.(caches) n) ->
     s'.(requests) = filter (fun x => x.1 ∉ ids) s.(requests) -> P done_ s') ->
  safe (finish_requests ids st) s P.
Proof.
  intros Hi Hh Hst Hnd HP. unfold finish_requests. safe_step. apply safe_check; [done|]. safe_steps.
  assert (Hid : forall i r, s.(requests) !! i = Some r -> rid r = i) by (intros i r Hr; by apply (inv_alive s [] i r Hi Hr)).
  destruct (lookup_requests ids s.(requests) Hid Hnd) as [Hnv Hv]. set (valid := omap _ ids) in *.
  assert (Hvalid : filter (fun r => is_finished r.(info).(status) = false) valid = valid).
  { apply filter_all, Forall_forall. intros r Hr. apply Hv in Hr as [_ Hr]. by apply (inv_alive s [] _ r Hi Hr). }
  rewrite Hvalid. safe_steps. apply remove_waiting_spec; [apply Hi|apply Hi|].
  intros s1 Hw1 Hw2 Hqs Hm1 Hrun1 Hst1 Hc1. safe_step.
  pose proof (finish_leave ids s s1 Hi Hnd Hrun1 Hqs Hw1 Hw2 Hst1) as Hik. simpl in Hm1, Hc1.
  apply (finish_loop ids st valid (filter (fun x => x.1 ∉ ids) s.(requests))); [done|done| | |by rewrite Hm1| |].
  - destruct Hh as [A1 A2]. split; rewrite Hc1; [done|]. by rewrite Hm1.
  - intros r Hr. rewrite Hm1. by apply Hv in Hr as [? Hr].
  - intros i Hin [r Hr]. rewrite Hm1 in Hr. apply list_elem_of_fmap. exists r. rewrite (Hid i r Hr). split; [done|]. apply Hv. by rewrite (Hid i r Hr).
  - intros s' [P1 P2 P3 P4] Hm Hh' Ho. rewrite Hc1 in Ho. safe_steps. apply HP; [|done|done|done]. destruct Hik as [A1 A2 A3 A4 A5 A6]. simpl in *.
    split; unfold queued in *; simpl in *; rewrite ?P1, ?P2, ?P3, ?P4, ?Hm; done.
Qed.

(** ** [update_from_output] *)

(** The requests that stopped leave; [xs] are the results of the loop. *)
Lemma loop_end f s0 xs gone s P :
  Inv cfg s0 [] -> Loop f s0 (fl_sched f) xs gone s ->
  (forall s', Inv cfg s' [] -> s'.(requests) = s.(requests) -> s'.(caches) = s.(caches) -> P tt s') ->
  safe (remove_waiting ((fun x => x.1.1.1.(key)) <$> filter (fun x => x.1.2 = true /\ x.2 = false) (omap id xs)))
    (set_running (remove_all ((fun x => rid x.1.1.1) <$> filter (fun x => x.1.2 = true /\ x.2 = true) (omap id xs)) s.(running)) s) P.
Proof.
  intros Hi0 [L1 _ _ L2 L3 L4 L5 L6 L7 L8] HP. pose proof L1 as [[Hq1 Hq2] Hb _ _ _ _]. rewrite app_nil_r in Hb. simpl in Hb.
  change (queued (revived gone s)) with (queued s) in Hb.
  assert (Hmem : forall r kept b wr, (r, kept, b, wr) ∈ omap id xs <-> Some (r, kept, b, wr) ∈ xs).
  { intros r kept b wr. rewrite list_elem_of_omap. split; [intros (x & Hx & E); unfold id in E; by subst|intros Hx; by exists (Some (r, kept, b, wr))]. }
  assert (Hlook : forall i g, gone !! i = Some g -> (requests s ∪ gone) !! i = Some g).
  { intros i g Hg. rewrite lookup_union_r; [done|]. by apply (map_disjoint_Some_r _ _ _ _ L2 Hg). }
  apply remove_waiting_spec; [done|done|]. intros s' Hw1 Hw2 Hqs Hm Hrun Hst Hc. apply HP; [|done|done].
  apply (inv_leave gone s); try done.
  - rewrite Hrun. simpl. rewrite remove_all_filter by (apply (inv_nodup _ _ _ L1)). apply filter_iff_in. intros i Hin.
    rewrite eq_None_not_Some. apply not_iff_compat. rewrite list_elem_of_fmap. split.
    + intros ([[[r kept] b] wr] & -> & [[Hb1 _] Hx]%list_elem_of_filter). simpl in *. subst b. apply Hmem in Hx. by apply (L8 r kept wr).
    + intros [g Hg]. destruct (bk_running _ _ _ Hb i Hin) as (x & Hx & Hs). rewrite (Hlook i g Hg) in Hx. injection Hx as <-.
      destruct (L7 i g Hg) as (r & kept & Hr & Hid & _). rewrite bool_decide_true in Hr by done. exists (r, kept, true, true). split; [done|].
      apply list_elem_of_filter. split; [done|by apply Hmem].
  - change (queued (set_running _ s)) with (queued s) in Hqs. rewrite Hqs. apply Permutation_refl', filter_iff_in. intros q Hin.
    rewrite eq_None_not_Some. apply not_iff_compat. rewrite list_elem_of_fmap. split.
    + intros ([[[r kept] b] wr] & -> & [[Hb1 _] Hx]%list_elem_of_filter). simpl in *. subst b. apply Hmem in Hx.
      destruct (L8 r kept wr Hx) as [Hg ->]. done.
    + intros [g Hg]. destruct (bk_waiting _ _ _ Hb q Hin) as (x & Hx & Hk & (Hs & _)). rewrite (Hlook _ g Hg) in Hx. injection Hx as <-.
      destruct (L7 _ g Hg) as (r & kept & Hr & Hid & Hkr). rewrite bool_decide_false in Hr by done. exists (r, kept, true, false). split; [simpl; congruence|].
      apply list_elem_of_filter. split; [done|by apply Hmem].
Qed.

(** A request before and after the output of [f] was processed. *)
Definition processed (f : Flight) i (r r' : Req) : Prop :=
  (i ∉ (fl_sched f).*1 /\ r' = r) \/ exists n, (i, n) ∈ fl_sched f /\ settled (cap f i) (drafts f i) n r r'.

Lemma update_from_output_spec f results m s P :
  0 <= cfg.(num_sampled_tokens_per_step) -> NoDup (fl_sched f).*1 -> Forall (fun x => 0 < x.2) (fl_sched f) -> Inv cfg s [] -> Held s ->
  steps_open s.(caches) m -> (0 < f.(fl_out).(out_total) -> 0 < m) ->
  (forall i n r, (i, n) ∈ fl_sched f -> s.(requests) !! i = Some r -> head_ok (cap f i) (drafts f i) n r) ->
  runner_ok f results s.(requests) ->
  (forall s' outputs, Inv cfg s' [] -> Held s' -> steps_open s'.(caches) (if f.(fl_out).(out_total) >? 0 then m - 1 else m) ->
     (forall i r', s'.(requests) !! i = Some r' -> exists r, s.(requests) !! i = Some r /\ processed f i r r') -> P outputs s') ->
  safe (update_from_output cfg f.(fl_out) results) s P.
Proof.
  intros Hns Hnd Hpos Hi Hh Hopen Hm Hheads Hrunner HP. unfold update_from_output. safe_step.
  eapply safe_call; [by apply (cl_process (cfg := cfg)); [apply Hh|exact Hopen|]|]. intros [] k _ (Hk1 & Hk2 & Hk3 & Hk4).
  set (s0 := set_caches k s). assert (Hi0 : Inv cfg s0 []) by (by apply inv_set_caches).
  assert (Hh0 : Held s0).
  { destruct Hh as [_ H2]. split; [done|]. intros i. specialize (H2 i). simpl. destruct (s.(requests) !! i) as [r|]; simpl in *; [case_bool_decide|]; [|by apply Hk2..].
    split; [apply H2|apply Hk3, H2]. }
  safe_step. apply (safe_map_m_inv _ (fun pre xs s' => exists gone, Loop f s0 pre xs gone s')).
  - exists ∅. split; try done.
    + unfold revived. destruct Hi0 as [A1 A2 A3 A4 A5 A6]. split; try done; simpl; rewrite map_union_empty; done.
    + apply map_disjoint_empty_r.
    + by intros i n r ?%elem_of_nil.
    + by intros r kept wr ?%elem_of_nil.
  - intros pre [i n] rest xs s' Hsched HL. by eapply (loop_step f results s0).
  - intros xs s1 [gone HL]. cbv zeta.
    safe_steps. apply (loop_end f s0 xs gone); [done|done|]. intros s2 Hi2 Hm2 Hc2. safe_steps. set (errors := elements _).
    assert (Hreq : forall i r', s2.(requests) !! i = Some r' -> exists r, s.(requests) !! i = Some r /\ processed f i r r').
    { intros i r' Hr'. rewrite Hm2 in Hr'. destruct HL as [_ _ _ _ _ L4 L5 L6 _ _]. change (requests s0) with (requests s) in *.
      destruct (s.(requests) !! i) as [r|] eqn:Hr; [|specialize (L6 i Hr); congruence]. exists r. split; [done|].
      destruct (decide (i ∈ (fl_sched f).*1)) as [Hin|Hni].
      - apply list_elem_of_fmap in Hin as ([j n] & -> & Hin). simpl in *. right. exists n. split; [done|].
        destruct (L5 j n r Hin Hr) as [(x & Hx & Hs)|Hn]; [|congruence]. by assert (x = r') as -> by congruence.
      - left. split; [done|]. destruct (L4 i Hni) as [E _]. congruence. }
    set (s3 := set_ids ∅ _ _ s2). assert (Hi3 : Inv cfg s3 []) by (by destruct Hi2).
    assert (Hh3 : Held s3).
    { destruct HL as [_ [A1 A2] _ _ _ _ _ _ _ _]. split; simpl; rewrite Hc2; [done|]. by rewrite Hm2. }
    assert (Ho3 : steps_open s3.(caches) (if f.(fl_out).(out_total) >? 0 then m - 1 else m)) by (simpl; rewrite Hc2; by apply (lp_open _ _ _ _ _ _ HL)).
    case_bool_decide; safe_steps; [by apply HP|]. apply finish_requests_spec; [done|done|done|apply NoDup_elements|].
    intros s4 done_ Hi4 Hh4 Ho4 Hm4. safe_steps. apply HP; [done|done|by apply Ho4|].
    intros i r' Hr'. apply Hreq. rewrite Hm4 in Hr'. by apply map_lookup_filter_Some in Hr' as [? _].
Qed.
End output.
