(* ===== verification/SchedulerSystem.v ===== *)
(** * The scheduler with steps in flight

    The engine adds and aborts requests, schedules steps and processes their outputs in
    the order of the steps; with asynchronous scheduling or pipeline parallelism several
    steps are in flight.  In every reachable state the counters of a request
    ([num_in_flight_tokens], [num_stale_output_tokens], [num_output_placeholders]) match
    the steps in flight, and no operation fails an assertion of its own. *)

From S2P Require Import Prelude KVManager RequestQueue Scheduler SchedulerProps SchedulerStep StopCheck SchedulerOutput.

(** The other thread's result of compiling a grammar. *)
Definition set_grammar (g : Grammar) (r : Req) : Req :=
  mkReq r.(info) r.(key) r.(params) r.(all_token_ids) r.(output_token_ids) r.(spec_token_ids)
    r.(num_output_placeholders) r.(num_stale_output_tokens) r.(drop_stale_output) r.(next_decode_eligible_step)
    r.(is_prefill_chunk) r.(num_preemptions) (option_map (fun _ => g) r.(structured_output)) r.(prefill_stats).

Section system.
Context {K B X Q : Type} `{!CacheOps K B X} `{!CacheModel K B} `{!QueueOps Q}.
Variable cfg : SchedConfig.

Notation Flight := (Flight (B := B) (X := X)).

Record Sys := mkSys {
  sys_state : State K Q;
  flights : list Flight;
}.

(** The requests of a step whose prompt is not finished. *)
Definition chunks_of (out : Output B X) (s : State K Q) : gset string :=
  list_to_set (filter (fun i => match s.(requests) !! i with Some r => r.(is_prefill_chunk) | None => false end = true)
    out.(out_num_scheduled_tokens).*1).

Definition set_pause (p : PauseState) (s : State K Q) : State K Q :=
  mkState s.(requests) s.(running) s.(waiting) s.(skipped_waiting) s.(caches) s.(current_step)
    s.(num_waiting_for_streaming_input) s.(prefill_capacity_bound) p s.(inflight_prefills)
    s.(grammar_compile_error_reqs) s.(finished_req_ids) s.(reset_preempted_req_ids) s.(spec_token_placeholders).

Inductive Op :=
  | OpAdd (r : Req)
  | OpSchedule (throttle : bool)
  | OpUpdate (results : list (string * RunnerResult))
  | OpFinish (ids : list string) (st : RequestStatus)
  | OpDrafts (drafts : list (string * list Z))
  | OpGrammar (i : string) (g : Grammar)
  | OpPause (p : PauseState)
  | OpReset (reset_running : bool).

Definition on_sys {A : Type} (m : M (State K Q) A) : M Sys A := zoom sys_state (fun s c => mkSys s c.(flights)) m.

Definition run_op (o : Op) : M Sys unit :=
  match o with
  | OpAdd r => on_sys (add_new_request r)
  | OpSchedule throttle =>
      out <- on_sys (schedule cfg throttle) ;;
      modify (fun c => mkSys c.(sys_state) (c.(flights) ++ [mkFlight out (chunks_of out c.(sys_state))]))
  | OpUpdate results =>
      fs <- gets flights ;;
      match fs with
      | [] => raise IndexError
      | f :: fs' =>
          on_sys (update_from_output cfg f.(fl_out) results) ;;
          modify (fun c => mkSys c.(sys_state) fs')
      end
  | OpFinish ids st => on_sys (finish_requests ids st) ;; ret tt
  | OpDrafts drafts => on_sys (update_draft_token_ids drafts)
  | OpGrammar i g => on_sys (upd_req i (set_grammar g))
  | OpPause p => on_sys (modify (set_pause p))
  | OpReset reset_running => on_sys (reset_prefix_cache reset_running) ;; ret tt
  end.

(** The operations one after the other. *)
Fixpoint run_ops (os : list Op) (c : Sys) : res unit * Sys :=
  match os with
  | [] => (Ok tt, c)
  | o :: os' => match run_op o c with (Ok _, c') => run_ops os' c' | (Raise e, c') => (Raise e, c') end
  end.

(** A request as it arrives. *)
Definition new_request (r : Req) : Prop :=
  r.(key).(qrequest_id) = rid r /\ 0 < num_tokens r /\ 0 <= r.(num_preemptions) /\ waiting_ok r /\ len_ok cfg r
  /\ r.(info).(num_in_flight_tokens) = 0 /\ r.(num_stale_output_tokens) = 0 /\ r.(spec_token_ids) = [].

(** When the engine performs an operation: ids are not reused, the adapters fit their
    slots, the runner answers the oldest step, without asynchronous scheduling drafts
    come for running requests whose output has arrived, and the cache can be reset once
    nothing runs. *)
Definition enabled (o : Op) (c : Sys) : Prop :=
  match o with
  | OpAdd r => new_request r /\ c.(sys_state).(requests) !! rid r = None
      /\ Forall (fun f => rid r ∉ (fl_sched f).*1) c.(flights) /\ loras_fit cfg (<[rid r := r]> c.(sys_state).(requests))
  | OpUpdate results => exists f fs, c.(flights) = f :: fs /\ runner_ok cfg f results c.(sys_state).(requests)
  | OpFinish ids st => NoDup ids /\ is_finished st = true
  | OpDrafts ds => cfg.(async_scheduling) = false -> forall i toks r, (i, toks) ∈ ds -> c.(sys_state).(requests) !! i = Some r ->
      toks = [] \/ (r.(info).(status) = RUNNING /\ r.(info).(num_in_flight_tokens) <= r.(num_stale_output_tokens))
  | OpReset true => forall s', preempt_running c.(sys_state) = (Ok tt, s') -> (op_reset_prefix_cache s'.(caches)).1 <> Ok false
  | _ => True
  end.

(** The start: no requests, and caches that hold nothing. *)
Definition initial (c : Sys) : Prop :=
  c.(sys_state).(requests) = ∅ /\ c.(sys_state).(running) = [] /\ c.(sys_state).(waiting) = create_request_queue
  /\ c.(sys_state).(skipped_waiting) = create_request_queue /\ c.(sys_state).(num_waiting_for_streaming_input) = 0 /\ c.(flights) = []
  /\ cache_inv c.(sys_state).(caches) /\ (forall i, unused c.(sys_state).(caches) i) /\ steps_open c.(sys_state).(caches) 0.

Inductive reachable : Sys -> Prop :=
  | reach_init c : initial c -> reachable c
  | reach_op c o c' : reachable c -> enabled o c -> run_op o c = (Ok tt, c') -> reachable c'.

(** An operation that succeeds leads to a reachable state. *)
Lemma reach_next o c : reachable c -> enabled o c -> (run_op o c).1 = Ok tt -> reachable (run_op o c).2.
Proof. intros Hc Hen Hok. apply (reach_op c o); [done|done|]. rewrite <- Hok. apply surjective_pairing. Qed.

Lemma reach_more os o c :
  reachable (run_ops os c).2 -> enabled o (run_ops os c).2 -> (run_ops (os ++ [o]) c).1 = Ok tt -> reachable (run_ops (os ++ [o]) c).2.
Proof.
  revert c. induction os as [|o' os IH]; intros c; cbn [app run_ops].
  - intros Hc Hen Hok. pose proof (reach_next o c Hc Hen) as Hn. destruct (run_op o c) as [[[]|] c']; [by apply Hn|done].
  - destruct (run_op o' c) as [[[]|] c']; [apply IH|done].
Qed.
End system.
Arguments Sys : clear implicits.

Section system_props.
Context {K B X Q : Type} `{!Raises} `{!CacheOps K B X} `{!CacheModel K B} `{!QueueOps Q} `{!QueueLaws Q}.
Context (cfg : SchedConfig) (cfg_good : cfg_ok cfg) `{!CacheLaws cfg K B X}.
Implicit Types (s : State K Q) (i : string).

Notation Flight := (Flight (B := B) (X := X)).
Notation Sys := (Sys K B X Q).

(** ** The steps in flight *)

(** The tokens and the placeholders of a request in the steps of [fs]. *)
Definition sum_tokens (fs : list Flight) i : Z := foldr Z.add 0 ((fun f => amount (fl_sched f) i) <$> fs).

Definition fl_credit (f : Flight) i : Z :=
  if cfg.(async_scheduling) && bool_decide (i ∈ (fl_sched f).*1) then cap cfg f i else 0.

Definition sum_credit (fs : list Flight) i : Z := foldr Z.add 0 ((fun f => fl_credit f i) <$> fs).

Lemma sum_tokens_app fs fs' i : sum_tokens (fs ++ fs') i = sum_tokens fs i + sum_tokens fs' i.
Proof. induction fs as [|f fs IH]; [done|]. unfold sum_tokens in *. cbn. rewrite IH. lia. Qed.

Lemma sum_credit_app fs fs' i : sum_credit (fs ++ fs') i = sum_credit fs i + sum_credit fs' i.
Proof. induction fs as [|f fs IH]; [done|]. unfold sum_credit in *. cbn. rewrite IH. lia. Qed.

Lemma sum_tokens_cons f fs i : sum_tokens (f :: fs) i = amount (fl_sched f) i + sum_tokens fs i.
Proof. done. Qed.

Lemma sum_credit_cons f fs i : sum_credit (f :: fs) i = fl_credit f i + sum_credit fs i.
Proof. done. Qed.

Lemma amount_nonneg (d : list (string * Z)) i : Forall (fun x => 0 < x.2) d -> 0 <= amount d i.
Proof. unfold amount. induction 1 as [|[k v] d Hv _ IH]; simpl; [lia|]. case_decide; simpl in *; lia. Qed.

(** A step in flight is well formed. *)
Record flight_wf (f : Flight) : Prop := {
  fw_nodup : NoDup (fl_sched f).*1;
  fw_pos : Forall (fun x => 0 < x.2) (fl_sched f);
  fw_spec : forall i toks, (i, toks) ∈ f.(fl_out).(out_spec_decode_tokens) -> i ∈ (fl_sched f).*1 /\ i ∉ f.(fl_chunks);
}.

Lemma amount_pos (d : list (string * Z)) i : Forall (fun x => 0 < x.2) d -> i ∈ d.*1 -> 0 < amount d i.
Proof.
  unfold amount. induction 1 as [|[k v] d Hv _ IH]; simpl; [by intros ?%elem_of_nil|]. intros [->|Hin]%elem_of_cons; [by rewrite decide_True|].
  case_decide; [done|by apply IH].
Qed.

Lemma drafts_cases f i : flight_wf f -> drafts f i = 0 \/ (i ∈ (fl_sched f).*1 /\ i ∉ f.(fl_chunks)).
Proof.
  intros [_ _ Hsp]. unfold drafts. destruct (dict_get _ i) as [toks|] eqn:E; [right|by left]. apply dict_get_in in E. by apply (Hsp i toks).
Qed.

Lemma sum_tokens_nonneg fs i : Forall flight_wf fs -> 0 <= sum_tokens fs i.
Proof. induction 1 as [|f fs [_ Hp _] _ IH]; [done|]. rewrite sum_tokens_cons. pose proof (amount_nonneg _ i Hp). lia. Qed.

Lemma fl_credit_nonneg f i : 0 <= fl_credit f i.
Proof. pose proof (co_spec _ cfg_good). unfold fl_credit, cap. destruct (_ && _); [|lia]. case_bool_decide; lia. Qed.

Lemma sum_credit_nonneg fs i : 0 <= sum_credit fs i.
Proof. induction fs as [|f fs IH]; [done|]. rewrite sum_credit_cons. pose proof (fl_credit_nonneg f i). lia. Qed.

(** The drafts of a request in the steps of [fs]. *)
Definition sum_drafts (fs : list Flight) i : Z := foldr Z.add 0 ((fun f => drafts f i) <$> fs).

Lemma sum_drafts_cons f fs i : sum_drafts (f :: fs) i = drafts f i + sum_drafts fs i.
Proof. done. Qed.

Lemma sum_drafts_app fs fs' i : sum_drafts (fs ++ fs') i = sum_drafts fs i + sum_drafts fs' i.
Proof. induction fs as [|f fs IH]; [done|]. cbn [app]. rewrite !sum_drafts_cons, IH. lia. Qed.

Lemma sum_drafts_nonneg fs i : 0 <= sum_drafts fs i.
Proof. induction fs as [|f fs IH]; [done|]. rewrite sum_drafts_cons. unfold drafts. lia. Qed.

(** Without tokens in flight there are no drafts in flight. *)
Lemma sum_drafts_zero fs i : Forall flight_wf fs -> sum_tokens fs i <= 0 -> sum_drafts fs i = 0.
Proof.
  induction 1 as [|f fs Hf Hfs IH]; [done|]. rewrite sum_tokens_cons, sum_drafts_cons. intros Hs. pose proof Hf as [_ Hp _].
  pose proof (amount_nonneg _ i Hp) as Ha. pose proof (sum_tokens_nonneg fs i Hfs) as Ht. rewrite IH by lia.
  destruct (drafts_cases f i Hf) as [->|[Hin _]]; [done|]. pose proof (amount_pos _ i Hp Hin). lia.
Qed.

(** Placeholders are kept for the drafts too. *)
Lemma sum_drafts_credit fs i : Forall flight_wf fs -> cfg.(async_scheduling) = true -> sum_drafts fs i <= sum_credit fs i.
Proof.
  intros Hfs Has. pose proof (co_spec _ cfg_good) as [_ Hns]. induction Hfs as [|f fs Hf _ IH]; [done|]. rewrite sum_drafts_cons, sum_credit_cons.
  pose proof (fl_credit_nonneg f i) as Hc. destruct (drafts_cases f i Hf) as [->|[Hin Hch]]; [lia|].
  unfold fl_credit, cap. rewrite Has, bool_decide_true, bool_decide_false by done. simpl. fold (drafts f i). lia.
Qed.

(** The counters of a request against the steps in flight: the stale tokens are those of
    the oldest steps, the placeholders cover the others, and the drafts of the others
    are among the computed tokens of a running request. *)
Record flight_ok (fs : list Flight) i (r : Req) : Prop := {
  fo_sum : r.(info).(num_in_flight_tokens) = sum_tokens fs i;
  fo_stale : exists k, r.(num_stale_output_tokens) = sum_tokens (take k fs) i
    /\ (cfg.(async_scheduling) = true -> sum_credit (drop k fs) i <= r.(num_output_placeholders))
    /\ (r.(info).(status) = RUNNING -> sum_drafts (drop k fs) i <= Z.max 0 r.(info).(num_computed_tokens));
  fo_waiting : r.(info).(status) <> RUNNING ->
    r.(num_stale_output_tokens) = r.(info).(num_in_flight_tokens) /\ (r.(num_preemptions) <= 0 -> r.(info).(num_in_flight_tokens) = 0);
}.

(** The number of steps in flight that have tokens. *)
Definition num_open (fs : list Flight) : Z := Z.of_nat (length (filter (fun f => 0 < f.(fl_out).(out_total)) fs)).

Record SysInv (c : Sys) : Prop := {
  si_inv : Inv cfg c.(sys_state) [];
  si_held : Held c.(sys_state);
  si_open : steps_open c.(sys_state).(caches) (num_open c.(flights));
  si_loras : loras_fit cfg c.(sys_state).(requests);
  si_wf : Forall flight_wf c.(flights);
  si_flight : forall i r, c.(sys_state).(requests) !! i = Some r -> flight_ok c.(flights) i r;
}.

(** ** Scheduling puts a step in flight *)

Lemma flight_ok_acct fs i r r1 : Forall flight_wf fs -> flight_ok fs i r -> acct r r1 -> flight_ok fs i r1.
Proof.
  intros Hwf [F1 (k & F2 & F3 & F5) F4] (A1 & A2 & A3 & A4). split; [congruence| |].
  - destruct A3 as [(E1 & E2 & _)|(E1 & E2 & _)].
    + exists k. rewrite E1, E2. split_and!; [done|done|]. intros Hs. destruct (A4 Hs) as [Hall|[Hs' ->]]; [|by apply F5].
      assert (Hsum : sum_tokens fs i = sum_tokens (take k fs) i + sum_tokens (drop k fs) i) by (by rewrite <- sum_tokens_app, take_drop).
      rewrite (sum_drafts_zero (drop k fs) i); [lia|by apply Forall_drop|lia].
    + exists (length fs). rewrite firstn_all, drop_all. change (sum_drafts [] i) with 0. split_and!; [congruence| |lia]. intros _. rewrite E2. done.
  - intros Hs. destruct A3 as [(E1 & E2 & E3)|(E1 & E2 & E3)]; [|split; [congruence|lia]].
    destruct (F4 (E3 Hs)) as [G1 G2]. split; [congruence|]. rewrite A1. intros Hp. apply G2. lia.
Qed.

Lemma chunks_of_spec (out : Output B X) s i r :
  i ∈ out.(out_num_scheduled_tokens).*1 -> s.(requests) !! i = Some r -> i ∈ chunks_of out s <-> r.(is_prefill_chunk) = true.
Proof. intros Hin Hr. unfold chunks_of. rewrite elem_of_list_to_set, list_elem_of_filter, Hr. tauto. Qed.

Lemma credit_of_flight (out : Output B X) s i r :
  s.(requests) !! i = Some r -> credit cfg out i r = fl_credit (mkFlight out (chunks_of out s)) i.
Proof.
  intros Hr. unfold credit, fl_credit, cap, fl_sched. simpl. destruct (async_scheduling cfg); simpl; [|done].
  case_bool_decide as Hin; simpl; [|done]. pose proof (chunks_of_spec out s i r Hin Hr) as Hc.
  destruct (is_prefill_chunk r); simpl; [by rewrite bool_decide_true by (by apply Hc)|].
  rewrite bool_decide_false; [done|]. by intros ?%Hc.
Qed.

(** The new step is the last in flight. *)
Lemma flight_ok_booked fs (out : Output B X) s' i r1 r' :
  let f := mkFlight out (chunks_of out s') in
  Forall flight_wf fs -> flight_wf f -> flight_ok fs i r1 -> booked cfg out i r1 r' -> s'.(requests) !! i = Some r' ->
  (i ∈ out.(out_num_scheduled_tokens).*1 -> r'.(info).(status) = RUNNING) -> 0 < num_tokens r' -> flight_fine cfg r' ->
  (forall toks, (i, toks) ∈ out.(out_spec_decode_tokens) ->
     Z.of_nat (length toks) + num_tokens r' + r1.(num_output_placeholders) <= r'.(info).(num_computed_tokens)
     /\ (cfg.(async_scheduling) = false -> r1.(info).(num_in_flight_tokens) <= r1.(num_stale_output_tokens))) ->
  flight_ok (fs ++ [f]) i r'.
Proof.
  intros f Hwfs Hwf [F1 (k & F2 & F3 & F5) F4] (B1 & B2 & B3 & B4 & B5 & B6 & B7) Hr' Hrun Htok (_ & Hph & _) Hdraft.
  assert (Hsum : sum_tokens [f] i = amount out.(out_num_scheduled_tokens) i) by (unfold sum_tokens; simpl; unfold fl_sched, f; simpl; lia).
  assert (Hcr : sum_credit [f] i = credit cfg out i r') by (rewrite (credit_of_flight out s' i r' Hr'); unfold sum_credit; simpl; fold f; lia).
  pose proof (amount_nonneg _ i (fw_pos _ Hwf)) as Ham. unfold fl_sched in Ham. simpl in Ham.
  split.
  - rewrite sum_tokens_app, Hsum. lia.
  - exists (Nat.min k (length fs)). rewrite take_app_le, drop_app_le, sum_credit_app, sum_drafts_app, Hcr by lia.
    assert (Ht : take (Nat.min k (length fs)) fs = take k fs /\ drop (Nat.min k (length fs)) fs = drop k fs).
    { destruct (Nat.le_gt_cases k (length fs)); [rewrite Nat.min_l by lia; done|rewrite Nat.min_r by lia].
      rewrite firstn_all, drop_all. split; [by rewrite take_ge by lia|by rewrite drop_ge by lia]. }
    destruct Ht as [-> ->]. split_and!; [congruence|intros Has; specialize (F3 Has); lia|]. intros Hs. rewrite B6 in Hs. specialize (F5 Hs).
    assert (Hsum' : sum_tokens fs i = sum_tokens (take k fs) i + sum_tokens (drop k fs) i) by (by rewrite <- sum_tokens_app, take_drop).
    rewrite sum_drafts_cons. change (sum_drafts [] i) with 0. unfold drafts. simpl. destruct (dict_get out.(out_spec_decode_tokens) i) as [toks|] eqn:E; [|simpl; lia].
    destruct (Hdraft toks) as [Hle Hsync]; [by apply dict_get_in|]. simpl. destruct (async_scheduling cfg) eqn:Has.
    + pose proof (sum_drafts_credit (drop k fs) i ltac:(by apply Forall_drop) Has). specialize (F3 eq_refl). lia.
    + assert (Hz : sum_tokens (drop k fs) i <= 0) by (specialize (Hsync eq_refl); lia).
      rewrite (sum_drafts_zero (drop k fs) i ltac:(by apply Forall_drop) Hz).
      specialize (Hph eq_refl). unfold credit in B5. rewrite Has in B5. simpl in B5. lia.
  - intros Hs. assert (Hni : i ∉ out.(out_num_scheduled_tokens).*1) by (intros Hin; by apply Hs, Hrun). rewrite (amount_notin _ _ Hni) in B2.
    rewrite B6 in Hs. destruct (F4 Hs) as [G1 G2]. destruct B1 as (_ & _ & _ & _ & _ & _ & Hp). split; [lia|]. intros Hp'. rewrite B2. rewrite G2; lia.
Qed.

Lemma schedule_op throttle c : SysInv c -> safe (run_op cfg (OpSchedule throttle)) c (fun _ c' => SysInv c').
Proof.
  intros [H1 Hh Ho H2 H3 H4]. cbn [run_op]. unfold on_sys. safe_steps. eapply safe_mono; [by apply schedule_spec|]. intros out s' Hok. safe_steps. cbn [sys_state flights].
  destruct Hok as [S1 Sh S2 S3 S4 S5 S6 S7 S8 S9 S10 So].
  assert (Hwf : flight_wf (mkFlight out (chunks_of out s'))).
  { split; unfold fl_sched; simpl; [done| |].
    - apply Forall_forall. intros [i n] Hx. by apply (S5 i n).
    - intros i toks Hx. destruct (S6 i toks Hx) as (Hin & r & Hr & Hc). split; [done|]. unfold chunks_of.
      rewrite elem_of_list_to_set, list_elem_of_filter, Hr. intros [Hc' _]. congruence. }
  split; simpl; [done|done| | | |].
  - specialize (So _ Ho). unfold num_open in *. rewrite filter_app, length_app, filter_cons. simpl. destruct (Z.gtb_spec (out_total out) 0).
    + rewrite decide_True by lia. simpl. by replace (Z.of_nat _) with (Z.of_nat (length (filter (fun f => 0 < f.(fl_out).(out_total)) c.(flights))) + 1) by lia.
    + rewrite decide_False by lia. simpl. by rewrite Nat.add_0_r.
  - apply (loras_fit_evolves cfg c.(sys_state).(requests)); [|done]. eapply tracks_core; [|exact S2].
    intros i r r' (r1 & Hc & _ & (Hb & _) & _). by transitivity r1.
  - apply Forall_app. split; [done|]. by apply Forall_singleton.
  - intros i r' Hr'. specialize (S2 i). rewrite Hr' in S2. inversion S2 as [r x (r1 & Hc & Ha & Hb & Hd) E1 E2|]; subst. symmetry in E1.
    apply (flight_ok_booked _ _ _ _ r1); try done; [by apply (flight_ok_acct _ _ r); [|apply H4|]| |by apply (bk_store _ _ _ (iv_book _ _ _ S1) i)|by apply (iv_flight _ _ _ S1 i)].
    intros Hin. apply list_elem_of_fmap in Hin as ([j n] & -> & Hx). destruct (S5 j n Hx) as (_ & Hrun & _).
    destruct (inv_running_lookup cfg s' [] j S1 Hrun) as (x & Hx' & _ & Hs). simpl in *. congruence.
Qed.

(** ** Processing takes the oldest step out *)

Lemma flight_head f fs i n r :
  Forall flight_wf (f :: fs) -> flight_ok (f :: fs) i r -> (i, n) ∈ fl_sched f -> head_ok cfg (cap cfg f i) (drafts f i) n r.
Proof.
  intros Hwf [F1 (k & F2 & F3 & F5) F4] Hin. apply Forall_cons in Hwf as [[W1 W2 W3] Hwf].
  assert (Ham : amount (fl_sched f) i = n) by (by apply amount_elem). pose proof (proj1 (Forall_forall _ _) W2 _ Hin) as Hn. simpl in Hn.
  rewrite sum_tokens_cons, Ham in F1. pose proof (sum_tokens_nonneg fs i Hwf) as Hs.
  assert (Hk : forall k', 0 <= sum_tokens (take k' fs) i) by (intros k'; apply sum_tokens_nonneg; by apply Forall_take).
  assert (Hcr : cfg.(async_scheduling) = true -> fl_credit f i = cap cfg f i).
  { intros Has. unfold fl_credit. rewrite Has, bool_decide_true; [done|]. by apply (list_elem_of_fmap_2' fst _ _ _ Hin). }
  assert (Hz : r.(num_stale_output_tokens) <= 0 -> k = O).
  { intros Hz. destruct k as [|k]; [done|]. cbn [take] in F2. rewrite sum_tokens_cons, Ham in F2. specialize (Hk k). lia. }
  split_and!; [|intros Has Hst|intros Hrun|lia|lia|intros Hrun Hst].
  - intros Hpos. destruct k as [|k]; [cbn in F2; lia|]. cbn [take] in F2. rewrite sum_tokens_cons, Ham in F2. specialize (Hk k). lia.
  - rewrite (Hz Hst) in F3. specialize (F3 Has). rewrite drop_0, sum_credit_cons, (Hcr Has) in F3. pose proof (sum_credit_nonneg fs i). lia.
  - destruct (F4 Hrun) as [G1 G2]. lia.
  - rewrite (Hz Hst) in F5. specialize (F5 Hrun). rewrite drop_0, sum_drafts_cons in F5. pose proof (sum_drafts_nonneg fs i). lia.
Qed.

(** A request without output in the step. *)
Lemma flight_ok_other f fs i r : flight_wf f -> flight_ok (f :: fs) i r -> i ∉ (fl_sched f).*1 -> flight_ok fs i r.
Proof.
  intros Hwf [F1 (k & F2 & F3 & F5) F4] Hni. pose proof (amount_notin _ _ Hni) as Ham. rewrite sum_tokens_cons, Ham in F1.
  assert (Hcr : fl_credit f i = 0) by (unfold fl_credit; rewrite (bool_decide_false _ Hni), andb_false_r; done).
  assert (Hd : drafts f i = 0) by (by destruct (drafts_cases f i Hwf) as [|[? _]]).
  split; [lia| |done]. destruct k as [|k].
  - exists O. rewrite ?drop_0, ?take_0 in *. rewrite sum_credit_cons, Hcr in F3. rewrite sum_drafts_cons, Hd in F5.
    split_and!; [done|intros Has; specialize (F3 Has); lia|intros Hs; specialize (F5 Hs); lia].
  - exists k. cbn [take drop] in F2, F3, F5. rewrite sum_tokens_cons, Ham in F2. split_and!; [lia|done|done].
Qed.

(** A request with output in the step. *)
Lemma flight_ok_settled f fs i n r r' :
  Forall flight_wf (f :: fs) -> flight_ok (f :: fs) i r -> (i, n) ∈ fl_sched f -> settled cfg (cap cfg f i) (drafts f i) n r r' -> flight_ok fs i r'.
Proof.
  intros Hwf Hok Hin Hs. pose proof (flight_head f fs i n r Hwf Hok Hin) as (G1 & G2 & G3 & Gn & _). destruct Hok as [F1 (k & F2 & F3 & F5) F4].
  apply Forall_cons in Hwf as [[W1 W2 W3] Hwf]. assert (Ham : amount (fl_sched f) i = n) by (by apply amount_elem).
  destruct Hs as [D1 D2 D3 D4 D5 D6 [D7 D7'] D8 D9 D10 D11 D12 D13 _].
  destruct (drained_fields cfg n r) as (_ & _ & _ & E4 & E5 & E6 & E7 & E8 & _ & _ & E11 & _).
  rewrite E11 in D7'. rewrite sum_tokens_cons, Ham in F1. rewrite E4 in D6. rewrite E5 in D10, D11. rewrite E6 in D10, D12.
  assert (Hk : forall k', 0 <= sum_tokens (take k' fs) i) by (intros k'; apply sum_tokens_nonneg; by apply Forall_take).
  assert (Hd : 0 <= drafts f i) by (unfold drafts; lia). pose proof (sum_drafts_nonneg fs i) as Hds. split; [lia| |].
  - destruct (Z.gtb_spec (num_stale_output_tokens r) 0) as [Hst|Hst].
    + destruct k as [|k]; [cbn in F2; lia|]. cbn [take drop] in F2, F3, F5. rewrite sum_tokens_cons, Ham in F2. exists k. rewrite D6.
      destruct (D10 eq_refl) as [-> ->]. split_and!; [lia|done|done].
    + assert (k = O) as ->.
      { destruct k as [|k]; [done|]. cbn [take] in F2. rewrite sum_tokens_cons, Ham in F2. specialize (Hk k). lia. }
      exists O. rewrite D7', D6. rewrite ?drop_0, ?take_0 in *. change (sum_tokens [] i) with 0 in *. split_and!; [lia| |].
      * intros Has. specialize (D11 Has eq_refl). specialize (F3 Has). rewrite sum_credit_cons in F3.
        unfold fl_credit in F3. rewrite Has, bool_decide_true in F3 by (by apply (list_elem_of_fmap_2' fst _ _ _ Hin)). simpl in F3. lia.
      * intros Hrun. specialize (F5 Hrun). rewrite sum_drafts_cons in F5. lia.
  - rewrite D6. intros Hrun. destruct (G3 Hrun) as [Hst Hp]. destruct (F4 Hrun) as [K1 K2]. rewrite (proj2 (Z.gtb_lt _ _) Hst) in D7'. split; lia.
Qed.

Lemma flight_ok_processed f fs i r r' :
  Forall flight_wf (f :: fs) -> flight_ok (f :: fs) i r -> processed cfg f i r r' -> flight_ok fs i r'.
Proof.
  intros Hwf Hok [[Hni ->]|(n & Hin & Hs)]; [|by apply (flight_ok_settled f fs i n r)].
  apply (flight_ok_other f); [by apply Forall_cons in Hwf as [? _]|done|done].
Qed.

Lemma loras_fit_params m m' :
  (forall i r', m' !! i = Some r' -> exists r, m !! i = Some r /\ r'.(params) = r.(params)) -> loras_fit cfg m -> loras_fit cfg m'.
Proof.
  intros Hm Hl slots Hs. destruct (Hl slots Hs) as (L & Hsz & Hin). exists L. split; [done|]. intros i r lora Hr Hp.
  destruct (Hm i r Hr) as (r0 & Hr0 & Hpar). apply (Hin i r0); [done|]. by rewrite <- Hpar.
Qed.

Lemma num_open_cons f fs : num_open (f :: fs) = num_open fs + if f.(fl_out).(out_total) >? 0 then 1 else 0.
Proof.
  unfold num_open. rewrite filter_cons. destruct (Z.gtb_spec (out_total (fl_out f)) 0); [rewrite decide_True by lia|rewrite decide_False by lia]; simpl; lia.
Qed.

Lemma update_op results c : SysInv c -> enabled cfg (OpUpdate results) c -> safe (run_op cfg (OpUpdate results)) c (fun _ c' => SysInv c').
Proof.
  intros [H1 Hh Ho H2 H3 H4] (f & fs & Hfs & Hrunner). cbn [run_op]. safe_steps. rewrite Hfs. unfold on_sys. safe_steps. rewrite Hfs in H3, H4, Ho.
  rewrite num_open_cons in Ho. assert (Hpos : 0 <= num_open fs) by (unfold num_open; lia).
  apply (update_from_output_spec cfg f _ _ _ _ ltac:(apply (co_spec _ cfg_good)) ltac:(by apply Forall_cons in H3 as [[] _])
    ltac:(by apply Forall_cons in H3 as [[] _]) H1 Hh Ho); [|by intros i n r Hin Hr; apply (flight_head f fs); [|apply H4|]|done|].
  { intros Ht. rewrite (proj2 (Z.gtb_lt _ _) Ht). lia. }
  intros s' outputs Hi' Hh' Ho' Hreq. safe_steps. split; simpl; [done|done| | |by apply Forall_cons in H3 as [_ ?]|].
  - destruct (out_total (fl_out f) >? 0); [replace (num_open fs) with (num_open fs + 1 - 1) by lia; done|by rewrite Z.add_0_r in Ho'].
  - apply (loras_fit_params c.(sys_state).(requests)); [|done]. intros i r' Hr'. destruct (Hreq i r' Hr') as (r & Hr & Hp). exists r. split; [done|].
    destruct Hp as [[_ ->]|(n & _ & Hs)]; [done|]. destruct Hs as [_ _ -> _ _ _ _ _ _ _ _ _ _ _]. by destruct (drained_fields cfg n r) as (_ & _ & -> & _).
  - intros i r' Hr'. destruct (Hreq i r' Hr') as (r & Hr & Hp). by apply (flight_ok_processed f fs i r); [|apply H4|].
Qed.

(** ** The other operations *)

(** A change of the scheduler that moves tokens in flight only by preemption. *)
Lemma frame_op c s' : SysInv c -> Inv cfg s' [] -> Held s' -> frame c.(sys_state) s' -> SysInv (mkSys s' c.(flights)).
Proof.
  intros [H1 Hh Ho H2 H3 H4] Hi' Hh' Hf. split; simpl; [done|done|by apply Hf|by apply (loras_fit_evolves cfg _ _ (fr_evolves _ _ Hf))|done|].
  intros i r' Hr'. pose proof (fr_acct _ _ Hf i) as Ha. rewrite Hr' in Ha. inversion Ha as [r x Hacct E1 E2|]; subst. symmetry in E1.
  by apply (flight_ok_acct _ _ r); [|apply H4|].
Qed.

Lemma book_add m run qs qs' r :
  Book m run qs -> m !! rid r = None -> r.(key).(qrequest_id) = rid r -> 0 < num_tokens r -> 0 <= r.(num_preemptions) -> waiting_ok r ->
  qs' ≡ₚ r.(key) :: qs -> Book (<[rid r := r]> m) run qs'.
Proof.
  intros [H1 H2 H3 H4 H5] Hr Hk Ht Hp Hw ->.
  assert (Hin : forall i, i ∈ run ++ (qrequest_id <$> qs) -> rid r <> i).
  { intros i [Hi|Hi]%elem_of_app E.
    - destruct (H3 i Hi) as (x & Hx & _). congruence.
    - apply list_elem_of_fmap in Hi as (q & -> & Hq). destruct (H4 q Hq) as (x & Hx & _). congruence. }
  assert (Hperm : run ++ (qrequest_id <$> key r :: qs) ≡ₚ rid r :: run ++ (qrequest_id <$> qs)).
  { rewrite fmap_cons, Hk. symmetry. apply Permutation_middle. }
  split.
  - rewrite Hperm. apply NoDup_cons. split; [|done]. intros Hi. by apply (Hin _ Hi).
  - intros i x Hx. destruct (decide (rid r = i)) as [<-|Hne]; [|rewrite lookup_insert_ne in Hx by done; by apply H2].
    rewrite lookup_insert_eq in Hx. injection Hx as <-. done.
  - intros i Hi. rewrite lookup_insert_ne; [by apply H3|]. apply Hin, elem_of_app. by left.
  - intros q [->|Hq]%elem_of_cons; [exists r; by rewrite Hk, lookup_insert_eq|]. rewrite lookup_insert_ne; [by apply H4|].
    apply Hin, elem_of_app. right. by apply list_elem_of_fmap_2.
  - intros i x Hx. rewrite Hperm. destruct (decide (rid r = i)) as [<-|Hne]; [by left|]. rewrite lookup_insert_ne in Hx by done. right. by apply (H5 i x).
Qed.

(** A new request is not in any step. *)
Lemma flight_ok_new r (fs : list Flight) : new_request cfg r -> Forall (fun f => rid r ∉ (fl_sched f).*1) fs -> Forall flight_wf fs -> flight_ok fs (rid r) r.
Proof.
  intros (_ & _ & _ & N4 & _ & N6 & N7 & _) Hfl Hwf.
  assert (Hz : sum_tokens fs (rid r) = 0 /\ sum_credit fs (rid r) = 0).
  { clear -Hfl. induction Hfl as [|f fs Hf _ [IH1 IH2]]; [done|]. rewrite sum_tokens_cons, sum_credit_cons, IH1, IH2, amount_notin by done.
    unfold fl_credit. by rewrite (bool_decide_false _ Hf), andb_false_r. }
  destruct Hz as [Z1 Z2]. destruct N4 as (Hs & _ & _ & Hph & _). split; [lia| |lia]. exists O. rewrite take_0, drop_0. split_and!; [done|lia|done].
Qed.

Lemma add_op r c : SysInv c -> enabled cfg (OpAdd r) c -> safe (run_op cfg (OpAdd r)) c (fun _ c' => SysInv c').
Proof.
  intros [H1 Hh Ho H2 H3 H4] (Hnew & Hfresh & Hfl & Hloras). pose proof Hnew as (N1 & N2 & N3 & N4 & N5 & N6 & N7 & N8).
  pose proof H1 as [[Hq1 Hq2] Hb Hmx Hst Hlen Hff]. rewrite app_nil_r in Hb.
  cbn [run_op]. unfold on_sys. safe_steps. unfold add_new_request. safe_steps. rewrite Hfresh. set (s := sys_state c) in *.
  assert (Hput : forall P : string -> Req -> Prop, P (rid r) r -> (forall i x, s.(requests) !! i = Some x -> P i x) ->
    forall i x, <[rid r := r]> s.(requests) !! i = Some x -> P i x).
  { intros P HP Hall i x Hx. destruct (decide (rid r = i)) as [<-|Hne]; [rewrite lookup_insert_eq in Hx; by injection Hx as <-|].
    rewrite lookup_insert_ne in Hx by done. by apply (Hall i). }
  assert (Hdone : forall s1, s1.(requests) = s.(requests) -> s1.(running) = s.(running) -> s1.(num_waiting_for_streaming_input) = s.(num_waiting_for_streaming_input) ->
    s1.(caches) = s.(caches) -> queue_inv s1.(waiting) -> queue_inv s1.(skipped_waiting) -> queued s1 ≡ₚ r.(key) :: queued s ->
    SysInv (mkSys (set_requests (fun rs => <[rid r := r]> rs) s1) c.(flights))).
  { intros s1 E1 E2 E3 E4 Q1 Q2 Q3. split; simpl; rewrite ?E1, ?E4; try done.
    - split; simpl; rewrite ?E1, ?E2, ?E3, ?app_nil_r; try done; [by apply (book_add _ _ (queued s))| |].
      + by apply (Hput (fun _ => len_ok cfg)).
      + apply (Hput (fun _ => flight_fine cfg)); [|done]. split_and!; [lia|by intros _; destruct N4 as (_ & _ & _ & ? & _)|]. intros _ Hsp. congruence.
    - destruct Hh as [A1 A2]. split; simpl; rewrite ?E1, ?E4; [done|]. intros i. specialize (A2 i). destruct (decide (rid r = i)) as [<-|Hne].
      + rewrite lookup_insert_eq. rewrite Hfresh in A2. simpl in *. rewrite bool_decide_false by (by destruct N4). done.
      + by rewrite lookup_insert_ne.
    - apply (Hput (flight_ok c.(flights))); [by apply flight_ok_new|done]. }
  destruct (is_blocked_waiting_status _); safe_steps.
  - destruct (ql_add r.(key) _ Hq2) as (q' & Hrun & Hqi & Hqp). eapply safe_eq; [exact Hrun|]. safe_steps. apply Hdone; try done.
    unfold queued. simpl. rewrite Hqp. symmetry. apply Permutation_middle.
  - destruct (ql_add r.(key) _ Hq1) as (q' & Hrun & Hqi & Hqp). eapply safe_eq; [exact Hrun|]. safe_steps. apply Hdone; try done.
    unfold queued. simpl. by rewrite Hqp.
Qed.

Lemma finish_op ids st c : SysInv c -> enabled cfg (OpFinish ids st) c -> safe (run_op cfg (OpFinish ids st)) c (fun _ c' => SysInv c').
Proof.
  intros [H1 Hh Ho H2 H3 H4] [Hnd Hst]. cbn [run_op]. unfold on_sys. safe_steps. apply (finish_requests_spec cfg); [done|done|done|done|].
  intros s' done_ Hi' Hh' Ho' Hm. safe_steps. assert (Hsub : forall i r, s'.(requests) !! i = Some r -> c.(sys_state).(requests) !! i = Some r).
  { intros i r Hr. rewrite Hm in Hr. by apply map_lookup_filter_Some in Hr as [? _]. }
  split; simpl; [done|done|by apply Ho'| |done|intros i r Hr; by apply H4, Hsub]. apply (loras_fit_params c.(sys_state).(requests)); [|done].
  intros i r Hr. exists r. split; [by apply Hsub|done].
Qed.

Lemma drafts_op ds c : SysInv c -> enabled cfg (OpDrafts ds) c -> safe (run_op cfg (OpDrafts ds)) c (fun _ c' => SysInv c').
Proof.
  intros Hc Hen. cbn [run_op]. unfold on_sys. safe_steps. unfold update_draft_token_ids. set (s := c.(sys_state)) in *.
  apply (safe_for_each _ (fun rest s' => (forall x, x ∈ rest -> x ∈ ds) /\ Inv cfg s' [] /\ Held s' /\ frame s s'
    /\ tracks (fun _ r r' => r'.(info) = r.(info) /\ r'.(num_stale_output_tokens) = r.(num_stale_output_tokens)) s.(requests) s'.(requests))).
  - split_and!; [done|apply Hc|apply Hc|done|by apply tracks_refl].
  - intros [i toks] rest s' (Hsub & Hi & Hh & Hf & Htr). assert (Hsub' : forall x, x ∈ rest -> x ∈ ds) by (intros x Hx; apply Hsub; by right).
    safe_steps. destruct (s'.(requests) !! i) as [r|] eqn:Hr; safe_steps; [|done].
    destruct (is_finished _); safe_steps; [done|]. set (l := if is_prefill_chunk r then [] else toks).
    destruct (inv_upd cfg i (set_spec l) s' [] Hi) as [Hi' Hf'].
    { intros x Hx. assert (x = r) as -> by congruence. split; [|by apply acct_same]. split_and!; try done. intros (F1 & F3 & _). split_and!; [done|done|]. intros Has Hsp.
      pose proof (Htr i) as Hti. rewrite Hr in Hti. inversion Hti as [r0 ? [Ei Es] E0|]; subst. simpl. rewrite Ei, Es.
      destruct (Hen Has i toks r0) as [->|?]; [apply Hsub; by left|done| |done]. exfalso. apply Hsp. simpl. subst l. by destruct (is_prefill_chunk r). }
    split_and!; [done|done|by apply held_alter|by transitivity s'|].
    eapply tracks_trans; [|exact Htr|apply tracks_alter_exact]. intros j r1 r2 r3 [A1 A2] [_ ->]. by case_decide.
  - intros s' (_ & Hi & Hh & Hf & _). by apply frame_op.
Qed.

Lemma grammar_op i g c : SysInv c -> safe (run_op cfg (OpGrammar i g)) c (fun _ c' => SysInv c').
Proof.
  intros Hc. cbn [run_op]. unfold on_sys. safe_steps. pose proof (si_inv _ Hc) as Hi.
  destruct (inv_upd cfg i (set_grammar g) c.(sys_state) [] Hi) as [Hi' Hf']; [by intros x _; split; [|by apply acct_same]|].
  apply frame_op; [done|done|by apply held_alter; [apply Hc|]|done].
Qed.

Lemma preempt_running_spec s P :
  Inv cfg s [] -> Held s ->
  (forall s', preempt_running s = (Ok tt, s') -> Inv cfg s' [] -> Held s' -> frame s s' -> P tt s') -> safe (preempt_running) s P.
Proof.
  intros Hi Hh HP. assert (Hsafe : safe preempt_running s (fun _ s' => Inv cfg s' [] /\ Held s' /\ frame s s')).
  { unfold preempt_running. safe_steps. apply (safe_for_each _ (fun rest s' => Inv cfg s' [] /\ Held s' /\ frame s s' /\ s'.(running) = reverse rest)).
    - by rewrite reverse_involutive.
    - intros i rest s' (Hi' & Hh' & Hf' & Hrun). rewrite reverse_cons in Hrun. safe_steps. rewrite Hrun, removelast_last.
      apply (preempt_spec cfg i true _ []).
      + simpl. apply (inv_running_perm cfg (s'.(running))); [rewrite Hrun; symmetry; apply Permutation_cons_append|]. by destruct s', Hi'.
      + by destruct Hh'.
      + intros s2 Hi2 Hh2 Hf2 _ Hrun2 _. split_and!; [done|done| |done]. transitivity s'; [done|]. by destruct Hf2.
    - by intros s' (Hi' & Hh' & Hf' & _). }
  unfold safe in *. destruct (preempt_running s) as [[[]|e] s'] eqn:Hrun; [|done]. destruct Hsafe as (? & ? & ?). by apply HP.
Qed.

Lemma reset_op b c : SysInv c -> enabled cfg (OpReset b) c -> safe (run_op cfg (OpReset b)) c (fun _ c' => SysInv c').
Proof.
  intros Hc Hen. cbn [run_op]. unfold on_sys. safe_steps. unfold reset_prefix_cache. safe_step.
  assert (Hend : forall s1, Inv cfg s1 [] -> Held s1 -> frame c.(sys_state) s1 -> (b = true -> (op_reset_prefix_cache s1.(caches)).1 <> Ok false) ->
    safe (ok <- call op_reset_prefix_cache ;; check (negb b || ok) RuntimeError ;; ret ok) s1
      (fun _ s' => safe (ret tt) (mkSys s' c.(flights)) (fun _ c' => SysInv c'))).
  { intros s1 Hi1 Hh1 Hf1 Hok. safe_step. eapply safe_call; [apply (cl_reset (cfg := cfg)), Hh1|]. intros ok k Hrun Hk. safe_step. apply safe_check.
    - destruct b; [|done]. specialize (Hok eq_refl). rewrite Hrun in Hok. by destruct ok.
    - safe_steps. apply frame_op; [done|by apply inv_set_caches|by apply held_set_caches|]. transitivity s1; [done|by apply frame_set_caches]. }
  destruct b; [|apply safe_ret, Hend; [apply Hc|apply Hc|done|done]]. apply preempt_running_spec; [apply Hc|apply Hc|].
  intros s1 Hrun Hi1 Hh1 Hf1. apply Hend; [done|done|done|]. intros _. by apply Hen.
Qed.

(** ** Every operation *)

Lemma op_spec o c : SysInv c -> enabled cfg o c -> safe (run_op cfg o) c (fun _ c' => SysInv c').
Proof.
  destruct o; intros Hc Hen; [by apply add_op|by apply schedule_op|by apply update_op|by apply finish_op|by apply drafts_op|by apply grammar_op| |by apply reset_op].
  cbn [run_op]. unfold on_sys. safe_steps. destruct Hc as [[] [] Ho H2 H3 H4]. split; [by split|by split|done..].
Qed.

Lemma initial_inv c : initial c -> SysInv c.
Proof.
  intros (E1 & E2 & E3 & E4 & E5 & E6 & E7 & E8 & E9). destruct ql_create as [Q1 Q2]. pose proof (co_running _ cfg_good).
  split; [split|split; [done|by intros i; rewrite E1; apply E8]|..]; unfold queued; rewrite ?E1, ?E2, ?E3, ?E4, ?E5, ?E6, ?Q2; simpl; try done.
  - split; simpl; try done; [constructor| |]; intros x; by intros ?%elem_of_nil.
  - intros slots Hs. exists ∅. rewrite size_empty. split; [by apply (co_loras _ cfg_good)|done].
Qed.

Lemma reachable_inv c : reachable cfg c -> SysInv c.
Proof.
  induction 1 as [c Hc|c o c' _ IH Hen Hrun]; [by apply initial_inv|]. exact (safe_inv _ _ _ _ _ (op_spec o c IH Hen) Hrun).
Qed.

(** ** Theorems *)


(** C8: In every reachable state, [num_in_flight_tokens] of a request is the sum of its
    tokens in the steps in flight, [num_stale_output_tokens] the sum over the oldest of
    them, its placeholders cover what the others may sample, and all its output in
    flight is stale while it waits. *)
Theorem counters_match_flights (c : Sys) i (r : Req) :
  reachable cfg c -> c.(sys_state).(requests) !! i = Some r ->
  r.(info).(num_in_flight_tokens) = sum_tokens c.(flights) i
  /\ (exists k, r.(num_stale_output_tokens) = sum_tokens (take k c.(flights)) i
        /\ (cfg.(async_scheduling) = true -> sum_credit (drop k c.(flights)) i <= r.(num_output_placeholders)))
  /\ 0 <= r.(num_stale_output_tokens) <= r.(info).(num_in_flight_tokens)
  /\ (r.(info).(status) <> RUNNING -> r.(num_stale_output_tokens) = r.(info).(num_in_flight_tokens)).
Proof.
  intros Hc Hr. pose proof (reachable_inv c Hc) as [_ _ _ _ Hwf Hfl]. destruct (Hfl i r Hr) as [F1 (k & F2 & F3 & _) F4].
  split_and!; [done|by exists k| | |by apply F4].
  - rewrite F2. apply sum_tokens_nonneg. by apply Forall_take.
  - assert (sum_tokens c.(flights) i = sum_tokens (take k c.(flights)) i + sum_tokens (drop k c.(flights)) i)
      by (by rewrite <- sum_tokens_app, take_drop).
    pose proof (sum_tokens_nonneg (drop k c.(flights)) i ltac:(by apply Forall_drop)). lia.
Qed.

End system_props.

(** ** A run *)

(** A cache that only counts free slots. *)
#[local] Instance slot_cache : CacheOps Z unit unit := {|
  op_new_step := ret tt;
  op_empty_blocks := tt;
  op_lookup _ := ret (tt, 0, 0);
  op_allocate _ n _ _ _ _ _ _ := fun k => if n <=? k then (Ok (Some tt), k - n) else (Ok None, k);
  op_get_blocks _ _ := tt;
  op_free_blocks r := fun k => (Ok tt, k + r.(info).(num_computed_tokens));
  op_cache_blocks _ _ := ret tt;
  op_try_encoder _ _ n budget := ret ([], n, budget, []);
  op_allocate_encoder _ _ := ret tt;
  op_free_encoder _ := ret tt;
  op_free_encoder_inputs _ := ret tt;
  op_collect _ := ret tt;
  op_process _ := ret tt;
  op_reset_prefix_cache := ret true;
|}.

(** It never raises, and there is nothing to know of it. *)
#[local] Instance slot_raises : Raises := fun _ => False.

#[local] Instance slot_model : CacheModel Z unit := {|
  cache_inv _ := True;
  unused _ _ := True;
  covers _ _ _ := True;
  offers _ _ _ _ := True;
  plans _ _ _ := True;
  steps_open _ _ := True;
  known _ _ _ := True;
|}.

#[local] Instance slot_cache_laws cfg : CacheLaws cfg Z unit unit.
Proof.
  assert (Hs : forall k k' : Z, steady k k') by done. assert (Ht : forall i (k k' : Z), touches i k k') by done.
  split; try done; intros; unfold calls; simpl.
  - match goal with H : req_fine _ _ |- _ => destruct H as [? _] end. split_and!; [done|lia|lia|done].
  - by destruct (_ <=? _).
  - by destruct (_ <=? _).
  - split_and!; [done|done|done|lia|by left|constructor].
Qed.

Definition demo_cfg (slots : option Z) (async : bool) : SchedConfig :=
  mkSchedConfig false async 4 8 8 16 1 0 true false 0 0 0 0 None slots 8 false false false 1 1 false false false 1.

Definition demo_req (i : string) (t : Z) (prompt : list Z) (lora : option Z) : Req :=
  mkReq (mkReqInfo i WAITING (Z.of_nat (length prompt)) 0 0 0) (mkQRequest 0 t i t)
    (mkReqParams 8 0 None [] None false lora []) prompt [] [] 0 0 false 0 false 0 None true.

Definition demo_start (slots : Z) : Sys Z unit unit FCFSRequestQueue :=
  mkSys (mkState ∅ [] create_request_queue create_request_queue slots 0 0 false UNPAUSED ∅ ∅ ∅ ∅ []) [].

Lemma demo_cfg_ok slots async : (forall m, slots = Some m -> 0 <= m) -> cfg_ok (demo_cfg slots async).
Proof. intros Hs. split; simpl; try done; lia. Qed.

Lemma demo_enabled_add cfg i t prompt (c : Sys Z unit unit FCFSRequestQueue) :
  cfg.(max_loras) = None -> (0 < length prompt)%nat -> Z.of_nat (length prompt) <= cfg.(max_model_len) ->
  c.(sys_state).(requests) !! i = None -> c.(flights) = [] ->
  enabled cfg (OpAdd (demo_req i t prompt None)) c.
Proof.
  intros Hl Hp Hlen Hfresh Hfl. split_and!; [|done|by rewrite Hfl|by intros slots; rewrite Hl].
  unfold new_request, waiting_ok, len_ok, num_tokens, num_output_tokens. simpl. split_and!; done || lia.
Qed.

(** Two requests, the second preempted while its output is in flight. *)
Definition demo1 : Sys Z unit unit FCFSRequestQueue := (run_op (demo_cfg None true) (OpAdd (demo_req "a" 1 [5; 6; 7] None)) (demo_start 6)).2.
Definition demo2 : Sys Z unit unit FCFSRequestQueue := (run_op (demo_cfg None true) (OpAdd (demo_req "b" 2 [8; 9] None)) demo1).2.
Definition demo3 : Sys Z unit unit FCFSRequestQueue := (run_op (demo_cfg None true) (OpSchedule false) demo2).2.
Definition demo4 : Sys Z unit unit FCFSRequestQueue := (run_op (demo_cfg None true) (OpSchedule false) demo3).2.

Lemma demo_reachable : reachable (demo_cfg None true) demo3 /\ reachable (demo_cfg None true) demo4.
Proof.
  assert (H3 : reachable (demo_cfg None true) demo3).
  { apply reach_next; [|done|by vm_compute]. apply reach_next; [|by apply demo_enabled_add; [|simpl; lia..| |]; vm_compute|by vm_compute].
    apply reach_next; [by apply reach_init|by apply demo_enabled_add; [|simpl; lia..| |]; vm_compute|by vm_compute]. }
  split; [done|]. apply reach_next; [done|done|by vm_compute].
Qed.

Lemma demo4_flights : exists f fs, demo4.(flights) = f :: fs /\ fl_sched f = [("a", 3); ("b", 2)]
  /\ f.(fl_out).(out_spec_decode_tokens) = [] /\ f.(fl_chunks) = ∅.
Proof.
  assert (Hf : (fun f => (fl_sched f, f.(fl_out).(out_spec_decode_tokens), elements f.(fl_chunks))) <$> demo4.(flights)
    = [([("a", 3); ("b", 2)], [], []); ([("a", 1)], [], [])]) by (by vm_compute).
  destruct (flights demo4) as [|f fs]; [done|]. rewrite fmap_cons in Hf. injection Hf as H1 H2 H3 _. exists f, fs. split_and!; try done.
  by apply elements_empty_inv, leibniz_equiv in H3.
Qed.

Lemma demo_fits (f : Flight (B := unit) (X := unit)) i t :
  f.(fl_out).(out_spec_decode_tokens) = [] -> f.(fl_chunks) = ∅ ->
  fits (demo_cfg None true) (cap (demo_cfg None true) f i) (default [] (dict_get f.(fl_out).(out_spec_decode_tokens) i)) [t].
Proof. intros Hsp Hc. left. unfold cap. rewrite Hsp, Hc, bool_decide_false by apply not_elem_of_empty. done. Qed.

Lemma demo4_pooling i r : demo4.(sys_state).(requests) !! i = Some r -> r.(params).(pooling) = false.
Proof.
  assert (Hall : map_to_list (pooling ∘ params <$> demo4.(sys_state).(requests)) = [("a", false); ("b", false)]) by (by vm_compute).
  intros Hr. assert (Hp : (pooling ∘ params <$> demo4.(sys_state).(requests)) !! i = Some (r.(params).(pooling))) by (by rewrite lookup_fmap, Hr).
  apply elem_of_map_to_list in Hp. rewrite Hall in Hp. clear -Hp.
  apply elem_of_cons in Hp as [[= _ ->]|Hp%list_elem_of_singleton]; [done|by injection Hp].
Qed.


Lemma counters_match_flights_witness : exists r, demo4.(sys_state).(requests) !! "b" = Some r /\ r.(num_stale_output_tokens) = 2
  /\ r.(num_stale_output_tokens) = r.(info).(num_in_flight_tokens).
Proof.
  assert (Hb : (fun r => (r.(num_stale_output_tokens), r.(info).(status))) <$> demo4.(sys_state).(requests) !! "b" = Some (2, PREEMPTED)) by (by vm_compute).
  destruct (demo4.(sys_state).(requests) !! "b") as [r|] eqn:Hr; [|done]. injection Hb as H1 H2. exists r. split_and!; [done|done|].
  destruct (counters_match_flights (Q := FCFSRequestQueue) (demo_cfg None true) (demo_cfg_ok None true ltac:(done)) demo4 "b" r (proj2 demo_reachable) Hr) as (_ & _ & _ & Hw).
  apply Hw. by rewrite H2.
Defined.


Lemma demo3_inv : SysInv (demo_cfg None true) demo3.
Proof. exact (reachable_inv (Q := FCFSRequestQueue) _ (demo_cfg_ok None true ltac:(done)) _ (proj1 demo_reachable)). Qed.

Lemma schedule_meets_contract_witness : exists out s', schedule (demo_cfg None true) false demo3.(sys_state) = (Ok out, s')
  /\ out.(out_num_scheduled_tokens) = [("a", 1)] /\ out.(out_preempted) = {["b"]} /\ step_ok (demo_cfg None true) demo3.(sys_state) s' out.
Proof.
  pose proof (schedule_meets_contract (Q := FCFSRequestQueue) (demo_cfg None true) (demo_cfg_ok None true ltac:(done)) false demo3.(sys_state)
    (si_inv (Q := FCFSRequestQueue) _ _ demo3_inv) (si_held (Q := FCFSRequestQueue) _ _ demo3_inv) ltac:(done)) as Hok.
  assert (Hrun : rbind (schedule (demo_cfg None true) false demo3.(sys_state)).1
    (fun out => Ok (out.(out_num_scheduled_tokens), elements out.(out_preempted))) = Ok ([("a", 1)], ["b"])) by (by vm_compute).
  destruct (schedule (demo_cfg None true) false (sys_state demo3)) as [[out|e] s']; [|done]. simpl in Hrun. injection Hrun as H1 H2.
  exists out, s'. split_and!; [done|done| |done]. apply leibniz_equiv. intros x. rewrite <- elem_of_elements, H2. set_solver.
Defined.

(** ** More adapters than slots *)

(** One adapter slot; request [a] with adapter 1 is in the middle of its prompt. *)
Definition lora_ops : list Op :=
  [ OpAdd (demo_req "c" 1 [5] None); OpAdd (demo_req "a" 2 [1; 2; 3; 4; 5; 6; 7; 8; 9] (Some 1)); OpSchedule false;
    OpUpdate [("c", mkRunnerResult [7] false false); ("a", mkRunnerResult [] false false)];
    OpAdd (demo_req "b" 3 [9] (Some 2)); OpSchedule true;
    OpUpdate [("c", mkRunnerResult [7] false false); ("b", mkRunnerResult [8] false false)] ].

(** The check of the adapter slots at admission counts the requests scheduled in the
    current step only.  With one slot, a step that defers the prompt of a request with
    one adapter admits a request with another, and the next step schedules both and fails
    the assertion on [max_loras]. *)
Theorem lora_assertion_can_fail :
  let cfg := demo_cfg (Some 1) false in
  let c := (run_ops cfg lora_ops (demo_start 64)).2 in
  (run_ops cfg lora_ops (demo_start 64)).1 = Ok tt
  /\ map (fun r => r.(params).(lora_int_id)) (omap (fun i => c.(sys_state).(requests) !! i) c.(sys_state).(running)) = [None; Some 1; Some 2]
  /\ (schedule cfg false c.(sys_state)).1 = Raise AssertionError.
Proof. vm_compute. done. Qed.
