(* ===== verification/SchedulerKV.v ===== *)
(** * The scheduler over the KV cache and the encoder cache

    [SchedulerSystem] is about the scheduler and any caches that keep the contract
    [CacheLaws].  Here the caches are the modelled ones: the KV-cache manager over the
    block pool with the scheduler's fences ([SchedBlocks], [Admission]) and the encoder
    cache ([EncoderCache]).  They keep the contract, so the theorems of the scheduler hold
    of the whole, and those of the caches hold along every run of the scheduler. *)

From S2P Require Import Prelude FreeQueue BlockHash BlockPool BlockPoolProps KVManager KVCoordinator CacheHit KVManagerProps KVCoordinatorProps CacheHitProps KVSystem SchedBlocks Admission EncoderCache EncoderProps RequestQueue Scheduler SchedulerProps SchedulerStep StopCheck SchedulerOutput SchedulerSystem.

(** ** The caches of a scheduler *)

(** The settings of the caches, and of every request, by its id, the attributes that the
    scheduler does not look at: those that are hashed, the features of the encoder,
    whether it reads the prefix cache and how it reports hits. *)
Record Setup := mkSetup {
  su_sha256 : bytes -> bytes;
  su_use_int : bool;
  su_set_order : gset bytes -> list bytes;
  su_hash_function : bytes * list Z * option (list ExtraKey) -> bytes;
  su_none_hash : bytes;
  su_hash_block_size : Z;
  su_attributes : string -> Request;
  su_kv : KVConfig;
  su_coordinator : Coordinator;
  su_spec_block_sizes : list Z;
  su_skips_cache : string -> bool;
  su_full_report : string -> bool;
  su_defer : bool;
  su_features : string -> list EncoderCache.Feature;
  su_content_size : string -> Z;                 (* embeddings of a content hash *)
  su_ids_order : gset nat -> list nat;
  su_disable_chunked : bool;
}.

Record Caches := mkCaches {
  blocks_of_sched : Sched BlockPool;
  encoder : EncoderCache;
}.

Definition pool (k : Caches) : BlockPool := k.(blocks_of_sched).(kv).1.
Definition managers (k : Caches) : list Manager := k.(blocks_of_sched).(kv).2.

Definition set_sched (s : Sched BlockPool) (k : Caches) : Caches := mkCaches s k.(encoder).
Definition set_encoder_cache (e : EncoderCache) (k : Caches) : Caches := mkCaches k.(blocks_of_sched) e.

Definition on_sched {A : Type} (m : M (Sched BlockPool) A) : M Caches A := zoom blocks_of_sched set_sched m.
Definition on_encoder {A : Type} (m : M EncoderCache A) : M Caches A := zoom encoder set_encoder_cache m.

Section operations.
Variables (cfg : SchedConfig) (u : Setup).

#[local] Instance caches_pool : PoolOps BlockPool := block_pool_ops u.(su_sha256) u.(su_use_int) u.(su_set_order).

(** The hashing side of a request: the hashes of all its full blocks, which
    [append_output_token_ids] keeps up to date. *)
Definition hash_request (r : Req) : Request :=
  let q := set_all_token_ids r.(all_token_ids) (u.(su_attributes) (rid r)) in
  set_block_hashes (ref_chain u.(su_sha256) u.(su_hash_function) u.(su_none_hash) q u.(su_hash_block_size)
                      (Z.to_nat (num_tokens r / u.(su_hash_block_size)))) q.

Definition enc_request (r : Req) : EncRequest := mkEncRequest (rid r) (u.(su_features) (rid r)).

(** An operation of the KV-cache manager on a request. *)
Definition with_request_of {A : Type} (r : Req) (m : M (BlockPool * list Manager * Request) A) : M (BlockPool * list Manager) A :=
  fun x => let '(o, (x', _)) := m (x, hash_request r) in (o, x').

Definition lookup_blocks (r : Req) : M Caches (KVCacheBlocks * Z * Z) :=
  on_sched (on_kv (fun x =>
    match get_computed_blocks u.(su_sha256) u.(su_use_int) u.(su_kv) (S (Z.to_nat (num_tokens r))) u.(su_coordinator)
            u.(su_spec_block_sizes) (u.(su_skips_cache) (rid r)) (u.(su_full_report) (rid r)) (x.1, hash_request r) with
    | None => (Raise StopIteration, x)
    | Some (o, (p, _)) => (o, (p, x.2))
    end)).

Definition allocate_blocks (r : Req) (new computed : Z) (b : option KVCacheBlocks) (lookahead : Z) (full has_running : bool)
    : M Caches (option KVCacheBlocks) :=
  on_sched (on_kv (with_request_of r
    (allocate_slots u.(su_kv) r.(info) new computed (default EmptyBlocks b) lookahead 0 false full 0 has_running))).

Definition plan_inputs_of (r : Req) (nc n budget : Z) : M Caches (list nat * Z * Z * list nat) :=
  pl <- on_encoder (try_schedule_encoder_inputs false u.(su_disable_chunked) (fun _ => false) (enc_request r) nc n budget
                      cfg.(num_prefill_lookahead)) ;;
  ret (pl.(encoder_inputs_to_schedule), pl.(num_new_tokens), pl.(encoder_compute_budget), pl.(external_load_encoder_input)).

(** What the end of [schedule] takes along: the copies, the encoder outputs to drop, the
    blocks to zero. *)
Definition collect (scheduled : list (string * Z)) : M Caches (list (nat * nat) * list string * list nat) :=
  copies <- on_sched (hand_over_copies u.(su_defer)) ;;
  hashes <- on_encoder get_freed_mm_hashes ;;
  ids <- on_sched (on_kv kv_take_new_block_ids) ;;
  on_sched (advance_step u.(su_defer) scheduled) ;;
  ret (copies, hashes, ids).

Definition reset_cache : M Caches bool :=
  on_sched (on_kv (zoom fst (fun p x => (p, x.2)) BlockPool.reset_prefix_cache)).

Definition caches_ops : CacheOps Caches KVCacheBlocks (list (nat * nat) * list string * list nat) := {|
  op_new_step := ret tt;
  op_empty_blocks := EmptyBlocks;
  op_lookup := lookup_blocks;
  Scheduler.op_allocate r new computed b lookahead _ full has_running := allocate_blocks r new computed b lookahead full has_running;
  op_get_blocks i k := create_kv_cache_blocks ((fun m => default [] (m.(req_to_blocks) !! i)) <$> managers k);
  op_free_blocks r := on_sched (if is_finished r.(info).(status) then sched_free_blocks u.(su_defer) (rid r)
                                else free_request_blocks u.(su_defer) (rid r));
  op_cache_blocks r n := on_sched (on_kv (with_request_of r (kv_cache_blocks u.(su_kv) r.(info) n)));
  op_try_encoder := plan_inputs_of;
  op_allocate_encoder r j := on_encoder (allocate (enc_request r) j);
  op_free_encoder r := on_encoder (enc_free u.(su_ids_order) (enc_request r));
  op_free_encoder_inputs r := on_encoder (free_encoder_inputs u.(su_ids_order) false (enc_request r)
    r.(info).(num_computed_tokens) r.(num_output_placeholders) cfg.(num_prefill_lookahead));
  op_collect := collect;
  op_process total := on_sched (process_step u.(su_defer) total);
  op_reset_prefix_cache := reset_cache;
|}.
End operations.

(** ** Why they keep the contract *)

(** What the settings have to satisfy: groups that fit the coordinator when prefix
    caching is on, features in the order of the prompt whose sizes depend on their content
    only. *)
Record setup_ok (cfg : SchedConfig) (u : Setup) : Prop := {
  so_order : forall x, u.(su_set_order) x ≡ₚ elements x;
  so_ids_order : forall x, u.(su_ids_order) x ≡ₚ elements x;
  so_model : u.(su_kv).(KVCoordinator.max_model_len) = cfg.(max_model_len);
  so_watermark : 0 <= u.(su_kv).(watermark_blocks);
  so_lookahead : 0 <= cfg.(num_lookahead_tokens) /\ 0 <= cfg.(num_prefill_lookahead);
  so_groups : u.(su_kv).(kv_enable_caching) = true -> groups_ok u.(su_hash_block_size) (groups_of u.(su_coordinator));
  so_features : forall i, in_order (u.(su_features) i);
  so_content : forall i f, f ∈ u.(su_features) i -> get_num_embeds f.(mm_position) = u.(su_content_size) f.(identifier);
  so_sizes : forall h, 0 <= u.(su_content_size) h;
}.

(** The pool hashes blocks of the size the requests do; reused blocks are not reported. *)
Definition pool_fits (u : Setup) (p : BlockPool) : Prop :=
  p.(hash_block_size) = u.(su_hash_block_size) /\ forall i, p.(enable_kv_cache_events) && u.(su_full_report) i = false.

Lemma pool_fits_cfg u p p' : same_cfg p p' -> pool_fits u p -> pool_fits u p'.
Proof. intros [_ _ E1 E2]. unfold pool_fits. by rewrite E1, E2. Qed.

(** The contents of a request's features. *)
Definition contents (u : Setup) (i : string) : list string := EncoderCache.identifier <$> u.(su_features) i.

(** The encoder inputs [ids] of a request are new, distinct and fit. *)
Record room_for (u : Setup) (e : EncoderCache) (i : string) (ids : list nat) : Prop := {
  rf_valid : Forall (fun j => is_Some (u.(su_features) i !! j)) ids;
  rf_new : Forall (fun h => e.(cached) !! h = None) (ident (mkEncRequest i (u.(su_features) i)) <$> ids);
  rf_nodup : NoDup (ident (mkEncRequest i (u.(su_features) i)) <$> ids);
  rf_room : zsum (u.(su_content_size) <$> (ident (mkEncRequest i (u.(su_features) i)) <$> ids)) <= e.(num_free_slots);
}.

Section contract.
Variables (cfg : SchedConfig) (u : Setup).
Hypothesis good : setup_ok cfg u.

#[local] Instance contract_pool : PoolOps BlockPool := caches_pool u.
#[local] Instance contract_laws : PoolLaws BlockPool :=
  block_pool_laws u.(su_sha256) u.(su_use_int) u.(su_set_order) (so_order _ _ good) (pool_fits u) (pool_fits_cfg u).
#[local] Instance contract_ops : CacheOps Caches KVCacheBlocks (list (nat * nat) * list string * list nat) := caches_ops cfg u.

(** Exceptions come from the registration of blocks in the prefix cache only. *)
#[local] Instance caches_raise : Raises := fun e =>
  u.(su_kv).(kv_enable_caching) = true
  /\ exists rq n s, (coord_cache_blocks (P := BlockPool) u.(su_kv) rq n s).1 = Raise e.

#[local] Instance caches_model : CacheModel Caches KVCacheBlocks := {|
  cache_inv k := SchedInv k.(blocks_of_sched)
    /\ (u.(su_kv).(kv_enable_caching) = true -> group_managers (groups_of u.(su_coordinator)) (managers k))
    /\ EncInv u.(su_content_size) (contents u) k.(encoder);
  unused k i := Forall (no_record i) (managers k);
  covers k i n := Forall (running_ok i n) (managers k);
  offers k i b n := offer_ok true i n 0 b (pool k) (managers k);
  plans k := room_for u k.(encoder);
  steps_open k n := u.(su_defer) = true -> k.(blocks_of_sched).(sched_step_seq) - k.(blocks_of_sched).(processed_step_seq) = n;
  known i p np := p.(encoder_embeds) = (fun f => get_num_embeds f.(mm_position)) <$> u.(su_features) i
    /\ forall f, f ∈ u.(su_features) i -> f.(mm_position).(offset) < np;
|}.

Implicit Types (k : Caches) (i j : string) (r : Req).

(** *** Steps of the block side *)

Lemma only_no_record i j m m' : only_req i m m' -> j <> i -> no_record j m -> no_record j m'.
Proof.
  intros Ho Hne [Ht Hc]. split; [by rewrite (or_other i m m')|]. rewrite <- Hc, <- (lookup_delete_ne m'.(num_cached_block) i j) by done.
  by rewrite (or_cached _ _ _ Ho), lookup_delete_ne.
Qed.

Lemma only_running_ok i j n m m' : only_req i m m' -> j <> i -> running_ok j n m -> running_ok j n m'.
Proof. intros Ho Hne. unfold running_ok. by rewrite (or_block_size _ _ _ Ho), (or_other i m m'). Qed.

Lemma Forall_moved (P P' : Manager -> Prop) (R : Manager -> Manager -> Prop) ms ms' :
  Forall2 R ms ms' -> (forall m m', R m m' -> P m -> P' m') -> Forall P ms -> Forall P' ms'.
Proof. induction 1 as [|m m' ms ms' Hm _ IH]; intros HR HP; [done|]. apply Forall_cons in HP as [? ?]. constructor; eauto. Qed.

Lemma groups_kept c ms ms' :
  Forall2 (fun m m' => mgr_cfg m' = mgr_cfg m) ms ms' -> group_managers c ms -> group_managers c ms'.
Proof.
  intros Hm [Hl Hg]. split; [by rewrite <- (Forall2_length _ _ _ Hm)|]. intros g gid m' Hgr Hgid Hm'.
  destruct (Forall2_lookup_r _ _ _ _ _ Hm Hm') as (m & Hgm & E). destruct (Hg g gid m Hgr Hgid Hgm) as (E1 & E2 & E3).
  unfold mgr_cfg in E. by simplify_eq/=; split_and!; congruence.
Qed.

(** An operation that concerns the blocks of [i]. *)
Lemma touches_sched i k (s : Sched BlockPool) :
  cache_inv k -> SchedInv s -> Forall2 (only_req i) (managers k) s.(kv).2 ->
  s.(sched_step_seq) = k.(blocks_of_sched).(sched_step_seq) -> s.(processed_step_seq) = k.(blocks_of_sched).(processed_step_seq) ->
  touches i k (set_sched s k).
Proof.
  intros (Hs & Hg & He) Hs' Hm E1 E2. split; simpl; [split_and!; [done| |done]|..]; try done.
  - intros Hca. eapply groups_kept; [|by apply Hg]. eapply Forall2_impl; [exact Hm|]. by intros m m' [].
  - intros j Hne. apply (Forall_moved _ _ _ _ _ Hm). intros m m' Ho. by apply (only_no_record i).
  - intros j n Hne. apply (Forall_moved _ _ _ _ _ Hm). intros m m' Ho. by apply (only_running_ok i).
  - intros n. by rewrite E1, E2.
Qed.

(** An operation that leaves the records of all requests alone. *)
Lemma same_records_kept k (s : Sched BlockPool) :
  cache_inv k -> SchedInv s -> Forall2 same_records (managers k) s.(kv).2 ->
  let k' := set_sched s k in
  cache_inv k' /\ (forall i, unused k i -> unused k' i) /\ (forall i n, covers k i n -> covers k' i n).
Proof.
  intros (Hs & Hg & He) Hs' Hm. simpl. split_and!; [done| |done|..].
  - intros Hca. eapply groups_kept; [|by apply Hg]. eapply Forall2_impl; [exact Hm|]. by intros m m' [].
  - intros i. apply (Forall_moved _ _ _ _ _ Hm). unfold no_record, tbl. by intros m m' (_ & -> & ->).
  - intros i n. apply (Forall_moved _ _ _ _ _ Hm). unfold running_ok, tbl. intros m m' (E & -> & _). unfold mgr_cfg in E. by simplify_eq/=; congruence.
Qed.

Lemma steady_encoder k (e : EncoderCache) :
  cache_inv k -> EncInv u.(su_content_size) (contents u) e -> steady k (set_encoder_cache e k).
Proof. by intros (Hs & Hg & _) He. Qed.

Lemma set_sched_same k : set_sched k.(blocks_of_sched) k = k.
Proof. by destruct k. Qed.

Lemma cache_pool k : cache_inv k -> exists l, PoolInv (pool k) l /\ pool_fits u (pool k).
Proof. intros (Hs & _). exact (ac_inv _ _ (kv_accounts _ _ (si_kv _ Hs))). Qed.
(** *** The lookup *)

Lemma hash_lookup_ok k r :
  cache_inv k -> u.(su_kv).(kv_enable_caching) = true -> 0 < Scheduler.num_tokens r ->
  lookup_ok (pool k) (hash_request u r) (groups_of u.(su_coordinator)).
Proof.
  intros Hk Hca Hn. destruct (cache_pool k Hk) as (l & _ & Hh & _). pose proof (so_groups _ _ good Hca) as Hg.
  split; [done| |by rewrite Hh]. rewrite Hh. simpl. rewrite ref_chain_length.
  pose proof (go_hbs _ _ Hg). change (BlockHash.num_tokens _) with (Scheduler.num_tokens r).
  rewrite Z2Nat.id; [done|]. apply Z.div_pos; lia.
Qed.

Lemma no_hit_offer k i :
  cache_inv k -> unused k i -> offers k i EmptyBlocks 0.
Proof.
  intros (Hs & _) Hu. pose proof (kv_wf _ _ (si_kv _ Hs)) as Hw. fold (managers k) in Hw. simpl. unfold fresh_all. simpl in Hu. clear Hs.
  induction Hu as [|m ms [Ht Hc] _ IH]; [constructor|]. apply Forall_cons in Hw as [Hm Hw]. simpl. constructor; [|by apply IH].
  pose proof (mw_block_size _ Hm). split; [done|done| |constructor|by right|by rewrite Z.mod_0_l by lia].
  simpl. by rewrite cdiv_exact, Z.div_0_l by (try lia; by rewrite Z.mod_0_l by lia).
Qed.

Lemma common_bounds hbs c mx cols L :
  groups_ok hbs c -> common hbs c mx cols L -> 0 <= L <= mx /\ (cache_hit_alignment_tokens hbs c | L).
Proof.
  intros Hg [Hle Hc]. destruct (attention_groups c) as [|g gs] eqn:Hgs; [by destruct (go_groups _ _ Hg)|].
  destruct (Hc g) as (H0 & Hal & _); [by left|done].
Qed.

Lemma lookup_law r k :
  cache_inv k -> unused k (rid r) -> req_fine cfg r ->
  calls (op_lookup r) k (fun x k' => steady k k' /\ 0 <= x.1.2 <= Scheduler.num_tokens r - 1 /\ offers k' (rid r) x.1.1 x.1.2).
Proof.
  intros Hk Hu [Hn _]. destruct (cache_pool k Hk) as (l & Hp & _ & Hev).
  assert (Hsame : set_sched (set_kv (pool k, managers k) k.(blocks_of_sched)) k = k) by (by destruct k as [[[] ? ? ? ?] ?]).
  unfold calls, op_lookup, contract_ops, caches_ops, lookup_blocks, on_sched, on_kv, zoom. fold (pool k) (managers k).
  destruct (prefix_cache_lookup_enabled u.(su_kv) (u.(su_skips_cache) (rid r))) eqn:Hon.
  - apply andb_true_iff in Hon as [Hca ->%negb_true_iff]. pose proof (hash_lookup_ok k r Hk Hca ltac:(lia)) as Hl.
    destruct (get_computed_blocks_spec u.(su_sha256) u.(su_use_int) u.(su_kv) (S (Z.to_nat (Scheduler.num_tokens r))) u.(su_coordinator)
      u.(su_spec_block_sizes) (u.(su_full_report) (rid r)) (pool k) l (hash_request u r) Hp Hl Hca (Hev _)) as (bss & L & bd & -> & Hlen & Hv & Hcom & _ & Hx).
    { change (BlockHash.num_tokens (hash_request u r)) with (Scheduler.num_tokens r). lia. }
    rewrite Hsame. destruct (common_bounds _ _ _ _ _ (lo_static _ _ _ Hl) Hcom) as [HL Hal].
    split_and!; [by apply steady_refl|apply HL|apply HL|]. 
    exact (hit_offer _ _ _ (pool k) _ _ _ (managers k) L bss Hl (conj (proj1 (proj2 Hk) Hca) Hu) Hlen (proj1 HL) Hal Hv Hx).
  - unfold get_computed_blocks. rewrite Hon. simpl. rewrite Hsame.
    split_and!; [by apply steady_refl|done|lia|by apply no_hit_offer].
Qed.
(** *** Allocation *)

Lemma allocate_args r new computed n :
  req_fine cfg r -> 0 <= r.(info).(num_computed_tokens) -> 0 <= computed -> 0 < new ->
  r.(info).(num_computed_tokens) + computed + new <= cfg.(max_model_len) -> n = cfg.(num_lookahead_tokens) ->
  slots_args u.(su_kv) r.(info) new computed n 0 0.
Proof.
  intros (_ & [Hp _] & Hf & _) Hc Hn Hnew Hm ->. destruct (so_lookahead _ _ good). pose proof (so_watermark _ _ good).
  split; rewrite ?(so_model _ _ good); lia.
Qed.

(** What a grant means for the request and the others. *)
Lemma granted_covers r fresh new computed b F ms ms' :
  Forall mgr_wf ms -> length (blocks_of (length ms) b) = length ms ->
  0 <= cfg.(num_lookahead_tokens) -> r.(info).(num_computed_tokens) + computed + new <= cfg.(max_model_len) ->
  all_granted u.(su_kv) r.(info) fresh new computed cfg.(num_lookahead_tokens) 0 b F ms ms' ->
  Forall2 (only_req (rid r)) ms ms' /\ Forall (running_ok (rid r) (r.(info).(num_computed_tokens) + computed + new)) ms'.
Proof.
  intros Hw Hlb Hla Hle [Hl Hall].
  assert (Hboth : Forall2 (fun m m' => only_req (rid r) m m' /\ running_ok (rid r) (r.(info).(num_computed_tokens) + computed + new) m') ms ms').
  { apply pointwise_Forall2; [done|]. intros gid m m' Hm Hm'.
    destruct (lookup_lt_is_Some_2 (blocks_of (length ms) b) gid) as [cb Hcb]; [rewrite Hlb; by eapply lookup_lt_Some|].
    specialize (Hall gid m cb m' Hm Hcb Hm'). pose proof (mw_block_size _ (proj1 (Forall_lookup _ _) Hw _ _ Hm)) as Hb.
    assert (Hg : only_req (rid r) m m' /\ cdiv (slots_needed u.(su_kv) r.(info) new computed cfg.(num_lookahead_tokens) 0) m.(block_size)
                   <= Z.of_nat (length (tbl m' (rid r)))) by (destruct fresh; destruct Hall as (? & ? & _); by split).
    destruct Hg as [Ho Hc]. split; [done|]. unfold running_ok. rewrite (or_block_size _ _ _ Ho).
    unfold slots_needed, local_tokens in Hc. rewrite (so_model _ _ good) in Hc. destruct (cdiv_spec (Z.min (r.(info).(num_computed_tokens) + computed + 0 + new + cfg.(num_lookahead_tokens)) cfg.(max_model_len)) _ Hb). nia. }
  split; [eapply Forall2_impl; [exact Hboth|]; by intros m m' [? _]|]. clear -Hboth. induction Hboth as [|m m' ms ms' [_ ?] _ IH]; by constructor.
Qed.

Lemma refused_only r processed np ms ms' :
  Forall2 (window_kept (rid r) processed np) ms ms' ->
  Forall2 (only_req (rid r)) ms ms' /\ (Forall (no_record (rid r)) ms -> Forall (no_record (rid r)) ms')
  /\ forall n, Forall (running_ok (rid r) n) ms -> Forall (running_ok (rid r) n) ms'.
Proof.
  intros Hw. split_and!.
  - eapply Forall2_impl; [exact Hw|]. by intros m m' [? _].
  - apply (Forall_moved _ _ _ _ _ Hw). intros m m' (_ & Hc & _ & Hl & _) [Ht Hn]. split; [|by rewrite Hc].
    apply nil_length_inv. by rewrite Hl, Ht.
  - intros n. apply (Forall_moved _ _ _ _ _ Hw). intros m m' (Ho & _ & _ & Hl & _). unfold running_ok. by rewrite (or_block_size _ _ _ Ho), Hl.
Qed.

Lemma allocate_law r k fresh new computed b full has_running :
  cache_inv k -> req_fine cfg r -> 0 <= r.(info).(num_computed_tokens) -> 0 <= computed -> 0 < new ->
  r.(info).(num_computed_tokens) + computed + new <= cfg.(max_model_len) ->
  offer_ok fresh (rid r) (r.(info).(num_computed_tokens) + computed) 0 b (pool k) (managers k) ->
  calls (allocate_blocks u r new computed (Some b) cfg.(num_lookahead_tokens) full has_running) k (fun o k' =>
    touches (rid r) k k'
    /\ match o with
       | Some _ => covers k' (rid r) (r.(info).(num_computed_tokens) + computed + new)
       | None => (unused k (rid r) -> unused k' (rid r)) /\ forall n, covers k (rid r) n -> covers k' (rid r) n
       end).
Proof.
  intros Hk Hr Hc Hn Hnew Hle Hof. pose proof (si_kv _ (proj1 Hk)) as Hi. pose proof (kv_wf _ _ Hi) as Hw. fold (managers k) in Hw.
  assert (Hlb : length (blocks_of (length (managers k)) b) = length (managers k)).
  { destruct fresh; [by rewrite <- (Forall2_length _ _ _ Hof)|]. destruct Hof as (-> & _). apply length_replicate. }
  replace (blocks_of_sched k).(kv) with (pool k, managers k) in Hi by (by destruct k as [[[] ? ? ? ?] ?]).
  destruct (allocate_slots_spec u.(su_kv) r.(info) fresh new computed b cfg.(num_lookahead_tokens) 0 false full 0 has_running (pool k) (managers k)
    (hash_request u r) _ Hi (allocate_args _ _ _ _ Hr Hc Hn Hnew Hle eq_refl) Hof) as (o & p' & ms' & r' & Hrun & Hi' & Hout & _).
  unfold calls, allocate_blocks, on_sched, on_kv, zoom, with_request_of. simpl default.
  replace (blocks_of_sched k).(kv) with (pool k, managers k) by (by destruct k as [[[] ? ? ? ?] ?]).
  unfold contract_pool in Hrun. rewrite Hrun.
  assert (Ht : Forall2 (only_req (rid r)) (managers k) ms' -> touches (rid r) k (set_sched (set_kv (p', ms') (blocks_of_sched k)) k)).
  { intros Ho. apply touches_sched; [done|by apply set_kv_inv; [apply Hk|]|done|done|done]. }
  destruct o as [[nb|]|e].
  - destruct (granted_covers r fresh new computed b _ _ _ Hw Hlb (proj1 (so_lookahead _ _ good)) Hle Hout) as [Ho Hcov]. by split; [apply Ht|].
  - destruct (refused_only r _ _ _ _ Hout) as (Ho & H1 & H2). by split; [apply Ht|split].
  - destruct Hout as (Hca & _ & (n & s & He) & _). split; [done|]. by exists r.(info), n, s.
Qed.
(** *** Release and registration *)

Lemma free_law r k : cache_inv k -> calls (op_free_blocks r) k (fun _ k' => touches (rid r) k k' /\ unused k' (rid r)).
Proof.
  intros Hk. destruct (free_request_spec u.(su_defer) (rid r) _ (proj1 Hk)) as (s1 & Hrun & Hi1 & Hrel & Hp & Hs & _).
  assert (Hdone : forall s', SchedInv s' -> s'.(kv) = s1.(kv) -> s'.(sched_step_seq) = s1.(sched_step_seq) ->
    s'.(processed_step_seq) = s1.(processed_step_seq) -> touches (rid r) k (set_sched s' k) /\ unused (set_sched s' k) (rid r)).
  { intros s' Hi' E1 E2 E3. split.
    - apply touches_sched; [done|done| |congruence|congruence]. rewrite E1. eapply Forall2_impl; [exact Hrel|]. by intros m m' [? _].
    - simpl. unfold managers. simpl. rewrite E1. fold (managers k) in Hrel. clear -Hrel.
      induction Hrel as [|m m' ms ms' (_ & Ht & Hc & _) _ IH]; constructor; [|done]. unfold no_record, tbl. by rewrite Ht. }
  unfold calls, op_free_blocks, contract_ops, caches_ops, on_sched, zoom. unfold contract_pool in Hrun. destruct (is_finished _).
  - destruct (sched_free_blocks_spec u.(su_defer) (rid r) _ s1 Hrun Hi1) as [Hrun' Hi']. unfold contract_pool in Hrun'. rewrite Hrun'. by apply Hdone.
  - rewrite Hrun. by apply Hdone.
Qed.

Lemma cache_law r n k :
  cache_inv k -> calls (op_cache_blocks r n) k (fun _ k' => touches (rid r) k k' /\ forall m, covers k (rid r) m -> covers k' (rid r) m).
Proof.
  intros Hk. pose proof (si_kv _ (proj1 Hk)) as Hi. unfold calls, op_cache_blocks, contract_ops, caches_ops, on_sched, on_kv, zoom, with_request_of, kv_cache_blocks.
  destruct (kv_enable_caching u.(su_kv)) eqn:Hca.
  2:{ simpl. assert (set_sched (set_kv (blocks_of_sched k).(kv) (blocks_of_sched k)) k = k) as -> by (by destruct k as [[] ?]).
      split; [|done]. apply steady_touches; [by apply steady_refl|by intros ?]. }
  destruct (blocks_of_sched k).(kv) as [p ms] eqn:Hkv. assert (Hms : managers k = ms) by (unfold managers; by rewrite Hkv).
  pose proof (coord_cache_keeps u.(su_kv) r.(info) n p ms (hash_request u r)) as [Hp Hsb]. unfold contract_pool in Hp, Hsb.
  destruct (coord_cache_blocks _ _ _ _) as [[[]|e] [[p' ms'] r']] eqn:Hrun; simpl in Hp, Hsb.
  - split; [apply touches_sched; [done| | |done|done]|].
    + apply set_kv_inv; [apply Hk|]. by eapply same_inv.
    + rewrite Hms. eapply Forall2_impl; [exact Hsb|]. by intros m m' [].
    + intros x. simpl. rewrite Hms. apply (Forall_moved _ _ _ _ _ Hsb). intros m m' [Ho _ Ht _]. unfold running_ok.
      by rewrite (or_block_size _ _ _ Ho), Ht.
  - split; [done|]. eexists r.(info), n, _. unfold contract_pool. by rewrite Hrun.
Qed.

(** *** The encoder *)

Lemma enc_request_ok r : req_ok u.(su_content_size) (contents u) (enc_request u r).
Proof. split; [done|]. intros f. apply (so_content _ _ good). Qed.

Lemma released_room i e e' : EncoderProps.released i e e' -> forall j ids, room_for u e j ids -> room_for u e' j ids.
Proof.
  intros (_ & Hf & _ & Hc & _) j ids [Hv Hn Hd Hr]. split; [done| |done|by rewrite Hf]. eapply Forall_impl; [exact Hn|].
  intros h. simpl. rewrite !eq_None_not_Some. by rewrite Hc.
Qed.

Lemma encoder_law r nc n budget k :
  cache_inv k -> req_fine cfg r ->
  calls (op_try_encoder r nc n budget) k (fun x k' =>
    steady k k' /\ (forall i b m, offers k i b m -> offers k' i b m) /\ plans k' (rid r) (x.1.1.1 ++ x.2)
    /\ x.1.1.2 <= Z.max 0 n /\ (x.1.1.2 = n \/ x.1.1.2 <= Z.max 0 (Scheduler.num_tokens r - 1 - nc))
    /\ Forall (fun j : nat => (j < length r.(params).(encoder_embeds))%nat) x.1.1.1).
Proof.
  intros Hk (Hn & Hp & _ & Hemb & Hoff). pose proof (proj2 (proj2 Hk)) as He.
  destruct (try_schedule_spec u.(su_content_size) (contents u) (so_sizes _ _ good) u.(su_disable_chunked) (fun _ => false) (enc_request u r)
    (enc_request_ok r) (so_features _ _ good (rid r)) nc n cfg.(num_prefill_lookahead) (proj2 (so_lookahead _ _ good)) budget _ He)
    as (pl & e' & Hrun & He' & _ & [Hv Hnew Hnd Hroom] & Hfew & _).
  pose proof (try_schedule_stops _ _ _ _ _ _ _ _ _ _ Hrun) as Hst.
  unfold calls, op_try_encoder, contract_ops, caches_ops, plan_inputs_of, on_encoder.
  rewrite (bind_ok (zoom _ _ _) _ _ pl (set_encoder_cache e' k)) by (unfold zoom; by rewrite Hrun). simpl. unfold fewer in Hfew.
  split_and!; [by apply steady_encoder|done|by split|lia| |].
  - destruct Hst as [->|(f & Hf & Hle)]; [by left|right]. specialize (Hoff f Hf). destruct (so_lookahead _ _ good). lia.
  - apply Forall_app in Hv as [Hv _]. eapply Forall_impl; [exact Hv|]. intros i [f Hf]. rewrite Hemb, length_fmap. by eapply lookup_lt_Some.
Qed.

Lemma allocate_encoder_law r (j : nat) (js : list nat) k :
  cache_inv k -> plans k (rid r) (j :: js) -> calls (op_allocate_encoder r j) k (fun _ k' => steady k k' /\ plans k' (rid r) js).
Proof.
  intros Hk [Hv Hn Hd Hroom]. apply Forall_cons in Hv as [[f Hf] Hv]. rewrite !fmap_cons in Hroom. rewrite fmap_cons in Hn, Hd.
  apply Forall_cons in Hn as [Hnj Hn]. apply NoDup_cons in Hd as [Hnin Hd]. rewrite zsum_cons in Hroom.
  assert (Hid : ident (mkEncRequest (rid r) (su_features u (rid r))) j = f.(EncoderCache.identifier)) by (unfold ident; simpl; by rewrite Hf).
  rewrite Hid in *.
  assert (Hpos : 0 <= zsum (su_content_size u <$> (ident (mkEncRequest (rid r) (su_features u (rid r))) <$> js))).
  { apply zsum_nonneg. apply (so_sizes _ _ good). }
  destruct (allocate_spec u.(su_content_size) (contents u) (so_sizes _ _ good) (enc_request u r) j f _ (proj2 (proj2 Hk)) (enc_request_ok r) Hf Hnj ltac:(lia))
    as (e' & Hrun & He' & _ & Hfree & Hc & _).
  unfold calls, op_allocate_encoder, contract_ops, caches_ops, on_encoder, zoom. rewrite Hrun. split; [by apply steady_encoder|].
  split; simpl; [done| |done|rewrite Hfree; lia]. rewrite Hc. apply Forall_forall. intros h Hh.
  rewrite lookup_insert_ne; [by eapply Forall_forall in Hn|]. intros <-. by destruct Hnin.
Qed.

Lemma no_plan_law k i : cache_inv k -> plans k i [].
Proof. intros Hk. split; [constructor|constructor|constructor|]. apply (ei_pos _ _ _ (proj2 (proj2 Hk))). Qed.

Lemma free_encoder_law r k : cache_inv k -> calls (op_free_encoder r) k (fun _ k' => steady k k' /\ keeps_plans k k').
Proof.
  intros Hk. destruct (enc_free_spec u.(su_content_size) (contents u) (so_sizes _ _ good) u.(su_ids_order) (so_ids_order _ _ good) (enc_request u r) _ (proj2 (proj2 Hk)) (enc_request_ok r))
    as (e' & Hrun & He' & Hrel & _).
  unfold calls, op_free_encoder, contract_ops, caches_ops, on_encoder, zoom. rewrite Hrun. split; [by apply steady_encoder|].
  intros i ids. exact (released_room _ _ _ Hrel i ids).
Qed.

Lemma free_inputs_law r k : cache_inv k -> calls (op_free_encoder_inputs r) k (fun _ k' => steady k k' /\ keeps_plans k k').
Proof.
  intros Hk. destruct (free_inputs_spec u.(su_content_size) (contents u) (so_sizes _ _ good) u.(su_ids_order) (so_ids_order _ _ good) (enc_request u r)
    r.(info).(num_computed_tokens) r.(num_output_placeholders) cfg.(num_prefill_lookahead) _ (proj2 (proj2 Hk)) (enc_request_ok r))
    as (e' & Hrun & He' & Hrel).
  unfold calls, op_free_encoder_inputs, contract_ops, caches_ops, on_encoder, zoom. rewrite Hrun. split; [by apply steady_encoder|].
  intros i ids. exact (released_room _ _ _ Hrel i ids).
Qed.
(** *** The ends of a step *)

Lemma take_ids_spec (p : BlockPool) ms F :
  KVInv (p, ms) F ->
  exists ids, kv_take_new_block_ids (p, ms) = (Ok ids, (p, set_new_ids [] <$> ms)) /\ KVInv (p, set_new_ids [] <$> ms) F
    /\ Forall2 same_records ms (set_new_ids [] <$> ms).
Proof.
  intros [Ha Hw]. exists (concat (new_block_ids <$> ms)). split_and!.
  - assert (Hrun : forall n, each_mgr (fun _ => take_new_block_ids) n p ms = (Ok (new_block_ids <$> ms), (p, set_new_ids [] <$> ms))).
    { clear. induction ms as [|m ms IH]; intros n; [done|]. simpl. by rewrite IH. }
    unfold kv_take_new_block_ids. by rewrite (bind_ok _ _ (p, ms) _ _ (Hrun 0%nat : for_mgrs _ (p, ms) = _)).
  - assert (Hh : all_holds (set_new_ids [] <$> ms) = all_holds ms) by (clear; unfold all_holds; induction ms as [|m ms IH]; [done|]; rewrite !fmap_cons; simpl; by f_equal).
    split; simpl; [by rewrite Hh|]. apply Forall_fmap. eapply Forall_impl; [exact Hw|]. by intros m [].
  - clear. induction ms; by constructor.
Qed.

Lemma freed_hashes_spec e :
  EncInv u.(su_content_size) (contents u) e ->
  exists hs, get_freed_mm_hashes e = (Ok hs, set_freed [] e) /\ EncInv u.(su_content_size) (contents u) (set_freed [] e).
Proof. intros [H1 H2 H3 H4 H5 H6 H7]. eexists. split; [reflexivity|]. by split. Qed.

#[local] Instance same_records_preorder : PreOrder same_records.
Proof. split; [done|]. intros m1 m2 m3 (E1 & E2 & E3) (E4 & E5 & E6). split_and!; congruence. Qed.

Lemma collect_law sched k :
  cache_inv k ->
  calls (op_collect sched) k (fun _ k' => cache_inv k' /\ (forall i, unused k i -> unused k' i)
    /\ (forall i n, covers k i n -> covers k' i n)
    /\ forall n, steps_open k n -> steps_open k' (if total sched >? 0 then n + 1 else n)).
Proof.
  intros Hk. destruct k as [s e]. destruct Hk as (Hs & Hg & He) eqn:Hk0. clear Hk0. simpl in Hs, Hg, He.
  destruct (copies_step u.(su_defer) s Hs) as (c & s1 & Hrun1 & Hs1 & Hr1 & Hp1 & Hq1 & _).
  destruct (freed_hashes_spec e He) as (hs & Hrun2 & He2).
  pose proof (si_kv _ Hs1) as Hi. destruct s1.(kv) as [p ms] eqn:Hkv.
  destruct (take_ids_spec p ms _ Hi) as (ids & Hrun3 & Hi3 & Hr3).
  pose proof (set_kv_inv s1 (p, set_new_ids [] <$> ms) Hs1 Hi3) as Hs3. set (s3 := set_kv _ s1) in *.
  destruct (advance_spec u.(su_defer) sched s3 Hs3) as (s4 & Hrun4 & Hs4 & Hkv4 & _ & Hp4 & _ & Hq4).
  assert (Hrun : collect u sched (mkCaches s e) = (Ok (c, hs, ids), mkCaches s4 (set_freed [] e))).
  { unfold collect. unfold contract_pool in *.
    rewrite (bind_ok _ _ _ c (mkCaches s1 e)) by (unfold on_sched, zoom; cbn [blocks_of_sched]; by rewrite Hrun1).
    rewrite (bind_ok _ _ _ hs (mkCaches s1 (set_freed [] e))) by (unfold on_encoder, zoom; cbn [encoder]; by rewrite Hrun2).
    rewrite (bind_ok _ _ _ ids (mkCaches s3 (set_freed [] e))) by (unfold on_sched, on_kv, zoom; cbn [blocks_of_sched]; by rewrite Hkv, Hrun3).
    by rewrite (bind_ok _ _ _ tt (mkCaches s4 (set_freed [] e))) by (unfold on_sched, zoom; cbn [blocks_of_sched]; by rewrite Hrun4). }
  unfold calls, op_collect, contract_ops, caches_ops. rewrite Hrun.
  assert (Hrec : Forall2 same_records s.(kv).2 s4.(kv).2) by (rewrite Hkv4; by etransitivity).
  destruct (same_records_kept (mkCaches s e) s4 Hk Hs4 Hrec) as ((_ & Hg' & _) & Hu & Hc).
  split_and!; [done|exact Hu|exact Hc|]. intros n Ho Hd. specialize (Ho Hd). simpl in *. rewrite Hq4, Hp4 by done. simpl.
  rewrite Hp1, Hq1. unfold total. destruct (_ >? 0); lia.
Qed.

Lemma process_law all n k :
  cache_inv k -> steps_open k n -> (0 < all -> 0 < n) ->
  calls (op_process all) k (fun _ k' => cache_inv k' /\ (forall i, unused k i -> unused k' i)
    /\ (forall i m, covers k i m -> covers k' i m) /\ steps_open k' (if all >? 0 then n - 1 else n)).
Proof.
  intros Hk Ho Hn. destruct (process_spec u.(su_defer) all _ (proj1 Hk)) as (s' & Hrun & Hs' & Hms & Hp & Hq & _).
  { intros Hd Hall. specialize (Ho Hd). specialize (Hn Hall). lia. }
  unfold calls, op_process, contract_ops, caches_ops, on_sched, zoom. unfold contract_pool in Hrun. rewrite Hrun.
  destruct (same_records_kept k s' Hk Hs') as (Hk' & Hu & Hc).
  { by rewrite Hms. }
  split_and!; [exact Hk'|exact Hu|exact Hc|]. intros Hd. specialize (Ho Hd). simpl. rewrite Hp, Hq, Hd. simpl. destruct (all >? 0); lia.
Qed.

Lemma reset_keeps p l :
  PoolInv p l -> exists b p', BlockPool.reset_prefix_cache p = (Ok b, p') /\ PoolInv p' l /\ same_cfg p p' /\ refs p' = refs p.
Proof.
  intros Hp. destruct (reset_prefix_cache_spec p l Hp) as (p' & Hrun & Hp' & _). eexists _, p'. split_and!; [exact Hrun|done|..];
    revert Hrun; unfold BlockPool.reset_prefix_cache, get_num_free_blocks; run_monad; destruct (negb _); run_monad; try (by intros [= _ <-]);
    simpl; destruct (enable_kv_cache_events p); intros [= _ <-]; try done; exact (reset_hash_refs p).
Qed.

Lemma reset_law k : cache_inv k -> calls op_reset_prefix_cache k (fun _ k' => steady k k').
Proof.
  intros Hk. destruct (cache_pool k Hk) as (l & Hp & Hfit). destruct (reset_keeps _ _ Hp) as (b & p' & Hrun & Hp' & Hcfg & Hrefs).
  unfold calls, op_reset_prefix_cache, contract_ops, caches_ops, reset_cache, on_sched, on_kv, zoom. fold (pool k) (managers k). rewrite Hrun.
  pose proof (si_kv _ (proj1 Hk)) as [Ha Hw].
  assert (Hs' : SchedInv (set_kv (p', managers k) (blocks_of_sched k))).
  { apply set_kv_inv; [apply Hk|]. split; [|done]. destruct Ha as [_ Hc Hv]. split.
    - exists l. split; [done|]. by eapply pool_fits_cfg.
    - intros i n. cbn. rewrite Hrefs. apply Hc.
    - cbn. rewrite Hrefs. apply Hv. }
  destruct (same_records_kept k (set_kv (p', managers k) (blocks_of_sched k)) Hk Hs') as (H1 & H2 & H3); [done|by split].
Qed.

#[local] Instance caches_laws : CacheLaws cfg Caches KVCacheBlocks (list (nat * nat) * list string * list nat).
Proof.
  split.
  - intros k i n n' Hc Hle. eapply Forall_impl; [exact Hc|]. unfold running_ok. intros. lia.
  - intros k Hk. by apply steady_refl.
  - intros r k Hk Hu Hr _. by apply lookup_law.
  - intros r k b n new enc full has_running Hk Hu Hof Hr Hc Hn Hnew Hle.
    pose proof (allocate_law r k true new n b full has_running Hk Hr) as Hal. rewrite Hc in Hal.
    specialize (Hal ltac:(lia) Hn Hnew Hle Hof). revert Hal. unfold calls. simpl.
    destruct (allocate_blocks _ _ _ _ _ _ _ _ k) as [[[b'|]|e] k']; [done| |done]. intros [Ht [Hu' _]]. split; [done|by apply Hu'].
  - intros r k new Hk Hc Hr Hn Hnew Hle.
    pose proof (allocate_law r k false new 0 EmptyBlocks false true Hk Hr Hn) as Hal. rewrite Z.add_0_r in Hal.
    specialize (Hal ltac:(lia) Hnew Hle ltac:(done)). revert Hal. unfold calls. simpl.
    change (allocate_blocks u r new 0 None) with (allocate_blocks u r new 0 (Some EmptyBlocks)).
    destruct (allocate_blocks _ _ _ _ _ _ _ _ k) as [[[b'|]|e] k']; [done| |done]. intros [Ht [_ Hc']]. split; [done|]. rewrite Z.add_0_r. by apply Hc'.
  - exact free_law.
  - intros r n k. apply cache_law.
  - intros r nc n budget k. apply encoder_law.
  - intros r j js k. apply allocate_encoder_law.
  - exact no_plan_law.
  - exact free_encoder_law.
  - exact free_inputs_law.
  - intros sched k Hk _. by apply collect_law.
  - exact process_law.
  - exact reset_law.
Qed.
(** ** The whole *)

Context {Q : Type} `{!QueueOps Q} `{!QueueLaws Q}.
Hypothesis cfg_good : cfg_ok cfg.
Notation Sys := (Sys Caches KVCacheBlocks (list (nat * nat) * list string * list nat) Q).
Implicit Types c : Sys.

Lemma system_inv c : reachable cfg c -> SysInv cfg c.
Proof. exact (reachable_inv cfg cfg_good c). Qed.

Lemma idle_holds_nothing c i :
  reachable cfg c -> i ∉ c.(sys_state).(running) -> Forall (no_record i) (managers c.(sys_state).(caches)).
Proof.
  intros Hc Hni. pose proof (system_inv c Hc) as [Hi Hh _ _ _ _]. pose proof (hd_each _ Hh i) as Hx.
  destruct (c.(sys_state).(requests) !! i) as [r|] eqn:Hr; [|done]. simpl in Hx. case_bool_decide as Hs; [|done].
  destruct Hni. pose proof (bk_complete _ _ _ (iv_book _ _ _ Hi) i r Hr) as Hin. apply elem_of_app in Hin as [?|Hin]; [done|].
  apply list_elem_of_fmap in Hin as (q & -> & Hq). destruct (bk_waiting _ _ _ (iv_book _ _ _ Hi) q Hq) as (x & Hx' & _ & (Hn & _)). congruence.
Qed.

Lemma no_records_no_holds m :
  (forall i, no_record i m) -> m.(pending_cow_copies) = [] -> holds m = [].
Proof.
  intros Hno Hp. unfold holds. rewrite Hp, app_nil_r. unfold KVManagerProps.held. apply concat_nil_Forall, Forall_fmap, Forall_forall.
  intros [i bs] Hin%elem_of_map_to_list. destruct (Hno i) as [Ht _]. unfold tbl in Ht. rewrite Hin in Ht. done.
Qed.

(** C3: Over the modelled caches, in every state the engine can reach: the reference count
    of a block is the number of times it occurs in block tables, pending copies and
    deferred frees; every group has slots for all computed tokens of a running request,
    and no record of a request that does not run; and once nothing runs, no copy is
    pending and no free deferred, every block but the null block is free again. *)
Theorem blocks_match_requests c :
  reachable cfg c ->
  let k := c.(sys_state).(caches) in
  (forall b n, refs (pool k) !! b = Some (n, false) ->
     n = occ b (all_holds (managers k)) + occ b (SchedBlocks.waiting k.(blocks_of_sched)))
  /\ (forall i r, c.(sys_state).(requests) !! i = Some r -> r.(info).(status) = RUNNING ->
        0 <= r.(info).(num_computed_tokens)
        /\ Forall (fun m => r.(info).(num_computed_tokens) <= m.(block_size) * Z.of_nat (length (tbl m i))) (managers k))
  /\ (forall i, i ∉ c.(sys_state).(running) -> Forall (no_record i) (managers k))
  /\ (c.(sys_state).(running) = [] -> Forall (fun m => m.(pending_cow_copies) = []) (managers k) ->
      k.(blocks_of_sched).(deferred_frees) = [] ->
      (get_num_free_blocks (pool k)).1 = Ok (Z.of_nat (length (refs (pool k)) - 1))).
Proof.
  intros Hc k. pose proof (system_inv c Hc) as [Hi Hh _ _ _ _]. pose proof (hd_inv _ Hh) as (Hs & _). fold k in Hs.
  pose proof (kv_accounts _ _ (si_kv _ Hs)) as Ha. split_and!.
  - intros b n Hb. by rewrite <- occ_app, (ac_count _ _ Ha _ _ Hb).
  - intros i r Hr Hrun. pose proof (hd_each _ Hh i) as Hx. rewrite Hr in Hx. simpl in Hx. by rewrite bool_decide_true in Hx by done.
  - intros i. by apply idle_holds_nothing.
  - intros Hrun Hp Hd. pose proof (accounts_free _ _ Ha) as Hf. rewrite (free_count_unheld _ _ Ha) in Hf.
    assert (Hall : all_holds (managers k) = []).
    { unfold all_holds. apply concat_nil_Forall, Forall_fmap, Forall_lookup. intros g m Hm. apply no_records_no_holds; [|by eapply Forall_lookup in Hp].
      intros i. eapply Forall_lookup; [|exact Hm]. apply idle_holds_nothing; [done|]. rewrite Hrun. apply not_elem_of_nil. }
    fold (managers k) in Hf. rewrite Hall in Hf. unfold SchedBlocks.waiting in Hf. rewrite Hd in Hf. simpl fmap in Hf. simpl concat in Hf.
    rewrite filter_unheld, length_seq in Hf. cbn in Hf. unfold get_num_free_blocks. simpl. fold (pool k) in Hf. by rewrite Hf.
Qed.

End contract.

(** ** A run over nine blocks *)

(** Two groups, full attention and a window of three tokens, in blocks of two tokens. *)
Definition kv_setup (defer : bool) : Setup :=
  mkSetup id false elements (fun x => x.1.1 ++ x.1.2) [7] 2 (fun _ => mkRequest [] [] None None None ∅ [])
    (mkKVConfig 16 true 0 0 None true false 2) (Hybrid hit_config) [2; 2] (fun _ => false) (fun _ => false) defer
    (fun _ => []) (fun _ => 0) elements false.

Lemma kv_setup_ok defer : setup_ok (demo_cfg None true) (kv_setup defer).
Proof.
  split; try done; [|intros i; split; [by intros f ?%elem_of_nil|done]|by intros i f ?%elem_of_nil].
  intros _. exact (lo_static _ _ _ admit_lookup).
Qed.

Notation RunSys := (Sys Caches KVCacheBlocks (list (nat * nat) * list string * list nat) FCFSRequestQueue).

Definition kv_start : RunSys :=
  mkSys (mkState ∅ [] create_request_queue create_request_queue
    (mkCaches (init_sched (new_pool 9 true 2 false).2 admit_mgrs) (new_encoder_cache 8)) 0 0 false UNPAUSED ∅ ∅ ∅ ∅ []) [].

Definition kv_run (defer : bool) (os : list Op) : res unit * RunSys :=
  run_ops (CacheOps0 := contract_ops (demo_cfg None true) (kv_setup defer)) (demo_cfg None true) os kv_start.

(** Two prompts that share a block are scheduled, and then one more token each while that
    step runs. *)
Definition kv_adds : list Op := [OpAdd (demo_req "a" 1 [1; 2; 3; 4; 5] None); OpAdd (demo_req "b" 2 [1; 2; 9] None)].
Definition kv_trace : list Op := kv_adds ++ [OpSchedule false; OpSchedule false].

Lemma kv_runs_ok defer n : (kv_run defer (take n kv_trace)).1 = Ok tt.
Proof. do 4 (destruct n as [|n]; [by destruct defer; vm_compute|]). by destruct defer, n; vm_compute. Qed.

Section run.
Variable defer : bool.
#[local] Instance run_cache_ops : CacheOps Caches KVCacheBlocks (list (nat * nat) * list string * list nat) := contract_ops (demo_cfg None true) (kv_setup defer).
#[local] Instance run_model : CacheModel Caches KVCacheBlocks := caches_model _ _ (kv_setup_ok defer).

Lemma kv_start_initial : initial kv_start.
Proof.
  assert (Hrefs : refs (new_pool 9 true 2 false).2 = (0, true) :: replicate 8 (0, false)) by (by vm_compute).
  split_and!; try done.
  - split_and!; [|by intros _; exact (proj1 admit_managers)|by apply new_encoder_cache_inv].
    apply init_inv; [|intros i n; change (refs (new_pool 9 true 2 false).2 !! i = Some (n, false) -> n = 0)|repeat constructor; simpl; lia].
    + assert (Hfit : pool_fits (kv_setup defer) (new_pool 9 true 2 false).2) by (split; [by vm_compute|by intros i; vm_compute]).
      destruct (new_pool_spec 9 true 2 false ltac:(lia)) as (p & Hrun & Hp & _). rewrite Hrun in *. by exists (seq 1 8).
    + rewrite Hrefs. destruct i as [|i]; [done|]. change (replicate 8 (0, false) !! i = Some (n, false) -> n = 0).
      intros Hi. by apply lookup_replicate in Hi as [[= <-] _].
  - intros i. by repeat constructor.
Qed.

Lemma kv_enabled_add i t prompt (c : RunSys) :
  (0 < length prompt)%nat -> Z.of_nat (length prompt) <= 16 -> c.(sys_state).(requests) !! i = None -> c.(flights) = [] ->
  enabled (demo_cfg None true) (OpAdd (demo_req i t prompt None)) c.
Proof.
  intros Hp Hlen Hfresh Hfl. split_and!; [|done|by rewrite Hfl|done].
  unfold new_request, waiting_ok, len_ok, Scheduler.num_tokens, num_output_tokens. simpl. split_and!; try done; try lia. by intros f ?%elem_of_nil.
Qed.

Lemma kv_reachable : reachable (demo_cfg None true) (run_ops (demo_cfg None true) kv_trace kv_start).2.
Proof.
  apply (reach_more _ (take 3 kv_trace)); [|done|exact (kv_runs_ok defer 4)]. apply (reach_more _ (take 2 kv_trace)); [|done|exact (kv_runs_ok defer 3)].
  apply (reach_more _ (take 1 kv_trace)); [|by apply kv_enabled_add; [simpl; lia..| |]; vm_compute|exact (kv_runs_ok defer 2)].
  apply (reach_more _ []); [by apply reach_init, kv_start_initial|by apply kv_enabled_add; [simpl; lia..| |]; vm_compute|exact (kv_runs_ok defer 1)].
Qed.
End run.

(** The last tokens of both requests have slots; they share the blocks of their common
    prefix. *)
Lemma blocks_match_requests_witness :
  let k := (kv_run true kv_trace).2.(sys_state).(caches) in
  (fun m => (tbl m "a", tbl m "b")) <$> managers k = [([1; 2; 3], [1; 7]); ([4; 5; 6], [4; 8])]%nat
  /\ 2 = occ 1 (all_holds (managers k)) + occ 1 (SchedBlocks.waiting k.(blocks_of_sched))
  /\ Forall (no_record "c") (managers k).
Proof.
  split; [by vm_compute|].
  destruct (blocks_match_requests (demo_cfg None true) (kv_setup true) (kv_setup_ok true) (Q := FCFSRequestQueue) (demo_cfg_ok None true ltac:(done))
    (kv_run true kv_trace).2 (kv_reachable true)) as (Hrefs & _ & Hno & _).
  split; [apply Hrefs; by vm_compute|apply Hno].
  assert (Hr : (kv_run true kv_trace).2.(sys_state).(running) = ["a"; "b"]) by (by vm_compute). rewrite Hr.
  by intros [?|?%list_elem_of_singleton]%elem_of_cons.
Defined.


