(* ===== verification/InputBatchMirror.v ===== *)
(** * The persistent batch mirrors the requests

    [BatchOk]: the row, the names and the adapter of every request in the batch are those
    of its cached state.  Adding, removing, condensing, swapping and the updates of a
    running request keep it. *)

From Stdlib Require Import SpecFloat.
From stdpp Require Import sorting.
From S2P Require Import Prelude BlockTable BlockTableProps InputBatch InputBatchProps InputBatchOps.

(** ** The adapter of a new request *)

Lemma lora_users_join (idx : gmap ReqId nat) (m : list Z) name i l0 name' l :
  (forall n, idx !! n <> Some i) -> idx !! name = None -> (i < length m)%nat ->
  (exists k, <[name := i]> idx !! name' = Some k /\ <[i := l0]> m !! k = Some l)
  <-> (name' = name /\ l = l0) \/ (exists k, idx !! name' = Some k /\ m !! k = Some l).
Proof.
  intros Hfree Hnew Hi. destruct (decide (name' = name)) as [->|Hne].
  - rewrite lookup_insert_eq, Hnew. split.
    + intros (k & [= <-] & Hk). rewrite list_lookup_insert_eq in Hk by done. left. split; congruence.
    + intros [[_ ->]|(k & ? & _)]; [|done]. exists i. by rewrite list_lookup_insert_eq.
  - rewrite lookup_insert_ne by done. split.
    + intros (k & Hk & Hl). right. exists k. rewrite list_lookup_insert_ne in Hl; [done|]. intros ->. by apply (Hfree name').
    + intros [[? _]|(k & Hk & Hl)]; [done|]. exists k. rewrite list_lookup_insert_ne; [done|]. intros ->. by apply (Hfree name').
Qed.

Lemma write_lora_ok idx x r i :
  LoraOk idx x -> (forall n, idx !! n <> Some i) -> idx !! r.(req_id) = None -> (i < length x.(request_lora_mapping))%nat ->
  (forall l o, r.(lora_request) = Some (l, o) -> l <> 0) -> LoraOk (<[r.(req_id) := i]> idx) (write_lora r i x).
Proof.
  intros [Hm Hd Hu] Hfree Hnew Hi Hl. unfold write_lora. destruct r.(lora_request) as [[l o]|].
  - specialize (Hl l o eq_refl). split; simpl.
    + intros l' name'. rewrite lora_users_join by done. destruct (decide (l' = l)) as [->|Hne].
      * rewrite lookup_insert_eq. specialize (Hm l name'). split.
        -- intros (? & [= <-] & [->%elem_of_singleton|Hin]%elem_of_union); (split; [done|]); [by left|right].
           destruct (x.(lora_id_to_request_ids) !! l) as [ids|]; simpl in Hin; [|by apply elem_of_empty in Hin]. apply Hm. by exists ids.
        -- intros (_ & [[-> _]|Hx]); (eexists; split; [done|]); apply elem_of_union; [left; by apply elem_of_singleton|right].
           destruct (proj2 Hm) as (ids & -> & Hin); done.
      * rewrite lookup_insert_ne, Hm by done. split; intros [H0 Hx]; (split; [done|]); [by right|]. by destruct Hx as [[_ ?]|].
    + intros l'. destruct (decide (l' = l)) as [->|Hne]; [by rewrite !lookup_insert_eq|]. by rewrite !lookup_insert_ne.
    + intros l' ids'. destruct (decide (l' = l)) as [->|Hne]; [rewrite lookup_insert_eq; intros [= <-]; set_solver|]. rewrite lookup_insert_ne by done. apply Hu.
  - split; simpl; [|done|done]. intros l' name'. rewrite lora_users_join by done. rewrite Hm. split; intros [H0 Hx]; (split; [done|]); [by right|]. by destruct Hx as [[_ ?]|].
Qed.

Lemma write_lora_mapping r i x : (write_lora r i x).(request_lora_mapping) = <[i := lora_of r]> x.(request_lora_mapping).
Proof. unfold write_lora, lora_of. by destruct r.(lora_request) as [[l o]|]. Qed.

(** ** The batch and the requests *)

Record BatchOk (reqs : gmap ReqId CachedRequestState) (s : InputBatch) (mrows : list (list (list Z))) : Prop := {
  bk_lora : LoraOk s.(req_id_to_index) s.(loras);
  bk_rows : forall name i, s.(req_id_to_index) !! name = Some i -> exists r, reqs !! name = Some r /\ mirror s.(vocab_size) (row s mrows i) r;
  bk_names : s.(is_pooling_model) = false -> forall name, s.(req_id_to_index) !! name = None -> name_bits s.(names) name = no_bits;
  bk_bits : s.(is_pooling_model) = false -> forall name i, s.(req_id_to_index) !! name = Some i ->
    exists r p, reqs !! name = Some r /\ r.(sampling_params) = Some p /\ name_bits s.(names) name = bits_of s.(vocab_size) p;
}.

(** Moving rows keeps it. *)
Lemma batch_carried reqs s s' mrows mrows' :
  BatchOk reqs s mrows -> Carried s s' mrows mrows' -> BatchOk reqs s' mrows'.
Proof.
  intros [HL Hr Hn Hb] [(Em & Ev & Ep & Er & Ec) (En & Ed & Eq) Hdom Hrow].
  assert (Hback : forall name i', s'.(req_id_to_index) !! name = Some i' -> exists i, s.(req_id_to_index) !! name = Some i /\ row s' mrows' i' = row s mrows i).
  { intros name i' Hi'. destruct (proj1 (Hdom name)) as [i Hi]; [by eexists|]. exists i. split; [done|]. destruct (Hrow name i Hi) as (i2 & H2 & E). congruence. }
  split.
  - destruct HL as [Hm Hd Hu]. split; rewrite ?Ed, ?Eq; [|done|done]. intros l name. rewrite Hm. split; intros [H0 (i & Hi & Hl)]; (split; [done|]).
    + destruct (Hrow name i Hi) as (i' & Hi' & E). exists i'. split; [done|]. rewrite <- Hl. exact (f_equal w_lora E).
    + destruct (Hback name i Hi) as (i' & Hi' & E). exists i'. split; [done|]. rewrite <- Hl. symmetry. exact (f_equal w_lora E).
  - intros name i' Hi'. destruct (Hback name i' Hi') as (i & Hi & E). rewrite E, Ev. by apply (Hr name i).
  - rewrite Ep, En. intros Hp name Hnone. apply Hn; [done|]. apply eq_None_not_Some. rewrite <- Hdom, Hnone. by intros [? ?].
  - rewrite Ep, En, Ev. intros Hp name i' Hi'. destruct (Hback name i' Hi') as (i & Hi & E). by apply (Hb Hp name i).
Qed.

(** ** Adding *)

Definition added_tables (i : nat) (bids : list (list Z)) (mrows : list (list (list Z))) : list (list (list Z)) :=
  imap (fun j (rows : list (list Z)) => <[i := default [] (bids !! j)]> rows) mrows.

(** The fields after [r] has been added in row [i]. *)
Record Added (r : CachedRequestState) (i w : nat) (s s' : InputBatch) : Prop := {
  ad_setup : same_setup s s';
  ad_ids : s'.(req_ids) = put i (Some r.(req_id)) s.(req_ids);
  ad_index : s'.(req_id_to_index) = <[r.(req_id) := i]> s.(req_id_to_index);
  ad_outputs : s'.(req_output_token_ids) = put i (Some r.(req_id)) s.(req_output_token_ids);
  ad_spec : s'.(spec_token_ids) = put_spec i (length s.(req_ids)) s.(spec_token_ids);
  ad_toks : exists row frow emb, s'.(toks) = wrote_tokens r i s.(use_replayssm) row frow emb s.(toks) /\ length row = w /\ length frow = w
    /\ knows r (take (total_len r) row) /\ take (total_len r) frow = prompt_flags r ++ replicate (length r.(output_token_ids)) true;
  ad_lora : s'.(loras) = write_lora r i s.(loras);
  ad_params : ParWritten i s.(params) s'.(params);
  ad_par : s.(is_pooling_model) = false -> exists p, r.(sampling_params) = Some p /\ s'.(names) = name_params s.(vocab_size) r.(req_id) p s.(names)
    /\ par_row s'.(params) i = par_of s.(vocab_size) r p (Some 1);
}.

Lemma added_sizes r i w s s' mrows :
  Sizes s mrows w -> Added r i w s s' -> (i < s.(ib_max_num_reqs))%nat -> (i <= length s.(req_ids))%nat ->
  Forall2 (TableOk s.(ib_max_num_reqs)) (added_tables i r.(block_ids) mrows) s'.(tables) -> Sizes s' (added_tables i r.(block_ids) mrows) w.
Proof.
  intros HS [(Em & Ev & Ep & Er & Ec) Ei Ex Eo Es (row & frow & emb & Et & Hw & Hfw & _) El Epa _] Hi Hle Hts.
  pose proof (sz_ids _ _ _ HS). pose proof (sz_outputs _ _ _ HS) as Ho.
  destruct (put_spec_ok i s.(req_ids) (Some r.(req_id)) _ Hle (sz_spec _ _ _ HS) (sz_tail _ _ _ HS)) as (_ & _ & Hsl & Hst). destruct Epa as [[Hp1 Hp2] Hp3 _]. rewrite !Forall2_cons in Hp3. destruct_and! Hp3. sizes HS.
  split; rewrite ?Em, ?Ei, ?Eo, ?Es, ?Et; simpl; rewrite ?length_insert; try done; try apply HS.
  - apply forall_insert; [apply HS|done].
  - apply forall_insert; [apply HS|done].
  - repeat (apply Forall_cons; split); [..|by apply Forall_nil]; rewrite ?El, ?write_lora_mapping; destruct s.(use_replayssm); rewrite ?length_insert; lia.
  - repeat (apply Forall_cons; split); [..|by apply Forall_nil]; lia.
  - unfold put. case_decide; rewrite ?length_app, ?length_insert; simpl; lia.
  - by apply length_put.
Qed.

Lemma added_row_other r i w s s' mrows k :
  Sizes s mrows w -> Added r i w s s' -> (i < s.(ib_max_num_reqs))%nat -> (i <= length s.(req_ids))%nat -> (k < length s.(req_ids))%nat -> k <> i ->
  row s' (added_tables i r.(block_ids) mrows) k = row s mrows k.
Proof.
  intros HS [(Em & Ev & Ep & Er & Ec) Ei Ex Eo Es (row & frow & emb & Et & _) El Epa _] Hi Hle Hlt Hk. pose proof (sz_outputs _ _ _ HS).
  destruct (put_spec_ok i s.(req_ids) (Some r.(req_id)) _ Hle (sz_spec _ _ _ HS) (sz_tail _ _ _ HS)) as (_ & Hsk & _).
  unfold InputBatchProps.row, get_active_token_count. rewrite Ei, Eo, Es, Et, El, Ep, Er, write_lora_mapping. simpl. rewrite !Hsk by done. rewrite !lookup_put, !decide_False by (done || lia).
  rewrite !list_lookup_insert_ne by done. unfold added_tables.
  rewrite (blocks_at s.(ib_max_num_reqs) mrows s.(tables) i k (fun j _ => default [] (r.(block_ids) !! j))); [|apply HS|done]. rewrite decide_False by done.
  f_equal; [destruct s.(use_replayssm); [by rewrite list_lookup_insert_ne|done]|]. destruct s.(is_pooling_model); [done|]. f_equal. by apply Epa.
Qed.

Lemma imap_default {A} (mrows : list A) (bids : list (list Z)) :
  length mrows = length bids -> imap (fun j _ => default [] (bids !! j)) mrows = bids.
Proof.
  revert bids. induction mrows as [|m mrows IH]; intros [|b bids]; try done. intros [= E]. cbn [imap]. f_equal. by apply IH.
Qed.

Lemma added_row_self r i w s s' mrows :
  Sizes s mrows w -> Added r i w s s' -> can_hold s w r -> (i < s.(ib_max_num_reqs))%nat -> (i <= length s.(req_ids))%nat ->
  mirror s.(vocab_size) (row s' (added_tables i r.(block_ids) mrows) i) r.
Proof.
  intros HS [(Em & Ev & Ep & Er & Ec) Ei Ex Eo Es (row & frow & emb & Et & Hw & Hfw & Hk & Hf) El _ Epar] Hc Hi Hle.
  pose proof (sz_outputs _ _ _ HS). pose proof (sz_tokens _ _ _ HS). pose proof (sz_flags _ _ _ HS). sizes HS.
  destruct (put_spec_ok i s.(req_ids) (Some r.(req_id)) _ Hle (sz_spec _ _ _ HS) (sz_tail _ _ _ HS)) as (Hsi & _).
  assert (Ea : get_active_token_count s' i = total_len r).
  { unfold get_active_token_count. rewrite Et, Es. simpl. rewrite Hsi, list_lookup_insert_eq by lia. simpl. unfold total_len. lia. }
  pose proof (ch_length _ _ _ Hc). split; unfold InputBatchProps.row; rewrite ?Ea; cbn [w_name w_output w_prompt w_no_spec w_tokens w_flags w_computed w_blocks w_lora w_params].
  - by rewrite Ei, lookup_put, decide_True by lia.
  - by rewrite Eo, lookup_put, decide_True by lia.
  - rewrite Et. simpl. apply list_lookup_insert_eq. lia.
  - rewrite Et. simpl. apply list_lookup_insert_eq. lia.
  - rewrite Et. simpl. rewrite list_lookup_insert_eq by lia. eexists. split; [done|]. rewrite length_take, take_take, Nat.min_id. split; [lia|done].
  - rewrite Et. simpl. rewrite list_lookup_insert_eq by lia. eexists. split; [done|]. by rewrite take_take, Nat.min_id.
  - rewrite Et. simpl. apply list_lookup_insert_eq. lia.
  - unfold added_tables. rewrite (blocks_at s.(ib_max_num_reqs) mrows s.(tables) i i (fun j _ => default [] (r.(block_ids) !! j))); [|apply HS|done].
    rewrite decide_True by done. f_equal. apply imap_default. rewrite (Forall2_length _ _ _ (sz_tables _ _ _ HS)). apply (Forall2_length _ _ _ (ch_blocks _ _ _ Hc)).
  - rewrite El, write_lora_mapping. apply list_lookup_insert_eq. lia.
  - intros y. rewrite Ep. destruct s.(is_pooling_model); [done|]. intros [= <-]. destruct (Epar eq_refl) as (p & Hp & _ & E). eauto.
Qed.

Lemma added_open r i w s s' mrows :
  Open s mrows w -> s.(req_id_to_index) !! r.(req_id) = None -> Added r i w s s' -> (i < s.(ib_max_num_reqs))%nat ->
  (i = length s.(req_ids) /\ s.(upd).(removed) = [] \/ s.(req_ids) !! i = Some None) ->
  NoDup s'.(upd).(removed) -> (forall k, k ∈ s'.(upd).(removed) <-> k <> i /\ k ∈ s.(upd).(removed)) ->
  (s'.(upd).(is_removed_sorted) = true -> StronglySorted descending s'.(upd).(removed)) ->
  Forall2 (TableOk s.(ib_max_num_reqs)) (added_tables i r.(block_ids) mrows) s'.(tables) -> Open s' (added_tables i r.(block_ids) mrows) w.
Proof.
  intros [HS Hx Hv Hnd Hh Hso] Hnew HA Hi Hplace Hnd' Hrem Hso' Hts.
  assert (Hle : (i <= length s.(req_ids))%nat) by (destruct Hplace as [[-> _]|Hn%lookup_lt_Some]; lia).
  assert (Hfree : forall name, s.(req_ids) !! i <> Some (Some name)) by (intros name Hn; destruct Hplace as [[-> _]|]; [apply lookup_lt_Some in Hn; lia|congruence]).
  pose proof (ad_ids _ _ _ _ _ HA) as Ei. assert (Hids : forall k, s'.(req_ids) !! k = if decide (k = i) then Some (Some r.(req_id)) else s.(req_ids) !! k) by (intros k; rewrite Ei; by apply lookup_put).
  split.
  - by eapply added_sizes.
  - intros name k. rewrite (ad_index _ _ _ _ _ HA), Hids. destruct (decide (name = r.(req_id))) as [->|Hne].
    + rewrite lookup_insert_eq. case_decide as Hk; [subst; done|]. split; [congruence|]. intros Hn%Hx. congruence.
    + rewrite lookup_insert_ne by done. case_decide as Hk; [|apply Hx]. subst. split; [intros Hn%Hx; by apply Hfree in Hn|congruence].
  - intros k Hk Hp. destruct (ad_setup _ _ _ _ _ HA) as (_ & _ & Ep & _). rewrite Ep in Hp. assert (k <> i) by (intros ->; apply (Hk r.(req_id)); by rewrite Hids, decide_True).
    pose proof (pw_other _ _ _ (ad_params _ _ _ _ _ HA) k ltac:(done)) as E. pose proof (f_equal pr_generator E) as Eg. pose proof (f_equal pr_bad_words E) as Eb. simpl in Eg, Eb.
    rewrite Eg, Eb. apply (Hv k); [|done]. intros name Hn. apply (Hk name). by rewrite Hids, decide_False.
  - done.
  - intros k. rewrite Hrem, Hids, Hh. case_decide; naive_solver.
  - done.
Qed.

Lemma can_hold_setup s s' w r : same_setup s s' -> can_hold s w r -> can_hold s' w r.
Proof.
  intros (Em & Ev & Ep & Er & Ec) [H1 H2 H3 Hb H5 H6 H7]. split; rewrite ?Ep, ?Ev; try done. clear -Ec Hb. revert Hb. generalize r.(block_ids).
  induction Ec as [|t t' ts ts' Ht Ec IH]; intros bids Hb; [by inversion Hb|]. inversion Hb as [|? ids ? bids' [Hids Hfit] Hb']; subst. constructor; [|by apply IH].
  unfold same_config in Ht. destruct_and! Ht. unfold fits, id_ok in *. split; [eapply Forall_impl; [exact Hids|]; intros z; simpl|]; congruence.
Qed.

Lemma batch_added reqs r i w s s' mrows :
  Sizes s mrows w -> indexed s -> BatchOk reqs s mrows -> reqs !! r.(req_id) = Some r -> s.(req_id_to_index) !! r.(req_id) = None ->
  can_hold s w r -> Added r i w s s' -> (i < s.(ib_max_num_reqs))%nat -> (i <= length s.(req_ids))%nat -> (forall name, s.(req_id_to_index) !! name <> Some i) ->
  BatchOk reqs s' (added_tables i r.(block_ids) mrows).
Proof.
  intros HS Hx [HL Hr Hn Hb] Hreq Hnew Hc HA Hi Hle Hfree. pose proof (ad_index _ _ _ _ _ HA) as Ex. destruct (ad_setup _ _ _ _ _ HA) as (Em & Ev & Ep & Er & Ec).
  sizes HS. split; rewrite ?Ex.
  - rewrite (ad_lora _ _ _ _ _ HA). apply write_lora_ok; [done|done|done|lia|apply Hc].
  - intros name k. rewrite Ev. destruct (decide (name = r.(req_id))) as [->|Hne].
    + rewrite lookup_insert_eq. intros [= <-]. exists r. split; [done|]. by eapply added_row_self.
    + rewrite lookup_insert_ne by done. intros Hk. erewrite added_row_other; [by apply (Hr name)|done|done|done|done|apply Hx in Hk; by eapply lookup_lt_Some|]. intros ->. by apply (Hfree name).
  - rewrite Ep. intros Hp name. rewrite lookup_insert_None. intros [Hnone Hne]. destruct (ad_par _ _ _ _ _ HA Hp) as (p & _ & -> & _).
    rewrite name_params_other by done. by apply Hn.
  - rewrite Ep, Ev. intros Hp name k. destruct (ad_par _ _ _ _ _ HA Hp) as (p & Hsp & -> & _). destruct (decide (name = r.(req_id))) as [->|Hne].
    + intros _. exists r, p. split_and!; [done|done|]. apply name_params_self. by apply Hn.
    + rewrite lookup_insert_ne by done. rewrite name_params_other by done. by apply Hb.
Qed.

Lemma accepted_written i x x' v :
  ParWritten i x x' -> let x2 := set_accepted (<[i := v]> x'.(num_accepted_tokens_cpu)) x' in
  ParWritten i x x2 /\ (forall vocab r p acc, par_row x' i = par_of vocab r p acc -> (i < length x.(num_accepted_tokens_cpu))%nat -> par_row x2 i = par_of vocab r p (Some v)).
Proof.
  intros [[H1 H2] H3 H4] x2. split.
  - split; [split; [done|simpl; by rewrite length_insert]|done|]. intros k Hk. rewrite <- (H4 k Hk). unfold par_row. simpl. by rewrite list_lookup_insert_ne.
  - intros vocab r p acc E Hi. unfold par_row, par_of in *. simpl. injection E as -> -> -> -> -> -> _ -> ->. by rewrite list_lookup_insert_eq by lia.
Qed.

(** A new request gets a row that mirrors it. *)
Lemma add_ok reqs s mrows w r :
  Open s mrows w -> BatchOk reqs s mrows -> reqs !! r.(req_id) = Some r -> s.(req_id_to_index) !! r.(req_id) = None -> can_hold s w r ->
  (num_reqs s < s.(ib_max_num_reqs))%nat ->
  wp (add_request r) s (fun i s' => exists mrows', Open s' mrows' w /\ BatchOk reqs s' mrows' /\ Added r i w s s'
    /\ (forall k, (k < length s.(req_ids))%nat -> k <> i -> row s' mrows' k = row s mrows k)).
Proof.
  intros HO HB Hreq Hnew Hc Hroom. pose proof (op_sizes _ _ _ HO) as HS. unfold add_request. wp_step.
  eapply wp_mono; [by apply (register_ok s mrows w r HO)|]. intros i s1 (u & E1 & Hi & Hplace & Hnd & Hrem & Hso).
  assert (Hle : (i <= length s.(req_ids))%nat) by (destruct Hplace as [[-> _]|Hn%lookup_lt_Some]; lia).
  assert (Hfree : forall name, s.(req_ids) !! i <> Some (Some name)) by (intros name Hn; destruct Hplace as [[-> _]|]; [apply lookup_lt_Some in Hn; lia|congruence]).
  assert (HS1 : Sizes s1 mrows w) by (subst s1; destruct HS; by split). wp_step.
  eapply wp_mono; [apply (place_ok s1 mrows w r i HS1); by subst s1|]. intros ? s2 E2. cbn beta in E2. wp_step.
  pose proof (sz_tokens _ _ _ HS). pose proof (sz_flags _ _ _ HS). destruct (lookup_lt_is_Some_2 s.(toks).(token_ids_cpu) i) as [row0 Hrow0]; [lia|].
  destruct (lookup_lt_is_Some_2 s.(toks).(is_token_ids) i) as [frow0 Hfrow0]; [lia|].
  eapply wp_mono; [apply (write_tokens_ok s2 i r w row0 frow0); [by subst s2 s1|by subst s2 s1| | |]|].
  { by apply (proj1 (Forall_lookup _ _) (sz_width _ _ _ HS) i). }
  { by apply (proj1 (Forall_lookup _ _) (sz_flag_width _ _ _ HS) i). }
  { apply (can_hold_setup s); [by subst s2 s1|done]. }
  intros ? s3 (row' & frow' & emb & E3 & Hw & Hfw & Hk & Hf). wp_step. unfold on_tables_of. apply wp_zoom.
  eapply wp_mono; [apply (add_tables_ok s.(ib_max_num_reqs) mrows _ i r.(block_ids)); [by subst s3 s2 s1; apply HS|done|by subst s3 s2 s1; apply Hc]|].
  intros ? ts' [Hts Hcfg]. remember (set_tables ts' s3) as s4 eqn:E4. wp_step.
  eapply wp_mono; [apply (write_params_ok s4 i r w)|].
  { subst s4 s3 s2 s1. by apply (sizes_par s mrows w). }
  { by subst s4 s3 s2 s1. }
  { apply (can_hold_setup s); [|done]. subst s4 s3 s2 s1. done. }
  { subst s4 s3 s2 s1. by apply (op_vacant _ _ _ HO). }
  intros ? s5 (x & n & q & E5 & Hpw & Hsamp & Hpool). wp_steps.
  match goal with |- exists _, Open ?s' _ _ /\ _ => assert (HA : Added r i w s s') end.
  { destruct (accepted_written i s4.(params) x 1 Hpw) as [Hpw' Hself].
    subst s5 s4 s3 s2 s1. split; [done|done|done|done|done|by exists row', frow', emb|done|exact Hpw'|].
    intros Hp. destruct (Hsamp Hp) as (p & Hsp & En & Epar). exists p. split_and!; [done|done|]. apply (Hself _ _ _ _ Epar).
    pose proof (sizes_par _ _ _ HS) as [Hn _]. rewrite !Forall_cons in Hn. destruct_and! Hn. simpl. lia. }
  exists (added_tables i r.(block_ids) mrows). split_and!; [| |done|intros k Hk1 Hk2; by eapply (added_row_other r i w s)].
  - apply (added_open r i w s); try done; by subst s5 s4 s3 s2 s1.
  - apply (batch_added reqs r i w s); try done; [apply HO|]. intros name Hn%(op_indexed _ _ _ HO). by apply (Hfree name).
Qed.

(** ** Removing *)

Lemma batch_removed reqs reqs' s s' mrows w name i :
  Sizes s mrows w -> indexed s -> BatchOk reqs s mrows -> s.(req_id_to_index) !! name = Some i -> Removed name i s s' -> LoraOk s'.(req_id_to_index) s'.(loras) ->
  (forall name', name' <> name -> reqs' !! name' = reqs !! name') -> BatchOk reqs' s' (cleared_tables i mrows).
Proof.
  intros HS Hx [_ Hr Hn Hb] Hi HR HL Hreqs. pose proof (rm_index _ _ _ _ HR) as Ex. destruct (rm_setup _ _ _ _ HR) as (Em & Ev & Ep & Er & Ec).
  split; [done|rewrite Ex, ?Ev ..].
  - intros name' k [Hne Hk]%lookup_delete_Some. rewrite Hreqs by done. rewrite (removed_rows name i s s' mrows w k HS HR); [by apply Hr|].
    intros ->. by apply Hne, (indexed_inj s name name' i).
  - rewrite Ep. intros Hp name'. rewrite (rm_names _ _ _ _ HR), Hp. destruct (decide (name' = name)) as [->|Hne]; [intros _; apply discard_names_self|].
    rewrite lookup_delete_ne by done. rewrite discard_names_other by done. by apply Hn.
  - rewrite Ep. intros Hp name' k [Hne Hk]%lookup_delete_Some. rewrite (rm_names _ _ _ _ HR), Hp, discard_names_other by done. rewrite Hreqs by done. by apply (Hb Hp name' k).
Qed.

(** While requests are removed. *)
Record Removing (reqs : gmap ReqId CachedRequestState) (s : InputBatch) (mrows : list (list (list Z))) (w : nat) : Prop := {
  rg_open : Open s mrows w;
  rg_batch : BatchOk reqs s mrows;
  rg_unsorted : s.(upd).(is_removed_sorted) = false;
}.

Lemma removing_step reqs reqs' s mrows w name :
  Removing reqs s mrows w -> (forall name', name' <> name -> reqs' !! name' = reqs !! name') ->
  wp (remove_request name) s (fun _ s' => exists mrows', Removing reqs' s' mrows' w /\ same_setup s s' /\ s'.(req_id_to_index) = delete name s.(req_id_to_index)).
Proof.
  intros [HO HB Hf] Hreqs. destruct (s.(req_id_to_index) !! name) as [i|] eqn:Hi.
  - eapply wp_mono; [by apply (remove_ok s mrows w name i HO Hf (bk_lora _ _ _ HB))|]. intros o s' (_ & HR & HO' & HL). exists (cleared_tables i mrows).
    split_and!; [split|by apply HR|by apply HR]; [done| |apply HR]. by eapply (batch_removed reqs reqs' s s' mrows w name i); [apply HO|apply HO|..].
  - unfold remove_request. wp_steps. unfold id. rewrite Hi. wp_steps. exists mrows. split_and!; [split; try done|done|by rewrite delete_id].
    destruct HB as [HL Hr Hn Hb]. split; [done| |done|]; [intros name' k Hk; rewrite Hreqs by congruence; by apply Hr|].
    intros Hp name' k Hk. rewrite Hreqs by congruence. by apply (Hb Hp name' k).
Qed.
