(* ===== verification/Reorder.v ===== *)
(** * Splitting the batch into decodes and prefills

    Models [reorder_batch_to_split_decodes_and_prefills]
    ([vllm/v1/attention/backends/utils.py]), which the model runner calls after the batch
    has been condensed: requests are classed into four regions, and the rows that are in
    the wrong region are permuted by following the cycles of a map from rows to rows.

    The theorem: the loop ends, every request keeps the contents of its row, and the
    regions of the rows are in order. *)

From Stdlib Require Import SpecFloat.
From stdpp Require Import sorting.
From S2P Require Import Prelude BlockTable BlockTableProps InputBatch InputBatchProps InputBatchOps.

(** ** The code *)

(** Scheduled, computed and prompt tokens of a row. *)
Notation Counts := (Z * Z * Z)%type.

Section regions.
Context (decode_threshold : Z).

Definition has_context (x : Counts) : bool := let '(sched, computed, prompt) := x in 0 <? computed.
Definition is_below_threshold (x : Counts) : bool := let '(sched, computed, prompt) := x in sched <=? decode_threshold.
Definition done_prefilling (x : Counts) : bool := let '(sched, computed, prompt) := x in prompt <=? computed.

Definition is_pure_prefill (x : Counts) : bool := negb (has_context x).
Definition is_long_extend (x : Counts) : bool := has_context x && negb (is_below_threshold x).
Definition is_short_extend (x : Counts) : bool := has_context x && is_below_threshold x && negb (done_prefilling x).
Definition is_decode (x : Counts) : bool := has_context x && is_below_threshold x && done_prefilling x.

(** Assigned in this order over a default of 0. *)
Definition req_region (x : Counts) : nat :=
  if is_pure_prefill x then 3 else if is_long_extend x then 2 else if is_short_extend x then 1 else 0.

Definition count (p : Counts -> bool) (l : list Counts) : nat := length (filter (fun x => p x = true) l).

Definition target_regions (l : list Counts) : list nat :=
  replicate (count is_decode l) 0%nat ++ replicate (count is_short_extend l) 1%nat ++ replicate (count is_long_extend l) 2%nat ++ replicate (count is_pure_prefill l) 3%nat.
End regions.

(** The rows in the wrong region. *)
Definition orig_indices (regions target : list nat) : list nat := filter (fun i => regions !! i <> target !! i) (seq 0 (length regions)).

(** Those rows, sorted stably by their regions 0 to 3. *)
Definition src_indices (regions target : list nat) : list nat :=
  r ← [0; 1; 2; 3]%nat; filter (fun i => regions !! i = Some r) (orig_indices regions target).

(** [while src != dst] *)
Fixpoint follow_cycle (fuel : nat) (src dst : nat) (src_dest_map : gmap nat nat) : ibM (gmap nat nat) :=
  if decide (src = dst) then ret src_dest_map else
  match fuel with
  | O => raise RuntimeError
  | S fuel =>
      swap_states src dst ;;
      let next_dst := default dst (src_dest_map !! dst) in
      follow_cycle fuel src next_dst (<[dst := dst]> src_dest_map)
  end.

Fixpoint follow_cycles (fuel : nat) (srcs : list nat) (src_dest_map : gmap nat nat) : ibM unit :=
  match srcs with
  | [] => ret tt
  | src :: srcs =>
      dst <- lift (match src_dest_map !! src with Some dst => Ok dst | None => Raise KeyError end) ;;
      m <- follow_cycle fuel src dst src_dest_map ;;
      follow_cycles fuel srcs m
  end.

Definition row_counts (num_scheduled_tokens : gmap ReqId Z) (s : InputBatch) : res (list Counts) :=
  let n := length s.(req_ids) in
  let? scheds := rmap (fun o : option ReqId => match o ≫= (num_scheduled_tokens !!.) with Some k => Ok k | None => Raise KeyError end) s.(req_ids) in
  Ok (zip (zip scheds (take n s.(toks).(num_computed_tokens_cpu))) (take n s.(toks).(num_prompt_tokens))).

(** A row is swapped at most once per cycle, so the number of rows is fuel enough. *)
Definition reorder_batch_to_split_decodes_and_prefills (num_scheduled_tokens : gmap ReqId Z) (decode_threshold : Z) : ibM bool :=
  s <- gets id ;;
  counts <- lift (row_counts num_scheduled_tokens s) ;;
  let regions := req_region decode_threshold <$> counts in
  let target := target_regions decode_threshold counts in
  let orig := orig_indices regions target in
  if bool_decide (orig = []) then ret false else
  let src := src_indices regions target in
  follow_cycles (length orig) src (list_to_map (zip src orig)) ;;
  ret true.

(** ** Following the cycles *)

(** The rows of [s] are those of [s0], row [k] from row [rho k]. *)
Definition Permuted (s0 : InputBatch) (m0 : list (list (list Z))) (w : nat) (rho : nat -> nat) (s : InputBatch) : Prop :=
  exists mrows, Dense s mrows w /\ Carried s0 s m0 mrows /\ length s.(req_ids) = length s0.(req_ids) /\ rows_from rho s0 s m0 mrows.

Lemma permuted_swap s0 m0 w rho s i j :
  Permuted s0 m0 w rho s -> (i < length s0.(req_ids))%nat -> (j < length s0.(req_ids))%nat ->
  wp (swap_states i j) s (fun _ s' => Permuted s0 m0 w (fun k => rho (swapped i j k)) s').
Proof.
  intros (mrows & HD & HC & Hlen & Hrow) Hi Hj. rewrite <- Hlen in Hi, Hj. eapply wp_mono; [by apply (dense_swap s mrows w i j)|].
  intros _ s' (mrows' & HD' & HC' & Hlen' & Hrow'). exists mrows'. split_and!; [done|by eapply carried_trans|congruence|]. intros k. by rewrite Hrow', Hrow.
Qed.

Section cycles.
Context (s0 : InputBatch) (m0 : list (list (list Z))) (w : nat) (M : gmap nat nat).
Hypothesis M_inj : forall a b c, M !! a = Some c -> M !! b = Some c -> a = b.
Hypothesis M_rows : forall a b, M !! a = Some b -> (a < length s0.(req_ids))%nat.

(** Within the cycle of [src]: the rows of [V] are untouched, and row [src] holds what
    belongs to row [dst]. *)
Record Cycling (V : gset nat) (src dst : nat) (m : gmap nat nat) (rho : nat -> nat) : Prop := {
  cy_src : src ∉ V;
  cy_dst : dst ∈ V ∪ {[src]};
  cy_rest : forall k, k ∈ V -> m !! k = M !! k /\ rho k = k /\ exists b, M !! k = Some b /\ b ∈ V ∪ {[src]} /\ b <> dst;
  cy_held : M !! rho src = Some dst;
}.

(** After it, the rows of [V'] are untouched and the others of the cycle in place. *)
Record Cycled (V V' : gset nat) (src : nat) (m m' : gmap nat nat) (rho rho' : nat -> nat) : Prop := {
  cd_subset : V' ⊆ V;
  cd_src : M !! rho' src = Some src;
  cd_done : forall k, k ∈ V -> k ∉ V' -> M !! rho' k = Some k /\ m' !! k = Some k;
  cd_rest : forall k, k ∈ V' -> m' !! k = M !! k /\ rho' k = k /\ exists b, M !! k = Some b /\ b ∈ V';
  cd_frame : forall k, k ∉ V -> k <> src -> rho' k = rho k /\ m' !! k = m !! k;
}.

Lemma cycling_step V src dst m rho b :
  Cycling V src dst m rho -> src <> dst -> M !! dst = Some b ->
  Cycling (V ∖ {[dst]}) src b (<[dst := dst]> m) (fun k => rho (swapped src dst k)).
Proof.
  intros [Hs Hd Hr Hh] Hne Hb. assert (Hdst : dst ∈ V) by set_solver. destruct (Hr dst Hdst) as (_ & Hrd & b' & Hb' & Hbv & Hbd).
  assert (b' = b) as -> by congruence. split.
  - set_solver.
  - set_solver.
  - intros k Hk. assert (k ∈ V /\ k <> dst) as [HkV Hkd] by set_solver. assert (k <> src) by (intros ->; done). destruct (Hr k HkV) as (E1 & E2 & c & Hc & Hcv & Hcd).
    unfold swapped. rewrite lookup_insert_ne, !decide_False by done. split_and!; [done|done|]. exists c. split_and!; [done|set_solver|].
    intros ->. by apply Hkd, (M_inj k dst b).
  - unfold swapped. rewrite decide_False, decide_True by done. by rewrite Hrd.
Qed.

Lemma follow_cycle_ok fuel V src dst m rho s :
  Cycling V src dst m rho -> Permuted s0 m0 w rho s -> (size V <= fuel)%nat -> (src < length s0.(req_ids))%nat ->
  wp (follow_cycle fuel src dst m) s (fun m' s' => exists rho' V', Permuted s0 m0 w rho' s' /\ Cycled V V' src m m' rho rho').
Proof.
  revert V dst m rho s. induction fuel as [|fuel IH]; intros V dst m rho s HC HP Hf Hs; cbn [follow_cycle]; case_decide as Hd.
  1, 3: subst dst; wp_steps; exists rho, V; split; [done|]; destruct HC as [H1 H2 H3 H4]; split;
    [done|done|done| |done]; intros k Hk; destruct (H3 k Hk) as (E1 & E2 & b & Hb & Hbv & Hbs); split_and!; [done|done|]; exists b; split; [done|set_solver].
  { exfalso. assert (Hdst : dst ∈ V) by (destruct HC; set_solver). assert (size V = 0%nat) as E%size_empty_inv by lia. set_solver. }
  assert (Hdst : dst ∈ V) by (destruct HC; set_solver). destruct (cy_rest _ _ _ _ _ HC dst Hdst) as (Em & Er & b & Hb & _). wp_step.
  eapply wp_mono; [apply (permuted_swap s0 m0 w rho s src dst HP Hs); by eapply M_rows|]. intros ? s1 HP1. rewrite Em, Hb. simpl.
  eapply wp_mono; [apply (IH (V ∖ {[dst]}) b _ (fun k => rho (swapped src dst k)) s1); [by apply cycling_step|done| |done]|].
  { rewrite size_difference by set_solver. rewrite size_singleton. lia. }
  intros m' s' (rho' & V' & HP' & HC'). exists rho', V'. split; [done|]. destruct HC' as [D1 D2 D3 D4 D5]. split; [set_solver|done| |done|].
  - intros k Hk Hk'. destruct (decide (k = dst)) as [->|Hne]; [|apply D3; set_solver]. destruct (D5 dst) as [-> ->]; [set_solver|done|].
    unfold swapped. rewrite decide_True, lookup_insert_eq by done. split; [by apply HC|done].
  - intros k Hk Hks. destruct (D5 k) as [-> ->]; [set_solver|done|]. assert (k <> dst) by set_solver. unfold swapped. by rewrite lookup_insert_ne, !decide_False by done.
Qed.

(** Between the cycles: the rows of [U] are untouched. *)
Record Settling (U : gset nat) (srcs : list nat) (m : gmap nat nat) (rho : nat -> nat) : Prop := {
  se_todo : forall k, k ∈ U -> k ∈ srcs;
  se_rest : forall k, k ∈ U -> m !! k = M !! k /\ rho k = k /\ exists b, M !! k = Some b /\ b ∈ U;
  se_done : forall k, is_Some (M !! k) -> k ∉ U -> M !! rho k = Some k /\ (k ∈ srcs -> m !! k = Some k);
  se_other : forall k, M !! k = None -> rho k = k;
}.

Lemma settling_step U V' src srcs m m' rho rho' :
  Settling U (src :: srcs) m rho -> NoDup (src :: srcs) -> src ∈ U -> Cycled (U ∖ {[src]}) V' src m m' rho rho' -> Settling V' srcs m' rho'.
Proof.
  intros [H1 H2 H3 H4] Hnd Hs [D1 D2 D3 D4 D5]. apply NoDup_cons in Hnd as [Hnin _]. split.
  - intros k Hk. specialize (H1 k ltac:(set_solver)). apply elem_of_cons in H1 as [->|]; [set_solver|done].
  - done.
  - intros k Hk Hn. destruct (decide (k = src)) as [->|Hne]; [done|]. destruct (decide (k ∈ U)) as [HkU|HkU].
    + destruct (D3 k) as [E1 E2]; [set_solver|done|]. by rewrite E1, E2.
    + destruct (D5 k) as [-> ->]; [set_solver|done|]. destruct (H3 k Hk HkU) as [E1 E2]. split; [done|]. intros Hin. apply E2. by right.
  - intros k Hk. assert (k ∉ U) by (intros HkU; destruct (H2 k HkU) as (_ & _ & b & Hb & _); congruence). assert (k <> src) by (intros ->; done).
    destruct (D5 k) as [-> _]; [set_solver|done|]. by apply H4.
Qed.

Lemma follow_cycles_ok fuel U srcs m rho s :
  Settling U srcs m rho -> NoDup srcs -> (forall k, k ∈ srcs -> is_Some (M !! k)) -> Permuted s0 m0 w rho s -> (size U <= fuel)%nat ->
  wp (follow_cycles fuel srcs m) s (fun _ s' => exists rho', Permuted s0 m0 w rho' s' /\ (forall k, is_Some (M !! k) -> M !! rho' k = Some k)
    /\ (forall k, M !! k = None -> rho' k = k)).
Proof.
  revert U m rho s. induction srcs as [|src srcs IH]; intros U m rho s HS Hnd Hkeys HP Hf; cbn [follow_cycles].
  { wp_steps. exists rho. split_and!; [done| |by apply HS]. intros k Hk. apply (se_done _ _ _ _ HS k Hk). intros HkU. apply (se_todo _ _ _ _ HS) in HkU. by apply elem_of_nil in HkU. }
  destruct (Hkeys src ltac:(left)) as [d Hd]. wp_step. destruct (decide (src ∈ U)) as [HsU|HsU].
  - destruct (se_rest _ _ _ _ HS src HsU) as (Em & Er & b & Hb & HbU). assert (b = d) as -> by congruence. eapply wp_lift_ok; [by rewrite Em, Hd|]. wp_step.
    eapply wp_mono; [apply (follow_cycle_ok fuel (U ∖ {[src]}) src d m rho s); [|done| |by eapply M_rows]|].
    { split; [set_solver|destruct (decide (d = src)); set_solver| |by rewrite Er]. intros k Hk. assert (k ∈ U /\ k <> src) as [HkU Hks] by set_solver.
      destruct (se_rest _ _ _ _ HS k HkU) as (E1 & E2 & c & Hc & HcU). split_and!; [done|done|]. exists c. split_and!; [done|destruct (decide (c = src)); set_solver|].
      intros ->. by apply Hks, (M_inj k src d). }
    { transitivity (size U); [apply subseteq_size; set_solver|done]. }
    intros m' s' (rho' & V' & HP' & HC'). pose proof (cd_subset _ _ _ _ _ _ _ HC'). apply (IH V' m' rho'); [by eapply settling_step|by apply NoDup_cons in Hnd as []|by intros k Hk; apply Hkeys; right|done|].
    transitivity (size U); [apply subseteq_size; set_solver|done].
  - destruct (se_done _ _ _ _ HS src ltac:(eauto) HsU) as [Hp Hm]. eapply wp_lift_ok; [rewrite Hm by left; done|]. wp_step.
    assert (E : follow_cycle fuel src src m = ret m) by (destruct fuel; simpl; by rewrite decide_True). rewrite E. wp_step.
    apply (IH U m rho); [|by apply NoDup_cons in Hnd as []|by intros k Hk; apply Hkeys; right|done|done]. destruct HS as [H1 H2 H3 H4]. split; [|done| |done].
    + intros k Hk. specialize (H1 k Hk). apply elem_of_cons in H1 as [->|]; done.
    + intros k Hk HkU. destruct (H3 k Hk HkU) as [E1 E2]. split; [done|]. intros Hin. apply E2. by right.
Qed.
End cycles.

(** ** Regions *)

Lemma regions_sorted a b c d : StronglySorted le (replicate a 0 ++ replicate b 1 ++ replicate c 2 ++ replicate d 3)%nat.
Proof.
  assert (Hr : forall n v l, StronglySorted le l -> Forall (le v) l -> StronglySorted le (replicate n v ++ l)).
  { intros n v l Hs Hl. induction n as [|n IH]; [done|]. simpl. constructor; [done|]. apply Forall_app. split; [|done]. apply Forall_replicate. lia. }
  assert (Hd : StronglySorted le (replicate d 3%nat)) by (rewrite <- (app_nil_r (replicate d 3%nat)); apply Hr; constructor).
  repeat apply Hr; try done; repeat (apply Forall_app; split); apply Forall_replicate; lia.
Qed.

Lemma sorted_sublist (l l' : list nat) : sublist l l' -> StronglySorted le l' -> StronglySorted le l.
Proof.
  induction 1 as [|x l l' Hsub IH|x l l' Hsub IH]; [done| |]; intros [Hs Ha]%StronglySorted_inv; [|by apply IH].
  constructor; [by apply IH|]. rewrite Forall_forall in *. intros y Hy. apply Ha. by eapply elem_of_sublist.
Qed.

Lemma regions_grouped (l : list nat) :
  Forall (fun r => r < 4)%nat l ->
  l ≡ₚ replicate (length (filter (fun r => r = 0%nat) l)) 0%nat ++ replicate (length (filter (fun r => r = 1%nat) l)) 1%nat
    ++ replicate (length (filter (fun r => r = 2%nat) l)) 2%nat ++ replicate (length (filter (fun r => r = 3%nat) l)) 3%nat.
Proof.
  assert (Hmid : forall x (a b c d l : list nat), l ≡ₚ a ++ b ++ c ++ d -> x :: l ≡ₚ (x :: a) ++ b ++ c ++ d /\ x :: l ≡ₚ a ++ (x :: b) ++ c ++ d
    /\ x :: l ≡ₚ a ++ b ++ (x :: c) ++ d /\ x :: l ≡ₚ a ++ b ++ c ++ (x :: d)).
  { intros x a b c d l' ->. split_and!; [done|by rewrite Permutation_middle|by rewrite 2!(Permutation_middle _ _ x)|by rewrite 3!(Permutation_middle _ _ x)]. }
  induction 1 as [|x l Hx Hl IH]; [done|]. destruct (Hmid x _ _ _ _ _ IH) as (H0 & H1 & H2 & H3).
  assert (x = 0 \/ x = 1 \/ x = 2 \/ x = 3)%nat as [->|[->|[->| ->]]] by lia; rewrite !filter_cons; simpl; done.
Qed.

Lemma region_lt threshold x : (req_region threshold x < 4)%nat.
Proof. unfold req_region. repeat case_match; lia. Qed.

Lemma count_region threshold p r l :
  (forall x, p x = true <-> req_region threshold x = r) -> count p l = length (filter (fun v => v = r) (req_region threshold <$> l)).
Proof.
  intros Hp. unfold count. induction l as [|x l IH]; [done|]. cbn [fmap list_fmap]. rewrite !filter_cons. specialize (Hp x).
  repeat case_decide; simpl; rewrite ?IH; tauto.
Qed.

Lemma target_spec threshold l :
  StronglySorted le (target_regions threshold l) /\ req_region threshold <$> l ≡ₚ target_regions threshold l.
Proof.
  split; [apply regions_sorted|]. unfold target_regions. rewrite (count_region threshold _ 0), (count_region threshold _ 1), (count_region threshold _ 2), (count_region threshold _ 3).
  - apply regions_grouped, Forall_fmap, Forall_true. intros x. apply region_lt.
  - intros x. unfold req_region, is_pure_prefill, is_long_extend, is_short_extend. destruct (has_context x), (is_below_threshold threshold x), (done_prefilling x); done.
  - intros x. unfold req_region, is_pure_prefill, is_long_extend, is_short_extend. destruct (has_context x), (is_below_threshold threshold x), (done_prefilling x); done.
  - intros x. unfold req_region, is_pure_prefill, is_long_extend, is_short_extend. destruct (has_context x), (is_below_threshold threshold x), (done_prefilling x); done.
  - intros x. unfold req_region, is_pure_prefill, is_long_extend, is_short_extend, is_decode. destruct (has_context x), (is_below_threshold threshold x), (done_prefilling x); done.
Qed.

(** ** The permutation *)

Section permutation.
Context (R T : list nat).
Hypothesis RT : R ≡ₚ T.
Hypothesis T_sorted : StronglySorted le T.
Hypothesis R_small : Forall (fun r => r < 4)%nat R.

Notation orig := (orig_indices R T).
Notation src := (src_indices R T).

Lemma orig_elem i : i ∈ orig <-> R !! i <> T !! i /\ (i < length R)%nat.
Proof. unfold orig_indices. rewrite list_elem_of_filter, elem_of_seq. split; intros [? ?]; split; (done || lia). Qed.

Lemma orig_nodup : NoDup orig.
Proof. apply NoDup_filter, NoDup_seq. Qed.

Lemma src_elem i : i ∈ src <-> i ∈ orig.
Proof.
  unfold src_indices. rewrite list_elem_of_bind. split; [intros (r & Hi & _); by apply list_elem_of_filter in Hi as [_ ?]|]. intros Hi.
  pose proof (proj1 (orig_elem i) Hi) as [_ Hlt]. destruct (lookup_lt_is_Some_2 R i Hlt) as [r Hr]. pose proof (proj1 (Forall_lookup _ _) R_small i r Hr) as Hr4. simpl in Hr4.
  exists r. rewrite list_elem_of_filter. split; [done|]. assert (r = 0 \/ r = 1 \/ r = 2 \/ r = 3)%nat as [->|[->|[->| ->]]] by lia; set_solver.
Qed.

Lemma src_nodup : NoDup src.
Proof.
  apply NoDup_bind; [|intros r _; apply NoDup_filter, orig_nodup|by apply (bool_decide_unpack _)].
  intros r1 r2 i _ _ [H1 _]%list_elem_of_filter [H2 _]%list_elem_of_filter. congruence.
Qed.

Lemma src_orig : src ≡ₚ orig.
Proof. apply NoDup_Permutation; [apply src_nodup|apply orig_nodup|apply src_elem]. Qed.

Lemma region_of_group r : (R !!!.) <$> filter (fun i => R !! i = Some r) orig = replicate (length (filter (fun i => R !! i = Some r) orig)) r.
Proof.
  assert (Hall : Forall (fun i => R !! i = Some r) (filter (fun i => R !! i = Some r) orig)) by (apply Forall_forall; intros i Hi; by apply list_elem_of_filter in Hi as [? _]).
  induction Hall as [|i l Hi Hl IH]; [done|]. cbn [fmap list_fmap length replicate]. f_equal; [by apply list_lookup_total_correct|exact IH].
Qed.

Lemma lookup_total_seq (l : list nat) : (l !!!.) <$> seq 0 (length l) = l.
Proof.
  apply list_eq. intros i. rewrite list_lookup_fmap. destruct (decide (i < length l)%nat) as [Hi|Hi].
  - rewrite lookup_seq_lt by done. simpl. destruct (lookup_lt_is_Some_2 l i Hi) as [x Hx]. rewrite Hx. f_equal. by apply list_lookup_total_correct.
  - rewrite lookup_seq_ge by lia. symmetry. simpl. apply lookup_ge_None_2. lia.
Qed.

Lemma orig_regions : (R !!!.) <$> orig ≡ₚ (T !!!.) <$> orig.
Proof.
  pose proof (Permutation_length RT) as Hl. set (eqs := filter (fun i => ~ R !! i <> T !! i) (seq 0 (length R))).
  assert (Hsplit : orig ++ eqs ≡ₚ seq 0 (length R)) by apply filter_app_complement.
  assert (He : (R !!!.) <$> eqs = (T !!!.) <$> eqs).
  { apply list_fmap_ext. intros j i Hj. apply list_elem_of_lookup_2, list_elem_of_filter in Hj as [He _]. apply dec_stable in He. rewrite !list_lookup_total_alt. by rewrite He. }
  apply (Permutation_app_inv_r ((R !!!.) <$> eqs)). rewrite He at 2. rewrite <- !fmap_app, Hsplit. rewrite lookup_total_seq. rewrite Hl, lookup_total_seq. exact RT.
Qed.

(** The row that goes to the [j]-th wrong position has its region. *)
Lemma src_regions : (R !!!.) <$> src = (T !!!.) <$> orig.
Proof.
  apply (StronglySorted_unique le).
  - unfold src_indices. cbn [mbind list_bind]. rewrite app_nil_r, !fmap_app, !region_of_group. apply regions_sorted.
  - apply (sorted_sublist _ T); [|done]. rewrite <- (lookup_total_seq T) at 2. apply fmap_sublist. rewrite <- (Permutation_length RT). apply sublist_filter.
  - rewrite src_orig. apply orig_regions.
Qed.

Lemma dest_lookup a b : (list_to_map (zip src orig) : gmap nat nat) !! a = Some b <-> exists j, src !! j = Some a /\ orig !! j = Some b.
Proof.
  pose proof (Permutation_length src_orig) as Hl. rewrite <- elem_of_list_to_map by (rewrite fst_zip by lia; apply src_nodup).
  rewrite list_elem_of_lookup. split; intros (j & Hj); exists j; [apply lookup_zip_with_Some in Hj as (x & y & [= -> ->] & ? & ?); done|].
  apply lookup_zip_with_Some. destruct Hj. eauto.
Qed.
End permutation.

Lemma destinations R T :
  R ≡ₚ T -> StronglySorted le T -> Forall (fun r => r < 4)%nat R ->
  let M : gmap nat nat := list_to_map (zip (src_indices R T) (orig_indices R T)) in
  (forall a b c, M !! a = Some c -> M !! b = Some c -> a = b) /\ (forall a b, M !! a = Some b -> (a < length R)%nat)
  /\ (forall k, is_Some (M !! k) <-> k ∈ orig_indices R T).
Proof.
  intros RT HT Hs M. pose proof (fun a b => dest_lookup R T RT HT Hs a b) as HM. pose proof (Permutation_length (src_orig R T RT HT Hs)) as Hl. split_and!.
  - intros a b c (i & Ha & Hi)%HM (j & Hb & Hj)%HM. assert (i = j) as <- by (eapply NoDup_lookup; [apply orig_nodup|done|done]). congruence.
  - intros a b (i & Ha & _)%HM. apply list_elem_of_lookup_2, src_elem, orig_elem in Ha as [_ ?]; done.
  - intros k. rewrite <- (src_elem R T RT HT Hs k). split; [intros [b (i & Ha & _)%HM]; by eapply list_elem_of_lookup_2|]. intros [j Hj]%list_elem_of_lookup.
    destruct (lookup_lt_is_Some_2 (orig_indices R T) j) as [b Hb]; [rewrite <- Hl; by eapply lookup_lt_Some|]. exists b. apply HM. eauto.
Qed.

(** ** The counts of the rows *)

Definition counts_of (num_scheduled_tokens : gmap ReqId Z) (x : Row) : option Counts :=
  name ← x.(w_name) ≫= id; k ← num_scheduled_tokens !! name; c ← x.(w_computed); p ← x.(w_prompt); Some (k, c, p).

Lemma row_counts_ok sched s mrows w :
  Dense s mrows w -> (forall name, is_Some (s.(req_id_to_index) !! name) -> is_Some (sched !! name)) ->
  exists counts, row_counts sched s = Ok counts /\ length counts = length s.(req_ids)
    /\ forall k, (k < length s.(req_ids))%nat -> counts !! k = counts_of sched (row s mrows k).
Proof.
  intros [HS Hx _ Hfull] Hs. pose proof (sz_ids _ _ _ HS). sizes HS. unfold row_counts.
  assert (Hname : forall k, (k < length s.(req_ids))%nat -> exists name n, s.(req_ids) !! k = Some (Some name) /\ sched !! name = Some n).
  { intros k Hk. destruct (lookup_lt_is_Some_2 _ _ Hk) as [[name|] Hn]; [|by apply Hfull in Hn]. destruct (Hs name) as [n Hnn]; [exists k; by apply Hx|eauto]. }
  rewrite (rmap_fmap _ (fun o : option ReqId => default 0 (o ≫= (sched !!.)))).
  2: { intros o [k Hk]%list_elem_of_lookup. destruct (Hname k) as (name & n & Hk' & Hn); [by eapply lookup_lt_Some|].
       rewrite Hk in Hk'. injection Hk' as ->. simpl. by rewrite Hn. }
  cbn [rbind]. eexists. split; [done|]. split; [rewrite !length_zip_with, length_fmap, !length_take; lia|]. intros k Hk. destruct (Hname k Hk) as (name & n & Hn & Hsn).
  unfold counts_of, row. cbn [w_name w_computed w_prompt]. rewrite !lookup_zip_with, list_lookup_fmap, !lookup_take_lt by done. rewrite Hn. simpl. rewrite Hsn. simpl.
  destruct (lookup_lt_is_Some_2 s.(toks).(num_computed_tokens_cpu) k) as [c ->]; [lia|]. destruct (lookup_lt_is_Some_2 s.(toks).(num_prompt_tokens) k) as [p ->]; [lia|]. done.
Qed.

(** The permuted rows are in the regions of the target. *)
Lemma permuted_regions R T (R' : list nat) (rho : nat -> nat) :
  R ≡ₚ T -> StronglySorted le T -> Forall (fun r => r < 4)%nat R -> length R' = length R -> (forall k, (k < length R)%nat -> R' !! k = R !! rho k) ->
  let M : gmap nat nat := list_to_map (zip (src_indices R T) (orig_indices R T)) in
  (forall k, is_Some (M !! k) -> M !! rho k = Some k) -> (forall k, M !! k = None -> rho k = k) -> R' = T.
Proof.
  intros RT HT Hs Hl HR M H1 H2. destruct (destinations R T RT HT Hs) as (_ & _ & Hdom). fold M in Hdom. pose proof (Permutation_length RT) as Hlt.
  apply list_eq. intros k. destruct (decide (k < length R)%nat) as [Hk|Hk]; [|rewrite !lookup_ge_None_2; [done|lia|lia]]. rewrite HR by done.
  destruct (M !! k) as [b|] eqn:Hm.
  - pose proof (H1 k ltac:(eauto)) as Hx. apply (dest_lookup R T RT HT Hs) in Hx as (j & Hj & Hjo).
    pose proof (f_equal (.!! j) (src_regions R T RT HT Hs)) as E. rewrite !list_lookup_fmap, Hj, Hjo in E. simpl in E. injection E as E.
    assert (Hrk : (rho k < length R)%nat) by (apply list_elem_of_lookup_2, src_elem, orig_elem in Hj as [_ ?]; done).
    rewrite (list_lookup_lookup_total_lt R), (list_lookup_lookup_total_lt T) by lia. by rewrite E.
  - rewrite (H2 k Hm). destruct (decide (R !! k = T !! k)) as [?|Hne]; [done|]. exfalso. apply (is_Some_None (A := nat)). rewrite <- Hm. by apply Hdom, orig_elem.
Qed.

Lemma reorder_ok sched threshold s mrows w :
  Dense s mrows w -> (forall name, is_Some (s.(req_id_to_index) !! name) -> is_Some (sched !! name)) ->
  wp (reorder_batch_to_split_decodes_and_prefills sched threshold) s (fun _ s' => exists mrows' counts, Dense s' mrows' w /\ Carried s s' mrows mrows'
    /\ row_counts sched s' = Ok counts /\ StronglySorted le (req_region threshold <$> counts)).
Proof.
  intros HD Hs. destruct (row_counts_ok sched s mrows w HD Hs) as (counts & Hc & Hlen & Hrow). unfold reorder_batch_to_split_decodes_and_prefills.
  wp_steps. eapply wp_lift_ok; [exact Hc|]. destruct (target_spec threshold counts) as [HT RT]. set (R := req_region threshold <$> counts) in *. set (T := target_regions threshold counts) in *.
  assert (HR4 : Forall (fun r => r < 4)%nat R) by (apply Forall_fmap, Forall_true; intros x; apply region_lt).
  destruct (destinations R T RT HT HR4) as (Minj & Mrows & Mdom). assert (HlR : length R = length s.(req_ids)) by (subst R; by rewrite length_fmap).
  case_bool_decide as Hnil.
  { wp_steps. exists mrows, counts. split_and!; [done|apply carried_refl|done|]. fold R. assert (R = T) as ->; [|done].
    apply (permuted_regions R T R (fun k => k) RT HT HR4 eq_refl (fun _ _ => eq_refl)); [|done]. intros k Hk. exfalso. apply Mdom in Hk. rewrite Hnil in Hk. by apply elem_of_nil in Hk. }
  wp_step. pose proof (src_orig R T RT HT HR4) as Hperm.
  eapply wp_mono; [apply (follow_cycles_ok s mrows w _ Minj ltac:(intros a b Ha; rewrite <- HlR; by eapply Mrows) _ (list_to_set (src_indices R T)) _ _ (fun k => k))|].
  - split; [by intros k Hk%elem_of_list_to_set| | |done].
    + intros k Hk%elem_of_list_to_set. split_and!; [done|done|]. destruct (proj2 (Mdom k)) as [b Hb]; [by rewrite <- Hperm|]. exists b. split; [done|].
      apply elem_of_list_to_set. rewrite Hperm. apply (dest_lookup R T RT HT HR4) in Hb as (j & _ & Hj). by eapply list_elem_of_lookup_2.
    + intros k Hk Hn. exfalso. apply Hn, elem_of_list_to_set. rewrite Hperm. by apply Mdom.
  - by apply src_nodup.
  - intros k Hk. apply Mdom. by rewrite <- Hperm.
  - exists mrows. split_and!; [done|apply carried_refl|done|done].
  - rewrite size_list_to_set by (by apply src_nodup). by rewrite Hperm.
  - intros ? s' (rho & (mrows' & HD' & HC' & Hlen' & Hrow') & H1 & H2). wp_steps.
    destruct (row_counts_ok sched s' mrows' w HD') as (counts' & Hc' & Hlc' & Hrc'); [intros name Hn; apply Hs; by apply (ca_dom _ _ _ _ HC')|].
    exists mrows', counts'. split_and!; [done|done|done|]. rewrite (permuted_regions R T (req_region threshold <$> counts') rho RT HT HR4); [done| | |exact H1|exact H2].
    + rewrite length_fmap. lia.
    + intros k Hk. assert (Hrk : (rho k < length R)%nat).
      { destruct ((list_to_map (zip (src_indices R T) (orig_indices R T)) : gmap nat nat) !! k) eqn:E; [|by rewrite (H2 k E)]. by eapply Mrows, H1. }
      subst R. rewrite !list_lookup_fmap. rewrite Hrc' by lia. rewrite Hrow'. rewrite Hrow by lia. done.
Qed.
