(* ===== verification/WorkerStates.v ===== *)
(** * The states of the model runner

    Models [_update_states] of [GPUModelRunner] ([vllm/v1/worker/gpu_model_runner.py]), which
    brings the cached states of the requests and the persistent batch up to date with the
    output of the scheduler, and the part of [_bookkeeping_sync] that records sampled
    tokens.  Both ranks of a pipeline are modelled, with synchronous scheduling and
    without drafts proposed on the device.

    A request that waits to be added is named here; the code holds the object that
    [requests] maps its name to.  The order in which Python iterates over a set is the
    argument [iterate], and the update a pooler makes to pooling parameters the argument
    [get_pooling_updates].  M-RoPE positions, the encoder cache, late interaction and the
    copies and zeroing of blocks on the device are not modelled, nor the assertion that the
    parameters of a pooling request name a task. *)

From Stdlib Require Import SpecFloat.
From S2P Require Import Prelude BlockTable InputBatch Reorder.

(** ** What the scheduler sends *)

Record NewRequestData := mkNewRequestData {
  nr_req_id : ReqId;
  nr_prompt_token_ids : option (list Z);
  nr_prompt_embeds : option Embeds;
  nr_prompt_is_token_ids : option (list bool);
  nr_sampling_params : option SamplingParams;
  nr_pooling_params : option Pooling;
  nr_block_ids : list (list Z);
  nr_num_computed_tokens : Z;
  nr_lora_request : option (Z * object);
}.

Record CachedRequestData := mkCachedRequestData {
  cd_req_ids : list ReqId;
  resumed_req_ids : gset ReqId;
  new_token_ids : list (list Z);
  new_block_ids : list (option (list (list Z)));
  cd_num_computed_tokens : list Z;
  num_output_tokens : list nat;
}.

Record SchedulerOutput := mkSchedulerOutput {
  finished_req_ids : gset ReqId;
  num_scheduled_tokens : gmap ReqId Z;
  scheduled_new_reqs : list NewRequestData;
  scheduled_cached_reqs : CachedRequestData;
  scheduled_spec_decode_tokens : gmap ReqId (list Z);
}.

(** ** The runner *)

Record Runner := mkRunner {
  is_last_rank : bool;
  has_kv_cache_groups : bool;
  reorder_batch_threshold : option Z;
  max_model_len : Z;
  requests : gmap ReqId CachedRequestState;
  num_prompt_logprobs : gmap ReqId Z;
  input_batch : InputBatch;
}.

Notation runnerM := (M Runner).

Definition set_requests (x : gmap ReqId CachedRequestState) (s : Runner) : Runner :=
  mkRunner s.(is_last_rank) s.(has_kv_cache_groups) s.(reorder_batch_threshold) s.(max_model_len) x s.(num_prompt_logprobs) s.(input_batch).

Definition set_prompt_logprobs (x : gmap ReqId Z) (s : Runner) : Runner :=
  mkRunner s.(is_last_rank) s.(has_kv_cache_groups) s.(reorder_batch_threshold) s.(max_model_len) s.(requests) x s.(input_batch).

Definition set_batch (x : InputBatch) (s : Runner) : Runner :=
  mkRunner s.(is_last_rank) s.(has_kv_cache_groups) s.(reorder_batch_threshold) s.(max_model_len) s.(requests) s.(num_prompt_logprobs) x.

Definition on_batch {A : Type} (op : ibM A) : runnerM A := zoom input_batch set_batch op.

(** [self.requests[req_id]] *)
Definition get_request (name : ReqId) : runnerM CachedRequestState :=
  s <- gets id ;;
  lift (match s.(requests) !! name with Some r => Ok r | None => Raise KeyError end).

Definition put_request (name : ReqId) (r : CachedRequestState) : runnerM unit :=
  modify (fun s => set_requests (<[name := r]> s.(requests)) s).

(** *** Fields of a cached state *)

Definition with_outputs (l : list Z) (r : CachedRequestState) : CachedRequestState :=
  mkCached r.(req_id) r.(prompt_token_ids) r.(prompt_is_token_ids) r.(prompt_embeds) l r.(cr_num_computed_tokens) r.(block_ids) r.(sampling_params)
    r.(pooling_params_of) r.(generator) r.(lora_request).

Definition with_computed (n : Z) (r : CachedRequestState) : CachedRequestState :=
  mkCached r.(req_id) r.(prompt_token_ids) r.(prompt_is_token_ids) r.(prompt_embeds) r.(output_token_ids) n r.(block_ids) r.(sampling_params)
    r.(pooling_params_of) r.(generator) r.(lora_request).

Definition with_blocks (b : list (list Z)) (r : CachedRequestState) : CachedRequestState :=
  mkCached r.(req_id) r.(prompt_token_ids) r.(prompt_is_token_ids) r.(prompt_embeds) r.(output_token_ids) r.(cr_num_computed_tokens) b r.(sampling_params)
    r.(pooling_params_of) r.(generator) r.(lora_request).

(** *** Requests that leave *)

Definition finish_request (name : ReqId) : runnerM unit :=
  modify (fun s => set_prompt_logprobs (delete name s.(num_prompt_logprobs)) (set_requests (delete name s.(requests)) s)).

Definition unscheduled_req_ids (o : SchedulerOutput) (s : Runner) : gset ReqId :=
  dom s.(input_batch).(req_id_to_index) ∖ (dom o.(num_scheduled_tokens) ∖ o.(scheduled_cached_reqs).(resumed_req_ids)).

(** *** New requests *)

Section runner.
Context (iterate : gset ReqId -> list ReqId).
Context (get_pooling_updates : Pooling -> Pooling).

(** The prompt flags, the generator and the adapter keep their old values. *)
Definition update_streaming_request (name : ReqId) (d : NewRequestData) : runnerM unit :=
  on_batch (remove_request name) ;;
  r <- get_request name ;;
  put_request name (mkCached r.(req_id) d.(nr_prompt_token_ids) r.(prompt_is_token_ids) d.(nr_prompt_embeds) r.(output_token_ids) d.(nr_num_computed_tokens)
    d.(nr_block_ids) d.(nr_sampling_params) d.(nr_pooling_params) r.(generator) r.(lora_request)) ;;
  lift (length_from_prompt_token_ids_or_embeds d.(nr_prompt_token_ids) d.(nr_prompt_embeds)) ;;
  r <- get_request name ;;
  put_request name (with_outputs [] r).

(** The constructor checks the lengths of the prompt. *)
Definition new_cached_state (is_pooling : bool) (d : NewRequestData) : res CachedRequestState :=
  let generator := match d.(nr_sampling_params) with Some p => p.(random_seed) | None => None end in
  let? pooling := (if is_pooling then match d.(nr_pooling_params) with Some q => Ok (Some (get_pooling_updates q)) | None => Raise AssertionError end
                   else Ok d.(nr_pooling_params)) in
  let? _ := length_from_prompt_token_ids_or_embeds d.(nr_prompt_token_ids) d.(nr_prompt_embeds) in
  Ok (mkCached d.(nr_req_id) d.(nr_prompt_token_ids) d.(nr_prompt_is_token_ids) d.(nr_prompt_embeds) [] d.(nr_num_computed_tokens) d.(nr_block_ids)
    d.(nr_sampling_params) pooling generator d.(nr_lora_request)).

Definition add_new_request (d : NewRequestData) : runnerM unit :=
  s <- gets id ;;
  if bool_decide (is_Some (s.(requests) !! d.(nr_req_id))) then update_streaming_request d.(nr_req_id) d else
  r <- lift (new_cached_state s.(input_batch).(is_pooling_model) d) ;;
  put_request d.(nr_req_id) r ;;
  match d.(nr_sampling_params) with
  | Some p =>
      match p.(prompt_logprobs) with
      | Some n => modify (fun s => set_prompt_logprobs (<[d.(nr_req_id) := if n =? -1 then s.(input_batch).(vocab_size) else n]> s.(num_prompt_logprobs)) s)
      | None => ret tt
      end
  | None => ret tt
  end.

(** *** Running and resumed requests *)

(** [l[-n:]] *)
Definition last_items (n : nat) (l : list Z) : list Z := if decide (n = 0%nat) then l else drop (length l - n) l.

Definition num_tokens_of (r : CachedRequestState) : res Z :=
  let? n := length_from_prompt_token_ids_or_embeds r.(prompt_token_ids) r.(prompt_embeds) in Ok (cr_num_tokens r n).

(** The sampled tokens, sent back to the ranks that do not sample. *)
Definition extend_outputs (num_computed : Z) (tokens : list Z) (r : CachedRequestState) : res CachedRequestState :=
  let? n := num_tokens_of r in
  let num_new_tokens := num_computed + Z.of_nat (length tokens) - n in
  if num_new_tokens =? 1 then match last tokens with Some t => Ok (with_outputs (r.(output_token_ids) ++ [t]) r) | None => Raise IndexError end
  else if 0 <? num_new_tokens then Ok (with_outputs (r.(output_token_ids) ++ last_items (Z.to_nat num_new_tokens) tokens) r)
  else Ok r.

(** [for block_ids, new_ids in zip(...): block_ids.extend(new_ids)] *)
Fixpoint extend_blocks (blocks new : list (list Z)) : list (list Z) :=
  match blocks, new with
  | b :: blocks, n :: new => (b ++ n) :: extend_blocks blocks new
  | blocks, _ => blocks
  end.

Definition set_no_spec (i : nat) (f : InputBatch -> Z) : ibM unit :=
  s <- gets id ;;
  upd_toks (fun x => set_numbers (<[i := f s]> x.(num_tokens_no_spec)) x.(num_prompt_tokens) x.(num_computed_tokens_cpu) x.(replayssm_decode_base) x).

Definition set_computed (i : nat) (n : Z) : ibM unit :=
  upd_toks (fun x => set_numbers x.(num_tokens_no_spec) x.(num_prompt_tokens) (<[i := n]> x.(num_computed_tokens_cpu)) x.(replayssm_decode_base) x).

(** The tokens of a request in the batch, on the ranks that do not sample. *)
Definition append_tokens (i : nat) (num_computed : Z) (tokens : list Z) : ibM unit :=
  s <- gets id ;;
  let start_token_index := default 0 (s.(toks).(num_tokens_no_spec) !! i) in
  let end_token_index := Z.max start_token_index (num_computed + Z.of_nat (length tokens)) in
  if start_token_index <? end_token_index then
    (if bool_decide (tokens = []) then ret tt
     else assign_tokens i start_token_index end_token_index (last_items (Z.to_nat (end_token_index - start_token_index)) tokens)) ;;
    assign_flags i start_token_index end_token_index [true] ;;
    set_no_spec i (fun _ => end_token_index)
  else ret tt.

(** The output tokens of the [k]-th request: extended, or cut where tokens were discarded. *)
Definition sync_outputs (d : CachedRequestData) (k : nat) (name : ReqId) (req_index : option nat) (num_computed : Z) (num_output : nat) : runnerM (list Z) :=
  s <- gets id ;;
  r <- get_request name ;;
  if negb s.(is_last_rank) then
    if bool_decide (d.(new_token_ids) = []) then ret [] else
    tokens <- lift (np_get d.(new_token_ids) k) ;;
    r' <- lift (extend_outputs num_computed tokens r) ;;
    put_request name r' ;;
    ret tokens
  else if decide (num_output < length r.(output_token_ids))%nat then
    put_request name (with_outputs (take num_output r.(output_token_ids)) r) ;;
    match req_index with
    | Some i => on_batch (set_no_spec i (fun b => default 0 (b.(toks).(num_prompt_tokens) !! i) + Z.of_nat num_output)) ;; ret []
    | None => ret []
    end
  else ret [].

Definition sync_blocks (resumed : bool) (name : ReqId) (req_index : option nat) (blocks : option (list (list Z))) : runnerM unit :=
  if negb resumed then
    match blocks with
    | Some b => r <- get_request name ;; put_request name (with_blocks (extend_blocks r.(block_ids) b) r)
    | None => ret tt
    end
  else
    check (bool_decide (req_index = None)) AssertionError ;;
    b <- lift (match blocks with Some b => Ok b | None => Raise AssertionError end) ;;
    r <- get_request name ;;
    put_request name (with_blocks b r).

Definition sync_row (o : SchedulerOutput) (name : ReqId) (i : nat) (num_computed : Z) (blocks : option (list (list Z))) (tokens : list Z) : runnerM unit :=
  s <- gets id ;;
  on_batch (set_computed i num_computed) ;;
  (match blocks with Some b => on_batch (on_tables_of (multi_append_row b i)) | None => ret tt end) ;;
  (if negb s.(is_last_rank) then on_batch (append_tokens i num_computed tokens) else ret tt) ;;
  on_batch (update_req_spec_token_ids name (default [] (o.(scheduled_spec_decode_tokens) !! name))).

(** The [k]-th request of the list; whether it has to be added to the batch. *)
Definition update_cached_request (o : SchedulerOutput) (k : nat) (name : ReqId) : runnerM bool :=
  let d := o.(scheduled_cached_reqs) in
  r <- get_request name ;;
  num_computed <- lift (np_get d.(cd_num_computed_tokens) k) ;;
  blocks <- lift (np_get d.(new_block_ids) k) ;;
  let resumed := bool_decide (name ∈ d.(resumed_req_ids)) in
  num_output <- lift (np_get d.(num_output_tokens) k) ;;
  s <- gets id ;;
  let req_index := s.(input_batch).(req_id_to_index) !! name in
  put_request name (with_computed num_computed r) ;;
  tokens <- sync_outputs d k name req_index num_computed num_output ;;
  sync_blocks resumed name req_index blocks ;;
  match req_index with
  | None => ret true
  | Some i => sync_row o r.(req_id) i num_computed blocks tokens ;; ret false
  end.

(** The requests that have to be added. *)
Fixpoint update_cached_requests (o : SchedulerOutput) (k : nat) (names : list ReqId) : runnerM (list ReqId) :=
  match names with
  | [] => ret []
  | name :: names =>
      to_add <- update_cached_request o k name ;;
      rest <- update_cached_requests o (S k) names ;;
      ret (if to_add : bool then name :: rest else rest)
  end.

(** *** The step *)

Definition add_to_batch (o : SchedulerOutput) (name : ReqId) : runnerM unit :=
  r <- get_request name ;;
  on_batch (add_request r) ;;
  on_batch (update_req_spec_token_ids r.(req_id) (default [] (o.(scheduled_spec_decode_tokens) !! r.(req_id)))).

Definition may_reorder_batch (o : SchedulerOutput) : runnerM unit :=
  s <- gets id ;;
  if negb s.(has_kv_cache_groups) then ret tt else
  match s.(reorder_batch_threshold) with
  | Some threshold => on_batch (reorder_batch_to_split_decodes_and_prefills o.(num_scheduled_tokens) threshold) ;; ret tt
  | None => ret tt
  end.

(** Requests that are finished or not scheduled leave the batch. *)
Definition drop_requests (o : SchedulerOutput) : runnerM unit :=
  for_each (iterate o.(finished_req_ids)) finish_request ;;
  for_each (iterate o.(finished_req_ids)) (fun name => on_batch (remove_request name) ;; ret tt) ;;
  s <- gets id ;;
  for_each (iterate (unscheduled_req_ids o s)) (fun name => on_batch (remove_request name) ;; ret tt).

Definition settle_batch (o : SchedulerOutput) : runnerM unit :=
  on_batch condense ;;
  may_reorder_batch o ;;
  on_batch refresh_metadata ;;
  ret tt.

Definition update_states (o : SchedulerOutput) : runnerM unit :=
  drop_requests o ;;
  for_each o.(scheduled_new_reqs) add_new_request ;;
  to_add <- update_cached_requests o 0 o.(scheduled_cached_reqs).(cd_req_ids) ;;
  for_each ((nr_req_id <$> o.(scheduled_new_reqs)) ++ to_add) (add_to_batch o) ;;
  settle_batch o.
End runner.

(** ** Sampled tokens *)

Definition record_row (i : nat) (sampled_ids : list Z) : runnerM unit :=
  if bool_decide (sampled_ids = []) then ret tt else
  s <- gets id ;;
  let start_idx := default 0 (s.(input_batch).(toks).(num_tokens_no_spec) !! i) in
  let end_idx := start_idx + Z.of_nat (length sampled_ids) in
  check (end_idx <=? s.(max_model_len)) AssertionError ;;
  on_batch (assign_tokens i start_idx end_idx sampled_ids) ;;
  on_batch (assign_flags i start_idx end_idx [true]) ;;
  on_batch (set_no_spec i (fun _ => end_idx)) ;;
  o <- lift (np_get s.(input_batch).(req_ids) i) ;;
  name <- lift (match o with Some name => Ok name | None => Raise KeyError end) ;;
  r <- get_request name ;;
  put_request name (with_outputs (r.(output_token_ids) ++ sampled_ids) r).

Fixpoint record_rows (i : nat) (valid_sampled_token_ids : list (list Z)) : runnerM unit :=
  match valid_sampled_token_ids with
  | [] => ret tt
  | ids :: rest => record_row i ids ;; record_rows (S i) rest
  end.
