(* ===== verification/WorkerRows.v ===== *)
(** * Rows of running requests

    [Held]: row [i] of the batch holds a request.  The updates the runner makes to a row
    change nothing else ([Touched]) and turn the row of a request into the row of its
    updated state. *)

From Stdlib Require Import SpecFloat.
From stdpp Require Import sorting.
From S2P Require Import Prelude BlockTable BlockTableProps InputBatch InputBatchProps InputBatchOps InputBatchMirror Reorder WorkerStates.

(** ** Changes to one row *)

Record Touched (i : nat) (s s' : InputBatch) (mrows mrows' : list (list (list Z))) (w : nat) : Prop := {
  to_sizes : Sizes s' mrows' w;
  to_setup : same_setup s s';
  to_ids : s'.(req_ids) = s.(req_ids);
  to_index : s'.(req_id_to_index) = s.(req_id_to_index);
  to_names : s'.(names) = s.(names);
  to_loras : s'.(loras) = s.(loras);
  to_params : s'.(params) = s.(params);
  to_upd : s'.(upd) = s.(upd);
  to_other : forall k, k <> i -> row s' mrows' k = row s mrows k;
}.

Lemma touched_trans i s1 s2 s3 m1 m2 m3 w : Touched i s1 s2 m1 m2 w -> Touched i s2 s3 m2 m3 w -> Touched i s1 s3 m1 m3 w.
Proof.
  intros [A1 A2 A3 A4 A5 A6 A7 A8 A9] [B1 B2 B3 B4 B5 B6 B7 B8 B9]. split; [done|by etrans|by rewrite B3|by rewrite B4|by rewrite B5|by rewrite B6|by rewrite B7|by rewrite B8|].
  intros k Hk. by rewrite B9, A9.
Qed.

Lemma touched_refl i s m w : Sizes s m w -> Touched i s s m m w.
Proof. by split. Qed.

Lemma touched_open i s s' mrows mrows' w : Open s mrows w -> Touched i s s' mrows mrows' w -> Open s' mrows' w.
Proof.
  intros [HS Hx Hv Hnd Hh Hso] [A1 (_ & _ & Ep & _) A3 A4 A5 A6 A7 A8 A9]. split; rewrite ?A8; try done.
  - intros name k. rewrite A3, A4. apply Hx.
  - intros k Hk. unfold vacant. rewrite A7, Ep. apply Hv. intros name. rewrite <- A3. apply Hk.
  - intros k. rewrite A3. apply Hh.
Qed.

Lemma touched_dense i s s' mrows mrows' w : Dense s mrows w -> Touched i s s' mrows mrows' w -> Dense s' mrows' w.
Proof.
  intros [HS Hx Hv Hfull] [A1 (_ & _ & Ep & _) A3 A4 A5 A6 A7 A8 A9]. split; [done| | |intros k; rewrite A3; apply Hfull].
  - intros name k. rewrite A3, A4. apply Hx.
  - intros k Hk. unfold vacant. rewrite A7, Ep. apply Hv. intros name. rewrite <- A3. apply Hk.
Qed.

(** The batch mirrors the requests when the row mirrors the updated one. *)
Lemma touched_batch reqs i s s' mrows mrows' w name r' :
  indexed s -> BatchOk reqs s mrows -> Touched i s s' mrows mrows' w -> s.(req_id_to_index) !! name = Some i ->
  mirror s.(vocab_size) (row s' mrows' i) r' -> (forall r, reqs !! name = Some r -> r'.(sampling_params) = r.(sampling_params)) ->
  BatchOk (<[name := r']> reqs) s' mrows'.
Proof.
  intros Hx [HL Hr Hn Hb] [A1 (_ & Ev & Ep & _) A3 A4 A5 A6 A7 A8 A9] Hi Hm Hsp.
  assert (Hk : forall name' k, name' <> name -> s.(req_id_to_index) !! name' = Some k -> k <> i) by (intros name' k Hne Hk ->; by apply Hne, (indexed_inj s name' name i)).
  split; rewrite ?A4, ?A5, ?A6, ?Ep, ?Ev; [done| |done|].
  - intros name' k Hk'. destruct (decide (name' = name)) as [->|Hne].
    + assert (k = i) as -> by congruence. exists r'. by rewrite lookup_insert_eq.
    + rewrite lookup_insert_ne by done. rewrite A9 by (by eapply Hk). by apply Hr.
  - intros Hp name' k Hk'. destruct (Hb Hp name' k Hk') as (r & p & Hreq & Hs & E). destruct (decide (name' = name)) as [->|Hne].
    + exists r', p. rewrite lookup_insert_eq, (Hsp r Hreq). done.
    + exists r, p. by rewrite lookup_insert_ne.
Qed.

(** ** Row [i] holds [r] *)

Record Held (s : InputBatch) (mrows : list (list (list Z))) (w i : nat) (r : CachedRequestState) : Prop := {
  he_name : s.(req_ids) !! i = Some (Some r.(req_id));
  he_output : s.(req_output_token_ids) !! i = Some (Some r.(req_id));
  he_prompt : s.(toks).(num_prompt_tokens) !! i = Some (prompt_len r);
  he_no_spec : s.(toks).(num_tokens_no_spec) !! i = Some (cr_num_tokens r (prompt_len r));
  he_computed : s.(toks).(num_computed_tokens_cpu) !! i = Some r.(cr_num_computed_tokens);
  he_tokens : exists row, s.(toks).(token_ids_cpu) !! i = Some row /\ knows r (take (total_len r) row);
  he_flags : exists row, s.(toks).(is_token_ids) !! i = Some row /\ take (total_len r) row = prompt_flags r ++ replicate (length r.(output_token_ids)) true;
  he_length : (total_len r <= w)%nat;
  he_blocks : (fun rows : list (list Z) => rows !! i) <$> mrows = Some <$> r.(block_ids);
  he_lora : s.(loras).(request_lora_mapping) !! i = Some (lora_of r);
  he_params : s.(is_pooling_model) = false -> exists p acc, r.(sampling_params) = Some p /\ par_row s.(params) i = par_of s.(vocab_size) r p acc;
}.

Lemma active_held s i r : s.(toks).(num_tokens_no_spec) !! i = Some (cr_num_tokens r (prompt_len r)) -> 0 <= prompt_len r ->
  get_active_token_count s i = (total_len r + length (default [] (s.(spec_token_ids) !! i)))%nat.
Proof. intros E H0. unfold get_active_token_count, total_len. rewrite E. simpl default at 1. unfold cr_num_tokens. lia. Qed.

Lemma held_mirror s mrows w i r : Sizes s mrows w -> 0 <= prompt_len r -> Held s mrows w i r -> mirror s.(vocab_size) (row s mrows i) r.
Proof.
  intros HS H0 [H1 H2 H3 H4 H5 (trow & Ht & Hk) (frow & Hf & Hkf) Hl Hb Hlo Hp]. pose proof (active_held s i r H4 H0) as Ea.
  split; unfold row; rewrite ?Ea; simpl; try done.
  - rewrite Ht. simpl. eexists. split; [done|]. rewrite take_take, Nat.min_l by lia. split; [|done]. rewrite length_take.
    rewrite (proj1 (Forall_lookup _ _) (sz_width _ _ _ HS) _ _ Ht). lia.
  - rewrite Hf. simpl. eexists. split; [done|]. by rewrite take_take, Nat.min_l by lia.
  - intros y. destruct s.(is_pooling_model); [done|]. intros [= <-]. destruct (Hp eq_refl) as (p & acc & Hsp & E). eauto.
Qed.

Lemma mirror_held s mrows w i r : Sizes s mrows w -> 0 <= prompt_len r -> mirror s.(vocab_size) (row s mrows i) r -> Held s mrows w i r.
Proof.
  intros HS H0 [H1 H2 H3 H4 (l & Ht & Hlen & Hk) (f & Hf & Hkf) H5 Hb Hlo Hp]. unfold row in *. simpl in *. pose proof (active_held s i r H4 H0) as Ea. rewrite Ea in Ht, Hf.
  destruct (s.(toks).(token_ids_cpu) !! i) as [trow|] eqn:Et; [|done]. destruct (s.(toks).(is_token_ids) !! i) as [frow|] eqn:Ef; [|done].
  injection Ht as <-. injection Hf as <-. rewrite take_take, Nat.min_l in Hk by lia. rewrite take_take, Nat.min_l in Hkf by lia. rewrite length_take, (proj1 (Forall_lookup _ _) (sz_width _ _ _ HS) _ _ Et) in Hlen.
  split; try done; [by eexists|by eexists|lia|]. intros Hpool. rewrite Hpool in Hp. destruct (Hp _ eq_refl) as (p & acc & Hsp & E). eauto.
Qed.

(** ** Updates *)

(** The parts of a request that do not change while it runs. *)
Definition same_request (r r' : CachedRequestState) : Prop :=
  r'.(req_id) = r.(req_id) /\ r'.(prompt_token_ids) = r.(prompt_token_ids) /\ r'.(prompt_is_token_ids) = r.(prompt_is_token_ids)
  /\ r'.(prompt_embeds) = r.(prompt_embeds) /\ r'.(sampling_params) = r.(sampling_params) /\ r'.(generator) = r.(generator) /\ r'.(lora_request) = r.(lora_request).

Lemma same_request_prompt r r' : same_request r r' -> prompt_len r' = prompt_len r /\ prompt_flags r' = prompt_flags r.
Proof. intros (_ & E1 & E2 & E3 & _). unfold prompt_flags, prompt_len. by rewrite E1, E2, E3. Qed.

(** Row [i] of the arrays of tokens. *)
Definition toks_at (i : nat) (row : list Z) (frow : list bool) (n c : Z) (x : Tokens) : Tokens :=
  mkTokens (<[i := row]> x.(token_ids_cpu)) (<[i := frow]> x.(is_token_ids)) x.(req_prompt_embeds) (<[i := n]> x.(num_tokens_no_spec)) x.(num_prompt_tokens)
    (<[i := c]> x.(num_computed_tokens_cpu)) x.(replayssm_decode_base).

Lemma touched_toks s mrows w i row frow n c :
  Sizes s mrows w -> length row = w -> length frow = w -> Touched i s (set_toks (toks_at i row frow n c s.(toks)) s) mrows mrows w.
Proof.
  intros HS Hr Hf. sizes HS. split; try done.
  - destruct HS. split; simpl; rewrite ?length_insert; try done; [by apply forall_insert|by apply forall_insert|].
    repeat (apply Forall_cons; split); [..|by apply Forall_nil]; rewrite ?length_insert; done.
  - intros k Hk. unfold InputBatchProps.row, get_active_token_count. simpl. by rewrite !list_lookup_insert_ne.
Qed.

Lemma held_toks s mrows w i r r' row frow :
  Sizes s mrows w -> Held s mrows w i r -> same_request r r' -> r'.(block_ids) = r.(block_ids) ->
  knows r' (take (total_len r') row) -> take (total_len r') frow = prompt_flags r ++ replicate (length r'.(output_token_ids)) true -> (total_len r' <= w)%nat ->
  Held (set_toks (toks_at i row frow (cr_num_tokens r' (prompt_len r)) r'.(cr_num_computed_tokens) s.(toks)) s) mrows w i r'.
Proof.
  intros HS [H1 H2 H3 H4 H5 (trow & Ht & Hk) (frow0 & Hf & Hkf) Hl Hb Hlo Hp] Hsame Hbl Hknow Hflag Hlen. destruct (same_request_prompt _ _ Hsame) as [Ep Ef].
  destruct Hsame as (E1 & E2 & E3 & E4 & E5 & E6 & E7). pose proof (lookup_lt_Some _ _ _ Ht). pose proof (lookup_lt_Some _ _ _ Hf). pose proof (lookup_lt_Some _ _ _ H4). pose proof (lookup_lt_Some _ _ _ H5).
  split; simpl; rewrite ?E1, ?Ep, ?Hbl; try done.
  - by apply list_lookup_insert_eq.
  - by apply list_lookup_insert_eq.
  - exists row. by rewrite list_lookup_insert_eq.
  - exists frow. rewrite list_lookup_insert_eq by done. by rewrite Ef.
  - unfold lora_of. by rewrite E7.
  - intros Hpool. destruct (Hp Hpool) as (p & acc & Hsp & E). exists p, acc. rewrite E5, E. split; [done|]. unfold par_of. by rewrite E6.
Qed.

(** The rows and numbers of a held request. *)
Lemma held_lookups s mrows w i r :
  Sizes s mrows w -> Held s mrows w i r -> exists row frow, s.(toks).(token_ids_cpu) !! i = Some row /\ s.(toks).(is_token_ids) !! i = Some frow
    /\ length row = w /\ length frow = w /\ knows r (take (total_len r) row) /\ take (total_len r) frow = prompt_flags r ++ replicate (length r.(output_token_ids)) true.
Proof.
  intros HS HH. destruct (he_tokens _ _ _ _ _ HH) as (row & Hr & Hk). destruct (he_flags _ _ _ _ _ HH) as (frow & Hf & Hkf). exists row, frow.
  split_and!; try done; [by apply (proj1 (Forall_lookup _ _) (sz_width _ _ _ HS) i)|by apply (proj1 (Forall_lookup _ _) (sz_flag_width _ _ _ HS) i)].
Qed.

Lemma knows_take r n l : 0 <= prompt_len r -> (forall p, r.(prompt_token_ids) = Some p -> Z.of_nat (length p) = prompt_len r) ->
  (n <= length r.(output_token_ids))%nat -> knows r (take (total_len r) l) -> knows (with_outputs (take n r.(output_token_ids)) r) (take (Z.to_nat (prompt_len r) + n) l).
Proof.
  intros H0 Hp Hn. unfold knows, total_len, cr_num_tokens. simpl. change (prompt_len (with_outputs _ r)) with (prompt_len r).
  assert (Et : take (Z.to_nat (prompt_len r) + n) l = take (Z.to_nat (prompt_len r) + n) (take (Z.to_nat (prompt_len r + Z.of_nat (length r.(output_token_ids)))) l)).
  { by rewrite take_take, Nat.min_l by lia. }
  destruct r.(prompt_token_ids) as [p|]; intros Hk; rewrite Et.
  - rewrite Hk. specialize (Hp p eq_refl). rewrite take_app_ge by lia. f_equal. f_equal. lia.
  - by rewrite <- firstn_skipn_comm, Hk.
Qed.

Lemma total_outputs l r : 0 <= prompt_len r -> total_len (with_outputs l r) = (Z.to_nat (prompt_len r) + length l)%nat.
Proof. intros H0. unfold total_len, cr_num_tokens. change (prompt_len (with_outputs l r)) with (prompt_len r). simpl. lia. Qed.

Lemma total_split r : 0 <= prompt_len r -> total_len r = (Z.to_nat (prompt_len r) + length r.(output_token_ids))%nat.
Proof. intros H0. unfold total_len, cr_num_tokens. lia. Qed.

(** A request whose prompt has the length it claims. *)
Record wf_request (r : CachedRequestState) : Prop := {
  wf_ok : length_from_prompt_token_ids_or_embeds r.(prompt_token_ids) r.(prompt_embeds) = Ok (prompt_len r);
  wf_len : 0 <= prompt_len r;
  wf_prompt : forall p, r.(prompt_token_ids) = Some p -> Z.of_nat (length p) = prompt_len r;
  wf_flags : length (prompt_flags r) = Z.to_nat (prompt_len r);
}.

Lemma wf_same r r' : same_request r r' -> wf_request r -> wf_request r'.
Proof.
  intros Hs [Ho H1 H2 H3]. destruct (same_request_prompt _ _ Hs) as [Ep Ef]. destruct Hs as (_ & E & _ & E' & _). split; rewrite ?Ep, ?Ef, ?E, ?E'; done.
Qed.

Lemma can_hold_wf s w r : can_hold s w r -> wf_request r.
Proof.
  intros [(n & Hn & H0) Hf _ _ _ _ _]. assert (En : prompt_len r = n) by (unfold prompt_len; by rewrite Hn). split; [congruence|lia| |done].
  intros p Hp. rewrite Hp in Hn. apply prompt_ids_length in Hn. lia.
Qed.

Section row_updates.
Context (s : InputBatch) (mrows : list (list (list Z))) (w i : nat) (r : CachedRequestState).
Hypothesis HS : Sizes s mrows w.
Hypothesis HH : Held s mrows w i r.
Hypothesis HW : wf_request r.

Lemma set_computed_ok c :
  wp (set_computed i c) s (fun _ s' => Touched i s s' mrows mrows w /\ Held s' mrows w i (with_computed c r) /\ s'.(spec_token_ids) = s.(spec_token_ids)).
Proof.
  destruct (held_lookups s mrows w i r HS HH) as (row & frow & Hr & Hf & Hl1 & Hl2 & Hk & Hkf). unfold set_computed, upd_toks. wp_steps.
  assert (E : set_numbers s.(toks).(num_tokens_no_spec) s.(toks).(num_prompt_tokens) (<[i := c]> s.(toks).(num_computed_tokens_cpu)) s.(toks).(replayssm_decode_base) s.(toks)
    = toks_at i row frow (cr_num_tokens (with_computed c r) (prompt_len r)) (with_computed c r).(cr_num_computed_tokens) s.(toks)).
  { change (cr_num_tokens (with_computed c r) (prompt_len r)) with (cr_num_tokens r (prompt_len r)). unfold toks_at, set_numbers.
    rewrite (list_insert_id _ _ _ Hr), (list_insert_id _ _ _ Hf), (list_insert_id _ _ _ (he_no_spec _ _ _ _ _ HH)). done. }
  rewrite E. split_and!; [by apply touched_toks| |done]. apply (held_toks s mrows w i r (with_computed c r)); try done; apply HH.
Qed.

Lemma truncate_ok n :
  (n <= length r.(output_token_ids))%nat ->
  wp (set_no_spec i (fun b => default 0 (b.(toks).(num_prompt_tokens) !! i) + Z.of_nat n)) s (fun _ s' =>
    Touched i s s' mrows mrows w /\ Held s' mrows w i (with_outputs (take n r.(output_token_ids)) r) /\ s'.(spec_token_ids) = s.(spec_token_ids)).
Proof.
  intros Hn. destruct HW as [_ H0 Hp Hfl]. destruct (held_lookups s mrows w i r HS HH) as (row & frow & Hr & Hf & Hl1 & Hl2 & Hk & Hkf).
  set (r' := with_outputs (take n r.(output_token_ids)) r). assert (Hlen : length r'.(output_token_ids) = n) by (simpl; rewrite length_take; lia).
  unfold set_no_spec, upd_toks. wp_steps. unfold id. rewrite (he_prompt _ _ _ _ _ HH). simpl default.
  assert (E : set_numbers (<[i := prompt_len r + Z.of_nat n]> s.(toks).(num_tokens_no_spec)) s.(toks).(num_prompt_tokens) s.(toks).(num_computed_tokens_cpu) s.(toks).(replayssm_decode_base) s.(toks)
    = toks_at i row frow (cr_num_tokens r' (prompt_len r)) r'.(cr_num_computed_tokens) s.(toks)).
  { unfold toks_at, set_numbers, cr_num_tokens. rewrite Hlen. simpl. by rewrite (list_insert_id _ _ _ Hr), (list_insert_id _ _ _ Hf), (list_insert_id _ _ _ (he_computed _ _ _ _ _ HH)). }
  rewrite E. split_and!; [by apply touched_toks| |done]. pose proof (total_split r H0) as Et.
  assert (Et' : total_len r' = (Z.to_nat (prompt_len r) + n)%nat) by (subst r'; rewrite total_outputs, length_take by done; lia).
  apply (held_toks s mrows w i r r'); try done; rewrite Et'.
  - by apply knows_take.
  - rewrite Hlen. replace (take (Z.to_nat (prompt_len r) + n) frow) with (take (Z.to_nat (prompt_len r) + n) (take (total_len r) frow)) by (rewrite take_take, Nat.min_l by lia; done).
    rewrite Hkf, take_app_ge by lia. f_equal. rewrite take_replicate. f_equal. lia.
  - pose proof (he_length _ _ _ _ _ HH). lia.
Qed.

(** The row after [ts] has been written behind the known tokens. *)
Lemma append_held ts row frow :
  (total_len r + length ts <= w)%nat -> s.(toks).(token_ids_cpu) !! i = Some row -> s.(toks).(is_token_ids) !! i = Some frow ->
  let s' := set_toks (toks_at i (overwrite row (total_len r) ts) (overwrite frow (total_len r) (replicate (length ts) true))
    (cr_num_tokens r (prompt_len r) + Z.of_nat (length ts)) r.(cr_num_computed_tokens) s.(toks)) s in
  Touched i s s' mrows mrows w /\ Held s' mrows w i (with_outputs (r.(output_token_ids) ++ ts) r).
Proof.
  intros Hlen Hr Hf s'. destruct HW as [_ H0 Hp Hfl]. destruct (held_lookups s mrows w i r HS HH) as (row0 & frow0 & Hr0 & Hf0 & Hl1 & Hl2 & Hk & Hkf).
  assert (row0 = row) as -> by congruence. assert (frow0 = frow) as -> by congruence. pose proof (total_split r H0) as Et.
  set (r' := with_outputs (r.(output_token_ids) ++ ts) r). assert (Et' : total_len r' = (total_len r + length ts)%nat) by (subst r'; rewrite total_outputs, length_app by done; lia).
  split; [apply touched_toks; [done|rewrite overwrite_length; lia|rewrite overwrite_length; [done|rewrite length_replicate; lia]]|].
  assert (En : cr_num_tokens r (prompt_len r) + Z.of_nat (length ts) = cr_num_tokens r' (prompt_len r)) by (unfold cr_num_tokens; simpl; rewrite length_app; lia).
  subst s'. rewrite En. apply (held_toks s mrows w i r r'); try done; rewrite ?Et'.
  - rewrite take_overwrite by lia. unfold knows in *. simpl. change (prompt_len r') with (prompt_len r). destruct r.(prompt_token_ids) as [p|].
    + rewrite Hk. by rewrite app_assoc.
    + rewrite drop_app_le by (rewrite length_take; lia). by rewrite Hk.
  - rewrite <- (length_replicate (length ts) true) at 1. rewrite take_overwrite by lia. rewrite Hkf. simpl. rewrite length_app, replicate_add. by rewrite app_assoc.
  - done.
Qed.

Lemma append_ids_ok ts :
  (total_len r + length ts <= w)%nat ->
  let start := cr_num_tokens r (prompt_len r) in
  let stop := start + Z.of_nat (length ts) in
  wp (assign_tokens i start stop ts ;; assign_flags i start stop [true] ;; set_no_spec i (fun _ => stop)) s (fun _ s' =>
    Touched i s s' mrows mrows w /\ Held s' mrows w i (with_outputs (r.(output_token_ids) ++ ts) r) /\ s'.(spec_token_ids) = s.(spec_token_ids)).
Proof.
  intros Hlen start stop. destruct (held_lookups s mrows w i r HS HH) as (row & frow & Hr & Hf & Hl1 & Hl2 & _).
  assert (Es : start = Z.of_nat (total_len r)) by (unfold start, total_len, cr_num_tokens; pose proof (wf_len _ HW); lia).
  unfold stop. rewrite Es. wp_step. eapply wp_mono; [apply (assign_tokens_ok s i row (total_len r) ts Hr); lia|]. intros ? s1 E1. cbn beta in E1. wp_step.
  eapply wp_mono; [apply (fill_flags_ok s1 i frow (total_len r) (length ts) true); [by rewrite E1|lia]|]. intros ? s2 E2. cbn beta in E2.
  unfold set_no_spec, upd_toks. wp_steps. destruct (append_held ts row frow Hlen Hr Hf) as [HT HHeld].
  match goal with |- Touched _ _ ?s' _ _ _ /\ _ => assert (E : s' = set_toks (toks_at i (overwrite row (total_len r) ts) (overwrite frow (total_len r) (replicate (length ts) true))
    (cr_num_tokens r (prompt_len r) + Z.of_nat (length ts)) r.(cr_num_computed_tokens) s.(toks)) s) end.
  { rewrite E2, E1. unfold toks_at, set_numbers, set_flag_rows, set_token_rows. fold start. rewrite Es. unfold set_toks. simpl. by rewrite (list_insert_id _ _ _ (he_computed _ _ _ _ _ HH)). }
  rewrite E. done.
Qed.

(** *** Blocks *)

Lemma extend_lookup (blocks new : list (list Z)) j :
  length new = length blocks -> extend_blocks blocks new !! j = (b ← blocks !! j; n ← new !! j; Some (b ++ n)).
Proof.
  revert new j. induction blocks as [|b blocks IH]; intros [|n new] [|j] E; try done. simpl in *. apply IH. congruence.
Qed.

Lemma append_tables_ok n ts b :
  Forall2 (TableOk n) mrows ts -> (i < n)%nat -> length b = length r.(block_ids) ->
  Forall2 (fun t ids => Forall (id_ok t) ids /\ fits t ids) ts (extend_blocks r.(block_ids) b) ->
  wp (multi_append_row b i) ts (fun _ ts' =>
    Forall2 (TableOk n) (imap (fun j (rows : list (list Z)) => <[i := default [] (extend_blocks r.(block_ids) b !! j)]> rows) mrows) ts' /\ Forall2 same_config ts ts').
Proof.
  intros Hall Hi Hl Hb. unfold multi_append_row.
  apply (on_tables_ok (TableOk n) (fun j (rows : list (list Z)) => <[i := default [] (extend_blocks r.(block_ids) b !! j)]> rows) _ _ _ 0 Hall).
  intros j rows t Hj Ht [HR Hn]. destruct (Forall2_lookup_l _ _ _ _ _ Hb Ht) as (ids & Hids & Hok & Hfit). simpl. rewrite Hids. simpl.
  pose proof (f_equal (.!! j) (he_blocks _ _ _ _ _ HH)) as Hold. rewrite !list_lookup_fmap, Hj in Hold. simpl in Hold.
  rewrite extend_lookup in Hids by done. destruct (r.(block_ids) !! j) as [old|] eqn:Eo; [|done]. simpl in Hids, Hold. injection Hold as Hold.
  destruct (b !! j) as [new|] eqn:En; [|done]. simpl in Hids. injection Hids as <-. wp_step. eapply wp_lift_ok; [by apply np_get_ok|].
  eapply wp_mono; [apply (append_row_ok rows t i old new); [done|done|by apply Forall_app in Hok as [_ ?]|done]|]. intros ? t' [HR' Hc].
  split; [|done]. split; [done|]. destruct Hc as [-> _]. done.
Qed.

Lemma append_blocks_ok b :
  (i < s.(ib_max_num_reqs))%nat -> length b = length r.(block_ids) ->
  Forall2 (fun t ids => Forall (id_ok t) ids /\ fits t ids) s.(tables) (extend_blocks r.(block_ids) b) ->
  wp (on_tables_of (multi_append_row b i)) s (fun _ s' => exists mrows', Touched i s s' mrows mrows' w
    /\ Held s' mrows' w i (with_blocks (extend_blocks r.(block_ids) b) r) /\ s'.(spec_token_ids) = s.(spec_token_ids)).
Proof.
  intros Hi Hl Hb. unfold on_tables_of. apply wp_zoom. eapply wp_mono; [apply (append_tables_ok s.(ib_max_num_reqs) s.(tables) b); [apply HS|done|done|done]|].
  intros ? ts' [Hts Hcfg]. set (bids := extend_blocks r.(block_ids) b) in *.
  pose proof (fun k => blocks_at s.(ib_max_num_reqs) mrows s.(tables) i k (fun j _ => default [] (bids !! j)) (sz_tables _ _ _ HS) Hi) as Hat.
  exists (imap (fun j (rows : list (list Z)) => <[i := default [] (bids !! j)]> rows) mrows). split_and!; [split; try done| |done].
  - pose proof HS as HS'. destruct HS'. split; done.
  - intros k Hk. unfold row. simpl. f_equal. rewrite Hat, decide_False by done. done.
  - destruct HH as [H1 H2 H3 H4 H5 H6 H7 H8 H9 H10 H11]. split; try done. rewrite Hat, decide_True by done. simpl. f_equal. apply imap_default.
    rewrite (Forall2_length _ _ _ (sz_tables _ _ _ HS)). by apply (Forall2_length _ _ _ Hb).
Qed.

(** *** Draft tokens *)

(** The row ends with the drafts. *)
Definition drafted (x : Row) (q : CachedRequestState) (spec : list Z) : Prop :=
  x.(w_spec) = Some spec /\ exists l, x.(w_tokens) = Some l /\ drop (total_len q) l = spec.

(** The row with the drafts [spec] behind the known tokens. *)
Lemma spec_held row frow spec :
  (total_len r + length spec <= w)%nat -> s.(toks).(token_ids_cpu) !! i = Some row -> s.(toks).(is_token_ids) !! i = Some frow ->
  let s' := set_lists s.(req_ids) s.(req_id_to_index) s.(req_output_token_ids) (<[i := spec]> s.(spec_token_ids))
    (set_toks (toks_at i (overwrite row (total_len r) spec) (overwrite frow (total_len r) (replicate (length spec) true))
      (cr_num_tokens r (prompt_len r)) r.(cr_num_computed_tokens) s.(toks)) s) in
  Touched i s s' mrows mrows w /\ Held s' mrows w i r /\ drafted (InputBatchProps.row s' mrows i) r spec.
Proof.
  intros Hlen Hr Hf s'. destruct (held_lookups s mrows w i r HS HH) as (row0 & frow0 & Hr0 & Hf0 & Hl1 & Hl2 & Hk & Hkf).
  assert (row0 = row) as -> by congruence. assert (frow0 = frow) as -> by congruence. pose proof (lookup_lt_Some _ _ _ (he_name _ _ _ _ _ HH)) as Hlt.
  pose proof (sz_spec _ _ _ HS) as Hsp. pose proof (lookup_lt_Some _ _ _ Hr). assert (Hw1 : length (overwrite row (total_len r) spec) = w) by (rewrite overwrite_length; lia).
  assert (Hw2 : length (overwrite frow (total_len r) (replicate (length spec) true)) = w) by (rewrite overwrite_length; [done|rewrite length_replicate; lia]).
  assert (HH' : Held s' mrows w i r).
  { assert (HH1 : Held (set_toks (toks_at i (overwrite row (total_len r) spec) (overwrite frow (total_len r) (replicate (length spec) true))
      (cr_num_tokens r (prompt_len r)) r.(cr_num_computed_tokens) s.(toks)) s) mrows w i r); [|by destruct HH1; split].
    apply (held_toks s mrows w i r r); try done; [by rewrite take_overwrite_le by lia|by rewrite take_overwrite_le by lia|apply HH]. }
  split_and!; [|done|].
  - pose proof (touched_toks s mrows w i _ _ (cr_num_tokens r (prompt_len r)) r.(cr_num_computed_tokens) HS Hw1 Hw2) as [T1 T2 T3 T4 T5 T6 T7 T8 T9].
    split; try done; [destruct T1; split; simpl in *; (done || (by rewrite length_insert) || (intros k0 l0 Hk0; rewrite list_lookup_insert_ne by lia; by eauto))|]. intros k Hk'. unfold InputBatchProps.row, get_active_token_count. simpl.
    by rewrite !list_lookup_insert_ne.
  - split; [simpl; apply list_lookup_insert_eq; lia|]. pose proof (active_held s' i r (he_no_spec _ _ _ _ _ HH') (wf_len _ HW)) as Ea.
    unfold InputBatchProps.row. rewrite Ea. simpl. rewrite !list_lookup_insert_eq by lia. simpl. eexists. split; [done|].
    rewrite take_overwrite by lia. by rewrite drop_app_length' by (rewrite length_take; lia).
Qed.

Lemma spec_ok name spec :
  s.(req_id_to_index) !! name = Some i -> (total_len r + length spec <= w)%nat ->
  wp (update_req_spec_token_ids name spec) s (fun _ s' => Touched i s s' mrows mrows w /\ Held s' mrows w i r /\ drafted (row s' mrows i) r spec).
Proof.
  intros Hi Hlen. pose proof (wf_len _ HW) as H0. destruct (held_lookups s mrows w i r HS HH) as (row & frow & Hr & Hf & Hl1 & Hl2 & Hk & Hkf).
  pose proof (lookup_lt_Some _ _ _ (he_name _ _ _ _ _ HH)) as Hlt. pose proof (sz_spec _ _ _ HS) as Hsp.
  destruct (spec_held row frow spec Hlen Hr Hf) as (HT & HHeld & HD).
  unfold update_req_spec_token_ids. wp_step. wp_step. unfold id. rewrite Hi. wp_step. eapply wp_lift_ok; [done|]. wp_step.
  eapply wp_lift_ok; [apply list_set_ok; lia|]. wp_step. wp_step. rewrite (he_no_spec _ _ _ _ _ HH). simpl default.
  assert (Es : cr_num_tokens r (prompt_len r) = Z.of_nat (total_len r)) by (unfold total_len, cr_num_tokens; lia).
  assert (E : forall rows frows l, rows = <[i := overwrite row (total_len r) spec]> s.(toks).(token_ids_cpu) ->
    frows = <[i := overwrite frow (total_len r) (replicate (length spec) true)]> s.(toks).(is_token_ids) -> l = <[i := spec]> s.(spec_token_ids) ->
    Touched i s (set_lists s.(req_ids) s.(req_id_to_index) s.(req_output_token_ids) l (set_toks (set_flag_rows frows (set_token_rows rows s.(toks))) s)) mrows mrows w
    /\ Held (set_lists s.(req_ids) s.(req_id_to_index) s.(req_output_token_ids) l (set_toks (set_flag_rows frows (set_token_rows rows s.(toks))) s)) mrows w i r
    /\ drafted (InputBatchProps.row (set_lists s.(req_ids) s.(req_id_to_index) s.(req_output_token_ids) l (set_toks (set_flag_rows frows (set_token_rows rows s.(toks))) s)) mrows i) r spec).
  { intros rows frows l -> -> ->. unfold toks_at in HT, HHeld, HD.
    rewrite (list_insert_id _ _ _ (he_computed _ _ _ _ _ HH)), (list_insert_id _ _ _ (he_no_spec _ _ _ _ _ HH)) in HT, HHeld, HD. done. }
  case_bool_decide as Hnil.
  - wp_steps. subst spec. specialize (E s.(toks).(token_ids_cpu) s.(toks).(is_token_ids) (<[i := []]> s.(spec_token_ids))).
    assert (Ex : set_toks (set_flag_rows s.(toks).(is_token_ids) (set_token_rows s.(toks).(token_ids_cpu) s.(toks))) s = s) by (destruct s as [? ? ? ? ? ? ? ? x ? ? ? ? ? ?]; by destruct x).
    rewrite Ex in E. apply E; [| |done]; unfold overwrite; simpl; rewrite Nat.add_0_r, take_drop; by rewrite list_insert_id.
  - rewrite Es. wp_step. eapply wp_mono; [apply (assign_tokens_ok _ i row (total_len r) spec); [exact Hr|lia]|]. intros ? s2 E2. cbn beta in E2. wp_step.
    eapply wp_mono; [apply (fill_flags_ok s2 i frow (total_len r) (length spec) true); [by rewrite E2|lia]|]. intros ? s3 E3. cbn beta in E3. wp_steps.
    rewrite E3, E2. unfold set_toks. simpl. apply E; [done|done|]. by rewrite list_insert_insert_eq.
Qed.
End row_updates.
