(* ===== verification/WorkerProps.v ===== *)
(** * The runner keeps its batch in step with the requests

    [RunnerOk]: between steps every row of the batch mirrors the cached state of its
    request.  [update_states] returns and keeps it for every output of the scheduler that
    fits the batch, and leaves exactly the scheduled requests in the batch, with their
    draft tokens, decodes before prefills; recording sampled tokens keeps it as well. *)

From Stdlib Require Import SpecFloat.
From stdpp Require Import sorting.
From S2P Require Import Prelude BlockTable BlockTableProps InputBatch InputBatchProps InputBatchOps InputBatchMirror Reorder WorkerStates WorkerRows.

(** ** Contracts *)

Definition requests_ok (reqs : gmap ReqId CachedRequestState) : Prop :=
  forall name r, reqs !! name = Some r -> r.(req_id) = name /\ wf_request r.

(** Between the steps. *)
Record RunnerOk (st : Runner) (mrows : list (list (list Z))) (w : nat) : Prop := {
  ro_dense : Dense st.(input_batch) mrows w;
  ro_batch : BatchOk st.(requests) st.(input_batch) mrows;
  ro_requests : requests_ok st.(requests);
  ro_updates : st.(input_batch).(upd).(removed) = [] /\ st.(input_batch).(upd).(is_removed_sorted) = false;
}.

(** The cached state of a running or resumed request: the tokens [ts] are those from
    position [nc] on. *)
Definition updated (last resumed : bool) (nc : Z) (ts : list Z) (blocks : option (list (list Z))) (no : nat) (r : CachedRequestState) : CachedRequestState :=
  with_blocks (match blocks with Some b => if resumed then b else extend_blocks r.(block_ids) b | None => r.(block_ids) end)
    (with_outputs (if last then take no r.(output_token_ids) else r.(output_token_ids) ++ drop (Z.to_nat (Z.of_nat (total_len r) - nc)) ts) (with_computed nc r)).

Section contracts.
Context (get_pooling_updates : Pooling -> Pooling).

(** The cached state of a new request, or of a streaming session that goes on. *)
Definition incoming (is_pooling : bool) (old : option CachedRequestState) (d : NewRequestData) : CachedRequestState :=
  match old with
  | None => mkCached d.(nr_req_id) d.(nr_prompt_token_ids) d.(nr_prompt_is_token_ids) d.(nr_prompt_embeds) [] d.(nr_num_computed_tokens) d.(nr_block_ids)
      d.(nr_sampling_params) (if is_pooling then get_pooling_updates <$> d.(nr_pooling_params) else d.(nr_pooling_params))
      (match d.(nr_sampling_params) with Some p => p.(random_seed) | None => None end) d.(nr_lora_request)
  | Some r => mkCached r.(req_id) d.(nr_prompt_token_ids) r.(prompt_is_token_ids) d.(nr_prompt_embeds) [] d.(nr_num_computed_tokens) d.(nr_block_ids)
      d.(nr_sampling_params) d.(nr_pooling_params) r.(generator) r.(lora_request)
  end.

(** The request and its drafts fit the batch. *)
Definition fits_batch (s : InputBatch) (w : nat) (o : SchedulerOutput) (r : CachedRequestState) : Prop :=
  can_hold s w r /\ (total_len r + length (default [] (o.(scheduled_spec_decode_tokens) !! r.(req_id))) <= w)%nat.

Record CachedOk (st : Runner) (w : nat) (o : SchedulerOutput) (k : nat) (name : ReqId) (r r' : CachedRequestState) : Prop := {
  co_request : st.(requests) !! name = Some r;
  co_update : exists nc blocks no ts, o.(scheduled_cached_reqs).(cd_num_computed_tokens) !! k = Some nc /\ o.(scheduled_cached_reqs).(new_block_ids) !! k = Some blocks
    /\ o.(scheduled_cached_reqs).(num_output_tokens) !! k = Some no
    /\ (st.(is_last_rank) = false -> o.(scheduled_cached_reqs).(new_token_ids) !! k = Some ts /\ nc <= Z.of_nat (total_len r))
    /\ (name ∈ o.(scheduled_cached_reqs).(resumed_req_ids) -> is_Some blocks)
    /\ (forall b, blocks = Some b -> name ∉ o.(scheduled_cached_reqs).(resumed_req_ids) -> length b = length r.(block_ids))
    /\ r' = updated st.(is_last_rank) (bool_decide (name ∈ o.(scheduled_cached_reqs).(resumed_req_ids))) nc ts blocks no r;
  co_fits : fits_batch st.(input_batch) w o r';
}.

(** What the scheduler promises. *)
Record ScheduleOk (st : Runner) (w : nat) (o : SchedulerOutput) : Prop := {
  sc_nodup : NoDup (o.(scheduled_cached_reqs).(cd_req_ids) ++ (nr_req_id <$> o.(scheduled_new_reqs)));
  sc_names : forall name, is_Some (o.(num_scheduled_tokens) !! name) <-> name ∈ o.(scheduled_cached_reqs).(cd_req_ids) ++ (nr_req_id <$> o.(scheduled_new_reqs));
  sc_room : (size o.(num_scheduled_tokens) <= st.(input_batch).(ib_max_num_reqs))%nat;
  sc_new : forall d, d ∈ o.(scheduled_new_reqs) ->
    fits_batch st.(input_batch) w o (incoming st.(input_batch).(is_pooling_model)
      (if decide (d.(nr_req_id) ∈ o.(finished_req_ids)) then None else st.(requests) !! d.(nr_req_id)) d);
  sc_cached : forall k name, o.(scheduled_cached_reqs).(cd_req_ids) !! k = Some name ->
    name ∉ o.(finished_req_ids) /\ exists r r', CachedOk st w o k name r r';
}.
End contracts.

(** ** Requests that leave *)

Lemma batch_agree reqs reqs' s mrows :
  BatchOk reqs s mrows -> (forall name, is_Some (s.(req_id_to_index) !! name) -> reqs' !! name = reqs !! name) -> BatchOk reqs' s mrows.
Proof.
  intros [HL Hr Hn Hb] E. split; [done| |done|]; [intros name i Hi; rewrite E by eauto; by apply Hr|]. intros Hp name i Hi. rewrite E by eauto. by apply (Hb Hp name i).
Qed.

Lemma remove_all_ok reqs L st mrows w :
  Removing reqs st.(input_batch) mrows w ->
  wp (for_each L (fun name => on_batch (remove_request name) ;; ret tt)) st (fun _ st' => exists b mrows', st' = set_batch b st /\ Removing reqs b mrows' w
    /\ same_setup st.(input_batch) b /\ forall name, b.(req_id_to_index) !! name = if decide (name ∈ L) then None else st.(input_batch).(req_id_to_index) !! name).
Proof.
  intros HR. revert st mrows HR. induction L as [|name L IH]; intros st mrows HR; cbn [for_each].
  { wp_steps. exists st.(input_batch), mrows. split_and!; [by destruct st|done|done|]. intros name. rewrite decide_False; [done|apply not_elem_of_nil]. }
  wp_step. wp_step. unfold on_batch. apply wp_zoom. eapply wp_mono; [by apply (removing_step reqs reqs st.(input_batch) mrows w name)|]. intros ? b1 (m1 & HR1 & Hs1 & Hx1). wp_steps.
  eapply wp_mono; [by apply (IH (set_batch b1 st) m1)|]. intros ? st' (b & m & -> & HR' & Hs & Hx). exists b, m. split_and!; [done|done|by etrans|].
  intros name'. rewrite Hx. simpl. rewrite Hx1. destruct (decide (name' ∈ L)) as [Hin|Hnin]; [by rewrite decide_True by (by right)|].
  destruct (decide (name' = name)) as [->|Hne]; [by rewrite lookup_delete_eq, decide_True by left|]. rewrite lookup_delete_ne, decide_False; [done| |done].
  by intros [->|?]%elem_of_cons.
Qed.

Lemma finish_all_ok L st :
  wp (for_each L finish_request) st (fun _ st' => exists lp, st' = set_prompt_logprobs lp (set_requests (filter (fun x => x.1 ∉ L) st.(requests)) st)).
Proof.
  revert st. induction L as [|name L IH]; intros st; cbn [for_each].
  { wp_steps. exists st.(num_prompt_logprobs). rewrite map_filter_id; [by destruct st|]. intros. apply not_elem_of_nil. }
  wp_step. unfold finish_request. wp_step. eapply wp_mono; [apply IH|]. intros ? st' [lp ->]. exists lp. simpl. unfold set_prompt_logprobs, set_requests. simpl. f_equal.
  apply map_eq. intros name'. rewrite !map_lookup_filter. destruct (decide (name' = name)) as [->|Hne].
  - rewrite lookup_delete_eq. simpl. destruct (st.(requests) !! name) as [r|]; [|done]. simpl. rewrite option_guard_False; [done|]. intros Hx. apply Hx. by left.
  - rewrite lookup_delete_ne by done. destruct (st.(requests) !! name') as [r|]; [|done]. simpl. case_guard as H1; case_guard as H2; try done; exfalso.
    + by apply elem_of_cons in H2 as [->|?].
    + apply H2. by right.
Qed.

(** ** New requests *)

(** Before requests are added. *)
Record Live (st : Runner) (mrows : list (list (list Z))) (w : nat) : Prop := {
  lv_removing : Removing st.(requests) st.(input_batch) mrows w;
  lv_requests : requests_ok st.(requests);
}.

Definition same_runner (st st' : Runner) : Prop :=
  st'.(is_last_rank) = st.(is_last_rank) /\ st'.(has_kv_cache_groups) = st.(has_kv_cache_groups) /\ st'.(reorder_batch_threshold) = st.(reorder_batch_threshold)
  /\ st'.(max_model_len) = st.(max_model_len) /\ same_setup st.(input_batch) st'.(input_batch).

#[global] Instance same_runner_trans : Transitive same_runner.
Proof. intros s1 s2 s3 (? & ? & ? & ? & ?) (? & ? & ? & ? & ?). split_and!; try congruence. by etrans. Qed.

#[global] Instance same_runner_sym : Symmetric same_runner.
Proof. intros s1 s2 (? & ? & ? & ? & ?). split_and!; by symmetry. Qed.

Lemma requests_insert reqs name r : requests_ok reqs -> r.(req_id) = name -> wf_request r -> requests_ok (<[name := r]> reqs).
Proof. intros H Hn Hw name' r' [[<- <-]|[? ?]]%lookup_insert_Some; [done|by apply H]. Qed.

Section phases.
Context (gp : Pooling -> Pooling) (o : SchedulerOutput) (w : nat).

Lemma streaming_ok st mrows d r :
  Live st mrows w -> st.(requests) !! d.(nr_req_id) = Some r ->
  let r' := incoming gp st.(input_batch).(is_pooling_model) (Some r) d in
  can_hold st.(input_batch) w r' ->
  wp (update_streaming_request d.(nr_req_id) d) st (fun _ st' => exists mrows', Live st' mrows' w /\ same_runner st st'
    /\ st'.(requests) = <[d.(nr_req_id) := r']> st.(requests) /\ st'.(input_batch).(req_id_to_index) = delete d.(nr_req_id) st.(input_batch).(req_id_to_index)).
Proof.
  intros [HR Hq] Hr r' Hc. destruct (Hq _ _ Hr) as [Hid _]. unfold update_streaming_request. wp_step. unfold on_batch. apply wp_zoom.
  eapply wp_mono; [apply (removing_step st.(requests) (<[d.(nr_req_id) := r']> st.(requests)) st.(input_batch) mrows w d.(nr_req_id) HR); intros name' Hne; by rewrite lookup_insert_ne|].
  intros ? b (mrows' & HR' & Hs & Hx). unfold get_request, put_request. wp_steps. unfold id. simpl. rewrite Hr. eapply wp_lift_ok; [done|]. wp_steps.
  destruct (ch_prompt _ _ _ Hc) as (n & Hn & _). eapply wp_lift_ok; [exact Hn|]. wp_steps. unfold id. simpl. rewrite lookup_insert_eq. eapply wp_lift_ok; [done|]. wp_steps.
  exists mrows'. unfold set_requests, set_batch. simpl. rewrite insert_insert_eq. split_and!; [split|done|done|done].
  - exact HR'.
  - simpl. apply requests_insert; [done|done|by eapply can_hold_wf].
Qed.

Lemma fresh_ok st mrows d :
  Live st mrows w -> st.(requests) !! d.(nr_req_id) = None ->
  let r' := incoming gp st.(input_batch).(is_pooling_model) None d in
  can_hold st.(input_batch) w r' ->
  wp (add_new_request gp d) st (fun _ st' => Live st' mrows w /\ same_runner st st'
    /\ st'.(requests) = <[d.(nr_req_id) := r']> st.(requests) /\ st'.(input_batch).(req_id_to_index) = delete d.(nr_req_id) st.(input_batch).(req_id_to_index)).
Proof.
  intros [[HO HB Hf] Hq] Hr r' Hc. assert (Hnew : st.(input_batch).(req_id_to_index) !! d.(nr_req_id) = None).
  { destruct (st.(input_batch).(req_id_to_index) !! d.(nr_req_id)) as [i|] eqn:Hi; [|done]. destruct (bk_rows _ _ _ HB _ _ Hi) as (r & Hr' & _). congruence. }
  assert (Hlive : Removing (<[d.(nr_req_id) := r']> st.(requests)) st.(input_batch) mrows w).
  { split; [done| |done]. apply (batch_agree st.(requests)); [done|]. intros name [i Hi]. rewrite lookup_insert_ne; [done|]. intros <-. congruence. }
  assert (Hok : requests_ok (<[d.(nr_req_id) := r']> st.(requests))) by (apply requests_insert; [done|done|by eapply can_hold_wf]).
  unfold add_new_request. wp_step. wp_step. unfold id. rewrite bool_decide_false by (rewrite Hr; by intros [? ?]). wp_step.
  assert (E : new_cached_state gp st.(input_batch).(is_pooling_model) d = Ok r').
  { unfold new_cached_state. pose proof (ch_kind _ _ _ Hc) as Hk. destruct (ch_prompt _ _ _ Hc) as (n & Hn & _). simpl in Hn. rewrite Hn. subst r'. unfold incoming in *. simpl in *.
    destruct st.(input_batch).(is_pooling_model); [|done]. destruct Hk as [_ [q Hq']]. simpl in Hq'. by destruct d.(nr_pooling_params). }
  eapply wp_lift_ok; [exact E|]. unfold put_request. wp_step. wp_step. rewrite delete_id by done.
  destruct d.(nr_sampling_params) as [p|]; [destruct p.(prompt_logprobs) as [n|]|]; wp_steps; by split_and!.
Qed.

Lemma add_new_ok st mrows d :
  Live st mrows w -> fits_batch st.(input_batch) w o (incoming gp st.(input_batch).(is_pooling_model) (st.(requests) !! d.(nr_req_id)) d) ->
  wp (add_new_request gp d) st (fun _ st' => exists mrows', Live st' mrows' w /\ same_runner st st'
    /\ st'.(requests) = <[d.(nr_req_id) := incoming gp st.(input_batch).(is_pooling_model) (st.(requests) !! d.(nr_req_id)) d]> st.(requests)
    /\ st'.(input_batch).(req_id_to_index) = delete d.(nr_req_id) st.(input_batch).(req_id_to_index)).
Proof.
  intros HL [Hc _]. destruct (st.(requests) !! d.(nr_req_id)) as [r|] eqn:Hr.
  - unfold add_new_request. wp_step. wp_step. unfold id. rewrite bool_decide_true by (rewrite Hr; eauto). by apply (streaming_ok st mrows d r).
  - eapply wp_mono; [by apply (fresh_ok st mrows d)|]. intros ? st' H. by exists mrows.
Qed.

Lemma fits_setup s s' r : same_setup s s' -> fits_batch s w o r -> fits_batch s' w o r.
Proof. intros Hs [Hc Hl]. split; [by eapply can_hold_setup|done]. Qed.

(** All new requests. *)
Lemma add_new_all_ok ds st mrows :
  Live st mrows w -> NoDup (nr_req_id <$> ds) ->
  (forall d, d ∈ ds -> fits_batch st.(input_batch) w o (incoming gp st.(input_batch).(is_pooling_model) (st.(requests) !! d.(nr_req_id)) d)) ->
  wp (for_each ds (add_new_request gp)) st (fun _ st' => exists mrows', Live st' mrows' w /\ same_runner st st'
    /\ (forall d, d ∈ ds -> st'.(requests) !! d.(nr_req_id) = Some (incoming gp st.(input_batch).(is_pooling_model) (st.(requests) !! d.(nr_req_id)) d))
    /\ (forall name, name ∉ nr_req_id <$> ds -> st'.(requests) !! name = st.(requests) !! name)
    /\ (forall name, st'.(input_batch).(req_id_to_index) !! name = if decide (name ∈ nr_req_id <$> ds) then None else st.(input_batch).(req_id_to_index) !! name)).
Proof.
  revert st mrows. induction ds as [|d ds IH]; intros st mrows HL Hnd Hds; cbn [for_each].
  { wp_steps. exists mrows. split_and!; [done|done|by intros d Hd%elem_of_nil|done|]. intros name. rewrite decide_False; [done|apply not_elem_of_nil]. }
  cbn [fmap list_fmap] in Hnd. apply NoDup_cons in Hnd as [Hnin Hnd]. wp_step. eapply wp_mono; [apply (add_new_ok st mrows d HL); apply Hds; left|].
  intros ? st1 (m1 & HL1 & Hs1 & Hreq1 & Hx1). pose proof Hs1 as (_ & _ & _ & _ & Hset). assert (Hp : st1.(input_batch).(is_pooling_model) = st.(input_batch).(is_pooling_model)) by apply Hset.
  assert (Hother : forall d', d' ∈ ds -> st1.(requests) !! d'.(nr_req_id) = st.(requests) !! d'.(nr_req_id)).
  { intros d' Hd'. rewrite Hreq1, lookup_insert_ne; [done|]. intros E. apply Hnin. rewrite E. by apply list_elem_of_fmap_2. }
  eapply wp_mono; [apply (IH st1 m1 HL1 Hnd)|].
  { intros d' Hd'. rewrite Hp, Hother by done. eapply fits_setup; [done|]. apply Hds. by right. }
  intros ? st' (m & HL' & Hs & Hin & Hout & Hx). exists m. split_and!; [done|by etrans| | |].
  - intros d' [->|Hd']%elem_of_cons; [rewrite Hout, Hreq1 by done; apply lookup_insert_eq|]. rewrite Hin, Hp, Hother by done. done.
  - intros name Hn. cbn [fmap list_fmap] in Hn. apply not_elem_of_cons in Hn as [Hne Hn]. rewrite Hout, Hreq1 by done. by rewrite lookup_insert_ne.
  - intros name. rewrite Hx, Hx1. cbn [fmap list_fmap]. destruct (decide (name ∈ nr_req_id <$> ds)) as [Hi|Hi]; [by rewrite decide_True by (by right)|].
    destruct (decide (name = d.(nr_req_id))) as [->|Hne]; [by rewrite lookup_delete_eq, decide_True by left|]. rewrite lookup_delete_ne, decide_False; [done| |done].
    by intros [->|?]%elem_of_cons.
Qed.
End phases.

(** ** Running and resumed requests *)

Lemma drop_last_one {A} (l : list A) n : (n + 1 = length l)%nat -> exists t, last l = Some t /\ drop n l = [t].
Proof.
  intros Hl. destruct (exists_last (l := l)) as (l' & t & ->); [by destruct l; simpl in *; [lia|]|]. exists t. rewrite length_app in Hl. simpl in Hl.
  rewrite last_snoc, drop_app_length' by lia. done.
Qed.

Lemma with_outputs_id r : with_outputs r.(output_token_ids) r = r.
Proof. by destruct r. Qed.

(** The tokens from position [nc] on that are not known yet. *)
Definition unknown (nc : Z) (ts : list Z) (r : CachedRequestState) : list Z := drop (Z.to_nat (Z.of_nat (total_len r) - nc)) ts.

Lemma extend_outputs_ok nc ts r :
  wf_request r -> nc <= Z.of_nat (total_len r) -> extend_outputs nc ts r = Ok (with_outputs (r.(output_token_ids) ++ unknown nc ts r) r).
Proof.
  intros [Hok H0 _ _] Hnc. unfold extend_outputs, num_tokens_of. rewrite Hok. cbn [rbind]. assert (E : cr_num_tokens r (prompt_len r) = Z.of_nat (total_len r)) by (unfold total_len, cr_num_tokens; lia).
  rewrite E. unfold unknown. set (n := Z.to_nat (Z.of_nat (total_len r) - nc)). destruct (Z.eqb_spec (nc + Z.of_nat (length ts) - Z.of_nat (total_len r)) 1) as [H1|H1].
  - destruct (drop_last_one ts n) as (t & -> & ->); [lia|done].
  - destruct (Z.ltb_spec 0 (nc + Z.of_nat (length ts) - Z.of_nat (total_len r))) as [Hp|Hp].
    + unfold last_items. rewrite decide_False by lia. repeat f_equal. lia.
    + rewrite drop_ge by lia. by rewrite app_nil_r, with_outputs_id.
Qed.

Lemma append_tokens_ok s mrows w i r nc ts :
  Sizes s mrows w -> Held s mrows w i r -> wf_request r -> nc <= Z.of_nat (total_len r) -> (total_len r + length (unknown nc ts r) <= w)%nat ->
  wp (append_tokens i nc ts) s (fun _ s' => Touched i s s' mrows mrows w /\ Held s' mrows w i (with_outputs (r.(output_token_ids) ++ unknown nc ts r) r)).
Proof.
  intros HS HH HW Hnc Hlen. pose proof (wf_len _ HW). unfold append_tokens. wp_step. wp_step. unfold id. rewrite (he_no_spec _ _ _ _ _ HH). simpl default.
  assert (E : cr_num_tokens r (prompt_len r) = Z.of_nat (total_len r)) by (unfold total_len, cr_num_tokens; lia). set (new := unknown nc ts r) in *.
  assert (Hl : Z.of_nat (length new) = Z.max 0 (nc + Z.of_nat (length ts) - Z.of_nat (total_len r))) by (unfold new, unknown; rewrite length_drop; lia).
  destruct (Z.ltb_spec (cr_num_tokens r (prompt_len r)) (Z.max (cr_num_tokens r (prompt_len r)) (nc + Z.of_nat (length ts)))) as [Hlt|Hge].
  - rewrite bool_decide_false by (intros ->; simpl in *; lia).
    replace (Z.max (cr_num_tokens r (prompt_len r)) (nc + Z.of_nat (length ts))) with (cr_num_tokens r (prompt_len r) + Z.of_nat (length new)) by lia.
    assert (El : last_items (Z.to_nat (cr_num_tokens r (prompt_len r) + Z.of_nat (length new) - cr_num_tokens r (prompt_len r))) ts = new).
    { unfold last_items. rewrite decide_False by lia. unfold new at 2, unknown. f_equal. lia. }
    rewrite El. eapply wp_mono; [by apply (append_ids_ok s mrows w i r HS HH HW new)|]. intros ? s' (H1 & H2 & _). done.
  - wp_steps. assert (new = []) as -> by (apply nil_length_inv; lia). rewrite app_nil_r, with_outputs_id. split; [by apply touched_refl|done].
Qed.

(** The outputs of a request after a step. *)
Definition outputs_after (last : bool) (nc : Z) (ts : list Z) (no : nat) (r : CachedRequestState) : list Z :=
  if last then take no r.(output_token_ids) else r.(output_token_ids) ++ unknown nc ts r.

Lemma set_batch_id st : set_batch st.(input_batch) st = st.
Proof. by destruct st. Qed.

Lemma put_request_same st name r : st.(requests) !! name = Some r -> set_requests (<[name := r]> st.(requests)) st = st.
Proof. intros Hr. rewrite insert_id by done. by destruct st. Qed.

(** The row holds the cut outputs on the last rank, and the old ones elsewhere. *)
Definition cut (last : bool) (no : nat) (r : CachedRequestState) : CachedRequestState := if last then with_outputs (take no r.(output_token_ids)) r else r.

Lemma sync_outputs_ok st mrows w d k name req_index nc no ts r :
  Sizes st.(input_batch) mrows w -> st.(requests) !! name = Some (with_computed nc r) -> wf_request r ->
  (st.(is_last_rank) = false -> d.(new_token_ids) !! k = Some ts /\ nc <= Z.of_nat (total_len r)) ->
  (forall i, req_index = Some i -> Held st.(input_batch) mrows w i r) ->
  wp (sync_outputs d k name req_index nc no) st (fun tokens st' => (st.(is_last_rank) = false -> tokens = ts)
    /\ exists b, st' = set_batch b (set_requests (<[name := with_outputs (outputs_after st.(is_last_rank) nc ts no r) (with_computed nc r)]> st.(requests)) st)
    /\ (req_index = None -> b = st.(input_batch))
    /\ forall i, req_index = Some i -> Touched i st.(input_batch) b mrows mrows w /\ Held b mrows w i (cut st.(is_last_rank) no r)).
Proof.
  intros HS Hr HW Hts Hrow. unfold sync_outputs, get_request. wp_steps. unfold id. rewrite Hr. eapply wp_lift_ok; [done|].
  assert (HWc : wf_request (with_computed nc r)) by (by apply (wf_same r)). destruct st.(is_last_rank) eqn:Hlast; simpl negb; cbn match.
  - assert (Hsame : (length r.(output_token_ids) <= no)%nat -> with_outputs (take no r.(output_token_ids)) r = r) by (intros Hl; rewrite take_ge by lia; by destruct r).
    case_decide as Hd.
    + unfold put_request. wp_step. wp_step. destruct req_index as [i|].
      * wp_step. unfold on_batch. apply wp_zoom. simpl. eapply wp_mono; [apply (truncate_ok _ mrows w i r HS (Hrow i eq_refl) HW no); simpl in Hd; lia|].
        intros ? b (HT & HHb & _). wp_steps. split; [done|]. exists b. split_and!; [done|done|]. intros ? [= <-]. done.
      * wp_steps. split; [done|]. exists st.(input_batch). by split_and!.
    + wp_steps. split; [done|]. exists st.(input_batch). simpl in Hd. split_and!; [|done|].
      * unfold outputs_after. rewrite take_ge by lia. change (with_outputs r.(output_token_ids) (with_computed nc r)) with (with_computed nc r).
        by rewrite put_request_same, set_batch_id.
      * intros i Hi. unfold cut. rewrite Hsame by lia. split; [by apply touched_refl|by apply Hrow].
  - destruct (Hts eq_refl) as [Hk Hnc]. rewrite bool_decide_false by (intros E; by rewrite E in Hk). wp_step. eapply wp_lift_ok; [by apply np_get_ok|]. wp_step.
    eapply wp_lift_ok; [by apply extend_outputs_ok|]. unfold put_request. wp_steps. split; [done|]. exists st.(input_batch). split_and!; [done|done|].
    intros i Hi. split; [by apply touched_refl|by apply Hrow].
Qed.

Lemma sync_blocks_ok st resumed name req_index blocks r :
  st.(requests) !! name = Some r -> (resumed = true -> req_index = None /\ is_Some blocks) ->
  wp (sync_blocks resumed name req_index blocks) st (fun _ st' =>
    st' = set_requests (<[name := with_blocks (match blocks with Some b => if resumed then b else extend_blocks r.(block_ids) b | None => r.(block_ids) end) r]> st.(requests)) st).
Proof.
  intros Hr Hres. unfold sync_blocks, get_request, put_request. destruct resumed; simpl negb; cbn match.
  - destruct (Hres eq_refl) as [-> [b ->]]. wp_step. apply wp_check; [by apply bool_decide_true|]. wp_step. eapply wp_lift_ok; [done|]. wp_steps. unfold id.
    rewrite Hr. eapply wp_lift_ok; [done|]. by wp_steps.
  - destruct blocks as [b|]; wp_steps; unfold id; [rewrite Hr; eapply wp_lift_ok; [done|]; by wp_steps|].
    replace (with_blocks r.(block_ids) r) with r by (by destruct r). by rewrite put_request_same.
Qed.

Lemma sync_row_ok st mrows w o name i nc blocks tokens ts no r :
  Sizes st.(input_batch) mrows w -> Held st.(input_batch) mrows w i (cut st.(is_last_rank) no r) -> wf_request r -> st.(input_batch).(req_id_to_index) !! name = Some i ->
  (st.(is_last_rank) = false -> tokens = ts /\ nc <= Z.of_nat (total_len r)) -> (i < st.(input_batch).(ib_max_num_reqs))%nat ->
  (forall b, blocks = Some b -> length b = length r.(block_ids)) ->
  let r' := updated st.(is_last_rank) false nc ts blocks no r in r'.(req_id) = name -> fits_batch st.(input_batch) w o r' ->
  wp (sync_row o name i nc blocks tokens) st (fun _ st' => exists b mrows', st' = set_batch b st /\ Touched i st.(input_batch) b mrows mrows' w
    /\ Held b mrows' w i r' /\ drafted (row b mrows' i) r' (default [] (o.(scheduled_spec_decode_tokens) !! name))).
Proof.
  intros HS HH HW Hi Hts Hlt Hbl r' Hname [Hc Hlen]. rewrite Hname in Hlen. set (last := st.(is_last_rank)) in *.
  assert (HW1 : wf_request (cut last no r)) by (apply (wf_same r); [by destruct last|done]).
  unfold sync_row. wp_step. wp_step. unfold id. wp_step. unfold on_batch. apply wp_zoom. eapply wp_mono; [by apply (set_computed_ok _ mrows w i _ HS HH nc)|].
  intros ? b1 (HT1 & HH1 & _). wp_step. set (r1 := with_computed nc (cut last no r)) in *.
  set (r2 := with_blocks r'.(block_ids) r1). pose proof (to_setup _ _ _ _ _ _ HT1) as Hset1.
  apply (wp_mono _ _ (fun _ st2 => exists b2 m2, st2 = set_batch b2 st /\ Touched i b1 b2 mrows m2 w /\ Held b2 m2 w i r2)).
  { destruct blocks as [b|].
    - apply wp_zoom. eapply wp_mono; [apply (append_blocks_ok b1 mrows w i r1 (to_sizes _ _ _ _ _ _ HT1) HH1 b)|].
      + destruct Hset1 as [-> _]. done.
      + rewrite (Hbl b eq_refl). by destruct last.
      + pose proof (ch_blocks _ _ _ (can_hold_setup _ _ _ _ Hset1 Hc)) as Hch. by destruct last.
      + intros ? b2 (m2 & HT2 & HH2 & _). exists b2, m2. split_and!; [done|done|]. by destruct last.
    - wp_steps. exists b1, mrows. split_and!; [done|apply touched_refl, HT1|]. replace r2 with r1; [done|]. subst r2 r1 r'. by destruct last, r. }
  intros ? st2 (b2 & m2 & -> & HT2 & HH2). wp_step. pose proof (touched_trans _ _ _ _ _ _ _ _ HT1 HT2) as HT12.
  assert (HW2 : wf_request r2) by (by apply (wf_same (cut last no r))). assert (HW' : wf_request r') by (by apply (wf_same r)).
  assert (Hlen' : (total_len r' <= w)%nat) by apply Hc.
  apply (wp_mono _ _ (fun _ st3 => exists b3, st3 = set_batch b3 st /\ Touched i b2 b3 m2 m2 w /\ Held b3 m2 w i r')).
  { change (st.(is_last_rank)) with last. destruct last eqn:El; simpl negb; cbn match.
    - wp_steps. exists b2. split_and!; [done|apply touched_refl, HT2|done].
    - destruct (Hts eq_refl) as [-> Hnc]. apply wp_zoom. eapply wp_mono; [apply (append_tokens_ok b2 m2 w i r2 nc ts (to_sizes _ _ _ _ _ _ HT2) HH2 HW2 Hnc)|].
      + change (total_len r2) with (total_len r). change (unknown nc ts r2) with (unknown nc ts r). pose proof (wf_len _ HW). pose proof (total_split r ltac:(done)).
        assert (E : total_len r' = (Z.to_nat (prompt_len r) + length (r.(output_token_ids) ++ unknown nc ts r))%nat) by (apply (total_outputs _ r); done).
        rewrite length_app in E. lia.
      + intros ? b3 (HT3 & HH3). exists b3. split_and!; [done|done|]. exact HH3. }
  intros ? st3 (b3 & -> & HT3 & HH3). apply wp_zoom. simpl.
  eapply wp_mono; [apply (spec_ok b3 m2 w i r' (to_sizes _ _ _ _ _ _ HT3) HH3 HW' name)|].
  - by rewrite (to_index _ _ _ _ _ _ HT3), (to_index _ _ _ _ _ _ HT12).
  - exact Hlen.
  - intros ? b (HT & HHb & HD). exists b, m2. split_and!; [done| |done|done]. eapply touched_trans; [exact HT12|]. by eapply touched_trans.
Qed.

Lemma cached_setup st st' w o k name r r' :
  same_runner st st' -> st'.(requests) !! name = st.(requests) !! name -> CachedOk st w o k name r r' -> CachedOk st' w o k name r r'.
Proof. intros (El & _ & _ & _ & Hs) Er [H1 H2 H3]. split; rewrite ?El, ?Er; [done|done|]. by apply (fits_setup o w st.(input_batch)). Qed.

(** The row of a request is updated with its cached state. *)
Lemma touched_batch_held reqs i s s' mrows mrows' w name r r' :
  indexed s -> BatchOk reqs s mrows -> Touched i s s' mrows mrows' w -> s.(req_id_to_index) !! name = Some i -> reqs !! name = Some r ->
  r'.(sampling_params) = r.(sampling_params) -> wf_request r' -> Held s' mrows' w i r' ->
  BatchOk (<[name := r']> reqs) s' mrows' /\ (forall name' i', name' <> name -> s.(req_id_to_index) !! name' = Some i' -> row s' mrows' i' = row s mrows i').
Proof.
  intros Hx HB HT Hi Hr Hsp HW HH. destruct (to_setup _ _ _ _ _ _ HT) as (_ & Ev & _). split.
  - eapply touched_batch; [done|done|done|done| |by intros r0 Hr0; assert (r0 = r) as -> by congruence]. rewrite <- Ev. apply (held_mirror s' mrows' w); [apply HT|apply HW|done].
  - intros name' i' Hne Hi'. apply (to_other _ _ _ _ _ _ HT). intros ->. by apply Hne, (indexed_inj s name' name i).
Qed.

Lemma update_cached_ok st mrows w o k name r r' :
  Live st mrows w -> CachedOk st w o k name r r' ->
  (name ∈ o.(scheduled_cached_reqs).(resumed_req_ids) -> st.(input_batch).(req_id_to_index) !! name = None) ->
  wp (update_cached_request o k name) st (fun to_add st' => exists mrows', Live st' mrows' w /\ same_runner st st' /\ st'.(requests) = <[name := r']> st.(requests)
    /\ st'.(input_batch).(req_id_to_index) = st.(input_batch).(req_id_to_index) /\ to_add = bool_decide (st.(input_batch).(req_id_to_index) !! name = None)
    /\ (forall i, st.(input_batch).(req_id_to_index) !! name = Some i -> drafted (row st'.(input_batch) mrows' i) r' (default [] (o.(scheduled_spec_decode_tokens) !! name)))
    /\ (forall name' i, name' <> name -> st.(input_batch).(req_id_to_index) !! name' = Some i -> row st'.(input_batch) mrows' i = row st.(input_batch) mrows i)).
Proof.
  intros [[HO HB Hf] Hq] [Hr (nc & blocks & no & ts & H1 & H2 & H3 & Hts & Hres & Hbl & Er') Hfit] Hresumed. destruct (Hq name r Hr) as [Hname HW].
  pose proof (op_sizes _ _ _ HO) as HS. set (last := st.(is_last_rank)) in *. set (resumed := bool_decide (name ∈ o.(scheduled_cached_reqs).(resumed_req_ids))) in *.
  set (req_index := st.(input_batch).(req_id_to_index) !! name) in *.
  assert (Hidx : r'.(req_id) = name) by (rewrite Er'; exact Hname). assert (HW' : wf_request r') by (subst r'; by apply (wf_same r)).
  assert (Hheld : forall i, req_index = Some i -> Held st.(input_batch) mrows w i r).
  { intros i Hi. destruct (bk_rows _ _ _ HB name i Hi) as (r0 & Hr0 & Hm). assert (r0 = r) as -> by congruence. by apply mirror_held; [|apply HW|]. }
  unfold update_cached_request, get_request. wp_step. wp_step. wp_step. unfold id. rewrite Hr. eapply wp_lift_ok; [done|]. wp_step.
  eapply wp_lift_ok; [by apply np_get_ok|]. wp_step. eapply wp_lift_ok; [by apply np_get_ok|]. wp_step. eapply wp_lift_ok; [by apply np_get_ok|].
  unfold put_request. wp_step. wp_step. wp_step. wp_step. wp_step. unfold id. fold req_index resumed.
  set (st1 := set_requests (<[name := with_computed nc r]> st.(requests)) st).
  eapply wp_mono; [apply (sync_outputs_ok st1 mrows w o.(scheduled_cached_reqs) k name req_index nc no ts r); [done|apply lookup_insert_eq|done|exact Hts|exact Hheld]|].
  intros tokens st2 (Htok & b1 & -> & Hnone & Hsome). simpl in Hnone, Hsome, Htok. wp_step.
  match goal with |- wp _ ?s2 _ => set (st2 := s2) end.
  eapply wp_mono; [apply (sync_blocks_ok st2 resumed name req_index blocks (with_outputs (outputs_after last nc ts no r) (with_computed nc r)))|].
  { apply lookup_insert_eq. }
  { intros Hb. subst resumed. apply bool_decide_eq_true in Hb. split; [by apply Hresumed|by apply Hres]. }
  intros ? st3 E3. cbn beta in E3. assert (E3' : st3 = set_batch b1 (set_requests (<[name := r']> st.(requests)) st)).
  { rewrite E3. unfold st2, st1, set_batch, set_requests. simpl. rewrite !insert_insert_eq. by rewrite Er'. }
  rewrite E3'. clear E3 E3'. assert (Hq' : requests_ok (<[name := r']> st.(requests))) by (by apply requests_insert).
  destruct req_index as [i|] eqn:Ei.
  - destruct (Hsome i eq_refl) as [HT1 HH1]. wp_step. assert (Hnr : resumed = false).
    { subst resumed. apply bool_decide_eq_false. intros Hin. apply Hresumed in Hin. done. }
    assert (Hi : (i < st.(input_batch).(ib_max_num_reqs))%nat) by (apply (op_indexed _ _ _ HO), lookup_lt_Some in Ei; pose proof (sz_ids _ _ _ HS); lia).
    pose proof (to_setup _ _ _ _ _ _ HT1) as Hset1.
    eapply wp_mono; [apply (sync_row_ok (set_batch b1 (set_requests (<[name := r']> st.(requests)) st)) mrows w o r.(req_id) i nc blocks tokens ts no r); simpl|].
    + apply HT1.
    + exact HH1.
    + done.
    + by rewrite (to_index _ _ _ _ _ _ HT1), Hname.
    + intros El. split; [by apply Htok|by apply Hts].
    + by destruct Hset1 as [-> _].
    + intros b ->. apply Hbl; [done|]. subst resumed. by apply bool_decide_eq_false in Hnr.
    + done.
    + rewrite Er', Hnr in Hfit. by apply (fits_setup o w st.(input_batch)).
    + intros ? st4 (b & mrows' & -> & HT2 & HH2 & HD). wp_steps. simpl in HT2. pose proof (touched_trans _ _ _ _ _ _ _ _ HT1 HT2) as HT.
      rewrite Hnr in Er'. assert (HH3 : Held b mrows' w i r') by (rewrite Er'; exact HH2). rewrite Hname in HD.
      destruct (touched_batch_held st.(requests) i st.(input_batch) b mrows mrows' w name r r') as [HB' Hrows]; try done; [apply HO|by rewrite Er'|].
      exists mrows'. split_and!; [|by split_and!; try apply HT|done|apply HT|done| |exact Hrows].
      * split; [split|done]; simpl; [by eapply touched_open|done|by rewrite (to_upd _ _ _ _ _ _ HT)].
      * intros i' [= <-]. rewrite Er'. exact HD.
  - rewrite (Hnone eq_refl). wp_steps. exists mrows. split_and!; try done. split; [split|]; try done. simpl.
    apply (batch_agree st.(requests)); [done|]. intros name' [i Hi]. rewrite lookup_insert_ne; [done|]. intros <-. subst req_index. congruence.
Qed.

Lemma update_cached_all_ok names k st mrows w o :
  Live st mrows w -> NoDup names -> (forall j name, names !! j = Some name -> exists r r', CachedOk st w o (k + j) name r r') ->
  (forall name, name ∈ names -> name ∈ o.(scheduled_cached_reqs).(resumed_req_ids) -> st.(input_batch).(req_id_to_index) !! name = None) ->
  wp (update_cached_requests o k names) st (fun to_add st' => exists mrows', Live st' mrows' w /\ same_runner st st'
    /\ st'.(input_batch).(req_id_to_index) = st.(input_batch).(req_id_to_index) /\ to_add = filter (fun name => st.(input_batch).(req_id_to_index) !! name = None) names
    /\ (forall j name, names !! j = Some name -> exists r r', CachedOk st w o (k + j) name r r' /\ st'.(requests) !! name = Some r'
       /\ forall i, st.(input_batch).(req_id_to_index) !! name = Some i -> drafted (row st'.(input_batch) mrows' i) r' (default [] (o.(scheduled_spec_decode_tokens) !! name)))
    /\ (forall name, name ∉ names -> st'.(requests) !! name = st.(requests) !! name)
    /\ (forall name i, name ∉ names -> st.(input_batch).(req_id_to_index) !! name = Some i -> row st'.(input_batch) mrows' i = row st.(input_batch) mrows i)).
Proof.
  revert k st mrows. induction names as [|name names IH]; intros k st mrows HL Hnd Hok Hres; cbn [update_cached_requests].
  { wp_steps. exists mrows. by split_and!. }
  apply NoDup_cons in Hnd as [Hnin Hnd]. destruct (Hok 0%nat name eq_refl) as (r & r' & Hc). rewrite Nat.add_0_r in Hc. wp_step.
  eapply wp_mono; [apply (update_cached_ok st mrows w o k name r r' HL Hc); intros Hin; by apply Hres; [left|]|].
  intros to_add st1 (m1 & HL1 & Hs1 & Hreq1 & Hx1 & -> & HD1 & Hrow1). wp_step.
  assert (Hother : forall name', name' ∈ names -> st1.(requests) !! name' = st.(requests) !! name') by (intros name' Hin; rewrite Hreq1, lookup_insert_ne; [done|by intros <-]).
  eapply wp_mono; [apply (IH (S k) st1 m1 HL1 Hnd)|].
  { intros j name' Hj. destruct (Hok (S j) name' Hj) as (q & q' & Hq). exists q, q'. replace (S k + j)%nat with (k + S j)%nat by lia.
    apply (cached_setup st); [done|apply Hother; by eapply list_elem_of_lookup_2|done]. }
  { intros name' Hin Hre. rewrite Hx1. apply Hres; [by right|done]. }
  intros rest st' (m & HL' & Hs & Hx & -> & Hdone & Hout & Hrow). wp_steps. exists m. rewrite Hx1 in *. split_and!; [done|by etrans|done| | | |].
  - rewrite filter_cons. case_bool_decide as Hi; case_decide; done.
  - intros [|j] name' Hj.
    + injection Hj as <-. exists r, r'. rewrite Nat.add_0_r. split_and!; [done|rewrite Hout, Hreq1 by done; apply lookup_insert_eq|]. intros i Hi.
      rewrite (Hrow name i Hnin) by done. by apply HD1.
    + destruct (Hdone j name' Hj) as (q & q' & Hq & Hq' & HD). exists q, q'. split_and!; [|done|done]. replace (S k + j)%nat with (k + S j)%nat in Hq by lia.
      apply (cached_setup st1); [by symmetry|symmetry; apply Hother; by eapply list_elem_of_lookup_2|done].
  - intros name' [Hne Hn]%not_elem_of_cons. rewrite Hout, Hreq1 by done. by rewrite lookup_insert_ne.
  - intros name' i [Hne Hn]%not_elem_of_cons Hi. rewrite (Hrow name' i Hn Hi). by apply (Hrow1 name').
Qed.

(** ** Adding to the batch *)

Section adding.
Context (reqs : gmap ReqId CachedRequestState) (o : SchedulerOutput) (w : nat).
Hypothesis reqs_ok : requests_ok reqs.

(** Every row ends with the drafts of its request. *)
Definition Drafted (s : InputBatch) (mrows : list (list (list Z))) : Prop :=
  forall name i, s.(req_id_to_index) !! name = Some i -> exists r, reqs !! name = Some r /\ drafted (row s mrows i) r (default [] (o.(scheduled_spec_decode_tokens) !! name)).

Record Adding (s : InputBatch) (mrows : list (list (list Z))) : Prop := {
  an_open : Open s mrows w;
  an_batch : BatchOk reqs s mrows;
  an_drafted : Drafted s mrows;
}.

Lemma drafted_touched s s' mrows mrows' name i r :
  indexed s -> Touched i s s' mrows mrows' w -> s.(req_id_to_index) !! name = Some i -> reqs !! name = Some r ->
  drafted (row s' mrows' i) r (default [] (o.(scheduled_spec_decode_tokens) !! name)) ->
  (forall name' i', name' <> name -> s.(req_id_to_index) !! name' = Some i' -> exists r, reqs !! name' = Some r
    /\ drafted (row s mrows i') r (default [] (o.(scheduled_spec_decode_tokens) !! name'))) ->
  Drafted s' mrows'.
Proof.
  intros Hx HT Hi Hr HD Hrest name' i'. rewrite (to_index _ _ _ _ _ _ HT). intros Hi'. destruct (decide (name' = name)) as [->|Hne].
  - assert (i' = i) as -> by congruence. eauto.
  - rewrite (to_other _ _ _ _ _ _ HT); [by apply Hrest|]. intros ->. by apply Hne, (indexed_inj s name' name i).
Qed.

Lemma add_to_batch_ok st mrows name r :
  st.(requests) = reqs -> Adding st.(input_batch) mrows -> st.(input_batch).(req_id_to_index) !! name = None -> reqs !! name = Some r ->
  fits_batch st.(input_batch) w o r -> (num_reqs st.(input_batch) < st.(input_batch).(ib_max_num_reqs))%nat ->
  wp (add_to_batch o name) st (fun _ st' => exists b mrows' i, st' = set_batch b st /\ Adding b mrows' /\ same_setup st.(input_batch) b
    /\ b.(req_id_to_index) = <[name := i]> st.(input_batch).(req_id_to_index)).
Proof.
  intros Hreqs [HO HB HD] Hnew Hr [Hc Hlen] Hroom. destruct (reqs_ok name r Hr) as [Hname HW]. unfold add_to_batch, get_request. wp_steps. unfold id.
  rewrite Hreqs, Hr. eapply wp_lift_ok; [done|]. wp_step. unfold on_batch. apply wp_zoom. rewrite <- Hname in Hr, Hnew.
  eapply wp_mono; [by apply (add_ok reqs _ mrows w r HO HB)|]. intros i b1 (m1 & HO1 & HB1 & HA & Hrows). apply wp_zoom. simpl.
  pose proof (ad_index _ _ _ _ _ HA) as Ex. assert (Hi : b1.(req_id_to_index) !! r.(req_id) = Some i) by (rewrite Ex; apply lookup_insert_eq).
  destruct (bk_rows _ _ _ HB1 _ _ Hi) as (r0 & Hr0 & Hm). assert (r0 = r) as -> by congruence.
  assert (HH : Held b1 m1 w i r) by (apply mirror_held; [apply HO1|apply HW|done]).
  eapply wp_mono; [by apply (spec_ok b1 m1 w i r (op_sizes _ _ _ HO1) HH HW r.(req_id))|]. intros ? b (HT & HHb & HDb). exists b, m1, i.
  destruct (touched_batch_held reqs i b1 b m1 m1 w r.(req_id) r r) as [HB' _]; try done; [apply HO1|]. rewrite insert_id in HB' by done.
  split_and!; [done|split; [by eapply touched_open|done|]| |].
  - eapply (drafted_touched b1 b m1 m1 r.(req_id) i r); [apply HO1|done|done|done|done|]. intros name' i' Hne. rewrite Ex, lookup_insert_ne by done. intros Hi'.
    rewrite Hrows; [by apply HD|apply (op_indexed _ _ _ HO) in Hi'; by eapply lookup_lt_Some|]. intros ->. apply (op_indexed _ _ _ HO1) in Hi. assert (Hi2 : b1.(req_id_to_index) !! name' = Some i) by (by rewrite Ex, lookup_insert_ne).
    apply (op_indexed _ _ _ HO1) in Hi2. congruence.
  - etrans; [apply (ad_setup _ _ _ _ _ HA)|apply HT].
  - by rewrite (to_index _ _ _ _ _ _ HT), Ex, Hname.
Qed.

Lemma add_all_ok L st mrows :
  st.(requests) = reqs -> Adding st.(input_batch) mrows -> NoDup L -> (size o.(num_scheduled_tokens) <= st.(input_batch).(ib_max_num_reqs))%nat ->
  (forall name, is_Some (st.(input_batch).(req_id_to_index) !! name) -> is_Some (o.(num_scheduled_tokens) !! name)) ->
  (forall name, name ∈ L -> st.(input_batch).(req_id_to_index) !! name = None /\ is_Some (o.(num_scheduled_tokens) !! name)
    /\ exists r, reqs !! name = Some r /\ fits_batch st.(input_batch) w o r) ->
  wp (for_each L (add_to_batch o)) st (fun _ st' => exists b mrows', st' = set_batch b st /\ Adding b mrows' /\ same_setup st.(input_batch) b
    /\ forall name, is_Some (b.(req_id_to_index) !! name) <-> name ∈ L \/ is_Some (st.(input_batch).(req_id_to_index) !! name)).
Proof.
  intros Hreqs HA Hnd Hroom Hdom HL. revert st mrows Hreqs HA Hnd Hroom Hdom HL. induction L as [|name L IH]; intros st mrows Hreqs HA Hnd Hroom Hdom HL; cbn [for_each].
  { wp_steps. exists st.(input_batch), mrows. split_and!; [by rewrite set_batch_id|done|done|]. intros name. split; [by right|]. by intros [?%elem_of_nil|?]. }
  apply NoDup_cons in Hnd as [Hnin Hnd]. destruct (HL name ltac:(left)) as (Hnew & Hsched & r & Hr & Hfit). wp_step.
  eapply wp_mono; [apply (add_to_batch_ok st mrows name r Hreqs HA Hnew Hr Hfit)|].
  { unfold num_reqs. rewrite <- size_dom, <- (size_dom o.(num_scheduled_tokens)) in *. apply Nat.lt_le_trans with (size (dom o.(num_scheduled_tokens))); [|by rewrite size_dom in *].
    apply subset_size. split; [intros n; rewrite !elem_of_dom; apply Hdom|]. intros Hsub. specialize (Hsub name). rewrite !elem_of_dom, Hnew in Hsub. by destruct (Hsub Hsched). }
  intros ? st1 (b1 & m1 & i & -> & HA1 & Hs1 & Hx1). pose proof Hs1 as (Em & _).
  eapply wp_mono; [apply (IH (set_batch b1 st) m1 Hreqs HA1 Hnd); simpl; [by rewrite Em| |]|].
  - intros n. rewrite Hx1. destruct (decide (n = name)) as [->|Hne]; [done|]. rewrite lookup_insert_ne by done. apply Hdom.
  - intros n Hn. destruct (HL n ltac:(by right)) as (Hnew' & Hs' & r' & Hr' & Hf'). rewrite Hx1, lookup_insert_ne by (by intros ->). split_and!; [done|done|].
    exists r'. split; [done|]. by eapply fits_setup.
  - intros ? st' (b & m & -> & HA' & Hs & Hx). exists b, m. split_and!; [done|done|by etrans|]. intros n. rewrite Hx. simpl. rewrite Hx1, elem_of_cons.
    clear -Hnin. destruct (decide (n = name)) as [->|Hne].
    + rewrite lookup_insert_eq. split; [intros _; left; by left|intros _; right; by eexists].
    + rewrite lookup_insert_ne by done. split; [intros [?|?]; [left; by right|by right]|]. intros [[?|?]|?]; [done|by left|by right].
Qed.
End adding.

(** ** The step *)

Lemma dense_open s mrows w : Dense s mrows w -> s.(upd).(removed) = [] -> s.(upd).(is_removed_sorted) = false -> Open s mrows w.
Proof.
  intros [HS Hx Hv Hfull] Hr Hf. split; rewrite ?Hr, ?Hf; try done; [constructor|]. intros i. split; [by intros ?%elem_of_nil|]. by intros ?%Hfull.
Qed.

Lemma drafted_carried reqs o s s' mrows mrows' : Drafted reqs o s mrows -> Carried s s' mrows mrows' -> Drafted reqs o s' mrows'.
Proof.
  intros HD [_ _ Hdom Hrow] name i' Hi'. destruct (proj1 (Hdom name)) as [i Hi]; [by eexists|]. destruct (Hrow name i Hi) as (i2 & Hi2 & E).
  assert (i2 = i') as -> by congruence. rewrite E. by apply HD.
Qed.

(** Decodes come before prefills when a threshold is set. *)
Definition Ordered (st : Runner) (o : SchedulerOutput) : Prop :=
  forall threshold, st.(has_kv_cache_groups) = true -> st.(reorder_batch_threshold) = Some threshold ->
  exists counts, row_counts o.(num_scheduled_tokens) st.(input_batch) = Ok counts /\ StronglySorted le (req_region threshold <$> counts).

Lemma settle_ok reqs o w st mrows :
  st.(requests) = reqs -> requests_ok reqs -> Adding reqs o w st.(input_batch) mrows ->
  (forall name, is_Some (st.(input_batch).(req_id_to_index) !! name) -> is_Some (o.(num_scheduled_tokens) !! name)) ->
  wp (settle_batch o) st (fun _ st' => exists mrows', RunnerOk st' mrows' w /\ same_runner st st'
    /\ st'.(requests) = reqs /\ (forall name, is_Some (st'.(input_batch).(req_id_to_index) !! name) <-> is_Some (st.(input_batch).(req_id_to_index) !! name))
    /\ Drafted reqs o st'.(input_batch) mrows' /\ Ordered st' o).
Proof.
  intros Hreqs Hok [HO HB HD] Hdom. unfold settle_batch. wp_step. unfold on_batch at 1. apply wp_zoom. eapply wp_mono; [by apply condense_ok|].
  intros ? b1 (m1 & HD1 & HC1). wp_step.
  apply (wp_mono _ _ (fun _ st' => exists b m, st' = set_batch b st /\ Dense b m w /\ Carried st.(input_batch) b mrows m /\ Ordered (set_batch b st) o)).
  { unfold may_reorder_batch. wp_step. wp_step. unfold id. simpl. destruct st.(has_kv_cache_groups) eqn:Hg; simpl negb; cbn match.
    2: { wp_steps. exists b1, m1. split_and!; [done|done|done|]. intros t H. simpl in H. congruence. }
    destruct st.(reorder_batch_threshold) as [t|] eqn:Ht; [|wp_steps; exists b1, m1; split_and!; [done|done|done|]; intros t _ H; simpl in H; congruence].
    wp_step. unfold on_batch. apply wp_zoom. simpl. eapply wp_mono; [apply (reorder_ok o.(num_scheduled_tokens) t b1 m1 w HD1)|].
    { intros name Hn. apply Hdom. by apply (ca_dom _ _ _ _ HC1). }
    intros ? b (m & counts & HD2 & HC2 & Hc & Hs). wp_steps. exists b, m. split_and!; [done|done|by eapply carried_trans|].
    intros t' _ E. simpl in E. assert (t' = t) as -> by congruence. by exists counts. }
  intros ? st2 (b & m & -> & HD2 & HC2 & Hord). wp_step. unfold on_batch. apply wp_zoom. unfold refresh_metadata, on_upd, builder_reset, get_and_reset. simpl.
  match goal with |- wp _ _ ?Q => apply (wp_mono _ _ (fun _ b' => b' = set_upd (mkBuilder [] false [] [] false) b)) end.
  { wp_steps. unfold id. destruct b.(is_pooling_model); apply wp_zoom; by wp_steps. }
  intros ? b' ->. wp_steps. pose proof (carried_upd b m (mkBuilder [] false [] [] false)) as HC3. pose proof (carried_trans _ _ _ _ _ _ HC2 HC3) as HC.
  exists m. split_and!; [split|..]; simpl; rewrite ?Hreqs; try done.
  - by apply dense_upd.
  - by eapply batch_carried.
  - split_and!; try done. apply HC.
  - apply HC.
  - by eapply drafted_carried.
Qed.

Section step.
Context (iterate : gset ReqId -> list ReqId) (gp : Pooling -> Pooling).
Hypothesis iterate_elem : forall X name, name ∈ iterate X <-> name ∈ X.
Context (o : SchedulerOutput) (w : nat).

(** The requests that are still known after a step removed the finished ones. *)
Definition surviving (st : Runner) : gmap ReqId CachedRequestState := filter (fun x => x.1 ∉ iterate o.(finished_req_ids)) st.(requests).

Lemma surviving_lookup st name : surviving st !! name = if decide (name ∈ o.(finished_req_ids)) then None else st.(requests) !! name.
Proof.
  unfold surviving. rewrite map_lookup_filter. destruct (st.(requests) !! name) as [r|]; simpl; [|by case_decide].
  case_guard as H1; case_decide as H2; simpl in *; rewrite iterate_elem in H1; done.
Qed.

Lemma leave_ok st mrows :
  RunnerOk st mrows w ->
  wp (drop_requests iterate o) st (fun _ st' => exists mrows', Live st' mrows' w /\ same_runner st st'
    /\ st'.(requests) = surviving st
    /\ forall name, is_Some (st'.(input_batch).(req_id_to_index) !! name) -> is_Some (o.(num_scheduled_tokens) !! name) /\ name ∉ o.(scheduled_cached_reqs).(resumed_req_ids)).
Proof.
  intros [HD HB Hq [Hu1 Hu2]]. unfold drop_requests. wp_step. eapply wp_mono; [apply finish_all_ok|]. intros ? st1 [lp ->]. fold (surviving st). wp_step.
  match goal with |- wp _ ?s _ => set (st1 := s) end.
  eapply wp_mono; [apply (remove_all_ok st.(requests) _ st1 mrows w); split; [by apply dense_open|done|done]|].
  intros ? st2 (b1 & m1 & -> & HR1 & Hs1 & Hx1). wp_step. wp_step. unfold id.
  assert (HR1' : Removing (surviving st) b1 m1 w).
  { destruct HR1 as [A1 A2 A3]. split; [done| |done]. apply (batch_agree st.(requests)); [done|]. intros name [i Hi]. rewrite Hx1 in Hi. rewrite surviving_lookup.
    destruct (decide (name ∈ o.(finished_req_ids))) as [Hd|Hd]; [|done]. by rewrite decide_True in Hi by (by apply iterate_elem). }
  eapply wp_mono; [apply (remove_all_ok (surviving st) _ (set_batch b1 st1) m1 w HR1')|]. intros ? st3 (b2 & m2 & -> & HR2 & Hs2 & Hx2). exists m2. simpl in *.
  split_and!; [split; [done|]| |done|].
  - intros name r. simpl. rewrite surviving_lookup. case_decide; [done|]. apply Hq.
  - split_and!; try done. simpl. by etrans.
  - intros name. rewrite Hx2. case_decide as Hd; [by intros [? ?]|]. intros Hi. rewrite iterate_elem in Hd. unfold unscheduled_req_ids in Hd. simpl in Hd.
    rewrite !elem_of_difference, !elem_of_dom in Hd. destruct (decide (is_Some (o.(num_scheduled_tokens) !! name) /\ name ∉ o.(scheduled_cached_reqs).(resumed_req_ids))) as [?|Hn]; [done|].
    exfalso. by apply Hd.
Qed.

(** New, running and resumed requests: the batch is ready for those that have to be added. *)
Lemma arrive_ok st st1 mrows :
  ScheduleOk gp st w o -> Live st1 mrows w -> same_runner st st1 -> st1.(requests) = surviving st ->
  (forall name, is_Some (st1.(input_batch).(req_id_to_index) !! name) -> is_Some (o.(num_scheduled_tokens) !! name) /\ name ∉ o.(scheduled_cached_reqs).(resumed_req_ids)) ->
  wp (for_each o.(scheduled_new_reqs) (add_new_request gp) ;; update_cached_requests o 0 o.(scheduled_cached_reqs).(cd_req_ids)) st1 (fun to_add st' =>
    exists mrows', Adding st'.(requests) o w st'.(input_batch) mrows' /\ requests_ok st'.(requests) /\ same_runner st st'
    /\ (forall name, is_Some (st'.(input_batch).(req_id_to_index) !! name) <-> name ∈ o.(scheduled_cached_reqs).(cd_req_ids) /\ name ∉ to_add)
    /\ NoDup to_add /\ (forall name, name ∈ to_add -> name ∈ o.(scheduled_cached_reqs).(cd_req_ids))
    /\ (forall d, d ∈ o.(scheduled_new_reqs) -> st'.(requests) !! d.(nr_req_id) = Some (incoming gp st.(input_batch).(is_pooling_model) (surviving st !! d.(nr_req_id)) d))
    /\ (forall k name, o.(scheduled_cached_reqs).(cd_req_ids) !! k = Some name -> exists r r', CachedOk st w o k name r r' /\ st'.(requests) !! name = Some r')
    /\ (forall name, o.(num_scheduled_tokens) !! name = None -> st'.(requests) !! name = surviving st !! name)).
Proof.
  intros [Hnd Hnames Hroom Hnew Hcached] HL1 Hs1 Hreq1 Hdom1. set (cached := o.(scheduled_cached_reqs).(cd_req_ids)) in *. set (news := nr_req_id <$> o.(scheduled_new_reqs)) in *.
  apply NoDup_app in Hnd as (Hndc & Hdis & Hndn). pose proof Hs1 as (_ & _ & _ & _ & Hset1). assert (Hp1 : st1.(input_batch).(is_pooling_model) = st.(input_batch).(is_pooling_model)) by apply Hset1.
  wp_step. eapply wp_mono; [apply (add_new_all_ok gp o w _ st1 mrows HL1 Hndn)|].
  { intros d Hd. rewrite Hp1, Hreq1, surviving_lookup. eapply fits_setup; [exact Hset1|]. by apply Hnew. }
  intros ? st2 (m2 & HL2 & Hs2 & Hin2 & Hout2 & Hx2). fold news in Hout2, Hx2. pose proof (transitivity Hs1 Hs2) as Hs02.
  assert (Hreq2 : forall name, name ∈ cached -> st2.(requests) !! name = st.(requests) !! name).
  { intros name Hc. rewrite Hout2 by (by intros ?; eapply Hdis). rewrite Hreq1, surviving_lookup. apply list_elem_of_lookup in Hc as [k Hk].
    destruct (Hcached k name Hk) as [Hnf _]. by rewrite decide_False. }
  eapply wp_mono; [apply (update_cached_all_ok cached 0 st2 m2 w o HL2 Hndc)|].
  { intros j name Hj. destruct (Hcached j name Hj) as (_ & r & r' & Hc). exists r, r'. apply (cached_setup st); [done|apply Hreq2; by eapply list_elem_of_lookup_2|done]. }
  { intros name _ Hres. rewrite Hx2. case_decide; [done|]. apply eq_None_not_Some. intros Hi. by apply Hdom1 in Hi as [_ ?]. }
  intros to_add st' (m & HL' & Hs & Hx & -> & Hdone & Hout & _).
  assert (Hin : forall name, is_Some (st2.(input_batch).(req_id_to_index) !! name) -> name ∈ cached).
  { intros name. rewrite Hx2. case_decide as Hd; [by intros [? ?]|]. intros Hi. apply Hdom1 in Hi as [Hi _]. apply Hnames in Hi. by apply elem_of_app in Hi as [?|?]. }
  assert (Hcin : forall name, name ∈ cached -> exists j, cached !! j = Some name) by (intros name ?; by apply list_elem_of_lookup).
  exists m. destruct HL' as [[HO HB _] Hq]. split_and!; [split; [done|done|]|done|by etrans| | | | | |].
  - intros name i Hi. rewrite Hx in Hi. destruct (Hcin name) as [j Hj]; [apply Hin; eauto|]. destruct (Hdone j name Hj) as (r & r' & _ & Hr' & HD). eauto.
  - intros name. rewrite Hx, list_elem_of_filter. split; [intros Hi; split; [by apply Hin|]; intros [E _]; rewrite E in Hi; by destruct Hi|]. intros [Hc Hn].
    apply not_eq_None_Some. intros E. by apply Hn.
  - by apply NoDup_filter.
  - intros name [_ ?]%list_elem_of_filter. done.
  - intros d Hd. rewrite Hout; [rewrite Hin2, Hp1, Hreq1 by done; done|]. intros Hc. by eapply Hdis, list_elem_of_fmap_2.
  - intros k name Hk. destruct (Hdone k name Hk) as (r & r' & Hc & Hr' & _). exists r, r'. split; [|done].
    apply (cached_setup st2); [by symmetry|symmetry; apply Hreq2; by eapply list_elem_of_lookup_2|done].
  - intros name Hn. assert (Hnin : name ∉ cached ++ news) by (rewrite <- Hnames, Hn; by intros [? ?]). rewrite elem_of_app in Hnin.
    rewrite Hout by tauto. rewrite Hout2 by tauto. by rewrite Hreq1.
Qed.
End step.

(** ** Sampled tokens *)

Lemma record_row_ok st mrows w i name r ids :
  RunnerOk st mrows w -> st.(input_batch).(req_ids) !! i = Some (Some name) -> st.(requests) !! name = Some r ->
  Z.of_nat (total_len r + length ids) <= st.(max_model_len) <= Z.of_nat w ->
  wp (record_row i ids) st (fun _ st' => RunnerOk st' mrows w /\ same_runner st st' /\ st'.(requests) = <[name := with_outputs (r.(output_token_ids) ++ ids) r]> st.(requests)
    /\ st'.(input_batch).(req_ids) = st.(input_batch).(req_ids)).
Proof.
  intros [HD HB Hq Hu] Hi Hr Hlen. pose proof (de_indexed _ _ _ HD) as Hx. pose proof (proj2 (Hx name i) Hi) as Hidx. destruct (Hq name r Hr) as [Hname HW].
  unfold record_row. case_bool_decide as Hnil.
  { subst ids. wp_steps. rewrite app_nil_r, with_outputs_id, insert_id by done. done. }
  destruct (bk_rows _ _ _ HB name i Hidx) as (r0 & Hr0 & Hm). assert (r0 = r) as -> by congruence.
  pose proof (mirror_held _ _ w _ _ (de_sizes _ _ _ HD) (wf_len _ HW) Hm) as HH. assert (Es : cr_num_tokens r (prompt_len r) = Z.of_nat (total_len r)) by (unfold total_len, cr_num_tokens; pose proof (wf_len _ HW); lia).
  pose proof (append_ids_ok _ _ w i r (de_sizes _ _ _ HD) HH HW ids ltac:(lia)) as Happ. simpl in Happ.
  wp_step. wp_step. unfold id. rewrite (he_no_spec _ _ _ _ _ HH). simpl default. wp_step. apply wp_check; [apply Z.leb_le; lia|].
  assert (Hseq : forall (a b c : ibM unit) (k : runnerM unit) Q, wp (a ;; b ;; c) st.(input_batch) (fun _ b' => wp k (set_batch b' st) Q) ->
    wp (on_batch a ;; on_batch b ;; on_batch c ;; k) st Q).
  { intros a b c k Q. unfold wp, bind, on_batch, zoom. simpl. destruct (a st.(input_batch)) as [[[]|] b1]; [|done]. simpl. destruct (b b1) as [[[]|] b2]; [|done]. simpl.
    by destruct (c b2) as [[[]|] b3]. }
  apply Hseq. eapply wp_mono; [exact Happ|]. intros ? b (HT & HHb & _). wp_step. eapply wp_lift_ok; [by apply np_get_ok|]. wp_step. eapply wp_lift_ok; [done|].
  unfold get_request, put_request. wp_steps. unfold id. simpl. rewrite Hr. eapply wp_lift_ok; [done|]. wp_steps.
  set (r' := with_outputs (r.(output_token_ids) ++ ids) r) in *. assert (HW' : wf_request r') by (by apply (wf_same r)).
  destruct (touched_batch_held st.(requests) i st.(input_batch) b mrows mrows w name r r') as [HB' _]; try done.
  split_and!; [split; simpl|split_and!; try done; apply HT|done|apply HT].
  - by eapply touched_dense.
  - done.
  - by apply requests_insert.
  - by rewrite (to_upd _ _ _ _ _ _ HT).
Qed.

(** The row [i], the request there and what it has sampled. *)
Definition sampled_ok (st : Runner) (w : nat) (i : nat) (ids : list Z) : Prop :=
  exists name r, st.(input_batch).(req_ids) !! i = Some (Some name) /\ st.(requests) !! name = Some r
    /\ Z.of_nat (total_len r + length ids) <= st.(max_model_len) <= Z.of_nat w.

Lemma record_rows_ok sampled i st mrows w :
  RunnerOk st mrows w -> (forall j ids, sampled !! j = Some ids -> sampled_ok st w (i + j) ids) ->
  wp (record_rows i sampled) st (fun _ st' => RunnerOk st' mrows w /\ same_runner st st' /\ st'.(input_batch).(req_ids) = st.(input_batch).(req_ids)
    /\ (forall j ids name r, sampled !! j = Some ids -> st.(input_batch).(req_ids) !! (i + j)%nat = Some (Some name) -> st.(requests) !! name = Some r ->
        st'.(requests) !! name = Some (with_outputs (r.(output_token_ids) ++ ids) r))
    /\ (forall name, (forall j, (j < length sampled)%nat -> st.(input_batch).(req_ids) !! (i + j)%nat <> Some (Some name)) -> st'.(requests) !! name = st.(requests) !! name)).
Proof.
  revert i st. induction sampled as [|ids sampled IH]; intros i st HR Hs; cbn [record_rows].
  { wp_steps. by split_and!. }
  destruct (Hs 0%nat ids eq_refl) as (name & r & Hi & Hr & Hlen). rewrite Nat.add_0_r in Hi. wp_step. pose proof (de_indexed _ _ _ (ro_dense _ _ _ HR)) as Hx.
  eapply wp_mono; [by apply (record_row_ok st mrows w i name r ids)|]. intros ? st1 (HR1 & Hs1 & Hreq1 & Hids1).
  assert (Hne : forall j name', st.(input_batch).(req_ids) !! (S i + j)%nat = Some (Some name') -> name' <> name).
  { intros j name' Hj ->. apply Hx in Hi. apply Hx in Hj. rewrite Hi in Hj. injection Hj. lia. }
  eapply wp_mono; [apply (IH (S i) st1 HR1)|].
  { intros j ids' Hj. destruct (Hs (S j) ids' Hj) as (n' & r' & Hn' & Hr' & Hl'). replace (i + S j)%nat with (S i + j)%nat in Hn' by lia.
    exists n', r'. pose proof Hs1 as (_ & _ & _ & -> & _). rewrite Hids1, Hreq1, lookup_insert_ne; [done|]. intros <-. by apply (Hne j name Hn'). }
  intros ? st' (HR' & Hs' & Hids' & Hin & Hout). split_and!; [done|by etrans|congruence| |].
  - intros [|j] ids' n' r' Hj Hn' Hr'; simpl in Hj.
    + injection Hj as <-. rewrite Nat.add_0_r in Hn'. assert (n' = name) as -> by congruence. assert (r' = r) as -> by congruence. rewrite Hout, Hreq1; [apply lookup_insert_eq|].
      intros j _ Hj. rewrite Hids1 in Hj. by apply Hne in Hj.
    + replace (i + S j)%nat with (S i + j)%nat in Hn' by lia. apply (Hin j); [done|by rewrite Hids1|]. rewrite Hreq1, lookup_insert_ne; [done|]. intros <-. by apply (Hne j name Hn').
  - intros n' Hn'. rewrite Hout, Hreq1, lookup_insert_ne; [done| |].
    + intros ->. apply (Hn' 0%nat); [simpl; lia|]. by rewrite Nat.add_0_r.
    + intros j Hj. rewrite Hids1. replace (S i + j)%nat with (i + S j)%nat by lia. apply Hn'. simpl. lia.
Qed.
