(* ===== verification/WorkerSystem.v ===== *)
(** * The model runner: theorems

    A new runner, the steps it takes, and the properties of the batch that hold after any
    sequence of them; and, on small examples, where the batch loses track of a request. *)

From Stdlib Require Import SpecFloat.
From stdpp Require Import sorting relations.
From S2P Require Import Prelude BlockTable BlockTableProps InputBatch InputBatchProps InputBatchOps InputBatchMirror Reorder WorkerStates WorkerRows WorkerProps.

(** ** A new batch *)

Lemma rmap_inv {A B} (f : A -> res B) l ys : rmap f l = Ok ys -> Forall2 (fun x y => f x = Ok y) l ys.
Proof.
  revert ys. induction l as [|x l IH]; intros ys; cbn [rmap]; [intros [= <-]; constructor|]. destruct (f x) as [y|] eqn:E; [|done]. cbn [rbind].
  destruct (rmap f l) as [ys'|]; [|done]. cbn [rbind]. intros [= <-]. constructor; [done|by apply IH].
Qed.

Lemma group_width_pos n bs mode v : 0 <= n -> 0 < bs -> group_width (n, bs, mode) = Ok v -> 0 <= v.
Proof.
  intros Hn Hb. unfold group_width, get_block_table_width. simpl default. rewrite (proj2 (Z.eqb_neq bs 0)) by lia. rewrite Z.mod_same by lia. simpl negb. cbn match.
  destruct mode; simpl; intros [= <-]; [|apply Z.div_pos; nia].
  assert (Hg : 0 < Z.gcd 128 bs) by (pose proof (Z.gcd_nonneg 128 bs); destruct (Z.eq_dec (Z.gcd 128 bs) 0) as [E|]; [apply Z.gcd_eq_0_l in E; lia|lia]).
  assert (Ha : 0 < 128 / Z.gcd 128 bs) by (apply Z.div_str_pos; split; [lia|apply Z.divide_pos_le; [lia|apply Z.gcd_divide_l]]).
  pose proof (cdiv_spec n _ Ha). apply Z.div_pos; [|lia]. assert (0 <= cdiv n (128 / Z.gcd 128 bs)) by nia. nia.
Qed.

Lemma new_table_max block_size max_num_reqs width max_tokens kernel_block_size interleave dcp mode t :
  new_block_table block_size max_num_reqs width max_tokens kernel_block_size interleave dcp mode = Ok t -> t.(bt_max_num_reqs) = max_num_reqs.
Proof. unfold new_block_table. repeat case_match; try done; by intros [= <-]. Qed.

Lemma new_multi_ok n max_tokens bs ks ns interleave modes dcp ts :
  Forall (fun b => 0 < b) bs -> Forall (fun b => 0 < b) ks -> Forall (fun k => 0 <= k) ns ->
  new_multi_group n max_tokens bs ks ns interleave modes dcp = Ok ts -> Forall2 (TableOk n) (replicate (length ts) (replicate n [])) ts.
Proof.
  intros Hb Hk Hn. unfold new_multi_group. do 3 (case_match; [done|]). destruct (rmap group_width _) as [widths|] eqn:Ew; [|done]. cbn [rbind].
  intros Hr%rmap_inv. apply rmap_inv in Ew.
  assert (Hw : Forall (fun v => 0 <= v) widths).
  { apply Forall_lookup. intros j v Hj. destruct (Forall2_lookup_r _ _ _ _ _ Ew Hj) as ([[k b] mode] & Hx & Hg). apply lookup_zip_with_Some in Hx as (kb & m & [= <- <-] & Hkb & _).
    apply lookup_zip_with_Some in Hkb as (k' & b' & [= -> ->] & Hk' & Hb'). rewrite Forall_lookup in Hb, Hn. eapply group_width_pos; [by eapply Hn|by eapply Hb|done]. }
  apply Forall2_lookup. intros j. destruct (ts !! j) as [t|] eqn:Ht.
  - rewrite lookup_replicate_2 by (by eapply lookup_lt_Some). constructor. destruct (Forall2_lookup_r _ _ _ _ _ Hr Ht) as ([[[b k] v] mode] & Hx & Hnew).
    apply lookup_zip_with_Some in Hx as (bkv & m & [= <- <-] & Hbkv & _). apply lookup_zip_with_Some in Hbkv as (bk & v' & [= <- <-] & Hbk & Hv).
    apply lookup_zip_with_Some in Hbk as (b' & k' & [= -> ->] & Hb' & Hk'). rewrite Forall_lookup in Hb, Hk, Hw.
    split; [eapply new_table_rows; [by eapply Hk|by eapply Hb|by eapply Hw|done]|by eapply new_table_max].
  - apply lookup_ge_None_1 in Ht. rewrite lookup_ge_None_2 by (rewrite length_replicate; lia). constructor.
Qed.

(** A runner at its start. *)
Record Fresh (st : Runner) (w : nat) : Prop := {
  fr_requests : st.(requests) = ∅;
  fr_length : st.(max_model_len) = Z.of_nat w;
  fr_batch : exists n max_tokens vocab bs ks ns pooling interleave replay modes dcp temp top_p freq pres rep top_k,
    new_input_batch n w max_tokens vocab bs ks ns pooling interleave replay modes dcp temp top_p freq pres rep top_k = Ok st.(input_batch)
    /\ Forall (fun b => 0 < b) bs /\ Forall (fun b => 0 < b) ks /\ Forall (fun k => 0 <= k) ns
    /\ Forall (fun l : list spec_float => length l = n) [temp; top_p; freq; pres; rep] /\ length top_k = n;
}.

Lemma fresh_runner_ok st w : Fresh st w -> exists mrows, RunnerOk st mrows w.
Proof.
  intros [Hr _ (n & max_tokens & vocab & bs & ks & ns & pooling & interleave & replay & modes & dcp & temp & top_p & freq & pres & rep & top_k & Hnew & Hb & Hk & Hn & Hf & Ht)].
  unfold new_input_batch in Hnew. destruct (new_multi_group n max_tokens bs ks ns interleave modes dcp) as [ts|] eqn:Em; [|done]. cbn [rbind] in Hnew. assert (Hnew' : forall (a b : InputBatch), Ok a = Ok b -> a = b) by congruence. apply Hnew' in Hnew. clear Hnew'.
  pose proof (new_multi_ok _ _ _ _ _ _ _ _ _ Hb Hk Hn Em) as Hts. exists (replicate (length ts) (replicate n [])). rewrite !Forall_cons in Hf. destruct_and! Hf.
  split; rewrite <- ?Hnew, ?Hr; simpl; try done.
  - split; simpl; [|intros name i; simpl; by rewrite lookup_empty, lookup_nil|intros i _; by intros _|done].
    split; simpl; rewrite ?length_replicate; try done; try lia; try (apply Forall_replicate; by rewrite length_replicate).
    + repeat (apply Forall_cons; split); [..|by apply Forall_nil]; rewrite ?length_replicate; done.
    + repeat (apply Forall_cons; split); [..|by apply Forall_nil]; done.
    + by intros k l _ [-> _]%lookup_replicate.
  - split; simpl; [|done|intros _ name _; unfold name_bits; simpl; by rewrite !bool_decide_false by set_solver|intros _ name i Hi; by rewrite lookup_empty in Hi]. split; simpl; [|intros l; by rewrite !lookup_empty|intros l ids Hl; by rewrite lookup_empty in Hl]. intros l name. split; [intros (ids & Hl & _); by rewrite lookup_empty in Hl|].
    intros (_ & i & Hi & _). by rewrite lookup_empty in Hi.
Qed.

(** ** The step *)

Lemma wp_assoc {S A B C} (m : M S A) (m' : M S B) (k : B -> M S C) s Q : wp (m ;; m') s (fun y s' => wp (k y) s' Q) -> wp (m ;; (y <- m' ;; k y)) s Q.
Proof. unfold wp, bind. destruct (m s) as [[x|] s1]; [|done]. by destruct (m' s1) as [[y|] s2]. Qed.

Section worker.
Context (iterate : gset ReqId -> list ReqId) (gp : Pooling -> Pooling).
Hypothesis iterate_elem : forall X name, name ∈ iterate X <-> name ∈ X.
Context (w : nat).

(** What a step makes of the requests: finished ones are forgotten, new ones arrive, the
    scheduled ones are updated, and no other changes. *)
Record Stepped (o : SchedulerOutput) (st st' : Runner) : Prop := {
  sp_new : forall d, d ∈ o.(scheduled_new_reqs) -> st'.(requests) !! d.(nr_req_id) = Some (incoming gp st.(input_batch).(is_pooling_model)
    (if decide (d.(nr_req_id) ∈ o.(finished_req_ids)) then None else st.(requests) !! d.(nr_req_id)) d);
  sp_cached : forall k name, o.(scheduled_cached_reqs).(cd_req_ids) !! k = Some name -> exists r r', CachedOk st w o k name r r' /\ st'.(requests) !! name = Some r';
  sp_other : forall name, o.(num_scheduled_tokens) !! name = None ->
    st'.(requests) !! name = if decide (name ∈ o.(finished_req_ids)) then None else st.(requests) !! name;
}.

Lemma cached_result_fits st o k name r r' : CachedOk st w o k name r r' -> fits_batch st.(input_batch) w o r'.
Proof. by intros [_ _ ?]. Qed.

Lemma update_states_wp st mrows o :
  RunnerOk st mrows w -> ScheduleOk gp st w o ->
  wp (update_states iterate gp o) st (fun _ st' => exists mrows', RunnerOk st' mrows' w /\ same_runner st st' /\ Stepped o st st'
    /\ (forall name, is_Some (st'.(input_batch).(req_id_to_index) !! name) <-> is_Some (o.(num_scheduled_tokens) !! name))
    /\ Drafted st'.(requests) o st'.(input_batch) mrows' /\ Ordered st' o).
Proof.
  intros HR HSO. unfold update_states. wp_step. eapply wp_mono; [by apply (leave_ok iterate iterate_elem o w st mrows)|].
  intros ? st1 (m1 & HL1 & Hs1 & Hreq1 & Hdom1). pose proof (arrive_ok iterate gp iterate_elem o w st st1 m1 HSO HL1 Hs1 Hreq1 Hdom1) as Harr.
  apply wp_assoc. eapply wp_mono; [exact Harr|]. clear Harr.
  intros to_add st2 (m2 & HA2 & Hok2 & Hs2 & Hx2 & Hnd & Hsub & Hnew & Hcached & Hrest). pose proof HSO as [Hndall Hnames Hroom HscN HscC].
  pose proof Hs2 as (_ & _ & _ & _ & Hset2). apply NoDup_app in Hndall as (Hndc & Hdis & Hndn). wp_step.
  eapply wp_mono; [apply (add_all_ok st2.(requests) o w Hok2 _ st2 m2 eq_refl HA2)|].
  - apply NoDup_app. split_and!; [done| |done]. intros name Hn Ha. eapply Hdis; [by apply Hsub|done].
  - destruct Hset2 as (-> & _). done.
  - intros name Hi. apply Hx2 in Hi as [Hi _]. apply Hnames, elem_of_app. by left.
  - intros name Hin. apply elem_of_app in Hin as [Hin|Hin].
    + split_and!.
      * apply eq_None_not_Some. intros [Hc _]%Hx2. by eapply Hdis.
      * apply Hnames, elem_of_app. by right.
      * apply list_elem_of_fmap in Hin as (d & -> & Hd). eexists. split; [by apply Hnew|]. eapply fits_setup; [exact Hset2|].
        rewrite (surviving_lookup iterate iterate_elem). by apply HscN.
    + split_and!.
      * apply eq_None_not_Some. intros [_ Hc]%Hx2. done.
      * apply Hnames, elem_of_app. left. by apply Hsub.
      * destruct (proj1 (list_elem_of_lookup _ _) (Hsub name Hin)) as [k Hk]. destruct (Hcached k name Hk) as (r & r' & Hc & Hr'). exists r'. split; [done|].
        eapply fits_setup; [exact Hset2|]. by eapply cached_result_fits.
  - intros ? st3 (b & m3 & -> & HA3 & Hs3 & Hx3).
    assert (Hall : forall name, is_Some (b.(req_id_to_index) !! name) <-> is_Some (o.(num_scheduled_tokens) !! name)).
    { intros name. rewrite Hx3, Hx2, Hnames, !elem_of_app. destruct (decide (name ∈ to_add)) as [Ht|Ht]; [pose proof (Hsub name Ht); tauto|tauto]. }
    eapply wp_mono; [apply (settle_ok st2.(requests) o w (set_batch b st2) m3 eq_refl Hok2 HA3); intros name; apply Hall|].
    intros ? st' (m & HR' & Hs' & Hreq' & Hdom' & HD & HOrd). exists m. rewrite Hreq'. split_and!; [done| |split; rewrite ?Hreq'| |done|done].
    + etrans; [exact Hs2|]. etrans; [|exact Hs']. split_and!; done.
    + intros d Hd. rewrite <- (surviving_lookup iterate iterate_elem). by apply Hnew.
    + done.
    + intros name Hn. rewrite <- (surviving_lookup iterate iterate_elem). by apply Hrest.
    + intros name. by rewrite Hdom', Hall.
Qed.

(** ** Runs *)

(** What the engine hands to a runner: the output of the scheduler, and the tokens sampled
    for the rows of the batch. *)
Inductive WorkerInput :=
| Scheduled (o : SchedulerOutput)
| Sampled (valid_sampled_token_ids : list (list Z)).

Definition worker_op (x : WorkerInput) : runnerM unit :=
  match x with
  | Scheduled o => update_states iterate gp o
  | Sampled ids => record_rows 0 ids
  end.

Definition input_ok (st : Runner) (x : WorkerInput) : Prop :=
  match x with
  | Scheduled o => ScheduleOk gp st w o
  | Sampled sampled => forall i ids, sampled !! i = Some ids -> sampled_ok st w i ids
  end.

Inductive worker_reachable : Runner -> Prop :=
| wr_fresh st : Fresh st w -> worker_reachable st
| wr_step st x st' : worker_reachable st -> input_ok st x -> worker_op x st = (Ok tt, st') -> worker_reachable st'.

Lemma worker_op_wp st mrows x : RunnerOk st mrows w -> input_ok st x -> wp (worker_op x) st (fun _ st' => exists mrows', RunnerOk st' mrows' w).
Proof.
  intros HR Hx. destruct x as [o|sampled]; simpl in *.
  - eapply wp_mono; [by apply (update_states_wp st mrows o)|]. intros ? st' (m & HR' & _). by exists m.
  - eapply wp_mono; [by apply (record_rows_ok sampled 0 st mrows w)|]. intros ? st' (HR' & _). by exists mrows.
Qed.

Lemma worker_inv st : worker_reachable st -> exists mrows, RunnerOk st mrows w.
Proof.
  induction 1 as [st Hf|st x st' _ [mrows HR] Hx Hrun]; [by apply fresh_runner_ok|].
  pose proof (worker_op_wp st mrows x HR Hx) as Hw. unfold wp in Hw. by rewrite Hrun in Hw.
Qed.


End worker.

(** ** An example: two requests arrive, both are sampled, and one of them ends *)

Definition demo_zero : spec_float := S754_zero false.
Definition demo_one : spec_float := binary_normalize 53 1024 1 0 false.

Definition demo_params (allowed : list Z) : SamplingParams :=
  mkSamplingParams true demo_zero demo_one 0 demo_zero demo_zero demo_one None None allowed [] None None.

Definition demo_new (name : ReqId) (prompt : list Z) (blocks : list Z) (lora : option (Z * object)) : NewRequestData :=
  mkNewRequestData name (Some prompt) None None (Some (demo_params [])) None [blocks] 0 lora.

Definition no_batch : InputBatch :=
  mkInputBatch 0 0 false false [] ∅ [] [] (mkTokens [] [] ∅ [] [] [] []) (mkParams [] [] [] [] [] [] [] ∅ ∅ None)
    (mkNames ∅ ∅ ∅ ∅ ∅ ∅ ∅ ∅ ∅ ∅ None) (mkLoras [] ∅ ∅) (mkPools ∅ []) [] (mkBuilder [] false [] [] false).

Definition demo_batch_res (is_pooling : bool) : res InputBatch :=
  new_input_batch 3 8 16 4 [64] [64] [2] is_pooling 1 false None None (replicate 3 demo_zero) (replicate 3 demo_zero) (replicate 3 demo_zero)
    (replicate 3 demo_zero) (replicate 3 demo_zero) (replicate 3 0).

Definition demo_new_batch (is_pooling : bool) : InputBatch := match demo_batch_res is_pooling with Ok b => b | Raise _ => no_batch end.

Definition demo_start : Runner := mkRunner true true (Some 1) 8 ∅ ∅ (demo_new_batch false).

Definition demo_output1 : SchedulerOutput :=
  mkSchedulerOutput ∅ {[ "a" := 3; "b" := 2 ]} [demo_new "a" [1; 2; 3] [5] (Some (7, 70)); demo_new "b" [2; 1] [6] None] (mkCachedRequestData [] ∅ [] [] [] []) ∅.

Definition demo_sampled : WorkerInput := Sampled [[1]; [3]].

Definition demo_output2 : SchedulerOutput :=
  mkSchedulerOutput {[ "a" ]} {[ "b" := 2 ]} [] (mkCachedRequestData ["b"] ∅ [] [Some [[9]]] [2] [1%nat]) {[ "b" := [0] ]}.

Notation demo_op := (worker_op elements (fun q => q)).

Definition demo_runner1 : Runner := (demo_op (Scheduled demo_output1) demo_start).2.
Definition demo_runner2 : Runner := (demo_op demo_sampled demo_runner1).2.
Definition demo_runner3 : Runner := (demo_op (Scheduled demo_output2) demo_runner2).2.

Lemma demo_fresh : Fresh demo_start 8.
Proof.
  split; [done|done|]. eexists 3%nat, 16%nat, 4, [64], [64], [2], false, 1, false, None, None, _, _, _, _, _, _.
  split_and!; [vm_compute; reflexivity|..]; [by repeat constructor|by repeat constructor|by repeat constructor| |reflexivity].
  repeat (apply Forall_cons; split); [..|by apply Forall_nil]; reflexivity.
Qed.

Lemma demo_runs1 : demo_op (Scheduled demo_output1) demo_start = (Ok tt, demo_runner1).
Proof. vm_compute. reflexivity. Qed.

Lemma demo_runs2 : demo_op demo_sampled demo_runner1 = (Ok tt, demo_runner2).
Proof. vm_compute. reflexivity. Qed.

Lemma demo_runs3 : demo_op (Scheduled demo_output2) demo_runner2 = (Ok tt, demo_runner3).
Proof. vm_compute. reflexivity. Qed.

(** A request of a batch with one table of plain blocks. *)
Lemma demo_state_fits s o r t prompt ids :
  s.(tables) = [t] -> t.(blocks_per_kv_block) = 1 -> t.(max_num_blocks_per_req) = 2 -> s.(is_pooling_model) = false ->
  r.(prompt_token_ids) = Some prompt -> r.(prompt_embeds) = None -> r.(prompt_is_token_ids) = None -> r.(block_ids) = [ids] ->
  Forall (fun i => 0 <= i < 100) ids -> Z.of_nat (length ids) <= 2 -> r.(sampling_params) = Some (demo_params []) ->
  (forall l q, r.(lora_request) = Some (l, q) -> l <> 0) ->
  (length prompt + length r.(output_token_ids) + length (default [] (o.(scheduled_spec_decode_tokens) !! r.(req_id))) <= 8)%nat -> fits_batch s 8 o r.
Proof.
  intros Ht Hb Hm Hp E1 E2 E3 E4 Hids Hl Es Hlora Hlen.
  assert (En : length_from_prompt_token_ids_or_embeds r.(prompt_token_ids) r.(prompt_embeds) = Ok (Z.of_nat (length prompt))) by (by rewrite E1, E2).
  assert (Ep : prompt_len r = Z.of_nat (length prompt)) by (unfold prompt_len; by rewrite En).
  assert (Et : total_len r = (length prompt + length r.(output_token_ids))%nat) by (unfold total_len, cr_num_tokens; lia).
  split; [split|rewrite Et; exact Hlen].
  - eexists. split; [exact En|lia].
  - unfold prompt_flags. rewrite E1, E3. by rewrite length_replicate.
  - rewrite Et. lia.
  - rewrite Ht, E4. constructor; [|constructor]. split.
    + eapply Forall_impl; [exact Hids|]. intros i Hi. simpl in Hi. unfold id_ok. rewrite Hb. lia.
    + unfold fits. rewrite Hb, Hm. lia.
  - rewrite Hp, Es. by eexists.
  - exact Hlora.
  - intros p. rewrite Es. intros [= <-]. by apply Forall_nil.
Qed.

Ltac demo_fit prompt ids :=
  eapply (demo_state_fits _ _ _ _ prompt ids); [vm_compute; reflexivity ..| | |vm_compute; reflexivity| |];
  [repeat constructor; done|done|by intros l q [= <- <-] || by intros l q [=]|vm_compute; lia].

Lemma demo_schedule1 : ScheduleOk (fun q => q) demo_start 8 demo_output1.
Proof.
  split.
  - apply (bool_decide_unpack _). vm_compute. exact I.
  - intros name. change (name ∈ _) with (name ∈ ["a"; "b"]). unfold demo_output1. simpl. rewrite !elem_of_cons, elem_of_nil. split.
    + intros [k [[<- _]|[_ [<- _]%lookup_singleton_Some]]%lookup_insert_Some]; tauto.
    + intros [->|[->|[]]]; vm_compute; by eexists.
  - vm_compute. lia.
  - intros d [->|[->|Hd%elem_of_nil]%elem_of_cons]%elem_of_cons; [| |done]; rewrite decide_False by apply not_elem_of_empty.
    + demo_fit [1; 2; 3] [5].
    + demo_fit [2; 1] [6].
  - intros k name Hk. by destruct k.
Qed.

Lemma demo_samples : input_ok (fun q => q) 8 demo_runner1 demo_sampled.
Proof.
  intros [|[|i]] ids Hi; [| |done]; [exists "a"|exists "b"]; eexists; (split_and!; [vm_compute; reflexivity|vm_compute; reflexivity| |]); injection Hi as <-; vm_compute; congruence.
Qed.

Lemma demo_schedule2 : ScheduleOk (fun q => q) demo_runner2 8 demo_output2.
Proof.
  split.
  - apply (bool_decide_unpack _). vm_compute. exact I.
  - intros name. change (name ∈ _) with (name ∈ ["b"]). unfold demo_output2. simpl. rewrite list_elem_of_singleton. split.
    + by intros [k [<- _]%lookup_singleton_Some].
    + intros ->. vm_compute. by eexists.
  - vm_compute. lia.
  - intros d Hd. by apply elem_of_nil in Hd.
  - intros [|k] name Hk; [|done]. injection Hk as <-. split; [unfold demo_output2; simpl; intros ?%elem_of_singleton; done|]. eexists _, _. split; [vm_compute; reflexivity| |].
    + eexists 2, (Some [[9]]), 1%nat, [].
      do 3 (split; [reflexivity|]). split; [intros H; vm_compute in H; discriminate H|]. split; [|split; [|reflexivity]]; [unfold demo_output2; simpl; intros H; by apply elem_of_empty in H|by intros b [= <-] _].
    + demo_fit [2; 1] [6; 9].
Qed.

Lemma demo_reachable2 : worker_reachable elements (fun q => q) 8 demo_runner2.
Proof.
  refine (wr_step elements (fun q => q) 8 demo_runner1 demo_sampled demo_runner2 _ demo_samples demo_runs2).
  refine (wr_step elements (fun q => q) 8 demo_start (Scheduled demo_output1) demo_runner1 _ demo_schedule1 demo_runs1).
  exact (wr_fresh elements (fun q => q) 8 demo_start demo_fresh).
Qed.



(** ** Where the batch loses track *)

Definition demo_request (name : ReqId) (allowed : list Z) : CachedRequestState :=
  mkCached name (Some [1]) None None [] 0 [[5]] (Some (demo_params allowed)) None None None.

Definition demo_masked : InputBatch :=
  ((add_request (demo_request "a" [0]) ;; add_request (demo_request "b" [3])) (demo_new_batch false)).2.

(** The mask of the row of a request: true where a token is excluded. *)
Definition mask_of (s : InputBatch) (name : ReqId) : option (list bool) :=
  i ← s.(req_id_to_index) !! name; mask ← s.(params).(allowed_mask); mask !! i.


Definition demo_pooled (name : ReqId) (requires : bool) : CachedRequestState :=
  mkCached name (Some [1]) None None [] 0 [[5]] None (Some (mkPooling 1 requires)) None None.

(** The flag that a pooling request needs its prompt tokens stays in its old row. *)
Lemma condense_loses_pooling_flag :
  exists s s', (add_request (demo_pooled "a" false) ;; add_request (demo_pooled "b" true) ;; remove_request "a") (demo_new_batch true) = (Ok (Some 0%nat), s)
    /\ condense s = (Ok tt, s') /\ s'.(pools).(pooling_params) !! "b" = Some (mkPooling 1 true) /\ s'.(req_ids) = [Some "b"] /\ needs_prompt_token_ids s' = false.
Proof. eexists _, _. split; [vm_compute; reflexivity|]. split_and!; vm_compute; reflexivity. Qed.
